(* ===== verification/_CoqProject ===== *)
-Q . S2P
Prelude.v
Bits.v
Search.v
Container.v
Optimize.v
SetOps.v
Cardinality.v
Delta.v
ContainerSpec.v
Page.v
Sample.v
Leaf.v
Branch.v
Chain.v
Meta.v
Freelist.v
Snapshot.v
Roots.v
Pager.v
PageSpec.v
Store.v
Crash.v
SampleStore.v
StoreSpec.v
Txn.v
Durable.v
Hazards.v
PageAudit.v
BTree.v
BTreeWrite.v
BTreeOwn.v
BTreeBuild.v
BTreeItem.v
BTreeEdit.v
BTreePut.v
BTreeShow.v
BTreeWalk.v
BTreeSpec.v
WalkSpec.v
Fragment.v
RangeMap.v
RangeMapSpec.v
Raft.v
Controller.v
Consensus.v
RaftNode.v
ControllerSpec.v
RaftNet.v
RaftSpec.v
RaftState.v
HazardsRaft.v
OrdMap.v
Coords.v
RowSet.v
FragRead.v
Bsi.v
Group.v
FragWrite.v
FragStore.v
Fields.v
FieldSpec.v
EngineSpec.v
Calendar.v
CalendarSpec.v
Column.v
ColumnSpec.v
Segment.v
SegmentSpec.v
Engines.v
Like.v
Keys.v
KeysSpec.v
Rbac.v
RbacStore.v
RbacSpec.v
