(* ===== verification/Prelude.v ===== *)
(** Verification of bigdb: the storage engine, from containers to b-trees, the engines over it, and
    the agreement of a cluster about who holds what.

    bigdb is a bitmap database written in Rust.  A row of a field is a set of column ids, cut into
    containers of 2^16 values; the containers of a fragment are the cells of one b-tree; the trees
    of a file share one array of 8 KiB pages; and a file is changed only by transactions that copy
    on write and end by flipping one of two meta pages.  There is no write-ahead log: everything the
    database promises about crashes, about readers and about its own space rests on the four crates
    the first part of this library models.  Over them is the bitmap engine, which makes facts and values
    of fields out of containers.  Above one file is a cluster: the space of shards is cut
    into ranges held by groups of nodes, and which node serves which range is decided by a Raft
    agreement of the cluster's own, which the last part models.

    * The parts of the program and the files that model them

    - crates/big-container, a container as a set of 16-bit values.
      Container.v has the three representations ([Container] for [ContainerRef]), [cardinality],
      [contains], the iterator ([Iter], [next]) and [is_well_formed]; Optimize.v has [optimize],
      [to_runs], [insert], [remove], [from_values]; SetOps.v has [apply] with its dispatch, its
      shortcuts and its five kernels, and [fold]; Cardinality.v has [and_cardinality]; Delta.v has
      the delta of a dense container.  ContainerSpec.v states what they promise together.
    - crates/big-page, the bytes of a page.
      Page.v has the layout constants, the header, the checksum, [validate_cell_index] and the keys;
      Leaf.v, Branch.v, Chain.v and Meta.v have the four kinds of page, each with its parser and its
      builder.  PageSpec.v states the round trips, and that no bytes make a parser panic.
    - crates/big-pager, pages in a file.
      Freelist.v, Snapshot.v and Roots.v have the three registries the metas name; Pager.v has the
      [Pager] and [PagerMut] traits as classes with their laws ([PagerLaws]), the in-memory backend
      and the walks over chains; Store.v has recovery ([load]), readers and the reclaim horizon, the
      commit ([commit_txn], cut into [plan_commit] and [write_and_flip]) and [truncate_tail]; Txn.v
      has [WriteTxn] and the step relation of a transaction at work beside readers; PageAudit.v has
      the page audit.  StoreSpec.v states what the registries promise.
    - crates/big-btree, the tree of a fragment.
      BTree.v has the readers ([find], [find_many], [scan], [count], [collect]) and what a tree is
      ([tree_at]); BTreeWrite.v has the whole of write.rs and BTreeWalk.v the whole of walk.rs.
      BTreeOwn.v has the vocabulary of their theory - which pages a tree occupies ([own_tree]) and
      what an operation may have done ([evolves]); BTreeBuild.v, BTreeItem.v, BTreeEdit.v and
      BTreePut.v have the theory of building, of what a container becomes in a leaf, of replacing a
      span of leaves along a path, and of whole mutations; BTreeShow.v has the map of containers a
      reader sees ([shows]).  BTreeSpec.v and WalkSpec.v state what readers, writers and walks
      promise.
    - Fragment.v puts the four crates together: containers written into a fragment, its root moved,
      the transaction committed, the machine stopped anywhere.
    - Crash.v is not code of the program but the machine under it: a disk that remembers what no
      flush has covered, and the files a machine may come back with ([crash_image]).  Durable.v runs
      whole transactions on it.  Hazards.v has two runs in which a promise of the sources' comments
      does not hold.

    - crates/big-cluster/src/raft.rs and controller.rs, the agreement.
      RangeMap.v has the map of ranges, its check and every operation on it, RangeMapSpec.v what they
      promise.  Raft.v has one node: a record, and [tick], [propose] and [deliver] with the handler
      of every message, elections, compaction, snapshots and membership; the source keeps clock and
      network out of it, so each is a function from a node to a node and an [Output].  Controller.v
      has the turn of the thread that drives a node, the lease, what the leader proposes by itself
      and what an operator may propose; ControllerSpec.v states what these promise.  RaftState.v has
      the bytes of a node's file.  Consensus.v is not code but the specification: the rules of
      agreement over whole logs and facts that stay said, and the proof that they agree.  RaftNode.v
      has what a node does by itself, RaftNet.v nodes, their files and a network, and the simulation
      of that system by the rules; RaftSpec.v states what follows.  HazardsRaft.v has four runs in
      which a promise of the comments does not hold.

    - crates/big-engine/src/base/coords.rs and src/bitmap, the bitmap engine.
      A fact (row, record) of a shard is one bit of one container of a fragment's tree.  OrdMap.v has
      [BTreeMap] as an ordered association list; Coords.v the arithmetic from facts to container keys
      and back; RowSet.v a row as a set ([combine] and the iterators); FragRead.v every reader of a
      fragment, and [Facts], the class of what a fragment promises to the fields; Group.v the grouping
      of a batch by container, on one thread or many; FragWrite.v every writer, over the handle
      ([FragmentWrite]) and the transaction.  Bsi.v has the readers of bit-sliced integers, proved
      against [Facts]; Fields.v the writers of bit-sliced, set, bool and mutex fields and their
      readers.  FragStore.v has the theory of the writers over the trees, FieldSpec.v that of fragments
      as facts ([says], [leaves]) and of two fragments in one transaction ([both]); EngineSpec.v states
      what the engine promises.
    - crates/big-civil and crates/big-engine/src/bitmap/field/quantum.rs, dates.
      Calendar.v has day counts and dates, their text, rounding to a unit and the names of the time
      views of an instant, at the width of an [i64]; CalendarSpec.v the theory over [day_number], the
      proleptic Gregorian calendar written as arithmetic, and what the code promises.
    - crates/big-engine/src/columnar, columns beside the bitmaps.
      Column.v has the keys of blocks (mod.rs), the four encodings of values (codec.rs) and a block of
      1024 cells with the parts it is stored as (block.rs); ColumnSpec.v states what they promise.
      Segment.v has the readers and the writers of a column over its tree (read.rs, write.rs), and
      SegmentSpec.v the column as a map from block numbers to blocks ([column], [segment]).
    - crates/big-engine/src/base/engine.rs, field_kind.rs and the descriptors of the engines: Engines.v,
      with the trait of sinks as a class and what each engine tells one of a fact.
    - crates/big-keys, the dictionary of row keys: Keys.v, with the step relation of a store and what
      it promises in KeysSpec.v.  crates/big-db/src/like.rs, the match of a key against a pattern:
      Like.v.  crates/big-rbac, roles and grants: Rbac.v; RbacStore.v has the statements of
      crates/big-embed/src/lib.rs that change them ([create_role], [set_grant]) and the part of
      crates/big-db/src/catalog.rs that writes them as records and loads them ([rbac_encode],
      [rbac_from_entries]); RbacSpec.v what they promise.

    Prelude.v has the result monad [Res], which keeps a panic as a value beside [Ok] and [Err], and
    the lemmas on ascending lists; Bits.v has machine words, little-endian bytes and byte slices;
    Search.v has binary search; Sample.v and SampleStore.v have an instance of the code taken from
    outside and a small file made with it, on which the theorems are tried.

    * How the model reads

    Integers are [Z] with the wrap-around written where the code has it ([mod 2 ^ 16] for an
    [as u16], [wrap32] for a [u32] sum); bytes are [Z] below 256; a page is the list of its 8,192
    bytes, and every read and write of a range panics out of range as Rust's does.  A [BTreeMap] is
    an association list in key order, the map of readers a [gmap].  Mutation is state passing: a
    builder, a transaction and a store are values the operations return.  A write transaction
    borrows its store, so the store is an argument beside it; that there is one writer is what
    [write_lock] guarantees and what makes a commit a function.  Loops that are not structural take
    fuel: the length of the list, the window of the search, the number of pages of the file, 32 for
    the depth of a tree (a limit of the code itself).  Where running out would be visible it is
    [Panic], and a theorem shows it is not reached: [freelist_pages_settle], [load_chain_total],
    [btree_build], [set_op_correct].

    crc32fast and bytemuck are parameters ([Extern]); [ExternLaws] is their documented behaviour:
    a crc is a [u32], a cast of aligned bytes of the right length reads them little-endian.  No
    theorem assumes that a checksum never collides; a torn meta page is one whose checksum fails.

    * What the theorems show

    Durable.v: a transaction is atomic under power loss at any moment of its commit
    ([transaction_crash_atomic]), readers do not see it ([reader_isolated]), what it publishes is
    what it built ([commit_publishes]) and what a reopened file shows ([commit_then_load]), and no
    page ever has two owners ([one_owner_per_page]).  Fragment.v: the containers of a fragment are
    durable, from the write path down to the disk and back ([fragment_write_durable]).  BTreeSpec.v:
    the readers agree with the list of cells a tree stands for; building returns a tree of its items;
    writing containers, writing items and removing are the operations of an ordered map, and give
    back exactly the pages they replace.  WalkSpec.v: a copy shows the same containers, a scrub that
    returns has checked everything reachable, freeing gives back a tree's pages and no other.
    ContainerSpec.v: every operation agrees with the set, whatever the representation.
    PageSpec.v: what is built parses back, and parsing never panics.  StoreSpec.v and PageAudit.v:
    the freelist is a bag of stamped pages that allocation, trimming, scratch and compaction respect,
    the registries are maps, opening a file has the three outcomes it should, and on a sound file the
    audit is clean exactly when every page is accounted for and none in use may be handed out again.  Hazards.v: a commit that drops a snapshot can
    destroy what the snapshot reads before it takes effect, and with durability [None] a crash can
    leave a file that does not open.

    RowSet.v and Group.v: rows are sets of records, and grouping a batch by table is grouping its bits
    one by one.  EngineSpec.v: the readers of a fragment tell the facts its containers hold
    ([fragment_reads]) and the writers change those they name and nothing else ([fragment_writes]); a
    bit-sliced value reads back ([bsi_set_get]), its comparisons and aggregates are those of the
    numbers ([bsi_queries], [bsi_aggregates]), and a mutex field keeps one row to a record and its
    check finds every other state ([mutex_keeps_one], [mutex_verify_exact]).  A row is below 2^44, so
    that its positions fit a [u64], and a field has at most 64 planes.  Every write is given room for
    34 * 454 pages per container it may touch ([per_key]), which bounds what rewriting a path can take;
    it may be refused as too deep only past 32 levels.

    CalendarSpec.v: day counts and dates that exist are in bijection ([calendar_roundtrip]), rounding
    is a half-open interval on both sides of the epoch ([rounding_brackets]), dates and timestamps parse
    back ([dates_as_text]) and day views sort by time ([day_views_sort]), all with the range in which
    they hold.  ColumnSpec.v: values and blocks read back, in no more than a page a part
    ([values_roundtrip], [block_roundtrip]); the class [Build] says whether sums are checked for
    overflow, and no bytes make decoding panic in a build that does not check, and only the sum of a
    bit-packed part in one that does ([decoding_never_panics]).  SegmentSpec.v: readers of a column
    answer for its map of blocks and writers update it, block by block ([column_reads],
    [column_writes]); a block number is below 2^56, so that its keys fit a [u64], and a write may be
    refused as too deep only past 32 levels.  Engines.v: the two halves of an engine are told the same
    values ([halves_agree]).  KeysSpec.v: the dictionary of row keys stays consistent in both directions
    ([keys_stay_consistent]), gives rows no field has used ([intern_gives_rows]), agrees with what it is
    told or refuses ([assign_refuses_conflicts]) and reads back ([keys_roundtrip]), while a counter of
    rows stays below 2^64.  Like.v: the greedy walk is the meaning of a pattern, with fuel for one
    restart per character ([like_is_matching]).  RbacSpec.v: roles and grants stay sound through every
    statement, no role id means two roles, and their records load as they were ([roles_stay_sound]), and a demand is allowed exactly by the union of the three levels
    that cover it ([decision_is_union]).

    RaftSpec.v: every run of a cluster of voters refines the rules ([raft_refines_rules]), so there is
    one leader to a term and one decision to a position ([raft_one_leader], [raft_agreement]), leaders
    have what was decided before them, and a restart forgets nothing that was promised.  The system
    delivers any message ever sent any number of times and in any order, and restarts any node at any
    moment between its turns; a crash inside a turn is a restart before it, since a turn saves before
    it sends.  The theorems are about clusters without learners, whose membership stands still and in
    which no snapshot is installed and nothing is proposed from outside a turn; HazardsRaft.v shows that a learner's vote, a late snapshot, an
    operator's proposal and a compaction during a proposal each break what the comments promise.
    RangeMapSpec.v: a checked map gives every shard one owner and stays checked.  ControllerSpec.v: a
    promotion is a map every check accepts and gives nothing to a copy that missed a write; a lease
    stands on a majority.  RaftState.v: a node's file reads back, and a torn one is refused.

    * Not modelled

    Of these crates: the mmap and file backends, their counters and metrics (io.rs, mmap.rs,
    counting.rs, metrics.rs) which are system calls and instrumentation; locks, condition variables
    and [Arc] beyond the fact that they serialise writers; error texts.  Of the agreement: threads,
    queues and the peer table of the controller, the file operations under a node's file, and the
    width of terms, positions and milliseconds, which only count up from zero.  The sinks engines
    tell, the rest of the catalog and the write path of the database, planning, execution, SQL, the rest of
    the cluster, the servers and the clients are not modelled. *)
From stdpp Require Export base gmap sorting numbers option list_numbers list.
From Stdlib Require Export ZifyBool.

#[global] Open Scope Z_scope.
#[export] Set Warnings "-clear-no-such-hyp".

(** * The result monad of fallible code

    [Ok] and [Err] are the two constructors of Rust's [Result]; [Panic] is what an out of range
    index, a failed [unwrap] or a failed [expect] does.  Keeping the panic as a value is what lets
    a theorem say that a parser never reaches one. *)
Inductive Res (E A : Type) : Type :=
| Ok (a : A)
| Err (e : E)
| Panic.
Arguments Ok {E A} _.
Arguments Err {E A} _.
Arguments Panic {E A}.

#[export] Instance Res_ret {E} : MRet (Res E) := λ A a, Ok a.
#[export] Instance Res_bind {E} : MBind (Res E) := λ A B f m,
  match m with Ok a => f a | Err e => Err e | Panic => Panic end.
#[export] Instance Res_fmap {E} : FMap (Res E) := λ A B f m,
  match m with Ok a => Ok (f a) | Err e => Err e | Panic => Panic end.

(** [o.ok_or(e)]. *)
Definition ok_or {E A} (o : option A) (e : E) : Res E A :=
  match o with Some a => Ok a | None => Err e end.

(** [o.unwrap()] and [o.expect(..)]. *)
Definition unwrap {E A} (o : option A) : Res E A :=
  match o with Some a => Ok a | None => Panic end.

(** [r.map_err(f)], which is also what [?] does through [From]. *)
Definition map_err {E F A} (f : E → F) (r : Res E A) : Res F A :=
  match r with Ok a => Ok a | Err e => Err (f e) | Panic => Panic end.

(** [.collect::<Result<Vec<_>, _>>()] of a mapped sequence: left to right, stopping at the
    first error. *)
Fixpoint res_mapM {E A B} (f : A → Res E B) (l : list A) : Res E (list B) :=
  match l with
  | [] => Ok []
  | x :: l' => y ← f x; ys ← res_mapM f l'; Ok (y :: ys)
  end.

Definition is_ok {E A} (r : Res E A) : bool :=
  match r with Ok _ => true | _ => false end.

(** A value rather than a panic. *)
Definition no_panic {E A} (r : Res E A) : Prop := r ≠ Panic.

Lemma bind_ok {E A B} (m : Res E A) (f : A → Res E B) b :
  (m ≫= f) = Ok b ↔ ∃ a, m = Ok a ∧ f a = Ok b.
Proof. destruct m; simpl; naive_solver. Qed.

Lemma no_panic_bind {E A B} (m : Res E A) (f : A → Res E B) :
  no_panic m → (∀ a, m = Ok a → no_panic (f a)) → no_panic (m ≫= f).
Proof. unfold no_panic. destruct m; simpl; eauto. Qed.

Lemma no_panic_map_err {E F A} (f : E → F) (m : Res E A) :
  no_panic m → no_panic (map_err f m).
Proof. unfold no_panic. by destruct m. Qed.

Lemma map_err_ok {E F A} (f : E → F) (m : Res E A) a :
  map_err f m = Ok a ↔ m = Ok a.
Proof. destruct m; simpl; split; congruence. Qed.

Lemma res_mapM_ok {E A B} (f : A → Res E B) l ys :
  res_mapM f l = Ok ys ↔ Forall2 (λ x y, f x = Ok y) l ys.
Proof.
  revert ys. induction l as [|x l IH]; intros ys; simpl.
  - split; [intros [= <-]; constructor|]. by inversion 1.
  - rewrite bind_ok. setoid_rewrite bind_ok. split.
    + intros (y & Hy & ys' & Hys & [= <-]). constructor; [done|]. by apply IH.
    + inversion 1; subst. eexists; split; [done|]. eexists; split; [by apply IH|done].
Qed.

Lemma no_panic_mapM {E A B} (f : A → Res E B) l :
  Forall (λ x, no_panic (f x)) l → no_panic (res_mapM f l).
Proof.
  induction 1 as [|x l Hx Hl IH]; simpl; [done|].
  apply no_panic_bind; [done|]. intros y _. by apply no_panic_bind.
Qed.

(** Splits a hypothesis that a chain of binds returned [Ok]. *)
Ltac inv_ok :=
  repeat match goal with
  | H : (_ ≫= _) = Ok _ |- _ =>
      apply bind_ok in H; let a := fresh "a" in let Ha := fresh "Ha" in
      destruct H as (a & Ha & H)
  | H : Ok _ = Ok _ |- _ => injection H as H; subst
  | H : Err _ = Ok _ |- _ => discriminate H
  | H : Panic = Ok _ |- _ => discriminate H
  | H : mret _ = Ok _ |- _ => injection H as H; subst
  | H : map_err _ _ = Ok _ |- _ => apply map_err_ok in H
  end.

(** Turns boolean comparisons on [Z] into hypotheses [lia] reads. *)
Ltac zbool :=
  repeat match goal with
  | H : context [Z.ltb ?a ?b] |- _ => destruct (Z.ltb_spec a b)
  | H : context [Z.leb ?a ?b] |- _ => destruct (Z.leb_spec a b)
  | H : context [Z.eqb ?a ?b] |- _ => destruct (Z.eqb_spec a b)
  | |- context [Z.ltb ?a ?b] => destruct (Z.ltb_spec a b)
  | |- context [Z.leb ?a ?b] => destruct (Z.leb_spec a b)
  | |- context [Z.eqb ?a ?b] => destruct (Z.eqb_spec a b)
  end.

(** * Strictly ascending lists *)
Abbreviation ascending := (StronglySorted Z.lt).

(** Two ascending lists with the same members are the same list: the way every routine below
    that walks values in order is compared with what it should produce. *)
Lemma ascending_ext (l k : list Z) :
  ascending l → ascending k → (∀ x, x ∈ l ↔ x ∈ k) → l = k.
Proof.
  intros Hl Hk Hin. apply (StronglySorted_unique_strong Z.lt); [lia|done..|].
  apply NoDup_Permutation; [| |done].
  - clear -Hl. induction Hl as [|x l Hl IH Hx]; constructor; [|done].
    rewrite Forall_forall in Hx. intros Hin%Hx. lia.
  - clear -Hk. induction Hk as [|x l Hl IH Hx]; constructor; [|done].
    rewrite Forall_forall in Hx. intros Hin%Hx. lia.
Qed.

Lemma ascending_seqZ m n : ascending (seqZ m n).
Proof.
  destruct (Z.le_gt_cases 0 n) as [Hn|Hn]; [|rewrite seqZ_nil by lia; constructor].
  revert m. pattern n. apply natlike_ind; [|clear n Hn; intros n Hn IH m|done].
  - intros m. rewrite seqZ_nil by lia. constructor.
  - rewrite seqZ_cons by lia. replace (Z.pred (Z.succ n)) with n by lia.
    constructor; [apply IH|]. apply Forall_forall. intros x Hx%elem_of_seqZ. lia.
Qed.

Lemma ascending_filter (f : Z → bool) l : ascending l → ascending (List.filter f l).
Proof.
  induction 1 as [|x l Hl IH Hx]; simpl; [constructor|].
  destruct (f x); [|done]. constructor; [done|].
  rewrite Forall_forall in Hx |- *. intros y [Hy _]%list_elem_of_In%filter_In.
  by apply Hx, list_elem_of_In.
Qed.

Lemma elem_of_Lfilter {A} (f : A → bool) l x : x ∈ List.filter f l ↔ x ∈ l ∧ f x = true.
Proof. by rewrite !list_elem_of_In, filter_In. Qed.

Lemma ascending_NoDup l : ascending l → NoDup l.
Proof.
  induction 1 as [|x l Hl IH Hx]; constructor; [|done].
  rewrite Forall_forall in Hx. intros Hin%Hx. lia.
Qed.

Lemma ascending_lookup_lt l i j x y :
  ascending l → l !! i = Some x → l !! j = Some y → (i < j)%nat → x < y.
Proof.
  intros Hl. revert i j. induction Hl as [|z l Hl IH Hz]; intros i j Hi Hj Hij; [done|].
  destruct j as [|j]; [lia|]. destruct i as [|i]; simpl in *.
  - simplify_eq. rewrite Forall_forall in Hz. apply Hz. by apply list_elem_of_lookup_2 in Hj.
  - eapply IH; eauto. lia.
Qed.

Lemma ascending_snoc l x : ascending l → Forall (λ y, y < x) l → ascending (l ++ [x]).
Proof.
  intros Hl Hx. apply StronglySorted_app_2; [|done|repeat constructor].
  intros y z Hy ->%list_elem_of_singleton. rewrite Forall_forall in Hx. by apply Hx.
Qed.

(** [w.windows(2).all(|w| w[0] < w[1])]. *)
Fixpoint strictly_ascending (l : list Z) : bool :=
  match l with
  | [] => true
  | x :: l' =>
      match l' with [] => true | y :: _ => (x <? y) && strictly_ascending l' end
  end.

Lemma strictly_ascending_spec l : strictly_ascending l = true ↔ ascending l.
Proof.
  split.
  - intros H. apply Sorted_StronglySorted; [intros x y z; lia|].
    induction l as [|x [|y l] IH]; [constructor..|repeat constructor|].
    simpl in H. apply andb_true_iff in H as [Hxy H].
    constructor; [by apply IH|constructor; lia].
  - induction 1 as [|x l Hl IH Hx]; [done|]. destruct l as [|y l]; [done|].
    change ((x <? y) && strictly_ascending (y :: l) = true).
    rewrite IH, andb_true_r. inversion Hx; subst. lia.
Qed.

(** * [List.find] *)
Lemma find_absent {A} (f : A → bool) l : (∀ x, x ∈ l → f x = false) → List.find f l = None.
Proof.
  induction l as [|x l IH]; intros H; [done|]. simpl. rewrite (H x) by (by left).
  apply IH. intros y Hy. apply H. by right.
Qed.

Lemma find_app {A} (f : A → bool) l k :
  List.find f (l ++ k) = match List.find f l with Some x => Some x | None => List.find f k end.
Proof. induction l as [|x l IH]; [done|]. simpl. by destruct (f x). Qed.
