(* ===== verification/Bits.v ===== *)
(** Machine words and bytes.

    A w-bit unsigned integer is a [Z] in [0, 2^w); this file has the word operations the sources
    use ([count_ones], [trailing_zeros], [!], [<<]), their meaning bit by bit, the little-endian
    byte form of an integer ([to_le_bytes], [from_le_bytes]), and slices of a byte buffer whose
    range is checked the way Rust checks it: out of range is a panic. *)
From S2P Require Import Prelude.

(** * 64-bit words *)
Definition u64_max : Z := 2 ^ 64 - 1.

(** [u64::count_ones]. *)
Fixpoint ones_pos (p : positive) : Z :=
  match p with xH => 1 | xO p' => ones_pos p' | xI p' => 1 + ones_pos p' end.
Definition count_ones (w : Z) : Z := match w with Z.pos p => ones_pos p | _ => 0 end.

(** [u64::trailing_zeros]. *)
Fixpoint ctz_pos (p : positive) : Z :=
  match p with xO p' => 1 + ctz_pos p' | _ => 0 end.
Definition trailing_zeros (w : Z) : Z := match w with Z.pos p => ctz_pos p | _ => 64 end.

(** [!w] on a [u64]. *)
Definition not64 (w : Z) : Z := Z.lxor w u64_max.

(** [w << s] on a [u64]: the bits past the top are dropped. *)
Definition shl64 (w s : Z) : Z := Z.land (Z.shiftl w s) u64_max.

(** The positions set in a word, ascending. *)
Definition bits (w : Z) : list Z := List.filter (Z.testbit w) (seqZ 0 64).

Definition word64 (w : Z) : Prop := 0 <= w < 2 ^ 64.

Lemma testbit_u64_max i : 0 <= i → Z.testbit u64_max i = (i <? 64).
Proof.
  intros Hi. unfold u64_max. rewrite Z.sub_1_r, <-Z.ones_equiv. by rewrite Z.testbit_ones_nonneg.
Qed.

Lemma testbit_not64 w i : 0 <= i → Z.testbit (not64 w) i = xorb (Z.testbit w i) (i <? 64).
Proof. intros Hi. unfold not64. by rewrite Z.lxor_spec, testbit_u64_max. Qed.

Lemma testbit_shl64 w s i :
  0 <= i → Z.testbit (shl64 w s) i = Z.testbit w (i - s) && (i <? 64).
Proof. intros Hi. unfold shl64. rewrite Z.land_spec, testbit_u64_max, Z.shiftl_spec by lia. done. Qed.

Lemma testbit_one i : Z.testbit 1 i = (i =? 0).
Proof. change 1 with (2 ^ 0). rewrite Z.pow2_bits_eqb by lia. apply Z.eqb_sym. Qed.

Lemma testbit_pow2 b i : 0 <= b → Z.testbit (Z.shiftl 1 b) i = (i =? b).
Proof.
  intros Hb. rewrite Z.shiftl_1_l, Z.pow2_bits_eqb by done.
  apply eq_true_iff_eq. lia.
Qed.

Lemma word64_testbit_high w i : word64 w → 64 <= i → Z.testbit w i = false.
Proof.
  intros [H0 H1] Hi. destruct (decide (w = 0)) as [->|]; [apply Z.testbit_0_l|].
  apply Z.bits_above_log2; [done|].
  apply Z.lt_le_trans with 64; [|done]. apply Z.log2_lt_pow2; lia.
Qed.

Lemma word64_of_testbit w : 0 <= w → (∀ i, 64 <= i → Z.testbit w i = false) → word64 w.
Proof.
  intros H0 H. split; [done|]. destruct (decide (w = 0)) as [->|]; [lia|].
  apply Z.log2_lt_pow2; [lia|].
  destruct (Z.lt_ge_cases (Z.log2 w) 64) as [?|Hge]; [done|].
  specialize (H _ Hge). rewrite Z.bit_log2 in H by lia. done.
Qed.

Lemma word64_land a b : word64 a → word64 (Z.land a b).
Proof.
  intros Ha. apply word64_of_testbit; [apply Z.land_nonneg; left; apply Ha|].
  intros i Hi. by rewrite Z.land_spec, (word64_testbit_high a).
Qed.
Lemma word64_lor a b : word64 a → word64 b → word64 (Z.lor a b).
Proof.
  intros Ha Hb. apply word64_of_testbit; [apply Z.lor_nonneg; split; [apply Ha|apply Hb]|].
  intros i Hi. by rewrite Z.lor_spec, !word64_testbit_high.
Qed.
Lemma word64_lxor a b : word64 a → word64 b → word64 (Z.lxor a b).
Proof.
  intros Ha Hb. apply word64_of_testbit; [apply Z.lxor_nonneg; split; intros; [apply Hb|apply Ha]|].
  intros i Hi. by rewrite Z.lxor_spec, !word64_testbit_high.
Qed.
Lemma word64_pow2 b : 0 <= b < 64 → word64 (Z.shiftl 1 b).
Proof.
  intros Hb. apply word64_of_testbit; [apply Z.shiftl_nonneg; lia|].
  intros i Hi. rewrite testbit_pow2 by lia. lia.
Qed.
Lemma word64_0 : word64 0. Proof. unfold word64. lia. Qed.
Create HintDb bits discriminated.
#[export] Hint Resolve word64_land word64_lor word64_lxor word64_pow2 word64_0 : bits.

(** ** Counting *)
Lemma filter_seqZ_succ (f : Z → bool) m n :
  0 <= n → List.filter f (seqZ m (Z.succ n)) =
    (if f m then [m] else []) ++ List.filter f (seqZ (Z.succ m) n).
Proof.
  intros Hn. rewrite seqZ_cons by lia. replace (Z.pred (Z.succ n)) with n by lia.
  simpl. by destruct (f m).
Qed.

Lemma filter_seqZ_shift (f : Z → bool) m k n :
  0 <= n → List.filter f (seqZ (k + m) n) = map (Z.add k) (List.filter (λ i, f (k + i)) (seqZ m n)).
Proof.
  intros Hn. rewrite <-fmap_add_seqZ. generalize (seqZ m n). intros l.
  induction l as [|x l IH]; [done|]. rewrite fmap_cons. simpl. rewrite IH.
  by destruct (f (k + x)).
Qed.

Lemma count_ones_width n w :
  0 <= n → 0 <= w < 2 ^ n → count_ones w = Z.of_nat (length (List.filter (Z.testbit w) (seqZ 0 n))).
Proof.
  intros Hn. revert w. pattern n. apply natlike_ind; [|clear n Hn; intros n Hn IH w Hw|done].
  - intros w Hw. replace w with 0 by lia. done.
  - rewrite filter_seqZ_succ by done. change (Z.succ 0) with (1 + 0).
    rewrite filter_seqZ_shift, length_app, length_map by done.
    assert (count_ones w = (if Z.testbit w 0 then 1 else 0) + count_ones (Z.div2 w)) as ->.
    { destruct w as [|[p|p|]|p]; simpl; try lia. }
    rewrite (IH (Z.div2 w)).
    2:{ rewrite Z.div2_div. rewrite Z.pow_succ_r in Hw by done.
        split; [apply Z.div_pos; lia|]. apply Z.div_lt_upper_bound; lia. }
    assert (List.filter (λ i, Z.testbit w (1 + i)) (seqZ 0 n) =
            List.filter (Z.testbit (Z.div2 w)) (seqZ 0 n)) as ->.
    { apply List.filter_ext_in. intros i Hi%list_elem_of_In%elem_of_seqZ.
      rewrite Z.div2_spec, Z.shiftr_spec by lia. f_equal; lia. }
    destruct (Z.testbit w 0); simpl; lia.
Qed.

Lemma count_ones_bits w : word64 w → count_ones w = Z.of_nat (length (bits w)).
Proof. intros Hw. by apply count_ones_width. Qed.

Lemma elem_of_bits w i : i ∈ bits w ↔ 0 <= i < 64 ∧ Z.testbit w i = true.
Proof. unfold bits. rewrite elem_of_Lfilter, elem_of_seqZ. split; intros [??]; (split; [lia|done]). Qed.

Lemma ascending_bits w : ascending (bits w).
Proof. apply ascending_filter, ascending_seqZ. Qed.

(** ** The lowest set bit: [trailing_zeros] and [w & (w - 1)] *)
Lemma trailing_zeros_nonneg p : 0 <= ctz_pos p.
Proof. induction p; simpl; lia. Qed.

Lemma testbit_ctz p : Z.testbit (Z.pos p) (ctz_pos p) = true.
Proof.
  induction p as [p IH|p IH|]; simpl; [done| |done].
  change (Z.pos p~0) with (2 * Z.pos p). pose proof (trailing_zeros_nonneg p).
  replace (1 + ctz_pos p) with (Z.succ (ctz_pos p)) by lia.
  by rewrite Z.testbit_even_succ.
Qed.

Lemma testbit_below_ctz p i : i < ctz_pos p → Z.testbit (Z.pos p) i = false.
Proof.
  revert i. induction p as [p IH|p IH|]; intros i Hi; simpl in Hi.
  - by rewrite Z.testbit_neg_r by lia.
  - destruct (Z.lt_ge_cases i 0); [by rewrite Z.testbit_neg_r by lia|].
    change (Z.pos p~0) with (2 * Z.pos p).
    destruct (decide (i = 0)) as [->|]; [by rewrite Z.testbit_even_0|].
    replace i with (Z.succ (i - 1)) by lia. rewrite Z.testbit_even_succ by lia. apply IH. lia.
  - by rewrite Z.testbit_neg_r by lia.
Qed.

Lemma testbit_clear_lowest p i :
  0 <= i → Z.testbit (Z.land (Z.pos p) (Z.pos p - 1)) i = Z.testbit (Z.pos p) i && negb (i =? ctz_pos p).
Proof.
  intros Hi. rewrite Z.land_spec. revert i Hi. induction p as [p IH|p IH|]; intros i Hi; simpl ctz_pos.
  - change (Z.pos p~1 - 1) with (2 * Z.pos p). change (Z.pos p~1) with (2 * Z.pos p + 1).
    destruct (decide (i = 0)) as [->|]; [by rewrite Z.testbit_even_0, andb_false_r|].
    replace i with (Z.succ (i - 1)) by lia.
    rewrite Z.testbit_even_succ, Z.testbit_odd_succ by lia.
    rewrite (proj2 (Z.eqb_neq _ _)) by lia. by destruct (Z.testbit _ _).
  - assert (Z.pos p~0 - 1 = 2 * (Z.pos p - 1) + 1) as -> by lia.
    change (Z.pos p~0) with (2 * Z.pos p). pose proof (trailing_zeros_nonneg p).
    destruct (decide (i = 0)) as [->|]; [by rewrite Z.testbit_even_0|].
    replace i with (Z.succ (i - 1)) by lia.
    rewrite Z.testbit_even_succ, Z.testbit_odd_succ by lia.
    rewrite IH by lia. f_equal. f_equal. lia.
  - change (1 - 1) with 0. rewrite Z.testbit_0_l, andb_false_r, testbit_one. lia.
Qed.

Lemma bits_unfold w :
  word64 w → w ≠ 0 → bits w = trailing_zeros w :: bits (Z.land w (w - 1)).
Proof.
  intros Hw H0. destruct w as [|p|p]; [done| |destruct Hw; lia].
  pose proof (trailing_zeros_nonneg p). pose proof (testbit_ctz p).
  apply ascending_ext; [apply ascending_bits| |].
  - constructor; [apply ascending_bits|]. apply Forall_forall. intros i [Hi Ht]%elem_of_bits.
    rewrite testbit_clear_lowest in Ht by lia. simpl.
    destruct (Z.lt_trichotomy i (ctz_pos p)) as [Hlt|[->|]]; [|rewrite Z.eqb_refl in Ht; lia|done].
    by rewrite testbit_below_ctz in Ht.
  - intros i. rewrite elem_of_cons, !elem_of_bits. simpl trailing_zeros. split.
    + intros [Hi Ht]. destruct (decide (i = ctz_pos p)) as [|Hne]; [by left|right].
      split; [done|]. rewrite testbit_clear_lowest, Ht by lia. simpl. lia.
    + intros [->|[Hi Ht]].
      * split; [|done]. split; [done|]. destruct (Z.lt_ge_cases (ctz_pos p) 64); [done|].
        by rewrite (word64_testbit_high (Z.pos p)) in *.
      * rewrite testbit_clear_lowest in Ht by lia. apply andb_true_iff in Ht as [Ht _]. done.
Qed.

Lemma bits_0 : bits 0 = [].
Proof. done. Qed.

(** * Little-endian integers *)
Fixpoint le_bytes (n : nat) (v : Z) : list Z :=
  match n with O => [] | S n' => v mod 256 :: le_bytes n' (v / 256) end.

Fixpoint of_le (bs : list Z) : Z :=
  match bs with [] => 0 | b :: bs' => b + 256 * of_le bs' end.

Definition byte (b : Z) : Prop := 0 <= b < 256.

Lemma length_le_bytes n v : length (le_bytes n v) = n.
Proof. revert v. induction n; intros; simpl; auto. Qed.

Lemma of_le_le_bytes n v : 0 <= v < 256 ^ Z.of_nat n → of_le (le_bytes n v) = v.
Proof.
  revert v. induction n as [|n IH]; intros v Hv; simpl; [lia|].
  rewrite Nat2Z.inj_succ, Z.pow_succ_r in Hv by lia.
  rewrite IH; [pose proof (Z.div_mod v 256); lia|].
  split; [apply Z.div_pos; lia|]. apply Z.div_lt_upper_bound; lia.
Qed.

Lemma of_le_bound bs : Forall byte bs → 0 <= of_le bs < 256 ^ Z.of_nat (length bs).
Proof.
  induction 1 as [|b bs Hb Hbs IH]; simpl; [lia|].
  rewrite Nat2Z.inj_succ, Z.pow_succ_r by lia. unfold byte in Hb. lia.
Qed.

Lemma le_bytes_of_le bs : Forall byte bs → le_bytes (length bs) (of_le bs) = bs.
Proof.
  induction 1 as [|b bs Hb Hbs IH]; simpl; [done|]. unfold byte in Hb.
  replace (b + 256 * of_le bs) with (b + of_le bs * 256) by lia.
  rewrite Z.mod_add, Z.div_add, Z.mod_small, Z.div_small by lia. by rewrite Z.add_0_l, IH.
Qed.

Lemma bytes_le_bytes n v : Forall byte (le_bytes n v).
Proof.
  revert v. induction n; intros; simpl; constructor; [|done].
  unfold byte. apply Z.mod_pos_bound. lia.
Qed.
#[export] Hint Resolve bytes_le_bytes : bits.

(** * Slices of a byte buffer *)
Section slices.
Context {E : Type}.

(** [b[o..o + n]]. *)
Definition slice (b : list Z) (o n : Z) : Res E (list Z) :=
  if (0 <=? o) && (0 <=? n) && (o + n <=? Z.of_nat (length b))
  then Ok (take (Z.to_nat n) (drop (Z.to_nat o) b)) else Panic.

(** [uN::from_le_bytes(b[o..o + n].try_into().unwrap())]. *)
Definition rd (n : nat) (b : list Z) (o : Z) : Res E Z :=
  s ← slice b o (Z.of_nat n); Ok (of_le s).

(** [b[o..o + bs.len()].copy_from_slice(bs)]. *)
Definition wr (b : list Z) (o : Z) (bs : list Z) : Res E (list Z) :=
  if (0 <=? o) && (o + Z.of_nat (length bs) <=? Z.of_nat (length b))
  then Ok (list_inserts (Z.to_nat o) bs b) else Panic.

Lemma slice_ok b o n :
  0 <= o → 0 <= n → o + n <= Z.of_nat (length b) →
  slice b o n = Ok (take (Z.to_nat n) (drop (Z.to_nat o) b)).
Proof.
  intros. unfold slice. rewrite !(proj2 (Z.leb_le _ _)) by done. done.
Qed.

Lemma slice_inv b o n s :
  slice b o n = Ok s →
  0 <= o ∧ 0 <= n ∧ o + n <= Z.of_nat (length b) ∧ s = take (Z.to_nat n) (drop (Z.to_nat o) b).
Proof.
  unfold slice. destruct (_ && _) eqn:H; [|done]. intros [= <-].
  apply andb_true_iff in H as [[??]%andb_true_iff ?]. repeat split; lia.
Qed.

Lemma length_slice b o n s : slice b o n = Ok s → Z.of_nat (length s) = n.
Proof. intros (?&?&?&->)%slice_inv. rewrite length_take, length_drop. lia. Qed.

Lemma rd_ok n b o :
  0 <= o → o + Z.of_nat n <= Z.of_nat (length b) →
  rd n b o = Ok (of_le (take n (drop (Z.to_nat o) b))).
Proof. intros. unfold rd. rewrite slice_ok by lia. simpl. by rewrite Nat2Z.id. Qed.

Lemma wr_ok b o bs :
  0 <= o → o + Z.of_nat (length bs) <= Z.of_nat (length b) →
  wr b o bs = Ok (list_inserts (Z.to_nat o) bs b).
Proof. intros. unfold wr. rewrite !(proj2 (Z.leb_le _ _)) by done. done. Qed.

Lemma wr_inv b o bs b' :
  wr b o bs = Ok b' →
  0 <= o ∧ o + Z.of_nat (length bs) <= Z.of_nat (length b) ∧ b' = list_inserts (Z.to_nat o) bs b.
Proof.
  unfold wr. destruct (_ && _) eqn:H; [|done]. intros [= <-].
  apply andb_true_iff in H as [??]. repeat split; lia.
Qed.

Lemma length_wr b o bs b' : wr b o bs = Ok b' → length b' = length b.
Proof. intros (?&?&->)%wr_inv. apply length_inserts. Qed.

(** What was written is what is read back. *)
Lemma slice_wr_same b o bs b' :
  wr b o bs = Ok b' → slice b' o (Z.of_nat (length bs)) = Ok bs.
Proof.
  intros (Ho&Hl&->)%wr_inv. rewrite slice_ok; [|lia|lia|rewrite length_inserts; lia].
  f_equal. rewrite Nat2Z.id. apply list_eq. intros i.
  destruct (decide (i < length bs)%nat) as [Hi|Hi].
  - rewrite lookup_take_lt, lookup_drop by done.
    rewrite list_lookup_inserts by lia. f_equal. lia.
  - rewrite lookup_take_ge by lia. symmetry. apply lookup_ge_None. lia.
Qed.

(** A write leaves every range it does not touch as it was. *)
Lemma slice_wr_disjoint b o bs b' o' n :
  wr b o bs = Ok b' → o' + n <= o ∨ o + Z.of_nat (length bs) <= o' →
  slice b' o' n = slice b o' n.
Proof.
  intros (Ho&Hl&->)%wr_inv Hd. unfold slice. rewrite length_inserts.
  destruct (_ && _) eqn:H; [|done]. apply andb_true_iff in H as [[??]%andb_true_iff ?].
  f_equal. apply list_eq. intros i. destruct (decide (i < Z.to_nat n)%nat) as [Hi|Hi].
  - rewrite !lookup_take_lt, !lookup_drop by done.
    destruct Hd; [rewrite list_lookup_inserts_lt by lia|rewrite list_lookup_inserts_ge by lia]; done.
  - by rewrite !lookup_take_ge by lia.
Qed.

Lemma rd_wr_same n b o v b' :
  0 <= v < 256 ^ Z.of_nat n → wr b o (le_bytes n v) = Ok b' → rd n b' o = Ok v.
Proof.
  intros Hv Hw. apply slice_wr_same in Hw. rewrite length_le_bytes in Hw.
  unfold rd. rewrite Hw. simpl. by rewrite of_le_le_bytes.
Qed.

Lemma rd_wr_disjoint n b o bs b' o' :
  wr b o bs = Ok b' → o' + Z.of_nat n <= o ∨ o + Z.of_nat (length bs) <= o' →
  rd n b' o' = rd n b o'.
Proof. intros Hw Hd. unfold rd. by rewrite (slice_wr_disjoint _ _ _ _ _ _ Hw Hd). Qed.

Lemma bytes_slice b o n s : Forall byte b → slice b o n = Ok s → Forall byte s.
Proof. intros Hb (?&?&?&->)%slice_inv. by apply Forall_take, Forall_drop. Qed.

Lemma bytes_wr b o bs b' : Forall byte b → Forall byte bs → wr b o bs = Ok b' → Forall byte b'.
Proof.
  intros Hb Hbs (Ho&Hl&->)%wr_inv. apply Forall_lookup. intros i x Hx.
  apply list_lookup_inserts_Some in Hx as [[_ Hx]|(_ & _ & Hx)].
  - rewrite Forall_lookup in Hb. eauto.
  - rewrite Forall_lookup in Hbs. eauto.
Qed.

Lemma rd_bound n b o v : Forall byte b → rd n b o = Ok v → 0 <= v < 256 ^ Z.of_nat n.
Proof.
  intros Hb Hr. unfold rd in Hr. inv_ok.
  pose proof (bytes_slice _ _ _ _ Hb Ha) as Hs. pose proof (length_slice _ _ _ _ Ha).
  pose proof (of_le_bound _ Hs). replace (length a) with n in * by lia. done.
Qed.
End slices.

(** The type of errors plays no part in what a range holds. *)
Lemma slice_transport {E F} p p' o n : @slice E p o n = slice p' o n → @slice F p o n = slice p' o n.
Proof. unfold slice. intros H. repeat case_match; try done; by injection H as ->. Qed.

#[global] Opaque bits le_bytes.
