(* ===== verification/Search.v ===== *)
(** Binary search.

    [slice::binary_search_by] of the standard library and the two searches the page code writes
    out by hand are one bisection: a window [lo, hi) over a sequence a comparison function is
    monotone on.  The loop is written with the length of the sequence as fuel (the window shrinks
    every round), and the theorems say the fuel is never what stops it. *)
From S2P Require Import Prelude.

(** What a search answers: the index of a match, or the insertion point. *)
Inductive Found := Hit (i : nat) | Miss (i : nat).

(** [.is_ok()]. *)
Definition found (f : Found) : bool := match f with Hit _ => true | Miss _ => false end.

(** One bisection over the comparison of element [i] with what is sought. *)
Fixpoint bisect (cmp : nat → comparison) (fuel lo hi : nat) : Found :=
  match fuel with
  | O => Miss lo
  | S fuel' =>
      if (lo <? hi)%nat then
        let mid := ((lo + hi) / 2)%nat in
        match cmp mid with
        | Lt => bisect cmp fuel' (S mid) hi
        | Gt => bisect cmp fuel' lo mid
        | Eq => Hit mid
        end
      else Miss lo
  end.

(** [slice.binary_search_by(f)]. *)
Definition binary_search_by {A} (f : A → comparison) (l : list A) : Found :=
  bisect (λ i, match l !! i with Some x => f x | None => Gt end) (S (length l)) 0 (length l).

(** [slice.binary_search_by_key(&k, key)], and [binary_search(&k)] with the identity. *)
Definition binary_search_by_key {A} (k : Z) (key : A → Z) (l : list A) : Found :=
  binary_search_by (λ x, key x ?= k) l.

(** The comparison ascends over [0, n): every [Lt] before every [Eq], every [Eq] before every
    [Gt], and at most one [Eq]. *)
Definition bisectable (cmp : nat → comparison) (n : nat) : Prop :=
  ∀ i j, (i < j)%nat → (j < n)%nat → cmp i = Lt ∨ cmp j = Gt.

Lemma bisect_spec cmp n fuel lo hi :
  bisectable cmp n → (lo ≤ hi)%nat → (hi ≤ n)%nat → (hi - lo < fuel)%nat →
  (∀ i, (i < lo)%nat → cmp i = Lt) → (∀ i, (hi ≤ i)%nat → (i < n)%nat → cmp i = Gt) →
  match bisect cmp fuel lo hi with
  | Hit i => (i < n)%nat ∧ cmp i = Eq
  | Miss i => (i ≤ n)%nat ∧ (∀ j, (j < i)%nat → cmp j = Lt) ∧
              (∀ j, (i ≤ j)%nat → (j < n)%nat → cmp j = Gt)
  end.
Proof.
  intros Hm. revert lo hi. induction fuel as [|fuel IH]; intros lo hi Hle Hhi Hf Hl Hg; cbn [bisect]; [lia|].
  destruct (Nat.ltb_spec lo hi) as [Hlt|Hge].
  2:{ replace hi with lo in * by lia. repeat split; auto. }
  assert (lo ≤ (lo + hi) / 2 ∧ (lo + hi) / 2 < hi)%nat as [Hlo Hmid].
  { split; [apply Nat.div_le_lower_bound; lia|apply Nat.Div0.div_lt_upper_bound; lia]. }
  generalize dependent ((lo + hi) / 2)%nat. intros mid Hlo Hmid.
  destruct (cmp mid) eqn:E; [split; [lia|done]| |].
  - apply IH; [lia..| |done].
    intros i Hi. destruct (decide (i = mid)) as [->|]; [done|].
    destruct (Hm i mid) as [|E']; [lia..|done|congruence].
  - apply IH; [lia..|done|].
    intros i Hi Hn. destruct (decide (i = mid)) as [->|]; [done|].
    destruct (Hm mid i) as [E'|]; [lia..|congruence|done].
Qed.

Section by_list.
Context {A : Type} (f : A → comparison).

(** A list the comparison is monotone on. *)
Definition searchable (l : list A) : Prop :=
  StronglySorted (λ x y, f x = Lt ∨ f y = Gt) l.

Lemma searchable_bisectable l :
  searchable l → bisectable (λ i, match l !! i with Some x => f x | None => Gt end) (length l).
Proof.
  intros Hs i j Hij Hj.
  destruct (lookup_lt_is_Some_2 l j) as [y Hy]; [done|].
  destruct (lookup_lt_is_Some_2 l i) as [x Hx]; [lia|]. rewrite Hx, Hy.
  clear Hj. revert i j Hij Hx Hy. induction Hs as [|z l Hl IH Hz]; intros i j Hij Hx Hy; [done|].
  destruct j as [|j]; [lia|]. destruct i as [|i]; simpl in *.
  - simplify_eq. rewrite Forall_forall in Hz. apply Hz. by apply list_elem_of_lookup_2 in Hy.
  - apply (IH i j); [lia|done..].
Qed.

Lemma binary_search_by_spec l :
  searchable l →
  match binary_search_by f l with
  | Hit i => ∃ x, l !! i = Some x ∧ f x = Eq
  | Miss i => (i ≤ length l)%nat ∧ Forall (λ x, f x = Lt) (take i l) ∧ Forall (λ x, f x = Gt) (drop i l)
  end.
Proof.
  intros Hs. unfold binary_search_by.
  pose proof (bisect_spec _ _ (S (length l)) 0 (length l) (searchable_bisectable l Hs)) as H.
  specialize (H ltac:(lia) ltac:(lia) ltac:(lia) ltac:(lia) ltac:(lia)).
  destruct (bisect _ _ _ _) as [i|i].
  - destruct H as [Hi E]. destruct (lookup_lt_is_Some_2 l i) as [x Hx]; [done|].
    exists x. by rewrite Hx in E.
  - destruct H as (Hi & Hlt & Hgt). split; [done|]. split; apply Forall_lookup; intros j x Hx.
    + apply lookup_take_Some in Hx as [Hx Hj]. specialize (Hlt j Hj). by rewrite Hx in Hlt.
    + rewrite lookup_drop in Hx. specialize (Hgt (i + j)%nat). rewrite Hx in Hgt.
      apply Hgt; [lia|]. by apply lookup_lt_Some in Hx.
Qed.

(** A search finds something exactly when a match is there. *)
Lemma found_binary_search_by l :
  searchable l → found (binary_search_by f l) = true ↔ ∃ x, x ∈ l ∧ f x = Eq.
Proof.
  intros Hs. pose proof (binary_search_by_spec l Hs) as H. destruct (binary_search_by f l) as [i|i]; simpl.
  - destruct H as (x & Hx & E). split; [|done]. intros _. exists x. split; [|done].
    by apply list_elem_of_lookup_2 in Hx.
  - destruct H as (_ & Hlt & Hgt). split; [done|]. intros (x & Hx & E).
    rewrite <-(take_drop i l) in Hx. rewrite Forall_forall in Hlt, Hgt.
    apply elem_of_app in Hx as [Hx|Hx]; [apply Hlt in Hx|apply Hgt in Hx]; congruence.
Qed.
End by_list.

(** A list whose keys strictly ascend is searchable for every key. *)
Lemma searchable_by_key {A} (key : A → Z) k l :
  StronglySorted (λ x y, key x < key y) l → searchable (λ x, key x ?= k) l.
Proof.
  induction 1 as [|x l Hl IH Hx]; constructor; [done|].
  eapply Forall_impl; [exact Hx|]. simpl. intros y Hy.
  destruct (Z.compare_spec (key x) k), (Z.compare_spec (key y) k); auto; lia.
Qed.

Lemma binary_search_by_key_spec {A} (key : A → Z) k l :
  StronglySorted (λ x y, key x < key y) l →
  match binary_search_by_key k key l with
  | Hit i => ∃ x, l !! i = Some x ∧ key x = k
  | Miss i => (i ≤ length l)%nat ∧ Forall (λ x, key x < k) (take i l) ∧ Forall (λ x, k < key x) (drop i l)
  end.
Proof.
  intros Hs. pose proof (binary_search_by_spec _ l (searchable_by_key key k l Hs)) as H.
  unfold binary_search_by_key. destruct (binary_search_by _ _) as [i|i].
  - destruct H as (x & Hx & E). exists x. split; [done|]. by apply Z.compare_eq.
  - destruct H as (Hi & Hlt & Hgt). split; [done|].
    split; eapply Forall_impl; [exact Hlt| |exact Hgt|]; simpl; intros x Hx.
    + by apply Z.compare_lt_iff.
    + by apply Z.compare_gt_iff.
Qed.

Lemma found_by_key {A} (key : A → Z) k l :
  StronglySorted (λ x y, key x < key y) l →
  found (binary_search_by_key k key l) = true ↔ k ∈ map key l.
Proof.
  intros Hs. unfold binary_search_by_key.
  rewrite found_binary_search_by by (by apply searchable_by_key).
  rewrite list_elem_of_fmap. split.
  - intros (x & Hx & E%Z.compare_eq). eauto.
  - intros (x & -> & Hx). exists x. split; [done|]. apply Z.compare_refl.
Qed.
