(* ===== verification/Container.v ===== *)
(** Roaring containers: the three representations of a set of 16-bit values
    (crates/big-container/src/lib.rs, interval.rs and container/mod.rs).

    [Container] models both the owned [Container] and the borrowed [ContainerRef]: a borrow of an
    immutable page is its value.  [members] is the specification, the set a container stands for
    as an ascending list, and the theorems say that every read of a container - the iterator, the
    count, the membership test, the emptiness test - reports exactly that set. *)
From S2P Require Import Prelude Bits Search.

(** * Constants (lib.rs) *)
Definition BITMAP_WORDS : Z := 1024.
Definition BITMAP_BYTES : Z := BITMAP_WORDS * 8.
Definition ARRAY_BREAK_EVEN : Z := BITMAP_BYTES / 2.

Definition u16 (v : Z) : Prop := 0 <= v < 65536.

(** A [u32] sum in release arithmetic. *)
Definition wrap32 (v : Z) : Z := v mod 2 ^ 32.
Definition sum32 (l : list Z) : Z := wrap32 (foldr Z.add 0 l).

(** * Interval (interval.rs) *)
Record Interval := mkInterval { iv_start : Z; iv_last : Z }.

(** [(self.last as u32) - (self.start as u32) + 1]. *)
Definition interval_len (i : Interval) : Z := wrap32 (wrap32 (iv_last i - iv_start i) + 1).

Definition interval_contains (i : Interval) (v : Z) : bool :=
  (iv_start i <=? v) && (v <=? iv_last i).

(** * ContainerType *)
Inductive ContainerType :=
| TArray | TRun | TBitmapPtr | TBitmapDelta | TValuesInline | TValuesPtr.

#[export] Instance ContainerType_eq_dec : EqDecision ContainerType.
Proof. solve_decision. Defined.

Definition from_u16 (v : Z) : option ContainerType :=
  match v with
  | 0 => Some TArray
  | 1 => Some TRun
  | 2 => Some TBitmapPtr
  | 3 => Some TBitmapDelta
  | 4 => Some TValuesInline
  | 5 => Some TValuesPtr
  | _ => None
  end.

(** [self as u16]: the discriminants of the enum. *)
Definition type_code (t : ContainerType) : Z :=
  match t with
  | TArray => 0 | TRun => 1 | TBitmapPtr => 2 | TBitmapDelta => 3
  | TValuesInline => 4 | TValuesPtr => 5
  end.

Definition owns_page (t : ContainerType) : bool :=
  match t with TBitmapPtr | TBitmapDelta | TValuesPtr => true | _ => false end.

Definition is_values (t : ContainerType) : bool :=
  match t with TValuesInline | TValuesPtr => true | _ => false end.

Lemma from_u16_type_code t : from_u16 (type_code t) = Some t.
Proof. by destruct t. Qed.

Lemma type_code_from_u16 v t : from_u16 v = Some t → type_code t = v.
Proof.
  unfold from_u16. destruct v as [|p|p]; [by intros [= <-]| |done].
  do 3 (try destruct p as [p|p|]); intros H; simplify_eq; done.
Qed.

(** * The three representations *)
Inductive Container :=
| Array (a : list Z)
| Bitmap (b : list Z)
| Run (r : list Interval).

(** [b[v as usize / 64] >> (v % 64) & 1 == 1]: for a [u16] the word index is below 1024, so it is
    always in range of a bitmap of [BITMAP_WORDS] words. *)
Definition word_at (b : list Z) (i : Z) : Z := default 0 (b !! Z.to_nat i).
Definition bit_at (b : list Z) (v : Z) : bool :=
  Z.land (Z.shiftr (word_at b (v / 64)) (v mod 64)) 1 =? 1.

(** [w[v as usize / 64] |= 1u64 << (v % 64)], and the two other ways a bit is written. *)
Definition upd_word (b : list Z) (v : Z) (f : Z → Z) : list Z :=
  alter f (Z.to_nat (v / 64)) b.
Definition set_bit (b : list Z) (v : Z) : list Z :=
  upd_word b v (λ w, Z.lor w (Z.shiftl 1 (v mod 64))).
Definition clear_bit (b : list Z) (v : Z) : list Z :=
  upd_word b v (λ w, Z.land w (not64 (Z.shiftl 1 (v mod 64)))).
Definition flip_bit (b : list Z) (v : Z) : list Z :=
  upd_word b v (λ w, Z.lxor w (Z.shiftl 1 (v mod 64))).

(** [Box::new([0u64; BITMAP_WORDS])]. *)
Definition empty_words : list Z := replicate (Z.to_nat BITMAP_WORDS) 0.

Definition byte_size (c : Container) : Z :=
  match c with
  | Array a => 2 * Z.of_nat (length a)
  | Bitmap _ => BITMAP_BYTES
  | Run r => 4 * Z.of_nat (length r)
  end.

Definition cardinality (c : Container) : Z :=
  match c with
  | Array a => wrap32 (Z.of_nat (length a))
  | Bitmap b => sum32 (map count_ones b)
  | Run r => sum32 (map interval_len r)
  end.

Definition is_empty (c : Container) : bool :=
  match c with
  | Array a => match a with [] => true | _ => false end
  | Bitmap b => forallb (λ w, w =? 0) b
  | Run r => match r with [] => true | _ => false end
  end.

(** The comparison the run search uses: a run before [v], after it, or over it. *)
Definition run_cmp (v : Z) (i : Interval) : comparison :=
  if iv_last i <? v then Lt else if v <? iv_start i then Gt else Eq.

Definition contains (c : Container) (v : Z) : bool :=
  match c with
  | Array a => found (binary_search_by_key v id a)
  | Bitmap b => bit_at b v
  | Run r => found (binary_search_by (run_cmp v) r)
  end.

(** * The iterator *)
Inductive Iter :=
| IterArray (rest : list Z)
| IterBitmap (words : list Z) (word : Z) (cur : Z)
| IterRun (runs : list Interval) (idx : nat) (next : Z).

Definition run_start (o : option Interval) : Z := from_option iv_start 0 o.

Definition iter (c : Container) : Iter :=
  match c with
  | Array a => IterArray a
  | Bitmap b => IterBitmap b 0 (word_at b 0)
  | Run r => IterRun r 0 (run_start (r !! 0%nat))
  end.

(** The [while *cur == 0] loop of [Iter::next]: the next word that has a bit, or [None] once the
    words run out.  [fuel] is the number of words left, which is all the loop can skip. *)
Fixpoint skip_zero (fuel : nat) (words : list Z) (word cur : Z) : option (Z * Z) :=
  if cur =? 0 then
    match fuel with
    | O => None
    | S fuel' =>
        let word' := word + 1 in
        if BITMAP_WORDS <=? word' then None
        else skip_zero fuel' words word' (word_at words word')
    end
  else Some (word, cur).

Definition next (it : Iter) : option (Z * Iter) :=
  match it with
  | IterArray rest =>
      match rest with [] => None | v :: rest' => Some (v, IterArray rest') end
  | IterBitmap words word cur =>
      '(word', cur') ← skip_zero (Z.to_nat (BITMAP_WORDS - word)) words word cur;
      Some ((word' * 64 + trailing_zeros cur') mod 65536,
            IterBitmap words word' (Z.land cur' (cur' - 1)))
  | IterRun runs idx nxt =>
      run ← runs !! idx;
      let v := nxt in
      if v =? iv_last run
      then Some (v, IterRun runs (S idx) (run_start (runs !! S idx)))
      else Some (v, IterRun runs idx ((v + 1) mod 65536))
  end.

(** Draining an iterator: [for v in c.iter()] and [.collect()].  A container holds at most 65,536
    values, so that many rounds and one to see the end are enough. *)
Fixpoint drain (fuel : nat) (it : Iter) : list Z :=
  match fuel with
  | O => []
  | S fuel' => match next it with None => [] | Some (v, it') => v :: drain fuel' it' end
  end.
Definition values (c : Container) : list Z := drain (Z.to_nat 65537) (iter c).

(** * The invariant the representations keep *)
Fixpoint runs_separated (r : list Interval) : bool :=
  match r with
  | [] => true
  | x :: r' =>
      match r' with [] => true | y :: _ => (iv_last x + 1 <? iv_start y) && runs_separated r' end
  end.

Definition is_well_formed (c : Container) : bool :=
  match c with
  | Array a => strictly_ascending a
  | Bitmap _ => true
  | Run r => forallb (λ i, iv_start i <=? iv_last i) r && runs_separated r
  end.

(** What the Rust types already guarantee: every value is a [u16], a bitmap is an array of
    [BITMAP_WORDS] words of 64 bits. *)
Definition typed (c : Container) : Prop :=
  match c with
  | Array a => Forall u16 a
  | Bitmap b => Z.of_nat (length b) = BITMAP_WORDS ∧ Forall word64 b
  | Run r => Forall (λ i, u16 (iv_start i) ∧ u16 (iv_last i)) r
  end.

Definition wf (c : Container) : Prop := typed c ∧ is_well_formed c = true.

(** * The set a container stands for *)
Fixpoint expand (k : Z) (b : list Z) : list Z :=
  match b with [] => [] | w :: b' => (Z.add (64 * k) <$> bits w) ++ expand (k + 1) b' end.

Definition run_values (i : Interval) : list Z := seqZ (iv_start i) (iv_last i - iv_start i + 1).

Definition members (c : Container) : list Z :=
  match c with
  | Array a => a
  | Bitmap b => expand 0 b
  | Run r => concat (run_values <$> r)
  end.
#[global] Arguments values : simpl never.
#[global] Arguments empty_words : simpl never.
#[global] Arguments BITMAP_WORDS : simpl never.

(** * Single bits *)
Lemma land_1_testbit x : (Z.land x 1 =? 1) = Z.testbit x 0.
Proof.
  change 1 with (Z.ones 1) at 1. rewrite Z.land_ones by lia. change (2 ^ 1) with 2.
  rewrite Z.bit0_odd, Zmod_odd. by destruct (Z.odd x).
Qed.

Lemma bit_at_testbit b v : 0 <= v → bit_at b v = Z.testbit (word_at b (v / 64)) (v mod 64).
Proof.
  intros Hv. unfold bit_at. rewrite land_1_testbit, Z.shiftr_spec by lia. done.
Qed.

Lemma word_at_upd b v f i :
  0 <= v → 0 <= i → v / 64 < Z.of_nat (length b) →
  word_at (upd_word b v f) i = if i =? v / 64 then f (word_at b i) else word_at b i.
Proof.
  intros Hv Hi Hl. unfold word_at, upd_word. destruct (Z.eqb_spec i (v / 64)) as [->|Hne].
  - rewrite list_lookup_alter_eq. destruct (lookup_lt_is_Some_2 b (Z.to_nat (v / 64))) as [w ->]; [|done].
    assert (0 <= v / 64) by (apply Z.div_pos; lia). lia.
  - rewrite list_lookup_alter_ne; [done|]. assert (0 <= v / 64) by (apply Z.div_pos; lia). lia.
Qed.

(** A write of one bit, seen at another position: only that bit changes. *)
Lemma bit_at_upd b v u f g :
  0 <= v → 0 <= u → v / 64 < Z.of_nat (length b) →
  (∀ w i, 0 <= i < 64 → Z.testbit (f w) i = if i =? v mod 64 then g (Z.testbit w i) else Z.testbit w i) →
  bit_at (upd_word b v f) u = if u =? v then g (bit_at b u) else bit_at b u.
Proof.
  intros Hv Hu Hl Hf. rewrite !bit_at_testbit by done.
  pose proof (Z.mod_pos_bound u 64). pose proof (Z.div_mod u 64). pose proof (Z.div_mod v 64).
  rewrite word_at_upd; [|done|apply Z.div_pos; lia|done].
  destruct (Z.eqb_spec (u / 64) (v / 64)) as [Hq|Hq].
  - rewrite Hf by lia.
    destruct (Z.eqb_spec (u mod 64) (v mod 64)), (Z.eqb_spec u v); try lia; done.
  - destruct (Z.eqb_spec u v); [subst; lia|done].
Qed.

Lemma length_upd b v f : length (upd_word b v f) = length b.
Proof. apply length_alter. Qed.

Lemma words_upd b v f :
  Forall word64 b → (∀ w, word64 w → word64 (f w)) → Forall word64 (upd_word b v f).
Proof.
  intros Hb Hf. unfold upd_word. apply Forall_alter; [done|]. intros w Hw ?.
  apply Hf. by eapply Forall_lookup_1.
Qed.

Section one_bit.
Context (b : list Z) (v : Z).
Hypothesis (Hv : u16 v) (Hlen : Z.of_nat (length b) = BITMAP_WORDS).

Lemma word_index : v / 64 < Z.of_nat (length b).
Proof.
  rewrite Hlen. unfold BITMAP_WORDS.
  destruct Hv. apply Z.div_lt_upper_bound; lia.
Qed.

Lemma bit_at_set u : 0 <= u → bit_at (set_bit b v) u = (u =? v) || bit_at b u.
Proof.
  intros Hu. pose proof word_index. destruct Hv. unfold set_bit.
  rewrite (bit_at_upd b v u _ (λ _, true)); [by destruct (u =? v)|lia..|].
  intros w i Hi. rewrite Z.lor_spec, testbit_pow2 by (apply Z.mod_pos_bound; lia).
  destruct (i =? v mod 64); [apply orb_true_r|apply orb_false_r].
Qed.

Lemma bit_at_clear u : 0 <= u → bit_at (clear_bit b v) u = negb (u =? v) && bit_at b u.
Proof.
  intros Hu. pose proof word_index. destruct Hv. unfold clear_bit.
  rewrite (bit_at_upd b v u _ (λ _, false)); [by destruct (u =? v)|lia..|].
  intros w i Hi. rewrite Z.land_spec, testbit_not64 by lia.
  rewrite testbit_pow2 by (apply Z.mod_pos_bound; lia).
  replace (i <? 64) with true by lia. by destruct (i =? v mod 64), (Z.testbit w i).
Qed.

Lemma bit_at_flip u : 0 <= u → bit_at (flip_bit b v) u = xorb (u =? v) (bit_at b u).
Proof.
  intros Hu. pose proof word_index. destruct Hv. unfold flip_bit.
  rewrite (bit_at_upd b v u _ negb); [by destruct (u =? v), (bit_at b u)|lia..|].
  intros w i Hi. rewrite Z.lxor_spec, testbit_pow2 by (apply Z.mod_pos_bound; lia).
  by destruct (i =? v mod 64), (Z.testbit w i).
Qed.
End one_bit.

Lemma words_set b v : 0 <= v → Forall word64 b → Forall word64 (set_bit b v).
Proof.
  intros Hv Hb. apply words_upd; [done|]. pose proof (Z.mod_pos_bound v 64). auto with bits lia.
Qed.
Lemma words_clear b v : Forall word64 b → Forall word64 (clear_bit b v).
Proof. intros Hb. apply words_upd; [done|]. auto with bits. Qed.
Lemma words_flip b v : 0 <= v → Forall word64 b → Forall word64 (flip_bit b v).
Proof.
  intros Hv Hb. apply words_upd; [done|]. pose proof (Z.mod_pos_bound v 64). auto with bits lia.
Qed.

Lemma bit_at_empty v : bit_at empty_words v = false.
Proof.
  unfold bit_at. assert (word_at empty_words (v / 64) = 0) as ->; [|by rewrite Z.shiftr_0_l].
  unfold word_at, empty_words. destruct (_ !! _) as [w|] eqn:E; [|done].
  by apply lookup_replicate in E as [-> _].
Qed.
Lemma length_empty_words : Z.of_nat (length empty_words) = BITMAP_WORDS.
Proof. unfold empty_words. rewrite length_replicate. done. Qed.
Lemma words_empty : Forall word64 empty_words.
Proof. apply Forall_replicate, word64_0. Qed.

(** * Bitmaps as sets *)
Lemma elem_of_expand k b v :
  v ∈ expand k b ↔ ∃ i w p, b !! i = Some w ∧ p ∈ bits w ∧ v = 64 * (k + Z.of_nat i) + p.
Proof.
  revert k. induction b as [|w b IH]; intros k; simpl.
  - split; [by intros ?%elem_of_nil|]. by intros (i & w & p & ? & _).
  - rewrite elem_of_app, IH, list_elem_of_fmap. split.
    + intros [(p & -> & Hp)|(i & w' & p & Hi & Hp & ->)].
      * exists 0%nat, w, p. repeat split; [done|]. lia.
      * exists (S i), w', p. repeat split; [done..|]. lia.
    + intros ([|i] & w' & p & Hi & Hp & ->); simpl in Hi.
      * simplify_eq. left. exists p. split; [lia|done].
      * right. exists i, w', p. repeat split; [done..|]. lia.
Qed.

Lemma elem_of_expand_0 b v :
  v ∈ expand 0 b ↔ 0 <= v < 64 * Z.of_nat (length b) ∧ bit_at b v = true.
Proof.
  rewrite elem_of_expand. split.
  - intros (i & w & p & Hi & [Hp Ht]%elem_of_bits & ->).
    pose proof (lookup_lt_Some _ _ _ Hi). split; [lia|].
    rewrite bit_at_testbit by lia. rewrite Z.add_0_l, Z.mul_comm.
    rewrite Z.div_add_l, Z.div_small, Z.add_0_r, Z.add_comm, Z.mod_add, Z.mod_small by lia.
    unfold word_at. rewrite Nat2Z.id, Hi. done.
  - intros [Hv Hb]. rewrite bit_at_testbit in Hb by lia.
    pose proof (Z.div_mod v 64). pose proof (Z.mod_pos_bound v 64).
    assert (0 <= v / 64 < Z.of_nat (length b))
      by (split; [apply Z.div_pos|apply Z.div_lt_upper_bound]; lia).
    destruct (lookup_lt_is_Some_2 b (Z.to_nat (v / 64))) as [w Hw]; [lia|].
    unfold word_at in Hb. rewrite Hw in Hb. simpl in Hb.
    exists (Z.to_nat (v / 64)), w, (v mod 64). split; [done|]. rewrite elem_of_bits.
    split; [split; [lia|done]|lia].
Qed.

Lemma ascending_expand k b : ascending (expand k b).
Proof.
  revert k. induction b as [|w b IH]; intros k; simpl; [constructor|].
  apply StronglySorted_app_2; [|apply (StronglySorted_fmap _ Z.lt); [lia|apply ascending_bits]|apply IH].
  intros x y (p & -> & [Hp _]%elem_of_bits)%list_elem_of_fmap (i & w' & q & _ & [Hq _]%elem_of_bits & ->)%elem_of_expand.
  lia.
Qed.

Lemma length_expand k b : Forall word64 b → Z.of_nat (length (expand k b)) = foldr Z.add 0 (map count_ones b).
Proof.
  intros Hb. revert k. induction Hb as [|w b Hw Hb IH]; intros k; simpl; [done|].
  rewrite length_app, length_fmap, Nat2Z.inj_add, IH, count_ones_bits by done. done.
Qed.

(** * Runs as sets *)
Definition run_ok (i : Interval) : Prop := 0 <= iv_start i ∧ iv_start i <= iv_last i ∧ iv_last i < 65536.
Definition run_before (x y : Interval) : Prop := iv_last x + 1 < iv_start y.
Definition runs_ok (r : list Interval) : Prop := Forall run_ok r ∧ StronglySorted run_before r.

Lemma wf_run r : wf (Run r) ↔ runs_ok r.
Proof.
  unfold wf, runs_ok. simpl. rewrite andb_true_iff, forallb_forall. split.
  - intros (Ht & Hle & Hs).
    assert (Forall run_ok r) as Hok.
    { rewrite Forall_forall in Ht |- *. intros i Hi. destruct (Ht i Hi) as [[??][??]].
      apply list_elem_of_In in Hi. specialize (Hle i Hi). unfold run_ok. lia. }
    split; [done|]. clear Ht Hle. induction Hok as [|x r Hx Hok IH]; [constructor|].
    destruct r as [|y r]; [repeat constructor|]. simpl in Hs. apply andb_true_iff in Hs as [Hxy Hs].
    specialize (IH Hs). constructor; [done|]. constructor; [unfold run_before; lia|].
    apply StronglySorted_inv in IH as [_ Hy]. inversion Hok as [|?? Hyo Hro]; subst.
    eapply Forall_impl; [exact Hy|]. unfold run_before, run_ok in *. simpl. intros z. lia.
  - intros [Hok Hs]. split_and!.
    + eapply Forall_impl; [exact Hok|]. unfold run_ok, u16. simpl. lia.
    + intros i Hi%list_elem_of_In. rewrite Forall_forall in Hok. destruct (Hok i Hi). lia.
    + clear Hok. induction Hs as [|x r Hs IH Hx]; [done|]. destruct r as [|y r]; [done|].
      simpl in IH |- *. rewrite IH, andb_true_r. inversion Hx; subst. unfold run_before in *. lia.
Qed.

Lemma elem_of_run_values i v : v ∈ run_values i ↔ iv_start i <= v <= iv_last i.
Proof. unfold run_values. rewrite elem_of_seqZ. lia. Qed.

Lemma elem_of_runs r v :
  v ∈ concat (run_values <$> r) ↔ ∃ i, i ∈ r ∧ iv_start i <= v <= iv_last i.
Proof.
  rewrite list_elem_of_In, in_concat. split.
  - intros (l & Hl & Hv). apply list_elem_of_In, list_elem_of_fmap in Hl as (i & -> & Hi).
    exists i. split; [done|]. by apply elem_of_run_values, list_elem_of_In.
  - intros (i & Hi & Hv). exists (run_values i). rewrite <-!list_elem_of_In, elem_of_run_values.
    split; [|done]. apply list_elem_of_fmap. eauto.
Qed.

Lemma ascending_runs r : runs_ok r → ascending (concat (run_values <$> r)).
Proof.
  intros [Hok Hs]. induction Hs as [|x r Hs IH Hx]; simpl; [constructor|].
  inversion Hok as [|?? Hxo Hro]; subst.
  apply StronglySorted_app_2; [|apply ascending_seqZ|by apply IH].
  intros u v Hu%elem_of_run_values (i & Hi & Hv)%elem_of_runs.
  rewrite Forall_forall in Hx. specialize (Hx i Hi). unfold run_before in Hx. lia.
Qed.

Lemma length_runs r :
  Forall run_ok r → Z.of_nat (length (concat (run_values <$> r))) = foldr Z.add 0 (map interval_len r).
Proof.
  induction 1 as [|i r Hi Hr IH]; csimpl; [done|].
  rewrite length_app, Nat2Z.inj_add, IH. f_equal. unfold run_values. rewrite length_seqZ.
  destruct Hi as (?&?&?). unfold interval_len, wrap32.
  rewrite (Z.mod_small (_ - _)) by lia. rewrite Z.mod_small by lia. lia.
Qed.

(** * What every read of a well-formed container reports *)
Lemma wf_array a : wf (Array a) ↔ Forall u16 a ∧ ascending a.
Proof. unfold wf. simpl. by rewrite strictly_ascending_spec. Qed.

Lemma wf_bitmap b : wf (Bitmap b) ↔ Z.of_nat (length b) = BITMAP_WORDS ∧ Forall word64 b.
Proof. unfold wf. simpl. tauto. Qed.

Lemma members_ascending c : wf c → ascending (members c).
Proof.
  destruct c as [a|b|r]; simpl.
  - by intros [_ ?]%wf_array.
  - intros _. apply ascending_expand.
  - intros H%wf_run. by apply ascending_runs.
Qed.

Lemma members_u16 c v : wf c → v ∈ members c → u16 v.
Proof.
  destruct c as [a|b|r]; simpl.
  - intros [H _]%wf_array. rewrite Forall_forall in H. apply H.
  - intros [Hl _]%wf_bitmap [Hv _]%elem_of_expand_0. rewrite Hl in Hv. unfold BITMAP_WORDS in Hv.
    unfold u16. lia.
  - intros [H _]%wf_run (i & Hi & Hv)%elem_of_runs. rewrite Forall_forall in H.
    destruct (H i Hi) as (?&?&?). unfold u16. lia.
Qed.

(** A set of 16-bit values has at most 65,536 of them. *)
Lemma ascending_u16_length l : ascending l → (∀ v, v ∈ l → u16 v) → Z.of_nat (length l) <= 65536.
Proof.
  intros Hs Hu. assert (l ⊆+ seqZ 0 65536) as Hsub.
  { apply NoDup_submseteq; [by apply ascending_NoDup|]. intros v Hv%Hu. apply elem_of_seqZ.
    destruct Hv. lia. }
  apply submseteq_length in Hsub. rewrite length_seqZ in Hsub. lia.
Qed.

Lemma members_length c : wf c → Z.of_nat (length (members c)) <= 65536.
Proof.
  intros Hc. apply ascending_u16_length; [by apply members_ascending|]. intros v. by apply members_u16.
Qed.

Lemma cardinality_members c : wf c → cardinality c = Z.of_nat (length (members c)).
Proof.
  intros Hc. pose proof (members_length c Hc) as Hl. destruct c as [a|b|r]; simpl in *.
  - unfold wrap32. rewrite Z.mod_small; lia.
  - apply wf_bitmap in Hc as [_ Hw]. unfold sum32, wrap32. rewrite <-(length_expand 0) by done.
    rewrite Z.mod_small; lia.
  - apply wf_run in Hc as [Hr _]. unfold sum32, wrap32. rewrite <-length_runs by done.
    rewrite Z.mod_small; lia.
Qed.

Lemma contains_members c v : wf c → u16 v → contains c v = true ↔ v ∈ members c.
Proof.
  intros Hc Hv. destruct c as [a|b|r]; simpl.
  - apply wf_array in Hc as [_ Hs]. rewrite found_by_key by done. by rewrite map_id.
  - apply wf_bitmap in Hc as [Hl _]. rewrite elem_of_expand_0, Hl. unfold BITMAP_WORDS.
    destruct Hv. split; [|tauto]. split; [lia|done].
  - apply wf_run in Hc as [Hok Hs]. rewrite elem_of_runs, found_binary_search_by.
    + setoid_rewrite <-elem_of_run_values. split; intros (i & Hi & H); exists i; (split; [done|]).
      * apply elem_of_run_values. unfold run_cmp in H. zbool; simplify_eq; lia.
      * apply elem_of_run_values in H. unfold run_cmp. zbool; lia || done.
    + induction Hs as [|x r Hs IH Hx]; constructor.
      * apply IH. by inversion Hok.
      * inversion Hok as [|?? Hxo Hro]; subst.
        rewrite Forall_forall in Hx, Hro |- *. intros y Hy.
        specialize (Hx y Hy). destruct (Hro y Hy) as (?&?&?), Hxo as (?&?&?).
        unfold run_cmp, run_before in *. zbool; (lia || auto).
Qed.

Lemma contains_members_false c v : wf c → u16 v → contains c v = false ↔ v ∉ members c.
Proof. intros Hc Hv. rewrite <-contains_members by done. by rewrite not_true_iff_false. Qed.

Lemma is_empty_members c : wf c → is_empty c = true ↔ members c = [].
Proof.
  intros Hc. destruct c as [a|b|r]; simpl.
  - by destruct a.
  - rewrite forallb_forall. split.
    + clear Hc. intros H. generalize 0. induction b as [|w b IH]; intros k; simpl; [done|].
      assert (w = 0) as -> by (apply Z.eqb_eq, H; by left).
      rewrite bits_0. simpl. apply IH. intros x Hx. apply H. by right.
    + apply wf_bitmap in Hc as [_ Hw]. intros He w Hin%list_elem_of_In.
      rewrite Forall_forall in Hw. apply Z.eqb_eq.
      destruct (decide (w = 0)) as [|Hne]; [done|]. exfalso.
      apply list_elem_of_lookup in Hin as [i Hi].
      assert (64 * Z.of_nat i + trailing_zeros w ∈ expand 0 b) as Hx; [|rewrite He in Hx; by apply elem_of_nil in Hx].
      apply elem_of_expand. exists i, w, (trailing_zeros w). split_and!; [done| |lia].
      rewrite bits_unfold; [by left|apply Hw; by eapply list_elem_of_lookup_2|done].
  - apply wf_run in Hc as [Hok _]. destruct r as [|i r]; [done|]. split; [done|]. simpl.
    inversion Hok as [|?? (?&?&?) ?]; subst. intros He%app_nil. destruct He as [He _].
    assert (iv_start i ∈ run_values i) as Hx by (apply elem_of_run_values; lia).
    rewrite He in Hx. by apply elem_of_nil in Hx.
Qed.

(** ** The iterator yields the members, in order, and then stops *)
Fixpoint yields (it : Iter) (l : list Z) : Prop :=
  match l with
  | [] => next it = None
  | v :: l' => ∃ it', next it = Some (v, it') ∧ yields it' l'
  end.

Lemma yields_drain it l fuel : yields it l → (length l < fuel)%nat → drain fuel it = l.
Proof.
  revert it fuel. induction l as [|v l IH]; intros it [|fuel] Hy Hf; simpl in *; [lia| |lia|].
  - by rewrite Hy.
  - destruct Hy as (it' & -> & Hy). f_equal. apply IH; [done|lia].
Qed.

(** What is left of a bitmap iteration at a given word. *)
Definition bitmap_rest (b : list Z) (word cur : Z) : list Z :=
  (Z.add (64 * word) <$> bits cur) ++ expand (word + 1) (drop (Z.to_nat (word + 1)) b).

Lemma expand_drop b word :
  0 <= word < Z.of_nat (length b) →
  expand word (drop (Z.to_nat word) b) = bitmap_rest b word (word_at b word).
Proof.
  intros Hw. destruct (lookup_lt_is_Some_2 b (Z.to_nat word)) as [w Hl]; [lia|].
  rewrite (drop_S _ _ _ Hl). unfold bitmap_rest, word_at. rewrite Hl. cbn [expand default from_option].
  by replace (S (Z.to_nat word)) with (Z.to_nat (word + 1)) by lia.
Qed.

Lemma bitmap_rest_zero b word :
  bitmap_rest b word 0 = expand (word + 1) (drop (Z.to_nat (word + 1)) b).
Proof. unfold bitmap_rest. by rewrite bits_0. Qed.

Lemma bitmap_rest_unfold b word cur :
  word64 cur → cur ≠ 0 →
  bitmap_rest b word cur =
    (64 * word + trailing_zeros cur) :: bitmap_rest b word (Z.land cur (cur - 1)).
Proof. intros Hc Hne. unfold bitmap_rest. by rewrite (bits_unfold cur), fmap_cons. Qed.

Section bitmap_iter.
Context (b : list Z).
Hypothesis (Hlen : Z.of_nat (length b) = BITMAP_WORDS) (Hwords : Forall word64 b).

Lemma word_at_word64 i : word64 (word_at b i).
Proof.
  unfold word_at. destruct (_ !! _) as [w|] eqn:E; [|apply word64_0].
  by eapply Forall_lookup_1.
Qed.

Lemma skip_zero_spec fuel word cur :
  0 <= word < BITMAP_WORDS → word64 cur → BITMAP_WORDS - word <= Z.of_nat fuel →
  match skip_zero fuel b word cur with
  | None => bitmap_rest b word cur = []
  | Some (word', cur') =>
      bitmap_rest b word cur = bitmap_rest b word' cur' ∧ cur' ≠ 0 ∧ word64 cur' ∧
      0 <= word' < BITMAP_WORDS
  end.
Proof.
  revert word cur. induction fuel as [|fuel IH]; intros word cur Hw Hc Hf; [lia|]. simpl.
  destruct (Z.eqb_spec cur 0) as [->|Hne]; [|done].
  destruct (Z.leb_spec BITMAP_WORDS (word + 1)) as [Hge|Hlt].
  - rewrite bitmap_rest_zero, drop_ge by lia. done.
  - rewrite bitmap_rest_zero, expand_drop by lia. apply IH; [lia|apply word_at_word64|lia].
Qed.

Lemma yields_bitmap l word cur :
  0 <= word < BITMAP_WORDS → word64 cur → bitmap_rest b word cur = l →
  yields (IterBitmap b word cur) l.
Proof.
  intros Hw Hc. revert word cur Hw Hc. induction l as [|v l IH]; intros word cur Hw Hc Hl; simpl.
  - pose proof (skip_zero_spec (Z.to_nat (BITMAP_WORDS - word)) word cur Hw Hc ltac:(lia)) as H.
    destruct (skip_zero _ _ _ _) as [[word' cur']|]; [|done].
    destruct H as (Heq & Hne & Hc' & _). by rewrite Heq, bitmap_rest_unfold in Hl.
  - pose proof (skip_zero_spec (Z.to_nat (BITMAP_WORDS - word)) word cur Hw Hc ltac:(lia)) as H.
    destruct (skip_zero _ _ _ _) as [[word' cur']|]; [|by rewrite H in Hl].
    destruct H as (Heq & Hne & Hc' & Hw'). rewrite Heq, bitmap_rest_unfold in Hl by done.
    assert (trailing_zeros cur' ∈ bits cur') as [Hz _]%elem_of_bits
      by (rewrite bits_unfold by done; by left).
    injection Hl as Hv Hl.
    eexists. split.
    + simpl. do 2 f_equal. rewrite <-Hv. unfold BITMAP_WORDS in Hw'. rewrite Z.mod_small; lia.
    + apply IH; [done|by apply word64_land|done].
Qed.
End bitmap_iter.

Section run_iter.
Context (r : list Interval).
Hypothesis (Hok : Forall run_ok r).

Lemma yields_run l idx nxt :
  match r !! idx with
  | None => l = []
  | Some i => iv_start i <= nxt <= iv_last i ∧
              l = seqZ nxt (iv_last i - nxt + 1) ++ concat (run_values <$> drop (S idx) r)
  end → yields (IterRun r idx nxt) l.
Proof.
  revert idx nxt. induction l as [|v l IH]; intros idx nxt H; destruct (r !! idx) as [i|] eqn:Hi; simpl.
  - destruct H as [Hn Hl]. rewrite seqZ_cons in Hl by lia. done.
  - by rewrite Hi.
  - destruct H as [Hn Hl]. rewrite seqZ_cons in Hl by lia. simpl in Hl. injection Hl as -> Hl.
    rewrite Hi. simpl.
    assert (run_ok i) as (?&?&?) by (by eapply Forall_lookup_1).
    destruct (Z.eqb_spec nxt (iv_last i)) as [->|Hne].
    + eexists. split; [done|]. apply IH. rewrite seqZ_nil in Hl by lia. simpl in Hl.
      destruct (r !! S idx) as [j|] eqn:Hj.
      * assert (run_ok j) as (?&?&?) by (by eapply Forall_lookup_1). simpl. split; [lia|].
        by rewrite (drop_S _ _ _ Hj) in Hl.
      * by rewrite drop_ge in Hl by (by apply lookup_ge_None).
    + eexists. split; [done|]. apply IH. rewrite Hi. rewrite Z.mod_small by lia.
      split; [lia|]. rewrite Hl. do 2 f_equal; lia.
  - done.
Qed.
End run_iter.

Lemma iter_yields c : wf c → yields (iter c) (members c).
Proof.
  intros Hc. destruct c as [a|b|r]; simpl.
  - clear Hc. induction a as [|v a IH]; simpl; [done|]. eauto.
  - apply wf_bitmap in Hc as [Hl Hw]. apply yields_bitmap; [done..| |].
    + by apply word_at_word64.
    + rewrite <-expand_drop by (rewrite Hl; done). done.
  - apply wf_run in Hc as [Hok _]. apply yields_run; [done|]. destruct r as [|i r]; simpl; [done|].
    inversion Hok as [|?? (?&?&?) ?]; subst. split; [lia|done].
Qed.

Lemma values_members c : wf c → values c = members c.
Proof.
  intros Hc. apply yields_drain; [by apply iter_yields|].
  pose proof (members_length c Hc). lia.
Qed.
