(* ===== verification/Optimize.v ===== *)
(** Choosing a representation, and changing a container in place
    (crates/big-container/src/optimize.rs, and the mutating half of container/mod.rs). *)
From S2P Require Import Prelude Bits Search Container.

(** * Counting and building runs *)

(** The loop body of [run_count]: [prev.is_none_or(|p| v != p + 1)]. *)
Definition run_count_step (st : Z * option Z) (v : Z) : Z * option Z :=
  let '(runs, prev) := st in
  let fresh := match prev with None => true | Some p => negb (v =? (p + 1) mod 65536) end in
  (if fresh then runs + 1 else runs, Some v).

Definition run_count (c : Container) : Z :=
  match c with
  | Run r => Z.of_nat (length r)
  | _ => fst (foldl run_count_step (0, None) (values c))
  end.

(** The loop body of [to_runs]: grow the last run by one, or open a new one. *)
Definition push_run (out : list Interval) (v : Z) : list Interval :=
  match rev out with
  | l :: pre =>
      if (iv_last l + 1) mod 65536 =? v
      then rev pre ++ [mkInterval (iv_start l) v]
      else out ++ [mkInterval v v]
  | [] => [mkInterval v v]
  end.

Definition to_runs (c : Container) : list Interval := foldl push_run [] (values c).

(** * optimize *)
Record Caps := mkCaps { array_max : Z; run_max : Z }.

Inductive OpResult := Borrowed (c : Container) | Owned (c : Container).

(** [OpResult::as_ref] and [into_owned]: a borrow and an owned value read alike. *)
Definition into_owned (r : OpResult) : Container :=
  match r with Borrowed c => c | Owned c => c end.
Definition is_borrowed (r : OpResult) : bool :=
  match r with Borrowed _ => true | Owned _ => false end.

Definition usize_max : Z := 2 ^ 64 - 1.

(** [for v in c.iter() { w[v / 64] |= 1 << (v % 64) }] over a zeroed bitmap. *)
Definition to_bitmap (c : Container) : list Z := foldl set_bit empty_words (values c).

Definition optimize (c : Container) (caps : Caps) : OpResult :=
  let card := cardinality c in
  let runs := run_count c in
  let array_ok := card <=? Z.min (array_max caps) ARRAY_BREAK_EVEN in
  let run_ok := runs <=? run_max caps in
  let array_bytes := if array_ok then card * 2 else usize_max in
  let run_bytes := if run_ok then runs * 4 else usize_max in
  let bitmap_bytes := BITMAP_BYTES in
  let best := Z.min (Z.min array_bytes run_bytes) bitmap_bytes in
  let keep :=
    match c with
    | Array _ => array_ok && (array_bytes =? best)
    | Run _ => run_ok && (run_bytes =? best)
    | Bitmap _ => bitmap_bytes =? best
    end in
  if keep then Borrowed c
  else Owned (if best =? array_bytes then Array (values c)
              else if best =? run_bytes then Run (to_runs c)
              else Bitmap (to_bitmap c)).

(** * Mutation *)

(** [Vec::dedup]. *)
Fixpoint dedup (l : list Z) : list Z :=
  match l with
  | [] => []
  | x :: l' => match l' with [] => [x] | y :: _ => if x =? y then dedup l' else x :: dedup l' end
  end.

Definition from_values (vs : list Z) : Container :=
  if strictly_ascending vs then Array vs else Array (dedup (merge_sort Z.le vs)).

(** [a.insert(i, v)]. *)
Definition insert_at {A} (l : list A) (i : nat) (v : A) : list A := take i l ++ v :: drop i l.

Definition insert (c : Container) (v : Z) : Container * bool :=
  match c with
  | Array a =>
      match binary_search_by_key v id a with
      | Hit _ => (Array a, false)
      | Miss i => (Array (insert_at a i v), true)
      end
  | Bitmap b =>
      let had := negb (Z.land (word_at b (v / 64)) (Z.shiftl 1 (v mod 64)) =? 0) in
      (Bitmap (set_bit b v), negb had)
  | Run r =>
      if contains (Run r) v then (Run r, false)
      else
        let vals := values (Run r) in
        match binary_search_by_key v id vals with
        | Hit _ => (Run r, false)
        | Miss i => (Run (to_runs (Array (insert_at vals i v))), true)
        end
  end.

Definition remove (c : Container) (v : Z) : Container * bool :=
  match c with
  | Array a =>
      match binary_search_by_key v id a with
      | Hit i => (Array (delete i a), true)
      | Miss _ => (Array a, false)
      end
  | Bitmap b =>
      let had := negb (Z.land (word_at b (v / 64)) (Z.shiftl 1 (v mod 64)) =? 0) in
      (Bitmap (clear_bit b v), had)
  | Run r =>
      if negb (contains (Run r) v) then (Run r, false)
      else
        let vals := List.filter (λ x, negb (x =? v)) (values (Run r)) in
        (Run (to_runs (Array vals)), true)
  end.

(** * Runs rebuild the values they came from *)
Lemma run_values_snoc s v : s <= v → run_values (mkInterval s v) = seqZ s (v - s) ++ [v].
Proof.
  intros Hs. unfold run_values. simpl. rewrite seqZ_app by lia.
  f_equal. rewrite seqZ_cons, seqZ_nil by lia. f_equal. lia.
Qed.

Lemma StronglySorted_snoc_inv {A} (R : A → A → Prop) l x :
  StronglySorted R (l ++ [x]) → StronglySorted R l ∧ Forall (λ y, R y x) l.
Proof.
  intros (Hx & Hl & _)%StronglySorted_app. split; [done|].
  apply Forall_forall. intros y Hy. apply Hx; [done|]. by left.
Qed.

Lemma runs_ok_snoc r i :
  runs_ok r → run_ok i → Forall (λ x, run_before x i) r → runs_ok (r ++ [i]).
Proof.
  intros [Hr Hs] Hi Hb. split; [apply Forall_app; split; [done|by constructor]|].
  apply StronglySorted_app_2; [|done|repeat constructor].
  intros x y Hx ->%list_elem_of_singleton. rewrite Forall_forall in Hb. by apply Hb.
Qed.

(** What one more value does to the runs so far. *)
Lemma push_run_spec out v :
  runs_ok out → u16 v → Forall (λ x, x < v) (concat (run_values <$> out)) →
  runs_ok (push_run out v) ∧
  concat (run_values <$> push_run out v) = concat (run_values <$> out) ++ [v].
Proof.
  intros Hok Hv Hlt. unfold push_run. destruct Hv as [Hv0 Hv1].
  destruct (rev out) as [|l pre] eqn:E.
  { assert (out = []) as -> by (rewrite <-(rev_involutive out), E; done). simpl. split.
    - split; [constructor; [unfold run_ok; simpl; lia|constructor]|repeat constructor].
    - rewrite run_values_snoc by lia. by rewrite Z.sub_diag, seqZ_nil by lia. }
  assert (out = rev pre ++ [l]) as -> by (rewrite <-(rev_involutive out), E; done).
  clear E. revert Hok Hlt. generalize (rev pre). clear pre. intros pre [Hr Hs] Hlt.
  apply Forall_app in Hr as [Hpre Hl]. inversion Hl as [|?? (?&?&?) _]; subst.
  apply StronglySorted_snoc_inv in Hs as [Hs Hbl].
  rewrite fmap_app, concat_app in Hlt. apply Forall_app in Hlt as [_ Hlt].
  assert (iv_last l < v) as Hlv.
  { rewrite Forall_forall in Hlt. apply Hlt. simpl. rewrite app_nil_r.
    apply elem_of_run_values. lia. }
  destruct (Z.eqb_spec ((iv_last l + 1) mod 65536) v) as [He|Hne].
  - rewrite Z.mod_small in He by lia. split.
    + apply runs_ok_snoc; [by split| |by eapply Forall_impl; [exact Hbl|]].
      unfold run_ok. simpl. lia.
    + rewrite !fmap_app, !concat_app. simpl. rewrite !app_nil_r, <-app_assoc. f_equal.
      rewrite run_values_snoc by lia. f_equal. unfold run_values. f_equal. lia.
  - rewrite Z.mod_small in Hne by lia. split.
    + apply runs_ok_snoc.
      * split; [by apply Forall_app|]. apply StronglySorted_app_2; [|done|repeat constructor].
        intros x y Hx ->%list_elem_of_singleton. rewrite Forall_forall in Hbl. by apply Hbl.
      * unfold run_ok. simpl. lia.
      * apply Forall_app. split.
        -- eapply Forall_impl; [exact Hbl|]. unfold run_before. simpl. intros x. lia.
        -- constructor; [|done]. unfold run_before. simpl. lia.
    + rewrite !fmap_app, !concat_app. simpl. rewrite !app_nil_r. f_equal.
      rewrite run_values_snoc by lia. by rewrite Z.sub_diag, seqZ_nil by lia.
Qed.

Lemma push_runs_spec l out :
  runs_ok out → (∀ v, v ∈ l → u16 v) → ascending (concat (run_values <$> out) ++ l) →
  runs_ok (foldl push_run out l) ∧
  concat (run_values <$> foldl push_run out l) = concat (run_values <$> out) ++ l.
Proof.
  revert out. induction l as [|v l IH]; intros out Hok Hu Hs; cbn [foldl].
  - by rewrite app_nil_r.
  - assert (Forall (λ x, x < v) (concat (run_values <$> out))) as Hlt.
    { apply Forall_forall. intros x Hx. apply (StronglySorted_app_1_elem_of _ _ _ _ _ Hs); [done|by left]. }
    destruct (push_run_spec out v Hok (Hu v ltac:(by left)) Hlt) as [Hok' Hc'].
    change (v :: l) with ([v] ++ l) in Hs |- *. rewrite app_assoc, <-Hc' in Hs.
    rewrite app_assoc, <-Hc'.
    apply IH; [done| |done]. intros x Hx. apply Hu. by right.
Qed.

Lemma to_runs_spec c :
  wf c → runs_ok (to_runs c) ∧ concat (run_values <$> to_runs c) = members c.
Proof.
  intros Hc. unfold to_runs. rewrite values_members by done.
  apply (push_runs_spec _ []); [split; constructor|by intros; eapply members_u16|].
  by apply members_ascending.
Qed.

(** [run_count] counts the runs [to_runs] builds. *)
Lemma run_count_step_spec out v runs prev :
  runs = Z.of_nat (length out) → prev = iv_last <$> last out →
  run_count_step (runs, prev) v =
    (Z.of_nat (length (push_run out v)), iv_last <$> last (push_run out v)).
Proof.
  intros -> ->. unfold push_run. destruct out as [|l pre _] using rev_ind; [done|].
  rewrite rev_app_distr, last_snoc. simpl. rewrite rev_involutive.
  rewrite (Z.eqb_sym v). destruct (_ =? v); simpl.
  - rewrite last_snoc, !length_app. done.
  - rewrite last_snoc, !length_app. simpl. f_equal. lia.
Qed.

Lemma run_count_loop l out runs prev :
  runs = Z.of_nat (length out) → prev = iv_last <$> last out →
  fst (foldl run_count_step (runs, prev) l) = Z.of_nat (length (foldl push_run out l)).
Proof.
  revert out runs prev. induction l as [|v l IH]; intros out runs prev Hr Hp; cbn [foldl]; [done|].
  rewrite (run_count_step_spec out) by done. by apply IH.
Qed.

Lemma run_count_spec c :
  wf c → run_count c = match c with Run r => Z.of_nat (length r) | _ => Z.of_nat (length (to_runs c)) end.
Proof. intros Hc. destruct c as [a|b|r]; [by apply run_count_loop..|done]. Qed.

(** * Bitmaps built bit by bit *)
Lemma set_bits_spec l b :
  Z.of_nat (length b) = BITMAP_WORDS → Forall word64 b → (∀ v, v ∈ l → u16 v) →
  wf (Bitmap (foldl set_bit b l)) ∧
  ∀ u, 0 <= u → bit_at (foldl set_bit b l) u = true ↔ u ∈ l ∨ bit_at b u = true.
Proof.
  revert b. induction l as [|v l IH]; intros b Hl Hw Hu; cbn [foldl].
  - split; [by apply wf_bitmap|]. intros u _. rewrite elem_of_nil. tauto.
  - assert (u16 v) as Hv by (apply Hu; by left).
    destruct (IH (set_bit b v)) as [Hwf Hb].
    + by unfold set_bit; rewrite length_upd.
    + apply words_set; [by destruct Hv|done].
    + intros x Hx. apply Hu. by right.
    + split; [done|]. intros u H0. rewrite Hb, bit_at_set by done.
      rewrite elem_of_cons, orb_true_iff, Z.eqb_eq. tauto.
Qed.

Lemma to_bitmap_spec c : wf c → wf (Bitmap (to_bitmap c)) ∧ members (Bitmap (to_bitmap c)) = members c.
Proof.
  intros Hc. unfold to_bitmap. rewrite values_members by done.
  destruct (set_bits_spec (members c) empty_words) as [Hwf Hb];
    [apply length_empty_words|apply words_empty|by intros; eapply members_u16|].
  split; [done|]. apply ascending_ext; [by apply members_ascending|by apply members_ascending|].
  intros u. split.
  - intros Hu. simpl in Hu. apply elem_of_expand_0 in Hu as [Hu Ht].
    apply Hb in Ht as [?|Ht]; [done| |lia]. by rewrite bit_at_empty in Ht.
  - intros Hu. pose proof (members_u16 _ _ Hc Hu) as H16.
    apply contains_members; [done..|]. simpl. apply Hb; [by destruct H16|by left].
Qed.

(** * optimize: the same set, in the smallest form that fits *)
Definition within (caps : Caps) (c : Container) : Prop :=
  match c with
  | Array a => Z.of_nat (length a) <= array_max caps
  | Run r => Z.of_nat (length r) <= run_max caps
  | Bitmap _ => True
  end.

Lemma optimize_same_set c caps :
  wf c → wf (into_owned (optimize c caps)) ∧ members (into_owned (optimize c caps)) = members c.
Proof.
  intros Hc. unfold optimize. cbv zeta. destruct (match c with Array _ => _ | _ => _ end); [done|].
  simpl. destruct (_ =? _); [|destruct (_ =? _)].
  - rewrite values_members by done. split; [|done]. apply wf_array. split; [|by apply members_ascending].
    apply Forall_forall. intros v. by apply members_u16.
  - destruct (to_runs_spec c Hc) as [Hr Hm]. split; [by apply wf_run|done].
  - by apply to_bitmap_spec.
Qed.

(** The bytes of a choice [optimize] may make. *)
Lemma optimize_size c caps :
  wf c →
  let c' := into_owned (optimize c caps) in
  within caps c' ∧ byte_size c' <= BITMAP_BYTES ∧
  (cardinality c <= Z.min (array_max caps) ARRAY_BREAK_EVEN → byte_size c' <= 2 * cardinality c) ∧
  (run_count c <= run_max caps → byte_size c' <= 4 * run_count c).
Proof.
  intros Hc. pose proof (cardinality_members c Hc) as Hcard. pose proof (run_count_spec c Hc) as Hrc.
  pose proof (members_length c Hc).
  assert (0 <= run_count c) by (rewrite Hrc; destruct c; lia).
  unfold optimize, usize_max, ARRAY_BREAK_EVEN, BITMAP_BYTES, BITMAP_WORDS. cbv zeta.
  set (card := cardinality c) in *. set (runs := run_count c) in *.
  destruct (Z.leb_spec card (Z.min (array_max caps) (1024 * 8 / 2))) as [Ha|Ha];
  destruct (Z.leb_spec runs (run_max caps)) as [Hr|Hr];
  destruct c as [a|b|r]; cbn [andb members] in *;
  repeat (match goal with |- context [?x =? ?y] => destruct (Z.eqb_spec x y) end);
  cbn [andb into_owned within byte_size members] in *;
  rewrite ?values_members in * by done; change (BITMAP_BYTES) with 8192 in *;
  change (1024 * 8 / 2) with 4096 in *; change (1024 * 8) with 8192 in *;
  split_and!; cbn [members] in *; try done; try lia.
Qed.

Lemma optimize_borrowed c caps c' : optimize c caps = Borrowed c' → c' = c.
Proof.
  unfold optimize. cbv zeta. destruct (match c with Array _ => _ | _ => _ end); [|done]. by intros [= ->].
Qed.

(** * Mutation: one value in, one value out *)
Lemma land_pow2_eqb w b : 0 <= b → (Z.land w (Z.shiftl 1 b) =? 0) = negb (Z.testbit w b).
Proof.
  intros Hb. destruct (Z.testbit w b) eqn:E; simpl.
  - apply Z.eqb_neq. intros H. assert (Z.testbit (Z.land w (Z.shiftl 1 b)) b = true) as Ht.
    { rewrite Z.land_spec, E, testbit_pow2 by done. lia. }
    by rewrite H, Z.testbit_0_l in Ht.
  - apply Z.eqb_eq. apply Z.bits_inj'. intros i Hi.
    rewrite Z.land_spec, testbit_pow2, Z.testbit_0_l by done.
    destruct (Z.eqb_spec i b) as [->|]; [by rewrite E|apply andb_false_r].
Qed.

Lemma had_bit b v : 0 <= v → negb (Z.land (word_at b (v / 64)) (Z.shiftl 1 (v mod 64)) =? 0) = bit_at b v.
Proof.
  intros Hv. rewrite land_pow2_eqb by (apply Z.mod_pos_bound; lia).
  by rewrite negb_involutive, bit_at_testbit.
Qed.

Lemma insert_at_spec a i v :
  ascending a → Forall (λ x, x < v) (take i a) → Forall (λ x, v < x) (drop i a) →
  ascending (insert_at a i v) ∧ ∀ u, u ∈ insert_at a i v ↔ u = v ∨ u ∈ a.
Proof.
  intros Hs Hlt Hgt. unfold insert_at. rewrite <-(take_drop i a) in Hs.
  rewrite Forall_forall in Hlt, Hgt. split.
  - apply StronglySorted_app_2.
    + intros x y Hx [->|Hy]%elem_of_cons; [by apply Hlt|].
      by apply (StronglySorted_app_1_elem_of _ _ _ _ _ Hs).
    + by eapply StronglySorted_app_1_l.
    + constructor; [by eapply StronglySorted_app_1_r|]. by apply Forall_forall.
  - intros u. rewrite elem_of_app, elem_of_cons. rewrite <-(take_drop i a) at 3.
    rewrite elem_of_app. tauto.
Qed.

Lemma insert_at_u16 a i v u : (∀ x, x ∈ a → u16 x) → u16 v → u ∈ insert_at a i v → u16 u.
Proof.
  intros Ha Hv. unfold insert_at. rewrite elem_of_app, elem_of_cons.
  intros [Hu|[->|Hu]]; [|done|]; apply Ha.
  - by apply (subseteq_take i).
  - by apply (subseteq_drop i).
Qed.

Lemma wf_array_intro a : ascending a → (∀ x, x ∈ a → u16 x) → wf (Array a).
Proof. intros Hs Hu. apply wf_array. split; [by apply Forall_forall|done]. Qed.

Lemma wf_to_runs c : wf c → wf (Run (to_runs c)) ∧ members (Run (to_runs c)) = members c.
Proof. intros Hc. destruct (to_runs_spec c Hc) as [Hr Hm]. split; [by apply wf_run|done]. Qed.

Lemma insert_members c v :
  wf c → u16 v →
  let '(c', fresh) := insert c v in
  wf c' ∧ (∀ u, u ∈ members c' ↔ u = v ∨ u ∈ members c) ∧ (fresh = true ↔ v ∉ members c).
Proof.
  intros Hc Hv. destruct c as [a|b|r]; cbn [insert].
  - pose proof Hc as [Hu Hs]%wf_array. pose proof (binary_search_by_key_spec id v a Hs) as Hb.
    destruct (binary_search_by_key v id a) as [i|i].
    + destruct Hb as (x & Hi & Hx). unfold id in Hx. subst x. apply list_elem_of_lookup_2 in Hi.
      split; [done|]. split; [|by split]. intros u. simpl. split; [by right|]. by intros [->|].
    + destruct Hb as (_ & Hlt & Hgt). destruct (insert_at_spec a i v Hs Hlt Hgt) as [Hs' Hin].
      rewrite Forall_forall in Hu. split.
      { apply wf_array_intro; [done|]. intros x. by apply insert_at_u16. }
      split; [done|]. split; [|done]. intros _ Hx. simpl in Hx. rewrite <-(take_drop i a) in Hx.
      rewrite Forall_forall in Hlt, Hgt. unfold id in *.
      apply elem_of_app in Hx as [Hx%Hlt|Hx%Hgt]; lia.
  - pose proof Hc as [Hl Hw]%wf_bitmap. pose proof Hv as [Hv0 Hv1]. rewrite had_bit by done.
    assert (wf (Bitmap (set_bit b v))) as Hwf.
    { apply wf_bitmap. split; [by unfold set_bit; rewrite length_upd|by apply words_set]. }
    split; [done|]. split.
    + intros u. destruct (decide (u16 u)) as [Hu|Hu].
      * rewrite <-!contains_members by done. cbn [contains]. rewrite bit_at_set by (done || by destruct Hu).
        by rewrite orb_true_iff, Z.eqb_eq.
      * split; [by intros ?%members_u16|]. intros [->|?%members_u16]; done.
    + rewrite negb_true_iff. by rewrite <-contains_members_false.
  - pose proof Hc as Hr%wf_run. destruct (contains (Run r) v) eqn:E.
    + apply contains_members in E; [|done..]. split; [done|]. split; [|by split].
      intros u. split; [by right|]. by intros [->|].
    + apply contains_members_false in E; [|done..]. rewrite values_members by done.
      pose proof (members_ascending _ Hc) as Hs.
      pose proof (binary_search_by_key_spec id v _ Hs) as Hb.
      destruct (binary_search_by_key v id _) as [i|i].
      * destruct Hb as (x & Hi & Hx). unfold id in Hx. subst x. by apply list_elem_of_lookup_2 in Hi.
      * destruct Hb as (_ & Hlt & Hgt). destruct (insert_at_spec _ i v Hs Hlt Hgt) as [Hs' Hin].
        destruct (wf_to_runs (Array (insert_at (members (Run r)) i v))) as [Hwf Hm].
        { apply wf_array_intro; [done|]. intros x. apply insert_at_u16; [|done].
          intros y. by apply members_u16. }
        split; [done|]. rewrite Hm. split; [done|]. by split.
Qed.

Lemma elem_of_delete_ascending a i v u :
  ascending a → a !! i = Some v → u ∈ delete i a ↔ u ≠ v ∧ u ∈ a.
Proof.
  intros Hs Hi. rewrite delete_take_drop.
  pose proof (take_drop_middle a i v Hi) as Hm. rewrite <-Hm in Hs.
  apply StronglySorted_app in Hs as (Hx & _ & Hs). apply StronglySorted_cons in Hs as [Hgt _].
  rewrite Forall_forall in Hgt. rewrite <-Hm at 3. rewrite !elem_of_app, elem_of_cons. split.
  - intros [Hu|Hu]; (split; [|tauto]); intros ->.
    + specialize (Hx v v Hu ltac:(by left)). lia.
    + specialize (Hgt v Hu). lia.
  - intros [Hne [?|[?|?]]]; tauto.
Qed.

Lemma ascending_delete a i : ascending a → ascending (delete i a).
Proof.
  intros Hs. destruct (a !! i) as [v|] eqn:Hi.
  - rewrite delete_take_drop. rewrite <-(take_drop_middle a i v Hi) in Hs.
    apply StronglySorted_app in Hs as (Hx & Hl & Hs). apply StronglySorted_cons in Hs as [_ Hr].
    apply StronglySorted_app_2; [|done..]. intros x y H1 H2. apply Hx; [done|by right].
  - apply lookup_ge_None in Hi. rewrite delete_take_drop, take_ge, drop_ge by lia. by rewrite app_nil_r.
Qed.

Lemma remove_members c v :
  wf c → u16 v →
  let '(c', had) := remove c v in
  wf c' ∧ (∀ u, u ∈ members c' ↔ u ≠ v ∧ u ∈ members c) ∧ (had = true ↔ v ∈ members c).
Proof.
  intros Hc Hv. destruct c as [a|b|r]; cbn [remove].
  - pose proof Hc as [Hu Hs]%wf_array. pose proof (binary_search_by_key_spec id v a Hs) as Hb.
    destruct (binary_search_by_key v id a) as [i|i].
    + destruct Hb as (x & Hi & Hx). unfold id in Hx. subst x.
      pose proof (list_elem_of_lookup_2 _ _ _ Hi) as Hin. rewrite Forall_forall in Hu.
      split; [|split; [|by split]].
      * apply wf_array_intro; [by apply ascending_delete|]. intros x Hx.
        apply (elem_of_delete_ascending a i v x Hs Hi) in Hx as [_ Hx]. by apply Hu.
      * intros u. by apply elem_of_delete_ascending.
    + destruct Hb as (_ & Hlt & Hgt). assert (v ∉ a) as Hn.
      { intros Hx. rewrite <-(take_drop i a) in Hx. rewrite Forall_forall in Hlt, Hgt. unfold id in *.
        apply elem_of_app in Hx as [Hx%Hlt|Hx%Hgt]; lia. }
      split; [done|]. split; [|by split]. intros u. simpl. split; [|tauto].
      intros Hin. split; [|done]. by intros ->.
  - pose proof Hc as [Hl Hw]%wf_bitmap. pose proof Hv as [Hv0 Hv1]. rewrite had_bit by done.
    assert (wf (Bitmap (clear_bit b v))) as Hwf.
    { apply wf_bitmap. split; [by unfold clear_bit; rewrite length_upd|by apply words_clear]. }
    split; [done|]. split.
    + intros u. destruct (decide (u16 u)) as [Hu|Hu].
      * rewrite <-!contains_members by done. cbn [contains].
        rewrite bit_at_clear by (done || by destruct Hu).
        by rewrite andb_true_iff, negb_true_iff, Z.eqb_neq.
      * split; [by intros ?%members_u16|]. by intros [_ ?%members_u16].
    + by rewrite <-contains_members.
  - destruct (contains (Run r) v) eqn:E; cbn [negb].
    + apply contains_members in E; [|done..]. rewrite values_members by done.
      destruct (wf_to_runs (Array (List.filter (λ x, negb (x =? v)) (members (Run r))))) as [Hwf Hm].
      { apply wf_array_intro; [by apply ascending_filter, members_ascending|].
        intros x [Hx _]%elem_of_Lfilter. by eapply members_u16. }
      split; [done|]. rewrite Hm. split; [|by split]. intros u. cbn [members].
      rewrite elem_of_Lfilter, negb_true_iff, Z.eqb_neq. tauto.
    + apply contains_members_false in E; [|done..]. split; [done|]. split; [|by split].
      intros u. split; [|tauto]. intros Hin. split; [|done]. by intros ->.
Qed.

(** ** from_values *)
Lemma dedup_spec l :
  StronglySorted Z.le l → ascending (dedup l) ∧ ∀ u, u ∈ dedup l ↔ u ∈ l.
Proof.
  induction 1 as [|x l Hl IH Hx]; [split; [constructor|done]|].
  destruct l as [|y l]; [split; [repeat constructor|done]|].
  destruct IH as [Hs Hin]. change (dedup (x :: y :: l)) with
    (if x =? y then dedup (y :: l) else x :: dedup (y :: l)).
  destruct (Z.eqb_spec x y) as [->|Hne].
  - split; [done|]. intros u. rewrite Hin, !elem_of_cons. tauto.
  - split.
    + constructor; [done|]. apply Forall_forall. intros u Hu%Hin.
      inversion Hx as [|?? Hxy _]; subst. apply StronglySorted_cons in Hl as [Hy _].
      rewrite Forall_forall in Hy. apply elem_of_cons in Hu as [->|Hu%Hy]; lia.
    + intros u. rewrite !elem_of_cons, Hin, !elem_of_cons. tauto.
Qed.

Lemma from_values_members vs :
  (∀ v, v ∈ vs → u16 v) → wf (from_values vs) ∧ ∀ u, u ∈ members (from_values vs) ↔ u ∈ vs.
Proof.
  intros Hu. unfold from_values. destruct (strictly_ascending vs) eqn:E.
  - apply strictly_ascending_spec in E. split; [by apply wf_array_intro|done].
  - destruct (dedup_spec (merge_sort Z.le vs)) as [Hs Hin].
    { apply StronglySorted_merge_sort; apply _. }
    assert (∀ u, u ∈ dedup (merge_sort Z.le vs) ↔ u ∈ vs) as Hm.
    { intros u. rewrite Hin. by rewrite merge_sort_Permutation. }
    split; [|done]. apply wf_array_intro; [done|]. intros x Hx%Hm. by apply Hu.
Qed.
