(* ===== verification/SetOps.v ===== *)
(** Set operations on containers (crates/big-container/src/builder.rs and ops/).

    Four operations over nine pairs of representations, some specialised, the rest an iterator
    merge.  The specification is [op_spec], the operation on membership; [apply] implements it for
    every pair, through whichever routine it dispatches to. *)
From S2P Require Import Prelude Bits Search Container Optimize.

(** * SetOp (ops/mod.rs) *)
Inductive SetOp := And | Or | Xor | AndNot.

Definition is_commutative (op : SetOp) : bool := match op with AndNot => false | _ => true end.
Definition keeps_left_only (op : SetOp) : bool :=
  match op with Or | Xor | AndNot => true | And => false end.
Definition keeps_right_only (op : SetOp) : bool :=
  match op with Or | Xor => true | _ => false end.
Definition keeps_both (op : SetOp) : bool :=
  match op with And | Or => true | _ => false end.

Definition bound (op : SetOp) (la lb : Z) : Z :=
  match op with And => Z.min la lb | Or | Xor => la + lb | AndNot => la end.

Definition rank (c : Container) : Z :=
  match c with Array _ => 0 | Run _ => 1 | Bitmap _ => 2 end.

(** * The output buffer (builder.rs) *)
Inductive Out := OutArray (a : list Z) | OutBitmap (b : list Z).

Definition with_bound (n : Z) : Out :=
  if n <=? ARRAY_BREAK_EVEN then OutArray [] else OutBitmap empty_words.

Definition push (out : Out) (v : Z) : Out :=
  match out with OutArray a => OutArray (a ++ [v]) | OutBitmap b => OutBitmap (set_bit b v) end.

Definition as_bitmap_mut (out : Out) : option (list Z) :=
  match out with OutBitmap b => Some b | OutArray _ => None end.

Definition finish (out : Out) : Container :=
  match out with OutArray a => Array a | OutBitmap b => Bitmap b end.

Definition push_if (keep : bool) (out : Out) (v : Z) : Out := if keep then push out v else out.

(** * Array against array (ops/array_array.rs): the cursors [i] and [j] are the suffixes left. *)
Fixpoint array_array_run (op : SetOp) (a : list Z) : list Z → Out → Out :=
  fix inner (b : list Z) (out : Out) : Out :=
    match a, b with
    | x :: a', y :: b' =>
        match x ?= y with
        | Lt => array_array_run op a' b (push_if (keeps_left_only op) out x)
        | Gt => inner b' (push_if (keeps_right_only op) out y)
        | Eq => array_array_run op a' b' (push_if (keeps_both op) out x)
        end
    | _, _ =>
        let out := if keeps_left_only op then foldl push out a else out in
        if keeps_right_only op then foldl push out b else out
    end.

(** * Array against bitmap (ops/array_bitmap.rs).  The [bool] is whether the pair was handled. *)
Definition array_bitmap_run (op : SetOp) (a : list Z) (b : list Z) (out : Out) : Out * bool :=
  match op with
  | And => (foldl (λ o v, push_if (bit_at b v) o v) out a, true)
  | AndNot => (foldl (λ o v, push_if (negb (bit_at b v)) o v) out a, true)
  | Or =>
      match as_bitmap_mut out with
      | Some _ => (OutBitmap (foldl set_bit b a), true)
      | None => (out, false)
      end
  | Xor =>
      match as_bitmap_mut out with
      | Some _ => (OutBitmap (foldl flip_bit b a), true)
      | None => (out, false)
      end
  end.

Definition array_bitmap_run_reversed (op : SetOp) (a : list Z) (b : list Z) (out : Out) : Out * bool :=
  match op, as_bitmap_mut out with
  | AndNot, Some _ => (OutBitmap (foldl clear_bit a b), true)
  | _, _ => (out, false)
  end.

(** * Array against runs (ops/array_run.rs): one sweep with two cursors. *)
Fixpoint sweep (keep_inside : bool) (a : list Z) : list Interval → Out → Out :=
  match a with
  | [] => λ _ out, out
  | v :: a' =>
      fix over (b : list Interval) (out : Out) : Out :=
        match b with
        | [] => sweep keep_inside a' [] (push_if (negb keep_inside) out v)
        | r :: b' =>
            if v <? iv_start r then sweep keep_inside a' b (push_if (negb keep_inside) out v)
            else if iv_last r <? v then over b' out
            else sweep keep_inside a' b (push_if keep_inside out v)
        end
  end.

Definition array_run_run (op : SetOp) (a : list Z) (b : list Interval) (out : Out) : Out * bool :=
  match op with
  | And => (sweep true a b out, true)
  | AndNot => (sweep false a b out, true)
  | Or | Xor => (out, false)
  end.

(** * Bitmap against bitmap (ops/bitmap_bitmap.rs): word at a time. *)
Definition word_op (op : SetOp) (x y : Z) : Z :=
  match op with
  | And => Z.land x y
  | Or => Z.lor x y
  | Xor => Z.lxor x y
  | AndNot => Z.land x (not64 y)
  end.

Definition bitmap_bitmap_run (op : SetOp) (a b : list Z) (out : Out) : Out * bool :=
  match as_bitmap_mut out with
  | None => (out, false)
  | Some _ => (OutBitmap (zip_with (word_op op) a b), true)
  end.

(** * The iterator merge (ops/fallback.rs).  Every round consumes a value of one side, and a
    container has at most 65,536: [merge_fuel] rounds are enough. *)
Definition advance (it : Iter) : option Z * Iter :=
  match next it with Some (v, it') => (Some v, it') | None => (None, it) end.

Fixpoint merge_loop (fuel : nat) (op : SetOp)
    (va : option Z) (ia : Iter) (vb : option Z) (ib : Iter) (out : Out) : Out :=
  match fuel with
  | O => out
  | S fuel' =>
      match va, vb with
      | Some x, Some y =>
          if x <? y then
            let '(va', ia') := advance ia in
            merge_loop fuel' op va' ia' vb ib (push_if (keeps_left_only op) out x)
          else if y <? x then
            let '(vb', ib') := advance ib in
            merge_loop fuel' op va ia vb' ib' (push_if (keeps_right_only op) out y)
          else
            let '(va', ia') := advance ia in
            let '(vb', ib') := advance ib in
            merge_loop fuel' op va' ia' vb' ib' (push_if (keeps_both op) out x)
      | Some x, None =>
          let '(va', ia') := advance ia in
          merge_loop fuel' op va' ia' vb ib (push_if (keeps_left_only op) out x)
      | None, Some y =>
          let '(vb', ib') := advance ib in
          merge_loop fuel' op va ia vb' ib' (push_if (keeps_right_only op) out y)
      | None, None => out
      end
  end.

Definition merge_fuel : nat := Z.to_nat (2 * 65536 + 1).

Definition fallback_merge (op : SetOp) (a b : Container) (out : Out) : Out :=
  let '(va, ia) := advance (iter a) in
  let '(vb, ib) := advance (iter b) in
  merge_loop merge_fuel op va ia vb ib out.

(** * Dispatch (ops/mod.rs) *)
Definition shortcut (op : SetOp) (a b : Container) : option OpResult :=
  let ea := is_empty a in
  let eb := is_empty b in
  if negb ea && negb eb then None
  else Some (Borrowed
    match op with
    | And => if ea then a else b
    | Or | Xor => if ea then b else a
    | AndNot => a
    end).

Definition apply (op : SetOp) (a b : Container) : OpResult :=
  match shortcut op a b with
  | Some r => r
  | None =>
      let '(a, b) := if is_commutative op && (rank b <? rank a) then (b, a) else (a, b) in
      let out := with_bound (bound op (cardinality a) (cardinality b)) in
      let '(out, handled) :=
        match a, b with
        | Array x, Array y => (array_array_run op x y out, true)
        | Array x, Bitmap y => array_bitmap_run op x y out
        | Array x, Run y => array_run_run op x y out
        | Bitmap x, Array y => array_bitmap_run_reversed op x y out
        | Bitmap x, Bitmap y => bitmap_bitmap_run op x y out
        | _, _ => (out, false)
        end in
      let out := if handled : bool then out else fallback_merge op a b out in
      Owned (finish out)
  end.

(** [fold(op, items)]: [None] for an empty sequence. *)
Definition fold (op : SetOp) (items : list Container) : option Container :=
  match items with
  | [] => None
  | c :: rest => Some (foldl (λ acc it, into_owned (apply op acc it)) c rest)
  end.

#[global] Arguments merge_fuel : simpl never.
#[global] Arguments fallback_merge : simpl never.

Lemma merge_fuel_eq : Z.of_nat merge_fuel = 131073.
Proof. unfold merge_fuel. lia. Qed.
#[global] Opaque merge_fuel.

(** * The specification *)
Definition op_spec (op : SetOp) (p q : Prop) : Prop :=
  match op with
  | And => p ∧ q
  | Or => p ∨ q
  | Xor => (p ∧ ¬ q) ∨ (¬ p ∧ q)
  | AndNot => p ∧ ¬ q
  end.

(** The values a merge pushes, in the order it pushes them. *)
Fixpoint merged (op : SetOp) (a : list Z) : list Z → list Z :=
  fix inner (b : list Z) : list Z :=
    match a, b with
    | x :: a', y :: b' =>
        match x ?= y with
        | Lt => (if keeps_left_only op then [x] else []) ++ merged op a' b
        | Gt => (if keeps_right_only op then [y] else []) ++ inner b'
        | Eq => (if keeps_both op then [x] else []) ++ merged op a' b'
        end
    | _, _ => (if keeps_left_only op then a else []) ++ (if keeps_right_only op then b else [])
    end.

#[export] Instance op_spec_proper op : Proper (iff ==> iff ==> iff) (op_spec op).
Proof. intros p p' Hp q q' Hq. destruct op; simpl; tauto. Qed.

Lemma op_spec_or op p q : op_spec op p q → p ∨ q.
Proof. destruct op; simpl; tauto. Qed.

Lemma merged_nil_l op b : merged op [] b = if keeps_right_only op then b else [].
Proof. by destruct b, op. Qed.
Lemma merged_nil_r op a : merged op a [] = if keeps_left_only op then a else [].
Proof. destruct a, op; simpl; by rewrite ?app_nil_r. Qed.

Lemma merged_cons op x a y b :
  merged op (x :: a) (y :: b) =
    match x ?= y with
    | Lt => (if keeps_left_only op then [x] else []) ++ merged op a (y :: b)
    | Gt => (if keeps_right_only op then [y] else []) ++ merged op (x :: a) b
    | Eq => (if keeps_both op then [x] else []) ++ merged op a b
    end.
Proof. done. Qed.

Lemma merged_spec op a b :
  ascending a → ascending b →
  ascending (merged op a b) ∧ ∀ u, u ∈ merged op a b ↔ op_spec op (u ∈ a) (u ∈ b).
Proof.
  intros Ha. revert b. induction Ha as [|x a Ha IHa Hx]; intros b Hb.
  { rewrite merged_nil_l. split; [destruct op; try done; constructor|].
    intros u. destruct op; simpl; rewrite ?elem_of_nil; tauto. }
  induction Hb as [|y b Hb IHb Hy].
  { rewrite merged_nil_r. split; [destruct op; simpl; try constructor; done|].
    intros u. destruct op; simpl; rewrite ?elem_of_nil; tauto. }
  rewrite Forall_forall in Hx, Hy.
  assert (ascending (y :: b)) as Hyb by (constructor; [done|by apply Forall_forall]).
  rewrite merged_cons. destruct (Z.compare_spec x y) as [->|Hlt|Hgt].
  - destruct (IHa b Hb) as [Hs Hin]. split.
    + destruct (keeps_both op); [|done]. constructor; [done|]. apply Forall_forall.
      intros u [?|?]%Hin%op_spec_or; auto.
    + intros u. rewrite elem_of_app, Hin, !elem_of_cons.
      assert (y ∉ a) by (intros ?%Hx; lia). assert (y ∉ b) by (intros ?%Hy; lia).
      destruct op; simpl; rewrite ?elem_of_nil, ?list_elem_of_singleton;
        destruct (decide (u = y)) as [->|]; tauto.
  - destruct (IHa (y :: b) Hyb) as [Hs Hin]. split.
    + destruct (keeps_left_only op) eqn:K; [|done]. constructor; [done|]. apply Forall_forall.
      assert (∀ u, u ∈ y :: b → x < u) as Hxy by (intros u [->|?%Hy]%elem_of_cons; lia).
      intros u [?|?]%Hin%op_spec_or; auto.
    + intros u. rewrite elem_of_app, Hin, !elem_of_cons.
      assert (x ∉ a) by (intros ?%Hx; lia). assert (x ∉ b) by (intros ?%Hy; lia).
      destruct op; simpl; rewrite ?elem_of_nil, ?list_elem_of_singleton;
        destruct (decide (u = x)) as [->|]; assert (x ≠ y) by lia; tauto.
  - destruct IHb as [Hs Hin]. split.
    + destruct (keeps_right_only op) eqn:K; [|done]. constructor; [done|]. apply Forall_forall.
      assert (∀ u, u ∈ x :: a → y < u) as Hxy by (intros u [->|?%Hx]%elem_of_cons; lia).
      intros u [?|?]%Hin%op_spec_or; auto.
    + intros u. rewrite elem_of_app, Hin, !elem_of_cons.
      assert (y ∉ a) by (intros ?%Hx; lia). assert (y ∉ b) by (intros ?%Hy; lia).
      destruct op; simpl; rewrite ?elem_of_nil, ?list_elem_of_singleton;
        destruct (decide (u = y)) as [->|]; assert (y ≠ x) by lia; tauto.
Qed.

(** * Pushing values *)
Lemma push_if_foldl k v l out :
  foldl push (push_if k out v) l = foldl push out ((if k then [v] else []) ++ l).
Proof. by destruct k. Qed.

Lemma array_array_merged op a b out : array_array_run op a b out = foldl push out (merged op a b).
Proof.
  revert b out. induction a as [|x a IHa].
  { intros b out. rewrite merged_nil_l. by destruct b, op. }
  induction b as [|y b IHb]; intros out.
  { rewrite merged_nil_r. by destruct op. }
  change (array_array_run op (x :: a) (y :: b) out) with
    (match x ?= y with
     | Lt => array_array_run op a (y :: b) (push_if (keeps_left_only op) out x)
     | Gt => array_array_run op (x :: a) b (push_if (keeps_right_only op) out y)
     | Eq => array_array_run op a b (push_if (keeps_both op) out x)
     end).
  rewrite merged_cons. destruct (x ?= y); rewrite ?IHa, ?IHb; apply push_if_foldl.
Qed.

(** A value read ahead of the iterator it came from. *)
Definition peeked (v : option Z) (it : Iter) (l : list Z) : Prop :=
  match l with [] => v = None | x :: l' => v = Some x ∧ yields it l' end.

Lemma advance_peeked it l : yields it l → peeked (fst (advance it)) (snd (advance it)) l.
Proof.
  unfold advance. destruct l as [|x l]; simpl; [by intros ->|]. by intros (it' & -> & ?).
Qed.

Lemma merge_loop_merged fuel op la lb va ia vb ib out :
  peeked va ia la → peeked vb ib lb → (length la + length lb < fuel)%nat →
  merge_loop fuel op va ia vb ib out = foldl push out (merged op la lb).
Proof.
  revert la lb va ia vb ib out. induction fuel as [|fuel IH]; intros la lb va ia vb ib out Ha Hb Hf; [lia|].
  assert (∀ it l, yields it l → ∃ v it', advance it = (v, it') ∧ peeked v it' l) as Hadv.
  { intros it l Hy. exists (fst (advance it)), (snd (advance it)). split; [apply surjective_pairing|].
    by apply advance_peeked. }
  destruct la as [|x la], lb as [|y lb]; cbn [peeked] in Ha, Hb; cbn [merge_loop length] in *.
  - subst. by rewrite merged_nil_l; destruct op.
  - destruct Hb as [-> Hb]. subst va. destruct (Hadv _ _ Hb) as (v & it & -> & Hp).
    rewrite (IH [] lb) by (done || simpl; lia). rewrite push_if_foldl, !merged_nil_l. by destruct op.
  - destruct Ha as [-> Ha]. subst vb. destruct (Hadv _ _ Ha) as (v & it & -> & Hp).
    rewrite (IH la []) by (done || simpl; lia). rewrite push_if_foldl, !merged_nil_r. by destruct op.
  - destruct Ha as [-> Ha], Hb as [-> Hb].
    destruct (Hadv _ _ Ha) as (va & ia' & -> & Hpa). destruct (Hadv _ _ Hb) as (vb & ib' & -> & Hpb).
    rewrite merged_cons. destruct (Z.ltb_spec x y), (Z.ltb_spec y x), (Z.compare_spec x y); try lia.
    + rewrite (IH la (y :: lb)) by (done || simpl; lia). apply push_if_foldl.
    + rewrite (IH (x :: la) lb) by (done || simpl; lia). apply push_if_foldl.
    + rewrite (IH la lb) by (done || lia). apply push_if_foldl.
Qed.

Lemma fallback_merged op a b out :
  wf a → wf b → fallback_merge op a b out = foldl push out (merged op (members a) (members b)).
Proof.
  intros Ha Hb. unfold fallback_merge.
  pose proof (advance_peeked _ _ (iter_yields a Ha)) as Hpa.
  pose proof (advance_peeked _ _ (iter_yields b Hb)) as Hpb.
  destruct (advance (iter a)) as [va ia], (advance (iter b)) as [vb ib]. cbn [fst snd] in *.
  pose proof (members_length a Ha). pose proof (members_length b Hb).
  apply merge_loop_merged; [done..|]. pose proof merge_fuel_eq. lia.
Qed.

(** The buffer after an ascending sequence of pushes is the container of those values. *)
Lemma push_array l a : foldl push (OutArray a) l = OutArray (a ++ l).
Proof.
  revert a. induction l as [|v l IH]; intros a; simpl; [by rewrite app_nil_r|].
  by rewrite IH, <-app_assoc.
Qed.
Lemma push_bitmap l b : foldl push (OutBitmap b) l = OutBitmap (foldl set_bit b l).
Proof. revert b. induction l as [|v l IH]; intros b; simpl; [done|]. apply IH. Qed.

Lemma finish_pushed n l :
  ascending l → (∀ v, v ∈ l → u16 v) →
  wf (finish (foldl push (with_bound n) l)) ∧
  ∀ u, u ∈ members (finish (foldl push (with_bound n) l)) ↔ u ∈ l.
Proof.
  intros Hs Hu. assert (wf (Array l)) as Hw by (by apply wf_array_intro).
  unfold with_bound. destruct (_ <=? _).
  - rewrite push_array. done.
  - rewrite push_bitmap. destruct (to_bitmap_spec (Array l) Hw) as [Hwf Hm].
    unfold to_bitmap in *. rewrite values_members in * by done.
    change (members (Array l)) with l in *. cbn [finish]. split; [done|]. intros u. by rewrite Hm.
Qed.

(** * Filtering one side by the other *)
Lemma foldl_push_filter (f : Z → bool) l out :
  foldl (λ o v, push_if (f v) o v) out l = foldl push out (List.filter f l).
Proof.
  revert out. induction l as [|v l IH]; intros out; simpl; [done|]. rewrite IH. by destruct (f v).
Qed.

Definition in_runs (b : list Interval) (v : Z) : bool := existsb (λ r, interval_contains r v) b.

Lemma in_runs_spec b v : in_runs b v = true ↔ v ∈ members (Run b).
Proof.
  unfold in_runs. rewrite existsb_exists. simpl. rewrite elem_of_runs.
  split; intros (i & Hi & H); exists i; rewrite list_elem_of_In in *; (split; [done|]);
    unfold interval_contains in *; lia.
Qed.

Lemma sweep_filter keep a b out :
  ascending a → runs_ok b →
  sweep keep a b out = foldl push out (List.filter (λ v, Bool.eqb keep (in_runs b v)) a).
Proof.
  intros Ha. revert b out. induction Ha as [|v a Ha IH Hv]; intros b out; [done|].
  revert out. induction b as [|r b IHb]; intros out Hok.
  - cbn [sweep List.filter]. rewrite IH by done. rewrite push_if_foldl. by destruct keep.
  - pose proof Hok as [Hr Hs]. inversion Hr as [|?? (?&?&?) Hrb]; subst.
    apply StronglySorted_cons in Hs as [Hbef Hs].
    assert (runs_ok b) as Hokb by done.
    assert (∀ w, w <= iv_last r → in_runs b w = false) as Hout.
    { intros w Hw. apply not_true_iff_false. intros (i & Hi & Hiv)%in_runs_spec%elem_of_runs.
      rewrite Forall_forall in Hbef. specialize (Hbef i Hi). unfold run_before in Hbef. lia. }
    change (sweep keep (v :: a) (r :: b) out) with
      (if v <? iv_start r then sweep keep a (r :: b) (push_if (negb keep) out v)
       else if iv_last r <? v then sweep keep (v :: a) b out
       else sweep keep a (r :: b) (push_if keep out v)).
    assert (∀ w, in_runs (r :: b) w = interval_contains r w || in_runs b w) as Hc by done.
    destruct (Z.ltb_spec v (iv_start r)); [|destruct (Z.ltb_spec (iv_last r) v)].
    + rewrite IH by done. rewrite push_if_foldl. cbn [List.filter]. rewrite (Hc v).
      replace (interval_contains r v) with false by (unfold interval_contains; lia).
      rewrite Hout by lia. by destruct keep.
    + rewrite IHb by done. f_equal.
      apply List.filter_ext_in. intros w Hw. rewrite Hc.
      assert (v <= w) by (apply list_elem_of_In, elem_of_cons in Hw as [->|Hw]; [lia|];
        rewrite Forall_forall in Hv; specialize (Hv w Hw); lia).
      replace (interval_contains r w) with false by (unfold interval_contains; lia). done.
    + rewrite IH by done. rewrite push_if_foldl. cbn [List.filter]. rewrite (Hc v).
      replace (interval_contains r v) with true by (unfold interval_contains; lia).
      by destruct keep.
Qed.

(** * Each pair of representations *)

(** [c] holds exactly what [op] asks of [a] and [b]. *)
Definition result_ok (op : SetOp) (a b c : Container) : Prop :=
  wf c ∧ ∀ u, u ∈ members c ↔ op_spec op (u ∈ members a) (u ∈ members b).

Lemma finish_ok op a b n l :
  wf a → wf b → ascending l →
  (∀ u, u ∈ l ↔ op_spec op (u ∈ members a) (u ∈ members b)) →
  result_ok op a b (finish (foldl push (with_bound n) l)).
Proof.
  intros Ha Hb Hs Hin. destruct (finish_pushed n l Hs) as [Hwf Hm].
  { intros v [?|?]%Hin%op_spec_or; [by apply (members_u16 a)|by apply (members_u16 b)]. }
  split; [done|]. intros u. by rewrite Hm, Hin.
Qed.

Lemma fallback_ok op a b n :
  wf a → wf b → result_ok op a b (finish (fallback_merge op a b (with_bound n))).
Proof.
  intros Ha Hb. rewrite fallback_merged by done.
  destruct (merged_spec op (members a) (members b)) as [Hs Hin]; [by apply members_ascending..|].
  by apply finish_ok.
Qed.

Lemma array_array_ok op x y n :
  wf (Array x) → wf (Array y) →
  result_ok op (Array x) (Array y) (finish (array_array_run op x y (with_bound n))).
Proof.
  intros Ha Hb. rewrite array_array_merged.
  destruct (merged_spec op x y) as [Hs Hin]; [by apply (members_ascending (Array _))..|].
  by apply finish_ok.
Qed.

Lemma filter_ok op x b n (f : Z → bool) :
  wf (Array x) → wf b →
  (∀ u, u ∈ x → f u = true ↔ op_spec op True (u ∈ members b)) →
  op = And ∨ op = AndNot →
  result_ok op (Array x) b (finish (foldl push (with_bound n) (List.filter f x))).
Proof.
  intros Ha Hb Hf Hop. apply finish_ok; [done..| |].
  - by apply ascending_filter, (members_ascending (Array x)).
  - intros u. rewrite elem_of_Lfilter. cbn [members]. split.
    + intros [Hu Ht]. apply Hf in Ht; [|done]. destruct Hop as [-> | ->]; simpl in *; tauto.
    + destruct Hop as [-> | ->]; simpl in *; intros [Hu ?]; (split; [done|]); apply Hf; tauto.
Qed.

Lemma contains_bitmap_iff b u : wf (Bitmap b) → u16 u → bit_at b u = true ↔ u ∈ members (Bitmap b).
Proof. apply (contains_members (Bitmap b)). Qed.

(** A bitmap whose bits are those [op] asks for. *)
Lemma bitmap_ok op a b w :
  wf a → wf b → wf (Bitmap w) →
  (∀ u, u16 u → bit_at w u = true ↔ op_spec op (u ∈ members a) (u ∈ members b)) →
  result_ok op a b (Bitmap w).
Proof.
  intros Ha Hb Hw Hbit. split; [done|]. intros u. destruct (decide (u16 u)) as [Hu|Hu].
  - rewrite <-Hbit by done. by rewrite contains_bitmap_iff.
  - split; [by intros ?%members_u16|]. intros [?|?]%op_spec_or; exfalso; apply Hu;
      [by apply (members_u16 a)|by apply (members_u16 b)].
Qed.

Lemma foldl_bits (f : list Z → Z → list Z) (g : Z → Z → bool → bool) l b :
  (∀ b v, Z.of_nat (length b) = BITMAP_WORDS → Forall word64 b → u16 v →
     Z.of_nat (length (f b v)) = BITMAP_WORDS ∧ Forall word64 (f b v) ∧
     ∀ u, 0 <= u → bit_at (f b v) u = g u v (bit_at b u)) →
  wf (Bitmap b) → (∀ v, v ∈ l → u16 v) →
  wf (Bitmap (foldl f b l)) ∧
  ∀ u, 0 <= u → bit_at (foldl f b l) u = foldl (λ x v, g u v x) (bit_at b u) l.
Proof.
  intros Hf. revert b. induction l as [|v l IH]; intros b Hb Hl; [done|].
  pose proof Hb as [Hlen Hw]%wf_bitmap.
  destruct (Hf b v Hlen Hw) as (Hlen' & Hw' & Hbit); [apply Hl; by left|].
  destruct (IH (f b v)) as [Hwf Hbits]; [by apply wf_bitmap| |].
  { intros x Hx. apply Hl. by right. }
  split; [done|]. intros u Hu. cbn [foldl]. rewrite Hbits, Hbit by done. done.
Qed.

Lemma foldl_flip u l x :
  NoDup l → foldl (λ x v, xorb (u =? v) x) x l = xorb (bool_decide (u ∈ l)) x.
Proof.
  intros Hl. revert x. induction Hl as [|v l Hv Hl IH]; intros x; cbn [foldl]; [by destruct x|].
  rewrite IH. destruct (Z.eqb_spec u v) as [->|Hne].
  - rewrite (bool_decide_false (v ∈ l)) by done. rewrite bool_decide_true by (by left). by destruct x.
  - destruct (decide (u ∈ l)) as [Hin|Hin].
    + rewrite !bool_decide_true by (done || by right). by destruct x.
    + rewrite !bool_decide_false by (done || by rewrite elem_of_cons; tauto). by destruct x.
Qed.

Lemma foldl_clear u l x :
  foldl (λ x v, negb (u =? v) && x) x l = negb (bool_decide (u ∈ l)) && x.
Proof.
  revert x. induction l as [|v l IH]; intros x; cbn [foldl]; [done|].
  rewrite IH. destruct (Z.eqb_spec u v) as [->|Hne].
  - rewrite (bool_decide_true (v ∈ v :: l)) by (by left). by rewrite andb_false_r.
  - destruct (decide (u ∈ l)) as [Hin|Hin].
    + by rewrite !bool_decide_true by (done || by right).
    + by rewrite !bool_decide_false by (done || by rewrite elem_of_cons; tauto).
Qed.

Lemma array_bitmap_ok op x y n out :
  wf (Array x) → wf (Bitmap y) →
  array_bitmap_run op x y (with_bound n) = (out, true) →
  result_ok op (Array x) (Bitmap y) (finish out).
Proof.
  intros Ha Hb. pose proof Ha as [Hux Hs]%wf_array. pose proof Hb as [Hl Hw]%wf_bitmap.
  rewrite Forall_forall in Hux.
  destruct op; cbn [array_bitmap_run].
  - intros [= <-]. rewrite foldl_push_filter. apply filter_ok; [done..| |by left].
    intros u Hu. rewrite contains_bitmap_iff by auto. simpl. tauto.
  - destruct (as_bitmap_mut _); [|done]. intros [= <-]. cbn [finish].
    destruct (set_bits_spec x y Hl Hw Hux) as [Hwf Hbit]. apply bitmap_ok; [done..|].
    intros u Hu. rewrite Hbit by (by destruct Hu). by rewrite contains_bitmap_iff.
  - destruct (as_bitmap_mut _); [|done]. intros [= <-]. cbn [finish].
    destruct (foldl_bits flip_bit (λ u v, xorb (u =? v)) x y) as [Hwf Hbit]; [|done..|].
    { intros b v Hb' Hw' Hv. split_and!; [by unfold flip_bit; rewrite length_upd|
        apply words_flip; [by destruct Hv|done]|by intros; apply bit_at_flip]. }
    apply bitmap_ok; [done..|]. intros u Hu. rewrite Hbit by (by destruct Hu).
    rewrite foldl_flip by (by apply ascending_NoDup). rewrite <-contains_bitmap_iff by done.
    cbn [op_spec members]. destruct (bit_at y u), (decide (u ∈ x)) as [Hin|Hin];
      [rewrite bool_decide_true by done|rewrite bool_decide_false by done|
       rewrite bool_decide_true by done|rewrite bool_decide_false by done]; simpl; naive_solver.
  - intros [= <-]. rewrite foldl_push_filter. apply filter_ok; [done..| |by right].
    intros u Hu. rewrite <-contains_bitmap_iff by auto. simpl. destruct (bit_at y u); simpl; naive_solver.
Qed.

Lemma array_bitmap_reversed_ok op x y n out :
  wf (Bitmap x) → wf (Array y) →
  array_bitmap_run_reversed op x y (with_bound n) = (out, true) →
  result_ok op (Bitmap x) (Array y) (finish out).
Proof.
  intros Ha Hb. pose proof Hb as [Huy Hs]%wf_array. rewrite Forall_forall in Huy.
  unfold array_bitmap_run_reversed. destruct op; try done.
  destruct (as_bitmap_mut _); [|done]. intros [= <-]. cbn [finish].
  destruct (foldl_bits clear_bit (λ u v x, negb (u =? v) && x) y x) as [Hwf Hbit]; [|done..|].
  { intros b v Hb' Hw' Hv. split_and!; [by unfold clear_bit; rewrite length_upd|by apply words_clear|
      by intros; apply bit_at_clear]. }
  apply bitmap_ok; [done..|]. intros u Hu. rewrite Hbit by (by destruct Hu).
  rewrite foldl_clear, <-contains_bitmap_iff by done. cbn [op_spec members].
  rewrite andb_true_iff, negb_true_iff, bool_decide_eq_false. tauto.
Qed.

Lemma array_run_ok op x y n out :
  wf (Array x) → wf (Run y) →
  array_run_run op x y (with_bound n) = (out, true) →
  result_ok op (Array x) (Run y) (finish out).
Proof.
  intros Ha Hb. pose proof Ha as [_ Hs]%wf_array. pose proof Hb as Hr%wf_run.
  destruct op; cbn [array_run_run]; try done; intros [= <-]; rewrite sweep_filter by done.
  - apply filter_ok; [done..| |by left]. intros u _. rewrite <-in_runs_spec.
    simpl. destruct (in_runs y u); simpl; naive_solver.
  - apply filter_ok; [done..| |by right]. intros u _. rewrite <-in_runs_spec.
    simpl. destruct (in_runs y u); simpl; naive_solver.
Qed.

Lemma word64_word_op op x y : word64 x → word64 y → word64 (word_op op x y).
Proof. intros. destruct op; simpl; auto with bits. Qed.

Lemma testbit_word_op op x y i :
  0 <= i < 64 →
  Z.testbit (word_op op x y) i = true ↔ op_spec op (Z.testbit x i = true) (Z.testbit y i = true).
Proof.
  intros Hi. destruct op; simpl.
  - by rewrite Z.land_spec, andb_true_iff.
  - by rewrite Z.lor_spec, orb_true_iff.
  - rewrite Z.lxor_spec. destruct (Z.testbit x i), (Z.testbit y i); simpl; naive_solver.
  - rewrite Z.land_spec, testbit_not64 by lia. replace (i <? 64) with true by lia.
    destruct (Z.testbit x i), (Z.testbit y i); simpl; naive_solver.
Qed.

Lemma bitmap_bitmap_ok op x y n out :
  wf (Bitmap x) → wf (Bitmap y) →
  bitmap_bitmap_run op x y (with_bound n) = (out, true) →
  result_ok op (Bitmap x) (Bitmap y) (finish out).
Proof.
  intros Ha Hb. pose proof Ha as [Hlx Hwx]%wf_bitmap. pose proof Hb as [Hly Hwy]%wf_bitmap.
  unfold bitmap_bitmap_run. destruct (as_bitmap_mut _); [|done]. intros [= <-]. cbn [finish].
  apply bitmap_ok; [done..| |].
  - apply wf_bitmap. split; [rewrite length_zip_with; lia|].
    apply Forall_lookup. intros i w (wx & wy & -> & Hx & Hy)%lookup_zip_with_Some.
    apply word64_word_op; [by eapply (Forall_lookup_1 _ x)|by eapply (Forall_lookup_1 _ y)].
  - intros u Hu. rewrite <-!contains_bitmap_iff by done. pose proof Hu as [??].
    rewrite !bit_at_testbit by done. unfold word_at. rewrite lookup_zip_with.
    assert (0 <= u / 64) by (apply Z.div_pos; lia).
    pose proof (word_index x u Hu Hlx). pose proof (word_index y u Hu Hly).
    destruct (lookup_lt_is_Some_2 x (Z.to_nat (u / 64))) as [wx ->]; [lia|].
    destruct (lookup_lt_is_Some_2 y (Z.to_nat (u / 64))) as [wy ->]; [lia|]. simpl.
    apply testbit_word_op. apply Z.mod_pos_bound. lia.
Qed.

(** * The dispatcher *)
Lemma shortcut_ok op a b r :
  wf a → wf b → shortcut op a b = Some r → result_ok op a b (into_owned r).
Proof.
  intros Ha Hb. unfold shortcut. cbv zeta.
  pose proof (is_empty_members a Ha) as Ea. pose proof (is_empty_members b Hb) as Eb.
  destruct (is_empty a) eqn:Ha', (is_empty b) eqn:Hb'; simpl; intros [= <-]; unfold into_owned;
    (split; [destruct op; done|]); intros u;
    rewrite ?(proj1 Ea eq_refl), ?(proj1 Eb eq_refl);
    destruct op; simpl; rewrite ?(proj1 Ea eq_refl), ?(proj1 Eb eq_refl), ?elem_of_nil; tauto.
Qed.

Lemma result_ok_comm op a b c :
  is_commutative op = true → result_ok op b a c → result_ok op a b c.
Proof.
  intros Hc [Hwf Hin]. split; [done|]. intros u. rewrite Hin. destruct op; simpl; done || tauto.
Qed.

(** One routine for the pair, then the merge for a pair no routine took. *)
Lemma dispatch_ok op a b n :
  wf a → wf b →
  let out := with_bound n in
  let '(out', handled) :=
    match a, b with
    | Array x, Array y => (array_array_run op x y out, true)
    | Array x, Bitmap y => array_bitmap_run op x y out
    | Array x, Run y => array_run_run op x y out
    | Bitmap x, Array y => array_bitmap_run_reversed op x y out
    | Bitmap x, Bitmap y => bitmap_bitmap_run op x y out
    | _, _ => (out, false)
    end in
  result_ok op a b (finish (if handled : bool then out' else fallback_merge op a b out')).
Proof.
  intros Ha Hb. cbv zeta.
  destruct a as [x|x|x], b as [y|y|y]; try by apply fallback_ok.
  - by apply array_array_ok.
  - destruct (array_bitmap_run _ _ _ _) as [out' [|]] eqn:E; [by eapply array_bitmap_ok|].
    assert (out' = with_bound n) as ->; [|by apply fallback_ok].
    unfold array_bitmap_run in E. destruct op, (with_bound n); simpl in E; congruence.
  - destruct (array_run_run _ _ _ _) as [out' [|]] eqn:E; [by eapply array_run_ok|].
    assert (out' = with_bound n) as ->; [|by apply fallback_ok].
    destruct op; simpl in E; congruence.
  - destruct (array_bitmap_run_reversed _ _ _ _) as [out' [|]] eqn:E; [by eapply array_bitmap_reversed_ok|].
    assert (out' = with_bound n) as ->; [|by apply fallback_ok].
    unfold array_bitmap_run_reversed in E. destruct op, (with_bound n); simpl in E; congruence.
  - destruct (bitmap_bitmap_run _ _ _ _) as [out' [|]] eqn:E; [by eapply bitmap_bitmap_ok|].
    assert (out' = with_bound n) as ->; [|by apply fallback_ok].
    unfold bitmap_bitmap_run in E. destruct op, (with_bound n); simpl in E; congruence.
Qed.

Lemma apply_ok op a b : wf a → wf b → result_ok op a b (into_owned (apply op a b)).
Proof.
  intros Ha Hb. unfold apply. destruct (shortcut op a b) as [r|] eqn:E; [by eapply shortcut_ok|].
  destruct (is_commutative op && _) eqn:Hc.
  - apply andb_true_iff in Hc as [Hc _]. apply result_ok_comm; [done|].
    pose proof (dispatch_ok op b a (bound op (cardinality b) (cardinality a)) Hb Ha) as H.
    cbv zeta in H |- *.
    destruct (match b with Array _ => _ | _ => _ end) as [out' handled]. exact H.
  - pose proof (dispatch_ok op a b (bound op (cardinality a) (cardinality b)) Ha Hb) as H.
    cbv zeta in H |- *.
    destruct (match a with Array _ => _ | _ => _ end) as [out' handled]. exact H.
Qed.

(** The bound on the result is one: nothing [op] keeps exceeds it. *)
Lemma ascending_subset_length l k :
  ascending l → (∀ u, u ∈ l → u ∈ k) → (length l ≤ length k)%nat.
Proof.
  intros Hl Hin. apply submseteq_length, NoDup_submseteq; [by apply ascending_NoDup|done].
Qed.

Lemma result_bound op a b c :
  wf a → wf b → result_ok op a b c → cardinality c <= bound op (cardinality a) (cardinality b).
Proof.
  intros Ha Hb [Hc Hin]. rewrite !cardinality_members by done.
  pose proof (members_ascending c Hc) as Hs.
  assert (∀ k, (∀ u, u ∈ members c → u ∈ k) → Z.of_nat (length (members c)) <= Z.of_nat (length k)) as Hsub.
  { intros k Hk. pose proof (ascending_subset_length _ k Hs Hk). lia. }
  destruct op; simpl in *.
  - apply Z.min_glb; apply Hsub; intros u Hu%Hin; tauto.
  - rewrite <-Nat2Z.inj_add, <-length_app. apply Hsub. intros u Hu%Hin. rewrite elem_of_app. tauto.
  - rewrite <-Nat2Z.inj_add, <-length_app. apply Hsub. intros u Hu%Hin. rewrite elem_of_app. tauto.
  - apply Hsub. intros u Hu%Hin. tauto.
Qed.

(** * Folding a sequence *)
Fixpoint fold_spec (op : SetOp) (acc : Prop) (items : list Prop) : Prop :=
  match items with [] => acc | p :: rest => fold_spec op (op_spec op acc p) rest end.

#[export] Instance fold_spec_proper op :
  Proper (iff ==> eq ==> iff) (fold_spec op).
Proof.
  intros p q Hpq l ? <-. revert p q Hpq. induction l as [|r l IH]; intros p q Hpq; simpl; [done|].
  apply IH. by rewrite Hpq.
Qed.

Lemma fold_ok op acc rest :
  wf acc → Forall wf rest →
  wf (foldl (λ acc it, into_owned (apply op acc it)) acc rest) ∧
  ∀ u, u ∈ members (foldl (λ acc it, into_owned (apply op acc it)) acc rest) ↔
       fold_spec op (u ∈ members acc) (map (λ c, u ∈ members c) rest).
Proof.
  intros Hacc Hrest. revert acc Hacc. induction Hrest as [|c rest Hc Hrest IH]; intros acc Hacc; [done|].
  cbn [foldl map fold_spec]. destruct (apply_ok op acc c Hacc Hc) as [Hwf Hin].
  destruct (IH _ Hwf) as [Hwf' Hin']. split; [done|]. intros u. by rewrite Hin', Hin.
Qed.
