(* ===== verification/Cardinality.v ===== *)
(** The size of an intersection without building it
    (crates/big-container/src/ops/cardinality.rs). *)
From S2P Require Import Prelude Bits Search Container Optimize SetOps.

(** [fn bit]. *)
Definition card_bit (words : list Z) (v : Z) : bool :=
  Z.land (Z.shiftr (word_at words (v / 64)) (v mod 64)) 1 =? 1.

(** [fn in_runs]. *)
Definition card_in_runs (runs : list Interval) (v : Z) : bool :=
  found (binary_search_by (run_cmp v) runs).

(** [fn array_array]: two sorted arrays, walked once. *)
Fixpoint card_array_array (a : list Z) : list Z → Z → Z :=
  fix inner (b : list Z) (n : Z) : Z :=
    match a, b with
    | x :: a', y :: b' =>
        match x ?= y with
        | Lt => card_array_array a' b n
        | Gt => inner b' n
        | Eq => card_array_array a' b' (wrap32 (n + 1))
        end
    | _, _ => n
    end.

(** [fn run_run]: the overlap of each pair of runs that meets. *)
Fixpoint card_run_run (a : list Interval) : list Interval → Z → Z :=
  fix inner (b : list Interval) (n : Z) : Z :=
    match a, b with
    | x :: a', y :: b' =>
        let start := Z.max (iv_start x) (iv_start y) in
        let last := Z.min (iv_last x) (iv_last y) in
        let n' := if start <=? last then wrap32 (n + (last - start + 1)) else n in
        if iv_last x <? iv_last y then card_run_run a' b n' else inner b' n'
    | _, _ => n
    end.

(** [fn bits_in]: the bits of a bitmap inside one interval, the partial words masked. *)
Definition bits_in (words : list Z) (run : Interval) : Z :=
  let start := iv_start run in
  let last := iv_last run in
  let first_word := start / 64 in
  let last_word := last / 64 in
  if first_word =? last_word then
    let width := last - start + 1 in
    let mask := if width =? 64 then u64_max else shl64 (Z.shiftl 1 width - 1) (start mod 64) in
    count_ones (Z.land (word_at words first_word) mask)
  else
    let head := Z.land (word_at words first_word) (shl64 u64_max (start mod 64)) in
    let tail := Z.land (word_at words last_word) (Z.shiftr u64_max (63 - last mod 64)) in
    let middle := sum32 (map count_ones
      (take (Z.to_nat (last_word - (first_word + 1))) (drop (Z.to_nat (first_word + 1)) words))) in
    wrap32 (wrap32 (count_ones head + middle) + count_ones tail).

Definition and_cardinality (a b : Container) : Z :=
  if is_empty a || is_empty b then 0
  else
    match a, b with
    | Array x, Array y => card_array_array x y 0
    | Array x, Bitmap y | Bitmap y, Array x =>
        wrap32 (Z.of_nat (length (List.filter (card_bit y) x)))
    | Array x, Run y | Run y, Array x =>
        wrap32 (Z.of_nat (length (List.filter (card_in_runs y) x)))
    | Bitmap x, Bitmap y => sum32 (map count_ones (zip_with Z.land x y))
    | Run x, Run y => card_run_run x y 0
    | Bitmap x, Run y | Run y, Bitmap x => sum32 (map (bits_in x) y)
    end.

(** * The specification: how many members two sets share *)
Definition common (l k : list Z) : Z := Z.of_nat (length (List.filter (λ v, bool_decide (v ∈ k)) l)).

Lemma common_nil_l k : common [] k = 0. Proof. done. Qed.

Lemma common_app l l' k : common (l ++ l') k = common l k + common l' k.
Proof. unfold common. rewrite List.filter_app, length_app. lia. Qed.

Lemma common_none l k : (∀ v, v ∈ l → v ∉ k) → common l k = 0.
Proof.
  intros H. unfold common. induction l as [|x l IH]; [done|]. simpl.
  rewrite bool_decide_false by (apply H; by left). apply IH. intros v Hv. apply H. by right.
Qed.

Lemma common_ext l k k' : (∀ v, v ∈ l → v ∈ k ↔ v ∈ k') → common l k = common l k'.
Proof.
  intros H. unfold common. do 2 f_equal. apply List.filter_ext_in. intros v Hv%list_elem_of_In.
  apply bool_decide_ext. by apply H.
Qed.

Lemma common_filter l k (f : Z → bool) :
  (∀ v, v ∈ l → f v = true ↔ v ∈ k) → Z.of_nat (length (List.filter f l)) = common l k.
Proof.
  intros H. unfold common. do 2 f_equal. apply List.filter_ext_in. intros v Hv%list_elem_of_In.
  apply eq_true_iff_eq. rewrite (H v Hv). by rewrite bool_decide_eq_true.
Qed.

Lemma common_le l k : common l k <= Z.of_nat (length l).
Proof. unfold common. pose proof (List.filter_length_le (λ v, bool_decide (v ∈ k)) l). lia. Qed.

(** Splitting what is sought in two disjoint parts. *)
Lemma common_split l k k' :
  (∀ v, v ∈ k → v ∉ k') → common l (k ++ k') = common l k + common l k'.
Proof.
  intros Hd. unfold common. induction l as [|x l IH]; [done|]. simpl.
  destruct (decide (x ∈ k)) as [Hk|Hk], (decide (x ∈ k')) as [Hk'|Hk'].
  - by destruct (Hd x).
  - rewrite (bool_decide_true (x ∈ k ++ k')) by (rewrite elem_of_app; tauto).
    rewrite bool_decide_true, bool_decide_false by done. simpl length. lia.
  - rewrite (bool_decide_true (x ∈ k ++ k')) by (rewrite elem_of_app; tauto).
    rewrite bool_decide_false, bool_decide_true by done. simpl length. lia.
  - rewrite (bool_decide_false (x ∈ k ++ k')) by (rewrite elem_of_app; tauto).
    rewrite !bool_decide_false by done. lia.
Qed.

(** Counting from either side is the same. *)
Lemma common_comm l k : ascending l → ascending k → common l k = common k l.
Proof.
  intros Hl Hk. unfold common. f_equal.
  assert (List.filter (λ v, bool_decide (v ∈ k)) l = List.filter (λ v, bool_decide (v ∈ l)) k) as ->; [|done].
  apply ascending_ext; [by apply ascending_filter..|].
  intros x. rewrite !elem_of_Lfilter, !bool_decide_eq_true. tauto.
Qed.

(** What the intersection holds. *)
Lemma cardinality_and a b c :
  wf a → wf b → result_ok And a b c → cardinality c = common (members a) (members b).
Proof.
  intros Ha Hb [Hc Hin]. rewrite cardinality_members by done. unfold common. do 2 f_equal.
  apply ascending_ext; [by apply members_ascending|by apply ascending_filter, members_ascending|].
  intros u. rewrite elem_of_Lfilter, bool_decide_eq_true, Hin. done.
Qed.

Lemma wrap32_small n : 0 <= n < 2 ^ 32 → wrap32 n = n.
Proof. apply Z.mod_small. Qed.

Lemma wrap32_add_l a b : wrap32 (wrap32 a + b) = wrap32 (a + b).
Proof. unfold wrap32. by rewrite Zplus_mod_idemp_l. Qed.

Lemma wrap32_add_r a b : wrap32 (a + wrap32 b) = wrap32 (a + b).
Proof. unfold wrap32. by rewrite Zplus_mod_idemp_r. Qed.

(** * Array with array *)
Lemma card_array_array_spec a b n :
  ascending a → ascending b → wrap32 (card_array_array a b n) = wrap32 (n + common a b).
Proof.
  intros Ha. revert b n. induction Ha as [|x a Ha IHa Hx]; intros b n Hb.
  { destruct b; rewrite common_nil_l, Z.add_0_r; done. }
  revert n. induction Hb as [|y b Hb IHb Hy]; intros n.
  { rewrite common_none, Z.add_0_r; [done|]. intros ? _. apply not_elem_of_nil. }
  assert (ascending (y :: b)) as Hyb by by constructor.
  rewrite Forall_forall in Hx, Hy.
  change (card_array_array (x :: a) (y :: b) n) with
    (match x ?= y with
     | Lt => card_array_array a (y :: b) n
     | Gt => card_array_array (x :: a) b n
     | Eq => card_array_array a b (wrap32 (n + 1))
     end).
  change (x :: a) with ([x] ++ a) at 2. rewrite common_app.
  destruct (Z.compare_spec x y) as [->|Hlt|Hgt].
  - rewrite IHa by done. rewrite wrap32_add_l.
    rewrite (common_ext a (y :: b) b).
    2:{ intros v Hv%Hx. rewrite elem_of_cons. split; [|tauto]. intros [->|]; [lia|done]. }
    replace (common [y] (y :: b)) with 1; [f_equal; lia|].
    unfold common. simpl. by rewrite bool_decide_true by (by left).
  - rewrite IHa by done. rewrite (common_none [x]); [done|].
    intros v ->%list_elem_of_singleton [->|?%Hy]%elem_of_cons; lia.
  - rewrite IHb. rewrite <-common_app. change ([x] ++ a) with (x :: a).
    f_equal. f_equal. apply common_ext. intros v Hv. rewrite (elem_of_cons b).
    split; [tauto|]. intros [->|]; [|done]. apply elem_of_cons in Hv as [->|?%Hx]; lia.
Qed.

(** * Run with run *)
Lemma common_runs_overlap x y :
  run_ok x → run_ok y →
  common (run_values x) (run_values y) =
    Z.max 0 (Z.min (iv_last x) (iv_last y) - Z.max (iv_start x) (iv_start y) + 1).
Proof.
  intros (?&?&?) (?&?&?). unfold common.
  assert (List.filter (λ v, bool_decide (v ∈ run_values y)) (run_values x) =
    seqZ (Z.max (iv_start x) (iv_start y))
         (Z.min (iv_last x) (iv_last y) - Z.max (iv_start x) (iv_start y) + 1)) as ->.
  { apply ascending_ext; [apply ascending_filter, ascending_seqZ|apply ascending_seqZ|].
    intros u. rewrite elem_of_Lfilter, bool_decide_eq_true, !elem_of_run_values, elem_of_seqZ. lia. }
  rewrite length_seqZ. lia.
Qed.

Lemma card_run_run_spec a b n :
  runs_ok a → runs_ok b →
  wrap32 (card_run_run a b n) = wrap32 (n + common (members (Run a)) (members (Run b))).
Proof.
  revert b n. induction a as [|x a IHa]; intros b n Ha Hb.
  { destruct b; cbn [members fmap list_fmap concat]; rewrite common_nil_l, Z.add_0_r; done. }
  revert n. induction b as [|y b IHb]; intros n.
  { rewrite common_none, Z.add_0_r; [done|]. intros ? _. apply not_elem_of_nil. }
  pose proof Ha as [Hra Hsa]. pose proof Hb as [Hrb Hsb].
  inversion Hra as [|?? Hx Hra']; subst. inversion Hrb as [|?? Hy Hrb']; subst.
  apply StronglySorted_cons in Hsa as [Hbx Hsa]. apply StronglySorted_cons in Hsb as [Hby Hsb].
  rewrite Forall_forall in Hbx, Hby. unfold run_before in Hbx, Hby.
  change (card_run_run (x :: a) (y :: b) n) with
    (let start := Z.max (iv_start x) (iv_start y) in
     let last := Z.min (iv_last x) (iv_last y) in
     let n' := if start <=? last then wrap32 (n + (last - start + 1)) else n in
     if iv_last x <? iv_last y then card_run_run a (y :: b) n' else card_run_run (x :: a) b n').
  cbv zeta. set (ov := common (run_values x) (run_values y)).
  assert (∀ m, wrap32 ((if Z.max (iv_start x) (iv_start y) <=? Z.min (iv_last x) (iv_last y)
     then wrap32 (n + (Z.min (iv_last x) (iv_last y) - Z.max (iv_start x) (iv_start y) + 1)) else n) + m)
     = wrap32 (n + (ov + m))) as Hacc.
  { intros m. unfold ov. rewrite common_runs_overlap by done.
    destruct (Z.leb_spec (Z.max (iv_start x) (iv_start y)) (Z.min (iv_last x) (iv_last y))).
    - rewrite wrap32_add_l. f_equal. lia.
    - f_equal. lia. }
  pose proof Hx as (?&?&?). pose proof Hy as (?&?&?).
  change (members (Run (x :: a))) with (run_values x ++ members (Run a)).
  destruct (Z.ltb_spec (iv_last x) (iv_last y)) as [Hlt|Hge].
  - rewrite IHa by done. rewrite Hacc, common_app. f_equal. f_equal. f_equal.
    apply common_ext. intros v Hv%elem_of_run_values.
    change (members (Run (y :: b))) with (run_values y ++ members (Run b)). rewrite elem_of_app.
    split; [tauto|]. intros [?|(i & Hi & Hiv)%elem_of_runs]; [done|]. specialize (Hby i Hi). lia.
  - rewrite IHb by done. rewrite Hacc. f_equal. f_equal.
    change (members (Run (y :: b))) with (run_values y ++ members (Run b)).
    change (members (Run (x :: a))) with (run_values x ++ members (Run a)).
    rewrite common_split.
    + f_equal. rewrite common_app. unfold ov. rewrite (common_none (members (Run a))); [lia|].
      intros v (i & Hi & Hiv)%elem_of_runs Hv%elem_of_run_values. specialize (Hbx i Hi). lia.
    + intros v Hv%elem_of_run_values (i & Hi & Hiv)%elem_of_runs. specialize (Hby i Hi). lia.
Qed.

Lemma split64 k p : 0 <= p < 64 → (64 * k + p) / 64 = k ∧ (64 * k + p) mod 64 = p.
Proof. intros Hp. split; [symmetry; apply (Z.div_unique _ _ _ p)|symmetry; apply (Z.mod_unique _ _ k)]; lia. Qed.

(** * Bitmap with run: counting the bits of an interval *)
Section bits_in.
Context (b : list Z).
Hypothesis (Hlen : Z.of_nat (length b) = BITMAP_WORDS) (Hwords : Forall word64 b).

Definition set_in (m n : Z) : Z := Z.of_nat (length (List.filter (bit_at b) (seqZ m n))).

Lemma set_in_app m n k : 0 <= n → 0 <= k → set_in m (n + k) = set_in m n + set_in (m + n) k.
Proof. intros. unfold set_in. rewrite seqZ_app, List.filter_app, length_app by done. lia. Qed.

(** A word under a mask that keeps the bits [lo..=hi]. *)
Lemma masked_word k mask lo hi :
  0 <= k → 0 <= lo → lo <= hi + 1 → hi < 64 →
  (∀ i, 0 <= i < 64 → Z.testbit mask i = (lo <=? i) && (i <=? hi)) →
  count_ones (Z.land (word_at b k) mask) = set_in (64 * k + lo) (hi - lo + 1).
Proof.
  intros Hk Hlo Hle Hhi Hm. pose proof (word_at_word64 b Hwords k) as Hw.
  rewrite count_ones_bits by auto with bits. unfold set_in.
  rewrite <-(length_fmap (Z.add (64 * k))). do 2 f_equal.
  apply ascending_ext.
  - apply (StronglySorted_fmap _ Z.lt); [lia|apply ascending_bits].
  - apply ascending_filter, ascending_seqZ.
  - intros v. rewrite list_elem_of_fmap, elem_of_Lfilter, elem_of_seqZ.
    assert (∀ p, 0 <= p < 64 → bit_at b (64 * k + p) = Z.testbit (word_at b k) p) as Hbit.
    { intros p Hp. rewrite bit_at_testbit by lia. by destruct (split64 k p Hp) as [-> ->]. }
    split.
    + intros (p & -> & [Hp Ht]%elem_of_bits). rewrite Z.land_spec, Hm in Ht by done.
      rewrite Hbit by done. apply andb_true_iff in Ht as [Ht ?]. split; [lia|done].
    + intros [Hv Hb]. exists (v - 64 * k). split; [lia|]. apply elem_of_bits.
      split; [lia|]. rewrite Z.land_spec, Hm, <-Hbit by lia.
      replace (64 * k + (v - 64 * k)) with v by lia. rewrite Hb. simpl. lia.
Qed.

Lemma whole_words k n :
  0 <= k → 0 <= n → k + n <= BITMAP_WORDS →
  foldr Z.add 0 (map count_ones (take (Z.to_nat n) (drop (Z.to_nat k) b))) = set_in (64 * k) (64 * n).
Proof.
  intros Hk Hn Hle. rewrite <-(length_expand k) by (by apply Forall_take, Forall_drop).
  unfold set_in. do 2 f_equal.
  apply ascending_ext; [apply ascending_expand|apply ascending_filter, ascending_seqZ|].
  intros v. rewrite elem_of_expand, elem_of_Lfilter, elem_of_seqZ.
  assert (∀ (i : nat) w p, b !! (Z.to_nat k + i)%nat = Some w → 0 <= p < 64 →
            bit_at b (64 * (k + Z.of_nat i) + p) = Z.testbit w p) as Hbit.
  { intros i w p Hi Hp. rewrite bit_at_testbit by lia.
    destruct (split64 (k + Z.of_nat i) p Hp) as [-> ->]. unfold word_at. replace (Z.to_nat (k + Z.of_nat i)) with (Z.to_nat k + i)%nat by lia. by rewrite Hi. }
  split.
  - intros (i & w & p & Hi & [Hp Ht]%elem_of_bits & ->).
    apply lookup_take_Some in Hi as [Hi Hin]. rewrite lookup_drop in Hi.
    rewrite (Hbit i w p) by done. split; [lia|done].
  - intros [Hv Hb]. pose proof (Z.div_mod v 64). pose proof (Z.mod_pos_bound v 64).
    assert (k <= v / 64 < k + n)
      by (split; [apply Z.div_le_lower_bound|apply Z.div_lt_upper_bound]; lia).
    destruct (lookup_lt_is_Some_2 b (Z.to_nat (v / 64))) as [w Hw]; [lia|].
    exists (Z.to_nat (v / 64 - k)), w, (v mod 64).
    assert (b !! (Z.to_nat k + Z.to_nat (v / 64 - k))%nat = Some w) as Hw'
      by (rewrite <-Hw; f_equal; lia).
    split_and!; [rewrite lookup_take_lt, lookup_drop by lia; done| |lia].
    apply elem_of_bits. split; [lia|]. rewrite <-(Hbit _ _ _ Hw') by lia. rewrite <-Hb. f_equal. lia.
Qed.

Lemma bits_in_spec run : run_ok run → wrap32 (bits_in b run) = wrap32 (set_in (iv_start run) (iv_last run - iv_start run + 1)).
Proof.
  destruct run as [s l]. intros (?&?&?). unfold bits_in. cbn [iv_start iv_last] in *.
  pose proof (Z.div_mod s 64). pose proof (Z.mod_pos_bound s 64).
  pose proof (Z.div_mod l 64). pose proof (Z.mod_pos_bound l 64).
  assert (0 <= s / 64) by (apply Z.div_pos; lia).
  assert (s / 64 <= l / 64) by (apply Z.div_le_mono; lia).
  assert (l / 64 < 1024) by (apply Z.div_lt_upper_bound; lia).
  destruct (Z.eqb_spec (s / 64) (l / 64)) as [He|Hne].
  - f_equal. rewrite (masked_word _ _ (s mod 64) (l mod 64)); [f_equal; lia|lia..|].
    intros i Hi. destruct (Z.eqb_spec (l - s + 1) 64).
    + rewrite testbit_u64_max by lia. lia.
    + rewrite testbit_shl64 by lia. rewrite Z.sub_1_r, Z.shiftl_1_l, <-Z.ones_equiv.
      destruct (Z.lt_ge_cases i (s mod 64)).
      * rewrite Z.testbit_neg_r by lia. lia.
      * rewrite Z.testbit_ones_nonneg by lia. lia.
  - rewrite wrap32_add_l. rewrite (wrap32_small _) by (unfold wrap32; apply Z.mod_pos_bound; lia).
    unfold sum32. rewrite <-Z.add_assoc, (Z.add_comm (wrap32 _)), Z.add_assoc, wrap32_add_r. f_equal.
    rewrite (masked_word _ _ (s mod 64) 63); [|lia..|].
    2:{ intros i Hi. rewrite testbit_shl64 by lia. destruct (Z.lt_ge_cases i (s mod 64)).
        - rewrite Z.testbit_neg_r by lia. lia.
        - rewrite testbit_u64_max by lia. lia. }
    rewrite (masked_word _ _ 0 (l mod 64)); [|lia..|].
    2:{ intros i Hi. rewrite Z.shiftr_spec, testbit_u64_max by lia. lia. }
    rewrite whole_words by (unfold BITMAP_WORDS; lia).
    replace (l - s + 1) with
      ((63 - s mod 64 + 1) + (64 * (l / 64 - (s / 64 + 1)) + (l mod 64 - 0 + 1))) by lia.
    rewrite !set_in_app by lia.
    replace (64 * (s / 64) + s mod 64) with s by lia.
    replace (s + (63 - s mod 64 + 1)) with (64 * (s / 64 + 1)) by lia.
    replace (64 * (s / 64 + 1) + 64 * (l / 64 - (s / 64 + 1))) with (64 * (l / 64) + 0) by lia. lia.
Qed.

Lemma bits_in_runs r :
  Forall run_ok r → sum32 (map (bits_in b) r) = wrap32 (common (members (Run r)) (members (Bitmap b))).
Proof.
  unfold sum32. induction 1 as [|i r Hi Hr IH]; [done|].
  change (members (Run (i :: r))) with (run_values i ++ members (Run r)).
  rewrite common_app. cbn [map foldr]. rewrite <-wrap32_add_l, bits_in_spec, wrap32_add_l by done.
  rewrite <-wrap32_add_r, IH, wrap32_add_r. f_equal. f_equal.
  apply common_filter. intros v Hv%elem_of_run_values. destruct Hi as (?&?&?).
  cbn [members]. rewrite elem_of_expand_0, Hlen. unfold BITMAP_WORDS. split; [|tauto]. split; [lia|done].
Qed.
End bits_in.

Lemma bitmap_and_common x y :
  wf (Bitmap x) → wf (Bitmap y) →
  sum32 (map count_ones (zip_with Z.land x y)) = common (members (Bitmap x)) (members (Bitmap y)).
Proof.
  intros Hx Hy. change (sum32 _) with (cardinality (Bitmap (zip_with (word_op And) x y))).
  apply cardinality_and; [done..|]. by apply (bitmap_bitmap_ok And x y 70000 (OutBitmap _)).
Qed.

(** * Every pair of representations *)
Lemma common_members_bound a b :
  wf a → wf b → 0 <= common (members a) (members b) < 2 ^ 32.
Proof.
  intros Ha Hb. pose proof (common_le (members a) (members b)).
  pose proof (members_length a Ha). unfold common in *. lia.
Qed.

Lemma card_run_run_wrapped a b n : 0 <= n < 2 ^ 32 → wrap32 (card_run_run a b n) = card_run_run a b n.
Proof.
  assert (∀ z, 0 <= wrap32 z < 2 ^ 32) by (intros; apply Z.mod_pos_bound; lia).
  revert b n. induction a as [|x a IHa]; intros b n Hn.
  { destruct b; by apply wrap32_small. }
  revert n Hn. induction b as [|y b IHb]; intros n Hn; [by apply wrap32_small|].
  change (card_run_run (x :: a) (y :: b) n) with
    (let start := Z.max (iv_start x) (iv_start y) in
     let last := Z.min (iv_last x) (iv_last y) in
     let n' := if start <=? last then wrap32 (n + (last - start + 1)) else n in
     if iv_last x <? iv_last y then card_run_run a (y :: b) n' else card_run_run (x :: a) b n').
  cbv zeta. destruct (iv_last x <? iv_last y); [apply IHa|apply IHb]; by destruct (_ <=? _).
Qed.

Lemma card_array_array_wrapped a b n :
  0 <= n < 2 ^ 32 → wrap32 (card_array_array a b n) = card_array_array a b n.
Proof.
  assert (∀ z, 0 <= wrap32 z < 2 ^ 32) by (intros; apply Z.mod_pos_bound; lia).
  revert b n. induction a as [|x a IHa]; intros b n Hn.
  { destruct b; by apply wrap32_small. }
  revert n Hn. induction b as [|y b IHb]; intros n Hn; [by apply wrap32_small|].
  change (card_array_array (x :: a) (y :: b) n) with
    (match x ?= y with
     | Lt => card_array_array a (y :: b) n
     | Gt => card_array_array (x :: a) b n
     | Eq => card_array_array a b (wrap32 (n + 1))
     end).
  destruct (x ?= y); [by apply IHa|by apply IHa|by apply IHb].
Qed.

Lemma card_probe c x (f : Z → bool) :
  wf (Array x) → wf c → (∀ v, u16 v → f v = true ↔ v ∈ members c) →
  wrap32 (Z.of_nat (length (List.filter f x))) = common (members (Array x)) (members c).
Proof.
  intros Hx Hc Hf. rewrite (common_filter x (members c)).
  - apply wrap32_small. by apply common_members_bound.
  - intros v Hv. apply Hf. by apply (members_u16 (Array x)).
Qed.

Lemma and_cardinality_common a b :
  wf a → wf b → and_cardinality a b = common (members a) (members b).
Proof.
  intros Ha Hb. unfold and_cardinality.
  pose proof (common_members_bound a b Ha Hb) as Hbound.
  assert (common (members a) (members b) = common (members b) (members a)) as Hcomm
    by (apply common_comm; by apply members_ascending).
  destruct (is_empty a) eqn:Ea.
  { apply is_empty_members in Ea as ->; done. }
  destruct (is_empty b) eqn:Eb.
  { apply is_empty_members in Eb as ->; [|done]. rewrite common_none; [done|].
    intros v _. apply not_elem_of_nil. }
  cbn [orb]. destruct a as [x|x|x], b as [y|y|y].
  - rewrite <-card_array_array_wrapped by lia. apply wf_array in Ha as [_ Ha], Hb as [_ Hb].
    rewrite card_array_array_spec by done. by apply wrap32_small.
  - apply card_probe; [done..|]. intros v Hv. by apply (contains_members (Bitmap y)).
  - apply card_probe; [done..|]. intros v Hv. by apply (contains_members (Run y)).
  - rewrite Hcomm. apply card_probe; [done..|]. intros v Hv. by apply (contains_members (Bitmap x)).
  - by apply bitmap_and_common.
  - rewrite Hcomm in Hbound |- *. apply wf_bitmap in Ha as [Hl Hw]. apply wf_run in Hb as [Hr _].
    rewrite bits_in_runs by done. by apply wrap32_small.
  - rewrite Hcomm. apply card_probe; [done..|]. intros v Hv. by apply (contains_members (Run x)).
  - apply wf_bitmap in Hb as [Hl Hw]. apply wf_run in Ha as [Hr _].
    rewrite bits_in_runs by done. by apply wrap32_small.
  - rewrite <-card_run_run_wrapped by lia. apply wf_run in Ha, Hb.
    rewrite card_run_run_spec by done. by apply wrap32_small.
Qed.

Lemma and_cardinality_ok a b :
  wf a → wf b → and_cardinality a b = cardinality (into_owned (apply And a b)).
Proof.
  intros Ha Hb. rewrite and_cardinality_common by done. symmetry.
  apply cardinality_and; [done..|]. by apply apply_ok.
Qed.
