(* ===== verification/Delta.v ===== *)
(** Bits changed since a dense container was last written whole
    (crates/big-container/src/delta.rs). *)
From S2P Require Import Prelude Bits Search Container Optimize.

Record DeltaEntry := mkDelta { d_offset : Z; d_set : bool }.

Definition DELTA_ENTRY_BYTES : Z := 4.
Definition MAX_DELTA : Z := 32.

(** [encode]. *)
Definition encode_entry (e : DeltaEntry) : list Z :=
  le_bytes 2 (d_offset e) ++ le_bytes 2 (if d_set e then 1 else 0).
Definition encode (entries : list DeltaEntry) : list Z := concat (map encode_entry entries).

(** The loop of [decode] over [as_chunks::<4>().0]: the trailing bytes that are not a whole chunk
    are not part of it. *)
Fixpoint decode_chunks (payload : list Z) : list DeltaEntry :=
  match payload with
  | c0 :: c1 :: c2 :: c3 :: rest =>
      mkDelta (of_le [c0; c1]) (negb (of_le [c2; c3] =? 0)) :: decode_chunks rest
  | _ => []
  end.
Definition decode (payload : list Z) : option (list DeltaEntry) :=
  if Z.of_nat (length payload) mod DELTA_ENTRY_BYTES =? 0
  then Some (decode_chunks payload) else None.

(** [contains]: the delta is searched before the base word is touched. *)
Definition delta_contains (base : list Z) (delta : list DeltaEntry) (offset : Z) : bool :=
  match binary_search_by_key offset d_offset delta with
  | Hit i => default false (d_set <$> delta !! i)
  | Miss _ => bit_at base offset
  end.

(** [apply]. *)
Definition apply_entry (words : list Z) (e : DeltaEntry) : list Z :=
  if d_set e then set_bit words (d_offset e) else clear_bit words (d_offset e).
Definition delta_apply (base : list Z) (delta : list DeltaEntry) : list Z :=
  foldl apply_entry base delta.

(** [cardinality_after]. *)
Definition count_entry (base : list Z) (n : Z) (e : DeltaEntry) : Z :=
  let was := bit_at base (d_offset e) in
  if negb (eqb was (d_set e)) then n + (if d_set e then 1 else -1) else n.
Definition cardinality_after (base : list Z) (base_cardinality : Z) (delta : list DeltaEntry) : Z :=
  wrap32 (Z.max 0 (foldl (count_entry base) base_cardinality delta)).

(** * The entries a writer produces: offsets in range, strictly ascending *)
Definition delta_ok (delta : list DeltaEntry) : Prop :=
  Forall (λ e, u16 (d_offset e)) delta ∧ StronglySorted (λ x y, d_offset x < d_offset y) delta.

Lemma decode_encode_chunks delta :
  Forall (λ e, u16 (d_offset e)) delta → decode_chunks (encode delta) = delta.
Proof.
  induction 1 as [|[o s] delta Ho _ IH]; [done|]. cbn [d_offset] in Ho. destruct Ho as [Ho0 Ho1].
  unfold encode in *. cbn [map concat]. unfold encode_entry at 1. cbn [d_offset d_set].
  pose proof (of_le_le_bytes 2 o ltac:(lia)) as Hof.
  pose proof (length_le_bytes 2 o) as Hl. destruct (le_bytes 2 o) as [|a [|b [|??]]]; try done.
  assert (of_le (le_bytes 2 (if s then 1 else 0)) = if s then 1 else 0) as Hos
    by (apply of_le_le_bytes; destruct s; lia).
  pose proof (length_le_bytes 2 (if s then 1 else 0)) as Hl'.
  destruct (le_bytes 2 (if s then 1 else 0)) as [|c [|d [|??]]]; try done.
  cbn [app decode_chunks]. rewrite IH, Hof, Hos. by destruct s.
Qed.

Lemma length_encode delta : Z.of_nat (length (encode delta)) = DELTA_ENTRY_BYTES * Z.of_nat (length delta).
Proof.
  unfold encode, DELTA_ENTRY_BYTES. induction delta as [|e delta IH]; [done|].
  cbn [map concat length]. unfold encode_entry at 1. rewrite !length_app, !length_le_bytes. lia.
Qed.

Lemma decode_encode_delta delta :
  Forall (λ e, u16 (d_offset e)) delta → decode (encode delta) = Some delta.
Proof.
  intros H. unfold decode. rewrite length_encode. unfold DELTA_ENTRY_BYTES.
  rewrite Z.mul_comm, Z.mod_mul, Z.eqb_refl by lia. by rewrite decode_encode_chunks.
Qed.

(** What [decode] returns always has offsets in range, whatever the bytes were. *)
Lemma decode_chunks_u16 payload :
  Forall byte payload → Forall (λ e, u16 (d_offset e)) (decode_chunks payload).
Proof.
  remember (length payload) as n eqn:Hn. revert payload Hn.
  induction (lt_wf n) as [n _ IH]. intros payload -> Hb.
  destruct payload as [|a [|b [|c [|d rest]]]]; simpl; try constructor.
  - do 2 (inversion Hb as [|?? ? Hb']; subst; clear Hb; rename Hb' into Hb).
    cbn [d_offset of_le]. unfold byte, u16 in *. lia.
  - apply (IH (length rest)); [simpl; lia|done|].
    do 4 (inversion Hb as [|?? ? Hb']; subst; clear Hb; rename Hb' into Hb). done.
Qed.

Lemma decode_u16 payload delta :
  Forall byte payload → decode payload = Some delta → Forall (λ e, u16 (d_offset e)) delta.
Proof.
  unfold decode. intros Hb. destruct (_ =? 0); [|done]. intros [= <-]. by apply decode_chunks_u16.
Qed.

(** * The bitmap a delta stands for *)
Lemma apply_entry_wf b e : wf (Bitmap b) → u16 (d_offset e) → wf (Bitmap (apply_entry b e)).
Proof.
  intros [Hl Hw]%wf_bitmap [??]. unfold apply_entry. apply wf_bitmap.
  assert (0 <= d_offset e mod 64 < 64) by (apply Z.mod_pos_bound; lia).
  destruct (d_set e); unfold set_bit, clear_bit, upd_word; rewrite length_alter; split; try done;
    apply Forall_alter; auto with bits.
Qed.

Lemma delta_apply_wf b delta :
  wf (Bitmap b) → Forall (λ e, u16 (d_offset e)) delta → wf (Bitmap (delta_apply b delta)).
Proof.
  intros Hb Hd. revert b Hb. unfold delta_apply. induction Hd as [|e d He Hd IH]; intros b Hb; simpl; [done|].
  apply IH. by apply apply_entry_wf.
Qed.

Lemma bit_at_apply_entry b e u :
  wf (Bitmap b) → u16 (d_offset e) → u16 u →
  bit_at (apply_entry b e) u = if u =? d_offset e then d_set e else bit_at b u.
Proof.
  intros [Hl _]%wf_bitmap He [??]. unfold apply_entry. destruct (d_set e).
  - rewrite bit_at_set by done. by destruct (_ =? _).
  - rewrite bit_at_clear by done. by destruct (_ =? _).
Qed.

Lemma bit_at_delta_apply_notin b delta u :
  wf (Bitmap b) → Forall (λ e, u16 (d_offset e)) delta → u16 u →
  Forall (λ e, d_offset e ≠ u) delta → bit_at (delta_apply b delta) u = bit_at b u.
Proof.
  intros Hb Hd Hu. revert b Hb. unfold delta_apply.
  induction Hd as [|e d He Hd IH]; intros b Hb Hn; simpl; [done|].
  inversion Hn; subst. rewrite IH by (done || by apply apply_entry_wf).
  rewrite bit_at_apply_entry by done. destruct (Z.eqb_spec u (d_offset e)); [congruence|done].
Qed.

Lemma bit_at_delta_apply_in b delta i e :
  wf (Bitmap b) → delta_ok delta → delta !! i = Some e →
  bit_at (delta_apply b delta) (d_offset e) = d_set e.
Proof.
  intros Hb [Hd Hs]. revert b Hb i. induction Hs as [|x d Hs IH Hx]; intros b Hb i Hi; [done|].
  apply Forall_cons in Hd as [Hxu Hd]. change (delta_apply b (x :: d)) with (delta_apply (apply_entry b x) d).
  assert (wf (Bitmap (apply_entry b x))) by by apply apply_entry_wf.
  destruct i as [|i]; simpl in Hi; [simplify_eq|by apply (IH Hd _ H i)].
  assert (Forall (λ y, d_offset y ≠ d_offset e) d)
    by (eapply Forall_impl; [exact Hx|simpl; intros; lia]).
  by rewrite bit_at_delta_apply_notin, bit_at_apply_entry, Z.eqb_refl by done.
Qed.

Lemma delta_contains_apply b delta u :
  wf (Bitmap b) → delta_ok delta → u16 u →
  delta_contains b delta u = bit_at (delta_apply b delta) u.
Proof.
  intros Hb Hd Hu. pose proof Hd as [Hd1 Hs]. unfold delta_contains.
  pose proof (binary_search_by_key_spec d_offset u delta Hs) as H.
  destruct (binary_search_by_key u d_offset delta) as [i|i].
  - destruct H as (e & He & <-). rewrite He. simpl. by erewrite bit_at_delta_apply_in.
  - destruct H as (_ & Hlt & Hgt). rewrite bit_at_delta_apply_notin; [done..|].
    rewrite <-(take_drop i delta). apply Forall_app. split.
    + eapply Forall_impl; [exact Hlt|]. simpl. lia.
    + eapply Forall_impl; [exact Hgt|]. simpl. lia.
Qed.

(** * The count a delta leaves *)
Lemma length_members_apply_entry b e :
  wf (Bitmap b) → u16 (d_offset e) →
  Z.of_nat (length (members (Bitmap (apply_entry b e)))) = count_entry b (Z.of_nat (length (members (Bitmap b)))) e.
Proof.
  intros Hb He. pose proof (apply_entry_wf b e Hb He) as Hb'. set (v := d_offset e).
  assert (∀ c u, wf (Bitmap c) → u ∈ members (Bitmap c) ↔ u16 u ∧ bit_at c u = true) as Hin.
  { intros c u Hc. cbn [members]. pose proof Hc as [Hl _]%wf_bitmap.
    rewrite elem_of_expand_0, Hl. unfold BITMAP_WORDS, u16. split; intros [??]; (split; [lia|done]). }
  assert (∀ c c', wf (Bitmap c) → wf (Bitmap c') → bit_at c v = false →
            (∀ u, u16 u → bit_at c' u = (u =? v) || bit_at c u) →
            Z.of_nat (length (members (Bitmap c'))) = Z.of_nat (length (members (Bitmap c))) + 1) as Hcount.
  { intros c c' Hc Hc' Hv Hbits.
    assert (members (Bitmap c') ≡ₚ v :: members (Bitmap c)) as Hp.
    { apply NoDup_Permutation.
      - by apply ascending_NoDup, members_ascending.
      - constructor; [rewrite Hin by done; intros [_ ?]; congruence|].
        by apply ascending_NoDup, members_ascending.
      - intros u. rewrite elem_of_cons, !Hin by done. split.
        + intros [Hu Hb1]. rewrite Hbits in Hb1 by done. destruct (Z.eqb_spec u v); [by left|by right].
        + intros [->|[Hu Hb1]]; (split; [done|]); rewrite Hbits by done; [by rewrite Z.eqb_refl|].
          by rewrite Hb1, orb_true_r. }
    rewrite Hp. simpl length. lia. }
  assert (∀ c c', wf (Bitmap c) → wf (Bitmap c') → (∀ u, u16 u → bit_at c' u = bit_at c u) →
            members (Bitmap c') = members (Bitmap c)) as Hsame.
  { intros c c' Hc Hc' Hbits. apply ascending_ext; [by apply members_ascending..|].
    intros u. rewrite !Hin by done. split; intros [Hu Hb1]; (split; [done|]); [rewrite <-Hbits|rewrite Hbits]; done. }
  pose proof (λ u, bit_at_apply_entry b e u Hb He) as Hbit.
  unfold count_entry. destruct (bit_at b (d_offset e)) eqn:Ew, (d_set e) eqn:Es; cbn [eqb negb].
  - f_equal. f_equal. apply Hsame; [done..|]. intros u Hu. rewrite Hbit by done.
    destruct (Z.eqb_spec u (d_offset e)); congruence.
  - rewrite (Hcount (apply_entry b e) b); [lia|done..|rewrite Hbit by done; by rewrite Z.eqb_refl|].
    intros u Hu. rewrite Hbit by done. unfold v. destruct (Z.eqb_spec u (d_offset e)); simpl; congruence.
  - rewrite (Hcount b (apply_entry b e)); [done..|]. intros u Hu. rewrite Hbit by done.
    unfold v. destruct (Z.eqb_spec u (d_offset e)); simpl; congruence.
  - f_equal. f_equal. apply Hsame; [done..|]. intros u Hu. rewrite Hbit by done.
    destruct (Z.eqb_spec u (d_offset e)); congruence.
Qed.

Lemma count_entries b c delta n :
  wf (Bitmap b) → wf (Bitmap c) → delta_ok delta →
  Forall (λ e, bit_at c (d_offset e) = bit_at b (d_offset e)) delta →
  n = Z.of_nat (length (members (Bitmap c))) →
  foldl (count_entry b) n delta = Z.of_nat (length (members (Bitmap (delta_apply c delta)))).
Proof.
  intros Hb Hc [Hd Hs]. revert c Hc n. induction Hs as [|e d Hs IH He]; intros c Hc n Heq ->; [done|].
  apply Forall_cons in Hd as [Heu Hd], Heq as [Heq1 Heq].
  change (delta_apply c (e :: d)) with (delta_apply (apply_entry c e) d). cbn [foldl].
  apply IH; [done|by apply apply_entry_wf| |].
  - apply Forall_forall. intros x Hx. rewrite Forall_forall in He, Heq, Hd.
    rewrite bit_at_apply_entry by auto. specialize (He x Hx).
    destruct (Z.eqb_spec (d_offset x) (d_offset e)); [lia|auto].
  - rewrite length_members_apply_entry by done. unfold count_entry. by rewrite Heq1.
Qed.

Lemma cardinality_after_ok b delta :
  wf (Bitmap b) → delta_ok delta →
  cardinality_after b (cardinality (Bitmap b)) delta = cardinality (Bitmap (delta_apply b delta)).
Proof.
  intros Hb Hd. unfold cardinality_after.
  assert (wf (Bitmap (delta_apply b delta))) as Hw by (apply delta_apply_wf; [done|apply Hd]).
  rewrite !cardinality_members by done.
  rewrite (count_entries b b) by (done || by apply Forall_true).
  pose proof (members_length _ Hw). rewrite Z.max_r by lia. apply Z.mod_small. lia.
Qed.
