(* ===== verification/ContainerSpec.v ===== *)
(** What the container layer promises: a container is a set of 16-bit values, and every operation
    agrees with that set (crates/big-container). *)
From S2P Require Import Prelude Bits Search Container Optimize SetOps Cardinality Delta.

(** The abstract view: every question about a container is a question about its set. *)
Record represents (c : Container) (S : Z → Prop) : Prop := {
  rp_wf : wf c;
  rp_members : ∀ u, u ∈ members c ↔ S u
}.

Lemma represents_self c : wf c → represents c (λ u, u ∈ members c).
Proof. intros Hc. by split. Qed.

Definition sample_array : Container := Array [1; 5; 9].
Definition sample_runs : Container := Run [mkInterval 4 6; mkInterval 9 9].

Lemma wf_sample_array : wf sample_array.
Proof. split; [|reflexivity]. cbn. repeat constructor; unfold u16; lia. Qed.
Lemma wf_sample_runs : wf sample_runs.
Proof. split; [|reflexivity]. cbn. repeat constructor; unfold u16; cbn; lia. Qed.

(** The questions.  Membership, cardinality, emptiness and iteration all answer for the same
    set, in ascending order, whichever of the three representations holds it. *)
Theorem container_queries c S :
  represents c S →
  values c = members c ∧ ascending (values c) ∧ (∀ u, u ∈ values c ↔ S u) ∧
  cardinality c = Z.of_nat (length (values c)) ∧ cardinality c <= 65536 ∧
  (∀ v, u16 v → contains c v = true ↔ S v) ∧ (is_empty c = true ↔ ∀ v, ¬ S v).
Proof.
  intros [Hc HS]. rewrite (values_members c Hc), (cardinality_members c Hc). split_and!; [done| |done|done| | |].
  - by apply members_ascending.
  - by apply members_length.
  - intros v Hv. by rewrite contains_members, HS.
  - rewrite is_empty_members by done. split.
    + intros E v Hv%HS. rewrite E in Hv. by apply not_elem_of_nil in Hv.
    + intros Hn. destruct (members c) as [|x l]; [done|]. exfalso. apply (Hn x), HS. by left.
Qed.

Lemma container_queries_witness :
  represents sample_runs (λ u, u ∈ members sample_runs) ∧ contains sample_runs 5 = true ∧ 5 ∈ members sample_runs.
Proof.
  assert (represents sample_runs (λ u, u ∈ members sample_runs)) as H by (apply represents_self, wf_sample_runs).
  split; [exact H|]. split; [reflexivity|]. destruct (container_queries _ _ H) as (_ & _ & _ & _ & _ & Hc & _).
  apply (Hc 5); [unfold u16; lia|reflexivity].
Defined.

(** C31.  Set algebra.  Whatever the two representations and whichever kernel the dispatch picks,
    [apply] returns a well-formed container of exactly the intersection, union, difference or
    symmetric difference, never larger than the bound the output was sized by. *)
Theorem set_op_correct op a b A B :
  represents a A → represents b B →
  represents (into_owned (apply op a b)) (λ u, op_spec op (A u) (B u)) ∧
  cardinality (into_owned (apply op a b)) <= bound op (cardinality a) (cardinality b).
Proof.
  intros [Ha HA] [Hb HB]. pose proof (apply_ok op a b Ha Hb) as Hr. split.
  - destruct Hr as [Hw Hm]. split; [done|]. intros u. rewrite Hm. by f_equiv.
  - by apply result_bound.
Qed.

Lemma set_op_correct_witness :
  represents (into_owned (apply Xor sample_array sample_runs))
    (λ u, op_spec Xor (u ∈ members sample_array) (u ∈ members sample_runs)) ∧
  values (into_owned (apply Xor sample_array sample_runs)) = [1; 4; 6].
Proof.
  split; [|vm_compute; reflexivity].
  apply (set_op_correct Xor); apply represents_self; [apply wf_sample_array|apply wf_sample_runs].
Defined.

(** Folding.  [fold] over a non-empty list is the operation applied from the left, and there
    is nothing to answer for an empty one. *)
Theorem fold_correct op items :
  Forall wf items →
  match fold op items with
  | None => items = []
  | Some r => ∃ c rest, items = c :: rest ∧
      represents r (λ u, fold_spec op (u ∈ members c) (map (λ d, u ∈ members d) rest))
  end.
Proof.
  intros H. destruct items as [|c rest]; cbn [fold]; [done|]. apply Forall_cons in H as [Hc Hr].
  exists c, rest. split; [done|]. destruct (fold_ok op c rest Hc Hr) as [Hw Hm]. by split.
Qed.

Lemma fold_correct_witness :
  match fold Or [sample_array; sample_runs; sample_array] with
  | None => [sample_array; sample_runs; sample_array] = []
  | Some r => ∃ c rest, [sample_array; sample_runs; sample_array] = c :: rest ∧
      represents r (λ u, fold_spec Or (u ∈ members c) (map (λ d, u ∈ members d) rest))
  end.
Proof.
  apply (fold_correct Or). repeat (apply Forall_cons; split); [apply wf_sample_array|apply wf_sample_runs|apply wf_sample_array|apply Forall_nil; exact I].
Defined.

(** Counting without building.  [and_cardinality] is the cardinality of the intersection that
    [apply] would have built. *)
Theorem and_cardinality_correct a b :
  wf a → wf b →
  and_cardinality a b = cardinality (into_owned (apply And a b)) ∧
  and_cardinality a b = and_cardinality b a.
Proof.
  intros Ha Hb. rewrite !and_cardinality_ok by done. split; [done|].
  destruct (apply_ok And a b Ha Hb) as [Hw Hm], (apply_ok And b a Hb Ha) as [Hw' Hm'].
  rewrite !cardinality_members by done. do 2 f_equal. apply ascending_ext; [by apply members_ascending..|].
  intros u. rewrite Hm, Hm'. cbn. tauto.
Qed.

Lemma and_cardinality_correct_witness :
  and_cardinality sample_array sample_runs = 2 ∧
  and_cardinality sample_array sample_runs = cardinality (into_owned (apply And sample_array sample_runs)).
Proof.
  split; [vm_compute; reflexivity|]. apply (and_cardinality_correct sample_array sample_runs wf_sample_array wf_sample_runs).
Defined.

(** Re-encoding.  [optimize] keeps the set, respects the caller's caps, and its bytes are no
    more than any representation the caps allow would take; what it borrows is what it was given. *)
Theorem optimize_correct c caps S :
  represents c S →
  let c' := into_owned (optimize c caps) in
  represents c' S ∧ within caps c' ∧ byte_size c' <= BITMAP_BYTES ∧
  (cardinality c <= Z.min (array_max caps) ARRAY_BREAK_EVEN → byte_size c' <= 2 * cardinality c) ∧
  (run_count c <= run_max caps → byte_size c' <= 4 * run_count c) ∧
  (is_borrowed (optimize c caps) = true → c' = c).
Proof.
  intros [Hc HS]. cbv zeta. destruct (optimize_same_set c caps Hc) as [Hw Hm].
  destruct (optimize_size c caps Hc) as (H1 & H2 & H3 & H4). split_and!; try done.
  - split; [done|]. intros u. by rewrite Hm.
  - destruct (optimize c caps) eqn:E; [|done]. intros _. cbn. by eapply optimize_borrowed.
Qed.

Lemma optimize_correct_witness :
  represents (into_owned (optimize sample_array (mkCaps 4 4))) (λ u, u ∈ members sample_array) ∧
  byte_size (into_owned (optimize sample_array (mkCaps 4 4))) <= 2 * cardinality sample_array.
Proof.
  destruct (optimize_correct sample_array (mkCaps 4 4) _ (represents_self _ wf_sample_array)) as (H1 & _ & _ & H2 & _).
  split; [exact H1|]. apply H2. vm_compute. discriminate.
Defined.

(** Insertion and removal.  Each changes the set at one value and reports whether the value
    was there. *)
Theorem insert_remove_correct c v S :
  represents c S → u16 v →
  represents (fst (insert c v)) (λ u, u = v ∨ S u) ∧ (snd (insert c v) = true ↔ ¬ S v) ∧
  represents (fst (remove c v)) (λ u, u ≠ v ∧ S u) ∧ (snd (remove c v) = true ↔ S v).
Proof.
  intros [Hc HS] Hv. pose proof (insert_members c v Hc Hv) as Hi. pose proof (remove_members c v Hc Hv) as Hr.
  destruct (insert c v) as [ci fresh], (remove c v) as [cr had]. destruct Hi as (I1 & I2 & I3), Hr as (R1 & R2 & R3). cbn.
  split_and!.
  - split; [done|]. intros u. by rewrite I2, HS.
  - by rewrite I3, HS.
  - split; [done|]. intros u. by rewrite R2, HS.
  - by rewrite R3, HS.
Qed.

Lemma insert_remove_correct_witness :
  represents (fst (insert sample_runs 7)) (λ u, u = 7 ∨ u ∈ members sample_runs) ∧ snd (insert sample_runs 7) = true.
Proof.
  split; [|vm_compute; reflexivity].
  apply (insert_remove_correct sample_runs 7 _ (represents_self _ wf_sample_runs)). unfold u16. lia.
Defined.

(** Building from values: unsorted input with repeats gives the set of the input. *)
Theorem from_values_correct vs :
  Forall u16 vs → represents (from_values vs) (λ u, u ∈ vs) ∧ cardinality (from_values vs) <= Z.of_nat (length vs).
Proof.
  intros H. rewrite Forall_forall in H. destruct (from_values_members vs H) as [Hw Hm]. split; [by split|].
  rewrite (cardinality_members _ Hw). pose proof (ascending_NoDup _ (members_ascending _ Hw)) as Hn.
  apply inj_le, submseteq_length, NoDup_submseteq; [done|]. intros u. by rewrite Hm.
Qed.

Lemma from_values_correct_witness :
  represents (from_values [9; 2; 9; 4]) (λ u, u ∈ [9; 2; 9; 4]) ∧ values (from_values [9; 2; 9; 4]) = [2; 4; 9].
Proof.
  split; [|vm_compute; reflexivity]. apply (from_values_correct [9; 2; 9; 4]).
  repeat (apply Forall_cons; split; [unfold u16; lia|]). apply Forall_nil. exact I.
Defined.

(** Deltas.  A base bitmap and the bits changed since stand for the bitmap with the bits
    applied: a lookup through the delta, and the cardinality kept beside it, agree with applying it,
    and the entries survive encoding. *)
Theorem delta_correct b delta :
  wf (Bitmap b) → delta_ok delta →
  wf (Bitmap (delta_apply b delta)) ∧
  (∀ u, u16 u → delta_contains b delta u = contains (Bitmap (delta_apply b delta)) u) ∧
  cardinality_after b (cardinality (Bitmap b)) delta = cardinality (Bitmap (delta_apply b delta)) ∧
  decode (encode delta) = Some delta.
Proof.
  intros Hb Hd. pose proof (delta_apply_wf b delta Hb (proj1 Hd)) as Hw. split_and!; [done| | |].
  - intros u Hu. by apply delta_contains_apply.
  - by apply cardinality_after_ok.
  - by apply decode_encode_delta, Hd.
Qed.

Lemma wf_empty_bitmap : wf (Bitmap empty_words).
Proof. apply wf_bitmap. split; [apply length_empty_words|apply words_empty]. Qed.

Lemma delta_correct_witness :
  delta_ok [mkDelta 3 true; mkDelta 70 false] ∧
  decode (encode [mkDelta 3 true; mkDelta 70 false]) = Some [mkDelta 3 true; mkDelta 70 false].
Proof.
  assert (delta_ok [mkDelta 3 true; mkDelta 70 false]) as H
    by (split; repeat constructor; unfold u16; cbn; lia).
  split; [exact H|]. apply (delta_correct empty_words _ wf_empty_bitmap H).
Defined.
