(* ===== verification/Page.v ===== *)
(** Pages: the layout constants, the header and trailer every page but a bitmap page carries, the
    shared validation of a cell index, and the fixed binary keys
    (crates/big-page/src/layout.rs, page.rs, error.rs, key.rs).

    A page is its 8,192 bytes.  Reads and writes of a byte range panic out of range, as Rust's do,
    so that "no input makes the parser panic" is a theorem and not a modelling choice. *)
From S2P Require Import Prelude Bits Container.

(** * What the crate takes from outside

    [crc32fast::hash] and the two casts of [bytemuck] are other people's code.  The laws are what
    their documentation promises: a crc is a [u32], and a cast succeeds when the bytes start at a
    multiple of the element's alignment and hold a whole number of elements, and then reads them
    little-endian, which [cast_slice] inverts. *)
Class Extern := {
  crc32fast_hash : list Z → Z;
  try_cast_u16 : Z → list Z → option (list Z);
  try_cast_interval : Z → list Z → option (list Interval);
  try_cast_u64 : Z → list Z → option (list Z);
  cast_u16 : list Z → list Z;
  cast_interval : list Interval → list Z;
  cast_u64 : list Z → list Z
}.

(** A byte string cut in pieces of [n]; the bytes left over at the end are dropped. *)
Fixpoint pieces (k n : nat) (bs : list Z) : list (list Z) :=
  match k with O => [] | S k' => take n bs :: pieces k' n (drop n bs) end.
Definition chunked (n : nat) (bs : list Z) : list (list Z) := pieces (length bs / n) n bs.

Definition le_elems (n : nat) (bs : list Z) : list Z := of_le <$> chunked n bs.
Definition le_interval (bs : list Z) : Interval := mkInterval (of_le (take 2 bs)) (of_le (drop 2 bs)).

Class ExternLaws (X : Extern) : Prop := {
  crc32_u32 bs : 0 <= crc32fast_hash bs < 2 ^ 32;
  try_cast_u16_ok start bs :
    start mod 2 = 0 → Z.of_nat (length bs) mod 2 = 0 →
    try_cast_u16 start bs = Some (le_elems 2 bs);
  try_cast_interval_ok start bs :
    start mod 2 = 0 → Z.of_nat (length bs) mod 4 = 0 →
    try_cast_interval start bs = Some (le_interval <$> chunked 4 bs);
  try_cast_u64_ok start bs :
    start mod 8 = 0 → Z.of_nat (length bs) mod 8 = 0 →
    try_cast_u64 start bs = Some (le_elems 8 bs);
  cast_u16_bytes l : cast_u16 l = concat (le_bytes 2 <$> l);
  cast_interval_bytes l : cast_interval l = concat ((λ i, le_bytes 2 (iv_start i) ++ le_bytes 2 (iv_last i)) <$> l);
  cast_u64_bytes l : cast_u64 l = concat (le_bytes 8 <$> l)
}.

(** * Layout (layout.rs) *)
Definition PAGE_SIZE : Z := 8192.
Definition PAGE_HEADER : Z := 12.
Definition PAGE_TRAILER : Z := 4.
Definition CELL_INDEX_ENTRY : Z := 2.
Definition CELL_ALIGN : Z := 8.
Definition LEAF_CELL_HEADER : Z := 24.
Definition BRANCH_CELL : Z := 16.

(** [(n + CELL_ALIGN - 1) & !(CELL_ALIGN - 1)]. *)
Definition align_up (n : Z) : Z := Z.land (n + CELL_ALIGN - 1) (not64 (CELL_ALIGN - 1)).

Definition CELL_PAYLOAD_MAX : Z :=
  PAGE_SIZE - PAGE_TRAILER - align_up (PAGE_HEADER + CELL_INDEX_ENTRY) - LEAF_CELL_HEADER.
Definition ARRAY_MAX_ELEMS : Z := CELL_PAYLOAD_MAX / 2.
Definition RUN_MAX_INTERVALS : Z := CELL_PAYLOAD_MAX / 4.

(** * Errors (error.rs) *)
Inductive PageError :=
| TypeMismatch (expected found : Z)
| UnknownPageType (t : Z)
| CellCountOverflow (n : Z)
| CellOffsetOutOfRange (index offset : Z)
| CellMisaligned (index offset : Z)
| CellOrderBroken (index : Z)
| PayloadOutOfRange (index : Z)
| UnknownContainerType (t : Z)
| NotAContainer (t : Z)
| Misaligned
| ChecksumMismatch (stored computed : Z)
| BadMagic (m : Z)
| UnsupportedVersion (v : Z)
| PageSizeMismatch (expected found : Z).

(** [PageError::code]: the action a script selects. *)
Inductive ErrorCode :=
| page_checksum_mismatch | not_a_big_file | unsupported_format_version | page_size_mismatch
| page_damaged.
Definition code (e : PageError) : ErrorCode :=
  match e with
  | ChecksumMismatch _ _ => page_checksum_mismatch
  | BadMagic _ => not_a_big_file
  | UnsupportedVersion _ => unsupported_format_version
  | PageSizeMismatch _ _ => page_size_mismatch
  | _ => page_damaged
  end.

(** * PageType *)
Inductive PageType := PMeta | PRootRecords | PBranch | PLeaf | PBitmap | PFreelist | PSnapshots | PCatalog.

#[export] Instance PageType_eq_dec : EqDecision PageType.
Proof. solve_decision. Defined.

Definition page_code (t : PageType) : Z :=
  match t with
  | PMeta => 0 | PRootRecords => 1 | PBranch => 2 | PLeaf => 3 | PBitmap => 4 | PFreelist => 5
  | PSnapshots => 6 | PCatalog => 7
  end.

Definition page_from_u8 (v : Z) : Res PageError PageType :=
  match v with
  | 0 => Ok PMeta
  | 1 => Ok PRootRecords
  | 2 => Ok PBranch
  | 3 => Ok PLeaf
  | 4 => Ok PBitmap
  | 5 => Ok PFreelist
  | 6 => Ok PSnapshots
  | 7 => Ok PCatalog
  | other => Err (UnknownPageType other)
  end.

(** * The page (page.rs) *)
Definition Page := list Z.

Definition page_ok (p : Page) : Prop := Z.of_nat (length p) = PAGE_SIZE ∧ Forall byte p.

Definition zeroed : Page := replicate (Z.to_nat PAGE_SIZE) 0.

(** A sequence of [copy_from_slice] calls. *)
Fixpoint write_all (p : Page) (ws : list (Z * list Z)) : Res PageError Page :=
  match ws with
  | [] => Ok p
  | (o, bs) :: ws' => p' ← wr p o bs; write_all p' ws'
  end.

Definition pgno (p : Page) : Res PageError Z := rd 4 p 0.
Definition flags (p : Page) : Res PageError Z := rd 4 p 4.
Definition cell_count (p : Page) : Res PageError Z := rd 2 p 8.
Definition page_type (p : Page) : Res PageError PageType :=
  f ← flags p; page_from_u8 (Z.land f 255).

Definition set_header (p : Page) (no : Z) (ty : PageType) (count : Z) : Res PageError Page :=
  write_all p
    [(0, le_bytes 4 no); (4, le_bytes 4 (page_code ty)); (8, le_bytes 2 count); (10, le_bytes 2 0)].

Section checksum.
Context {X : Extern}.

Definition compute_checksum (p : Page) : Res PageError Z :=
  s ← slice p 0 (PAGE_SIZE - PAGE_TRAILER); Ok (crc32fast_hash s).
Definition stored_checksum (p : Page) : Res PageError Z := rd 4 p (PAGE_SIZE - PAGE_TRAILER).
Definition seal (p : Page) : Res PageError Page :=
  c ← compute_checksum p; wr p (PAGE_SIZE - PAGE_TRAILER) (le_bytes 4 c).
Definition verify_checksum (p : Page) : Res PageError unit :=
  stored ← stored_checksum p;
  computed ← compute_checksum p;
  if stored =? computed then Ok tt else Err (ChecksumMismatch stored computed).
End checksum.

(** ** The cell index *)
Definition cell_offset (p : Page) (i : Z) : Res PageError Z :=
  rd 2 p (PAGE_HEADER + i * CELL_INDEX_ENTRY).

(** The loop of [validate_cell_index]; [k] cells are left, [i] is the next one. *)
Fixpoint validate_cells (p : Page) (cell_span data_start : Z) (k : nat) (i prev : Z) : Res PageError unit :=
  match k with
  | O => Ok tt
  | S k' =>
      off ← rd 2 p (PAGE_HEADER + i * CELL_INDEX_ENTRY);
      if negb (off mod CELL_ALIGN =? 0) then Err (CellMisaligned i off)
      else if (off <? data_start) || (PAGE_SIZE - PAGE_TRAILER <? off + cell_span)
      then Err (CellOffsetOutOfRange i off)
      else if (0 <? i) && (off <=? prev) then Err (CellOrderBroken i)
      else validate_cells p cell_span data_start k' (i + 1) off
  end.

Definition validate_cell_index (p : Page) (expected : PageType) (cell_span : Z) : Res PageError (Z * Z) :=
  f ← flags p;
  let found := Z.land f 255 in
  if negb (found =? page_code expected) then Err (TypeMismatch (page_code expected) found)
  else
    count ← cell_count p;
    let index_end := PAGE_HEADER + count * CELL_INDEX_ENTRY in
    if PAGE_SIZE - PAGE_TRAILER <? index_end then Err (CellCountOverflow count)
    else
      let data_start := align_up index_end in
      _ ← validate_cells p cell_span data_start (Z.to_nat count) 0 0;
      Ok (count, data_start).

(** * Keys (key.rs) *)
Definition FRAGMENT_KEY_BYTES : Z := 20.
Record FragmentKey := mkFragmentKey { fk_table : Z; fk_field : Z; fk_view : Z; fk_shard : Z }.

#[export] Instance FragmentKey_eq_dec : EqDecision FragmentKey.
Proof. solve_decision. Defined.

Definition fk_typed (k : FragmentKey) : Prop :=
  0 <= fk_table k < 2 ^ 32 ∧ 0 <= fk_field k < 2 ^ 32 ∧ 0 <= fk_view k < 2 ^ 32 ∧ 0 <= fk_shard k < 2 ^ 64.

Definition fk_encode (k : FragmentKey) : list Z :=
  le_bytes 4 (fk_table k) ++ le_bytes 4 (fk_field k) ++ le_bytes 4 (fk_view k) ++ le_bytes 8 (fk_shard k).
Definition fk_decode {E} (b : list Z) : Res E FragmentKey :=
  t ← rd 4 b 0; f ← rd 4 b 4; v ← rd 4 b 8; s ← rd 8 b 12; Ok (mkFragmentKey t f v s).

(** The derived [Ord]: field by field in declaration order. *)
Definition fk_cmp (a b : FragmentKey) : comparison :=
  match fk_table a ?= fk_table b with
  | Eq =>
      match fk_field a ?= fk_field b with
      | Eq =>
          match fk_view a ?= fk_view b with
          | Eq => fk_shard a ?= fk_shard b
          | c => c
          end
      | c => c
      end
  | c => c
  end.

Definition ROOT_RECORD_BYTES : Z := 24.
Record RootRecord := mkRootRecord { rr_key : FragmentKey; rr_root : Z }.
Definition rr_encode (r : RootRecord) : list Z := fk_encode (rr_key r) ++ le_bytes 4 (rr_root r).
Definition rr_decode {E} (b : list Z) : Res E RootRecord :=
  k ← fk_decode b; r ← rd 4 b FRAGMENT_KEY_BYTES; Ok (mkRootRecord k r).

#[global] Arguments PAGE_SIZE : simpl never.
#[global] Arguments zeroed : simpl never.
#[global] Opaque zeroed.

(** * Rounding up *)
Lemma land_not7 m : 0 <= m < 2 ^ 64 → Z.land m (not64 7) = 8 * (m / 8).
Proof.
  intros Hm. transitivity (Z.ldiff m (Z.ones 3)).
  - apply Z.bits_inj'. intros i Hi. rewrite Z.land_spec, Z.ldiff_spec, testbit_not64 by done.
    change 7 with (Z.ones 3). destruct (Z.ltb_spec i 64) as [|Hge].
    + by destruct (Z.testbit (Z.ones 3) i).
    + by rewrite (word64_testbit_high m i Hm Hge).
  - rewrite Z.ldiff_ones_r, Z.shiftl_mul_pow2, Z.shiftr_div_pow2 by lia. change (2 ^ 3) with 8. lia.
Qed.

Lemma align_up_eq n : 0 <= n < 2 ^ 63 → align_up n = 8 * ((n + 7) / 8).
Proof.
  intros Hn. unfold align_up, CELL_ALIGN. replace (n + 8 - 1) with (n + 7) by lia.
  change (8 - 1) with 7. apply land_not7. lia.
Qed.

(** The least multiple of 8 that is not below. *)
Lemma align_up_spec n :
  0 <= n < 2 ^ 63 → n <= align_up n < n + 8 ∧ align_up n mod 8 = 0 ∧
  (∀ m, m mod 8 = 0 → n <= m → align_up n <= m).
Proof.
  intros Hn. rewrite align_up_eq by done.
  pose proof (Z.div_mod (n + 7) 8). pose proof (Z.mod_pos_bound (n + 7) 8).
  split_and!; [lia|lia| |].
  - rewrite Z.mul_comm. apply Z.mod_mul. lia.
  - intros m Hm Hle. pose proof (Z.div_mod m 8).
    assert ((n + 7) / 8 < m / 8 + 1); [|lia]. apply Z.div_lt_upper_bound; lia.
Qed.

(** * Sequences of writes *)
Definition disjoint_range (o n : Z) (w : Z * list Z) : Prop :=
  o + n <= fst w ∨ fst w + Z.of_nat (length (snd w)) <= o.

Definition in_page (w : Z * list Z) : Prop :=
  0 <= fst w ∧ fst w + Z.of_nat (length (snd w)) <= PAGE_SIZE.

Lemma write_all_app p ws ws' : write_all p (ws ++ ws') = (p' ← write_all p ws; write_all p' ws').
Proof.
  revert p. induction ws as [|[o bs] ws IH]; intros p; [done|]. simpl. destruct (wr p o bs); simpl; auto.
Qed.

Lemma write_all_ok p ws :
  Z.of_nat (length p) = PAGE_SIZE → Forall in_page ws →
  ∃ p', write_all p ws = Ok p' ∧ Z.of_nat (length p') = PAGE_SIZE.
Proof.
  intros Hp Hw. revert p Hp. induction Hw as [|[o bs] ws [Ho1 Ho2] Hw IH]; intros p Hp; [by exists p|].
  cbn [write_all]. simpl in Ho1, Ho2. rewrite wr_ok by lia. cbn. apply IH. by rewrite length_inserts.
Qed.

Lemma length_write_all p ws p' : write_all p ws = Ok p' → length p' = length p.
Proof.
  revert p. induction ws as [|[o bs] ws IH]; intros p H; simpl in H; inv_ok; [done|].
  rewrite (IH _ H). by eapply length_wr.
Qed.

Lemma bytes_write_all p ws p' :
  Forall byte p → Forall (λ w, Forall byte (snd w)) ws → write_all p ws = Ok p' → Forall byte p'.
Proof.
  intros Hp Hw. revert p Hp. induction Hw as [|[o bs] ws Ho Hw IH]; intros p Hp H; simpl in H; inv_ok; [done|].
  eapply IH; [|done]. by apply (bytes_wr p o bs a Hp Ho Ha).
Qed.

Lemma slice_write_all_disjoint {E} p ws p' o n :
  write_all p ws = Ok p' → Forall (disjoint_range o n) ws →
  @slice E p' o n = slice p o n.
Proof.
  intros H Hd. revert p H. induction Hd as [|[o' bs] ws Hd _ IH]; intros p H; simpl in H; inv_ok; [done|].
  rewrite (IH _ H). pose proof Ha as (?&?&->)%wr_inv.
  apply (slice_wr_disjoint p o' bs); [|done]. by rewrite wr_ok.
Qed.

(** The last write over a range is what is there. *)
Lemma slice_write_all_hit {E} p ws ws' o bs p' :
  write_all p (ws ++ (o, bs) :: ws') = Ok p' →
  Forall (disjoint_range o (Z.of_nat (length bs))) ws' →
  @slice E p' o (Z.of_nat (length bs)) = Ok bs.
Proof.
  rewrite write_all_app. intros H Hd. cbn [write_all] in H. inv_ok.
  rewrite (slice_write_all_disjoint _ _ _ _ _ H Hd).
  apply (slice_wr_same a). pose proof Ha0 as (?&?&->)%wr_inv. by rewrite wr_ok.
Qed.

(** Writes that do not overlap all read back. *)
Definition apart (w w' : Z * list Z) : Prop := disjoint_range (fst w) (Z.of_nat (length (snd w))) w'.
Definition reads (p : Page) (w : Z * list Z) : Prop :=
  ∀ E, @slice E p (fst w) (Z.of_nat (length (snd w))) = Ok (snd w).

Lemma write_all_reads p ws p' :
  write_all p ws = Ok p' → StronglySorted apart ws → Forall (reads p') ws.
Proof.
  intros H Hs. revert p H. induction Hs as [|[o bs] ws Hs IH Hd]; intros p H; constructor.
  - intros E. apply (slice_write_all_hit p [] ws o bs p' H Hd).
  - simpl in H. inv_ok. by apply (IH _ H).
Qed.

Lemma reads_preserved p p' w :
  reads p w → (∀ E, @slice E p' (fst w) (Z.of_nat (length (snd w))) = slice p (fst w) (Z.of_nat (length (snd w)))) →
  reads p' w.
Proof. intros Hr He E. by rewrite He. Qed.

Lemma reads_rd {E} p n o v :
  reads p (o, le_bytes n v) → 0 <= v < 256 ^ Z.of_nat n → @rd E n p o = Ok v.
Proof.
  intros Hr Hv. specialize (Hr E). cbn [fst snd] in Hr. rewrite length_le_bytes in Hr.
  unfold rd. rewrite Hr. cbn. by rewrite of_le_le_bytes.
Qed.

Lemma rd_slice {E} n p o s : @slice E p o (Z.of_nat n) = Ok s → @rd E n p o = Ok (of_le s).
Proof. intros H. unfold rd. by rewrite H. Qed.

Lemma length_zeroed : Z.of_nat (length zeroed) = PAGE_SIZE.
Proof. Transparent zeroed. unfold zeroed. rewrite length_replicate. done. Qed.
Lemma bytes_zeroed : Forall byte zeroed.
Proof. unfold zeroed. apply Forall_replicate. unfold byte. lia. Qed.
#[global] Opaque zeroed.

(** * The header and the trailer *)
Lemma page_code_bound t : 0 <= page_code t < 8. Proof. destruct t; simpl; lia. Qed.

Lemma page_from_u8_code t : page_from_u8 (page_code t) = Ok t. Proof. by destruct t. Qed.

Lemma land_255 v : Z.land v 255 = v mod 256.
Proof. change 255 with (Z.ones 8). by rewrite Z.land_ones. Qed.

(** What [set_header] leaves, and that it leaves the rest alone. *)
Lemma set_header_ok p no ty count :
  Z.of_nat (length p) = PAGE_SIZE → 0 <= no < 2 ^ 32 → 0 <= count < 2 ^ 16 →
  ∃ p', set_header p no ty count = Ok p' ∧ Z.of_nat (length p') = PAGE_SIZE ∧
    (Forall byte p → Forall byte p') ∧
    pgno p' = Ok no ∧ flags p' = Ok (page_code ty) ∧ cell_count p' = Ok count ∧
    (∀ o n, PAGE_HEADER <= o → @slice PageError p' o n = slice p o n).
Proof.
  intros Hp Hno Hc. unfold set_header. pose proof (page_code_bound ty).
  set (ws := [(0, le_bytes 4 no); (4, le_bytes 4 (page_code ty)); (8, le_bytes 2 count); (10, le_bytes 2 0)]).
  assert (Forall in_page ws) as Hin
    by (repeat constructor; unfold in_page, PAGE_SIZE; cbn [fst snd]; rewrite ?length_le_bytes; lia).
  destruct (write_all_ok p ws Hp Hin) as (p' & Hw & Hl). exists p'. split_and!; [done..| | | | |].
  - intros Hb. eapply bytes_write_all; [exact Hb| |exact Hw].
    repeat constructor; cbn [snd]; auto with bits.
  - unfold pgno. erewrite rd_slice; [|apply (slice_write_all_hit p [] _ 0 (le_bytes 4 no) _ Hw)].
    + by rewrite of_le_le_bytes by lia.
    + repeat constructor; unfold disjoint_range; cbn [fst snd]; rewrite ?length_le_bytes; lia.
  - unfold flags. erewrite rd_slice; [|apply (slice_write_all_hit p [(0, le_bytes 4 no)] _ 4 (le_bytes 4 (page_code ty)) _ Hw)].
    + by rewrite of_le_le_bytes by lia.
    + repeat constructor; unfold disjoint_range; cbn [fst snd]; rewrite ?length_le_bytes; lia.
  - unfold cell_count.
    erewrite rd_slice; [|apply (slice_write_all_hit p [(0, le_bytes 4 no); (4, le_bytes 4 (page_code ty))] _ 8 (le_bytes 2 count) _ Hw)].
    + by rewrite of_le_le_bytes by lia.
    + repeat constructor; unfold disjoint_range; cbn [fst snd]; rewrite ?length_le_bytes; lia.
  - intros o n Ho. unfold PAGE_HEADER in Ho. apply (slice_write_all_disjoint _ ws); [done|].
    repeat constructor; unfold disjoint_range; cbn [fst snd]; rewrite ?length_le_bytes; lia.
Qed.

(** A page whose first twelve bytes are another's has its header. *)
Lemma header_ext p p' :
  (∀ o n, 0 <= o → o + n <= PAGE_HEADER → @slice PageError p' o n = slice p o n) →
  pgno p' = pgno p ∧ flags p' = flags p ∧ cell_count p' = cell_count p.
Proof.
  unfold PAGE_HEADER. intros H. unfold pgno, flags, cell_count, rd.
  rewrite !H by (simpl; lia). done.
Qed.

Section sealing.
Context {X : Extern} {L : ExternLaws X}.

Lemma seal_ok p :
  Z.of_nat (length p) = PAGE_SIZE →
  ∃ p', seal p = Ok p' ∧ Z.of_nat (length p') = PAGE_SIZE ∧ (Forall byte p → Forall byte p') ∧
    verify_checksum p' = Ok tt ∧
    (∀ o n, o + n <= PAGE_SIZE - PAGE_TRAILER → @slice PageError p' o n = slice p o n).
Proof.
  intros Hp. unfold seal, compute_checksum, PAGE_SIZE, PAGE_TRAILER in *.
  rewrite slice_ok by lia. cbn [mbind Res_bind].
  set (c := crc32fast_hash _). pose proof (crc32_u32 (take (Z.to_nat (8192 - 4)) (drop (Z.to_nat 0) p))) as Hc.
  fold c in Hc. destruct (wr p (8192 - 4) (le_bytes 4 c)) as [p'|e|] eqn:Hw.
  2,3: by rewrite wr_ok in Hw by (rewrite ?length_le_bytes; lia).
  assert (∀ o n, o + n <= 8192 - 4 → @slice PageError p' o n = slice p o n) as Hs.
  { intros o n Hon. apply (slice_wr_disjoint _ _ _ _ _ _ Hw). lia. }
  exists p'. split_and!; [done|by rewrite (length_wr _ _ _ _ Hw)|intros Hb; apply (bytes_wr p _ _ _ Hb (bytes_le_bytes 4 c) Hw)| |done].
  unfold verify_checksum, stored_checksum, compute_checksum, PAGE_SIZE, PAGE_TRAILER.
  rewrite (rd_wr_same 4 p _ c p') by (done || lia). cbn [mbind Res_bind].
  rewrite Hs by lia. rewrite slice_ok by lia. cbn [mbind Res_bind]. fold c. by rewrite Z.eqb_refl.
Qed.
End sealing.

(** * The cell index *)
Section index.
Context (p : Page).
Hypothesis Hp : Z.of_nat (length p) = PAGE_SIZE.

Lemma rd_page {E} n o : 0 <= o → o + Z.of_nat n <= PAGE_SIZE → ∃ v, @rd E n p o = Ok v.
Proof. intros. eexists. apply rd_ok; lia. Qed.

(** What a validated index promises of its cells [i..count). *)
Definition index_ok (span start count : Z) : Prop :=
  ∀ i, 0 <= i < count → ∃ off, cell_offset p i = Ok off ∧
    off mod CELL_ALIGN = 0 ∧ start <= off ∧ off + span <= PAGE_SIZE - PAGE_TRAILER.

Lemma validate_cells_no_panic span start k i prev :
  0 <= i → PAGE_HEADER + (i + Z.of_nat k) * CELL_INDEX_ENTRY <= PAGE_SIZE - PAGE_TRAILER →
  no_panic (validate_cells p span start k i prev).
Proof.
  unfold PAGE_HEADER, CELL_INDEX_ENTRY, PAGE_TRAILER.
  revert i prev. induction k as [|k IH]; intros i prev Hi Hk; cbn [validate_cells]; [done|].
  destruct (rd_page (E:=PageError) 2 (PAGE_HEADER + i * CELL_INDEX_ENTRY)) as [off ->];
    [unfold PAGE_HEADER, CELL_INDEX_ENTRY; lia..|].
  cbn [mbind Res_bind]. repeat case_match; try done. apply IH; lia.
Qed.

Lemma validate_cells_spec span start k i prev :
  validate_cells p span start k i prev = Ok tt →
  ∀ j, i <= j < i + Z.of_nat k → ∃ off, cell_offset p j = Ok off ∧
    off mod CELL_ALIGN = 0 ∧ start <= off ∧ off + span <= PAGE_SIZE - PAGE_TRAILER.
Proof.
  revert i prev. induction k as [|k IH]; intros i prev H j Hj; [lia|].
  cbn [validate_cells] in H. apply bind_ok in H as (off & Hoff & H).
  destruct (Z.eqb_spec (off mod CELL_ALIGN) 0) as [Hal|]; [|done]. cbn [negb] in H.
  destruct ((off <? start) || _) eqn:Hr; [done|]. destruct ((0 <? i) && _); [done|].
  destruct (decide (j = i)) as [->|Hne]; [|apply (IH _ _ H); lia].
  exists off. split; [done|]. lia.
Qed.

Lemma validate_cell_index_no_panic ty span : no_panic (validate_cell_index p ty span).
Proof.
  unfold validate_cell_index, flags, cell_count.
  destruct (rd_page (E:=PageError) 4 4) as [f ->]; [unfold PAGE_SIZE; lia..|]. cbn [mbind Res_bind].
  case_match; [done|].
  destruct (rd_page (E:=PageError) 2 8) as [c Hc]; [unfold PAGE_SIZE; lia..|]. rewrite Hc. cbn [mbind Res_bind].
  destruct (Z.ltb_spec (PAGE_SIZE - PAGE_TRAILER) (PAGE_HEADER + c * CELL_INDEX_ENTRY)); [done|].
  apply no_panic_bind; [|done]. destruct (Z.le_gt_cases 0 c).
  - apply validate_cells_no_panic; [lia|]. rewrite Z2Nat.id by done. done.
  - by replace (Z.to_nat c) with 0%nat by lia.
Qed.

Lemma validate_cell_index_spec ty span count start :
  validate_cell_index p ty span = Ok (count, start) →
  flags p ≫= (λ f, Ok (Z.land f 255)) = Ok (page_code ty) ∧ cell_count p = Ok count ∧
  index_ok span start count.
Proof.
  unfold validate_cell_index. intros H. apply bind_ok in H as (f & Hf & H).
  destruct (Z.eqb_spec (Z.land f 255) (page_code ty)) as [Hty|]; [|done]. cbn [negb] in H.
  apply bind_ok in H as (c & Hc & H). case_match; [done|].
  apply bind_ok in H as ([] & Hv & H). injection H as -> <-. rewrite Hf. split_and!; [cbn; by rewrite Hty|done|].
  intros i Hi. apply (validate_cells_spec _ _ _ _ _ Hv). lia.
Qed.

(** The converse: an index whose offsets are aligned, in range and increasing is accepted. *)
Lemma validate_cells_accepts span start k i prev (offs : Z → Z) :
  (∀ j, i <= j < i + Z.of_nat k → cell_offset p j = Ok (offs j) ∧ offs j mod CELL_ALIGN = 0 ∧
     start <= offs j ∧ offs j + span <= PAGE_SIZE - PAGE_TRAILER) →
  (∀ j, i < j < i + Z.of_nat k → offs (j - 1) < offs j) →
  (0 < i → (0 < k)%nat → prev < offs i) →
  validate_cells p span start k i prev = Ok tt.
Proof.
  revert i prev. induction k as [|k IH]; intros i prev Hj Hinc Hprev; [done|]. cbn [validate_cells].
  destruct (Hj i) as (Hoff & Hal & Hlo & Hhi); [lia|]. unfold cell_offset in Hoff. rewrite Hoff. cbn [mbind Res_bind].
  rewrite Hal. cbn [Z.eqb negb]. rewrite (proj2 (Z.ltb_ge _ _) Hlo), (proj2 (Z.ltb_ge _ _) Hhi). cbn [orb].
  assert ((0 <? i) && (offs i <=? prev) = false) as ->.
  { destruct (Z.ltb_spec 0 i); [|done]. specialize (Hprev ltac:(lia) ltac:(lia)). simpl. lia. }
  apply IH.
  - intros j ?. apply Hj. lia.
  - intros j ?. apply Hinc. lia.
  - intros _ ?. specialize (Hinc (i + 1)). replace (i + 1 - 1) with i in Hinc by lia. apply Hinc. lia.
Qed.
End index.

(** * Keys *)
Lemma slice_app_l {E} a b n : Z.of_nat (length a) = n → @slice E (a ++ b) 0 n = Ok a.
Proof.
  intros <-. rewrite slice_ok by (rewrite ?length_app; lia). rewrite Nat2Z.id. change (Z.to_nat 0) with 0%nat. by rewrite drop_0, take_app_length.
Qed.

Lemma slice_app_r {E} a b o n :
  Z.of_nat (length a) <= o → @slice E (a ++ b) o n = slice b (o - Z.of_nat (length a)) n.
Proof.
  intros Ho. unfold slice. rewrite length_app.
  replace (0 <=? o) with true by lia. replace (0 <=? o - Z.of_nat (length a)) with true by lia.
  replace (o + n <=? Z.of_nat (length a + length b)) with (o - Z.of_nat (length a) + n <=? Z.of_nat (length b)) by lia.
  destruct (_ && _ && _); [|done]. do 2 f_equal. rewrite drop_app_ge by lia. f_equal. lia.
Qed.

(** Reading a field out of a packed record: skip the fields before it, stop after it. *)
Lemma rd_field_here {E} n v rest : 0 <= v < 256 ^ Z.of_nat n → @rd E n (le_bytes n v ++ rest) 0 = Ok v.
Proof.
  intros Hv. erewrite rd_slice; [|apply slice_app_l; by rewrite length_le_bytes].
  by rewrite of_le_le_bytes.
Qed.
Lemma rd_field_skip {E} n m v rest o :
  Z.of_nat m <= o → @rd E n (le_bytes m v ++ rest) o = rd n rest (o - Z.of_nat m).
Proof. intros Ho. unfold rd. rewrite slice_app_r by (by rewrite length_le_bytes). by rewrite length_le_bytes. Qed.

Ltac rd_fields :=
  repeat (first [rewrite rd_field_here by lia | rewrite rd_field_skip by lia];
          cbn [mbind Res_bind]).

Lemma fk_decode_app {E} k rest : fk_typed k → fk_decode (E:=E) (fk_encode k ++ rest) = Ok k.
Proof.
  destruct k as [t f v s]. intros (?&?&?&?). cbn [fk_table fk_field fk_view fk_shard] in *.
  unfold fk_decode, fk_encode. cbn [fk_table fk_field fk_view fk_shard]. rewrite <-!app_assoc.
  by rd_fields.
Qed.

Lemma length_fk_encode k : length (fk_encode k) = 20%nat.
Proof. unfold fk_encode. by rewrite !length_app, !length_le_bytes. Qed.

Lemma rr_decode_encode_record {E} r :
  fk_typed (rr_key r) → 0 <= rr_root r < 2 ^ 32 → rr_decode (E:=E) (rr_encode r) = Ok r.
Proof.
  destruct r as [k r]. cbn [rr_key rr_root]. intros Hk Hr. unfold rr_decode, rr_encode. cbn [rr_key rr_root].
  rewrite fk_decode_app by done. cbn [mbind Res_bind]. unfold rd.
  rewrite slice_app_r by (rewrite length_fk_encode; done). rewrite length_fk_encode.
  fold (@rd E 4 (le_bytes 4 r) (FRAGMENT_KEY_BYTES - Z.of_nat 20)).
  rewrite <-(app_nil_r (le_bytes 4 r)).
  by rewrite rd_field_here by lia.
Qed.
