(* ===== verification/Sample.v ===== *)
(** A concrete choice of the code the model takes from outside, for the examples: any 32-bit
    checksum will do where a crc is asked for, and the casts do what their documentation says.
    That [ExternLaws] has an instance is what makes the theorems that assume it say something. *)
From S2P Require Import Prelude Bits Container Page.

Definition sample_hash (bs : list Z) : Z := foldl Z.add 1 bs mod 2 ^ 32.
Definition whole (start align size : Z) (bs : list Z) : bool :=
  (start mod align =? 0) && (Z.of_nat (length bs) mod size =? 0).

Definition sample : Extern := {|
  crc32fast_hash := sample_hash;
  try_cast_u16 start bs := if whole start 2 2 bs then Some (le_elems 2 bs) else None;
  try_cast_interval start bs := if whole start 2 4 bs then Some (le_interval <$> chunked 4 bs) else None;
  try_cast_u64 start bs := if whole start 8 8 bs then Some (le_elems 8 bs) else None;
  cast_u16 l := concat (le_bytes 2 <$> l);
  cast_interval l := concat ((λ i, le_bytes 2 (iv_start i) ++ le_bytes 2 (iv_last i)) <$> l);
  cast_u64 l := concat (le_bytes 8 <$> l)
|}.

Lemma whole_true start align size bs :
  start mod align = 0 → Z.of_nat (length bs) mod size = 0 → whole start align size bs = true.
Proof. unfold whole. intros -> ->. done. Qed.

Lemma sample_laws : ExternLaws sample.
Proof.
  split; cbn [sample crc32fast_hash try_cast_u16 try_cast_interval try_cast_u64 cast_u16 cast_interval cast_u64];
    try done; try (intros start bs Hs Hl; by rewrite whole_true).
  intros bs. apply Z.mod_pos_bound. lia.
Qed.

(** The fields of a sum that a bounded computation returned. *)
Lemma is_ok_inv {E A} (r : Res E A) : is_ok r = true → ∃ a, r = Ok a.
Proof. destruct r; [by eexists|done..]. Qed.
