(* ===== verification/Leaf.v ===== *)
(** Leaf pages: a cell index, then cells of a 24-byte header and a payload at a multiple of eight
    (crates/big-page/src/leaf.rs). *)
From S2P Require Import Prelude Bits Search Container Delta Page.

(** Field offsets inside the cell header ([mod off]). *)
Definition OFF_KEY : Z := 0.
Definition OFF_TYPE : Z := 8.
Definition OFF_ELEM_N : Z := 10.
Definition OFF_CARDINALITY : Z := 12.
Definition OFF_BITMAP_CRC : Z := 16.
Definition OFF_BITMAP_PGNO : Z := 20.

Record LeafPage := mkLeafPage { lp_page : Page; lp_count : Z }.

(** [lc_at] is where on the page the payload starts: all that a cast of it looks at besides its
    bytes. *)
Record LeafCell := mkLeafCell {
  lc_key : Z; lc_ty : ContainerType; lc_elem_n : Z; lc_cardinality : Z;
  lc_bitmap_checksum : Z; lc_bitmap_pgno : Z; lc_at : Z; lc_payload : list Z }.

Definition leaf_parse (p : Page) : Res PageError LeafPage :=
  '(count, _) ← validate_cell_index p PLeaf LEAF_CELL_HEADER; Ok (mkLeafPage p count).

Definition leaf_is_empty (l : LeafPage) : bool := lp_count l =? 0.

Definition key_at (l : LeafPage) (i : Z) : Res PageError (option Z) :=
  if i <? lp_count l then
    o ← cell_offset (lp_page l) i;
    k ← rd 8 (lp_page l) (o + OFF_KEY);
    Ok (Some k)
  else Ok None.

(** The loop of [search] over [lo..hi]; each round at least halves the range, so its length is
    enough fuel. *)
Fixpoint search_loop (fuel : nat) (l : LeafPage) (ckey : Z) (lo hi : nat) : Res PageError Found :=
  match fuel with
  | O => Ok (Miss lo)
  | S fuel' =>
      if (lo <? hi)%nat then
        let mid := ((lo + hi) / 2)%nat in
        k ← key_at l (Z.of_nat mid);
        k ← unwrap k;
        match k ?= ckey with
        | Lt => search_loop fuel' l ckey (mid + 1) hi
        | Gt => search_loop fuel' l ckey lo mid
        | Eq => Ok (Hit mid)
        end
      else Ok (Miss lo)
  end.
Definition search (l : LeafPage) (ckey : Z) : Res PageError Found :=
  search_loop (S (Z.to_nat (lp_count l))) l ckey 0 (Z.to_nat (lp_count l)).

Definition payload_len (ty : ContainerType) (elem_n : Z) : Z :=
  match ty with
  | TArray => elem_n * 2
  | TRun => elem_n * 4
  | TBitmapPtr => 0
  | TBitmapDelta => elem_n * DELTA_ENTRY_BYTES
  | TValuesInline | TValuesPtr => elem_n
  end.

Definition cell (l : LeafPage) (i : Z) : Res PageError LeafCell :=
  if lp_count l <=? i then Err (CellOffsetOutOfRange i 0)
  else
    let b := lp_page l in
    base ← cell_offset b i;
    raw_type ← rd 2 b (base + OFF_TYPE);
    ty ← ok_or (from_u16 raw_type) (UnknownContainerType raw_type);
    elem_n ← rd 2 b (base + OFF_ELEM_N);
    let start := base + LEAF_CELL_HEADER in
    let stop := start + payload_len ty elem_n in
    if PAGE_SIZE - PAGE_TRAILER <? stop then Err (PayloadOutOfRange i)
    else
      key ← rd 8 b base;
      card ← rd 4 b (base + OFF_CARDINALITY);
      crc ← rd 4 b (base + OFF_BITMAP_CRC);
      no ← rd 4 b (base + OFF_BITMAP_PGNO);
      payload ← slice b start (stop - start);
      Ok (mkLeafCell key ty elem_n card crc no start payload).

(** [0..count] as the iterators walk it. *)
Definition indices (count : Z) : list Z := seqZ 0 count.

(** [iter().collect::<Result<Vec<_>, _>>()]. *)
Definition leaf_cells (l : LeafPage) : Res PageError (list LeafCell) :=
  res_mapM (cell l) (indices (lp_count l)).

Definition total_cardinality (l : LeafPage) : Res PageError Z :=
  foldl (λ acc i, sum ← acc; c ← cell l i; Ok (sum + lc_cardinality c)) (Ok 0) (indices (lp_count l)).

(** * A cell as a container *)
Section cells.
Context {X : Extern}.

Definition base_words (p : Page) : Res PageError (list Z) :=
  words ← ok_or (try_cast_u64 0 p) Misaligned;
  if Z.of_nat (length words) =? BITMAP_WORDS then Ok words else Err Misaligned.

Definition bitmap_container (p : Page) : Res PageError Container :=
  words ← ok_or (try_cast_u64 0 p) Misaligned;
  if Z.of_nat (length words) =? BITMAP_WORDS then Ok (Bitmap words) else Err Misaligned.

Definition bitmap_page_checksum (p : Page) : Z := crc32fast_hash p.

Definition build_bitmap_page (words : list Z) : Page := cast_u64 words.

Definition has_base (c : LeafCell) : bool := owns_page (lc_ty c).

Definition verify_base (c : LeafCell) (p : Page) : Res PageError unit :=
  let computed := bitmap_page_checksum p in
  if negb (computed =? lc_bitmap_checksum c)
  then Err (ChecksumMismatch (lc_bitmap_checksum c) computed) else Ok tt.

(** [LeafCell::delta]. *)
Definition cell_delta (c : LeafCell) : Res PageError (list DeltaEntry) :=
  if negb (bool_decide (lc_ty c = TBitmapDelta)) then Ok []
  else ok_or (decode (lc_payload c)) (PayloadOutOfRange 0).

(** [LeafCell::container]. *)
Definition container (c : LeafCell) : Res PageError (option Container) :=
  match lc_ty c with
  | TArray => a ← ok_or (try_cast_u16 (lc_at c) (lc_payload c)) Misaligned; Ok (Some (Array a))
  | TRun => r ← ok_or (try_cast_interval (lc_at c) (lc_payload c)) Misaligned; Ok (Some (Run r))
  | TBitmapPtr | TBitmapDelta => Ok None
  | TValuesInline | TValuesPtr => Err (NotAContainer (type_code (lc_ty c)))
  end.

Definition cell_bitmap (c : LeafCell) (p : Page) : Res PageError Container :=
  if negb (bool_decide (lc_ty c = TBitmapPtr)) then Err (UnknownContainerType (type_code (lc_ty c)))
  else _ ← verify_base c p; bitmap_container p.

Definition bitmap_checked (c : LeafCell) (p : Page) : Res PageError Container :=
  if negb (bool_decide (lc_ty c = TBitmapPtr)) then Err (UnknownContainerType (type_code (lc_ty c)))
  else bitmap_container p.

Definition checksum_error (c : LeafCell) (p : Page) : PageError :=
  ChecksumMismatch (lc_bitmap_checksum c) (bitmap_page_checksum p).

Definition resolve_checked (c : LeafCell) (p : option Page) : Res PageError Container :=
  match lc_ty c with
  | TArray | TRun => o ← container c; unwrap o
  | TBitmapPtr =>
      p ← ok_or p (UnknownContainerType (type_code (lc_ty c)));
      bitmap_container p
  | TBitmapDelta =>
      p ← ok_or p (UnknownContainerType (type_code (lc_ty c)));
      words ← base_words p;
      d ← cell_delta c;
      Ok (Bitmap (delta_apply words d))
  | TValuesInline | TValuesPtr => Err (NotAContainer (type_code (lc_ty c)))
  end.

(** [if let (Some(page), true) = (page, self.has_base()) { self.verify_base(page)? }]. *)
Definition verify_if_based (c : LeafCell) (p : option Page) : Res PageError unit :=
  match p with
  | Some p => if has_base c then verify_base c p else Ok tt
  | None => Ok tt
  end.

Definition resolve (c : LeafCell) (p : option Page) : Res PageError Container :=
  _ ← verify_if_based c p; resolve_checked c p.

Definition contains_checked (c : LeafCell) (p : option Page) (offset : Z) : Res PageError bool :=
  match lc_ty c with
  | TArray | TRun => o ← container c; k ← unwrap o; Ok (contains k offset)
  | TBitmapPtr =>
      p ← ok_or p (UnknownContainerType (type_code (lc_ty c)));
      k ← bitmap_container p; Ok (contains k offset)
  | TBitmapDelta =>
      p ← ok_or p (UnknownContainerType (type_code (lc_ty c)));
      words ← base_words p;
      d ← cell_delta c;
      Ok (delta_contains words d offset)
  | TValuesInline | TValuesPtr => Err (NotAContainer (type_code (lc_ty c)))
  end.

Definition cell_contains (c : LeafCell) (p : option Page) (offset : Z) : Res PageError bool :=
  _ ← verify_if_based c p; contains_checked c p offset.
End cells.

(** * Building *)
Record StagedCell := mkStagedCell {
  sc_key : Z; sc_ty : ContainerType; sc_elem_n : Z; sc_cardinality : Z;
  sc_bitmap_checksum : Z; sc_bitmap_pgno : Z; sc_payload : list Z }.

Record LeafBuilder := mkLeafBuilder { lb_cells : list StagedCell; lb_payload_bytes : Z }.

Definition leaf_new : LeafBuilder := mkLeafBuilder [] 0.

Definition zlen {A} (l : list A) : Z := Z.of_nat (length l).

Definition leaf_fits (b : LeafBuilder) (extra_payload : Z) : bool :=
  let index := align_up (PAGE_HEADER + (zlen (lb_cells b) + 1) * CELL_INDEX_ENTRY) in
  let body := lb_payload_bytes b + LEAF_CELL_HEADER + extra_payload in
  index + body <=? PAGE_SIZE - PAGE_TRAILER.

Definition leaf_push (b : LeafBuilder) (c : StagedCell) : option LeafBuilder :=
  if negb (leaf_fits b (zlen (sc_payload c))) then None
  else Some (mkLeafBuilder (lb_cells b ++ [c])
               (lb_payload_bytes b + align_up (LEAF_CELL_HEADER + zlen (sc_payload c)))).

Section push.
Context {X : Extern}.

Definition push_container (b : LeafBuilder) (key : Z) (c : Container) : option LeafBuilder :=
  match c with
  | Array a =>
      leaf_push b (mkStagedCell key TArray (zlen a mod 2 ^ 16) (cardinality c) 0 0 (cast_u16 a))
  | Run r =>
      leaf_push b (mkStagedCell key TRun (zlen r mod 2 ^ 16) (cardinality c) 0 0 (cast_interval r))
  | Bitmap _ => None
  end.

Definition push_bitmap_ptr (b : LeafBuilder) (key card no crc : Z) : option LeafBuilder :=
  leaf_push b (mkStagedCell key TBitmapPtr 0 card crc no []).

Definition push_dense (b : LeafBuilder) (key no : Z) (p : Page) : option LeafBuilder :=
  match bitmap_container p with
  | Ok c => push_bitmap_ptr b key (cardinality c) no (bitmap_page_checksum p)
  | _ => None
  end.

(** One round of the loop of [finish]. *)
Definition cell_writes (i cursor : Z) (c : StagedCell) : list (Z * list Z) :=
  [ (cursor, le_bytes 8 (sc_key c));
    (cursor + OFF_TYPE, le_bytes 2 (type_code (sc_ty c)));
    (cursor + OFF_ELEM_N, le_bytes 2 (sc_elem_n c));
    (cursor + OFF_CARDINALITY, le_bytes 4 (sc_cardinality c));
    (cursor + OFF_BITMAP_CRC, le_bytes 4 (sc_bitmap_checksum c));
    (cursor + OFF_BITMAP_PGNO, le_bytes 4 (sc_bitmap_pgno c));
    (cursor + LEAF_CELL_HEADER, sc_payload c);
    (PAGE_HEADER + i * CELL_INDEX_ENTRY, le_bytes 2 (cursor mod 2 ^ 16)) ].

Fixpoint finish_cells (p : Page) (i cursor : Z) (cells : list StagedCell) : Res PageError Page :=
  match cells with
  | [] => Ok p
  | c :: rest =>
      p' ← write_all p (cell_writes i cursor c);
      finish_cells p' (i + 1) (align_up (cursor + LEAF_CELL_HEADER + zlen (sc_payload c))) rest
  end.

Definition leaf_finish (b : LeafBuilder) (no : Z) : Res PageError Page :=
  let count := zlen (lb_cells b) in
  p ← set_header zeroed no PLeaf (count mod 2 ^ 16);
  p ← finish_cells p 0 (align_up (PAGE_HEADER + count * CELL_INDEX_ENTRY)) (lb_cells b);
  seal p.
End push.

(** * Arbitrary bytes: parsing returns a value or an error, never a panic *)
Lemma leaf_parse_no_panic p : page_ok p → no_panic (leaf_parse p).
Proof.
  intros [Hl _]. unfold leaf_parse. apply no_panic_bind; [by apply validate_cell_index_no_panic|].
  by intros [] _.
Qed.

Lemma leaf_parse_page p l : leaf_parse p = Ok l → lp_page l = p.
Proof. unfold leaf_parse. intros H. by apply bind_ok in H as ([] & _ & [= <-]). Qed.

Section total.
Context (p : Page) (l : LeafPage).
Hypothesis (Hok : page_ok p) (Hparse : leaf_parse p = Ok l).

Lemma parsed_cell i :
  0 <= i < lp_count l → ∃ off, cell_offset p i = Ok off ∧
    0 <= off ∧ off mod 8 = 0 ∧ off + LEAF_CELL_HEADER <= PAGE_SIZE - PAGE_TRAILER.
Proof.
  intros Hi. unfold leaf_parse in Hparse. apply bind_ok in Hparse as ([count start] & Hv & Heq).
  apply validate_cell_index_spec in Hv as (_ & _ & Hx). injection Heq as <-.
  destruct (Hx i Hi) as (off & Hoff & Hal & _ & Hhi). exists off. split_and!; [done| |done|done].
  eapply rd_bound in Hoff; [lia|apply Hok].
Qed.

Lemma key_at_total i : 0 <= i → ∃ o, key_at l i = Ok o ∧ (i < lp_count l → is_Some o).
Proof.
  intros Hi. unfold key_at. rewrite (leaf_parse_page _ _ Hparse). destruct (Z.ltb_spec i (lp_count l)).
  - destruct (parsed_cell i) as (off & -> & Hoff & _ & Hhi); [lia|]. cbn [mbind Res_bind].
    destruct Hok as [Hl _]. unfold OFF_KEY, LEAF_CELL_HEADER, PAGE_TRAILER in *.
    rewrite rd_ok by lia. cbn. eexists. split; [done|]. eauto.
  - eexists. split; [done|]. lia.
Qed.

(** The loop is a bisection over the keys. *)
Definition leaf_keys (i : nat) : Z :=
  match key_at l (Z.of_nat i) with Ok (Some k) => k | _ => 0 end.

Lemma search_loop_bisect ckey fuel lo hi :
  (hi <= Z.to_nat (lp_count l))%nat →
  search_loop fuel l ckey lo hi = Ok (bisect (λ i, leaf_keys i ?= ckey) fuel lo hi).
Proof.
  revert lo hi. induction fuel as [|fuel IH]; intros lo hi Hhi; cbn [search_loop bisect]; [done|].
  destruct (Nat.ltb_spec lo hi) as [Hlt|]; [|done].
  assert ((lo + hi) / 2 < hi)%nat as Hmid by (apply Nat.Div0.div_lt_upper_bound; lia).
  generalize dependent ((lo + hi) / 2)%nat. intros mid Hmid. unfold leaf_keys at 1.
  destruct (key_at_total (Z.of_nat mid)) as (o & -> & Ho); [lia|].
  destruct Ho as [k ->]; [lia|]. cbn [mbind Res_bind unwrap].
  destruct (k ?= ckey); [done|rewrite Nat.add_1_r; apply IH; lia|apply IH; lia].
Qed.

Lemma search_bisect ckey :
  search l ckey = Ok (bisect (λ i, leaf_keys i ?= ckey) (S (Z.to_nat (lp_count l))) 0 (Z.to_nat (lp_count l))).
Proof. unfold search. by apply search_loop_bisect. Qed.

Lemma cell_no_panic i : 0 <= i → no_panic (cell l i).
Proof.
  intros Hi. unfold cell. rewrite (leaf_parse_page _ _ Hparse).
  destruct (Z.leb_spec (lp_count l) i); [done|].
  destruct (parsed_cell i) as (off & -> & Hoff & _ & Hhi); [lia|]. cbn [mbind Res_bind].
  destruct Hok as [Hl Hb]. unfold OFF_TYPE, OFF_ELEM_N, OFF_CARDINALITY, OFF_BITMAP_CRC, OFF_BITMAP_PGNO,
    LEAF_CELL_HEADER, PAGE_TRAILER in *.
  rewrite (rd_ok 2 p (off + 8)) by lia. cbn [mbind Res_bind].
  apply no_panic_bind; [by unfold ok_or; case_match|]. intros ty _.
  pose proof (rd_ok (E:=PageError) 2 p (off + 10) ltac:(lia) ltac:(lia)) as He. rewrite He. cbn [mbind Res_bind].
  pose proof (rd_bound _ _ _ _ Hb He) as Hn.
  destruct (Z.ltb_spec (PAGE_SIZE - 4) (off + 24 + payload_len ty (of_le (take 2 (drop (Z.to_nat (off + 10)) p))))); [done|].
  rewrite !rd_ok by lia. cbn [mbind Res_bind]. rewrite slice_ok; [done|lia| |unfold PAGE_SIZE in *; lia].
  unfold payload_len, DELTA_ENTRY_BYTES. destruct ty; lia.
Qed.

(** What a cell that parses looks like, whatever the bytes. *)
Lemma cell_inv i c :
  0 <= i → cell l i = Ok c →
  i < lp_count l ∧ lc_at c mod 8 = 0 ∧ zlen (lc_payload c) = payload_len (lc_ty c) (lc_elem_n c) ∧
  0 <= lc_elem_n c < 2 ^ 16 ∧ Forall byte (lc_payload c).
Proof.
  intros Hi. unfold cell. rewrite (leaf_parse_page _ _ Hparse).
  destruct (Z.leb_spec (lp_count l) i); [done|]. intros H0.
  destruct (parsed_cell i) as (off & Hoff & Hge & Hal & Hhi); [lia|]. rewrite Hoff in H0. cbn [mbind Res_bind] in H0.
  apply bind_ok in H0 as (raw & _ & H0). apply bind_ok in H0 as (ty & _ & H0).
  apply bind_ok in H0 as (n & Hn & H0). case_match; [done|].
  do 4 (apply bind_ok in H0 as (? & _ & H0)). apply bind_ok in H0 as (pl & Hpl & H0).
  injection H0 as <-. cbn [lc_at lc_payload lc_ty lc_elem_n]. destruct Hok as [_ Hb].
  apply rd_bound in Hn; [|done]. split_and!; [lia| |unfold zlen; rewrite (length_slice _ _ _ _ Hpl); lia|lia..|by eapply bytes_slice].
  unfold LEAF_CELL_HEADER. rewrite Zplus_mod, Hal. done.
Qed.
End total.

(** * The container a parsed cell stands for *)
Section containers.
Context {X : Extern} {L : ExternLaws X}.

Lemma length_pieces k n bs : length (pieces k n bs) = k.
Proof. revert bs. induction k; intros; simpl; auto. Qed.

Lemma page_words p : page_ok p → ∃ words, base_words p = Ok words ∧ bitmap_container p = Ok (Bitmap words) ∧ wf (Bitmap words).
Proof.
  intros [Hl Hb]. exists (le_elems 8 p). unfold base_words, bitmap_container.
  rewrite try_cast_u64_ok by (done || by rewrite Hl). cbn [mbind Res_bind ok_or].
  assert (length (le_elems 8 p) = 1024%nat) as Hlen.
  { unfold le_elems, chunked. rewrite length_fmap, length_pieces.
    replace (length p) with (8 * 1024)%nat by (unfold PAGE_SIZE in Hl; lia). by rewrite Nat.mul_comm, Nat.div_mul. }
  rewrite Hlen. split_and!; [done..|]. apply wf_bitmap. rewrite Hlen. split; [done|].
  unfold le_elems, chunked. generalize (length p / 8)%nat. intros k. clear Hl Hlen.
  revert p Hb. induction k as [|k IH]; intros p Hb; [constructor|]. cbn [pieces fmap list_fmap].
  constructor; [|by apply IH, Forall_drop].
  assert (Forall byte (take 8 p)) as Ht by by apply Forall_take.
  apply of_le_bound in Ht. rewrite length_take in Ht.
  assert (256 ^ Z.of_nat (8 `min` length p) <= 256 ^ 8) by (apply Z.pow_le_mono_r; lia).
  unfold word64. lia.
Qed.

(** Alignment is not an error a parsed cell can run into. *)
Lemma container_parsed p l i c :
  page_ok p → leaf_parse p = Ok l → 0 <= i → cell l i = Ok c → is_values (lc_ty c) = false →
  ∃ o, container c = Ok o ∧ (owns_page (lc_ty c) = false ↔ is_Some o).
Proof.
  intros Hp Hl Hi Hc Hv. destruct (cell_inv p l Hp Hl i c Hi Hc) as (_ & Hal & Hlen & _ & _).
  unfold container. unfold zlen in Hlen.
  assert (lc_at c mod 2 = 0).
  { rewrite (Z.div_mod (lc_at c) 8) by lia. rewrite Hal, Z.add_0_r.
    replace (8 * (lc_at c / 8)) with ((4 * (lc_at c / 8)) * 2) by lia. apply Z.mod_mul. lia. }
  destruct (lc_ty c); try done; cbn [payload_len] in Hlen.
  - rewrite try_cast_u16_ok; [|done|rewrite Hlen; apply Z.mod_mul; lia]. cbn. eexists. split; [done|]. naive_solver.
  - rewrite try_cast_interval_ok; [|done|rewrite Hlen; apply Z.mod_mul; lia]. cbn. eexists. split; [done|]. naive_solver.
  - eexists. split; [done|]. split; [done|]. by intros [].
  - eexists. split; [done|]. split; [done|]. by intros [].
Qed.

(** A point read agrees with materialising the container and asking it. *)
Lemma contains_checked_resolve c p k offset d :
  resolve_checked c p = Ok k → u16 offset → (∀ q, p = Some q → page_ok q) →
  cell_delta c = Ok d → delta_ok d →
  contains_checked c p offset = Ok (contains k offset).
Proof.
  intros Hr Ho Hp Hd Hdok. unfold resolve_checked in Hr. unfold contains_checked.
  destruct (lc_ty c) eqn:Hty; try done.
  - inv_ok. destruct a as [k'|]; [|done]. simpl in Hr. injection Hr as ->. by rewrite Ha.
  - inv_ok. destruct a as [k'|]; [|done]. simpl in Hr. injection Hr as ->. by rewrite Ha.
  - destruct p as [q|]; [|done]. cbn [ok_or mbind Res_bind] in *. by rewrite Hr.
  - destruct p as [q|]; [|done]. cbn [ok_or mbind Res_bind] in *.
    destruct (page_words q (Hp q eq_refl)) as (words & Hw & _ & Hwf). rewrite Hw, Hd in *.
    cbn [mbind Res_bind] in *. injection Hr as <-. cbn [contains]. by rewrite delta_contains_apply.
Qed.
End containers.

(** * Building and parsing back *)

(** What the fields' types guarantee, and the one thing [push] trusts its caller for: that
    [elem_n] describes the payload. *)
Definition staged_ok (c : StagedCell) : Prop :=
  0 <= sc_key c < 2 ^ 64 ∧ 0 <= sc_elem_n c < 2 ^ 16 ∧ 0 <= sc_cardinality c < 2 ^ 32 ∧
  0 <= sc_bitmap_checksum c < 2 ^ 32 ∧ 0 <= sc_bitmap_pgno c < 2 ^ 32 ∧ Forall byte (sc_payload c) ∧
  zlen (sc_payload c) = payload_len (sc_ty c) (sc_elem_n c).

(** The cell a staged cell is read back as. *)
Definition staged_cell (c : StagedCell) (start : Z) : LeafCell :=
  mkLeafCell (sc_key c) (sc_ty c) (sc_elem_n c) (sc_cardinality c) (sc_bitmap_checksum c)
    (sc_bitmap_pgno c) start (sc_payload c).

Definition cell_size (c : StagedCell) : Z := LEAF_CELL_HEADER + zlen (sc_payload c).

(** Every cell ends before the trailer when they are laid out from [cursor] on. *)
Fixpoint laid_out (cursor : Z) (cells : list StagedCell) : Prop :=
  match cells with
  | [] => True
  | c :: rest =>
      cursor + cell_size c <= PAGE_SIZE - PAGE_TRAILER ∧ laid_out (align_up (cursor + cell_size c)) rest
  end.

(** Where each cell goes. *)
Fixpoint cursors (cursor : Z) (cells : list StagedCell) : list Z :=
  match cells with
  | [] => []
  | c :: rest => cursor :: cursors (align_up (cursor + cell_size c)) rest
  end.

Definition body_bytes (cells : list StagedCell) : Z := foldr (λ c n, align_up (cell_size c) + n) 0 cells.

Lemma zlen_nonneg {A} (l : list A) : 0 <= zlen l. Proof. unfold zlen. lia. Qed.

Lemma cell_size_pos c : 24 <= cell_size c.
Proof. unfold cell_size, LEAF_CELL_HEADER. pose proof (zlen_nonneg (sc_payload c)). lia. Qed.

Lemma align_up_add a b : a mod 8 = 0 → 0 <= a → 0 <= b → a + b < 2 ^ 63 → align_up (a + b) = a + align_up b.
Proof.
  intros Ha Ha0 Hb Hab. rewrite !align_up_eq by lia. pose proof (Z.div_mod a 8).
  replace (a + b + 7) with ((a / 8) * 8 + (b + 7)) by lia. rewrite Z.div_add_l by lia. lia.
Qed.

Lemma align_up_size c : cell_size c <= PAGE_SIZE → cell_size c <= align_up (cell_size c) ∧ align_up (cell_size c) mod 8 = 0.
Proof.
  unfold PAGE_SIZE. intros H. pose proof (cell_size_pos c).
  pose proof (align_up_spec (cell_size c) ltac:(lia)). tauto.
Qed.

Lemma laid_out_snoc cursor cells c :
  Forall (λ d, cell_size d <= PAGE_SIZE) cells → cursor mod 8 = 0 → 0 <= cursor →
  cursor + body_bytes cells + cell_size c <= PAGE_SIZE - PAGE_TRAILER →
  laid_out cursor (cells ++ [c]).
Proof.
  intros Hsz. revert cursor. induction Hsz as [|d cells Hd Hsz IH]; intros cursor Hal H0 Hle; cbn in *.
  - split; [lia|done].
  - fold (body_bytes cells) in Hle. pose proof (cell_size_pos d). pose proof (cell_size_pos c).
    assert (0 <= body_bytes cells) as Hbb.
    { clear -Hsz. induction Hsz as [|x cells Hx Hsz IH]; cbn; [lia|]. fold (body_bytes cells).
      pose proof (cell_size_pos x). pose proof (align_up_size x Hx). lia. }
    destruct (align_up_size d Hd) as [Hr Hm]. unfold PAGE_SIZE, PAGE_TRAILER in *.
    rewrite align_up_add by lia. split; [lia|].
    apply IH; [rewrite Zplus_mod, Hal, Hm; done|lia|lia].
Qed.

Definition data_start (n : Z) : Z := align_up (PAGE_HEADER + n * CELL_INDEX_ENTRY).

(** The builder's invariant: what has been pushed fits, wherever the index will end. *)
Record builder_ok (b : LeafBuilder) : Prop := {
  bo_bytes : lb_payload_bytes b = body_bytes (lb_cells b);
  bo_size : Forall (λ c, cell_size c <= PAGE_SIZE) (lb_cells b);
  bo_count : data_start (zlen (lb_cells b)) <= PAGE_SIZE - PAGE_TRAILER ∧ zlen (lb_cells b) < 2 ^ 16;
  bo_fits : laid_out (data_start (zlen (lb_cells b))) (lb_cells b)
}.

Lemma body_bytes_snoc cells c : body_bytes (cells ++ [c]) = body_bytes cells + align_up (cell_size c).
Proof. unfold body_bytes. induction cells as [|d cells IH]; cbn in *; [lia|]. rewrite IH. lia. Qed.

Lemma builder_ok_new : builder_ok leaf_new.
Proof. by constructor. Qed.

Lemma body_bytes_nonneg cells : Forall (λ c, cell_size c <= PAGE_SIZE) cells → 0 <= body_bytes cells.
Proof.
  induction 1 as [|x cells Hx Hsz IH]; cbn; [lia|]. fold (body_bytes cells).
  pose proof (cell_size_pos x). pose proof (align_up_size x Hx). lia.
Qed.

Lemma data_start_spec n : 0 <= n < 2 ^ 32 → 12 + 2 * n <= data_start n < 12 + 2 * n + 8 ∧ data_start n mod 8 = 0.
Proof.
  intros Hn. unfold data_start, PAGE_HEADER, CELL_INDEX_ENTRY.
  pose proof (align_up_spec (12 + n * 2) ltac:(lia)). split; [lia|tauto].
Qed.

Lemma leaf_push_ok b c b' :
  builder_ok b → leaf_push b c = Some b' → builder_ok b' ∧ lb_cells b' = lb_cells b ++ [c].
Proof.
  intros [Hby Hsz [_ Hc] Hf]. unfold leaf_push, leaf_fits. intros H.
  destruct (Z.leb_spec (data_start (zlen (lb_cells b) + 1) +
    (lb_payload_bytes b + LEAF_CELL_HEADER + zlen (sc_payload c))) (PAGE_SIZE - PAGE_TRAILER)) as [Hle|];
    unfold data_start in *; [|by rewrite (proj2 (Z.leb_gt _ _)) in H].
  rewrite (proj2 (Z.leb_le _ _)) in H by done. cbn [negb] in H. injection H as <-. cbn [lb_cells lb_payload_bytes].
  fold (data_start (zlen (lb_cells b) + 1)) in Hle. pose proof (zlen_nonneg (lb_cells b)).
  pose proof (zlen_nonneg (sc_payload c)). pose proof (body_bytes_nonneg _ Hsz).
  pose proof (data_start_spec (zlen (lb_cells b) + 1) ltac:(lia)) as [Hd Hm].
  assert (zlen (lb_cells b ++ [c]) = zlen (lb_cells b) + 1) as Hn by (unfold zlen; rewrite length_app; simpl; lia).
  fold (cell_size c). unfold LEAF_CELL_HEADER, PAGE_SIZE, PAGE_TRAILER in Hle.
  assert (cell_size c = 24 + zlen (sc_payload c)) as Hcs by done.
  split; [|done]. constructor; cbn [lb_cells lb_payload_bytes].
  - by rewrite body_bytes_snoc, Hby.
  - apply Forall_app. split; [done|]. constructor; [|done]. unfold PAGE_SIZE. lia.
  - rewrite Hn. unfold data_start, PAGE_SIZE, PAGE_TRAILER in *. lia.
  - rewrite Hn. apply laid_out_snoc; [done..|lia|]. unfold PAGE_SIZE, PAGE_TRAILER. lia.
Qed.

Lemma length_cursors cursor cells : length (cursors cursor cells) = length cells.
Proof. revert cursor. induction cells; intros; simpl; auto. Qed.

Lemma next_cursor cursor c :
  cursor mod 8 = 0 → 0 <= cursor → cursor + cell_size c <= PAGE_SIZE - PAGE_TRAILER →
  align_up (cursor + cell_size c) mod 8 = 0 ∧ cursor + cell_size c <= align_up (cursor + cell_size c).
Proof.
  intros Hal H0 Hle. pose proof (cell_size_pos c). unfold PAGE_SIZE, PAGE_TRAILER in *.
  pose proof (align_up_spec (cursor + cell_size c) ltac:(lia)). tauto.
Qed.

Lemma cursors_spec cursor cells j c cur :
  cursor mod 8 = 0 → 0 <= cursor → laid_out cursor cells →
  cells !! j = Some c → cursors cursor cells !! j = Some cur →
  cursor <= cur ∧ cur mod 8 = 0 ∧ cur + cell_size c <= PAGE_SIZE - PAGE_TRAILER.
Proof.
  revert cursor j. induction cells as [|d cells IH]; intros cursor j Hal H0 Hlo Hc Hcur; [done|].
  destruct Hlo as [Hle Hl].
  destruct (next_cursor cursor d Hal H0 Hle) as [Hal' Hle']. pose proof (cell_size_pos d).
  destruct j as [|j]; simpl in Hc, Hcur; [simplify_eq; done|].
  destruct (IH _ j Hal' ltac:(lia) Hl Hc Hcur) as (?&?&?). split_and!; [lia|done..].
Qed.

Lemma cursors_ascending cursor cells :
  cursor mod 8 = 0 → 0 <= cursor → laid_out cursor cells → ascending (cursors cursor cells).
Proof.
  revert cursor. induction cells as [|d cells IH]; intros cursor Hal H0 Hlo; cbn [cursors]; [constructor|].
  destruct Hlo as [Hle Hl]. constructor.
  - destruct (next_cursor cursor d Hal H0 Hle). pose proof (cell_size_pos d). apply IH; [done|lia|done].
  - destruct (next_cursor cursor d Hal H0 Hle). pose proof (cell_size_pos d).
    apply Forall_lookup. intros j cur Hcur.
    destruct (lookup_lt_is_Some_2 cells j) as [c Hc].
    { apply lookup_lt_Some in Hcur. by rewrite length_cursors in Hcur. }
    destruct (cursors_spec _ _ j c cur ltac:(done) ltac:(lia) Hl Hc Hcur). lia.
Qed.

Lemma cell_writes_apart i cursor c :
  PAGE_HEADER + (i + 1) * CELL_INDEX_ENTRY <= cursor → StronglySorted apart (cell_writes i cursor c).
Proof.
  unfold PAGE_HEADER, CELL_INDEX_ENTRY. intros H. pose proof (zlen_nonneg (sc_payload c)) as Hz.
  unfold cell_writes, zlen, OFF_TYPE, OFF_ELEM_N, OFF_CARDINALITY, OFF_BITMAP_CRC, OFF_BITMAP_PGNO,
    LEAF_CELL_HEADER, PAGE_HEADER, CELL_INDEX_ENTRY in *.
  repeat (constructor; [|repeat constructor; unfold apart, disjoint_range; cbn [fst snd];
    rewrite ?length_le_bytes; lia]). constructor.
Qed.

Lemma cell_writes_range i cursor c w :
  0 <= i → PAGE_HEADER + (i + 1) * CELL_INDEX_ENTRY <= cursor → w ∈ cell_writes i cursor c →
  (fst w = PAGE_HEADER + i * CELL_INDEX_ENTRY ∧ zlen (snd w) = 2) ∨
  (cursor <= fst w ∧ fst w + zlen (snd w) <= cursor + cell_size c).
Proof.
  unfold PAGE_HEADER, CELL_INDEX_ENTRY. intros Hi H. pose proof (zlen_nonneg (sc_payload c)) as Hz.
  unfold cell_writes, cell_size, zlen, OFF_TYPE, OFF_ELEM_N, OFF_CARDINALITY, OFF_BITMAP_CRC, OFF_BITMAP_PGNO,
    LEAF_CELL_HEADER, PAGE_HEADER, CELL_INDEX_ENTRY in *.
  rewrite !elem_of_cons, elem_of_nil.
  intros Hw; destruct_or! Hw; subst w; cbn [fst snd]; rewrite ?length_le_bytes; lia || done.
Qed.

Lemma cell_writes_bytes i cursor c :
  Forall byte (sc_payload c) → Forall (λ w, Forall byte (snd w)) (cell_writes i cursor c).
Proof. intros. unfold cell_writes. repeat constructor; cbn [snd]; auto with bits. Qed.

Lemma finish_cells_ok p i cursor cells :
  page_ok p → 0 <= i → cursor mod 8 = 0 →
  PAGE_HEADER + (i + zlen cells) * CELL_INDEX_ENTRY <= cursor →
  Forall (λ c, Forall byte (sc_payload c)) cells → laid_out cursor cells →
  ∃ p', finish_cells p i cursor cells = Ok p' ∧ page_ok p' ∧
    (∀ E o n, 0 <= n → o + n <= PAGE_HEADER + i * CELL_INDEX_ENTRY ∨
       PAGE_HEADER + (i + zlen cells) * CELL_INDEX_ENTRY <= o ∧ o + n <= cursor →
       @slice E p' o n = slice p o n) ∧
    (∀ j c cur, cells !! j = Some c → cursors cursor cells !! j = Some cur →
       Forall (reads p') (cell_writes (i + Z.of_nat j) cur c)).
Proof.
  revert p i cursor. induction cells as [|c cells IH]; intros p i cursor Hp Hi Hal Hidx Hby Hl.
  { exists p. split_and!; done. }
  destruct Hl as [Hle Hl]. apply Forall_cons in Hby as [Hbc Hby]. pose proof Hp as [Hplen Hpb].
  assert (zlen (c :: cells) = zlen cells + 1) as Hz by (unfold zlen; simpl length; lia). rewrite Hz in *.
  pose proof (zlen_nonneg cells) as Hzn. unfold PAGE_HEADER, CELL_INDEX_ENTRY in Hidx.
  destruct (next_cursor cursor c Hal ltac:(lia) Hle) as [Hal' Hle']. pose proof (cell_size_pos c) as Hpos.
  assert (PAGE_HEADER + (i + 1) * CELL_INDEX_ENTRY <= cursor) as Hidx1
    by (unfold PAGE_HEADER, CELL_INDEX_ENTRY; lia).
  assert (Forall in_page (cell_writes i cursor c)) as Hin.
  { apply Forall_forall. intros w Hw. unfold in_page, zlen, PAGE_SIZE, PAGE_TRAILER in *.
    destruct (cell_writes_range i cursor c w Hi Hidx1 Hw) as [[H1 H2]|[H1 H2]];
      unfold zlen, PAGE_HEADER, CELL_INDEX_ENTRY in *; lia. }
  destruct (write_all_ok p _ Hplen Hin) as (p1 & Hw1 & Hlen1).
  assert (page_ok p1) as Hp1 by (split; [done|]; eapply bytes_write_all; [exact Hpb|by apply cell_writes_bytes|exact Hw1]).
  destruct (IH p1 (i + 1) (align_up (cursor + cell_size c)) Hp1 ltac:(lia) Hal') as (p' & Hf & Hp' & Hsame & Hread).
  { unfold PAGE_HEADER, CELL_INDEX_ENTRY. lia. } { done. } { done. }
  exists p'. unfold PAGE_HEADER, CELL_INDEX_ENTRY in *. split_and!; [|done|..].
  - cbn [finish_cells]. rewrite Hw1. cbn [mbind Res_bind].
    replace (cursor + LEAF_CELL_HEADER + zlen (sc_payload c)) with (cursor + cell_size c) by (unfold cell_size; lia). done.
  - intros E o n Hn Hr. rewrite Hsame by lia.
    apply (slice_write_all_disjoint _ _ _ _ _ Hw1). apply Forall_forall. intros w Hw.
    destruct (cell_writes_range i cursor c w Hi Hidx1 Hw) as [[H1 H2]|[H1 H2]]; unfold disjoint_range, zlen,
      PAGE_HEADER, CELL_INDEX_ENTRY in *; lia.
  - intros [|j] d cur Hd Hcur; simpl in Hd, Hcur.
    + simplify_eq. replace (i + Z.of_nat 0) with i by lia.
      pose proof (write_all_reads _ _ _ Hw1 (cell_writes_apart i cur d Hidx1)) as Hr.
      rewrite Forall_forall in Hr |- *. intros w Hw. apply (reads_preserved p1); [by apply Hr|].
      intros E. apply Hsame; [lia|].
      destruct (cell_writes_range i cur d w Hi Hidx1 Hw) as [[H1 H2]|[H1 H2]]; unfold zlen,
        PAGE_HEADER, CELL_INDEX_ENTRY in *; lia.
    + replace (i + Z.of_nat (S j)) with (i + 1 + Z.of_nat j) by lia. by apply (Hread j).
Qed.

Lemma cell_read p n i cur c :
  staged_ok c → Forall (reads p) (cell_writes i cur c) → 0 <= i < n → 0 <= cur →
  cur + cell_size c <= PAGE_SIZE - PAGE_TRAILER →
  cell_offset p i = Ok cur ∧ key_at (mkLeafPage p n) i = Ok (Some (sc_key c)) ∧
  cell (mkLeafPage p n) i = Ok (staged_cell c (cur + LEAF_CELL_HEADER)).
Proof.
  intros (Hk & He & Hca & Hcr & Hno & Hb & Hpl) Hr Hi Hc Hle.
  pose proof (cell_size_pos c). unfold PAGE_SIZE, PAGE_TRAILER in Hle.
  assert (0 <= type_code (sc_ty c) < 6) as Hty by (destruct (sc_ty c); simpl; lia).
  unfold cell_writes in Hr.
  repeat match goal with H : Forall _ (_ :: _) |- _ => apply Forall_cons in H as [? H] end.
  repeat match goal with H : reads _ (_, le_bytes _ _) |- _ =>
    apply (reads_rd (E:=PageError)) in H; [|rewrite ?Z.mod_small by lia; lia] end.
  assert (cell_offset p i = Ok cur) as Hoff.
  { unfold cell_offset. rewrite H7. by rewrite Z.mod_small by lia. }
  split; [done|]. unfold key_at, cell. cbn [lp_page lp_count].
  rewrite (proj2 (Z.ltb_lt _ _)), (proj2 (Z.leb_gt _ _)) by lia. rewrite Hoff. cbn [mbind Res_bind].
  unfold OFF_KEY. rewrite Z.add_0_r, H0. split; [done|].
  rewrite H1. cbn [mbind Res_bind]. rewrite from_u16_type_code. cbn [ok_or mbind Res_bind].
  rewrite H2. cbn [mbind Res_bind]. rewrite <-Hpl.
  replace (PAGE_SIZE - PAGE_TRAILER <? cur + LEAF_CELL_HEADER + zlen (sc_payload c)) with false
    by (unfold cell_size, PAGE_SIZE, PAGE_TRAILER in *; lia).
  cbn [mbind Res_bind]. rewrite H3, H4, H5. cbn [mbind Res_bind].
  replace (cur + LEAF_CELL_HEADER + zlen (sc_payload c) - (cur + LEAF_CELL_HEADER)) with (zlen (sc_payload c)) by lia.
  specialize (H6 PageError). cbn [fst snd] in H6. unfold zlen. rewrite H6. done.
Qed.

(** Cell [i] of [cells] is on the page, where the layout puts it. *)
Definition holds_cells (p : Page) (cells : list StagedCell) : Prop :=
  let n := zlen cells in
  ∀ i c, cells !! i = Some c → ∃ cur, cursors (data_start n) cells !! i = Some cur ∧
    cell_offset p (Z.of_nat i) = Ok cur ∧
    key_at (mkLeafPage p n) (Z.of_nat i) = Ok (Some (sc_key c)) ∧
    cell (mkLeafPage p n) (Z.of_nat i) = Ok (staged_cell c (cur + LEAF_CELL_HEADER)) ∧
    data_start n <= cur ∧ cur mod 8 = 0 ∧ cur + cell_size c <= PAGE_SIZE - PAGE_TRAILER.

Section finish.
Context {X : Extern} {L : ExternLaws X}.

Lemma leaf_finish_page b no :
  builder_ok b → Forall staged_ok (lb_cells b) → 0 <= no < 2 ^ 32 →
  ∃ p, leaf_finish b no = Ok p ∧ page_ok p ∧ verify_checksum p = Ok tt ∧ pgno p = Ok no ∧
    flags p = Ok (page_code PLeaf) ∧ cell_count p = Ok (zlen (lb_cells b)) ∧ holds_cells p (lb_cells b).
Proof.
  intros [_ _ [Hst Hcnt] Hl] Hs Hno. set (n := zlen (lb_cells b)) in *.
  assert (0 <= n) as Hn by apply zlen_nonneg. destruct (data_start_spec n ltac:(lia)) as [Hd Hdm].
  unfold leaf_finish. fold n. fold (data_start n). rewrite Z.mod_small by lia.
  destruct (set_header_ok zeroed no PLeaf n length_zeroed Hno ltac:(lia))
    as (p1 & -> & Hl1 & Hb1 & Hno1 & Hfl1 & Hcc1 & _). cbn [mbind Res_bind].
  destruct (finish_cells_ok p1 0 (data_start n) (lb_cells b)) as (p2 & -> & [Hl2 Hb2] & Hsame2 & Hread2); try done.
  { split; [done|]. apply Hb1, bytes_zeroed. } { unfold PAGE_HEADER, CELL_INDEX_ENTRY. fold n. lia. }
  { eapply Forall_impl; [exact Hs|]. by intros c (_&_&_&_&_&?&_). }
  cbn [mbind Res_bind]. destruct (seal_ok p2 Hl2) as (p3 & -> & Hl3 & Hb3 & Hv3 & Hsame3).
  destruct (header_ext p1 p3) as (Hh1 & Hh2 & Hh3).
  { intros o k Ho Hk. unfold PAGE_HEADER, PAGE_SIZE, PAGE_TRAILER in *. rewrite Hsame3 by lia.
    destruct (Z.le_gt_cases 0 k); [apply Hsame2; unfold PAGE_HEADER, CELL_INDEX_ENTRY; lia|].
    unfold slice. by rewrite !(proj2 (Z.leb_gt 0 k)), !andb_false_r by lia. }
  exists p3. split_and!; [done|split; auto|done|by rewrite Hh1|by rewrite Hh2|by rewrite Hh3|].
  intros i c Hc. fold n.
  destruct (lookup_lt_is_Some_2 (cursors (data_start n) (lb_cells b)) i) as [cur Hcur];
    [rewrite length_cursors; by eapply lookup_lt_Some|].
  pose proof (cursors_spec _ _ _ _ _ Hdm ltac:(lia) Hl Hc Hcur) as (Hlo & Hal & Hhi).
  assert (Z.of_nat i < n) by (apply lookup_lt_Some in Hc; unfold n, zlen; lia).
  assert (Forall (reads p3) (cell_writes (Z.of_nat i) cur c)) as Hr.
  { pose proof (Hread2 i c cur Hc Hcur) as Hr. rewrite Forall_forall in Hr |- *. intros w Hw.
    apply (reads_preserved p2); [by apply Hr|]. intros E. eapply slice_transport. apply Hsame3.
    destruct (cell_writes_range (Z.of_nat i) cur c w) as [[H1 H2]|[H1 H2]];
      unfold zlen, PAGE_HEADER, CELL_INDEX_ENTRY, PAGE_SIZE, PAGE_TRAILER in *; try lia; done. }
  destruct (cell_read p3 n (Z.of_nat i) cur c) as (?&?&?); try done; try lia.
  { rewrite Forall_forall in Hs. apply Hs. by eapply list_elem_of_lookup_2. }
  exists cur. done.
Qed.

Lemma leaf_parse_holds p cells :
  flags p = Ok (page_code PLeaf) → cell_count p = Ok (zlen cells) → zlen cells < 2 ^ 16 →
  data_start (zlen cells) <= PAGE_SIZE - PAGE_TRAILER → laid_out (data_start (zlen cells)) cells →
  holds_cells p cells → leaf_parse p = Ok (mkLeafPage p (zlen cells)).
Proof.
  intros Hf Hc Hcnt Hst Hl Hh. set (n := zlen cells) in *.
  assert (0 <= n) as Hn by apply zlen_nonneg. destruct (data_start_spec n ltac:(lia)) as [Hd Hdm].
  unfold leaf_parse, validate_cell_index. rewrite Hf. cbn [mbind Res_bind].
  change (Z.land (page_code PLeaf) 255) with (page_code PLeaf). rewrite Z.eqb_refl. cbn [negb].
  rewrite Hc. cbn [mbind Res_bind]. fold (data_start n).
  assert ((PAGE_SIZE - PAGE_TRAILER <? PAGE_HEADER + n * CELL_INDEX_ENTRY) = false) as ->
    by (unfold PAGE_HEADER, CELL_INDEX_ENTRY; lia).
  rewrite (validate_cells_accepts p _ _ _ _ _ (λ j, default 0 (cursors (data_start n) cells !! Z.to_nat j))); [done|..].
  - intros j Hj. destruct (lookup_lt_is_Some_2 cells (Z.to_nat j)) as [c Hcj]; [unfold n, zlen in *; lia|].
    destruct (Hh _ _ Hcj) as (cur & Hcur & Ho & _ & _ & ?&?&?). fold n in Hcur. rewrite Hcur.
    rewrite Z2Nat.id in Ho by lia. cbn [default from_option id].
    pose proof (zlen_nonneg (sc_payload c)). unfold cell_size in *. split_and!; [done..|lia].
  - intros j Hj. assert (∀ k, 0 <= k < n → ∃ cur, cursors (data_start n) cells !! Z.to_nat k = Some cur) as Hsome.
    { intros k Hk. apply lookup_lt_is_Some_2. rewrite length_cursors. unfold n, zlen in *. lia. }
    destruct (Hsome j) as [cur Hcur]; [lia|]. destruct (Hsome (j - 1)) as [cur' Hcur']; [lia|].
    rewrite Hcur, Hcur'. cbn. eapply ascending_lookup_lt; [|exact Hcur'|exact Hcur|lia].
    by apply cursors_ascending; [|lia|].
  - lia.
Qed.

Lemma leaf_cells_holds p cells :
  holds_cells p cells →
  leaf_cells (mkLeafPage p (zlen cells)) =
    Ok (zip_with staged_cell cells ((λ c, c + LEAF_CELL_HEADER) <$> cursors (data_start (zlen cells)) cells)).
Proof.
  intros Hh. unfold leaf_cells, indices. cbn [lp_count]. apply res_mapM_ok, Forall2_lookup. intros i.
  rewrite lookup_zip_with, list_lookup_fmap. destruct (cells !! i) as [c|] eqn:Hc; simpl.
  - destruct (Hh _ _ Hc) as (cur & -> & _ & _ & Hcell & _).
    rewrite lookup_seqZ_lt by (apply lookup_lt_Some in Hc; unfold zlen; lia). simpl. constructor.
    by rewrite Z.add_0_l.
  - rewrite lookup_seqZ_ge by (apply lookup_ge_None in Hc; unfold zlen; lia). constructor.
Qed.
End finish.

(** * Containers through a page *)
Lemma length_concat_const {A} (l : list (list A)) n :
  Forall (λ x, length x = n) l → length (concat l) = (length l * n)%nat.
Proof. induction 1 as [|x l Hx Hl IH]; simpl; [done|]. rewrite length_app. lia. Qed.

Lemma chunked_concat (l : list (list Z)) n :
  (0 < n)%nat → Forall (λ x, length x = n) l → chunked n (concat l) = l.
Proof.
  intros Hn Hl. unfold chunked. rewrite (length_concat_const l n Hl), Nat.div_mul by lia.
  induction Hl as [|x l Hx Hl IH]; [done|]. cbn [length pieces concat].
  rewrite take_app_length', drop_app_length' by done. by rewrite IH.
Qed.

Lemma le_elems_concat n l :
  (0 < n)%nat → Forall (λ v, 0 <= v < 256 ^ Z.of_nat n) l → le_elems n (concat (le_bytes n <$> l)) = l.
Proof.
  intros Hn Hl. unfold le_elems. rewrite chunked_concat; [|done|].
  - induction Hl as [|v l Hv Hl IH]; [done|]. cbn. rewrite of_le_le_bytes by done. by rewrite <-IH at 2.
  - apply Forall_fmap, Forall_true. intros v. simpl. apply length_le_bytes.
Qed.

Lemma bytes_concat_le n l : Forall byte (concat (le_bytes n <$> l)).
Proof. induction l; csimpl; [constructor|]. apply Forall_app. auto with bits. Qed.

Section through.
Context {X : Extern} {L : ExternLaws X}.

Lemma build_bitmap_page_ok words :
  wf (Bitmap words) →
  page_ok (build_bitmap_page words) ∧ base_words (build_bitmap_page words) = Ok words ∧
  bitmap_container (build_bitmap_page words) = Ok (Bitmap words).
Proof.
  intros [Hl Hw]%wf_bitmap. unfold build_bitmap_page, base_words, bitmap_container. rewrite cast_u64_bytes.
  assert (Z.of_nat (length (concat (le_bytes 8 <$> words))) = PAGE_SIZE) as Hlen.
  { rewrite (length_concat_const _ 8), length_fmap; [unfold BITMAP_WORDS, PAGE_SIZE in *; lia|].
    apply Forall_fmap, Forall_true. intros v. apply length_le_bytes. }
  split; [split; [done|apply bytes_concat_le]|].
  rewrite try_cast_u64_ok by (done || by rewrite Hlen). cbn [ok_or mbind Res_bind].
  rewrite le_elems_concat, Hl, Z.eqb_refl by (done || lia). done.
Qed.

Definition staged_of (key : Z) (c : Container) : option StagedCell :=
  match c with
  | Array a => Some (mkStagedCell key TArray (zlen a mod 2 ^ 16) (cardinality c) 0 0 (cast_u16 a))
  | Run r => Some (mkStagedCell key TRun (zlen r mod 2 ^ 16) (cardinality c) 0 0 (cast_interval r))
  | Bitmap _ => None
  end.

Lemma push_container_staged b key c :
  push_container b key c = match staged_of key c with Some s => leaf_push b s | None => None end.
Proof. by destruct c. Qed.

Lemma wrap32_range v : 0 <= wrap32 v < 2 ^ 32. Proof. apply Z.mod_pos_bound. lia. Qed.

Lemma length_interval_bytes r :
  length (concat ((λ i, le_bytes 2 (iv_start i) ++ le_bytes 2 (iv_last i)) <$> r)) = (length r * 4)%nat.
Proof.
  rewrite (length_concat_const _ 4), length_fmap; [done|].
  apply Forall_fmap, Forall_true. intros i. cbn. by rewrite length_app, !length_le_bytes.
Qed.

Lemma le_intervals r :
  Forall (λ i, u16 (iv_start i) ∧ u16 (iv_last i)) r →
  le_interval <$> chunked 4 (concat ((λ i, le_bytes 2 (iv_start i) ++ le_bytes 2 (iv_last i)) <$> r)) = r.
Proof.
  intros Hr. rewrite chunked_concat; [|lia|].
  - induction Hr as [|[s l] r [[] []] Hr IH]; [done|]. rewrite !fmap_cons, IH. f_equal.
    cbn [iv_start iv_last] in *. unfold le_interval.
    rewrite take_app_length', drop_app_length' by (by rewrite length_le_bytes).
    by rewrite !of_le_le_bytes by lia.
  - apply Forall_fmap, Forall_true. intros i. cbn. by rewrite length_app, !length_le_bytes.
Qed.

(** A container small enough for a cell is staged, and read back from any aligned place. *)
Lemma staged_of_ok key c s :
  wf c → 0 <= key < 2 ^ 64 → staged_of key c = Some s → byte_size c <= CELL_PAYLOAD_MAX →
  staged_ok s ∧ zlen (sc_payload s) = byte_size c ∧
  ∀ start, start mod 8 = 0 → container (staged_cell s start) = Ok (Some c) ∧
    lc_cardinality (staged_cell s start) = cardinality c.
Proof.
  change CELL_PAYLOAD_MAX with 8148. intros Hc Hk Hs Hsz.
  assert (∀ start, start mod 8 = 0 → start mod 2 = 0) as H2.
  { intros start H8. rewrite (Z.div_mod start 8), H8, Z.add_0_r by lia.
    replace (8 * (start / 8)) with ((4 * (start / 8)) * 2) by lia. apply Z.mod_mul. lia. }
  destruct c as [a|w|r]; simplify_eq/=; unfold staged_ok, zlen in *; cbn [sc_payload sc_key sc_elem_n sc_cardinality
    sc_bitmap_checksum sc_bitmap_pgno sc_ty payload_len].
  - apply wf_array in Hc as [Hu _]. rewrite cast_u16_bytes, (Z.mod_small (Z.of_nat (length a))) by lia.
    assert (length (concat (le_bytes 2 <$> a)) = (length a * 2)%nat) as Hlen.
    { rewrite (length_concat_const _ 2), length_fmap; [done|]. apply Forall_fmap, Forall_true. intros v. apply length_le_bytes. }
    rewrite Hlen. pose proof (wrap32_range (Z.of_nat (length a))). split_and!; try lia; try done; try apply bytes_concat_le.
        intros start Hst. unfold container, staged_cell. cbn [lc_ty lc_at lc_payload sc_ty sc_payload].
    rewrite try_cast_u16_ok; [|by apply H2|rewrite Hlen, Nat2Z.inj_mul; apply Z.mod_mul; lia].
    cbn [ok_or mbind Res_bind]. rewrite le_elems_concat; [done|lia|done].
  - apply wf_run in Hc as Hr. destruct Hc as [Hu _]. cbn [typed] in Hu.
    rewrite cast_interval_bytes, (Z.mod_small (Z.of_nat (length r))) by lia.
    rewrite length_interval_bytes. pose proof (wrap32_range (foldr Z.add 0 (map interval_len r))). unfold sum32 in *.
    split_and!; try lia; try done.
    { clear. induction r as [|i r IH]; csimpl; [constructor|]. rewrite !Forall_app. auto with bits. }
    intros start Hst. unfold container, staged_cell. cbn [lc_ty lc_at lc_payload sc_ty sc_payload].
    rewrite try_cast_interval_ok; [|by apply H2|rewrite length_interval_bytes, Nat2Z.inj_mul; apply Z.mod_mul; lia].
    cbn [ok_or mbind Res_bind]. by rewrite le_intervals.
Qed.
End through.
