(* ===== verification/Branch.v ===== *)
(** Branch pages: fixed 16-byte cells of key, flags and child (crates/big-page/src/branch.rs). *)
From S2P Require Import Prelude Bits Search Page.

Record BranchPage := mkBranchPage { bp_page : Page; bp_count : Z }.
Record BranchCell := mkBranchCell { bc_key : Z; bc_flags : Z; bc_child : Z }.

Definition branch_parse (p : Page) : Res PageError BranchPage :=
  '(count, _) ← validate_cell_index p PBranch BRANCH_CELL; Ok (mkBranchPage p count).

(** [BranchPage::cell]. *)
Definition branch_cell (b : BranchPage) (i : Z) : Res PageError (option BranchCell) :=
  if i <? bp_count b then
    o ← cell_offset (bp_page b) i;
    key ← rd 8 (bp_page b) o;
    fl ← rd 4 (bp_page b) (o + 8);
    child ← rd 4 (bp_page b) (o + 12);
    Ok (Some (mkBranchCell key fl child))
  else Ok None.

(** [self.cell(i).unwrap()]. *)
Definition branch_cell_unwrap (b : BranchPage) (i : Z) : Res PageError BranchCell :=
  c ← branch_cell b i; unwrap c.

(** The loop of [child_for]: the number of cells whose key is at most [ckey]. *)
Fixpoint child_loop (fuel : nat) (b : BranchPage) (ckey : Z) (lo hi : nat) : Res PageError nat :=
  match fuel with
  | O => Ok lo
  | S fuel' =>
      if (lo <? hi)%nat then
        let mid := ((lo + hi) / 2)%nat in
        c ← branch_cell_unwrap b (Z.of_nat mid);
        if bc_key c <=? ckey then child_loop fuel' b ckey (mid + 1) hi
        else child_loop fuel' b ckey lo mid
      else Ok lo
  end.

Definition child_for (b : BranchPage) (ckey : Z) : Res PageError (option Z) :=
  if bp_count b =? 0 then Ok None
  else
    lo ← child_loop (S (Z.to_nat (bp_count b))) b ckey 0 (Z.to_nat (bp_count b));
    if (0 <? lo)%nat then c ← branch_cell_unwrap b (Z.of_nat lo - 1); Ok (Some (bc_child c))
    else Ok None.

(** [iter().collect()]. *)
Definition branch_cells (b : BranchPage) : Res PageError (list BranchCell) :=
  res_mapM (branch_cell_unwrap b) (seqZ 0 (bp_count b)).

(** * Building *)

(** The [while] loop that computes [CAPACITY] from the layout. *)
Fixpoint capacity_loop (fuel : nat) (n : Z) : Z :=
  match fuel with
  | O => n
  | S fuel' =>
      if align_up (PAGE_HEADER + (n + 1) * CELL_INDEX_ENTRY) + (n + 1) * BRANCH_CELL <=? PAGE_SIZE - PAGE_TRAILER
      then capacity_loop fuel' (n + 1) else n
  end.
Definition CAPACITY : Z := capacity_loop 512 0.

Definition branch_push (cells : list BranchCell) (c : BranchCell) : option (list BranchCell) :=
  if Z.of_nat (length cells) <? CAPACITY then Some (cells ++ [c]) else None.

(** One round of the loop of [finish]. *)
Definition branch_writes (i cursor : Z) (c : BranchCell) : list (Z * list Z) :=
  [ (cursor, le_bytes 8 (bc_key c));
    (cursor + 8, le_bytes 4 (bc_flags c));
    (cursor + 12, le_bytes 4 (bc_child c));
    (PAGE_HEADER + i * CELL_INDEX_ENTRY, le_bytes 2 (cursor mod 2 ^ 16)) ].

Fixpoint branch_finish_cells (p : Page) (i cursor : Z) (cells : list BranchCell) : Res PageError Page :=
  match cells with
  | [] => Ok p
  | c :: rest =>
      p' ← write_all p (branch_writes i cursor c);
      branch_finish_cells p' (i + 1) (cursor + BRANCH_CELL) rest
  end.

Section finish.
Context {X : Extern}.

Definition branch_finish (cells : list BranchCell) (no : Z) : Res PageError Page :=
  let count := Z.of_nat (length cells) in
  p ← set_header zeroed no PBranch (count mod 2 ^ 16);
  p ← branch_finish_cells p 0 (align_up (PAGE_HEADER + count * CELL_INDEX_ENTRY)) cells;
  seal p.
End finish.

Lemma CAPACITY_eq : CAPACITY = 454.
Proof. vm_compute. done. Qed.
#[global] Opaque CAPACITY.

(** * Arbitrary bytes *)
Lemma branch_parse_no_panic p : page_ok p → no_panic (branch_parse p).
Proof.
  intros [Hl _]. unfold branch_parse. apply no_panic_bind; [by apply validate_cell_index_no_panic|].
  by intros [] _.
Qed.

Lemma branch_parse_page p b : branch_parse p = Ok b → bp_page b = p.
Proof. unfold branch_parse. intros H. by apply bind_ok in H as ([] & _ & [= <-]). Qed.

Section total.
Context (p : Page) (b : BranchPage).
Hypothesis (Hok : page_ok p) (Hparse : branch_parse p = Ok b).

Lemma branch_count_nonneg : 0 <= bp_count b.
Proof.
  unfold branch_parse in Hparse. apply bind_ok in Hparse as ([count start] & Hv & Heq).
  apply validate_cell_index_spec in Hv as (_ & Hc & _). injection Heq as <-. cbn.
  eapply rd_bound in Hc; [lia|apply Hok].
Qed.

Lemma branch_cell_total i : 0 <= i < bp_count b → ∃ c, branch_cell_unwrap b i = Ok c.
Proof.
  intros Hi. unfold branch_cell_unwrap, branch_cell. rewrite (proj2 (Z.ltb_lt _ _)) by lia.
  rewrite (branch_parse_page _ _ Hparse).
  unfold branch_parse in Hparse. apply bind_ok in Hparse as ([count start] & Hv & Heq).
  apply validate_cell_index_spec in Hv as (_ & _ & Hx). injection Heq as <-.
  destruct (Hx i Hi) as (off & Hoff & _ & _ & Hhi). rewrite Hoff. cbn [mbind Res_bind].
  eapply rd_bound in Hoff; [|apply Hok]. destruct Hok as [Hl _].
  unfold BRANCH_CELL, PAGE_TRAILER in *. rewrite !rd_ok by lia. cbn. eauto.
Qed.

Lemma branch_cells_total : ∃ cells, branch_cells b = Ok cells ∧ Z.of_nat (length cells) = bp_count b.
Proof.
  unfold branch_cells.
  assert (∀ l, (∀ i, i ∈ l → 0 <= i < bp_count b) → ∃ cells, res_mapM (branch_cell_unwrap b) l = Ok cells ∧ length cells = length l) as H.
  { induction l as [|i l IH]; intros Hl; [by exists []|]. cbn [res_mapM].
    destruct (branch_cell_total i) as [c ->]; [apply Hl; by left|].
    destruct IH as (cs & -> & Hcs); [intros; apply Hl; by right|]. cbn. exists (c :: cs). simpl. by rewrite Hcs. }
  destruct (H (seqZ 0 (bp_count b))) as (cells & Hc & Hlen); [intros i Hi%elem_of_seqZ; lia|].
  exists cells. split; [done|]. rewrite Hlen, length_seqZ. pose proof branch_count_nonneg. lia.
Qed.

(** [child_for] on the list of cells. *)
Context (cells : list BranchCell).
Hypothesis Hcells : branch_cells b = Ok cells.

Lemma branch_cell_lookup i c : cells !! i = Some c → branch_cell_unwrap b (Z.of_nat i) = Ok c.
Proof.
  intros Hi. unfold branch_cells in Hcells. apply res_mapM_ok in Hcells.
  destruct (Forall2_lookup_r _ _ _ _ _ Hcells Hi) as (j & Hj & H).
  apply lookup_seqZ in Hj as [-> _]. by rewrite Z.add_0_l in H.
Qed.

Lemma branch_cells_length : length cells = Z.to_nat (bp_count b).
Proof.
  destruct branch_cells_total as (cs & Hcs & Hl). rewrite Hcells in Hcs. simplify_eq.
  pose proof branch_count_nonneg. lia.
Qed.

(** The cells that start at or before [ckey]; the last of them covers it. *)
Definition upto (ckey : Z) (l : list BranchCell) : list BranchCell :=
  List.filter (λ c, bc_key c <=? ckey) l.

Lemma upto_split ckey (k : nat) :
  (∀ i c, (i < k)%nat → cells !! i = Some c → bc_key c <= ckey) →
  (∀ i c, (k <= i)%nat → cells !! i = Some c → ckey < bc_key c) → upto ckey cells = take k cells.
Proof.
  intros Hlo Hhi. unfold upto. rewrite <-(take_drop k cells) at 1. rewrite List.filter_app.
  rewrite List.forallb_filter_id.
  2:{ apply forallb_forall. intros c Hc%list_elem_of_In. apply list_elem_of_lookup in Hc as [i Hi].
      apply lookup_take_Some in Hi as [Hi ?]. apply Z.leb_le. by eapply Hlo. }
  assert (List.filter (λ c, bc_key c <=? ckey) (drop k cells) = []) as ->; [|apply app_nil_r].
  apply List.incl_l_nil. intros c Hc%filter_In. destruct Hc as [Hc Hle].
  apply list_elem_of_In, list_elem_of_lookup in Hc as [i Hi].
  rewrite lookup_drop in Hi. apply Hhi in Hi; lia.
Qed.

Lemma child_loop_spec ckey fuel lo hi :
  StronglySorted (λ c d, bc_key c < bc_key d) cells →
  (lo <= hi <= length cells)%nat → (hi - lo < fuel)%nat →
  (∀ i c, (i < lo)%nat → cells !! i = Some c → bc_key c <= ckey) →
  (∀ i c, (hi <= i)%nat → cells !! i = Some c → ckey < bc_key c) →
  ∃ k, child_loop fuel b ckey lo hi = Ok k ∧ (k <= length cells)%nat ∧ upto ckey cells = take k cells.
Proof.
  intros Hs. assert (∀ i j c d, (i < j)%nat → cells !! i = Some c → cells !! j = Some d → bc_key c < bc_key d) as Hlt.
  { intros i j c d Hij Hc Hd. apply (ascending_lookup_lt (bc_key <$> cells) i j);
      [|rewrite list_lookup_fmap; by simplify_option_eq..|done].
    apply (StronglySorted_fmap _ (λ c d, bc_key c < bc_key d)); done. }
  revert lo hi. induction fuel as [|fuel IH]; intros lo hi Hb Hf Hlo Hhi; [lia|]. cbn [child_loop].
  destruct (Nat.ltb_spec lo hi) as [Hlh|].
  2:{ exists lo. split_and!; [done|lia|]. apply upto_split; [done|]. intros i c Hi. apply Hhi. lia. }
  assert (lo <= (lo + hi) / 2 < hi)%nat as Hmid
    by (split; [apply Nat.div_le_lower_bound|apply Nat.Div0.div_lt_upper_bound]; lia).
  generalize dependent ((lo + hi) / 2)%nat. intros mid Hmid.
  destruct (lookup_lt_is_Some_2 cells mid) as [c Hc]; [lia|].
  rewrite (branch_cell_lookup _ _ Hc). cbn [mbind Res_bind].
  destruct (Z.leb_spec (bc_key c) ckey) as [Hle|Hgt].
  - apply IH; [lia..| |done]. intros i d Hi Hd. destruct (decide (i = mid)) as [->|]; [by simplify_eq|].
    pose proof (Hlt i mid d c ltac:(lia) Hd Hc). lia.
  - apply IH; [lia..|done|]. intros i d Hi Hd. destruct (decide (i = mid)) as [->|]; [by simplify_eq|].
    pose proof (Hlt mid i c d ltac:(lia) Hc Hd). lia.
Qed.

Lemma child_for_upto ckey :
  StronglySorted (λ c d, bc_key c < bc_key d) cells →
  child_for b ckey = Ok (bc_child <$> last (upto ckey cells)).
Proof.
  intros Hs. pose proof branch_cells_length as Hlen. pose proof branch_count_nonneg.
  unfold child_for. destruct (Z.eqb_spec (bp_count b) 0) as [H0|H0].
  { rewrite H0 in Hlen. by destruct cells. }
  destruct (child_loop_spec ckey (S (Z.to_nat (bp_count b))) 0 (Z.to_nat (bp_count b)) Hs) as (k & -> & Hk & ->);
    [lia|lia|lia| |].
  { intros i c Hi Hc. apply lookup_lt_Some in Hc. lia. }
  cbn [mbind Res_bind]. destruct k as [|k]; cbn [Nat.ltb Nat.leb]; [by rewrite take_0|].
  destruct (lookup_lt_is_Some_2 cells k) as [c Hc]; [lia|].
  rewrite (take_S_r _ _ _ Hc), last_snoc. replace (Z.of_nat (S k) - 1) with (Z.of_nat k) by lia.
  by rewrite (branch_cell_lookup _ _ Hc).
Qed.
End total.

(** Even over a page whose keys are not in order the search ends, in range. *)
Lemma child_for_total p b ckey : page_ok p → branch_parse p = Ok b → ∃ o, child_for b ckey = Ok o.
Proof.
  intros Hp Hb. pose proof (branch_count_nonneg p b Hp Hb). unfold child_for.
  destruct (Z.eqb_spec (bp_count b) 0); [eauto|].
  assert (∀ fuel lo hi, (lo <= hi)%nat → (hi <= Z.to_nat (bp_count b))%nat →
    ∃ k, child_loop fuel b ckey lo hi = Ok k ∧ (k <= hi)%nat) as Hloop.
  { induction fuel as [|fuel IH]; intros lo hi Hlo Hhi; cbn [child_loop]; [eauto|].
    destruct (Nat.ltb_spec lo hi) as [Hlh|]; [|eauto].
    assert (lo <= (lo + hi) / 2 < hi)%nat as Hmid
      by (split; [apply Nat.div_le_lower_bound|apply Nat.Div0.div_lt_upper_bound]; lia).
    generalize dependent ((lo + hi) / 2)%nat. intros mid Hmid.
    destruct (branch_cell_total p b Hp Hb (Z.of_nat mid)) as [c ->]; [lia|]. cbn [mbind Res_bind].
    case_match.
    - destruct (IH (mid + 1)%nat hi) as (k & -> & ?); [lia..|eauto].
    - destruct (IH lo mid) as (k & -> & ?); [lia..|]. exists k. split; [done|lia]. }
  destruct (Hloop (S (Z.to_nat (bp_count b))) 0%nat (Z.to_nat (bp_count b))) as (k & -> & Hk); [lia..|].
  cbn [mbind Res_bind]. destruct (Nat.ltb_spec 0 k); [|eauto].
  destruct (branch_cell_total p b Hp Hb (Z.of_nat k - 1)) as [c ->]; [lia|]. cbn. eauto.
Qed.

(** * Building and parsing back *)
Definition branch_cell_ok (c : BranchCell) : Prop :=
  0 <= bc_key c < 2 ^ 64 ∧ 0 <= bc_flags c < 2 ^ 32 ∧ 0 <= bc_child c < 2 ^ 32.

Lemma branch_writes_apart i cursor c :
  PAGE_HEADER + (i + 1) * CELL_INDEX_ENTRY <= cursor → StronglySorted apart (branch_writes i cursor c).
Proof.
  unfold branch_writes, PAGE_HEADER, CELL_INDEX_ENTRY. intros H.
  repeat (constructor; [|repeat constructor; unfold apart, disjoint_range; cbn [fst snd];
    rewrite ?length_le_bytes; lia]). constructor.
Qed.

Lemma branch_writes_range i cursor c w :
  w ∈ branch_writes i cursor c →
  (fst w = PAGE_HEADER + i * CELL_INDEX_ENTRY ∧ Z.of_nat (length (snd w)) = 2) ∨
  (cursor <= fst w ∧ fst w + Z.of_nat (length (snd w)) <= cursor + BRANCH_CELL).
Proof.
  unfold branch_writes, PAGE_HEADER, CELL_INDEX_ENTRY, BRANCH_CELL.
  rewrite !elem_of_cons, elem_of_nil.
  intros Hw; destruct_or! Hw; subst w; cbn [fst snd]; rewrite ?length_le_bytes; lia || done.
Qed.

Lemma branch_finish_cells_ok p i cursor cells :
  page_ok p → 0 <= i → PAGE_HEADER + (i + Z.of_nat (length cells)) * CELL_INDEX_ENTRY <= cursor →
  cursor + Z.of_nat (length cells) * BRANCH_CELL <= PAGE_SIZE - PAGE_TRAILER →
  ∃ p', branch_finish_cells p i cursor cells = Ok p' ∧ page_ok p' ∧
    (∀ E o n, 0 <= n → o + n <= PAGE_HEADER + i * CELL_INDEX_ENTRY ∨
       PAGE_HEADER + (i + Z.of_nat (length cells)) * CELL_INDEX_ENTRY <= o ∧ o + n <= cursor →
       @slice E p' o n = slice p o n) ∧
    (∀ j c, cells !! j = Some c →
       Forall (reads p') (branch_writes (i + Z.of_nat j) (cursor + Z.of_nat j * BRANCH_CELL) c)).
Proof.
  revert p i cursor. induction cells as [|c cells IH]; intros p i cursor Hp Hi Hidx Hle.
  { exists p. split_and!; done. }
  cbn [length] in *. pose proof Hp as [Hplen Hpb].
  unfold PAGE_HEADER, CELL_INDEX_ENTRY, BRANCH_CELL, PAGE_SIZE, PAGE_TRAILER in *.
  assert (Forall in_page (branch_writes i cursor c)) as Hin.
  { apply Forall_forall. intros w Hw. unfold in_page.
    destruct (branch_writes_range i cursor c w Hw); unfold PAGE_HEADER, CELL_INDEX_ENTRY, BRANCH_CELL, PAGE_SIZE in *; lia. }
  destruct (write_all_ok p _ Hplen Hin) as (p1 & Hw1 & Hlen1).
  assert (page_ok p1) as Hp1.
  { split; [done|]. eapply bytes_write_all; [exact Hpb| |exact Hw1]. repeat constructor; cbn [snd]; auto with bits. }
  destruct (IH p1 (i + 1) (cursor + 16) Hp1 ltac:(lia)) as (p' & Hf & Hp' & Hsame & Hread); [lia..|].
  exists p'. split_and!; [cbn [branch_finish_cells]; by rewrite Hw1|done|..].
  - intros E o n Hn Hr. rewrite Hsame by lia.
    apply (slice_write_all_disjoint _ _ _ _ _ Hw1). apply Forall_forall. intros w Hw.
    destruct (branch_writes_range i cursor c w Hw); unfold disjoint_range, PAGE_HEADER, CELL_INDEX_ENTRY, BRANCH_CELL in *; lia.
  - intros [|j] d Hd; simpl in Hd.
    + simplify_eq. replace (i + Z.of_nat 0) with i by lia. replace (cursor + Z.of_nat 0 * 16) with cursor by lia.
      pose proof (write_all_reads _ _ _ Hw1 (branch_writes_apart i cursor d ltac:(unfold PAGE_HEADER, CELL_INDEX_ENTRY; lia))) as Hr.
      rewrite Forall_forall in Hr |- *. intros w Hw. apply (reads_preserved p1); [by apply Hr|].
      intros E. apply Hsame; [lia|].
      destruct (branch_writes_range i cursor d w Hw); unfold PAGE_HEADER, CELL_INDEX_ENTRY, BRANCH_CELL in *; lia.
    + replace (i + Z.of_nat (S j)) with (i + 1 + Z.of_nat j) by lia.
      replace (cursor + Z.of_nat (S j) * 16) with (cursor + 16 + Z.of_nat j * 16) by lia. by apply (Hread j).
Qed.

Lemma branch_cell_read p n i cur c :
  branch_cell_ok c → Forall (reads p) (branch_writes i cur c) → 0 <= i < n → 0 <= cur < 2 ^ 16 →
  cell_offset p i = Ok cur ∧ branch_cell_unwrap (mkBranchPage p n) i = Ok c.
Proof.
  intros (Hk & Hf & Hc) Hr Hi Hcur. unfold branch_writes in Hr.
  repeat match goal with H : Forall _ (_ :: _) |- _ => apply Forall_cons in H as [? H] end.
  repeat match goal with H : reads _ (_, le_bytes _ _) |- _ =>
    apply (reads_rd (E:=PageError)) in H; [|rewrite ?Z.mod_small by lia; lia] end.
  assert (cell_offset p i = Ok cur) as Hoff by (unfold cell_offset; rewrite H2; by rewrite Z.mod_small by lia).
  split; [done|]. unfold branch_cell_unwrap, branch_cell. cbn [bp_page bp_count].
  rewrite (proj2 (Z.ltb_lt _ _)) by lia. rewrite Hoff. cbn [mbind Res_bind]. rewrite H, H0, H1. by destruct c.
Qed.

Section roundtrip.
Context {X : Extern} {L : ExternLaws X}.

Lemma branch_finish_ok cells no :
  Z.of_nat (length cells) <= CAPACITY → Forall branch_cell_ok cells → 0 <= no < 2 ^ 32 →
  let n := Z.of_nat (length cells) in
  ∃ p, branch_finish cells no = Ok p ∧ page_ok p ∧ verify_checksum p = Ok tt ∧ pgno p = Ok no ∧
    branch_parse p = Ok (mkBranchPage p n) ∧ branch_cells (mkBranchPage p n) = Ok cells.
Proof.
  rewrite CAPACITY_eq. intros Hcap Hs Hno n. assert (0 <= n <= 454) as Hn by lia.
  set (st := align_up (PAGE_HEADER + n * CELL_INDEX_ENTRY)).
  assert (12 + n * 2 <= st < 12 + n * 2 + 8 ∧ st mod 8 = 0 ∧ st + n * 16 <= 8188) as (Hst & Hsm & Hfit).
  { unfold st, PAGE_HEADER, CELL_INDEX_ENTRY. pose proof (align_up_spec (12 + n * 2) ltac:(lia)) as (?&?&Hmin).
    split_and!; [lia..|]. destruct (decide (n = 454)) as [->|]; [done|lia]. }
  unfold branch_finish. fold n. rewrite Z.mod_small by lia. fold st.
  destruct (set_header_ok zeroed no PBranch n length_zeroed Hno ltac:(lia))
    as (p1 & -> & Hl1 & Hb1 & Hno1 & Hfl1 & Hcc1 & _). cbn [mbind Res_bind].
  destruct (branch_finish_cells_ok p1 0 st cells) as (p2 & -> & [Hl2 Hb2] & Hsame2 & Hread2); [split; [done|apply Hb1, bytes_zeroed]|done|..].
  1,2: unfold PAGE_HEADER, CELL_INDEX_ENTRY, BRANCH_CELL, PAGE_SIZE, PAGE_TRAILER; fold n; lia.
  cbn [mbind Res_bind]. destruct (seal_ok p2 Hl2) as (p3 & -> & Hl3 & Hb3 & Hv3 & Hsame3).
  destruct (header_ext p1 p3) as (Hh1 & Hh2 & Hh3).
  { intros o k Ho Hk. unfold PAGE_HEADER, PAGE_SIZE, PAGE_TRAILER in *. rewrite Hsame3 by lia.
    destruct (Z.le_gt_cases 0 k); [apply Hsame2; unfold PAGE_HEADER, CELL_INDEX_ENTRY; lia|].
    unfold slice. by rewrite !(proj2 (Z.leb_gt 0 k)), !andb_false_r by lia. }
  assert (∀ i c, cells !! i = Some c → cell_offset p3 (Z.of_nat i) = Ok (st + Z.of_nat i * BRANCH_CELL) ∧
    branch_cell_unwrap (mkBranchPage p3 n) (Z.of_nat i) = Ok c) as Hcells.
  { intros i c Hc. pose proof (lookup_lt_Some _ _ _ Hc) as Hi. unfold BRANCH_CELL. apply branch_cell_read; [|..|lia|lia].
    - rewrite Forall_forall in Hs. apply Hs. by eapply list_elem_of_lookup_2.
    - pose proof (Hread2 i c Hc) as Hr. rewrite Forall_forall in Hr |- *. intros w Hw.
      apply (reads_preserved p2); [by apply Hr|]. intros E. eapply slice_transport. apply Hsame3.
      destruct (branch_writes_range _ _ _ w Hw); unfold PAGE_HEADER, CELL_INDEX_ENTRY, BRANCH_CELL, PAGE_SIZE, PAGE_TRAILER in *; lia. }
  exists p3. split_and!; [done|split; auto|done|by rewrite Hh1| |].
  - unfold branch_parse, validate_cell_index. rewrite Hh2, Hfl1. cbn [mbind Res_bind].
    change (Z.land (page_code PBranch) 255) with (page_code PBranch). rewrite Z.eqb_refl. cbn [negb].
    rewrite Hh3, Hcc1. cbn [mbind Res_bind]. fold st.
    assert ((PAGE_SIZE - PAGE_TRAILER <? PAGE_HEADER + n * CELL_INDEX_ENTRY) = false) as ->
      by (unfold PAGE_SIZE, PAGE_TRAILER, PAGE_HEADER, CELL_INDEX_ENTRY; lia).
    rewrite (validate_cells_accepts p3 _ _ _ _ _ (λ j, st + j * BRANCH_CELL)); [done|..].
    + intros j Hj. destruct (lookup_lt_is_Some_2 cells (Z.to_nat j)) as [c Hcj]; [lia|].
      destruct (Hcells _ _ Hcj) as [Ho _]. rewrite Z2Nat.id in Ho by lia.
      unfold BRANCH_CELL, CELL_ALIGN, PAGE_SIZE, PAGE_TRAILER in *. split_and!; [done| |lia|lia].
      replace (j * 16) with ((2 * j) * 8) by lia. by rewrite Z.mod_add.
    + intros j Hj. unfold BRANCH_CELL. lia.
    + lia.
  - unfold branch_cells. cbn [bp_count]. apply res_mapM_ok, Forall2_lookup. intros i.
    destruct (cells !! i) as [c|] eqn:Hc.
    + rewrite lookup_seqZ_lt by (apply lookup_lt_Some in Hc; lia). constructor. rewrite Z.add_0_l. by apply Hcells.
    + rewrite lookup_seqZ_ge by (apply lookup_ge_None in Hc; lia). constructor.
Qed.
End roundtrip.
