(* ===== verification/Chain.v ===== *)
(** A flat list of fixed-size entries over a chain of pages: the form the freelist, the root
    records, the snapshot registry and the catalog take on disk (crates/big-page/src/chain.rs). *)
From S2P Require Import Prelude Bits Page.

Definition CHAIN_NEXT : Z := PAGE_HEADER.
Definition CHAIN_DATA : Z := 16.

Definition chain_capacity (stride : Z) : Z := (PAGE_SIZE - PAGE_TRAILER - CHAIN_DATA) / stride.

Record ChainPage := mkChainPage { cp_page : Page; cp_count : Z; cp_stride : Z }.

Definition chain_parse (p : Page) (expected : PageType) (stride : Z) : Res PageError ChainPage :=
  f ← flags p;
  let found := Z.land f 255 in
  if negb (found =? page_code expected) then Err (TypeMismatch (page_code expected) found)
  else
    count ← cell_count p;
    if PAGE_SIZE - PAGE_TRAILER <? CHAIN_DATA + count * stride then Err (CellCountOverflow count)
    else Ok (mkChainPage p count stride).

(** [ChainPage::next]. *)
Definition chain_next (c : ChainPage) : Res PageError (option Z) :=
  v ← rd 4 (cp_page c) CHAIN_NEXT; Ok (if negb (v =? 0) then Some v else None).

Definition chain_entry (c : ChainPage) (i : Z) : Res PageError (option (list Z)) :=
  if i <? cp_count c then
    e ← slice (cp_page c) (CHAIN_DATA + i * cp_stride c) (cp_stride c); Ok (Some e)
  else Ok None.

(** [entries().collect()]. *)
Definition chain_entries (c : ChainPage) : Res PageError (list (list Z)) :=
  res_mapM (λ i, e ← chain_entry c i; unwrap e) (seqZ 0 (cp_count c)).

(** * Building *)

(** [slice.chunks(n)]: pieces of [n], the last one shorter. *)
Fixpoint chunks {A} (fuel n : nat) (l : list A) : list (list A) :=
  match fuel, l with
  | S fuel', _ :: _ => take n l :: chunks fuel' n (drop n l)
  | _, _ => []
  end.

(** [page.0[at..at + stride].copy_from_slice(e)]: a slice of another length panics. *)
Fixpoint write_entries (p : Page) (stride j : Z) (es : list (list Z)) : Res PageError Page :=
  match es with
  | [] => Ok p
  | e :: es' =>
      if Z.of_nat (length e) =? stride then
        p' ← wr p (CHAIN_DATA + j * stride) e; write_entries p' stride (j + 1) es'
      else Panic
  end.

Section build.
Context {X : Extern}.

(** One round of the loop of [build_chain]. *)
Definition chain_page (ty : PageType) (stride no next : Z) (chunk : list (list Z)) : Res PageError Page :=
  p ← set_header zeroed no ty (Z.of_nat (length chunk) mod 2 ^ 16);
  p ← wr p CHAIN_NEXT (le_bytes 4 next);
  p ← write_entries p stride 0 chunk;
  seal p.

(** [pgnos[i]] panics when there are more chunks than pages; [pgnos.get(i + 1)] does not. *)
Fixpoint build_pages (ty : PageType) (stride : Z) (cs : list (list (list Z))) (pgnos : list Z)
    : Res PageError (list (Z * Page)) :=
  match cs with
  | [] => Ok []
  | chunk :: cs' =>
      match pgnos with
      | [] => Panic
      | no :: pgnos' =>
          p ← chain_page ty stride no (default 0 (head pgnos')) chunk;
          rest ← build_pages ty stride cs' pgnos';
          Ok ((no, p) :: rest)
      end
  end.

Definition build_chain (ty : PageType) (stride : Z) (entries : list (list Z)) (pgnos : list Z)
    : Res PageError (list (Z * Page)) :=
  match pgnos with
  | [] => Ok []
  | _ :: _ =>
      let cap := Z.to_nat (chain_capacity stride) in
      let cs := chunks (length entries) cap entries in
      build_pages ty stride (cs ++ replicate (length pgnos - length cs) []) pgnos
  end.
End build.

(** [n.div_ceil(chain_capacity(stride))]. *)
Definition chain_pages_needed (stride n : Z) : Z :=
  (n + chain_capacity stride - 1) / chain_capacity stride.

(** * Arbitrary bytes *)
Lemma chain_parse_no_panic p ty stride : page_ok p → no_panic (chain_parse p ty stride).
Proof.
  intros [Hl _]. unfold chain_parse, flags, cell_count.
  rewrite !rd_ok by (unfold PAGE_SIZE in *; lia). cbn [mbind Res_bind]. destruct (negb _); [done|]. by destruct (_ <? _).
Qed.

Section parsed.
Context (p : Page) (ty : PageType) (stride : Z) (c : ChainPage).
Hypothesis (Hok : page_ok p) (Hstride : 0 < stride) (Hparse : chain_parse p ty stride = Ok c).

Lemma chain_parse_inv :
  cp_page c = p ∧ cp_stride c = stride ∧ 0 <= cp_count c ∧
  CHAIN_DATA + cp_count c * stride <= PAGE_SIZE - PAGE_TRAILER.
Proof.
  unfold chain_parse in Hparse. apply bind_ok in Hparse as (f & _ & H). case_match; [done|].
  apply bind_ok in H as (n & Hn & H).
  destruct (Z.ltb_spec (PAGE_SIZE - PAGE_TRAILER) (CHAIN_DATA + n * stride)); [done|].
  injection H as <-. cbn. eapply rd_bound in Hn; [|apply Hok]. split_and!; [done..|lia|lia].
Qed.

Lemma chain_next_total : ∃ o, chain_next c = Ok o.
Proof.
  unfold chain_next. destruct chain_parse_inv as (-> & _). destruct Hok as [Hl _].
  rewrite rd_ok by (unfold CHAIN_NEXT, PAGE_HEADER, PAGE_SIZE in *; lia). cbn. eauto.
Qed.

Lemma chain_entries_total :
  ∃ es, chain_entries c = Ok es ∧ Z.of_nat (length es) = cp_count c ∧
    Forall (λ e, Z.of_nat (length e) = stride ∧ Forall byte e) es.
Proof.
  destruct chain_parse_inv as (Hpg & Hst & Hn & Hle). destruct Hok as [Hl Hb]. unfold chain_entries.
  unfold CHAIN_DATA, PAGE_TRAILER in *.
  assert (∀ i, 0 <= i < cp_count c → ∃ e, (e ← chain_entry c i; unwrap e) = Ok e ∧
            Z.of_nat (length e) = stride ∧ Forall byte e) as Hone.
  { intros i Hi. unfold chain_entry. rewrite (proj2 (Z.ltb_lt _ _)), Hpg, Hst by lia. unfold CHAIN_DATA.
    assert (16 + i * stride + stride <= PAGE_SIZE) by nia.
    assert (0 <= i * stride) by nia.
    destruct (slice p (16 + i * stride) stride) as [e| |] eqn:Hs;
      [|rewrite slice_ok in Hs by lia; done..].
    exists e. split; [done|]. split; [by apply length_slice in Hs|by eapply bytes_slice]. }
  assert (∀ l, (∀ i, i ∈ l → 0 <= i < cp_count c) → ∃ es,
    res_mapM (λ i, e ← chain_entry c i; unwrap e) l = Ok es ∧ length es = length l ∧
    Forall (λ e, Z.of_nat (length e) = stride ∧ Forall byte e) es) as H.
  { induction l as [|i l IH]; intros Hin; [by exists []|]. cbn [res_mapM].
    destruct (Hone i) as (e & -> & He); [apply Hin; by left|].
    destruct IH as (es & -> & Hes & Hf); [intros; apply Hin; by right|]. cbn.
    exists (e :: es). split_and!; [done|simpl; by rewrite Hes|by constructor]. }
  destruct (H (seqZ 0 (cp_count c))) as (es & He & Hlen & Hf); [intros i Hi%elem_of_seqZ; lia|].
  exists es. split_and!; [done|rewrite Hlen, length_seqZ; lia|done].
Qed.
End parsed.

(** * Building and parsing back *)
Definition entries_ok (stride : Z) (es : list (list Z)) : Prop :=
  Forall (λ e, Z.of_nat (length e) = stride ∧ Forall byte e) es.

Lemma write_entries_ok p stride j es :
  page_ok p → 0 < stride → 0 <= j → entries_ok stride es →
  CHAIN_DATA + (j + Z.of_nat (length es)) * stride <= PAGE_SIZE - PAGE_TRAILER →
  ∃ p', write_entries p stride j es = Ok p' ∧ page_ok p' ∧
    (∀ o n, o + n <= CHAIN_DATA + j * stride → @slice PageError p' o n = slice p o n) ∧
    (∀ k e, es !! k = Some e → @slice PageError p' (CHAIN_DATA + (j + Z.of_nat k) * stride) stride = Ok e).
Proof.
  unfold CHAIN_DATA, PAGE_SIZE, PAGE_TRAILER. intros Hp Hst Hj Hes. revert p j Hp Hj.
  induction Hes as [|e es [Hlen Hb] Hes IH]; intros p j [Hpl Hpb] Hj Hle; cbn [write_entries].
  { exists p. split_and!; done. }
  cbn [length] in Hle. rewrite Hlen, Z.eqb_refl. unfold CHAIN_DATA, PAGE_SIZE in *.
  assert (0 <= j * stride) by nia. assert (0 <= Z.of_nat (length es) * stride) by nia.
  destruct (wr p (16 + j * stride) e) as [p1| |] eqn:Hw; [|rewrite wr_ok in Hw by lia; done..].
  cbn [mbind Res_bind].
  assert (page_ok p1) as Hp1.
  { split; [rewrite (length_wr _ _ _ _ Hw); done|apply (bytes_wr _ _ _ _ Hpb Hb Hw)]. }
  destruct (IH p1 (j + 1) Hp1 ltac:(lia)) as (p' & -> & Hp' & Hsame & Hread); [lia|].
  exists p'. split_and!; [done..| |].
  - intros o n Ho. rewrite Hsame by lia. apply (slice_wr_disjoint _ _ _ _ _ _ Hw). lia.
  - intros [|k] x Hx; simpl in Hx.
    + simplify_eq. rewrite Hsame by lia. rewrite Z.add_0_r. apply (slice_wr_same _ _ _ _ Hw).
    + rewrite <-(Hread k x Hx). f_equal. lia.
Qed.

Section roundtrip.
Context {X : Extern} {L : ExternLaws X}.
Context (ty : PageType) (stride : Z).
Hypothesis Hstride : 0 < stride.

(** A page of a chain, as its reader sees it. *)
Definition chain_holds (p : Page) (next : option Z) (chunk : list (list Z)) : Prop :=
  page_ok p ∧ verify_checksum p = Ok tt ∧
  ∃ c, chain_parse p ty stride = Ok c ∧ chain_next c = Ok next ∧ chain_entries c = Ok chunk.

Lemma chain_page_ok no next chunk :
  0 <= no < 2 ^ 32 → 0 <= next < 2 ^ 32 → entries_ok stride chunk →
  Z.of_nat (length chunk) <= chain_capacity stride →
  ∃ p, chain_page ty stride no next chunk = Ok p ∧
    chain_holds p (if negb (next =? 0) then Some next else None) chunk.
Proof.
  intros Hno Hnext Hes Hcap. set (n := Z.of_nat (length chunk)) in *.
  assert (n * stride <= PAGE_SIZE - PAGE_TRAILER - CHAIN_DATA) as Hfit.
  { unfold chain_capacity in Hcap. pose proof (Z.mul_div_le (PAGE_SIZE - PAGE_TRAILER - CHAIN_DATA) stride). nia. }
  unfold CHAIN_DATA, PAGE_SIZE, PAGE_TRAILER in Hfit. assert (0 <= n <= 8172) by nia.
  unfold chain_page. fold n. rewrite Z.mod_small by lia.
  destruct (set_header_ok zeroed no ty n length_zeroed Hno ltac:(lia))
    as (p1 & -> & Hl1 & Hb1 & Hno1 & Hfl1 & Hcc1 & _). cbn [mbind Res_bind].
  destruct (wr p1 CHAIN_NEXT (le_bytes 4 next)) as [p2| |] eqn:Hw;
    [|rewrite wr_ok in Hw by (rewrite ?length_le_bytes; unfold CHAIN_NEXT, PAGE_HEADER, PAGE_SIZE in *; lia); done..].
  cbn [mbind Res_bind].
  assert (page_ok p2) as Hp2.
  { split; [by rewrite (length_wr _ _ _ _ Hw)|].
    apply (bytes_wr _ _ _ _ (Hb1 bytes_zeroed) (bytes_le_bytes 4 next) Hw). }
  destruct (write_entries_ok p2 stride 0 chunk Hp2 Hstride) as (p3 & -> & Hp3 & Hsame3 & Hread3); [lia|done| |].
  { unfold CHAIN_DATA, PAGE_SIZE, PAGE_TRAILER. fold n. lia. }
  cbn [mbind Res_bind]. destruct (seal_ok p3 (proj1 Hp3)) as (p4 & -> & Hl4 & Hb4 & Hv4 & Hsame4).
  assert (∀ o k, o + k <= 12 → @slice PageError p4 o k = slice p1 o k) as Hhead.
  { intros o k Hok. unfold CHAIN_DATA, PAGE_SIZE, PAGE_TRAILER in *. rewrite Hsame4, Hsame3 by lia.
    apply (slice_wr_disjoint _ _ _ _ _ _ Hw). unfold CHAIN_NEXT, PAGE_HEADER. lia. }
  destruct (header_ext p1 p4) as (_ & Hh2 & Hh3); [intros o k _ Hk; by apply Hhead|].
  exists p4. split; [done|]. split; [split; [done|apply Hb4, Hp3]|]. split; [done|].
  exists (mkChainPage p4 n stride). split_and!.
  - unfold chain_parse. rewrite Hh2, Hfl1. cbn [mbind Res_bind].
    rewrite land_255, Z.mod_small, Z.eqb_refl by (pose proof (page_code_bound ty); lia). cbn [negb].
    rewrite Hh3, Hcc1. cbn [mbind Res_bind].
    rewrite (proj2 (Z.ltb_ge _ _)); [done|]. unfold CHAIN_DATA, PAGE_SIZE, PAGE_TRAILER. lia.
  - unfold chain_next. cbn [cp_page].
    assert (@rd PageError 4 p4 CHAIN_NEXT = Ok next) as ->; [|done].
    unfold rd. rewrite Hsame4, Hsame3 by (unfold CHAIN_NEXT, PAGE_HEADER, CHAIN_DATA, PAGE_SIZE, PAGE_TRAILER; simpl; lia).
    fold (@rd PageError 4 p2 CHAIN_NEXT). apply (rd_wr_same 4 p1 _ next); [lia|done].
  - unfold chain_entries. cbn [cp_count]. apply res_mapM_ok, Forall2_lookup. intros i.
    destruct (chunk !! i) as [e|] eqn:He.
    + pose proof (lookup_lt_Some _ _ _ He). rewrite lookup_seqZ_lt by lia. constructor. rewrite Z.add_0_l.
      unfold chain_entry. cbn [cp_count cp_page cp_stride]. rewrite (proj2 (Z.ltb_lt _ _)) by lia.
      assert (Z.of_nat i * stride + stride <= n * stride) by nia.
      rewrite Hsame4 by (unfold CHAIN_DATA, PAGE_SIZE, PAGE_TRAILER; lia).
      specialize (Hread3 i e He). rewrite Z.add_0_l in Hread3. by rewrite Hread3.
    + rewrite lookup_seqZ_ge by (apply lookup_ge_None in He; lia). constructor.
Qed.

(** ** The whole chain *)

(** What is stored along a list of page numbers: each page names the next. *)
Fixpoint chain_along (pages : list (Z * Page)) (cs : list (list (list Z))) : Prop :=
  match pages, cs with
  | [], [] => True
  | (no, p) :: pages', chunk :: cs' =>
      chain_holds p (fst <$> head pages') chunk ∧ chain_along pages' cs'
  | _, _ => False
  end.

Lemma build_pages_ok cs pgnos :
  length cs = length pgnos → Forall (λ no, 0 < no < 2 ^ 32) pgnos →
  Forall (λ c, entries_ok stride c ∧ Z.of_nat (length c) <= chain_capacity stride) cs →
  ∃ pages, build_pages ty stride cs pgnos = Ok pages ∧ fst <$> pages = pgnos ∧ chain_along pages cs.
Proof.
  revert pgnos. induction cs as [|c cs IH]; intros [|no pgnos] Hlen Hno Hcs; try done; cbn [build_pages].
  { by exists []. }
  apply Forall_cons in Hno as [Hn Hno], Hcs as [[Hc1 Hc2] Hcs].
  assert (0 <= default 0 (head pgnos) < 2 ^ 32) as Hnx.
  { destruct pgnos as [|x ?]; simpl; [lia|]. apply Forall_cons in Hno as [? _]. lia. }
  destruct (chain_page_ok no (default 0 (head pgnos)) c ltac:(lia) Hnx Hc1 Hc2) as (p & -> & Hp).
  destruct (IH pgnos ltac:(simpl in Hlen; lia) Hno Hcs) as (pages & -> & Hfst & Hal). cbn [mbind Res_bind].
  exists ((no, p) :: pages). split_and!; [done|by csimpl; rewrite Hfst|]. split; [|done].
  assert (fst <$> head pages = if negb (default 0 (head pgnos) =? 0) then Some (default 0 (head pgnos)) else None) as ->; [|done].
  rewrite <-Hfst in Hno |- *. destruct pages as [|[q ?] ?]; [done|]. csimpl. csimpl in Hno.
  apply Forall_cons in Hno as [Hq _]. by rewrite (proj2 (Z.eqb_neq q 0)) by (simpl in Hq; lia).
Qed.

Lemma chunks_concat {A} fuel n (l : list A) :
  (0 < n)%nat → (length l <= fuel)%nat → concat (chunks fuel n l) = l.
Proof.
  intros Hn. revert l. induction fuel as [|fuel IH]; intros [|x l] Hf; try done; [simpl in Hf; lia|].
  cbn [chunks concat]. rewrite IH; [apply take_drop|]. rewrite length_drop. simpl in *. lia.
Qed.

Lemma chunks_sizes {A} fuel n (l : list A) (P : A → Prop) :
  Forall P l → Forall (λ c, Forall P c ∧ (length c <= n)%nat) (chunks fuel n l).
Proof.
  revert l. induction fuel as [|fuel IH]; intros [|x l] Hl; try constructor.
  - split; [by apply Forall_take|]. rewrite length_take. lia.
  - apply IH. by apply Forall_drop.
Qed.

Lemma length_chunks {A} fuel n (l : list A) :
  (0 < n)%nat → (length l <= fuel)%nat → length (chunks fuel n l) = ((length l + n - 1) / n)%nat.
Proof.
  intros Hn. revert l. induction fuel as [|fuel IH]; intros [|x l] Hf; try (simpl in Hf; lia).
  1,2: cbn [chunks length]; symmetry; apply Nat.div_small; lia.
  change (chunks (S fuel) n (x :: l)) with (take n (x :: l) :: chunks fuel n (drop n (x :: l))).
  change (length (take n (x :: l) :: ?c)) with (S (length c)).
  rewrite IH by (rewrite length_drop; simpl in *; lia). rewrite length_drop.
  destruct (Nat.le_gt_cases (length (x :: l)) n) as [Hle|Hgt].
  - replace (length (x :: l) - n)%nat with 0%nat by lia. cbn [Nat.add]. rewrite (Nat.div_small (n - 1)) by lia.
    symmetry. replace (length (x :: l) + n - 1)%nat with (1 * n + (length (x :: l) - 1))%nat by (simpl; lia).
    rewrite Nat.div_add_l by lia. rewrite Nat.div_small by (simpl in *; lia). lia.
  - replace (length (x :: l) + n - 1)%nat with (1 * n + (length (x :: l) - n + n - 1))%nat by lia.
    rewrite Nat.div_add_l by lia. lia.
Qed.

Lemma build_chain_ok entries pgnos :
  stride <= PAGE_SIZE - PAGE_TRAILER - CHAIN_DATA →
  entries_ok stride entries → Forall (λ no, 0 < no < 2 ^ 32) pgnos →
  chain_pages_needed stride (Z.of_nat (length entries)) <= Z.of_nat (length pgnos) →
  ∃ pages cs, build_chain ty stride entries pgnos = Ok pages ∧ fst <$> pages = pgnos ∧
    chain_along pages cs ∧ concat cs = entries.
Proof.
  intros Hbig Hes Hno Hneed.
  assert (1 <= chain_capacity stride) as Hcap by (apply Z.div_le_lower_bound; lia).
  set (cap := Z.to_nat (chain_capacity stride)).
  assert (length (chunks (length entries) cap entries) = ((length entries + cap - 1) / cap)%nat) as Hlen
    by (apply length_chunks; unfold cap; lia).
  assert (Z.of_nat (length (chunks (length entries) cap entries)) <= Z.of_nat (length pgnos)) as Hle.
  { rewrite Hlen, Nat2Z.inj_div. unfold chain_pages_needed in Hneed.
    replace (Z.of_nat (length entries + cap - 1)) with (Z.of_nat (length entries) + chain_capacity stride - 1) by (unfold cap; lia).
    unfold cap. rewrite Z2Nat.id by lia. done. }
  destruct pgnos as [|no pgnos].
  { exists [], []. split_and!; [done..|]. rewrite <-(chunks_concat (length entries) cap entries) by (unfold cap; lia).
    by destruct (chunks _ _ _). }
  unfold build_chain. fold cap. set (cs := chunks (length entries) cap entries) in *.
  set (pad := replicate (length (no :: pgnos) - length cs) []).
  destruct (build_pages_ok (cs ++ pad) (no :: pgnos)) as (pages & Hb & Hfst & Hal); [|done|..].
  - rewrite length_app. unfold pad. rewrite length_replicate. lia.
  - apply Forall_app. split.
    + eapply Forall_impl; [apply (chunks_sizes _ cap _ _ Hes)|]. intros c [Hc Hl]. split; [done|]. unfold cap in Hl. lia.
    + apply Forall_replicate. split; [constructor|simpl; lia].
  - exists pages, (cs ++ pad). split_and!; [done..|]. rewrite concat_app. unfold pad.
    assert (∀ k, concat (replicate k (@nil (list Z))) = []) as -> by (induction k; [done|exact IHk]).
    rewrite app_nil_r. apply chunks_concat; unfold cap; lia.
Qed.
End roundtrip.
