(* ===== verification/Meta.v ===== *)
(** The alternating pair of meta pages (crates/big-page/src/meta.rs). *)
From S2P Require Import Prelude Bits Page.

Definition MAGIC : Z := 0x47494230.
Definition VERSION : Z := 1.
Definition META_PAGES : Z := 2.

Record MetaPage := mkMeta {
  m_txn_id : Z; m_page_count : Z; m_root_records : option Z; m_freelist : option Z;
  m_snapshots : option Z; m_catalog : option Z; m_flags : Z }.

(** [MetaPage::default()]. *)
Definition meta_default : MetaPage := mkMeta 0 0 None None None None 0.

Definition dec_pgno (v : Z) : option Z := if negb (v =? 0) then Some v else None.

Definition slot (m : MetaPage) : Z := m_txn_id m mod META_PAGES.

Section meta.
Context {X : Extern}.

Definition meta_decode (p : Page) : Res PageError MetaPage :=
  _ ← verify_checksum p;
  magic ← rd 4 p 0;
  if negb (magic =? MAGIC) then Err (BadMagic magic)
  else
    version ← rd 4 p 4;
    if negb (version =? VERSION) then Err (UnsupportedVersion version)
    else
      page_size ← rd 4 p 8;
      if negb (page_size =? PAGE_SIZE) then Err (PageSizeMismatch PAGE_SIZE page_size)
      else
        fl ← rd 4 p 12; txn ← rd 8 p 16; count ← rd 8 p 24;
        roots ← rd 4 p 32; free ← rd 4 p 36; snaps ← rd 4 p 40; cat ← rd 4 p 44;
        Ok (mkMeta txn count (dec_pgno roots) (dec_pgno free) (dec_pgno snaps) (dec_pgno cat) fl).

Definition meta_writes (m : MetaPage) : list (Z * list Z) :=
  [ (0, le_bytes 4 MAGIC); (4, le_bytes 4 VERSION); (8, le_bytes 4 PAGE_SIZE);
    (12, le_bytes 4 (m_flags m)); (16, le_bytes 8 (m_txn_id m)); (24, le_bytes 8 (m_page_count m));
    (32, le_bytes 4 (default 0 (m_root_records m))); (36, le_bytes 4 (default 0 (m_freelist m)));
    (40, le_bytes 4 (default 0 (m_snapshots m))); (44, le_bytes 4 (default 0 (m_catalog m))) ].

Definition meta_encode (m : MetaPage) : Res PageError Page :=
  p ← set_header zeroed (slot m) PMeta 0;
  p ← write_all p (meta_writes m);
  seal p.
End meta.

(** [pick_meta]. *)
Definition pick_meta (a b : Res PageError MetaPage) : Res PageError MetaPage :=
  match a, b with
  | Panic, _ | _, Panic => Panic
  | Ok x, Ok y => Ok (if m_txn_id y <=? m_txn_id x then x else y)
  | Ok x, Err _ => Ok x
  | Err _, Ok y => Ok y
  | Err e, Err _ => Err e
  end.

Definition pgno_field (o : option Z) : Prop := match o with Some v => 0 < v < 2 ^ 32 | None => True end.
Definition meta_ok (m : MetaPage) : Prop :=
  0 <= m_txn_id m < 2 ^ 64 ∧ 0 <= m_page_count m < 2 ^ 64 ∧ 0 <= m_flags m < 2 ^ 32 ∧
  pgno_field (m_root_records m) ∧ pgno_field (m_freelist m) ∧ pgno_field (m_snapshots m) ∧
  pgno_field (m_catalog m).

Lemma dec_pgno_default o : pgno_field o → dec_pgno (default 0 o) = o ∧ 0 <= default 0 o < 2 ^ 32.
Proof.
  destruct o as [v|]; simpl; [|done]. intros Hv. unfold dec_pgno.
  rewrite (proj2 (Z.eqb_neq v 0)) by lia. simpl. split; [done|lia].
Qed.

Lemma meta_writes_apart m : StronglySorted apart (meta_writes m).
Proof.
  unfold meta_writes.
  repeat (constructor; [|repeat constructor; unfold apart, disjoint_range; cbn [fst snd];
    rewrite ?length_le_bytes; lia]). constructor.
Qed.

Section laws.
Context {X : Extern} {L : ExternLaws X}.

Lemma meta_encode_page m :
  meta_ok m → ∃ p, meta_encode m = Ok p ∧ page_ok p ∧ verify_checksum p = Ok tt ∧ Forall (reads p) (meta_writes m).
Proof.
  intros Hm. unfold meta_encode, slot.
  assert (0 <= m_txn_id m mod META_PAGES < 2) by (apply Z.mod_pos_bound; unfold META_PAGES; lia).
  destruct (set_header_ok zeroed (m_txn_id m mod META_PAGES) PMeta 0 length_zeroed ltac:(lia) ltac:(lia))
    as (p1 & -> & Hl1 & Hb1 & _). cbn [mbind Res_bind].
  assert (Forall in_page (meta_writes m)) as Hin
    by (repeat constructor; unfold in_page, PAGE_SIZE; cbn [fst snd]; rewrite ?length_le_bytes; lia).
  destruct (write_all_ok p1 _ Hl1 Hin) as (p2 & Hw & Hl2). rewrite Hw. cbn [mbind Res_bind].
  destruct (seal_ok p2 Hl2) as (p3 & -> & Hl3 & Hb3 & Hv3 & Hs3).
  exists p3. split_and!; [done| |done|].
  - split; [done|]. apply Hb3. eapply bytes_write_all; [apply Hb1, bytes_zeroed| |exact Hw].
    repeat constructor; cbn [snd]; auto with bits.
  - pose proof (write_all_reads _ _ _ Hw (meta_writes_apart m)) as Hr.
    apply Forall_forall. intros w Hin2. rewrite Forall_forall in Hr.
    apply (reads_preserved p2); [by apply Hr|]. intros E. eapply slice_transport. apply Hs3.
    unfold meta_writes in Hin2. rewrite !elem_of_cons, elem_of_nil in Hin2.
    destruct_or! Hin2; subst w; cbn [fst snd]; rewrite ?length_le_bytes; unfold PAGE_SIZE, PAGE_TRAILER; lia || done.
Qed.

Lemma meta_roundtrip m : meta_ok m → ∃ p, meta_encode m = Ok p ∧ page_ok p ∧ meta_decode p = Ok m.
Proof.
  intros Hm. destruct (meta_encode_page m Hm) as (p & He & Hp & Hv & Hr). exists p. split_and!; [done..|].
  destruct Hm as (Ht & Hc & Hf & Hr1 & Hr2 & Hr3 & Hr4).
  destruct (dec_pgno_default _ Hr1) as [E1 B1]. destruct (dec_pgno_default _ Hr2) as [E2 B2].
  destruct (dec_pgno_default _ Hr3) as [E3 B3]. destruct (dec_pgno_default _ Hr4) as [E4 B4].
  unfold meta_writes in Hr.
  repeat match goal with H : Forall _ (_ :: _) |- _ => apply Forall_cons in H as [? H] end.
  repeat match goal with H : reads _ (_, le_bytes _ _) |- _ =>
    apply (reads_rd (E:=PageError)) in H; [|unfold MAGIC, VERSION, PAGE_SIZE; lia] end.
  unfold meta_decode. rewrite Hv. cbn [mbind Res_bind]. rewrite H. cbn [mbind Res_bind].
  rewrite Z.eqb_refl. cbn [negb]. rewrite H0. cbn [mbind Res_bind]. rewrite Z.eqb_refl. cbn [negb].
  rewrite H1. cbn [mbind Res_bind]. rewrite Z.eqb_refl. cbn [negb].
  rewrite H2, H3, H4, H5, H6, H7, H8. cbn [mbind Res_bind]. rewrite E1, E2, E3, E4. by destruct m.
Qed.

Lemma meta_decode_no_panic p : page_ok p → no_panic (meta_decode p).
Proof.
  intros [Hl _]. unfold meta_decode, verify_checksum, stored_checksum, compute_checksum, PAGE_TRAILER, PAGE_SIZE in *.
  rewrite !rd_ok by lia. rewrite slice_ok by lia. cbn [mbind Res_bind].
  repeat (destruct (_ =? _); cbn [negb mbind Res_bind]; try done).
Qed.
End laws.

(** The winner is a valid meta, and no valid meta of the pair is newer. *)
Lemma pick_meta_newest a b m :
  pick_meta a b = Ok m → (a = Ok m ∨ b = Ok m) ∧
  (∀ x, a = Ok x → m_txn_id x <= m_txn_id m) ∧ (∀ x, b = Ok x → m_txn_id x <= m_txn_id m).
Proof.
  destruct a as [x|e|], b as [y|f|]; simpl; intros H; simplify_eq.
  - destruct (Z.leb_spec (m_txn_id y) (m_txn_id x)); split_and!; try naive_solver; intros ? [= <-]; lia.
  - split_and!; [by left| |done]. intros ? [= <-]. lia.
  - split_and!; [by right|done|]. intros ? [= <-]. lia.
Qed.
