(* ===== verification/Freelist.v ===== *)
(** The freelist: runs of pages, each stamped with the transaction that freed it
    (crates/big-pager/src/freelist.rs). *)
From S2P Require Import Prelude Bits Page Chain.

Definition FREE_ENTRY_BYTES : Z := 16.
Definition FREE_PER_PAGE : Z := chain_capacity FREE_ENTRY_BYTES.

Record FreeRun := mkRun { fr_freed_at : Z; fr_first : Z; fr_len : Z }.

#[export] Instance FreeRun_eq_dec : EqDecision FreeRun.
Proof. solve_decision. Defined.

Definition run_encode (r : FreeRun) : list Z :=
  le_bytes 8 (fr_freed_at r) ++ le_bytes 4 (fr_first r) ++ le_bytes 4 (fr_len r).
Definition run_decode {E} (b : list Z) : Res E FreeRun :=
  t ← rd 8 b 0; f ← rd 4 b 8; n ← rd 4 b 12; Ok (mkRun t f n).

(** A [Freelist] is its [runs]. *)
Definition Freelist := list FreeRun.

(** The order [sort_unstable_by_key] puts the runs in: by first page, then by stamp.  The sort of
    the model is stable, which is one of the orders the unstable one may choose. *)
Definition run_le (a b : FreeRun) : Prop :=
  fr_first a < fr_first b ∨ (fr_first a = fr_first b ∧ fr_freed_at a <= fr_freed_at b).
#[export] Instance run_le_dec : RelDecision run_le.
Proof. intros a b. unfold run_le. apply _. Defined.

(** The body of [compact]'s loop: [merged] is built at its end. *)
Definition merge_run (merged : list FreeRun) (r : FreeRun) : list FreeRun :=
  match last merged with
  | Some prev =>
      if (fr_freed_at prev =? fr_freed_at r) && (fr_first prev + fr_len prev =? fr_first r)
      then removelast merged ++ [mkRun (fr_freed_at prev) (fr_first prev) ((fr_len prev + fr_len r) mod 2 ^ 32)]
      else merged ++ [r]
  | None => merged ++ [r]
  end.

Definition compact (f : Freelist) : Freelist :=
  if (length f <? 2)%nat then f else foldl merge_run [] (merge_sort run_le f).

Definition free_from_entries {E} (entries : list (list Z)) : Res E Freelist :=
  runs ← res_mapM run_decode entries; Ok (compact runs).

Definition total_pages (f : Freelist) : Z := foldr (λ r n, fr_len r + n) 0 f.
Definition reusable_pages (f : Freelist) (horizon : Z) : Z :=
  total_pages (List.filter (λ r, fr_freed_at r <=? horizon) f).
Definition pending_pages (f : Freelist) (horizon : Z) : Z := total_pages f - reusable_pages f horizon.

(** [Freelist::push]. *)
Definition free_push (f : Freelist) (pgno freed_at : Z) : Freelist := f ++ [mkRun freed_at pgno 1].

(** [absorb_scratch]: [sort_unstable], [dedup], then the pages flush against the end are given
    back by lowering [next].  The list is kept descending, so that [last] and [pop] are its head;
    its length bounds the loop. *)
Fixpoint dedup_pages (l : list Z) : list Z :=
  match l with
  | [] => []
  | x :: l' => match l' with [] => [x] | y :: _ => if x =? y then dedup_pages l' else x :: dedup_pages l' end
  end.

Fixpoint drop_tail (desc : list Z) (next : Z) : list Z * Z :=
  match desc with
  | [] => ([], next)
  | p :: desc' => if p + 1 =? next then drop_tail desc' (next - 1) else (desc, next)
  end.

Definition absorb_scratch (f : Freelist) (scratch : list Z) (next_pgno freed_at : Z) : Freelist * Z :=
  match scratch with
  | [] => (f, next_pgno)
  | _ :: _ =>
      let sorted := dedup_pages (merge_sort Z.le scratch) in
      let '(desc, next) := drop_tail (rev sorted) next_pgno in
      (foldl (λ f p, free_push f p freed_at) f (rev desc), next)
  end.

(** [Freelist::alloc]: [position], then the front page of that run. *)
Fixpoint free_alloc (f : Freelist) (horizon : Z) : option (Z * Freelist) :=
  match f with
  | [] => None
  | r :: f' =>
      if fr_freed_at r <=? horizon then
        let len := (fr_len r - 1) mod 2 ^ 32 in
        Some (fr_first r,
              if len =? 0 then f' else mkRun (fr_freed_at r) ((fr_first r + 1) mod 2 ^ 32) len :: f')
      else '(p, f'') ← free_alloc f' horizon; Some (p, r :: f'')
  end.

(** The search of [trim_tail]: the first reusable run that ends at [stop], taken out. *)
Fixpoint take_flush (f : Freelist) (stop horizon : Z) : option (FreeRun * Freelist) :=
  match f with
  | [] => None
  | r :: f' =>
      if (fr_freed_at r <=? horizon) && (fr_first r + fr_len r =? stop) then Some (r, f')
      else '(x, f'') ← take_flush f' stop horizon; Some (x, r :: f'')
  end.

(** The [loop] of [trim_tail]; every round removes a run, so their number is enough fuel. *)
Fixpoint trim_loop (fuel : nat) (f : Freelist) (stop horizon : Z) : Freelist * Z :=
  match fuel with
  | O => (f, stop)
  | S fuel' =>
      match take_flush f stop horizon with
      | Some (r, f') => trim_loop fuel' f' (stop - fr_len r) horizon
      | None => (f, stop)
      end
  end.
Definition trim_tail (f : Freelist) (page_count horizon : Z) : Freelist * Z :=
  let '(f', stop) := trim_loop (length f) f page_count horizon in (f', page_count - stop).

Definition entry_count (f : Freelist) : Z := Z.of_nat (length f).
Definition free_encode (f : Freelist) : list (list Z) := run_encode <$> f.

(** * The pages a freelist holds, each with its stamp *)
Definition run_pages (r : FreeRun) : list (Z * Z) := (λ p, (p, fr_freed_at r)) <$> seqZ (fr_first r) (fr_len r).
Definition stamped (f : Freelist) : list (Z * Z) := concat (run_pages <$> f).

(** What a run of a sound file is: at least one page, all of them page numbers. *)
Definition run_ok (r : FreeRun) : Prop :=
  0 <= fr_freed_at r < 2 ^ 64 ∧ 0 <= fr_first r ∧ 0 < fr_len r ∧ fr_first r + fr_len r <= 2 ^ 32 - 1.

Lemma stamped_app f g : stamped (f ++ g) = stamped f ++ stamped g.
Proof. unfold stamped. by rewrite fmap_app, concat_app. Qed.

Lemma stamped_cons r f : stamped (r :: f) = run_pages r ++ stamped f.
Proof. done. Qed.

Lemma stamped_perm f g : f ≡ₚ g → stamped f ≡ₚ stamped g.
Proof.
  induction 1; rewrite ?stamped_cons; try done.
  - by f_equiv.
  - by rewrite !app_assoc, (Permutation_app_comm (run_pages y)).
  - etrans; eauto.
Qed.
#[export] Instance stamped_proper : Proper ((≡ₚ) ==> (≡ₚ)) stamped.
Proof. intros f g. apply stamped_perm. Qed.

Lemma elem_of_run_pages r p t : (p, t) ∈ run_pages r ↔ t = fr_freed_at r ∧ fr_first r <= p < fr_first r + fr_len r.
Proof. unfold run_pages. rewrite list_elem_of_fmap. setoid_rewrite elem_of_seqZ. naive_solver. Qed.

Lemma elem_of_stamped f p t :
  (p, t) ∈ stamped f ↔ ∃ r, r ∈ f ∧ t = fr_freed_at r ∧ fr_first r <= p < fr_first r + fr_len r.
Proof.
  induction f as [|r f IH]; [by split; [intros []%not_elem_of_nil|intros (?&?%not_elem_of_nil&_)]|].
  rewrite stamped_cons, elem_of_app, elem_of_run_pages, IH. setoid_rewrite elem_of_cons. naive_solver.
Qed.

(** ** Compaction keeps every page and every stamp *)
Lemma run_pages_join t a n m :
  0 <= n → 0 <= m →
  run_pages (mkRun t a (n + m)) = run_pages (mkRun t a n) ++ run_pages (mkRun t (a + n) m).
Proof. intros. unfold run_pages. cbn [fr_first fr_len fr_freed_at]. by rewrite seqZ_app, fmap_app. Qed.

Lemma merge_run_spec merged r :
  Forall run_ok merged → run_ok r →
  Forall run_ok (merge_run merged r) ∧ stamped (merge_run merged r) = stamped merged ++ run_pages r.
Proof.
  intros Hm Hr. unfold merge_run. destruct (last merged) as [prev|] eqn:Hl.
  2:{ split; [by rewrite Forall_app, Forall_singleton|]. by rewrite stamped_app, stamped_cons, app_nil_r. }
  apply last_Some in Hl as [init ->]. rewrite removelast_last.
  apply Forall_app in Hm as [Hi Hp]. rewrite Forall_singleton in Hp.
  destruct (Z.eqb_spec (fr_freed_at prev) (fr_freed_at r)) as [Ht|];
    destruct (Z.eqb_spec (fr_first prev + fr_len prev) (fr_first r)) as [Hj|]; cbn [andb].
  2-4: split; [rewrite !Forall_app, !Forall_singleton; tauto|]; by rewrite !stamped_app, !stamped_cons, !app_nil_r.
  destruct prev as [t a n], r as [t' b m]. unfold run_ok in *. cbn [fr_first fr_len fr_freed_at] in *. subst t' b.
  rewrite Z.mod_small by lia. split.
  - apply Forall_app. split; [done|]. constructor; [|done]. cbn. lia.
  - rewrite !stamped_app, !stamped_cons, !app_nil_r, run_pages_join by lia. by rewrite app_assoc.
Qed.

Lemma merge_runs_spec l merged :
  Forall run_ok merged → Forall run_ok l →
  Forall run_ok (foldl merge_run merged l) ∧ stamped (foldl merge_run merged l) = stamped merged ++ stamped l.
Proof.
  intros Hm Hl. revert merged Hm. induction Hl as [|r l Hr Hl IH]; intros merged Hm; cbn [foldl].
  { split; [done|]. by rewrite app_nil_r. }
  destruct (merge_run_spec merged r Hm Hr) as [Hm' Hs]. destruct (IH _ Hm') as [? ->]. split; [done|].
  by rewrite Hs, stamped_cons, app_assoc.
Qed.

Lemma compact_spec f : Forall run_ok f → Forall run_ok (compact f) ∧ stamped (compact f) ≡ₚ stamped f.
Proof.
  intros Hf. unfold compact. destruct (_ <? _)%nat; [done|].
  pose proof (merge_sort_Permutation run_le f) as Hp.
  destruct (merge_runs_spec (merge_sort run_le f) []) as [Hok Hs]; [constructor|by rewrite Hp|].
  split; [done|]. rewrite Hs. cbn. by rewrite Hp.
Qed.

(** ** Allocation *)
Lemma free_alloc_spec f horizon p f' :
  Forall run_ok f → free_alloc f horizon = Some (p, f') →
  ∃ t, t <= horizon ∧ stamped f ≡ₚ (p, t) :: stamped f' ∧ Forall run_ok f' ∧ (length f' <= length f)%nat.
Proof.
  revert p f'. induction f as [|r f IH]; intros p f' Hf H; [done|]. cbn [free_alloc] in H.
  apply Forall_cons in Hf as [Hr Hf]. destruct (Z.leb_spec (fr_freed_at r) horizon) as [Hle|Hgt].
  - destruct r as [t a n]. unfold run_ok in *. cbn [fr_first fr_len fr_freed_at] in *.
    rewrite !Z.mod_small in H by lia. injection H as <- <-. exists t. split; [done|].
    rewrite stamped_cons. replace n with (1 + (n - 1)) at 1 by lia. rewrite run_pages_join by lia.
    change (run_pages (mkRun t a 1)) with [(a, t)]. destruct (Z.eqb_spec (n - 1) 0) as [H1|H1].
    + rewrite H1. split_and!; [done..|simpl; lia].
    + rewrite stamped_cons. split_and!; [done|constructor; [cbn; lia|done]|simpl; lia].
  - destruct (free_alloc f horizon) as [[q g]|] eqn:He; [|done]. simpl in H. injection H as <- <-.
    destruct (IH q g Hf eq_refl) as (t & Ht & Hs & Hok & Hlen). exists t.
    split_and!; [done| |by constructor|simpl; lia].
    rewrite !stamped_cons, Hs. apply Permutation_app_swap_app with (l2 := [(q, t)]).
Qed.

Lemma free_alloc_none f horizon : free_alloc f horizon = None → Forall (λ r, horizon < fr_freed_at r) f.
Proof.
  induction f as [|r f IH]; intros H; constructor; cbn [free_alloc] in H;
    destruct (Z.leb_spec (fr_freed_at r) horizon); try done; destruct (free_alloc f horizon) as [[]|]; try done; auto.
Qed.

(** ** Trimming the tail *)
Lemma take_flush_spec f stop horizon r f' :
  take_flush f stop horizon = Some (r, f') →
  f ≡ₚ r :: f' ∧ fr_freed_at r <= horizon ∧ fr_first r + fr_len r = stop ∧ (length f = S (length f')).
Proof.
  revert r f'. induction f as [|x f IH]; intros r f' H; [done|]. cbn [take_flush] in H.
  destruct (_ && _) eqn:Hc.
  - injection H as -> ->. apply andb_true_iff in Hc as [??]. split_and!; [done|lia|lia|done].
  - destruct (take_flush f stop horizon) as [[y g]|] eqn:He; [|done]. simpl in H. injection H as <- <-.
    destruct (IH y g eq_refl) as (Hp & ?&?&Hl). split_and!; [|done|done|simpl; by rewrite Hl].
    rewrite Hp. apply Permutation_swap.
Qed.

Lemma take_flush_none f stop horizon :
  take_flush f stop horizon = None → ∀ r, r ∈ f → fr_freed_at r <= horizon → fr_first r + fr_len r ≠ stop.
Proof.
  induction f as [|x f IH]; intros H r Hr; [by apply elem_of_nil in Hr|]. cbn [take_flush] in H.
  destruct (_ && _) eqn:Hc; [done|]. destruct (take_flush f stop horizon) as [[]|]; [done|].
  apply elem_of_cons in Hr as [->|Hr]; [lia|by apply IH].
Qed.

Lemma trim_loop_spec fuel f stop horizon f' stop' :
  Forall run_ok f → (length f <= fuel)%nat → trim_loop fuel f stop horizon = (f', stop') →
  Forall run_ok f' ∧ stop' <= stop ∧ (length f' <= length f)%nat ∧
  (∃ cut, stamped f ≡ₚ cut ++ stamped f' ∧ fst <$> cut ≡ₚ seqZ stop' (stop - stop') ∧ Forall (λ x, snd x <= horizon) cut) ∧
  (∀ r, r ∈ f' → fr_freed_at r <= horizon → fr_first r + fr_len r ≠ stop').
Proof.
  revert f stop. induction fuel as [|fuel IH]; intros f stop Hf Hlen H; cbn [trim_loop] in H.
  { injection H as <- <-. destruct f; [|simpl in Hlen; lia]. split_and!; [done|lia|done| |].
    - exists []. rewrite Z.sub_diag, seqZ_nil by lia. done.
    - intros r Hr. by apply elem_of_nil in Hr. }
  destruct (take_flush f stop horizon) as [[r g]|] eqn:He.
  - destruct (take_flush_spec _ _ _ _ _ He) as (Hp & Ht & Hs & Hl). rewrite Hp in Hf.
    apply Forall_cons in Hf as [Hr Hg]. destruct Hr as (?&?&?&?).
    destruct (IH g (stop - fr_len r) Hg ltac:(lia) H) as (Hok & Hle & Hlen' & (cut & Hc1 & Hc2 & Hc3) & Hmax).
    split_and!; [done|lia|lia| |done]. exists (run_pages r ++ cut). split_and!.
    + rewrite Hp, stamped_cons, Hc1. by rewrite app_assoc.
    + rewrite fmap_app, Hc2. unfold run_pages. rewrite <-list_fmap_compose.
      assert (fst ∘ (λ p, (p, fr_freed_at r)) <$> seqZ (fr_first r) (fr_len r) = seqZ (fr_first r) (fr_len r)) as ->
        by (by rewrite list_fmap_id).
      replace (stop - stop') with ((stop - fr_len r - stop') + fr_len r) by lia.
      rewrite seqZ_app by lia. replace (stop' + (stop - fr_len r - stop')) with (fr_first r) by lia.
      apply Permutation_app_comm.
    + apply Forall_app. split; [|done]. apply Forall_forall. intros [p t] [-> _]%elem_of_run_pages. done.
  - injection H as <- <-. split_and!; [done|lia|done| |by apply take_flush_none].
    exists []. rewrite Z.sub_diag, seqZ_nil by lia. done.
Qed.

(** ** Scratch pages *)
Lemma dedup_pages_spec l :
  Sorted Z.le l → ascending (dedup_pages l) ∧ (∀ x, x ∈ dedup_pages l ↔ x ∈ l) ∧ (∀ x, head (dedup_pages l) = Some x ↔ head l = Some x).
Proof.
  intros Hs%Sorted_StronglySorted; [|intros ???; lia]. induction Hs as [|x l Hs IH Hx]; [by repeat split; try constructor|].
  destruct IH as (Ha & Hin & Hh). destruct l as [|y l].
  { repeat split; try done; repeat constructor. }
  change (dedup_pages (x :: y :: l)) with (if x =? y then dedup_pages (y :: l) else x :: dedup_pages (y :: l)).
  inversion Hx as [|?? Hxy Hxl]; subst. destruct (Z.eqb_spec x y) as [->|Hne].
  - split_and!; [done| |].
    + intros z. rewrite Hin. rewrite !elem_of_cons. tauto.
    + intros z. by rewrite Hh.
  - split_and!.
    + constructor; [done|]. apply Forall_forall. intros z Hz%Hin.
      apply StronglySorted_inv in Hs as [_ Hy]. rewrite Forall_forall in Hy.
      apply elem_of_cons in Hz as [->|Hz]; [lia|]. specialize (Hy z Hz). lia.
    + intros z. rewrite elem_of_cons, Hin. by rewrite (elem_of_cons (y :: l)).
    + done.
Qed.

Lemma drop_tail_spec desc next rest next' :
  drop_tail desc next = (rest, next') → StronglySorted Z.gt desc → Forall (λ p, p < next) desc →
  next' <= next ∧ StronglySorted Z.gt rest ∧
  (∀ p, p ∈ desc ↔ p ∈ rest ∨ next' <= p < next) ∧ Forall (λ p, p + 1 < next') rest.
Proof.
  revert next. induction desc as [|p desc IH]; intros next H Hs Hlt; cbn [drop_tail] in H.
  { injection H as <- <-. split_and!; [lia|constructor| |constructor].
    intros p. split; [intros []%not_elem_of_nil|]. intros [[]%not_elem_of_nil|?]. lia. }
  apply StronglySorted_inv in Hs as [Hs Hp]. apply Forall_cons in Hlt as [Hpn Hlt].
  rewrite Forall_forall in Hp. destruct (Z.eqb_spec (p + 1) next) as [He|Hne].
  - destruct (IH (next - 1) H Hs) as (Hle & Hs' & Hin & Hr).
    { apply Forall_forall. intros q Hq%Hp. lia. }
    split_and!; [lia|done| |done]. intros q. rewrite elem_of_cons, Hin. split.
    + intros [->|[?|?]]; [|by left|right; lia]. right. lia.
    + intros [?|?]; [by right; left|]. destruct (decide (q = p)) as [->|]; [by left|right; right; lia].
  - injection H as <- <-. split_and!; [lia|by constructor; [|apply Forall_forall]| |].
    + intros q. split; [by left|]. intros [?|?]; [done|lia].
    + constructor; [lia|]. apply Forall_forall. intros q Hq%Hp. lia.
Qed.

Lemma stamped_pushes f ps t :
  Forall run_ok f → 0 <= t < 2 ^ 64 → Forall (λ p, 0 <= p < 2 ^ 32 - 1) ps →
  Forall run_ok (foldl (λ f p, free_push f p t) f ps) ∧
  stamped (foldl (λ f p, free_push f p t) f ps) = stamped f ++ ((λ p, (p, t)) <$> ps).
Proof.
  intros Hf Ht Hps. revert f Hf. induction Hps as [|p ps Hp Hps IH]; intros f Hf; cbn [foldl].
  { by rewrite app_nil_r. }
  destruct (IH (free_push f p t)) as [Hok Hs].
  { unfold free_push. rewrite Forall_app, Forall_singleton. split; [done|]. unfold run_ok. cbn. lia. }
  split; [done|]. rewrite Hs. unfold free_push. rewrite stamped_app, <-app_assoc. done.
Qed.

Lemma StronglySorted_rev l : ascending l → StronglySorted Z.gt (rev l).
Proof.
  induction 1 as [|x l Hl IH Hx]; cbn [rev]; [constructor|].
  apply StronglySorted_app_2; [|done|repeat constructor].
  intros y z Hy ->%list_elem_of_singleton. rewrite Forall_forall in Hx.
  assert (y ∈ l) as Hin by (by apply list_elem_of_In, in_rev, list_elem_of_In). apply Hx in Hin. lia.
Qed.

Lemma absorb_scratch_spec f scratch next t f' next' :
  Forall run_ok f → 0 <= t < 2 ^ 64 → Forall (λ p, 0 <= p < next) scratch → next <= 2 ^ 32 - 1 →
  absorb_scratch f scratch next t = (f', next') →
  next' <= next ∧ Forall run_ok f' ∧
  (∃ ps, ascending ps ∧ stamped f' ≡ₚ stamped f ++ ((λ p, (p, t)) <$> ps) ∧
     (∀ p, p ∈ scratch ↔ p ∈ ps ∨ next' <= p < next) ∧ Forall (λ p, p + 1 < next') ps).
Proof.
  intros Hf Ht Hsc Hn H. destruct scratch as [|x sc].
  { injection H as <- <-. split_and!; [lia|done|]. exists []. rewrite app_nil_r. split_and!; [constructor|done| |constructor].
    intros p. split; [intros []%not_elem_of_nil|]. intros [[]%not_elem_of_nil|?]. lia. }
  unfold absorb_scratch in H. set (sc0 := x :: sc) in *.
  destruct (drop_tail (rev (dedup_pages (merge_sort Z.le sc0))) next) as [desc nx] eqn:Hd.
  injection H as <- <-.
  pose proof (Sorted_merge_sort Z.le sc0) as Hs. pose proof (merge_sort_Permutation Z.le sc0) as Hp.
  destruct (dedup_pages_spec _ Hs) as (Ha & Hin & _).
  assert (∀ p, p ∈ rev (dedup_pages (merge_sort Z.le sc0)) ↔ p ∈ sc0) as Hrev.
  { intros p. rewrite list_elem_of_In, <-in_rev, <-list_elem_of_In, Hin. by rewrite Hp. }
  destruct (drop_tail_spec _ _ _ _ Hd (StronglySorted_rev _ Ha)) as (Hle & Hsd & Hmem & Hlt).
  { apply Forall_forall. intros p Hp'%Hrev. rewrite Forall_forall in Hsc. specialize (Hsc p Hp'). lia. }
  assert (∀ p, p ∈ rev desc ↔ p ∈ desc) as Hrd by (intros p; by rewrite !list_elem_of_In, <-in_rev).
  assert (Forall (λ p, 0 <= p < 2 ^ 32 - 1) (rev desc)) as Hb.
  { apply Forall_forall. intros p Hp'%Hrd. rewrite Forall_forall in Hsc, Hlt.
    assert (p ∈ sc0) as Hp2 by (apply Hrev, Hmem; by left). apply Hsc in Hp2. lia. }
  destruct (stamped_pushes f (rev desc) t Hf Ht Hb) as [Hok Hst].
  split_and!; [done..|]. exists (rev desc). split_and!.
  - clear -Hsd. induction Hsd as [|y l Hl IH Hy]; cbn [rev]; [constructor|].
    apply ascending_snoc; [done|]. apply Forall_forall. intros z Hz.
    rewrite Forall_forall in Hy. assert (z ∈ l) as Hz2 by (by apply list_elem_of_In, in_rev, list_elem_of_In).
    apply Hy in Hz2. lia.
  - by rewrite Hst.
  - intros p. by rewrite <-Hrev, Hmem, Hrd.
  - apply Forall_forall. intros p Hp'%Hrd. rewrite Forall_forall in Hlt. by apply Hlt.
Qed.

(** ** On disk *)
Lemma run_decode_encode {E} r : run_ok r → run_decode (E:=E) (run_encode r) = Ok r.
Proof.
  destruct r as [t a n]. unfold run_ok, run_decode, run_encode. cbn [fr_first fr_len fr_freed_at]. intros H.
  rewrite <-(app_nil_r (le_bytes 4 n)). by rd_fields.
Qed.

Lemma free_roundtrip {E} f : Forall run_ok f → free_from_entries (E:=E) (free_encode f) = Ok (compact f).
Proof.
  intros Hf. unfold free_from_entries, free_encode.
  assert (res_mapM (run_decode (E:=E)) (run_encode <$> f) = Ok f) as ->; [|done].
  apply res_mapM_ok. induction Hf as [|r f Hr Hf IH]; constructor; [by apply run_decode_encode|done].
Qed.

Lemma free_entries_ok f : entries_ok FREE_ENTRY_BYTES (free_encode f).
Proof.
  apply Forall_fmap, Forall_true. intros r. cbn. unfold run_encode. rewrite !length_app, !length_le_bytes.
  split; [done|]. rewrite !Forall_app. auto with bits.
Qed.

(** ** Page order: what lets the tail of the file empty out *)
Definition in_page_order (f : Freelist) : Prop := StronglySorted (λ a b, fr_first a <= fr_first b) f.

Lemma merge_run_order merged r :
  in_page_order merged → Forall (λ x, fr_first x <= fr_first r) merged →
  in_page_order (merge_run merged r) ∧ Forall (λ x, fr_first x <= fr_first r) (merge_run merged r).
Proof.
  intros Hs Hle. unfold merge_run.
  assert (in_page_order (merged ++ [r]) ∧ Forall (λ x, fr_first x <= fr_first r) (merged ++ [r])) as Hsnoc.
  { split; [|rewrite Forall_app, Forall_singleton; split; [done|lia]].
    apply StronglySorted_app_2; [|done|repeat constructor].
    intros x y Hx ->%list_elem_of_singleton. rewrite Forall_forall in Hle. by apply Hle. }
  destruct (last merged) as [prev|] eqn:Hl; [|done]. destruct (_ && _); [|done].
  apply last_Some in Hl as [init ->]. rewrite removelast_last.
  apply Forall_app in Hle as [Hi Hp]. rewrite Forall_singleton in Hp.
  split; [|rewrite Forall_app, Forall_singleton; done].
  apply StronglySorted_app in Hs as (Hcross & Hio & _).
  apply StronglySorted_app_2; [|done|repeat constructor].
  intros x y Hx ->%list_elem_of_singleton. cbn. apply (Hcross x prev); [done|]. by apply list_elem_of_singleton.
Qed.

Lemma compact_order f : in_page_order (compact f).
Proof.
  unfold compact. destruct (Nat.ltb_spec (length f) 2) as [Hlt|_].
  { destruct f as [|x [|y f]]; [constructor|repeat constructor|simpl in Hlt; lia]. }
  assert (StronglySorted (λ a b, fr_first a <= fr_first b) (merge_sort run_le f)) as Hs.
  { assert (Sorted run_le (merge_sort run_le f)) as H.
    { apply Sorted_merge_sort. intros a b. unfold run_le. lia. }
    apply Sorted_StronglySorted in H; [|intros a b c; unfold run_le; lia].
    clear -H. induction H as [|x l Hl IH Hx]; constructor; [done|].
    eapply Forall_impl; [exact Hx|]. unfold run_le. simpl. lia. }
  assert (∀ l merged, StronglySorted (λ a b, fr_first a <= fr_first b) l → in_page_order merged →
    (∀ r, r ∈ l → Forall (λ x, fr_first x <= fr_first r) merged) → in_page_order (foldl merge_run merged l)) as Hgen.
  { intros l merged Hl. revert merged. induction Hl as [|r l Hl IH Hr]; intros merged Hm Hle; cbn [foldl]; [done|].
    destruct (merge_run_order merged r Hm (Hle r ltac:(by left))) as [Ho Hf].
    apply IH; [done|]. intros x Hx. rewrite Forall_forall in Hr. specialize (Hr x Hx).
    eapply Forall_impl; [exact Hf|]. simpl. lia. }
  apply Hgen; [done|constructor|]. intros; constructor.
Qed.

(** The page handed out is the lowest that may be. *)
Lemma free_alloc_lowest f horizon p f' q t :
  in_page_order f → free_alloc f horizon = Some (p, f') → (q, t) ∈ stamped f → t <= horizon → p <= q.
Proof.
  intros Hs. revert f'. induction Hs as [|r f Hs IH Hr]; intros f' H Hq Ht; [done|]. cbn [free_alloc] in H.
  apply elem_of_stamped in Hq as (x & Hx & -> & Hq). rewrite Forall_forall in Hr.
  destruct (Z.leb_spec (fr_freed_at r) horizon).
  - injection H as <- _. apply elem_of_cons in Hx as [->|Hx]; [lia|]. specialize (Hr x Hx). simpl in Hr. lia.
  - destruct (free_alloc f horizon) as [[p0 g]|]; [|done]. simpl in H. injection H as -> _.
    apply elem_of_cons in Hx as [->|Hx]; [lia|]. eapply IH; [done| |done].
    apply elem_of_stamped. eauto.
Qed.
