(* ===== verification/Snapshot.v ===== *)
(** The snapshot registry (crates/big-pager/src/snapshot.rs). *)
From S2P Require Import Prelude Bits Page Chain.

Definition SNAPSHOT_ENTRY_BYTES : Z := 64.
Definition SNAPSHOT_NAME_LEN : Z := 32.
Definition SNAP_PINNED : Z := 1.

Record Snapshot := mkSnapshot {
  sn_id : Z; sn_txn_id : Z; sn_root_records : Z; sn_flags : Z; sn_expires_at : Z; sn_name : list Z }.

#[export] Instance Snapshot_eq_dec : EqDecision Snapshot.
Proof. solve_decision. Defined.

Definition is_pinned (s : Snapshot) : bool := negb (Z.land (sn_flags s) SNAP_PINNED =? 0).
Definition is_expired (s : Snapshot) (now : Z) : bool := negb (is_pinned s) && (sn_expires_at s <=? now).

(** [Snapshot::make_name], over the bytes of the string: cut at 32, padded with zeros. *)
Definition make_name (b : list Z) : list Z :=
  let len := Nat.min (length b) (Z.to_nat SNAPSHOT_NAME_LEN) in
  take len b ++ replicate (Z.to_nat SNAPSHOT_NAME_LEN - len) 0.

Definition snap_encode (s : Snapshot) : list Z :=
  le_bytes 8 (sn_id s) ++ le_bytes 8 (sn_txn_id s) ++ le_bytes 4 (sn_root_records s) ++
  le_bytes 4 (sn_flags s) ++ le_bytes 8 (sn_expires_at s) ++ sn_name s.
Definition snap_decode {E} (b : list Z) : Res E Snapshot :=
  i ← rd 8 b 0; t ← rd 8 b 8; r ← rd 4 b 16; f ← rd 4 b 20; e ← rd 8 b 24; n ← slice b 32 32;
  Ok (mkSnapshot i t r f e n).

Record SnapshotRegistry := mkRegistry { sr_snaps : list Snapshot; sr_next_id : Z }.

(** [iter().max()] over [u64]s, [None] when there are none. *)
Definition maximum (l : list Z) : option Z :=
  match l with [] => None | x :: l' => Some (foldl Z.max x l') end.
Definition minimum (l : list Z) : option Z :=
  match l with [] => None | x :: l' => Some (foldl Z.min x l') end.

Definition snaps_from_entries {E} (entries : list (list Z)) : Res E SnapshotRegistry :=
  snaps ← res_mapM snap_decode entries;
  Ok (mkRegistry snaps (match maximum (sn_id <$> snaps) with Some m => (m + 1) mod 2 ^ 64 | None => 1 end)).

Definition snap_get (r : SnapshotRegistry) (id : Z) : option Snapshot :=
  List.find (λ s, sn_id s =? id) (sr_snaps r).

Definition snap_create (r : SnapshotRegistry) (txn_id root_records expires_at : Z) (name : list Z) (pinned : bool)
    : SnapshotRegistry * Snapshot :=
  let snap := mkSnapshot (sr_next_id r) txn_id root_records (if pinned then SNAP_PINNED else 0) expires_at (make_name name) in
  (mkRegistry (sr_snaps r ++ [snap]) ((sr_next_id r + 1) mod 2 ^ 64), snap).

(** [position] and [Vec::remove]. *)
Fixpoint remove_id (id : Z) (l : list Snapshot) : option (Snapshot * list Snapshot) :=
  match l with
  | [] => None
  | s :: l' => if sn_id s =? id then Some (s, l') else '(x, l'') ← remove_id id l'; Some (x, s :: l'')
  end.
Definition snap_remove (r : SnapshotRegistry) (id : Z) : SnapshotRegistry * option Snapshot :=
  match remove_id id (sr_snaps r) with
  | Some (s, l) => (mkRegistry l (sr_next_id r), Some s)
  | None => (r, None)
  end.

Definition snap_expire (r : SnapshotRegistry) (now : Z) : SnapshotRegistry * list Snapshot :=
  let '(dead, alive) := List.partition (λ s, is_expired s now) (sr_snaps r) in
  (mkRegistry alive (sr_next_id r), dead).

Definition oldest_txn_id (r : SnapshotRegistry) : option Z := minimum (sn_txn_id <$> sr_snaps r).

Definition snaps_encode (r : SnapshotRegistry) : list (list Z) := snap_encode <$> sr_snaps r.

(** * The invariant: ids are distinct and none is due to be issued again *)
Definition registry_ok (r : SnapshotRegistry) : Prop :=
  NoDup (sn_id <$> sr_snaps r) ∧ Forall (λ s, 0 <= sn_id s < sr_next_id r) (sr_snaps r) ∧ 0 <= sr_next_id r.

Definition snap_typed (s : Snapshot) : Prop :=
  0 <= sn_id s < 2 ^ 64 ∧ 0 <= sn_txn_id s < 2 ^ 64 ∧ 0 <= sn_root_records s < 2 ^ 32 ∧
  0 <= sn_flags s < 2 ^ 32 ∧ 0 <= sn_expires_at s < 2 ^ 64 ∧ length (sn_name s) = 32%nat ∧ Forall byte (sn_name s).

Lemma create_registry_ok r t rt e n p :
  registry_ok r → sr_next_id r < 2 ^ 64 - 1 →
  registry_ok (fst (snap_create r t rt e n p)) ∧
  snap_get (fst (snap_create r t rt e n p)) (sr_next_id r) = Some (snd (snap_create r t rt e n p)) ∧
  (∀ id, id ≠ sr_next_id r → snap_get (fst (snap_create r t rt e n p)) id = snap_get r id).
Proof.
  intros (Hnd & Hlt & H0) Hn. unfold snap_create. cbn [fst snd]. rewrite Z.mod_small by lia.
  unfold registry_ok, snap_get. cbn [sr_snaps sr_next_id].
  assert (List.find (λ s, sn_id s =? sr_next_id r) (sr_snaps r) = None) as Hnone.
  { apply find_absent. intros s Hs. rewrite Forall_forall in Hlt. specialize (Hlt s Hs). simpl in Hlt. lia. }
  split; [split_and!|split].
  - rewrite fmap_app. apply NoDup_app. split_and!; [done| |apply NoDup_singleton].
    intros i (s & -> & Hs)%list_elem_of_fmap Hi%list_elem_of_singleton. rewrite Forall_forall in Hlt.
    specialize (Hlt s Hs). simpl in Hlt, Hi. lia.
  - rewrite Forall_app, Forall_singleton. cbn. split; [|lia]. eapply Forall_impl; [exact Hlt|]. simpl. lia.
  - lia.
  - rewrite find_app, Hnone. cbn. by rewrite Z.eqb_refl.
  - intros id Hid. rewrite find_app. cbn. destruct (Z.eqb_spec (sr_next_id r) id); [congruence|].
    by destruct (List.find (λ s, sn_id s =? id) (sr_snaps r)).
Qed.

Lemma remove_id_spec id l s l' :
  remove_id id l = Some (s, l') → sn_id s = id ∧ l ≡ₚ s :: l'.
Proof.
  revert s l'. induction l as [|x l IH]; intros s l' H; [done|]. cbn [remove_id] in H.
  destruct (Z.eqb_spec (sn_id x) id); [by simplify_eq|].
  destruct (remove_id id l) as [[y k]|]; [|done]. simpl in H. simplify_eq.
  destruct (IH _ _ eq_refl) as [? ->]. split; [done|]. apply Permutation_swap.
Qed.

Lemma remove_id_none id l : remove_id id l = None → Forall (λ s, sn_id s ≠ id) l.
Proof.
  induction l as [|x l IH]; intros H; constructor; cbn [remove_id] in H;
    destruct (Z.eqb_spec (sn_id x) id); try done; destruct (remove_id id l) as [[]|]; try done; auto.
Qed.

Lemma remove_registry_ok r id :
  registry_ok r → registry_ok (fst (snap_remove r id)) ∧ snap_get (fst (snap_remove r id)) id = None ∧
  snd (snap_remove r id) = snap_get r id.
Proof.
  intros (Hnd & Hlt & H0). unfold snap_remove. destruct (remove_id id (sr_snaps r)) as [[s l]|] eqn:He; cbn [fst snd].
  - destruct (remove_id_spec _ _ _ _ He) as [<- Hp]. rewrite Hp in Hnd, Hlt. csimpl in Hnd.
    apply NoDup_cons in Hnd as [Hni Hnd]. apply Forall_cons in Hlt as [Hs Hlt]. split_and!; [done..| |].
    + apply find_absent. intros x Hx. cbn in Hx. apply Z.eqb_neq. intros Heq. apply Hni. rewrite <-Heq.
      by apply list_elem_of_fmap_2.
    + unfold snap_get. clear -He. revert s l He. induction (sr_snaps r) as [|x k IH]; intros s l He; [done|].
      cbn [remove_id] in He. cbn [List.find]. destruct (Z.eqb_spec (sn_id x) (sn_id s)) as [|Hne]; [by simplify_eq|].
      destruct (remove_id (sn_id s) k) as [[y k']|] eqn:Hk; [|done]. simpl in He. simplify_eq. by eapply IH.
  - apply remove_id_none in He as Hne. rewrite Forall_forall in Hne.
    assert (snap_get r id = None) as -> by (apply find_absent; intros x Hx; apply Z.eqb_neq; auto). done.
Qed.

Lemma partition_filter {A} (f : A → bool) l :
  List.partition f l = (List.filter f l, List.filter (λ x, negb (f x)) l).
Proof. induction l as [|x l IH]; [done|]. simpl. rewrite IH. by destruct (f x). Qed.

Lemma expire_registry_ok r now :
  registry_ok r →
  registry_ok (fst (snap_expire r now)) ∧
  (∀ s, s ∈ snd (snap_expire r now) ↔ s ∈ sr_snaps r ∧ is_expired s now = true) ∧
  (∀ s, s ∈ sr_snaps (fst (snap_expire r now)) ↔ s ∈ sr_snaps r ∧ is_expired s now = false).
Proof.
  intros (Hnd & Hlt & H0). unfold snap_expire. rewrite partition_filter. cbn [fst snd sr_snaps]. split_and!.
  - unfold registry_ok. cbn [sr_snaps sr_next_id]. split_and!; [| |done].
    + clear -Hnd. induction (sr_snaps r) as [|x l IH]; [constructor|]. csimpl in Hnd.
      apply NoDup_cons in Hnd as [Hx Hnd]. simpl. destruct (negb _); [|by apply IH]. csimpl. constructor; [|by apply IH].
      intros (y & Hy & [Hin _]%elem_of_Lfilter)%list_elem_of_fmap. apply Hx. rewrite Hy. by apply list_elem_of_fmap_2.
    + apply Forall_forall. intros s [Hs _]%elem_of_Lfilter. rewrite Forall_forall in Hlt. by apply Hlt.
  - intros s. by rewrite elem_of_Lfilter.
  - intros s. rewrite elem_of_Lfilter. by rewrite negb_true_iff.
Qed.

(** * On disk *)
Lemma snap_decode_encode {E} s : snap_typed s → snap_decode (E:=E) (snap_encode s) = Ok s.
Proof.
  destruct s as [i t r f e n]. intros (?&?&?&?&?&Hl&_). unfold snap_decode, snap_encode.
  cbn [sn_id sn_txn_id sn_root_records sn_flags sn_expires_at sn_name] in *. rd_fields.
  do 5 (rewrite slice_app_r by (rewrite length_le_bytes; lia); rewrite length_le_bytes).
  rewrite <-(app_nil_r n). change (32 - Z.of_nat 8 - Z.of_nat 8 - Z.of_nat 4 - Z.of_nat 4 - Z.of_nat 8) with 0.
  rewrite slice_app_l by (rewrite Hl; done). cbn. by rewrite app_nil_r.
Qed.

Lemma foldl_max l x y : foldl Z.max x l = y → x <= y ∧ (∀ z, z ∈ l → z <= y) ∧ (y = x ∨ y ∈ l).
Proof.
  revert x. induction l as [|a l IH]; intros x H; simpl in H.
  { subst. split_and!; [lia| |by left]. intros z []%not_elem_of_nil. }
  destruct (IH _ H) as (H1 & H2 & H3). split_and!; [lia| |].
  - intros z [->|Hz]%elem_of_cons; [lia|auto].
  - rewrite elem_of_cons. destruct H3 as [->|?]; [|by right; right]. destruct (Z.max_spec x a) as [[_ ->]|[_ ->]]; auto.
Qed.

Lemma maximum_spec l m : maximum l = Some m → m ∈ l ∧ ∀ z, z ∈ l → z <= m.
Proof.
  destruct l as [|x l]; [done|]. intros [= H]. destruct (foldl_max _ _ _ H) as (H1 & H2 & H3).
  rewrite elem_of_cons. split; [done|]. intros z [->|Hz]%elem_of_cons; auto.
Qed.

Lemma foldl_min l x y : foldl Z.min x l = y → y <= x ∧ (∀ z, z ∈ l → y <= z) ∧ (y = x ∨ y ∈ l).
Proof.
  revert x. induction l as [|a l IH]; intros x H; simpl in H.
  { subst. split_and!; [lia| |by left]. intros z []%not_elem_of_nil. }
  destruct (IH _ H) as (H1 & H2 & H3). split_and!; [lia| |].
  - intros z [->|Hz]%elem_of_cons; [lia|auto].
  - rewrite elem_of_cons. destruct H3 as [->|?]; [|by right; right]. destruct (Z.min_spec x a) as [[_ ->]|[_ ->]]; auto.
Qed.

Lemma minimum_spec l m : minimum l = Some m → m ∈ l ∧ ∀ z, z ∈ l → m <= z.
Proof.
  destruct l as [|x l]; [done|]. intros [= H]. destruct (foldl_min _ _ _ H) as (H1 & H2 & H3).
  rewrite elem_of_cons. split; [done|]. intros z [->|Hz]%elem_of_cons; auto.
Qed.

(** Reloading keeps every snapshot, and restores the invariant. *)
Lemma snaps_roundtrip {E} r :
  registry_ok r → Forall snap_typed (sr_snaps r) → sr_next_id r < 2 ^ 64 →
  ∃ r', snaps_from_entries (E:=E) (snaps_encode r) = Ok r' ∧ sr_snaps r' = sr_snaps r ∧ registry_ok r' ∧
        sr_next_id r' <= Z.max 1 (sr_next_id r).
Proof.
  intros (Hnd & Hlt & H0) Ht Hn. unfold snaps_from_entries, snaps_encode.
  assert (res_mapM (snap_decode (E:=E)) (snap_encode <$> sr_snaps r) = Ok (sr_snaps r)) as ->.
  { apply res_mapM_ok. induction Ht as [|s l Hs Hl IH]; constructor; [by apply snap_decode_encode|].
    csimpl in Hnd. apply NoDup_cons in Hnd as [_ Hnd]. apply Forall_cons in Hlt as [_ Hlt]. exact (IH Hnd Hlt). }
  cbn [mbind Res_bind]. eexists. split; [done|]. cbn [sr_snaps sr_next_id]. split; [done|].
  unfold registry_ok. cbn [sr_snaps sr_next_id].
  destruct (maximum (sn_id <$> sr_snaps r)) as [m|] eqn:Hm.
  - destruct (maximum_spec _ _ Hm) as [(s & -> & Hs)%list_elem_of_fmap Hle].
    rewrite Forall_forall in Hlt. pose proof (Hlt s Hs) as Hb. simpl in Hb.
    rewrite Z.mod_small by lia. split; [|lia]. split_and!; [done| |lia].
    apply Forall_forall. intros x Hx. specialize (Hlt x Hx). simpl in Hlt.
    specialize (Hle (sn_id x) ltac:(by apply list_elem_of_fmap_2)). lia.
  - destruct (sr_snaps r); [|done]. split; [|lia]. split_and!; [constructor..|lia].
Qed.

Lemma length_snap_encode s : length (sn_name s) = 32%nat → length (snap_encode s) = 64%nat.
Proof. intros H. unfold snap_encode. by rewrite !length_app, !length_le_bytes, H. Qed.

Lemma snap_entries_ok r : Forall snap_typed (sr_snaps r) → entries_ok SNAPSHOT_ENTRY_BYTES (snaps_encode r).
Proof.
  intros H. apply Forall_fmap. eapply Forall_impl; [exact H|]. intros s (_&_&_&_&_&Hl&Hb).
  cbn. rewrite length_snap_encode by done. split; [done|]. unfold snap_encode. rewrite !Forall_app. auto 10 with bits.
Qed.

Lemma length_make_name b : length (make_name b) = 32%nat.
Proof. unfold make_name, SNAPSHOT_NAME_LEN. rewrite length_app, length_take, length_replicate. simpl. lia. Qed.
