(* ===== verification/Roots.v ===== *)
(** Root records: fragment key to root page, in key order (crates/big-pager/src/roots.rs).

    The [BTreeMap] is an association list kept in the derived order of [FragmentKey], because that
    order is what [encode] writes and [range] scans. *)
From S2P Require Import Prelude Bits Page Chain.

(** * The derived order on keys *)
Definition fk_lt (a b : FragmentKey) : Prop := fk_cmp a b = Lt.

Ltac fk_cases :=
  unfold fk_lt, fk_cmp in *;
  repeat match goal with
  | H : context [?x ?= ?y] |- _ => destruct (Z.compare_spec x y)
  | |- context [?x ?= ?y] => destruct (Z.compare_spec x y)
  end; try done; try lia.

Lemma fk_cmp_eq a b : fk_cmp a b = Eq ↔ a = b.
Proof.
  split.
  - destruct a as [a1 a2 a3 a4], b as [b1 b2 b3 b4]. unfold fk_cmp. cbn [fk_table fk_field fk_view fk_shard]. intros H. fk_cases. by subst.
  - intros ->. unfold fk_cmp. by rewrite !Z.compare_refl.
Qed.

Lemma fk_cmp_gt a b : fk_cmp a b = Gt ↔ fk_lt b a.
Proof. split; intros H; fk_cases. Qed.

#[export] Instance fk_lt_trans : Transitive fk_lt.
Proof. intros a b c Hab Hbc. fk_cases. Qed.

Lemma fk_lt_irrefl a : ¬ fk_lt a a.
Proof. unfold fk_lt. by rewrite (proj2 (fk_cmp_eq a a) eq_refl). Qed.

(** * The map *)
Definition RootRecords := list (FragmentKey * Z).

Definition roots_ok (m : RootRecords) : Prop := StronglySorted (λ a b, fk_lt (fst a) (fst b)) m.

Definition root_get (m : RootRecords) (k : FragmentKey) : option Z :=
  snd <$> List.find (λ e, bool_decide (fst e = k)) m.

(** [BTreeMap::insert]. *)
Fixpoint root_set (m : RootRecords) (k : FragmentKey) (v : Z) : RootRecords :=
  match m with
  | [] => [(k, v)]
  | (k', v') :: m' =>
      match fk_cmp k k' with
      | Lt => (k, v) :: m
      | Eq => (k, v) :: m'
      | Gt => (k', v') :: root_set m' k v
      end
  end.

(** [BTreeMap::remove]. *)
Fixpoint root_remove (m : RootRecords) (k : FragmentKey) : RootRecords * option Z :=
  match m with
  | [] => ([], None)
  | (k', v') :: m' =>
      if bool_decide (k' = k) then (m', Some v')
      else let '(m'', o) := root_remove m' k in ((k', v') :: m'', o)
  end.

Definition roots_from_entries {E} (entries : list (list Z)) : Res E RootRecords :=
  foldl (λ acc e, m ← acc; r ← rr_decode e; Ok (root_set m (rr_key r) (rr_root r))) (Ok []) entries.

(** [BTreeMap::range(lo..hi)]: a range that starts after it ends panics. *)
Definition roots_range {E} (m : RootRecords) (lo hi : FragmentKey) : Res E RootRecords :=
  match fk_cmp lo hi with
  | Gt => Panic
  | _ => Ok (List.filter (λ e, match fk_cmp (fst e) lo with Lt => false | _ =>
                               match fk_cmp (fst e) hi with Lt => true | _ => false end end) m)
  end.

Definition roots_encode (m : RootRecords) : list (list Z) := (λ e, rr_encode (mkRootRecord (fst e) (snd e))) <$> m.

(** * Map laws *)
Lemma root_set_mem m k v x : x ∈ root_set m k v → x = (k, v) ∨ x ∈ m.
Proof.
  induction m as [|[k' v'] m IH]; cbn [root_set]; [rewrite list_elem_of_singleton; auto|].
  destruct (fk_cmp k k'); rewrite !elem_of_cons; naive_solver.
Qed.

Lemma root_set_ok m k v : roots_ok m → roots_ok (root_set m k v).
Proof.
  induction 1 as [|[k' v'] m Hm IH Hk]; cbn [root_set]; [repeat constructor|].
  destruct (fk_cmp k k') eqn:E.
  - apply fk_cmp_eq in E as ->. by constructor.
  - constructor; [by constructor|]. constructor; [done|]. eapply Forall_impl; [exact Hk|].
    intros x Hx. cbn in *. by etrans.
  - apply fk_cmp_gt in E. constructor; [done|]. apply Forall_forall. intros x [->|Hx]%root_set_mem; [done|].
    rewrite Forall_forall in Hk. by apply Hk.
Qed.

Lemma root_get_set m k v k' :
  roots_ok m → root_get (root_set m k v) k' = if bool_decide (k' = k) then Some v else root_get m k'.
Proof.
  unfold root_get. induction 1 as [|[a b] m Hm IH Ha]; cbn [root_set List.find fst].
  { do 2 case_bool_decide; subst; done. }
  destruct (fk_cmp k a) eqn:E; cbn [List.find fst].
  - apply fk_cmp_eq in E as ->. do 2 case_bool_decide; subst; done.
  - do 2 case_bool_decide; subst; try done.
  - destruct (decide (a = k')) as [->|Hne].
    + rewrite !bool_decide_true by done. rewrite bool_decide_false; [done|]. intros ->.
      by rewrite (proj2 (fk_cmp_eq k k) eq_refl) in E.
    + by rewrite !(bool_decide_false (a = k')) by done.
Qed.

Lemma root_get_sorted_tail (m : RootRecords) k x : Forall (λ b, fk_lt k (fst b)) m → x ∈ m → fst x ≠ k.
Proof.
  intros H Hx He. rewrite Forall_forall in H. specialize (H x Hx). simpl in H. rewrite He in H.
  by apply fk_lt_irrefl in H.
Qed.

Lemma root_remove_spec m k :
  roots_ok m → roots_ok (fst (root_remove m k)) ∧ snd (root_remove m k) = root_get m k ∧
  (∀ k', root_get (fst (root_remove m k)) k' = if bool_decide (k' = k) then None else root_get m k') ∧
  (∀ x, x ∈ fst (root_remove m k) → x ∈ m).
Proof.
  unfold root_get. induction 1 as [|[a b] m Hm (IHo & IHs & IHg & IHm) Ha]; cbn [root_remove List.find fst snd].
  { split_and!; [constructor|done| |done]. intros. by case_bool_decide. }
  destruct (decide (a = k)) as [->|Hne].
  - rewrite !(bool_decide_true (k = k)) by done. cbn [fst snd]. split_and!; [done..| |by right].
    intros k'. destruct (decide (k' = k)) as [->|Hn].
    + rewrite bool_decide_true by done. rewrite find_absent; [done|]. intros x Hx.
      apply bool_decide_false. by apply (root_get_sorted_tail m k).
    + rewrite (bool_decide_false (k' = k)), (bool_decide_false (k = k')) by congruence. done.
  - rewrite !(bool_decide_false (a = k)) by done. destruct (root_remove m k) as [m' o]. cbn [fst snd] in *.
    split_and!; [|done| |].
    + constructor; [done|]. apply Forall_forall. intros x Hx%IHm. rewrite Forall_forall in Ha. by apply Ha.
    + intros k'. cbn [List.find fst]. destruct (decide (a = k')) as [->|Hn].
      * rewrite !(bool_decide_true (k' = k')) by done. by rewrite bool_decide_false by done.
      * rewrite !(bool_decide_false (a = k')) by done. apply IHg.
    + intros x [->|Hx]%elem_of_cons; [by left|right; auto].
Qed.

(** * On disk *)
Definition root_typed (e : FragmentKey * Z) : Prop := fk_typed (fst e) ∧ 0 <= snd e < 2 ^ 32.

Lemma root_set_snoc m k v : Forall (λ e, fk_lt (fst e) k) m → root_set m k v = m ++ [(k, v)].
Proof.
  induction 1 as [|[a b] m Ha Hm IH]; [done|]. cbn [root_set app]. cbn in Ha.
  assert (fk_cmp k a = Gt) as -> by (by apply fk_cmp_gt). by rewrite IH.
Qed.

Lemma roots_roundtrip {E} m : roots_ok m → Forall root_typed m → roots_from_entries (E:=E) (roots_encode m) = Ok m.
Proof.
  intros Hm Ht. unfold roots_from_entries, roots_encode.
  assert (∀ acc, roots_ok (acc ++ m) →
    foldl (λ acc e, m ← acc; r ← rr_decode e; Ok (root_set m (rr_key r) (rr_root r))) (@Ok E _ acc)
      ((λ e, rr_encode (mkRootRecord (fst e) (snd e))) <$> m) = Ok (acc ++ m)) as Hgen; [|by apply (Hgen [])].
  clear Hm. induction Ht as [|[k v] m [Hk Hv] Ht IH]; intros acc Hm; csimpl; [by rewrite app_nil_r|].
  rewrite rr_decode_encode_record by done. cbn [mbind Res_bind rr_key rr_root].
  rewrite root_set_snoc.
  - replace (acc ++ (k, v) :: m) with ((acc ++ [(k, v)]) ++ m) in * by (by rewrite <-app_assoc). by apply IH.
  - apply StronglySorted_app in Hm as (Hc & _). apply Forall_forall. intros x Hx. apply (Hc x (k, v)); [done|by left].
Qed.

Lemma roots_from_entries_ok {E} es m : roots_from_entries (E:=E) es = Ok m → roots_ok m.
Proof.
  unfold roots_from_entries. assert (roots_ok []) as H0 by constructor. revert H0.
  generalize (@nil (FragmentKey * Z)). induction es as [|e es IH]; intros acc Ha H; cbn [foldl] in H; [by simplify_eq|].
  cbn [mbind Res_bind] in H. destruct (rr_decode e) as [r|err|]; cbn [mbind Res_bind] in H.
  - eapply IH; [|exact H]. by apply root_set_ok.
  - exfalso. clear -H. induction es; [done|auto].
  - exfalso. clear -H. induction es; [done|auto].
Qed.

Lemma roots_entries_ok m : entries_ok ROOT_RECORD_BYTES (roots_encode m).
Proof.
  apply Forall_fmap, Forall_true. intros [k v]. cbn. unfold rr_encode, fk_encode. cbn.
  rewrite !length_app, !length_le_bytes. split; [done|]. rewrite !Forall_app. auto 10 with bits.
Qed.
