(* ===== verification/Pager.v ===== *)
(** The storage boundary: the [Pager] and [PagerMut] traits, the in-memory backend, the walks over
    a chain of pages, and the durability levels
    (crates/big-pager/src/pager.rs, mem.rs, chainio.rs, durability.rs, error.rs).

    The traits are classes and their contract is a class of laws; everything above is proved
    against the contract, and the in-memory pager discharges it. *)
From S2P Require Import Prelude Bits Page Chain.

(** * Errors (error.rs) *)
Inductive StoreError :=
| EIo
| EPage (e : PageError)
| EOutOfBounds (pgno page_count : Z)
| EMapSizeExhausted (need mapsize : Z)
| ELocked
| ENoValidMeta
| ENotADatabase (bytes : Z)
| EChainCycle (root : Z)
| ESnapshotNotFound (id : Z)
| EUnallocatedPage (pgno : Z)
| EReadersActive
| EUnsupported.

(** [?] on a [PageError]: [From<PageError> for StoreError]. *)
Definition lift {A} (r : Res PageError A) : Res StoreError A := map_err EPage r.

(** * The traits (pager.rs) *)
Class Pager (P : Type) := {
  pager_read : P → Z → Res StoreError Page;
  page_count : P → Z;
  capacity : P → option Z
}.

Class PagerMut (P : Type) `{!Pager P} := {
  pager_write : P → Z → Page → Res StoreError P;
  grow : P → Z → Res StoreError P;
  truncate : P → Z → Res StoreError P;
  sync : P → Res StoreError P;
  sync_data : P → Res StoreError P
}.

(** What a store relies on a backend for.  Failing is allowed everywhere; what is promised is what
    success means. *)
Class PagerLaws (P : Type) `{!Pager P, !PagerMut P} : Prop := {
  count_nonneg p : 0 <= page_count p;
  read_bounds p n pg : pager_read p n = Ok pg → 0 <= n < page_count p;
  write_read p n pg p' : pager_write p n pg = Ok p' → pager_read p' n = Ok pg;
  write_other p n pg p' m : pager_write p n pg = Ok p' → m ≠ n → pager_read p' m = pager_read p m;
  write_count p n pg p' : pager_write p n pg = Ok p' → page_count p' = page_count p;
  grow_read p k p' m : grow p k = Ok p' → m < page_count p → pager_read p' m = pager_read p m;
  grow_count p k p' : grow p k = Ok p' → page_count p' = Z.max (page_count p) k;
  truncate_read p k p' m : truncate p k = Ok p' → m < k → pager_read p' m = pager_read p m;
  truncate_count p k p' : truncate p k = Ok p' → 0 <= k → page_count p' = Z.min (page_count p) k;
  sync_read p p' m : sync p = Ok p' → pager_read p' m = pager_read p m;
  sync_count p p' : sync p = Ok p' → page_count p' = page_count p;
  sync_data_read p p' m : sync_data p = Ok p' → pager_read p' m = pager_read p m;
  sync_data_count p p' : sync_data p = Ok p' → page_count p' = page_count p
}.

(** A page read is a page: what the type of [Page] says. *)
Definition pager_typed {P} `{!Pager P} (p : P) : Prop := ∀ n pg, pager_read p n = Ok pg → page_ok pg.

(** * MemPager (mem.rs) *)
Record MemPager := mkMemPager { mp_pages : list Page }.

Definition mem_new : MemPager := mkMemPager [].
Definition mem_with_pages (n : Z) : MemPager := mkMemPager (replicate (Z.to_nat n) zeroed).
Definition mem_count (m : MemPager) : Z := Z.of_nat (length (mp_pages m)).

Definition mem_read (m : MemPager) (n : Z) : Res StoreError Page :=
  if mem_count m <=? n then Err (EOutOfBounds n (mem_count m))
  else unwrap (if 0 <=? n then mp_pages m !! Z.to_nat n else None).

Definition mem_write (m : MemPager) (n : Z) (pg : Page) : Res StoreError MemPager :=
  if (0 <=? n) && (n <? mem_count m) then Ok (mkMemPager (<[Z.to_nat n := pg]> (mp_pages m)))
  else Err (EOutOfBounds n (mem_count m)).

Definition mem_grow (m : MemPager) (k : Z) : Res StoreError MemPager :=
  Ok (if mem_count m <? k
      then mkMemPager (mp_pages m ++ replicate (Z.to_nat (k - mem_count m)) zeroed) else m).

Definition mem_truncate (m : MemPager) (k : Z) : Res StoreError MemPager :=
  Ok (if k <? mem_count m then mkMemPager (take (Z.to_nat k) (mp_pages m)) else m).

#[export] Instance MemPager_Pager : Pager MemPager :=
  { pager_read := mem_read; page_count := mem_count; capacity := λ _, None }.
#[export] Instance MemPager_PagerMut : PagerMut MemPager :=
  { pager_write := mem_write; grow := mem_grow; truncate := mem_truncate;
    sync := λ m, Ok m; sync_data := λ m, Ok m }.

(** * Chains (chainio.rs) *)
Section chains.
Context {X : Extern} {P : Type} `{!Pager P}.

(** [load_chain]: [left] is how many hops the limit still allows. *)
Fixpoint load_loop (left : nat) (pager : P) (root cur : option Z) (ty : PageType) (stride : Z)
    (out : list (list Z)) : Res StoreError (list (list Z)) :=
  match cur with
  | None => Ok out
  | Some pgno =>
      match left with
      | O => Err (EChainCycle (default 0 root))
      | S left' =>
          page ← pager_read pager pgno;
          _ ← lift (verify_checksum page);
          chain ← lift (chain_parse page ty stride);
          es ← lift (chain_entries chain);
          next ← lift (chain_next chain);
          load_loop left' pager root next ty stride (out ++ es)
      end
  end.
Definition load_chain (pager : P) (root : option Z) (ty : PageType) (stride : Z) : Res StoreError (list (list Z)) :=
  load_loop (Z.to_nat (page_count pager + 1)) pager root root ty stride [].

(** [chain_pgnos] and [chain_pgnos_checked] ([checked] verifies each page before following it);
    [left] is how many more pages the length guard lets in. *)
Fixpoint pgnos_loop (checked : bool) (left : nat) (pager : P) (root cur : option Z) (ty : PageType) (stride : Z)
    (out : list Z) : Res StoreError (list Z) :=
  match cur with
  | None => Ok out
  | Some pgno =>
      match left with
      | O => Err (EChainCycle (default 0 root))
      | S left' =>
          page ← pager_read pager pgno;
          _ ← (if checked then lift (verify_checksum page) else Ok tt);
          chain ← lift (chain_parse page ty stride);
          next ← lift (chain_next chain);
          pgnos_loop checked left' pager root next ty stride (out ++ [pgno])
      end
  end.
Definition chain_pgnos (pager : P) (root : option Z) (ty : PageType) (stride : Z) : Res StoreError (list Z) :=
  pgnos_loop false (Z.to_nat (page_count pager + 2)) pager root root ty stride [].
Definition chain_pgnos_checked (pager : P) (root : option Z) (ty : PageType) (stride : Z) : Res StoreError (list Z) :=
  pgnos_loop true (Z.to_nat (page_count pager + 2)) pager root root ty stride [].
End chains.

(** * Durability (durability.rs) *)
Inductive Durability := Full | Barrier | NoFlush.

#[export] Instance Durability_eq_dec : EqDecision Durability.
Proof. solve_decision. Defined.

(** [rank] orders the levels; [at_least], [as_u8] and [from_u8]. *)
Definition dur_rank (d : Durability) : Z := match d with Full => 2 | Barrier => 1 | NoFlush => 0 end.
Definition at_least (d other : Durability) : bool := dur_rank other <=? dur_rank d.
Definition dur_from_u8 (v : Z) : Durability :=
  match v with 0 => NoFlush | 1 => Barrier | _ => Full end.

(** * The in-memory pager keeps the contract *)
Lemma mem_read_lookup m n pg : mem_read m n = Ok pg ↔ 0 <= n ∧ mp_pages m !! Z.to_nat n = Some pg.
Proof.
  unfold mem_read, mem_count. destruct (Z.leb_spec (Z.of_nat (length (mp_pages m))) n) as [Hge|Hlt].
  - split; [done|]. intros [? H%lookup_lt_Some]. lia.
  - destruct (Z.leb_spec 0 n); simpl; [|split; [done|lia]].
    destruct (mp_pages m !! Z.to_nat n); simpl; split; try done; try (intros [= ->]; done); try (intros [_ H0]; by simplify_eq).
Qed.

Lemma mem_read_neg m n : n < 0 → mem_read m n = Panic.
Proof.
  intros Hn. unfold mem_read, mem_count. destruct (Z.leb_spec (Z.of_nat (length (mp_pages m))) n); [lia|].
  by destruct (Z.leb_spec 0 n); [lia|].
Qed.

Lemma mem_read_ext m m' n :
  (0 <= n → mp_pages m' !! Z.to_nat n = mp_pages m !! Z.to_nat n) → n < mem_count m → n < mem_count m' →
  mem_read m' n = mem_read m n.
Proof.
  intros H H1 H2. unfold mem_read. rewrite (proj2 (Z.leb_gt _ _) H1), (proj2 (Z.leb_gt _ _) H2).
  destruct (Z.leb_spec 0 n) as [Hn|]; [by rewrite (H Hn)|done].
Qed.

#[export] Instance MemPager_laws : PagerLaws MemPager.
Proof.
  split; cbn [pager_read page_count pager_write grow truncate sync sync_data MemPager_Pager MemPager_PagerMut].
  - intros p. unfold mem_count. lia.
  - intros p n pg [Hn Hl]%mem_read_lookup. apply lookup_lt_Some in Hl. unfold mem_count. lia.
  - intros p n pg p'. unfold mem_write. destruct (_ && _) eqn:H; [|done]. intros [= <-].
    apply mem_read_lookup. apply andb_true_iff in H as [??]. unfold mem_count in *.
    split; [lia|]. apply list_lookup_insert_eq. lia.
  - intros p n pg p' k. unfold mem_write. destruct (_ && _) eqn:H; [|done]. intros [= <-] Hne.
    apply andb_true_iff in H as [??].
    destruct (Z.lt_ge_cases k (mem_count p)) as [Hk|Hk].
    + apply mem_read_ext; unfold mem_count in *; cbn [mp_pages]; rewrite ?length_insert; [|lia..].
      intros ?. apply list_lookup_insert_ne. lia.
    + unfold mem_read, mem_count in *. cbn [mp_pages]. rewrite length_insert.
      by rewrite !(proj2 (Z.leb_le _ _)) by done.
  - intros p n pg p'. unfold mem_write. destruct (_ && _) eqn:H; [|done]. intros [= <-].
    unfold mem_count. cbn. by rewrite length_insert.
  - intros p k p' m. unfold mem_grow. intros [= <-] Hm. destruct (Z.ltb_spec (mem_count p) k); [|done].
    apply mem_read_ext; unfold mem_count in *; cbn [mp_pages]; rewrite ?length_app; [|lia..].
    intros ?. apply lookup_app_l. lia.
  - intros p k p'. unfold mem_grow. intros [= <-]. destruct (Z.ltb_spec (mem_count p) k); [|lia].
    unfold mem_count in *. cbn. rewrite length_app, length_replicate. lia.
  - intros p k p' m. unfold mem_truncate. intros [= <-] Hm. destruct (Z.ltb_spec k (mem_count p)); [|done].
    destruct (Z.lt_ge_cases m 0).
    + unfold mem_read, mem_count in *. by rewrite !(proj2 (Z.leb_gt _ _)) by lia.
    + apply mem_read_ext; unfold mem_count in *; cbn [mp_pages]; rewrite ?length_take; [|lia..].
      intros ?. apply lookup_take_lt. lia.
  - intros p k p'. unfold mem_truncate. intros [= <-] ?. destruct (Z.ltb_spec k (mem_count p)); [|lia].
    unfold mem_count in *. cbn. rewrite length_take. lia.
  - by intros p p' m [= <-].
  - by intros p p' [= <-].
  - by intros p p' m [= <-].
  - by intros p p' [= <-].
Qed.

(** * What a walk visits *)
Section walks.
Context {X : Extern} {P : Type} `{!Pager P}.
Context (ty : PageType) (stride : Z).

(** The chain from [cur] is the pages [l], and holds the entries [es]. *)
Inductive chain_walk (pager : P) : option Z → list Z → list (list Z) → Prop :=
| walk_end : chain_walk pager None [] []
| walk_page no page c es next l es' :
    pager_read pager no = Ok page → verify_checksum page = Ok tt → chain_parse page ty stride = Ok c →
    chain_entries c = Ok es → chain_next c = Ok next → chain_walk pager next l es' →
    chain_walk pager (Some no) (no :: l) (es ++ es').

Lemma lift_ok {A} (r : Res PageError A) a : lift r = Ok a ↔ r = Ok a.
Proof. apply map_err_ok. Qed.

Lemma load_loop_walk left pager root cur out r :
  load_loop left pager root cur ty stride out = Ok r ↔
  ∃ l es, chain_walk pager cur l es ∧ r = out ++ es ∧ (length l <= left)%nat.
Proof.
  revert cur out. induction left as [|left IH]; intros [no|] out; cbn [load_loop].
  - split; [done|]. intros (l & es & Hw & _ & Hl). inversion Hw; subst. simpl in Hl. lia.
  - split.
    + intros [= <-]. exists [], []. split_and!; [constructor|by rewrite app_nil_r|simpl; lia].
    + intros (l & es & Hw & -> & _). inversion Hw; subst. by rewrite app_nil_r.
  - split.
    + intros H. inv_ok. destruct a0. apply IH in H as (l & es & Hw & -> & Hl).
      exists (no :: l), (a2 ++ es). split_and!; [|by rewrite app_assoc|simpl; lia].
      by eapply walk_page; [|apply lift_ok|apply lift_ok|apply lift_ok|apply lift_ok|].
    + intros (l & es & Hw & -> & Hl). inversion Hw as [|? page c es1 next l' es' Hr Hv Hp He Hn Hw']; subst.
      rewrite Hr. cbn [mbind Res_bind]. rewrite Hv. cbn [lift map_err mbind Res_bind].
      rewrite Hp. cbn [lift map_err mbind Res_bind]. rewrite He. cbn [lift map_err mbind Res_bind].
      rewrite Hn. cbn [lift map_err mbind Res_bind]. apply IH. exists l', es'.
      split_and!; [done|by rewrite app_assoc|simpl in Hl; lia].
  - split.
    + intros [= <-]. exists [], []. split_and!; [constructor|by rewrite app_nil_r|simpl; lia].
    + intros (l & es & Hw & -> & _). inversion Hw; subst. by rewrite app_nil_r.
Qed.

Lemma load_chain_walk pager root r :
  load_chain pager root ty stride = Ok r ↔
  ∃ l, chain_walk pager root l r ∧ (length l <= Z.to_nat (page_count pager + 1))%nat.
Proof.
  unfold load_chain. rewrite load_loop_walk. split.
  - intros (l & es & Hw & -> & Hl). eauto.
  - intros (l & Hw & Hl). exists l, r. eauto.
Qed.

Lemma pgnos_loop_walk checked left pager root cur out l es :
  chain_walk pager cur l es → (length l <= left)%nat →
  pgnos_loop checked left pager root cur ty stride out = Ok (out ++ l).
Proof.
  intros Hw. revert left out. induction Hw as [|no page c es next l es' Hr Hv Hp He Hn Hw IH]; intros left out Hl.
  - destruct left; cbn [pgnos_loop]; by rewrite app_nil_r.
  - destruct left as [|left]; [simpl in Hl; lia|]. cbn [pgnos_loop]. rewrite Hr. cbn [mbind Res_bind].
    assert ((if checked then lift (verify_checksum page) else Ok tt) = Ok tt) as ->
      by (destruct checked; [by rewrite Hv|done]).
    cbn [mbind Res_bind]. rewrite Hp. cbn [lift map_err mbind Res_bind]. rewrite Hn. cbn [lift map_err mbind Res_bind].
    rewrite IH by (simpl in Hl; lia). by rewrite <-app_assoc.
Qed.

(** A walk only depends on the pages it visits. *)
Lemma walk_frame pager pager' cur l es :
  chain_walk pager cur l es → (∀ n, n ∈ l → pager_read pager' n = pager_read pager n) →
  chain_walk pager' cur l es.
Proof.
  induction 1 as [|no page c es next l es' Hr Hv Hp He Hn Hw IH]; intros Hag; [constructor|].
  eapply walk_page; [|done..|].
  - by rewrite Hag by (by left).
  - apply IH. intros n Hin. apply Hag. by right.
Qed.

Lemma walk_fun pager cur l es l' es' :
  chain_walk pager cur l es → chain_walk pager cur l' es' → l = l' ∧ es = es'.
Proof.
  intros Hw. revert l' es'. induction Hw as [|no page c es next l es' Hr Hv Hp He Hn Hw IH]; intros l2 es2 Hw2.
  - by inversion Hw2.
  - inversion Hw2 as [|? page2 c2 es3 next2 l3 es4 Hr2 Hv2 Hp2 He2 Hn2 Hw3]; subst.
    rewrite Hr in Hr2. injection Hr2 as <-. rewrite Hp in Hp2. injection Hp2 as <-.
    rewrite He in He2. injection He2 as <-. rewrite Hn in Hn2. injection Hn2 as <-.
    by destruct (IH _ _ Hw3) as [-> ->].
Qed.

(** The pages [build_chain] returns, once stored, are walked back to the entries. *)
Lemma walk_built pager pages cs :
  chain_along ty stride pages cs → (∀ no p, (no, p) ∈ pages → pager_read pager no = Ok p) →
  chain_walk pager (fst <$> head pages) (fst <$> pages) (concat cs).
Proof.
  revert cs. induction pages as [|[no p] pages IH]; intros [|chunk cs] Hal Hrd; try done; [constructor|].
  destruct Hal as [(Hp & Hv & c & Hpa & Hn & He) Hal]. csimpl.
  eapply walk_page; [|done|done|done|done|].
  - apply Hrd. by left.
  - apply IH; [done|]. intros no' p' Hin. apply Hrd. by right.
Qed.

(** Whatever is in the file, a walk comes back: with the entries or with an error. *)
Lemma load_chain_no_panic pager root :
  pager_typed pager → (∀ n, 0 <= n → no_panic (pager_read pager n)) → 0 < stride → (∀ n, root = Some n → 0 <= n) →
  no_panic (load_chain pager root ty stride).
Proof.
  intros Ht Hr Hs. unfold load_chain. generalize (Z.to_nat (page_count pager + 1)), (@nil (list Z)).
  generalize root at 1 3. intros cur left out. revert cur out.
  induction left as [|left IH]; intros [no|] out Hno; cbn [load_loop]; try done.
  apply no_panic_bind; [by apply Hr, Hno|]. intros page Hpg. pose proof (Ht _ _ Hpg) as Hok. pose proof Hok as [Hl Hb].
  apply no_panic_bind.
  { apply no_panic_map_err. unfold verify_checksum, stored_checksum, compute_checksum, PAGE_TRAILER, PAGE_SIZE in *.
    rewrite rd_ok by lia. rewrite slice_ok by lia. cbn. by destruct (_ =? _). }
  intros _ _. apply no_panic_bind; [apply no_panic_map_err; by apply chain_parse_no_panic|].
  intros c Hc%lift_ok. destruct (chain_entries_total page ty stride c Hok Hs Hc) as (es & -> & _).
  destruct (chain_next_total page ty stride c Hok Hc) as (o & Ho). rewrite Ho. cbn. apply IH.
  intros n ->. unfold chain_next in Ho. apply bind_ok in Ho as (v & Hv & Ho).
  destruct (chain_parse_inv page ty stride c Hok Hc) as (E & _). rewrite E in Hv.
  apply rd_bound in Hv; [|done]. destruct (negb _); [|done]. injection Ho as <-. lia.
Qed.
End walks.
