(* ===== verification/PageSpec.v ===== *)
(** What the page layer promises: what is built is read back, and no bytes at all make a reader
    panic (crates/big-page, and the chains of crates/big-pager/src/chainio.rs). *)
From S2P Require Import Prelude Bits Search Container Page Sample Leaf Branch Chain Meta Freelist Snapshot Roots Pager.

(** A run of [push] calls on a new builder. *)
Fixpoint pushes (b : LeafBuilder) (cells : list StagedCell) : option LeafBuilder :=
  match cells with [] => Some b | c :: rest => b' ← leaf_push b c; pushes b' rest end.

Lemma pushes_ok b cells b' :
  builder_ok b → pushes b cells = Some b' → builder_ok b' ∧ lb_cells b' = lb_cells b ++ cells.
Proof.
  revert b. induction cells as [|c cells IH]; intros b Hb H; cbn [pushes] in H.
  - injection H as <-. by rewrite app_nil_r.
  - destruct (leaf_push b c) as [b1|] eqn:Hp; [|done]. destruct (leaf_push_ok _ _ _ Hb Hp) as [Hb1 E].
    destruct (IH b1 Hb1 H) as [Hb' E']. split; [done|]. by rewrite E', E, <-app_assoc.
Qed.

Section specs.
Context {X : Extern} {L : ExternLaws X}.

(** Leaf pages.  Cells pushed into a builder and finished give a sealed page of that number,
    which parses, and whose cells are those pushed, in order, payload and all. *)
Theorem leaf_roundtrip cells b no :
  pushes leaf_new cells = Some b → Forall staged_ok cells → 0 <= no < 2 ^ 32 →
  ∃ p l xs, leaf_finish b no = Ok p ∧ page_ok p ∧ verify_checksum p = Ok tt ∧ pgno p = Ok no ∧
    leaf_parse p = Ok l ∧ leaf_cells l = Ok xs ∧
    Forall2 (λ c x, ∃ start, start mod 8 = 0 ∧ x = staged_cell c start) cells xs.
Proof.
  intros Hb Hs Hno. destruct (pushes_ok _ _ _ builder_ok_new Hb) as [Hok Hc]. cbn [leaf_new lb_cells app] in Hc. subst cells.
  destruct (leaf_finish_page b no Hok Hs Hno) as (p & Hf & Hp & Hv & Hn & Hfl & Hcc & Hh).
  destruct (bo_count _ Hok) as [Hds Hlt].
  pose proof (leaf_parse_holds p _ Hfl Hcc Hlt Hds (bo_fits _ Hok) Hh) as Hparse.
  exists p, (mkLeafPage p (zlen (lb_cells b))), (zip_with staged_cell (lb_cells b) ((λ c, c + LEAF_CELL_HEADER) <$> cursors (data_start (zlen (lb_cells b))) (lb_cells b))).
  split_and!; [exact Hf|exact Hp|exact Hv|exact Hn|exact Hparse|by apply leaf_cells_holds|].
  apply Forall2_lookup. intros i. destruct (lb_cells b !! i) as [c|] eqn:Hi.
  - destruct (Hh i c Hi) as (cur & Hcur & _ & _ & _ & _ & Hm & _).
    rewrite lookup_zip_with, Hi, list_lookup_fmap, Hcur. cbn. constructor. exists (cur + LEAF_CELL_HEADER). split; [|done].
    unfold LEAF_CELL_HEADER. by rewrite <-Z.add_mod_idemp_l, Hm by done.
  - rewrite lookup_zip_with, Hi. cbn. constructor.
Qed.

(** Containers in leaves.  An array or run container pushed into a leaf that has room comes
    back from the finished page as the same container; a bitmap written on its own page comes back
    from that page. *)
Theorem container_roundtrip key c :
  wf c → 0 <= key < 2 ^ 64 → byte_size c <= CELL_PAYLOAD_MAX →
  match staged_of key c with
  | Some s => (∀ b, push_container b key c = leaf_push b s) ∧ staged_ok s ∧
      ∀ start, start mod 8 = 0 → container (staged_cell s start) = Ok (Some c) ∧ lc_cardinality (staged_cell s start) = cardinality c
  | None => ∃ words, c = Bitmap words ∧ page_ok (build_bitmap_page words) ∧ bitmap_container (build_bitmap_page words) = Ok c
  end.
Proof.
  intros Hc Hk Hs. destruct (staged_of key c) as [s|] eqn:E.
  - destruct (staged_of_ok key c s Hc Hk E Hs) as (H1 & _ & H2). split_and!; [|done|done].
    intros b. by rewrite push_container_staged, E.
  - destruct c as [a|words|r]; [discriminate E| |discriminate E]. exists words.
    destruct (build_bitmap_page_ok words Hc) as (H1 & _ & H2). done.
Qed.

(** Branch pages.  Children pushed into a branch are read back, and routing a key takes the
    last child whose first key is not above it - or none, when the key is below them all. *)
Theorem branch_roundtrip cells no ckey :
  Z.of_nat (length cells) <= CAPACITY → Forall branch_cell_ok cells → 0 <= no < 2 ^ 32 →
  StronglySorted (λ c d, bc_key c < bc_key d) cells →
  ∃ p b, branch_finish cells no = Ok p ∧ page_ok p ∧ verify_checksum p = Ok tt ∧ pgno p = Ok no ∧
    branch_parse p = Ok b ∧ branch_cells b = Ok cells ∧ child_for b ckey = Ok (bc_child <$> last (upto ckey cells)).
Proof.
  intros Hn Hc Hno Hs. destruct (branch_finish_ok cells no Hn Hc Hno) as (p & Hf & Hp & Hv & Hg & Hb & Hbc).
  exists p, (mkBranchPage p (Z.of_nat (length cells))). split_and!; [exact Hf|exact Hp|exact Hv|exact Hg|exact Hb|exact Hbc|].
  by apply (child_for_upto p _ Hp Hb cells Hbc).
Qed.

(** A cell as a container, whatever its bytes and whatever page it is handed. *)
Lemma container_no_panic (x : LeafCell) : no_panic (container x).
Proof. unfold container, ok_or. destruct (lc_ty x); try done; by case_match. Qed.
Lemma inline_container (x : LeafCell) o : lc_ty x = TArray ∨ lc_ty x = TRun → container x = Ok o → is_Some o.
Proof. unfold container. intros [->| ->]; intros (a & _ & [= <-])%bind_ok; by eexists. Qed.
Lemma bitmap_no_panic pg : no_panic (base_words pg) ∧ no_panic (bitmap_container pg).
Proof. unfold base_words, bitmap_container, ok_or. by destruct (try_cast_u64 0 pg) as [w|]; cbn; [destruct (_ =? _)|]. Qed.
Lemma delta_no_panic (x : LeafCell) : no_panic (cell_delta x).
Proof. unfold cell_delta, ok_or. destruct (negb _); [done|]. by case_match. Qed.
Lemma verify_no_panic (x : LeafCell) dense : no_panic (verify_if_based x dense).
Proof. unfold verify_if_based, verify_base. destruct dense; [|done]. destruct (has_base x); [|done]. by destruct (negb _). Qed.
Lemma resolve_checked_no_panic (x : LeafCell) dense : no_panic (resolve_checked x dense).
Proof.
  unfold resolve_checked. destruct (lc_ty x) eqn:E; try done.
  1,2: apply no_panic_bind; [apply container_no_panic|]; intros o Ho; destruct (inline_container x o) as [k ->]; [tauto|exact Ho|done].
  1,2: destruct dense as [pg|]; [|done]; cbn [ok_or mbind Res_bind].
  { apply bitmap_no_panic. }
  apply no_panic_bind; [apply bitmap_no_panic|]. intros words _. apply no_panic_bind; [apply delta_no_panic|done].
Qed.
Lemma contains_checked_no_panic (x : LeafCell) dense offset : no_panic (contains_checked x dense offset).
Proof.
  unfold contains_checked. destruct (lc_ty x) eqn:E; try done.
  1,2: apply no_panic_bind; [apply container_no_panic|]; intros o Ho; destruct (inline_container x o) as [k ->]; [tauto|exact Ho|done].
  1,2: destruct dense as [pg|]; [|done]; cbn [ok_or mbind Res_bind]; apply no_panic_bind; try apply bitmap_no_panic; try done.
  intros words _. apply no_panic_bind; [apply delta_no_panic|done].
Qed.
Lemma bitmap_of_no_panic (x : LeafCell) pg : no_panic (cell_bitmap x pg) ∧ no_panic (bitmap_checked x pg).
Proof.
  unfold cell_bitmap, bitmap_checked. destruct (negb _); [done|]. split; [|apply bitmap_no_panic]. apply no_panic_bind; [unfold verify_base; by destruct (negb _)|intros; apply bitmap_no_panic].
Qed.

Lemma leaf_cells_no_panic p l : page_ok p → leaf_parse p = Ok l → no_panic (leaf_cells l) ∧ no_panic (total_cardinality l).
Proof.
  intros Hp Hl. assert (Hc : ∀ i, i ∈ indices (lp_count l) → no_panic (cell l i)) by (intros i Hi; apply elem_of_seqZ in Hi; apply (cell_no_panic p l Hp Hl); lia). split.
  - apply no_panic_mapM, Forall_forall. exact Hc.
  - unfold total_cardinality. revert Hc. generalize (indices (lp_count l)). intros is_. assert (G : ∀ acc, no_panic acc → (∀ i, i ∈ is_ → no_panic (cell l i)) → no_panic (foldl (λ acc i, sum ← acc; c ← cell l i; Ok (sum + lc_cardinality c)) acc is_)).
    { induction is_ as [|i is_ IH]; intros acc Ha H; [exact Ha|]. cbn [foldl]. apply IH; [|intros k Hk; apply H; by right]. apply no_panic_bind; [exact Ha|]. intros a _. apply no_panic_bind; [apply H; by left|done]. }
    by apply G.
Qed.

(** C32.  No page makes a reader panic.  Given any 8,192 bytes at all, reading its type and checksum and
    parsing it as a leaf, a branch, a chain page or a meta page answers or refuses.  So does every accessor
    of what was accepted: of a leaf its keys, search, cells and total, and of a cell of any type the
    container, the delta, the resolved container and the point read, with any dense page or none; of a
    branch its cells and the routing of a key; of a chain page the next page and its entries. *)
Theorem parsing_never_panics p ty stride ckey i dense offset :
  page_ok p → 0 < stride → 0 <= i →
  no_panic (page_type p) ∧ no_panic (verify_checksum p) ∧
  no_panic (leaf_parse p) ∧ no_panic (branch_parse p) ∧ no_panic (chain_parse p ty stride) ∧ no_panic (meta_decode p) ∧
  (∀ l, leaf_parse p = Ok l →
     no_panic (key_at l i) ∧ no_panic (search l ckey) ∧ no_panic (cell l i) ∧ no_panic (leaf_cells l) ∧ no_panic (total_cardinality l) ∧
     ∀ x, cell l i = Ok x →
       no_panic (container x) ∧ no_panic (cell_delta x) ∧ no_panic (resolve x dense) ∧ no_panic (resolve_checked x dense) ∧
       no_panic (cell_contains x dense offset) ∧ no_panic (contains_checked x dense offset) ∧
       ∀ pg, no_panic (cell_bitmap x pg) ∧ no_panic (bitmap_checked x pg)) ∧
  (∀ b, branch_parse p = Ok b → no_panic (branch_cell b i) ∧ no_panic (child_for b ckey) ∧ no_panic (branch_cells b)) ∧
  (∀ c, chain_parse p ty stride = Ok c → no_panic (chain_next c) ∧ no_panic (chain_entry c i) ∧ no_panic (chain_entries c)).
Proof.
  intros Hp Hst Hi. pose proof Hp as [Hlen _]. split_and!; [| |by apply leaf_parse_no_panic|by apply branch_parse_no_panic|by apply chain_parse_no_panic|by apply meta_decode_no_panic| | |].
  - unfold page_type, flags. rewrite rd_ok by (unfold PAGE_SIZE in *; lia). cbn. unfold page_from_u8. repeat (case_match; try done).
  - unfold verify_checksum, stored_checksum, compute_checksum. rewrite rd_ok, slice_ok by (unfold PAGE_SIZE, PAGE_TRAILER in *; lia). cbn [mbind Res_bind]. by destruct (_ =? _).
  - intros l Hl. destruct (key_at_total p l Hp Hl i Hi) as (o & -> & _). destruct (leaf_cells_no_panic p l Hp Hl) as [Hcs Htc]. split_and!; [done|by rewrite (search_bisect p l Hp Hl)|by eapply cell_no_panic|exact Hcs|exact Htc|].
    intros x _. split_and!; [apply container_no_panic|apply delta_no_panic| |apply resolve_checked_no_panic| |apply contains_checked_no_panic|intros pg; apply bitmap_of_no_panic].
    + unfold resolve. apply no_panic_bind; [apply verify_no_panic|]. intros _ _. apply resolve_checked_no_panic.
    + unfold cell_contains. apply no_panic_bind; [apply verify_no_panic|]. intros _ _. apply contains_checked_no_panic.
  - intros b Hb. destruct (child_for_total p b ckey Hp Hb) as [o ->]. destruct (branch_cells_total p b Hp Hb) as (cells & -> & _). split_and!; [|done|done].
    destruct (Z.ltb_spec i (bp_count b)) as [Hlt|Hge]; [|unfold branch_cell; by rewrite (proj2 (Z.ltb_ge _ _))]. destruct (branch_cell_total p b Hp Hb i) as [c Hc]; [lia|]. unfold branch_cell_unwrap in Hc. intros E. by rewrite E in Hc.
  - intros c Hc. destruct (chain_next_total p ty stride c Hp Hc) as [o ->]. destruct (chain_entries_total p ty stride c Hp Hst Hc) as (es & -> & _). split_and!; [done| |done].
    destruct (chain_parse_inv p ty stride c Hp Hc) as (Hpg & Hs & Hn & Hle). unfold chain_entry. destruct (Z.ltb_spec i (cp_count c)); [|done]. rewrite Hpg, Hs. rewrite slice_ok; [done|unfold CHAIN_DATA; nia|lia|unfold CHAIN_DATA, PAGE_TRAILER in *; nia].
Qed.

(** The pair of metas.  A meta survives its page, and of two consecutive ones, each in its own
    slot, recovery picks the newer - or the older, when the newer did not survive. *)
Theorem meta_pair a b :
  meta_ok a → meta_ok b → m_txn_id b = m_txn_id a + 1 →
  ∃ pa pb, meta_encode a = Ok pa ∧ meta_encode b = Ok pb ∧ slot a ≠ slot b ∧
    pick_meta (meta_decode pa) (meta_decode pb) = Ok b ∧ pick_meta (meta_decode pb) (meta_decode pa) = Ok b ∧
    ∀ e, pick_meta (meta_decode pa) (Err e) = Ok a ∧ pick_meta (Err e) (meta_decode pa) = Ok a.
Proof.
  intros Ha Hb Ht. destruct (meta_roundtrip a Ha) as (pa & Ea & _ & Da), (meta_roundtrip b Hb) as (pb & Eb & _ & Db).
  exists pa, pb. rewrite Da, Db. split_and!; [exact Ea|exact Eb| | | |intros e; split; reflexivity].
  - unfold slot, META_PAGES. rewrite Ht. rewrite (Z.add_mod (m_txn_id a) 1 2) by done.
    pose proof (Z.mod_pos_bound (m_txn_id a) 2 ltac:(lia)) as Hm.
    destruct (decide (m_txn_id a mod 2 = 0)) as [->|]; [done|]. replace (m_txn_id a mod 2) with 1 by lia. done.
  - cbn. rewrite (proj2 (Z.leb_gt _ _)) by lia. done.
  - cbn. rewrite (proj2 (Z.leb_le _ _)) by lia. done.
Qed.

(** Chains.  Entries laid over enough pages and stored come back, in order, from the head of
    the chain; an empty list needs no page. *)
Theorem chain_roundtrip {P} `{!Pager P} (pager : P) ty stride entries pgnos pages :
  0 < stride <= PAGE_SIZE - PAGE_TRAILER - CHAIN_DATA → entries_ok stride entries →
  Forall (λ no, 0 < no < 2 ^ 32) pgnos → chain_pages_needed stride (Z.of_nat (length entries)) <= Z.of_nat (length pgnos) →
  Z.of_nat (length pgnos) <= page_count pager + 1 →
  build_chain ty stride entries pgnos = Ok pages → (∀ no p, (no, p) ∈ pages → pager_read pager no = Ok p) →
  load_chain pager (head pgnos) ty stride = Ok entries ∧ chain_pgnos pager (head pgnos) ty stride = Ok pgnos.
Proof.
  intros [H0 H1] He Hp Hn Hl Hb Hr.
  destruct (build_chain_ok ty stride H0 entries pgnos H1 He Hp Hn) as (pages' & cs & Hb' & Hf & Ha & Hc).
  rewrite Hb in Hb'. injection Hb' as <-. pose proof (walk_built ty stride pager pages cs Ha Hr) as Hw.
  rewrite Hc, Hf in Hw. assert (fst <$> head pages = head pgnos) as Hh by (rewrite <-Hf; by destruct pages). rewrite Hh in Hw.
  split.
  - apply load_chain_walk. exists pgnos. split; [done|]. lia.
  - unfold chain_pgnos. by erewrite pgnos_loop_walk; [|done|lia].
Qed.

(** C33.  Reading a chain always ends.  Whatever the pages hold - a chain that loops, a page of the
    wrong kind, a checksum that does not match - [load_chain] returns entries or an error, without
    panicking; what it returns came of a walk of at most one page more than the file has. *)
Theorem load_chain_total {P} `{!Pager P} (pager : P) root ty stride :
  pager_typed pager → (∀ n, 0 <= n → no_panic (pager_read pager n)) → 0 < stride → (∀ n, root = Some n → 0 <= n) →
  no_panic (load_chain pager root ty stride) ∧
  ∀ es, load_chain pager root ty stride = Ok es → ∃ l, chain_walk ty stride pager root l es ∧ (length l <= Z.to_nat (page_count pager + 1))%nat.
Proof.
  intros Ht Hn Hs Hr. split; [by apply load_chain_no_panic|]. intros es. apply load_chain_walk.
Qed.
End specs.

(** * Examples *)
Section examples.
#[local] Existing Instance sample.
#[local] Instance laws : ExternLaws sample := sample_laws.

Definition staged_sample (k : Z) : StagedCell := mkStagedCell k TArray 2 2 0 0 [1; 0; 5; 0].
Lemma staged_sample_ok k : 0 <= k < 2 ^ 64 → staged_ok (staged_sample k).
Proof. intros Hk. split_and!; cbn; try lia; [repeat constructor; unfold byte; lia|reflexivity]. Qed.

Lemma leaf_roundtrip_witness :
  ∃ b, pushes leaf_new [staged_sample 3; staged_sample 8] = Some b ∧
  ∃ p l xs, leaf_finish b 7 = Ok p ∧ leaf_parse p = Ok l ∧ leaf_cells l = Ok xs ∧
    Forall2 (λ c x, ∃ start, start mod 8 = 0 ∧ x = staged_cell c start) [staged_sample 3; staged_sample 8] xs.
Proof.
  destruct (pushes leaf_new [staged_sample 3; staged_sample 8]) as [b|] eqn:E; [|vm_compute in E; discriminate E].
  exists b. split; [reflexivity|].
  destruct (leaf_roundtrip [staged_sample 3; staged_sample 8] b 7 E) as (p & l & xs & H1 & _ & _ & _ & H2 & H3 & H4).
  - repeat (apply Forall_cons; split; [apply staged_sample_ok; lia|]). apply Forall_nil. exact I.
  - lia.
  - exists p, l, xs. split; [exact H1|]. split; [exact H2|]. split; [exact H3|exact H4].
Defined.

Lemma container_roundtrip_witness :
  match staged_of 5 (Array [1; 5]) with
  | Some s => container (staged_cell s 40) = Ok (Some (Array [1; 5]))
  | None => False
  end.
Proof.
  assert (wf (Array [1; 5])) as Hw by (split; [cbn; repeat constructor; unfold u16; lia|reflexivity]).
  pose proof (container_roundtrip 5 (Array [1; 5]) Hw ltac:(lia) ltac:(vm_compute; discriminate)) as H.
  cbn [staged_of] in *. apply H. reflexivity.
Defined.

Definition two_children : list BranchCell := [mkBranchCell 10 0 4; mkBranchCell 20 0 6].
Lemma branch_roundtrip_witness :
  ∃ p b, branch_finish two_children 9 = Ok p ∧ branch_parse p = Ok b ∧ child_for b 15 = Ok (Some 4).
Proof.
  destruct (branch_roundtrip two_children 9 15) as (p & b & H1 & _ & _ & _ & H2 & _ & H3).
  - rewrite CAPACITY_eq. cbn. lia.
  - repeat (apply Forall_cons; split; [repeat split; cbn; lia|]). apply Forall_nil. exact I.
  - lia.
  - repeat constructor; cbn; lia.
  - exists p, b. split; [exact H1|]. split; [exact H2|exact H3].
Defined.

Lemma zeroed_page_ok : page_ok zeroed.
Proof. split; [apply length_zeroed|apply bytes_zeroed]. Qed.

(** A page with a packed array and a delta, read through the accessors. *)
Definition mixed_cells : list StagedCell := [staged_sample 3; mkStagedCell 8 TBitmapDelta 1 1 0 5 [1; 0; 5; 0]].
Lemma parsing_never_panics_witness :
  ∃ p l x y, page_ok p ∧ leaf_parse p = Ok l ∧ cell l 0 = Ok x ∧ lc_ty x = TArray ∧ cell l 1 = Ok y ∧ lc_ty y = TBitmapDelta ∧
    no_panic (resolve x None) ∧ no_panic (resolve y (Some zeroed)) ∧ no_panic (cell_contains y (Some zeroed) 9) ∧ no_panic (total_cardinality l).
Proof.
  destruct (pushes leaf_new mixed_cells) as [b|] eqn:E; [|vm_compute in E; discriminate E].
  assert (Hst : Forall staged_ok mixed_cells).
  { repeat (apply Forall_cons; split); [apply staged_sample_ok; lia| |by apply Forall_nil]. split_and!; cbn; try lia; [repeat constructor; unfold byte; lia|reflexivity]. }
  destruct (leaf_roundtrip mixed_cells b 7 E Hst ltac:(lia)) as (p & l & xs & _ & Hp & _ & _ & Hl & Hxs & Hf).
  inversion Hf as [|? x ? xs1 (s1 & _ & Ex) Hf1 E1 E2]; subst xs. inversion Hf1 as [|? y ? xs2 (s2 & _ & Ey) Hf2 E3 E4]; subst xs1. inversion Hf2; subst xs2.
  unfold leaf_cells in Hxs. apply res_mapM_ok in Hxs.
  assert (Hn : indices (lp_count l) = [0; 1]).
  { pose proof (Forall2_length _ _ _ Hxs) as Hlen. unfold indices in *. rewrite length_seqZ in Hlen. cbn in Hlen. replace (lp_count l) with 2 by lia. reflexivity. }
  rewrite Hn in Hxs. inversion Hxs as [|? ? ? ? Hx Hxs1]; subst. inversion Hxs1 as [|? ? ? ? Hy _]; subst.
  exists p, l. do 2 eexists. split; [exact Hp|]. split; [exact Hl|]. split; [exact Hx|]. split; [done|]. split; [exact Hy|]. split; [done|].
  destruct (parsing_never_panics p PFreelist 16 0 0 None 0 Hp ltac:(lia) ltac:(lia)) as (_ & _ & _ & _ & _ & _ & H0 & _). destruct (H0 l Hl) as (_ & _ & _ & _ & Ht & H0x).
  destruct (parsing_never_panics p PFreelist 16 0 1 (Some zeroed) 9 Hp ltac:(lia) ltac:(lia)) as (_ & _ & _ & _ & _ & _ & H1 & _). destruct (H1 l Hl) as (_ & _ & _ & _ & _ & H1y).
  destruct (H0x _ Hx) as (_ & _ & Hr & _). destruct (H1y _ Hy) as (_ & _ & Hr' & _ & Hc & _). split; [exact Hr|]. split; [exact Hr'|]. split; [exact Hc|exact Ht].
Defined.

Lemma meta_pair_witness :
  ∃ pa pb, meta_encode (mkMeta 4 9 (Some 3) None None None 0) = Ok pa ∧ meta_encode (mkMeta 5 9 (Some 6) None None None 0) = Ok pb ∧
    pick_meta (meta_decode pa) (meta_decode pb) = Ok (mkMeta 5 9 (Some 6) None None None 0).
Proof.
  destruct (meta_pair (mkMeta 4 9 (Some 3) None None None 0) (mkMeta 5 9 (Some 6) None None None 0)) as (pa & pb & H1 & H2 & _ & H3 & _).
  - repeat split; cbn; lia.
  - repeat split; cbn; lia.
  - reflexivity.
  - exists pa, pb. split; [exact H1|]. split; [exact H2|exact H3].
Defined.

(** A freelist chain of one page, stored at page 3 of a file of five. *)
Definition stored (pages : list (Z * Page)) : MemPager :=
  mkMemPager (foldl (λ f w, <[Z.to_nat (fst w) := snd w]> f) (replicate 5 zeroed) pages).
Definition two_runs : list (list Z) := free_encode [mkRun 1 4 2; mkRun 2 9 1].

Lemma chain_roundtrip_witness :
  ∃ pages, build_chain PFreelist FREE_ENTRY_BYTES two_runs [3] = Ok pages ∧
    load_chain (stored pages) (head [3]) PFreelist FREE_ENTRY_BYTES = Ok two_runs.
Proof.
  destruct (is_ok_inv (build_chain PFreelist FREE_ENTRY_BYTES two_runs [3])) as [pages E]; [vm_compute; reflexivity|].
  exists pages. split; [exact E|].
  assert (fst <$> pages = [3]) as Hf.
  { destruct (build_chain_ok PFreelist FREE_ENTRY_BYTES ltac:(unfold FREE_ENTRY_BYTES; lia) two_runs [3]) as (pages' & cs & E' & Hf & _).
    - vm_compute. discriminate.
    - apply free_entries_ok.
    - repeat constructor; lia.
    - vm_compute. discriminate.
    - rewrite E in E'. injection E' as <-. exact Hf. }
  apply (chain_roundtrip (stored pages) PFreelist FREE_ENTRY_BYTES two_runs [3] pages).
  - split; [unfold FREE_ENTRY_BYTES; lia|vm_compute; discriminate].
  - apply free_entries_ok.
  - repeat constructor; lia.
  - vm_compute. discriminate.
  - cbn [page_count MemPager_Pager]. unfold mem_count. cbn [length]. lia.
  - exact E.
  - destruct pages as [|[no p] [|? ?]]; [discriminate Hf| |discriminate Hf]. injection Hf as ->.
    intros no' p' [= -> ->]%list_elem_of_singleton. apply mem_read_lookup. split; [lia|reflexivity].
Defined.

Lemma load_chain_total_witness :
  no_panic (load_chain (mem_with_pages 4) (Some 2) PFreelist FREE_ENTRY_BYTES).
Proof.
  apply (load_chain_total (mem_with_pages 4) (Some 2) PFreelist FREE_ENTRY_BYTES).
  - intros n pg [_ H]%mem_read_lookup. apply lookup_replicate in H as [-> _]. exact zeroed_page_ok.
  - intros n Hn. cbn [pager_read MemPager_Pager]. unfold mem_read. destruct (Z.leb_spec (mem_count (mem_with_pages 4)) n); [done|].
    rewrite (proj2 (Z.leb_le 0 n) Hn). destruct (lookup_lt_is_Some_2 (mp_pages (mem_with_pages 4)) (Z.to_nat n)) as [pg ->]; [|done].
    unfold mem_count in *. lia.
  - reflexivity.
  - intros n [= <-]. lia.
Defined.
End examples.
