(* ===== verification/Store.v ===== *)
(** The store: recovery, readers and the reclaim horizon, the commit sequence, tail truncation
    (crates/big-pager/src/lib.rs).

    Generic in the backend, as the source is.  A [Store] is a value passed through the operations;
    [write_lock] is what makes the writers' operations a sequence. *)
From S2P Require Import Prelude Bits Page Chain Meta Freelist Snapshot Roots Pager.

Definition CATALOG_ENTRY_BYTES : Z := 128.

Record StoreState := mkState {
  st_meta : MetaPage; st_roots : RootRecords; st_snapshots : SnapshotRegistry;
  st_catalog : list (list Z); st_freelist : Freelist }.

(** [metrics::CommitBreakdown]: where the last commit's pages went. *)
Record CommitBreakdown := mkBreakdown { cb_data : Z; cb_roots : Z; cb_snapshots : Z; cb_catalog : Z; cb_freelist : Z }.

Record Store (P : Type) := mkStore {
  s_pager : P; s_state : StoreState; s_readers : gmap Z Z; s_durability : Durability;
  s_last_commit : CommitBreakdown }.
Arguments mkStore {P} _ _ _ _ _.
Arguments s_pager {P} _.
Arguments s_state {P} _.
Arguments s_readers {P} _.
Arguments s_durability {P} _.
Arguments s_last_commit {P} _.

(** Which of the metadata chains a transaction changed ([txn.rs]). *)
Record DirtyChains := mkDirty { dc_roots : bool; dc_catalog : bool; dc_snapshots : bool }.

(** Where a metadata chain ended up. *)
Inductive Placed := Fresh (p : list Z) | Kept (p : option Z).
Definition placed_head (p : Placed) : option Z := match p with Fresh l => head l | Kept o => o end.

(** * Allocation *)
Definition alloc_tail (next_pgno : Z) (cap : option Z) : Res StoreError (Z * Z) :=
  let take := Ok (next_pgno mod 2 ^ 32, next_pgno + 1) in
  match cap with
  | Some c => if c <=? next_pgno then Err (EMapSizeExhausted (next_pgno + 1) c) else take
  | None => take
  end.

(** [match freelist.alloc(horizon) { Some(p) => p, None => alloc_tail(next_pgno, cap)? }]. *)
Definition alloc_one (f : Freelist) (horizon next_pgno : Z) (cap : option Z) : Res StoreError (Z * Freelist * Z) :=
  match free_alloc f horizon with
  | Some (p, f') => Ok (p, f', next_pgno)
  | None => '(p, next') ← alloc_tail next_pgno cap; Ok (p, f, next')
  end.

Fixpoint alloc_pages (n : nat) (f : Freelist) (horizon next_pgno : Z) (cap : option Z)
    : Res StoreError (list Z * Freelist * Z) :=
  match n with
  | O => Ok ([], f, next_pgno)
  | S n' =>
      '(p, f, next_pgno) ← alloc_one f horizon next_pgno cap;
      '(ps, f, next_pgno) ← alloc_pages n' f horizon next_pgno cap;
      Ok (p :: ps, f, next_pgno)
  end.

(** The loop of [alloc_freelist_pages]. *)
Fixpoint alloc_free_loop (fuel : nat) (out : list Z) (f : Freelist) (horizon next_pgno : Z) (cap : option Z)
    : Res StoreError (list Z * Freelist * Z) :=
  if Z.of_nat (length out) <? chain_pages_needed FREE_ENTRY_BYTES (entry_count f) then
    match fuel with
    | O => Panic
    | S fuel' =>
        '(p, f, next_pgno) ← alloc_one f horizon next_pgno cap;
        alloc_free_loop fuel' (out ++ [p]) f horizon next_pgno cap
    end
  else Ok (out, f, next_pgno).
Definition alloc_freelist_pages (f : Freelist) (horizon next_pgno : Z) (cap : option Z)
    : Res StoreError (list Z * Freelist * Z) :=
  let f := compact f in
  alloc_free_loop (Z.to_nat (chain_pages_needed FREE_ENTRY_BYTES (entry_count f))) [] f horizon next_pgno cap.

Section store.
Context {X : Extern} {P : Type} `{!Pager P}.

(** * Recovery *)
Definition read_meta (pager : P) (slot : Z) : Res StoreError MetaPage :=
  page ← pager_read pager slot; lift (meta_decode page).

Definition is_version (e : StoreError) : bool := match e with EPage (UnsupportedVersion _) => true | _ => false end.
Definition worse_of (a b : StoreError) : StoreError :=
  if is_version a then a else if is_version b then b else ENoValidMeta.

(** The part of [load] that picks the governing meta. *)
Definition load_meta (pager : P) : Res StoreError MetaPage :=
  if page_count pager <? META_PAGES then Err ENoValidMeta
  else
    match read_meta pager 0, read_meta pager 1 with
    | Panic, _ | _, Panic => Panic
    | Ok x, Ok y => map_err (λ _, ENoValidMeta) (pick_meta (Ok x) (Ok y))
    | Ok x, Err _ => Ok x
    | Err _, Ok y => Ok y
    | Err ea, Err eb => Err (worse_of ea eb)
    end.

(** The four chains a meta names. *)
Definition load_state (pager : P) (meta : MetaPage) : Res StoreError StoreState :=
  es ← load_chain pager (m_root_records meta) PRootRecords ROOT_RECORD_BYTES;
  roots ← roots_from_entries es;
  es ← load_chain pager (m_snapshots meta) PSnapshots SNAPSHOT_ENTRY_BYTES;
  snapshots ← snaps_from_entries es;
  catalog ← load_chain pager (m_catalog meta) PCatalog CATALOG_ENTRY_BYTES;
  es ← load_chain pager (m_freelist meta) PFreelist FREE_ENTRY_BYTES;
  freelist ← free_from_entries es;
  Ok (mkState meta roots snapshots catalog freelist).

Definition load (pager : P) : Res StoreError (Store P) :=
  meta ← load_meta pager;
  st ← load_state pager meta;
  Ok (mkStore pager st ∅ Full (mkBreakdown 0 0 0 0 0)).

(** * Readers *)
Record ReadTxn := mkReadTxn { rt_txn_id : Z; rt_roots : RootRecords; rt_catalog : list (list Z) }.

Definition with_readers (s : Store P) (r : gmap Z Z) : Store P :=
  mkStore (s_pager s) (s_state s) r (s_durability s) (s_last_commit s).

Definition register_reader (s : Store P) (txn_id : Z) : Store P :=
  with_readers s (<[txn_id := default 0 (s_readers s !! txn_id) + 1]> (s_readers s)).

Definition release_reader (s : Store P) (txn_id : Z) : Store P :=
  match s_readers s !! txn_id with
  | Some n => with_readers s (if n - 1 =? 0 then delete txn_id (s_readers s) else <[txn_id := n - 1]> (s_readers s))
  | None => s
  end.

(** The smallest key of the [BTreeMap]. *)
Definition oldest_reader (s : Store P) : option Z := minimum (fst <$> map_to_list (s_readers s)).

Definition begin_read (s : Store P) : Store P * ReadTxn :=
  let txn := m_txn_id (st_meta (s_state s)) in
  (register_reader s txn, mkReadTxn txn (st_roots (s_state s)) (st_catalog (s_state s))).

Definition begin_read_at (s : Store P) (id : Z) : Res StoreError (Store P * ReadTxn) :=
  snap ← ok_or (snap_get (st_snapshots (s_state s)) id) (ESnapshotNotFound id);
  let root := if negb (sn_root_records snap =? 0) then Some (sn_root_records snap) else None in
  es ← load_chain (s_pager s) root PRootRecords ROOT_RECORD_BYTES;
  roots ← roots_from_entries es;
  Ok (register_reader s (sn_txn_id snap), mkReadTxn (sn_txn_id snap) roots (st_catalog (s_state s))).

(** [reader_h.min(snap_h).min(txn_id)]: the oldest transaction anything may still be reading. *)
Definition horizon_of (s : Store P) (snapshots : SnapshotRegistry) (txn_id : Z) : Z :=
  let reader_h := default txn_id (oldest_reader s) in
  let snap_h := default txn_id (oldest_txn_id snapshots) in
  Z.min (Z.min reader_h snap_h) txn_id.

(** * Writing *)
Context `{!PagerMut P}.

Definition flush (pager : P) (d : Durability) : Res StoreError P :=
  match d with Full => sync pager | Barrier => sync_data pager | NoFlush => Ok pager end.

Fixpoint write_pages (pager : P) (out : list (Z * Page)) : Res StoreError P :=
  match out with
  | [] => Ok pager
  | (no, page) :: out' => pager ← pager_write pager no page; write_pages pager out'
  end.

Definition write_and_flip (pager : P) (d : Durability) (out : list (Z * Page)) (next_pgno : Z) (next_meta : MetaPage)
    : Res StoreError P :=
  pager ← grow pager next_pgno;
  pager ← write_pages pager out;
  pager ← flush pager d;
  page ← lift (meta_encode next_meta);
  pager ← pager_write pager (slot next_meta) page;
  flush pager d.

Definition init (pager : P) : Res StoreError (Store P) :=
  pager ← grow pager META_PAGES;
  let meta := mkMeta 0 META_PAGES None None None None 0 in
  page ← lift (meta_encode meta);
  pager ← pager_write pager (slot meta) page;
  pager ← sync pager;
  load pager.

Definition open_or_init (pager : P) : Res StoreError (Store P) :=
  let n := page_count pager in
  if n =? 0 then init pager
  else if META_PAGES <=? n then load pager
  else Err (ENotADatabase (n * PAGE_SIZE)).

Definition set_durability (s : Store P) (next : Durability) : Res StoreError (Store P) :=
  if bool_decide (next = s_durability s) then Ok s
  else
    pager ← (if at_least next (s_durability s) then sync (s_pager s) else Ok (s_pager s));
    Ok (mkStore pager (s_state s) (s_readers s) next (s_last_commit s)).

(** [recycle_chain]. *)
Definition recycle_chain (pager : P) (base : option Z) (kind : PageType) (span : Z) (f : Freelist) (txn_id : Z)
    : Res StoreError Freelist :=
  ps ← chain_pgnos pager base kind span;
  Ok (foldl (λ f p, free_push f p txn_id) f ps).

(** Steps 1 and 2 of a commit, once per chain: a chain that changed is recycled and given fresh
    pages, one that did not keeps the pages it has. *)
Definition place_chain (pager : P) (dirty : bool) (base : option Z) (kind : PageType) (stride n : Z)
    (f : Freelist) (txn_id horizon next_pgno : Z) (cap : option Z) : Res StoreError (Placed * Freelist * Z) :=
  if dirty then
    f ← recycle_chain pager base kind stride f txn_id;
    '(ps, f, next_pgno) ← alloc_pages (Z.to_nat (chain_pages_needed stride n)) f horizon next_pgno cap;
    Ok (Fresh ps, f, next_pgno)
  else Ok (Kept base, f, next_pgno).

(** Step 4: a kept chain contributes no page. *)
Definition placed_pages (kind : PageType) (stride : Z) (entries : list (list Z)) (p : Placed) : Res StoreError (list (Z * Page)) :=
  match p with Fresh ps => lift (build_chain kind stride entries ps) | Kept _ => Ok [] end.
Definition placed_count (p : Placed) : Z := match p with Fresh ps => Z.of_nat (length ps) | Kept _ => 0 end.

(** Everything a commit decides before it touches the disk. *)
Record Plan := mkPlan { pl_out : list (Z * Page); pl_next : Z; pl_meta : MetaPage; pl_freelist : Freelist; pl_tally : CommitBreakdown }.

Definition plan_commit (pager : P) (horizon txn_id : Z) (base : MetaPage) (pages : list (Z * Page)) (f : Freelist)
    (roots : RootRecords) (snapshots : SnapshotRegistry) (catalog : list (list Z)) (dirty : DirtyChains) (next_pgno : Z)
    : Res StoreError Plan :=
  let cap := capacity pager in
  let root_entries := roots_encode roots in
  let snap_entries := snaps_encode snapshots in
  '(root_p, f, next_pgno) ← place_chain pager (dc_roots dirty) (m_root_records base) PRootRecords ROOT_RECORD_BYTES
      (Z.of_nat (length root_entries)) f txn_id horizon next_pgno cap;
  '(snap_p, f, next_pgno) ← place_chain pager (dc_snapshots dirty) (m_snapshots base) PSnapshots SNAPSHOT_ENTRY_BYTES
      (Z.of_nat (length snap_entries)) f txn_id horizon next_pgno cap;
  '(cat_p, f, next_pgno) ← place_chain pager (dc_catalog dirty) (m_catalog base) PCatalog CATALOG_ENTRY_BYTES
      (Z.of_nat (length catalog)) f txn_id horizon next_pgno cap;
  f ← recycle_chain pager (m_freelist base) PFreelist FREE_ENTRY_BYTES f txn_id;
  '(free_p, f, next_pgno) ← alloc_freelist_pages f horizon next_pgno cap;
  roots_out ← placed_pages PRootRecords ROOT_RECORD_BYTES root_entries root_p;
  snaps_out ← placed_pages PSnapshots SNAPSHOT_ENTRY_BYTES snap_entries snap_p;
  cat_out ← placed_pages PCatalog CATALOG_ENTRY_BYTES catalog cat_p;
  free_out ← lift (build_chain PFreelist FREE_ENTRY_BYTES (free_encode f) free_p);
  let next_meta := mkMeta txn_id next_pgno (placed_head root_p) (head free_p) (placed_head snap_p) (placed_head cat_p) (m_flags base) in
  Ok (mkPlan (pages ++ roots_out ++ snaps_out ++ cat_out ++ free_out) next_pgno next_meta f
        (mkBreakdown (Z.of_nat (length pages)) (placed_count root_p) (placed_count snap_p) (placed_count cat_p) (Z.of_nat (length free_p)))).

Definition commit_txn (s : Store P) (txn_id : Z) (base : MetaPage) (pages : list (Z * Page)) (f : Freelist)
    (roots : RootRecords) (snapshots : SnapshotRegistry) (catalog : list (list Z)) (dirty : DirtyChains) (next_pgno : Z)
    : Res StoreError (Store P * Z) :=
  let horizon := horizon_of s snapshots (m_txn_id base) in
  pl ← plan_commit (s_pager s) horizon txn_id base pages f roots snapshots catalog dirty next_pgno;
  pager ← write_and_flip (s_pager s) (s_durability s) (pl_out pl) (pl_next pl) (pl_meta pl);
  let st := mkState (pl_meta pl) roots snapshots
              (if dc_catalog dirty then catalog else st_catalog (s_state s)) (pl_freelist pl) in
  Ok (mkStore pager st (s_readers s) (s_durability s) (pl_tally pl), txn_id).

(** * Shrinking the file *)
Definition truncate_tail (s : Store P) : Res StoreError (Store P * Z) :=
  if negb (bool_decide (s_readers s = ∅)) then Err EReadersActive
  else
    let st := s_state s in
    let meta := st_meta st in
    let horizon := Z.min (default (m_txn_id meta) (oldest_txn_id (st_snapshots st))) (m_txn_id meta) in
    let '(f, released) := trim_tail (st_freelist st) (m_page_count meta) horizon in
    if released =? 0 then Ok (s, 0)
    else
      let new_count := m_page_count meta - released in
      chain ← chain_pgnos (s_pager s) (m_freelist meta) PFreelist FREE_ENTRY_BYTES;
      out ← lift (build_chain PFreelist FREE_ENTRY_BYTES (free_encode f) chain);
      pager ← write_pages (s_pager s) out;
      let next := mkMeta (m_txn_id meta + 1) new_count (m_root_records meta) (m_freelist meta)
                    (m_snapshots meta) (m_catalog meta) (m_flags meta) in
      page ← lift (meta_encode next);
      pager ← pager_write pager (slot next) page;
      pager ← sync pager;
      pager ← truncate pager new_count;
      Ok (mkStore pager (mkState next (st_roots st) (st_snapshots st) (st_catalog st) f)
            (s_readers s) (s_durability s) (s_last_commit s), released).
End store.

(** * What an allocation takes *)

(** [ps] was allocated: part of it from the freelist, under the horizon, the rest from the tail. *)
Definition allocated (f : Freelist) (horizon next : Z) (ps : list Z) (f' : Freelist) (next' : Z) : Prop :=
  Forall run_ok f' ∧ next <= next' ∧ (length f' <= length f)%nat ∧
  ∃ taken, stamped f ≡ₚ taken ++ stamped f' ∧ Forall (λ x, snd x <= horizon) taken ∧
           ps ≡ₚ (fst <$> taken) ++ seqZ next (next' - next).

Lemma allocated_nil f h next : Forall run_ok f → allocated f h next [] f next.
Proof.
  intros Hf. split_and!; [done|lia|done|]. exists []. rewrite Z.sub_diag, seqZ_nil by lia. done.
Qed.

Lemma allocated_app f h next ps f' next' qs f'' next'' :
  allocated f h next ps f' next' → allocated f' h next' qs f'' next'' → allocated f h next (ps ++ qs) f'' next''.
Proof.
  intros (Hf1 & Hn1 & Hl1 & t1 & Hs1 & Hh1 & Hp1) (Hf2 & Hn2 & Hl2 & t2 & Hs2 & Hh2 & Hp2).
  split_and!; [done|lia|lia|]. exists (t1 ++ t2). split_and!.
  - by rewrite Hs1, Hs2, app_assoc.
  - by apply Forall_app.
  - rewrite Hp1, Hp2, fmap_app. replace (next'' - next) with ((next' - next) + (next'' - next')) by lia.
    rewrite seqZ_app by lia. replace (next + (next' - next)) with next' by lia.
    rewrite <-!app_assoc. f_equiv. rewrite !app_assoc. f_equiv. apply Permutation_app_comm.
Qed.

Lemma alloc_one_allocated f h next cap p f' next' :
  Forall run_ok f → 0 <= next → next' <= 2 ^ 32 → alloc_one f h next cap = Ok (p, f', next') →
  allocated f h next [p] f' next'.
Proof.
  intros Hf H0 Hn. unfold alloc_one. destruct (free_alloc f h) as [[q g]|] eqn:He.
  - intros [= <- <- <-]. destruct (free_alloc_spec _ _ _ _ Hf He) as (t & Ht & Hs & Hok & Hl).
    split_and!; [done|lia|done|]. exists [(q, t)]. split_and!; [done|by repeat constructor|].
    rewrite Z.sub_diag, seqZ_nil by lia. done.
  - intros H. apply bind_ok in H as ([q n'] & Ha & H). injection H as <- <- <-.
    assert (q = next mod 2 ^ 32 ∧ n' = next + 1) as [-> ->].
    { unfold alloc_tail in Ha. destruct cap as [c|]; [destruct (c <=? next); [done|]|]; by simplify_eq. }
    rewrite Z.mod_small by lia. split_and!; [done|lia|done|]. exists []. split_and!; [done|constructor|].
    replace (next + 1 - next) with 1 by lia. done.
Qed.

Lemma alloc_one_next f h next cap p f' next' : alloc_one f h next cap = Ok (p, f', next') → next <= next'.
Proof.
  unfold alloc_one. destruct (free_alloc f h) as [[q g]|]; [by intros [= <- <- <-]|].
  unfold alloc_tail. destruct cap as [c|]; [destruct (c <=? next); [done|]|]; intros [= <- <- <-]; lia.
Qed.

Lemma alloc_pages_next n f h next cap ps f' next' : alloc_pages n f h next cap = Ok (ps, f', next') → next <= next'.
Proof.
  revert f next ps f' next'. induction n as [|n IH]; intros f next ps f' next' H; cbn [alloc_pages] in H; [by simplify_eq|].
  apply bind_ok in H as ([[p f1] n1] & H1 & H). apply bind_ok in H as ([[qs f2] n2] & H2 & H). simplify_eq.
  apply alloc_one_next in H1. apply IH in H2. lia.
Qed.

Lemma alloc_pages_allocated n f h next cap ps f' next' :
  Forall run_ok f → 0 <= next → next' <= 2 ^ 32 → alloc_pages n f h next cap = Ok (ps, f', next') →
  allocated f h next ps f' next' ∧ length ps = n.
Proof.
  revert f next ps f' next'. induction n as [|n IH]; intros f next ps f' next' Hf H0 Hn H; cbn [alloc_pages] in H.
  { simplify_eq. split; [by apply allocated_nil|done]. }
  apply bind_ok in H as ([[p f1] n1] & H1 & H). apply bind_ok in H as ([[qs f2] n2] & H2 & H). simplify_eq.
  pose proof (alloc_one_next _ _ _ _ _ _ _ H1). pose proof (alloc_pages_next _ _ _ _ _ _ _ _ H2).
  apply alloc_one_allocated in H1; [|done|lia|lia].
  apply IH in H2 as [H2 Hl]; [|by apply H1|lia|lia].
  split; [by apply (allocated_app _ _ _ [p] _ _ qs _ _ H1 H2)|simpl; by rewrite Hl].
Qed.

(** ** The freelist's own pages: the loop ends, with enough of them *)
Lemma pages_needed_mono n m : n <= m → chain_pages_needed FREE_ENTRY_BYTES n <= chain_pages_needed FREE_ENTRY_BYTES m.
Proof. intros H. unfold chain_pages_needed. apply Z.div_le_mono; [done|lia]. Qed.

Lemma alloc_one_no_panic f h next cap : no_panic (alloc_one f h next cap).
Proof. unfold alloc_one, alloc_tail. by repeat case_match. Qed.

Lemma alloc_one_entries f h next cap p f' next' :
  Forall run_ok f → alloc_one f h next cap = Ok (p, f', next') → Forall run_ok f' ∧ (length f' <= length f)%nat.
Proof.
  intros Hf. unfold alloc_one. destruct (free_alloc f h) as [[q g]|] eqn:He.
  - intros [= <- <- <-]. by destruct (free_alloc_spec _ _ _ _ Hf He) as (t & _ & _ & ? & ?).
  - intros H. apply bind_ok in H as ([? ?] & _ & H). by simplify_eq.
Qed.

Lemma alloc_free_loop_no_panic fuel out f h next cap :
  Forall run_ok f → chain_pages_needed FREE_ENTRY_BYTES (entry_count f) <= Z.of_nat (length out + fuel) →
  no_panic (alloc_free_loop fuel out f h next cap).
Proof.
  revert out f next. induction fuel as [|fuel IH]; intros out f next Hf Hle; cbn [alloc_free_loop];
    destruct (Z.ltb_spec (Z.of_nat (length out)) (chain_pages_needed FREE_ENTRY_BYTES (entry_count f))); try done; [lia|].
  apply no_panic_bind; [apply alloc_one_no_panic|]. intros [[p f1] n1] H1.
  destruct (alloc_one_entries _ _ _ _ _ _ _ Hf H1) as [Hf1 Hl]. apply IH; [done|].
  pose proof (pages_needed_mono (entry_count f1) (entry_count f)) as Hm. unfold entry_count in *.
  rewrite length_app. cbn [length]. lia.
Qed.

Lemma alloc_freelist_pages_no_panic f h next cap :
  Forall run_ok f → no_panic (alloc_freelist_pages f h next cap).
Proof.
  intros Hf. unfold alloc_freelist_pages. destruct (compact_spec f Hf) as [Hok _].
  apply alloc_free_loop_no_panic; [done|]. cbn [length]. lia.
Qed.

Lemma alloc_free_loop_next fuel out f h next cap ps f' next' :
  alloc_free_loop fuel out f h next cap = Ok (ps, f', next') → next <= next'.
Proof.
  revert out f next. induction fuel as [|fuel IH]; intros out f next H; cbn [alloc_free_loop] in H;
    destruct (_ <? _); try done; try (by simplify_eq).
  apply bind_ok in H as ([[p f1] n1] & H1 & H). apply alloc_one_next in H1. apply IH in H. lia.
Qed.

Lemma alloc_free_loop_allocated fuel out f h next cap ps f' next' :
  Forall run_ok f → 0 <= next → next' <= 2 ^ 32 → alloc_free_loop fuel out f h next cap = Ok (ps, f', next') →
  ∃ qs, ps = out ++ qs ∧ allocated f h next qs f' next' ∧
        chain_pages_needed FREE_ENTRY_BYTES (entry_count f') <= Z.of_nat (length ps).
Proof.
  revert out f next. induction fuel as [|fuel IH]; intros out f next Hf H0 Hn H; cbn [alloc_free_loop] in H;
    destruct (Z.ltb_spec (Z.of_nat (length out)) (chain_pages_needed FREE_ENTRY_BYTES (entry_count f))) as [Hlt|Hge]; try done.
  1,3: simplify_eq; exists []; rewrite app_nil_r; split_and!; [done|by apply allocated_nil|done].
  apply bind_ok in H as ([[p f1] n1] & H1 & H). pose proof (alloc_one_next _ _ _ _ _ _ _ H1).
  pose proof (alloc_free_loop_next _ _ _ _ _ _ _ _ _ H).
  apply alloc_one_allocated in H1; [|done|lia|lia].
  apply IH in H as (qs & -> & Ha & Hneed); [|by apply H1|lia|lia].
  exists ([p] ++ qs). rewrite app_assoc. split_and!; [done|by eapply allocated_app|done].
Qed.

Lemma alloc_freelist_pages_allocated f h next cap ps f' next' :
  Forall run_ok f → 0 <= next → next' <= 2 ^ 32 → alloc_freelist_pages f h next cap = Ok (ps, f', next') →
  allocated (compact f) h next ps f' next' ∧
  chain_pages_needed FREE_ENTRY_BYTES (Z.of_nat (length (free_encode f'))) <= Z.of_nat (length ps).
Proof.
  intros Hf H0 Hn H. unfold alloc_freelist_pages in H. destruct (compact_spec f Hf) as [Hok _].
  apply alloc_free_loop_allocated in H as (qs & -> & Ha & Hneed); [|done..].
  split; [done|]. unfold entry_count in Hneed. unfold free_encode. by rewrite length_fmap.
Qed.

(** * The bookkeeping of a commit: no page has two owners

    [K] are the pages of the chains the base still owns, [U] the pages this commit has handed out
    so far, [D] the pages it must not hand out: the transaction's data and everything live. *)
Record plan_inv (D : list Z) (h : Z) (K : list Z) (f : Freelist) (next : Z) (U : list Z) : Prop := {
  pi_runs : Forall run_ok f;
  pi_nodup : NoDup (K ++ U ++ (fst <$> stamped f));
  pi_range : Forall (λ p, 2 <= p < next) (K ++ U ++ (fst <$> stamped f));
  pi_data_range : Forall (λ p, 2 <= p < next) D;
  pi_data_live : ∀ p, p ∈ D → p ∉ U;
  pi_data_free : ∀ p t, (p, t) ∈ stamped f → t <= h → p ∉ D;
  pi_next : 2 <= next <= 2 ^ 32 - 1
}.

Lemma fst_stamps (t : Z) (l : list Z) : fst <$> ((λ p, (p, t)) <$> l) = l.
Proof. rewrite <-list_fmap_compose. induction l as [|x l IH]; [done|]. csimpl. by rewrite IH. Qed.

Lemma plan_recycle D h K K' l f next U txn :
  plan_inv D h K f next U → K ≡ₚ l ++ K' → h < txn < 2 ^ 64 → 0 <= txn →
  plan_inv D h K' (foldl (λ f p, free_push f p txn) f l) next U.
Proof.
  intros [Hr Hn Hg Hdr Hdl Hdf Hnx] HK Ht Ht0.
  assert (Forall (λ p, 0 <= p < 2 ^ 32 - 1) l) as Hl.
  { rewrite HK in Hg. rewrite !Forall_app in Hg. destruct Hg as [[Hg _] _]. eapply Forall_impl; [exact Hg|]. simpl. lia. }
  destruct (stamped_pushes f l txn Hr ltac:(lia) Hl) as [Hr' Hs].
  assert (K' ++ U ++ (fst <$> stamped (foldl (λ f p, free_push f p txn) f l)) ≡ₚ K ++ U ++ (fst <$> stamped f)) as Hp.
  { rewrite Hs, fmap_app, fst_stamps, HK. rewrite (Permutation_app_comm l K'), <-!app_assoc. f_equiv.
    rewrite (Permutation_app_comm l), <-!app_assoc. done. }
  split; [done|by rewrite Hp|by rewrite Hp|done|done| |done].
  - intros p t. rewrite Hs, elem_of_app. intros [Hin|Hin] Hle; [by apply (Hdf p t)|].
    apply list_elem_of_fmap in Hin as (q & [= -> ->] & _). lia.
Qed.

Lemma plan_alloc D h K f next U ps f' next' :
  plan_inv D h K f next U → allocated f h next ps f' next' → next' <= 2 ^ 32 - 1 →
  plan_inv D h K f' next' (U ++ ps) ∧ Forall (λ p, 2 <= p < next') ps.
Proof.
  intros [Hr Hn Hg Hdr Hdl Hdf Hnx] (Hr' & Hle & _ & taken & Hs & Hh & Hp) Hn'.
  assert (Forall (λ p, 2 <= p < next') ps) as Hps.
  { rewrite Hp. apply Forall_app. split.
    - rewrite Hs, fmap_app in Hg. rewrite !Forall_app in Hg. destruct Hg as (_ & _ & Hg & _).
      eapply Forall_impl; [exact Hg|]. simpl. lia.
    - apply Forall_forall. intros p Hin%elem_of_seqZ. lia. }
  assert (K ++ (U ++ ps) ++ (fst <$> stamped f') ≡ₚ (K ++ U ++ (fst <$> stamped f)) ++ seqZ next (next' - next)) as Hperm.
  { rewrite Hp, Hs, fmap_app, <-!app_assoc. do 3 f_equiv. apply Permutation_app_comm. }
  split; [|done]. split; [done| | | | | |lia].
  - rewrite Hperm. apply NoDup_app. split_and!; [done| |apply ascending_NoDup, ascending_seqZ].
    intros p Hin Hin2%elem_of_seqZ. rewrite Forall_forall in Hg. specialize (Hg p Hin). simpl in Hg. lia.
  - rewrite Hperm. apply Forall_app. split; [eapply Forall_impl; [exact Hg|]; simpl; lia|].
    apply Forall_forall. intros p Hin%elem_of_seqZ. lia.
  - eapply Forall_impl; [exact Hdr|]. simpl. lia.
  - intros p HD. rewrite elem_of_app. intros [?|Hin]; [by apply (Hdl p)|].
    rewrite Hp in Hin. apply elem_of_app in Hin as [((q & t) & -> & Hq)%list_elem_of_fmap|Hin%elem_of_seqZ].
    + cbn in HD. apply (Hdf q t); [rewrite Hs; apply elem_of_app; by left| |done].
      rewrite Forall_forall in Hh. by apply (Hh (q, t)).
    + rewrite Forall_forall in Hdr. specialize (Hdr p HD). simpl in Hdr. lia.
  - intros p t Hin Ht. apply (Hdf p t); [|done]. rewrite Hs. apply elem_of_app. by right.
Qed.

Lemma plan_compact D h K f next U : plan_inv D h K f next U → plan_inv D h K (compact f) next U.
Proof.
  intros [Hr Hn Hg Hdr Hdl Hdf Hnx]. destruct (compact_spec f Hr) as [Hr' Hs].
  split; [done|by rewrite Hs|by rewrite Hs|done|done| |done].
  intros p t Hin. rewrite Hs in Hin. by apply Hdf.
Qed.

Section placing.
Context {X : Extern} {L : ExternLaws X} {P : Type} `{!Pager P, !PagerMut P, !PagerLaws P}.

Lemma chain_pgnos_ok (pager : P) root ty stride l es :
  chain_walk ty stride pager root l es → (length l <= Z.to_nat (page_count pager))%nat →
  chain_pgnos pager root ty stride = Ok l.
Proof. intros Hw Hl. unfold chain_pgnos. erewrite pgnos_loop_walk; [by rewrite app_nil_l|done|lia]. Qed.

(** What one chain contributes: [ps] are its fresh pages, [keep] the ones it keeps. *)
Definition place_result (dirty : bool) (base : option Z) (l : list Z) (pl : Placed) (ps keep : list Z) (n stride : Z) : Prop :=
  if dirty then pl = Fresh ps ∧ keep = [] ∧ Z.of_nat (length ps) = chain_pages_needed stride n
  else pl = Kept base ∧ keep = l ∧ ps = [].

Lemma place_chain_ok D h K1 K2 l (pager : P) dirty base kind stride n f txn next cap pl f' next' U es :
  plan_inv D h (K1 ++ l ++ K2) f next U → chain_walk kind stride pager base l es →
  (length l <= Z.to_nat (page_count pager))%nat → h < txn < 2 ^ 64 → 0 <= txn → next' <= 2 ^ 32 - 1 →
  0 <= chain_pages_needed stride n →
  place_chain pager dirty base kind stride n f txn h next cap = Ok (pl, f', next') →
  ∃ ps keep, place_result dirty base l pl ps keep n stride ∧
    plan_inv D h (K1 ++ keep ++ K2) f' next' (U ++ ps) ∧ Forall (λ p, 2 <= p < next') ps ∧ next <= next'.
Proof.
  intros Hinv Hw Hlen Ht Ht0 Hn' Hneed. unfold place_chain, place_result. destruct dirty; intros H.
  - unfold recycle_chain in H. rewrite (chain_pgnos_ok _ _ _ _ _ _ Hw Hlen) in H. cbn [mbind Res_bind] in H.
    apply bind_ok in H as ([[ps f1] n1] & Ha & H). simplify_eq.
    assert (plan_inv D h (K1 ++ K2) (foldl (λ f p, free_push f p txn) f l) next U) as Hinv1.
    { eapply plan_recycle; [exact Hinv| |done..]. by rewrite Permutation_app_swap_app. }
    pose proof (alloc_pages_next _ _ _ _ _ _ _ _ Ha).
    apply alloc_pages_allocated in Ha as [Ha Hl]; [|by apply Hinv1|destruct Hinv1; lia|lia].
    destruct (plan_alloc _ _ _ _ _ _ _ _ _ Hinv1 Ha Hn') as [Hinv2 Hps].
    exists ps, []. split_and!; try done. rewrite Hl. lia.
  - simplify_eq. exists [], l. by rewrite app_nil_r.
Qed.
End placing.

(** * What a flip leaves in the file *)
Section flipping.
Context {X : Extern} {L : ExternLaws X} {P : Type} `{!Pager P, !PagerMut P, !PagerLaws P}.

Lemma write_pages_reads (p : P) out p' :
  write_pages p out = Ok p' → NoDup (fst <$> out) →
  (∀ no pg, (no, pg) ∈ out → pager_read p' no = Ok pg) ∧
  (∀ n, n ∉ fst <$> out → pager_read p' n = pager_read p n) ∧ page_count p' = page_count p.
Proof.
  revert p. induction out as [|[no pg] out IH]; intros p H Hnd; cbn [write_pages] in H.
  { simplify_eq. split_and!; [|done..]. by intros ??[]%not_elem_of_nil. }
  csimpl in Hnd. apply NoDup_cons in Hnd as [Hno Hnd]. apply bind_ok in H as (p1 & Hw & H).
  destruct (IH _ H Hnd) as (Hr & Ho & Hc). split_and!.
  - intros n q [[= -> ->]|Hin]%elem_of_cons; [|by apply Hr]. rewrite Ho by done. by eapply write_read.
  - intros n Hn. csimpl in Hn. apply not_elem_of_cons in Hn as [Hne Hn].
    rewrite Ho by done. by eapply write_other.
  - rewrite Hc. by eapply write_count.
Qed.

Lemma flush_reads (p : P) d p' : flush p d = Ok p' → (∀ n, pager_read p' n = pager_read p n) ∧ page_count p' = page_count p.
Proof.
  destruct d; cbn [flush]; intros H.
  - split; [intros n; by eapply sync_read|by eapply sync_count].
  - split; [intros n; by eapply sync_data_read|by eapply sync_data_count].
  - by simplify_eq.
Qed.

Lemma write_and_flip_reads (p : P) d out next meta p' :
  write_and_flip p d out next meta = Ok p' → NoDup (fst <$> out) → slot meta ∉ fst <$> out →
  ∃ page, meta_encode meta = Ok page ∧ pager_read p' (slot meta) = Ok page ∧
    (∀ no pg, (no, pg) ∈ out → pager_read p' no = Ok pg) ∧
    (∀ n, n < page_count p → n ∉ fst <$> out → n ≠ slot meta → pager_read p' n = pager_read p n) ∧
    page_count p' = Z.max (page_count p) next.
Proof.
  unfold write_and_flip. intros H Hnd Hslot.
  apply bind_ok in H as (p1 & Hg & H). apply bind_ok in H as (p2 & Hw & H). apply bind_ok in H as (p3 & Hf & H).
  apply bind_ok in H as (page & He & H). apply lift_ok in He. apply bind_ok in H as (p4 & Hm & H).
  destruct (write_pages_reads _ _ _ Hw Hnd) as (Hr2 & Ho2 & Hc2).
  destruct (flush_reads _ _ _ Hf) as [Hr3 Hc3]. destruct (flush_reads _ _ _ H) as [Hr5 Hc5].
  exists page. split_and!; [done| | | |].
  - rewrite Hr5. by eapply write_read.
  - intros no pg Hin. rewrite Hr5. rewrite (write_other _ _ _ _ no Hm).
    + rewrite Hr3. by apply Hr2.
    + intros ->. apply Hslot. by apply (list_elem_of_fmap_2 fst _ (slot meta, pg)).
  - intros n Hn Hout Hns. rewrite Hr5, (write_other _ _ _ _ n Hm Hns), Hr3, Ho2 by done. by eapply grow_read.
  - rewrite Hc5, (write_count _ _ _ _ Hm), Hc3, Hc2. by eapply grow_count.
Qed.
End flipping.

(** * The state of a file between commits *)
Section invariant.
Context {X : Extern} {L : ExternLaws X} {P : Type} `{!Pager P}.

(** The four chains of a meta, page by page. *)
Record Layout := mkLayout { ly_roots : list Z; ly_snaps : list Z; ly_cat : list Z; ly_free : list Z }.
Definition ly_all (l : Layout) : list Z := ly_roots l ++ ly_snaps l ++ ly_cat l ++ ly_free l.

(** [fd] is the freelist as its chain has it. *)
Record chains_ok (pager : P) (st : StoreState) (l : Layout) (fd : Freelist) : Prop := {
  co_roots : chain_walk PRootRecords ROOT_RECORD_BYTES pager (m_root_records (st_meta st)) (ly_roots l) (roots_encode (st_roots st));
  co_snaps : chain_walk PSnapshots SNAPSHOT_ENTRY_BYTES pager (m_snapshots (st_meta st)) (ly_snaps l) (snaps_encode (st_snapshots st));
  co_cat : chain_walk PCatalog CATALOG_ENTRY_BYTES pager (m_catalog (st_meta st)) (ly_cat l) (st_catalog st);
  co_free : chain_walk PFreelist FREE_ENTRY_BYTES pager (m_freelist (st_meta st)) (ly_free l) (free_encode fd)
}.

Record typed_state (st : StoreState) : Prop := {
  ts_roots : roots_ok (st_roots st);
  ts_roots_typed : Forall root_typed (st_roots st);
  ts_snaps : registry_ok (st_snapshots st);
  ts_snaps_typed : Forall snap_typed (sr_snaps (st_snapshots st));
  ts_next_id : sr_next_id (st_snapshots st) < 2 ^ 64;
  ts_cat : entries_ok CATALOG_ENTRY_BYTES (st_catalog st)
}.

(** The governing meta is in its slot, and the other slot has nothing newer. *)
Definition meta_slots (pager : P) (meta : MetaPage) : Prop :=
  read_meta pager (slot meta) = Ok meta ∧ no_panic (read_meta pager (1 - slot meta)) ∧
  (∀ m, read_meta pager (1 - slot meta) = Ok m → m_txn_id m < m_txn_id meta).

Record store_inv (pager : P) (st : StoreState) (l : Layout) (fd : Freelist) : Prop := {
  si_chains : chains_ok pager st l fd;
  si_typed : typed_state st;
  si_meta : meta_ok (st_meta st);
  si_slots : meta_slots pager (st_meta st);
  si_runs : Forall run_ok fd;
  si_free : st_freelist st = fd ∨ st_freelist st = compact fd;
  si_nodup : NoDup (ly_all l ++ (fst <$> stamped fd));
  si_range : Forall (λ p, 2 <= p < m_page_count (st_meta st)) (ly_all l ++ (fst <$> stamped fd));
  si_count : 2 <= m_page_count (st_meta st) <= page_count pager
}.

Lemma nodup_bounded l n : NoDup l → Forall (λ p, 2 <= p < n) l → 0 <= n → (length l <= Z.to_nat n)%nat.
Proof.
  intros Hnd Hr Hn. assert (l ⊆+ seqZ 0 n) as Hs.
  { apply NoDup_submseteq; [done|]. intros p Hp. apply elem_of_seqZ. rewrite Forall_forall in Hr.
    specialize (Hr p Hp). simpl in Hr. lia. }
  apply submseteq_length in Hs. by rewrite length_seqZ in Hs.
Qed.

Lemma layout_short pager st l fd :
  store_inv pager st l fd →
  Forall (λ x, (length x <= Z.to_nat (page_count pager))%nat) [ly_roots l; ly_snaps l; ly_cat l; ly_free l].
Proof.
  intros [_ _ _ _ _ _ Hn Hr Hc].
  assert (length (ly_all l) <= Z.to_nat (page_count pager))%nat as H.
  { apply NoDup_app in Hn as (Hn & _ & _). apply Forall_app in Hr as [Hr _].
    pose proof (nodup_bounded _ _ Hn Hr ltac:(lia)). lia. }
  unfold ly_all in H. rewrite !length_app in H. repeat constructor; lia.
Qed.

(** The state recovery rebuilds. *)
Definition reloads (st : StoreState) (fd : Freelist) (st' : StoreState) : Prop :=
  st_meta st' = st_meta st ∧ st_roots st' = st_roots st ∧ st_catalog st' = st_catalog st ∧
  sr_snaps (st_snapshots st') = sr_snaps (st_snapshots st) ∧ st_freelist st' = compact fd.

Lemma load_state_ok (pager : P) st l fd :
  chains_ok pager st l fd → typed_state st → Forall run_ok fd →
  Forall (λ x, (length x <= Z.to_nat (page_count pager + 1))%nat) [ly_roots l; ly_snaps l; ly_cat l; ly_free l] →
  ∃ st', load_state pager (st_meta st) = Ok st' ∧ reloads st fd st' ∧ typed_state st'.
Proof.
  intros [Hr Hs Hc Hf] Ht Hruns Hlen. rewrite !Forall_cons in Hlen. destruct Hlen as (L1 & L2 & L3 & L4 & _).
  unfold load_state. rewrite (proj2 (load_chain_walk _ _ _ _ _) (ex_intro _ _ (conj Hr L1))). cbn [mbind Res_bind].
  rewrite roots_roundtrip by apply Ht. cbn [mbind Res_bind].
  rewrite (proj2 (load_chain_walk _ _ _ _ _) (ex_intro _ _ (conj Hs L2))). cbn [mbind Res_bind].
  destruct (snaps_roundtrip (E:=StoreError) (st_snapshots st)) as (r' & -> & Hrs & Hok & Hnx); [apply Ht..|].
  cbn [mbind Res_bind]. rewrite (proj2 (load_chain_walk _ _ _ _ _) (ex_intro _ _ (conj Hc L3))). cbn [mbind Res_bind].
  rewrite (proj2 (load_chain_walk _ _ _ _ _) (ex_intro _ _ (conj Hf L4))). cbn [mbind Res_bind].
  rewrite free_roundtrip by done. cbn [mbind Res_bind]. eexists. split; [done|]. split; [done|].
  split; cbn; [apply Ht|apply Ht|done|rewrite Hrs; apply Ht| |apply Ht]. pose proof (ts_next_id _ Ht). lia.
Qed.

Lemma load_meta_ok (pager : P) meta :
  meta_slots pager meta → META_PAGES <= page_count pager → load_meta pager = Ok meta.
Proof.
  intros (H1 & H2 & H3) Hc. unfold load_meta. rewrite (proj2 (Z.ltb_ge _ _) Hc).
  assert (0 <= slot meta < 2) as Hs by (unfold slot, META_PAGES; apply Z.mod_pos_bound; lia).
  assert (slot meta = 0 ∨ slot meta = 1) as [E|E] by lia; rewrite E in *;
    [change (1 - 0) with 1 in *|change (1 - 1) with 0 in *]; rewrite H1.
  - destruct (read_meta pager 1) as [y|e|]; [|done|done]. cbn.
    specialize (H3 y eq_refl). by rewrite (proj2 (Z.leb_le _ _)) by lia.
  - destruct (read_meta pager 0) as [y|e|]; [|done|done]. cbn.
    specialize (H3 y eq_refl). by rewrite (proj2 (Z.leb_gt _ _)) by lia.
Qed.

(** Recovery of a sound file. *)
Lemma load_ok (pager : P) st l fd :
  store_inv pager st l fd →
  ∃ st', load pager = Ok (mkStore pager st' ∅ Full (mkBreakdown 0 0 0 0 0)) ∧ reloads st fd st' ∧
         store_inv pager st' l fd.
Proof.
  intros Hinv. pose proof (layout_short _ _ _ _ Hinv) as Hsh. destruct Hinv as [Hch Ht Hm Hsl Hru Hfr Hnd Hrg Hct].
  destruct (load_state_ok pager st l fd Hch Ht Hru) as (st' & Hl & Hre & Ht').
  { eapply Forall_impl; [exact Hsh|]. simpl. lia. }
  exists st'. unfold load. rewrite (load_meta_ok _ _ Hsl) by (unfold META_PAGES; lia). cbn [mbind Res_bind].
  rewrite Hl. cbn [mbind Res_bind]. split; [done|]. split; [done|].
  destruct Hre as (E1 & E2 & E3 & E4 & E5).
  split; rewrite ?E1; try done; [|by right]. destruct Hch as [Hr Hs Hc Hf].
  split; rewrite ?E1, ?E2, ?E3; try done. unfold snaps_encode in *. by rewrite E4.
Qed.
End invariant.

(** * A commit keeps the file sound *)
Lemma plan_inv_horizon D h h' K f next U : plan_inv D h K f next U → h' <= h → plan_inv D h' K f next U.
Proof. intros [] Hh. split; try done. intros p t Hin Ht. apply (pi_data_free0 p t); [done|lia]. Qed.

Section commit.
Context {X : Extern} {L : ExternLaws X} {P : Type} `{!Pager P, !PagerMut P, !PagerLaws P}.

(** A chain after the commit: what it is on a pager that holds the pages written and has left the
    kept ones alone. *)
Lemma placed_walk (pager : P) kind stride dirty base l pl ps keep entries old next out :
  0 < stride <= PAGE_SIZE - PAGE_TRAILER - CHAIN_DATA →
  place_result dirty base l pl ps keep (Z.of_nat (length entries)) stride →
  chain_walk kind stride pager base l old → (dirty = false → entries = old) →
  entries_ok stride entries → Forall (λ p, 2 <= p < next) ps → next <= 2 ^ 32 - 1 →
  placed_pages kind stride entries pl = Ok out →
  fst <$> out = ps ∧
  ∀ pager' : P, (∀ no pg, (no, pg) ∈ out → pager_read pager' no = Ok pg) →
    (∀ n, n ∈ keep → pager_read pager' n = pager_read pager n) →
    chain_walk kind stride pager' (placed_head pl) (ps ++ keep) entries.
Proof.
  intros Hst Hres Hw Hold Hes Hps Hn Hout. unfold place_result in Hres. destruct dirty.
  - destruct Hres as (-> & -> & Hlen). cbn [placed_pages] in Hout. apply lift_ok in Hout.
    destruct (build_chain_ok kind stride ltac:(lia) entries ps) as (pages & cs & Hb & Hfst & Hal & Hcs);
      [lia|done|eapply Forall_impl; [exact Hps|]; simpl; lia|lia|].
    rewrite Hb in Hout. injection Hout as <-. split; [done|]. intros pager' Hrd _. rewrite app_nil_r, <-Hfst, <-Hcs.
    cbn [placed_head]. replace (head (fst <$> pages)) with (fst <$> head pages) by (by destruct pages as [|[]]).
    by apply walk_built.
  - destruct Hres as (-> & -> & ->). cbn in Hout. simplify_eq. split; [done|]. intros pager' _ Hk.
    cbn [placed_head app]. rewrite (Hold eq_refl). by eapply walk_frame.
Qed.

Record commit_pre (pager : P) (st : StoreState) (l : Layout) (fd : Freelist) (data : list Z) (txn_id : Z) (pages : list (Z * Page))
    (f : Freelist) (roots : RootRecords) (snaps : SnapshotRegistry) (catalog : list (list Z)) (dirty : DirtyChains)
    (next : Z) : Prop := {
  cp_inv : store_inv pager st l fd;
  cp_txn : txn_id = m_txn_id (st_meta st) + 1 ∧ txn_id < 2 ^ 64;
  cp_plan : plan_inv ((fst <$> pages) ++ ly_all l) (m_txn_id (st_meta st)) (ly_all l ++ data) f next [];
  cp_pages : NoDup ((fst <$> pages) ++ ly_all l);
  cp_next : page_count pager <= next;
  cp_typed : typed_state (mkState (st_meta st) roots snaps catalog f);
  cp_kept_roots : dc_roots dirty = false → roots = st_roots st;
  cp_kept_snaps : dc_snapshots dirty = false → snaps_encode snaps = snaps_encode (st_snapshots st);
  cp_kept_cat : dc_catalog dirty = false → catalog = st_catalog st
}.

(** What a plan promises. *)
Record plan_post (pager : P) (l : Layout) (data : list Z) (txn_id : Z) (roots : RootRecords) (snaps : SnapshotRegistry)
    (catalog : list (list Z)) (next : Z) (pl : Plan) (l' : Layout) : Prop := {
  pp_nodup_out : NoDup (fst <$> pl_out pl);
  pp_range_out : Forall (λ p, 2 <= p < pl_next pl) (fst <$> pl_out pl);
  pp_fresh : ∀ n, n ∈ fst <$> pl_out pl → n ∉ ly_all l;
  pp_next : next <= pl_next pl ∧ 2 <= pl_next pl;
  pp_meta : meta_ok (pl_meta pl) ∧ m_txn_id (pl_meta pl) = txn_id ∧ m_page_count (pl_meta pl) = pl_next pl;
  pp_runs : Forall run_ok (pl_freelist pl);
  pp_nodup : NoDup (ly_all l' ++ data ++ (fst <$> stamped (pl_freelist pl)));
  pp_range : Forall (λ p, 2 <= p < pl_next pl) (ly_all l' ++ data ++ (fst <$> stamped (pl_freelist pl)));
  pp_chains : ∀ pager' : P, (∀ no pg, (no, pg) ∈ pl_out pl → pager_read pager' no = Ok pg) →
    (∀ n, n ∈ ly_all l → pager_read pager' n = pager_read pager n) →
    chains_ok pager' (mkState (pl_meta pl) roots snaps catalog (pl_freelist pl)) l' (pl_freelist pl)
}.

Lemma pages_needed_nonneg stride n :
  0 < stride <= PAGE_SIZE - PAGE_TRAILER - CHAIN_DATA → 0 <= n → 0 <= chain_pages_needed stride n.
Proof.
  intros Hs Hn. unfold chain_pages_needed.
  assert (1 <= chain_capacity stride) by (apply Z.div_le_lower_bound; lia). apply Z.div_pos; lia.
Qed.

Lemma place_chain_next (pager : P) dirty base kind stride n f txn h next cap pl f' next' :
  place_chain pager dirty base kind stride n f txn h next cap = Ok (pl, f', next') → next <= next'.
Proof.
  unfold place_chain. destruct dirty; intros H; [|by simplify_eq].
  apply bind_ok in H as (g & _ & H). apply bind_ok in H as ([[ps f1] n1] & Ha & H). simplify_eq.
  by eapply alloc_pages_next.
Qed.

Lemma placed_head_field pl ps keep base l old kind stride (pager : P) dirty n next :
  place_result dirty base l pl ps keep n stride → chain_walk kind stride pager base l old →
  Forall (λ p, 2 <= p < next) (ps ++ l) → next <= 2 ^ 32 - 1 → pgno_field (placed_head pl).
Proof.
  intros Hres Hw Hr Hn. unfold place_result in Hres. apply Forall_app in Hr as [Hps Hl]. destruct dirty.
  - destruct Hres as (-> & _). destruct ps as [|p ps]; cbn; [done|]. apply Forall_cons in Hps as [? _]. lia.
  - destruct Hres as (-> & _). cbn. inversion Hw; subst; cbn; [done|]. apply Forall_cons in Hl as [? _]. lia.
Qed.

(** The placements, one after the other. *)
Lemma plan_steps (pager : P) st l fd data D h txn f dirty next nr ns nc cap root_p f1 n1 snap_p f2 n2 cat_p f3 n3 f4 free_p f5 n5 :
  store_inv pager st l fd → plan_inv D h (ly_all l ++ data) f next [] → h < txn < 2 ^ 64 → 0 <= txn →
  0 <= nr → 0 <= ns → 0 <= nc → n5 <= 2 ^ 32 - 1 →
  place_chain pager (dc_roots dirty) (m_root_records (st_meta st)) PRootRecords ROOT_RECORD_BYTES nr f txn h next cap = Ok (root_p, f1, n1) →
  place_chain pager (dc_snapshots dirty) (m_snapshots (st_meta st)) PSnapshots SNAPSHOT_ENTRY_BYTES ns f1 txn h n1 cap = Ok (snap_p, f2, n2) →
  place_chain pager (dc_catalog dirty) (m_catalog (st_meta st)) PCatalog CATALOG_ENTRY_BYTES nc f2 txn h n2 cap = Ok (cat_p, f3, n3) →
  recycle_chain pager (m_freelist (st_meta st)) PFreelist FREE_ENTRY_BYTES f3 txn = Ok f4 →
  alloc_freelist_pages f4 h n3 cap = Ok (free_p, f5, n5) →
  ∃ pr kr ps ks pc kc,
    place_result (dc_roots dirty) (m_root_records (st_meta st)) (ly_roots l) root_p pr kr nr ROOT_RECORD_BYTES ∧
    place_result (dc_snapshots dirty) (m_snapshots (st_meta st)) (ly_snaps l) snap_p ps ks ns SNAPSHOT_ENTRY_BYTES ∧
    place_result (dc_catalog dirty) (m_catalog (st_meta st)) (ly_cat l) cat_p pc kc nc CATALOG_ENTRY_BYTES ∧
    chain_pages_needed FREE_ENTRY_BYTES (Z.of_nat (length (free_encode f5))) <= Z.of_nat (length free_p) ∧
    plan_inv D h (kr ++ ks ++ kc ++ data) f5 n5 (pr ++ ps ++ pc ++ free_p) ∧ next <= n5.
Proof.
  intros Hinv Hplan Ht Ht0 Nr Ns Nc Hmax H1 H2 H3 H4 H5.
  pose proof (layout_short _ _ _ _ Hinv) as Hsh. rewrite !Forall_cons in Hsh. destruct Hsh as (S1 & S2 & S3 & S4 & _).
  destruct (si_chains _ _ _ _ Hinv) as [Wr Ws Wc Wf].
  pose proof (place_chain_next _ _ _ _ _ _ _ _ _ _ _ _ _ _ H2). pose proof (place_chain_next _ _ _ _ _ _ _ _ _ _ _ _ _ _ H3).
  pose proof (alloc_free_loop_next _ _ _ _ _ _ _ _ _ H5).
  assert (0 <= chain_pages_needed ROOT_RECORD_BYTES nr) as Q1 by (by apply pages_needed_nonneg).
  assert (0 <= chain_pages_needed SNAPSHOT_ENTRY_BYTES ns) as Q2 by (by apply pages_needed_nonneg).
  assert (0 <= chain_pages_needed CATALOG_ENTRY_BYTES nc) as Q3 by (by apply pages_needed_nonneg).
  assert (n1 <= 2 ^ 32 - 1) as B1 by lia. assert (n2 <= 2 ^ 32 - 1) as B2 by lia. assert (n3 <= 2 ^ 32 - 1) as B3 by lia.
  unfold ly_all in Hplan. rewrite <-!app_assoc in Hplan.
  destruct (place_chain_ok D h [] (ly_snaps l ++ ly_cat l ++ ly_free l ++ data) (ly_roots l) pager _ _ _ _ _ _ _ _ _ _ _ _ _ _ Hplan Wr S1 Ht Ht0 B1 Q1 H1)
    as (pr & kr & R1 & I1 & _ & Le1).
  destruct (place_chain_ok D h kr (ly_cat l ++ ly_free l ++ data) (ly_snaps l) pager _ _ _ _ _ _ _ _ _ _ _ _ _ _ I1 Ws S2 Ht Ht0 B2 Q2 H2)
    as (ps & ks & R2 & I2 & _ & Le2).
  replace (kr ++ ks ++ ly_cat l ++ ly_free l ++ data) with ((kr ++ ks) ++ ly_cat l ++ ly_free l ++ data) in I2 by (by rewrite <-app_assoc).
  destruct (place_chain_ok D h (kr ++ ks) (ly_free l ++ data) (ly_cat l) pager _ _ _ _ _ _ _ _ _ _ _ _ _ _ I2 Wc S3 Ht Ht0 B3 Q3 H3)
    as (pc & kc & R3 & I3 & _ & Le3).
  unfold recycle_chain in H4. rewrite (chain_pgnos_ok _ _ _ _ _ _ Wf S4) in H4. cbn [mbind Res_bind] in H4. injection H4 as <-.
  apply (plan_recycle _ _ _ (kr ++ ks ++ kc ++ data) (ly_free l) _ _ _ txn) in I3; [|solve_Permutation|done..].
  apply alloc_freelist_pages_allocated in H5 as [Ha Hneed]; [|apply I3|destruct I3; lia|lia].
  apply plan_compact in I3. destruct (plan_alloc _ _ _ _ _ _ _ _ _ I3 Ha Hmax) as [I4 _].
  exists pr, kr, ps, ks, pc, kc. split_and!; try done; [|lia].
  replace (pr ++ ps ++ pc ++ free_p) with (((([] ++ pr) ++ ps) ++ pc) ++ free_p) by (by rewrite <-!app_assoc). done.
Qed.

Lemma plan_commit_ok (pager : P) st l fd data txn_id pages f roots snaps catalog dirty next horizon pl :
  commit_pre pager st l fd data txn_id pages f roots snaps catalog dirty next →
  horizon <= m_txn_id (st_meta st) →
  plan_commit pager horizon txn_id (st_meta st) pages f roots snaps catalog dirty next = Ok pl →
  pl_next pl <= 2 ^ 32 - 1 →
  ∃ l', plan_post pager l data txn_id roots snaps catalog next pl l'.
Proof.
  intros [Hinv [Htx Htx'] Hplan Hpages Hnext Hty Kr Ks Kc] Hh H Hmax.
  apply (plan_inv_horizon _ _ horizon) in Hplan; [|done].
  pose proof (si_chains _ _ _ _ Hinv) as [Wr Ws Wc Wf]. pose proof (si_meta _ _ _ _ Hinv) as (Hm1 & _ & Hm3 & _).
  unfold plan_commit in H.
  apply bind_ok in H as ([[root_p f1] n1] & H1 & H). apply bind_ok in H as ([[snap_p f2] n2] & H2 & H).
  apply bind_ok in H as ([[cat_p f3] n3] & H3 & H). apply bind_ok in H as (f4 & H4 & H).
  apply bind_ok in H as ([[free_p f5] n5] & H5 & H). apply bind_ok in H as (ro & Ro & H).
  apply bind_ok in H as (so & So & H). apply bind_ok in H as (cto & Co & H). apply bind_ok in H as (fo & Fo & H).
  injection H as <-. cbn [pl_next] in Hmax.
  assert (horizon < txn_id < 2 ^ 64) as T1 by lia. assert (0 <= txn_id) as T2 by lia.
  destruct (plan_steps pager st l fd data _ _ _ _ _ _ _ _ _ _ _ _ _ _ _ _ _ _ _ _ _ _ _ Hinv Hplan T1 T2
    (Nat2Z.is_nonneg _) (Nat2Z.is_nonneg _) (Nat2Z.is_nonneg _) Hmax H1 H2 H3 H4 H5) as (pr & kr & ps & ks & pc & kc & R1 & R2 & R3 & Hneed & Hpl & Hle).
  destruct Hpl as [Pruns Pnodup Prange Pdr Pdl Pdf Pnx].
  pose proof Prange as Prange'. rewrite !Forall_app in Prange'. destruct Prange' as (_ & (Gr & Gs & Gc & Gf) & _).
  destruct (placed_walk pager PRootRecords ROOT_RECORD_BYTES _ _ _ _ _ _ _ _ _ _ ltac:(done) R1 Wr ltac:(intros ->%Kr; done)
    (roots_entries_ok roots) Gr Hmax Ro) as [Fr Cr].
  destruct (placed_walk pager PSnapshots SNAPSHOT_ENTRY_BYTES _ _ _ _ _ _ _ _ _ _ ltac:(done) R2 Ws Ks
    (snap_entries_ok snaps (ts_snaps_typed _ Hty)) Gs Hmax So) as [Fs Cs].
  destruct (placed_walk pager PCatalog CATALOG_ENTRY_BYTES _ _ _ _ _ _ _ _ _ _ ltac:(done) R3 Wc Kc
    (ts_cat _ Hty) Gc Hmax Co) as [Fc Cc].
  apply lift_ok in Fo. destruct (build_chain_ok PFreelist FREE_ENTRY_BYTES ltac:(done) (free_encode f5) free_p) as (fpg & fcs & Fb & Ff & Fal & Fcs);
    [done|apply free_entries_ok|eapply Forall_impl; [exact Gf|]; simpl; lia|done|].
  rewrite Fb in Fo. injection Fo as <-.
  assert (kr ++ ks ++ kc ⊆+ ly_all l) as Hsub.
  { unfold ly_all, place_result in *. destruct (dc_roots dirty), (dc_snapshots dirty), (dc_catalog dirty); destruct_and!; subst; solve_submseteq. }
  exists (mkLayout (pr ++ kr) (ps ++ ks) (pc ++ kc) free_p).
  assert (fst <$> (pages ++ ro ++ so ++ cto ++ fpg) = (fst <$> pages) ++ pr ++ ps ++ pc ++ free_p) as Hout
    by (by rewrite !fmap_app, Fr, Fs, Fc, Ff).
  assert (ly_all (mkLayout (pr ++ kr) (ps ++ ks) (pc ++ kc) free_p) ++ data ++ (fst <$> stamped f5) ≡ₚ
    (kr ++ ks ++ kc ++ data) ++ (pr ++ ps ++ pc ++ free_p) ++ (fst <$> stamped f5)) as Hall
    by (unfold ly_all; cbn; solve_Permutation).
  split; cbn [pl_out pl_next pl_meta pl_freelist]; rewrite ?Hout, ?Hall; try done.
  - apply NoDup_app in Hpages as (Hn1 & _ & _). apply NoDup_app. split_and!; [done| |].
    + intros p Hp Hu. apply (Pdl p); [apply elem_of_app; by left|done].
    + apply NoDup_app in Pnodup as (_ & _ & Hn2). by apply NoDup_app in Hn2 as (? & _ & _).
  - apply Forall_app in Pdr as [Pd _]. rewrite !Forall_app. auto.
  - intros p [Hp|Hu]%elem_of_app Hl.
    + apply NoDup_app in Hpages as (_ & Hd & _). by apply (Hd p).
    + apply (Pdl p); [apply elem_of_app; by right|done].
  - lia.
  - assert (∀ x, x ⊆+ ly_all l → Forall (λ p, 2 <= p < n5) x) as Hlive.
    { intros x Hx. apply Forall_app in Pdr as [_ Pd]. apply Forall_forall. intros p Hp.
      rewrite Forall_forall in Pd. apply Pd. by eapply elem_of_submseteq. }
    assert (Forall (λ p, 2 <= p < n5) (ly_roots l) ∧ Forall (λ p, 2 <= p < n5) (ly_snaps l) ∧ Forall (λ p, 2 <= p < n5) (ly_cat l))
      as (Lr & Ls & Lc) by (split_and!; apply Hlive; unfold ly_all; solve_submseteq).
    split; [|done]. unfold meta_ok. cbn. split_and!; try lia; try done.
    + by eapply (placed_head_field _ _ _ _ _ _ _ _ _ _ _ n5 R1 Wr); [apply Forall_app|].
    + destruct free_p as [|p ?]; cbn; [done|]. apply Forall_cons in Gf as [? _]. lia.
    + by eapply (placed_head_field _ _ _ _ _ _ _ _ _ _ _ n5 R2 Ws); [apply Forall_app|].
    + by eapply (placed_head_field _ _ _ _ _ _ _ _ _ _ _ n5 R3 Wc); [apply Forall_app|].
  - intros pager' Hrd Hfr.
    assert (∀ n, n ∈ kr ++ ks ++ kc → pager_read pager' n = pager_read pager n) as Hk
      by (intros n Hn; apply Hfr; by eapply elem_of_submseteq).
    split; cbn [st_meta m_root_records m_snapshots m_catalog m_freelist st_roots st_snapshots st_catalog ly_roots ly_snaps ly_cat ly_free].
    + apply Cr; [|intros n Hn; apply Hk; rewrite !elem_of_app; tauto]. intros no pg Hin. apply Hrd. rewrite !elem_of_app. tauto.
    + apply Cs; [|intros n Hn; apply Hk; rewrite !elem_of_app; tauto]. intros no pg Hin. apply Hrd. rewrite !elem_of_app. tauto.
    + apply Cc; [|intros n Hn; apply Hk; rewrite !elem_of_app; tauto]. intros no pg Hin. apply Hrd. rewrite !elem_of_app. tauto.
    + rewrite <-Ff, <-Fcs. replace (head (fst <$> fpg)) with (fst <$> head fpg) by (by destruct fpg as [|[]]).
      apply walk_built; [done|]. intros no pg Hin. apply Hrd. rewrite !elem_of_app. tauto.
Qed.

Lemma slot_bound m : 0 <= slot m < 2.
Proof. unfold slot, META_PAGES. apply Z.mod_pos_bound. lia. Qed.

Lemma slot_flips m m' : m_txn_id m' = m_txn_id m + 1 → slot m' = 1 - slot m.
Proof.
  intros H. unfold slot, META_PAGES. rewrite H.
  pose proof (Z.mod_pos_bound (m_txn_id m) 2 ltac:(lia)). rewrite Zplus_mod.
  assert (m_txn_id m mod 2 = 0 ∨ m_txn_id m mod 2 = 1) as [-> | ->] by lia; done.
Qed.

Lemma read_meta_encoded (pager : P) m page n :
  meta_ok m → meta_encode m = Ok page → pager_read pager n = Ok page → read_meta pager n = Ok m.
Proof.
  intros Hm He Hr. unfold read_meta. rewrite Hr. cbn [mbind Res_bind].
  destruct (meta_roundtrip m Hm) as (p & He' & _ & Hd). rewrite He in He'. injection He' as <-. by rewrite Hd.
Qed.

(** The file after the pages of a plan and its meta are in place. *)
Lemma plan_installed (pager pager' : P) st l fd data txn roots snaps catalog next pl l' page :
  store_inv pager st l fd → plan_post pager l data txn roots snaps catalog next pl l' →
  txn = m_txn_id (st_meta st) + 1 → typed_state (mkState (pl_meta pl) roots snaps catalog (pl_freelist pl)) →
  meta_encode (pl_meta pl) = Ok page → pager_read pager' (slot (pl_meta pl)) = Ok page →
  (∀ no pg, (no, pg) ∈ pl_out pl → pager_read pager' no = Ok pg) →
  (∀ n, n ∈ ly_all l → pager_read pager' n = pager_read pager n) →
  pager_read pager' (slot (st_meta st)) = pager_read pager (slot (st_meta st)) →
  pl_next pl <= page_count pager' →
  store_inv pager' (mkState (pl_meta pl) roots snaps catalog (pl_freelist pl)) l' (pl_freelist pl).
Proof.
  intros Hinv Hpp Htx Hty He Hpg Hout Hlive Hold Hcnt.
  destruct (pp_meta _ _ _ _ _ _ _ _ _ _ Hpp) as (Hmo & Hmt & Hmc).
  destruct Hpp as [_ _ _ [_ Hn2] _ Hru Hnd Hrg Hch]. split; cbn [st_meta st_freelist].
  - by apply Hch.
  - done.
  - done.
  - assert (slot (pl_meta pl) = 1 - slot (st_meta st)) as Hsl by (apply slot_flips; lia).
    split; [by eapply read_meta_encoded|].
    replace (1 - slot (pl_meta pl)) with (slot (st_meta st)) by lia.
    destruct (si_slots _ _ _ _ Hinv) as (Hr & _). unfold read_meta in *. rewrite Hold, Hr.
    split; [done|]. intros m [= <-]. lia.
  - done.
  - by left.
  - eapply sublist_NoDup; [exact Hnd|]. apply sublist_app; [done|]. by apply sublist_inserts_l.
  - rewrite Hmc. rewrite !Forall_app in *. tauto.
  - rewrite Hmc. lia.
Qed.

Lemma plan_commit_shape (pager : P) h txn base pages f roots snaps catalog dirty next pl :
  plan_commit pager h txn base pages f roots snaps catalog dirty next = Ok pl →
  pl_next pl = m_page_count (pl_meta pl) ∧ ∃ rest, pl_out pl = pages ++ rest.
Proof.
  unfold plan_commit. intros H.
  apply bind_ok in H as ([[? ?] ?] & _ & H). apply bind_ok in H as ([[? ?] ?] & _ & H).
  apply bind_ok in H as ([[? ?] ?] & _ & H). apply bind_ok in H as (? & _ & H).
  apply bind_ok in H as ([[? ?] ?] & _ & H). do 4 (apply bind_ok in H as (? & _ & H)).
  injection H as <-. cbn. eauto.
Qed.

Lemma placed_pgnos kind stride dirty base l pl ps keep entries next out :
  0 < stride <= PAGE_SIZE - PAGE_TRAILER - CHAIN_DATA →
  place_result dirty base l pl ps keep (Z.of_nat (length entries)) stride →
  entries_ok stride entries → Forall (λ p, 2 <= p < next) ps → next <= 2 ^ 32 - 1 →
  placed_pages kind stride entries pl = Ok out → fst <$> out = ps.
Proof.
  intros Hst Hres Hes Hps Hn Hout. unfold place_result in Hres. destruct dirty.
  - destruct Hres as (-> & -> & Hlen). cbn [placed_pages] in Hout. apply lift_ok in Hout.
    destruct (build_chain_ok kind stride ltac:(lia) entries ps) as (pages & cs & Hb & Hfst & _);
      [lia|done|eapply Forall_impl; [exact Hps|]; simpl; lia|lia|].
    rewrite Hb in Hout. by injection Hout as <-.
  - destruct Hres as (-> & -> & ->). cbn in Hout. by simplify_eq.
Qed.

(** Pages a commit may not hand out are not written by it, whatever they hold. *)
Lemma plan_commit_frame (pager : P) st l fd data D h txn pages f roots snaps catalog dirty next pl :
  store_inv pager st l fd → plan_inv D h (ly_all l ++ data) f next [] → h < txn < 2 ^ 64 → 0 <= txn →
  typed_state (mkState (st_meta st) roots snaps catalog f) →
  plan_commit pager h txn (st_meta st) pages f roots snaps catalog dirty next = Ok pl → pl_next pl <= 2 ^ 32 - 1 →
  ∀ p, p ∈ D → p ∉ fst <$> pages → p ∉ fst <$> pl_out pl.
Proof.
  intros Hinv Hplan Ht Ht0 Hty H Hmax p HD Hp. unfold plan_commit in H.
  apply bind_ok in H as ([[root_p f1] n1] & H1 & H). apply bind_ok in H as ([[snap_p f2] n2] & H2 & H).
  apply bind_ok in H as ([[cat_p f3] n3] & H3 & H). apply bind_ok in H as (f4 & H4 & H).
  apply bind_ok in H as ([[free_p f5] n5] & H5 & H). apply bind_ok in H as (ro & Ro & H).
  apply bind_ok in H as (so & So & H). apply bind_ok in H as (cto & Co & H). apply bind_ok in H as (fo & Fo & H).
  injection H as <-. cbn [pl_next pl_out] in *.
  destruct (plan_steps pager st l fd data _ _ _ _ _ _ _ _ _ _ _ _ _ _ _ _ _ _ _ _ _ _ _ Hinv Hplan Ht Ht0
    (Nat2Z.is_nonneg _) (Nat2Z.is_nonneg _) (Nat2Z.is_nonneg _) Hmax H1 H2 H3 H4 H5) as (pr & kr & ps & ks & pc & kc & R1 & R2 & R3 & Hneed & Hpl & Hle).
  destruct Hpl as [_ _ Prange _ Pdl _ _]. specialize (Pdl p HD).
  rewrite !Forall_app in Prange. destruct Prange as (_ & (Gr & Gs & Gc & Gf) & _).
  rewrite !fmap_app, (placed_pgnos PRootRecords ROOT_RECORD_BYTES _ _ _ _ _ _ _ _ _ ltac:(done) R1 (roots_entries_ok roots) Gr Hmax Ro),
    (placed_pgnos PSnapshots SNAPSHOT_ENTRY_BYTES _ _ _ _ _ _ _ _ _ ltac:(done) R2 (snap_entries_ok snaps (ts_snaps_typed _ Hty)) Gs Hmax So),
    (placed_pgnos PCatalog CATALOG_ENTRY_BYTES _ _ _ _ _ _ _ _ _ ltac:(done) R3 (ts_cat _ Hty) Gc Hmax Co).
  apply lift_ok in Fo. destruct (build_chain_ok PFreelist FREE_ENTRY_BYTES ltac:(done) (free_encode f5) free_p) as (fpg & fcs & Fb & Ff & _);
    [done|apply free_entries_ok|eapply Forall_impl; [exact Gf|]; simpl; lia|done|].
  rewrite Fb in Fo. injection Fo as <-. rewrite Ff. rewrite !elem_of_app in *. tauto.
Qed.

Lemma commit_txn_ok (s s' : Store P) l fd data txn t pages f roots snaps catalog dirty next :
  commit_pre (s_pager s) (s_state s) l fd data txn pages f roots snaps catalog dirty next →
  commit_txn s txn (st_meta (s_state s)) pages f roots snaps catalog dirty next = Ok (s', t) →
  m_page_count (st_meta (s_state s')) <= 2 ^ 32 - 1 →
  t = txn ∧ s_readers s' = s_readers s ∧
  st_roots (s_state s') = roots ∧ st_snapshots (s_state s') = snaps ∧ st_catalog (s_state s') = catalog ∧
  m_txn_id (st_meta (s_state s')) = txn ∧
  (∀ no pg, (no, pg) ∈ pages → pager_read (s_pager s') no = Ok pg) ∧
  ∃ l', store_inv (s_pager s') (s_state s') l' (st_freelist (s_state s')) ∧
    NoDup (ly_all l' ++ data ++ (fst <$> stamped (st_freelist (s_state s')))) ∧
    Forall (λ p, 2 <= p < m_page_count (st_meta (s_state s'))) data.
Proof.
  intros Hpre H Hmax. unfold commit_txn in H. apply bind_ok in H as (pl & Hpl & H).
  apply bind_ok in H as (pager' & Hf & H). injection H as <- <-.
  cbn [s_state st_meta st_roots st_snapshots st_catalog st_freelist s_pager s_readers] in *.
  assert ((if dc_catalog dirty then catalog else st_catalog (s_state s)) = catalog) as ->.
  { destruct (dc_catalog dirty) eqn:E; [done|]. by rewrite (cp_kept_cat _ _ _ _ _ _ _ _ _ _ _ _ _ Hpre). }
  destruct (plan_commit_shape _ _ _ _ _ _ _ _ _ _ _ _ Hpl) as (Hmc & rest & Hrest).
  assert (horizon_of s snaps (m_txn_id (st_meta (s_state s))) <= m_txn_id (st_meta (s_state s))) as Hh
    by (unfold horizon_of; lia).
  rewrite <-Hmc in Hmax. destruct (plan_commit_ok _ _ _ _ _ _ _ _ _ _ _ _ _ _ _ Hpre Hh Hpl Hmax) as [l' Hpp].
  destruct (cp_txn _ _ _ _ _ _ _ _ _ _ _ _ _ Hpre) as [Htx Htx'].
  pose proof (cp_inv _ _ _ _ _ _ _ _ _ _ _ _ _ Hpre) as Hinv.
  destruct (pp_meta _ _ _ _ _ _ _ _ _ _ Hpp) as (Hmo & Hmt & _). pose proof (pp_nodup_out _ _ _ _ _ _ _ _ _ _ Hpp) as Hnd.
  pose proof (pp_range_out _ _ _ _ _ _ _ _ _ _ Hpp) as Hro. rewrite Forall_forall in Hro.
  assert (∀ m, slot m ∉ fst <$> pl_out pl) as Hslots.
  { intros m Hin. specialize (Hro _ Hin). simpl in Hro. pose proof (slot_bound m). lia. }
  destruct (write_and_flip_reads _ _ _ _ _ _ Hf Hnd (Hslots _)) as (page & He & Hpg & Hrd & Hoth & Hcnt).
  pose proof (si_count _ _ _ _ Hinv) as Hsc. pose proof (si_range _ _ _ _ Hinv) as Hsr. apply Forall_app in Hsr as [Hsr _].
  rewrite Forall_forall in Hsr.
  split_and!; [done|done|done|done|done|done| |].
  - intros no pg Hin. apply Hrd. rewrite Hrest. apply elem_of_app. by left.
  - exists l'. split; [|split; [apply Hpp|]].
    2: { pose proof (pp_range _ _ _ _ _ _ _ _ _ _ Hpp) as Hg. rewrite !Forall_app in Hg. rewrite <-Hmc. apply Hg. }
    apply (plan_installed (s_pager s) pager' (s_state s) l fd data txn roots snaps catalog next pl l' page Hinv Hpp Htx);
      [|exact He|exact Hpg|exact Hrd|..].
    + destruct (cp_typed _ _ _ _ _ _ _ _ _ _ _ _ _ Hpre). by split.
    + intros n Hn. specialize (Hsr n Hn). simpl in Hsr. apply Hoth; [lia| |].
      * intros Hin. by apply (pp_fresh _ _ _ _ _ _ _ _ _ _ Hpp n).
      * pose proof (slot_bound (pl_meta pl)). lia.
    + pose proof (slot_bound (st_meta (s_state s))). apply Hoth; [lia|apply Hslots|].
      rewrite (slot_flips (st_meta (s_state s)) (pl_meta pl)) by lia. lia.
    + rewrite Hcnt. lia.
Qed.
End commit.

(** * A new file *)
Section init.
Context {X : Extern} {L : ExternLaws X} {P : Type} `{!Pager P, !PagerMut P, !PagerLaws P}.

Definition empty_layout : Layout := mkLayout [] [] [] [].
Definition first_meta : MetaPage := mkMeta 0 META_PAGES None None None None 0.
Definition first_state : StoreState := mkState first_meta [] (mkRegistry [] 1) [] [].

(** A page of zeros is nobody's meta. *)
Lemma zeroed_no_meta : no_panic (meta_decode zeroed) ∧ ∀ m, meta_decode zeroed ≠ Ok m.
Proof.
  split; [apply meta_decode_no_panic; split; [apply length_zeroed|apply bytes_zeroed]|]. intros m H.
  unfold meta_decode in H. apply bind_ok in H as (u & _ & H). apply bind_ok in H as (magic & Hm & H).
  enough (magic = 0) as ->; [discriminate H|]. with_strategy transparent [zeroed] (vm_compute in Hm). congruence.
Qed.

Lemma init_ok (pager : P) s :
  page_count pager = 0 → (∀ p1, grow pager META_PAGES = Ok p1 → pager_read p1 1 = Ok zeroed) → init pager = Ok s →
  s_state s = first_state ∧ s_readers s = ∅ ∧ s_durability s = Full ∧ page_count (s_pager s) = 2 ∧
  store_inv (s_pager s) (s_state s) empty_layout [].
Proof.
  intros Hc Hz H. unfold init in H. apply bind_ok in H as (p1 & Hg & H). specialize (Hz p1 Hg).
  apply bind_ok in H as (page & He & H). apply lift_ok in He. apply bind_ok in H as (p2 & Hw & H).
  apply bind_ok in H as (p3 & Hs & H). change (mkMeta 0 _ _ _ _ _ _) with first_meta in *.
  assert (meta_ok first_meta) as Hm by (split_and!; cbn; unfold META_PAGES; lia || done).
  assert (∀ n, n ≠ 0 → pager_read p3 n = pager_read p1 n) as Hoth.
  { intros n Hn. rewrite (sync_read _ _ _ Hs). by apply (write_other _ _ _ _ _ Hw). }
  assert (page_count p3 = 2) as Hp3.
  { rewrite (sync_count _ _ Hs), (write_count _ _ _ _ Hw), (grow_count _ _ _ Hg), Hc. done. }
  assert (read_meta p3 0 = Ok first_meta) as H0.
  { eapply read_meta_encoded; [exact Hm|exact He|]. rewrite (sync_read _ _ _ Hs). by apply (write_read _ _ _ _ Hw). }
  assert (store_inv p3 first_state empty_layout []) as Hinv.
  { split; cbn; [split; constructor| |exact Hm| |constructor|by left|constructor|constructor|unfold META_PAGES; lia].
    - split; cbn; [constructor|constructor|split_and!; cbn; [constructor|constructor|lia]|constructor|lia|constructor].
    - split; [exact H0|]. change (1 - slot first_meta) with 1. unfold read_meta. rewrite Hoth, Hz by done. cbn.
      destruct zeroed_no_meta as [Hnp Hno]. split; [by apply no_panic_map_err|]. intros m Hd%lift_ok. exfalso. exact (Hno m Hd). }
  destruct (load_ok _ _ _ _ Hinv) as (st' & Hl & Hr & Hi'). rewrite Hl in H. injection H as <-. cbn.
  enough (st' = first_state) as E by (split_and!; [exact E|reflexivity|reflexivity|exact Hp3|exact Hi']).
  unfold load in Hl. apply bind_ok in Hl as (m & Hlm & Hl). apply bind_ok in Hl as (st1 & Hls & Hl). injection Hl as ->.
  destruct Hr as (Hr1 & _). cbn in Hr1.
  unfold load_state in Hls. pose proof (si_slots _ _ _ _ Hinv) as Hsl. cbn in Hsl.
  rewrite (load_meta_ok p3 first_meta Hsl) in Hlm by (rewrite Hp3; done). injection Hlm as <-.
  revert Hls. unfold load_chain. rewrite Hp3. cbn. intros [= <-]. reflexivity.
Qed.
End init.
