(* ===== verification/Crash.v ===== *)
(** Losing power during a commit (the argument of crates/big-pager/src/lib.rs, [write_and_flip]).

    A [Disk] is a backend that remembers which operations a flush has not covered yet.  When the
    power goes, every write since the last flush may have landed, may not have, or may be torn, and
    the file may have grown or not.  The theorem is the claim the design rests on: recovery finds
    the state before the commit or the state after it, and nothing else. *)
From S2P Require Import Prelude Bits Page Chain Meta Freelist Snapshot Roots Pager Store.

Inductive DiskOp := DWrite (n : Z) (pg : Page) | DGrow (n : Z) | DTruncate (n : Z) | DSync.
Record Disk := mkDisk { dk_durable : list Page; dk_pending : list DiskOp }.

Definition apply_op (f : list Page) (op : DiskOp) : list Page :=
  match op with
  | DWrite n pg => <[Z.to_nat n := pg]> f
  | DGrow k => f ++ replicate (Z.to_nat k - length f) zeroed
  | DTruncate k => take (Z.to_nat k) f
  | DSync => f
  end.

(** What a process sees: the file with every operation applied. *)
Definition dk_view (d : Disk) : list Page := foldl apply_op (dk_durable d) (dk_pending d).

Definition disk_step (d : Disk) (op : DiskOp) : Disk :=
  match op with
  | DSync => mkDisk (dk_view d) []
  | _ => mkDisk (dk_durable d) (dk_pending d ++ [op])
  end.

Definition view_pager (d : Disk) : MemPager := mkMemPager (dk_view d).

#[export] Instance Disk_Pager : Pager Disk :=
  { pager_read := λ d n, mem_read (view_pager d) n; page_count := λ d, mem_count (view_pager d);
    capacity := λ _, None }.
#[export] Instance Disk_PagerMut : PagerMut Disk :=
  { pager_write := λ d n pg,
      if (0 <=? n) && (n <? mem_count (view_pager d)) then Ok (disk_step d (DWrite n pg))
      else Err (EOutOfBounds n (mem_count (view_pager d)));
    grow := λ d k, Ok (disk_step d (DGrow k));
    truncate := λ d k, Ok (disk_step d (DTruncate k));
    sync := λ d, Ok (disk_step d DSync);
    sync_data := λ d, Ok (disk_step d DSync) }.

Section crash.
Context {X : Extern}.

(** A page whose checksum does not hold: what half of a write leaves. *)
Definition torn (pg : Page) : Prop := ∃ e, verify_checksum pg = Err e.

(** The files a machine may come back with.  A page no pending write touches is what it was; one
    that was written is the old page, one of the new ones, or garbage - garbage that the checksum
    exposes when the page is one of the two metas, any garbage at all elsewhere. *)
Definition crash_image (d : Disk) (f : list Page) : Prop :=
  (length (dk_durable d) <= length f <= length (dk_view d))%nat ∧
  ∀ i pg, f !! i = Some pg → (i < length (dk_durable d))%nat →
    dk_durable d !! i = Some pg ∨
    ∃ n w, DWrite n w ∈ dk_pending d ∧ Z.to_nat n = i ∧ (pg = w ∨ torn pg ∨ 2 <= n).

(** The operations of [write_and_flip], in order. *)
Definition flush_ops (d : Durability) : list DiskOp := match d with NoFlush => [] | _ => [DSync] end.
Definition flip_ops (d : Durability) (out : list (Z * Page)) (next_pgno : Z) (no : Z) (page : Page) : list DiskOp :=
  DGrow next_pgno :: ((λ w, DWrite (fst w) (snd w)) <$> out) ++ flush_ops d ++ [DWrite no page] ++ flush_ops d.

Lemma disk_flush (d d' : Disk) dur : flush d dur = Ok d' → d' = foldl disk_step d (flush_ops dur).
Proof. destruct dur; cbn; by intros [= <-]. Qed.

Lemma disk_write_pages (d d' : Disk) out :
  write_pages d out = Ok d' → d' = foldl disk_step d ((λ w, DWrite (fst w) (snd w)) <$> out).
Proof.
  revert d. induction out as [|[n pg] out IH]; intros d H; cbn [write_pages] in H; [by injection H as <-|].
  apply bind_ok in H as (d1 & Hw & H). cbn [pager_write Disk_PagerMut] in Hw.
  destruct (_ && _); [|done]. injection Hw as <-. csimpl. by apply IH.
Qed.

(** [write_and_flip] on a disk does exactly these operations. *)
Lemma write_and_flip_ops (d d' : Disk) dur out next meta :
  write_and_flip d dur out next meta = Ok d' →
  ∃ page, meta_encode meta = Ok page ∧ d' = foldl disk_step d (flip_ops dur out next (slot meta) page).
Proof.
  unfold write_and_flip. intros H. apply bind_ok in H as (d1 & Hg & H). apply bind_ok in H as (d2 & Hw & H).
  apply bind_ok in H as (d3 & Hf & H). apply bind_ok in H as (page & He & H). apply lift_ok in He.
  apply bind_ok in H as (d4 & Hm & H). exists page. split; [done|].
  cbn [grow Disk_PagerMut] in Hg. injection Hg as <-. apply disk_write_pages in Hw. apply disk_flush in Hf, H.
  cbn [pager_write Disk_PagerMut] in Hm. destruct (_ && _); [|done]. injection Hm as <-.
  unfold flip_ops. cbn [foldl]. rewrite !foldl_app. cbn [foldl]. by subst.
Qed.

(** * Pages an operation leaves alone *)
Definition op_writes (op : DiskOp) (i : nat) : Prop := ∃ n pg, op = DWrite n pg ∧ Z.to_nat n = i.
Definition no_truncate (op : DiskOp) : Prop := ∀ k, op ≠ DTruncate k.

Lemma apply_op_length f op : no_truncate op → (length f <= length (apply_op f op))%nat.
Proof.
  intros Hn. destruct op as [n pg|k|k|]; cbn [apply_op]; [by rewrite length_insert|rewrite length_app; lia| |done].
  by destruct (Hn k).
Qed.

Lemma apply_op_lookup f op i :
  no_truncate op → ¬ op_writes op i → (i < length f)%nat → apply_op f op !! i = f !! i.
Proof.
  intros Hn Hw Hi. destruct op as [n pg|k|k|]; cbn [apply_op]; [|by apply lookup_app_l| |done].
  - apply list_lookup_insert_ne. intros He. apply Hw. by exists n, pg.
  - by destruct (Hn k).
Qed.

Lemma view_lookup f ops i :
  Forall no_truncate ops → Forall (λ op, ¬ op_writes op i) ops → (i < length f)%nat →
  foldl apply_op f ops !! i = f !! i ∧ (length f <= length (foldl apply_op f ops))%nat.
Proof.
  intros Hn Hw. revert f. induction Hn as [|op ops Hop Hn IH]; intros f Hi; cbn [foldl]; [done|].
  apply Forall_cons in Hw as [Hw1 Hw]. pose proof (apply_op_length f op Hop).
  destruct (IH Hw (apply_op f op)) as [-> Hl]; [lia|]. rewrite apply_op_lookup by done. split; [done|lia].
Qed.
End crash.

(** * The disk keeps the contract of a pager *)
Lemma view_step d op : op ≠ DSync → dk_view (disk_step d op) = apply_op (dk_view d) op.
Proof. intros H. destruct op; [..|done]; unfold dk_view; cbn; by rewrite foldl_app. Qed.

Lemma view_snoc d op : dk_view (mkDisk (dk_durable d) (dk_pending d ++ [op])) = apply_op (dk_view d) op.
Proof. unfold dk_view. cbn. by rewrite foldl_app. Qed.

#[export] Instance Disk_laws : PagerLaws Disk.
Proof.
  split; cbn [pager_read page_count pager_write grow truncate sync sync_data Disk_Pager Disk_PagerMut].
  - intros d. unfold mem_count. lia.
  - intros d n pg. exact (read_bounds (view_pager d) n pg).
  - intros d n pg d' H. destruct (_ && _) eqn:Hb; [|done]. injection H as <-.
    assert (pager_write (view_pager d) n pg = Ok (view_pager (disk_step d (DWrite n pg)))) as Hw.
    { cbn [pager_write MemPager_PagerMut]. unfold mem_write. rewrite Hb. unfold view_pager. by rewrite ?view_step, ?view_snoc. }
    exact (write_read _ _ _ _ Hw).
  - intros d n pg d' m H. destruct (_ && _) eqn:Hb; [|done]. injection H as <-.
    assert (pager_write (view_pager d) n pg = Ok (view_pager (disk_step d (DWrite n pg)))) as Hw.
    { cbn [pager_write MemPager_PagerMut]. unfold mem_write. rewrite Hb. unfold view_pager. by rewrite ?view_step, ?view_snoc. }
    exact (write_other _ _ _ _ m Hw).
  - intros d n pg d' H. destruct (_ && _) eqn:Hb; [|done]. injection H as <-.
    unfold mem_count, view_pager. cbn [mp_pages]. rewrite ?view_step, ?view_snoc by done. cbn. by rewrite length_insert.
  - intros d k d' m [= <-] Hm. apply mem_read_ext; unfold mem_count, view_pager in *; cbn [mp_pages] in *;
      rewrite ?view_step, ?view_snoc by done; cbn [apply_op]; [|done|rewrite length_app; lia].
    intros ?. apply lookup_app_l. lia.
  - intros d k d' [= <-]. unfold mem_count, view_pager. cbn [mp_pages]. rewrite ?view_step, ?view_snoc by done. cbn [apply_op].
    rewrite length_app, length_replicate. lia.
  - intros d k d' m [= <-] Hm. unfold view_pager. rewrite ?view_step, ?view_snoc by done. cbn [apply_op].
    destruct (Z.lt_ge_cases m (mem_count (mkMemPager (dk_view d)))) as [Hlt|Hge].
    + destruct (Z.lt_ge_cases m 0).
      { by rewrite !mem_read_neg. }
      apply mem_read_ext; unfold mem_count in *; cbn [mp_pages] in *; rewrite ?length_take; [|lia..].
      intros ?. apply lookup_take_lt. lia.
    + rewrite take_ge; [done|]. unfold mem_count in Hge. cbn in Hge. lia.
  - intros d k d' [= <-] Hk. unfold mem_count, view_pager. cbn [mp_pages]. rewrite ?view_step, ?view_snoc by done. cbn [apply_op].
    rewrite length_take. lia.
  - by intros d d' m [= <-].
  - by intros d d' [= <-].
  - by intros d d' m [= <-].
  - by intros d d' [= <-].
Qed.

(** Restarting: whatever is in the file, with nothing pending. *)
Definition reboot (f : list Page) : Disk := mkDisk f [].

Lemma read_reboot f n : pager_read (reboot f) n = mem_read (mkMemPager f) n.
Proof. done. Qed.

Lemma read_ext f f' n :
  (0 <= n → f' !! Z.to_nat n = f !! Z.to_nat n) → n < Z.of_nat (length f) → n < Z.of_nat (length f') →
  pager_read (reboot f') n = pager_read (reboot f) n.
Proof. intros. rewrite !read_reboot. by apply mem_read_ext. Qed.

Section atomic.
Context {X : Extern} {L : ExternLaws X}.

(** A file that has kept the live pages and the governing meta is still in the old state. *)
Lemma old_state_survives f0 f st l fd other :
  store_inv (reboot f0) st l fd → (length f0 <= length f)%nat → other = 1 - slot (st_meta st) →
  (∀ n, n ∈ ly_all l → f !! Z.to_nat n = f0 !! Z.to_nat n) →
  f !! Z.to_nat (slot (st_meta st)) = f0 !! Z.to_nat (slot (st_meta st)) →
  (f !! Z.to_nat other = f0 !! Z.to_nat other ∨ ∃ pg, f !! Z.to_nat other = Some pg ∧ torn pg) →
  store_inv (reboot f) st l fd.
Proof.
  intros Hinv Hlen -> Hlive Hslot Hother. pose proof (slot_bound (st_meta st)) as Hsb.
  destruct Hinv as [Hch Hty Hm Hsl Hru Hfr Hnd Hrg Hct].
  assert (2 <= Z.of_nat (length f0)) as H2 by (cbn in Hct; unfold mem_count in Hct; cbn in Hct; lia).
  assert (∀ n, n ∈ ly_all l → pager_read (reboot f) n = pager_read (reboot f0) n) as Hl.
  { intros n Hn. apply Forall_app in Hrg as [Hrg _]. rewrite Forall_forall in Hrg. specialize (Hrg n Hn). simpl in Hrg.
    cbn in Hct. unfold mem_count in Hct. cbn in Hct. apply read_ext; [by intros; apply Hlive|lia|lia]. }
  split; try done.
  - destruct Hch as [C1 C2 C3 C4].
    split; (eapply walk_frame; [eassumption|]); intros n Hn; apply Hl; unfold ly_all; rewrite !elem_of_app; tauto.
  - destruct Hsl as (S1 & S2 & S3). split.
    + unfold read_meta in *. rewrite (read_ext f0 f); [done|by intros|lia|lia].
    + destruct Hother as [He|(pg & Hpg & [e Ht])].
      * unfold read_meta in *. rewrite (read_ext f0 f); [done|by intros|lia|lia].
      * assert (read_meta (reboot f) (1 - slot (st_meta st)) = Err (EPage e)) as ->; [|done].
        unfold read_meta. rewrite read_reboot.
        rewrite (proj2 (mem_read_lookup (mkMemPager f) (1 - slot (st_meta st)) pg)) by (split; [lia|done]).
        cbn [mbind Res_bind]. unfold meta_decode. by rewrite Ht.
  - cbn in *. unfold mem_count in *. cbn in *. lia.
Qed.

Lemma foldl_pending f p ops :
  Forall (λ op, op ≠ DSync) ops → foldl disk_step (mkDisk f p) ops = mkDisk f (p ++ ops).
Proof.
  intros H. revert p. induction H as [|op ops Hop H IH]; intros p; cbn [foldl]; [by rewrite app_nil_r|].
  assert (disk_step (mkDisk f p) op = mkDisk f (p ++ [op])) as -> by (by destruct op).
  rewrite IH. by rewrite <-app_assoc.
Qed.

(** Where the power can go during a flip, and what is durable there. *)
Lemma flip_prefix f0 out next no page k :
  let W := DGrow next :: ((λ w, DWrite (fst w) (snd w)) <$> out) in
  let f1 := foldl apply_op f0 W in
  let d := foldl disk_step (reboot f0) (take k (flip_ops Full out next no page)) in
  (d = mkDisk f0 (take k W)) ∨ d = mkDisk f1 [] ∨ d = mkDisk f1 [DWrite no page] ∨
  d = mkDisk (<[Z.to_nat no := page]> f1) [].
Proof.
  intros W f1 d. unfold d. change (flip_ops Full out next no page) with (W ++ [DSync; DWrite no page; DSync]).
  assert (Forall (λ op, op ≠ DSync) W) as HW.
  { constructor; [done|]. apply Forall_fmap, Forall_true. by intros []. }
  destruct (decide (k <= length W)%nat) as [Hk|Hk].
  - left. rewrite take_app_le by done. unfold reboot. by rewrite foldl_pending by (by apply Forall_take).
  - rewrite take_app_ge by lia. rewrite foldl_app. unfold reboot. rewrite foldl_pending by done. cbn [app].
    destruct (k - length W)%nat as [|[|[|m]]] eqn:Hm; [lia|..]; cbn [take foldl disk_step dk_view dk_durable dk_pending app].
    + right; left. done.
    + right; right; left. done.
    + right; right; right. by rewrite take_nil.
Qed.

Lemma crash_settled g f : crash_image (mkDisk g []) f → f = g.
Proof.
  intros [Hl Hi]. cbn in Hl. apply list_eq_same_length with (length g); [lia|lia|].
  intros i x y Hlt Hx Hy. destruct (Hi i x Hx Hlt) as [He|(n & w & Hin & _)]; cbn in *; [congruence|].
  by apply not_elem_of_nil in Hin.
Qed.

Lemma crash_one_write g n w f :
  0 <= n < 2 → (Z.to_nat n < length g)%nat → crash_image (mkDisk g [DWrite n w]) f →
  f = <[Z.to_nat n := w]> g ∨ f = g ∨ ∃ pg, f = <[Z.to_nat n := pg]> g ∧ torn pg.
Proof.
  intros Hn Hlt [Hl Hi]. cbn in Hl. rewrite length_insert in Hl.
  assert (∀ i, i ≠ Z.to_nat n → f !! i = g !! i) as Hoth.
  { intros i Hne. destruct (decide (i < length g)%nat) as [Hig|].
    - destruct (lookup_lt_is_Some_2 f i) as [x Hx]; [lia|]. rewrite Hx.
      destruct (Hi i x Hx Hig) as [He|(m & v & Hin & Hm & _)]; cbn in *; [done|].
      apply list_elem_of_singleton in Hin as [= -> ->]. done.
    - rewrite !lookup_ge_None_2 by lia. done. }
  assert (∀ pg, f !! Z.to_nat n = Some pg → f = <[Z.to_nat n := pg]> g) as Hins.
  { intros pg Hpg. apply list_eq. intros i. destruct (decide (i = Z.to_nat n)) as [->|Hne].
    - by rewrite Hpg, list_lookup_insert_eq.
    - by rewrite list_lookup_insert_ne, Hoth by done. }
  destruct (lookup_lt_is_Some_2 f (Z.to_nat n)) as [x Hx]; [lia|].
  destruct (Hi _ x Hx Hlt) as [He|(m & v & Hin & Hm & Hc)]; cbn in *.
  - right; left. rewrite (Hins _ Hx). by apply list_insert_id.
  - apply list_elem_of_singleton in Hin as [= -> ->].
    destruct Hc as [->|[Ht|?]]; [left; by apply Hins|right; right; eauto|lia].
Qed.

(** Pages a plan does not write are as they were, once its writes are applied. *)
Lemma planned_lookup f0 out next n :
  Forall (λ p, 2 <= p < next) (fst <$> out) → 0 <= n → n ∉ fst <$> out → (Z.to_nat n < length f0)%nat →
  foldl apply_op f0 (DGrow next :: ((λ w, DWrite (fst w) (snd w)) <$> out)) !! Z.to_nat n = f0 !! Z.to_nat n ∧
  (length f0 <= length (foldl apply_op f0 (DGrow next :: ((λ w, DWrite (fst w) (snd w)) <$> out))))%nat.
Proof.
  intros Hr H0 Hn Hlt. apply view_lookup; [..|done].
  - constructor; [done|]. apply Forall_fmap, Forall_true. by intros [].
  - constructor; [by intros (?&?&?&_)|]. apply Forall_fmap, Forall_forall. intros [m pg] Hin (m' & pg' & [= <- <-] & Heq).
    rewrite Forall_forall in Hr. specialize (Hr m ltac:(by apply (list_elem_of_fmap_2 fst _ (m, pg)))). simpl in Hr.
    apply Hn. replace n with m by lia. by apply (list_elem_of_fmap_2 fst _ (m, pg)).
Qed.

Lemma crash_pending_lookup f0 W f n :
  crash_image (mkDisk f0 W) f → (Z.to_nat n < length f0)%nat → Forall (λ op, ¬ op_writes op (Z.to_nat n)) W →
  f !! Z.to_nat n = f0 !! Z.to_nat n.
Proof.
  intros [Hl Hi] Hlt Hw. cbn in Hl. destruct (lookup_lt_is_Some_2 f (Z.to_nat n)) as [x Hx]; [lia|]. rewrite Hx.
  destruct (Hi _ x Hx Hlt) as [He|(m & v & Hin & Hm & _)]; cbn in *; [done|].
  rewrite Forall_forall in Hw. destruct (Hw _ Hin). by exists m, v.
Qed.

(** The pages a commit may overwrite: neither slot, and nothing the old state reaches. *)
Definition untouched (f0 : list Page) (st : StoreState) (l : Layout) (f : list Page) : Prop :=
  (length f0 <= length f)%nat ∧
  (∀ n, n ∈ ly_all l → f !! Z.to_nat n = f0 !! Z.to_nat n) ∧ (∀ n, 0 <= n < 2 → f !! Z.to_nat n = f0 !! Z.to_nat n).

Lemma untouched_old f0 st l fd f :
  store_inv (reboot f0) st l fd → untouched f0 st l f → store_inv (reboot f) st l fd.
Proof.
  intros Hinv (Hlen & Hlive & Hsl). pose proof (slot_bound (st_meta st)).
  eapply old_state_survives; [exact Hinv|done|reflexivity|done|apply Hsl; lia|left; apply Hsl; lia].
Qed.

Lemma untouched_torn f0 st l fd f pg m :
  store_inv (reboot f0) st l fd → untouched f0 st l f → torn pg → slot m = 1 - slot (st_meta st) →
  store_inv (reboot (<[Z.to_nat (slot m) := pg]> f)) st l fd.
Proof.
  intros Hinv (Hlen & Hlive & Hsl) Ht Hm. pose proof (slot_bound (st_meta st)).
  assert (2 <= Z.of_nat (length f0)) as H2.
  { pose proof (si_count _ _ _ _ Hinv) as Hc. cbn in Hc. unfold mem_count in Hc. cbn in Hc. lia. }
  pose proof (si_range _ _ _ _ Hinv) as Hr. apply Forall_app in Hr as [Hr _]. rewrite Forall_forall in Hr.
  eapply old_state_survives; [exact Hinv|by rewrite length_insert|reflexivity| | |].
  - intros n Hn. specialize (Hr n Hn). simpl in Hr. rewrite list_lookup_insert_ne by lia. by apply Hlive.
  - rewrite list_lookup_insert_ne by lia. apply Hsl. lia.
  - right. exists pg. split; [|done]. rewrite Hm. apply list_lookup_insert_eq. lia.
Qed.

Section plan.
Context (f0 : list Page) (st : StoreState) (l : Layout) (fd : Freelist) (data : list Z) (roots : RootRecords) (snaps : SnapshotRegistry)
  (catalog : list (list Z)) (next : Z) (pl : Plan) (l' : Layout).
Hypothesis (Hinv : store_inv (reboot f0) st l fd).
Hypothesis (Hpp : plan_post (reboot f0) l data (m_txn_id (st_meta st) + 1) roots snaps catalog next pl l').

Let W := DGrow (pl_next pl) :: ((λ w, DWrite (fst w) (snd w)) <$> pl_out pl).

Lemma plan_apart n : n ∈ ly_all l ∨ 0 <= n < 2 → 0 <= n ∧ n ∉ fst <$> pl_out pl ∧ (Z.to_nat n < length f0)%nat.
Proof.
  pose proof (si_range _ _ _ _ Hinv) as Hr. apply Forall_app in Hr as [Hr _]. rewrite Forall_forall in Hr.
  pose proof (si_count _ _ _ _ Hinv) as Hc. cbn in Hc. unfold mem_count in Hc. cbn in Hc.
  pose proof (pp_range_out _ _ _ _ _ _ _ _ _ _ Hpp) as Hro. rewrite Forall_forall in Hro.
  intros [Hn|Hn].
  - specialize (Hr n Hn). simpl in Hr. split; [lia|]. split; [|lia].
    intros Hin. by apply (pp_fresh _ _ _ _ _ _ _ _ _ _ Hpp n).
  - split; [lia|]. split; [|lia]. intros Hin. specialize (Hro n Hin). simpl in Hro. lia.
Qed.

Lemma plan_writes_apart n : n ∈ ly_all l ∨ 0 <= n < 2 → Forall (λ op, ¬ op_writes op (Z.to_nat n)) W.
Proof.
  intros Hn. destruct (plan_apart n Hn) as (H0 & Hno & _).
  pose proof (pp_range_out _ _ _ _ _ _ _ _ _ _ Hpp) as Hro. rewrite Forall_forall in Hro.
  constructor; [by intros (?&?&?&_)|]. apply Forall_fmap, Forall_forall. intros [m pg] Hin (m' & pg' & [= <- <-] & Heq).
  assert (m ∈ fst <$> pl_out pl) as Hm by (by apply (list_elem_of_fmap_2 fst _ (m, pg))).
  specialize (Hro m Hm). simpl in Hro. apply Hno. by replace n with m by lia.
Qed.

Lemma pending_untouched k f : crash_image (mkDisk f0 (take k W)) f → untouched f0 st l f.
Proof.
  intros Hc. assert (∀ n, n ∈ ly_all l ∨ 0 <= n < 2 → f !! Z.to_nat n = f0 !! Z.to_nat n) as H.
  { intros n Hn. destruct (plan_apart n Hn) as (_ & _ & Hlt). eapply crash_pending_lookup; [exact Hc|done|].
    by apply Forall_take, plan_writes_apart. }
  destruct Hc as [Hlen _]. cbn in Hlen. split; [lia|]. split; intros n Hn; apply H; tauto.
Qed.

Lemma applied_untouched : untouched f0 st l (foldl apply_op f0 W).
Proof.
  pose proof (pp_range_out _ _ _ _ _ _ _ _ _ _ Hpp) as Hro.
  assert (∀ n, n ∈ ly_all l ∨ 0 <= n < 2 → foldl apply_op f0 W !! Z.to_nat n = f0 !! Z.to_nat n) as H.
  { intros n Hn. destruct (plan_apart n Hn) as (H0 & Hno & Hlt). by apply planned_lookup. }
  destruct (plan_apart 0 ltac:(lia)) as (H0 & Hno & Hlt).
  split; [by apply (planned_lookup _ _ _ 0)|]. split; intros n Hn; apply H; tauto.
Qed.
End plan.

(** When every operation is done, nothing is pending. *)
Lemma flip_done f0 out next no page :
  foldl disk_step (reboot f0) (flip_ops Full out next no page) =
  reboot (<[Z.to_nat no := page]> (foldl apply_op f0 (DGrow next :: ((λ w, DWrite (fst w) (snd w)) <$> out)))).
Proof.
  set (W := DGrow next :: _).
  change (flip_ops Full out next no page) with (W ++ [DSync; DWrite no page; DSync]).
  assert (Forall (λ op, op ≠ DSync) W) as HW by (constructor; [done|]; apply Forall_fmap, Forall_true; by intros []).
  rewrite foldl_app. unfold reboot at 1. by rewrite foldl_pending by done.
Qed.

(** The commit that ran to its end. *)
Lemma flipped_new f0 st l fd data roots snaps catalog next pl l' d' page :
  store_inv (reboot f0) st l fd →
  plan_post (reboot f0) l data (m_txn_id (st_meta st) + 1) roots snaps catalog next pl l' →
  typed_state (mkState (pl_meta pl) roots snaps catalog (pl_freelist pl)) →
  write_and_flip (reboot f0) Full (pl_out pl) (pl_next pl) (pl_meta pl) = Ok d' → meta_encode (pl_meta pl) = Ok page →
  store_inv d' (mkState (pl_meta pl) roots snaps catalog (pl_freelist pl)) l' (pl_freelist pl).
Proof.
  intros Hinv Hpp Hty Hf He. destruct (pp_meta _ _ _ _ _ _ _ _ _ _ Hpp) as (_ & Hmt & _).
  pose proof (plan_apart _ _ _ _ _ _ _ _ _ _ _ Hinv Hpp) as Hap.
  assert (slot (pl_meta pl) = 1 - slot (st_meta st)) as Hsl by (apply slot_flips; lia).
  pose proof (slot_bound (st_meta st)) as Hb.
  destruct (write_and_flip_reads _ _ _ _ _ _ Hf (pp_nodup_out _ _ _ _ _ _ _ _ _ _ Hpp)) as (pg & He' & Hpg & Hrd & Hoth & Hcnt).
  { apply Hap. lia. }
  rewrite He in He'. injection He' as <-.
  assert (page_count (reboot f0) = Z.of_nat (length f0)) as Hpc by done.
  eapply plan_installed; [exact Hinv|exact Hpp|done|done|exact He|done|done| | |lia].
  - intros n Hn. destruct (Hap n (or_introl Hn)) as (H0 & Hno & Hlt).
    pose proof (si_range _ _ _ _ Hinv) as Hr. apply Forall_app in Hr as [Hr _]. rewrite Forall_forall in Hr.
    specialize (Hr n Hn). simpl in Hr. apply Hoth; [lia|done|lia].
  - destruct (Hap (slot (st_meta st))) as (H0 & Hno & Hlt); [lia|]. apply Hoth; [lia|done|lia].
Qed.

(** Whatever the moment, the machine comes back with the old state or with the new one and its
    pages, and no page the plan leaves alone has changed. *)
Lemma flip_crash f0 st l fd data roots snaps catalog next pl l' d' page k f :
  store_inv (reboot f0) st l fd →
  plan_post (reboot f0) l data (m_txn_id (st_meta st) + 1) roots snaps catalog next pl l' →
  typed_state (mkState (pl_meta pl) roots snaps catalog (pl_freelist pl)) →
  write_and_flip (reboot f0) Full (pl_out pl) (pl_next pl) (pl_meta pl) = Ok d' → meta_encode (pl_meta pl) = Ok page →
  crash_image (foldl disk_step (reboot f0) (take k (flip_ops Full (pl_out pl) (pl_next pl) (slot (pl_meta pl)) page))) f →
  store_inv (reboot f) st l fd ∨
  store_inv (reboot f) (mkState (pl_meta pl) roots snaps catalog (pl_freelist pl)) l' (pl_freelist pl) ∧ reboot f = d'.
Proof.
  intros Hinv Hpp Hty Hf He Hc. pose proof (flipped_new _ _ _ _ _ _ _ _ _ _ _ _ _ Hinv Hpp Hty Hf He) as Hnew.
  destruct (write_and_flip_ops _ _ _ _ _ _ Hf) as (pg & He' & ->). rewrite He in He'. injection He' as <-.
  rewrite flip_done in Hnew |- *. destruct (pp_meta _ _ _ _ _ _ _ _ _ _ Hpp) as (_ & Hmt & _).
  assert (slot (pl_meta pl) = 1 - slot (st_meta st)) as Hsl by (apply slot_flips; lia).
  pose proof (slot_bound (pl_meta pl)) as Hb.
  pose proof (applied_untouched _ _ _ _ _ _ _ _ _ _ _ Hinv Hpp) as Hu.
  destruct (flip_prefix f0 (pl_out pl) (pl_next pl) (slot (pl_meta pl)) page k) as [Hd|[Hd|[Hd|Hd]]]; rewrite Hd in Hc.
  - left. eapply untouched_old; [exact Hinv|]. by eapply pending_untouched.
  - apply crash_settled in Hc as ->. left. by eapply untouched_old.
  - destruct (plan_apart _ _ _ _ _ _ _ _ _ _ _ Hinv Hpp (slot (pl_meta pl))) as (_ & _ & Hlt); [lia|].
    apply crash_one_write in Hc as [->|[->|(pg & -> & Ht)]]; [right; split; [exact Hnew|reflexivity]| | |done|destruct Hu; lia].
    + left. by eapply untouched_old.
    + left. by eapply untouched_torn.
  - apply crash_settled in Hc as ->. right. split; [exact Hnew|reflexivity].
Qed.

(** The pages a flip does not write, at any moment of it. *)
Lemma flip_frame f0 out next no page k f n :
  Forall (λ p, 2 <= p < next) (fst <$> out) → 0 <= no < 2 → (2 <= length f0)%nat →
  crash_image (foldl disk_step (reboot f0) (take k (flip_ops Full out next no page))) f →
  2 <= n < Z.of_nat (length f0) → n ∉ fst <$> out → f !! Z.to_nat n = f0 !! Z.to_nat n.
Proof.
  intros Hr Hno Hl Hc Hn Hout.
  destruct (planned_lookup f0 out next n Hr ltac:(lia) Hout ltac:(lia)) as [Hk Hlen].
  set (W := DGrow next :: _) in *.
  assert (Forall (λ op, ¬ op_writes op (Z.to_nat n)) W) as HW.
  { constructor; [by intros (? & ? & ? & _)|]. apply Forall_fmap, Forall_forall. intros [m pg] Hin (m' & pg' & [= <- <-] & Hm).
    apply Hout. rewrite Forall_fmap, Forall_forall in Hr. pose proof (Hr _ Hin) as Hmr. cbn in Hmr.
    replace n with m by lia. by apply (list_elem_of_fmap_2 fst) in Hin. }
  assert (∀ pg g, <[Z.to_nat no := pg]> g !! Z.to_nat n = (g : list Page) !! Z.to_nat n) as Hins
    by (intros; apply list_lookup_insert_ne; lia).
  destruct (flip_prefix f0 out next no page k) as [Hd|[Hd|[Hd|Hd]]]; rewrite Hd in Hc; fold W in Hc.
  - eapply crash_pending_lookup; [exact Hc|lia|by apply Forall_take].
  - by apply crash_settled in Hc as ->.
  - apply crash_one_write in Hc as [->|[->|(pg & -> & _)]]; rewrite ?Hins; [done..|lia|lia].
  - apply crash_settled in Hc as ->. by rewrite Hins.
Qed.
End atomic.
