(* ===== verification/SampleStore.v ===== *)
(** A new store, for the examples: [init] on an empty disk, evaluated once. *)
From S2P Require Import Prelude Bits Page Sample Chain Meta Freelist Snapshot Roots Pager Store Crash.

#[export] Instance sample_extern_laws : ExternLaws sample := sample_laws.

Lemma first_store :
  ∃ s f0, init (X:=sample) (reboot []) = Ok s ∧ s_pager s = reboot f0 ∧ s_state s = first_state ∧ s_readers s = ∅ ∧
    s_durability s = Full ∧ page_count (s_pager s) = 2 ∧ store_inv (X:=sample) (s_pager s) (s_state s) empty_layout [].
Proof.
  destruct (is_ok_inv (init (X:=sample) (reboot []))) as [s Hi]; [vm_compute; reflexivity|].
  destruct (init_ok (X:=sample) (reboot []) s) as (E1 & E2 & E3 & E4 & E5); [reflexivity| |exact Hi|].
  { intros p1 Hg. injection Hg as <-. reflexivity. }
  assert (∃ f0, s_pager s = reboot f0) as [f0 Hf0].
  { clear -Hi. unfold init in Hi. apply bind_ok in Hi as (p1 & _ & Hi). apply bind_ok in Hi as (pg & _ & Hi).
    apply bind_ok in Hi as (p2 & _ & Hi). apply bind_ok in Hi as (p3 & Hs & Hi). injection Hs as <-.
    unfold load in Hi. apply bind_ok in Hi as (m & _ & Hi). apply bind_ok in Hi as (st & _ & Hi). injection Hi as <-.
    eexists. reflexivity. }
  exists s, f0. split_and!; [exact Hi|exact Hf0|exact E1|exact E2|exact E3|exact E4|exact E5].
Qed.
