(* ===== verification/StoreSpec.v ===== *)
(** What the bookkeeping of the store promises: the freelist, the snapshot registry, the root map,
    opening a file and changing its durability (crates/big-pager/src/freelist.rs, snapshot.rs,
    roots.rs, lib.rs). *)
From S2P Require Import Prelude Bits Page Sample Chain Meta Freelist Snapshot Roots Pager Store Crash SampleStore.

(** * The freelist: a bag of pages, each with the transaction that freed it *)
(** Allocation.  From a freelist in page order the page handed out is the lowest one freed at
    or before the horizon, it leaves the list, nothing else does, and [None] means there was no such
    page: a page freed after the horizon is never handed out. *)
Theorem alloc_lowest_reusable f horizon :
  Forall run_ok f → in_page_order f →
  match free_alloc f horizon with
  | Some (p, f') => (∃ t, t <= horizon ∧ stamped f ≡ₚ (p, t) :: stamped f') ∧ Forall run_ok f' ∧
      (∀ q t, (q, t) ∈ stamped f → t <= horizon → p <= q)
  | None => ∀ q t, (q, t) ∈ stamped f → horizon < t
  end.
Proof.
  intros Hr Ho. destruct (free_alloc f horizon) as [[p f']|] eqn:E.
  - destruct (free_alloc_spec f horizon p f' Hr E) as (t & Ht & Hs & Hf & _). split_and!; [by exists t|done|].
    intros q u. by apply (free_alloc_lowest f horizon p f').
  - intros q t (r & Hin & -> & _)%elem_of_stamped. apply free_alloc_none in E. rewrite Forall_forall in E. by apply E.
Qed.

Definition sample_free : Freelist := [mkRun 3 4 2; mkRun 1 9 3].
Lemma sample_free_ok : Forall run_ok sample_free.
Proof. repeat constructor; cbn; lia. Qed.

Lemma alloc_lowest_reusable_witness :
  free_alloc sample_free 2 = Some (9, [mkRun 3 4 2; mkRun 1 10 2]) ∧
  ∀ q t, (q, t) ∈ stamped sample_free → t <= 2 → 9 <= q.
Proof.
  split; [reflexivity|].
  pose proof (alloc_lowest_reusable sample_free 2 sample_free_ok ltac:(repeat constructor; cbn; lia)) as H.
  change (free_alloc sample_free 2) with (Some (9, [mkRun 3 4 2; mkRun 1 10 2])) in H. apply H.
Defined.

(** Trimming.  [trim_tail] cuts exactly the reusable pages flush against the end of the file,
    as many as there are in a row, and keeps every other page with its stamp. *)
Theorem trim_tail_exact f page_count horizon f' n :
  Forall run_ok f → trim_tail f page_count horizon = (f', n) →
  0 <= n ∧ Forall run_ok f' ∧
  (∃ cut, stamped f ≡ₚ cut ++ stamped f' ∧ fst <$> cut ≡ₚ seqZ (page_count - n) n ∧ Forall (λ x, snd x <= horizon) cut) ∧
  (∀ r, r ∈ f' → fr_freed_at r <= horizon → fr_first r + fr_len r ≠ page_count - n).
Proof.
  intros Hr H. unfold trim_tail in H. destruct (trim_loop _ _ _ _) as [f1 stop] eqn:E. injection H as <- <-.
  destruct (trim_loop_spec _ _ _ _ _ _ Hr (Nat.le_refl _) E) as (H1 & H2 & _ & (cut & C1 & C2 & C3) & H4).
  split_and!; [lia|done| |].
  - exists cut. split_and!; [done| |done]. replace (page_count - (page_count - stop)) with stop by lia. done.
  - intros r Hin Hf. replace (page_count - (page_count - stop)) with stop by lia. by apply H4.
Qed.

Lemma trim_tail_exact_witness :
  trim_tail sample_free 12 2 = ([mkRun 3 4 2], 3) ∧ 0 <= 3 ∧ Forall run_ok [mkRun 3 4 2].
Proof.
  split; [reflexivity|]. destruct (trim_tail_exact sample_free 12 2 [mkRun 3 4 2] 3 sample_free_ok) as (H1 & H2 & _); [reflexivity|].
  split; [exact H1|exact H2].
Defined.

(** Scratch.  What a transaction allocated and dropped again is given back: the pages flush
    against the tail by lowering it, every other one to the freelist, once, with the transaction's
    own stamp. *)
Theorem absorb_scratch_exact f scratch next t :
  Forall run_ok f → 0 <= t < 2 ^ 64 → Forall (λ p, 0 <= p < next) scratch → next <= 2 ^ 32 - 1 →
  let '(f', next') := absorb_scratch f scratch next t in
  next' <= next ∧ Forall run_ok f' ∧
  ∃ ps, ascending ps ∧ stamped f' ≡ₚ stamped f ++ ((λ p, (p, t)) <$> ps) ∧
    (∀ p, p ∈ scratch ↔ p ∈ ps ∨ next' <= p < next) ∧ Forall (λ p, p + 1 < next') ps.
Proof.
  intros Hr Ht Hs Hn. destruct (absorb_scratch f scratch next t) as [f' next'] eqn:E. by eapply absorb_scratch_spec.
Qed.

Lemma absorb_scratch_exact_witness :
  absorb_scratch sample_free [13; 15; 14; 11] 16 7 = ([mkRun 3 4 2; mkRun 1 9 3; mkRun 7 11 1], 13) ∧ 13 <= 16.
Proof.
  split; [vm_compute; reflexivity|].
  pose proof (absorb_scratch_exact sample_free [13; 15; 14; 11] 16 7 sample_free_ok ltac:(lia)
    ltac:(repeat constructor; lia) ltac:(lia)) as H.
  destruct (absorb_scratch sample_free [13; 15; 14; 11] 16 7) as [f' n] eqn:E. vm_compute in E. injection E as <- <-.
  exact (proj1 H).
Defined.

(** Persistence.  The freelist written and read back is the same bag of stamped pages, merged
    into runs and in page order. *)
Theorem freelist_roundtrip {E} f :
  Forall run_ok f → ∃ f', free_from_entries (E:=E) (free_encode f) = Ok f' ∧ stamped f' ≡ₚ stamped f ∧
    Forall run_ok f' ∧ in_page_order f' ∧ total_pages f' = total_pages f.
Proof.
  intros Hr. exists (compact f). destruct (compact_spec f Hr) as [Hr' Hp]. split_and!; [by apply free_roundtrip|done|done|apply compact_order|].
  assert (∀ g, Forall run_ok g → total_pages g = Z.of_nat (length (stamped g))) as Hlen.
  { clear. intros g Hg. induction Hg as [|r g (_ & _ & Hl & _) _ IH]; [done|]. rewrite stamped_cons, length_app.
    change (total_pages (r :: g)) with (fr_len r + total_pages g). unfold run_pages. rewrite length_fmap, length_seqZ. lia. }
  rewrite !Hlen by done. by rewrite Hp.
Qed.

Lemma freelist_roundtrip_witness :
  ∃ f', free_from_entries (E:=PageError) (free_encode [mkRun 1 9 3; mkRun 1 12 1; mkRun 3 4 2]) = Ok f' ∧ total_pages f' = 6.
Proof.
  destruct (freelist_roundtrip (E:=PageError) [mkRun 1 9 3; mkRun 1 12 1; mkRun 3 4 2]) as (f' & H1 & _ & _ & _ & H2);
    [repeat constructor; cbn; lia|]. exists f'. split; [exact H1|exact H2].
Defined.

(** The freelist's own pages.  Allocating the pages the freelist is written to changes the
    freelist, so their number is a moving target; the loop ends, and when it does there is room for
    every run that is left. *)
Theorem freelist_pages_settle f horizon next cap :
  Forall run_ok f → 0 <= next →
  no_panic (alloc_freelist_pages f horizon next cap) ∧
  ∀ ps f' next', alloc_freelist_pages f horizon next cap = Ok (ps, f', next') → next' <= 2 ^ 32 →
    allocated (compact f) horizon next ps f' next' ∧
    chain_pages_needed FREE_ENTRY_BYTES (Z.of_nat (length (free_encode f'))) <= Z.of_nat (length ps).
Proof.
  intros Hr Hn. split; [by apply alloc_freelist_pages_no_panic|]. intros ps f' next' H Hm.
  by eapply alloc_freelist_pages_allocated.
Qed.

Lemma freelist_pages_settle_witness :
  alloc_freelist_pages sample_free 2 12 None = Ok ([9], [mkRun 3 4 2; mkRun 1 10 2], 12) ∧
  no_panic (alloc_freelist_pages sample_free 2 12 None).
Proof. split; [vm_compute; reflexivity|]. apply (freelist_pages_settle sample_free 2 12 None sample_free_ok). lia. Defined.

(** * Snapshots and roots *)

(** The snapshot registry.  Ids stay distinct and below the next one; a created snapshot is
    found under its id and disturbs no other, a removed one is gone, and expiry takes exactly the
    unpinned ones past their date. *)
Theorem snapshot_registry_ops r t rt e name pinned id now :
  registry_ok r → sr_next_id r < 2 ^ 64 - 1 →
  (let '(r', s) := snap_create r t rt e name pinned in
     registry_ok r' ∧ snap_get r' (sn_id s) = Some s ∧ sn_txn_id s = t ∧ (∀ i, i ≠ sn_id s → snap_get r' i = snap_get r i)) ∧
  (let '(r', o) := snap_remove r id in registry_ok r' ∧ snap_get r' id = None ∧ o = snap_get r id) ∧
  (let '(r', dead) := snap_expire r now in registry_ok r' ∧
     (∀ s, s ∈ dead ↔ s ∈ sr_snaps r ∧ is_pinned s = false ∧ sn_expires_at s <= now) ∧
     (∀ s, s ∈ sr_snaps r' ↔ s ∈ sr_snaps r ∧ (is_pinned s = true ∨ now < sn_expires_at s))).
Proof.
  intros Hr Hn. split_and!.
  - destruct (create_registry_ok r t rt e name pinned Hr Hn) as (H1 & H2 & H3).
    unfold snap_create in *. cbn [fst snd sn_id sn_txn_id] in *. done.
  - destruct (remove_registry_ok r id Hr) as (H1 & H2 & H3). destruct (snap_remove r id) as [r' o]. cbn in *. done.
  - destruct (expire_registry_ok r now Hr) as (H1 & H2 & H3). destruct (snap_expire r now) as [r' dead]. cbn in *.
    split_and!; [done| |]; intros s; rewrite ?H2, ?H3; unfold is_expired; destruct (is_pinned s), (Z.leb_spec (sn_expires_at s) now);
      cbn; split; intros [? ?]; (split; [done|]); naive_solver lia.
Qed.

Lemma snapshot_registry_ops_witness :
  registry_ok (mkRegistry [] 1) ∧
  (let '(r', s) := snap_create (mkRegistry [] 1) 5 6 0 [] true in snap_get r' (sn_id s) = Some s).
Proof.
  assert (registry_ok (mkRegistry [] 1)) as H by (split_and!; cbn; [constructor|constructor|lia]).
  split; [exact H|].
  destruct (snapshot_registry_ops (mkRegistry [] 1) 5 6 0 [] true 0 0 H ltac:(cbn; lia)) as [H1 _].
  cbn [snap_create] in *. apply H1.
Defined.

(** The root map.  Setting a root is seen at its key and nowhere else, removing one returns what
    was there, the map stays in key order, and writing it out and reading it back changes nothing. *)
Theorem root_map_ops {E} m k v :
  roots_ok m →
  roots_ok (root_set m k v) ∧ (∀ k', root_get (root_set m k v) k' = if bool_decide (k' = k) then Some v else root_get m k') ∧
  roots_ok (fst (root_remove m k)) ∧ snd (root_remove m k) = root_get m k ∧
  (∀ k', root_get (fst (root_remove m k)) k' = if bool_decide (k' = k) then None else root_get m k') ∧
  (Forall root_typed m → roots_from_entries (E:=E) (roots_encode m) = Ok m).
Proof.
  intros Hm. destruct (root_remove_spec m k Hm) as (H1 & H2 & H3 & _).
  split_and!; [by apply root_set_ok|intros k'; by apply root_get_set|done|done|done|intros Ht; by apply roots_roundtrip].
Qed.

Lemma root_map_ops_witness :
  roots_ok [(mkFragmentKey 1 1 1 1, 4)] ∧
  root_get (root_set [(mkFragmentKey 1 1 1 1, 4)] (mkFragmentKey 1 1 0 9) 5) (mkFragmentKey 1 1 0 9) = Some 5.
Proof.
  assert (roots_ok [(mkFragmentKey 1 1 1 1, 4)]) as H by (repeat constructor).
  split; [exact H|]. destruct (root_map_ops (E:=PageError) _ (mkFragmentKey 1 1 0 9) 5 H) as (_ & H1 & _).
  rewrite (H1 (mkFragmentKey 1 1 0 9)). reflexivity.
Defined.

(** * Opening a file *)
Section opening.
Context {X : Extern} {L : ExternLaws X} {P : Type} `{!Pager P, !PagerMut P, !PagerLaws P}.

(** Opening.  An empty file becomes a store in its first state, sound and without readers; a
    file too short to hold the two metas is refused; a sound file gives back its state. *)
Theorem open_or_init_cases (pager : P) :
  (page_count pager = 0 → (∀ p1, grow pager META_PAGES = Ok p1 → pager_read p1 1 = Ok zeroed) →
   ∀ s, open_or_init pager = Ok s → s_state s = first_state ∧ s_readers s = ∅ ∧
     store_inv (s_pager s) (s_state s) empty_layout []) ∧
  (page_count pager = 1 → open_or_init pager = Err (ENotADatabase PAGE_SIZE)) ∧
  (∀ st l fd, store_inv pager st l fd →
     ∃ st', open_or_init pager = Ok (mkStore pager st' ∅ Full (mkBreakdown 0 0 0 0 0)) ∧ reloads st fd st').
Proof.
  unfold open_or_init. split_and!.
  - intros Hc Hz s H. rewrite Hc in H. change (0 =? 0) with true in H. cbv iota in H.
    destruct (init_ok pager s Hc Hz H) as (H1 & H2 & _ & _ & H3). split_and!; [exact H1|exact H2|exact H3].
  - intros ->. reflexivity.
  - intros st l fd Hs. pose proof (si_count _ _ _ _ Hs) as Hc. rewrite (proj2 (Z.eqb_neq _ _)) by lia.
    rewrite (proj2 (Z.leb_le META_PAGES _)) by (unfold META_PAGES; lia).
    destruct (load_ok _ _ _ _ Hs) as (st' & Hl & Hr & _). exists st'. split; [exact Hl|exact Hr].
Qed.
End opening.

Lemma open_or_init_cases_witness :
  ∃ s, open_or_init (X:=sample) (reboot []) = Ok s ∧ s_state s = first_state ∧
    store_inv (X:=sample) (s_pager s) (s_state s) empty_layout [].
Proof.
  destruct first_store as (s & f0 & Hi & _). exists s.
  assert (open_or_init (X:=sample) (reboot []) = Ok s) as Hs by exact Hi.
  split; [exact Hs|]. destruct (open_or_init_cases (X:=sample) (L:=sample_laws) (reboot [])) as (H & _).
  destruct (H eq_refl) with (s := s) as (H1 & _ & H2); [|exact Hs|split; [exact H1|exact H2]].
  intros p1 Hg. injection Hg as <-. reflexivity.
Defined.

(** Raising the durability of a store makes what it already committed durable: on the disk
    model nothing is left pending, and the bytes a process sees do not change. *)
Theorem raising_durability_syncs (s s' : Store Disk) next :
  set_durability s next = Ok s' →
  s_durability s' = next ∧ dk_view (s_pager s') = dk_view (s_pager s) ∧ s_state s' = s_state s ∧
  (next ≠ s_durability s → at_least next (s_durability s) = true → dk_pending (s_pager s') = []).
Proof.
  unfold set_durability. case_bool_decide as E.
  - intros [= <-]. split_and!; [done|done|done|]. intros Hn. by destruct Hn.
  - intros (p & Hp & H)%bind_ok. injection H as <-. cbn [s_durability s_pager s_state].
    destruct (at_least next (s_durability s)); injection Hp as <-; split_and!; done.
Qed.

(** A store with a write that no flush has covered. *)
Definition pending_store : Store Disk :=
  mkStore (mkDisk [zeroed; zeroed] [DWrite 1 zeroed]) first_state ∅ NoFlush (mkBreakdown 0 0 0 0 0).
Lemma raising_durability_syncs_witness :
  ∃ s', set_durability pending_store Full = Ok s' ∧ dk_pending (s_pager s') = [].
Proof.
  eexists. split; [reflexivity|].
  eapply (raising_durability_syncs pending_store _ Full); [reflexivity|discriminate|reflexivity].
Defined.
