(* ===== verification/Txn.v ===== *)
(** Write transactions (crates/big-pager/src/txn.rs, and [begin_write] of lib.rs).

    A [WriteTxn] borrows the store, so the store is an argument of the operations that reach
    through it.  The ghost state of [txn_inv] says who owns each page: the chains of the base, the
    data pages inherited from it, the pages this transaction took, its scratch, the freelist. *)
From S2P Require Import Prelude Bits Page Chain Meta Freelist Snapshot Roots Pager Store.

(** * [BTreeMap<Pgno, Page>], in key order *)
Definition DirtyPages := list (Z * Page).

Definition dirty_get (m : DirtyPages) (k : Z) : option Page := snd <$> List.find (λ e, fst e =? k) m.
Fixpoint dirty_insert (m : DirtyPages) (k : Z) (v : Page) : DirtyPages :=
  match m with
  | [] => [(k, v)]
  | (k', v') :: m' =>
      if k <? k' then (k, v) :: m else if k =? k' then (k, v) :: m' else (k', v') :: dirty_insert m' k v
  end.
Definition dirty_remove (m : DirtyPages) (k : Z) : DirtyPages := List.filter (λ e, negb (fst e =? k)) m.

Record WriteTxn := mkTxn {
  w_txn_id : Z; w_horizon : Z; w_base : MetaPage; w_dirty : DirtyPages; w_freelist : Freelist;
  w_roots : RootRecords; w_snapshots : SnapshotRegistry; w_catalog : list (list Z);
  w_next_pgno : Z; w_scratch : list Z; w_dirty_chains : DirtyChains; w_tail_floor : Z }.

(** The pages of a transaction, its metadata left alone. *)
Definition with_pages (t : WriteTxn) (dirty : DirtyPages) (f : Freelist) (next : Z) (scratch : list Z) : WriteTxn :=
  mkTxn (w_txn_id t) (w_horizon t) (w_base t) dirty f (w_roots t) (w_snapshots t) (w_catalog t) next scratch
    (w_dirty_chains t) (w_tail_floor t).
(** Its metadata, the pages left alone. *)
Definition with_meta (t : WriteTxn) (roots : RootRecords) (snaps : SnapshotRegistry) (cat : list (list Z)) (dc : DirtyChains) : WriteTxn :=
  mkTxn (w_txn_id t) (w_horizon t) (w_base t) (w_dirty t) (w_freelist t) roots snaps cat (w_next_pgno t) (w_scratch t)
    dc (w_tail_floor t).

Section txn.
Context {X : Extern} {P : Type} `{!Pager P, !PagerMut P}.

Definition begin_write (s : Store P) : WriteTxn :=
  let st := s_state s in
  let next := page_count (s_pager s) in
  mkTxn (m_txn_id (st_meta st) + 1) (horizon_of s (st_snapshots st) (m_txn_id (st_meta st))) (st_meta st) []
    (st_freelist st) (st_roots st) (st_snapshots st) (st_catalog st) next [] (mkDirty false false false) next.

Definition txn_read (s : Store P) (t : WriteTxn) (pgno : Z) : Res StoreError Page :=
  match dirty_get (w_dirty t) pgno with Some p => Ok p | None => pager_read (s_pager s) pgno end.

Definition txn_alloc_tail (s : Store P) (t : WriteTxn) : Res StoreError (Z * WriteTxn) :=
  '(p, next) ← alloc_tail (w_next_pgno t) (capacity (s_pager s));
  Ok (p, with_pages t (w_dirty t) (w_freelist t) next (w_scratch t)).

(** [scratch] is kept with its top first, so that [push] and [pop] are at the head. *)
Definition txn_alloc (s : Store P) (t : WriteTxn) : Res StoreError (Z * WriteTxn) :=
  match w_scratch t with
  | p :: scratch => Ok (p, with_pages t (dirty_remove (w_dirty t) p) (w_freelist t) (w_next_pgno t) scratch)
  | [] =>
      match free_alloc (w_freelist t) (w_horizon t) with
      | Some (p, f) => Ok (p, with_pages t (w_dirty t) f (w_next_pgno t) [])
      | None => txn_alloc_tail s t
      end
  end.

Definition txn_free (t : WriteTxn) (pgno : Z) : WriteTxn :=
  if w_tail_floor t <=? pgno
  then with_pages t (dirty_remove (w_dirty t) pgno) (w_freelist t) (w_next_pgno t) (pgno :: w_scratch t)
  else with_pages t (w_dirty t) (free_push (w_freelist t) pgno (w_txn_id t)) (w_next_pgno t) (w_scratch t).

Definition txn_cow (s : Store P) (t : WriteTxn) (pgno : Z) : Res StoreError (Z * WriteTxn) :=
  content ← txn_read s t pgno;
  '(new, t) ← txn_alloc s t;
  let t := with_pages t (dirty_insert (w_dirty t) new content) (w_freelist t) (w_next_pgno t) (w_scratch t) in
  Ok (new, txn_free t pgno).

Definition txn_write (t : WriteTxn) (pgno : Z) (page : Page) : Res StoreError WriteTxn :=
  if w_next_pgno t <=? pgno then Err (EUnallocatedPage pgno)
  else Ok (with_pages t (dirty_insert (w_dirty t) pgno page) (w_freelist t) (w_next_pgno t) (w_scratch t)).

Definition txn_root (t : WriteTxn) (key : FragmentKey) : option Z := root_get (w_roots t) key.
Definition txn_set_root (t : WriteTxn) (key : FragmentKey) (root : Z) : WriteTxn :=
  with_meta t (root_set (w_roots t) key root) (w_snapshots t) (w_catalog t)
    (mkDirty true (dc_catalog (w_dirty_chains t)) (dc_snapshots (w_dirty_chains t))).
Definition txn_remove_root (t : WriteTxn) (key : FragmentKey) : WriteTxn * option Z :=
  let '(roots, o) := root_remove (w_roots t) key in
  (with_meta t roots (w_snapshots t) (w_catalog t)
     (mkDirty true (dc_catalog (w_dirty_chains t)) (dc_snapshots (w_dirty_chains t))), o).

Definition snaps_changed (t : WriteTxn) (snaps : SnapshotRegistry) : WriteTxn :=
  with_meta t (w_roots t) snaps (w_catalog t) (mkDirty (dc_roots (w_dirty_chains t)) (dc_catalog (w_dirty_chains t)) true).
Definition create_snapshot (t : WriteTxn) (expires_at : Z) (name : list Z) (pinned : bool) : WriteTxn * Snapshot :=
  let root := default 0 (m_root_records (w_base t)) in
  let '(r, snap) := snap_create (w_snapshots t) (m_txn_id (w_base t)) root expires_at name pinned in
  (snaps_changed t r, snap).
Definition drop_snapshot (t : WriteTxn) (id : Z) : WriteTxn * option Snapshot :=
  let '(r, o) := snap_remove (w_snapshots t) id in (snaps_changed t r, o).
Definition expire_snapshots (t : WriteTxn) (now : Z) : WriteTxn * list Snapshot :=
  let '(r, dead) := snap_expire (w_snapshots t) now in (snaps_changed t r, dead).

Definition set_catalog (t : WriteTxn) (entries : list (list Z)) : WriteTxn :=
  if bool_decide (entries = w_catalog t) then t
  else with_meta t (w_roots t) (w_snapshots t) entries
         (mkDirty (dc_roots (w_dirty_chains t)) true (dc_snapshots (w_dirty_chains t))).

Definition txn_commit (s : Store P) (t : WriteTxn) : Res StoreError (Store P * Z) :=
  let '(f, next) := absorb_scratch (w_freelist t) (w_scratch t) (w_next_pgno t) (w_txn_id t) in
  commit_txn s (w_txn_id t) (w_base t) (w_dirty t) f (w_roots t) (w_snapshots t) (w_catalog t) (w_dirty_chains t) next.
End txn.

(** * The map of dirty pages *)
Lemma dirty_insert_keys m k v x : x ∈ fst <$> dirty_insert m k v ↔ x = k ∨ x ∈ fst <$> m.
Proof.
  induction m as [|[a b] m IH]; cbn [dirty_insert]; [csimpl; rewrite elem_of_cons; done|].
  destruct (Z.ltb_spec k a), (Z.eqb_spec k a); csimpl; rewrite !elem_of_cons, ?IH; naive_solver.
Qed.

Lemma dirty_insert_ascending m k v : ascending (fst <$> m) → ascending (fst <$> dirty_insert m k v).
Proof.
  induction m as [|[a b] m IH]; intros Hs; cbn [dirty_insert]; [repeat constructor|].
  csimpl in Hs. apply StronglySorted_inv in Hs as [Hs Ha].
  destruct (Z.ltb_spec k a), (Z.eqb_spec k a); csimpl; try lia.
  - repeat constructor; [done|done|lia|]. eapply Forall_impl; [exact Ha|]. simpl. lia.
  - subst. by constructor.
  - constructor; [by apply IH|]. apply Forall_forall. intros x Hx%dirty_insert_keys.
    rewrite Forall_forall in Ha. destruct Hx as [->|Hx]; [lia|by apply Ha].
Qed.

Lemma dirty_remove_keys m k x : x ∈ fst <$> dirty_remove m k ↔ x ≠ k ∧ x ∈ fst <$> m.
Proof.
  unfold dirty_remove. induction m as [|[a b] m IH]; csimpl; [rewrite !elem_of_nil; tauto|].
  destruct (Z.eqb_spec a k); csimpl; rewrite !elem_of_cons, ?IH; naive_solver.
Qed.

Lemma dirty_remove_ascending m k : ascending (fst <$> m) → ascending (fst <$> dirty_remove m k).
Proof.
  induction m as [|[a b] m IH]; intros Hs; [done|]. csimpl in Hs. apply StronglySorted_inv in Hs as [Hs Ha].
  cbn [dirty_remove List.filter fst]. destruct (a =? k); cbn [negb]; [by apply IH|]. csimpl.
  constructor; [by apply IH|]. apply Forall_forall. intros x [_ Hx]%dirty_remove_keys.
  rewrite Forall_forall in Ha. by apply Ha.
Qed.

Lemma dirty_get_insert m k v k' : dirty_get (dirty_insert m k v) k' = if k' =? k then Some v else dirty_get m k'.
Proof.
  unfold dirty_get. induction m as [|[a b] m IH]; cbn [dirty_insert List.find fst].
  - rewrite (Z.eqb_sym k' k). by destruct (k =? k').
  - destruct (Z.ltb_spec k a); [cbn [List.find fst]; rewrite (Z.eqb_sym k' k); by destruct (k =? k')|].
    destruct (Z.eqb_spec k a); cbn [List.find fst].
    + subst. rewrite (Z.eqb_sym k' a). by destruct (a =? k').
    + destruct (Z.eqb_spec a k'); [|done]. subst. by destruct (Z.eqb_spec k' k); [lia|].
Qed.

Lemma dirty_get_remove m k k' : k' ≠ k → dirty_get (dirty_remove m k) k' = dirty_get m k'.
Proof.
  intros Hne. unfold dirty_get, dirty_remove. f_equal. induction m as [|[a b] m IH]; [done|]. cbn [List.filter fst].
  destruct (Z.eqb_spec a k) as [->|]; cbn [negb List.find fst]; [rewrite (proj2 (Z.eqb_neq k k')) by lia; exact IH|by rewrite IH].
Qed.

(** * A transaction at work

    One writer beside any number of readers.  [c_inh] are the data pages of the base the
    transaction has not given up, [c_fresh] the pages it has taken and still uses: the b-tree above
    frees and writes only those, which is the discipline the rules state. *)
Section running.
Context {X : Extern} {P : Type} `{!Pager P, !PagerMut P}.

Record Cfg := mkCfg { c_store : Store P; c_txn : WriteTxn; c_inh : list Z; c_fresh : list Z }.

Inductive txn_step : Cfg → Cfg → Prop :=
  | step_alloc s t inh fresh p t' :
      txn_alloc s t = Ok (p, t') → w_next_pgno t' <= 2 ^ 32 - 1 →
      txn_step (mkCfg s t inh fresh) (mkCfg s t' inh (p :: fresh))
  | step_free s t inh fresh inh' fresh' p :
      inh ++ fresh ≡ₚ p :: inh' ++ fresh' → inh' ⊆+ inh → fresh' ⊆+ fresh →
      txn_step (mkCfg s t inh fresh) (mkCfg s (txn_free t p) inh' fresh')
  | step_write s t inh fresh p page t' :
      p ∈ fresh → txn_write t p page = Ok t' → txn_step (mkCfg s t inh fresh) (mkCfg s t' inh fresh)
  | step_cow s t inh fresh inh' fresh' p q t' :
      inh ++ fresh ≡ₚ p :: inh' ++ fresh' → inh' ⊆+ inh → fresh' ⊆+ fresh →
      txn_cow s t p = Ok (q, t') → w_next_pgno t' <= 2 ^ 32 - 1 →
      txn_step (mkCfg s t inh fresh) (mkCfg s t' inh' (q :: fresh'))
  | step_set_root s t inh fresh k v :
      root_typed (k, v) → txn_step (mkCfg s t inh fresh) (mkCfg s (txn_set_root t k v) inh fresh)
  | step_remove_root s t inh fresh k :
      txn_step (mkCfg s t inh fresh) (mkCfg s (fst (txn_remove_root t k)) inh fresh)
  | step_snapshot s t inh fresh e name pinned :
      sr_next_id (w_snapshots t) < 2 ^ 64 - 1 → 0 <= e < 2 ^ 64 → Forall byte name →
      txn_step (mkCfg s t inh fresh) (mkCfg s (fst (create_snapshot t e name pinned)) inh fresh)
  | step_drop s t inh fresh id :
      txn_step (mkCfg s t inh fresh) (mkCfg s (fst (drop_snapshot t id)) inh fresh)
  | step_expire s t inh fresh now :
      txn_step (mkCfg s t inh fresh) (mkCfg s (fst (expire_snapshots t now)) inh fresh)
  | step_catalog s t inh fresh es :
      entries_ok CATALOG_ENTRY_BYTES es → txn_step (mkCfg s t inh fresh) (mkCfg s (set_catalog t es) inh fresh)
  | step_begin_read s t inh fresh :
      txn_step (mkCfg s t inh fresh) (mkCfg (fst (begin_read s)) t inh fresh)
  | step_begin_read_at s t inh fresh id s' r :
      begin_read_at s id = Ok (s', r) → txn_step (mkCfg s t inh fresh) (mkCfg s' t inh fresh)
  | step_end_read s t inh fresh r :
      txn_step (mkCfg s t inh fresh) (mkCfg (release_reader s r) t inh fresh).

(** Every page has one owner. *)
Definition owners (l : Layout) (c : Cfg) : list Z :=
  ly_all l ++ c_inh c ++ c_fresh c ++ w_scratch (c_txn c) ++ (fst <$> stamped (w_freelist (c_txn c))).

Record txn_pages_inv (l : Layout) (c : Cfg) : Prop := {
  ti_runs : Forall run_ok (w_freelist (c_txn c));
  ti_nodup : NoDup (owners l c);
  ti_range : Forall (λ p, 2 <= p < w_next_pgno (c_txn c)) (owners l c);
  ti_next : 2 <= w_tail_floor (c_txn c) <= w_next_pgno (c_txn c) ∧ w_next_pgno (c_txn c) <= 2 ^ 32 - 1;
  ti_scratch : Forall (λ p, w_tail_floor (c_txn c) <= p) (w_scratch (c_txn c));
  ti_sorted : ascending (fst <$> w_dirty (c_txn c));
  ti_dirty : ∀ p, p ∈ fst <$> w_dirty (c_txn c) →
    p ∈ c_fresh c ∨ (p, w_txn_id (c_txn c)) ∈ stamped (w_freelist (c_txn c))
}.

Record txn_meta_inv (fd : Freelist) (l : Layout) (c : Cfg) : Prop := {
  tm_store : store_inv (s_pager (c_store c)) (s_state (c_store c)) l fd;
  tm_base : w_base (c_txn c) = st_meta (s_state (c_store c));
  tm_txn : w_txn_id (c_txn c) = m_txn_id (w_base (c_txn c)) + 1 ∧ w_txn_id (c_txn c) < 2 ^ 64;
  tm_horizon : w_horizon (c_txn c) <= m_txn_id (w_base (c_txn c));
  tm_floor : w_tail_floor (c_txn c) = page_count (s_pager (c_store c));
  tm_typed : typed_state (mkState (w_base (c_txn c)) (w_roots (c_txn c)) (w_snapshots (c_txn c)) (w_catalog (c_txn c)) []);
  tm_kept_roots : dc_roots (w_dirty_chains (c_txn c)) = false → w_roots (c_txn c) = st_roots (s_state (c_store c));
  tm_kept_snaps : dc_snapshots (w_dirty_chains (c_txn c)) = false → w_snapshots (c_txn c) = st_snapshots (s_state (c_store c));
  tm_kept_cat : dc_catalog (w_dirty_chains (c_txn c)) = false → w_catalog (c_txn c) = st_catalog (s_state (c_store c))
}.
Definition txn_inv fd l c := txn_pages_inv l c ∧ txn_meta_inv fd l c.
End running.
Arguments Cfg P : clear implicits.

(** * The steps keep the invariant *)
Lemma nodup_perm (l k : list Z) : l ≡ₚ k → NoDup l → NoDup k.
Proof. by intros ->. Qed.
Lemma forall_perm (Q : Z → Prop) (l k : list Z) : l ≡ₚ k → Forall Q l → Forall Q k.
Proof. by intros ->. Qed.

Section steps.
Context {X : Extern} {P : Type} `{!Pager P, !PagerMut P}.
Implicit Types (s : Store P) (c : Cfg P).

(** [p] moves from the stock to [fresh]; the stock is the scratch, the freelist, or the tail. *)
Lemma alloc_cases s t p t' :
  Forall run_ok (w_freelist t) → 0 <= w_next_pgno t → w_next_pgno t' <= 2 ^ 32 - 1 → txn_alloc s t = Ok (p, t') →
  (∃ sc, w_scratch t = p :: sc ∧ t' = with_pages t (dirty_remove (w_dirty t) p) (w_freelist t) (w_next_pgno t) sc) ∨
  (∃ f u, stamped (w_freelist t) ≡ₚ (p, u) :: stamped f ∧ u <= w_horizon t ∧ Forall run_ok f ∧ w_scratch t = [] ∧
     t' = with_pages t (w_dirty t) f (w_next_pgno t) []) ∨
  (p = w_next_pgno t ∧ w_scratch t = [] ∧ t' = with_pages t (w_dirty t) (w_freelist t) (w_next_pgno t + 1) []).
Proof.
  intros Hf H0 Hn H. unfold txn_alloc in H. destruct (w_scratch t) as [|q sc] eqn:Hs.
  - right. destruct (free_alloc (w_freelist t) (w_horizon t)) as [[q f]|] eqn:He.
    + left. injection H as <- <-. destruct (free_alloc_spec _ _ _ _ Hf He) as (u & Hu & Hst & Hok & _). by exists f, u.
    + right. unfold txn_alloc_tail, alloc_tail in H.
      destruct (capacity (s_pager s)) as [cap|]; [destruct (cap <=? w_next_pgno t); [done|]|];
        cbn [mbind Res_bind] in H; injection H as <- <-; rewrite Hs; cbn [w_next_pgno with_pages] in Hn;
        (split; [apply Z.mod_small; lia|done]).
  - left. injection H as <- <-. by exists sc.
Qed.

Lemma alloc_keeps l s t inh fresh p t' :
  txn_pages_inv l (mkCfg s t inh fresh) → txn_alloc s t = Ok (p, t') → w_next_pgno t' <= 2 ^ 32 - 1 →
  txn_pages_inv l (mkCfg s t' inh (p :: fresh)).
Proof.
  intros [Hr Hn Hg Hx Hsc Hso Hd] H Hmax. unfold owners in *. cbn [c_txn c_inh c_fresh c_store] in *.
  destruct (alloc_cases s t p t' Hr ltac:(lia) Hmax H) as [(sc & Hs & ->)|[(f & u & Hst & Hu & Hf & Hs & ->)|(-> & Hs & ->)]];
    rewrite Hs in *; split; unfold owners; cbn [c_txn c_inh c_fresh with_pages w_freelist w_scratch w_next_pgno w_tail_floor w_dirty w_txn_id] in *;
    try done; try (rewrite Hst in Hn, Hg; cbn [fmap list_fmap fst] in Hn, Hg).
  - revert Hn. apply nodup_perm. solve_Permutation.
  - revert Hg. apply forall_perm. solve_Permutation.
  - by apply Forall_cons in Hsc as [_ ?].
  - by apply dirty_remove_ascending.
  - intros q [_ [Hq|Hq]%Hd]%dirty_remove_keys; [left; by right|by right].
  - revert Hn. apply nodup_perm. solve_Permutation.
  - revert Hg. apply forall_perm. solve_Permutation.
  - intros q [Hq|Hq]%Hd; [left; by right|]. rewrite Hst, elem_of_cons in Hq. destruct Hq as [[= -> _]|Hq]; [left; by left|by right].
  - apply (nodup_perm (w_next_pgno t :: ly_all l ++ inh ++ fresh ++ [] ++ (fst <$> stamped (w_freelist t)))); [solve_Permutation|].
    constructor; [|done]. intros Hin. rewrite Forall_forall in Hg. specialize (Hg _ Hin). simpl in Hg. lia.
  - apply (forall_perm _ (w_next_pgno t :: ly_all l ++ inh ++ fresh ++ [] ++ (fst <$> stamped (w_freelist t)))); [solve_Permutation|].
    constructor; [lia|]. eapply Forall_impl; [exact Hg|]. simpl. lia.
  - lia.
  - intros q [Hq|Hq]%Hd; [left; by right|by right].
Qed.

Lemma free_keeps l s t inh fresh inh' fresh' p :
  txn_pages_inv l (mkCfg s t inh fresh) → 0 <= w_txn_id t < 2 ^ 64 →
  inh ++ fresh ≡ₚ p :: inh' ++ fresh' → inh' ⊆+ inh →
  txn_pages_inv l (mkCfg s (txn_free t p) inh' fresh').
Proof.
  intros [Hr Hn Hg Hx Hsc Hso Hd] Ht Hp Hsub. unfold owners in *. cbn [c_txn c_inh c_fresh c_store] in *.
  assert (∀ q, q ∈ fresh → q ≠ p → q ∈ fresh') as Hfr.
  { intros q Hq Hne. assert (q ∈ p :: inh' ++ fresh') as Hq' by (rewrite <-Hp; apply elem_of_app; by right).
    apply elem_of_cons in Hq' as [->|[Hq'|Hq']%elem_of_app]; [done| |done]. exfalso.
    apply NoDup_app in Hn as (_ & _ & Hn). apply NoDup_app in Hn as (_ & Hn & _).
    apply (Hn q); [by eapply elem_of_submseteq|]. apply elem_of_app. by left. }
  assert (2 <= p < w_next_pgno t) as Hpr.
  { rewrite Forall_forall in Hg. apply Hg. rewrite !elem_of_app. right.
    assert (p ∈ inh ++ fresh) as Hin by (rewrite Hp; left). apply elem_of_app in Hin as [?|?]; tauto. }
  rewrite (app_assoc inh fresh), Hp in Hn, Hg.
  unfold txn_free. destruct (Z.leb_spec (w_tail_floor t) p).
  - split; unfold owners; cbn [c_txn c_inh c_fresh with_pages w_freelist w_scratch w_next_pgno w_tail_floor w_dirty w_txn_id]; try done.
    + revert Hn. apply nodup_perm. solve_Permutation.
    + revert Hg. apply forall_perm. solve_Permutation.
    + by constructor.
    + by apply dirty_remove_ascending.
    + intros q [Hne [Hq|Hq]%Hd]%dirty_remove_keys; [left; by apply Hfr|by right].
  - destruct (stamped_pushes (w_freelist t) [p] (w_txn_id t) Hr Ht) as [Hr' Hst'];
      [constructor; [lia|constructor]|]. cbn [foldl] in Hr', Hst'. csimpl in Hst'.
    split; unfold owners; cbn [c_txn c_inh c_fresh with_pages w_freelist w_scratch w_next_pgno w_tail_floor w_dirty w_txn_id]; try done;
      rewrite ?Hst', ?fmap_app; csimpl.
    + revert Hn. apply nodup_perm. solve_Permutation.
    + revert Hg. apply forall_perm. solve_Permutation.
    + intros q Hq. rewrite elem_of_app, list_elem_of_singleton. destruct (decide (q = p)) as [->|Hne]; [by right; right|].
      destruct (Hd q Hq) as [Hq'|Hq']; [left; by apply Hfr|right; by left].
Qed.

Lemma insert_keeps l s t inh fresh p page :
  txn_pages_inv l (mkCfg s t inh fresh) → p ∈ fresh →
  txn_pages_inv l (mkCfg s (with_pages t (dirty_insert (w_dirty t) p page) (w_freelist t) (w_next_pgno t) (w_scratch t)) inh fresh).
Proof.
  intros [Hr Hn Hg Hx Hsc Hso Hd] Hp. split; try done; cbn [c_txn c_fresh with_pages w_dirty w_freelist w_txn_id].
  - by apply dirty_insert_ascending.
  - intros q [->|Hq]%dirty_insert_keys; [by left|by apply Hd].
Qed.

(** The page operations leave the metadata alone. *)
Definition same_meta (t t' : WriteTxn) : Prop := ∃ d f n sc, t' = with_pages t d f n sc.

Lemma same_meta_trans t1 t2 t3 : same_meta t1 t2 → same_meta t2 t3 → same_meta t1 t3.
Proof. intros (d & f & n & sc & ->) (d' & f' & n' & sc' & ->). by exists d', f', n', sc'. Qed.

Lemma alloc_same_meta s t p t' : txn_alloc s t = Ok (p, t') → same_meta t t'.
Proof.
  unfold txn_alloc, txn_alloc_tail, alloc_tail, same_meta. intros H.
  destruct (w_scratch t); [destruct (free_alloc _ _) as [[]|]; [|destruct (capacity _) as [cap|]; [destruct (cap <=? _)|]]|];
    cbn [mbind Res_bind] in H; try done; injection H as <- <-; eauto 10.
Qed.

Lemma free_same_meta t p : same_meta t (txn_free t p).
Proof. unfold txn_free, same_meta. case_match; eauto 10. Qed.

Lemma meta_pages fd l s t t' inh fresh inh' fresh' :
  same_meta t t' → txn_meta_inv fd l (mkCfg s t inh fresh) → txn_meta_inv fd l (mkCfg s t' inh' fresh').
Proof. intros (d & f & n & sc & ->) []. by split. Qed.

Lemma cow_inv s t p q t' :
  txn_cow s t p = Ok (q, t') →
  ∃ content t1, txn_read s t p = Ok content ∧ txn_alloc s t = Ok (q, t1) ∧
    t' = txn_free (with_pages t1 (dirty_insert (w_dirty t1) q content) (w_freelist t1) (w_next_pgno t1) (w_scratch t1)) p.
Proof.
  unfold txn_cow. intros H. apply bind_ok in H as (content & Hr & H). apply bind_ok in H as ([new t1] & Ha & H).
  injection H as <- <-. by exists content, t1.
Qed.

Lemma free_next t p : w_next_pgno (txn_free t p) = w_next_pgno t.
Proof. unfold txn_free. by case_match. Qed.

Lemma typed_roots st roots : typed_state st → roots_ok roots → Forall root_typed roots →
  typed_state (mkState (st_meta st) roots (st_snapshots st) (st_catalog st) (st_freelist st)).
Proof. intros [] ? ?. by split. Qed.

Lemma typed_snaps st snaps : typed_state st → registry_ok snaps → Forall snap_typed (sr_snaps snaps) → sr_next_id snaps < 2 ^ 64 →
  typed_state (mkState (st_meta st) (st_roots st) snaps (st_catalog st) (st_freelist st)).
Proof. intros [] ? ? ?. by split. Qed.

(** The registry operations of a transaction. *)
Lemma meta_snaps fd l s t inh fresh snaps :
  txn_meta_inv fd l (mkCfg s t inh fresh) → registry_ok snaps → Forall snap_typed (sr_snaps snaps) → sr_next_id snaps < 2 ^ 64 →
  txn_meta_inv fd l (mkCfg s (snaps_changed t snaps) inh fresh).
Proof. intros [] H1 H2 H3. split; try done. by apply (typed_snaps _ _ tm_typed0). Qed.

Lemma meta_roots fd l s t inh fresh roots :
  txn_meta_inv fd l (mkCfg s t inh fresh) → roots_ok roots → Forall root_typed roots →
  txn_meta_inv fd l (mkCfg s (with_meta t roots (w_snapshots t) (w_catalog t)
     (mkDirty true (dc_catalog (w_dirty_chains t)) (dc_snapshots (w_dirty_chains t)))) inh fresh).
Proof. intros [] H1 H2. split; try done. by apply (typed_roots _ _ tm_typed0). Qed.

Lemma make_name_bytes b : Forall byte b → Forall byte (make_name b).
Proof. intros H. unfold make_name. apply Forall_app. split; [by apply Forall_take|]. apply Forall_replicate. unfold byte. lia. Qed.

Lemma create_meta fd l s t inh fresh e name pinned :
  txn_meta_inv fd l (mkCfg s t inh fresh) → sr_next_id (w_snapshots t) < 2 ^ 64 - 1 → 0 <= e < 2 ^ 64 → Forall byte name →
  txn_meta_inv fd l (mkCfg s (fst (create_snapshot t e name pinned)) inh fresh).
Proof.
  intros Hm Hid He Hname. pose proof (tm_typed _ _ _ Hm) as Ht. pose proof (tm_store _ _ _ Hm) as Hs.
  pose proof (si_meta _ _ _ _ Hs) as Hmo. pose proof (tm_base _ _ _ Hm) as Hb. cbn [c_txn c_store] in *.
  rewrite <-Hb in Hmo. destruct Hmo as (M1 & M2 & M3 & M4 & M5 & M6 & M7).
  destruct (create_registry_ok (w_snapshots t) (m_txn_id (w_base t)) (default 0 (m_root_records (w_base t))) e name pinned)
    as (Hr & _); [apply Ht|done|].
  pose proof (ts_snaps _ Ht) as (_ & _ & Hn0). cbn [st_snapshots] in Hn0.
  unfold create_snapshot, snap_create in *. cbn [fst] in *. apply meta_snaps; [done|done| |].
  - cbn [sr_snaps]. rewrite Forall_app, Forall_singleton. split; [apply Ht|].
    unfold snap_typed. cbn. rewrite length_make_name. split_and!; try lia; try done; try (by apply make_name_bytes);
      try (destruct pinned; unfold SNAP_PINNED; lia); destruct (m_root_records (w_base t)); cbn in *; lia.
  - cbn [sr_next_id]. rewrite Z.mod_small; lia.
Qed.

Lemma drop_meta fd l s t inh fresh id :
  txn_meta_inv fd l (mkCfg s t inh fresh) → txn_meta_inv fd l (mkCfg s (fst (drop_snapshot t id)) inh fresh).
Proof.
  intros Hm. pose proof (tm_typed _ _ _ Hm) as Ht. cbn [c_txn] in Ht.
  destruct (remove_registry_ok (w_snapshots t) id) as (Hr & _); [apply Ht|].
  unfold drop_snapshot, snap_remove in *. destruct (remove_id id (sr_snaps (w_snapshots t))) as [[x k]|] eqn:E; cbn [fst] in *.
  - apply meta_snaps; [done|done| |apply Ht]. destruct (remove_id_spec _ _ _ _ E) as [_ Hp].
    pose proof (ts_snaps_typed _ Ht) as Hst. cbn [st_snapshots] in Hst. rewrite Hp in Hst. by apply Forall_cons in Hst as [_ ?].
  - apply meta_snaps; [done|apply Ht..].
Qed.

Lemma expire_meta fd l s t inh fresh now :
  txn_meta_inv fd l (mkCfg s t inh fresh) → txn_meta_inv fd l (mkCfg s (fst (expire_snapshots t now)) inh fresh).
Proof.
  intros Hm. pose proof (tm_typed _ _ _ Hm) as Ht. cbn [c_txn] in Ht.
  destruct (expire_registry_ok (w_snapshots t) now) as (Hr & _ & Hk); [apply Ht|].
  unfold expire_snapshots. assert (sr_next_id (fst (snap_expire (w_snapshots t) now)) = sr_next_id (w_snapshots t)) as Hid
    by (unfold snap_expire; by destruct (List.partition _ _)).
  destruct (snap_expire (w_snapshots t) now) as [r dead]. cbn [fst] in *. apply meta_snaps; [done|done| |rewrite Hid; apply Ht].
  apply Forall_forall. intros x Hx. apply Hk in Hx as [Hx _]. pose proof (ts_snaps_typed _ Ht) as Hst.
  rewrite Forall_forall in Hst. by apply Hst.
Qed.

Lemma pages_other l s s' t t' inh fresh :
  w_dirty t' = w_dirty t → w_freelist t' = w_freelist t → w_next_pgno t' = w_next_pgno t → w_scratch t' = w_scratch t →
  w_tail_floor t' = w_tail_floor t → w_txn_id t' = w_txn_id t →
  txn_pages_inv l (mkCfg s t inh fresh) → txn_pages_inv l (mkCfg s' t' inh fresh).
Proof.
  intros E1 E2 E3 E4 E5 E6 [H1 H2 H3 H4 H5 H6 H7]. unfold owners in *. cbn [c_txn c_inh c_fresh] in *.
  split; unfold owners; cbn [c_txn c_inh c_fresh]; by rewrite ?E1, ?E2, ?E3, ?E4, ?E5, ?E6.
Qed.

Lemma meta_store fd l s s' t inh fresh :
  s_pager s' = s_pager s → s_state s' = s_state s →
  txn_meta_inv fd l (mkCfg s t inh fresh) → txn_meta_inv fd l (mkCfg s' t inh fresh).
Proof. intros E1 E2 []. split; cbn [c_store c_txn] in *; rewrite ?E1, ?E2; done. Qed.

Lemma begin_read_at_store s id s' r : begin_read_at s id = Ok (s', r) → s_pager s' = s_pager s ∧ s_state s' = s_state s.
Proof.
  unfold begin_read_at. intros H. apply bind_ok in H as (snap & _ & H). apply bind_ok in H as (es & _ & H).
  apply bind_ok in H as (roots & _ & H). by injection H as <- _.
Qed.

Lemma release_store s r : s_pager (release_reader s r) = s_pager s ∧ s_state (release_reader s r) = s_state s.
Proof. unfold release_reader. by destruct (s_readers s !! r). Qed.

(** The page half of each step. *)
Lemma step_pages fd l c c' : txn_step c c' → txn_inv fd l c → txn_pages_inv l c'.
Proof.
  intros Hstep [Hp Hm].
  assert (0 <= w_txn_id (c_txn c) < 2 ^ 64) as Ht.
  { destruct (tm_txn _ _ _ Hm) as [E ?]. pose proof (si_meta _ _ _ _ (tm_store _ _ _ Hm)) as (? & _).
    rewrite (tm_base _ _ _ Hm) in E. lia. }
  destruct Hstep; cbn [c_txn] in Ht.
  - by eapply alloc_keeps.
  - by eapply free_keeps.
  - unfold txn_write in *. destruct (_ <=? _); [done|]. simplify_eq. by apply insert_keeps.
  - match goal with H : txn_cow _ _ _ = _ |- _ => apply cow_inv in H as (content & t1 & Hr & Ha & ->) end.
    rewrite free_next in *. cbn [with_pages w_next_pgno] in *.
    pose proof (alloc_same_meta _ _ _ _ Ha) as (d & f & n & sc & Hsm).
    eapply (free_keeps l s _ inh (q :: fresh) inh' (q :: fresh') p); [| | |done].
    + apply insert_keeps; [|by left]. by eapply alloc_keeps.
    + by rewrite Hsm.
    + rewrite <-(Permutation_middle inh), <-(Permutation_middle inh'). rewrite (Permutation_swap q p). by f_equiv.
  - revert Hp. by apply pages_other.
  - unfold txn_remove_root. destruct (root_remove _ _). revert Hp. by apply pages_other.
  - unfold create_snapshot, snap_create. revert Hp. by apply pages_other.
  - unfold drop_snapshot. destruct (snap_remove _ _). revert Hp. by apply pages_other.
  - unfold expire_snapshots. destruct (snap_expire _ _). revert Hp. by apply pages_other.
  - unfold set_catalog. case_bool_decide; [done|]. revert Hp. by apply pages_other.
  - revert Hp. by apply pages_other.
  - revert Hp. by apply pages_other.
  - revert Hp. by apply pages_other.
Qed.

Lemma step_meta fd l c c' : txn_step c c' → txn_meta_inv fd l c → txn_meta_inv fd l c'.
Proof.
  intros Hstep Hm. destruct Hstep.
  - eapply meta_pages; [by eapply alloc_same_meta|exact Hm].
  - eapply meta_pages; [apply free_same_meta|exact Hm].
  - unfold txn_write in *. destruct (_ <=? _); [done|]. simplify_eq. eapply meta_pages; [|exact Hm]. by eexists _, _, _, _.
  - match goal with H : txn_cow _ _ _ = _ |- _ => apply cow_inv in H as (content & t1 & Hr & Ha & ->) end.
    eapply meta_pages; [|exact Hm]. eapply same_meta_trans; [by eapply alloc_same_meta|].
    eapply same_meta_trans; [|apply free_same_meta]. by eexists _, _, _, _.
  - pose proof (tm_typed _ _ _ Hm) as Ht. cbn [c_txn] in Ht. apply meta_roots; [done|apply root_set_ok, Ht|].
    apply Forall_forall. intros x [->|Hx]%root_set_mem; [done|]. pose proof (ts_roots_typed _ Ht) as Hr.
    rewrite Forall_forall in Hr. by apply Hr.
  - pose proof (tm_typed _ _ _ Hm) as Ht. cbn [c_txn] in Ht.
    destruct (root_remove_spec (w_roots t) k (ts_roots _ Ht)) as (Hk & _ & _ & Hin).
    unfold txn_remove_root. destruct (root_remove (w_roots t) k) as [roots o]. cbn [fst] in *. apply meta_roots; [done|done|].
    apply Forall_forall. intros x Hx%Hin. pose proof (ts_roots_typed _ Ht) as Hr. rewrite Forall_forall in Hr. by apply Hr.
  - by apply create_meta.
  - by apply drop_meta.
  - by apply expire_meta.
  - unfold set_catalog. case_bool_decide; [done|]. destruct Hm as [M1 M2 M3 M4 M5 [T1 T2 T3 T4 T5 T6] M7 M8 M9].
    by split; [..|split| | |].
  - eapply meta_store; [| |exact Hm]; done.
  - match goal with H : begin_read_at _ _ = _ |- _ => apply begin_read_at_store in H as [E1 E2] end.
    eapply meta_store; [exact E1|exact E2|exact Hm].
  - destruct (release_store s r) as [E1 E2]. eapply meta_store; [exact E1|exact E2|exact Hm].
Qed.

Lemma step_inv fd l c c' : txn_step c c' → txn_inv fd l c → txn_inv fd l c'.
Proof. intros Hs Hi. split; [by eapply step_pages|by eapply step_meta; [|apply Hi]]. Qed.

Lemma steps_inv fd l c c' : rtc txn_step c c' → txn_inv fd l c → txn_inv fd l c'.
Proof. induction 1; [done|]. intros. by eapply IHrtc, step_inv. Qed.

(** A transaction starts with the file's own pages accounted for. *)
Definition data_ok (s : Store P) (l : Layout) (fd : Freelist) (inh : list Z) : Prop :=
  NoDup (ly_all l ++ inh ++ (fst <$> stamped fd)) ∧ Forall (λ p, 2 <= p < m_page_count (st_meta (s_state s))) inh.

Lemma begin_inv s l fd inh :
  store_inv (s_pager s) (s_state s) l fd → data_ok s l fd inh → page_count (s_pager s) <= 2 ^ 32 - 1 →
  m_txn_id (st_meta (s_state s)) < 2 ^ 64 - 1 →
  txn_inv fd l (mkCfg s (begin_write s) inh []).
Proof.
  intros Hinv [Hnd Hr] Hc Ht. pose proof (si_typed _ _ _ _ Hinv) as Hty. pose proof (si_meta _ _ _ _ Hinv) as (Hm & _).
  assert (Forall run_ok (st_freelist (s_state s)) ∧ stamped (st_freelist (s_state s)) ≡ₚ stamped fd) as [Hru Hst].
  { pose proof (si_runs _ _ _ _ Hinv). destruct (si_free _ _ _ _ Hinv) as [-> | ->]; [done|by apply compact_spec]. }
  split.
  - split; unfold owners; cbn [c_txn c_inh c_fresh begin_write w_freelist w_scratch w_next_pgno w_tail_floor w_dirty w_txn_id].
    + done.
    + by rewrite Hst.
    + rewrite Hst. pose proof (si_range _ _ _ _ Hinv) as Hg. pose proof (si_count _ _ _ _ Hinv) as Hk.
      apply Forall_app in Hg as [G1 G2]. rewrite !Forall_app.
      split_and!; try done; (eapply Forall_impl; [eassumption|simpl; lia]).
    + pose proof (si_count _ _ _ _ Hinv). lia.
    + constructor.
    + constructor.
    + by intros p []%not_elem_of_nil.
  - split; cbn [c_txn c_store begin_write w_base w_txn_id w_horizon w_tail_floor w_roots w_snapshots w_catalog w_dirty_chains]; try done.
    + lia.
    + unfold horizon_of. lia.
    + destruct Hty. by split.
Qed.
End steps.

(** * Committing what the steps built *)
Section committing.
Context {X : Extern} {L : ExternLaws X} {P : Type} `{!Pager P, !PagerMut P, !PagerLaws P}.
Implicit Types (s : Store P) (c : Cfg P).

(** What the freelist and the tail look like once the scratch has been given back. *)
Record absorbed (l : Layout) (c : Cfg P) (f : Freelist) (next : Z) : Prop := {
  ab_runs : Forall run_ok f;
  ab_nodup : NoDup (ly_all l ++ (c_inh c ++ c_fresh c) ++ (fst <$> stamped f));
  ab_range : Forall (λ p, 2 <= p < next) (ly_all l ++ (c_inh c ++ c_fresh c) ++ (fst <$> stamped f));
  ab_next : w_tail_floor (c_txn c) <= next <= w_next_pgno (c_txn c);
  ab_old : ∀ x, x ∈ stamped (w_freelist (c_txn c)) → x ∈ stamped f;
  ab_stamps : ∀ p u, (p, u) ∈ stamped f → (p, u) ∈ stamped (w_freelist (c_txn c)) ∨
                (u = w_txn_id (c_txn c) ∧ w_tail_floor (c_txn c) <= p)
}.

Lemma absorb_ok l c f next :
  txn_pages_inv l c → 0 <= w_txn_id (c_txn c) < 2 ^ 64 →
  absorb_scratch (w_freelist (c_txn c)) (w_scratch (c_txn c)) (w_next_pgno (c_txn c)) (w_txn_id (c_txn c)) = (f, next) →
  absorbed l c f next.
Proof.
  intros [Hr Hn Hg Hx Hsc Hso Hd] Ht H. unfold owners in *.
  assert (Forall (λ p, 0 <= p < w_next_pgno (c_txn c)) (w_scratch (c_txn c))) as Hs.
  { rewrite !Forall_app in Hg. destruct Hg as (_ & _ & _ & Hg & _). eapply Forall_impl; [exact Hg|]. simpl. lia. }
  destruct (absorb_scratch_spec _ _ _ _ _ _ Hr Ht Hs ltac:(lia) H) as (Hle & Hru & ps & Hasc & Hst & Hmem & Hlow).
  assert (w_tail_floor (c_txn c) <= next) as Hfl.
  { destruct (decide (next = w_next_pgno (c_txn c))) as [->|]; [lia|]. rewrite Forall_forall in Hsc. apply Hsc, Hmem. right. lia. }
  assert (Permutation (fst <$> stamped f) ((fst <$> stamped (w_freelist (c_txn c))) ++ ps)) as Hf
    by (by rewrite Hst, fmap_app, fst_stamps).
  set (own := ly_all l ++ (c_inh c ++ c_fresh c) ++ (fst <$> stamped (w_freelist (c_txn c)))).
  assert (NoDup (own ++ w_scratch (c_txn c))) as Hn'.
  { revert Hn. apply nodup_perm. unfold own. solve_Permutation. }
  assert (Forall (λ p, 2 <= p < w_next_pgno (c_txn c)) (own ++ w_scratch (c_txn c))) as Hg'.
  { revert Hg. apply forall_perm. unfold own. solve_Permutation. }
  apply NoDup_app in Hn' as (Hno & Hdis & _). apply Forall_app in Hg' as [Hgo Hgs].
  assert (ly_all l ++ (c_inh c ++ c_fresh c) ++ (fst <$> stamped f) ≡ₚ own ++ ps) as Hperm.
  { rewrite Hf. unfold own. solve_Permutation. }
  split.
  - done.
  - rewrite Hperm. apply NoDup_app. split_and!; [done| |by apply ascending_NoDup].
    intros p Hp Hps. apply (Hdis p Hp), Hmem. by left.
  - rewrite Hperm. apply Forall_app. split.
    + apply Forall_forall. intros p Hp. rewrite Forall_forall in Hgo. specialize (Hgo p Hp). simpl in Hgo.
      destruct (Z.lt_ge_cases p next); [lia|]. destruct (Hdis p Hp). apply Hmem. right. lia.
    + apply Forall_forall. intros p Hp. rewrite Forall_forall in Hlow, Hgs. specialize (Hlow p Hp). simpl in Hlow.
      assert (p ∈ w_scratch (c_txn c)) as Hin by (apply Hmem; by left). specialize (Hgs p Hin). simpl in Hgs. lia.
  - lia.
  - intros x Hin. rewrite Hst. apply elem_of_app. by left.
  - intros p u Hin. rewrite Hst in Hin. apply elem_of_app in Hin as [?|Hin]; [by left|].
    apply list_elem_of_fmap in Hin as (q & [= -> ->] & Hq). right. split; [done|].
    rewrite Forall_forall in Hsc. apply Hsc, Hmem. by left.
Qed.

Lemma stamp_unique (f : Freelist) p u u' : NoDup (fst <$> stamped f) → (p, u) ∈ stamped f → (p, u') ∈ stamped f → u = u'.
Proof.
  generalize (stamped f). induction l as [|[q v] l IH]; csimpl; [by intros _ ?%not_elem_of_nil|].
  rewrite NoDup_cons, !elem_of_cons. intros [Hq Hnd] [H1|H1] [H2|H2]; simplify_eq; [done| | |by apply IH];
    destruct Hq; [by apply (list_elem_of_fmap_2 fst) in H2|by apply (list_elem_of_fmap_2 fst) in H1].
Qed.

(** The plan of a commit has the pages it must not touch. *)
Lemma absorbed_plan l c f next Q h :
  txn_pages_inv l c → absorbed l c f next → next <= 2 ^ 32 - 1 → h < w_txn_id (c_txn c) →
  Forall (λ p, 2 <= p < next) Q → (∀ p u, (p, u) ∈ stamped f → u <= h → p ∉ Q) →
  plan_inv ((fst <$> w_dirty (c_txn c)) ++ ly_all l ++ Q) h (ly_all l ++ c_inh c ++ c_fresh c) f next [].
Proof.
  intros [_ _ _ Hx _ _ Hd] [Ar An Ag Ax Ao As] Hmax Hh HQ HQf.
  assert (NoDup (ly_all l ++ (c_inh c ++ c_fresh c) ++ (fst <$> stamped f))) as An' by done.
  assert (∀ p, p ∈ fst <$> w_dirty (c_txn c) → p ∈ c_fresh c ∨ (p, w_txn_id (c_txn c)) ∈ stamped f) as Hd'.
  { intros p [Hp|Hp]%Hd; [by left|right; by apply Ao]. }
  split; try done.
  - by rewrite <-app_assoc.
  - by rewrite <-app_assoc.
  - rewrite !Forall_app in *. destruct Ag as (G1 & (G2 & G3) & G4). split_and!; try done.
    apply Forall_forall. intros p [Hp|Hp]%Hd'.
    + rewrite Forall_forall in G3. by apply G3.
    + rewrite Forall_forall in G4. apply (list_elem_of_fmap_2 fst) in Hp. by apply G4.
  - by intros p _ ?%not_elem_of_nil.
  - intros p u Hin Hu. apply NoDup_app in An' as (_ & D1 & An'). apply NoDup_app in An' as (_ & D2 & An').
    assert (p ∈ fst <$> stamped f) as Hp by (by apply (list_elem_of_fmap_2 fst _ (p, u))).
    rewrite !elem_of_app. intros [[Hf|Hf]%Hd'|[Hl|Hq]].
    + apply (D2 p); [apply elem_of_app; by right|done].
    + pose proof (stamp_unique _ _ _ _ An' Hin Hf). lia.
    + apply (D1 p Hl). apply elem_of_app. by right.
    + by apply (HQf p u).
  - lia.
Qed.

Lemma txn_id_bounds fd l c : txn_meta_inv fd l c → 0 <= m_txn_id (w_base (c_txn c)) < w_txn_id (c_txn c) ∧ w_txn_id (c_txn c) < 2 ^ 64.
Proof.
  intros Hm. destruct (tm_txn _ _ _ Hm) as [E ?]. pose proof (si_meta _ _ _ _ (tm_store _ _ _ Hm)) as (? & _).
  rewrite (tm_base _ _ _ Hm) in *. lia.
Qed.

(** What the steps built is what a commit asks for. *)
Lemma commit_ready fd l c f next :
  txn_inv fd l c →
  absorb_scratch (w_freelist (c_txn c)) (w_scratch (c_txn c)) (w_next_pgno (c_txn c)) (w_txn_id (c_txn c)) = (f, next) →
  absorbed l c f next ∧
  commit_pre (s_pager (c_store c)) (s_state (c_store c)) l fd (c_inh c ++ c_fresh c) (w_txn_id (c_txn c)) (w_dirty (c_txn c))
    f (w_roots (c_txn c)) (w_snapshots (c_txn c)) (w_catalog (c_txn c)) (w_dirty_chains (c_txn c)) next.
Proof.
  intros [Hp Hm] Ha. pose proof (txn_id_bounds _ _ _ Hm) as Hb. apply (absorb_ok l) in Ha; [|done|lia]. split; [done|].
  pose proof (ab_next _ _ _ _ Ha) as Hnx. pose proof (ti_next _ _ Hp) as Hx. rewrite (tm_base _ _ _ Hm) in Hb.
  pose proof (absorbed_plan l c f next [] (m_txn_id (st_meta (s_state (c_store c)))) Hp Ha ltac:(lia) ltac:(lia) ltac:(constructor)
    ltac:(by intros ? ? _ _ ?%not_elem_of_nil)) as Hpl. rewrite app_nil_r in Hpl.
  destruct Hm as [M1 M2 M3 M4 M5 [T1 T2 T3 T4 T5 T6] M7 M8 M9]. split; try done.
  - rewrite <-M2. lia.
  - apply NoDup_app. split_and!; [apply ascending_NoDup, Hp| |].
    + intros p Hd Hl. destruct Hp as [_ Hn _ _ _ _ Hd']. unfold owners in Hn. apply NoDup_app in Hn as (_ & Hn & _).
      apply (Hn p Hl). rewrite !elem_of_app. apply Hd' in Hd as [?|Hin]; [tauto|].
      apply (list_elem_of_fmap_2 fst) in Hin. tauto.
    + pose proof (ab_nodup _ _ _ _ Ha) as An. by apply NoDup_app in An as (? & _ & _).
  - lia.
  - intros E. by rewrite M8.
Qed.

(** A commit publishes what the transaction built and leaves a sound file behind. *)
Lemma commit_inv fd l c s' n :
  txn_inv fd l c → txn_commit (c_store c) (c_txn c) = Ok (s', n) → m_page_count (st_meta (s_state s')) <= 2 ^ 32 - 1 →
  n = w_txn_id (c_txn c) ∧ s_readers s' = s_readers (c_store c) ∧
  st_roots (s_state s') = w_roots (c_txn c) ∧ st_snapshots (s_state s') = w_snapshots (c_txn c) ∧
  st_catalog (s_state s') = w_catalog (c_txn c) ∧ m_txn_id (st_meta (s_state s')) = n ∧
  (∀ no pg, (no, pg) ∈ w_dirty (c_txn c) → pager_read (s_pager s') no = Ok pg) ∧
  ∃ l', store_inv (s_pager s') (s_state s') l' (st_freelist (s_state s')) ∧
        data_ok s' l' (st_freelist (s_state s')) (c_inh c ++ c_fresh c).
Proof.
  intros Hi H Hmax. unfold txn_commit in H.
  destruct (absorb_scratch _ _ _ _) as [f next] eqn:Ha. destruct (commit_ready _ _ _ _ _ Hi Ha) as [_ Hpre].
  rewrite (tm_base _ _ _ (proj2 Hi)) in H.
  destruct (commit_txn_ok _ _ _ _ _ _ _ _ _ _ _ _ _ _ Hpre H Hmax) as (-> & C2 & C3 & C4 & C5 & C6 & C7 & l' & C8 & C9 & C10).
  split_and!; try done. exists l'. by split; [|split].
Qed.

(** * What a reader sees does not change under it

    [Q] are pages a reader of transaction [r] may look at: below the tail, not taken by the writer,
    and freed, if at all, after [r]. *)
Record shielded (r : Z) (Q : list Z) (c : Cfg P) : Prop := {
  sh_floor : Forall (λ p, 2 <= p < w_tail_floor (c_txn c)) Q;
  sh_fresh : ∀ p, p ∈ Q → p ∉ c_fresh c ∧ p ∉ fst <$> w_dirty (c_txn c);
  sh_stamps : ∀ p u, (p, u) ∈ stamped (w_freelist (c_txn c)) → p ∈ Q → r < u;
  sh_horizon : w_horizon (c_txn c) <= r < w_txn_id (c_txn c)
}.

Lemma shield_alloc l r Q s t inh fresh p t' :
  txn_pages_inv l (mkCfg s t inh fresh) → shielded r Q (mkCfg s t inh fresh) →
  txn_alloc s t = Ok (p, t') → w_next_pgno t' <= 2 ^ 32 - 1 → shielded r Q (mkCfg s t' inh (p :: fresh)).
Proof.
  intros [Hr _ _ Hx Hsc _ _] [Sf Sn Ss Sh] H Hmax. cbn [c_txn c_fresh] in *. rewrite Forall_forall in Sf.
  destruct (alloc_cases s t p t' Hr ltac:(lia) Hmax H) as [(sc & Hs & ->)|[(f & u & Hst & Hu & Hf & Hs & ->)|(-> & Hs & ->)]];
    split; cbn [c_txn c_fresh with_pages w_tail_floor w_dirty w_freelist w_horizon w_txn_id]; try done;
    try (by apply Forall_forall).
  - intros q Hq. rewrite elem_of_cons, dirty_remove_keys. destruct (Sn q Hq). split; [|tauto]. intros [->|?]; [|done].
    rewrite Hs in Hsc. apply Forall_cons in Hsc as [? _]. specialize (Sf p Hq). simpl in Sf. lia.
  - intros q Hq. rewrite elem_of_cons. destruct (Sn q Hq). split; [|done]. intros [->|?]; [|done].
    assert (r < u); [|lia]. apply (Ss p u); [rewrite Hst; by left|done].
  - intros q v Hin. apply Ss. rewrite Hst. by right.
  - intros q Hq. rewrite elem_of_cons. destruct (Sn q Hq). split; [|done]. intros [->|?]; [|done].
    specialize (Sf _ Hq). simpl in Sf. lia.
Qed.

Lemma shield_free l r Q s t inh fresh inh' fresh' p :
  txn_pages_inv l (mkCfg s t inh fresh) → shielded r Q (mkCfg s t inh fresh) → 0 <= w_txn_id t < 2 ^ 64 →
  inh ++ fresh ≡ₚ p :: inh' ++ fresh' → fresh' ⊆+ fresh → shielded r Q (mkCfg s (txn_free t p) inh' fresh').
Proof.
  intros [Hr _ Hg Hx _ _ _] [Sf Sn Ss Sh] Ht Hp Hsub. cbn [c_txn c_fresh] in *.
  assert (∀ q, q ∈ fresh' → q ∈ fresh) as Hin by (intros q ?; by eapply elem_of_submseteq).
  assert (0 <= p < w_next_pgno t) as Hpr.
  { rewrite Forall_forall in Hg. assert (p ∈ inh ++ fresh) as Hi by (rewrite Hp; left).
    assert (2 <= p < w_next_pgno t); [|lia]. apply Hg. unfold owners. cbn. rewrite !elem_of_app. apply elem_of_app in Hi. tauto. }
  unfold txn_free. destruct (Z.leb_spec (w_tail_floor t) p);
    split; cbn [c_txn c_fresh with_pages w_tail_floor w_dirty w_freelist w_horizon w_txn_id]; try done.
  - intros q Hq. rewrite dirty_remove_keys. destruct (Sn q Hq). split; [by intros ?%Hin|tauto].
  - intros q Hq. destruct (Sn q Hq). split; [by intros ?%Hin|done].
  - destruct (stamped_pushes (w_freelist t) [p] (w_txn_id t) Hr Ht) as [_ Hst'];
      [constructor; [lia|constructor]|]. cbn [foldl] in Hst'. csimpl in Hst'. rewrite Hst'.
    intros q u [Hq|Hq]%elem_of_app; [by apply Ss|]. apply list_elem_of_singleton in Hq as [= -> ->]. lia.
Qed.

Lemma shield_insert r Q s t inh fresh p page :
  shielded r Q (mkCfg s t inh fresh) → p ∈ fresh →
  shielded r Q (mkCfg s (with_pages t (dirty_insert (w_dirty t) p page) (w_freelist t) (w_next_pgno t) (w_scratch t)) inh fresh).
Proof.
  intros [Sf Sn Ss Sh] Hp. split; try done. cbn [c_txn c_fresh with_pages w_dirty] in *. intros q Hq.
  rewrite dirty_insert_keys. destruct (Sn q Hq). split; [done|]. intros [->|?]; done.
Qed.

Lemma shield_other r Q s s' t t' inh fresh :
  w_dirty t' = w_dirty t → w_freelist t' = w_freelist t → w_tail_floor t' = w_tail_floor t → w_txn_id t' = w_txn_id t →
  w_horizon t' = w_horizon t → shielded r Q (mkCfg s t inh fresh) → shielded r Q (mkCfg s' t' inh fresh).
Proof. intros E1 E2 E3 E4 E5 []. split; cbn [c_txn c_fresh] in *; rewrite ?E1, ?E2, ?E3, ?E4, ?E5; done. Qed.

Lemma shield_step fd l r Q c c' : txn_step c c' → txn_inv fd l c → shielded r Q c → shielded r Q c'.
Proof.
  intros Hstep [Hp Hm] Hsh. pose proof (txn_id_bounds _ _ _ Hm) as Hb. destruct Hstep; cbn [c_txn] in Hb.
  - by eapply shield_alloc.
  - eapply shield_free; try done. lia.
  - unfold txn_write in *. destruct (_ <=? _); [done|]. simplify_eq. by apply shield_insert.
  - match goal with H : txn_cow _ _ _ = _ |- _ => apply cow_inv in H as (content & t1 & Hr & Ha & ->) end.
    rewrite free_next in *. cbn [with_pages w_next_pgno] in *.
    pose proof (alloc_same_meta _ _ _ _ Ha) as (d & f & n & sc & Hsm).
    eapply (shield_free l r Q s _ inh (q :: fresh) inh' (q :: fresh') p).
    + apply insert_keeps; [|by left]. by eapply alloc_keeps.
    + apply shield_insert; [|by left]. by eapply shield_alloc.
    + rewrite Hsm. cbn. lia.
    + rewrite <-(Permutation_middle inh), <-(Permutation_middle inh'). rewrite (Permutation_swap q p). by f_equiv.
    + by constructor.
  - revert Hsh. by apply shield_other.
  - unfold txn_remove_root. destruct (root_remove _ _). revert Hsh. by apply shield_other.
  - unfold create_snapshot, snap_create. revert Hsh. by apply shield_other.
  - unfold drop_snapshot. destruct (snap_remove _ _). revert Hsh. by apply shield_other.
  - unfold expire_snapshots. destruct (snap_expire _ _). revert Hsh. by apply shield_other.
  - unfold set_catalog. case_bool_decide; [done|]. revert Hsh. by apply shield_other.
  - revert Hsh. by apply shield_other.
  - revert Hsh. by apply shield_other.
  - revert Hsh. by apply shield_other.
Qed.

Lemma step_pager c c' : txn_step c c' → s_pager (c_store c') = s_pager (c_store c).
Proof.
  destruct 1; cbn [c_store]; try done.
  - by match goal with H : begin_read_at _ _ = _ |- _ => apply begin_read_at_store in H as [? _] end.
  - by apply release_store.
Qed.

Lemma shield_steps fd l r Q c c' :
  rtc txn_step c c' → txn_inv fd l c → shielded r Q c →
  txn_inv fd l c' ∧ shielded r Q c' ∧ s_pager (c_store c') = s_pager (c_store c).
Proof.
  induction 1 as [|c c1 c' Hs _ IH]; intros Hi Hsh; [done|].
  destruct IH as (H1 & H2 & H3); [by eapply step_inv|by eapply shield_step|]. split_and!; try done.
  rewrite H3. by apply step_pager.
Qed.

Lemma horizon_reader s snaps b r n : s_readers s !! r = Some n → horizon_of s snaps b <= r.
Proof.
  intros H. unfold horizon_of, oldest_reader.
  assert (r ∈ fst <$> map_to_list (s_readers s)) as Hr.
  { apply (list_elem_of_fmap_2 fst _ (r, n)). by apply elem_of_map_to_list. }
  destruct (minimum _) as [m|] eqn:Hmin.
  - apply minimum_spec in Hmin as [_ Hmin]. specialize (Hmin r Hr). cbn. lia.
  - destruct (fst <$> map_to_list (s_readers s)); [by apply not_elem_of_nil in Hr|done].
Qed.

Lemma horizon_base s snaps b : horizon_of s snaps b <= b.
Proof. unfold horizon_of. lia. Qed.

(** A commit writes no page that a reader at or above its horizon may look at. *)
Lemma commit_avoids fd l r Q c f next pl :
  txn_inv fd l c → shielded r Q c →
  horizon_of (c_store c) (w_snapshots (c_txn c)) (m_txn_id (w_base (c_txn c))) <= r →
  absorb_scratch (w_freelist (c_txn c)) (w_scratch (c_txn c)) (w_next_pgno (c_txn c)) (w_txn_id (c_txn c)) = (f, next) →
  plan_commit (s_pager (c_store c)) (horizon_of (c_store c) (w_snapshots (c_txn c)) (m_txn_id (w_base (c_txn c))))
    (w_txn_id (c_txn c)) (w_base (c_txn c)) (w_dirty (c_txn c)) f (w_roots (c_txn c)) (w_snapshots (c_txn c)) (w_catalog (c_txn c))
    (w_dirty_chains (c_txn c)) next = Ok pl →
  pl_next pl <= 2 ^ 32 - 1 → ∀ p, p ∈ Q → p ∉ fst <$> pl_out pl.
Proof.
  intros Hi [Sf Sn Ss Sh] Hh Ha Hpl Hmax p Hp. pose proof (txn_id_bounds _ _ _ (proj2 Hi)) as Hb.
  destruct (commit_ready _ _ _ _ _ Hi Ha) as [Hab Hpre].
  pose proof (ab_next _ _ _ _ Hab) as Hnx. pose proof (ti_next _ _ (proj1 Hi)) as Hx.
  pose proof (tm_base _ _ _ (proj2 Hi)) as Hbase.
  rewrite Forall_forall in Sf. pose proof (Sf p Hp) as Hpr. simpl in Hpr.
  rewrite Hbase in Hpl, Hh, Hb. set (h := horizon_of _ _ _) in *.
  assert (h <= m_txn_id (st_meta (s_state (c_store c)))) as Hhb by (unfold h, horizon_of; lia).
  assert (plan_inv ((fst <$> w_dirty (c_txn c)) ++ ly_all l ++ Q) h (ly_all l ++ c_inh c ++ c_fresh c) f next []) as Hplan.
  { apply absorbed_plan; [apply Hi|done|lia|lia| |].
    - apply Forall_forall. intros q Hq. specialize (Sf q Hq). simpl in Sf. lia.
    - intros q u Hin Hu Hq. destruct (ab_stamps _ _ _ _ Hab _ _ Hin) as [Hold|[_ Hhi]].
      + specialize (Ss q u Hold Hq). lia.
      + specialize (Sf q Hq). simpl in Sf. lia. }
  eapply (plan_commit_frame _ _ _ _ _ _ h (w_txn_id (c_txn c)) _ _ _ _ _ _ _ _ (cp_inv _ _ _ _ _ _ _ _ _ _ _ _ _ Hpre) Hplan);
    [lia|lia|apply (cp_typed _ _ _ _ _ _ _ _ _ _ _ _ _ Hpre)|exact Hpl|done|rewrite !elem_of_app; tauto|by apply Sn].
Qed.

(** A successful commit, taken apart. *)
Lemma commit_plan fd l c s' n :
  txn_inv fd l c → txn_commit (c_store c) (c_txn c) = Ok (s', n) → m_page_count (st_meta (s_state s')) <= 2 ^ 32 - 1 →
  ∃ f next pl l' pager',
    let h := horizon_of (c_store c) (w_snapshots (c_txn c)) (m_txn_id (w_base (c_txn c))) in
    absorb_scratch (w_freelist (c_txn c)) (w_scratch (c_txn c)) (w_next_pgno (c_txn c)) (w_txn_id (c_txn c)) = (f, next) ∧
    plan_commit (s_pager (c_store c)) h (w_txn_id (c_txn c)) (w_base (c_txn c)) (w_dirty (c_txn c)) f (w_roots (c_txn c))
      (w_snapshots (c_txn c)) (w_catalog (c_txn c)) (w_dirty_chains (c_txn c)) next = Ok pl ∧
    pl_next pl <= 2 ^ 32 - 1 ∧
    plan_post (s_pager (c_store c)) l (c_inh c ++ c_fresh c) (m_txn_id (st_meta (s_state (c_store c))) + 1) (w_roots (c_txn c))
      (w_snapshots (c_txn c)) (w_catalog (c_txn c)) next pl l' ∧
    write_and_flip (s_pager (c_store c)) (s_durability (c_store c)) (pl_out pl) (pl_next pl) (pl_meta pl) = Ok pager' ∧
    s' = mkStore pager' (mkState (pl_meta pl) (w_roots (c_txn c)) (w_snapshots (c_txn c)) (w_catalog (c_txn c)) (pl_freelist pl))
           (s_readers (c_store c)) (s_durability (c_store c)) (pl_tally pl).
Proof.
  intros Hi H Hmax. unfold txn_commit in H. pose proof (txn_id_bounds _ _ _ (proj2 Hi)) as Hb.
  destruct (absorb_scratch _ _ _ _) as [f next] eqn:Ha. destruct (commit_ready _ _ _ _ _ Hi Ha) as [_ Hpre].
  pose proof (tm_base _ _ _ (proj2 Hi)) as Hbase. pose proof (tm_txn _ _ _ (proj2 Hi)) as [Htx _].
  unfold commit_txn in H. apply bind_ok in H as (pl & Hpl & H). apply bind_ok in H as (pager' & Hf & H).
  injection H as <- <-. cbn [s_state st_meta] in Hmax.
  destruct (plan_commit_shape _ _ _ _ _ _ _ _ _ _ _ _ Hpl) as (Hmc & _). rewrite <-Hmc in Hmax.
  pose proof Hpl as Hpl'. rewrite Hbase in Hpl'.
  destruct (plan_commit_ok _ _ _ _ _ _ _ _ _ _ _ _ _ _ _ Hpre (horizon_base _ _ _) Hpl' Hmax) as [l' Hpp].
  exists f, next, pl, l', pager'. cbv zeta. split_and!; try done.
  - by rewrite <-Hbase, <-Htx.
  - f_equal. f_equal. destruct (dc_catalog _) eqn:Hc; [done|]. symmetry. by apply (tm_kept_cat _ _ _ (proj2 Hi)).
Qed.

Lemma commit_shield fd l r Q c s' n :
  txn_inv fd l c → shielded r Q c →
  horizon_of (c_store c) (w_snapshots (c_txn c)) (m_txn_id (w_base (c_txn c))) <= r →
  txn_commit (c_store c) (c_txn c) = Ok (s', n) → m_page_count (st_meta (s_state s')) <= 2 ^ 32 - 1 →
  ∀ p, p ∈ Q → pager_read (s_pager s') p = pager_read (s_pager (c_store c)) p.
Proof.
  intros Hi Hsh Hh H Hmax p Hp.
  destruct (commit_plan _ _ _ _ _ Hi H Hmax) as (f & next & pl & l' & pager' & Ha & Hpl & Hnx & Hpp & Hf & ->).
  pose proof (commit_avoids _ _ _ _ _ _ _ _ Hi Hsh Hh Ha Hpl Hnx p Hp) as Hout.
  pose proof (sh_floor _ _ _ Hsh) as Sf. rewrite Forall_forall in Sf. specialize (Sf p Hp). simpl in Sf.
  rewrite (tm_floor _ _ _ (proj2 Hi)) in Sf. pose proof (slot_bound (pl_meta pl)) as Hsb.
  pose proof (pp_range_out _ _ _ _ _ _ _ _ _ _ Hpp) as Hro. rewrite Forall_forall in Hro.
  destruct (write_and_flip_reads _ _ _ _ _ _ Hf (pp_nodup_out _ _ _ _ _ _ _ _ _ _ Hpp)) as (page & _ & _ & _ & Hoth & _).
  { intros Hin. specialize (Hro _ Hin). simpl in Hro. lia. }
  apply Hoth; [lia|done|lia].
Qed.

(** The data of the base is shielded from the transaction that starts on it. *)
Lemma begin_shield s l fd inh :
  store_inv (s_pager s) (s_state s) l fd → data_ok s l fd inh →
  shielded (m_txn_id (st_meta (s_state s))) inh (mkCfg s (begin_write s) inh []).
Proof.
  intros Hs [Hn Hr]. pose proof (si_count _ _ _ _ Hs) as Hc. split; cbn.
  - eapply Forall_impl; [exact Hr|]. intros p Hp. simpl in Hp. lia.
  - intros p _. split; apply not_elem_of_nil.
  - intros p u Hin Hp. exfalso. apply NoDup_app in Hn as (_ & _ & Hn). apply NoDup_app in Hn as (_ & Hn & _).
    apply (Hn p Hp). destruct (si_free _ _ _ _ Hs) as [E|E]; rewrite E in Hin.
    + by apply (list_elem_of_fmap_2 fst) in Hin.
    + pose proof (proj2 (compact_spec fd (si_runs _ _ _ _ Hs))) as Hp'. rewrite Hp' in Hin.
      by apply (list_elem_of_fmap_2 fst) in Hin.
  - unfold horizon_of. lia.
Qed.

Lemma step_durability c c' : txn_step c c' → s_durability (c_store c') = s_durability (c_store c).
Proof.
  destruct 1; cbn [c_store]; try done.
  - match goal with H : begin_read_at _ _ = _ |- _ => unfold begin_read_at in H; inv_ok end. simplify_eq. done.
  - unfold release_reader. by destruct (_ !! _).
Qed.
Lemma steps_state c c' : rtc txn_step c c' → s_state (c_store c') = s_state (c_store c).
Proof.
  induction 1 as [|??? Hs _ IH]; [done|]. rewrite IH. destruct Hs; cbn [c_store]; try done.
  - by match goal with H : begin_read_at _ _ = _ |- _ => apply begin_read_at_store in H as [_ ?] end.
  - by apply release_store.
Qed.

Lemma steps_durability c c' : rtc txn_step c c' → s_durability (c_store c') = s_durability (c_store c).
Proof. induction 1 as [|??? Hs _ IH]; [done|]. rewrite IH. by apply step_durability. Qed.
End committing.
