(* ===== verification/Durable.v ===== *)
(** A whole write transaction and the machine it runs on: what a crash leaves, what a reader sees,
    what recovery finds (the promises of crates/big-pager/src/lib.rs and txn.rs taken together).

    Everything here composes: [Txn] has the steps of a transaction, [Store] the commit, [Crash] the
    disk. *)
From S2P Require Import Prelude Bits Page Sample Chain Meta Freelist Snapshot Roots Pager Store Crash SampleStore Txn.

(** The state a file is in between transactions, with its data pages accounted for. *)
Record quiet {X : Extern} {P : Type} `{!Pager P} (s : Store P) (l : Layout) (fd : Freelist) (inh : list Z) : Prop := {
  qu_inv : store_inv (s_pager s) (s_state s) l fd;
  qu_data : data_ok s l fd inh;
  qu_count : page_count (s_pager s) <= 2 ^ 32 - 1;
  qu_txn : m_txn_id (st_meta (s_state s)) < 2 ^ 64 - 1
}.

Section durable.
Context {X : Extern} {L : ExternLaws X} {P : Type} `{!Pager P, !PagerMut P, !PagerLaws P}.

Lemma quiet_begin (s : Store P) l fd inh : quiet s l fd inh → txn_inv fd l (mkCfg s (begin_write s) inh []).
Proof. intros []. by apply begin_inv. Qed.

Lemma quiet_run (s : Store P) l fd inh c :
  quiet s l fd inh → rtc txn_step (mkCfg s (begin_write s) inh []) c →
  txn_inv fd l c ∧ shielded (m_txn_id (st_meta (s_state s))) inh c ∧ s_pager (c_store c) = s_pager s.
Proof.
  intros Hq Hr. eapply (shield_steps fd l) in Hr as (H1 & H2 & H3); [|by apply quiet_begin|by eapply begin_shield; apply Hq].
  done.
Qed.
End durable.

Section crash.
Context {X : Extern} {L : ExternLaws X}.

(** What the machine comes back to, from any moment of a commit. *)
Definition recovers (f0 : list Page) (st : StoreState) (fd : Freelist) (Q : list Z) (st' : StoreState) (dirty : list (Z * Page))
    (f : list Page) : Prop :=
  ∃ st1, load (reboot f) = Ok (mkStore (reboot f) st1 ∅ Full (mkBreakdown 0 0 0 0 0)) ∧
    (∀ p, p ∈ Q → pager_read (reboot f) p = pager_read (reboot f0) p) ∧
    (reloads st fd st1 ∨
     reloads st' (st_freelist st') st1 ∧ ∀ no pg, (no, pg) ∈ dirty → pager_read (reboot f) no = Ok pg).

Lemma commit_recovers fd l (c : Cfg Disk) f0 s' n r Q :
  s_pager (c_store c) = reboot f0 → s_durability (c_store c) = Full → txn_inv fd l c → shielded r Q c →
  horizon_of (c_store c) (w_snapshots (c_txn c)) (m_txn_id (w_base (c_txn c))) <= r →
  txn_commit (c_store c) (c_txn c) = Ok (s', n) → m_page_count (st_meta (s_state s')) <= 2 ^ 32 - 1 →
  ∃ out page, let ops := flip_ops Full out (m_page_count (st_meta (s_state s'))) (slot (st_meta (s_state s'))) page in
    s_pager s' = foldl disk_step (reboot f0) ops ∧
    ∀ k f, crash_image (foldl disk_step (reboot f0) (take k ops)) f →
      recovers f0 (s_state (c_store c)) fd Q (s_state s') (w_dirty (c_txn c)) f.
Proof.
  intros Hp Hd Hi Hsh Hh H Hmax. pose proof (commit_inv _ _ _ _ _ Hi H Hmax) as (_ & _ & _ & _ & _ & _ & Hrd & _).
  destruct (commit_plan _ _ _ _ _ Hi H Hmax) as (fl & next & pl & l' & pager' & Ha & Hpl & Hnx & Hpp & Hf & ->).
  destruct (commit_ready _ _ _ _ _ Hi Ha) as [_ Hpre].
  pose proof (cp_typed _ _ _ _ _ _ _ _ _ _ _ _ _ Hpre) as [T1 T2 T3 T4 T5 T6].
  pose proof (commit_avoids _ _ _ _ _ _ _ _ Hi Hsh Hh Ha Hpl Hnx) as Hav.
  pose proof (sh_floor _ _ _ Hsh) as Sf. rewrite (tm_floor _ _ _ (proj2 Hi)) in Sf.
  pose proof (tm_store _ _ _ (proj2 Hi)) as Hst. rewrite Hp, ?Hd in *. cbn [s_state st_meta s_pager] in *.
  destruct (write_and_flip_ops _ _ _ _ _ _ Hf) as (page & He & Hd').
  destruct (pp_meta _ _ _ _ _ _ _ _ _ _ Hpp) as (_ & _ & Hmc).
  exists (pl_out pl), page. cbv zeta. rewrite Hmc. split; [exact Hd'|]. intros k f Hc.
  pose proof (si_count _ _ _ _ Hst) as Hcnt. assert (page_count (reboot f0) = Z.of_nat (length f0)) as Hpc by reflexivity.
  rewrite Hpc in Hcnt, Sf. rewrite Forall_forall in Sf.
  assert (length f0 <= length f)%nat as Hlen.
  { destruct (flip_prefix f0 (pl_out pl) (pl_next pl) (slot (pl_meta pl)) page k) as [E|[E|[E|E]]];
      rewrite E in Hc; destruct Hc as [Hc _]; cbn in Hc;
      pose proof (proj1 (applied_untouched _ _ _ _ _ _ _ _ _ _ _ Hst Hpp)) as Hu; rewrite ?length_insert in Hc;
      unfold dk_view in Hc; cbn in Hc, Hu; lia. }
  assert (∀ p, p ∈ Q → pager_read (reboot f) p = pager_read (reboot f0) p) as HQ.
  { intros p Hq. specialize (Sf p Hq). simpl in Sf. apply read_ext; [|lia|lia]. intros _.
    eapply flip_frame; [apply Hpp|apply slot_bound| |exact Hc|lia|by apply Hav]. lia. }
  destruct (flip_crash _ _ _ _ _ _ _ _ _ _ _ _ _ k f Hst Hpp ltac:(split; assumption) Hf He Hc) as [Ho|[Hn Er]].
  - destruct (load_ok _ _ _ _ Ho) as (st1 & Hl & Hr & _). exists st1. split_and!; [exact Hl|exact HQ|left; exact Hr].
  - destruct (load_ok _ _ _ _ Hn) as (st1 & Hl & Hr & _). exists st1. split_and!; [exact Hl|exact HQ|right].
    split; [exact Hr|]. rewrite Er. exact Hrd.
Qed.
End crash.

(** * The transaction as a whole *)

(** C2.  Crash atomicity.  Run any transaction on a sound file and commit it with full durability;
    cut the power at any moment of the commit, with any subset of the unsynced writes on the disk
    and any of them torn.  The file opens, and it opens in the state before the transaction or in
    the state after it - never in between: in both cases every data page the base owned still has
    its bytes, and in the second every page the transaction wrote is there too. *)
Theorem transaction_crash_atomic {X : Extern} {L : ExternLaws X} (s : Store Disk) l fd inh c f0 s' n :
  quiet s l fd inh → s_pager s = reboot f0 → s_durability s = Full →
  rtc txn_step (mkCfg s (begin_write s) inh []) c →
  txn_commit (c_store c) (c_txn c) = Ok (s', n) → m_page_count (st_meta (s_state s')) <= 2 ^ 32 - 1 →
  ∃ out page, let ops := flip_ops Full out (m_page_count (st_meta (s_state s'))) (slot (st_meta (s_state s'))) page in
    s_pager s' = foldl disk_step (reboot f0) ops ∧
    ∀ k f, crash_image (foldl disk_step (reboot f0) (take k ops)) f →
      recovers f0 (s_state (c_store c)) fd inh (s_state s') (w_dirty (c_txn c)) f.
Proof.
  intros Hq Hp Hd Hr H Hmax. destruct (quiet_run _ _ _ _ _ Hq Hr) as (Hi & Hsh & Hpg).
  pose proof (steps_durability _ _ Hr) as Hdd. cbn in Hdd.
  eapply (commit_recovers fd l c f0 s' n _ inh); [congruence|congruence|exact Hi|exact Hsh| |exact H|exact Hmax].
  rewrite (tm_base _ _ _ (proj2 Hi)). etrans; [apply horizon_base|].
  rewrite (steps_state _ _ Hr). cbn. lia.
Qed.

(** C3.  Snapshot isolation of readers.  A reader holds transaction [r], registered before the
    writer commits; [Q] are pages it may visit: below the tail when the transaction starts, and
    freed, if at all, after [r].  Whatever the transaction does, and through its commit, each of them
    reads the same. *)
Theorem reader_isolated {X : Extern} {L : ExternLaws X} {P} `{!Pager P, !PagerMut P, !PagerLaws P}
    (s : Store P) l fd inh c s' n r m Q :
  quiet s l fd inh → shielded r Q (mkCfg s (begin_write s) inh []) →
  rtc txn_step (mkCfg s (begin_write s) inh []) c → s_readers (c_store c) !! r = Some m →
  txn_commit (c_store c) (c_txn c) = Ok (s', n) → m_page_count (st_meta (s_state s')) <= 2 ^ 32 - 1 →
  ∀ p, p ∈ Q → pager_read (s_pager (c_store c)) p = pager_read (s_pager s) p ∧ pager_read (s_pager s') p = pager_read (s_pager s) p.
Proof.
  intros Hq Hsh Hr Hm H Hmax p Hp.
  destruct (shield_steps _ _ _ _ _ _ Hr (quiet_begin _ _ _ _ Hq) Hsh) as (Hi & Hsh' & Hpg). cbn in Hpg.
  split; [by rewrite Hpg|]. rewrite <-Hpg. eapply commit_shield; try done. by eapply horizon_reader.
Qed.

(** C4.  What a commit publishes.  A committed transaction leaves a quiet store: the roots, the
    snapshots and the catalog it built, one transaction id further, its pages readable, the readers
    untouched, and again no page with two owners. *)
Theorem commit_publishes {X : Extern} {L : ExternLaws X} {P} `{!Pager P, !PagerMut P, !PagerLaws P}
    (s : Store P) l fd inh c s' n :
  quiet s l fd inh → rtc txn_step (mkCfg s (begin_write s) inh []) c →
  txn_commit (c_store c) (c_txn c) = Ok (s', n) → m_page_count (st_meta (s_state s')) <= 2 ^ 32 - 1 →
  n = m_txn_id (st_meta (s_state s)) + 1 ∧ m_txn_id (st_meta (s_state s')) = n ∧
  s_readers s' = s_readers (c_store c) ∧ st_roots (s_state s') = w_roots (c_txn c) ∧
  st_snapshots (s_state s') = w_snapshots (c_txn c) ∧ st_catalog (s_state s') = w_catalog (c_txn c) ∧
  (∀ no pg, (no, pg) ∈ w_dirty (c_txn c) → pager_read (s_pager s') no = Ok pg) ∧
  ∃ l', store_inv (s_pager s') (s_state s') l' (st_freelist (s_state s')) ∧
        data_ok s' l' (st_freelist (s_state s')) (c_inh c ++ c_fresh c).
Proof.
  intros Hq Hr H Hmax. destruct (quiet_run _ _ _ _ _ Hq Hr) as (Hi & _ & _).
  pose proof (tm_txn _ _ _ (proj2 Hi)) as [Ht _]. rewrite (tm_base _ _ _ (proj2 Hi)), (steps_state _ _ Hr) in Ht. cbn in Ht.
  destruct (commit_inv _ _ _ _ _ Hi H Hmax) as (-> & C2 & C3 & C4 & C5 & C6 & C7 & C8).
  split_and!; [exact Ht|exact C6|exact C2|exact C3|exact C4|exact C5|exact C7|exact C8].
Qed.

(** C5.  Recovery is the inverse of commit: opening the file a commit left gives back its meta, its
    roots, its catalog and its snapshots, with the freelist's pages and stamps. *)
Theorem commit_then_load {X : Extern} {L : ExternLaws X} {P} `{!Pager P, !PagerMut P, !PagerLaws P}
    (s : Store P) l fd inh c s' n :
  quiet s l fd inh → rtc txn_step (mkCfg s (begin_write s) inh []) c →
  txn_commit (c_store c) (c_txn c) = Ok (s', n) → m_page_count (st_meta (s_state s')) <= 2 ^ 32 - 1 →
  ∃ s2, load (s_pager s') = Ok s2 ∧ st_meta (s_state s2) = st_meta (s_state s') ∧
    st_roots (s_state s2) = w_roots (c_txn c) ∧ st_catalog (s_state s2) = w_catalog (c_txn c) ∧
    sr_snaps (st_snapshots (s_state s2)) = sr_snaps (w_snapshots (c_txn c)) ∧
    stamped (st_freelist (s_state s2)) ≡ₚ stamped (st_freelist (s_state s')).
Proof.
  intros Hq Hr H Hmax. destruct (quiet_run _ _ _ _ _ Hq Hr) as (Hi & _ & _).
  destruct (commit_inv _ _ _ _ _ Hi H Hmax) as (_ & _ & C3 & C4 & C5 & _ & _ & l' & C8 & _).
  destruct (load_ok _ _ _ _ C8) as (st' & Hl & (R1 & R2 & R3 & R4 & R5) & _). eexists. split; [exact Hl|]. cbn.
  rewrite R1, R2, R3, R4, R5, C3, C4, C5. split_and!; [done..|]. apply compact_spec, (si_runs _ _ _ _ C8).
Qed.

(** C6.  One owner per page.  At every moment of a transaction the four chains, the data pages it
    inherited, the pages it took, its scratch and the freelist partition the file above the metas:
    no page is in two of them, and the pages it has written are its own. *)
Theorem one_owner_per_page {X : Extern} {L : ExternLaws X} {P} `{!Pager P, !PagerMut P, !PagerLaws P}
    (s : Store P) l fd inh c :
  quiet s l fd inh → rtc txn_step (mkCfg s (begin_write s) inh []) c →
  NoDup (owners l c) ∧ Forall (λ p, 2 <= p < w_next_pgno (c_txn c)) (owners l c) ∧
  ∀ p, p ∈ fst <$> w_dirty (c_txn c) → (p ∉ ly_all l) ∧ (p ∉ c_inh c) ∧
    (p ∈ c_fresh c ∨ (p, w_txn_id (c_txn c)) ∈ stamped (w_freelist (c_txn c))).
Proof.
  intros Hq Hr. destruct (quiet_run _ _ _ _ _ Hq Hr) as ([Hp _] & _ & _). split_and!; [apply Hp..|].
  intros p Hd. pose proof (ti_dirty _ _ Hp p Hd) as Ho. pose proof (ti_nodup _ _ Hp) as Hn. unfold owners in Hn.
  apply NoDup_app in Hn as (_ & N1 & Hn). apply NoDup_app in Hn as (_ & N2 & _).
  assert (p ∈ c_fresh c ++ w_scratch (c_txn c) ++ (fst <$> stamped (w_freelist (c_txn c)))) as Hin.
  { rewrite !elem_of_app. destruct Ho as [?|Ho]; [tauto|]. apply (list_elem_of_fmap_2 fst) in Ho. tauto. }
  split_and!; [|intros Hi; by apply (N2 p)|exact Ho]. intros Hi. apply (N1 p Hi). rewrite elem_of_app. tauto.
Qed.

(** * A transaction that runs

    On a new file: one page taken and written, one root set; then, on the file that leaves and with
    a reader on it, the page copied on write and the root moved.  The examples below instantiate
    the theorems at these. *)
Definition demo_key : FragmentKey := mkFragmentKey 1 2 3 4.

Section demo.
#[local] Existing Instance sample.

Definition demo_run : Res StoreError (Store Disk * Z * WriteTxn * WriteTxn * (Store Disk * Z)) :=
  s ← init (reboot []);
  '(p, t) ← txn_alloc s (begin_write s);
  t' ← txn_write t p zeroed;
  r ← txn_commit s (txn_set_root t' demo_key p);
  Ok (s, p, t, t', r).
Definition demo_cow (s : Store Disk) (p : Z) : Res StoreError (Z * WriteTxn * (Store Disk * Z)) :=
  '(q, t) ← txn_cow (fst (begin_read s)) (begin_write s) p;
  r ← txn_commit (fst (begin_read s)) (txn_set_root t demo_key q);
  Ok (q, t, r).
Definition demo_small (h : Res StoreError (Store Disk * Z * WriteTxn * WriteTxn * (Store Disk * Z))) : bool :=
  match h with
  | Ok (s, p, t, t', (s', n)) =>
      (w_next_pgno t <=? 100) && (0 <=? p) && (p <=? 100) && (m_page_count (st_meta (s_state s')) <=? 100) &&
      (page_count (s_pager s') <=? 100) && (m_txn_id (st_meta (s_state s')) =? 1) &&
      match demo_cow s' p with
      | Ok (q, t2, (s2, n2)) =>
          (w_next_pgno t2 <=? 100) && (0 <=? q) && (q <=? 100) && (m_page_count (st_meta (s_state s2)) <=? 100)
      | _ => false
      end
  | _ => false
  end.

(** A run of the transaction that starts on [s], up to its commit. *)
Record runs (s : Store Disk) (l : Layout) (fd : Freelist) (inh : list Z) (c : Cfg Disk) (s' : Store Disk) (n : Z) : Prop := {
  ru_quiet : quiet s l fd inh;
  ru_full : s_durability s = Full;
  ru_steps : rtc txn_step (mkCfg s (begin_write s) inh []) c;
  ru_commit : txn_commit (c_store c) (c_txn c) = Ok (s', n);
  ru_count : m_page_count (st_meta (s_state s')) <= 2 ^ 32 - 1
}.

(** Both runs exist, and are among those the theorems speak of. *)
Lemma demo_ok :
  ∃ f0 s p c s' n l' c2 s2 n2, s_pager s = reboot f0 ∧ runs s empty_layout [] [] c s' n ∧
    runs s' l' (st_freelist (s_state s')) [p] c2 s2 n2 ∧ m_txn_id (st_meta (s_state s')) = 1 ∧
    s_readers (c_store c2) !! 1 = Some 1 ∧ ∃ t t', demo_run = Ok (s, p, t, t', (s', n)).
Proof.
  assert (demo_small demo_run = true) as H by (vm_compute; reflexivity). unfold demo_small, demo_run in H.
  destruct (init (reboot [])) as [s| |] eqn:Hi; [|discriminate H..]. cbn [mbind Res_bind] in H.
  destruct (txn_alloc s (begin_write s)) as [[p t]| |] eqn:Ha; [|discriminate H..].
  cbn [mbind Res_bind] in H. destruct (txn_write t p zeroed) as [t'| |] eqn:Hw; [|discriminate H..].
  cbn [mbind Res_bind] in H. destruct (txn_commit s (txn_set_root t' demo_key p)) as [[s' n]| |] eqn:Hc; [|discriminate H..].
  cbn [mbind Res_bind] in H. apply andb_true_iff in H as [H Hd]. unfold demo_cow in Hd.
  destruct (txn_cow _ _ _) as [[q t2]| |] eqn:Hcow; [|discriminate Hd..]. cbn [mbind Res_bind] in Hd.
  destruct (txn_commit (fst (begin_read s')) _) as [[s2 n2]| |] eqn:Hc2; [|discriminate Hd..]. cbn [mbind Res_bind] in Hd.
  repeat setoid_rewrite andb_true_iff in H. repeat setoid_rewrite andb_true_iff in Hd. destruct H as (((((H1 & H2) & H3) & H4) & H5) & H6). destruct Hd as (((D1 & D2) & D3) & D4).
  destruct first_store as (s0 & f0 & Hi0 & Hf0 & E1 & E2 & E3 & E4 & E5). rewrite Hi in Hi0. injection Hi0 as <-.
  set (c := mkCfg s (txn_set_root t' demo_key p) [] [p]).
  assert (runs s empty_layout [] [] c s' n) as Hrun.
  { split; [|exact E3| |exact Hc|lia].
    - split; [exact E5| |rewrite E4; lia|rewrite E1; cbn; lia]. split; constructor.
    - eapply rtc_l; [apply (step_alloc s _ [] [] p t Ha); lia|].
      eapply rtc_l; [apply (step_write s t [] [p] p zeroed t'); [apply list_elem_of_singleton; reflexivity|exact Hw]|].
      apply rtc_once, (step_set_root s t' [] [p] demo_key p). split; [|cbn; lia]. repeat split; cbn; lia. }
  destruct (quiet_run _ _ _ _ _ (ru_quiet _ _ _ _ _ _ _ Hrun) (ru_steps _ _ _ _ _ _ _ Hrun)) as (Hti & _ & _).
  destruct (commit_inv _ _ _ _ _ Hti Hc ltac:(lia)) as (_ & C2 & _ & _ & _ & _ & _ & l' & C8 & C9).
  destruct (commit_plan _ _ _ _ _ Hti Hc ltac:(lia)) as (? & ? & ? & ? & ? & _ & _ & _ & _ & _ & Es').
  exists f0, s, p, c, s', n, l', (mkCfg (fst (begin_read s')) (txn_set_root t2 demo_key q) [] [q]), s2, n2.
  split_and!; [exact Hf0|exact Hrun| |lia| |exists t, t'; unfold demo_run; rewrite Hi; cbn [mbind Res_bind]; rewrite Ha; cbn [mbind Res_bind]; rewrite Hw; cbn [mbind Res_bind]; by rewrite Hc].
  - split; [|rewrite Es'; exact E3| |exact Hc2|lia].
    + split; [exact C8|exact C9|lia|lia].
    + eapply rtc_l; [apply step_begin_read|].
      eapply rtc_l; [apply (step_cow (fst (begin_read s')) _ [p] [] [] [] p q t2); [reflexivity|apply submseteq_nil_l|apply submseteq_nil_l|exact Hcow|lia]|].
      apply rtc_once, step_set_root. split; [|cbn; lia]. repeat split; cbn; lia.
  - cbn [c_store begin_read fst register_reader with_readers s_readers].
    replace (m_txn_id _) with 1 by lia. rewrite C2. cbn [c c_store]. rewrite E2. reflexivity.
Qed.

Lemma transaction_crash_atomic_witness :
  ∃ s f0 c s' n, runs s empty_layout [] [] c s' n ∧
  ∃ out page, let ops := flip_ops Full out (m_page_count (st_meta (s_state s'))) (slot (st_meta (s_state s'))) page in
    s_pager s' = foldl disk_step (reboot f0) ops ∧
    ∀ k f, crash_image (foldl disk_step (reboot f0) (take k ops)) f →
      recovers f0 (s_state (c_store c)) [] [] (s_state s') (w_dirty (c_txn c)) f.
Proof.
  destruct demo_ok as (f0 & s & p & c & s' & n & l' & c2 & s2 & n2 & Hp & Hr & _).
  exists s, f0, c, s', n. split; [exact Hr|]. destruct Hr as [R1 R2 R3 R4 R5].
  exact (transaction_crash_atomic s _ _ _ c f0 s' n R1 Hp R2 R3 R4 R5).
Defined.

(** The reader holds the page the transaction copies. *)
Lemma reader_isolated_witness :
  ∃ s l fd p c s' n, runs s l fd [p] c s' n ∧ s_readers (c_store c) !! 1 = Some 1 ∧
    ∀ q, q ∈ [p] → pager_read (s_pager (c_store c)) q = pager_read (s_pager s) q ∧ pager_read (s_pager s') q = pager_read (s_pager s) q.
Proof.
  destruct demo_ok as (f0 & s0 & p & c0 & s & n0 & l & c & s' & n & _ & _ & Hr & Ht & Hrd & _).
  exists s, l, (st_freelist (s_state s)), p, c, s', n. split; [exact Hr|]. split; [exact Hrd|]. destruct Hr as [R1 R2 R3 R4 R5].
  refine (reader_isolated s l _ [p] c s' n 1 1 [p] R1 _ R3 Hrd R4 R5).
  rewrite <-Ht. exact (begin_shield s _ _ _ (qu_inv _ _ _ _ R1) (qu_data _ _ _ _ R1)).
Defined.

Lemma commit_publishes_witness :
  ∃ s l fd p c s' n, runs s l fd [p] c s' n ∧ n = m_txn_id (st_meta (s_state s)) + 1 ∧ st_roots (s_state s') = w_roots (c_txn c).
Proof.
  destruct demo_ok as (f0 & s0 & p & c0 & s & n0 & l & c & s' & n & _ & _ & Hr & _).
  exists s, l, (st_freelist (s_state s)), p, c, s', n. split; [exact Hr|]. destruct Hr as [R1 R2 R3 R4 R5].
  destruct (commit_publishes s l _ [p] c s' n R1 R3 R4 R5) as (H1 & _ & _ & H2 & _). split; [exact H1|exact H2].
Defined.

Lemma commit_then_load_witness :
  ∃ s l fd p c s' n, runs s l fd [p] c s' n ∧ ∃ s2, load (s_pager s') = Ok s2 ∧ st_roots (s_state s2) = w_roots (c_txn c).
Proof.
  destruct demo_ok as (f0 & s0 & p & c0 & s & n0 & l & c & s' & n & _ & _ & Hr & _).
  exists s, l, (st_freelist (s_state s)), p, c, s', n. split; [exact Hr|]. destruct Hr as [R1 R2 R3 R4 R5].
  destruct (commit_then_load s l _ [p] c s' n R1 R3 R4 R5) as (s2 & H1 & _ & H2 & _). exists s2. split; [exact H1|exact H2].
Defined.

Lemma one_owner_per_page_witness :
  ∃ s l fd p c s' n, runs s l fd [p] c s' n ∧ NoDup (owners l c).
Proof.
  destruct demo_ok as (f0 & s0 & p & c0 & s & n0 & l & c & s' & n & _ & _ & Hr & _).
  exists s, l, (st_freelist (s_state s)), p, c, s', n. split; [exact Hr|]. destruct Hr as [R1 R2 R3 R4 R5].
  exact (proj1 (one_owner_per_page s l _ [p] c R1 R3)).
Defined.
End demo.
