(* ===== verification/Hazards.v ===== *)
(** Where the promises of the storage engine stop: two runs, evaluated, in which what a comment of
    the sources promises does not hold (crates/big-pager/src/lib.rs, [commit_txn] and [flush];
    durability.rs). *)
From S2P Require Import Prelude Bits Page Sample Chain Meta Freelist Snapshot Roots Pager Store Crash Txn.

Section runs.
#[local] Existing Instance sample.

Definition key (n : Z) : FragmentKey := mkFragmentKey 1 1 1 n.

(** A transaction that only moves a root. *)
Definition rooted (s : Store Disk) (n v : Z) : WriteTxn := txn_set_root (begin_write s) (key n) v.

(** The file that has reached the disk when a commit dies between its two flushes. *)
Definition half_commit (s : Store Disk) (t : WriteTxn) : Res StoreError (list Page * Disk) :=
  let '(f, next) := absorb_scratch (w_freelist t) (w_scratch t) (w_next_pgno t) (w_txn_id t) in
  pl ← plan_commit (s_pager s) (horizon_of s (w_snapshots t) (m_txn_id (w_base t))) (w_txn_id t) (w_base t) (w_dirty t) f
         (w_roots t) (w_snapshots t) (w_catalog t) (w_dirty_chains t) next;
  page ← lift (meta_encode (pl_meta pl));
  let ops := flip_ops (s_durability s) (pl_out pl) (pl_next pl) (slot (pl_meta pl)) page in
  let d := foldl disk_step (s_pager s) (take (2 + length (pl_out pl)) ops) in
  Ok (dk_view d, d).

(** ** A commit that drops a snapshot

    Four transactions: a root, a snapshot of it, another root, and the drop. *)
Definition snapshot_history : Res StoreError (Store Disk * Snapshot * WriteTxn) :=
  s0 ← init (reboot []);
  '(s1, _) ← txn_commit s0 (rooted s0 1 7);
  let '(t, snap) := create_snapshot (begin_write s1) 0 [] true in
  '(s2, _) ← txn_commit s1 t;
  '(s3, _) ← txn_commit s2 (rooted s2 2 8);
  Ok (s3, snap, fst (drop_snapshot (rooted s3 3 9) (sn_id snap))).

(** Roots a reader of the snapshot sees. *)
Definition roots_at (s : Store Disk) (id : Z) : option RootRecords :=
  match begin_read_at s id with Ok (_, r) => Some (rt_roots r) | _ => None end.

(** The snapshot's roots once the commit of [t] has died between its flushes and the file is opened
    again: the state is that before [t], and the snapshot is registered. *)
Definition survives (s : Store Disk) (snap : Snapshot) (t : WriteTxn) (roots : RootRecords) : Prop :=
  ∃ f d s', half_commit s t = Ok (f, d) ∧ crash_image d f ∧ load (reboot f) = Ok s' ∧
    st_meta (s_state s') = st_meta (s_state s) ∧ snap_get (st_snapshots (s_state s')) (sn_id snap) = Some snap ∧ roots_at s' (sn_id snap) = Some roots.

#[local] Instance meta_eq_dec : EqDecision MetaPage.
Proof. solve_decision. Defined.
Definition survives_check (s : Store Disk) (snap : Snapshot) (t : WriteTxn) (roots : RootRecords) : bool :=
  match half_commit s t with
  | Ok (f, d) =>
      bool_decide (dk_pending d = []) &&
      match load (reboot f) with
      | Ok s' =>
          bool_decide (st_meta (s_state s') = st_meta (s_state s)) &&
          bool_decide (snap_get (st_snapshots (s_state s')) (sn_id snap) = Some snap) &&
          bool_decide (roots_at s' (sn_id snap) = Some roots)
      | _ => false
      end
  | _ => false
  end.

Definition drop_check (h : Res StoreError (Store Disk * Snapshot * WriteTxn)) : bool :=
  match h with
  | Ok (s, snap, t) =>
      is_ok (txn_commit s t) && bool_decide (s_durability s = Full) && bool_decide (w_dirty t = w_dirty (begin_write s)) &&
      bool_decide (roots_at s (sn_id snap) = Some [(key 1, 7)]) &&
      survives_check s snap t [(key 1, 7); (key 2, 8); (key 3, 9)] && survives_check s snap (rooted s 3 9) [(key 1, 7)]
  | _ => false
  end.

(** ** A commit under [Durability::None]: only the meta page has reached the disk *)
Definition lazy_history : Res StoreError (Store Disk * (Store Disk * Z)) :=
  s0 ← init (reboot []);
  s ← set_durability s0 NoFlush;
  r ← txn_commit s (rooted s 1 7);
  Ok (s, r).
(** Of the pending writes, the last one alone. *)
Definition only_last (d : Disk) : list Page :=
  match last (dk_pending d) with Some (DWrite n pg) => <[Z.to_nat n := pg]> (dk_durable d) | _ => dk_durable d end.
Definition lazy_check (h : Res StoreError (Store Disk * (Store Disk * Z))) : bool :=
  match h with
  | Ok (s, (s', _)) =>
      negb (is_ok (load (reboot (only_last (s_pager s'))))) && is_ok (load (reboot (dk_durable (s_pager s')))) &&
      (length (dk_durable (s_pager s')) <=? length (dk_view (s_pager s')))%nat
  | _ => false
  end.

Lemma settled_image d : dk_pending d = [] → crash_image d (dk_view d).
Proof.
  destruct d as [g p]. cbn. intros ->. split; [cbn; lia|]. intros i pg H _. left. exact H.
Qed.

Lemma only_last_image d :
  (length (dk_durable d) <= length (dk_view d))%nat → crash_image d (only_last d).
Proof.
  intros Hl. unfold only_last. destruct (last (dk_pending d)) as [op|] eqn:Hp.
  2:{ split; [lia|]. intros i pg H _. left. exact H. }
  apply last_Some_elem_of in Hp.
  destruct op as [n w|n|n|]; try (split; [lia|]; intros i pg H _; left; exact H).
  split; [rewrite length_insert; lia|]. intros i pg H Hi. destruct (decide (i = Z.to_nat n)) as [->|Hne].
  - rewrite list_lookup_insert_eq in H by lia. injection H as <-. right. exists n, w. split; [exact Hp|]. split; [reflexivity|left; reflexivity].
  - rewrite list_lookup_insert_ne in H by lia. left. exact H.
Qed.

Lemma survives_ok s snap t roots : survives_check s snap t roots = true → survives s snap t roots.
Proof.
  unfold survives_check, survives. destruct (half_commit s t) as [[f d]| |] eqn:Hh; [|done..]. intros [H1%bool_decide_eq_true H2]%andb_true_iff.
  destruct (load (reboot f)) as [s'| |] eqn:Hl; [|done..]. apply andb_true_iff in H2 as [[H2%bool_decide_eq_true H3%bool_decide_eq_true]%andb_true_iff H4%bool_decide_eq_true].
  exists f, d, s'. split; [done|]. split; [|done]. unfold half_commit in Hh. destruct (absorb_scratch _ _ _ _) as [fl next].
  apply bind_ok in Hh as (pl & _ & Hh). apply bind_ok in Hh as (page & _ & Hh). injection Hh as <- <-. by apply settled_image.
Qed.

(** C40.  A commit that drops a snapshot may overwrite what the snapshot reads before it takes effect.
    The reclaim horizon of a commit comes from the registry being committed, so the pages only the
    dropped snapshot needed are handed out at once.  From an empty file: a commit sets a root, a second
    takes a snapshot, a third sets another root; the fourth sets a third root, writes no data page and
    drops the snapshot.  The machine dies after the first flush of that commit, under full durability: the
    file opens in the state before it, the snapshot is registered, and reading it shows roots of the
    transaction that never committed.  The same transaction without the drop, dying at the same point,
    leaves the snapshot as it was. *)
Theorem dropped_snapshot_overwritten :
  ∃ s0 s1 n1 s2 n2 s3 n3 snap t,
    init (reboot []) = Ok s0 ∧ txn_commit s0 (rooted s0 1 7) = Ok (s1, n1) ∧
    snap = snd (create_snapshot (begin_write s1) 0 [] true) ∧ txn_commit s1 (fst (create_snapshot (begin_write s1) 0 [] true)) = Ok (s2, n2) ∧
    txn_commit s2 (rooted s2 2 8) = Ok (s3, n3) ∧ s_durability s3 = Full ∧ roots_at s3 (sn_id snap) = Some [(key 1, 7)] ∧
    t = fst (drop_snapshot (rooted s3 3 9) (sn_id snap)) ∧ w_dirty t = w_dirty (begin_write s3) ∧ is_ok (txn_commit s3 t) = true ∧
    survives s3 snap t [(key 1, 7); (key 2, 8); (key 3, 9)] ∧
    survives s3 snap (rooted s3 3 9) [(key 1, 7)].
Proof.
  assert (drop_check snapshot_history = true) as H by (vm_compute; reflexivity). unfold snapshot_history in H.
  destruct (init (reboot [])) as [s0| |] eqn:E0; [|discriminate H..]. cbn [mbind Res_bind] in H.
  destruct (txn_commit s0 (rooted s0 1 7)) as [[s1 n1]| |] eqn:E1; [|discriminate H..]. cbn [mbind Res_bind] in H.
  destruct (create_snapshot (begin_write s1) 0 [] true) as [t2 snap] eqn:E2.
  destruct (txn_commit s1 t2) as [[s2 n2]| |] eqn:E3; [|discriminate H..]. cbn [mbind Res_bind] in H.
  destruct (txn_commit s2 (rooted s2 2 8)) as [[s3 n3]| |] eqn:E4; [|discriminate H..]. cbn [mbind Res_bind drop_check] in H.
  apply andb_true_iff in H as [[[[[H1 H2]%andb_true_iff H3]%andb_true_iff H4]%andb_true_iff H5]%andb_true_iff H6]. apply bool_decide_eq_true in H2, H3, H4.
  exists s0, s1, n1, s2, n2, s3, n3, snap, (fst (drop_snapshot (rooted s3 3 9) (sn_id snap))). rewrite E2. cbn [fst snd].
  split; [reflexivity|]. split; [exact E1|]. split; [reflexivity|]. split; [exact E3|]. split; [exact E4|]. split; [exact H2|]. split; [exact H4|]. split; [reflexivity|]. split; [exact H3|]. split; [exact H1|]. split; [by apply survives_ok|by apply survives_ok].
Qed.

(** With [Durability::None] nothing orders the meta page after the pages it names.  In this run the
    commit has returned and the machine dies with the meta page alone on the disk: the file, which
    opened before the commit, does not open. *)
Theorem no_flush_may_not_open :
  ∃ s s' n f, s_durability s = NoFlush ∧ txn_commit s (rooted s 1 7) = Ok (s', n) ∧
    crash_image (s_pager s') f ∧ is_ok (load (reboot f)) = false ∧ is_ok (load (reboot (dk_durable (s_pager s')))) = true.
Proof.
  assert (lazy_check lazy_history = true) as H by (vm_compute; reflexivity). unfold lazy_check, lazy_history in H.
  destruct (init (reboot [])) as [s0| |]; [|discriminate H..]. cbn [mbind Res_bind] in H.
  destruct (set_durability s0 NoFlush) as [s| |] eqn:Hd; [|discriminate H..]. cbn [mbind Res_bind] in H.
  destruct (txn_commit s (rooted s 1 7)) as [[s' n]| |] eqn:Hc; [|discriminate H..]. cbn [mbind Res_bind] in H.
  apply andb_true_iff in H as [H H3]. apply andb_true_iff in H as [H1 H2]. apply negb_true_iff in H1. apply Nat.leb_le in H3.
  exists s, s', n, (only_last (s_pager s')). split.
  { unfold set_durability in Hd. case_bool_decide as E; [injection Hd as <-; by rewrite <-E|].
    apply bind_ok in Hd as (p & _ & Hd). injection Hd as <-. reflexivity. }
  split; [exact Hc|]. split; [by apply only_last_image|]. split; [exact H1|exact H2].
Qed.
End runs.
