(* ===== verification/PageAudit.v ===== *)
(** Accounting for every page of the file (crates/big-pager/src/audit.rs, and [Audit],
    [begin_audit] and [chain_shapes] of lib.rs). *)
From S2P Require Import Prelude Bits Container Page Sample Chain Meta Freelist Snapshot Roots Pager Store Crash SampleStore Txn Durable.

(** * A bit per page *)
Record PageSet := mkPageSet { ps_words : list Z; ps_len : Z }.

Definition div_ceil (a b : Z) : Z := (a + b - 1) / b.
Definition with_pages (pages : Z) : PageSet := mkPageSet (replicate (Z.to_nat (div_ceil pages 64)) 0) pages.

(** [words[at / 64] |= 1 << (at % 64)]: [at < len] puts the word in range. *)
Definition ps_insert (s : PageSet) (pgno : Z) : PageSet * bool :=
  if ps_len s <=? pgno then (s, false) else (mkPageSet (set_bit (ps_words s) pgno) (ps_len s), true).
Definition ps_contains (s : PageSet) (pgno : Z) : bool :=
  (pgno <? ps_len s) && negb (Z.land (word_at (ps_words s) (pgno / 64)) (Z.shiftl 1 (pgno mod 64)) =? 0).

(** One mask per word: all ones, except the last, which keeps only the pages that exist. *)
Definition masks (s : PageSet) : list Z :=
  let last := ps_len s mod 64 in
  let n := length (ps_words s) in
  (λ i, if bool_decide (i = n - 1)%nat && negb (last =? 0) then Z.shiftl 1 last - 1 else u64_max) <$> seq 0 n.

Definition masked_words (s : PageSet) : list Z := zip_with Z.land (ps_words s) (masks s).
Definition ps_count (s : PageSet) : Z := foldr Z.add 0 (map count_ones (masked_words s)).

(** [pair]: the words of both sets, each with its mask, [f] applied to the three. *)
Definition pair_words (f : Z → Z → Z → Z) (a b : PageSet) : list Z :=
  zip_with (λ xy m, f (fst xy) (snd xy) m) (zip (ps_words a) (ps_words b)) (masks a).
Definition neither : Z → Z → Z → Z := λ x y m, Z.land (not64 (Z.lor x y)) m.
Definition both : Z → Z → Z → Z := λ x y m, Z.land (Z.land x y) m.

Definition count_absent_from_both (a b : PageSet) : Z := foldr Z.add 0 (map count_ones (pair_words neither a b)).
(** [flat_map] over the words, the set bits of each in order. *)
Definition absent_from_both (a b : PageSet) : list Z := expand 0 (pair_words neither a b).
Definition present_in_both (a b : PageSet) : list Z := expand 0 (pair_words both a b).

(** How many pages a run covers, clamped into the file. *)
Definition run_pgnos (r : FreeRun) (limit : Z) : list Z :=
  let stop := Z.min (fr_first r + fr_len r) limit in seqZ (fr_first r) (stop - fr_first r).

(** * The audit *)
Record AuditTally := mkTally { ta_meta : Z; ta_chains : Z; ta_snapshot_chains : Z; ta_trees : Z; ta_snapshot_trees : Z }.

Record LeakReport := mkReport {
  lr_txn_id : Z; lr_page_count : Z; lr_file_pages : Z; lr_reachable : Z; lr_free_total : Z; lr_free_reusable : Z;
  lr_leaked : Z; lr_highest_leaked : option Z; lr_leaked_sample : list Z; lr_beyond_meta : Z; lr_dangling : Z;
  lr_double_allocated : Z; lr_double_allocated_sample : list Z; lr_by_class : AuditTally }.

Definition is_clean (r : LeakReport) : bool :=
  (lr_leaked r =? 0) && (lr_beyond_meta r =? 0) && (lr_dangling r =? 0) && (lr_double_allocated r =? 0).

Record Audit := mkAudit {
  au_read : ReadTxn; au_marks : PageSet; au_free : PageSet; au_roots : list Z; au_snapshot_roots : list Z;
  au_reusable : list FreeRun; au_tally : AuditTally; au_dangling : Z; au_free_total : Z; au_free_reusable : Z;
  au_page_count : Z; au_file_pages : Z; au_txn_id : Z }.

Definition mark_tree_page (a : Audit) (pgno : Z) (from_snapshot : bool) : Audit :=
  let '(marks, ok) := ps_insert (au_marks a) pgno in
  let t := au_tally a in
  let tally := if ok then
      if from_snapshot then mkTally (ta_meta t) (ta_chains t) (ta_snapshot_chains t) (ta_trees t) (ta_snapshot_trees t + 1)
      else mkTally (ta_meta t) (ta_chains t) (ta_snapshot_chains t) (ta_trees t + 1) (ta_snapshot_trees t)
    else t in
  let dangling := if ok then au_dangling a else if au_page_count a <=? pgno then au_dangling a + 1 else au_dangling a in
  mkAudit (au_read a) marks (au_free a) (au_roots a) (au_snapshot_roots a) (au_reusable a) tally dangling
    (au_free_total a) (au_free_reusable a) (au_page_count a) (au_file_pages a) (au_txn_id a).

(** Marking a list of pages: the set, how many marks were made, how many fell outside. *)
Definition mark_all (ps : list Z) (st : PageSet * Z * Z) : PageSet * Z * Z :=
  foldl (λ '(s, hit, out) p, let '(s, ok) := ps_insert s p in if ok then (s, hit + 1, out) else (s, hit, out + 1)) st ps.

Definition SAMPLE : nat := 64.
Definition audit_finish (a : Audit) : LeakReport :=
  let reusable := fst (fst (mark_all (concat ((λ r, run_pgnos r (au_page_count a)) <$> au_reusable a))
                              (with_pages (au_page_count a), 0, 0))) in
  let leaked := absent_from_both (au_marks a) (au_free a) in
  let doubled := present_in_both (au_marks a) reusable in
  mkReport (au_txn_id a) (au_page_count a) (au_file_pages a) (ps_count (au_marks a)) (au_free_total a) (au_free_reusable a)
    (count_absent_from_both (au_marks a) (au_free a)) (last leaked) (take SAMPLE leaked)
    (Z.max 0 (au_file_pages a - au_page_count a)) (au_dangling a)
    (Z.of_nat (length doubled)) (take SAMPLE doubled) (au_tally a).

Section audit.
Context {X : Extern} {P : Type} `{!Pager P}.

Definition chain_shapes (meta : MetaPage) : list (option Z * PageType * Z) :=
  [(m_root_records meta, PRootRecords, ROOT_RECORD_BYTES); (m_freelist meta, PFreelist, FREE_ENTRY_BYTES);
   (m_snapshots meta, PSnapshots, SNAPSHOT_ENTRY_BYTES); (m_catalog meta, PCatalog, CATALOG_ENTRY_BYTES)].

Fixpoint mark_chains (pager : P) (shapes : list (option Z * PageType * Z)) (st : PageSet * Z * Z) : Res StoreError (PageSet * Z * Z) :=
  match shapes with
  | [] => Ok st
  | (head, ty, stride) :: shapes' =>
      ps ← chain_pgnos_checked pager head ty stride;
      mark_chains pager shapes' (mark_all ps st)
  end.

Fixpoint mark_snapshots (pager : P) (snaps : list Snapshot) (st : PageSet * Z * Z) (roots : list Z)
    : Res StoreError (PageSet * Z * Z * list Z) :=
  match snaps with
  | [] => Ok (st, roots)
  | snap :: snaps' =>
      if sn_root_records snap =? 0 then mark_snapshots pager snaps' st roots
      else
        let head := Some (sn_root_records snap) in
        ps ← chain_pgnos_checked pager head PRootRecords ROOT_RECORD_BYTES;
        es ← load_chain pager head PRootRecords ROOT_RECORD_BYTES;
        old ← roots_from_entries es;
        mark_snapshots pager snaps' (mark_all ps st) (roots ++ (snd <$> old))
  end.

Definition begin_audit (s : Store P) : Res StoreError (Store P * Audit) :=
  let st := s_state s in
  let meta := st_meta st in
  let horizon := horizon_of s (st_snapshots st) (m_txn_id meta) in
  let '(s', read) := begin_read s in
  let pages := m_page_count meta in
  let '(marks, n_meta, _) := mark_all (seqZ 0 META_PAGES) (with_pages pages, 0, 0) in
  '(marks, n_chains, dangling) ← mark_chains (s_pager s) (chain_shapes meta) (marks, 0, 0);
  '(marks, n_snap, dangling, snapshot_roots) ← mark_snapshots (s_pager s) (sr_snaps (st_snapshots st)) (marks, 0, dangling) [];
  let '(free, free_total, _) := mark_all (concat ((λ r, run_pgnos r pages) <$> st_freelist st)) (with_pages pages, 0, 0) in
  let reusable := List.filter (λ r, fr_freed_at r <=? horizon) (st_freelist st) in
  Ok (s', mkAudit read marks free (snd <$> st_roots st) snapshot_roots reusable
            (mkTally n_meta n_chains n_snap 0 0) dangling free_total (reusable_pages (st_freelist st) horizon)
            pages (page_count (s_pager s)) (m_txn_id meta)).
End audit.

(** * What the sets hold *)
Definition ps_ok (s : PageSet) : Prop :=
  0 <= ps_len s ∧ Z.of_nat (length (ps_words s)) = div_ceil (ps_len s) 64 ∧ Forall word64 (ps_words s).

Lemma page_word s p : ps_ok s → 0 <= p < ps_len s → 0 <= p / 64 < Z.of_nat (length (ps_words s)).
Proof.
  intros (_ & Hl & _) Hp. rewrite Hl. unfold div_ceil. split; [apply Z.div_pos; lia|].
  apply Z.div_lt_upper_bound; [lia|]. pose proof (Z.div_mod (ps_len s + 64 - 1) 64). pose proof (Z.mod_pos_bound (ps_len s + 64 - 1) 64). lia.
Qed.

Lemma ps_contains_bit s p : 0 <= p → ps_contains s p = (p <? ps_len s) && bit_at (ps_words s) p.
Proof.
  intros Hp. unfold ps_contains. rewrite bit_at_testbit by done. f_equal.
  pose proof (Z.mod_pos_bound p 64 ltac:(lia)). set (w := word_at _ _).
  destruct (Z.testbit w (p mod 64)) eqn:E; destruct (Z.eqb_spec (Z.land w (Z.shiftl 1 (p mod 64))) 0) as [H0|H0]; try done; exfalso.
  - apply (f_equal (λ x, Z.testbit x (p mod 64))) in H0. rewrite Z.land_spec, testbit_pow2, Z.eqb_refl, E, Z.bits_0 in H0 by lia. done.
  - apply H0, Z.bits_inj'. intros i Hi. rewrite Z.land_spec, testbit_pow2, Z.bits_0 by lia.
    destruct (Z.eqb_spec i (p mod 64)) as [->|]; [by rewrite E|apply andb_false_r].
Qed.

Lemma with_pages_ok n : 0 <= n → ps_ok (with_pages n).
Proof.
  intros Hn. unfold ps_ok, with_pages. cbn [ps_len ps_words]. rewrite length_replicate.
  assert (0 <= div_ceil n 64) by (apply Z.div_pos; lia). split_and!; [done|lia|]. apply Forall_replicate, word64_0.
Qed.

Lemma with_pages_empty n p : 0 <= p → ps_contains (with_pages n) p = false.
Proof.
  intros Hp. rewrite ps_contains_bit by done. apply andb_false_iff. right. rewrite bit_at_testbit by done.
  unfold word_at, with_pages. cbn [ps_words]. destruct (_ !! _) as [w|] eqn:E; [|by rewrite Z.testbit_0_l].
  apply lookup_replicate in E as [-> _]. by rewrite Z.testbit_0_l.
Qed.

Lemma ps_insert_spec s p :
  ps_ok s → 0 <= p → ps_ok (fst (ps_insert s p)) ∧ ps_len (fst (ps_insert s p)) = ps_len s ∧
  snd (ps_insert s p) = (p <? ps_len s) ∧
  (∀ q, 0 <= q → ps_contains (fst (ps_insert s p)) q = (q =? p) && (p <? ps_len s) || ps_contains s q).
Proof.
  intros Hok Hp. unfold ps_insert. destruct (Z.leb_spec (ps_len s) p); cbn [fst snd].
  - rewrite (proj2 (Z.ltb_ge _ _)) by done. split_and!; try done. intros q Hq. by rewrite andb_false_r.
  - rewrite (proj2 (Z.ltb_lt _ _)) by done. pose proof (page_word s p Hok ltac:(lia)) as Hw. destruct Hok as (H0 & Hl & Hwd).
    split_and!; try done.
    + unfold ps_ok, set_bit. cbn [ps_len ps_words]. rewrite length_upd. split_and!; [done|done|by apply words_set].
    + intros q Hq. rewrite !ps_contains_bit by done. cbn [ps_len ps_words]. unfold set_bit.
      rewrite (bit_at_upd _ p q _ (λ _, true)) by
        (first [lia | intros w i Hi; rewrite Z.lor_spec, testbit_pow2 by (apply Z.mod_pos_bound; lia);
                destruct (i =? p mod 64); by rewrite ?orb_true_r, ?orb_false_r]).
      destruct (Z.eqb_spec q p) as [->|]; [|by rewrite andb_false_l]. rewrite (proj2 (Z.ltb_lt p (ps_len s))) by done. done.
Qed.

Lemma length_masks s : length (masks s) = length (ps_words s).
Proof. unfold masks. by rewrite length_fmap, length_seq. Qed.

Lemma masks_testbit s i j m :
  ps_ok s → masks s !! i = Some m → 0 <= j < 64 → Z.testbit m j = (64 * Z.of_nat i + j <? ps_len s) ∧ word64 m.
Proof.
  intros (H0 & Hl & _) Hm Hj. unfold masks in Hm. rewrite list_lookup_fmap in Hm. apply fmap_Some in Hm as (k & Hk & ->).
  apply lookup_seq in Hk as [-> Hlt]. cbn [Nat.add] in *. unfold div_ceil in Hl.
  pose proof (Z.div_mod (ps_len s) 64 ltac:(lia)) as Hd. pose proof (Z.mod_pos_bound (ps_len s) 64 ltac:(lia)) as Hb.
  pose proof (Z.div_mod (ps_len s + 64 - 1) 64 ltac:(lia)). pose proof (Z.mod_pos_bound (ps_len s + 64 - 1) 64 ltac:(lia)).
  destruct (bool_decide_reflect (i = length (ps_words s) - 1)%nat) as [->|Hi]; cbn [andb].
  - destruct (Z.eqb_spec (ps_len s mod 64) 0) as [Hz|Hz]; cbn [negb].
    + rewrite testbit_u64_max by lia. split; [|by unfold word64, u64_max; lia]. rewrite (proj2 (Z.ltb_lt j 64)) by lia. symmetry. apply Z.ltb_lt. lia.
    + replace (Z.shiftl 1 (ps_len s mod 64) - 1) with (Z.ones (ps_len s mod 64))
        by (rewrite Z.ones_equiv, Z.shiftl_mul_pow2 by lia; lia).
      split; [|rewrite Z.ones_equiv; unfold word64; pose proof (Z.pow_pos_nonneg 2 (ps_len s mod 64));
               pose proof (Z.pow_le_mono_r 2 (ps_len s mod 64) 64); lia].
      rewrite Z.testbit_ones_nonneg by lia. destruct (Z.ltb_spec j (ps_len s mod 64)); symmetry; [apply Z.ltb_lt|apply Z.ltb_ge]; lia.
  - rewrite testbit_u64_max by lia. split; [|by unfold word64, u64_max; lia]. rewrite (proj2 (Z.ltb_lt j 64)) by lia. symmetry. apply Z.ltb_lt. lia.
Qed.

(** A word-wise combination describes the pages that exist, bit by bit. *)
Lemma pair_words_spec (f : Z → Z → Z → Z) (g : bool → bool → bool) a b :
  ps_ok a → ps_ok b → ps_len a = ps_len b →
  (∀ x y m, word64 x → word64 y → word64 m → word64 (f x y m)) →
  (∀ x y m j, 0 <= j < 64 → Z.testbit (f x y m) j = g (Z.testbit x j) (Z.testbit y j) && Z.testbit m j) →
  Forall word64 (pair_words f a b) ∧
  expand 0 (pair_words f a b) = List.filter (λ p, g (ps_contains a p) (ps_contains b p)) (seqZ 0 (ps_len a)).
Proof.
  intros Ha Hb He Hw Hg. pose proof Ha as (A0 & Al & Aw). pose proof Hb as (B0 & Bl & Bw). rewrite <-He in Bl.
  assert (length (ps_words a) = length (ps_words b)) as Hlen by lia.
  assert (∀ i v, pair_words f a b !! i = Some v → ∃ x y m, ps_words a !! i = Some x ∧ ps_words b !! i = Some y ∧
    masks a !! i = Some m ∧ v = f x y m) as Hlk.
  { intros i v Hv. unfold pair_words in Hv. apply lookup_zip_with_Some in Hv as ([x y] & m & -> & Hxy & Hm).
    apply lookup_zip_Some in Hxy as [Hx Hy]. by exists x, y, m. }
  assert (length (pair_words f a b) = length (ps_words a)) as Hpl.
  { unfold pair_words. rewrite length_zip_with, length_zip_with, length_masks. lia. }
  split.
  - apply Forall_lookup. intros i v Hv. destruct (Hlk i v Hv) as (x & y & m & Hx & Hy & Hm & ->).
    rewrite Forall_lookup in Aw, Bw. apply Hw; eauto. by apply (masks_testbit a i 0).
  - apply ascending_ext; [apply ascending_expand|apply ascending_filter, ascending_seqZ|].
    intros p. rewrite elem_of_expand_0, elem_of_Lfilter, elem_of_seqZ, Hpl.
    destruct (Z.lt_ge_cases p 0); [split; [lia|intros [? _]; lia]|].
    rewrite bit_at_testbit by done. pose proof (Z.mod_pos_bound p 64 ltac:(lia)) as Hmod. pose proof (Z.div_mod p 64 ltac:(lia)) as Hdm.
    assert (∀ w, pair_words f a b !! Z.to_nat (p / 64) = Some w → Z.testbit w (p mod 64) =
      (p <? ps_len a) && g (bit_at (ps_words a) p) (bit_at (ps_words b) p)) as Hbit.
    { intros w Hv. destruct (Hlk _ _ Hv) as (x & y & m & Hx & Hy & Hm & ->).
      rewrite Hg by done. destruct (masks_testbit a _ (p mod 64) m Ha Hm Hmod) as [-> _].
      rewrite !bit_at_testbit by done. unfold word_at. rewrite Hx, Hy. cbn [default].
      rewrite Z2Nat.id by (apply Z.div_pos; lia). replace (64 * (p / 64) + p mod 64) with p by lia. apply andb_comm. }
    rewrite !ps_contains_bit, <-He by done. unfold word_at at 1.
    destruct (pair_words f a b !! Z.to_nat (p / 64)) as [w|] eqn:Hv; cbn [from_option].
    + change (id w) with w. rewrite (Hbit w eq_refl), andb_true_iff, Z.ltb_lt. apply lookup_lt_Some in Hv. rewrite Hpl in Hv.
      split; [intros (H1 & H2 & H3)|intros (H1 & H2)]; rewrite (proj2 (Z.ltb_lt p (ps_len a))) in * by lia; cbn [andb] in *;
        (split_and!; [lia..|done]) || (split; [lia|done]).
    + rewrite Z.testbit_0_l. apply lookup_ge_None in Hv. rewrite Hpl in Hv. split; [by intros [_ ?]|].
      intros [Hlt _]. pose proof (page_word a p Ha ltac:(lia)). lia.
Qed.

Lemma neither_spec a b :
  ps_ok a → ps_ok b → ps_len a = ps_len b →
  absent_from_both a b = List.filter (λ p, negb (ps_contains a p || ps_contains b p)) (seqZ 0 (ps_len a)) ∧
  count_absent_from_both a b = Z.of_nat (length (absent_from_both a b)).
Proof.
  intros Ha Hb He. destruct (pair_words_spec neither (λ x y, negb (x || y)) a b Ha Hb He) as [Hw Hx].
  - intros x y m _ _ Hm. unfold neither. rewrite Z.land_comm. by apply word64_land.
  - intros x y m j Hj. unfold neither. rewrite Z.land_spec, testbit_not64, Z.lor_spec by lia.
    rewrite (proj2 (Z.ltb_lt j 64)) by lia. by rewrite xorb_true_r.
  - split; [exact Hx|]. unfold count_absent_from_both, absent_from_both. by rewrite length_expand.
Qed.

Lemma both_spec a b :
  ps_ok a → ps_ok b → ps_len a = ps_len b →
  present_in_both a b = List.filter (λ p, ps_contains a p && ps_contains b p) (seqZ 0 (ps_len a)).
Proof.
  intros Ha Hb He. apply (pair_words_spec both andb a b Ha Hb He).
  - intros x y m ? ? Hm. unfold both. by apply word64_land, word64_land.
  - intros x y m j Hj. unfold both. by rewrite !Z.land_spec.
Qed.

Lemma ps_count_spec s : ps_ok s → ps_count s = Z.of_nat (length (List.filter (ps_contains s) (seqZ 0 (ps_len s)))).
Proof.
  intros Hs. destruct (pair_words_spec (λ x _ m, Z.land x m) (λ x _, x) s s Hs Hs eq_refl) as [Hw Hx].
  - intros x y m ? _ _. by apply word64_land.
  - intros x y m j Hj. by rewrite Z.land_spec.
  - assert (pair_words (λ x _ m, Z.land x m) s s = masked_words s) as E.
    { unfold pair_words, masked_words. generalize (masks s). induction (ps_words s) as [|x l IH]; intros [|m ms]; cbn; [done..|]. by rewrite IH. }
    rewrite E in Hw, Hx. unfold ps_count. by rewrite <-(length_expand 0), Hx.
Qed.

(** Marking a list marks its members, and counts the ones outside. *)
Lemma mark_all_spec ps s hit out s' hit' out' :
  ps_ok s → Forall (λ p, 0 <= p) ps → mark_all ps (s, hit, out) = (s', hit', out') →
  ps_ok s' ∧ ps_len s' = ps_len s ∧
  (∀ q, 0 <= q → ps_contains s' q = true ↔ (q ∈ ps ∧ q < ps_len s) ∨ ps_contains s q = true) ∧
  out' = out + Z.of_nat (length (List.filter (λ p, ps_len s <=? p) ps)) ∧
  hit' + out' = hit + out + Z.of_nat (length ps).
Proof.
  intros Hs Hps. revert s hit out Hs. induction Hps as [|p ps Hp Hps IH]; intros s hit out Hs H.
  { injection H as <- <- <-. split_and!; [done|done| |cbn; lia|cbn; lia]. intros q _. rewrite elem_of_nil. tauto. }
  unfold mark_all in H. cbn [foldl] in H. destruct (ps_insert_spec s p Hs Hp) as (I1 & I2 & I3 & I4).
  destruct (ps_insert s p) as [s1 ok]. cbn [fst snd] in *.
  assert (∃ h1 o1, mark_all ps (s1, h1, o1) = (s', hit', out') ∧ h1 + o1 = hit + out + 1 ∧
    o1 = out + (if ps_len s <=? p then 1 else 0)) as (h1 & o1 & H1 & Hsum & Ho).
  { destruct ok; eexists _, _; (split; [exact H|]); (split; [lia|]); symmetry in I3;
      [apply Z.ltb_lt in I3; rewrite (proj2 (Z.leb_gt _ _)) by lia|apply Z.ltb_ge in I3; rewrite (proj2 (Z.leb_le _ _)) by lia]; lia. }
  destruct (IH s1 h1 o1 I1 H1) as (J1 & J2 & J3 & J4 & J5). rewrite I2 in *. split_and!; [done|done| | |].
  - intros q Hq. rewrite J3, I4 by done. rewrite orb_true_iff, andb_true_iff, Z.eqb_eq, Z.ltb_lt, elem_of_cons. naive_solver lia.
  - cbn [List.filter]. destruct (ps_len s <=? p); cbn [length]; lia.
  - cbn [length]. lia.
Qed.

(** * The verdict *)
Record audit_ok (a : Audit) : Prop := {
  ao_marks : ps_ok (au_marks a); ao_free : ps_ok (au_free a);
  ao_marks_len : ps_len (au_marks a) = au_page_count a; ao_free_len : ps_len (au_free a) = au_page_count a;
  ao_runs : Forall (λ r, 0 <= fr_first r) (au_reusable a);
  ao_dangling : 0 <= au_dangling a
}.

Lemma mark_tree_page_ok a p b :
  audit_ok a → 0 <= p →
  audit_ok (mark_tree_page a p b) ∧ au_page_count (mark_tree_page a p b) = au_page_count a ∧
  (∀ q, 0 <= q → ps_contains (au_marks (mark_tree_page a p b)) q = (q =? p) && (p <? au_page_count a) || ps_contains (au_marks a) q) ∧
  (au_dangling (mark_tree_page a p b) = au_dangling a + if au_page_count a <=? p then 1 else 0).
Proof.
  intros [A1 A2 A3 A4 A5 A6] Hp. destruct (ps_insert_spec (au_marks a) p A1 Hp) as (I1 & I2 & I3 & I4). rewrite A3 in I3, I4.
  unfold mark_tree_page. destruct (ps_insert (au_marks a) p) as [m ok]. cbn [fst snd] in *.
  destruct (Z.leb_spec (au_page_count a) p) as [Hle|Hgt].
  - rewrite (proj2 (Z.ltb_ge _ _)) in I3 by done. subst ok. split; [|split_and!; try done]. split; cbn; try done; lia.
  - rewrite (proj2 (Z.ltb_lt _ _)) in I3 by done. subst ok. split; [|split_and!; try done; cbn; lia]. split; cbn; try done; lia.
Qed.

Lemma elem_of_run_pgnos r limit p : p ∈ run_pgnos r limit ↔ fr_first r <= p < fr_first r + fr_len r ∧ p < limit.
Proof. unfold run_pgnos. rewrite elem_of_seqZ. lia. Qed.

Lemma elem_of_runs_pgnos f limit p :
  p ∈ concat ((λ r, run_pgnos r limit) <$> f) ↔ p < limit ∧ ∃ r, r ∈ f ∧ fr_first r <= p < fr_first r + fr_len r.
Proof.
  induction f as [|r f IH]; csimpl; [rewrite elem_of_nil; setoid_rewrite elem_of_nil; naive_solver|].
  rewrite elem_of_app, IH, elem_of_run_pgnos. setoid_rewrite elem_of_cons. naive_solver.
Qed.

Lemma filter_nil_iff {A} (f : A → bool) l : List.filter f l = [] ↔ ∀ x, x ∈ l → f x = false.
Proof.
  induction l as [|x l IH]; cbn; [split; [by intros _ ? ?%not_elem_of_nil|done]|]. setoid_rewrite elem_of_cons.
  destruct (f x) eqn:E; [split; [done|]; intros H; specialize (H x (or_introl eq_refl)); congruence|]. rewrite IH. naive_solver.
Qed.

Lemma length_zero_filter {A} (f : A → bool) l : Z.of_nat (length (List.filter f l)) = 0 ↔ ∀ x, x ∈ l → f x = false.
Proof. rewrite <-filter_nil_iff, <-length_zero_iff_nil. lia. Qed.

(** A report is clean exactly when every page is accounted for once. *)
Lemma is_clean_iff a :
  audit_ok a →
  is_clean (audit_finish a) = true ↔
  (∀ p, 0 <= p < au_page_count a → ps_contains (au_marks a) p = true ∨ ps_contains (au_free a) p = true) ∧
  au_file_pages a <= au_page_count a ∧ au_dangling a = 0 ∧
  (∀ p r, ps_contains (au_marks a) p = true → 0 <= p < au_page_count a → r ∈ au_reusable a → ¬ fr_first r <= p < fr_first r + fr_len r).
Proof.
  intros [A1 A2 A3 A4 A5 A6]. pose proof A1 as (A0 & _). rewrite A3 in A0.
  set (runs := concat ((λ r, run_pgnos r (au_page_count a)) <$> au_reusable a)).
  assert (Forall (λ p, 0 <= p) runs) as Hruns.
  { apply Forall_forall. intros p Hp. apply elem_of_runs_pgnos in Hp as (_ & r & Hr & ?).
    rewrite Forall_forall in A5. specialize (A5 r Hr). simpl in A5. lia. }
  destruct (mark_all runs (with_pages (au_page_count a), 0, 0)) as [[re hit] out] eqn:Hm.
  destruct (mark_all_spec _ _ _ _ _ _ _ (with_pages_ok _ A0) Hruns Hm) as (R1 & R2 & R3 & _).
  cbn [with_pages ps_len] in R2, R3.
  unfold is_clean, audit_finish. fold runs. rewrite Hm. cbn [fst lr_leaked lr_beyond_meta lr_dangling lr_double_allocated].
  destruct (neither_spec (au_marks a) (au_free a) A1 A2 ltac:(lia)) as [N1 N2].
  rewrite !andb_true_iff, !Z.eqb_eq, N2, N1, (both_spec _ _ A1 R1 ltac:(lia)), !length_zero_filter, A3.
  setoid_rewrite elem_of_seqZ. split.
  - intros (((H1 & H2) & H3) & H4). split_and!; [|lia|done|].
    + intros p Hp. specialize (H1 p ltac:(lia)). apply negb_false_iff, orb_true_iff in H1. done.
    + intros p r Hc Hp Hr Hin. specialize (H4 p ltac:(lia)). rewrite Hc in H4. cbn [andb] in H4.
      assert (ps_contains re p = true); [|congruence]. apply R3; [lia|]. left. split; [|lia]. apply elem_of_runs_pgnos. split; [lia|eauto].
  - intros (H1 & H2 & H3 & H4). split_and!; [|lia|done|].
    + intros p Hp. apply negb_false_iff, orb_true_iff, H1. lia.
    + intros p Hp. destruct (ps_contains (au_marks a) p) eqn:Hc; [|done]. cbn [andb].
      destruct (ps_contains re p) eqn:Hre; [|done]. apply R3 in Hre as [[Hin _]|Hre]; [|by rewrite with_pages_empty in Hre by lia|lia].
      apply elem_of_runs_pgnos in Hin as (_ & r & Hr & ?). by destruct (H4 p r Hc ltac:(lia) Hr).
Qed.

(** * Auditing a sound file *)
Section sound.
Context {X : Extern} {L : ExternLaws X} {P : Type} `{!Pager P}.

Lemma mark_all_app ps qs st : mark_all (ps ++ qs) st = mark_all qs (mark_all ps st).
Proof. apply foldl_app. Qed.

Definition shape_walk (pager : P) (sh : option Z * PageType * Z) (l : list Z) : Prop :=
  (∃ es, chain_walk (snd (fst sh)) (snd sh) pager (fst (fst sh)) l es) ∧ (length l <= Z.to_nat (page_count pager + 2))%nat.

Lemma pgnos_checked_ok pager h ty stride l :
  shape_walk pager (h, ty, stride) l → chain_pgnos_checked pager h ty stride = Ok l.
Proof. intros [[es Hw] Hl]. cbn [fst snd] in Hw. unfold chain_pgnos_checked. by erewrite pgnos_loop_walk by done. Qed.

Lemma mark_chains_ok pager shapes ls st :
  Forall2 (shape_walk pager) shapes ls → mark_chains pager shapes st = Ok (mark_all (concat ls) st).
Proof.
  intros H. revert st. induction H as [|[[h ty] stride] l shapes ls Hw H IH]; intros st; [done|]. cbn [mark_chains concat].
  rewrite (pgnos_checked_ok _ _ _ _ _ Hw). cbn [mbind Res_bind]. by rewrite IH, mark_all_app.
Qed.

(** The chain a snapshot names, if it names one. *)
Definition snap_walk (pager : P) (sn : Snapshot) (l : list Z) : Prop :=
  if sn_root_records sn =? 0 then l = []
  else ∃ es old, chain_walk PRootRecords ROOT_RECORD_BYTES pager (Some (sn_root_records sn)) l es ∧
    roots_from_entries (E:=StoreError) es = Ok old ∧ (length l <= Z.to_nat (page_count pager + 1))%nat.

Lemma mark_snapshots_ok pager snaps ls st roots :
  Forall2 (snap_walk pager) snaps ls → ∃ roots', mark_snapshots pager snaps st roots = Ok (mark_all (concat ls) st, roots').
Proof.
  intros H. revert st roots. induction H as [|sn l snaps ls Hw H IH]; intros st roots; [by exists roots|]. cbn [mark_snapshots concat].
  unfold snap_walk in Hw. destruct (sn_root_records sn =? 0).
  - subst l. apply IH.
  - destruct Hw as (es & old & Hw & Hd & Hl).
    rewrite (pgnos_checked_ok pager _ _ _ l) by (split; [by exists es|lia]). cbn [mbind Res_bind].
    rewrite (proj2 (load_chain_walk _ _ _ _ _) (ex_intro _ _ (conj Hw Hl))). cbn [mbind Res_bind]. rewrite Hd. cbn [mbind Res_bind].
    rewrite mark_all_app. apply IH.
Qed.

Record audit_captured (s : Store P) (l : Layout) (snap_pages : list Z) (a : Audit) : Prop := {
  ac_ok : audit_ok a;
  ac_dangling : au_dangling a = 0;
  ac_count : au_page_count a = m_page_count (st_meta (s_state s)) ∧ au_file_pages a = page_count (s_pager s);
  ac_marks : ∀ p, 0 <= p < au_page_count a → ps_contains (au_marks a) p = true ↔ p < 2 ∨ p ∈ ly_all l ∨ p ∈ snap_pages;
  ac_free : ∀ p, 0 <= p < au_page_count a → ps_contains (au_free a) p = true ↔ p ∈ fst <$> stamped (st_freelist (s_state s));
  ac_reusable : au_reusable a = List.filter (λ r, fr_freed_at r <=? horizon_of s (st_snapshots (s_state s)) (m_txn_id (st_meta (s_state s))))
                  (st_freelist (s_state s))
}.

Lemma chain_shapes_ok (s : Store P) l fd :
  store_inv (s_pager s) (s_state s) l fd →
  Forall2 (shape_walk (s_pager s)) (chain_shapes (st_meta (s_state s))) [ly_roots l; ly_free l; ly_snaps l; ly_cat l].
Proof.
  intros Hinv. pose proof (layout_short _ _ _ _ Hinv) as Hsh. rewrite !Forall_cons in Hsh. destruct Hsh as (S1 & S2 & S3 & S4 & _).
  destruct (si_chains _ _ _ _ Hinv) as [Wr Ws Wc Wf].
  repeat constructor; cbn [fst snd]; eauto; lia.
Qed.

Lemma filter_none_above n ps : Forall (λ p, 0 <= p < n) ps → List.filter (λ p, n <=? p) ps = [].
Proof. intros H. apply filter_nil_iff. intros p Hp. rewrite Forall_forall in H. specialize (H p Hp). simpl in H. apply Z.leb_gt. lia. Qed.

Lemma begin_audit_ok (s : Store P) l fd ls :
  store_inv (s_pager s) (s_state s) l fd →
  Forall2 (snap_walk (s_pager s)) (sr_snaps (st_snapshots (s_state s))) ls →
  Forall (λ p, 0 <= p < m_page_count (st_meta (s_state s))) (concat ls) →
  ∃ a, begin_audit s = Ok (fst (begin_read s), a) ∧ audit_captured s l (concat ls) a.
Proof.
  intros Hinv Hsn Hrg. set (n := m_page_count (st_meta (s_state s))) in *.
  pose proof (si_count _ _ _ _ Hinv) as Hc. fold n in Hc. pose proof (si_range _ _ _ _ Hinv) as Hr. fold n in Hr.
  assert (Forall run_ok (st_freelist (s_state s)) ∧ stamped (st_freelist (s_state s)) ≡ₚ stamped fd) as [Hru Hst].
  { pose proof (si_runs _ _ _ _ Hinv). destruct (si_free _ _ _ _ Hinv) as [-> | ->]; [done|by apply compact_spec]. }
  set (chains := concat [ly_roots l; ly_free l; ly_snaps l; ly_cat l]).
  assert (∀ p, p ∈ chains ↔ p ∈ ly_all l) as Hch.
  { intros p. unfold chains, ly_all. cbn [concat]. rewrite !elem_of_app, elem_of_nil. tauto. }
  assert (Forall (λ p, 0 <= p < n) (chains ++ concat ls)) as Hmk.
  { apply Forall_app. split; [|done]. apply Forall_app in Hr as [Hr _]. apply Forall_forall. intros p Hp%Hch.
    rewrite Forall_forall in Hr. specialize (Hr p Hp). simpl in Hr. lia. }
  unfold begin_audit. fold n. cbn [begin_read].
  destruct (mark_all (seqZ 0 META_PAGES) (with_pages n, 0, 0)) as [[m0 h0] o0] eqn:E0.
  assert (Forall (λ p, 0 <= p) (seqZ 0 META_PAGES)) as Hmeta by (apply Forall_forall; intros p Hp%elem_of_seqZ; lia).
  assert (ps_ok (with_pages n)) as Hempty by (apply with_pages_ok; lia).
  assert (∀ k, Forall (λ p, 0 <= p < n) k → Forall (λ p, 0 <= p) k) as Hpos
    by (intros k Hk; eapply Forall_impl; [exact Hk|simpl; lia]).
  destruct (mark_all_spec _ _ _ _ _ _ _ Hempty Hmeta E0)
    as (K1 & K2 & K3 & _). cbn [with_pages ps_len] in K2, K3.
  rewrite (mark_chains_ok _ _ _ _ (chain_shapes_ok _ _ _ Hinv)). fold chains. cbn [mbind Res_bind].
  destruct (mark_all chains (m0, 0, 0)) as [[m1 h1] o1] eqn:E1. cbn [mbind Res_bind].
  apply Forall_app in Hmk as [Hmk1 Hmk2].
  destruct (mark_all_spec _ _ _ _ _ _ _ K1 (Hpos _ Hmk1) E1) as (L1 & L2 & L3 & L4 & _).
  rewrite K2 in *. rewrite (filter_none_above n) in L4 by done.
  destruct (mark_snapshots_ok (s_pager s) _ ls (m1, 0, o1) [] Hsn) as [rs ->]. cbn [mbind Res_bind].
  destruct (mark_all (concat ls) (m1, 0, o1)) as [[m2 h2] o2] eqn:E2.
  destruct (mark_all_spec _ _ _ _ _ _ _ L1 (Hpos _ Hmk2) E2) as (M1 & M2 & M3 & M4 & _).
  rewrite L2 in *. rewrite (filter_none_above n) in M4 by done.
  destruct (mark_all (concat _) (with_pages n, 0, 0)) as [[fr hf] off] eqn:E3.
  assert (Forall (λ r, 0 <= fr_first r) (st_freelist (s_state s))) as Hfirst
    by (eapply Forall_impl; [exact Hru|]; intros r (?&?&_); done).
  assert (Forall (λ p, 0 <= p) (concat ((λ r, run_pgnos r n) <$> st_freelist (s_state s)))) as Hrp.
  { apply Forall_forall. intros p Hp. apply elem_of_runs_pgnos in Hp as (_ & r & Hr' & ?).
    rewrite Forall_forall in Hfirst. specialize (Hfirst r Hr'). simpl in Hfirst. lia. }
  destruct (mark_all_spec _ _ _ _ _ _ _ Hempty Hrp E3)
    as (F1 & F2 & F3 & _). cbn [with_pages ps_len] in F2, F3.
  eexists. split; [reflexivity|]. cbn [length] in L4, M4.
  split; cbn [au_dangling au_page_count au_file_pages au_marks au_free au_reusable]; try done.
  - split; cbn [au_dangling au_page_count au_marks au_free au_reusable]; try done; [|lia].
    apply Forall_forall. intros r [Hr' _]%elem_of_Lfilter. rewrite Forall_forall in Hfirst. by apply Hfirst.
  - lia.
  - intros p Hp. rewrite M3, L3, K3, with_pages_empty, Hch, elem_of_seqZ by lia. unfold META_PAGES.
    split; [intros [[? _]|[[? _]|[[? _]|?]]]; [tauto|tauto|left; lia|done]|].
    intros [?|[?|?]]; [|tauto|tauto]. right; right; left. lia.
  - intros p Hp. rewrite F3, with_pages_empty, elem_of_runs_pgnos, list_elem_of_fmap by lia. split.
    + intros [[(_ & r & Hr' & ?) _]|?]; [|done]. exists (p, fr_freed_at r). split; [done|]. apply elem_of_stamped. eauto.
    + intros ([q u] & -> & Hin). cbn [fst] in *. apply elem_of_stamped in Hin as (r & Hr' & _ & ?). left. split; [|lia]. split; [lia|eauto].
Qed.
End sound.

(** * The audit as a whole *)
Lemma mark_tree_page_same a p b :
  au_free (mark_tree_page a p b) = au_free a ∧ au_reusable (mark_tree_page a p b) = au_reusable a ∧
  au_file_pages (mark_tree_page a p b) = au_file_pages a.
Proof. unfold mark_tree_page. by destruct (ps_insert _ _). Qed.

(** Marking the pages of a walk over every tree. *)
Definition mark_trees (a : Audit) (pages : list Z) : Audit := foldl (λ a p, mark_tree_page a p false) a pages.

Lemma mark_trees_ok pages a :
  audit_ok a → Forall (λ p, 0 <= p) pages →
  let a' := mark_trees a pages in
  audit_ok a' ∧ au_page_count a' = au_page_count a ∧ au_free a' = au_free a ∧ au_reusable a' = au_reusable a ∧
  au_file_pages a' = au_file_pages a ∧
  (∀ q, 0 <= q < au_page_count a → ps_contains (au_marks a') q = true ↔ q ∈ pages ∨ ps_contains (au_marks a) q = true) ∧
  (au_dangling a' = 0 ↔ au_dangling a = 0 ∧ Forall (λ p, p < au_page_count a) pages).
Proof.
  intros Ha Hp. revert a Ha. induction Hp as [|p pages Hp _ IH]; intros a Ha; cbv zeta in *; cbn [mark_trees foldl].
  { split_and!; try done.
    - intros q Hq. split; [tauto|]. intros [?%not_elem_of_nil|?]; done.
    - split; [intros E; split; [done|constructor]|tauto]. }
  fold (mark_trees (mark_tree_page a p false) pages).
  destruct (mark_tree_page_ok a p false Ha Hp) as (B1 & B2 & B3 & B4). destruct (mark_tree_page_same a p false) as (B5 & B6 & B7).
  destruct (IH _ B1) as (I1 & I2 & I3 & I4 & I5 & I6 & I7). rewrite B2 in I2, I6, I7.
  split_and!; [done|done|congruence|congruence|congruence| |].
  - intros q Hq. rewrite I6, B3, elem_of_cons by lia. rewrite orb_true_iff, andb_true_iff, Z.eqb_eq, Z.ltb_lt.
    split; [|intuition (subst; lia)]. intros [?|[[? ?]|?]]; tauto.
  - rewrite I7, B4, Forall_cons. pose proof (ao_dangling _ Ha). destruct (Z.leb_spec (au_page_count a) p); intuition lia.
Qed.

Section whole.
Context {X : Extern} {P : Type} `{!Pager P}.

(** C34.  The page audit.  On a file that is sound (its registries and freelist as [store_inv] says, the
    chains of its snapshots readable and within the count), capture the chains and the snapshots' chains,
    mark the pages [pages] of a walk over every tree, and finish.  The report is clean exactly when every
    page below the count is a meta, in a chain, in a snapshot's chain, marked or on the freelist; nothing
    marked lies past the end; the file has no pages the meta does not know; and no page in use may be
    handed out again, that is, is on the freelist and was freed at or below the horizon.  A page that is in
    use and on the freelist, but freed above the horizon, is not reported. *)
Theorem audit_is_exact (s : Store P) l fd ls pages :
  store_inv (s_pager s) (s_state s) l fd →
  Forall2 (snap_walk (s_pager s)) (sr_snaps (st_snapshots (s_state s))) ls →
  Forall (λ p, 0 <= p < m_page_count (st_meta (s_state s))) (concat ls) → Forall (λ p, 0 <= p) pages →
  let n := m_page_count (st_meta (s_state s)) in
  let h := horizon_of s (st_snapshots (s_state s)) (m_txn_id (st_meta (s_state s))) in
  let used p := p < 2 ∨ p ∈ ly_all l ∨ p ∈ concat ls ∨ p ∈ pages in
  ∃ a, begin_audit s = Ok (fst (begin_read s), a) ∧
    (is_clean (audit_finish (mark_trees a pages)) = true ↔
     (∀ p, 0 <= p < n → used p ∨ p ∈ fst <$> stamped (st_freelist (s_state s))) ∧
     page_count (s_pager s) <= n ∧ Forall (λ p, p < n) pages ∧
     (∀ p t, (p, t) ∈ stamped (st_freelist (s_state s)) → t <= h → 0 <= p < n → ¬ used p)).
Proof.
  intros Hs Hls Hr Hp. cbv zeta. destruct (begin_audit_ok s l fd ls Hs Hls Hr) as (a & Ha & [C1 C2 [C3 C4] C5 C6 C7]).
  exists a. split; [exact Ha|]. destruct (mark_trees_ok pages a C1 Hp) as (M1 & M2 & M3 & M4 & M5 & M6 & M7).
  rewrite (is_clean_iff _ M1), M2, M3, M4, M5, M7, C2, C3, C4. rewrite C3 in C5, C6, M6.
  set (n := m_page_count _) in *. set (h := horizon_of _ _ _) in *.
  assert (∀ q, 0 <= q < n → ps_contains (au_marks (mark_trees a pages)) q = true ↔
    q < 2 ∨ q ∈ ly_all l ∨ q ∈ concat ls ∨ q ∈ pages) as HM by (intros q Hq; rewrite (M6 q Hq), (C5 q Hq); tauto).
  assert (∀ q, 0 <= q < n → (∃ r, r ∈ au_reusable a ∧ fr_first r <= q < fr_first r + fr_len r) ↔
    ∃ t, (q, t) ∈ stamped (st_freelist (s_state s)) ∧ t <= h) as HR.
  { intros q Hq. rewrite C7. split.
    - intros (r & [Hin Hh]%elem_of_Lfilter & Hq'). exists (fr_freed_at r). split; [|lia]. apply elem_of_stamped. eauto.
    - intros (t & (r & Hin & -> & Hq')%elem_of_stamped & Hh). exists r. split; [|done]. apply elem_of_Lfilter. split; [done|lia]. }
  split.
  - intros (H1 & H2 & [_ H3] & H4). split_and!; [|done|exact H3|].
    + intros p Hpr. rewrite <-(HM p Hpr), <-(C6 p Hpr). by apply H1.
    + intros p t Hin Ht Hpr Hu. destruct (proj2 (HR p Hpr)) as (r & Hr1 & Hr2); [eauto|].
      apply (H4 p r); [by apply HM|done|done|done].
  - intros (H1 & H2 & H3 & H5). split_and!; [|done|done|done|].
    + intros p Hpr. rewrite (HM p Hpr), (C6 p Hpr). by apply H1.
    + intros p r Hm Hpr Hr1 Hr2. destruct (proj1 (HR p Hpr)) as (t & Ht1 & Ht2); [eauto|].
      apply (H5 p t Ht1 Ht2 Hpr). by apply HM.
Qed.
End whole.

(** The file after a commit, with one data page: clean when the walk marks that page, and with a page lost
    when it does not. *)
Definition demo_audit (h : Res StoreError (Store Disk * Z * WriteTxn * WriteTxn * (Store Disk * Z))) : bool :=
  match h with
  | Ok (_, p, _, _, (s, _)) =>
      match begin_audit (X:=sample) s with
      | Ok (_, a) => is_clean (audit_finish (mark_trees a [p])) && negb (is_clean (audit_finish (mark_trees a []))) && (2 <=? p) && (p <? m_page_count (st_meta (s_state s))) && (length (sr_snaps (st_snapshots (s_state s))) =? 0)%nat
      | _ => false
      end
  | _ => false
  end.
Lemma audit_is_exact_witness :
  ∃ (s : Store Disk) l a p, begin_audit (X:=sample) s = Ok (fst (begin_read s), a) ∧ 2 <= p < m_page_count (st_meta (s_state s)) ∧
    is_clean (audit_finish (mark_trees a [p])) = true ∧ is_clean (audit_finish (mark_trees a [])) = false ∧
    ∀ q, 2 <= q < m_page_count (st_meta (s_state s)) → q ∈ ly_all l ∨ q = p ∨ q ∈ fst <$> stamped (st_freelist (s_state s)).
Proof.
  assert (demo_audit demo_run = true) as H by (vm_compute; reflexivity).
  destruct demo_ok as (f0 & s0 & p & c0 & s & n0 & l & c & s' & n & _ & _ & Hr & _ & _ & t & t' & E). rewrite E in H. cbn [demo_audit] in H.
  destruct Hr as [R1 _ _ _ _]. exists s, l. destruct (begin_audit s) as [[r a]| |] eqn:Ea; [|discriminate H..].
  apply andb_prop in H as [H H5]. apply andb_prop in H as [H H4]. apply andb_prop in H as [H H3]. apply andb_prop in H as [H1 H2]. apply negb_true_iff in H2. apply Z.leb_le in H3. apply Z.ltb_lt in H4. apply Nat.eqb_eq, nil_length_inv in H5.
  destruct (audit_is_exact (X:=sample) s l _ [] [p] (qu_inv _ _ _ _ R1)) as (a' & Ha & Hc); [rewrite H5; constructor|constructor|constructor; [lia|constructor]|].
  assert (a' = a) as -> by congruence. rewrite Ha in Ea. clear E H5.
  exists a, p. split; [congruence|]. split; [lia|]. split; [exact H1|]. split; [exact H2|]. intros q Hq. apply Hc in H1 as [Hu _]. destruct (Hu q ltac:(lia)) as [[Hq2|[Hl|[Hn|Hm]]]|Hf]; [lia|by left|by apply not_elem_of_nil in Hn|right; left; by apply list_elem_of_singleton in Hm|right; by right].
Defined.
