(* ===== verification/BTree.v ===== *)
(** The b-tree over container keys: its items, its errors, descent and scanning
    (crates/big-btree/src/item.rs, error.rs, read.rs).

    [tree_at] says what a tree of pages stands for, a list of items in key order; the theorems are
    that every reader answers as that list would. *)
From S2P Require Import Prelude Bits Search Container Delta Page Leaf Branch Chain Pager.

(** * Items (item.rs) *)
Record LeafItem := mkItem {
  li_key : Z; li_ty : ContainerType; li_elem_n : Z; li_cardinality : Z;
  li_bitmap_checksum : Z; li_bitmap_pgno : Z; li_payload : list Z }.

Definition from_cell (c : LeafCell) : LeafItem :=
  mkItem (lc_key c) (lc_ty c) (lc_elem_n c mod 2 ^ 16) (lc_cardinality c) (lc_bitmap_checksum c) (lc_bitmap_pgno c) (lc_payload c).

Definition item_dense (key pgno card crc : Z) : LeafItem := mkItem key TBitmapPtr 0 card crc pgno [].
Definition item_delta (key pgno crc card : Z) (entries : list DeltaEntry) : LeafItem :=
  mkItem key TBitmapDelta (zlen entries mod 2 ^ 16) card crc pgno (Delta.encode entries).

Definition is_dense (it : LeafItem) : bool := owns_page (li_ty it).
Definition base_pgno (it : LeafItem) : option Z := if is_dense it then Some (li_bitmap_pgno it) else None.

Definition item_staged (it : LeafItem) : StagedCell :=
  mkStagedCell (li_key it) (li_ty it) (li_elem_n it) (li_cardinality it) (li_bitmap_checksum it) (li_bitmap_pgno it) (li_payload it).
Definition push_into (it : LeafItem) (b : LeafBuilder) : option LeafBuilder := leaf_push b (item_staged it).

(** * Errors (error.rs) *)
Inductive BTreeError :=
| BStore (e : StoreError)
| BPage (e : PageError)
| BUnexpectedPage (pgno : Z) (found : PageType)
| BEmptyBranch (pgno : Z)
| BTooDeep (root : Z)
| BPayloadTooLarge (bytes : Z).

Definition from_store {A} (r : Res StoreError A) : Res BTreeError A := map_err BStore r.
Definition from_page {A} (r : Res PageError A) : Res BTreeError A := map_err BPage r.

(** * Reading (read.rs) *)
Definition MAX_DEPTH : nat := 32.

Section read.
Context {P : Type} `{!Pager P}.

Definition page_kind (page : Page) : Res BTreeError PageType := from_page (page_type page).

(** [for _ in 0..MAX_DEPTH]: [left] is how many rounds are left. *)
Fixpoint leaf_for_loop (left : nat) (pager : P) (root cur ckey : Z) : Res BTreeError Z :=
  match left with
  | O => Err (BTooDeep root)
  | S left' =>
      page ← from_store (pager_read pager cur);
      kind ← page_kind page;
      match kind with
      | PLeaf => Ok cur
      | PBranch =>
          br ← from_page (branch_parse page);
          child ← from_page (child_for br ckey);
          child ← (match child with
                   | Some c => Ok (Some c)
                   | None => first ← from_page (branch_cell br 0); Ok (option_map bc_child first)
                   end);
          next ← ok_or child (BEmptyBranch cur);
          leaf_for_loop left' pager root next ckey
      | other => Err (BUnexpectedPage cur other)
      end
  end.
Definition leaf_for (pager : P) (root ckey : Z) : Res BTreeError Z := leaf_for_loop MAX_DEPTH pager root root ckey.

(** A hit: the page it was found on, and which cell. *)
Definition find (pager : P) (root ckey : Z) : Res BTreeError (option (Page * nat)) :=
  no ← leaf_for pager root ckey;
  page ← from_store (pager_read pager no);
  leaf ← from_page (leaf_parse page);
  hit ← from_page (search leaf ckey);
  Ok (match hit with Hit i => Some (page, i) | Miss _ => None end).
Definition found_cell (hit : Page * nat) : Res BTreeError LeafCell :=
  leaf ← from_page (leaf_parse (fst hit)); from_page (cell leaf (Z.of_nat (snd hit))).

(** * Many keys in one pass *)
Section many.
Context {S : Type} (f : S → Z → option LeafCell → Res BTreeError S).

(** One answered key. *)
Definition probe (leaf : LeafPage) (st : S) (k : Z) : Res BTreeError S :=
  hit ← from_page (search leaf k);
  match hit with
  | Hit i => c ← from_page (cell leaf (Z.of_nat i)); f st k (Some c)
  | Miss _ => f st k None
  end.

(** The inner [loop]: the key at hand, then the next ones while they fall inside this leaf. *)
Fixpoint probe_run (leaf : LeafPage) (last : option Z) (st : S) (k : Z) (rest : list Z) : Res BTreeError (S * list Z) :=
  st ← probe leaf st k;
  match rest with
  | [] => Ok (st, [])
  | k' :: rest' =>
      if match last with None => true | Some l => l <? k' end then Ok (st, rest) else probe_run leaf last st k' rest'
  end.

(** The outer [while]: every descent answers at least one key. *)
Fixpoint find_many_loop (fuel : nat) (pager : P) (root : Z) (keys : list Z) (st : S) : Res BTreeError S :=
  match keys, fuel with
  | [], _ => Ok st
  | _, O => Panic
  | k :: rest, Datatypes.S fuel' =>
      no ← leaf_for pager root k;
      page ← from_store (pager_read pager no);
      leaf ← from_page (leaf_parse page);
      last ← (if lp_count leaf =? 0 then Ok None else c ← from_page (cell leaf (lp_count leaf - 1)); Ok (Some (lc_key c)));
      '(st, rest) ← probe_run leaf last st k rest;
      find_many_loop fuel' pager root rest st
  end.
Definition find_many (pager : P) (root : Z) (keys : list Z) (st : S) : Res BTreeError S :=
  find_many_loop (length keys) pager root keys st.
End many.

(** * Scanning a range *)
Section scan.
Context {S : Type} (f : S → LeafCell → S * bool).

(** [for i in start..leaf.len()]; the flag is [ControlFlow::Break]. *)
Fixpoint scan_cells (leaf : LeafPage) (ix : list Z) (hi : Z) (st : S) : Res BTreeError (S * bool) :=
  match ix with
  | [] => Ok (st, false)
  | i :: ix' =>
      c ← from_page (cell leaf i);
      if hi <? lc_key c then Ok (st, true)
      else let '(st, brk) := f st c in if brk then Ok (st, true) else scan_cells leaf ix' hi st
  end.

(** [for i in 0..br.len()], [walk] being the recursive call. *)
Fixpoint scan_children (walk : Z → S → Res BTreeError (S * bool)) (br : BranchPage) (ix : list Z) (lo hi : Z) (st : S)
    : Res BTreeError (S * bool) :=
  match ix with
  | [] => Ok (st, false)
  | i :: ix' =>
      c ← from_page (branch_cell_unwrap br i);
      next ← from_page (branch_cell br (i + 1));
      if match next with Some n => bc_key n <=? lo | None => false end then scan_children walk br ix' lo hi st
      else if hi <? bc_key c then Ok (st, false)
      else
        r ← walk (bc_child c) st;
        let '(st, brk) := (r : S * bool) in
        if brk then Ok (st, true) else scan_children walk br ix' lo hi st
  end.

Fixpoint walk (left : nat) (pager : P) (lo hi : Z) (no : Z) (st : S) : Res BTreeError (S * bool) :=
  match left with
  | O => Err (BTooDeep no)
  | Datatypes.S left' =>
      page ← from_store (pager_read pager no);
      kind ← page_kind page;
      match kind with
      | PLeaf =>
          leaf ← from_page (leaf_parse page);
          hit ← from_page (search leaf lo);
          let start := match hit with Hit i | Miss i => Z.of_nat i end in
          scan_cells leaf (seqZ start (lp_count leaf - start)) hi st
      | PBranch =>
          br ← from_page (branch_parse page);
          scan_children (walk left' pager lo hi) br (seqZ 0 (bp_count br)) lo hi st
      | other => Err (BUnexpectedPage no other)
      end
  end.
Definition scan (pager : P) (root lo hi : Z) (st : S) : Res BTreeError S :=
  '(st, _) ← walk MAX_DEPTH pager lo hi root st; Ok st.
End scan.

Definition count (pager : P) (root : Z) : Res BTreeError Z :=
  scan (λ total c, ((total + lc_cardinality c) mod 2 ^ 64, false)) pager root 0 u64_max 0.

Definition collect (pager : P) (root : Z) : Res BTreeError (list LeafItem) :=
  scan (λ out c, (out ++ [from_cell c], false)) pager root 0 u64_max [].
End read.

(** * What a tree stands for *)
Section trees.
Context {P : Type} `{!Pager P}.

Definition node_leaf (pager : P) (no : Z) (cells : list LeafCell) : Prop :=
  ∃ page l, pager_read pager no = Ok page ∧ page_ok page ∧ page_type page = Ok PLeaf ∧
    leaf_parse page = Ok l ∧ leaf_cells l = Ok cells.

Definition node_branch (pager : P) (no : Z) (cells : list BranchCell) : Prop :=
  ∃ page b, pager_read pager no = Ok page ∧ page_ok page ∧ page_type page = Ok PBranch ∧
    branch_parse page = Ok b ∧ branch_cells b = Ok cells.

(** A tree of height [h] under [no].  A branch names each child by the first key below it. *)
Fixpoint tree_at (pager : P) (h : nat) (no : Z) (cells : list LeafCell) : Prop :=
  match h with
  | O => node_leaf pager no cells
  | S h' => ∃ bs css, node_branch pager no bs ∧ bs ≠ [] ∧ cells = concat css ∧
      Forall2 (λ b cs, lc_key <$> head cs = Some (bc_key b) ∧ tree_at pager h' (bc_child b) cs) bs css
  end.

Definition in_order (cells : list LeafCell) : Prop := StronglySorted (λ a b, lc_key a < lc_key b) cells.

(** The cell with a key. *)
Definition cell_of (cells : list LeafCell) (k : Z) : option LeafCell := List.find (λ c, lc_key c =? k) cells.
End trees.

Lemma in_order_lookup cells i j a b :
  in_order cells → (i < j)%nat → cells !! i = Some a → cells !! j = Some b → lc_key a < lc_key b.
Proof.
  intros Hs Hij Ha Hb. apply (ascending_lookup_lt (lc_key <$> cells) i j);
    [|rewrite list_lookup_fmap; by simplify_option_eq..|done].
  apply (StronglySorted_fmap _ (λ a b, lc_key a < lc_key b)); done.
Qed.

Lemma in_order_app a b : in_order (a ++ b) → in_order a ∧ in_order b ∧ ∀ x y, x ∈ a → y ∈ b → lc_key x < lc_key y.
Proof.
  unfold in_order. rewrite StronglySorted_app. tauto.
Qed.

Lemma cell_of_app a b k : cell_of (a ++ b) k = match cell_of a k with Some c => Some c | None => cell_of b k end.
Proof. apply find_app. Qed.

Lemma cell_of_none cells k : (∀ c, c ∈ cells → lc_key c ≠ k) → cell_of cells k = None.
Proof. intros H. apply find_absent. intros c Hc. apply Z.eqb_neq. by apply H. Qed.

Lemma cell_of_lookup cells i c k : in_order cells → cells !! i = Some c → lc_key c = k → cell_of cells k = Some c.
Proof.
  intros Hs Hi <-. rewrite <-(take_drop_middle cells i c Hi), cell_of_app. rewrite cell_of_none.
  - cbn. by rewrite Z.eqb_refl.
  - intros d Hd. apply list_elem_of_lookup in Hd as [j Hj]. apply lookup_take_Some in Hj as [Hj Hlt].
    pose proof (in_order_lookup _ _ _ _ _ Hs Hlt Hj Hi). lia.
Qed.

(** * One leaf *)
Section leaf.
Context (page : Page) (l : LeafPage) (cells : list LeafCell).
Hypothesis (Hok : page_ok page) (Hl : leaf_parse page = Ok l) (Hc : leaf_cells l = Ok cells) (Hs : in_order cells).

Lemma leaf_count_nonneg : 0 <= lp_count l.
Proof.
  unfold leaf_parse in Hl. apply bind_ok in Hl as ([count start] & Hv & Heq).
  apply validate_cell_index_spec in Hv as (_ & Hcc & _). injection Heq as <-. cbn.
  eapply rd_bound in Hcc; [lia|apply Hok].
Qed.

Lemma leaf_cell_lookup i c : cells !! i = Some c → cell l (Z.of_nat i) = Ok c.
Proof.
  intros Hi. unfold leaf_cells, indices in Hc. apply res_mapM_ok in Hc.
  destruct (Forall2_lookup_r _ _ _ _ _ Hc Hi) as (j & Hj & H). apply lookup_seqZ in Hj as [-> _]. by rewrite Z.add_0_l in H.
Qed.

Lemma leaf_cells_length : Z.of_nat (length cells) = lp_count l.
Proof.
  pose proof leaf_count_nonneg. pose proof Hc as H1. unfold leaf_cells, indices in H1.
  apply res_mapM_ok, Forall2_length in H1. rewrite length_seqZ in H1. lia.
Qed.

Lemma cell_key_at i c : cell l i = Ok c → key_at l i = Ok (Some (lc_key c)).
Proof.
  unfold cell, key_at. destruct (Z.leb_spec (lp_count l) i); [done|]. rewrite (proj2 (Z.ltb_lt _ _)) by done.
  intros H1. apply bind_ok in H1 as (base & -> & H1). cbn [mbind Res_bind]. rewrite Z.add_0_r.
  do 3 (apply bind_ok in H1 as (? & _ & H1)). case_match; [done|]. apply bind_ok in H1 as (k & Hk & H1).
  rewrite Hk. cbn [mbind Res_bind]. do 4 (apply bind_ok in H1 as (? & _ & H1)). by injection H1 as <-.
Qed.

(** [search] on the cells of a leaf. *)
Lemma leaf_search k :
  ∃ r, search l k = Ok r ∧
    match r with
    | Hit i => ∃ c, cells !! i = Some c ∧ lc_key c = k
    | Miss i => (i <= length cells)%nat ∧ (∀ j c, (j < i)%nat → cells !! j = Some c → lc_key c < k) ∧
                (∀ j c, (i <= j)%nat → cells !! j = Some c → k < lc_key c)
    end.
Proof.
  pose proof leaf_cells_length as Hlen. rewrite (search_bisect page l Hok Hl). eexists. split; [done|].
  replace (Z.to_nat (lp_count l)) with (length cells) by lia.
  assert (∀ i c, cells !! i = Some c → leaf_keys l i = lc_key c) as Hk.
  { intros i c Hi. unfold leaf_keys. by rewrite (cell_key_at _ _ (leaf_cell_lookup _ _ Hi)). }
  assert (∀ i, (i < length cells)%nat → ∃ c, cells !! i = Some c ∧ leaf_keys l i = lc_key c) as Hk'.
  { intros i Hi. destruct (lookup_lt_is_Some_2 _ _ Hi) as [c Hci]. eauto. }
  assert (bisectable (λ i, leaf_keys l i ?= k) (length cells)) as Hbis.
  { intros i j Hij Hj. destruct (Hk' i ltac:(lia)) as (a & Ha & ->), (Hk' j Hj) as (b & Hb' & ->).
    pose proof (in_order_lookup _ _ _ _ _ Hs Hij Ha Hb'). rewrite Z.compare_lt_iff, Z.compare_gt_iff. lia. }
  pose proof (bisect_spec _ _ (S (length cells)) 0 (length cells) Hbis ltac:(lia) ltac:(lia) ltac:(lia) ltac:(lia) ltac:(lia)) as Hb.
  destruct (bisect _ _ _ _) as [i|i].
  - destruct Hb as [Hi He]. destruct (Hk' i Hi) as (c & Hci & Hkc). exists c. split; [done|]. apply Z.compare_eq in He. lia.
  - destruct Hb as (Hi & Hlo & Hhi). split; [lia|]. split.
    + intros j c Hj Hcj. specialize (Hlo j Hj). rewrite (Hk _ _ Hcj) in Hlo. by apply Z.compare_lt_iff in Hlo.
    + intros j c Hj Hcj. specialize (Hhi j Hj (lookup_lt_Some _ _ _ Hcj)). rewrite (Hk _ _ Hcj) in Hhi. by apply Z.compare_gt_iff in Hhi.
Qed.

Lemma leaf_search_cell k :
  ∃ r, search l k = Ok r ∧
    match r with
    | Hit i => ∃ c, cell l (Z.of_nat i) = Ok c ∧ cell_of cells k = Some c
    | Miss _ => cell_of cells k = None
    end.
Proof.
  destruct (leaf_search k) as (r & Hr & Hm). exists r. split; [done|]. destruct r as [i|i].
  - destruct Hm as (c & Hi & Hk). exists c. split; [by apply leaf_cell_lookup|by eapply cell_of_lookup].
  - destruct Hm as (_ & Hlo & Hhi). apply cell_of_none. intros c Hin He. apply list_elem_of_lookup in Hin as [j Hj].
    destruct (decide (j < i)%nat) as [Hlt|Hge]; [specialize (Hlo _ _ Hlt Hj)|specialize (Hhi j c ltac:(lia) Hj)]; lia.
Qed.
End leaf.

(** * Descent *)
Lemma first_key_lt (css : list (list LeafCell)) (bs : list BranchCell) R :
  Forall2 (λ b cs, lc_key <$> head cs = Some (bc_key b) ∧ R b cs) bs css → in_order (concat css) →
  StronglySorted (λ a b, bc_key a < bc_key b) bs.
Proof.
  induction 1 as [|b cs bs css [Hb _] H IH]; intros Hs; [constructor|]. cbn [concat] in Hs.
  apply in_order_app in Hs as (_ & Hs & Hlt). constructor; [by apply IH|]. apply Forall_forall. intros b' Hb'.
  apply list_elem_of_lookup in Hb' as [i Hi]. destruct (Forall2_lookup_l _ _ _ _ _ H Hi) as (cs' & Hcs & Hh & _).
  destruct cs as [|x cs]; [done|]. destruct cs' as [|y cs']; [done|]. cbn in Hb, Hh. simplify_eq.
  rewrite <-Hb, <-Hh. apply Hlt; [by left|]. apply list_elem_of_In, in_concat. exists (y :: cs').
  split; apply list_elem_of_In; [by eapply list_elem_of_lookup_2|by left].
Qed.

(** Where a separator sits among the cells: everything before it is smaller, everything from it on
    is at least as large. *)
Lemma separator_split (css : list (list LeafCell)) (bs : list BranchCell) R i b cs :
  Forall2 (λ b cs, lc_key <$> head cs = Some (bc_key b) ∧ R b cs) bs css → in_order (concat css) →
  bs !! i = Some b → css !! i = Some cs →
  (∀ c, c ∈ concat (take i css) → lc_key c < bc_key b) ∧ (∀ c, c ∈ concat (drop i css) → bc_key b <= lc_key c).
Proof.
  intros HF Hs Hb Hcs. destruct (Forall2_lookup_lr _ _ _ _ _ _ HF Hb Hcs) as [Hh _].
  destruct cs as [|x cs]; [done|]. cbn in Hh. injection Hh as Hh.
  rewrite <-(take_drop i css), concat_app in Hs. apply in_order_app in Hs as (_ & Hs2 & Hlt).
  rewrite (drop_S _ _ _ Hcs) in *. cbn [concat app] in *. split.
  - intros c Hc. rewrite <-Hh. apply Hlt; [done|by left].
  - intros c [->|Hc]%elem_of_cons; [lia|]. apply StronglySorted_inv in Hs2 as [_ Hf]. rewrite Forall_forall in Hf.
    specialize (Hf c Hc). simpl in Hf. lia.
Qed.

Section descent.
Context {P : Type} `{!Pager P}.

(** The child a branch sends [ckey] to. *)
Definition route (bs : list BranchCell) (ckey : Z) : nat := Nat.pred (length (upto ckey bs)).

Lemma route_spec bs ckey :
  bs ≠ [] → StronglySorted (λ a b, bc_key a < bc_key b) bs →
  ∃ b, bs !! route bs ckey = Some b ∧
    (bc_child <$> last (upto ckey bs) = Some (bc_child b) ∨ (upto ckey bs = [] ∧ route bs ckey = 0%nat)) ∧
    (route bs ckey = 0%nat ∨ bc_key b <= ckey) ∧ (∀ j c, (route bs ckey < j)%nat → bs !! j = Some c → ckey < bc_key c).
Proof.
  intros Hne Hs. unfold route.
  assert (∃ k, (k <= length bs)%nat ∧ upto ckey bs = take k bs ∧ (∀ j c, (k <= j)%nat → bs !! j = Some c → ckey < bc_key c) ∧
    (∀ j c, (j < k)%nat → bs !! j = Some c → bc_key c <= ckey)) as (k & Hk & Hu & Hhi & Hlo).
  { clear Hne. induction Hs as [|b bs Hs IH Hb]; [exists 0%nat; split_and!; [lia|done| |]; intros j c _ Hj; by rewrite lookup_nil in Hj|].
    unfold upto in *. cbn [List.filter]. destruct (Z.leb_spec (bc_key b) ckey) as [Hle|Hgt].
    - destruct IH as (k & Hk & Hu & Hhi & Hlo). exists (S k). cbn [take length]. rewrite Hu. split_and!; [lia|done| |].
      + intros [|j] c Hj Hc; [lia|]. cbn in Hc. apply (Hhi j); [lia|done].
      + intros [|j] c Hj Hc; cbn in Hc; [by simplify_eq|]. apply (Hlo j); [lia|done].
    - exists 0%nat. assert (List.filter (λ c, bc_key c <=? ckey) bs = []) as ->.
      { apply List.incl_l_nil. intros c [Hc Hle]%filter_In. rewrite Forall_forall in Hb. specialize (Hb c (proj2 (list_elem_of_In _ _) Hc)). simpl in Hb. lia. }
      split_and!; [cbn; lia|done| |lia]. intros [|j] c _ Hc; cbn in Hc; [by simplify_eq|].
      rewrite Forall_forall in Hb. specialize (Hb c (list_elem_of_lookup_2 _ _ _ Hc)). simpl in Hb. lia. }
  rewrite Hu, length_take. replace (k `min` length bs)%nat with k by lia. destruct k as [|k]; cbn [Nat.pred].
  - destruct bs as [|b bs]; [done|]. exists b. cbn. split_and!; [done|by right|by left|]. intros j c Hj Hc. apply (Hhi j); [lia|done].
  - destruct (lookup_lt_is_Some_2 bs k) as [b Hb]; [lia|]. exists b. rewrite (take_S_r _ _ _ Hb), last_snoc.
    split_and!; [done|by left|right; by apply (Hlo k); [lia|]|]. intros j c Hj Hc. apply (Hhi j); [lia|done].
Qed.

(** One branch of the descent. *)
Lemma route_child page b bs ckey :
  page_ok page → branch_parse page = Ok b → branch_cells b = Ok bs → bs ≠ [] → StronglySorted (λ a b, bc_key a < bc_key b) bs →
  ∃ c, bs !! route bs ckey = Some c ∧
    (child ← from_page (child_for b ckey);
     match child with Some c => Ok (Some c) | None => first ← from_page (branch_cell b 0); Ok (option_map bc_child first) end) = Ok (Some (bc_child c)).
Proof.
  intros Hok Hb Hbs Hne Hs. destruct (route_spec bs ckey Hne Hs) as (c & Hc & Hch & _). exists c. split; [done|].
  rewrite (child_for_upto page b Hok Hb bs Hbs ckey Hs). cbn [from_page map_err mbind Res_bind].
  destruct Hch as [->|[Hu H0]]; [done|]. rewrite Hu. cbn. rewrite H0 in Hc.
  pose proof (branch_cell_lookup b bs Hbs 0 c Hc) as Hl. unfold branch_cell_unwrap in Hl.
  apply bind_ok in Hl as (o & Ho & Hun). change (Z.of_nat 0) with 0 in Ho. rewrite Ho. cbn. destruct o as [d|]; cbn in Hun; [by injection Hun as <-|done].
Qed.

(** Descent ends on the leaf whose cells are the ones around the key. *)
Lemma leaf_for_loop_ok h left pager root no ckey cells :
  tree_at pager h no cells → in_order cells → (h < left)%nat →
  ∃ leaf pre mid post, leaf_for_loop left pager root no ckey = Ok leaf ∧ node_leaf pager leaf mid ∧
    cells = pre ++ mid ++ post ∧ (∀ c, c ∈ pre → lc_key c < ckey) ∧ (∀ c, c ∈ post → ckey < lc_key c).
Proof.
  revert left no cells. induction h as [|h IH]; intros left no cells Ht Hs Hlt; (destruct left as [|left]; [lia|]); cbn [leaf_for_loop].
  - pose proof Ht as (page & l & Hr & Hok & Hty & Hl & Hc). rewrite Hr. cbn [from_store map_err mbind Res_bind].
    unfold page_kind. rewrite Hty. cbn [from_page map_err mbind Res_bind].
    exists no, [], cells, []. split_and!; [done|done|by rewrite app_nil_r|by intros ? ?%not_elem_of_nil..].
  - destruct Ht as (bs & css & (page & b & Hr & Hok & Hty & Hb & Hbs) & Hne & -> & HF).
    pose proof (first_key_lt _ _ _ HF Hs) as Hsorted.
    rewrite Hr. cbn [from_store map_err mbind Res_bind]. unfold page_kind. rewrite Hty. cbn [from_page map_err mbind Res_bind].
    rewrite Hb. cbn [from_page map_err mbind Res_bind].
    destruct (route_child page b bs ckey Hok Hb Hbs Hne Hsorted) as (c & Hc & Hch). apply bind_ok in Hch as (o & Ho & Hch).
    rewrite Ho. cbn [mbind Res_bind]. rewrite Hch. cbn [ok_or mbind Res_bind].
    destruct (route_spec bs ckey Hne Hsorted) as (c' & Hc' & _ & Hlow & Hhigh). rewrite Hc in Hc'. injection Hc' as <-.
    set (i := route bs ckey) in *. destruct (Forall2_lookup_l _ _ _ _ _ HF Hc) as (cs & Hcs & _ & Htree).
    pose proof Hs as Hs'. rewrite <-(take_drop_middle css i cs Hcs), concat_app in Hs'. cbn [concat] in Hs'.
    apply in_order_app in Hs' as (_ & Hs' & _). apply in_order_app in Hs' as (Hs' & _ & _).
    destruct (IH left (bc_child c) cs Htree Hs' ltac:(lia)) as (leaf & pre & mid & post & -> & Hleaf & -> & Hpre & Hpost).
    exists leaf, (concat (take i css) ++ pre), mid, (post ++ concat (drop (S i) css)). split_and!; [done|done| | |].
    + rewrite <-(take_drop_middle css i _ Hcs) at 1. rewrite concat_app. cbn [concat]. by rewrite <-!app_assoc.
    + intros x [Hx|Hx]%elem_of_app; [|by apply Hpre]. destruct (separator_split _ _ _ _ _ _ HF Hs Hc Hcs) as [Hsep _].
      destruct Hlow as [H0|Hle]; [|specialize (Hsep x Hx); lia]. rewrite H0 in Hx. cbn in Hx. by apply not_elem_of_nil in Hx.
    + intros x [Hx|Hx]%elem_of_app; [by apply Hpost|].
      destruct (bs !! S i) as [d|] eqn:Hd.
      * destruct (Forall2_lookup_l _ _ _ _ _ HF Hd) as (cd & Hcd & _). destruct (separator_split _ _ _ _ _ _ HF Hs Hd Hcd) as [_ Hsep].
        specialize (Hsep x Hx). specialize (Hhigh (S i) d ltac:(lia) Hd). lia.
      * apply lookup_ge_None in Hd. apply Forall2_length in HF. rewrite drop_ge in Hx by lia. by apply not_elem_of_nil in Hx.
Qed.

Lemma find_ok pager h root ckey cells :
  tree_at pager h root cells → in_order cells → (h < MAX_DEPTH)%nat →
  ∃ r, find pager root ckey = Ok r ∧
    match cell_of cells ckey with Some c => ∃ hit, r = Some hit ∧ found_cell hit = Ok c | None => r = None end.
Proof.
  intros Ht Hs Hh. unfold find, leaf_for.
  destruct (leaf_for_loop_ok h MAX_DEPTH pager root root ckey cells Ht Hs Hh) as (leaf & pre & mid & post & -> & Hleaf & -> & Hpre & Hpost).
  cbn [mbind Res_bind]. destruct Hleaf as (page & l & -> & Hok & Hty & Hl & Hc). cbn [from_store map_err mbind Res_bind].
  rewrite Hl. cbn [from_page map_err mbind Res_bind].
  apply in_order_app in Hs as (_ & Hs & _). apply in_order_app in Hs as (Hs & _ & _).
  rewrite !cell_of_app, (cell_of_none pre), (cell_of_none post) by (intros c Hin; first [specialize (Hpre c Hin)|specialize (Hpost c Hin)]; lia).
  destruct (leaf_search_cell page l mid Hok Hl Hc Hs ckey) as (r & -> & Hr). cbn [from_page map_err mbind Res_bind].
  destruct r as [i|i].
  - destruct Hr as (c & Hi & ->). eexists. split; [done|]. exists (page, i). split; [done|].
    unfold found_cell. cbn [fst snd]. rewrite Hl. cbn [from_page map_err mbind Res_bind]. by rewrite Hi.
  - rewrite Hr. eauto.
Qed.
End descent.

(** * Probing many keys answers each of them *)
Section many_ok.
Context {P : Type} `{!Pager P} {S : Type} (f : S → Z → option LeafCell → Res BTreeError S).

(** What the callbacks see when each key is looked up on its own. *)
Fixpoint answer (cells : list LeafCell) (st : S) (keys : list Z) : Res BTreeError S :=
  match keys with
  | [] => Ok st
  | k :: keys' => st ← f st k (cell_of cells k); answer cells st keys'
  end.

Lemma answer_app cells st a b : answer cells st (a ++ b) = (st ← answer cells st a; answer cells st b).
Proof. revert st. induction a as [|k a IH]; intros st; [done|]. cbn. destruct (f st k _); cbn; [apply IH|done..]. Qed.

Context (page : Page) (l : LeafPage) (pre mid post : list LeafCell).
Hypothesis (Hok : page_ok page) (Hl : leaf_parse page = Ok l) (Hc : leaf_cells l = Ok mid) (Hs : in_order (pre ++ mid ++ post)).

Lemma mid_cell k :
  (∀ c, c ∈ pre → lc_key c < k) → (∀ c, c ∈ post → k < lc_key c) → cell_of (pre ++ mid ++ post) k = cell_of mid k.
Proof.
  intros Hpre Hpost. rewrite !cell_of_app, (cell_of_none pre), (cell_of_none post)
    by (intros c Hin; first [specialize (Hpre c Hin)|specialize (Hpost c Hin)]; lia).
  by destruct (cell_of mid k).
Qed.

Lemma probe_ok st k :
  (∀ c, c ∈ pre → lc_key c < k) → (∀ c, c ∈ post → k < lc_key c) →
  probe f l st k = f st k (cell_of (pre ++ mid ++ post) k).
Proof.
  intros Hpre Hpost. rewrite mid_cell by done. unfold probe.
  apply in_order_app in Hs as (_ & Hs1 & _). apply in_order_app in Hs1 as (Hs1 & _ & _).
  destruct (leaf_search_cell page l mid Hok Hl Hc Hs1 k) as (r & -> & Hr). cbn [from_page map_err mbind Res_bind]. destruct r as [i|i].
  - destruct Hr as (c & -> & ->). done.
  - by rewrite Hr.
Qed.

Lemma probe_run_ok k rest :
  ascending (k :: rest) → (∀ c, c ∈ pre → lc_key c < k) → (∀ c, c ∈ post → k < lc_key c) →
  ∃ now later, k :: rest = now ++ later ∧ (length later <= length rest)%nat ∧
    ∀ st, probe_run f l (lc_key <$> last mid) st k rest = (st ← answer (pre ++ mid ++ post) st now; Ok (st, later)).
Proof.
  revert k. induction rest as [|k' rest IH]; intros k Ha Hpre Hpost.
  { exists [k], []. split_and!; [done|done|]. intros st. cbn [probe_run answer]. rewrite probe_ok by done. by destruct (f st k _). }
  apply StronglySorted_inv in Ha as [Ha Hk]. apply Forall_cons in Hk as [Hk _].
  destruct (match lc_key <$> last mid with None => true | Some z => z <? k' end) eqn:Hstop.
  { exists [k], (k' :: rest). split_and!; [done|done|]. intros st. cbn [probe_run answer]. rewrite probe_ok, Hstop by done. by destruct (f st k _). }
  destruct (last mid) as [x|] eqn:Hlast; [|done]. cbn in Hstop. apply Z.ltb_ge in Hstop.
  destruct (IH k' Ha) as (now & later & He & Hlen & Hrun).
  - intros c Hin. specialize (Hpre c Hin). lia.
  - intros c Hin. apply in_order_app in Hs as (_ & Hs1 & _). apply in_order_app in Hs1 as (_ & _ & Hlt).
    apply last_Some in Hlast as [mid' ->]. specialize (Hlt x c ltac:(apply elem_of_app; right; by left) Hin). lia.
  - exists (k :: now), later. split_and!; [by rewrite He|cbn; lia|]. intros st. cbn [probe_run]. rewrite probe_ok by done.
    cbn [fmap option_fmap option_map] in *. rewrite (proj2 (Z.ltb_ge _ _) Hstop). cbn [answer].
    destruct (f st k _); cbn [mbind Res_bind]; [apply Hrun|done..].
Qed.
End many_ok.

Section many_tree.
Context {P : Type} `{!Pager P} {S : Type} (f : S → Z → option LeafCell → Res BTreeError S).

Lemma last_cell page l cells :
  page_ok page → leaf_parse page = Ok l → leaf_cells l = Ok cells →
  (if lp_count l =? 0 then Ok None else c ← from_page (cell l (lp_count l - 1)); Ok (Some (lc_key c))) = Ok (lc_key <$> last cells).
Proof.
  intros Hok Hl Hc. pose proof (leaf_cells_length page l cells Hok Hl Hc) as Hlen.
  destruct (Z.eqb_spec (lp_count l) 0) as [H0|H0]; [destruct cells; [done|cbn in Hlen; lia]|].
  destruct (last cells) as [c|] eqn:Hlast; [|apply last_None in Hlast as ->; cbn in Hlen; lia].
  apply last_Some in Hlast as [pre ->]. rewrite length_app in Hlen. cbn in Hlen.
  replace (lp_count l - 1) with (Z.of_nat (length pre)) by lia.
  by rewrite (leaf_cell_lookup l (pre ++ [c]) Hc (length pre) c) by (by rewrite lookup_app_r, Nat.sub_diag by lia).
Qed.

Lemma find_many_ok pager h root cells keys st :
  tree_at pager h root cells → in_order cells → (h < MAX_DEPTH)%nat → ascending keys →
  find_many f pager root keys st = answer f cells st keys.
Proof.
  intros Ht Hs Hh. unfold find_many. assert (length keys <= length keys)%nat as Hlen by lia. revert Hlen.
  generalize (length keys) at 2 3. intros fuel. revert keys st.
  induction fuel as [|fuel IH]; intros [|k rest] st Hlen Ha; try done; [cbn in Hlen; lia|].
  cbn [find_many_loop]. unfold leaf_for.
  destruct (leaf_for_loop_ok h MAX_DEPTH pager root root k cells Ht Hs Hh) as (leaf & pre & mid & post & -> & Hleaf & -> & Hpre & Hpost).
  cbn [mbind Res_bind]. destruct Hleaf as (page & l & -> & Hok & Hty & Hl & Hc). cbn [from_store map_err mbind Res_bind].
  rewrite Hl. cbn [from_page map_err mbind Res_bind]. rewrite (last_cell page l mid) by done. cbn [mbind Res_bind].
  destruct (probe_run_ok f page l pre mid post Hok Hl Hc Hs k rest Ha Hpre Hpost) as (now & later & He & Hlat & ->).
  rewrite He, answer_app. destruct (answer f (pre ++ mid ++ post) st now) as [st'| |]; cbn [mbind Res_bind]; [|done..].
  apply IH; [cbn in Hlen; lia|]. rewrite He in Ha. by apply StronglySorted_app in Ha as (_ & _ & ?).
Qed.
End many_tree.

(** * A scan visits the cells of the range, in order *)
Definition in_range (lo hi : Z) (cells : list LeafCell) : list LeafCell :=
  List.filter (λ c, (lo <=? lc_key c) && (lc_key c <=? hi)) cells.

Lemma in_range_app lo hi a b : in_range lo hi (a ++ b) = in_range lo hi a ++ in_range lo hi b.
Proof. apply List.filter_app. Qed.

Lemma in_range_none lo hi cells : (∀ c, c ∈ cells → lc_key c < lo ∨ hi < lc_key c) → in_range lo hi cells = [].
Proof.
  intros H. apply List.incl_l_nil. intros c [Hc He]%filter_In. specialize (H c (proj2 (list_elem_of_In _ _) Hc)). lia.
Qed.

Section scan_ok.
Context {P : Type} `{!Pager P} {S : Type} (f : S → LeafCell → S * bool).

Fixpoint visit (st : S) (cells : list LeafCell) : S * bool :=
  match cells with
  | [] => (st, false)
  | c :: cells' => let '(st, brk) := f st c in if brk then (st, true) else visit st cells'
  end.

Lemma visit_app st a b : visit st (a ++ b) = let '(st, brk) := visit st a in if brk then (st, true) else visit st b.
Proof.
  revert st. induction a as [|c a IH]; intros st; [done|]. cbn. destruct (f st c) as [st' []]; [done|]. apply IH.
Qed.

(** The result of a walk over [cells]: a break means that nothing further can be in range. *)
Definition walked (lo hi : Z) (st : S) (cells : list LeafCell) (r : Res BTreeError (S * bool)) : Prop :=
  ∃ st' brk, r = Ok (st', brk) ∧ st' = fst (visit st (in_range lo hi cells)) ∧
    (brk = false → snd (visit st (in_range lo hi cells)) = false) ∧
    (brk = true → snd (visit st (in_range lo hi cells)) = true ∨ ∃ c, c ∈ cells ∧ hi < lc_key c).

Lemma scan_cells_ok l cells hi lo :
  in_order cells → (∀ c, c ∈ cells → lo <= lc_key c) →
  ∀ (i : nat) st, (∀ j c, cells !! j = Some c → cell l (Z.of_nat (i + j)) = Ok c) →
  walked lo hi st cells (scan_cells f l (seqZ (Z.of_nat i) (Z.of_nat (length cells))) hi st).
Proof.
  intros Hs. induction cells as [|c cells IH]; intros Hlo i st Hc.
  { cbn. exists st, false. split_and!; done. }
  cbn [length]. rewrite seqZ_cons by lia. cbn [scan_cells]. pose proof (Hc 0%nat c eq_refl) as H0. rewrite Nat.add_0_r in H0.
  rewrite H0. cbn [from_page map_err mbind Res_bind]. apply StronglySorted_inv in Hs as [Hs Hf].
  pose proof (Hlo c ltac:(by left)) as Hlc. destruct (Z.ltb_spec hi (lc_key c)) as [Hgt|Hle].
  - exists st, true. rewrite in_range_none.
    2:{ intros d [->|Hd]%elem_of_cons; [lia|]. rewrite Forall_forall in Hf. specialize (Hf d Hd). simpl in Hf. lia. }
    split_and!; [done|done|done|]. intros _. right. exists c. split; [by left|done].
  - unfold walked, in_range. cbn [List.filter]. rewrite (proj2 (Z.leb_le _ _) Hlc), (proj2 (Z.leb_le _ _) Hle). cbn [andb visit].
    destruct (f st c) as [st1 []]; [exists st1, true; split_and!; try done; by left|].
    replace (Z.succ (Z.of_nat i)) with (Z.of_nat (i + 1)) by lia. replace (Z.pred (Z.of_nat (Datatypes.S (length cells)))) with (Z.of_nat (length cells)) by lia.
    destruct (IH Hs ltac:(intros d Hd; apply Hlo; by right) (i + 1)%nat st1) as (st' & brk & -> & Hst & Hf' & Ht').
    { intros j d Hj. replace (i + 1 + j)%nat with (i + Datatypes.S j)%nat by lia. by apply Hc. }
    exists st', brk. split_and!; try done. intros Hb. destruct (Ht' Hb) as [?|(d & Hd & ?)]; [by left|right]. exists d. split; [by right|done].
Qed.

(** The part of a leaf from the insertion point of [lo] on. *)
Lemma leaf_from page l cells lo :
  page_ok page → leaf_parse page = Ok l → leaf_cells l = Ok cells → in_order cells →
  ∃ r, search l lo = Ok r ∧ let i := match r with Hit i | Miss i => i end in
    (i <= length cells)%nat ∧ (∀ c, c ∈ take i cells → lc_key c < lo) ∧ (∀ c, c ∈ drop i cells → lo <= lc_key c).
Proof.
  intros Hok Hl Hc Hs. destruct (leaf_search page l cells Hok Hl Hc Hs lo) as (r & Hr & Hm). exists r. split; [done|].
  destruct r as [i|i]; cbn zeta.
  - destruct Hm as (c & Hi & Hk). pose proof (lookup_lt_Some _ _ _ Hi). split_and!; [lia| |].
    + intros d Hd. apply list_elem_of_lookup in Hd as [j Hj]. apply lookup_take_Some in Hj as [Hj Hlt].
      pose proof (in_order_lookup _ _ _ _ _ Hs Hlt Hj Hi). lia.
    + intros d Hd. apply list_elem_of_lookup in Hd as [j Hj]. rewrite lookup_drop in Hj.
      destruct (decide (j = 0)%nat) as [->|]; [rewrite Nat.add_0_r in Hj; simplify_eq; lia|].
      pose proof (in_order_lookup cells i (i + j) _ _ Hs ltac:(lia) Hi Hj). lia.
  - destruct Hm as (Hi & Hlo & Hhi). split_and!; [done| |].
    + intros d Hd. apply list_elem_of_lookup in Hd as [j Hj]. apply lookup_take_Some in Hj as [Hj Hlt]. by eapply Hlo.
    + intros d Hd. apply list_elem_of_lookup in Hd as [j Hj]. rewrite lookup_drop in Hj. specialize (Hhi (i + j)%nat d ltac:(lia) Hj). lia.
Qed.

Lemma walk_leaf_ok pager left no lo hi st cells :
  node_leaf pager no cells → in_order cells → walked lo hi st cells (walk f (Datatypes.S left) pager lo hi no st).
Proof.
  intros (page & l & Hr & Hok & Hty & Hl & Hc) Hs. cbn [walk]. rewrite Hr. cbn [from_store map_err mbind Res_bind].
  unfold page_kind. rewrite Hty. cbn [from_page map_err mbind Res_bind]. rewrite Hl. cbn [from_page map_err mbind Res_bind].
  destruct (leaf_from page l cells lo Hok Hl Hc Hs) as (r & -> & Hi & Hbef & Haft). cbn [from_page map_err mbind Res_bind].
  pose proof (leaf_cells_length page l cells Hok Hl Hc) as Hlen.
  replace (match r with Hit i | Miss i => Z.of_nat i end) with (Z.of_nat (match r with Hit i | Miss i => i end)) by (by destruct r).
  set (i := match r with Hit i | Miss i => i end) in *.
  replace (lp_count l - Z.of_nat i) with (Z.of_nat (length (drop i cells))) by (rewrite length_drop; lia).
  assert (in_order (drop i cells)) as Hs2.
  { pose proof Hs as Hs'. rewrite <-(take_drop i cells) in Hs'. by apply in_order_app in Hs' as (_ & ? & _). }
  destruct (scan_cells_ok l (drop i cells) hi lo Hs2 Haft i st) as (st' & brk & -> & Hst & Hf & Ht).
  { intros j c Hj. rewrite lookup_drop in Hj. by apply leaf_cell_lookup with cells. }
  assert (in_range lo hi cells = in_range lo hi (drop i cells)) as He.
  { rewrite <-(take_drop i cells) at 1. rewrite in_range_app, (in_range_none _ _ (take i cells)); [done|]. intros c Hin. left. by apply Hbef. }
  exists st', brk. rewrite He. split_and!; try done. intros Hb. destruct (Ht Hb) as [?|(c & Hin & ?)]; [by left|right].
  exists c. split; [|done]. rewrite <-(take_drop i cells). apply elem_of_app. by right.
Qed.

Lemma walked_skip lo hi st a b r : in_range lo hi a = [] → walked lo hi st b r → walked lo hi st (a ++ b) r.
Proof.
  intros Ha (st' & brk & -> & H1 & H2 & H3). exists st', brk. rewrite in_range_app, Ha. cbn [app]. split_and!; try done.
  intros Hb. destruct (H3 Hb) as [?|(c & Hc & ?)]; [by left|right]. exists c. split; [apply elem_of_app; by right|done].
Qed.

Lemma scan_children_ok rec br lo hi bs css i st :
  Forall2 (λ b cs, lc_key <$> head cs = Some (bc_key b) ∧ ∀ st, walked lo hi st cs (rec (bc_child b) st)) bs css →
  in_order (concat css) → (∀ j, (j <= length bs)%nat → branch_cell br (Z.of_nat (i + j)) = Ok (bs !! j)) →
  walked lo hi st (concat css) (scan_children rec br (seqZ (Z.of_nat i) (Z.of_nat (length bs))) lo hi st).
Proof.
  intros HF. revert i st. induction HF as [|b cs bs css [Hb Hrec] HF IH]; intros i st Hs Hcell.
  { cbn. exists st, false. split_and!; done. }
  assert (Forall2 (λ b cs, lc_key <$> head cs = Some (bc_key b) ∧ ∀ st, walked lo hi st cs (rec (bc_child b) st)) (b :: bs) (cs :: css)) as HF'
    by (by constructor).
  cbn [length concat] in *. rewrite seqZ_cons by lia. cbn [scan_children].
  pose proof (Hcell 0%nat ltac:(lia)) as H0. rewrite Nat.add_0_r in H0. change ((b :: bs) !! 0%nat) with (Some b) in H0. unfold branch_cell_unwrap. rewrite H0. cbn [from_page map_err mbind Res_bind unwrap].
  pose proof (Hcell 1%nat ltac:(lia)) as H1. replace (Z.of_nat (i + 1)) with (Z.of_nat i + 1) in H1 by lia. rewrite H1. cbn [from_page map_err mbind Res_bind].
  replace (Z.succ (Z.of_nat i)) with (Z.of_nat (i + 1)) by lia.
  replace (Z.pred (Z.of_nat (Datatypes.S (length bs)))) with (Z.of_nat (length bs)) by lia.
  assert (∀ st, walked lo hi st (concat css) (scan_children rec br (seqZ (Z.of_nat (i + 1)) (Z.of_nat (length bs))) lo hi st)) as Hrest.
  { intros st'. apply IH; [by apply in_order_app in Hs as (_ & ? & _)|]. intros j Hj.
    replace (i + 1 + j)%nat with (i + Datatypes.S j)%nat by lia. by rewrite Hcell by lia. }
  assert (lookup 1%nat (b :: bs) = bs !! 0%nat) as -> by done.
  destruct (match bs !! 0%nat with Some n => bc_key n <=? lo | None => false end) eqn:Hskip.
  - apply walked_skip; [|apply Hrest]. destruct (bs !! 0%nat) as [n|] eqn:Hn; [|done]. apply Z.leb_le in Hskip.
    destruct (Forall2_lookup_l _ _ _ _ _ HF Hn) as (cn & Hcn & _).
    destruct (separator_split (cs :: css) (b :: bs) _ 1 n cn HF' Hs Hn Hcn) as [Hsep _]. cbn [take concat] in Hsep. rewrite take_0, app_nil_r in Hsep.
    apply in_range_none. intros c Hc. left. specialize (Hsep c Hc). lia.
  - destruct (Z.ltb_spec hi (bc_key b)) as [Hgt|Hle].
    + destruct (separator_split (cs :: css) (b :: bs) _ 0 b cs HF' Hs eq_refl eq_refl) as [_ Hsep]. cbn [drop concat] in Hsep.
      exists st, false. assert (in_range lo hi (cs ++ concat css) = []) as ->; [|by split_and!].
      apply in_range_none. intros c Hc. right. specialize (Hsep c Hc). lia.
    + destruct (Hrec st) as (st1 & brk & -> & E1 & E2 & E3). cbn [mbind Res_bind]. destruct brk.
      * exists st1, true. rewrite in_range_app, visit_app. destruct (E3 eq_refl) as [Hv|(c & Hc & Hhi)].
        -- destruct (visit st (in_range lo hi cs)) as [sv bv]. cbn in Hv. subst. cbn. split_and!; try done. by left.
        -- rewrite (in_range_none lo hi (concat css)).
           2:{ intros d Hd. right. apply in_order_app in Hs as (_ & _ & Hlt). specialize (Hlt c d Hc Hd). lia. }
           destruct (visit st (in_range lo hi cs)) as [sv bv]. cbn in E1. subst.
           split_and!; [done|by destruct bv|done|]. intros _. right. exists c. split; [apply elem_of_app; by left|done].
      * destruct (Hrest st1) as (st' & brk & -> & F1 & F2 & F3). exists st', brk. rewrite in_range_app, visit_app.
        specialize (E2 eq_refl). destruct (visit st (in_range lo hi cs)) as [sv bv]. cbn in E1, E2. subst.
        split_and!; try done. intros Hb'. destruct (F3 Hb') as [?|(c & Hc & ?)]; [by left|right]. exists c. split; [apply elem_of_app; by right|done].
Qed.

Lemma branch_cell_at page b bs j :
  page_ok page → branch_parse page = Ok b → branch_cells b = Ok bs → (j <= length bs)%nat →
  branch_cell b (Z.of_nat j) = Ok (bs !! j).
Proof.
  intros Hok Hb Hbs Hj. pose proof (branch_cells_length page b Hok Hb bs Hbs) as Hlen. pose proof (branch_count_nonneg page b Hok Hb).
  destruct (bs !! j) as [c|] eqn:Hc.
  - pose proof (branch_cell_lookup b bs Hbs j c Hc) as H1. unfold branch_cell_unwrap in H1. apply bind_ok in H1 as (o & -> & Ho).
    destruct o; cbn in Ho; by simplify_eq.
  - apply lookup_ge_None in Hc. unfold branch_cell. by rewrite (proj2 (Z.ltb_ge _ _)) by lia.
Qed.

Lemma walk_ok pager h left no lo hi st cells :
  tree_at pager h no cells → in_order cells → (h < left)%nat → walked lo hi st cells (walk f left pager lo hi no st).
Proof.
  revert left no st cells. induction h as [|h IH]; intros left no st cells Ht Hs Hlt; (destruct left as [|left]; [lia|]).
  - by apply walk_leaf_ok.
  - destruct Ht as (bs & css & (page & b & Hr & Hok & Hty & Hb & Hbs) & Hne & -> & HF). cbn [walk].
    rewrite Hr. cbn [from_store map_err mbind Res_bind]. unfold page_kind. rewrite Hty. cbn [from_page map_err mbind Res_bind].
    rewrite Hb. cbn [from_page map_err mbind Res_bind].
    pose proof (branch_cells_length page b Hok Hb bs Hbs) as Hlen. pose proof (branch_count_nonneg page b Hok Hb).
    replace (bp_count b) with (Z.of_nat (length bs)) by lia. change 0 with (Z.of_nat 0) at 1.
    apply scan_children_ok; [|done|intros j Hj; by eapply branch_cell_at].
    apply Forall2_same_length_lookup. split; [by eapply Forall2_length|]. intros i c cs Hc Hcs.
    destruct (Forall2_lookup_lr _ _ _ _ _ _ HF Hc Hcs) as [Hk Htree]. split; [done|]. intros st'. apply IH; [done| |lia].
    rewrite <-(take_drop_middle css i cs Hcs), concat_app in Hs. cbn [concat] in Hs.
    apply in_order_app in Hs as (_ & Hs & _). by apply in_order_app in Hs as (? & _ & _).
Qed.

Lemma scan_ok pager h root lo hi st cells :
  tree_at pager h root cells → in_order cells → (h < MAX_DEPTH)%nat →
  scan f pager root lo hi st = Ok (fst (visit st (in_range lo hi cells))).
Proof.
  intros Ht Hs Hh. unfold scan. destruct (walk_ok pager h MAX_DEPTH root lo hi st cells Ht Hs Hh) as (st' & brk & -> & -> & _). done.
Qed.
End scan_ok.

Section readers.
Context {P : Type} `{!Pager P}.

Lemma in_range_all cells : Forall (λ c, 0 <= lc_key c < 2 ^ 64) cells → in_range 0 u64_max cells = cells.
Proof.
  induction 1 as [|c cells Hc _ IH]; [done|]. unfold in_range in *. cbn [List.filter]. rewrite IH.
  unfold u64_max. rewrite (proj2 (Z.leb_le _ _)), (proj2 (Z.leb_le _ _)) by lia. done.
Qed.

Lemma collect_ok pager h root cells :
  tree_at pager h root cells → in_order cells → (h < MAX_DEPTH)%nat → Forall (λ c, 0 <= lc_key c < 2 ^ 64) cells →
  collect pager root = Ok (from_cell <$> cells).
Proof.
  intros Ht Hs Hh Hk. unfold collect. rewrite (scan_ok _ pager h root 0 u64_max [] cells) by done. rewrite in_range_all by done. f_equal.
  assert (∀ out, visit (λ out c, (out ++ [from_cell c], false)) out cells = (out ++ (from_cell <$> cells), false)) as Hv.
  { induction cells as [|c cs IH] in |- *; intros out; cbn; [by rewrite app_nil_r|]. rewrite IH. by rewrite <-app_assoc. }
  by rewrite Hv.
Qed.

Lemma count_ok pager h root cells :
  tree_at pager h root cells → in_order cells → (h < MAX_DEPTH)%nat → Forall (λ c, 0 <= lc_key c < 2 ^ 64) cells →
  count pager root = Ok (foldr Z.add 0 (lc_cardinality <$> cells) mod 2 ^ 64).
Proof.
  intros Ht Hs Hh Hk. unfold count. rewrite (scan_ok _ pager h root 0 u64_max 0 cells) by done. rewrite in_range_all by done. f_equal.
  assert (∀ n, fst (visit (λ total c, ((total + lc_cardinality c) mod 2 ^ 64, false)) (n mod 2 ^ 64) cells) =
    (n + foldr Z.add 0 (lc_cardinality <$> cells)) mod 2 ^ 64) as Hv.
  { induction cells as [|c cs IH] in |- *; intros n; [cbn; by rewrite Z.add_0_r|]. cbn [visit]. csimpl.
    rewrite Zplus_mod_idemp_l, IH. f_equal. lia. }
  apply (Hv 0).
Qed.
End readers.
