(* ===== verification/BTreeWrite.v ===== *)
(** Copy-on-write mutation of the b-tree (crates/big-btree/src/write.rs).

    The transaction is explicit state: every operation takes it and returns it beside its result. *)
From S2P Require Import Prelude Bits Search Container Optimize Delta Page Leaf Branch Chain Meta Freelist Snapshot Roots Pager Store Txn BTree.

(** * When a container gets a page of its own *)
Definition CAPS : Caps := mkCaps ARRAY_MAX_ELEMS RUN_MAX_INTERVALS.
Definition DENSE_ABOVE_BYTES : Z := 4096.
Definition WRITE_CAPS : Caps :=
  mkCaps (let by_bytes := DENSE_ABOVE_BYTES / 2 in if by_bytes <? ARRAY_MAX_ELEMS then by_bytes else ARRAY_MAX_ELEMS)
         (let by_bytes := DENSE_ABOVE_BYTES / 4 in if by_bytes <? RUN_MAX_INTERVALS then by_bytes else RUN_MAX_INTERVALS).

(** The [while diff != 0] loop of [try_delta] over one word: [None] once there are more entries than
    a delta may have.  A word has 64 bits, so 65 rounds always end it. *)
Fixpoint diff_bits (fuel : nat) (w new diff : Z) (entries : list DeltaEntry) : option (list DeltaEntry) :=
  match fuel with
  | O => Some entries
  | S fuel' =>
      if diff =? 0 then Some entries
      else
        let bit := trailing_zeros diff in
        let entries := entries ++ [mkDelta ((w * 64 + bit) mod 2 ^ 16) (Z.land (Z.shiftr new bit) 1 =? 1)] in
        if MAX_DELTA <? zlen entries then None
        else diff_bits fuel' w new (Z.land diff (diff - 1)) entries
  end.
Fixpoint diff_words (w : Z) (words base : list Z) (entries : list DeltaEntry) : option (list DeltaEntry) :=
  match words, base with
  | new :: words', old :: base' =>
      entries ← diff_bits 65 w new (Z.lxor new old) entries; diff_words (w + 1) words' base' entries
  | _, _ => Some entries
  end.

(** One step of a descent: the branch, and the child it went through. *)
Record Step := mkStep { stp_pgno : Z; stp_index : nat }.

Definition item_bytes (it : LeafItem) : Z := align_up (LEAF_CELL_HEADER + zlen (li_payload it)) + CELL_INDEX_ENTRY.
Definition leaf_capacity : Z := PAGE_SIZE - PAGE_TRAILER - align_up PAGE_HEADER.
Definition used_bytes (items : list LeafItem) : Z := foldr (λ it n, item_bytes it + n) 0 items.

(** [while i < items.len() && items[i].push_into(&mut b).is_some()]. *)
Fixpoint fill_leaf (b : LeafBuilder) (items : list LeafItem) : LeafBuilder * list LeafItem :=
  match items with
  | [] => (b, [])
  | it :: rest => match push_into it b with Some b' => fill_leaf b' rest | None => (b, items) end
  end.

(** [for c in chunk], each pushed and [expect]ed to fit. *)
Definition fill_branch (chunk : list BranchCell) : option (list BranchCell) :=
  foldl (λ acc c, cells ← acc; branch_push cells c) (Some []) chunk.

(** [Vec::splice(index..end, entries)]. *)
Definition splice_cells (cells entries : list BranchCell) (index stop : nat) : list BranchCell :=
  take index cells ++ entries ++ drop stop cells.

(** [for i in 0..br.len() { if cell(i).key <= ckey { idx = i } else { break } }]. *)
Fixpoint last_le (cells : list BranchCell) (ckey : Z) (i idx : nat) : nat :=
  match cells with
  | [] => idx
  | c :: cells' => if bc_key c <=? ckey then last_le cells' ckey (S i) i else idx
  end.

Section write.
Context {X : Extern} {P : Type} `{!Pager P, !PagerMut P} (s : Store P).

Definition b_read (t : WriteTxn) (no : Z) : Res BTreeError Page := from_store (txn_read s t no).
Definition b_alloc (t : WriteTxn) : Res BTreeError (Z * WriteTxn) := from_store (txn_alloc s t).
Definition b_write (t : WriteTxn) (no : Z) (page : Page) : Res BTreeError WriteTxn := from_store (txn_write t no page).

Definition try_delta (t : WriteTxn) (key : Z) (words : list Z) (card pgno crc : Z) : Res BTreeError (option LeafItem) :=
  page ← b_read t pgno;
  let computed := bitmap_page_checksum page in
  if negb (computed =? crc) then Err (BPage (ChecksumMismatch crc computed))
  else
    base ← from_page (base_words page);
    Ok (option_map (item_delta key pgno crc card) (diff_words 0 words base [])).

(** The representation [make_item_over] falls back to: inline, or a page of its own. *)
Definition whole_item (t : WriteTxn) (key : Z) (best : Container) : Res BTreeError (LeafItem * WriteTxn) :=
  match best with
  | Array a => Ok (mkItem key TArray (zlen a mod 2 ^ 16) (cardinality best) 0 0 (cast_u16 a), t)
  | Run r => Ok (mkItem key TRun (zlen r mod 2 ^ 16) (cardinality best) 0 0 (cast_interval r), t)
  | Bitmap w =>
      let page := build_bitmap_page w in
      '(no, t) ← b_alloc t;
      t ← b_write t no page;
      Ok (item_dense key no (cardinality best) (bitmap_page_checksum page), t)
  end.

Definition make_item_over (t : WriteTxn) (key : Z) (c : Container) (base : option (Z * Z)) : Res BTreeError (LeafItem * WriteTxn) :=
  let best := into_owned (optimize c WRITE_CAPS) in
  match best, base with
  | Bitmap words, Some (pgno, crc) =>
      o ← try_delta t key words (cardinality best) pgno crc;
      match o with Some item => Ok (item, t) | None => whole_item t key best end
  | _, _ => whole_item t key best
  end.
Definition make_item (t : WriteTxn) (key : Z) (c : Container) : Res BTreeError (LeafItem * WriteTxn) := make_item_over t key c None.

(** [pack_leaves]: each round takes at least one item. *)
Fixpoint pack_leaves_loop (fuel : nat) (t : WriteTxn) (items : list LeafItem) (out : list BranchCell) : Res BTreeError (list BranchCell * WriteTxn) :=
  match items, fuel with
  | [], _ => Ok (out, t)
  | _, O => Panic
  | it :: _, S fuel' =>
      let '(b, rest) := fill_leaf leaf_new items in
      if bool_decide (lb_cells b = []) then Err (BPayloadTooLarge (zlen (li_payload it)))
      else
        '(no, t) ← b_alloc t;
        page ← from_page (leaf_finish b no);
        t ← b_write t no page;
        pack_leaves_loop fuel' t rest (out ++ [mkBranchCell (li_key it) 0 no])
  end.
Definition pack_leaves (t : WriteTxn) (items : list LeafItem) : Res BTreeError (list BranchCell * WriteTxn) :=
  match items with
  | [] =>
      '(no, t) ← b_alloc t;
      page ← from_page (leaf_finish leaf_new no);
      t ← b_write t no page;
      Ok ([mkBranchCell 0 0 no], t)
  | _ => pack_leaves_loop (length items) t items []
  end.

Fixpoint pack_chunks (t : WriteTxn) (cs : list (list BranchCell)) : Res BTreeError (list BranchCell * WriteTxn) :=
  match cs with
  | [] => Ok ([], t)
  | chunk :: cs' =>
      cells ← unwrap (fill_branch chunk);
      '(no, t) ← b_alloc t;
      page ← from_page (branch_finish cells no);
      t ← b_write t no page;
      first ← unwrap (head chunk);
      '(out, t) ← pack_chunks t cs';
      Ok (mkBranchCell (bc_key first) 0 no :: out, t)
  end.
Definition pack_branches (t : WriteTxn) (cells : list BranchCell) : Res BTreeError (list BranchCell * WriteTxn) :=
  pack_chunks t (chunks (length cells) (Z.to_nat CAPACITY) cells).

(** [while level.len() > 1 { level = pack_branches(..) }], then [level[0].child]: a level of [n > 1]
    cells packs into fewer, so its length bounds the rounds. *)
Fixpoint pack_up (fuel : nat) (t : WriteTxn) (level : list BranchCell) : Res BTreeError (Z * WriteTxn) :=
  match level with
  | [] => Panic
  | [c] => Ok (bc_child c, t)
  | _ =>
      match fuel with
      | O => Panic
      | S fuel' => '(level, t) ← pack_branches t level; pack_up fuel' t level
      end
  end.

Definition build (t : WriteTxn) (items : list LeafItem) : Res BTreeError (Z * WriteTxn) :=
  '(level, t) ← pack_leaves t items; pack_up (length level) t level.

(** [descend]: the branches passed, nearest the root first. *)
Fixpoint descend_loop (left : nat) (t : WriteTxn) (root cur ckey : Z) (path : list Step) : Res BTreeError (Z * list Step) :=
  match left with
  | O => Err (BTooDeep root)
  | S left' =>
      page ← b_read t cur;
      kind ← from_page (page_type page);
      match kind with
      | PLeaf => Ok (cur, path)
      | PBranch =>
          br ← from_page (branch_parse page);
          if bp_count br =? 0 then Err (BEmptyBranch cur)
          else
            cells ← from_page (branch_cells br);
            let idx := last_le cells ckey 0 0 in
            c ← from_page (branch_cell_unwrap br (Z.of_nat idx));
            descend_loop left' t root (bc_child c) ckey (path ++ [mkStep cur idx])
      | other => Err (BUnexpectedPage cur other)
      end
  end.
Definition descend (t : WriteTxn) (root ckey : Z) : Res BTreeError (Z * list Step) := descend_loop MAX_DEPTH t root root ckey [].

Definition branch_at (t : WriteTxn) (no : Z) : Res BTreeError BranchPage :=
  page ← b_read t no; from_page (branch_parse page).

(** [rewrite_path_span] over the path from the leaf up: [rpath] has the leaf's parent first. *)
Fixpoint rewrite_up (rpath : list Step) (t : WriteTxn) (entries : list BranchCell) (span : nat) : Res BTreeError (list BranchCell * WriteTxn) :=
  match rpath with
  | [] => Ok (entries, t)
  | st :: rpath' =>
      br ← branch_at t (stp_pgno st);
      cells ← from_page (branch_cells br);
      let t := txn_free t (stp_pgno st) in
      let stop := Nat.min (stp_index st + span) (length cells) in
      if (stop <? stp_index st)%nat then Panic
      else
        let cells := splice_cells cells entries (stp_index st) stop in
        '(entries, t) ← (match cells with [] => Ok ([], t) | _ => pack_branches t cells end);
        rewrite_up rpath' t entries 1
  end.
Definition rewrite_path_span (t : WriteTxn) (path : list Step) (entries : list BranchCell) (span : nat) : Res BTreeError (Z * WriteTxn) :=
  '(entries, t) ← rewrite_up (rev path) t entries span;
  match entries with [] => build t [] | _ => pack_up (length entries) t entries end.
Definition rewrite_path (t : WriteTxn) (path : list Step) (entries : list BranchCell) : Res BTreeError (Z * WriteTxn) :=
  rewrite_path_span t path entries 1.

Definition leaf_items (t : WriteTxn) (no : Z) : Res BTreeError (list LeafItem) :=
  page ← b_read t no;
  leaf ← from_page (leaf_parse page);
  cells ← from_page (leaf_cells leaf);
  Ok (map from_cell cells).

Definition merge_right (t : WriteTxn) (path : list Step) (items : list LeafItem) : Res BTreeError (list LeafItem * nat * WriteTxn) :=
  let used := used_bytes items in
  if leaf_capacity <? used * 2 then Ok (items, 1%nat, t)
  else
    match last path with
    | None => Ok (items, 1%nat, t)
    | Some st =>
        br ← branch_at t (stp_pgno st);
        sibling ← from_page (branch_cell br (Z.of_nat (stp_index st) + 1));
        match sibling with
        | None => Ok (items, 1%nat, t)
        | Some c =>
            sibling_items ← leaf_items t (bc_child c);
            if leaf_capacity <? used + used_bytes sibling_items then Ok (items, 1%nat, t)
            else Ok (items ++ sibling_items, 2%nat, txn_free t (bc_child c))
        end
    end.

Definition take_leaf (t : WriteTxn) (no : Z) : Res BTreeError (list LeafItem * WriteTxn) :=
  items ← leaf_items t no; Ok (items, txn_free t no).

(** [splice]: one item placed into a leaf's list, and what that releases. *)
Definition splice (t : WriteTxn) (items : list LeafItem) (item : LeafItem) : list LeafItem * WriteTxn :=
  match binary_search_by_key (li_key item) li_key items with
  | Hit i =>
      let t := match items !! i with
               | Some old => match base_pgno old with
                             | Some p => if bool_decide (base_pgno item = Some p) then t else txn_free t p
                             | None => t
                             end
               | None => t
               end in
      (<[i := item]> items, t)
  | Miss i => (insert_at items i item, t)
  end.

(** [leaf_upper_bound], over the path from the leaf up. *)
Fixpoint upper_bound (t : WriteTxn) (rpath : list Step) : Res BTreeError (option Z) :=
  match rpath with
  | [] => Ok None
  | st :: rpath' =>
      br ← branch_at t (stp_pgno st);
      next ← from_page (branch_cell br (Z.of_nat (stp_index st) + 1));
      match next with Some c => Ok (Some (bc_key c)) | None => upper_bound t rpath' end
  end.
Definition leaf_upper_bound (t : WriteTxn) (path : list Step) : Res BTreeError (option Z) := upper_bound t (rev path).

Definition put (t : WriteTxn) (root : option Z) (item : LeafItem) : Res BTreeError (Z * WriteTxn) :=
  match root with
  | None => build t [item]
  | Some root =>
      '(leaf_pgno, path) ← descend t root (li_key item);
      '(items, t) ← take_leaf t leaf_pgno;
      let '(items, t) := splice t items item in
      '(entries, t) ← pack_leaves t items;
      rewrite_path t path entries
  end.

(** Whether a key belongs to a later leaf. *)
Definition beyond (bound : option Z) (key : Z) : bool := match bound with Some b => b <=? key | None => false end.

(** The inner [while let Some(next) = pending.front()]. *)
Fixpoint splice_pending (t : WriteTxn) (bound : option Z) (leaf pending : list LeafItem) : list LeafItem * list LeafItem * WriteTxn :=
  match pending with
  | [] => (leaf, [], t)
  | item :: pending' =>
      if beyond bound (li_key item) then (leaf, pending, t)
      else let '(leaf, t) := splice t leaf item in splice_pending t bound leaf pending'
  end.

Fixpoint put_many_loop (fuel : nat) (t : WriteTxn) (root : Z) (pending : list LeafItem) : Res BTreeError (Z * WriteTxn) :=
  match pending, fuel with
  | [], _ => Ok (root, t)
  | _, O => Panic
  | item :: _, S fuel' =>
      '(leaf_pgno, path) ← descend t root (li_key item);
      bound ← leaf_upper_bound t path;
      '(leaf, t) ← take_leaf t leaf_pgno;
      let '(leaf, pending, t) := splice_pending t bound leaf pending in
      '(entries, t) ← pack_leaves t leaf;
      '(root, t) ← rewrite_path t path entries;
      put_many_loop fuel' t root pending
  end.
Definition put_many (t : WriteTxn) (root : option Z) (items : list LeafItem) : Res BTreeError (Z * WriteTxn) :=
  match root with None => build t items | Some root => put_many_loop (length items) t root items end.

(** [remove]. *)
Definition remove_item (t : WriteTxn) (items : list LeafItem) (key : Z) : list LeafItem * WriteTxn :=
  match binary_search_by_key key li_key items with
  | Hit i =>
      (delete i items,
       match items !! i with Some it => if is_dense it then txn_free t (li_bitmap_pgno it) else t | None => t end)
  | Miss _ => (items, t)
  end.
Definition remove (t : WriteTxn) (root key : Z) : Res BTreeError (Z * WriteTxn) :=
  '(leaf_pgno, path) ← descend t root key;
  '(items, t) ← take_leaf t leaf_pgno;
  let '(items, t) := remove_item t items key in
  '(entries, t) ← (if bool_decide (items = []) && negb (bool_decide (path = [])) then Ok ([], t) else pack_leaves t items);
  rewrite_path t path entries.

Fixpoint make_items (t : WriteTxn) (pending : list (Z * Container)) : Res BTreeError (list LeafItem * WriteTxn) :=
  match pending with
  | [] => Ok ([], t)
  | (key, c) :: pending' =>
      '(item, t) ← make_item t key c;
      '(items, t) ← make_items t pending';
      Ok (item :: items, t)
  end.

(** The page and checksum of the dense container stored at a key, if there is one. *)
Definition base_at (leaf : list LeafItem) (key : Z) : option (Z * Z) :=
  match binary_search_by_key key li_key leaf with
  | Hit i => it ← leaf !! i; p ← base_pgno it; Some (p, li_bitmap_checksum it)
  | Miss _ => None
  end.

Fixpoint splice_containers (t : WriteTxn) (bound : option Z) (leaf : list LeafItem) (pending : list (Z * Container))
    : Res BTreeError (list LeafItem * list (Z * Container) * WriteTxn) :=
  match pending with
  | [] => Ok (leaf, [], t)
  | (key, c) :: pending' =>
      if beyond bound key then Ok (leaf, pending, t)
      else
        '(item, t) ← make_item_over t key c (base_at leaf key);
        let '(leaf, t) := splice t leaf item in splice_containers t bound leaf pending'
  end.

Fixpoint put_containers_loop (fuel : nat) (t : WriteTxn) (root : Z) (pending : list (Z * Container)) : Res BTreeError (Z * WriteTxn) :=
  match pending, fuel with
  | [], _ => Ok (root, t)
  | _, O => Panic
  | (key, _) :: _, S fuel' =>
      '(leaf_pgno, path) ← descend t root key;
      bound ← leaf_upper_bound t path;
      '(leaf, t) ← take_leaf t leaf_pgno;
      '(leaf, pending, t) ← splice_containers t bound leaf pending;
      '(leaf, span, t) ← merge_right t path leaf;
      '(entries, t) ← pack_leaves t leaf;
      '(root, t) ← rewrite_path_span t path entries span;
      put_containers_loop fuel' t root pending
  end.
Definition put_containers (t : WriteTxn) (root : option Z) (containers : list (Z * Container)) : Res BTreeError (Z * WriteTxn) :=
  match root with
  | None => '(items, t) ← make_items t containers; build t items
  | Some root => put_containers_loop (length containers) t root containers
  end.
Definition put_container (t : WriteTxn) (root : option Z) (key : Z) (c : Container) : Res BTreeError (Z * WriteTxn) :=
  put_containers t root [(key, c)].
End write.
