(* ===== verification/BTreeOwn.v ===== *)
(** Who owns the pages of a tree: the vocabulary in which building and mutating a tree is stated
    (the theory of crates/big-btree/src/write.rs over crates/big-pager/src/txn.rs).

    A write transaction hands out pages, takes them back and writes them.  [evolves] says that what
    an operation of the b-tree did was a run of such steps that left some pages as they were, and
    [own_tree] that a tree stands for a list of items and occupies exactly a list of pages: its
    nodes and the dense pages its items point at. *)
From S2P Require Import Prelude Bits Search Container Optimize Delta Page Leaf Branch Chain Meta Freelist Snapshot Roots Pager Store Txn BTree BTreeWrite.

(** Membership in a list that is an append of others. *)
Ltac find_in :=
  first [assumption | apply list_elem_of_here | apply elem_of_app; left; find_in | apply elem_of_app; right; find_in
        | apply elem_of_cons; right; find_in].
Ltac split_in :=
  repeat match goal with
  | H : _ ∈ _ ++ _ |- _ => apply elem_of_app in H as [H|H]
  | H : _ ∈ _ :: _ |- _ => apply elem_of_cons in H as [->|H]
  | H : _ ∈ [] |- _ => by apply not_elem_of_nil in H
  end.
Ltac solve_in := split_in; find_in.

(** * A transaction as a pager *)
Record TxnView (P : Type) := mkView { v_store : Store P; v_txn : WriteTxn }.
Arguments mkView {P} _ _.
Arguments v_store {P} _.
Arguments v_txn {P} _.

#[export] Instance TxnView_Pager {P} `{!Pager P} : Pager (TxnView P) :=
  { pager_read := λ v n, txn_read (v_store v) (v_txn v) n; page_count := λ v, w_next_pgno (v_txn v);
    capacity := λ v, capacity (s_pager (v_store v)) }.

(** * Items *)
Definition item_ok (it : LeafItem) : Prop := staged_ok (item_staged it) ∧ zlen (li_payload it) <= CELL_PAYLOAD_MAX.
Definition items_in_order (items : list LeafItem) : Prop := StronglySorted (λ a b, li_key a < li_key b) items.

(** The pages the items of a list point at. *)
Definition bases (items : list LeafItem) : list Z := omap base_pgno items.

Lemma bases_app a b : bases (a ++ b) = bases a ++ bases b.
Proof. apply omap_app. Qed.

Lemma elem_of_bases p items : p ∈ bases items ↔ ∃ it, it ∈ items ∧ base_pgno it = Some p.
Proof. unfold bases. by rewrite list_elem_of_omap. Qed.

Lemma bases_perm a b : a ≡ₚ b → bases a ≡ₚ bases b.
Proof. apply omap_Permutation. Qed.

(** * Steps of a transaction, seen from above *)
Section own.
Context {X : Extern} {P : Type} `{!Pager P, !PagerMut P} (fd : Freelist) (l : Layout).
Implicit Types (c : Cfg P).

(** The pages the trees may use: inherited, or taken by this transaction. *)
Definition own c : list Z := c_inh c ++ c_fresh c.
Definition view c : TxnView P := mkView (c_store c) (c_txn c).
Definition page_at c (q : Z) : Res StoreError Page := txn_read (c_store c) (c_txn c) q.

(** There is room for [n] more pages. *)
Definition room c (n : Z) : Prop :=
  w_next_pgno (c_txn c) + n <= 2 ^ 32 - 1 ∧ ∀ cap, capacity (s_pager (c_store c)) = Some cap → w_next_pgno (c_txn c) + n <= cap.

Lemma room_sub c n m : room c n → m <= n → room c m.
Proof. intros [H1 H2] Hm. split; [lia|]. intros cap Hc. specialize (H2 cap Hc). lia. Qed.

(** Every page the transaction has taken and kept has been written. *)
Definition written c : Prop := ∀ q, q ∈ c_fresh c → is_Some (dirty_get (w_dirty (c_txn c)) q).

Record evolves c c' (keep : list Z) : Prop := {
  ev_steps : rtc txn_step c c';
  ev_store : c_store c' = c_store c;
  ev_meta : same_meta (c_txn c) (c_txn c');
  ev_written : written c → written c';
  ev_reads : ∀ q, q ∈ keep → page_at c' q = page_at c q
}.

Lemma evolves_refl c keep : evolves c c keep.
Proof. split; [apply rtc_refl|reflexivity| |done|by intros]. destruct c as [s [] i f]. by eexists _, _, _, _. Qed.

Lemma evolves_sub c c' a b : evolves c c' a → b ⊆ a → evolves c c' b.
Proof. intros [H1 H2 H3 H4 H5] Hs. split; [exact H1|exact H2|exact H3|exact H4|]. intros q Hq. by apply H5, Hs. Qed.

Lemma evolves_trans c1 c2 c3 a b keep :
  evolves c1 c2 a → evolves c2 c3 b → keep ⊆ a → keep ⊆ b → evolves c1 c3 keep.
Proof.
  intros [S1 E1 M1 W1 R1] [S2 E2 M2 W2 R2] Ha Hb. split; [etrans; [exact S1|exact S2]|by rewrite E2|by eapply same_meta_trans|tauto|].
  intros q Hq. rewrite R2 by (by apply Hb). by apply R1, Ha.
Qed.

Lemma evolves_inv c c' keep : txn_inv fd l c → evolves c c' keep → txn_inv fd l c'.
Proof. intros Hi He. by eapply steps_inv; [apply He|]. Qed.

(** ** Pages that are owned are apart *)
Lemma own_nodup c : txn_inv fd l c → NoDup (own c).
Proof.
  intros [[_ Hnd _ _ _ _ _] _]. unfold owners in Hnd. apply NoDup_app in Hnd as (_ & _ & Hnd).
  rewrite app_assoc in Hnd. by apply NoDup_app in Hnd as (Hnd & _).
Qed.

Lemma own_range c q : txn_inv fd l c → q ∈ own c → 2 <= q < w_next_pgno (c_txn c) ∧ w_next_pgno (c_txn c) <= 2 ^ 32 - 1.
Proof.
  intros [[_ _ Hg Hx _ _ _] _] Hq. split; [|lia]. rewrite Forall_forall in Hg. apply Hg. unfold owners.
  unfold own in Hq. rewrite !elem_of_app. apply elem_of_app in Hq. tauto.
Qed.

Lemma txn_id_range c : txn_inv fd l c → 0 <= w_txn_id (c_txn c) < 2 ^ 64.
Proof.
  intros [_ Hm]. destruct (tm_txn _ _ _ Hm) as [E ?]. pose proof (si_meta _ _ _ _ (tm_store _ _ _ Hm)) as (? & _).
  rewrite (tm_base _ _ _ Hm) in E. lia.
Qed.

(** ** Taking, writing and giving back a page *)
Lemma alloc_room c n :
  txn_inv fd l c → room c n → 1 <= n →
  ∃ p c', txn_alloc (c_store c) (c_txn c) = Ok (p, c_txn c') ∧ txn_step c c' ∧ c_store c' = c_store c ∧ room c' (n - 1) ∧
    c_inh c' = c_inh c ∧ c_fresh c' = (p :: c_fresh c) ∧ (p ∉ own c) ∧
    ∀ q, q ≠ p → dirty_get (w_dirty (c_txn c')) q = dirty_get (w_dirty (c_txn c)) q.
Proof.
  intros Hinv [Hr Hcap] Hn. destruct c as [s t inh fresh]. cbn [c_store c_txn] in *.
  assert (∃ p t', txn_alloc s t = Ok (p, t') ∧ w_next_pgno t' <= w_next_pgno t + 1) as (p & t' & Ha & Hnx).
  { unfold txn_alloc. destruct (w_scratch t); [|eexists _, _; split; [reflexivity|]; cbn; lia].
    destruct (free_alloc _ _) as [[q f]|]; [eexists _, _; split; [reflexivity|]; cbn; lia|].
    unfold txn_alloc_tail, alloc_tail. destruct (capacity (s_pager s)) as [cap|] eqn:Hc.
    - specialize (Hcap cap eq_refl). rewrite (proj2 (Z.leb_gt _ _)) by lia. cbn. eexists _, _. split; [reflexivity|]. cbn. lia.
    - cbn. eexists _, _. split; [reflexivity|]. cbn. lia. }
  assert (txn_step (mkCfg s t inh fresh) (mkCfg s t' inh (p :: fresh))) as Hst by (apply step_alloc; [exact Ha|lia]).
  exists p, (mkCfg s t' inh (p :: fresh)). split_and!; [exact Ha|exact Hst|reflexivity| |reflexivity|reflexivity| |].
  - split; cbn [c_txn c_store]; [lia|]. intros cap Hc. specialize (Hcap cap Hc). lia.
  - pose proof (own_nodup _ (step_inv _ _ _ _ Hst Hinv)) as Hnd. unfold own in *. cbn [c_inh c_fresh] in *.
    rewrite <-Permutation_middle in Hnd. by apply NoDup_cons in Hnd as [? _].
  - intros q Hne. cbn [c_txn]. destruct Hinv as [Hi _].
    destruct (alloc_cases s t p t' (ti_runs _ _ Hi) ltac:(pose proof (ti_next _ _ Hi) as Hx; cbn in Hx; lia) ltac:(lia) Ha)
      as [(sc & _ & ->)|[(f & u & _ & _ & _ & _ & ->)|(_ & _ & ->)]]; try reflexivity.
    cbn [with_pages w_dirty]. by rewrite dirty_get_remove.
Qed.

(** Take a page and write it, in one step. *)
Lemma take_page c n (mk : Z → Page) :
  txn_inv fd l c → room c n → 1 <= n →
  ∃ p t1 c', txn_alloc (c_store c) (c_txn c) = Ok (p, t1) ∧ 0 <= p < 2 ^ 32 ∧ txn_write t1 p (mk p) = Ok (c_txn c') ∧
    evolves c c' (own c) ∧ room c' (n - 1) ∧ own c' ≡ₚ p :: own c ∧ page_at c' p = Ok (mk p).
Proof.
  intros Hinv Hr Hn. destruct (alloc_room c n Hinv Hr Hn) as (p & c1 & Ha & Hst & Es & Hr1 & Ei & Ef & Hp & Hd).
  pose proof (step_inv _ _ _ _ Hst Hinv) as Hinv1.
  destruct (own_range c1 p Hinv1) as [Hb Hb']; [unfold own; rewrite Ef; find_in|]. destruct c1 as [s1 t1 inh1 fresh1].
  cbn [c_store c_txn c_inh c_fresh] in *. subst s1 inh1 fresh1.
  set (t2 := with_pages t1 (dirty_insert (w_dirty t1) p (mk p)) (w_freelist t1) (w_next_pgno t1) (w_scratch t1)).
  assert (txn_write t1 p (mk p) = Ok t2) as Hw by (unfold txn_write; by rewrite (proj2 (Z.leb_gt _ _)) by lia).
  assert (∀ q, dirty_get (w_dirty t2) q = if q =? p then Some (mk p) else dirty_get (w_dirty t1) q) as Hd2
    by (intros q; subst t2; cbn [with_pages w_dirty]; apply dirty_get_insert).
  exists p, t1, (mkCfg (c_store c) t2 (c_inh c) (p :: c_fresh c)). cbn [c_txn].
  split_and!; [exact Ha|lia|lia|exact Hw| |exact Hr1| |].
  - split.
    + eapply rtc_l; [exact Hst|]. apply rtc_once. eapply step_write; [by left|exact Hw].
    + reflexivity.
    + eapply same_meta_trans; [by eapply alloc_same_meta|]. by eexists _, _, _, _.
    + intros Hwr q Hq. cbn [c_fresh c_txn] in *. rewrite Hd2. destruct (Z.eqb_spec q p) as [->|Hne]; [by eexists|].
      rewrite Hd by done. apply Hwr. by apply elem_of_cons in Hq as [?|?].
    + intros q Hq. assert (q ≠ p) as Hne by (by intros ->). unfold page_at, txn_read. cbn [c_store c_txn].
      by rewrite Hd2, (proj2 (Z.eqb_neq _ _) Hne), Hd.
  - unfold own. cbn [c_inh c_fresh]. by rewrite <-Permutation_middle.
  - unfold page_at, txn_read. cbn [c_store c_txn]. by rewrite Hd2, Z.eqb_refl.
Qed.

Lemma free_page c p rest :
  txn_inv fd l c → own c ≡ₚ p :: rest →
  ∃ c', c_txn c' = txn_free (c_txn c) p ∧ evolves c c' rest ∧ own c' ≡ₚ rest ∧ ∀ n, room c n → room c' n.
Proof.
  intros Hinv Ho. pose proof (own_nodup c Hinv) as Hnd. rewrite Ho in Hnd. apply NoDup_cons in Hnd as [Hni _].
  assert (∃ inh' fresh', c_inh c ++ c_fresh c ≡ₚ p :: inh' ++ fresh' ∧ inh' ⊆+ c_inh c ∧ fresh' ⊆+ c_fresh c) as (inh' & fresh' & Hp & H1 & H2).
  { assert (p ∈ own c) as Hin by (rewrite Ho; by left). apply elem_of_app in Hin as [Hin|Hin]; apply elem_of_Permutation in Hin as [k Hk].
    - exists k, (c_fresh c). split_and!; [by rewrite Hk|rewrite Hk; by apply submseteq_cons|done].
    - exists (c_inh c), k. split_and!; [rewrite Hk; by rewrite <-Permutation_middle|done|rewrite Hk; by apply submseteq_cons]. }
  exists (mkCfg (c_store c) (txn_free (c_txn c) p) inh' fresh'). split_and!; [reflexivity| | |].
  - split; [|reflexivity|apply free_same_meta| |].
    + apply rtc_once. destruct c. by apply step_free.
    + intros Hwr q Hq. cbn [c_fresh c_txn] in *. assert (q ≠ p) as Hne.
      { intros ->. apply Hni. unfold own in Ho. rewrite Hp in Ho. apply Permutation_cons_inv in Ho. rewrite <-Ho. find_in. }
      assert (q ∈ c_fresh c) as Hqf by (by eapply elem_of_submseteq). specialize (Hwr q Hqf).
      unfold txn_free. destruct (_ <=? _); [|exact Hwr]. cbn [with_pages w_dirty]. by rewrite dirty_get_remove.
    + intros q Hq. unfold page_at, txn_read, txn_free. cbn [c_store c_txn]. destruct (_ <=? _); [|reflexivity].
      cbn [with_pages w_dirty]. rewrite dirty_get_remove; [reflexivity|]. by intros ->.
  - unfold own in *. cbn [c_inh c_fresh]. rewrite Hp in Ho. by apply Permutation_cons_inv in Ho.
  - intros n [R1 R2]. unfold room. cbn [c_txn c_store]. by rewrite free_next.
Qed.

(** * Trees and the pages they occupy *)

(** A row of subtrees: each is named by its first key. *)
Inductive own_level (T : Z → list LeafItem → list Z → Prop) : list BranchCell → list LeafItem → list Z → Prop :=
  | level_nil : own_level T [] [] []
  | level_cons b bs its items w ws :
      branch_cell_ok b → li_key <$> head its = Some (bc_key b) → T (bc_child b) its w → own_level T bs items ws →
      own_level T (b :: bs) (its ++ items) (w ++ ws).

(** The items fit one leaf. *)
Definition leaf_fit (items : list LeafItem) : Prop := ∃ b, fill_leaf leaf_new items = (b, []).
(** The page carries the checksum of its own bytes. *)
Definition sealed_at c (no : Z) : Prop := ∃ page, page_at c no = Ok page ∧ verify_checksum page = Ok tt.

(** A tree of height [h] under [no]: every node sealed, every leaf what a builder made. *)
Fixpoint own_tree c (h : nat) (no : Z) (items : list LeafItem) (w : list Z) : Prop :=
  match h with
  | O => ∃ cells, node_leaf (view c) no cells ∧ items = map from_cell cells ∧ Forall item_ok items ∧
           (leaf_fit items ∧ sealed_at c no) ∧ w = no :: bases items
  | S h' => ∃ bs w', node_branch (view c) no bs ∧ bs ≠ [] ∧ (Z.of_nat (length bs) <= CAPACITY ∧ sealed_at c no) ∧
           own_level (own_tree c h') bs items w' ∧ w = no :: w'
  end.
Definition own_row c (h : nat) := own_level (own_tree c h).

Lemma level_impl (T T' : Z → list LeafItem → list Z → Prop) bs items w :
  (∀ no its w', w' ⊆ w → T no its w' → T' no its w') → own_level T bs items w → own_level T' bs items w.
Proof.
  intros HT H. induction H as [|b bs its items w ws Hb Hk Ht _ IH]; constructor; [done|done| |].
  - apply HT; [|done]. set_solver.
  - apply IH. intros no its' w' Hs. apply HT. set_solver.
Qed.

Lemma level_app T a b items w :
  own_level T (a ++ b) items w ↔
  ∃ i1 i2 w1 w2, items = i1 ++ i2 ∧ w = w1 ++ w2 ∧ own_level T a i1 w1 ∧ own_level T b i2 w2.
Proof.
  split.
  - revert items w. induction a as [|x a IH]; intros items w H.
    { exists [], items, [], w. split_and!; [reflexivity|reflexivity|constructor|exact H]. }
    cbn [app] in H. inversion H as [|? ? its items' w1 ws Hb Hk Ht Hl]; subst.
    apply IH in Hl as (i1 & i2 & v1 & v2 & -> & -> & H1 & H2).
    exists (its ++ i1), i2, (w1 ++ v1), v2. rewrite <-!app_assoc. split_and!; [reflexivity|reflexivity|by constructor|exact H2].
  - intros (i1 & i2 & w1 & w2 & -> & -> & H1 & H2). induction H1 as [|y bs its items w ws Hb Hk Ht Hl IH]; [exact H2|].
    rewrite <-!app_assoc. by constructor.
Qed.

Lemma level_cells_ok T bs items w : own_level T bs items w → Forall branch_cell_ok bs.
Proof. induction 1; by constructor. Qed.

Lemma level_nil_iff T bs items w : own_level T bs items w → bs = [] ↔ items = [].
Proof.
  intros H. destruct H as [|b bs its items w ws Hb Hk _ _]; [done|]. split; [done|]. intros E%app_eq_nil.
  destruct E as [-> _]. discriminate Hk.
Qed.

Lemma level_nil_inv T items w : own_level T [] items w → items = [] ∧ w = [].
Proof. by inversion 1. Qed.

Lemma level_one T b items w : own_level T [b] items w → T (bc_child b) items w.
Proof.
  intros H. inversion H as [|? ? its items' w1 ws _ _ Ht Hl]; subst. inversion Hl; subst. by rewrite !app_nil_r.
Qed.

Lemma level_first T b bs items w : own_level T (b :: bs) items w → li_key <$> head items = Some (bc_key b).
Proof.
  intros H. inversion H as [|? ? its items' w1 ws _ Hk _ _]; subst. by destruct its.
Qed.

(** A tree is unchanged while its pages are. *)
Lemma own_tree_keep c c' h no items w :
  (∀ q, q ∈ w → page_at c' q = page_at c q) → own_tree c h no items w → own_tree c' h no items w.
Proof.
  revert no items w. induction h as [|h IH]; intros no items w Hrd H; cbn [own_tree] in *.
  - destruct H as (cells & (page & lf & Hr & Hn) & -> & Hi & [Hl Hsl] & ->).
    exists cells. split; [|split_and!; [reflexivity|exact Hi|exact Hl| |reflexivity]].
    + exists page, lf. split; [|exact Hn]. rewrite <-Hr. apply (Hrd no). by left.
    + unfold sealed_at in *. rewrite Hrd; [exact Hsl|by left].
  - destruct H as (bs & w' & (page & b & Hr & Hn) & Hne & [Hl Hsl] & Hlv & ->). exists bs, w'. split.
    + exists page, b. split; [|exact Hn]. rewrite <-Hr. apply (Hrd no). by left.
    + split; [exact Hne|]. split; [split; [exact Hl|unfold sealed_at in *; rewrite Hrd; [exact Hsl|by left]]|]. split; [|reflexivity].
      eapply level_impl; [|exact Hlv]. intros n its v Hs. apply IH. intros q Hq. apply Hrd. right. by apply Hs.
Qed.

Lemma own_row_keep c c' h bs items w :
  (∀ q, q ∈ w → page_at c' q = page_at c q) → own_row c h bs items w → own_row c' h bs items w.
Proof. intros Hrd. apply level_impl. intros n its v Hs. apply own_tree_keep. intros q Hq. by apply Hrd, Hs. Qed.

(** The dense pages of a tree's items are among its pages. *)
Lemma level_bases T bs items w :
  (∀ no its v, T no its v → bases its ⊆ v) → own_level T bs items w → bases items ⊆ w.
Proof.
  intros HT H. induction H as [|b bs its items w ws Hb Hk Ht _ IH]; [done|]. rewrite bases_app.
  intros q. rewrite !elem_of_app. intros [Hq|Hq]; [left; by apply (HT _ _ _ Ht)|right; by apply IH].
Qed.

Lemma own_tree_bases c h no items w : own_tree c h no items w → bases items ⊆ w.
Proof.
  revert no items w. induction h as [|h IH]; intros no items w H; cbn [own_tree] in H.
  - destruct H as (cells & _ & _ & _ & _ & ->). intros q Hq. by right.
  - destruct H as (bs & w' & _ & _ & _ & Hlv & ->). apply level_bases in Hlv; [|exact IH]. intros q Hq. right. by apply Hlv.
Qed.
Lemma own_row_bases c h bs items w : own_row c h bs items w → bases items ⊆ w.
Proof. apply level_bases, own_tree_bases. Qed.

Lemma own_tree_items c h no items w : own_tree c h no items w → Forall item_ok items.
Proof.
  revert no items w. induction h as [|h IH]; intros no items w H; cbn [own_tree] in H.
  - by destruct H as (cells & _ & _ & Hi & _).
  - destruct H as (bs & w' & _ & _ & _ & Hlv & ->). induction Hlv as [|b bs its items v ws _ _ Ht _ IHl]; [constructor|].
    apply Forall_app. split; [by eapply IH|exact IHl].
Qed.

(** The tree the readers know: through any pager that has its pages. *)
Lemma own_tree_at {P'} `{!Pager P'} (pager : P') c h no items w :
  own_tree c h no items w → (∀ q pg, q ∈ w → page_at c q = Ok pg → pager_read pager q = Ok pg) →
  ∃ cells, map from_cell cells = items ∧ tree_at pager h no cells.
Proof.
  revert no items w. induction h as [|h IH]; intros no items w H Hrd; cbn [own_tree] in H.
  - destruct H as (cells & (page & lf & Hr & Hn) & -> & _ & _ & ->). exists cells. split; [reflexivity|].
    exists page, lf. split; [|exact Hn]. apply Hrd; [by left|exact Hr].
  - destruct H as (bs & w' & (page & br & Hr & Hn) & Hne & _ & Hlv & ->).
    assert (∃ css, map from_cell (concat css) = items ∧
      Forall2 (λ b cs, lc_key <$> head cs = Some (bc_key b) ∧ tree_at pager h (bc_child b) cs) bs css) as (css & <- & HF).
    { assert (∀ q pg, q ∈ w' → page_at c q = Ok pg → pager_read pager q = Ok pg) as Hrd' by (intros q pg Hq; apply Hrd; by right).
      clear Hr Hn Hne Hrd. induction Hlv as [|b bs its items v ws _ Hk Ht _ IHl]; [by exists []|].
      destruct IHl as (css & <- & HF); [intros q pg Hq; apply Hrd'; find_in|].
      destruct (IH _ _ _ Ht) as (cs & <- & Ht'); [intros q pg Hq; apply Hrd'; find_in|].
      exists (cs :: css). cbn [concat]. rewrite map_app. split; [reflexivity|].
      constructor; [|exact HF]. split; [|exact Ht']. destruct cs; [discriminate Hk|exact Hk]. }
    exists (concat css). split; [reflexivity|]. exists bs, css. split_and!; [|exact Hne|reflexivity|exact HF].
    exists page, br. split; [|exact Hn]. apply Hrd; [by left|exact Hr].
Qed.
End own.

Arguments own_tree {X P _} c h no items w : simpl never.
Arguments own_row {X P _} c h bs items w : simpl never.
