(* ===== verification/BTreeBuild.v ===== *)
(** Building a tree bottom-up, and what a container becomes on the way
    (the theory of crates/big-btree/src/write.rs: [try_delta], [make_item_over], [pack_leaves],
    [pack_branches], [build]).

    Every lemma has the same shape: the operation returns, what it did was a run of the
    transaction's steps ([evolves]), and the pages it took are those of what it built. *)
From S2P Require Import Prelude Bits Search Container Optimize Delta Page Leaf Branch Chain Meta Freelist Snapshot Roots Pager Store Txn BTree BTreeWrite BTreeOwn.

Lemma page_type_of_flags p ty : flags p ≫= (λ f, Ok (Z.land f 255)) = Ok (page_code ty) → page_type p = Ok ty.
Proof.
  unfold page_type. intros H. apply bind_ok in H as (f & -> & H). cbn [mbind Res_bind]. injection H as ->. by destruct ty.
Qed.

(** * A page of items *)
Lemma from_staged it at_ : staged_ok (item_staged it) → from_cell (staged_cell (item_staged it) at_) = it.
Proof. destruct it. intros (_ & He & _). unfold from_cell. cbn in *. by rewrite Z.mod_small by lia. Qed.

Section page.
Context {X : Extern} {L : ExternLaws X}.

Lemma leaf_page_ok b no items :
  builder_ok b → lb_cells b = item_staged <$> items → Forall item_ok items → 0 <= no < 2 ^ 32 →
  ∃ p l cells, leaf_finish b no = Ok p ∧ page_ok p ∧ page_type p = Ok PLeaf ∧ leaf_parse p = Ok l ∧
    leaf_cells l = Ok cells ∧ map from_cell cells = items ∧ verify_checksum p = Ok tt.
Proof.
  intros Hb Hc Hi Hno. assert (Forall staged_ok (lb_cells b)) as Hs.
  { rewrite Hc. apply Forall_fmap. eapply Forall_impl; [exact Hi|]. by intros it []. }
  destruct (leaf_finish_page b no Hb Hs Hno) as (p & Hp & Hok & Hvc & _ & Hf & Hcc & Hh). destruct Hb as [_ _ [H1 H2] H3].
  exists p, (mkLeafPage p (zlen (lb_cells b))), (zip_with staged_cell (lb_cells b) ((λ c, c + LEAF_CELL_HEADER) <$> cursors (data_start (zlen (lb_cells b))) (lb_cells b))).
  split_and!; [done|done| |by apply leaf_parse_holds|by apply leaf_cells_holds| |exact Hvc].
  - apply page_type_of_flags. by rewrite Hf.
  - assert (length ((λ c, c + LEAF_CELL_HEADER) <$> cursors (data_start (zlen (lb_cells b))) (lb_cells b)) = length items) as Hlen
      by (by rewrite length_fmap, length_cursors, Hc, length_fmap).
    revert Hlen. generalize ((λ c, c + LEAF_CELL_HEADER) <$> cursors (data_start (zlen (lb_cells b))) (lb_cells b)). rewrite Hc.
    clear - Hi. induction Hi as [|it items [Hi _] _ IH]; intros [|a l] Hlen; try done. csimpl. rewrite from_staged by done.
    f_equal. apply IH. by injection Hlen.
Qed.

Lemma branch_page_ok cells no :
  Z.of_nat (length cells) <= CAPACITY → Forall branch_cell_ok cells → 0 <= no < 2 ^ 32 →
  ∃ p b, branch_finish cells no = Ok p ∧ page_ok p ∧ page_type p = Ok PBranch ∧ branch_parse p = Ok b ∧ branch_cells b = Ok cells ∧ verify_checksum p = Ok tt.
Proof.
  intros Hc Hs Hno. destruct (branch_finish_ok cells no Hc Hs Hno) as (p & Hp & Hok & Hvc & _ & Hpa & Hbc).
  exists p, (mkBranchPage p (Z.of_nat (length cells))). split_and!; [exact Hp|exact Hok| |exact Hpa|exact Hbc|exact Hvc].
  unfold branch_parse in Hpa. apply bind_ok in Hpa as ([n st] & Hv & _). apply validate_cell_index_spec in Hv as (Hf & _).
  by apply page_type_of_flags.
Qed.
End page.

(** * Filling pages *)
Lemma leaf_fits_new n : n <= CELL_PAYLOAD_MAX → leaf_fits leaf_new n = true.
Proof.
  intros H. unfold leaf_fits. apply Z.leb_le. cbn [lb_cells lb_payload_bytes leaf_new].
  change (align_up (PAGE_HEADER + (zlen (@nil StagedCell) + 1) * CELL_INDEX_ENTRY)) with 16.
  change CELL_PAYLOAD_MAX with 8148 in H. unfold LEAF_CELL_HEADER, PAGE_SIZE, PAGE_TRAILER. lia.
Qed.

Lemma fill_leaf_spec b items :
  builder_ok b → ∃ taken rest b', fill_leaf b items = (b', rest) ∧ items = taken ++ rest ∧ builder_ok b' ∧
    lb_cells b' = lb_cells b ++ (item_staged <$> taken).
Proof.
  revert b. induction items as [|it items IH]; intros b Hb; cbn [fill_leaf].
  { exists [], [], b. csimpl. by rewrite app_nil_r. }
  destruct (push_into it b) as [b1|] eqn:Hp; [|exists [], (it :: items), b; csimpl; by rewrite app_nil_r].
  destruct (leaf_push_ok _ _ _ Hb Hp) as [Hb1 Hc1]. destruct (IH b1 Hb1) as (taken & rest & b' & -> & -> & Hb' & Hc').
  exists (it :: taken), rest, b'. split_and!; try done. rewrite Hc', Hc1. csimpl. by rewrite <-app_assoc.
Qed.

Lemma fill_leaf_new it items :
  item_ok it → ∃ taken rest b', fill_leaf leaf_new (it :: items) = (b', rest) ∧ it :: items = it :: taken ++ rest ∧ builder_ok b' ∧
    lb_cells b' = item_staged <$> (it :: taken).
Proof.
  intros [_ Hi]. cbn [fill_leaf]. unfold push_into, leaf_push. cbn [item_staged sc_payload]. rewrite leaf_fits_new by done. cbn [negb].
  set (b1 := mkLeafBuilder _ _).
  assert (leaf_push leaf_new (item_staged it) = Some b1) as Hp.
  { unfold leaf_push. cbn [item_staged sc_payload]. by rewrite leaf_fits_new by done. }
  destruct (leaf_push_ok _ _ _ builder_ok_new Hp) as [Hb1 Hc1].
  destruct (fill_leaf_spec b1 items Hb1) as (taken & rest & b' & Hf & -> & Hb' & Hc'). exists taken, rest, b'. by split_and!.
Qed.

Lemma fill_leaf_shrinks b items : ∃ k, items = k ++ snd (fill_leaf b items).
Proof.
  revert b. induction items as [|it items IH]; intros b; cbn [fill_leaf]; [by exists []|].
  destruct (push_into it b) as [b1|]; [|by exists []]. destruct (IH b1) as [k Hk]. exists (it :: k). cbn [app]. by f_equal.
Qed.

(** Filling stops where it stops: what was taken fills the same builder and leaves nothing. *)
Lemma fill_leaf_taken b items taken rest b' :
  fill_leaf b items = (b', rest) → items = taken ++ rest → fill_leaf b taken = (b', []).
Proof.
  revert b taken. induction items as [|it items IH]; intros b taken H E; cbn [fill_leaf] in H.
  { injection H as <- <-. by destruct taken. }
  destruct (push_into it b) as [b1|] eqn:Hp.
  - destruct taken as [|x taken]; [|injection E as <- E; cbn [fill_leaf]; rewrite Hp; by eapply IH].
    cbn [app] in E. exfalso. destruct (fill_leaf_shrinks b1 items) as (k & Hk). rewrite H in Hk. cbn [snd] in Hk.
    rewrite <-E in Hk. apply (f_equal length) in Hk. rewrite length_app in Hk. cbn [length] in Hk. lia.
  - injection H as <- <-. destruct taken as [|x taken]; [reflexivity|]. apply (f_equal length) in E. cbn [app length] in E.
    rewrite length_app in E. cbn [length] in E. lia.
Qed.

Lemma fill_branch_spec chunk : Z.of_nat (length chunk) <= CAPACITY → fill_branch chunk = Some chunk.
Proof.
  intros H. unfold fill_branch. assert (∀ acc, Z.of_nat (length acc + length chunk) <= CAPACITY →
    foldl (λ o c, cells ← o; branch_push cells c) (Some acc) chunk = Some (acc ++ chunk)) as Hg.
  { clear H. induction chunk as [|c chunk IH]; intros acc Ha; cbn [foldl]; [by rewrite app_nil_r|]. cbn [length] in Ha.
    assert (branch_push acc c = Some (acc ++ [c])) as Hp by (unfold branch_push; by rewrite (proj2 (Z.ltb_lt _ _)) by lia).
    cbn [mbind option_bind]. rewrite Hp, IH by (rewrite length_app; cbn; lia). by rewrite <-app_assoc. }
  apply (Hg []). cbn. lia.
Qed.


(** A leaf has fewer cells than a branch may have. *)
Lemma laid_out_count cursor cells :
  cursor mod 8 = 0 → 0 <= cursor <= PAGE_SIZE - PAGE_TRAILER → laid_out cursor cells → cursor + 24 * zlen cells <= PAGE_SIZE - PAGE_TRAILER + 7.
Proof.
  revert cursor. induction cells as [|d cells IH]; intros cursor Hal H0 Hlo; [unfold zlen; cbn; lia|].
  destruct Hlo as [Hle Hl]. destruct (next_cursor cursor d Hal ltac:(lia) Hle) as [Hal' Hle']. pose proof (cell_size_pos d) as Hp.
  destruct cells as [|e cells]; [unfold zlen in *; cbn in *; lia|]. pose proof Hl as [Hl' _]. pose proof (cell_size_pos e).
  specialize (IH _ Hal' ltac:(lia) Hl). unfold zlen in *. cbn [length] in *. lia.
Qed.

Lemma builder_count b : builder_ok b → zlen (lb_cells b) < CAPACITY.
Proof.
  intros [_ _ [H1 H2] H3]. rewrite CAPACITY_eq. pose proof (zlen_nonneg (lb_cells b)).
  destruct (data_start_spec (zlen (lb_cells b)) ltac:(lia)) as [Hd Hm].
  pose proof (laid_out_count _ _ Hm ltac:(lia) H3). unfold PAGE_SIZE, PAGE_TRAILER in *. lia.
Qed.

Lemma leaf_fit_count items : leaf_fit items → Z.of_nat (length items) < CAPACITY.
Proof.
  intros [b Hb]. destruct (fill_leaf_spec leaf_new items builder_ok_new) as (taken & rest & b' & Hf & -> & Hok & Hc).
  rewrite Hb in Hf. injection Hf as <- <-. apply builder_count in Hok. rewrite Hc in Hok. unfold zlen in Hok.
  rewrite app_nil_r. by rewrite length_app, length_fmap in Hok.
Qed.

(** * Building *)
Section building.
Context {X : Extern} {L : ExternLaws X} {P : Type} `{!Pager P, !PagerMut P} (fd : Freelist) (l : Layout).
Implicit Types (c : Cfg P).

(** What an operation that turns the pages [w] into the pages [w'] beside others has done. *)
Record took c c' (w w' : list Z) : Prop := {
  tk_evolves : evolves c c' (own c);
  tk_own : ∃ ps, w' ≡ₚ ps ++ w ∧ own c' ≡ₚ ps ++ own c
}.

Lemma took_refl c w : took c c w w.
Proof. split; [apply evolves_refl|]. by exists []. Qed.

Lemma took_trans c1 c2 c3 a b d : took c1 c2 a b → took c2 c3 b d → took c1 c3 a d.
Proof.
  intros [E1 (p1 & A1 & O1)] [E2 (p2 & A2 & O2)]. split.
  - eapply evolves_trans; [exact E1|exact E2|done|]. intros q Hq. rewrite O1. apply elem_of_app. by right.
  - exists (p2 ++ p1). split; [by rewrite A2, A1, app_assoc|by rewrite O2, O1, app_assoc].
Qed.

Lemma took_frame c c' a b v : took c c' a b → took c c' (a ++ v) (b ++ v).
Proof. intros [E (ps & A & O)]. split; [exact E|]. exists ps. split; [by rewrite A, app_assoc|exact O]. Qed.

Lemma took_perm c c' a a' b b' : a ≡ₚ a' → b ≡ₚ b' → took c c' a b → took c c' a' b'.
Proof. intros Ha Hb [E (ps & A & O)]. split; [exact E|]. exists ps. split; [by rewrite <-Hb, A, Ha|exact O]. Qed.

Lemma took_inv c c' a b : txn_inv fd l c → took c c' a b → txn_inv fd l c'.
Proof. intros Hi [He _]. by eapply evolves_inv. Qed.

Lemma took_store c c' a b : took c c' a b → c_store c' = c_store c.
Proof. intros [He _]. apply He. Qed.

Lemma took_reads c c' a b q : took c c' a b → q ∈ own c → page_at c' q = page_at c q.
Proof. intros [He _]. apply He. Qed.

(** With the old pages beside a frame, the new pages are beside the same frame. *)
Lemma took_own c c' a b F : took c c' a b → own c ≡ₚ a ++ F → own c' ≡ₚ b ++ F.
Proof. intros [_ (ps & A & O)] H. rewrite O, A, H. by rewrite app_assoc. Qed.

Lemma took_grows c c' a b : took c c' a b → own c ⊆ own c'.
Proof. intros [_ (ps & _ & O)] q Hq. rewrite O. apply elem_of_app. by right. Qed.

Lemma took_sub c c' a b : took c c' a b → a ⊆ own c → b ⊆ own c'.
Proof. intros [_ (ps & A & O)] Ha q Hq. rewrite A in Hq. rewrite O. apply elem_of_app in Hq. apply elem_of_app. naive_solver. Qed.

(** One leaf written. *)
Lemma leaf_written c n items b :
  txn_inv fd l c → room c n → 1 <= n → builder_ok b → fill_leaf leaf_new items = (b, []) →
  lb_cells b = item_staged <$> items → Forall item_ok items →
  ∃ p t1 c' page, txn_alloc (c_store c) (c_txn c) = Ok (p, t1) ∧ leaf_finish b p = Ok page ∧ txn_write t1 p page = Ok (c_txn c') ∧
    room c' (n - 1) ∧ took c c' (bases items) (p :: bases items) ∧ 0 <= p < 2 ^ 32 ∧ own_tree c' 0 p items (p :: bases items).
Proof.
  intros Hinv Hr Hn Hb Hfit Hc Hi.
  destruct (take_page fd l c n (λ p, match leaf_finish b p with Ok pg => pg | _ => zeroed end) Hinv Hr Hn)
    as (p & t1 & c' & Ha & Hp & Hw & He & Hr' & Ho & Hrd).
  destruct (leaf_page_ok b p items Hb Hc Hi Hp) as (page & lf & cells & Hf & Hok & Hty & Hpl & Hcells & Hmap & Hvc).
  rewrite Hf in Hw, Hrd. exists p, t1, c', page.
  split_and!; [exact Ha|exact Hf|exact Hw|exact Hr'| |lia|lia|].
  - split; [exact He|]. exists [p]. split; [done|exact Ho].
  - exists cells. split; [exists page, lf; by split_and!|]. split_and!; [by rewrite Hmap|exact Hi|by exists b|by exists page|reflexivity].
Qed.

Lemma pack_leaves_loop_ok fuel c items out n :
  (length items <= fuel)%nat → Forall item_ok items → txn_inv fd l c → bases items ⊆ own c → room c n → Z.of_nat (length items) <= n →
  ∃ es c' w, pack_leaves_loop (c_store c) fuel (c_txn c) items out = Ok (out ++ es, c_txn c') ∧ took c c' (bases items) w ∧
    room c' (n - Z.of_nat (length items)) ∧ own_row c' 0 es items w ∧ (length es <= length items)%nat.
Proof.
  revert c items out n. induction fuel as [|fuel IH]; intros c [|it items] out n Hf Hi Hinv Hown Hr Hn; try (cbn in Hf; lia).
  1,2: exists [], c, []; rewrite app_nil_r; cbn [length pack_leaves_loop Z.of_nat] in *; rewrite Z.sub_0_r;
    (split_and!; [reflexivity|apply took_refl|exact Hr|constructor|lia]).
  cbn [pack_leaves_loop]. pose proof Hi as Hi'. apply Forall_cons in Hi' as [Hit _].
  destruct (fill_leaf_new it items Hit) as (taken & rest & b & Hfl & Heq & Hb & Hc). rewrite Hfl.
  pose proof (fill_leaf_taken _ _ (it :: taken) _ _ Hfl Heq) as Hfit. injection Heq as ->.
  assert (bool_decide (lb_cells b = []) = false) as -> by (apply bool_decide_eq_false; rewrite Hc; done).
  change (it :: taken ++ rest) with ((it :: taken) ++ rest) in *. apply Forall_app in Hi as [Hi1 Hi2].
  rewrite bases_app in Hown |- *. rewrite length_app in *. cbn [length] in *.
  destruct (leaf_written c n (it :: taken) b Hinv Hr ltac:(lia) Hb Hfit Hc Hi1)
    as (p & t1 & c2 & page & Ha & Hfin & Hw & Hr2 & Htk & Hp & Htr).
  unfold b_alloc, b_write. rewrite Ha. cbn [from_store map_err mbind Res_bind]. rewrite Hfin. cbn [from_page map_err mbind Res_bind].
  rewrite Hw. cbn [from_store map_err mbind Res_bind].
  assert (own c ⊆ own c2 ∧ p ∈ own c2) as [Hsub Hpo].
  { destruct Htk as [_ (ps & A & O)]. apply (Permutation_app_inv_r (bases (it :: taken)) [p]) in A. rewrite <-A in O.
    split; [intros q Hq|]; rewrite O; [by right|by left]. }
  destruct (IH c2 rest (out ++ [mkBranchCell (li_key it) 0 p]) (n - 1) ltac:(lia) Hi2 (took_inv _ _ _ _ Hinv Htk))
    as (es & c' & w & Hpk & Htk' & Hr' & Hrow & Hlen); [intros q Hq; apply Hsub, Hown, elem_of_app; by right|exact Hr2|lia|].
  rewrite (took_store _ _ _ _ Htk) in Hpk. rewrite Hpk.
  exists (mkBranchCell (li_key it) 0 p :: es), c', ((p :: bases (it :: taken)) ++ w). split_and!.
  - by rewrite <-app_assoc.
  - eapply took_trans; [apply took_frame, Htk|].
    eapply took_perm; [apply Permutation_app_comm|apply Permutation_app_comm|]. by apply took_frame.
  - eapply room_sub; [exact Hr'|]. lia.
  - constructor.
    + apply Forall_cons in Hi1 as [[(Hkey & _) _] _]. unfold branch_cell_ok. cbn in *. lia.
    + reflexivity.
    + cbn [bc_child]. eapply own_tree_keep; [|exact Htr]. intros q Hq. eapply took_reads; [exact Htk'|].
      apply elem_of_cons in Hq as [->|Hq]; [exact Hpo|]. apply Hsub, Hown. apply elem_of_app. by left.
    + exact Hrow.
  - cbn. lia.
Qed.

(** ** The levels above the leaves *)

(** One branch written over a group of subtrees. *)
Lemma branch_written c n h ch items w :
  txn_inv fd l c → room c n → 1 <= n → ch ≠ [] → Z.of_nat (length ch) <= CAPACITY → w ⊆ own c → own_row c h ch items w →
  ∃ first p t1 c' page, head ch = Some first ∧ txn_alloc (c_store c) (c_txn c) = Ok (p, t1) ∧ branch_finish ch p = Ok page ∧
    txn_write t1 p page = Ok (c_txn c') ∧ room c' (n - 1) ∧ took c c' w (p :: w) ∧ p ∈ own c' ∧
    own_row c' (S h) [mkBranchCell (bc_key first) 0 p] items (p :: w).
Proof.
  intros Hinv Hr Hn Hne Hlen Hown Hrow. pose proof (level_cells_ok _ _ _ _ Hrow) as Hc.
  destruct (take_page fd l c n (λ p, match branch_finish ch p with Ok pg => pg | _ => zeroed end) Hinv Hr Hn)
    as (p & t1 & c' & Ha & Hp & Hw & He & Hr' & Ho & Hrd).
  destruct (branch_page_ok ch p Hlen Hc Hp) as (page & b & Hf & Hok & Hty & Hpb & Hcells & Hvc). rewrite Hf in Hw, Hrd.
  destruct ch as [|first ch]; [exfalso; exact (Hne eq_refl)|]. exists first, p, t1, c', page.
  split_and!; [reflexivity|exact Ha|exact Hf|exact Hw|exact Hr'| |rewrite Ho; by left|].
  { split; [exact He|]. exists [p]. split; [done|exact Ho]. }
  pose proof (Forall_inv Hc) as (Hk & _). pose proof (level_first _ _ _ _ _ Hrow) as Hfk.
  rewrite <-(app_nil_r items), <-(app_nil_r (p :: w)). constructor; [|exact Hfk| |constructor].
  - unfold branch_cell_ok. cbn. lia.
  - exists (first :: ch), w. split; [|split_and!; [done|exact Hlen|by exists page| |reflexivity]].
    + exists page, b. split; [exact Hrd|]. split; [exact Hok|]. split; [exact Hty|]. split; [exact Hpb|exact Hcells].
    + eapply own_row_keep; [|exact Hrow]. intros q Hq. by apply (ev_reads _ _ _ He), Hown.
Qed.

Lemma pack_chunks_ok cs c n h items w :
  Forall (λ ch, ch ≠ [] ∧ Z.of_nat (length ch) <= CAPACITY) cs → w ⊆ own c → own_row c h (concat cs) items w →
  txn_inv fd l c → room c n → Z.of_nat (length cs) <= n →
  ∃ es c' w', pack_chunks (c_store c) (c_txn c) cs = Ok (es, c_txn c') ∧ took c c' w w' ∧ room c' (n - Z.of_nat (length cs)) ∧
    own_row c' (S h) es items w' ∧ length es = length cs.
Proof.
  intros Hcs. revert c n items w. induction Hcs as [|ch cs [Hne Hlen] _ IH]; intros c n items w Hown Hrow Hinv Hr Hn.
  { exists [], c, []. cbn [pack_chunks concat length Z.of_nat] in *. rewrite Z.sub_0_r. inversion Hrow; subst.
    split_and!; [reflexivity|apply took_refl|exact Hr|constructor|reflexivity]. }
  cbn [concat] in Hrow. apply level_app in Hrow as (i1 & i2 & w1 & w2 & -> & -> & R1 & R2). cbn [length] in Hn.
  assert (w1 ⊆ own c ∧ w2 ⊆ own c) as [O1 O2] by (split; intros q Hq; apply Hown, elem_of_app; tauto).
  destruct (branch_written c n h ch i1 w1 Hinv Hr ltac:(lia) Hne Hlen O1 R1)
    as (first & p & t1 & c2 & page & Hh & Ha & Hf & Hw & Hr2 & Htk & Hp & Hrow1).
  cbn [pack_chunks]. rewrite (fill_branch_spec ch Hlen). cbn [unwrap mbind Res_bind].
  unfold b_alloc, b_write. rewrite Ha. cbn [from_store map_err mbind Res_bind]. rewrite Hf. cbn [from_page map_err mbind Res_bind].
  rewrite Hw. cbn [from_store map_err mbind Res_bind]. rewrite Hh. cbn [unwrap mbind Res_bind].
  pose proof (took_grows _ _ _ _ Htk) as Hsub.
  assert (own_row c2 h (concat cs) i2 w2) as R2'.
  { eapply own_row_keep; [|exact R2]. intros q Hq. eapply took_reads; [exact Htk|by apply O2]. }
  destruct (IH c2 (n - 1) i2 w2) as (es & c' & w' & Hpk & Htk' & Hr' & Hrow' & Hl);
    [intros q Hq; by apply Hsub, O2|exact R2'|by eapply took_inv|exact Hr2|lia|].
  rewrite (took_store _ _ _ _ Htk) in Hpk. rewrite Hpk. cbn [mbind Res_bind].
  exists (mkBranchCell (bc_key first) 0 p :: es), c', ((p :: w1) ++ w'). split_and!.
  - reflexivity.
  - eapply took_trans; [apply took_frame, Htk|].
    eapply took_perm; [apply Permutation_app_comm|apply Permutation_app_comm|]. by apply took_frame.
  - eapply room_sub; [exact Hr'|]. cbn [length]. lia.
  - apply (level_app _ [_] es). exists i1, i2, (p :: w1), w'. split_and!; [reflexivity|reflexivity| |exact Hrow'].
    eapply own_row_keep; [|exact Hrow1]. intros q [->|Hq]%elem_of_cons; (eapply took_reads; [exact Htk'|]);
      [exact Hp|by apply Hsub, O1].
  - cbn. by rewrite Hl.
Qed.

(** A level packs into [ceil (m / 454)] branches. *)
Lemma branch_chunks (es : list BranchCell) :
  let cs := chunks (length es) (Z.to_nat CAPACITY) es in
  concat cs = es ∧ Forall (λ ch, ch ≠ [] ∧ Z.of_nat (length ch) <= CAPACITY) cs ∧
  Z.of_nat (length cs) = (Z.of_nat (length es) + 453) / 454.
Proof.
  cbv zeta. rewrite CAPACITY_eq. change (Z.to_nat 454) with 454%nat. split_and!.
  - apply chunks_concat; lia.
  - generalize (length es) at 1. intros fuel. revert es.
    induction fuel as [|fuel IH]; intros [|x es]; cbn [chunks]; try constructor; [|apply IH].
    split; [done|]. rewrite length_take. lia.
  - rewrite length_chunks by lia. rewrite Nat2Z.inj_div. f_equal; lia.
Qed.


Lemma pack_branches_ok c n h es items w :
  w ⊆ own c → own_row c h es items w → txn_inv fd l c → room c n → (Z.of_nat (length es) + 453) / 454 <= n →
  ∃ es' c' w', pack_branches (c_store c) (c_txn c) es = Ok (es', c_txn c') ∧ took c c' w w' ∧
    room c' (n - Z.of_nat (length es')) ∧ own_row c' (S h) es' items w' ∧ Z.of_nat (length es') = (Z.of_nat (length es) + 453) / 454.
Proof.
  intros Hown Hrow Hinv Hr Hn. destruct (branch_chunks es) as (Hcat & Hch & Hlc). unfold pack_branches.
  set (cs := chunks _ _ es) in *. rewrite <-Hcat in Hrow.
  destruct (pack_chunks_ok cs c n h items w Hch Hown Hrow Hinv Hr ltac:(lia)) as (es' & c' & w' & H1 & H2 & H3 & H4 & H5).
  exists es', c', w'. rewrite H5. split_and!; [exact H1|exact H2|exact H3|exact H4|lia].
Qed.

Lemma pack_up_ok k fuel c h es items w n :
  (length es <= fuel)%nat → es ≠ [] → Z.of_nat (length es) <= 454 ^ Z.of_nat k → w ⊆ own c → own_row c h es items w →
  txn_inv fd l c → room c n → Z.of_nat (length es) <= n →
  ∃ root c' w' h', pack_up (c_store c) fuel (c_txn c) es = Ok (root, c_txn c') ∧ took c c' w w' ∧
    (h' <= h + k)%nat ∧ own_tree c' h' root items w' ∧ room c' (n - Z.of_nat (length es)).
Proof.
  revert fuel c h es items w n. induction k as [|k IH]; intros fuel c h es items w n Hf Hne Hk Hown Hrow Hinv Hr Hn.
  all: destruct es as [|b [|b2 es]]; [done| |].
  1,3: exists (bc_child b), c, w, h; (split_and!; [by destruct fuel|apply took_refl|lia|by apply level_one in Hrow|eapply room_sub; [exact Hr|lia]]).
  - cbn [length] in Hk. change (454 ^ Z.of_nat 0) with 1 in Hk. lia.
  - set (es' := b :: b2 :: es) in *. destruct fuel as [|fuel]; [cbn in Hf; lia|].
    assert (2 <= Z.of_nat (length es')) as H2 by (subst es'; cbn [length]; lia).
    destruct (pack_branches_ok c n h es' items w Hown Hrow Hinv Hr) as (es1 & c1 & w1 & Hp & Htk & Hr1 & Hrow1 & Hl1).
    { pose proof (Z.mul_div_le (Z.of_nat (length es') + 453) 454 ltac:(lia)). lia. }
    assert (1 <= Z.of_nat (length es1) ∧ 2 * Z.of_nat (length es1) <= Z.of_nat (length es')) as [Hc1 Hc2].
    { rewrite Hl1. split; [apply Z.div_le_lower_bound; lia|].
      pose proof (Z.mul_div_le (Z.of_nat (length es') + 453) 454 ltac:(lia)). lia. }
    destruct (IH fuel c1 (S h) es1 items w1 (n - Z.of_nat (length es1))) as (root & c' & w' & h' & Hu & Htk' & Hh & Ht & Hr').
    + lia.
    + intros ->. cbn in Hc1. lia.
    + rewrite Hl1. apply Z.lt_succ_r, Z.div_lt_upper_bound; [lia|].
      replace (Z.of_nat (S k)) with (Z.succ (Z.of_nat k)) in Hk by lia. rewrite Z.pow_succ_r in Hk by lia. lia.
    + by eapply took_sub.
    + exact Hrow1.
    + by eapply took_inv.
    + exact Hr1.
    + lia.
    + rewrite (took_store _ _ _ _ Htk) in Hu. exists root, c', w', h'. split_and!.
      * change (pack_up (c_store c) (S fuel) (c_txn c) es') with
          ('(level, t) ← pack_branches (c_store c) (c_txn c) es'; pack_up (c_store c) fuel t level).
        rewrite Hp. exact Hu.
      * by eapply took_trans.
      * lia.
      * exact Ht.
      * eapply room_sub; [exact Hr'|]. lia.
Qed.

Lemma pack_leaves_ok c items n :
  items ≠ [] → Forall item_ok items → txn_inv fd l c → bases items ⊆ own c → room c n → Z.of_nat (length items) <= n →
  ∃ es c' w, pack_leaves (c_store c) (c_txn c) items = Ok (es, c_txn c') ∧ took c c' (bases items) w ∧
    room c' (n - Z.of_nat (length items)) ∧ own_row c' 0 es items w ∧ (1 <= length es <= length items)%nat.
Proof.
  intros Hne Hi Hinv Hown Hr Hn.
  destruct (pack_leaves_loop_ok (length items) c items [] n (Nat.le_refl _) Hi Hinv Hown Hr Hn)
    as (es & c' & w & Hp & Htk & Hr' & Hrow & Hl).
  exists es, c', w. split_and!; [by destruct items|exact Htk|exact Hr'|exact Hrow| |exact Hl].
  destruct es; [|cbn; lia]. exfalso. apply Hne. by apply (level_nil_iff _ _ _ _ Hrow).
Qed.

Lemma build_nil_ok c n :
  txn_inv fd l c → room c n → 1 <= n →
  ∃ p c', build (c_store c) (c_txn c) [] = Ok (p, c_txn c') ∧ took c c' [] [p] ∧ own_tree c' 0 p [] [p] ∧ room c' (n - 1).
Proof.
  intros Hinv Hr Hn. destruct (leaf_written c n [] leaf_new Hinv Hr Hn builder_ok_new eq_refl eq_refl ltac:(constructor))
    as (p & t1 & c' & page & Ha & Hf & Hw & Hr' & Htk & _ & Ht).
  exists p, c'. split_and!; [|exact Htk|exact Ht|exact Hr']. unfold build. cbn [pack_leaves]. unfold b_alloc, b_write. rewrite Ha.
  cbn [from_store map_err mbind Res_bind]. rewrite Hf. cbn [from_page map_err mbind Res_bind]. rewrite Hw. reflexivity.
Qed.

Lemma room_count c n : txn_inv fd l c → room c n → n < 2 ^ 32.
Proof. intros [Hp _] [Hr _]. destruct (ti_next _ _ Hp) as [Hx _]. lia. Qed.

Lemma build_tree c items n :
  txn_inv fd l c → Forall item_ok items → bases items ⊆ own c → room c n → 2 * Z.of_nat (length items) + 1 <= n →
  ∃ root c' w h, build (c_store c) (c_txn c) items = Ok (root, c_txn c') ∧ took c c' (bases items) w ∧
    (h <= 4)%nat ∧ own_tree c' h root items w ∧ room c' (n - (2 * Z.of_nat (length items) + 1)).
Proof.
  intros Hinv Hi Hown Hr Hn. destruct items as [|it items].
  { destruct (build_nil_ok c n Hinv Hr ltac:(lia)) as (p & c' & Hb & Htk & Ht & Hr').
    exists p, c', [p], 0%nat. split_and!; [exact Hb|exact Htk|lia|exact Ht|eapply room_sub; [exact Hr'|cbn; lia]]. }
  set (its := it :: items) in *. unfold build.
  destruct (pack_leaves_ok c its n) as (es & c1 & w1 & Hp & Htk1 & Hr1 & Hrow & Hl);
    [done|exact Hi|exact Hinv|exact Hown|exact Hr|lia|]. rewrite Hp. cbn [mbind Res_bind].
  destruct (pack_up_ok 4 (length es) c1 0 es its w1 (n - Z.of_nat (length its)) (Nat.le_refl _)) as (root & c' & w & h & Hu & Htk & Hh & Ht & Hr').
  - intros ->. cbn in Hl. lia.
  - pose proof (room_count _ _ Hinv Hr). change (454 ^ Z.of_nat 4) with 42483805456. lia.
  - by eapply took_sub.
  - exact Hrow.
  - by eapply took_inv.
  - exact Hr1.
  - lia.
  - rewrite (took_store _ _ _ _ Htk1) in Hu. exists root, c', w, h.
    split_and!; [exact Hu|by eapply took_trans|lia|exact Ht|eapply room_sub; [exact Hr'|lia]].
Qed.
End building.
