(* ===== verification/BTreeItem.v ===== *)
(** What a container becomes in a leaf: the delta against the page it was last written to, and the
    item the write path makes of it (the theory of [try_delta] and [make_item_over] of
    crates/big-btree/src/write.rs). *)
From S2P Require Import Prelude Bits Search Container Optimize Delta Page Leaf Branch Chain Meta Freelist Snapshot Roots Pager Store Txn BTree BTreeWrite BTreeOwn BTreeBuild.

(** * The bits in which two bitmaps differ *)
Definition word_entry (w new : Z) (b : Z) : DeltaEntry := mkDelta (w * 64 + b) (Z.testbit new b).
Definition capped (es : list DeltaEntry) : option (list DeltaEntry) := if MAX_DELTA <? zlen es then None else Some es.

Lemma diff_bits_spec fuel w new diff acc :
  word64 diff → (length (bits diff) < fuel)%nat → 0 <= w < 1024 → zlen acc <= MAX_DELTA →
  diff_bits fuel w new diff acc = capped (acc ++ map (word_entry w new) (bits diff)).
Proof.
  revert diff acc. induction fuel as [|fuel IH]; intros diff acc Hd Hf Hw Ha; [lia|]. cbn [diff_bits].
  destruct (Z.eqb_spec diff 0) as [->|Hne].
  { rewrite bits_0. cbn [map]. rewrite app_nil_r. unfold capped. by rewrite (proj2 (Z.ltb_ge _ _)) by lia. }
  rewrite (bits_unfold diff Hd Hne) in Hf |- *. cbn [length map] in *.
  assert (trailing_zeros diff ∈ bits diff) as [Hz _]%elem_of_bits by (rewrite (bits_unfold diff Hd Hne); by left).
  rewrite (Z.mod_small (w * 64 + trailing_zeros diff)) by lia. rewrite land_1_testbit, Z.shiftr_spec, Z.add_0_l by lia.
  fold (word_entry w new (trailing_zeros diff)). set (e := word_entry w new _).
  assert (zlen (acc ++ [e]) = zlen acc + 1) as Hl by (unfold zlen; rewrite length_app; cbn [length]; lia).
  destruct (Z.ltb_spec MAX_DELTA (zlen (acc ++ [e]))) as [Hgt|Hle].
  - unfold capped. rewrite (proj2 (Z.ltb_lt _ _)); [done|]. unfold zlen in *. rewrite length_app in *. cbn [length] in *. lia.
  - rewrite IH; [|by apply word64_land|lia|done|done]. by rewrite <-app_assoc.
Qed.

Lemma capped_none_app a b : capped a = None → capped (a ++ b) = None.
Proof.
  unfold capped, zlen. rewrite length_app. destruct (Z.ltb_spec MAX_DELTA (Z.of_nat (length a))); [|done]. intros _.
  rewrite (proj2 (Z.ltb_lt _ _)) by lia. done.
Qed.

Fixpoint diff_entries (w : Z) (words base : list Z) : list DeltaEntry :=
  match words, base with
  | new :: words', old :: base' => map (word_entry w new) (bits (Z.lxor new old)) ++ diff_entries (w + 1) words' base'
  | _, _ => []
  end.

Lemma length_bits_64 w : (length (bits w) <= 64)%nat.
Proof.
  change 64%nat with (length (seqZ 0 64)). apply submseteq_length, NoDup_submseteq; [apply ascending_NoDup, ascending_bits|].
  intros i [Hi _]%elem_of_bits. by apply elem_of_seqZ.
Qed.

Lemma diff_words_capped words base w acc :
  Forall word64 words → Forall word64 base → 0 <= w → w + Z.of_nat (length words) <= 1024 → zlen acc <= MAX_DELTA →
  diff_words w words base acc = capped (acc ++ diff_entries w words base).
Proof.
  intros Hw. revert base w acc. induction Hw as [|new words Hn Hw IH]; intros base w acc Hb H0 H1 Ha.
  { cbn. rewrite app_nil_r. unfold capped. by rewrite (proj2 (Z.ltb_ge _ _)) by lia. }
  destruct Hb as [|old base Ho Hb]; cbn [diff_words diff_entries].
  { rewrite app_nil_r. unfold capped. by rewrite (proj2 (Z.ltb_ge _ _)) by lia. }
  cbn [length] in H1. pose proof (length_bits_64 (Z.lxor new old)).
  rewrite diff_bits_spec by (try apply word64_lxor; try done; lia).
  rewrite app_assoc. destruct (capped (acc ++ _)) as [es|] eqn:E; cbn [mbind option_bind].
  - unfold capped in E. destruct (Z.ltb_spec MAX_DELTA (zlen (acc ++ map (word_entry w new) (bits (Z.lxor new old))))); [done|].
    injection E as <-. apply IH; [done|lia|lia|done].
  - symmetry. by apply capped_none_app.
Qed.

Lemma bit_at_cons x l v : 64 <= v → bit_at (x :: l) v = bit_at l (v - 64).
Proof.
  intros Hv. rewrite !bit_at_testbit by lia. unfold word_at.
  replace ((v - 64) / 64) with (v / 64 - 1) by (replace (v - 64) with (v + (-1) * 64) by lia; rewrite Z.div_add by lia; lia).
  assert (1 <= v / 64) by (apply Z.div_le_lower_bound; lia).
  replace (Z.to_nat (v / 64)) with (S (Z.to_nat (v / 64 - 1))) by lia. cbn [lookup list_lookup].
  replace ((v - 64) mod 64) with (v mod 64); [done|].
  replace (v - 64) with (v + (-1) * 64) by lia. by rewrite Z.mod_add by lia.
Qed.
Lemma bit_at_head x l v : 0 <= v < 64 → bit_at (x :: l) v = Z.testbit x v.
Proof.
  intros Hv. rewrite bit_at_testbit by lia. rewrite Z.div_small, Z.mod_small by lia. done.
Qed.

(** Entry by entry: the offsets are the differing positions, in order, the bits those of the new
    bitmap. *)
Lemma elem_of_diff_entries words base w e :
  length words = length base →
  e ∈ diff_entries w words base ↔
  ∃ v, 0 <= v < 64 * Z.of_nat (length words) ∧ bit_at words v ≠ bit_at base v ∧ e = mkDelta (64 * w + v) (bit_at words v).
Proof.
  revert base w. induction words as [|new words IH]; intros [|old base] w Hl; try done.
  { cbn. split; [by intros ?%not_elem_of_nil|]. intros (v & ? & _). lia. }
  cbn [diff_entries length] in *. injection Hl as Hl. rewrite elem_of_app, list_elem_of_fmap, IH by done. split.
  - intros [(b & -> & Hb)|(v & Hv & Hne & ->)].
    + apply elem_of_bits in Hb as [Hb Ht]. exists b. rewrite !bit_at_head by lia. rewrite Z.lxor_spec in Ht.
      split_and!; [lia|lia| |unfold word_entry; f_equal; lia]. intros E. rewrite E, xorb_nilpotent in Ht. done.
    + exists (v + 64). rewrite !bit_at_cons by lia. replace (v + 64 - 64) with v by lia. split_and!; [lia|lia|done|f_equal; lia].
  - intros (v & Hv & Hne & ->). destruct (Z.lt_ge_cases v 64) as [Hlt|Hge].
    + left. exists v. rewrite !(bit_at_head _ _ v) by lia. rewrite (bit_at_head new), (bit_at_head old) in Hne by lia. split; [unfold word_entry; f_equal; lia|].
      apply elem_of_bits. split; [lia|]. rewrite Z.lxor_spec. destruct (Z.testbit new v), (Z.testbit old v); first [reflexivity|by destruct Hne].
    + right. exists (v - 64). rewrite !bit_at_cons by lia. rewrite (bit_at_cons new), (bit_at_cons old) in Hne by lia. split_and!; [lia|lia|done|f_equal; lia].
Qed.

Lemma diff_entries_sorted words base w :
  0 <= w → StronglySorted (λ x y, d_offset x < d_offset y) (diff_entries w words base) ∧
  Forall (λ e, 64 * w <= d_offset e) (diff_entries w words base).
Proof.
  intros Hw. revert base w Hw. induction words as [|new words IH]; intros [|old base] w Hw; cbn [diff_entries]; try (split; constructor).
  destruct (IH base (w + 1) ltac:(lia)) as [Hs Hg]. split.
  - apply StronglySorted_app_2; [| |done].
    + intros x y Hx Hy. apply list_elem_of_fmap in Hx as (b & -> & Hb). apply elem_of_bits in Hb as [Hb _].
      rewrite Forall_forall in Hg. specialize (Hg y Hy). cbn in *. lia.
    + pose proof (ascending_bits (Z.lxor new old)) as Ha. induction Ha as [|b l Hl IHl Hb]; cbn [map]; constructor; [done|].
      apply Forall_forall. intros x Hx. apply list_elem_of_fmap in Hx as (b' & -> & Hb'). rewrite Forall_forall in Hb.
      specialize (Hb b' Hb'). cbn. lia.
  - apply Forall_app. split.
    + apply Forall_forall. intros x Hx. apply list_elem_of_fmap in Hx as (b & -> & Hb). apply elem_of_bits in Hb as [Hb _]. cbn. lia.
    + eapply Forall_impl; [exact Hg|]. intros e He. cbn in He. lia.
Qed.

(** Two bitmaps with the same bits are the same words. *)
Lemma words_ext a b :
  wf (Bitmap a) → wf (Bitmap b) → (∀ v, u16 v → bit_at a v = bit_at b v) → a = b.
Proof.
  intros [La Wa]%wf_bitmap [Lb Wb]%wf_bitmap H. apply list_eq. intros i.
  destruct (a !! i) as [x|] eqn:Ha; [|apply lookup_ge_None_1 in Ha; symmetry; apply lookup_ge_None_2; lia].
  pose proof (lookup_lt_Some _ _ _ Ha) as Hi. destruct (lookup_lt_is_Some_2 b i ltac:(lia)) as [y Hb]. rewrite Hb. f_equal.
  rewrite Forall_forall in Wa, Wb. pose proof (Wa x (list_elem_of_lookup_2 _ _ _ Ha)) as Hx.
  pose proof (Wb y (list_elem_of_lookup_2 _ _ _ Hb)) as Hy. apply Z.bits_inj'. intros n Hn.
  destruct (Z.lt_ge_cases n 64) as [Hlt|Hge]; [|by rewrite !word64_testbit_high].
  unfold BITMAP_WORDS in *. specialize (H (64 * Z.of_nat i + n) ltac:(unfold u16; lia)). rewrite !bit_at_testbit in H by lia.
  assert ((64 * Z.of_nat i + n) / 64 = Z.of_nat i) as E1 by (symmetry; apply (Z.div_unique _ 64 _ n); lia).
  assert ((64 * Z.of_nat i + n) mod 64 = n) as E2 by (symmetry; apply (Z.mod_unique _ 64 (Z.of_nat i)); lia).
  rewrite E1, E2 in H. unfold word_at in H. rewrite Nat2Z.id, Ha, Hb in H. exact H.
Qed.

(** What [try_delta] writes down turns the base into the new bitmap; when it gives up, more bits
    differ than a delta may hold. *)
Lemma diff_words_ok words base :
  wf (Bitmap words) → wf (Bitmap base) →
  match diff_words 0 words base [] with
  | Some es => delta_ok es ∧ zlen es <= MAX_DELTA ∧ delta_apply base es = words
  | None => MAX_DELTA < zlen (diff_entries 0 words base)
  end.
Proof.
  intros Hw Hb. pose proof Hw as [Lw Ww]%wf_bitmap. pose proof Hb as [Lb Wb]%wf_bitmap. unfold BITMAP_WORDS in *.
  rewrite diff_words_capped by (done || lia). cbn [app]. unfold capped.
  destruct (Z.ltb_spec MAX_DELTA (zlen (diff_entries 0 words base))) as [Hgt|Hle]; [done|].
  pose proof (λ e, elem_of_diff_entries words base 0 e ltac:(lia)) as Hin.
  assert (delta_ok (diff_entries 0 words base)) as Hd.
  { split; [|by apply diff_entries_sorted]. apply Forall_forall. intros e (v & Hv & _ & ->)%Hin. unfold u16. cbn. lia. }
  split_and!; [done|done|]. apply words_ext; [by apply delta_apply_wf, Hd|done|]. intros v Hv.
  destruct (decide (bit_at words v = bit_at base v)) as [E|Hne].
  - rewrite bit_at_delta_apply_notin; [done|done|apply Hd|done|]. apply Forall_forall. intros e (v' & Hv' & Hne & ->)%Hin.
    cbn. intros <-. replace (0 + v') with v' in E by lia. done.
  - assert (mkDelta (64 * 0 + v) (bit_at words v) ∈ diff_entries 0 words base) as He.
    { apply Hin. exists v. unfold u16 in Hv. split_and!; [lia|lia|done|done]. }
    apply list_elem_of_lookup in He as [i Hi]. pose proof (bit_at_delta_apply_in base _ i _ Hb Hd Hi) as H. cbn in H.
    replace (0 + v) with v in H by lia. exact H.
Qed.

(** * The item a container becomes *)
Section items.
Context {X : Extern} {L : ExternLaws X} {P : Type} `{!Pager P, !PagerMut P} (fd : Freelist) (l : Layout).
Implicit Types (c : Cfg P).

(** The page an item points at, as the transaction has it. *)
Definition item_base c (it : LeafItem) : option Page :=
  match base_pgno it with Some no => match page_at c no with Ok p => Some p | _ => None end | None => None end.

(** The item is the container: wherever in a leaf it lands, its cell resolves to the same set, its
    cardinality is the container's, the page it points at, if any, has the checksum it carries, and a
    delta is sorted, as a point read of it needs. *)
Record stands_for c (it : LeafItem) (key : Z) (k : Container) : Prop := {
  sf_ok : item_ok it;
  sf_key : li_key it = key;
  sf_card : li_cardinality it = cardinality k;
  sf_wf : wf k;
  sf_resolve : ∃ k', wf k' ∧ members k' = members k ∧
    ∀ start, start mod 8 = 0 → resolve_checked (staged_cell (item_staged it) start) (item_base c it) = Ok k';
  sf_base : ∀ no, base_pgno it = Some no → ∃ page, page_at c no = Ok page ∧ page_ok page ∧
    bitmap_page_checksum page = li_bitmap_checksum it;
  sf_delta : li_ty it = TBitmapDelta → ∃ es, decode (li_payload it) = Some es ∧ delta_ok es
}.

Lemma stands_keep c c' it key k :
  (∀ q, q ∈ bases [it] → page_at c' q = page_at c q) → stands_for c it key k → stands_for c' it key k.
Proof.
  intros Hrd [H1 H2 H3 H4 H5 H6 H7]. assert (∀ no, base_pgno it = Some no → page_at c' no = page_at c no) as Hr.
  { intros no Hno. apply Hrd, elem_of_bases. exists it. split; [by left|done]. }
  assert (item_base c' it = item_base c it) as Hb.
  { unfold item_base. destruct (base_pgno it) as [no|]; [|reflexivity]. by rewrite (Hr no). }
  split; [done..| | |exact H7].
  - rewrite Hb. exact H5.
  - intros no Hno. rewrite (Hr no Hno). by apply H6.
Qed.

(** What it means to [verify_base]. *)
Lemma stands_verifies c it key k page start : stands_for c it key k → item_base c it = Some page →
  verify_base (staged_cell (item_staged it) start) page = Ok tt.
Proof.
  intros Hs Hb. unfold item_base in Hb. destruct (base_pgno it) as [no|] eqn:E; [|discriminate Hb].
  destruct (sf_base _ _ _ _ Hs no E) as (pg & Hp & _ & Hc). rewrite Hp in Hb. injection Hb as <-. unfold verify_base.
  cbn [staged_cell item_staged sc_bitmap_checksum lc_bitmap_checksum]. by rewrite Hc, Z.eqb_refl.
Qed.

Lemma inline_stands c key k staged :
  wf k → 0 <= key < 2 ^ 64 → staged_of key k = Some staged → byte_size k <= CELL_PAYLOAD_MAX →
  let it := mkItem key (sc_ty staged) (sc_elem_n staged) (sc_cardinality staged) 0 0 (sc_payload staged) in
  base_pgno it = None ∧ stands_for c it key k.
Proof.
  intros Hc Hk Hs Hb. destruct (staged_of_ok key k staged Hc Hk Hs Hb) as (Hok & Hl & Hres). cbv zeta.
  assert (item_staged (mkItem key (sc_ty staged) (sc_elem_n staged) (sc_cardinality staged) 0 0 (sc_payload staged)) = staged
    ∧ owns_page (sc_ty staged) = false ∧ sc_cardinality staged = cardinality k ∧
      ∀ start o, container (staged_cell staged start) = Ok (Some o) → resolve_checked (staged_cell staged start) None = Ok o)
    as (He & Ho & Hcd & Hrc).
  { destruct k as [a|b|r]; [|discriminate Hs|]; injection Hs as <-; (split; [reflexivity|]; split; [reflexivity|]; split; [reflexivity|]);
      intros start o Hco; unfold resolve_checked; cbn [staged_cell lc_ty sc_ty] in *; rewrite Hco; reflexivity. }
  assert (base_pgno (mkItem key (sc_ty staged) (sc_elem_n staged) (sc_cardinality staged) 0 0 (sc_payload staged)) = None) as Hn
    by (unfold base_pgno, is_dense; cbn [li_ty]; by rewrite Ho).
  split; [exact Hn|]. split; cbn [li_key li_cardinality].
  - split; [by rewrite He|]. cbn [li_payload]. lia.
  - reflexivity.
  - exact Hcd.
  - exact Hc.
  - exists k. split; [done|]. split; [done|]. intros start Hst. rewrite He. unfold item_base. rewrite Hn. apply Hrc, Hres, Hst.
  - intros no Hno. rewrite Hn in Hno. discriminate Hno.
  - cbn [li_ty]. intros E. rewrite E in Ho. discriminate Ho.
Qed.

Lemma cardinality_bound k : wf k → 0 <= cardinality k < 2 ^ 32.
Proof. intros Hc. rewrite cardinality_members by done. pose proof (members_length k Hc). lia. Qed.

Lemma dense_stands c key words no :
  wf (Bitmap words) → 0 <= key < 2 ^ 64 → 0 <= no < 2 ^ 32 → page_at c no = Ok (build_bitmap_page words) →
  stands_for c (item_dense key no (cardinality (Bitmap words)) (bitmap_page_checksum (build_bitmap_page words))) key (Bitmap words).
Proof.
  intros Hw Hk Hno Hr. destruct (build_bitmap_page_ok words Hw) as (Hpo & _ & Hbc). pose proof (cardinality_bound _ Hw) as Hcd.
  assert (0 <= bitmap_page_checksum (build_bitmap_page words) < 2 ^ 32) as Hcrc by apply crc32_u32.
  assert (∀ it, it = item_dense key no (cardinality (Bitmap words)) (bitmap_page_checksum (build_bitmap_page words)) →
    item_base c it = Some (build_bitmap_page words)) as Hib.
  { intros it ->. unfold item_base, item_dense, base_pgno, is_dense. cbn [li_ty owns_page li_bitmap_pgno]. by rewrite Hr. }
  split; [| reflexivity | reflexivity | exact Hw | | |discriminate].
  - split; [|change CELL_PAYLOAD_MAX with 8148; unfold item_dense, zlen; cbn [li_payload length]; lia].
    unfold staged_ok, item_dense, item_staged. cbn [sc_key sc_elem_n sc_cardinality sc_bitmap_checksum sc_bitmap_pgno sc_payload sc_ty li_key li_ty li_elem_n li_cardinality li_bitmap_checksum li_bitmap_pgno li_payload].
    split_and!; try lia; try done.
  - exists (Bitmap words). split; [done|]. split; [done|]. intros start _. rewrite (Hib _ eq_refl). exact Hbc.
  - intros n Hn. injection Hn as <-. exists (build_bitmap_page words). split_and!; [exact Hr|exact Hpo|reflexivity].
Qed.

Lemma delta_stands c key words no page es :
  wf (Bitmap words) → 0 <= key < 2 ^ 64 → 0 <= no < 2 ^ 32 → page_at c no = Ok page → page_ok page →
  (∀ base, base_words page = Ok base → delta_ok es ∧ zlen es <= MAX_DELTA ∧ delta_apply base es = words) →
  stands_for c (item_delta key no (bitmap_page_checksum page) (cardinality (Bitmap words)) es) key (Bitmap words).
Proof.
  intros Hw Hk Hno Hr Hp Hes. destruct (page_words page Hp) as (base & Hb & _ & _).
  destruct (Hes base Hb) as (Hd & Hlen & Hap). pose proof (cardinality_bound _ Hw) as Hcd.
  assert (0 <= bitmap_page_checksum page < 2 ^ 32) as Hcrc by apply crc32_u32.
  assert (0 <= zlen es) by (unfold zlen; lia). unfold MAX_DELTA in *.
  assert (∀ it, it = item_delta key no (bitmap_page_checksum page) (cardinality (Bitmap words)) es →
    item_base c it = Some page) as Hib.
  { intros it ->. unfold item_base, item_delta, base_pgno, is_dense. cbn [li_ty owns_page li_bitmap_pgno]. by rewrite Hr. }
  assert (zlen (encode es) = 4 * zlen es) as Hel by (unfold zlen; by rewrite length_encode).
  split; [| reflexivity | reflexivity | exact Hw | | |].
  - unfold item_ok, item_delta, item_staged. cbn [li_payload]. split; [|change CELL_PAYLOAD_MAX with 8148; lia].
    unfold staged_ok. cbn [sc_key sc_elem_n sc_cardinality sc_bitmap_checksum sc_bitmap_pgno sc_payload sc_ty li_key li_ty li_elem_n li_cardinality li_bitmap_checksum li_bitmap_pgno li_payload payload_len].
    rewrite (Z.mod_small (zlen es)) by lia. split_and!; try lia.
    + unfold encode. clear. induction es as [|e es IH]; cbn [map concat]; [constructor|]. apply Forall_app. split; [|exact IH].
      unfold encode_entry. apply Forall_app. split; apply bytes_le_bytes.
    + rewrite Hel. unfold DELTA_ENTRY_BYTES. lia.
  - exists (Bitmap words). split; [done|]. split; [done|]. intros start _. rewrite (Hib _ eq_refl).
    unfold resolve_checked, item_delta, item_staged. cbn [staged_cell lc_ty sc_ty li_ty ok_or mbind Res_bind].
    rewrite Hb. cbn [mbind Res_bind]. unfold cell_delta.
    cbn [staged_cell sc_ty li_ty lc_ty lc_payload sc_payload li_payload]. rewrite bool_decide_eq_true_2 by reflexivity. cbn [negb].
    rewrite decode_encode_delta by apply Hd. cbn [ok_or mbind Res_bind]. by rewrite Hap.
  - intros n Hn. injection Hn as <-. exists page. split_and!; [exact Hr|exact Hp|reflexivity].
  - intros _. exists es. split; [|exact Hd]. cbn [item_delta li_payload]. apply decode_encode_delta, Hd.
Qed.

(** What a caller may pass as the page a container was last written to. *)
Definition base_ok c (base : option (Z * Z)) : Prop :=
  match base with
  | Some (no, crc) => no ∈ own c ∧ ∃ page, page_at c no = Ok page ∧ page_ok page ∧ bitmap_page_checksum page = crc
  | None => True
  end.

Lemma write_caps_fit k : within WRITE_CAPS k → (∀ w, k ≠ Bitmap w) → byte_size k <= CELL_PAYLOAD_MAX.
Proof.
  destruct k as [a|w|r]; cbn [within]; [| by intros _ H; destruct (H w)|]; intros Hw _; unfold byte_size;
    change CELL_PAYLOAD_MAX with 8148; [change (array_max WRITE_CAPS) with 2048 in Hw|change (run_max WRITE_CAPS) with 1024 in Hw]; lia.
Qed.

(** What making an item may have taken: the page of its own, or none because it leans on [base]. *)
Definition item_took c c' (it : LeafItem) (base : option (Z * Z)) : Prop :=
  took c c' [] (bases [it]) ∨ (c' = c ∧ base_pgno it ≠ None ∧ base_pgno it = fst <$> base).

Lemma whole_item_ok c key best n :
  wf best → within WRITE_CAPS best → 0 <= key < 2 ^ 64 → txn_inv fd l c → room c n → 1 <= n →
  ∃ it c', whole_item (c_store c) (c_txn c) key best = Ok (it, c_txn c') ∧ took c c' [] (bases [it]) ∧ room c' (n - 1) ∧ stands_for c' it key best.
Proof.
  intros Hw Hin Hk Hinv Hr Hn. destruct best as [a|words|r].
  - destruct (inline_stands c key (Array a) (mkStagedCell key TArray (zlen a mod 2 ^ 16) (cardinality (Array a)) 0 0 (cast_u16 a)))
      as [Hb Hs]; [done|done|reflexivity|by apply write_caps_fit|].
    eexists _, c. split_and!; [reflexivity| |eapply room_sub; [exact Hr|lia]|exact Hs]. apply took_refl.
  - destruct (take_page fd l c n (λ _, build_bitmap_page words) Hinv Hr Hn) as (p & t1 & c' & Ha & Hp & Hwr & He & Hr' & Ho & Hrd).
    eexists _, c'. unfold whole_item, b_alloc, b_write. rewrite Ha. cbn [from_store map_err mbind Res_bind]. rewrite Hwr.
    cbn [from_store map_err mbind Res_bind]. split_and!; [reflexivity| |exact Hr'|by apply dense_stands].
    split; [exact He|]. exists [p]. split; [reflexivity|exact Ho].
  - destruct (inline_stands c key (Run r) (mkStagedCell key TRun (zlen r mod 2 ^ 16) (cardinality (Run r)) 0 0 (cast_interval r)))
      as [Hb Hs]; [done|done|reflexivity|by apply write_caps_fit|].
    eexists _, c. split_and!; [reflexivity| |eapply room_sub; [exact Hr|lia]|exact Hs]. apply took_refl.
Qed.

Lemma stands_same c it key k k' :
  wf k → wf k' → members k = members k' → stands_for c it key k → stands_for c it key k'.
Proof.
  intros Hw Hw' Hm [H1 H2 H3 _ (k1 & Hk1 & Hk2 & Hk3) H5 H6]. split; [done|done| |done| |done|done].
  - rewrite H3, !cardinality_members by done. by rewrite Hm.
  - exists k1. split; [done|]. split; [by rewrite Hk2|done].
Qed.

Lemma make_item_ok c key k base n :
  wf k → 0 <= key < 2 ^ 64 → txn_inv fd l c → room c n → 1 <= n → base_ok c base →
  ∃ it c', make_item_over (c_store c) (c_txn c) key k base = Ok (it, c_txn c') ∧ item_took c c' it base ∧ room c' (n - 1) ∧
    stands_for c' it key k.
Proof.
  intros Hc Hk Hinv Hr Hn Hbase. destruct (optimize_same_set k WRITE_CAPS Hc) as [Hw Hm]. destruct (optimize_size k WRITE_CAPS Hc) as (Hin & _).
  unfold make_item_over. set (best := into_owned (optimize k WRITE_CAPS)) in *.
  destruct (whole_item_ok c key best n Hw Hin Hk Hinv Hr Hn) as (it & c' & Hwi & Htk & Hr' & Hst).
  assert (∃ it c', whole_item (c_store c) (c_txn c) key best = Ok (it, c_txn c') ∧ item_took c c' it base ∧ room c' (n - 1) ∧
    stands_for c' it key k) as Hwhole.
  { exists it, c'. split_and!; [exact Hwi|left; exact Htk|exact Hr'|]. by apply (stands_same c' it key best k). }
  destruct best as [a|words|r]; [exact Hwhole| |exact Hwhole]. destruct base as [[no crc]|]; [|exact Hwhole].
  destruct Hbase as (Hno & page & Hrd & Hpo & Hcrc). destruct (page_words page Hpo) as (bw & Hbw & _ & Hbwf).
  destruct (own_range fd l c no Hinv Hno) as [Hnr1 Hnr2]. pose proof Hrd as Hrd'. unfold page_at in Hrd'.
  unfold try_delta, b_read. rewrite Hrd'. cbn [from_store map_err mbind Res_bind]. rewrite Hcrc, Z.eqb_refl. cbn [negb].
  rewrite Hbw. cbn [from_page map_err mbind Res_bind].
  pose proof (diff_words_ok words bw Hw Hbwf) as Hd. destruct (diff_words 0 words bw []) as [es|]; cbn [option_map]; [|exact Hwhole].
  exists (item_delta key no crc (cardinality (Bitmap words)) es), c.
  split_and!; [reflexivity|right; split; [reflexivity|split; [discriminate|reflexivity]]|eapply room_sub; [exact Hr|lia]|].
  apply (stands_same c _ key (Bitmap words) k); [done|done|done|]. rewrite <-Hcrc. apply delta_stands; [done|done|lia|done|done|].
  intros b0 Hb0. rewrite Hbw in Hb0. injection Hb0 as <-. exact Hd.
Qed.
End items.
