(* ===== verification/BTreeEdit.v ===== *)
(** Editing a tree: what happens to the one leaf an operation reaches, and to the path above it
    (the theory of [descend], [splice], [leaf_upper_bound], [merge_right], [rewrite_path_span] of
    crates/big-btree/src/write.rs).

    A descent cuts the tree into the leaf it ends on and a [spine]: for each branch passed, what
    lies to the left and to the right of the child taken.  Rewriting the path puts any row of new
    leaves back between the two sides. *)
From S2P Require Import Prelude Bits Search Container Optimize Delta Page Leaf Branch Chain Meta Freelist Snapshot Roots Pager Store Txn BTree BTreeWrite BTreeOwn BTreeBuild.

(** * A tree as an ordered map: the reference operations on its list of items *)
Definition below (k : Z) (items : list LeafItem) : list LeafItem := List.filter (λ it, li_key it <? k) items.
Definition above (k : Z) (items : list LeafItem) : list LeafItem := List.filter (λ it, k <? li_key it) items.
Definition item_at (items : list LeafItem) (k : Z) : option LeafItem := List.find (λ it, li_key it =? k) items.
Definition put_item (items : list LeafItem) (it : LeafItem) : list LeafItem :=
  below (li_key it) items ++ it :: above (li_key it) items.
Definition drop_item (items : list LeafItem) (k : Z) : list LeafItem := below k items ++ above k items.

(** A list around a key. *)
Record cut (k : Z) (items a : list LeafItem) (o : option LeafItem) (b : list LeafItem) : Prop := {
  cut_list : items = a ++ option_list o ++ b;
  cut_below : Forall (λ x, li_key x < k) a;
  cut_at : ∀ x, o = Some x → li_key x = k;
  cut_above : Forall (λ x, k < li_key x) b
}.

Lemma filter_all {A} (f : A → bool) l : Forall (λ x, f x = true) l → List.filter f l = l.
Proof. induction 1 as [|x l Hx _ IH]; [reflexivity|]. cbn [List.filter]. by rewrite Hx, IH. Qed.
Lemma filter_none {A} (f : A → bool) l : Forall (λ x, f x = false) l → List.filter f l = [].
Proof. induction 1 as [|x l Hx _ IH]; [reflexivity|]. cbn [List.filter]. by rewrite Hx, IH. Qed.

Lemma cut_spec k items a o b : cut k items a o b → below k items = a ∧ above k items = b ∧ item_at items k = o.
Proof.
  intros [-> Ha Ho Hb]. unfold below, above, item_at. rewrite !List.filter_app, !find_app.
  rewrite (filter_all _ a), (filter_none _ b), (filter_none _ a), (filter_all (λ it, k <? li_key it) b), (find_absent _ a), (find_absent _ b).
  2:{ intros x Hx. rewrite Forall_forall in Hb. specialize (Hb x Hx). simpl in Hb. lia. }
  2:{ intros x Hx. rewrite Forall_forall in Ha. specialize (Ha x Hx). simpl in Ha. lia. }
  2-5: eapply Forall_impl; [eassumption|]; simpl; lia.
  destruct o as [x|]; [|cbn; by rewrite !app_nil_r]. specialize (Ho x eq_refl). 
  change (option_list (Some x)) with [x]. cbn [List.filter List.find].
  rewrite Ho, Z.ltb_irrefl, Z.eqb_refl. by rewrite app_nil_r.
Qed.

Lemma cut_order items k : items_in_order items → ∃ a o b, cut k items a o b ∧
  binary_search_by_key k li_key items = match o with Some _ => Hit (length a) | None => Miss (length a) end.
Proof.
  intros Hs. pose proof (binary_search_by_key_spec li_key k items Hs) as Hb. destruct (binary_search_by_key k li_key items) as [i|i].
  - destruct Hb as (x & Hx & Hk). pose proof (take_drop_middle items i x Hx) as Hm.
    exists (take i items), (Some x), (drop (S i) items).
    assert (length (take i items) = i) as Hl by (apply length_take_le; apply lookup_lt_Some in Hx; lia). rewrite Hl.
    split; [|reflexivity]. rewrite <-Hm in Hs. apply StronglySorted_app in Hs as (Hs1 & Hs2 & Hs3).
    apply StronglySorted_inv in Hs3 as [Hs3 Hs4]. split.
    + exact (eq_sym Hm).
    + apply Forall_forall. intros y Hy. rewrite <-Hk. apply Hs1; [done|by left].
    + by intros y [= <-].
    + eapply Forall_impl; [exact Hs4|]. simpl. lia.
  - destruct Hb as (Hi & H1 & H2). exists (take i items), None, (drop i items). rewrite length_take_le by done.
    split; [|reflexivity]. split; [exact (eq_sym (take_drop i items))|exact H1|done|exact H2].
Qed.

Lemma cut_wide k items a o b pre post :
  cut k items a o b → Forall (λ x, li_key x < k) pre → Forall (λ x, k < li_key x) post →
  cut k (pre ++ items ++ post) (pre ++ a) o (b ++ post).
Proof.
  intros [-> Ha Ho Hb] Hp Hq. split; [by rewrite <-!app_assoc|by apply Forall_app|exact Ho|by apply Forall_app].
Qed.

(** An edit in the middle is an edit of the whole. *)
Lemma put_item_wide pre items post it :
  items_in_order items → Forall (λ x, li_key x < li_key it) pre → Forall (λ x, li_key it < li_key x) post →
  put_item (pre ++ items ++ post) it = pre ++ put_item items it ++ post.
Proof.
  intros Hs Hp Hq. destruct (cut_order items (li_key it) Hs) as (a & o & b & Hc & _).
  destruct (cut_spec _ _ _ _ _ Hc) as (E1 & E2 & _). destruct (cut_spec _ _ _ _ _ (cut_wide _ _ _ _ _ _ _ Hc Hp Hq)) as (E3 & E4 & _).
  unfold put_item. rewrite E1, E2, E3, E4. by rewrite <-!app_assoc.
Qed.
Lemma drop_item_wide pre items post k :
  items_in_order items → Forall (λ x, li_key x < k) pre → Forall (λ x, k < li_key x) post →
  drop_item (pre ++ items ++ post) k = pre ++ drop_item items k ++ post.
Proof.
  intros Hs Hp Hq. destruct (cut_order items k Hs) as (a & o & b & Hc & _).
  destruct (cut_spec _ _ _ _ _ Hc) as (E1 & E2 & _). destruct (cut_spec _ _ _ _ _ (cut_wide _ _ _ _ _ _ _ Hc Hp Hq)) as (E3 & E4 & _).
  unfold drop_item. rewrite E1, E2, E3, E4. by rewrite <-!app_assoc.
Qed.
Lemma item_at_wide pre items post k :
  items_in_order items → Forall (λ x, li_key x < k) pre → Forall (λ x, k < li_key x) post →
  item_at (pre ++ items ++ post) k = item_at items k.
Proof.
  intros Hs Hp Hq. destruct (cut_order items k Hs) as (a & o & b & Hc & _).
  destruct (cut_spec _ _ _ _ _ Hc) as (_ & _ & ->). by destruct (cut_spec _ _ _ _ _ (cut_wide _ _ _ _ _ _ _ Hc Hp Hq)) as (_ & _ & ->).
Qed.

Lemma order_sides a m b : items_in_order (a ++ m ++ b) → items_in_order a ∧ items_in_order b.
Proof. intros H. split; [by eapply StronglySorted_app_1_l|]. by eapply StronglySorted_app_1_r, StronglySorted_app_1_r. Qed.

Lemma put_item_order items it : items_in_order items → items_in_order (put_item items it).
Proof.
  intros Hs. destruct (cut_order items (li_key it) Hs) as (a & o & b & Hc & _). destruct (cut_spec _ _ _ _ _ Hc) as (E1 & E2 & _).
  destruct Hc as [-> Ha _ Hb]. unfold put_item. rewrite E1, E2. apply order_sides in Hs as [Hs1 Hs2].
  rewrite Forall_forall in Ha, Hb. apply StronglySorted_app_2; [|exact Hs1|].
  - intros x y Hx [->|Hy]%elem_of_cons; [by apply Ha|]. specialize (Ha x Hx). specialize (Hb y Hy). simpl in *. lia.
  - constructor; [exact Hs2|]. by apply Forall_forall.
Qed.
Lemma drop_item_order items k : items_in_order items → items_in_order (drop_item items k).
Proof.
  intros Hs. destruct (cut_order items k Hs) as (a & o & b & Hc & _). destruct (cut_spec _ _ _ _ _ Hc) as (E1 & E2 & _).
  destruct Hc as [-> Ha _ Hb]. unfold drop_item. rewrite E1, E2. apply order_sides in Hs as [Hs1 Hs2].
  rewrite Forall_forall in Ha, Hb. apply StronglySorted_app_2; [|exact Hs1|exact Hs2].
  intros x y Hx Hy. specialize (Ha x Hx). specialize (Hb y Hy). simpl in *. lia.
Qed.

Lemma elem_of_put_item items it x : x ∈ put_item items it → x = it ∨ x ∈ items.
Proof. unfold put_item, below, above. rewrite elem_of_app, elem_of_cons, !elem_of_Lfilter. naive_solver. Qed.
Lemma elem_of_drop_item items k x : x ∈ drop_item items k → x ∈ items.
Proof. unfold drop_item, below, above. rewrite elem_of_app, !elem_of_Lfilter. naive_solver. Qed.

Lemma length_put_item items it : items_in_order items → (1 <= length (put_item items it) <= S (length items))%nat.
Proof.
  intros Hs. destruct (cut_order items (li_key it) Hs) as (a & o & b & Hc & _). destruct (cut_spec _ _ _ _ _ Hc) as (E1 & E2 & _).
  unfold put_item. rewrite E1, E2, (cut_list _ _ _ _ _ Hc), !length_app. cbn. lia.
Qed.
Lemma put_item_grows items it : items_in_order items → (length items <= length (put_item items it))%nat.
Proof.
  intros Hs. destruct (cut_order items (li_key it) Hs) as (a & o & b & Hc & _). destruct (cut_spec _ _ _ _ _ Hc) as (E1 & E2 & _).
  unfold put_item. rewrite E1, E2, (cut_list _ _ _ _ _ Hc), !length_app. destruct o; cbn; lia.
Qed.
Lemma length_drop_item items k : items_in_order items → (length (drop_item items k) <= length items)%nat.
Proof.
  intros Hs. destruct (cut_order items k Hs) as (a & o & b & Hc & _). destruct (cut_spec _ _ _ _ _ Hc) as (E1 & E2 & _).
  unfold drop_item. rewrite E1, E2, (cut_list _ _ _ _ _ Hc), !length_app. lia.
Qed.

Lemma item_at_spec items k x : items_in_order items → item_at items k = Some x ↔ x ∈ items ∧ li_key x = k.
Proof.
  intros Hs. destruct (cut_order items k Hs) as (a & o & b & Hc & _). destruct (cut_spec _ _ _ _ _ Hc) as (_ & _ & E). rewrite E.
  destruct Hc as [-> Ha Ho Hb]. rewrite Forall_forall in Ha, Hb. split.
  - intros ->. split; [rewrite !elem_of_app; right; left; by left|by apply Ho].
  - intros [Hx Hk]. rewrite !elem_of_app in Hx. destruct Hx as [Hx|[Hx|Hx]].
    + specialize (Ha x Hx). simpl in Ha. lia.
    + destruct o as [y|]; [|by apply not_elem_of_nil in Hx]. by apply list_elem_of_singleton in Hx as ->.
    + specialize (Hb x Hx). simpl in Hb. lia.
Qed.

Lemma elem_of_put_item_iff items it x : x ∈ put_item items it ↔ x = it ∨ (x ∈ items ∧ li_key x ≠ li_key it).
Proof.
  unfold put_item, below, above. rewrite elem_of_app, elem_of_cons, !elem_of_Lfilter, Z.ltb_lt, Z.ltb_lt. split; [|destruct (Z.lt_total (li_key x) (li_key it))]; naive_solver lia.
Qed.

Lemma item_at_put_other items it k : items_in_order items → li_key it ≠ k → item_at (put_item items it) k = item_at items k.
Proof.
  intros Hs Hk. apply option_eq. intros x. rewrite !item_at_spec by (try apply put_item_order; done).
  rewrite elem_of_put_item_iff. naive_solver.
Qed.

(** The pages an item brings that the one it replaces does not already have. *)
Definition brings (old : option LeafItem) (it : LeafItem) : list Z :=
  match base_pgno it with
  | Some p => if bool_decide (old ≫= base_pgno = Some p) then [] else [p]
  | None => []
  end.

Lemma bases_option (o : option LeafItem) : bases (option_list o) = option_list (o ≫= base_pgno).
Proof. destruct o as [x|]; [|reflexivity]. cbn. by destruct (base_pgno x). Qed.

Lemma bases_put items it a o b :
  cut (li_key it) items a o b → bases (put_item items it) ≡ₚ option_list (base_pgno it) ++ bases (a ++ b).
Proof.
  intros Hc. destruct (cut_spec _ _ _ _ _ Hc) as (E1 & E2 & _). unfold put_item. rewrite E1, E2.
  rewrite (bases_perm _ (it :: a ++ b)) by (symmetry; apply Permutation_middle).
  change (it :: a ++ b) with (option_list (Some it) ++ a ++ b). by rewrite bases_app, bases_option.
Qed.

Lemma bases_cut k items a o b : cut k items a o b → bases items ≡ₚ option_list (o ≫= base_pgno) ++ bases (a ++ b).
Proof.
  intros [-> _ _ _]. rewrite !bases_app, bases_option. rewrite app_assoc, (Permutation_app_comm (bases a)). by rewrite <-app_assoc.
Qed.

(** * The edits of a leaf *)
Section leaf_edits.
Context {X : Extern} {P : Type} `{!Pager P, !PagerMut P} (fd : Freelist) (l : Layout).
Implicit Types (c : Cfg P).

Lemma splice_ok c items it F :
  txn_inv fd l c → items_in_order items → own c ≡ₚ bases items ++ brings (item_at items (li_key it)) it ++ F →
  ∃ c', splice (c_txn c) items it = (put_item items it, c_txn c') ∧ evolves c c' (bases (put_item items it) ++ F) ∧
    own c' ≡ₚ bases (put_item items it) ++ F ∧ ∀ n, room c n → room c' n.
Proof.
  intros Hinv Hs Ho. destruct (cut_order items (li_key it) Hs) as (a & o & b & Hc & Hbs).
  destruct (cut_spec _ _ _ _ _ Hc) as (E1 & E2 & E3). rewrite E3, (bases_cut _ _ _ _ _ Hc) in Ho.
  pose proof (bases_put _ _ _ _ _ Hc) as Hput.
  assert (∀ t, splice t items it = (put_item items it, match o ≫= base_pgno with
    | Some p => if bool_decide (base_pgno it = Some p) then t else txn_free t p | None => t end)) as Hsp.
  { intros t. unfold splice. rewrite Hbs. unfold put_item. rewrite E1, E2. rewrite (cut_list _ _ _ _ _ Hc).
    destruct o as [x|]; cbn [mbind option_bind].
    - change (option_list (Some x) ++ b) with (x :: b). rewrite list_lookup_middle by done.
      f_equal. by rewrite insert_app_r_alt, Nat.sub_diag by done.
    - f_equal. unfold insert_at. change (a ++ option_list None ++ b) with (a ++ b). by rewrite take_app_length, drop_app_length. }
  rewrite Hsp. unfold brings in Ho. destruct (o ≫= base_pgno) as [p|] eqn:Eo.
  - case_bool_decide as Hd.
    + rewrite Hd in Ho, Hput. rewrite bool_decide_eq_true_2 in Ho by reflexivity. exists c.
      split_and!; [reflexivity|apply evolves_refl| |done]. rewrite Hput, Ho. by rewrite <-app_assoc.
    + assert (own c ≡ₚ p :: bases (put_item items it) ++ F) as Ho'.
      { rewrite Hput, Ho. cbn [option_list]. change (option_list (Some p)) with [p]. destruct (base_pgno it) as [q|].
        - rewrite bool_decide_eq_false_2 by congruence. change (option_list (Some q)) with [q]. solve_Permutation.
        - change (option_list None) with (@nil Z). by rewrite <-!app_assoc. }
      destruct (free_page fd l c p _ Hinv Ho') as (c' & Ht & He & Ho2 & Hr). exists c'. rewrite Ht. by split_and!.
  - exists c. split_and!; [reflexivity|apply evolves_refl| |done]. rewrite Hput, Ho.
    destruct (base_pgno it) as [q|]; [|by rewrite <-app_assoc].
    rewrite bool_decide_eq_false_2 by done. change (option_list (Some q)) with [q]. change (option_list None) with (@nil Z). solve_Permutation.
Qed.

Lemma remove_item_ok c items k F :
  txn_inv fd l c → items_in_order items → own c ≡ₚ bases items ++ F →
  ∃ c', remove_item (c_txn c) items k = (drop_item items k, c_txn c') ∧ evolves c c' (bases (drop_item items k) ++ F) ∧
    own c' ≡ₚ bases (drop_item items k) ++ F ∧ ∀ n, room c n → room c' n.
Proof.
  intros Hinv Hs Ho. destruct (cut_order items k Hs) as (a & o & b & Hc & Hbs).
  destruct (cut_spec _ _ _ _ _ Hc) as (E1 & E2 & E3). rewrite (bases_cut _ _ _ _ _ Hc) in Ho.
  assert (∀ t, remove_item t items k = (drop_item items k, match o ≫= base_pgno with Some p => txn_free t p | None => t end)) as Hsp.
  { intros t. unfold remove_item. rewrite Hbs. unfold drop_item. rewrite E1, E2. rewrite (cut_list _ _ _ _ _ Hc).
    destruct o as [x|]; cbn [mbind option_bind]; [|reflexivity]. change (option_list (Some x) ++ b) with (x :: b).
    rewrite list_lookup_middle by done. f_equal; [by rewrite delete_middle|]. unfold base_pgno. by destruct (is_dense x). }
  rewrite Hsp. unfold drop_item. rewrite E1, E2. destruct (o ≫= base_pgno) as [p|].
  - destruct (free_page fd l c p (bases (a ++ b) ++ F) Hinv) as (c' & Ht & He & Ho2 & Hr); [by rewrite Ho|].
    exists c'. rewrite Ht. by split_and!.
  - exists c. split_and!; [reflexivity|apply evolves_refl|exact Ho|done].
Qed.
End leaf_edits.

(** * The path above a leaf *)

(** A branch on the path: the cells being replaced, and the rows of subtrees on either side. *)
Record Frame := mkFrame {
  f_no : Z; f_mid : list BranchCell;
  f_lbs : list BranchCell; f_litems : list LeafItem; f_lown : list Z;
  f_rbs : list BranchCell; f_ritems : list LeafItem; f_rown : list Z }.
Definition f_step (f : Frame) : Step := mkStep (f_no f) (length (f_lbs f)).
Definition f_cells (f : Frame) : list BranchCell := f_lbs f ++ f_mid f ++ f_rbs f.

(** What lies before and after the hole, and the pages of it all; the leaf's parent comes first. *)
Fixpoint before (fs : list Frame) : list LeafItem := match fs with [] => [] | f :: fs' => before fs' ++ f_litems f end.
Fixpoint after (fs : list Frame) : list LeafItem := match fs with [] => [] | f :: fs' => f_ritems f ++ after fs' end.
Fixpoint around (fs : list Frame) : list Z := match fs with [] => [] | f :: fs' => f_no f :: f_lown f ++ f_rown f ++ around fs' end.

Section spines.
Context {X : Extern} {L : ExternLaws X} {P : Type} `{!Pager P, !PagerMut P} (fd : Freelist) (l : Layout).
Implicit Types (c : Cfg P).

(** The frames above a hole at height [k] that is [span] cells wide. *)
Fixpoint spine c (k span : nat) (fs : list Frame) : Prop :=
  match fs with
  | [] => True
  | f :: fs' =>
      node_branch (view c) (f_no f) (f_cells f) ∧ length (f_mid f) = span ∧ Z.of_nat (length (f_cells f)) <= CAPACITY ∧
      own_row c k (f_lbs f) (f_litems f) (f_lown f) ∧ own_row c k (f_rbs f) (f_ritems f) (f_rown f) ∧ spine c (S k) 1 fs'
  end.

Lemma spine_keep c c' k span fs :
  (∀ q, q ∈ around fs → page_at c' q = page_at c q) → spine c k span fs → spine c' k span fs.
Proof.
  revert k span. induction fs as [|f fs IH]; intros k span Hrd; [done|]. cbn [spine around] in *.
  intros ((page & b & Hr & Hn) & Hm & Hl & H1 & H2 & Hs). split_and!; [|exact Hm|exact Hl| | |].
  - exists page, b. split; [|exact Hn]. rewrite <-Hr. apply (Hrd (f_no f)). by left.
  - eapply own_row_keep; [|exact H1]. intros q Hq. apply Hrd. solve_in.
  - eapply own_row_keep; [|exact H2]. intros q Hq. apply Hrd. solve_in.
  - apply IH; [|exact Hs]. intros q Hq. apply Hrd. solve_in.
Qed.

Lemma spine_bases c k span fs : spine c k span fs → bases (before fs) ++ bases (after fs) ⊆ around fs.
Proof.
  revert k span. induction fs as [|f fs IH]; intros k span; [done|]. cbn [spine before after around].
  intros (_ & _ & _ & H1 & H2 & Hs). rewrite !bases_app. apply own_row_bases in H1, H2. specialize (IH _ _ Hs).
  intros q. rewrite elem_of_cons, !elem_of_app. specialize (IH q). rewrite elem_of_app in IH. specialize (H1 q). specialize (H2 q). tauto.
Qed.

Lemma spine_all c k span fs items : spine c k span fs → bases (before fs ++ items ++ after fs) ⊆ bases items ++ around fs.
Proof.
  intros Hsp q Hq. pose proof (spine_bases _ _ _ _ Hsp q) as Hsb. rewrite !bases_app in Hq. rewrite elem_of_app in Hsb.
  split_in; first [find_in|specialize (Hsb (or_introl Hq)); find_in|specialize (Hsb (or_intror Hq)); find_in].
Qed.

Lemma branch_at_ok c no bs : node_branch (view c) no bs →
  ∃ br, branch_at (c_store c) (c_txn c) no = Ok br ∧ branch_cells br = Ok bs ∧ ∃ page, page_ok page ∧ branch_parse page = Ok br.
Proof.
  intros (page & b & Hr & Hok & _ & Hp & Hc). exists b. split_and!; [|exact Hc|by exists page].
  unfold branch_at, b_read. cbn [pager_read TxnView_Pager view v_store v_txn] in Hr. rewrite Hr.
  cbn [from_store map_err mbind Res_bind]. by rewrite Hp.
Qed.

Lemma splice_frame f es span : length (f_mid f) = span →
  let stop := Nat.min (stp_index (f_step f) + span) (length (f_cells f)) in
  (stop <? stp_index (f_step f))%nat = false ∧ splice_cells (f_cells f) es (stp_index (f_step f)) stop = f_lbs f ++ es ++ f_rbs f.
Proof.
  intros <-. cbn [f_step stp_index]. unfold f_cells, splice_cells. rewrite !length_app. rewrite Nat.min_l by lia.
  split; [apply Nat.ltb_ge; lia|]. rewrite take_app_length. do 2 f_equal.
  rewrite app_assoc. apply drop_app_length'. by rewrite length_app.
Qed.

(** A row of at most [m] subtrees put in the hole: what each level above becomes. *)
Lemma rewrite_up_ok fs c k span es items w F m n :
  txn_inv fd l c → spine c k span fs → (1 <= span)%nat → own_row c k es items w → own c ≡ₚ w ++ around fs ++ F →
  Z.of_nat (length es) <= m → 1 <= m → room c n → Z.of_nat (length fs) * m <= n →
  ∃ es' w' c', rewrite_up (c_store c) (f_step <$> fs) (c_txn c) es span = Ok (es', c_txn c') ∧
    evolves c c' (bases (before fs ++ items ++ after fs) ++ F) ∧ own_row c' (k + length fs) es' (before fs ++ items ++ after fs) w' ∧
    own c' ≡ₚ w' ++ F ∧ Z.of_nat (length es') <= m ∧ room c' (n - Z.of_nat (length fs) * m).
Proof.
  revert c k span es items w n. induction fs as [|f fs IH]; intros c k span es items w n Hinv Hsp Hspan Hrow Hown Hm Hm1 Hr Hn.
  { exists es, w, c. cbn [fmap list_fmap rewrite_up before after around length app] in *. rewrite Nat.add_0_r, !app_nil_r, Z.sub_0_r.
    split_and!; [reflexivity|apply evolves_refl|exact Hrow|exact Hown|exact Hm|exact Hr]. }
  cbn [spine around before after length] in *. destruct Hsp as (Hnode & Hmid & Hcap & HL & HR & Hsp).
  destruct (branch_at_ok c _ _ Hnode) as (br & Hbr & Hcells & _).
  destruct (splice_frame f es span Hmid) as [Hlt Hsplice]. cbv zeta in Hlt, Hsplice.
  destruct (free_page fd l c (f_no f) (w ++ f_lown f ++ f_rown f ++ around fs ++ F) Hinv) as (c1 & Ht1 & He1 & Ho1 & Hr1).
  { rewrite Hown. cbn [app]. rewrite <-Permutation_middle, <-!app_assoc. reflexivity. }
  set (items1 := f_litems f ++ items ++ f_ritems f). set (w1 := f_lown f ++ w ++ f_rown f).
  assert (∀ q, q ∈ w ++ f_lown f ++ f_rown f ++ around fs ++ F → page_at c1 q = page_at c q) as Hrd1 by apply He1.
  assert (own_row c1 k (f_lbs f ++ es ++ f_rbs f) items1 w1) as Hrow1.
  { assert (own_row c k (f_lbs f ++ es ++ f_rbs f) items1 w1) as H.
    { apply level_app. exists (f_litems f), (items ++ f_ritems f), (f_lown f), (w ++ f_rown f). split_and!; [done|done|exact HL|].
      apply level_app. exists items, (f_ritems f), w, (f_rown f). by split_and!. }
    eapply own_row_keep; [|exact H]. intros q Hq. apply Hrd1. subst w1. solve_in. }
  assert (own c1 ≡ₚ w1 ++ around fs ++ F) as Ho1' by (rewrite Ho1; subst w1; solve_Permutation).
  assert (∃ es2 w2 c2, (match f_lbs f ++ es ++ f_rbs f with [] => Ok ([], txn_free (c_txn c) (f_no f))
      | _ => pack_branches (c_store c) (txn_free (c_txn c) (f_no f)) (f_lbs f ++ es ++ f_rbs f) end) = Ok (es2, c_txn c2) ∧
      took c1 c2 w1 w2 ∧ own_row c2 (S k) es2 items1 w2 ∧ Z.of_nat (length es2) <= m ∧ room c2 (n - m)) as (es2 & w2 & c2 & Hpk & Htk & Hrow2 & Hl2 & Hr2).
  { destruct (decide (f_lbs f ++ es ++ f_rbs f = [])) as [E|E].
    - rewrite E in Hrow1 |- *. exists [], w1, c1. rewrite Ht1. apply level_nil_inv in Hrow1 as [Ei Ew].
      split_and!; [reflexivity|apply took_refl| |cbn; lia|].
      + rewrite Ei, Ew. constructor.
      + eapply room_sub; [by apply Hr1|]. lia.
    - destruct (pack_branches_ok fd l c1 n k (f_lbs f ++ es ++ f_rbs f) items1 w1) as (es2 & c2 & w2 & Hpk & Htk & Hr2 & Hrow2 & Hl2).
      + intros q Hq. rewrite Ho1'. apply elem_of_app. by left.
      + exact Hrow1.
      + by eapply evolves_inv.
      + by apply Hr1.
      + unfold f_cells in Hcap. rewrite !length_app in Hcap |- *. rewrite CAPACITY_eq in Hcap.
        apply Z.le_trans with m; [|nia]. apply Z.lt_succ_r, Z.div_lt_upper_bound; nia.
      + assert (Z.of_nat (length es2) <= m) as Hl.
        { rewrite Hl2. unfold f_cells in Hcap. rewrite !length_app in Hcap |- *. rewrite CAPACITY_eq in Hcap.
          apply Z.lt_succ_r, Z.div_lt_upper_bound; nia. }
        exists es2, w2, c2. split_and!; [|exact Htk|exact Hrow2|exact Hl|eapply room_sub; [exact Hr2|lia]].
        rewrite Ht1, (ev_store _ _ _ He1) in Hpk. by destruct (f_lbs f ++ es ++ f_rbs f). }
  pose proof (took_own _ _ _ _ _ Htk Ho1') as Ho2. pose proof (evolves_inv fd l _ _ _ Hinv He1) as Hinv1.
  destruct (IH c2 (S k) 1%nat es2 items1 w2 (n - m)) as (es' & w' & c' & Hup & He' & Hrow' & Ho' & Hl' & Hr').
  - by eapply took_inv.
  - eapply spine_keep; [|exact Hsp]. intros q Hq. rewrite (took_reads _ _ _ _ _ Htk); [|rewrite Ho1'; solve_in].
    apply Hrd1. solve_in.
  - lia.
  - exact Hrow2.
  - exact Ho2.
  - exact Hl2.
  - exact Hm1.
  - exact Hr2.
  - lia.
  - exists es', w', c'.
    assert (before fs ++ items1 ++ after fs = (before fs ++ f_litems f) ++ items ++ f_ritems f ++ after fs) as Hassoc
      by (subst items1; by rewrite <-!app_assoc).
    rewrite Hassoc in He', Hrow'. rewrite <-Nat.add_succ_comm.
    split_and!; [| |exact Hrow'|exact Ho'|exact Hl'|eapply room_sub; [exact Hr'|lia]].
    + cbn [fmap list_fmap rewrite_up]. cbn [f_step stp_pgno]. rewrite Hbr. cbn [mbind Res_bind]. rewrite Hcells. cbn [from_page map_err mbind Res_bind].
      change (length (f_lbs f)) with (stp_index (f_step f)). rewrite Hlt, Hsplice. rewrite Hpk. cbn [mbind Res_bind].
      rewrite (took_store _ _ _ _ Htk), (ev_store _ _ _ He1) in Hup. exact Hup.
    + eapply evolves_trans; [|exact He'| |done].
      * eapply evolves_trans; [exact He1|apply (tk_evolves _ _ _ _ Htk)|done|]. intros q Hq. by rewrite Ho1.
      * rewrite <-Hassoc. intros q Hq. apply elem_of_app in Hq as [Hq|Hq]; [|find_in]. apply (spine_all _ _ _ _ _ Hsp) in Hq.
        apply elem_of_app in Hq as [Hq|Hq]; [|find_in]. apply own_row_bases in Hrow1. apply Hrow1 in Hq. subst w1. solve_in.
Qed.
(** ** The root over the rewritten path *)
Lemma rewrite_path_span_ok fs c span es items w F m k n :
  txn_inv fd l c → spine c 0 span fs → (1 <= span)%nat → own_row c 0 es items w → own c ≡ₚ w ++ around fs ++ F →
  Z.of_nat (length es) <= m → m <= 454 ^ Z.of_nat k → 1 <= m → room c n → (Z.of_nat (length fs) + 1) * m <= n →
  ∃ root c' w' h, rewrite_path_span (c_store c) (c_txn c) (rev (f_step <$> fs)) es span = Ok (root, c_txn c') ∧
    evolves c c' (bases (before fs ++ items ++ after fs) ++ F) ∧ own_tree c' h root (before fs ++ items ++ after fs) w' ∧
    own c' ≡ₚ w' ++ F ∧ (h <= length fs + k)%nat ∧ room c' (n - (Z.of_nat (length fs) + 1) * m).
Proof.
  intros Hinv Hsp Hspan Hrow Hown Hm Hk Hm1 Hr Hn.
  destruct (rewrite_up_ok fs c 0 span es items w F m n Hinv Hsp Hspan Hrow Hown Hm Hm1 Hr ltac:(lia))
    as (es' & w' & c1 & Hup & He & Hrow' & Ho & Hl & Hr1). pose proof (evolves_inv fd l _ _ _ Hinv He) as Hinv1.
  unfold rewrite_path_span. rewrite rev_involutive, Hup. cbn [mbind Res_bind]. set (all := before fs ++ items ++ after fs) in *.
  assert (∃ root c' w2 h, (match es' with [] => build (c_store c) (c_txn c1) [] | _ => pack_up (c_store c) (length es') (c_txn c1) es' end) = Ok (root, c_txn c') ∧
    took c1 c' w' w2 ∧ (h <= length fs + k)%nat ∧ own_tree c' h root all w2 ∧ room c' (n - (Z.of_nat (length fs) + 1) * m)) as (root & c' & w2 & h & H1 & Htk & Hh & Ht & Hr').
  { rewrite <-(ev_store _ _ _ He). destruct (decide (es' = [])) as [->|Hne].
    - apply level_nil_inv in Hrow' as [Ei ->]. rewrite Ei.
      destruct (build_nil_ok fd l c1 _ Hinv1 Hr1 ltac:(lia)) as (p & c' & Hb & Htk & Ht & Hr').
      exists p, c', [p], 0%nat. split_and!; [exact Hb|exact Htk|lia|exact Ht|eapply room_sub; [exact Hr'|lia]].
    - destruct (pack_up_ok fd l k (length es') c1 (length fs) es' all w' (n - Z.of_nat (length fs) * m) (Nat.le_refl _) Hne ltac:(lia)) as (root & c' & w2 & h & Hu & Htk & Hh & Ht & Hr');
        [intros q Hq; rewrite Ho; find_in|exact Hrow'|exact Hinv1|exact Hr1|lia|].
      exists root, c', w2, h. split_and!; [by destruct es'|exact Htk|exact Hh|exact Ht|eapply room_sub; [exact Hr'|lia]]. }
  exists root, c', w2, h. split_and!; [exact H1| |exact Ht|by eapply took_own|exact Hh|exact Hr'].
  eapply evolves_trans; [exact He|apply (tk_evolves _ _ _ _ Htk)|done|].
  intros q Hq. rewrite Ho. apply own_row_bases in Hrow'. apply elem_of_app in Hq as [Hq|Hq]; [apply Hrow' in Hq|]; find_in.
Qed.

(** ** Going down *)
Lemma level_sorted T bs items w :
  own_level T bs items w → items_in_order items → StronglySorted (λ a b, bc_key a < bc_key b) bs.
Proof.
  induction 1 as [|b bs its items w ws Hb Hk Ht Hl IH]; intros Ho; [constructor|].
  apply StronglySorted_app in Ho as (Hlt & _ & Ho). constructor; [by apply IH|]. clear IH Ho. destruct its as [|x its]; [discriminate Hk|].
  injection Hk as Hk. induction Hl as [|b2 bs its2 items w2 ws _ Hk2 _ _ IH]; constructor.
  - destruct its2 as [|y its2]; [discriminate Hk2|]. injection Hk2 as Hk2. rewrite <-Hk, <-Hk2. apply Hlt; find_in.
  - apply IH. intros u v Hu Hv. apply Hlt; find_in.
Qed.

Lemma last_le_spec bs k : bs ≠ [] → StronglySorted (λ a b, bc_key a < bc_key b) bs →
  ∃ lbs b rbs, bs = lbs ++ b :: rbs ∧ last_le bs k 0 0 = length lbs ∧ (lbs = [] ∨ bc_key b <= k) ∧ (∀ x, head rbs = Some x → k < bc_key x).
Proof.
  intros Hne Hs. assert (∀ bs i idx, (∃ lbs b rbs, bs = lbs ++ b :: rbs ∧ last_le bs k i idx = (i + length lbs)%nat ∧ bc_key b <= k ∧
      (∀ x, head rbs = Some x → k < bc_key x)) ∨ (last_le bs k i idx = idx ∧ ∀ x, head bs = Some x → k < bc_key x)) as Hg.
  { clear Hne Hs bs. induction bs as [|b bs IH]; intros i idx; [by right|]. cbn [last_le head]. destruct (Z.leb_spec (bc_key b) k).
    - left. destruct (IH (S i) i) as [(lbs & b' & rbs & -> & -> & H1 & H2)|[-> H2]].
      + exists (b :: lbs), b', rbs. split_and!; [reflexivity|cbn; lia|exact H1|exact H2].
      + exists [], b, bs. split_and!; [reflexivity|cbn; lia|lia|exact H2].
    - right. split; [reflexivity|]. intros x [= <-]. lia. }
  destruct (Hg bs 0%nat 0%nat) as [(lbs & b & rbs & -> & H1 & H2 & H3)|[H1 H2]].
  - exists lbs, b, rbs. split_and!; [reflexivity|exact H1|by right|exact H3].
  - destruct bs as [|b bs]; [done|]. exists [], b, bs. split_and!; [reflexivity|exact H1|by left|].
    intros x Hx. specialize (H2 b eq_refl). destruct bs as [|b2 bs]; [done|]. injection Hx as ->.
    apply StronglySorted_inv in Hs as [_ Hs]. apply Forall_inv in Hs. lia.
Qed.

(** The child a key is sent to, and what is on either side of it. *)
Lemma route_row T bs items w k :
  own_level T bs items w → items_in_order items → bs ≠ [] →
  ∃ lbs b rbs li its ri lw v rw, bs = lbs ++ b :: rbs ∧ last_le bs k 0 0 = length lbs ∧ items = li ++ its ++ ri ∧ w = lw ++ v ++ rw ∧
    own_level T lbs li lw ∧ T (bc_child b) its v ∧ own_level T rbs ri rw ∧ Forall (λ x, li_key x < k) li ∧ Forall (λ x, k < li_key x) ri.
Proof.
  intros Hl Ho Hne. destruct (last_le_spec bs k Hne (level_sorted _ _ _ _ Hl Ho)) as (lbs & b & rbs & -> & Hi & Hb & Hr).
  apply level_app in Hl as (li & i2 & lw & w2 & -> & -> & H1 & H2). inversion H2 as [|? ? its ri v rw Hc Hk Ht H3]; subst.
  exists lbs, b, rbs, li, its, ri, lw, v, rw. split_and!; [reflexivity|exact Hi|reflexivity|reflexivity|exact H1|exact Ht|exact H3| |].
  - destruct Hb as [->|Hb]; [apply level_nil_inv in H1 as [-> _]; constructor|]. apply Forall_forall. intros x Hx.
    apply StronglySorted_app in Ho as (Hlt & _). destruct its as [|y its]; [discriminate Hk|]. injection Hk as Hk.
    specialize (Hlt x y Hx ltac:(by left)). simpl in *. lia.
  - destruct rbs as [|b2 rbs]; [apply level_nil_inv in H3 as [-> _]; constructor|]. pose proof (level_first _ _ _ _ _ H3) as Hk2.
    destruct ri as [|y ri]; [constructor|]. injection Hk2 as Hk2. specialize (Hr b2 eq_refl).
    apply StronglySorted_app_1_r, StronglySorted_app_1_r in Ho. apply StronglySorted_inv in Ho as [_ Ho].
    constructor; [lia|]. eapply Forall_impl; [exact Ho|]. simpl. lia.
Qed.

(** One branch read on the way down. *)
Lemma branch_step c no lbs b rbs k :
  node_branch (view c) no (lbs ++ b :: rbs) → last_le (lbs ++ b :: rbs) k 0 0 = length lbs →
  ∃ page br, b_read (c_store c) (c_txn c) no = Ok page ∧ page_type page = Ok PBranch ∧ branch_parse page = Ok br ∧
    (bp_count br =? 0) = false ∧ branch_cells br = Ok (lbs ++ b :: rbs) ∧
    branch_cell_unwrap br (Z.of_nat (last_le (lbs ++ b :: rbs) k 0 0)) = Ok b.
Proof.
  intros (page & br & Hr & Hok & Hty & Hpa & Hcs) Hi. exists page, br.
  pose proof (branch_cells_length page br Hok Hpa _ Hcs) as Hlen. rewrite length_app in Hlen. cbn [length] in Hlen.
  split_and!; [|exact Hty|exact Hpa|apply Z.eqb_neq; lia|exact Hcs|].
  - unfold b_read. cbn [pager_read TxnView_Pager view v_store v_txn] in Hr. by rewrite Hr.
  - rewrite Hi. apply (branch_cell_lookup br _ Hcs). by apply list_lookup_middle.
Qed.

Lemma descend_ok h left c root no k items w fs :
  own_tree c h no items w → items_in_order items → (h < left)%nat → spine c h 1 fs →
  Forall (λ x, li_key x < k) (before fs) → Forall (λ x, k < li_key x) (after fs) →
  ∃ leaf fs' mid, descend_loop (c_store c) left (c_txn c) root no k (rev (f_step <$> fs)) = Ok (leaf, rev (f_step <$> fs')) ∧
    own_tree c 0 leaf mid (leaf :: bases mid) ∧ spine c 0 1 fs' ∧ length fs' = (h + length fs)%nat ∧
    before fs' ++ mid ++ after fs' = before fs ++ items ++ after fs ∧ w ++ around fs ≡ₚ (leaf :: bases mid) ++ around fs' ∧
    Forall (λ x, li_key x < k) (before fs') ∧ Forall (λ x, k < li_key x) (after fs') ∧ items_in_order mid.
Proof.
  revert left no items w fs. induction h as [|h IH]; intros [|left] no items w fs Ht Ho Hh Hsp Hb Ha; try lia; cbn [own_tree] in Ht.
  - pose proof Ht as (cells & (page & lf & Hr & _ & Hty & _) & Hitems & _ & _ & ->). cbn [descend_loop]. unfold b_read.
    cbn [pager_read TxnView_Pager view v_store v_txn] in Hr. rewrite Hr. cbn [from_store map_err mbind Res_bind].
    rewrite Hty. cbn [from_page map_err mbind Res_bind].
    exists no, fs, items. split_and!; [reflexivity|exact Ht|exact Hsp|reflexivity|reflexivity|reflexivity|exact Hb|exact Ha|exact Ho].
  - destruct Ht as (bs & w' & Hnode & Hne & [Hcap _] & Hlv & ->).
    destruct (route_row _ _ _ _ k Hlv Ho Hne) as (lbs & b & rbs & li & its & ri & lw & v & rw & -> & Hi & -> & -> & H1 & Ht & H3 & Hlo & Hhi).
    set (f := mkFrame no [b] lbs li lw rbs ri rw).
    destruct (IH left (bc_child b) its v (f :: fs)) as (leaf & fs' & mid & Hd & Hleaf & Hs' & Hl' & Heq & Hp & Hb' & Ha' & Ho');
      [exact Ht|by eapply StronglySorted_app_1_l, StronglySorted_app_1_r|lia| | | |].
    + cbn [spine]. split_and!; [exact Hnode|reflexivity|exact Hcap|exact H1|exact H3|exact Hsp].
    + cbn [before f f_litems]. by apply Forall_app.
    + cbn [after f f_ritems]. by apply Forall_app.
    + exists leaf, fs', mid. split_and!; [|exact Hleaf|exact Hs'|cbn [length] in Hl'; lia| | |exact Hb'|exact Ha'|exact Ho'].
      * rewrite <-Hd. destruct (branch_step c no lbs b rbs k Hnode Hi) as (page & br & E1 & E2 & E3 & E4 & E5 & E6).
        cbn [descend_loop]. rewrite E1. cbn [mbind Res_bind]. rewrite E2. cbn [from_page map_err mbind Res_bind]. rewrite E3.
        cbn [from_page map_err mbind Res_bind]. rewrite E4, E5. cbn [from_page map_err mbind Res_bind]. rewrite E6.
        cbn [from_page map_err mbind Res_bind fmap list_fmap rev]. by rewrite Hi.
      * rewrite Heq. cbn [before after f f_litems f_ritems]. by rewrite <-!app_assoc.
      * rewrite <-Hp. cbn [around f f_no f_lown f_rown]. solve_Permutation.
Qed.
(** ** Beside the leaf *)
Lemma frame_cell_lookup br bs page i : page_ok page → branch_parse page = Ok br → branch_cells br = Ok bs →
  branch_cell br (Z.of_nat i) = Ok (bs !! i).
Proof.
  intros Hok Hp Hc. pose proof (branch_cells_length page br Hok Hp _ Hc) as Hl. destruct (bs !! i) as [b|] eqn:E.
  - pose proof (branch_cell_lookup br bs Hc i b E) as H. unfold branch_cell_unwrap in H. apply bind_ok in H as (o & Ho & H).
    destruct o as [x|]; [|discriminate H]. injection H as ->. exact Ho.
  - apply lookup_ge_None in E. unfold branch_cell. by rewrite (proj2 (Z.ltb_ge _ _)) by lia.
Qed.

Lemma next_cell c k f fs :
  spine c k 1 (f :: fs) → ∃ br, branch_at (c_store c) (c_txn c) (f_no f) = Ok br ∧ 
    branch_cell br (Z.of_nat (stp_index (f_step f)) + 1) = Ok (head (f_rbs f)).
Proof.
  intros (Hn & Hm & _). destruct (branch_at_ok c _ _ Hn) as (br & Hbr & Hcs & page & Hok & Hp). exists br. split; [exact Hbr|].
  replace (Z.of_nat (stp_index (f_step f)) + 1) with (Z.of_nat (length (f_lbs f) + 1)) by (cbn; lia).
  rewrite (frame_cell_lookup br _ page _ Hok Hp Hcs). f_equal. unfold f_cells. destruct (f_mid f) as [|b [|? ?]]; try discriminate Hm.
  rewrite lookup_app_r by lia. replace (length (f_lbs f) + 1 - length (f_lbs f))%nat with 1%nat by lia. by destruct (f_rbs f).
Qed.

(** The bound of a leaf is the first key after it. *)
Lemma upper_bound_ok c k fs :
  spine c k 1 fs → upper_bound (c_store c) (c_txn c) (f_step <$> fs) = Ok (li_key <$> head (after fs)).
Proof.
  revert k. induction fs as [|f fs IH]; intros k Hs; [reflexivity|]. cbn [fmap list_fmap upper_bound].
  destruct (next_cell c k f fs Hs) as (br & Hbr & Hnx). cbn [spine] in Hs. destruct Hs as (_ & _ & _ & _ & Hr & Hs).
  cbn [f_step stp_pgno] in *. rewrite Hbr. cbn [mbind Res_bind]. rewrite Hnx. cbn [from_page map_err mbind Res_bind after].
  destruct (f_rbs f) as [|b rbs]; cbn [head].
  - apply level_nil_inv in Hr as [-> _]. exact (IH _ Hs).
  - apply level_first in Hr. destruct (f_ritems f) as [|x its]; [discriminate Hr|]. injection Hr as Hr. cbn. by rewrite Hr.
Qed.

Lemma leaf_items_ok c no cells : node_leaf (view c) no cells → leaf_items (c_store c) (c_txn c) no = Ok (map from_cell cells).
Proof.
  intros (page & lf & Hr & _ & _ & Hp & Hc). unfold leaf_items, b_read. cbn [pager_read TxnView_Pager view v_store v_txn] in Hr.
  rewrite Hr. cbn [from_store map_err mbind Res_bind]. rewrite Hp. cbn [from_page map_err mbind Res_bind]. by rewrite Hc.
Qed.

Lemma take_leaf_ok c leaf mid G :
  txn_inv fd l c → own_tree c 0 leaf mid (leaf :: bases mid) → own c ≡ₚ (leaf :: bases mid) ++ G →
  ∃ c', take_leaf (c_store c) (c_txn c) leaf = Ok (mid, c_txn c') ∧ evolves c c' (bases mid ++ G) ∧ own c' ≡ₚ bases mid ++ G ∧
    ∀ n, room c n → room c' n.
Proof.
  intros Hinv (cells & Hn & -> & _) Ho. destruct (free_page fd l c leaf _ Hinv Ho) as (c' & Ht & He & Ho' & Hr).
  exists c'. split_and!; [|exact He|exact Ho'|exact Hr]. unfold take_leaf. rewrite (leaf_items_ok c leaf cells Hn).
  cbn [mbind Res_bind]. by rewrite Ht.
Qed.

Lemma used_bytes_count items : Forall item_ok items → 26 * Z.of_nat (length items) <= used_bytes items.
Proof.
  induction 1 as [|it items [_ Hp] _ IH]; [cbn; lia|]. unfold used_bytes in *. cbn [foldr length]. unfold item_bytes at 1.
  change CELL_PAYLOAD_MAX with 8148 in Hp. pose proof (zlen_nonneg (li_payload it)). unfold LEAF_CELL_HEADER, CELL_INDEX_ENTRY.
  pose proof (align_up_spec (24 + zlen (li_payload it)) ltac:(lia)). lia.
Qed.

(** Folding the right sibling in, or not: the hole is one or two cells wide. *)
Lemma merge_right_ok c fs items F :
  txn_inv fd l c → spine c 0 1 fs → own c ≡ₚ bases items ++ around fs ++ F → Forall item_ok items →
  ∃ items' span c' fs', merge_right (c_store c) (c_txn c) (rev (f_step <$> fs)) items = Ok (items', span, c_txn c') ∧
    f_step <$> fs' = f_step <$> fs ∧ spine c' 0 span fs' ∧ (1 <= span)%nat ∧
    before fs' ++ items' ++ after fs' = before fs ++ items ++ after fs ∧ own c' ≡ₚ bases items' ++ around fs' ++ F ∧
    evolves c c' (bases items' ++ around fs' ++ F) ∧ (∀ n, room c n → room c' n) ∧ Forall item_ok items' ∧
    (length items <= length items')%nat ∧ Z.of_nat (length items') <= Z.max (Z.of_nat (length items)) 454.
Proof.
  intros Hinv Hsp Ho Hi.
  assert (∃ items' span c' fs', Ok (E:=BTreeError) (items, 1%nat, c_txn c) = Ok (items', span, c_txn c') ∧
    f_step <$> fs' = f_step <$> fs ∧ spine c' 0 span fs' ∧ (1 <= span)%nat ∧
    before fs' ++ items' ++ after fs' = before fs ++ items ++ after fs ∧ own c' ≡ₚ bases items' ++ around fs' ++ F ∧
    evolves c c' (bases items' ++ around fs' ++ F) ∧ (∀ n, room c n → room c' n) ∧ Forall item_ok items' ∧
    (length items <= length items')%nat ∧ Z.of_nat (length items') <= Z.max (Z.of_nat (length items)) 454) as Hsame.
  { exists items, 1%nat, c, fs.
    split_and!; [reflexivity|reflexivity|exact Hsp|lia|reflexivity|exact Ho|apply evolves_refl|done|exact Hi|lia|lia]. }
  unfold merge_right. destruct (leaf_capacity <? used_bytes items * 2); [exact Hsame|].
  destruct fs as [|f fs]; [exact Hsame|]. cbn [fmap list_fmap rev]. rewrite last_snoc.
  destruct (next_cell c 0 f fs Hsp) as (br & Hbr & Hnx). cbn [f_step stp_pgno] in *. rewrite Hbr. cbn [mbind Res_bind].
  rewrite Hnx. cbn [from_page map_err mbind Res_bind]. cbn [spine] in Hsp. destruct Hsp as (Hn & Hm & Hc & HL & HR & Hs).
  destruct (f_rbs f) as [|b rbs] eqn:Erb; cbn [head]; [exact Hsame|].
  inversion HR as [|? ? its ri v rw Hbok Hk Ht HR' Eb Er Ew]; subst.
  pose proof Ht as (cells & Hleaf & Hits & Hio & Hlen & Hv). rewrite (leaf_items_ok c _ cells Hleaf), <-Hits. cbn [mbind Res_bind].
  destruct (Z.ltb_spec leaf_capacity (used_bytes items + used_bytes its)) as [|Hfit]; [exact Hsame|].
  set (f' := mkFrame (f_no f) (f_mid f ++ [b]) (f_lbs f) (f_litems f) (f_lown f) rbs ri rw).
  destruct (free_page fd l c (bc_child b) (bases (items ++ its) ++ around (f' :: fs) ++ F) Hinv) as (c' & Ht' & He & Ho' & Hr').
  { rewrite Ho, bases_app. cbn [around f' f_no f_lown f_rown]. rewrite <-Ew, Hv. solve_Permutation. }
  exists (items ++ its), 2%nat, c', (f' :: fs). rewrite Ht'.
  split_and!; [reflexivity|reflexivity| |exact (le_S _ _ (le_n _))| |exact Ho'|exact He|exact Hr'|apply Forall_app; split; assumption|rewrite length_app; apply Nat.le_add_r|].
  - eapply (spine_keep c); [intros q Hq; apply (ev_reads _ _ _ He); find_in|]. cbn [spine].
    assert (f_cells f' = f_cells f) as Ef by (unfold f_cells; cbn [f' f_lbs f_mid f_rbs]; rewrite Erb, <-app_assoc; reflexivity).
    rewrite Ef. split_and!; [exact Hn|cbn [f' f_mid]; rewrite length_app, Hm; reflexivity|exact Hc|exact HL|exact HR'|exact Hs].
  - cbn [before after f' f_litems f_ritems]. rewrite <-Er. by rewrite <-!app_assoc.
  - pose proof (used_bytes_count items Hi). pose proof (used_bytes_count its Hio). change leaf_capacity with 8172 in Hfit.
    rewrite length_app. lia.
Qed.

(** New leaves for the hole, and the path above them. *)
Lemma refit_ok c fs span items F k n :
  txn_inv fd l c → spine c 0 span fs → (1 <= span)%nat → own c ≡ₚ bases items ++ around fs ++ F → Forall item_ok items → items ≠ [] →
  Z.of_nat (length items) <= 454 ^ Z.of_nat k → room c n → (Z.of_nat (length fs) + 2) * Z.of_nat (length items) <= n →
  ∃ root c' w h, ('(entries, t) ← pack_leaves (c_store c) (c_txn c) items;
                  rewrite_path_span (c_store c) t (rev (f_step <$> fs)) entries span) = Ok (root, c_txn c') ∧
    evolves c c' (bases (before fs ++ items ++ after fs) ++ F) ∧ own_tree c' h root (before fs ++ items ++ after fs) w ∧
    own c' ≡ₚ w ++ F ∧ (h <= length fs + k)%nat ∧ room c' (n - (Z.of_nat (length fs) + 2) * Z.of_nat (length items)).
Proof.
  intros Hinv Hsp Hspan Ho Hi Hne Hk Hr Hn.
  assert (1 <= Z.of_nat (length items)) as Hl by (destruct items; [done|cbn; lia]).
  destruct (pack_leaves_ok fd l c items n Hne Hi Hinv) as (es & c1 & w1 & Hp & Htk & Hr1 & Hrow & Hes);
    [intros q Hq; rewrite Ho; find_in|exact Hr|nia|].
  assert (own c1 ≡ₚ w1 ++ around fs ++ F) as Ho1 by (by eapply took_own).
  destruct (rewrite_path_span_ok fs c1 span es items w1 F (Z.of_nat (length items)) k (n - Z.of_nat (length items)))
    as (root & c' & w & h & Hrw & He & Ht & Ho' & Hh & Hr').
  - by eapply took_inv.
  - eapply spine_keep; [|exact Hsp]. intros q Hq. eapply took_reads; [exact Htk|]. rewrite Ho. find_in.
  - exact Hspan.
  - exact Hrow.
  - exact Ho1.
  - lia.
  - exact Hk.
  - exact Hl.
  - exact Hr1.
  - nia.
  - exists root, c', w, h. rewrite Hp. cbn [mbind Res_bind]. rewrite (took_store _ _ _ _ Htk) in Hrw.
    split_and!; [exact Hrw| |exact Ht|exact Ho'|exact Hh|eapply room_sub; [exact Hr'|nia]].
    eapply evolves_trans; [apply (tk_evolves _ _ _ _ Htk)|exact He| |done].
    intros q Hq. rewrite Ho. apply elem_of_app in Hq as [Hq|Hq]; [apply (spine_all _ _ _ _ _ Hsp) in Hq; solve_in|find_in].
Qed.
End spines.
