(* ===== verification/BTreePut.v ===== *)
(** The mutations of a tree, each as an operation on the ordered map it stands for
    (the theory of [put], [put_many], [remove], [put_containers] of crates/big-btree/src/write.rs). *)
From S2P Require Import Prelude Bits Search Container Optimize Delta Page Leaf Branch Chain Meta Freelist Snapshot Roots Pager Store Txn BTree BTreeWrite BTreeOwn BTreeBuild BTreeItem BTreeEdit.

Section mutate.
Context {X : Extern} {L : ExternLaws X} {P : Type} `{!Pager P, !PagerMut P} (fd : Freelist) (l : Layout).
Implicit Types (c : Cfg P).

(** The transaction has a tree of height [h] under [root], beside the pages [F]. *)
Record has_tree c (h : nat) (root : Z) (items : list LeafItem) (F : list Z) : Prop := {
  ht_inv : txn_inv fd l c;
  ht_order : items_in_order items;
  ht_tree : ∃ w, own_tree c h root items w ∧ own c ≡ₚ w ++ F
}.

(** * One leaf taken out of its tree *)
Record opened c c1 (h : nat) (root k : Z) (items : list LeafItem) (G : list Z) (leaf : Z) (fs : list Frame) (mid : list LeafItem) : Prop := {
  op_descend : descend (c_store c) (c_txn c) root k = Ok (leaf, rev (f_step <$> fs));
  op_bound : leaf_upper_bound (c_store c) (c_txn c) (rev (f_step <$> fs)) = Ok (li_key <$> head (after fs));
  op_take : take_leaf (c_store c) (c_txn c) leaf = Ok (mid, c_txn c1);
  op_store : c_store c1 = c_store c;
  op_inv : txn_inv fd l c1;
  op_items : items = before fs ++ mid ++ after fs;
  op_depth : length fs = h;
  op_below : Forall (λ x, li_key x < k) (before fs);
  op_above : Forall (λ x, k < li_key x) (after fs);
  op_order : items_in_order mid;
  op_ok : Forall item_ok mid;
  op_small : Z.of_nat (length mid) < 454;
  op_spine : spine c1 0 1 fs;
  op_own : own c1 ≡ₚ bases mid ++ around fs ++ G;
  op_evolves : evolves c c1 (bases items ++ G);
  op_room : ∀ n, room c n → room c1 n
}.

Lemma open_leaf c h root k items G :
  has_tree c h root items G → (h < MAX_DEPTH)%nat → ∃ c1 leaf fs mid, opened c c1 h root k items G leaf fs mid.
Proof.
  intros [Hinv Hord (w & Ht & Ho)] Hh.
  destruct (descend_ok h MAX_DEPTH c root root k items w [] Ht Hord Hh I ltac:(constructor) ltac:(constructor))
    as (leaf & fs & mid & Hd & Hleaf & Hsp & Hl & Heq & Hp & Hb & Ha & Hom).
  cbn [before after around length app] in *. rewrite app_nil_r in Heq, Hp.
  destruct (take_leaf_ok fd l c leaf mid (around fs ++ G) Hinv Hleaf) as (c1 & Htk & He & Ho1 & Hr).
  { rewrite Ho, Hp. cbn [app]. by rewrite <-app_assoc. }
  pose proof Hleaf as (cells & _ & _ & Hio & [Hlen%leaf_fit_count _] & _). rewrite CAPACITY_eq in Hlen.
  exists c1, leaf, fs, mid. split.
  - exact Hd.
  - unfold leaf_upper_bound. rewrite rev_involutive. by eapply upper_bound_ok.
  - exact Htk.
  - apply He.
  - by eapply evolves_inv.
  - by rewrite Heq.
  - lia.
  - exact Hb.
  - exact Ha.
  - exact Hom.
  - exact Hio.
  - lia.
  - eapply spine_keep; [|exact Hsp]. intros q Hq. apply (ev_reads _ _ _ He). find_in.
  - exact Ho1.
  - eapply evolves_sub; [exact He|]. intros q Hq. rewrite <-Heq in Hq.
    apply elem_of_app in Hq as [Hq|Hq]; [apply (spine_all _ _ _ _ _ Hsp) in Hq; solve_in|find_in].
  - exact Hr.
Qed.

(** The leaf put back, with other items in it. *)
Lemma close_leaf c fs span items F k n :
  txn_inv fd l c → spine c 0 span fs → (1 <= span)%nat → own c ≡ₚ bases items ++ around fs ++ F → Forall item_ok items → items ≠ [] →
  items_in_order (before fs ++ items ++ after fs) →
  Z.of_nat (length items) <= 454 ^ Z.of_nat k → room c n → (Z.of_nat (length fs) + 2) * Z.of_nat (length items) <= n →
  ∃ root c' h, ('(entries, t) ← pack_leaves (c_store c) (c_txn c) items;
                  rewrite_path_span (c_store c) t (rev (f_step <$> fs)) entries span) = Ok (root, c_txn c') ∧
    evolves c c' (bases (before fs ++ items ++ after fs) ++ F) ∧ has_tree c' h root (before fs ++ items ++ after fs) F ∧
    (h <= length fs + k)%nat ∧ room c' (n - (Z.of_nat (length fs) + 2) * Z.of_nat (length items)).
Proof.
  intros Hinv Hsp Hspan Ho Hi Hne Hord Hk Hr Hn.
  destruct (refit_ok fd l c fs span items F k n Hinv Hsp Hspan Ho Hi Hne Hk Hr Hn) as (root & c' & w & h & H1 & H2 & H3 & H4 & H5 & H6).
  exists root, c', h. split_and!; [exact H1|exact H2| |exact H5|exact H6]. split; [by eapply evolves_inv|exact Hord|by exists w].
Qed.

Lemma put_items_ok items it : Forall item_ok items → item_ok it → Forall item_ok (put_item items it).
Proof. intros H1 H2. rewrite Forall_forall in H1 |- *. intros x [->|Hx]%elem_of_put_item; [done|by apply H1]. Qed.

(** The pages of the list after a [put] were there before, or came with the item. *)
Lemma bases_put_sub items it : bases (put_item items it) ⊆ bases items ++ brings (item_at items (li_key it)) it.
Proof.
  intros q (x & Hx & Hxb)%elem_of_bases. apply elem_of_put_item in Hx as [->|Hx].
  - unfold brings. rewrite Hxb. case_bool_decide as Hd; [|find_in]. apply elem_of_app. left. apply elem_of_bases.
    destruct (item_at items (li_key it)) as [y|] eqn:Ey; [|discriminate Hd]. exists y. split; [|exact Hd].
    apply List.find_some in Ey as [Ey _]. by apply list_elem_of_In.
  - apply elem_of_app. left. apply elem_of_bases. by exists x.
Qed.

(** * [put] *)
Lemma put_ok c h root items it F n :
  has_tree c h root items (brings (item_at items (li_key it)) it ++ F) → item_ok it → (h < MAX_DEPTH)%nat →
  room c n → (Z.of_nat h + 2) * 454 <= n →
  ∃ root' c' h', put (c_store c) (c_txn c) (Some root) it = Ok (root', c_txn c') ∧ evolves c c' (bases (put_item items it) ++ F) ∧
    has_tree c' h' root' (put_item items it) F ∧ (h' <= S h)%nat.
Proof.
  intros Hht Hit Hh Hr Hn. destruct (open_leaf c h root (li_key it) items _ Hht Hh) as (c1 & leaf & fs & mid & Hop).
  pose proof (ht_order _ _ _ _ _ Hht) as Hord.
  destruct Hop as [Hd _ Htk Hst Hinv1 Eit Hdep Hb Ha Hom Hio Hsm Hsp Ho1 He1 Hr1]. subst items.
  rewrite (item_at_wide _ mid _ _ Hom Hb Ha) in Ho1, He1.
  destruct (splice_ok fd l c1 mid it (around fs ++ F)) as (c2 & Hs2 & He2 & Ho2 & Hr2);
    [exact Hinv1|exact Hom|rewrite Ho1; solve_Permutation|].
  pose proof (length_put_item mid it Hom) as Hlen.
  pose proof (put_item_wide (before fs) mid (after fs) it Hom Hb Ha) as Hw.
  destruct (close_leaf c2 fs 1 (put_item mid it) F 1 n) as (root' & c' & h' & Hrf & He3 & Hht' & Hh' & _).
  - by eapply evolves_inv.
  - eapply spine_keep; [|exact Hsp]. intros q Hq. apply (ev_reads _ _ _ He2). find_in.
  - lia.
  - exact Ho2.
  - by apply put_items_ok.
  - intros E. rewrite E in Hlen. cbn in Hlen. lia.
  - rewrite <-Hw. by apply put_item_order.
  - change (454 ^ Z.of_nat 1) with 454. lia.
  - apply Hr2, Hr1, Hr.
  - rewrite Hdep. nia.
  - rewrite (ev_store _ _ _ He2), Hst in Hrf. rewrite <-Hw in He3, Hht'. exists root', c', h'. split_and!; [| |exact Hht'|lia].
    + cbn [put]. rewrite Hd. cbn [mbind Res_bind]. rewrite Htk. cbn [mbind Res_bind]. rewrite Hs2. exact Hrf.
    + eapply evolves_trans; [|exact He3|done|done]. rewrite Hw. eapply evolves_trans; [exact He1|exact He2| |].
      * rewrite <-Hw. intros q Hq. apply elem_of_app in Hq as [Hq|Hq]; [|find_in]. apply bases_put_sub in Hq.
        rewrite (item_at_wide _ mid _ _ Hom Hb Ha) in Hq. solve_in.
      * intros q Hq. apply elem_of_app in Hq as [Hq|Hq]; [apply (spine_all _ _ _ _ _ Hsp) in Hq; solve_in|find_in].
Qed.

(** * [remove] *)
Lemma bases_drop_sub items k : bases (drop_item items k) ⊆ bases items.
Proof. intros q (x & Hx & Hxb)%elem_of_bases. apply elem_of_bases. exists x. split; [by eapply elem_of_drop_item|exact Hxb]. Qed.

(** A leaf emptied: it goes, or it is the whole tree and a new empty leaf is the root. *)
Lemma close_empty c fs F n :
  txn_inv fd l c → spine c 0 1 fs → own c ≡ₚ around fs ++ F → items_in_order (before fs ++ after fs) → room c n →
  Z.of_nat (length fs) + 1 <= n →
  ∃ root c' h, ('(entries, t) ← (if negb (bool_decide (rev (f_step <$> fs) = [])) then Ok ([], c_txn c) else pack_leaves (c_store c) (c_txn c) []);
                rewrite_path (c_store c) t (rev (f_step <$> fs)) entries) = Ok (root, c_txn c') ∧
    evolves c c' (bases (before fs ++ after fs) ++ F) ∧ has_tree c' h root (before fs ++ after fs) F ∧ (h <= length fs)%nat ∧
    room c' (n - (Z.of_nat (length fs) + 1)).
Proof.
  intros Hinv Hsp Ho Hord Hr Hn. destruct fs as [|f fs].
  - cbn [around app before after] in *. destruct (build_nil_ok fd l c n Hinv Hr ltac:(cbn in Hn; lia)) as (p & c' & Hb & Htk & Ht & Hrm).
    exists p, c', 0%nat. split_and!; [| | |lia|exact Hrm].
    + rewrite <-Hb. unfold build. cbn [fmap list_fmap rev]. rewrite bool_decide_eq_true_2 by reflexivity. cbn [negb pack_leaves].
      destruct (b_alloc _ _) as [[no t]| |]; cbn [mbind Res_bind]; [|reflexivity..].
      destruct (from_page _) as [page| |]; cbn [mbind Res_bind]; [|reflexivity..]. by destruct (b_write _ _ _).
    + eapply evolves_sub; [apply Htk|]. intros q Hq. cbn in Hq. by rewrite Ho.
    + split; [by eapply took_inv|exact Hord|]. exists [p]. split; [exact Ht|]. eapply took_own; [exact Htk|]. by rewrite Ho.
  - rewrite bool_decide_eq_false_2 by (cbn [fmap list_fmap rev]; intros E; by apply app_eq_nil in E as [_ E]). cbn [negb mbind Res_bind].
    destruct (rewrite_path_span_ok fd l (f :: fs) c 1 [] [] [] F 1 0 n) as (root & c' & w & h & Hrw & He & Ht & Ho' & Hh & Hrm);
      [exact Hinv|exact Hsp|lia|constructor|exact Ho|cbn; lia|cbn; lia|lia|exact Hr|lia|].
    exists root, c', h. split_and!; [exact Hrw|exact He| |lia|eapply room_sub; [exact Hrm|lia]]. split; [by eapply evolves_inv|exact Hord|]. by exists w.
Qed.

Lemma remove_ok c h root items k F n :
  has_tree c h root items F → (h < MAX_DEPTH)%nat → room c n → (Z.of_nat h + 2) * 454 <= n →
  ∃ root' c' h', remove (c_store c) (c_txn c) root k = Ok (root', c_txn c') ∧ evolves c c' (bases (drop_item items k) ++ F) ∧
    has_tree c' h' root' (drop_item items k) F ∧ (h' <= S h)%nat ∧ room c' (n - (Z.of_nat h + 2) * 454).
Proof.
  intros Hht Hh Hr Hn. destruct (open_leaf c h root k items _ Hht Hh) as (c1 & leaf & fs & mid & Hop).
  pose proof (ht_order _ _ _ _ _ Hht) as Hord.
  destruct Hop as [Hd _ Htk Hst Hinv1 Eit Hdep Hb Ha Hom Hio Hsm Hsp Ho1 He1 Hr1]. subst items.
  destruct (remove_item_ok fd l c1 mid k (around fs ++ F) Hinv1 Hom Ho1) as (c2 & Hs2 & He2 & Ho2 & Hr2).
  pose proof (length_drop_item mid k Hom) as Hlen. pose proof (drop_item_wide (before fs) mid (after fs) k Hom Hb Ha) as Hw.
  pose proof (evolves_inv fd l _ _ _ Hinv1 He2) as Hinv2.
  assert (spine c2 0 1 fs) as Hsp2 by (eapply spine_keep; [|exact Hsp]; intros q Hq; apply (ev_reads _ _ _ He2); find_in).
  assert (items_in_order (before fs ++ drop_item mid k ++ after fs)) as Hord2 by (rewrite <-Hw; by apply drop_item_order).
  assert (evolves c c2 (bases (drop_item (before fs ++ mid ++ after fs) k) ++ F)) as Hec.
  { rewrite Hw. eapply evolves_trans; [exact He1|exact He2| |].
    - rewrite <-Hw. intros q Hq. apply elem_of_app in Hq as [Hq|Hq]; [apply bases_drop_sub in Hq|]; find_in.
    - intros q Hq. apply elem_of_app in Hq as [Hq|Hq]; [apply (spine_all _ _ _ _ _ Hsp) in Hq; solve_in|find_in]. }
  assert (∃ root' c' h', ('(entries, t) ← (if bool_decide (drop_item mid k = []) && negb (bool_decide (rev (f_step <$> fs) = []))
        then Ok ([], c_txn c2) else pack_leaves (c_store c2) (c_txn c2) (drop_item mid k));
      rewrite_path (c_store c2) t (rev (f_step <$> fs)) entries) = Ok (root', c_txn c') ∧
    evolves c2 c' (bases (before fs ++ drop_item mid k ++ after fs) ++ F) ∧
    has_tree c' h' root' (before fs ++ drop_item mid k ++ after fs) F ∧ (h' <= S h)%nat ∧ room c' (n - (Z.of_nat h + 2) * 454)) as (root' & c' & h' & Hrf & He3 & Hht' & Hh').
  { case_bool_decide as Hd0; cbn [andb].
    - rewrite Hd0 in *. destruct (close_empty c2 fs F n) as (root' & c' & h' & H1 & H2 & H3 & H4 & H5);
        [exact Hinv2|exact Hsp2|exact Ho2|exact Hord2|by apply Hr2, Hr1|lia|].
      exists root', c', h'. split_and!; [exact H1|exact H2|exact H3|lia|eapply room_sub; [exact H5|lia]].
    - destruct (close_leaf c2 fs 1 (drop_item mid k) F 1 n) as (root' & c' & h' & H1 & H2 & H3 & H4 & H5);
        [exact Hinv2|exact Hsp2|lia|exact Ho2| |exact Hd0|exact Hord2|change (454 ^ Z.of_nat 1) with 454; lia|by apply Hr2, Hr1|nia|].
      + rewrite Forall_forall in Hio |- *. intros x Hx%elem_of_drop_item. by apply Hio.
      + exists root', c', h'. split_and!; [exact H1|exact H2|exact H3|lia|eapply room_sub; [exact H5|nia]]. }
  rewrite (ev_store _ _ _ He2), Hst in Hrf. rewrite <-Hw in He3, Hht'. exists root', c', h'. destruct Hh' as [Hh' Hrm]. split_and!; [| |exact Hht'|exact Hh'|exact Hrm].
  - unfold remove. rewrite Hd. cbn [mbind Res_bind]. rewrite Htk. cbn [mbind Res_bind]. rewrite Hs2. exact Hrf.
  - eapply evolves_trans; [exact Hec|exact He3|done|done].
Qed.
(** * [put_many] *)

(** A tree past the limit is refused, not half changed. *)
Lemma descend_deep left h c root no k items w path :
  own_tree c h no items w → items_in_order items → (left <= h)%nat →
  descend_loop (c_store c) left (c_txn c) root no k path = Err (BTooDeep root).
Proof.
  revert h no items w path. induction left as [|left IH]; intros h no items w path Ht Ho Hh; [reflexivity|]. destruct h as [|h]; [lia|].
  destruct Ht as (bs & w' & Hnode & Hne & _ & Hlv & ->).
  destruct (route_row _ _ _ _ k Hlv Ho Hne) as (lbs & b & rbs & li & its & ri & lw & v & rw & -> & Hi & -> & -> & H1 & Ht & H3 & Hlo & Hhi).
  destruct (branch_step c no lbs b rbs k Hnode Hi) as (page & br & E1 & E2 & E3 & E4 & E5 & E6).
  cbn [descend_loop]. rewrite E1. cbn [mbind Res_bind]. rewrite E2. cbn [from_page map_err mbind Res_bind]. rewrite E3.
  cbn [from_page map_err mbind Res_bind]. rewrite E4, E5. cbn [from_page map_err mbind Res_bind]. rewrite E6.
  cbn [from_page map_err mbind Res_bind]. eapply IH; [exact Ht|by eapply StronglySorted_app_1_l, StronglySorted_app_1_r|lia].
Qed.

(** What the inner loop takes: the items up to the leaf's bound. *)
Fixpoint cut_bound {A} (key : A → Z) (bound : option Z) (pending : list A) : list A * list A :=
  match pending with
  | [] => ([], [])
  | x :: rest => if beyond bound (key x) then ([], pending) else let '(now, later) := cut_bound key bound rest in (x :: now, later)
  end.

Lemma cut_bound_spec {A} (key : A → Z) bound pending now later :
  cut_bound key bound pending = (now, later) → pending = now ++ later ∧ Forall (λ x, beyond bound (key x) = false) now.
Proof.
  revert now. induction pending as [|x rest IH]; intros now; cbn [cut_bound]; [by intros [= <- <-]|].
  destruct (beyond bound (key x)) eqn:E; [by intros [= <- <-]|]. destruct (cut_bound key bound rest) as [a b].
  intros [= <- <-]. destruct (IH a eq_refl) as [-> Hf]. split; [reflexivity|by constructor].
Qed.

(** The pages a batch of items brings. *)
Definition bring_all (items its : list LeafItem) : list Z := concat (map (λ it, brings (item_at items (li_key it)) it) its).

Lemma bring_all_put items it its :
  items_in_order items → Forall (λ x, li_key it < li_key x) its → bring_all (put_item items it) its = bring_all items its.
Proof.
  intros Hs Hf. unfold bring_all. f_equal. induction Hf as [|x its Hx _ IH]; [reflexivity|]. cbn [map]. rewrite IH.
  by rewrite item_at_put_other by (done || lia).
Qed.

Lemma bring_all_fold items now later :
  items_in_order items → items_in_order (now ++ later) → bring_all (foldl put_item items now) later = bring_all items later.
Proof.
  revert items. induction now as [|it now IH]; intros items Hs Ho; [reflexivity|]. cbn [foldl app] in *.
  apply StronglySorted_inv in Ho as [Ho Hf]. apply Forall_app in Hf as [_ Hf].
  rewrite IH by (by try apply put_item_order). by apply bring_all_put.
Qed.

Lemma fold_put_order items its : items_in_order items → items_in_order (foldl put_item items its).
Proof. revert items. induction its as [|it its IH]; intros items Hs; [done|]. cbn [foldl]. by apply IH, put_item_order. Qed.

Lemma fold_put_wide pre items post its :
  items_in_order items → Forall (λ it, Forall (λ x, li_key x < li_key it) pre ∧ Forall (λ x, li_key it < li_key x) post) its →
  foldl put_item (pre ++ items ++ post) its = pre ++ foldl put_item items its ++ post.
Proof.
  intros Hs Hf. revert items Hs. induction Hf as [|it its [H1 H2] _ IH]; intros items Hs; [reflexivity|]. cbn [foldl].
  rewrite put_item_wide by done. by apply IH, put_item_order.
Qed.

Lemma length_fold_put items its : items_in_order items →
  (length (foldl put_item items its) <= length items + length its)%nat ∧ (its ≠ [] → foldl put_item items its ≠ []).
Proof.
  revert items. induction its as [|it its IH]; intros items Hs; cbn [foldl length]; [split; [lia|done]|].
  destruct (IH (put_item items it) (put_item_order _ _ Hs)) as [H1 H2]. destruct (length_put_item items it Hs) as [H3 H4].
  split; [lia|]. intros _. destruct its as [|y its]; [|by apply H2]. cbn [foldl]. intros E. rewrite E in H3. cbn in H3. lia.
Qed.

Lemma fold_put_items_ok items its : Forall item_ok items → Forall item_ok its → Forall item_ok (foldl put_item items its).
Proof.
  intros H1 H2. revert items H1. induction H2 as [|it its Hit _ IH]; intros items H1; [done|]. cbn [foldl]. by apply IH, put_items_ok.
Qed.

Lemma bases_fold_sub items its :
  items_in_order items → items_in_order its → bases (foldl put_item items its) ⊆ bases items ++ bring_all items its.
Proof.
  revert items. induction its as [|it its IH]; intros items Hs Ho; [intros q Hq; find_in|]. cbn [foldl].
  apply StronglySorted_inv in Ho as [Ho Hf]. intros q Hq. apply IH in Hq; [|by apply put_item_order|done].
  rewrite bring_all_put in Hq by done. unfold bring_all in *. cbn [map concat].
  apply elem_of_app in Hq as [Hq|Hq]; [|find_in]. apply bases_put_sub in Hq. solve_in.
Qed.

Lemma splice_pending_ok pending c bound leaf G now later :
  cut_bound li_key bound pending = (now, later) → txn_inv fd l c → items_in_order leaf → items_in_order now →
  own c ≡ₚ bases leaf ++ bring_all leaf now ++ G →
  ∃ c', splice_pending (c_txn c) bound leaf pending = (foldl put_item leaf now, later, c_txn c') ∧
    evolves c c' (bases (foldl put_item leaf now) ++ G) ∧ own c' ≡ₚ bases (foldl put_item leaf now) ++ G ∧ ∀ n, room c n → room c' n.
Proof.
  revert c leaf now. induction pending as [|it pending IH]; intros c leaf now Hcut Hinv Hs Ho Hown; cbn [cut_bound] in Hcut.
  { injection Hcut as <- <-. exists c. split_and!; [reflexivity|apply evolves_refl|exact Hown|done]. }
  cbn [splice_pending]. destruct (beyond bound (li_key it)).
  { injection Hcut as <- <-. exists c. split_and!; [reflexivity|apply evolves_refl|exact Hown|done]. }
  destruct (cut_bound li_key bound pending) as [now' later'] eqn:Ec. injection Hcut as <- <-. cbn [foldl].
  apply StronglySorted_inv in Ho as [Ho Hf]. unfold bring_all in Hown. cbn [map concat] in Hown. fold (bring_all leaf now') in Hown.
  destruct (splice_ok fd l c leaf it (bring_all leaf now' ++ G)) as (c1 & Hs1 & He1 & Ho1 & Hr1);
    [exact Hinv|exact Hs|rewrite Hown; by rewrite <-!app_assoc|]. rewrite Hs1.
  destruct (IH c1 (put_item leaf it) now' eq_refl) as (c' & Hp & He & Ho' & Hr');
    [by eapply evolves_inv|by apply put_item_order|exact Ho|by rewrite bring_all_put|].
  exists c'. split_and!; [exact Hp| |exact Ho'|intros n Hr; by apply Hr', Hr1].
  eapply evolves_trans; [exact He1|exact He| |done]. intros q Hq. apply elem_of_app in Hq as [Hq|Hq]; [|find_in].
  apply bases_fold_sub in Hq; [|by apply put_item_order|done]. rewrite bring_all_put in Hq by done. solve_in.
Qed.

Lemma pow_room (p : nat) : (1 <= p)%nat → 453 + Z.of_nat p <= 454 ^ Z.of_nat p.
Proof.
  intros Hp. induction p as [|p IH]; [lia|]. destruct p as [|p]; [cbn; lia|]. specialize (IH ltac:(lia)).
  replace (Z.of_nat (S (S p))) with (Z.succ (Z.of_nat (S p))) by lia. rewrite Z.pow_succ_r by lia. lia.
Qed.

(** The keys up to the bound of a leaf belong between what is before it and what is after it. *)
Lemma bound_between {A} (key : A → Z) fs items (first : A) now k :
  key first = k → Forall (λ x, li_key x < k) (before fs) → items_in_order (before fs ++ items ++ after fs) →
  StronglySorted (λ a b, key a < key b) (first :: now) →
  Forall (λ x, beyond (li_key <$> head (after fs)) (key x) = false) (first :: now) →
  Forall (λ x, Forall (λ y, li_key y < key x) (before fs) ∧ Forall (λ y, key x < li_key y) (after fs)) (first :: now).
Proof.
  intros Hk Hb Ho Hs Hf. apply StronglySorted_inv in Hs as [_ Hs]. rewrite Forall_forall in Hf |- *. intros x Hx. split.
  - assert (k <= key x) as Hkx.
    { apply elem_of_cons in Hx as [->|Hx]; [lia|]. rewrite Forall_forall in Hs. specialize (Hs x Hx). simpl in Hs. lia. }
    eapply Forall_impl; [exact Hb|]. simpl. lia.
  - specialize (Hf x Hx). apply StronglySorted_app_1_r, StronglySorted_app_1_r in Ho. destruct (after fs) as [|y post]; [constructor|].
    cbn in Hf. apply StronglySorted_inv in Ho as [_ Ho]. constructor; [lia|]. eapply Forall_impl; [exact Ho|]. simpl. lia.
Qed.

Lemma bring_all_app items a b : bring_all items (a ++ b) = bring_all items a ++ bring_all items b.
Proof. unfold bring_all. by rewrite map_app, concat_app. Qed.

Lemma bring_all_wide fs mid its :
  items_in_order mid → Forall (λ x, Forall (λ y, li_key y < li_key x) (before fs) ∧ Forall (λ y, li_key x < li_key y) (after fs)) its →
  bring_all (before fs ++ mid ++ after fs) its = bring_all mid its.
Proof.
  intros Hs Hf. unfold bring_all. f_equal. induction Hf as [|x its [H1 H2] _ IH]; [reflexivity|]. cbn [map]. rewrite IH.
  by rewrite item_at_wide.
Qed.

(** One round: a leaf, everything pending for it, and the path above. *)
Lemma put_many_round c h root items it pending F n :
  has_tree c h root items (bring_all items (it :: pending) ++ F) → (h < MAX_DEPTH)%nat → Forall item_ok (it :: pending) →
  items_in_order (it :: pending) → room c n →
  ∃ now later, it :: pending = it :: now ++ later ∧ let p := Z.of_nat (length (it :: now)) in
    (33 * (453 + p) <= n →
    ∃ root' c' h', ('(leaf_pgno, path) ← descend (c_store c) (c_txn c) root (li_key it);
        bound ← leaf_upper_bound (c_store c) (c_txn c) path;
        '(leaf, t) ← take_leaf (c_store c) (c_txn c) leaf_pgno;
        let '(leaf, pending, t) := splice_pending t bound leaf (it :: pending) in
        '(entries, t) ← pack_leaves (c_store c) t leaf;
        '(root, t) ← rewrite_path (c_store c) t path entries;
        Ok (root, pending, t)) = Ok (root', later, c_txn c') ∧
      evolves c c' (bases (foldl put_item items (it :: now)) ++ bring_all items later ++ F) ∧
      has_tree c' h' root' (foldl put_item items (it :: now)) (bring_all items later ++ F) ∧
      (h' <= h + length (it :: now))%nat ∧ room c' (n - 33 * (453 + p))).
Proof.
  intros Hht Hh Hio Hord Hr. destruct (open_leaf c h root (li_key it) items _ Hht Hh) as (c1 & leaf & fs & mid & Hop).
  pose proof (ht_order _ _ _ _ _ Hht) as Hoi.
  destruct Hop as [Hd Hbd Htk Hst Hinv1 Eit Hdep Hb Ha Hom Hiom Hsm Hsp Ho1 He1 Hr1]. subst items.
  destruct (cut_bound li_key (li_key <$> head (after fs)) pending) as [now later] eqn:Ec.
  destruct (cut_bound_spec _ _ _ _ _ Ec) as [Ep Hnb]. exists now, later. split; [by rewrite Ep|]. cbv zeta. intros Hn.
  set (batch := it :: now) in *. rewrite Ep in *. change (it :: now ++ later) with (batch ++ later) in *.
  assert (beyond (li_key <$> head (after fs)) (li_key it) = false) as Hb0.
  { destruct (after fs) as [|y post]; [reflexivity|]. apply Forall_inv in Ha. cbn. lia. }
  assert (cut_bound li_key (li_key <$> head (after fs)) (batch ++ later) = (batch, later)) as Ec'
    by (subst batch; cbn [app cut_bound]; by rewrite Hb0, Ec).
  assert (items_in_order batch) as Hob by (by eapply StronglySorted_app_1_l).
  pose proof (bound_between li_key fs mid it now (li_key it) eq_refl Hb Hoi Hob) as Hbt.
  specialize (Hbt ltac:(constructor; done)). fold batch in Hbt.
  rewrite bring_all_app, (bring_all_wide fs mid batch Hom Hbt) in Ho1, He1. apply Forall_app in Hio as [Hio _].
  destruct (splice_pending_ok (batch ++ later) c1 _ mid (around fs ++ bring_all (before fs ++ mid ++ after fs) later ++ F) _ _ Ec' Hinv1 Hom Hob)
    as (c2 & Hs2 & He2 & Ho2 & Hr2); [rewrite Ho1; solve_Permutation|].
  pose proof (fold_put_wide (before fs) mid (after fs) batch Hom Hbt) as Hw.
  destruct (length_fold_put mid batch Hom) as [Hlen Hnn].
  destruct (close_leaf c2 fs 1 (foldl put_item mid batch) (bring_all (before fs ++ mid ++ after fs) later ++ F) (length batch) n)
    as (root' & c' & h' & Hrf & He3 & Hht' & Hh' & Hr').
  - by eapply evolves_inv.
  - eapply spine_keep; [|exact Hsp]. intros q Hq. apply (ev_reads _ _ _ He2). find_in.
  - lia.
  - exact Ho2.
  - by apply fold_put_items_ok.
  - apply Hnn. done.
  - rewrite <-Hw. by apply fold_put_order.
  - pose proof (pow_room (length batch) ltac:(cbn; lia)). lia.
  - by apply Hr2, Hr1.
  - unfold MAX_DEPTH in Hh. nia.
  - rewrite (ev_store _ _ _ He2), Hst in Hrf. rewrite <-Hw in He3, Hht'. exists root', c', h'. split_and!; [| |exact Hht'|lia|].
    + rewrite Hd. cbn [mbind Res_bind]. rewrite Hbd. cbn [mbind Res_bind]. rewrite Htk. cbn [mbind Res_bind]. rewrite Hs2.
      apply bind_ok in Hrf as ([es t] & Hpk & Hrf). rewrite Hpk. cbn [mbind Res_bind]. unfold rewrite_path. by rewrite Hrf.
    + eapply evolves_trans; [|exact He3|done|done]. rewrite Hw. eapply evolves_trans; [exact He1|exact He2| |].
      * rewrite <-Hw. intros q Hq. apply elem_of_app in Hq as [Hq|Hq]; [|solve_in]. apply bases_fold_sub in Hq; [|done|done].
        rewrite (bring_all_wide fs mid batch Hom Hbt) in Hq. solve_in.
      * intros q Hq. apply elem_of_app in Hq as [Hq|Hq]; [apply (spine_all _ _ _ _ _ Hsp) in Hq; solve_in|find_in].
    + eapply room_sub; [exact Hr'|]. unfold MAX_DEPTH in Hh. nia.
Qed.
Lemma put_many_loop_ok fuel c h root items pending F n :
  has_tree c h root items (bring_all items pending ++ F) → Forall item_ok pending → items_in_order pending →
  (length pending <= fuel)%nat → room c n → 33 * 454 * Z.of_nat (length pending) <= n →
  (∃ root' c' h', put_many_loop (c_store c) fuel (c_txn c) root pending = Ok (root', c_txn c') ∧
     evolves c c' (bases (foldl put_item items pending) ++ F) ∧ has_tree c' h' root' (foldl put_item items pending) F ∧
     (h' <= h + length pending)%nat) ∨
  ((MAX_DEPTH < h + length pending)%nat ∧ ∃ r, put_many_loop (c_store c) fuel (c_txn c) root pending = Err (BTooDeep r)).
Proof.
  revert c h root items pending n. induction fuel as [|fuel IH]; intros c h root items [|it pending] n Hht Hio Ho Hf Hr Hn; try (cbn in Hf; lia).
  1,2: left; exists root, c, h; (split_and!; [reflexivity|apply evolves_refl|exact Hht|lia]).
  destruct (decide (h < MAX_DEPTH)%nat) as [Hh|Hh].
  2:{ right. split; [cbn; lia|]. exists root. destruct Hht as [_ Hord (w & Ht & _)]. cbn [put_many_loop]. unfold descend.
      by rewrite (descend_deep MAX_DEPTH h c root root (li_key it) items w [] Ht Hord ltac:(lia)). }
  destruct (put_many_round c h root items it pending F n Hht Hh Hio Ho Hr) as (now & later & E & Hround). cbv zeta in Hround.
  change (it :: now ++ later) with ((it :: now) ++ later) in E. set (batch := it :: now) in *.
  assert (1 <= Z.of_nat (length batch)) as Hb1 by (subst batch; cbn [length]; lia).
  assert (length (it :: pending) = length batch + length later)%nat as Hl by (by rewrite E, length_app).
  destruct Hround as (root1 & c1 & h1 & Hrd & He1 & Hht1 & Hh1 & Hr1); [lia|].
  rewrite E in Ho, Hio, Hht. pose proof (ht_order _ _ _ _ _ Hht) as Hoi. apply Forall_app in Hio as [_ Hio].
  rewrite <-(bring_all_fold items batch later Hoi Ho) in Hht1.
  assert (put_many_loop (c_store c) (S fuel) (c_txn c) root (it :: pending) = put_many_loop (c_store c1) fuel (c_txn c1) root1 later) as Hloop.
  { rewrite (ev_store _ _ _ He1). cbn [put_many_loop]. apply bind_ok in Hrd as ([leaf path] & -> & Hrd). cbn [mbind Res_bind].
    apply bind_ok in Hrd as (bound & -> & Hrd). cbn [mbind Res_bind]. apply bind_ok in Hrd as ([lf t] & -> & Hrd). cbn [mbind Res_bind].
    destruct (splice_pending t bound lf (it :: pending)) as [[lf2 pd] t2]. apply bind_ok in Hrd as ([es t3] & -> & Hrd). cbn [mbind Res_bind].
    apply bind_ok in Hrd as ([r t4] & -> & Hrd). cbn [mbind Res_bind]. by injection Hrd as -> -> ->. }
  rewrite Hloop, E, foldl_app, length_app.
  destruct (IH c1 h1 root1 (foldl put_item items batch) later (n - 33 * (453 + Z.of_nat (length batch))) Hht1 Hio) as [(root' & c' & h' & H1 & H2 & H3 & H4)|[H1 H2]];
    [by eapply StronglySorted_app_1_r|lia|exact Hr1|lia| |].
  - left. exists root', c', h'. split_and!; [exact H1| |exact H3|lia]. eapply evolves_trans; [exact He1|exact H2| |done].
    intros q Hq. apply elem_of_app in Hq as [Hq|Hq]; [|find_in].
    apply bases_fold_sub in Hq; [|by apply fold_put_order|by eapply StronglySorted_app_1_r].
    rewrite (bring_all_fold items batch later Hoi Ho) in Hq. solve_in.
  - right. split; [lia|exact H2].
Qed.

(** * Containers *)

(** The items of a tree stand for containers, key by key. *)
Definition holds c (items : list LeafItem) (kcs : list (Z * Container)) : Prop :=
  Forall2 (λ it e, stands_for c it (fst e) (snd e)) items kcs.

(** The map a list of containers is, and what putting one does to it. *)
Definition put_entry (kcs : list (Z * Container)) (e : Z * Container) : list (Z * Container) :=
  List.filter (λ x, fst x <? fst e) kcs ++ e :: List.filter (λ x, fst e <? fst x) kcs.
Definition drop_entry (kcs : list (Z * Container)) (k : Z) : list (Z * Container) :=
  List.filter (λ x, fst x <? k) kcs ++ List.filter (λ x, k <? fst x) kcs.

Lemma holds_filter c items kcs (p : Z → bool) :
  holds c items kcs → holds c (List.filter (λ it, p (li_key it)) items) (List.filter (λ e, p (fst e)) kcs).
Proof.
  induction 1 as [|it e items kcs Hs _ IH]; [constructor|]. cbn [List.filter]. rewrite (sf_key _ _ _ _ Hs).
  destruct (p (fst e)); [by constructor|exact IH].
Qed.

Lemma holds_put c items kcs it e :
  holds c items kcs → stands_for c it (fst e) (snd e) → holds c (put_item items it) (put_entry kcs e).
Proof.
  intros H Hs. unfold put_item, put_entry, below, above. rewrite (sf_key _ _ _ _ Hs). apply Forall2_app.
  - by apply (holds_filter c items kcs (λ k, k <? fst e)).
  - constructor; [exact Hs|]. by apply (holds_filter c items kcs (λ k, fst e <? k)).
Qed.

Lemma holds_drop c items kcs k : holds c items kcs → holds c (drop_item items k) (drop_entry kcs k).
Proof.
  intros H. apply Forall2_app; [by apply (holds_filter c items kcs (λ x, x <? k))|by apply (holds_filter c items kcs (λ x, k <? x))].
Qed.

Lemma holds_keep c c' items kcs : (∀ q, q ∈ bases items → page_at c' q = page_at c q) → holds c items kcs → holds c' items kcs.
Proof.
  intros Hrd H. induction H as [|it e items kcs Hs _ IH]; constructor.
  - eapply stands_keep; [|exact Hs]. intros q (x & ->%list_elem_of_singleton & Hb)%elem_of_bases. apply Hrd, elem_of_bases.
    exists it. split; [by left|exact Hb].
  - apply IH. intros q (x & Hx & Hb)%elem_of_bases. apply Hrd, elem_of_bases. exists x. split; [by right|exact Hb].
Qed.

Lemma holds_items_ok c items kcs : holds c items kcs → Forall item_ok items.
Proof. induction 1 as [|it e items kcs Hs _ IH]; constructor; [apply Hs|exact IH]. Qed.

(** The page a container was last written to, as [base_at] finds it. *)
Lemma base_at_ok c items kcs k :
  items_in_order items → holds c items kcs → bases items ⊆ own c →
  base_ok c (base_at items k) ∧ fst <$> base_at items k = item_at items k ≫= base_pgno.
Proof.
  intros Hs Hh Hown. destruct (cut_order items k Hs) as (a & o & b & Hc & Hbs). destruct (cut_spec _ _ _ _ _ Hc) as (_ & _ & ->).
  unfold base_at. rewrite Hbs. destruct o as [x|]; [|done].
  assert (items !! length a = Some x) as Hx by (rewrite (cut_list _ _ _ _ _ Hc); by apply list_lookup_middle).
  rewrite Hx. cbn [mbind option_bind]. destruct (Forall2_lookup_l _ _ _ _ _ Hh Hx) as (e & _ & Hst).
  destruct (base_pgno x) as [p|] eqn:Ep; cbn [mbind option_bind fmap option_fmap option_map fst]; [|done]. split; [|done].
  split; [|by apply (sf_base _ _ _ _ Hst)]. apply Hown, elem_of_bases. exists x. split; [by eapply list_elem_of_lookup_2|exact Ep].
Qed.

Lemma item_took_own c c' it items base G :
  txn_inv fd l c → item_took c c' it base → fst <$> base = item_at items (li_key it) ≫= base_pgno → bases items ⊆ own c →
  own c ≡ₚ bases items ++ G → own c' ≡ₚ bases items ++ brings (item_at items (li_key it)) it ++ G ∧ evolves c c' (own c).
Proof.
  intros Hinv Htk Hbase Hsub Ho. destruct Htk as [Htk|(-> & Hne & Hb)].
  - split; [|apply Htk]. rewrite (took_own _ _ _ _ _ Htk Ho). unfold brings, bases at 1. cbn [omap list_omap].
    destruct (base_pgno it) as [p|] eqn:Ep; [|reflexivity]. rewrite bool_decide_eq_false_2; [cbn [app]; by rewrite <-Permutation_middle|].
    intros E. pose proof (own_nodup fd l c' (took_inv fd l _ _ _ _ Hinv Htk)) as Hnd. rewrite (took_own _ _ _ _ _ Htk Ho) in Hnd.
    unfold bases at 1 in Hnd. cbn [omap list_omap] in Hnd. rewrite Ep in Hnd. cbn [app] in Hnd. apply NoDup_cons in Hnd as [Hni _].
    apply Hni. apply elem_of_app. left. destruct (item_at items (li_key it)) as [x|] eqn:Ex; [|discriminate E].
    apply elem_of_bases. exists x. split; [|exact E]. apply List.find_some in Ex as [Ex _]. by apply list_elem_of_In.
  - split; [|apply evolves_refl]. unfold brings. destruct (base_pgno it) as [p|] eqn:Ep; [|done].
    rewrite bool_decide_eq_true_2 by congruence. exact Ho.
Qed.

(** The inner loop of [put_containers]. *)
Lemma splice_containers_ok pending c bound leaf kcs G now later n :
  cut_bound fst bound pending = (now, later) → txn_inv fd l c → items_in_order leaf → holds c leaf kcs → own c ≡ₚ bases leaf ++ G →
  Forall (λ e, wf (snd e) ∧ 0 <= fst e < 2 ^ 64) now → room c n → Z.of_nat (length now) <= n →
  ∃ leaf' c', splice_containers (c_store c) (c_txn c) bound leaf pending = Ok (leaf', later, c_txn c') ∧
    evolves c c' G ∧ own c' ≡ₚ bases leaf' ++ G ∧ items_in_order leaf' ∧ holds c' leaf' (foldl put_entry kcs now) ∧
    room c' (n - Z.of_nat (length now)) ∧ (length leaf <= length leaf' <= length leaf + length now)%nat ∧ (now ≠ [] → leaf' ≠ []).
Proof.
  revert c leaf kcs now n. induction pending as [|[key k] pending IH]; intros c leaf kcs now n Hcut Hinv Hs Hh Hown Hok Hr Hn; cbn [cut_bound fst] in Hcut.
  { injection Hcut as <- <-. exists leaf, c. cbn [foldl length] in *. rewrite Z.sub_0_r.
    split_and!; [reflexivity|apply evolves_refl|exact Hown|exact Hs|exact Hh|exact Hr|lia|lia|done]. }
  cbn [splice_containers]. destruct (beyond bound key).
  { injection Hcut as <- <-. exists leaf, c. cbn [foldl length] in *. rewrite Z.sub_0_r.
    split_and!; [reflexivity|apply evolves_refl|exact Hown|exact Hs|exact Hh|exact Hr|lia|lia|done]. }
  destruct (cut_bound fst bound pending) as [now' later'] eqn:Ec. injection Hcut as <- <-. cbn [foldl length] in *.
  apply Forall_cons in Hok as [[Hwf Hkey] Hok]. cbn [fst snd] in Hwf, Hkey.
  assert (bases leaf ⊆ own c) as Hsub by (intros q Hq; rewrite Hown; find_in).
  destruct (base_at_ok c leaf kcs key Hs Hh Hsub) as [Hbase Hfst].
  destruct (make_item_ok fd l c key k (base_at leaf key) n Hwf Hkey Hinv Hr ltac:(lia) Hbase) as (it & c1 & Hmk & Htk & Hr1 & Hst).
  rewrite Hmk. cbn [mbind Res_bind]. 
  assert (fst <$> base_at leaf key = item_at leaf (li_key it) ≫= base_pgno) as Hfst' by (by rewrite (sf_key _ _ _ _ Hst)).
  destruct (item_took_own c c1 it leaf _ G Hinv Htk Hfst' Hsub Hown) as [Ho1 He1].
  pose proof (evolves_inv fd l _ _ _ Hinv He1) as Hinv1.
  destruct (splice_ok fd l c1 leaf it G Hinv1 Hs Ho1) as (c2 & Hs2 & He2 & Ho2 & Hr2). rewrite Hs2.
  assert (holds c2 (put_item leaf it) (put_entry kcs (key, k))) as Hh2.
  { eapply (holds_keep c1); [intros q Hq; apply (ev_reads _ _ _ He2); find_in|]. apply holds_put; [|exact Hst].
    eapply holds_keep; [|exact Hh]. intros q Hq. by apply (ev_reads _ _ _ He1), Hsub. }
  destruct (IH c2 (put_item leaf it) (put_entry kcs (key, k)) now' (n - 1) eq_refl) as (leaf' & c' & Hsp & He & Ho & Hs' & Hh' & Hr' & Hl & Hne);
    [by eapply evolves_inv|by apply put_item_order|exact Hh2|exact Ho2|exact Hok|by apply Hr2|lia|].
  rewrite (ev_store _ _ _ He2), (ev_store _ _ _ He1) in Hsp. destruct (length_put_item leaf it Hs) as [Hl1 Hl2].
  pose proof (put_item_grows leaf it Hs) as Hl3.
  exists leaf', c'. split_and!; [exact Hsp| |exact Ho|exact Hs'|exact Hh'|eapply room_sub; [exact Hr'|lia]|lia|lia|].
  - eapply evolves_trans; [|exact He|done|done]. eapply evolves_trans; [exact He1|exact He2| |]; intros q Hq; [rewrite Hown|]; find_in.
  - intros _ ->. cbn in Hl. lia.
Qed.
Lemma put_entry_wide pre mid post e :
  Forall (λ x, fst x < fst e) pre → Forall (λ x, fst e < fst x) post →
  put_entry (pre ++ mid ++ post) e = pre ++ put_entry mid e ++ post.
Proof.
  intros H1 H2. unfold put_entry. rewrite !List.filter_app.
  rewrite (filter_all _ pre), (filter_none _ post), (filter_none _ pre), (filter_all (λ x, fst e <? fst x) post)
    by (eapply Forall_impl; [eassumption|]; simpl; lia).
  rewrite app_nil_r. cbn [app]. rewrite <-!app_assoc. reflexivity.
Qed.
Lemma fold_entry_wide pre mid post es :
  Forall (λ e, Forall (λ x, fst x < fst e) pre ∧ Forall (λ x, fst e < fst x) post) es →
  foldl put_entry (pre ++ mid ++ post) es = pre ++ foldl put_entry mid es ++ post.
Proof.
  intros Hf. revert mid. induction Hf as [|e es [H1 H2] _ IH]; intros mid; [reflexivity|]. cbn [foldl]. rewrite put_entry_wide by done. apply IH.
Qed.

Lemma elem_of_fold_entry kcs es x : x ∈ foldl put_entry kcs es → x ∈ kcs ∨ x ∈ es.
Proof.
  revert kcs. induction es as [|e es IH]; intros kcs; cbn [foldl]; [by left|]. intros [Hx|Hx]%IH; [|right; by right].
  unfold put_entry in Hx. rewrite elem_of_app, elem_of_cons, !elem_of_Lfilter in Hx. destruct Hx as [[Hx _]|[->|[Hx _]]];
    [by left|right; by left|by left].
Qed.

Lemma holds_keys c items kcs (Q : Z → Prop) : holds c items kcs → Forall (λ it, Q (li_key it)) items ↔ Forall (λ e, Q (fst e)) kcs.
Proof.
  induction 1 as [|it e items kcs Hs _ IH]; [done|]. rewrite !Forall_cons, IH. by rewrite (sf_key _ _ _ _ Hs).
Qed.

(** The leaf after its batch still sits between its neighbours. *)
Lemma leaf_between c c' fs mid leaf' k2 batch :
  items_in_order (before fs ++ mid ++ after fs) → items_in_order leaf' → holds c mid k2 → holds c' leaf' (foldl put_entry k2 batch) →
  Forall (λ e : Z * Container, Forall (λ y, li_key y < fst e) (before fs) ∧ Forall (λ y, fst e < li_key y) (after fs)) batch →
  items_in_order (before fs ++ leaf' ++ after fs).
Proof.
  intros Ho Ho' Hm Hl Hb. pose proof Ho as (Hlt1 & Hs1 & Ho2)%StronglySorted_app. pose proof Ho2 as (Hlt2 & _ & Hs3)%StronglySorted_app.
  assert (Forall (λ it, Forall (λ y, li_key y < li_key it) (before fs) ∧ Forall (λ y, li_key it < li_key y) (after fs)) leaf') as Hq.
  { apply (holds_keys _ _ _ (λ k, Forall (λ y, li_key y < k) (before fs) ∧ Forall (λ y, k < li_key y) (after fs)) Hl).
    apply Forall_forall. intros e [He|He]%elem_of_fold_entry; [|rewrite Forall_forall in Hb; by apply Hb].
    revert e He. apply Forall_forall.
    apply (holds_keys _ _ _ (λ k, Forall (λ y, li_key y < k) (before fs) ∧ Forall (λ y, k < li_key y) (after fs)) Hm).
    apply Forall_forall. intros x Hx. split; apply Forall_forall; intros y Hy; [apply Hlt1|apply Hlt2]; find_in. }
  rewrite Forall_forall in Hq. apply StronglySorted_app_2; [|exact Hs1|].
  - intros x y Hx Hy. apply elem_of_app in Hy as [Hy|Hy]; [|apply Hlt1; find_in]. destruct (Hq y Hy) as [H1 _].
    rewrite Forall_forall in H1. by apply H1.
  - apply StronglySorted_app_2; [|exact Ho'|exact Hs3]. intros x y Hx Hy. destruct (Hq x Hx) as [_ H1].
    rewrite Forall_forall in H1. by apply H1.
Qed.

(** The leaf, its batch made and spliced, a small right sibling folded in, the path rewritten. *)
Lemma put_containers_leaf c fs mid kcs G first batch later n :
  let bound := li_key <$> head (after fs) in
  cut_bound fst bound (first :: batch ++ later) = (first :: batch, later) → txn_inv fd l c → spine c 0 1 fs → (length fs < MAX_DEPTH)%nat →
  own c ≡ₚ bases mid ++ around fs ++ G → items_in_order (before fs ++ mid ++ after fs) → Z.of_nat (length mid) < 454 →
  holds c (before fs ++ mid ++ after fs) kcs →
  Forall (λ e : Z * Container, Forall (λ y, li_key y < fst e) (before fs) ∧ Forall (λ y, fst e < li_key y) (after fs)) (first :: batch) →
  Forall (λ e, wf (snd e) ∧ 0 <= fst e < 2 ^ 64) (first :: batch) →
  room c n → 34 * (453 + Z.of_nat (length (first :: batch))) <= n →
  ∃ root' c' h' items', ('(leaf, pending, t) ← splice_containers (c_store c) (c_txn c) bound mid (first :: batch ++ later);
      '(leaf, span, t) ← merge_right (c_store c) t (rev (f_step <$> fs)) leaf;
      '(entries, t) ← pack_leaves (c_store c) t leaf;
      '(root, t) ← rewrite_path_span (c_store c) t (rev (f_step <$> fs)) entries span;
      Ok (root, pending, t)) = Ok (root', later, c_txn c') ∧
    evolves c c' G ∧ has_tree c' h' root' items' G ∧ holds c' items' (foldl put_entry kcs (first :: batch)) ∧
    (h' <= length fs + length (first :: batch))%nat ∧ room c' (n - 34 * (453 + Z.of_nat (length (first :: batch)))).
Proof.
  intros bound Hcut Hinv Hsp Hdep Ho Hord Hsm Hh Hbt Hok Hr Hn. set (now := first :: batch) in *.
  apply Forall2_app_inv_l in Hh as (k1 & k23 & Hh1 & Hh & ->). apply Forall2_app_inv_l in Hh as (k2 & k3 & Hh2 & Hh3 & ->).
  assert (items_in_order mid) as Hom by (by eapply StronglySorted_app_1_l, StronglySorted_app_1_r).
  destruct (splice_containers_ok (now ++ later) c bound mid k2 (around fs ++ G) now later n Hcut Hinv Hom Hh2 Ho Hok Hr ltac:(lia))
    as (leaf1 & c1 & Hs1 & He1 & Ho1 & Hol & Hhl & Hr1 & [Hl1 Hl1'] & Hne1).
  pose proof (leaf_between c c1 fs mid leaf1 k2 now Hord Hol Hh2 Hhl Hbt) as Hord1.
  pose proof (evolves_inv fd l _ _ _ Hinv He1) as Hinv1.
  assert (spine c1 0 1 fs) as Hsp1 by (eapply spine_keep; [|exact Hsp]; intros q Hq; apply (ev_reads _ _ _ He1); find_in).
  assert (holds c1 (before fs ++ leaf1 ++ after fs) (foldl put_entry (k1 ++ k2 ++ k3) now)) as Hh1'.
  { rewrite fold_entry_wide.
    - pose proof (spine_bases _ _ _ _ Hsp) as Hsb. apply Forall2_app; [|apply Forall2_app; [exact Hhl|]].
      + eapply holds_keep; [|exact Hh1]. intros q Hq. apply (ev_reads _ _ _ He1). assert (q ∈ around fs) by (apply Hsb; find_in). find_in.
      + eapply holds_keep; [|exact Hh3]. intros q Hq. apply (ev_reads _ _ _ He1). assert (q ∈ around fs) by (apply Hsb; find_in). find_in.
    - eapply Forall_impl; [exact Hbt|]. intros e [H1 H2].
      split; [by apply (holds_keys _ _ _ (λ k, k < fst e) Hh1)|by apply (holds_keys _ _ _ (λ k, fst e < k) Hh3)]. }
  destruct (merge_right_ok fd l c1 fs leaf1 G Hinv1 Hsp1 Ho1 (holds_items_ok _ _ _ Hhl))
    as (leaf2 & span & c2 & fs2 & Hm & Hst & Hsp2 & Hspan & Hall & Ho2 & He2 & Hr2 & Hio2 & Hl2 & Hl2').
  assert (length fs2 = length fs) as Hlf by (rewrite <-(length_fmap f_step fs2), Hst; apply length_fmap).
  pose proof (evolves_inv fd l _ _ _ Hinv1 He2) as Hinv2.
  destruct (close_leaf c2 fs2 span leaf2 G (length now) (n - Z.of_nat (length now))) as (root' & c' & h' & Hrf & He3 & Hht & Hh' & Hr').
  - exact Hinv2.
  - exact Hsp2.
  - exact Hspan.
  - exact Ho2.
  - exact Hio2.
  - intros ->. apply Hne1; [done|]. destruct leaf1; [done|cbn in Hl2; lia].
  - by rewrite Hall.
  - assert (1 <= length now)%nat as Hn1 by (cbn; lia). pose proof (pow_room (length now) Hn1). lia.
  - by apply Hr2.
  - rewrite Hlf. unfold MAX_DEPTH in Hdep. nia.
  - exists root', c', h', (before fs2 ++ leaf2 ++ after fs2).
    rewrite (ev_store _ _ _ He2), (ev_store _ _ _ He1) in Hrf. rewrite (ev_store _ _ _ He1) in Hm. rewrite Hst in Hrf.
    split_and!; [| |exact Hht| |lia|eapply room_sub; [exact Hr'|unfold MAX_DEPTH in Hdep; nia]].
    + change (first :: batch ++ later) with (now ++ later). rewrite Hs1. cbn [mbind Res_bind]. rewrite Hm. cbn [mbind Res_bind].
      apply bind_ok in Hrf as ([es t] & -> & Hrf). cbn [mbind Res_bind]. by rewrite Hrf.
    + eapply evolves_trans; [|exact He3|done|intros q Hq; find_in]. eapply evolves_trans; [exact He1|exact He2| |]; intros q Hq; find_in.
    + eapply (holds_keep c2); [intros q Hq; apply (ev_reads _ _ _ He3); find_in|]. rewrite Hall.
      eapply (holds_keep c1); [|exact Hh1']. intros q Hq. apply (ev_reads _ _ _ He2). rewrite <-Hall in Hq.
      apply (spine_all _ _ _ _ _ Hsp2) in Hq. solve_in.
Qed.

Definition entries_in_order (kcs : list (Z * Container)) : Prop := StronglySorted (λ a b, fst a < fst b) kcs.
Definition entry_ok (e : Z * Container) : Prop := wf (snd e) ∧ 0 <= fst e < 2 ^ 64.

Lemma put_containers_loop_ok fuel c h root items kcs pending F n :
  has_tree c h root items F → holds c items kcs → Forall entry_ok pending → entries_in_order pending →
  (length pending <= fuel)%nat → room c n → 34 * 454 * Z.of_nat (length pending) <= n →
  (∃ root' c' h' items', put_containers_loop (c_store c) fuel (c_txn c) root pending = Ok (root', c_txn c') ∧
     evolves c c' F ∧ has_tree c' h' root' items' F ∧ holds c' items' (foldl put_entry kcs pending) ∧ (h' <= h + length pending)%nat ∧
     room c' (n - 34 * 454 * Z.of_nat (length pending))) ∨
  ((MAX_DEPTH < h + length pending)%nat ∧ ∃ r, put_containers_loop (c_store c) fuel (c_txn c) root pending = Err (BTooDeep r)).
Proof.
  revert c h root items kcs pending n.
  induction fuel as [|fuel IH]; intros c h root items kcs [|[key k] pending] n Hht Hh Hok Ho Hf Hr Hn; try (cbn in Hf; lia).
  1,2: left; exists root, c, h, items; (split_and!; [reflexivity|apply evolves_refl|exact Hht|exact Hh|lia|eapply room_sub; [exact Hr|cbn; lia]]).
  destruct (decide (h < MAX_DEPTH)%nat) as [Hd|Hd].
  2:{ right. split; [cbn; lia|]. exists root. destruct Hht as [_ Hord (w & Ht & _)]. cbn [put_containers_loop]. unfold descend.
      by rewrite (descend_deep MAX_DEPTH h c root root key items w [] Ht Hord ltac:(lia)). }
  destruct (open_leaf c h root key items F Hht Hd) as (c1 & leaf & fs & mid & Hop). pose proof (ht_order _ _ _ _ _ Hht) as Hoi.
  destruct Hop as [Hds Hbd Htk Hst Hinv1 Eit Hdep Hb Ha Hom Hiom Hsm Hsp Ho1 He1 Hr1]. subst items h.
  destruct (cut_bound fst (li_key <$> head (after fs)) pending) as [batch later] eqn:Ec.
  destruct (cut_bound_spec _ _ _ _ _ Ec) as [-> Hnb].
  assert (beyond (li_key <$> head (after fs)) key = false) as Hb0.
  { destruct (after fs) as [|y post]; [reflexivity|]. apply Forall_inv in Ha. cbn. lia. }
  change ((key, k) :: batch ++ later) with (((key, k) :: batch) ++ later) in Ho, Hok.
  apply Forall_app in Hok as [Hok1 Hok2]. pose proof Ho as (_ & Hob & Hol)%StronglySorted_app.
  pose proof (bound_between fst fs mid (key, k) batch key eq_refl Hb Hoi Hob) as Hbt. specialize (Hbt ltac:(constructor; done)).
  cbn [length] in Hf, Hn. rewrite length_app in Hf, Hn.
  destruct (put_containers_leaf c1 fs mid kcs F (key, k) batch later n) as (root1 & c2 & h2 & items2 & Hrd & He2 & Hht2 & Hh2 & Hdp2 & Hr2).
  - cbn [cut_bound fst]. by rewrite Hb0, Ec.
  - exact Hinv1.
  - exact Hsp.
  - exact Hd.
  - exact Ho1.
  - exact Hoi.
  - exact Hsm.
  - eapply holds_keep; [|exact Hh]. intros q Hq. apply (ev_reads _ _ _ He1). find_in.
  - exact Hbt.
  - exact Hok1.
  - by apply Hr1.
  - cbn [length]. lia.
  - assert (put_containers_loop (c_store c) (S fuel) (c_txn c) root ((key, k) :: batch ++ later) = put_containers_loop (c_store c2) fuel (c_txn c2) root1 later) as Hloop.
    { rewrite (ev_store _ _ _ He2), Hst. rewrite Hst in Hrd. cbn [put_containers_loop]. rewrite Hds. cbn [mbind Res_bind]. rewrite Hbd. cbn [mbind Res_bind].
      rewrite Htk. cbn [mbind Res_bind]. apply bind_ok in Hrd as ([[lf2 pd] t2] & -> & Hrd). cbn [mbind Res_bind].
      apply bind_ok in Hrd as ([[lf3 sp] t3] & -> & Hrd). cbn [mbind Res_bind]. apply bind_ok in Hrd as ([es t4] & -> & Hrd). cbn [mbind Res_bind].
      apply bind_ok in Hrd as ([r t5] & -> & Hrd). cbn [mbind Res_bind]. by injection Hrd as -> -> ->. }
    change ((key, k) :: batch ++ later) with (((key, k) :: batch) ++ later) in Hloop |- *. rewrite Hloop, foldl_app, length_app.
    destruct (IH c2 h2 root1 items2 (foldl put_entry kcs ((key, k) :: batch)) later (n - 34 * (453 + Z.of_nat (length ((key, k) :: batch)))) Hht2 Hh2 Hok2 Hol)
      as [(root' & c' & h' & items' & H1 & H2 & H3 & H4 & H5 & H6)|[H1 H2]]; [lia|exact Hr2|cbn [length]; lia| |].
    + left. exists root', c', h', items'. split_and!; [exact H1| |exact H3|exact H4|lia|eapply room_sub; [exact H6|cbn [length]; lia]].
      eapply evolves_trans; [|exact H2|done|done]. eapply evolves_trans; [exact He1|exact He2|intros q Hq; find_in|done].
    + right. split; [lia|exact H2].
Qed.
(** ** From nothing *)
Lemma make_items_ok pending c n :
  txn_inv fd l c → Forall entry_ok pending → room c n → Z.of_nat (length pending) <= n →
  ∃ items c', make_items (c_store c) (c_txn c) pending = Ok (items, c_txn c') ∧ took c c' [] (bases items) ∧ holds c' items pending ∧
    room c' (n - Z.of_nat (length pending)).
Proof.
  revert c n. induction pending as [|[key k] pending IH]; intros c n Hinv Hok Hr Hn.
  { exists [], c. cbn [length] in *. rewrite Z.sub_0_r. split_and!; [reflexivity|apply took_refl|constructor|exact Hr]. }
  apply Forall_cons in Hok as [[Hwf Hkey] Hok]. cbn [fst snd length] in *.
  destruct (make_item_ok fd l c key k None n Hwf Hkey Hinv Hr ltac:(lia) I) as (it & c1 & Hmk & Htk & Hr1 & Hst).
  destruct Htk as [Htk|(_ & Hne & Hb)]; [|by destruct Hne].
  destruct (IH c1 (n - 1)) as (items & c' & Hms & Htk' & Hh & Hr'); [by eapply took_inv|exact Hok|exact Hr1|lia|].
  exists (it :: items), c'. change (it :: items) with ([it] ++ items). rewrite bases_app. split_and!.
  - cbn [make_items]. unfold make_item. rewrite Hmk. cbn [mbind Res_bind]. rewrite (took_store _ _ _ _ Htk) in Hms. by rewrite Hms.
  - eapply took_trans; [exact Htk|]. eapply took_perm; [|apply Permutation_app_comm|apply took_frame, Htk']. done.
  - constructor; [|exact Hh]. eapply stands_keep; [|exact Hst]. intros q Hq. eapply took_reads; [exact Htk'|].
    eapply (took_sub _ _ _ _ Htk); [|exact Hq]. by intros ? ?%not_elem_of_nil.
  - eapply room_sub; [exact Hr'|]. lia.
Qed.

Lemma holds_order c items kcs : holds c items kcs → entries_in_order kcs → items_in_order items.
Proof.
  intros H Ho. induction H as [|it e items kcs Hs Hh IH]; [constructor|]. apply StronglySorted_inv in Ho as [Ho Hf].
  constructor; [by apply IH|]. rewrite (sf_key _ _ _ _ Hs). by apply (holds_keys _ _ _ (λ k, fst e < k) Hh).
Qed.

Lemma put_containers_new c pending n :
  txn_inv fd l c → Forall entry_ok pending → entries_in_order pending → room c n → 3 * Z.of_nat (length pending) + 1 <= n →
  ∃ root c' h items, put_containers (c_store c) (c_txn c) None pending = Ok (root, c_txn c') ∧ evolves c c' (own c) ∧
    has_tree c' h root items (own c) ∧ holds c' items pending ∧ (h <= 4)%nat ∧ room c' (n - (3 * Z.of_nat (length pending) + 1)).
Proof.
  intros Hinv Hok Ho Hr Hn. destruct (make_items_ok pending c n Hinv Hok Hr ltac:(lia)) as (items & c1 & Hms & Htk1 & Hh & Hr1).
  pose proof (Forall2_length _ _ _ Hh) as Hlen. assert (bases items ⊆ own c1) as Hsub by (eapply took_sub; [exact Htk1|by intros ? ?%not_elem_of_nil]).
  destruct (build_tree fd l c1 items (n - Z.of_nat (length pending))) as (root & c' & w & h & Hb & Htk & Hd & Ht & Hr');
    [by eapply took_inv|by eapply holds_items_ok|exact Hsub|exact Hr1|lia|].
  pose proof (took_trans _ _ _ _ _ _ Htk1 Htk) as Htk2.
  exists root, c', h, items. split_and!; [|apply Htk2| | |exact Hd|eapply room_sub; [exact Hr'|lia]].
  - cbn [put_containers]. rewrite Hms. cbn [mbind Res_bind]. rewrite (took_store _ _ _ _ Htk1) in Hb. exact Hb.
  - split; [by eapply took_inv|by eapply holds_order|]. exists w. split; [exact Ht|]. by eapply took_own.
  - eapply holds_keep; [|exact Hh]. intros q Hq. eapply took_reads; [exact Htk|]. by apply Hsub.
Qed.

Lemma bring_all_nil its : bring_all [] its = bases its.
Proof.
  unfold bring_all, bases. induction its as [|it its IH]; [reflexivity|]. cbn [map concat omap list_omap]. rewrite IH.
  unfold brings. by destruct (base_pgno it).
Qed.
End mutate.

(** Entries in order, put one after the other into nothing, are themselves. *)
Lemma put_entry_last kcs e : Forall (λ x, fst x < fst e) kcs → put_entry kcs e = kcs ++ [e].
Proof.
  intros H. unfold put_entry. rewrite filter_all, filter_none by (eapply Forall_impl; [exact H|]; simpl; lia). reflexivity.
Qed.
Lemma put_item_last items it : Forall (λ x, li_key x < li_key it) items → put_item items it = items ++ [it].
Proof.
  intros H. unfold put_item, below, above. rewrite filter_all, filter_none by (eapply Forall_impl; [exact H|]; simpl; lia). reflexivity.
Qed.
Lemma fold_last {A} (key : A → Z) (put : list A → A → list A) :
  (∀ l x, Forall (λ y, key y < key x) l → put l x = l ++ [x]) →
  ∀ l acc, StronglySorted (λ a b, key a < key b) (acc ++ l) → foldl put acc l = acc ++ l.
Proof.
  intros Hp. induction l as [|x l IH]; intros acc Hs; cbn [foldl]; [by rewrite app_nil_r|].
  rewrite Hp; [rewrite IH; by rewrite <-app_assoc|].
  apply StronglySorted_app in Hs as (Hlt & _). apply Forall_forall. intros y Hy. apply Hlt; [done|by left].
Qed.
Lemma fold_entry_nil kcs : entries_in_order kcs → foldl put_entry [] kcs = kcs.
Proof. intros H. by apply (fold_last fst put_entry put_entry_last kcs []). Qed.
Lemma fold_item_nil items : items_in_order items → foldl put_item [] items = items.
Proof. intros H. by apply (fold_last li_key put_item put_item_last items []). Qed.
