(* ===== verification/BTreeShow.v ===== *)
(** What a tree shows to a reader: an ordered map from keys to containers
    (crates/big-btree/src/read.rs over the cells of crates/big-page/src/leaf.rs). *)
From S2P Require Import Prelude Bits Search Container Optimize Delta Page Leaf Branch Chain Meta Freelist Snapshot Roots Pager Store Txn BTree BTreeWrite BTreeOwn BTreeBuild BTreeItem BTreeEdit BTreePut.

(** A well-formed tree under [root]: some height the descents allow, keys in order. *)
Record tree_of {P} `{!Pager P} (pager : P) (root : Z) (cells : list LeafCell) : Prop := {
  to_height : ∃ h, (h < MAX_DEPTH)%nat ∧ tree_at pager h root cells;
  to_order : in_order cells;
  to_keys : Forall (λ c, 0 <= lc_key c < 2 ^ 64) cells
}.

(** * Cells as they are parsed *)
Definition cell_typed (c : LeafCell) : Prop := lc_at c mod 8 = 0 ∧ 0 <= lc_elem_n c < 2 ^ 16.

Lemma parsed_cells page l cells : page_ok page → leaf_parse page = Ok l → leaf_cells l = Ok cells → Forall cell_typed cells.
Proof.
  intros Hok Hp Hc. unfold leaf_parse in Hp. apply bind_ok in Hp as ([count start] & Hv & E). injection E as <-.
  apply validate_cell_index_spec in Hv as (_ & _ & Hix). unfold leaf_cells, indices in Hc. cbn [lp_count] in Hc.
  apply res_mapM_ok in Hc. apply Forall_lookup. intros i x Hx. destruct (Forall2_lookup_r _ _ _ _ _ Hc Hx) as (j & Hj & H).
  apply lookup_seqZ in Hj as [-> Hj]. destruct (Hix (0 + Z.of_nat i) ltac:(lia)) as (off & Hoff & Hal & _).
  unfold cell in H. cbn [lp_count lp_page] in H. case_match; [done|]. rewrite Hoff in H. cbn [mbind Res_bind] in H.
  apply bind_ok in H as (raw & _ & H). apply bind_ok in H as (ty & _ & H). apply bind_ok in H as (en & Hen & H).
  case_match; [done|]. do 5 (apply bind_ok in H as (? & _ & H)). injection H as <-. split; cbn [lc_at lc_elem_n].
  - unfold CELL_ALIGN, LEAF_CELL_HEADER in *. rewrite Zplus_mod, Hal. reflexivity.
  - eapply rd_bound in Hen; [|apply Hok]. exact Hen.
Qed.

Lemma tree_cells {P} `{!Pager P} (pager : P) h no cells : tree_at pager h no cells → Forall cell_typed cells.
Proof.
  revert no cells. induction h as [|h IH]; intros no cells H.
  - destruct H as (page & l & _ & Hok & _ & Hp & Hc). by eapply parsed_cells.
  - destruct H as (bs & css & _ & _ & -> & HF). induction HF as [|b cs bs css [_ Ht] _ IHf]; [constructor|]. cbn [concat].
    apply Forall_app. split; [by eapply IH|exact IHf].
Qed.

Lemma cell_is_staged c : cell_typed c → c = staged_cell (item_staged (from_cell c)) (lc_at c).
Proof. destruct c. intros [_ H]. unfold staged_cell, item_staged, from_cell. cbn in *. by rewrite Z.mod_small. Qed.

(** * The containers of a tree *)
Section shows.
Context {X : Extern}.

(** The page a cell needs besides its own bytes. *)
Definition cell_page {P} `{!Pager P} (pager : P) (c : LeafCell) (o : option Page) : Prop :=
  if owns_page (lc_ty c) then ∃ page, pager_read pager (lc_bitmap_pgno c) = Ok page ∧ o = Some page else o = None.

(** A reader that resolves the cell, checksum and all, gets the container's set; one that asks it for a
    single offset gets the answer of that set. *)
Definition cell_shows {P} `{!Pager P} (pager : P) (c : LeafCell) (e : Z * Container) : Prop :=
  lc_key c = fst e ∧ lc_cardinality c = cardinality (snd e) ∧ wf (snd e) ∧
  ∃ o k, cell_page pager c o ∧ resolve c o = Ok k ∧ wf k ∧ members k = members (snd e) ∧
    ∀ u, u16 u → contains_checked c o u = Ok (contains k u).

Definition shows {P} `{!Pager P} (pager : P) (root : Z) (kcs : list (Z * Container)) : Prop :=
  ∃ cells, tree_of pager root cells ∧ Forall2 (cell_shows pager) cells kcs.
End shows.

Section seen.
Context {X : Extern} {L : ExternLaws X} {P : Type} `{!Pager P, !PagerMut P} (fd : Freelist) (l : Layout).
Implicit Types (c : Cfg P).

Lemma map_from_cell_order cells items : map from_cell cells = items → items_in_order items → in_order cells.
Proof.
  intros <- H. induction cells as [|c cells IH]; [constructor|]. cbn [map] in H. inversion H as [|? ? Hs Hf]; subst.
  constructor; [by apply IH|]. apply Forall_forall. intros d Hd. rewrite Forall_forall in Hf.
  apply (Hf (from_cell d)). by apply list_elem_of_fmap_2.
Qed.

(** A pager that has the pages the transaction has. *)
Definition agrees {P'} `{!Pager P'} (pager : P') c (w : list Z) : Prop :=
  ∀ q pg, q ∈ w → page_at c q = Ok pg → pager_read pager q = Ok pg.

Lemma own_tree_of {P'} `{!Pager P'} (pager : P') c h root items w :
  own_tree c h root items w → items_in_order items → (h < MAX_DEPTH)%nat → agrees pager c w →
  ∃ cells, map from_cell cells = items ∧ tree_of pager root cells ∧ Forall cell_typed cells.
Proof.
  intros Ht Ho Hh Ha. destruct (own_tree_at pager c h root items w Ht Ha) as (cells & Hm & Hta). exists cells.
  split_and!; [exact Hm| |by eapply tree_cells]. split; [by exists h|by eapply map_from_cell_order|].
  apply own_tree_items in Ht. apply Forall_forall. intros x Hx. rewrite Forall_forall in Ht.
  destruct (Ht (from_cell x)) as [(Hk & _) _]; [|exact Hk]. rewrite <-Hm. by apply list_elem_of_fmap_2.
Qed.

Lemma stands_shows {P'} `{!Pager P'} (pager : P') c w cell e :
  cell_typed cell → stands_for c (from_cell cell) (fst e) (snd e) → agrees pager c w → bases [from_cell cell] ⊆ w → cell_shows pager cell e.
Proof.
  intros Hty Hst Ha Hw. pose proof (cell_is_staged cell Hty) as Hcell. destruct Hty as [Hal _].
  destruct (sf_resolve _ _ _ _ Hst) as (k & Hk & Hm & Hres). specialize (Hres (lc_at cell) Hal). rewrite <-Hcell in Hres.
  split; [exact (sf_key _ _ _ _ Hst)|]. split; [exact (sf_card _ _ _ _ Hst)|]. split; [exact (sf_wf _ _ _ _ Hst)|].
  exists (item_base c (from_cell cell)), k. split_and!; [| |exact Hk|exact Hm|].
  - unfold cell_page, item_base, base_pgno, is_dense. change (li_ty (from_cell cell)) with (lc_ty cell).
    destruct (owns_page (lc_ty cell)) eqn:E; [|reflexivity].
    assert (base_pgno (from_cell cell) = Some (lc_bitmap_pgno cell)) as Hb
      by (unfold base_pgno, is_dense; change (li_ty (from_cell cell)) with (lc_ty cell); by rewrite E).
    destruct (sf_base _ _ _ _ Hst _ Hb) as (page & Hp & _). exists page. split.
    + apply Ha; [|exact Hp]. apply Hw, elem_of_bases. exists (from_cell cell). split; [by left|exact Hb].
    + change (li_bitmap_pgno (from_cell cell)) with (lc_bitmap_pgno cell). by rewrite Hp.
  - unfold resolve, verify_if_based. destruct (item_base c (from_cell cell)) as [page|] eqn:E; [|exact Hres].
    pose proof (stands_verifies _ _ _ _ page (lc_at cell) Hst E) as Hv. rewrite <-Hcell in Hv.
    destruct (has_base cell); [rewrite Hv|]; exact Hres.
  - intros u Hu. unfold item_base in *. assert (∃ d, cell_delta cell = Ok d ∧ delta_ok d) as (d & Hd & Hdk).
    { unfold cell_delta. case_bool_decide as Et; cbn [negb]; [|exists []; split; [reflexivity|split; constructor]].
      destruct (sf_delta _ _ _ _ Hst Et) as (es & He & Hk'). change (lc_payload cell) with (li_payload (from_cell cell)). rewrite He. by exists es. }
    eapply contains_checked_resolve; [exact Hres|exact Hu| |exact Hd|exact Hdk]. intros q Hq.
    destruct (base_pgno (from_cell cell)) as [no|] eqn:Eb; [|discriminate Hq].
    destruct (sf_base _ _ _ _ Hst _ Eb) as (page & Hp & Hok & _). rewrite Hp in Hq. injection Hq as <-. exact Hok.
Qed.

Lemma own_tree_shows {P'} `{!Pager P'} (pager : P') c h root items w kcs :
  own_tree c h root items w → items_in_order items → (h < MAX_DEPTH)%nat → holds c items kcs → agrees pager c w → shows pager root kcs.
Proof.
  intros Ht Ho Hh Hk Ha.
  destruct (own_tree_of pager c h root items w Ht Ho Hh Ha) as (cells & <- & Hto & Hty). exists cells. split; [exact Hto|].
  apply own_tree_bases in Ht. clear - Hty Hk Ha Ht L.
  revert kcs Hk. induction Hty as [|x cells Hx _ IH]; intros kcs Hk; inversion Hk as [|? e ? kcs' Hs Hk']; subst; constructor.
  - eapply stands_shows; [exact Hx|exact Hs|exact Ha|]. etrans; [|exact Ht]. change (map from_cell (x :: cells)) with ([from_cell x] ++ map from_cell cells).
    rewrite bases_app. intros q Hq. find_in.
  - apply IH; [|exact Hk']. etrans; [|exact Ht]. change (map from_cell (x :: cells)) with ([from_cell x] ++ map from_cell cells).
    rewrite bases_app. intros q Hq. find_in.
Qed.

Lemma has_tree_shows {P'} `{!Pager P'} (pager : P') c h root items F kcs :
  has_tree fd l c h root items F → (h < MAX_DEPTH)%nat → holds c items kcs → 
  (∀ w, own c ≡ₚ w ++ F → agrees pager c w) → shows pager root kcs.
Proof.
  intros [_ Ho (w & Ht & Hown)] Hh Hk Ha. eapply own_tree_shows; [exact Ht|exact Ho|exact Hh|exact Hk|exact (Ha w Hown)].
Qed.
End seen.
