(* ===== verification/BTreeWalk.v ===== *)
(** What a tree is made of, and how to move one (crates/big-btree/src/walk.rs): visiting, scrubbing,
    freeing and copying whole trees. *)
From S2P Require Import Prelude Bits Search Container Optimize Delta Page Leaf Branch Chain Meta Freelist Snapshot Roots Pager Store Txn BTree BTreeWrite BTreeOwn BTreeBuild BTreeItem BTreeEdit BTreePut BTreeShow.

(** [for x in xs { st = f(st, x)?; }]. *)
Fixpoint res_fold {E A S} (f : S → A → Res E S) (st : S) (l : list A) : Res E S :=
  match l with [] => Ok st | x :: l' => st ← f st x; res_fold f st l' end.

(** The pages the cells of a leaf own, with the checksums the cells carry. *)
Definition dense_cells (cells : list LeafCell) : list (Z * Z) :=
  omap (λ c, if has_base c then Some (lc_bitmap_pgno c, lc_bitmap_checksum c) else None) cells.

(** ** Reading *)
Section walk.
Context {X : Extern} {P : Type} `{!Pager P}.

(** [shape]: what a page is, and what it points at. *)
Definition shape (pager : P) (no : Z) : Res BTreeError (PageType * list Z * list Z) :=
  page ← from_store (pager_read pager no);
  kind ← page_kind page;
  match kind with
  | PBranch => br ← from_page (branch_parse page); cells ← from_page (branch_cells br); Ok (PBranch, map bc_child cells, [])
  | PLeaf => lf ← from_page (leaf_parse page); cells ← from_page (leaf_cells lf); Ok (PLeaf, [], map fst (dense_cells cells))
  | other => Err (BUnexpectedPage no other)
  end.

Section visit.
Context {S : Type} (visit : S → Z → PageType → Res BTreeError S).

(** [visit_rec]: [left] is how much deeper it may go. *)
Fixpoint visit_rec (left : nat) (pager : P) (no : Z) (st : S) : Res BTreeError S :=
  match left with
  | O => Err (BTooDeep no)
  | Datatypes.S left' =>
      '(kind, children, dense) ← shape pager no;
      st ← res_fold (λ st c, visit_rec left' pager c st) st children;
      st ← res_fold (λ st d, visit st d PBitmap) st dense;
      visit st no kind
  end.
Definition visit_tree (pager : P) (root : Z) (st : S) : Res BTreeError S := visit_rec MAX_DEPTH pager root st.
End visit.

(** *** Scrubbing *)
Record Scrubbed := mkScrubbed { scr_pages : Z; scr_bitmaps : Z }.
Definition scrubbed_total (s : Scrubbed) : Z := scr_pages s + scr_bitmaps s.
Definition scrubbed_add (a b : Scrubbed) : Scrubbed := mkScrubbed (scr_pages a + scr_pages b) (scr_bitmaps a + scr_bitmaps b).

(** One dense page against the checksum its cell carries. *)
Definition scrub_dense (pager : P) (found : Scrubbed) (d : Z * Z) : Res BTreeError Scrubbed :=
  page ← from_store (pager_read pager (fst d));
  let computed := bitmap_page_checksum page in
  if negb (computed =? snd d) then Err (BPage (ChecksumMismatch (snd d) computed))
  else Ok (mkScrubbed (scr_pages found) (scr_bitmaps found + 1)).

Fixpoint scrub_rec (left : nat) (pager : P) (no : Z) : Res BTreeError Scrubbed :=
  match left with
  | O => Err (BTooDeep no)
  | S left' =>
      page ← from_store (pager_read pager no);
      _ ← from_page (verify_checksum page);
      let found := mkScrubbed 1 0 in
      kind ← page_kind page;
      '(children, dense) ← (match kind with
        | PBranch => br ← from_page (branch_parse page); cells ← from_page (branch_cells br); Ok (map bc_child cells, [])
        | PLeaf => lf ← from_page (leaf_parse page); cells ← from_page (leaf_cells lf); Ok ([], dense_cells cells)
        | other => Err (BUnexpectedPage no other)
        end);
      found ← res_fold (scrub_dense pager) found dense;
      res_fold (λ found c, f ← scrub_rec left' pager c; Ok (scrubbed_add found f)) found children
  end.
Definition scrub_tree (pager : P) (root : Z) : Res BTreeError Scrubbed := scrub_rec MAX_DEPTH pager root.

(** *** One node, into owned values *)
Inductive Node := NBranch (cells : list BranchCell) | NLeaf (items : list LeafItem).

Definition read_node (src : P) (no : Z) : Res BTreeError Node :=
  page ← from_store (pager_read src no);
  _ ← from_page (verify_checksum page);
  kind ← page_kind page;
  match kind with
  | PBranch => br ← from_page (branch_parse page); cells ← from_page (branch_cells br); Ok (NBranch cells)
  | PLeaf => lf ← from_page (leaf_parse page); cells ← from_page (leaf_cells lf); Ok (NLeaf (map from_cell cells))
  | other => Err (BUnexpectedPage no other)
  end.
End walk.

(** ** Freeing *)
Definition free_tree {P} `{!Pager P} (s : Store P) (t : WriteTxn) (root : Z) : Res BTreeError WriteTxn :=
  pages ← visit_tree (λ pages no _, Ok (pages ++ [no])) (mkView s t) root [];
  Ok (foldl txn_free t pages).

(** ** Copying *)
Section copy.
Context {X : Extern} {P D : Type} `{!Pager P, !Pager D, !PagerMut D} (src : P) (s : Store D).

Definition copy_bitmap (t : WriteTxn) (no expected : Z) : Res BTreeError (Z * WriteTxn) :=
  page ← from_store (pager_read src no);
  let computed := bitmap_page_checksum page in
  if negb (computed =? expected) then Err (BPage (ChecksumMismatch expected computed))
  else
    '(new, t) ← b_alloc s t;
    t ← b_write t new page;
    Ok (new, t).

Definition with_bitmap_pgno (it : LeafItem) (no : Z) : LeafItem :=
  mkItem (li_key it) (li_ty it) (li_elem_n it) (li_cardinality it) (li_bitmap_checksum it) no (li_payload it).

(** [for it in &mut items { if it.is_dense() { it.bitmap_pgno = copy_bitmap(..)? } }]. *)
Fixpoint copy_items (t : WriteTxn) (items : list LeafItem) : Res BTreeError (list LeafItem * WriteTxn) :=
  match items with
  | [] => Ok ([], t)
  | it :: items' =>
      '(it, t) ← (if is_dense it
                  then '(new, t) ← copy_bitmap t (li_bitmap_pgno it) (li_bitmap_checksum it); Ok (with_bitmap_pgno it new, t)
                  else Ok (it, t));
      '(items', t) ← copy_items t items';
      Ok (it :: items', t)
  end.

(** The loop over the cells of a branch, [copy] being the recursive call. *)
Fixpoint copy_cells (copy : WriteTxn → Z → Res BTreeError (Z * WriteTxn)) (no : Z) (t : WriteTxn) (b cells : list BranchCell)
    : Res BTreeError (list BranchCell * WriteTxn) :=
  match cells with
  | [] => Ok (b, t)
  | c :: cells' =>
      '(child, t) ← copy t (bc_child c);
      b ← ok_or (branch_push b (mkBranchCell (bc_key c) (bc_flags c) child)) (BUnexpectedPage no PBranch);
      copy_cells copy no t b cells'
  end.

Fixpoint copy_rec (left : nat) (t : WriteTxn) (no : Z) : Res BTreeError (Z * WriteTxn) :=
  match left with
  | O => Err (BTooDeep no)
  | S left' =>
      node ← read_node src no;
      match node with
      | NBranch cells =>
          '(b, t) ← copy_cells (copy_rec left') no t [] cells;
          '(new, t) ← b_alloc s t;
          page ← from_page (branch_finish b new);
          t ← b_write t new page;
          Ok (new, t)
      | NLeaf items =>
          '(items, t) ← copy_items t items;
          b ← (match fill_leaf leaf_new items with (b, []) => Ok b | _ => Err (BUnexpectedPage no PLeaf) end);
          '(new, t) ← b_alloc s t;
          page ← from_page (leaf_finish b new);
          t ← b_write t new page;
          Ok (new, t)
      end
  end.
Definition copy_tree (t : WriteTxn) (root : Z) : Res BTreeError (Z * WriteTxn) := copy_rec MAX_DEPTH t root.
End copy.

(** * The walks over a tree that a transaction owns *)
Lemma res_fold_app {E A S} (f : S → A → Res E S) st a b : res_fold f st (a ++ b) = (st ← res_fold f st a; res_fold f st b).
Proof. revert st. induction a as [|x a IH]; intros st; [reflexivity|]. cbn [app res_fold]. destruct (f st x); cbn [mbind Res_bind]; [apply IH|done|done]. Qed.

Lemma dense_cons c cells :
  dense_cells (c :: cells) = (if has_base c then [(lc_bitmap_pgno c, lc_bitmap_checksum c)] else []) ++ dense_cells cells.
Proof. unfold dense_cells. cbn. by destruct (has_base c). Qed.

Lemma dense_bases cells : map fst (dense_cells cells) = bases (map from_cell cells).
Proof.
  induction cells as [|c cells IH]; [reflexivity|]. rewrite dense_cons, map_app, IH.
  change (map from_cell (c :: cells)) with ([from_cell c] ++ map from_cell cells). rewrite bases_app. f_equal.
  unfold bases, has_base. cbn. unfold base_pgno, is_dense. change (li_ty (from_cell c)) with (lc_ty c). by destruct (owns_page (lc_ty c)).
Qed.

Section visiting.
Context {X : Extern} {P P' : Type} `{!Pager P, !Pager P'}.
Implicit Types (c : Cfg P).

Lemma shape_leaf (pager : P') no cells : node_leaf pager no cells → shape pager no = Ok (PLeaf, [], bases (map from_cell cells)).
Proof.
  intros (page & lf & Hr & _ & Hty & Hp & Hc). unfold shape, page_kind. rewrite Hr. cbn [from_store map_err mbind Res_bind].
  rewrite Hty. cbn [from_page map_err mbind Res_bind]. rewrite Hp. cbn [from_page map_err mbind Res_bind]. rewrite Hc.
  cbn [from_page map_err mbind Res_bind]. by rewrite dense_bases.
Qed.
Lemma shape_branch (pager : P') no bs : node_branch pager no bs → shape pager no = Ok (PBranch, map bc_child bs, []).
Proof.
  intros (page & br & Hr & _ & Hty & Hp & Hc). unfold shape, page_kind. rewrite Hr. cbn [from_store map_err mbind Res_bind].
  rewrite Hty. cbn [from_page map_err mbind Res_bind]. rewrite Hp. cbn [from_page map_err mbind Res_bind]. by rewrite Hc.
Qed.

Lemma agrees_leaf (pager : P') c no cells w : agrees pager c w → no ∈ w → node_leaf (view c) no cells → node_leaf pager no cells.
Proof. intros Ha Hn (page & lf & Hr & H). exists page, lf. split; [by apply Ha|exact H]. Qed.
Lemma agrees_branch (pager : P') c no bs w : agrees pager c w → no ∈ w → node_branch (view c) no bs → node_branch pager no bs.
Proof. intros Ha Hn (page & br & Hr & H). exists page, br. split; [by apply Ha|exact H]. Qed.
Lemma agrees_sub (pager : P') c w w' : agrees pager c w → w' ⊆ w → agrees pager c w'.
Proof. intros Ha Hs q pg Hq. by apply Ha, Hs. Qed.

(** A visit is a loop over the pages of the tree, each once. *)
Lemma visit_own {S} (f : S → Z → PageType → Res BTreeError S) h left c no items w (pager : P') :
  own_tree c h no items w → (h < left)%nat → agrees pager c w →
  ∃ L, (∀ st, visit_rec f left pager no st = res_fold (λ st e, f st (fst e) (snd e)) st L) ∧ fst <$> L ≡ₚ w.
Proof.
  revert left no items w. induction h as [|h IH]; intros [|left] no items w Ht Hh Ha; try lia.
  - destruct Ht as (cells & Hn & -> & _ & _ & ->). exists (map (λ d, (d, PBitmap)) (bases (map from_cell cells)) ++ [(no, PLeaf)]). split.
    + intros st. cbn [visit_rec]. rewrite (shape_leaf pager no cells) by (eapply agrees_leaf; [exact Ha|by left|exact Hn]).
      cbn [mbind Res_bind res_fold]. rewrite res_fold_app. generalize (bases (map from_cell cells)). intros ds. revert st.
      induction ds as [|d ds IHd]; intros st; cbn [map res_fold mbind Res_bind fst snd].
      * by destruct (f st no PLeaf).
      * destruct (f st d PBitmap); cbn [mbind Res_bind]; [apply IHd|done|done].
    + rewrite fmap_app. cbn [fmap list_fmap fst]. rewrite <-Permutation_cons_append. f_equiv.
      generalize (bases (map from_cell cells)). intros ds. induction ds as [|d ds IHd]; [done|]. cbn [map fmap list_fmap fst]. by f_equiv.
  - destruct Ht as (bs & w' & Hn & Hne & _ & Hlv & ->).
    assert (∃ L, (∀ st, res_fold (λ st ch, visit_rec f left pager ch st) st (map bc_child bs) = res_fold (λ st e, f st (fst e) (snd e)) st L) ∧ fst <$> L ≡ₚ w') as (L & HL & Hp).
    { assert (agrees pager c w') as Ha' by (eapply agrees_sub; [exact Ha|intros q Hq; by right]). clear Hn Hne Ha.
      induction Hlv as [|b bs its items v ws _ _ Ht _ IHl]; [by exists []|].
      destruct IHl as (L2 & H2 & P2); [eapply agrees_sub; [exact Ha'|intros q Hq; find_in]|].
      destruct (IH left (bc_child b) its v Ht ltac:(lia)) as (L1 & H1 & P1); [eapply agrees_sub; [exact Ha'|intros q Hq; find_in]|].
      exists (L1 ++ L2). split; [|rewrite fmap_app; by f_equiv]. intros st. cbn [map res_fold]. rewrite H1, res_fold_app.
      destruct (res_fold _ st L1); cbn [mbind Res_bind]; [apply H2|done|done]. }
    exists (L ++ [(no, PBranch)]). split.
    + intros st. cbn [visit_rec]. rewrite (shape_branch pager no bs) by (eapply agrees_branch; [exact Ha|by left|exact Hn]).
      cbn [mbind Res_bind res_fold]. rewrite HL, res_fold_app. destruct (res_fold _ st L) as [st1| |]; cbn [mbind Res_bind res_fold fst snd]; [|done|done].
      by destruct (f st1 no PBranch).
    + rewrite fmap_app. cbn [fmap list_fmap fst]. rewrite <-Permutation_cons_append. by rewrite Hp.
Qed.
End visiting.

(** * Freeing *)
Section freeing.
Context {X : Extern} {P : Type} `{!Pager P, !PagerMut P} (fd : Freelist) (l : Layout).
Implicit Types (c : Cfg P).

Lemma free_pages ps c F :
  txn_inv fd l c → own c ≡ₚ ps ++ F →
  ∃ c', c_txn c' = foldl txn_free (c_txn c) ps ∧ evolves c c' F ∧ own c' ≡ₚ F ∧ ∀ n, room c n → room c' n.
Proof.
  revert c. induction ps as [|p ps IH]; intros c Hinv Ho.
  { exists c. split_and!; [reflexivity|apply evolves_refl|exact Ho|auto]. }
  destruct (free_page fd l c p (ps ++ F) Hinv Ho) as (c1 & Ht & He & Ho1 & Hr1).
  destruct (IH c1 (evolves_inv fd l _ _ _ Hinv He) Ho1) as (c2 & Ht2 & He2 & Ho2 & Hr2). exists c2. split_and!.
  - cbn [foldl]. by rewrite <-Ht.
  - eapply evolves_trans; [exact He|exact He2|intros q Hq; find_in|done].
  - exact Ho2.
  - auto.
Qed.

Lemma visit_collect {P'} `{!Pager P'} h left c no items w (pager : P') :
  own_tree c h no items w → (h < left)%nat → agrees pager c w →
  ∃ L, visit_rec (λ pages no _, Ok (pages ++ [no])) left pager no [] = Ok L ∧ L ≡ₚ w.
Proof.
  intros Ht Hh Ha. destruct (visit_own (λ pages no _, Ok (pages ++ [no])) h left c no items w pager Ht Hh Ha) as (L & HL & Hp).
  exists (fst <$> L). split; [|exact Hp]. rewrite HL.
  enough (∀ st : list Z, res_fold (λ st e, Ok (st ++ [fst e])) st L = @Ok BTreeError _ (st ++ (fst <$> L))) as Hf by apply (Hf []).
  clear. induction L as [|[q k] L IH]; intros st; [by rewrite app_nil_r|]. cbn [res_fold fst mbind Res_bind fmap list_fmap].
  rewrite IH, <-app_assoc. reflexivity.
Qed.

Lemma free_tree_ok c h root items F :
  has_tree fd l c h root items F → (h < MAX_DEPTH)%nat →
  ∃ c', free_tree (c_store c) (c_txn c) root = Ok (c_txn c') ∧ evolves c c' F ∧ own c' ≡ₚ F ∧ ∀ n, room c n → room c' n.
Proof.
  intros [Hinv _ (w & Ht & Ho)] Hh.
  destruct (visit_collect h MAX_DEPTH c root items w (view c) Ht Hh) as (L & HL & Hp); [by intros q pg _|].
  destruct (free_pages L c F Hinv) as (c' & Htx & H); [by rewrite Hp|]. exists c'. split; [|exact H].
  unfold free_tree, visit_tree. change (mkView (c_store c) (c_txn c)) with (view c). rewrite HL. cbn [mbind Res_bind]. by rewrite Htx.
Qed.
End freeing.

(** * Scrubbing *)
Section scrubbing.
Context {X : Extern} {P : Type} `{!Pager P}.

(** A page that a walk reaches, intact: a node against its own trailer, a dense page against a cell
    that points at it, in a leaf the walk reaches too. *)
Definition intact (pager : P) (L : list (Z * PageType)) (e : Z * PageType) : Prop :=
  ∃ page, pager_read pager (fst e) = Ok page ∧
    match snd e with
    | PBitmap => ∃ no leaf lf cells cell, (no, PLeaf) ∈ L ∧ pager_read pager no = Ok leaf ∧ leaf_parse leaf = Ok lf ∧ leaf_cells lf = Ok cells ∧
        cell ∈ cells ∧ has_base cell = true ∧ lc_bitmap_pgno cell = fst e ∧ lc_bitmap_checksum cell = bitmap_page_checksum page
    | _ => verify_checksum page = Ok tt
    end.

Lemma intact_sub pager L L' e : L ⊆ L' → intact pager L e → intact pager L' e.
Proof.
  intros Hs (page & Hr & H). exists page. split; [exact Hr|]. destruct (snd e); try exact H.
  destruct H as (no & leaf & lf & cells & cell & Hin & H). exists no, leaf, lf, cells, cell. split; [by apply Hs|exact H].
Qed.

Definition note (L : list (Z * PageType)) (no : Z) (kind : PageType) : Res BTreeError (list (Z * PageType)) := Ok (L ++ [(no, kind)]).

(** The counts of a scrub against the pages of a walk. *)
Definition counts (r : Scrubbed) (L : list (Z * PageType)) : Prop :=
  scr_pages r = zlen (List.filter (λ e, negb (bool_decide (snd e = PBitmap))) L) ∧
  scr_bitmaps r = zlen (List.filter (λ e, bool_decide (snd e = PBitmap)) L).

Lemma counts_app r1 r2 a b : counts r1 a → counts r2 b → counts (scrubbed_add r1 r2) (a ++ b).
Proof.
  intros [H1 H2] [H3 H4]. split; cbn [scrubbed_add scr_pages scr_bitmaps]; rewrite List.filter_app; unfold zlen in *; rewrite length_app; lia.
Qed.

Lemma counts_total r L : counts r L → scrubbed_total r = zlen L.
Proof.
  intros [H1 H2]. unfold scrubbed_total. rewrite H1, H2. clear. induction L as [|e L IH]; [reflexivity|].
  cbn [List.filter]. unfold zlen in *. destruct (bool_decide _); cbn [negb length]; lia.
Qed.
Definition dense_intact (pager : P) (d : Z * Z) : Prop := ∃ page, pager_read pager (fst d) = Ok page ∧ bitmap_page_checksum page = snd d.

Lemma scrub_dense_fold pager ds r0 r :
  res_fold (scrub_dense pager) r0 ds = Ok r ↔
  r = mkScrubbed (scr_pages r0) (scr_bitmaps r0 + zlen ds) ∧ Forall (dense_intact pager) ds.
Proof.
  revert r0. induction ds as [|d ds IH]; intros [a b].
  { cbn [res_fold scr_pages scr_bitmaps]. unfold zlen. cbn [length]. rewrite Z.add_0_r. split; [intros [= <-]; by split|by intros [-> _]]. }
  cbn [res_fold]. rewrite bind_ok, Forall_cons. split.
  - intros (r1 & Hs & [-> Hf]%IH). unfold scrub_dense in Hs. apply bind_ok in Hs as (page & Hr%map_err_ok & Hs). cbn zeta in Hs.
    destruct (Z.eqb_spec (bitmap_page_checksum page) (snd d)) as [He|Hne]; [|discriminate]. injection Hs as <-. cbn [scr_pages scr_bitmaps].
    split; [unfold zlen; cbn [length]; f_equal; lia|]. split; [by exists page|exact Hf].
  - intros (-> & (page & Hr & He) & Hf). exists (mkScrubbed a (b + 1)). split.
    + unfold scrub_dense. rewrite Hr. cbn [from_store map_err mbind Res_bind]. by rewrite He, Z.eqb_refl.
    + apply IH. split; [|exact Hf]. cbn [scr_pages scr_bitmaps]. unfold zlen. cbn [length]. f_equal; lia.
Qed.

Lemma note_dense ds st : res_fold (λ st d, note st d PBitmap) st (map fst ds) = Ok (st ++ map (λ d : Z * Z, (fst d, PBitmap)) ds).
Proof.
  revert st. induction ds as [|d ds IH]; intros st; [by rewrite app_nil_r|]. cbn [map res_fold].
  change (note st (fst d) PBitmap) with (@Ok BTreeError _ (st ++ [(fst d, PBitmap)])). cbn [mbind Res_bind].
  rewrite IH, <-app_assoc. reflexivity.
Qed.

Lemma counts_dense r (ds : list (Z * Z)) : counts r (map (λ d, (fst d, PBitmap)) ds) ↔ r = mkScrubbed 0 (zlen ds).
Proof.
  unfold counts. assert (∀ b, zlen (List.filter (λ e : Z * PageType, if b : bool then bool_decide (snd e = PBitmap) else negb (bool_decide (snd e = PBitmap)))
    (map (λ d : Z * Z, (fst d, PBitmap)) ds)) = if b then zlen ds else 0) as H.
  { intros []; induction ds as [|d ds IH]; cbn [map List.filter snd]; try rewrite bool_decide_true by done; unfold zlen in *; cbn [negb length]; lia. }
  pose proof (H true) as H1. pose proof (H false) as H2. cbn iota in H1, H2. rewrite H1, H2. destruct r as [a b]. cbn. split; [by intros [-> ->]|by intros [= -> ->]].
Qed.

(** A scrub that returns has checked every page a walk reaches. *)
Lemma scrub_rec_checks left pager no r :
  scrub_rec left pager no = Ok r →
  ∃ L, (∀ st, visit_rec note left pager no st = Ok (st ++ L)) ∧ counts r L ∧ Forall (intact pager L) L.
Proof.
  revert no r. induction left as [|left IH]; intros no r H; [discriminate|]. cbn [scrub_rec] in H.
  apply bind_ok in H as (page & Hr%map_err_ok & H). apply bind_ok in H as ([] & Hv%map_err_ok & H).
  cbn zeta in H. apply bind_ok in H as (kind & Hk & H). apply bind_ok in H as ([children dense] & Hs & H).
  apply bind_ok in H as (r1 & [-> Hd]%scrub_dense_fold & H). cbn [scr_pages scr_bitmaps] in H. rewrite Z.add_0_l in H.
  assert (∃ L, (∀ st, res_fold (λ st ch, visit_rec note left pager ch st) st children = Ok (st ++ L)) ∧
    (∃ r2, counts r2 L ∧ r = scrubbed_add (mkScrubbed 1 (zlen dense)) r2) ∧ Forall (intact pager L) L) as (L & HL & (r2 & Hc & ->) & HiL).
  { clear Hs Hd Hv Hr Hk. revert H. generalize (mkScrubbed 1 (zlen dense)). induction children as [|ch children IHc]; intros r0 H.
    - injection H as <-. exists []. split; [intros st; cbn [res_fold]; by rewrite app_nil_r|]. split; [|constructor].
      exists (mkScrubbed 0 0). split; [by split|]. destruct r0. unfold scrubbed_add. cbn. by rewrite !Z.add_0_r.
    - cbn [res_fold] in H. apply bind_ok in H as (r1 & (rc & Hrc & [= <-])%bind_ok & H).
      destruct (IH _ _ Hrc) as (L1 & H1 & C1 & I1). destruct (IHc _ H) as (L2 & H2 & (r2 & C2 & ->) & I2). exists (L1 ++ L2). split_and!.
      + intros st. cbn [res_fold]. rewrite H1. cbn [mbind Res_bind]. by rewrite H2, app_assoc.
      + exists (scrubbed_add rc r2). split; [by apply counts_app|]. destruct r0, rc, r2. unfold scrubbed_add. cbn. by rewrite !Z.add_assoc.
      + apply Forall_app. split; (eapply Forall_impl; [eassumption|]; intros e; apply intact_sub; intros x Hx; find_in). }
  assert (∃ kind', shape pager no = Ok (kind', children, map fst dense) ∧ kind' ≠ PBitmap ∧
    (dense = [] ∨ ∃ lf cells, kind' = PLeaf ∧ leaf_parse page = Ok lf ∧ leaf_cells lf = Ok cells ∧ dense = dense_cells cells)) as (kind' & Hsh & Hkb & Hfrom).
  { unfold shape. rewrite Hr. cbn [from_store map_err mbind Res_bind]. rewrite Hk. cbn [mbind Res_bind]. destruct kind; try discriminate Hs.
    - apply bind_ok in Hs as (br & Hbr & Hs). apply bind_ok in Hs as (cells & Hc' & [= <- <-]). exists PBranch. rewrite Hbr. cbn [mbind Res_bind]. rewrite Hc'. split_and!; [reflexivity|done|by left].
    - apply bind_ok in Hs as (lf & Hlf & Hs). apply bind_ok in Hs as (cells & Hc' & [= <- <-]). exists PLeaf. rewrite Hlf. cbn [mbind Res_bind]. rewrite Hc'.
      split_and!; [reflexivity|done|right]. exists lf, cells. split_and!; [done|by apply map_err_ok in Hlf|by apply map_err_ok in Hc'|done]. }
  exists (L ++ map (λ d, (fst d, PBitmap)) dense ++ [(no, kind')]). split_and!.
  - intros st. cbn [visit_rec]. rewrite Hsh. cbn [mbind Res_bind]. rewrite HL. cbn [mbind Res_bind]. rewrite note_dense. cbn [mbind Res_bind].
    unfold note. by rewrite !app_assoc.
  - replace (scrubbed_add (mkScrubbed 1 (zlen dense)) r2) with (scrubbed_add r2 (scrubbed_add (mkScrubbed 0 (zlen dense)) (mkScrubbed 1 0))).
    2:{ destruct r2. unfold scrubbed_add. cbn [scr_pages scr_bitmaps]. f_equal; lia. }
    apply counts_app; [exact Hc|]. apply counts_app; [by apply counts_dense|]. unfold counts. cbn [List.filter snd].
    rewrite bool_decide_false by exact Hkb. done.
  - rewrite !Forall_app. split_and!.
    + eapply Forall_impl; [exact HiL|]. intros e. apply intact_sub. intros x Hx. find_in.
    + apply Forall_map. destruct Hfrom as [->|(lf & cells & -> & Hlf & Hcs & ->)]; [constructor|]. apply Forall_forall. intros [d crc] Hin.
      rewrite Forall_forall in Hd. destruct (Hd _ Hin) as (pg & Hpg & Hcrc). exists pg. split; [exact Hpg|]. cbn [fst snd].
      unfold dense_cells in Hin. apply list_elem_of_omap in Hin as (cell & Hcell & Hb). destruct (has_base cell) eqn:Eb; [|discriminate]. injection Hb as <- <-.
      exists no, page, lf, cells, cell. split_and!; [find_in|exact Hr|exact Hlf|exact Hcs|exact Hcell|exact Eb|reflexivity|by symmetry].
    + apply Forall_singleton. exists page. split; [exact Hr|]. cbn [snd]. by destruct kind'.
Qed.
End scrubbing.

(** * The nodes of an owned tree, read with their checksums *)
Section sealed.
Context {X : Extern} {P P' : Type} `{!Pager P, !Pager P'} (pager : P').
Implicit Types (c : Cfg P).

Lemma own_leaf_read c no items w :
  own_tree c 0 no items w → agrees pager c w →
  ∃ page lf cells, pager_read pager no = Ok page ∧ verify_checksum page = Ok tt ∧ page_kind page = Ok PLeaf ∧ leaf_parse page = Ok lf ∧
    leaf_cells lf = Ok cells ∧ items = map from_cell cells ∧ w = no :: bases items.
Proof.
  intros (cells & (page & lf & Hr & _ & Hty & Hp & Hc) & -> & _ & [_ (pg & Hpg & Hv)] & ->) Ha. exists page, lf, cells.
  assert (pg = page) as -> by (change (page_at c no = Ok page) in Hr; congruence).
  split_and!; [apply Ha; [by left|exact Hpg]|exact Hv|unfold page_kind; by rewrite Hty|exact Hp|exact Hc|reflexivity|reflexivity].
Qed.

Lemma own_branch_read c h no items w :
  own_tree c (S h) no items w → agrees pager c w →
  ∃ page br bs w', pager_read pager no = Ok page ∧ verify_checksum page = Ok tt ∧ page_kind page = Ok PBranch ∧ branch_parse page = Ok br ∧
    branch_cells br = Ok bs ∧ bs ≠ [] ∧ Z.of_nat (length bs) <= CAPACITY ∧ own_row c h bs items w' ∧ w = no :: w'.
Proof.
  intros (bs & w' & (page & br & Hr & _ & Hty & Hp & Hc) & Hne & [Hlen (pg & Hpg & Hv)] & Hrow & ->) Ha. exists page, br, bs, w'.
  assert (pg = page) as -> by (change (page_at c no = Ok page) in Hr; congruence).
  split_and!; [apply Ha; [by left|exact Hpg]|exact Hv|unfold page_kind; by rewrite Hty|exact Hp|exact Hc|exact Hne|exact Hlen|exact Hrow|reflexivity].
Qed.

(** The dense pages of items that stand for containers have the checksums the cells carry. *)
Lemma holds_dense_intact c cells kcs w :
  holds c (map from_cell cells) kcs → bases (map from_cell cells) ⊆ w → agrees pager c w → Forall (dense_intact pager) (dense_cells cells).
Proof.
  intros Hh Hb Ha. apply Forall_forall. intros [d crc] Hin. unfold dense_cells in Hin. apply list_elem_of_omap in Hin as (cell & Hcell & Hd).
  destruct (has_base cell) eqn:Eb; [|discriminate]. injection Hd as <- <-.
  assert (from_cell cell ∈ map from_cell cells) as Hit by (by apply list_elem_of_fmap_2).
  destruct (list_elem_of_lookup_1 _ _ Hit) as (i & Hi). destruct (Forall2_lookup_l _ _ _ _ _ Hh Hi) as (e & _ & Hs).
  assert (base_pgno (from_cell cell) = Some (lc_bitmap_pgno cell)) as Hbp.
  { unfold base_pgno, is_dense. change (li_ty (from_cell cell)) with (lc_ty cell). unfold has_base in Eb. by rewrite Eb. }
  destruct (sf_base _ _ _ _ Hs _ Hbp) as (page & Hr & _ & Hck). exists page. split; [|exact Hck].
  apply Ha; [|exact Hr]. apply Hb, elem_of_bases. exists (from_cell cell). by split.
Qed.

(** A tree that stands for containers scrubs clean, and the scrub counts its pages. *)
Lemma scrub_rec_clean h left c no items w kcs :
  own_tree c h no items w → holds c items kcs → (h < left)%nat → agrees pager c w →
  ∃ r, scrub_rec left pager no = Ok r ∧ scrubbed_total r = zlen w.
Proof.
  revert left no items w kcs. induction h as [|h IH]; intros [|left] no items w kcs Ht Hh Hl Ha; try lia.
  - destruct (own_leaf_read _ _ _ _ Ht Ha) as (page & lf & cells & Hr & Hv & Hk & Hp & Hc & -> & ->).
    assert (Forall (dense_intact pager) (dense_cells cells)) as Hd by (eapply holds_dense_intact; [exact Hh| |exact Ha]; intros q Hq; find_in).
    exists (mkScrubbed 1 (zlen (dense_cells cells))). split.
    + cbn [scrub_rec]. rewrite Hr. cbn [from_store map_err mbind Res_bind]. rewrite Hv. cbn [from_page map_err mbind Res_bind].
      rewrite Hk. cbn [mbind Res_bind]. rewrite Hp. cbn [from_page map_err mbind Res_bind]. rewrite Hc. cbn [from_page map_err mbind Res_bind].
      assert (res_fold (scrub_dense pager) (mkScrubbed 1 0) (dense_cells cells) = Ok (mkScrubbed 1 (zlen (dense_cells cells)))) as Hf
        by (apply scrub_dense_fold; split; [reflexivity|exact Hd]).
      rewrite Hf. reflexivity.
    + unfold scrubbed_total, zlen. cbn [scr_pages scr_bitmaps length]. rewrite <-dense_bases, length_map. lia.
  - destruct (own_branch_read _ _ _ _ _ Ht Ha) as (page & br & bs & w' & Hr & Hv & Hk & Hp & Hc & _ & _ & Hrow & ->).
    assert (∀ r0, ∃ r, res_fold (λ found ch, f ← scrub_rec left pager ch; Ok (scrubbed_add found f)) r0 (map bc_child bs) = Ok r ∧
      scrubbed_total r = scrubbed_total r0 + zlen w') as Hrec.
    { assert (agrees pager c w') as Ha' by (eapply agrees_sub; [exact Ha|intros q Hq; by right]). clear - Hrow Hh IH Hl Ha'.
      revert kcs Hh. induction Hrow as [|b bs its items v ws _ _ Ht _ IHl]; intros kcs Hh r0; [exists r0; split; [reflexivity|unfold zlen; cbn; lia]|].
      apply Forall2_app_inv_l in Hh as (k1 & k2 & Hh1 & Hh2 & ->).
      destruct (IH left (bc_child b) its v k1 Ht Hh1) as (r1 & H1 & T1); [lia|eapply agrees_sub; [exact Ha'|intros q Hq; find_in]|].
      destruct (IHl ltac:(eapply agrees_sub; [exact Ha'|intros q Hq; find_in]) k2 Hh2 (scrubbed_add r0 r1)) as (r2 & H2 & T2).
      exists r2. split; [cbn [map res_fold]; rewrite H1; exact H2|]. rewrite T2. unfold scrubbed_total, scrubbed_add, zlen in *.
      cbn [scr_pages scr_bitmaps] in *. rewrite length_app. lia. }
    destruct (Hrec (mkScrubbed 1 0)) as (r & Hf & Htot). exists r. split.
    + cbn [scrub_rec]. rewrite Hr. cbn [from_store map_err mbind Res_bind]. rewrite Hv. cbn [from_page map_err mbind Res_bind].
      rewrite Hk. cbn [mbind Res_bind]. rewrite Hp. cbn [from_page map_err mbind Res_bind]. rewrite Hc. cbn [from_page map_err mbind Res_bind res_fold].
      exact Hf.
    + rewrite Htot. unfold scrubbed_total, zlen. cbn [scr_pages scr_bitmaps length]. lia.
Qed.
End sealed.

(** * Copying *)
Section copying.
Context {X : Extern} {L : ExternLaws X} {P P' D : Type} `{!Pager P, !Pager P', !Pager D, !PagerMut D} (fd : Freelist) (l : Layout) (src : P').
Implicit Types (c : Cfg P) (d : Cfg D).

(** Copying changes where an item's page is and nothing else. *)
Definition same_but_page (a b : LeafItem) : Prop := ∃ no, b = with_bitmap_pgno a no.

Lemma same_refl a : same_but_page a a.
Proof. exists (li_bitmap_pgno a). by destruct a. Qed.

Lemma copied_stands c d it key k page new :
  stands_for c it key k → is_dense it = true → page_at c (li_bitmap_pgno it) = Ok page → page_at d new = Ok page → 0 <= new < 2 ^ 32 →
  stands_for d (with_bitmap_pgno it new) key k.
Proof.
  intros [(Hst & Hpl) Hk Hcd Hw (k' & Hw' & Hm & Hres) Hb Hdl] Hd Hc Hr Hnew.
  assert (base_pgno it = Some (li_bitmap_pgno it)) as Hbp by (unfold base_pgno; by rewrite Hd).
  assert (base_pgno (with_bitmap_pgno it new) = Some new) as Hbp' by (unfold base_pgno, is_dense in *; cbn [with_bitmap_pgno li_ty li_bitmap_pgno]; by rewrite Hd).
  split; [|exact Hk|exact Hcd|exact Hw| | |exact Hdl].
  - split; [|exact Hpl]. destruct Hst as (H1 & H2 & H3 & H4 & _ & H6). exact (conj H1 (conj H2 (conj H3 (conj H4 (conj Hnew H6))))).
  - exists k'. split; [exact Hw'|]. split; [exact Hm|]. intros start Hs. specialize (Hres start Hs).
    unfold item_base in *. rewrite Hbp, Hc in Hres. rewrite Hbp', Hr. exact Hres.
  - intros no Hno. rewrite Hbp' in Hno. injection Hno as <-. destruct (Hb _ Hbp) as (pg & Hpg & Hok & Hck).
    assert (pg = page) as -> by congruence. exists page. by split_and!.
Qed.

Lemma inline_stands_any c d it key k : stands_for c it key k → is_dense it = false → stands_for d it key k.
Proof.
  intros [H1 H2 H3 H4 H5 H6 H7] Hd. assert (base_pgno it = None) as Hbp by (unfold base_pgno; by rewrite Hd).
  split; [done..| | |exact H7].
  - unfold item_base in *. by rewrite Hbp in *.
  - intros no Hno. by rewrite Hbp in Hno.
Qed.

Lemma copy_items_ok items c d kcs w n :
  holds c items kcs → bases items ⊆ w → agrees src c w → txn_inv fd l d → room d n → zlen (bases items) <= n →
  ∃ items' d', copy_items src (c_store d) (c_txn d) items = Ok (items', c_txn d') ∧ took d d' [] (bases items') ∧
    room d' (n - zlen (bases items)) ∧ holds d' items' kcs ∧ Forall2 same_but_page items items' ∧ length (bases items') = length (bases items).
Proof.
  intros Hh. revert d n. induction Hh as [|it e items kcs Hs _ IH]; intros d n Hb Ha Hinv Hr Hn.
  { exists [], d. split; [reflexivity|]. split; [apply took_refl|]. unfold zlen in *. cbn [bases omap list_omap length] in *. rewrite Z.sub_0_r.
    split; [exact Hr|]. split; [constructor|]. by split. }
  change (it :: items) with ([it] ++ items) in Hb, Hn. rewrite bases_app in Hb, Hn.
  assert (bases items ⊆ w) as Hb2 by (intros q Hq; apply Hb; find_in).
  cbn [copy_items]. destruct (is_dense it) eqn:Ed.
  - assert (base_pgno it = Some (li_bitmap_pgno it)) as Hbp by (unfold base_pgno; by rewrite Ed).
    assert (bases [it] = [li_bitmap_pgno it]) as Hb1 by (unfold bases; cbn; by rewrite Hbp).
    destruct (sf_base _ _ _ _ Hs _ Hbp) as (page & Hpg & Hok & Hck). rewrite Hb1 in Hn, Hb. unfold zlen in Hn. cbn [app length] in Hn.
    destruct (take_page fd l d n (λ _, page) Hinv Hr ltac:(lia)) as (new & t1 & d1 & Hal & Hnew & Hwr & He & Hr1 & Ho1 & Hp1).
    destruct (IH d1 (n - 1) Hb2 Ha (evolves_inv fd l _ _ _ Hinv He) Hr1 ltac:(unfold zlen; lia)) as (items' & d' & Hci & Htk & Hr' & Hh' & Hsame & Hlen).
    exists (with_bitmap_pgno it new :: items'), d'. change (with_bitmap_pgno it new :: items') with ([with_bitmap_pgno it new] ++ items').
    change (it :: items) with ([it] ++ items).
    assert (bases [with_bitmap_pgno it new] = [new]) as Hbn by (unfold bases, base_pgno, is_dense in *; cbn; by rewrite Ed).
    rewrite !bases_app, Hbn, Hb1. split_and!.
    + unfold copy_bitmap. rewrite (Ha _ _ (Hb _ ltac:(left)) Hpg). cbn [from_store map_err mbind Res_bind]. rewrite Hck, Z.eqb_refl. cbn [negb].
      unfold b_alloc, b_write. rewrite Hal. cbn [from_store map_err mbind Res_bind]. rewrite Hwr. cbn [from_store map_err mbind Res_bind].
      rewrite <-(ev_store _ _ _ He), Hci. reflexivity.
    + eapply took_trans; [split; [exact He|exists [new]; split; [reflexivity|exact Ho1]]|].
      apply (took_perm _ _ ([] ++ [new]) _ (bases items' ++ [new])); [done|apply Permutation_app_comm|]. by apply took_frame.
    + unfold zlen in *. cbn [app length]. replace (n - Z.of_nat (S (length (bases items)))) with (n - 1 - Z.of_nat (length (bases items))) by lia. exact Hr'.
    + constructor; [|exact Hh']. eapply copied_stands; [exact Hs|exact Ed|exact Hpg| |exact Hnew].
      rewrite (took_reads _ _ _ _ new Htk); [exact Hp1|rewrite Ho1; by left].
    + constructor; [by exists new|exact Hsame].
    + cbn [app length]. by rewrite Hlen.
  - assert (∀ x, bases [it] ++ x = x) as Hb1 by (intros x; unfold bases, base_pgno; cbn; by rewrite Ed). rewrite Hb1 in Hn.
    destruct (IH d n Hb2 Ha Hinv Hr Hn) as (items' & d' & Hci & Htk & Hr' & Hh' & Hsame & Hlen). exists (it :: items'), d'.
    change (it :: items') with ([it] ++ items'). change (it :: items) with ([it] ++ items). rewrite !bases_app, !Hb1. split_and!; [|exact Htk|exact Hr'| | |exact Hlen].
    + cbn [mbind Res_bind]. rewrite Hci. reflexivity.
    + constructor; [by eapply inline_stands_any|exact Hh'].
    + constructor; [apply same_refl|exact Hsame].
Qed.
Lemma fill_same items items' b b' rest :
  Forall2 same_but_page items items' → zlen (lb_cells b) = zlen (lb_cells b') → lb_payload_bytes b = lb_payload_bytes b' →
  fill_leaf b items = (rest, []) → ∃ rest', fill_leaf b' items' = (rest', []).
Proof.
  intros Hs. revert b b'. induction Hs as [|it it' items items' (no & ->) _ IH]; intros b b' Hz Hp Hf; [by exists b'|].
  cbn [fill_leaf] in *. unfold push_into, leaf_push, leaf_fits in *. cbn [item_staged with_bitmap_pgno sc_payload li_payload] in *. rewrite <-Hz, <-Hp.
  destruct (negb _); [discriminate|]. eapply IH; [| |exact Hf]; cbn [lb_cells lb_payload_bytes]; [|reflexivity].
  unfold zlen in *. rewrite !length_app. cbn [length]. lia.
Qed.

Lemma same_fit items items' : Forall2 same_but_page items items' → leaf_fit items → leaf_fit items'.
Proof. intros Hs (b & Hb). unfold leaf_fit. by eapply fill_same. Qed.

Lemma leaf_fit_builder items :
  leaf_fit items → ∃ b, fill_leaf leaf_new items = (b, []) ∧ builder_ok b ∧ lb_cells b = item_staged <$> items.
Proof.
  intros (b & Hf). destruct (fill_leaf_spec leaf_new items builder_ok_new) as (taken & rest & b' & Hf' & Heq & Hok & Hc).
  rewrite Hf in Hf'. injection Hf' as <- <-. rewrite app_nil_r in Heq. subst taken. exists b. by split_and!.
Qed.

Lemma stands_keys {Q} `{!Pager Q} (c : Cfg Q) items kcs : holds c items kcs → li_key <$> items = fst <$> kcs.
Proof. induction 1 as [|it e items kcs Hs _ IH]; [reflexivity|]. cbn [fmap list_fmap]. f_equal; [apply Hs|exact IH]. Qed.

(** A copy of one subtree: the pages taken are the pages of the copy, as many as there were. *)
Definition copied d d' (h : nat) (new : Z) (kcs : list (Z * Container)) (w : list Z) : Prop :=
  ∃ items' w', took d d' [] w' ∧ own_tree d' h new items' w' ∧ holds d' items' kcs ∧ length w' = length w.

Lemma copy_leaf_ok c d no items w kcs n left :
  own_tree c 0 no items w → holds c items kcs → agrees src c w → txn_inv fd l d → room d n → zlen w <= n →
  ∃ new d', copy_rec src (c_store d) (S left) (c_txn d) no = Ok (new, c_txn d') ∧ copied d d' 0 new kcs w ∧ room d' (n - zlen w) ∧ 0 <= new < 2 ^ 32.
Proof.
  intros Ht Hh Ha Hinv Hr Hn. pose proof Ht as (_ & _ & _ & _ & [Hfit _] & _).
  destruct (own_leaf_read src _ _ _ _ Ht Ha) as (page & lf & cells & Hrd & Hv & Hk & Hp & Hc & Hit & ->).
  assert (zlen (no :: bases items) = 1 + zlen (bases items)) as Hz by (unfold zlen; cbn [length]; lia). rewrite Hz in Hn.
  destruct (copy_items_ok items c d kcs (no :: bases items) n Hh ltac:(intros q Hq; by right) Ha Hinv Hr ltac:(lia)) as (items' & d1 & Hci & Htk & Hr1 & Hh1 & Hsame & Hlen).
  destruct (leaf_fit_builder items' (same_fit _ _ Hsame Hfit)) as (b & Hf & Hbo & Hbc).
  destruct (leaf_written fd l d1 _ items' b (took_inv fd l _ _ _ _ Hinv Htk) Hr1 ltac:(lia) Hbo Hf Hbc (holds_items_ok _ _ _ Hh1))
    as (new & t1 & d2 & pg & Hal & Hfin & Hwr & Hr2 & Htk2 & Hnew & Ht2).
  exists new, d2. split_and!; [| |rewrite Hz; by replace (n - (1 + zlen (bases items))) with (n - zlen (bases items) - 1) by lia|exact (proj1 Hnew)|exact (proj2 Hnew)].
  - cbn [copy_rec]. unfold read_node. rewrite Hrd. cbn [from_store map_err mbind Res_bind]. rewrite Hv. cbn [from_page map_err mbind Res_bind].
    rewrite Hk. cbn [mbind Res_bind]. rewrite Hp. cbn [from_page map_err mbind Res_bind]. rewrite Hc. cbn [from_page map_err mbind Res_bind].
    rewrite <-Hit, Hci. cbn [mbind Res_bind]. rewrite Hf. cbn [mbind Res_bind]. unfold b_alloc, b_write. rewrite <-(took_store _ _ _ _ Htk), Hal.
    cbn [from_store map_err mbind Res_bind]. rewrite Hfin. cbn [from_page map_err mbind Res_bind]. rewrite Hwr. reflexivity.
  - exists items', (new :: bases items'). split_and!; [by eapply took_trans|exact Ht2| |cbn [length]; by rewrite Hlen].
    eapply holds_keep; [|exact Hh1]. intros q Hq. apply (took_reads _ _ _ _ q Htk2), (took_sub _ _ _ _ Htk); [|exact Hq]. intros x Hx. by apply not_elem_of_nil in Hx.
Qed.
Definition copies (h left : nat) : Prop := ∀ c d no items w kcs n,
  own_tree c h no items w → holds c items kcs → agrees src c w → txn_inv fd l d → room d n → zlen w <= n →
  ∃ new d', copy_rec src (c_store d) left (c_txn d) no = Ok (new, c_txn d') ∧ copied d d' h new kcs w ∧ room d' (n - zlen w) ∧ 0 <= new < 2 ^ 32.

Lemma copy_cells_ok h left c bs items w (no : Z) :
  copies h left → own_row c h bs items w → agrees src c w → ∀ kcs d n acc, holds c items kcs → txn_inv fd l d → room d n → zlen w <= n →
  Z.of_nat (length acc + length bs) <= CAPACITY →
  ∃ bs' items' w' d', copy_cells (copy_rec src (c_store d) left) no (c_txn d) acc bs = Ok (acc ++ bs', c_txn d') ∧ took d d' [] w' ∧
    own_row d' h bs' items' w' ∧ holds d' items' kcs ∧ length w' = length w ∧ length bs' = length bs ∧ room d' (n - zlen w).
Proof.
  intros Hcp Hrow Ha. induction Hrow as [|b bs its items v ws Hbo Hfk Ht _ IH]; intros kcs d n acc Hh Hinv Hr Hn Hlen.
  { inversion Hh; subst. exists [], [], [], d. split; [cbn [copy_cells]; by rewrite app_nil_r|]. split; [apply took_refl|]. split; [constructor|].
    split; [constructor|]. split; [reflexivity|]. split; [reflexivity|]. unfold zlen. cbn [length]. by rewrite Z.sub_0_r. }
  apply Forall2_app_inv_l in Hh as (k1 & k2 & Hh1 & Hh2 & ->). assert (zlen (v ++ ws) = zlen v + zlen ws) as Hz by (unfold zlen; rewrite length_app; lia).
  assert (0 <= zlen ws ∧ 0 <= zlen v) as Hpos by (unfold zlen; lia). rewrite Hz in Hn.
  destruct (Hcp c d (bc_child b) its v k1 n Ht Hh1 ltac:(eapply agrees_sub; [exact Ha|intros q Hq; find_in]) Hinv Hr ltac:(lia))
    as (new & d1 & Hc1 & (its' & v' & Htk1 & Ht1 & Hk1 & Hl1) & Hr1 & Hnew).
  pose proof (took_inv fd l _ _ _ _ Hinv Htk1) as Hinv1.
  assert (∀ q, q ∈ v' → q ∈ own d1) as Hown1.
  { intros q Hq. apply (took_sub _ _ _ _ Htk1); [|exact Hq]. intros x Hx. by apply not_elem_of_nil in Hx. }
  cbn [length] in Hlen.
  destruct (IH ltac:(eapply agrees_sub; [exact Ha|intros q Hq; find_in]) k2 d1 (n - zlen v) (acc ++ [mkBranchCell (bc_key b) (bc_flags b) new]) Hh2 Hinv1 Hr1 ltac:(lia)
    ltac:(rewrite length_app; cbn [length]; lia)) as (bs' & items' & w' & d2 & Hc2 & Htk2 & Hrow2 & Hk2 & Hl2 & Hlb & Hr2).
  assert (∀ q, q ∈ v' → page_at d2 q = page_at d1 q) as Hkeep by (intros q Hq; apply (took_reads _ _ _ _ q Htk2), Hown1, Hq).
  exists (mkBranchCell (bc_key b) (bc_flags b) new :: bs'), (its' ++ items'), (v' ++ w'), d2. split_and!.
  - cbn [copy_cells]. rewrite Hc1. cbn [mbind Res_bind]. unfold branch_push. destruct (Z.ltb_spec (Z.of_nat (length acc)) CAPACITY) as [_|]; [|lia].
    cbn [ok_or mbind Res_bind]. rewrite <-(took_store _ _ _ _ Htk1), Hc2, <-app_assoc. reflexivity.
  - eapply took_trans; [exact Htk1|]. apply (took_perm _ _ ([] ++ v') _ (w' ++ v')); [done|apply Permutation_app_comm|]. by apply took_frame.
  - constructor; [| |exact (own_tree_keep _ _ _ _ _ _ Hkeep Ht1)|exact Hrow2].
    + destruct Hbo as (H1 & H2 & _). exact (conj H1 (conj H2 Hnew)).
    + cbn [bc_key]. rewrite <-Hfk. pose proof (stands_keys _ _ _ Hh1) as E1. pose proof (stands_keys _ _ _ Hk1) as E2. rewrite <-E1 in E2.
      destruct its', its; cbn [fmap list_fmap] in E2; try discriminate E2; [reflexivity|]. injection E2 as E2 _. cbn [head fmap option_fmap option_map]. by rewrite E2.
  - apply Forall2_app; [|exact Hk2]. eapply holds_keep; [|exact Hk1]. intros q Hq. apply Hkeep, (own_tree_bases _ _ _ _ _ Ht1), Hq.
  - rewrite !length_app. lia.
  - cbn [length]. by rewrite Hlb.
  - rewrite Hz. replace (n - (zlen v + zlen ws)) with (n - zlen v - zlen ws) by lia. exact Hr2.
Qed.

Lemma copy_rec_ok h left : (h < left)%nat → copies h left.
Proof.
  revert left. induction h as [|h IH]; intros [|left] Hlt; try lia; intros c d no items w kcs n Ht Hh Ha Hinv Hr Hn; [by eapply copy_leaf_ok|].
  destruct (own_branch_read src _ _ _ _ _ Ht Ha) as (page & br & bs & w' & Hrd & Hv & Hk & Hp & Hc & Hne & Hcap & Hrow & ->).
  assert (zlen (no :: w') = 1 + zlen w') as Hz by (unfold zlen; cbn [length]; lia). rewrite Hz in Hn.
  destruct (copy_cells_ok h left c bs items w' no (IH left ltac:(lia)) Hrow ltac:(eapply agrees_sub; [exact Ha|intros q Hq; find_in]) kcs d n [] Hh Hinv Hr ltac:(lia) Hcap)
    as (bs' & items' & v & d1 & Hcc & Htk & Hrow1 & Hh1 & Hl1 & Hlb & Hr1). rewrite app_nil_l in Hcc.
  assert (v ⊆ own d1) as Hown1 by (apply (took_sub _ _ _ _ Htk); intros x Hx; by apply not_elem_of_nil in Hx).
  destruct (branch_written fd l d1 (n - zlen w') h bs' items' v (took_inv fd l _ _ _ _ Hinv Htk) Hr1 ltac:(lia)) as
    (first & new & t1 & d2 & pg & _ & Hal & Hfin & Hwr & Hr2 & Htk2 & Hin & Hrow2); [|by rewrite Hlb|exact Hown1|exact Hrow1|].
  { intros ->. destruct bs; [by apply Hne|discriminate Hlb]. }
  pose proof (level_cells_ok _ _ _ _ Hrow2) as (_ & _ & Hnew)%Forall_inv. apply level_one in Hrow2.
  exists new, d2. split_and!; [| |rewrite Hz; by replace (n - (1 + zlen w')) with (n - zlen w' - 1) by lia|exact (proj1 Hnew)|exact (proj2 Hnew)].
  - cbn [copy_rec]. unfold read_node. rewrite Hrd. cbn [from_store map_err mbind Res_bind]. rewrite Hv. cbn [from_page map_err mbind Res_bind].
    rewrite Hk. cbn [mbind Res_bind]. rewrite Hp. cbn [from_page map_err mbind Res_bind]. rewrite Hc. cbn [from_page map_err mbind Res_bind].
    rewrite Hcc. cbn [mbind Res_bind]. unfold b_alloc, b_write. rewrite <-(took_store _ _ _ _ Htk), Hal.
    cbn [from_store map_err mbind Res_bind]. rewrite Hfin. cbn [from_page map_err mbind Res_bind]. rewrite Hwr. reflexivity.
  - exists items', (new :: v). split_and!; [by eapply took_trans|exact Hrow2| |cbn [length]; by rewrite Hl1].
    eapply holds_keep; [|exact Hh1]. intros q Hq. apply (took_reads _ _ _ _ q Htk2), Hown1, (own_row_bases _ _ _ _ _ Hrow1), Hq.
Qed.

Lemma holds_order_iff {Q} `{!Pager Q} (c : Cfg Q) items kcs : holds c items kcs → items_in_order items ↔ entries_in_order kcs.
Proof.
  intros Hh. pose proof (stands_keys c items kcs Hh) as He. unfold items_in_order, entries_in_order.
  assert (∀ {A} (f : A → Z) (xs : list A), StronglySorted (λ a b, f a < f b) xs ↔ StronglySorted Z.lt (f <$> xs)) as Hs.
  { intros A f xs. induction xs as [|x xs IHx]; [by split; constructor|]. cbn [fmap list_fmap]. split; inversion 1; subst; constructor.
    - by apply IHx. - by apply Forall_fmap. - by apply IHx. - exact (proj1 (Forall_fmap f (Z.lt (f x)) xs) H3). }
  by rewrite (Hs _ li_key), (Hs _ fst), He.
Qed.

(** The whole copy, in the transaction of the destination. *)
Lemma copy_tree_ok c h root items w kcs d :
  own_tree c h root items w → items_in_order items → holds c items kcs → (h < MAX_DEPTH)%nat → agrees src c w → txn_inv fd l d → room d (zlen w) →
  ∃ new d' items' w', copy_tree src (c_store d) (c_txn d) root = Ok (new, c_txn d') ∧ evolves d d' (own d) ∧
    own d' ≡ₚ w' ++ own d ∧ length w' = length w ∧ has_tree fd l d' h new items' (own d) ∧ holds d' items' kcs.
Proof.
  intros Ht Ho Hh Hd Ha Hinv Hr.
  destruct (copy_rec_ok h MAX_DEPTH Hd c d root items w kcs (zlen w) Ht Hh Ha Hinv Hr (Z.le_refl _)) as (new & d' & Hc & (items' & w' & Htk & Ht' & Hh' & Hl) & _).
  pose proof (took_own d d' [] w' (own d) Htk ltac:(reflexivity)) as Hown. exists new, d', items', w'.
  split; [exact Hc|]. split; [apply Htk|]. split; [exact Hown|]. split; [exact Hl|]. split; [|exact Hh']. split.
  - by eapply took_inv.
  - apply (holds_order_iff d' items' kcs Hh'), (holds_order_iff c items kcs Hh), Ho.
  - exists w'. by split.
Qed.
End copying.
