(* ===== verification/BTreeSpec.v ===== *)
(** What the b-tree promises: a tree is the ordered map of its items; every reader answers for that
    map, and every mutation is an operation on it (crates/big-btree). *)
From S2P Require Import Prelude Bits Search Container Optimize Delta Page Sample Leaf Branch Chain Meta Freelist Snapshot Roots Pager Store Crash SampleStore Txn Durable BTree BTreeWrite BTreeOwn BTreeBuild BTreeItem BTreeEdit BTreePut BTreeShow.

(** Point lookup.  [find] returns the cell of the key, and [None] when there is none - at any
    key, in a tree of any height the depth limit allows. *)
Theorem btree_find {P} `{!Pager P} (pager : P) root cells ckey :
  tree_of pager root cells →
  ∃ r, find pager root ckey = Ok r ∧
    match cell_of cells ckey with Some c => ∃ hit, r = Some hit ∧ found_cell hit = Ok c | None => r = None end.
Proof. intros [(h & Hh & Ht) Ho _]. by eapply find_ok. Qed.

(** Many keys in one pass.  [find_many] over ascending keys, which re-descends only when a key
    leaves the leaf at hand, calls back exactly as one lookup per key would, and stops at the first
    error the callback returns. *)
Theorem btree_find_many {P} `{!Pager P} {S} (f : S → Z → option LeafCell → Res BTreeError S) (pager : P) root cells keys st :
  tree_of pager root cells → ascending keys → find_many f pager root keys st = answer f cells st keys.
Proof. intros [(h & Hh & Ht) Ho _] Hk. by eapply find_many_ok. Qed.

(** Range scan.  [scan] visits the cells of the range, each once and in key order, until the
    callback says stop; [collect] is every cell and [count] the sum of their cardinalities. *)
Theorem btree_scan {P} `{!Pager P} {S} (f : S → LeafCell → S * bool) (pager : P) root cells lo hi st :
  tree_of pager root cells →
  scan f pager root lo hi st = Ok (fst (visit f st (in_range lo hi cells))) ∧
  collect pager root = Ok (from_cell <$> cells) ∧
  count pager root = Ok (foldr Z.add 0 (lc_cardinality <$> cells) mod 2 ^ 64).
Proof.
  intros [(h & Hh & Ht) Ho Hk]. split_and!; [by eapply scan_ok|by eapply collect_ok|by eapply count_ok].
Qed.

Section mutations.
Context {X : Extern} {L : ExternLaws X} {P : Type} `{!Pager P, !PagerMut P} (fd : Freelist) (l : Layout).
Implicit Types (c : Cfg P).

Lemma view_agrees c w : agrees (view c) c w.
Proof. by intros q pg _ H. Qed.

Lemma own_tree_collect c h root items w :
  own_tree c h root items w → items_in_order items → (h < MAX_DEPTH)%nat → collect (view c) root = Ok items.
Proof.
  intros Ht Ho Hh. destruct (own_tree_of (view c) c h root items w Ht Ho Hh (view_agrees c w)) as (cells & <- & [(h' & Hh' & Ht') H8 H9] & _).
  apply (collect_ok (view c) h' root cells Ht' H8 Hh' H9).
Qed.

(** Building.  Any items in key order build, given room for twice their number of pages, into
    a tree of at most five levels.  What was done is a run of the transaction's own steps; the pages
    of the tree are its new nodes and the pages the items brought, no page already owned has changed,
    and reading the tree back through the transaction gives the same items. *)
Theorem btree_build c items :
  txn_inv fd l c → Forall item_ok items → items_in_order items → bases items ⊆ own c → room c (2 * Z.of_nat (length items) + 1) →
  ∃ root c' h w, build (c_store c) (c_txn c) items = Ok (root, c_txn c') ∧ evolves c c' (own c) ∧
    (∃ ps, w ≡ₚ ps ++ bases items ∧ own c' ≡ₚ ps ++ own c) ∧
    (h <= 4)%nat ∧ own_tree c' h root items w ∧ collect (view c') root = Ok items.
Proof.
  intros Hinv Hi Ho Hb Hr. destruct (build_tree fd l c items _ Hinv Hi Hb Hr ltac:(lia)) as (root & c' & w & h & H1 & [H2 H3] & H4 & H5 & _).
  exists root, c', h, w. split_and!; [exact H1|exact H2|exact H3|exact H4|exact H5|].
  eapply own_tree_collect; [exact H5|exact Ho|unfold MAX_DEPTH; lia].
Qed.

(** What a container becomes.  The item the write path makes of a container - inline, on a
    page of its own, or as the few bits changed since the page it is on - resolves, from wherever in
    a leaf it is put, to a container of the same set; and it costs at most one page. *)
Theorem item_stands_for_container c key k base :
  wf k → 0 <= key < 2 ^ 64 → txn_inv fd l c → room c 1 → base_ok c base →
  ∃ it c', make_item_over (c_store c) (c_txn c) key k base = Ok (it, c_txn c') ∧ item_took c c' it base ∧ stands_for c' it key k.
Proof.
  intros Hw Hk Hinv Hr Hb. destruct (make_item_ok fd l c key k base 1 Hw Hk Hinv Hr ltac:(lia) Hb) as (it & c' & H1 & H2 & _ & H3). eauto.
Qed.

(** A tree, or none yet, beside the pages [F]. *)
Definition has_root c (h : nat) (root : option Z) (items : list LeafItem) (F : list Z) : Prop :=
  match root with
  | Some r => has_tree fd l c h r items F
  | None => txn_inv fd l c ∧ items = [] ∧ h = 0%nat ∧ own c ≡ₚ F
  end.

Lemma put_containers_refines c h root items kcs pending F :
  has_root c h root items F → holds c items kcs → Forall entry_ok pending → entries_in_order pending →
  room c (34 * 454 * Z.of_nat (length pending) + 1) →
  (∃ root' c' h' items', put_containers (c_store c) (c_txn c) root pending = Ok (root', c_txn c') ∧ evolves c c' F ∧
     has_tree fd l c' h' root' items' F ∧ holds c' items' (foldl put_entry kcs pending) ∧ (h' <= h + length pending + 4)%nat ∧
     ((h' < MAX_DEPTH)%nat → shows (view c') root' (foldl put_entry kcs pending))) ∨
  ((MAX_DEPTH < h + length pending)%nat ∧ ∃ r, put_containers (c_store c) (c_txn c) root pending = Err (BTooDeep r)).
Proof.
  intros Hht Hh Hok Ho Hr. destruct root as [root|].
  - destruct (put_containers_loop_ok fd l (length pending) c h root items kcs pending F _ Hht Hh Hok Ho (Nat.le_refl _) Hr ltac:(lia))
      as [(root' & c' & h' & items' & H1 & H2 & H3 & H4 & H5 & _)|H]; [left|right; exact H].
    exists root', c', h', items'. split_and!; [exact H1|exact H2|exact H3|exact H4|lia|].
    intros Hd. eapply has_tree_shows; [exact H3|exact Hd|exact H4|intros w _; apply view_agrees].
  - destruct Hht as (Hinv & -> & -> & Hown). inversion Hh; subst. left.
    destruct (put_containers_new fd l c pending _ Hinv Hok Ho Hr ltac:(lia)) as (root' & c' & h' & items' & H1 & H2 & [T1 T2 (w & T3 & T4)] & H4 & H5 & _).
    rewrite (fold_entry_nil pending Ho).
    assert (has_tree fd l c' h' root' items' F) as Hht by (split; [exact T1|exact T2|exists w; split; [exact T3|by rewrite T4, Hown]]).
    exists root', c', h', items'. split_and!; [exact H1| |exact Hht|exact H4|lia|].
    + eapply evolves_sub; [exact H2|]. intros q Hq. by rewrite Hown.
    + intros Hd. eapply has_tree_shows; [exact Hht|exact Hd|exact H4|intros w' _; apply view_agrees].
Qed.

(** C10.  Writing containers.  [put_containers], the write path of every bitmap, is the update of an
    ordered map: the tree held the containers [kcs], and afterwards it holds them with each pending
    entry put in - whatever the splits, the sibling merges, the deltas against pages already there,
    and whether there was a tree at all.  It returns, unless the height and
    the number of entries pass the depth limit of 32 together, when it may refuse as too deep; it only
    ran steps of the transaction; the pages [F] of everything else still have their bytes, and
    the transaction owns exactly the new tree and those. *)
Theorem btree_put_containers c h root items kcs pending F :
  has_root c h root items F → holds c items kcs → Forall entry_ok pending → entries_in_order pending →
  room c (34 * 454 * Z.of_nat (length pending) + 1) →
  (∃ root' c' h' items', put_containers (c_store c) (c_txn c) root pending = Ok (root', c_txn c') ∧ evolves c c' F ∧
     has_tree fd l c' h' root' items' F ∧ holds c' items' (foldl put_entry kcs pending) ∧ (h' <= h + length pending + 4)%nat ∧
     ((h' < MAX_DEPTH)%nat → shows (view c') root' (foldl put_entry kcs pending))) ∨
  ((MAX_DEPTH < h + length pending)%nat ∧ ∃ r, put_containers (c_store c) (c_txn c) root pending = Err (BTooDeep r)).
Proof. apply put_containers_refines. Qed.

(** Writing items.  [put_many] is the update of the ordered list of items, key by key, for
    items that bring pages of their own ([bring_all]): the page an item replaces is given back unless
    the new item leans on it, and nothing else is. *)
Theorem btree_put_many c h root items its F :
  has_root c h root items (bring_all items its ++ F) → Forall item_ok its → items_in_order its →
  room c (33 * 454 * Z.of_nat (length its) + 1) →
  (∃ root' c' h', put_many (c_store c) (c_txn c) root its = Ok (root', c_txn c') ∧ evolves c c' (bases (foldl put_item items its) ++ F) ∧
     has_tree fd l c' h' root' (foldl put_item items its) F ∧ (h' <= h + length its + 4)%nat ∧
     ((h' < MAX_DEPTH)%nat → collect (view c') root' = Ok (foldl put_item items its))) ∨
  ((MAX_DEPTH < h + length its)%nat ∧ ∃ r, put_many (c_store c) (c_txn c) root its = Err (BTooDeep r)).
Proof.
  intros Hht Hok Ho Hr. destruct root as [root|].
  - destruct (put_many_loop_ok fd l (length its) c h root items its F _ Hht Hok Ho (Nat.le_refl _) Hr ltac:(lia))
      as [(root' & c' & h' & H1 & H2 & H3 & H4)|H]; [left|right; exact H].
    exists root', c', h'. split_and!; [exact H1|exact H2|exact H3|lia|].
    intros Hd. destruct H3 as [_ T2 (w & T3 & _)]. by eapply own_tree_collect.
  - destruct Hht as (Hinv & -> & -> & Hown). left. rewrite bring_all_nil in Hown. rewrite (fold_item_nil its Ho).
    destruct (build_tree fd l c its (33 * 454 * Z.of_nat (length its) + 1) Hinv Hok) as (root' & c' & w & h' & H1 & Htk & H4 & H5 & _);
      [intros q Hq; rewrite Hown; find_in|exact Hr|lia|].
    exists root', c', h'. split_and!; [exact H1| | |lia|].
    + eapply evolves_sub; [apply Htk|]. intros q Hq. by rewrite Hown.
    + split; [by eapply took_inv|exact Ho|]. exists w. split; [exact H5|by eapply took_own].
    + intros Hd. by eapply own_tree_collect.
Qed.

(** Removing.  [remove] takes the item of a key out, present or not: the list of items without
    it, the page it owned given back, every other item's page unchanged - and so the map of
    containers without that key. *)
Theorem btree_remove c h root items k F :
  has_tree fd l c h root items F → (h < MAX_DEPTH)%nat → room c ((Z.of_nat h + 2) * 454) →
  ∃ root' c' h', remove (c_store c) (c_txn c) root k = Ok (root', c_txn c') ∧ evolves c c' (bases (drop_item items k) ++ F) ∧
    has_tree fd l c' h' root' (drop_item items k) F ∧ (h' <= S h)%nat ∧
    (∀ kcs, holds c items kcs → holds c' (drop_item items k) (drop_entry kcs k)).
Proof.
  intros Hht Hd Hr. destruct (remove_ok fd l c h root items k F _ Hht Hd Hr ltac:(lia)) as (root' & c' & h' & H1 & H2 & H3 & H4 & _).
  exists root', c', h'. split_and!; [exact H1|exact H2|exact H3|exact H4|]. intros kcs Hh.
  eapply holds_keep; [|apply holds_drop, Hh]. intros q Hq. apply (ev_reads _ _ _ H2). find_in.
Qed.

(** Writing one item.  [put] replaces or inserts the item of a key and keeps every other. *)
Theorem btree_put c h root items it F :
  has_tree fd l c h root items (brings (item_at items (li_key it)) it ++ F) → item_ok it → (h < MAX_DEPTH)%nat →
  room c ((Z.of_nat h + 2) * 454) →
  ∃ root' c' h', put (c_store c) (c_txn c) (Some root) it = Ok (root', c_txn c') ∧ evolves c c' (bases (put_item items it) ++ F) ∧
    has_tree fd l c' h' root' (put_item items it) F ∧ (h' <= S h)%nat.
Proof. intros Hht Hi Hd Hr. by eapply put_ok; [| | |exact Hr|]. Qed.
End mutations.

(** * Examples: trees in the first transaction of a new file *)
Section examples.
#[local] Existing Instance sample.

Definition small_item (k : Z) : LeafItem := mkItem k TArray 2 2 0 0 [1; 0; 5; 0].
Definition small_items : list LeafItem := [small_item 3; small_item 8; small_item 21].

Lemma small_item_ok k : 0 <= k < 2 ^ 64 → item_ok (small_item k).
Proof.
  intros Hk. split; [|change CELL_PAYLOAD_MAX with 8148; unfold zlen; cbn; lia].
  split_and!; cbn; try lia; [|reflexivity]. repeat (apply Forall_cons; split; [unfold byte; lia|]). apply Forall_nil. exact I.
Qed.
Lemma small_items_ok : Forall item_ok small_items ∧ items_in_order small_items.
Proof.
  split; [|repeat constructor]. repeat (apply Forall_cons; split; [apply small_item_ok; lia|]). apply Forall_nil. exact I.
Qed.

Lemma first_txn :
  ∃ s : Store Disk, s_state s = first_state ∧ let c := mkCfg s (begin_write s) [] [] in
    txn_inv [] empty_layout c ∧ ∀ n, n <= 2 ^ 32 - 3 → room c n.
Proof.
  destruct first_store as (s & f0 & Hi & _ & E1 & _ & _ & E4 & E5). exists s.
  split; [exact E1|]. cbv zeta. split.
  - apply (quiet_begin s empty_layout [] []). split; [exact E5| |rewrite E4; lia|rewrite E1; cbn; lia]. split; constructor.
  - intros n Hn. split; [cbn [begin_write w_next_pgno c_txn]; rewrite E4; lia|]. intros c Hc. discriminate Hc.
Qed.

Lemma small_tree :
  ∃ (c : Cfg Disk) h root, has_tree [] empty_layout c h root small_items [] ∧ (h <= 4)%nat ∧ ∀ n, n <= 999990 → room c n.
Proof.
  destruct first_txn as (s & _ & Hinv & Hr). destruct small_items_ok as [Hi Ho].
  destruct (build_tree [] empty_layout (mkCfg s (begin_write s) [] []) small_items 1000000 Hinv Hi) as (root & c & w & h & _ & Htk & Hh & Ht & Hr');
    [by intros q ?%not_elem_of_nil|apply Hr; lia|cbn; lia|].
  exists c, h, root. split_and!; [|exact Hh|].
  - split; [by eapply took_inv|exact Ho|]. exists w. split; [exact Ht|]. by eapply took_own.
  - intros n Hn. eapply room_sub; [exact Hr'|]. cbn. lia.
Qed.

Lemma small_cells : ∃ (v : TxnView Disk) root cells, tree_of v root cells ∧ map from_cell cells = small_items.
Proof.
  destruct small_tree as (c & h & root & [_ Ho (w & Ht & _)] & Hh & _).
  destruct (own_tree_of (view c) c h root _ w Ht Ho ltac:(unfold MAX_DEPTH; lia) (view_agrees c w)) as (cells & Hm & Hto & _).
  exists (view c), root, cells. split; [exact Hto|exact Hm].
Qed.

Lemma btree_find_witness :
  ∃ (v : TxnView Disk) root cells, tree_of v root cells ∧ map from_cell cells = small_items ∧
  ∃ r, find v root 8 = Ok r ∧
    match cell_of cells 8 with Some c => ∃ hit, r = Some hit ∧ found_cell hit = Ok c | None => r = None end.
Proof.
  destruct small_cells as (v & root & cells & Ht & Hm). exists v, root, cells. split; [exact Ht|]. split; [exact Hm|].
  exact (btree_find v root cells 8 Ht).
Defined.

Lemma btree_find_many_witness :
  ∃ (v : TxnView Disk) root cells, tree_of v root cells ∧
    find_many (λ st k o, Ok (st ++ [(k, o)])) v root [2; 8; 30] [] = answer (λ st k o, Ok (st ++ [(k, o)])) cells [] [2; 8; 30].
Proof.
  destruct small_cells as (v & root & cells & Ht & Hm). exists v, root, cells. split; [exact Ht|].
  apply (btree_find_many _ v root cells [2; 8; 30] [] Ht). repeat constructor; lia.
Defined.

Lemma btree_scan_witness :
  ∃ (v : TxnView Disk) root cells, tree_of v root cells ∧ collect v root = Ok small_items.
Proof.
  destruct small_cells as (v & root & cells & Ht & Hm). exists v, root, cells. split; [exact Ht|].
  destruct (btree_scan (λ st c, (st ++ [lc_key c], false)) v root cells 0 9 [] Ht) as (_ & H & _). rewrite <-Hm. exact H.
Defined.

Lemma btree_build_witness :
  ∃ (s : Store Disk) root c', build s (begin_write s) small_items = Ok (root, c_txn c') ∧ collect (view c') root = Ok small_items.
Proof.
  destruct first_txn as (s & _ & Hinv & Hr). destruct small_items_ok as [Hi Ho].
  destruct (btree_build [] empty_layout (mkCfg s (begin_write s) [] []) small_items Hinv Hi Ho) as (root & c' & h & w & H1 & _ & _ & _ & _ & H2);
    [by intros q ?%not_elem_of_nil|apply Hr; cbn; lia|].
  exists s, root, c'. split; [exact H1|exact H2].
Defined.

Lemma item_stands_for_container_witness :
  ∃ (s : Store Disk) it c', make_item_over s (begin_write s) 4 (Array [1; 5]) None = Ok (it, c_txn c') ∧
    stands_for c' it 4 (Array [1; 5]).
Proof.
  destruct first_txn as (s & _ & Hinv & Hr).
  destruct (item_stands_for_container [] empty_layout (mkCfg s (begin_write s) [] []) 4 (Array [1; 5]) None) as (it & c' & H1 & _ & H2).
  - split; [cbn; repeat constructor; unfold u16; lia|reflexivity].
  - lia.
  - exact Hinv.
  - apply Hr. lia.
  - exact I.
  - exists s, it, c'. split; [exact H1|exact H2].
Defined.

Definition small_entries : list (Z * Container) := [(3, Array [1; 5]); (8, Array [2])].
Definition more_entries : list (Z * Container) := [(1, Array [7]); (8, Array [9; 11])].
Lemma array_wf a : ascending a → Forall u16 a → wf (Array a).
Proof. intros H1 H2. split; [exact H2|]. by apply strictly_ascending_spec. Qed.
Lemma small_entries_ok : Forall entry_ok (small_entries ++ more_entries) ∧ entries_in_order small_entries ∧ entries_in_order more_entries.
Proof.
  split; [|split; repeat constructor]. repeat (apply Forall_cons; split; [split; [apply array_wf; repeat constructor; unfold u16; lia|cbn; lia]|]).
  apply Forall_nil. exact I.
Qed.

(** A new tree of two containers, then one replaced and one added. *)
Lemma btree_put_containers_witness :
  ∃ (c c' : Cfg Disk) root root', put_containers (c_store c) (c_txn c) (Some root) more_entries = Ok (root', c_txn c') ∧
    shows (view c') root' [(1, Array [7]); (3, Array [1; 5]); (8, Array [9; 11])].
Proof.
  destruct first_txn as (s & _ & Hinv & Hr). destruct small_entries_ok as (Hok & Ho1 & Ho2). apply Forall_app in Hok as [Hok1 Hok2].
  destruct (put_containers_new [] empty_layout (mkCfg s (begin_write s) [] []) small_entries 1000000 Hinv Hok1 Ho1 (Hr 1000000 ltac:(lia)) ltac:(cbn; lia))
    as (root & c & h & items & _ & _ & Hht & Hh & Hd & Hr').
  destruct (btree_put_containers [] empty_layout c h (Some root) items small_entries more_entries [] Hht Hh Hok2 Ho2)
    as [(root' & c' & h' & items' & H1 & _ & _ & _ & H5 & H6)|[Hdeep _]].
  - eapply room_sub; [exact Hr'|]. cbn. lia.
  - exists c, c', root, root'. split; [exact H1|]. apply H6. unfold MAX_DEPTH. cbn in H5. lia.
  - unfold MAX_DEPTH in Hdeep. cbn in Hdeep. lia.
Defined.

Lemma btree_put_many_witness :
  ∃ (c c' : Cfg Disk) root root', put_many (c_store c) (c_txn c) (Some root) [small_item 5; small_item 8] = Ok (root', c_txn c') ∧
    collect (view c') root' = Ok [small_item 3; small_item 5; small_item 8; small_item 21].
Proof.
  destruct small_tree as (c & h & root & Hht & Hh & Hr).
  destruct (btree_put_many [] empty_layout c h (Some root) small_items [small_item 5; small_item 8] [])
    as [(root' & c' & h' & H1 & _ & _ & H4 & H5)|[Hdeep _]].
  - exact Hht.
  - repeat (apply Forall_cons; split; [apply small_item_ok; lia|]). apply Forall_nil. exact I.
  - repeat constructor.
  - apply Hr. cbn. lia.
  - exists c, c', root, root'. split; [exact H1|]. apply H5. unfold MAX_DEPTH. cbn in H4. lia.
  - unfold MAX_DEPTH in Hdeep. cbn in Hdeep. lia.
Defined.

Lemma btree_remove_witness :
  ∃ (c c' : Cfg Disk) h root root', remove (c_store c) (c_txn c) root 8 = Ok (root', c_txn c') ∧
    has_tree [] empty_layout c' h root' [small_item 3; small_item 21] [].
Proof.
  destruct small_tree as (c & h & root & Hht & Hh & Hr).
  destruct (btree_remove [] empty_layout c h root small_items 8 [] Hht) as (root' & c' & h' & H1 & _ & H3 & _).
  - unfold MAX_DEPTH. lia.
  - apply Hr. lia.
  - exists c, c', h', root, root'. split; [exact H1|exact H3].
Defined.

Lemma btree_put_witness :
  ∃ (c c' : Cfg Disk) h root root', put (c_store c) (c_txn c) (Some root) (small_item 9) = Ok (root', c_txn c') ∧
    has_tree [] empty_layout c' h root' [small_item 3; small_item 8; small_item 9; small_item 21] [].
Proof.
  destruct small_tree as (c & h & root & Hht & Hh & Hr).
  destruct (btree_put [] empty_layout c h root small_items (small_item 9) [] Hht) as (root' & c' & h' & H1 & _ & H3 & _).
  - apply small_item_ok. lia.
  - unfold MAX_DEPTH. lia.
  - apply Hr. lia.
  - exists c, c', h', root, root'. split; [exact H1|exact H3].
Defined.
End examples.
