(* ===== verification/WalkSpec.v ===== *)
(** What the walks over whole trees promise (crates/big-btree/src/walk.rs): freeing gives back every
    page and no other, a scrub that returns has checked every page there is, a copy is the same map
    on pages of its own. *)
From S2P Require Import Prelude Bits Search Container Optimize Delta Page Sample Leaf Branch Chain Meta Freelist Snapshot Roots Pager Store Crash SampleStore Txn Durable BTree BTreeWrite BTreeOwn BTreeBuild BTreeItem BTreeEdit BTreePut BTreeShow BTreeWalk BTreeSpec.

(** Freeing a tree.  [free_tree] returns, gives back every page of the tree - branches, leaves
    and the dense pages under them - exactly once, and no other: the transaction is left with the
    pages [F] of everything else, and those have their bytes. *)
Theorem free_tree_returns_all {X : Extern} {P} `{!Pager P, !PagerMut P} fd l (c : Cfg P) h root items F :
  has_tree fd l c h root items F → (h < MAX_DEPTH)%nat →
  ∃ c', free_tree (c_store c) (c_txn c) root = Ok (c_txn c') ∧ evolves c c' F ∧ txn_inv fd l c' ∧ own c' ≡ₚ F.
Proof.
  intros Hht Hh. destruct (free_tree_ok fd l c h root items F Hht Hh) as (c' & H & He & Ho & _). exists c'.
  split_and!; [exact H|exact He| |exact Ho]. eapply evolves_inv; [apply Hht|exact He].
Qed.

(** C30.  Scrubbing.  Over any bytes at all, a scrub that returns has checked every page that a walk
    from the same root reaches: the walk returns, the counts are those of the pages it reaches, every
    branch and leaf among them matches its own trailer and every dense page the checksum in a cell of
    a leaf among them.  And it does return on a tree the write path made, having counted exactly its
    pages. *)
Theorem scrub_exact {X : Extern} {P} `{!Pager P} (pager : P) root :
  (∀ r, scrub_tree pager root = Ok r →
    ∃ L, visit_tree note pager root [] = Ok L ∧ counts r L ∧ scrubbed_total r = zlen L ∧ Forall (intact pager L) L) ∧
  (∀ (c : Cfg P) h items w kcs, own_tree c h root items w → holds c items kcs → (h < MAX_DEPTH)%nat → agrees pager c w →
    ∃ r, scrub_tree pager root = Ok r ∧ scrubbed_total r = zlen w).
Proof.
  split.
  - intros r H. destruct (scrub_rec_checks MAX_DEPTH pager root r H) as (L & HL & Hc & Hi). exists L.
    split_and!; [exact (HL [])|exact Hc|by apply counts_total|exact Hi].
  - intros c h items w kcs Ht Hh Hd Ha. by eapply scrub_rec_clean.
Qed.

(** Copying a tree.  Read through any pager that has the pages of a tree of containers,
    [copy_tree] returns and leaves in the destination's transaction a tree of the same containers
    under the same keys, on exactly as many pages, all of them new; what the destination owned before
    is as it was. *)
Theorem copy_tree_faithful {X : Extern} {L : ExternLaws X} {P P' D} `{!Pager P, !Pager P', !Pager D, !PagerMut D} fd l
    (src : P') (c : Cfg P) (d : Cfg D) h root items w kcs :
  own_tree c h root items w → items_in_order items → holds c items kcs → (h < MAX_DEPTH)%nat → agrees src c w →
  txn_inv fd l d → room d (zlen w) →
  shows src root kcs ∧
  ∃ new d' w', copy_tree src (c_store d) (c_txn d) root = Ok (new, c_txn d') ∧ evolves d d' (own d) ∧
    own d' ≡ₚ w' ++ own d ∧ length w' = length w ∧ shows (view d') new kcs.
Proof.
  intros Ht Ho Hh Hd Ha Hinv Hr. split.
  - exact (own_tree_shows src c h root items w kcs Ht Ho Hd Hh Ha).
  - destruct (copy_tree_ok fd l src c h root items w kcs d Ht Ho Hh Hd Ha Hinv Hr) as (new & d' & items' & w' & H1 & H2 & H3 & H4 & H5 & H6).
    exists new, d', w'. split_and!; [exact H1|exact H2|exact H3|exact H4|].
    apply (has_tree_shows fd l (view d') d' h new items' (own d) kcs H5 Hd H6). intros v _. apply view_agrees.
Qed.

(** * Examples: the tree of two containers in a new file *)
Section examples.
#[local] Existing Instance sample.

Lemma container_tree :
  ∃ (c : Cfg Disk) h root items, has_tree [] empty_layout c h root items [] ∧ holds c items small_entries ∧ (h < MAX_DEPTH)%nat.
Proof.
  destruct first_txn as (s & _ & Hinv & Hr). destruct small_entries_ok as (Hok%Forall_app & Ho & _).
  destruct (put_containers_new [] empty_layout (mkCfg s (begin_write s) [] []) small_entries 1000000 Hinv (proj1 Hok) Ho (Hr 1000000 ltac:(lia)) ltac:(cbn; lia))
    as (root & c & h & items & _ & _ & Hht & Hh & Hd & _).
  exists c, h, root, items. split; [exact Hht|]. split; [exact Hh|]. unfold MAX_DEPTH. lia.
Qed.

(** A tree has fewer pages than there are page numbers. *)
Lemma tree_size fd l (c : Cfg Disk) h root items w F : has_tree fd l c h root items F → own c ≡ₚ w ++ F → zlen w <= 2 ^ 32 - 3.
Proof.
  intros [Hinv _ _] Ho. pose proof (own_nodup fd l c Hinv) as Hnd. rewrite Ho in Hnd. apply NoDup_app in Hnd as (Hnd & _).
  assert (w ⊆ seqZ 2 (2 ^ 32 - 3)) as Hsub.
  { intros q Hq. destruct (own_range fd l c q Hinv) as [Hr Hm]; [rewrite Ho; find_in|]. apply elem_of_seqZ. lia. }
  apply (NoDup_submseteq _ _ Hnd), submseteq_length in Hsub. rewrite length_seqZ in Hsub. unfold zlen. lia.
Qed.

Lemma scrub_clean_view (c : Cfg Disk) h root items w kcs :
  own_tree c h root items w → holds c items kcs → (h < MAX_DEPTH)%nat → ∃ r, scrub_tree (view c) root = Ok r.
Proof.
  intros Ht Hh Hd. destruct (scrub_rec_clean (view c) h MAX_DEPTH c root items w kcs Ht Hh Hd (view_agrees c w)) as (r & Hr & _). by exists r.
Qed.

Lemma free_tree_returns_all_witness :
  ∃ (c c' : Cfg Disk) root, free_tree (c_store c) (c_txn c) root = Ok (c_txn c') ∧ own c' = [].
Proof.
  destruct container_tree as (c & h & root & items & Hht & _ & Hd).
  destruct (free_tree_returns_all [] empty_layout c h root items [] Hht Hd) as (c' & H & _ & _ & Ho). exists c, c', root.
  split; [exact H|]. by apply Permutation_nil_r in Ho.
Defined.

Lemma scrub_exact_witness :
  ∃ (v : TxnView Disk) root r L, scrub_tree v root = Ok r ∧ visit_tree note v root [] = Ok L ∧ scrubbed_total r = zlen L.
Proof.
  destruct container_tree as (c & h & root & items & [_ _ (w & Ht & _)] & Hh & Hd).
  destruct (scrub_clean_view c h root items w small_entries Ht Hh Hd) as (r & Hr). exists (view c), root, r.
  destruct (proj1 (scrub_exact (view c) root) r Hr) as (L & HL & _ & Htot & _). exists L. split_and!; [exact Hr|exact HL|exact Htot].
Defined.

Lemma copy_tree_faithful_witness :
  ∃ (c d d' : Cfg Disk) root new, copy_tree (view c) (c_store d) (c_txn d) root = Ok (new, c_txn d') ∧ shows (view d') new small_entries.
Proof.
  destruct container_tree as (c & h & root & items & [Hinvc Ho (w & Ht & Hown)] & Hh & Hd). destruct first_txn as (s & _ & Hinv & Hr).
  destruct (copy_tree_faithful [] empty_layout (view c) c (mkCfg s (begin_write s) [] []) h root items w small_entries Ht Ho Hh Hd (view_agrees c w) Hinv)
    as (_ & new & d' & w' & H1 & _ & _ & _ & H2).
  - apply Hr, (tree_size [] empty_layout c h root items w []); [split; [exact Hinvc|exact Ho|by exists w]|exact Hown].
  - exists c, (mkCfg s (begin_write s) [] []), d', root, new. split; [exact H1|exact H2].
Defined.
End examples.
