(* ===== verification/Fragment.v ===== *)
(** From the containers of a fragment to the disk and back: the container, page, b-tree and pager
    crates taken together (what crates/big-engine relies on when it writes a bitmap).

    A fragment is the tree its root record names.  A transaction writes containers into it, moves
    the root and commits; the theorem is about what any machine that lost power on the way opens. *)
From S2P Require Import Prelude Bits Search Container Optimize Delta Page Sample Leaf Branch Chain Meta Freelist Snapshot Roots Pager Store Crash SampleStore Txn Durable BTree BTreeWrite BTreeOwn BTreeBuild BTreeItem BTreeEdit BTreePut BTreeShow BTreeSpec.

(** What a store shows of a fragment. *)
Definition fragment_shows {X : Extern} {P} `{!Pager P} (s : Store P) (key : FragmentKey) (kcs : list (Z * Container)) : Prop :=
  match root_get (st_roots (s_state s)) key with Some root => shows (s_pager s) root kcs | None => kcs = [] end.

(** One transaction that writes containers into a fragment. *)
Definition write_fragment {X : Extern} {P} `{!Pager P, !PagerMut P} (s : Store P) (key : FragmentKey) (pending : list (Z * Container))
    : Res BTreeError (WriteTxn * Z) :=
  let t := begin_write s in
  '(root, t) ← put_containers s t (txn_root t key) pending;
  Ok (txn_set_root t key root, root).

Section fragment.
Context {X : Extern} {L : ExternLaws X} {P : Type} `{!Pager P, !PagerMut P, !PagerLaws P}.

Lemma steps_inh (c c' : Cfg P) : rtc txn_step c c' → c_inh c' ⊆ c_inh c.
Proof.
  induction 1 as [c|c c1 c' Hs _ IH]; [done|]. etrans; [exact IH|]. destruct Hs; cbn [c_inh]; try done; intros x Hx; by eapply elem_of_submseteq.
Qed.

Lemma dirty_get_in m k pg : dirty_get m k = Some pg → (k, pg) ∈ m.
Proof.
  unfold dirty_get. destruct (List.find _ m) as [[k' pg']|] eqn:E; [|discriminate]. intros [= <-].
  apply List.find_some in E as [E Hk]. cbn in Hk. apply Z.eqb_eq in Hk as ->. by apply list_elem_of_In.
Qed.

Lemma dirty_absent m k : k ∉ fst <$> m → dirty_get m k = None.
Proof.
  intros H. destruct (dirty_get m k) as [pg|] eqn:E; [|done]. apply dirty_get_in in E. destruct H. by apply (list_elem_of_fmap_2 fst) in E.
Qed.

(** The fragment before the transaction, and the transaction. *)
Context (s : Store P) (l : Layout) (fd : Freelist) (inh : list Z) (key : FragmentKey) (h : nat)
  (items : list LeafItem) (kcs pending : list (Z * Container)) (F : list Z).
Let c0 : Cfg P := mkCfg s (begin_write s) inh [].
Hypothesis (Hq : quiet s l fd inh) (Hkey : fk_typed key).
Hypothesis (Hroot : has_root fd l c0 h (txn_root (begin_write s) key) items F) (Hh : holds c0 items kcs).
Hypothesis (Hok : Forall entry_ok pending) (Ho : entries_in_order pending).
Hypothesis (Hroom : room c0 (34 * 454 * Z.of_nat (length pending) + 1)) (Hd : (h + length pending + 4 < MAX_DEPTH)%nat).

Lemma fragment_before {P'} `{!Pager P'} (s1 : Store P') :
  st_roots (s_state s1) = st_roots (s_state s) → (∀ p pg, p ∈ inh → pager_read (s_pager s) p = Ok pg → pager_read (s_pager s1) p = Ok pg) →
  fragment_shows s1 key kcs.
Proof.
  intros Hr Hrd. unfold fragment_shows. rewrite Hr. unfold txn_root in Hroot. cbn [begin_write w_roots] in Hroot.
  destruct (root_get (st_roots (s_state s)) key) as [root|]; cbn [has_root] in Hroot.
  - apply (has_tree_shows fd l (s_pager s1) c0 h root items F kcs Hroot); [lia|exact Hh|]. intros w Hw q pg Hqw. apply Hrd.
    assert (q ∈ own c0) as Hq' by (rewrite Hw; find_in). unfold own in Hq'. cbn in Hq'. by rewrite app_nil_r in Hq'.
  - destruct Hroot as (_ & -> & _). by inversion Hh.
Qed.

(** The transaction returns; [c1] is where the tree was written, [c2] where its root was moved. *)
Lemma write_fragment_ok :
  ∃ root c1 h' items', write_fragment s key pending = Ok (txn_set_root (c_txn c1) key root, root) ∧ evolves c0 c1 F ∧
    has_tree fd l c1 h' root items' F ∧ holds c1 items' (foldl put_entry kcs pending) ∧ (h' < MAX_DEPTH)%nat ∧
    rtc txn_step c0 (mkCfg s (txn_set_root (c_txn c1) key root) (c_inh c1) (c_fresh c1)).
Proof.
  destruct (put_containers_refines fd l c0 h _ items kcs pending F Hroot Hh Hok Ho Hroom)
    as [(root & c1 & h' & items' & H1 & H2 & H3 & H4 & H5 & _)|[Hdeep _]]; [|unfold MAX_DEPTH in *; lia].
  exists root, c1, h', items'. split_and!; [|exact H2|exact H3|exact H4|lia|].
  - unfold write_fragment. cbn [c0 c_store c_txn] in H1. by rewrite H1.
  - eapply rtc_r; [apply H2|]. pose proof (ev_store _ _ _ H2) as Es. cbn [c0 c_store] in Es. destruct c1 as [s1 t1 i1 f1].
    cbn [c_store c_txn c_inh c_fresh] in *. subst s1. apply step_set_root. split; [exact Hkey|]. cbn [snd].
    destruct H3 as [Hinv _ (w & Ht & Hown)]. destruct (own_range fd l _ root Hinv) as [? ?]; [|lia]. rewrite Hown.
    destruct h' as [|h']; [destruct Ht as (? & _ & _ & _ & _ & ->)|destruct Ht as (? & ? & _ & _ & _ & _ & ->)]; by left.
Qed.

(** A store that has the old pages and the transaction's own shows the fragment as written. *)
Lemma fragment_after {P'} `{!Pager P'} (s1 : Store P') root (c1 : Cfg P) h' items' :
  evolves c0 c1 F → has_tree fd l c1 h' root items' F → holds c1 items' (foldl put_entry kcs pending) → (h' < MAX_DEPTH)%nat →
  st_roots (s_state s1) = w_roots (txn_set_root (c_txn c1) key root) →
  (∀ p pg, p ∈ inh → pager_read (s_pager s) p = Ok pg → pager_read (s_pager s1) p = Ok pg) →
  (∀ no pg, (no, pg) ∈ w_dirty (c_txn c1) → pager_read (s_pager s1) no = Ok pg) →
  fragment_shows s1 key (foldl put_entry kcs pending).
Proof.
  intros He Hht Hk Hh' Hr Hrd Hdirty. assert (w_roots (c_txn c1) = st_roots (s_state s)) as Hr'
    by (destruct (ev_meta _ _ _ He) as (? & ? & ? & ? & ->); reflexivity). unfold fragment_shows. rewrite Hr. cbn [txn_set_root with_meta w_roots]. rewrite Hr'.
  rewrite root_get_set, bool_decide_eq_true_2 by (try apply (si_typed _ _ _ _ (qu_inv _ _ _ _ Hq)); done).
  apply (has_tree_shows fd l (s_pager s1) c1 h' root items' F _ Hht Hh' Hk). intros w Hw q pg Hqw Hpg.
  assert (q ∈ own c1) as Hown by (rewrite Hw; find_in). unfold page_at, txn_read in Hpg. rewrite (ev_store _ _ _ He) in Hpg.
  unfold own in Hown. apply elem_of_app in Hown as [Hi|Hf].
  - apply (steps_inh _ _ (ev_steps _ _ _ He)) in Hi. cbn [c0 c_inh] in Hi.
    destruct (quiet_run s l fd inh c1 Hq (ev_steps _ _ _ He)) as (_ & Hsh & _).
    rewrite dirty_absent in Hpg by (by apply (sh_fresh _ _ _ Hsh)). by apply Hrd.
  - destruct (ev_written _ _ _ He ltac:(by intros x Hx%not_elem_of_nil) q Hf) as [pg' Hd']. rewrite Hd' in Hpg. injection Hpg as <-.
    by apply Hdirty, dirty_get_in.
Qed.
End fragment.

(** C1.  From containers to the disk and back.  On a sound file, a fragment holds the containers
    [kcs] in a tree (or has none yet), beside the pages [F] of everything else.  A transaction writes
    [pending] into it, moves its root record and commits with full durability.  Writing returns.
    After the commit the fragment shows [kcs] with [pending] put in.  And if power is lost at any
    moment of the commit, with any of the writes since the last sync missing or torn, the file opens
    and shows the fragment either exactly as before or exactly as after, [F] untouched.  The height of the
    tree and the number of containers written stay 4 below the depth limit of 32 together, so that no
    split can reach it: some 27 containers to a transaction. *)
Theorem fragment_write_durable {X : Extern} {L : ExternLaws X} (s : Store Disk) l fd inh f0 key h items kcs pending F :
  let c0 := mkCfg s (begin_write s) inh [] in
  quiet s l fd inh → s_pager s = reboot f0 → s_durability s = Full → fk_typed key →
  has_root fd l c0 h (txn_root (begin_write s) key) items F → holds c0 items kcs → Forall entry_ok pending → entries_in_order pending →
  room c0 (34 * 454 * Z.of_nat (length pending) + 1) → (h + length pending + 4 < MAX_DEPTH)%nat →
  ∃ t root, write_fragment s key pending = Ok (t, root) ∧
    ∀ s' n, txn_commit s t = Ok (s', n) → m_page_count (st_meta (s_state s')) <= 2 ^ 32 - 1 →
      fragment_shows s' key (foldl put_entry kcs pending) ∧
      ∃ out page, let ops := flip_ops Full out (m_page_count (st_meta (s_state s'))) (slot (st_meta (s_state s'))) page in
        s_pager s' = foldl disk_step (reboot f0) ops ∧
        ∀ k f, crash_image (foldl disk_step (reboot f0) (take k ops)) f →
          ∃ s1, load (reboot f) = Ok s1 ∧ (fragment_shows s1 key kcs ∨ fragment_shows s1 key (foldl put_entry kcs pending)) ∧
            ∀ p, p ∈ F → pager_read (s_pager s1) p = pager_read (s_pager s) p.
Proof.
  intros c0 Hq Hp Hd Hkey Hroot Hh Hok Ho Hr Hdep.
  destruct (write_fragment_ok s l fd inh key h items kcs pending F Hkey Hroot Hh Hok Ho Hr Hdep)
    as (root & c1 & h' & items' & Hw & He & Hht & Hk & Hh' & Hst).
  exists (txn_set_root (c_txn c1) key root), root. split; [exact Hw|]. intros s' n Hc Hmax.
  set (c2 := mkCfg s (txn_set_root (c_txn c1) key root) (c_inh c1) (c_fresh c1)) in *.
  destruct (quiet_run s l fd inh c2 Hq Hst) as (Hi & Hsh & _).
  assert (horizon_of (c_store c2) (w_snapshots (c_txn c2)) (m_txn_id (w_base (c_txn c2))) <= m_txn_id (st_meta (s_state s))) as Hhor.
  { rewrite (tm_base _ _ _ (proj2 Hi)). apply horizon_base. }
  assert (∀ p, p ∈ F → p ∈ inh) as HF.
  { intros p HpF. assert (p ∈ own c0) as Hown; [|unfold own in Hown; cbn in Hown; by rewrite app_nil_r in Hown].
    destruct (txn_root (begin_write s) key); cbn [has_root] in Hroot; [destruct Hroot as [_ _ (w & _ & ->)]; find_in|].
    destruct Hroot as (_ & _ & _ & ->). exact HpF. }
  destruct (commit_inv _ _ c2 _ _ Hi Hc Hmax) as (_ & _ & Hroots & _ & _ & _ & Hdirty & _). split.
  - apply (fragment_after s l fd inh key kcs pending F Hq s' root c1 h' items' He Hht Hk Hh'); [exact Hroots| |exact Hdirty].
    intros p pg Hpi Hpg. rewrite <-Hpg. exact (commit_shield _ _ _ _ c2 _ _ Hi Hsh Hhor Hc Hmax p Hpi).
  - destruct (commit_recovers fd l c2 f0 s' n _ inh Hp Hd Hi Hsh Hhor Hc Hmax) as (out & page & Hops & Hcr).
    exists out, page. cbv zeta. split; [exact Hops|]. intros k f Hf.
    destruct (Hcr k f Hf) as (st1 & Hl & Hpages & Hcase). eexists. split; [exact Hl|]. cbn [s_pager s_state]. rewrite Hp. split.
    + destruct Hcase as [(_ & Hr1 & _)|[(_ & Hr1 & _) Hd1]]; [left|right].
      * apply (fragment_before s l fd inh key h items kcs pending F Hroot Hh Hdep); [exact Hr1|]. cbn [s_pager]. rewrite Hp.
        intros p pg Hpi Hpg. by rewrite Hpages.
      * apply (fragment_after s l fd inh key kcs pending F Hq _ root c1 h' items' He Hht Hk Hh'); cbn [s_state s_pager].
        -- by rewrite Hr1, Hroots.
        -- rewrite Hp. intros p pg Hpi Hpg. by rewrite Hpages.
        -- exact Hd1.
    + intros p HpF. by apply Hpages, HF.
Qed.

(** * A new file, a first fragment *)
Section demo.
#[local] Existing Instance sample.

Definition fragment_small (r : Res StoreError (Store Disk)) : bool :=
  match r with
  | Ok s =>
      match write_fragment s demo_key small_entries with
      | Ok (t, _) => match txn_commit s t with Ok (s', _) => m_page_count (st_meta (s_state s')) <=? 100 | _ => false end
      | _ => false
      end
  | _ => false
  end.

Lemma fragment_write_durable_witness :
  ∃ (s s' : Store Disk) t root n, write_fragment s demo_key small_entries = Ok (t, root) ∧ txn_commit s t = Ok (s', n) ∧
    fragment_shows s' demo_key small_entries.
Proof.
  destruct first_store as (s & f0 & Hi & Hp & E1 & _ & E3 & E4 & E5).
  assert (fragment_small (init (reboot [])) = true) as H by (vm_compute; reflexivity). rewrite Hi in H. unfold fragment_small in H.
  assert (quiet s empty_layout [] []) as Hq by (split; [exact E5|split; constructor|rewrite E4; lia|rewrite E1; cbn; lia]).
  destruct small_entries_ok as (Hok & Ho & _). apply Forall_app in Hok as [Hok _].
  destruct (fragment_write_durable s empty_layout [] [] f0 demo_key 0 [] [] small_entries [] Hq Hp E3) as (t & root & Hw & Hc).
  - repeat split; cbn; lia.
  - unfold txn_root. cbn [begin_write w_roots]. rewrite E1. cbn. split_and!; [apply quiet_begin, Hq|reflexivity|reflexivity|reflexivity].
  - constructor.
  - exact Hok.
  - exact Ho.
  - split; [cbn [begin_write w_next_pgno c_txn]; rewrite E4; cbn; lia|]. intros c Hcap. discriminate Hcap.
  - unfold MAX_DEPTH. cbn. lia.
  - rewrite Hw in H. destruct (txn_commit s t) as [[s' n]| |] eqn:Hcm; [|discriminate H..]. apply Z.leb_le in H.
    destruct (Hc s' n eq_refl ltac:(lia)) as [Hs _]. exists s, s', t, root, n. split_and!; [exact Hw|exact Hcm|].
    rewrite (fold_entry_nil small_entries Ho) in Hs. exact Hs.
Defined.
End demo.
