(* ===== verification/RangeMap.v ===== *)
(** Which node answers for which part of the space (crates/big-cluster/src/raft.rs, [RangeMap]): the
    value the agreement decides about data.

    The space of shards is cut into ranges, each held by a group of nodes of which one serves it.
    [check] is what every proposal goes through; the theory below is that it accepts exactly the maps
    in which every shard has one range, and that no operation on a checked map breaks that. *)
From S2P Require Import Prelude Bits Search.

(** * Data *)
Abbreviation NodeId := nat (only parsing).
Definition RangeId := Z.
Definition ShardId := Z.
(** A Rust [String] is its bytes. *)
Definition Str := list Z.

Record ShardRange := mkShards { sr_start : ShardId; sr_end : option ShardId }.

(** [ShardRange::contains]. *)
Definition shards_contain (s : ShardRange) (shard : ShardId) : bool :=
  (sr_start s <=? shard) && match sr_end s with None => true | Some e => shard <? e end.

Inductive MoveState := Seeding | Cutover.
Record Move := mkMove { mv_target : NodeId; mv_state : MoveState }.

Record Range := mkRange {
  r_id : RangeId;
  r_shards : ShardRange;
  r_group : list NodeId;
  r_primary : NodeId;
  r_moving : option Move
}.

Record RangeMap := mkRangeMap {
  rm_epoch : Z;
  rm_ranges : list Range;
  rm_stale : list NodeId;
  rm_schema_leader : NodeId;
  rm_reserved : list (Str * Z);
  rm_schema_ready : bool
}.

(** [RangeMap::default()]. *)
Definition empty_map : RangeMap := mkRangeMap 0 [] [] 0%nat [] false.

#[export] Instance ShardRange_eq_dec : EqDecision ShardRange. Proof. solve_decision. Defined.
#[export] Instance MoveState_eq_dec : EqDecision MoveState. Proof. solve_decision. Defined.
#[export] Instance Move_eq_dec : EqDecision Move. Proof. solve_decision. Defined.
#[export] Instance Range_eq_dec : EqDecision Range. Proof. solve_decision. Defined.
#[export] Instance RangeMap_eq_dec : EqDecision RangeMap. Proof. solve_decision. Defined.

Inductive MapError :=
| MEmpty
| MNotStartingAtZero (start : ShardId)
| MUnordered (at_ : nat)
| MOverlap (from to : ShardId)
| MGap (from to : ShardId)
| MNotTotal (from : ShardId)
| MEmptyGroup (id : RangeId)
| MPrimaryNotInGroup (id : RangeId) (primary : NodeId)
| MDuplicateId (id : RangeId)
| MNoSuchRange (id : RangeId)
| MSchemaLeaderNotAMember (node : NodeId)
| MSchemaLeaderIsALearner (node : NodeId)
| MAlreadyAHolder (id : RangeId) (node : NodeId)
| MPrimaryNotDroppable (id : RangeId) (primary : NodeId).

Inductive MoveError :=
| VNoSuchRange (id : RangeId) | VAlreadyMoving (id : RangeId) | VNotMoving (id : RangeId) | VAlreadyThere (id : RangeId) (target : NodeId).
Inductive SplitError := SNoSuchRange (at_ : ShardId) | SOnABoundary (at_ : ShardId) | SMoving (id : RangeId).
Inductive MergeError :=
| GNoSuchRange (id : RangeId) | GNothingAfter (id : RangeId) | GMoving (id : RangeId) | GDifferentOwners (id other : RangeId).

(** * Members *)
Inductive MemberState := Learner | Voter | Draining | Gone.
Record Member := mkMember { m_name : Str; m_addr : Str; m_state : MemberState }.
#[export] Instance MemberState_eq_dec : EqDecision MemberState. Proof. solve_decision. Defined.
#[export] Instance Member_eq_dec : EqDecision Member. Proof. solve_decision. Defined.

(** [Member::votes], [reachable], [takes_ranges]. *)
Definition member_votes (m : Member) : bool := match m_state m with Voter | Draining => true | _ => false end.
Definition reachable (m : Member) : bool := match m_state m with Gone => false | _ => true end.
Definition takes_ranges (m : Member) : bool := match m_state m with Voter => true | _ => false end.

(** * Operations *)

(** The order of [str], byte by byte. *)
Fixpoint str_cmp (a b : Str) : comparison :=
  match a, b with
  | [], [] => Eq
  | [], _ => Lt
  | _, [] => Gt
  | x :: a', y :: b' => match x ?= y with Eq => str_cmp a' b' | c => c end
  end.

Definition with_ranges (m : RangeMap) (rs : list Range) : RangeMap :=
  mkRangeMap (rm_epoch m) rs (rm_stale m) (rm_schema_leader m) (rm_reserved m) (rm_schema_ready m).
Definition with_reserved (m : RangeMap) (rv : list (Str * Z)) : RangeMap :=
  mkRangeMap (rm_epoch m) (rm_ranges m) (rm_stale m) (rm_schema_leader m) rv (rm_schema_ready m).
Definition with_stale (m : RangeMap) (st : list NodeId) : RangeMap :=
  mkRangeMap (rm_epoch m) (rm_ranges m) st (rm_schema_leader m) (rm_reserved m) (rm_schema_ready m).

Definition reserved_for (m : RangeMap) (table : Str) : Z :=
  match List.find (λ e, bool_decide (fst e = table)) (rm_reserved m) with Some (_, upto) => upto | None => 0 end.

Definition reserve (m : RangeMap) (table : Str) (upto : Z) : RangeMap :=
  with_reserved m
    (match binary_search_by (λ e, str_cmp (fst e) table) (rm_reserved m) with
     | Hit i => alter (λ e, (fst e, Z.max (snd e) upto)) i (rm_reserved m)
     | Miss i => take i (rm_reserved m) ++ (table, upto) :: drop i (rm_reserved m)
     end).

(** The first loop of [check]: ids, groups and primaries. *)
Fixpoint check_each (seen : gset Z) (rs : list Range) : Res MapError unit :=
  match rs with
  | [] => Ok tt
  | r :: rs' =>
      if bool_decide (r_id r ∈ seen) then Err (MDuplicateId (r_id r))
      else if bool_decide (r_group r = []) then Err (MEmptyGroup (r_id r))
      else if negb (bool_decide (r_primary r ∈ r_group r)) then Err (MPrimaryNotInGroup (r_id r) (r_primary r))
      else check_each ({[r_id r]} ∪ seen) rs'
  end.

(** The second: neighbours. *)
Fixpoint check_pairs (i : nat) (a : Range) (rs : list Range) : Res MapError unit :=
  match rs with
  | [] => Ok tt
  | b :: rs' =>
      if sr_start (r_shards b) <? sr_start (r_shards a) then Err (MUnordered (i + 1))
      else match sr_end (r_shards a) with
           | None => Err (MOverlap (sr_start (r_shards b)) (default u64_max (sr_end (r_shards b))))
           | Some e =>
               match sr_start (r_shards b) ?= e with
               | Eq => check_pairs (S i) b rs'
               | Lt => Err (MOverlap (sr_start (r_shards b)) (Z.min e (default u64_max (sr_end (r_shards b)))))
               | Gt => Err (MGap e (sr_start (r_shards b)))
               end
           end
  end.

Definition check (m : RangeMap) : Res MapError unit :=
  match rm_ranges m with
  | [] => Err MEmpty
  | first :: rest =>
      if negb (sr_start (r_shards first) =? 0) then Err (MNotStartingAtZero (sr_start (r_shards first)))
      else
        _ ← check_each ∅ (rm_ranges m);
        _ ← check_pairs 0 first rest;
        last ← unwrap (last (rm_ranges m));
        match sr_end (r_shards last) with None => Ok tt | Some e => Err (MNotTotal e) end
  end.

Definition check_with (m : RangeMap) (members : list Member) : Res MapError unit :=
  _ ← check m;
  let node := rm_schema_leader m in
  match members !! node with
  | Some mb =>
      if negb (reachable mb) then Err (MSchemaLeaderNotAMember node)
      else match m_state mb with Learner => Err (MSchemaLeaderIsALearner node) | _ => Ok tt end
  | None => Err (MSchemaLeaderNotAMember node)
  end.

(** [slice::partition_point]. *)
Definition partition_point {A} (p : A → bool) (l : list A) : nat :=
  match binary_search_by (λ x, if p x then Lt else Gt) l with Hit i => i | Miss i => i end.

(** [partition_point(..).saturating_sub(1)]. *)
Definition range_of (m : RangeMap) (shard : ShardId) : nat :=
  Nat.pred (partition_point (λ r, sr_start (r_shards r) <=? shard) (rm_ranges m)).

Definition is_stale (m : RangeMap) (node : NodeId) : bool := bool_decide (node ∈ rm_stale m).

Definition position (m : RangeMap) (id : RangeId) : option nat :=
  fst <$> list_find (λ r, r_id r = id) (rm_ranges m).

Definition held_by (m : RangeMap) (node : NodeId) : list nat :=
  List.filter (λ i, match rm_ranges m !! i with Some r => bool_decide (node ∈ r_group r) | None => false end) (seq 0 (length (rm_ranges m))).
Definition served_by (m : RangeMap) (node : NodeId) : list nat :=
  List.filter (λ i, match rm_ranges m !! i with Some r => bool_decide (r_primary r = node) | None => false end) (seq 0 (length (rm_ranges m))).
Definition shards_served_by (m : RangeMap) (node : NodeId) : list ShardRange :=
  map r_shards (List.filter (λ r, bool_decide (r_primary r = node)) (rm_ranges m)).

Definition max_id (rs : list Range) : option Z :=
  match rs with [] => None | r :: rs' => Some (foldl (λ a x, Z.max a (r_id x)) (r_id r) rs') end.
(** [max + 1], a [u64]. *)
Definition next_id (m : RangeMap) : RangeId := match max_id (rm_ranges m) with None => 0 | Some x => (x + 1) mod 2 ^ 64 end.

Definition set_shards (r : Range) (s : ShardRange) : Range := mkRange (r_id r) s (r_group r) (r_primary r) (r_moving r).
Definition set_moving (r : Range) (mv : option Move) : Range := mkRange (r_id r) (r_shards r) (r_group r) (r_primary r) mv.
Definition set_group (r : Range) (g : list NodeId) (p : NodeId) : Range := mkRange (r_id r) (r_shards r) g p (r_moving r).

(** [self.ranges[i]], which panics past the end. *)
Definition range_at {E} (m : RangeMap) (i : nat) : Res E Range := unwrap (rm_ranges m !! i).

Definition split (m : RangeMap) (at_ : ShardId) : Res SplitError (RangeMap * RangeId) :=
  if bool_decide (rm_ranges m = []) then Err (SNoSuchRange at_)
  else
    let i := range_of m at_ in
    existing ← range_at m i;
    if at_ =? sr_start (r_shards existing) then Err (SOnABoundary at_)
    else
      let id := next_id m in
      let upper := mkRange id (mkShards at_ (sr_end (r_shards existing))) (r_group existing) (r_primary existing) None in
      match r_moving existing with
      | Some _ => Err (SMoving (r_id existing))
      | None =>
          let lower := set_shards existing (mkShards (sr_start (r_shards existing)) (Some at_)) in
          Ok (with_ranges m (take i (rm_ranges m) ++ lower :: upper :: drop (S i) (rm_ranges m)), id)
      end.

Definition merge (m : RangeMap) (id : RangeId) : Res MergeError RangeMap :=
  match position m id with
  | None => Err (GNoSuchRange id)
  | Some i =>
      match rm_ranges m !! S i with
      | None => Err (GNothingAfter id)
      | Some b =>
          a ← range_at m i;
          if bool_decide (r_moving a ≠ None ∨ r_moving b ≠ None) then Err (GMoving id)
          else if bool_decide (merge_sort (≤)%nat (r_group a) ≠ merge_sort (≤)%nat (r_group b) ∨ r_primary a ≠ r_primary b)
          then Err (GDifferentOwners id (r_id b))
          else
            let joined := set_shards a (mkShards (sr_start (r_shards a)) (sr_end (r_shards b))) in
            Ok (with_ranges m (take i (rm_ranges m) ++ joined :: drop (S (S i)) (rm_ranges m)))
      end
  end.

Definition begin_move (m : RangeMap) (id : RangeId) (target : NodeId) : Res MoveError RangeMap :=
  match position m id with
  | None => Err (VNoSuchRange id)
  | Some i =>
      r ← range_at m i;
      match r_moving r with
      | Some _ => Err (VAlreadyMoving id)
      | None =>
          if bool_decide (target ∈ r_group r) then Err (VAlreadyThere id target)
          else Ok (with_ranges m (<[i := set_moving r (Some (mkMove target Seeding))]> (rm_ranges m)))
      end
  end.

Definition set_move_state (m : RangeMap) (id : RangeId) (state : MoveState) : Res MoveError RangeMap :=
  match position m id with
  | None => Err (VNoSuchRange id)
  | Some i =>
      r ← range_at m i;
      match r_moving r with
      | None => Err (VNotMoving id)
      | Some mv => Ok (with_ranges m (<[i := set_moving r (Some (mkMove (mv_target mv) state))]> (rm_ranges m)))
      end
  end.

Definition finish_move (m : RangeMap) (id : RangeId) : Res MoveError RangeMap :=
  match position m id with
  | None => Err (VNoSuchRange id)
  | Some i =>
      r ← range_at m i;
      match r_moving r with
      | None => Err (VNotMoving id)
      | Some mv => Ok (with_ranges m (<[i := set_moving (set_group r [mv_target mv] (mv_target mv)) None]> (rm_ranges m)))
      end
  end.

Definition cancel_move (m : RangeMap) (id : RangeId) : Res MoveError RangeMap :=
  match position m id with
  | None => Err (VNoSuchRange id)
  | Some i =>
      r ← range_at m i;
      match r_moving r with
      | None => Err (VNotMoving id)
      | Some _ => Ok (with_ranges m (<[i := set_moving r None]> (rm_ranges m)))
      end
  end.

Definition moving_at (m : RangeMap) (shard : ShardId) : option Move := rm_ranges m !! range_of m shard ≫= r_moving.

Definition add_holder (m : RangeMap) (id : RangeId) (node : NodeId) : Res MapError RangeMap :=
  match position m id with
  | None => Err (MNoSuchRange id)
  | Some i =>
      r ← range_at m i;
      if bool_decide (node ∈ r_group r) then Err (MAlreadyAHolder id node)
      else
        let m := with_ranges m (<[i := set_group r (r_group r ++ [node]) (r_primary r)]> (rm_ranges m)) in
        Ok (if bool_decide (node ∈ rm_stale m) then m else with_stale m (rm_stale m ++ [node]))
  end.

Definition drop_holder (m : RangeMap) (id : RangeId) (node : NodeId) : Res MapError RangeMap :=
  match position m id with
  | None => Err (MNoSuchRange id)
  | Some i =>
      r ← range_at m i;
      if bool_decide (r_primary r = node) then Err (MPrimaryNotDroppable id node)
      else if negb (bool_decide (node ∈ r_group r)) then Err (MNoSuchRange id)
      else Ok (with_ranges m (<[i := set_group r (List.filter (λ n, negb (bool_decide (n = node))) (r_group r)) (r_primary r)]> (rm_ranges m)))
  end.

Definition assign (m : RangeMap) (id : RangeId) (group : list NodeId) : Res MapError RangeMap :=
  match position m id with
  | None => Err (MNoSuchRange id)
  | Some i =>
      match group with
      | [] => Err (MEmptyGroup id)
      | primary :: _ =>
          r ← range_at m i;
          Ok (with_ranges m (<[i := set_group r group primary]> (rm_ranges m)))
      end
  end.

(** * What [check] accepts *)

(** The ranges cut the space from [from] on into consecutive pieces, the last one open. *)
Fixpoint tiles (from : Z) (ss : list ShardRange) : Prop :=
  match ss with
  | [] => False
  | s :: ss' => sr_start s = from ∧
      match sr_end s with
      | None => ss' = []
      | Some e => from <= e ∧ tiles e ss'
      end
  end.

Definition held (r : Range) : Prop := r_primary r ∈ r_group r.

Record sound_map (m : RangeMap) : Prop := {
  sm_tiles : tiles 0 (r_shards <$> rm_ranges m);
  sm_ids : NoDup (r_id <$> rm_ranges m);
  sm_held : Forall held (rm_ranges m)
}.

Lemma check_each_ok rs seen :
  check_each seen rs = Ok tt ↔ NoDup (r_id <$> rs) ∧ (∀ r, r ∈ rs → r_id r ∉ seen) ∧ Forall held rs.
Proof.
  revert seen. induction rs as [|r rs IH]; intros seen; cbn [check_each fmap list_fmap].
  { split; [intros _|done]. split_and!; [constructor|set_solver|constructor]. }
  rewrite NoDup_cons, Forall_cons, list_elem_of_fmap. case_bool_decide as Hs.
  { split; [discriminate|]. intros (_ & H & _). exfalso. exact (H r ltac:(left) Hs). }
  case_bool_decide as Hg.
  { split; [discriminate|]. intros (_ & _ & Hh & _). exfalso. unfold held in Hh. rewrite Hg in Hh. by apply not_elem_of_nil in Hh. }
  case_bool_decide as Hp; cbn [negb].
  2:{ split; [discriminate|]. intros (_ & _ & Hh & _). exfalso. exact (Hp Hh). }
  rewrite IH. split.
  - intros (Hnd & Hns & Hf). split_and!; [|exact Hnd| |exact Hp|exact Hf].
    + intros (x & Hx & Hin). apply (Hns x Hin). rewrite Hx. set_solver.
    + intros x [->|Hx]%elem_of_cons; [exact Hs|]. intros Hin. apply (Hns x Hx). set_solver.
  - intros ([Hni Hnd] & Hns & _ & Hf). split_and!; [exact Hnd| |exact Hf]. intros x Hx [Hi%elem_of_singleton|Hi]%elem_of_union.
    + apply Hni. exists x. by rewrite Hi.
    + by apply (Hns x ltac:(by right)).
Qed.

Lemma check_pairs_ok i a rs :
  check_pairs i a rs = Ok tt ∧ (∃ r, last (a :: rs) = Some r ∧ sr_end (r_shards r) = None) ↔
  tiles (sr_start (r_shards a)) (r_shards <$> (a :: rs)).
Proof.
  revert i a. induction rs as [|b rs IH]; intros i a; cbn [check_pairs].
  { cbn. split.
    - intros (_ & r & [= <-] & ->). by split.
    - intros (_ & H). split; [done|]. exists a. split; [done|]. destruct (sr_end (r_shards a)); [by destruct H|done]. }
  change (last (a :: b :: rs)) with (last (b :: rs)). cbn [fmap list_fmap tiles]. fold (r_shards <$> rs).
  assert (∀ e, tiles e (r_shards b :: (r_shards <$> rs)) → e = sr_start (r_shards b)) as Hst by (intros e [H _]; done).
  destruct (Z.ltb_spec (sr_start (r_shards b)) (sr_start (r_shards a))) as [Hlt|Hge].
  { split; [intros [H _]; discriminate|]. intros (_ & H). destruct (sr_end (r_shards a)) as [e|]; [|discriminate H].
    destruct H as [H1 H2]. apply Hst in H2. lia. }
  destruct (sr_end (r_shards a)) as [e|] eqn:Ea.
  2:{ split; [intros [H _]; discriminate|]. intros (_ & H). discriminate H. }
  destruct (Z.compare_spec (sr_start (r_shards b)) e) as [He|Hl|Hg].
  - rewrite IH. subst e. cbn [fmap list_fmap]. fold (r_shards <$> rs). split; [intros H; split; [done|]; split; [lia|exact H]|by intros (_ & _ & H)].
  - split; [intros [H _]; discriminate|]. intros (_ & _ & H%Hst). lia.
  - split; [intros [H _]; discriminate|]. intros (_ & _ & H%Hst). lia.
Qed.

Lemma check_ok m : check m = Ok tt ↔ sound_map m.
Proof.
  unfold check. destruct (rm_ranges m) as [|first rest] eqn:Er.
  { split; [discriminate|]. intros [H _ _]. rewrite Er in H. done. }
  destruct (Z.eqb_spec (sr_start (r_shards first)) 0) as [H0|H0]; cbn [negb].
  2:{ split; [discriminate|]. intros [H _ _]. rewrite Er in H. destruct H as [H _]. contradiction. }
  rewrite !bind_ok. split.
  - intros ([] & He%check_each_ok & H). apply bind_ok in H as ([] & Hp & H). apply bind_ok in H as (r & Hl & H).
    assert (sr_end (r_shards r) = None) as Hn by (destruct (sr_end (r_shards r)); [discriminate|done]).
    destruct (proj1 (check_pairs_ok 0 first rest)); [split; [exact Hp|]|].
    { exists r. split; [|exact Hn]. unfold unwrap in Hl. destruct (last (first :: rest)); [congruence|discriminate]. }
    destruct He as (Hnd & _ & Hf). split; rewrite Er; [|exact Hnd|exact Hf]. rewrite <-H0. by split.
  - intros [Ht Hnd Hf]. rewrite Er in Ht, Hnd, Hf. exists tt. split; [apply check_each_ok; split_and!; [exact Hnd|set_solver|exact Hf]|].
    destruct (proj2 (check_pairs_ok 0 first rest)) as (Hp & r & Hl & Hn); [by rewrite H0|]. rewrite Hp. cbn [mbind Res_bind]. rewrite Hl. cbn [unwrap mbind Res_bind].
    by rewrite Hn.
Qed.

(** * Every shard has one range *)
Lemma ssorted_lookup {A} (R : A → A → Prop) l i j x y :
  StronglySorted R l → l !! i = Some x → l !! j = Some y → (i < j)%nat → R x y.
Proof.
  intros Hs. revert i j. induction Hs as [|a l _ IH Ha]; intros [|i] [|j] Hx Hy Hij; try done; try lia.
  - injection Hx as ->. rewrite Forall_lookup in Ha. by eapply Ha.
  - eapply IH; [exact Hx|exact Hy|lia].
Qed.

Lemma tiles_sorted from ss : tiles from ss → StronglySorted (λ a b, sr_start a <= sr_start b) ss ∧ Forall (λ s, from <= sr_start s) ss.
Proof.
  revert from. induction ss as [|s ss IH]; intros from; [done|]. intros [<- H]. destruct (sr_end s) as [e|].
  - destruct H as [He Ht]. destruct (IH e Ht) as [Hs Hf]. split.
    + constructor; [exact Hs|]. eapply Forall_impl; [exact Hf|]. cbn. lia.
    + constructor; [lia|]. eapply Forall_impl; [exact Hf|]. cbn. lia.
  - subst ss. split; repeat constructor; lia.
Qed.

Lemma tiles_lookup from ss i s :
  tiles from ss → ss !! i = Some s →
  from <= sr_start s ∧ match sr_end s with None => ss !! S i = None | Some e => sr_start s <= e ∧ ∃ s', ss !! S i = Some s' ∧ sr_start s' = e end.
Proof.
  revert from ss. induction i as [|i IH]; intros from [|a ss] Ht Hl; try discriminate.
  - injection Hl as ->. destruct Ht as [<- H]. split; [lia|]. destruct (sr_end s) as [e|]; [|subst ss; done].
    destruct H as [He Ht]. split; [exact He|]. destruct ss as [|b ss]; [done|]. exists b. split; [done|]. apply Ht.
  - destruct Ht as [<- H]. destruct (sr_end a) as [e|]; [|subst ss; discriminate]. destruct H as [He Ht].
    destruct (IH e ss Ht Hl) as [H1 H2]. split; [lia|exact H2].
Qed.

Lemma partition_point_spec {A} (p : A → bool) l :
  StronglySorted (λ x y, p y = true → p x = true) l →
  (partition_point p l <= length l)%nat ∧ Forall (λ x, p x = true) (take (partition_point p l) l) ∧ Forall (λ x, p x = false) (drop (partition_point p l) l).
Proof.
  intros Hs. assert (searchable (λ x, if p x then Lt else Gt) l) as Hse.
  { induction Hs as [|x xs _ IH Hx]; constructor; [exact IH|]. eapply Forall_impl; [exact Hx|]. cbn. intros y H.
    destruct (p x) eqn:Ex; [by left|]. right. destruct (p y); [by discriminate H|done]. }
  pose proof (binary_search_by_spec _ l Hse) as H. unfold partition_point. destruct (binary_search_by _ l) as [i|i].
  - destruct H as (x & _ & Hx). by destruct (p x).
  - destruct H as (H1 & H2 & H3). split_and!; [exact H1|eapply Forall_impl; [exact H2|]; intros x; cbn; by destruct (p x)|eapply Forall_impl; [exact H3|]; intros x; cbn; by destruct (p x)].
Qed.

(** The bisection of [range_of] lands on the range that contains the shard, the only one. *)
Lemma range_of_spec m shard :
  sound_map m → 0 <= shard →
  ∃ r, rm_ranges m !! range_of m shard = Some r ∧ shards_contain (r_shards r) shard = true ∧
    ∀ j r', rm_ranges m !! j = Some r' → shards_contain (r_shards r') shard = true → j = range_of m shard.
Proof.
  intros [Ht _ _] Hpos. set (p := λ r, sr_start (r_shards r) <=? shard). destruct (tiles_sorted _ _ Ht) as [Hs Hf].
  assert (∀ i j a b, (i <= j)%nat → rm_ranges m !! i = Some a → rm_ranges m !! j = Some b → sr_start (r_shards a) <= sr_start (r_shards b)) as Hmono.
  { intros i j a b Hij Ha Hb. destruct (decide (i = j)) as [->|]; [by simplify_eq|].
    apply (ssorted_lookup _ _ i j _ _ Hs); [rewrite list_lookup_fmap, Ha; done|rewrite list_lookup_fmap, Hb; done|lia]. }
  assert (StronglySorted (λ x y, p y = true → p x = true) (rm_ranges m)) as Hps.
  { clear - Hs. subst p. induction (rm_ranges m) as [|r rs IH]; [constructor|]. inversion Hs as [|? ? H1 H2]; subst. constructor; [by apply IH|].
    apply Forall_forall. intros x Hx. rewrite Forall_forall in H2. specialize (H2 (r_shards x) (list_elem_of_fmap_2 _ _ _ Hx)). cbn in H2. lia. }
  destruct (partition_point_spec p (rm_ranges m) Hps) as (Hn & H1 & H2). unfold range_of. fold p. set (n := partition_point p (rm_ranges m)) in *.
  assert (∃ k, n = S k) as (k & Ek).
  { destruct n as [|k] eqn:E; [|by exists k]. rewrite drop_0 in H2. destruct (rm_ranges m) as [|r rs] eqn:Er; [done|].
    inversion H2 as [|? ? H3 _]; subst. destruct Ht as [H4 _]. unfold p in H3. cbn in H4. lia. }
  rewrite Ek in *. cbn [Nat.pred]. destruct (lookup_lt_is_Some_2 (rm_ranges m) k ltac:(lia)) as (r & Hr). exists r.
  assert (p r = true) as Hpr.
  { rewrite Forall_lookup in H1. apply (H1 k r). rewrite lookup_take_lt by lia. exact Hr. }
  assert (∀ j b, (k < j)%nat → rm_ranges m !! j = Some b → shard < sr_start (r_shards b)) as Hafter.
  { intros j b Hj Hb. rewrite Forall_lookup in H2. assert (p b = false) as Hpb; [|unfold p in Hpb; lia].
    apply (H2 (j - S k)%nat). rewrite lookup_drop. rewrite <-Hb. f_equal. lia. }
  assert (∀ j b e, rm_ranges m !! j = Some b → sr_end (r_shards b) = Some e → ∃ b', rm_ranges m !! S j = Some b' ∧ sr_start (r_shards b') = e) as Hnext.
  { intros j b e Hb He. destruct (tiles_lookup 0 _ j (r_shards b) Ht) as [_ H]; [rewrite list_lookup_fmap, Hb; done|]. rewrite He in H.
    destruct H as (_ & s' & Hs' & <-). rewrite list_lookup_fmap in Hs'. destruct (rm_ranges m !! S j) as [b'|]; [|discriminate]. injection Hs' as <-. by exists b'. }
  split_and!; [exact Hr| |].
  - unfold shards_contain. unfold p in Hpr. destruct (sr_end (r_shards r)) as [e|] eqn:Ee; [|lia].
    destruct (Hnext k r e Hr Ee) as (b' & Hb' & <-). pose proof (Hafter (S k) b' ltac:(lia) Hb'). lia.
  - intros j r' Hj Hc. unfold shards_contain in Hc. apply andb_true_iff in Hc as [Hc1 Hc2]. destruct (Nat.lt_trichotomy j k) as [Hlt|[->|Hgt]]; [|done|].
    + exfalso. destruct (sr_end (r_shards r')) as [e|] eqn:Ee.
      * destruct (Hnext j r' e Hj Ee) as (b' & Hb' & <-). pose proof (Hmono (S j) k b' r ltac:(lia) Hb' Hr). unfold p in Hpr. lia.
      * destruct (tiles_lookup 0 _ j (r_shards r') Ht) as [_ H]; [rewrite list_lookup_fmap, Hj; done|]. rewrite Ee, list_lookup_fmap in H.
        destruct (lookup_lt_is_Some_2 (rm_ranges m) (S j)) as (x & Hx); [apply lookup_lt_Some in Hr; lia|]. rewrite Hx in H. discriminate.
    + exfalso. pose proof (Hafter j r' Hgt Hj). lia.
Qed.
