(* ===== verification/RangeMapSpec.v ===== *)
(** What the map of ranges promises (crates/big-cluster/src/raft.rs, [RangeMap]): a checked map gives
    every shard to one range, every change keeps it so, and a change moves no more than it says. *)
From S2P Require Import Prelude Bits Search RangeMap.

(** * Changes in place *)
Lemma position_some m id i : position m id = Some i → ∃ r, rm_ranges m !! i = Some r ∧ r_id r = id.
Proof.
  unfold position. intros H. destruct (list_find _ _) as [[j r]|] eqn:E; [|discriminate]. injection H as ->.
  apply list_find_Some in E as (Hl & Hid & _). by exists r.
Qed.

Lemma range_at_some {E} m i r : rm_ranges m !! i = Some r → @range_at E m i = Ok r.
Proof. unfold range_at. by intros ->. Qed.

Definition same_place (r r' : Range) : Prop := r_id r' = r_id r ∧ r_shards r' = r_shards r.

Lemma sound_insert m i r r' :
  sound_map m → rm_ranges m !! i = Some r → same_place r r' → held r' → sound_map (with_ranges m (<[i := r']> (rm_ranges m))).
Proof.
  intros [Ht Hi Hh] Hr [Hid Hsh] Hh'. split; cbn [with_ranges rm_ranges].
  - rewrite list_fmap_insert, Hsh, list_insert_id; [exact Ht|]. by rewrite list_lookup_fmap, Hr.
  - rewrite list_fmap_insert, Hid, list_insert_id; [exact Hi|]. by rewrite list_lookup_fmap, Hr.
  - by apply Forall_insert.
Qed.

Lemma bisect_ext f g fuel lo hi : (∀ j, f j = g j) → bisect f fuel lo hi = bisect g fuel lo hi.
Proof.
  intros He. revert lo hi. induction fuel as [|fuel IH]; intros lo hi; [reflexivity|]. cbn [bisect]. rewrite He.
  destruct (lo <? hi)%nat; [|done]. destruct (g ((lo + hi) / 2)%nat); auto.
Qed.

Lemma range_of_insert m i r r' shard :
  rm_ranges m !! i = Some r → same_place r r' → range_of (with_ranges m (<[i := r']> (rm_ranges m))) shard = range_of m shard.
Proof.
  intros Hr [_ Hsh]. unfold range_of, partition_point, binary_search_by. cbn [with_ranges rm_ranges]. rewrite length_insert.
  erewrite bisect_ext; [reflexivity|]. intros j. cbn beta. destruct (decide (i = j)) as [->|Hne]; [|by rewrite list_lookup_insert_ne by done].
  rewrite list_lookup_insert_eq by (by eapply lookup_lt_Some). by rewrite Hr, Hsh.
Qed.

Lemma max_id_le rs r : r ∈ rs → ∃ x, max_id rs = Some x ∧ r_id r <= x ∧ ∃ r', r' ∈ rs ∧ r_id r' = x.
Proof.
  destruct rs as [|a rs]; [by intros ?%not_elem_of_nil|]. intros Hr. cbn [max_id]. eexists. split; [reflexivity|].
  assert (∀ rs z, z <= foldl (λ a x, Z.max a (r_id x)) z rs ∧ Forall (λ r, r_id r <= foldl (λ a x, Z.max a (r_id x)) z rs) rs ∧
    (foldl (λ a x, Z.max a (r_id x)) z rs = z ∨ ∃ r', r' ∈ rs ∧ r_id r' = foldl (λ a x, Z.max a (r_id x)) z rs)) as H.
  { clear. induction rs as [|b rs IH]; intros z; cbn [foldl]; [split_and!; [lia|constructor|by left]|].
    destruct (IH (Z.max z (r_id b))) as (H1 & H2 & H3). split_and!; [lia|constructor; [lia|exact H2]|].
    destruct H3 as [H3|(r' & Hr' & H3)]; [|right; exists r'; split; [by right|exact H3]].
    destruct (Z.max_spec z (r_id b)) as [[? Hm]|[? Hm]]; [right; exists b; split; [by left|lia]|left; lia]. }
  destruct (H rs (r_id a)) as (H1 & H2 & H3). split.
  - apply elem_of_cons in Hr as [->|Hr]; [exact H1|]. rewrite Forall_forall in H2. by apply H2.
  - destruct H3 as [H3|(r' & Hr' & H3)]; [exists a; split; [by left|by rewrite H3]|exists r'; split; [by right|exact H3]].
Qed.

(** Ids are never used twice, as long as there are any left. *)
Lemma next_id_fresh m : Forall (λ r, 0 <= r_id r < 2 ^ 64 - 1) (rm_ranges m) → next_id m ∉ r_id <$> rm_ranges m.
Proof.
  intros Hf (r & Hid & Hr)%list_elem_of_fmap. destruct (max_id_le _ _ Hr) as (x & Hx & Hle & r' & Hr' & <-). unfold next_id in Hid. rewrite Hx in Hid.
  rewrite Forall_forall in Hf. pose proof (Hf _ Hr'). rewrite Z.mod_small in Hid by lia. lia.
Qed.

(** * Cutting and joining *)
Lemma tiles_app from a b : b ≠ [] → tiles from (a ++ b) ↔ ∃ mid, tiles mid b ∧
  match a with [] => from = mid | _ => tiles from (a ++ [mkShards mid None]) end.
Proof.
  intros Hb. revert from. induction a as [|s a IH]; intros from; cbn [app].
  { split; [intros H; by exists from|by intros (mid & H & ->)]. }
  cbn [tiles]. destruct (sr_end s) as [e|].
  - rewrite IH. split.
    + intros (-> & He & mid & H & Hm). exists mid. split; [exact H|]. split; [done|]. split; [done|].
      destruct a as [|s' a]; [subst; cbn; auto|exact Hm].
    + intros (mid & H & -> & He & Hm). split; [done|]. split; [done|]. exists mid. split; [exact H|].
      destruct a as [|s' a]; [|exact Hm]. cbn in Hm. by destruct Hm.
  - split; [intros [_ H]; by apply app_eq_nil in H as [_ ?]|]. intros (mid & _ & _ & H). by apply app_eq_nil in H as [_ ?].
Qed.

(** A piece of a tiling may be replaced by pieces that start and end where it did. *)
Lemma tiles_replace from a s b ss :
  tiles from (a ++ s :: b) → ss ≠ [] → (∀ b', tiles (sr_start s) (s :: b') → tiles (sr_start s) (ss ++ b')) → tiles from (a ++ ss ++ b).
Proof.
  intros Ht Hne Hs. apply (tiles_app from a (s :: b)) in Ht as (mid & Ht & Ha); [|done]. apply tiles_app; [by destruct ss|]. exists mid. split; [|exact Ha].
  pose proof Ht as [<- _]. by apply Hs.
Qed.

Lemma sound_split m at_ m' id :
  sound_map m → 0 <= at_ → Forall (λ r, 0 <= r_id r < 2 ^ 64 - 1) (rm_ranges m) → split m at_ = Ok (m', id) →
  sound_map m' ∧ ∃ i r, rm_ranges m !! i = Some r ∧ shards_contain (r_shards r) at_ = true ∧
    rm_ranges m' = take i (rm_ranges m) ++ set_shards r (mkShards (sr_start (r_shards r)) (Some at_)) ::
      mkRange id (mkShards at_ (sr_end (r_shards r))) (r_group r) (r_primary r) None :: drop (S i) (rm_ranges m).
Proof.
  intros Hm Hat Hids H. unfold split in H. case_bool_decide as Hne; [discriminate|].
  destruct (range_of_spec m at_ Hm Hat) as (r & Hr & Hc & _). rewrite (range_at_some _ _ _ Hr) in H. cbn [mbind Res_bind] in H.
  destruct (Z.eqb_spec at_ (sr_start (r_shards r))) as [|Hb]; [discriminate|]. destruct (r_moving r); [discriminate|]. injection H as <- Hid.
  set (i := range_of m at_) in *. destruct Hm as [Ht Hi Hh]. pose proof (take_drop_middle _ _ _ Hr) as Hsplit.
  unfold shards_contain in Hc. apply andb_true_iff in Hc as [Hc1 Hc2].
  split; [|exists i, r; subst id; split_and!; [exact Hr|unfold shards_contain; by rewrite Hc1, Hc2|reflexivity]]. split; cbn [with_ranges rm_ranges].
  - rewrite fmap_app, !fmap_cons. rewrite <-Hsplit, fmap_app, fmap_cons in Ht.
    apply (tiles_replace _ _ _ _ [_; _] Ht); [done|]. intros b' [_ H]. cbn [set_shards r_shards app tiles sr_start sr_end].
    destruct (sr_end (r_shards r)) as [e|]; [|split; [done|]; split; [lia|]; by split]. destruct H as [He Ht'].
    split; [done|]. split; [lia|]. split; [done|]. split; [lia|exact Ht'].
  - rewrite fmap_app, !fmap_cons. cbn [set_shards r_id]. rewrite <-Hsplit, fmap_app, fmap_cons in Hi.
    pose proof (next_id_fresh m Hids) as Hfresh. rewrite <-Hsplit, fmap_app, fmap_cons in Hfresh. rewrite Hid in Hfresh.
    revert Hi Hfresh. generalize (r_id <$> take i (rm_ranges m)) (r_id <$> drop (S i) (rm_ranges m)). intros x y Hnd Hf.
    rewrite Hid. change (r_id r :: id :: y) with ([r_id r] ++ id :: y). rewrite app_assoc, <-Permutation_middle, <-app_assoc. rewrite NoDup_cons. by split.
  - rewrite <-Hsplit in Hh. apply Forall_app in Hh as [H1 H2]. apply Forall_cons in H2 as [H2 H3]. apply Forall_app. split; [exact H1|].
    repeat constructor; done.
Qed.

Lemma sound_merge m id m' :
  sound_map m → merge m id = Ok m' →
  sound_map m' ∧ ∃ i a b e, rm_ranges m !! i = Some a ∧ rm_ranges m !! S i = Some b ∧ r_id a = id ∧ sr_end (r_shards a) = Some e ∧ sr_start (r_shards b) = e ∧
    sr_start (r_shards a) <= e ∧ r_group a ≡ₚ r_group b ∧ r_primary a = r_primary b ∧
    rm_ranges m' = take i (rm_ranges m) ++ set_shards a (mkShards (sr_start (r_shards a)) (sr_end (r_shards b))) :: drop (S (S i)) (rm_ranges m).
Proof.
  intros [Ht Hi Hh] H. unfold merge in H. destruct (position m id) as [i|] eqn:Ep; [|discriminate]. destruct (position_some _ _ _ Ep) as (a & Ha & Hid).
  destruct (rm_ranges m !! S i) as [b|] eqn:Hb; [|discriminate]. rewrite (range_at_some _ _ _ Ha) in H. cbn [mbind Res_bind] in H.
  case_bool_decide; [discriminate|]. case_bool_decide as Ho; [discriminate|]. injection H as <-.
  assert (r_group a ≡ₚ r_group b ∧ r_primary a = r_primary b) as [Hg Hp].
  { split; [|destruct (decide (r_primary a = r_primary b)); [done|exfalso; apply Ho; by right]].
    destruct (decide (merge_sort (≤)%nat (r_group a) = merge_sort (≤)%nat (r_group b))) as [E|]; [|exfalso; apply Ho; by left].
    by rewrite <-(merge_sort_Permutation (≤)%nat (r_group a)), E, merge_sort_Permutation. }
  destruct (tiles_lookup 0 _ i (r_shards a) Ht) as [_ Hn]; [by rewrite list_lookup_fmap, Ha|].
  destruct (sr_end (r_shards a)) as [e|] eqn:Ea; [|rewrite list_lookup_fmap, Hb in Hn; discriminate]. destruct Hn as (Hae & s' & Hs' & Hse).
  rewrite list_lookup_fmap, Hb in Hs'. injection Hs' as <-.
  assert (rm_ranges m = take i (rm_ranges m) ++ a :: b :: drop (S (S i)) (rm_ranges m)) as Hsplit.
  { rewrite <-(take_drop_middle _ _ _ Ha) at 1. f_equal. f_equal. by rewrite <-(drop_S _ _ _ Hb). }
  split; [|exists i, a, b, e; by split_and!]. split; cbn [with_ranges rm_ranges].
  - rewrite Hsplit in Ht. rewrite fmap_app, fmap_cons. rewrite fmap_app, !fmap_cons in Ht. cbn [set_shards r_shards].
    apply (tiles_app 0) in Ht as (mid & Ht & Hm); [|done]. apply tiles_app; [done|]. exists mid. split; [|exact Hm].
    cbn [tiles sr_start sr_end] in *. rewrite Ea in Ht. destruct Ht as (<- & _ & Hbs & Hbt). split; [done|].
    destruct (sr_end (r_shards b)) as [e2|]; [|exact Hbt]. split; [lia|apply Hbt].
  - rewrite Hsplit in Hi. rewrite fmap_app, fmap_cons. rewrite fmap_app, !fmap_cons in Hi. cbn [set_shards r_id].
    revert Hi. rewrite !NoDup_app, !NoDup_cons. intros (H1 & H2 & H3 & H4 & H5). split_and!; [exact H1| | |exact H5].
    + intros x Hx Hin. apply (H2 x Hx). apply elem_of_cons in Hin as [->|Hin]; [left|by do 2 right].
    + intros Hin. apply H3. by right.
  - rewrite Hsplit in Hh. apply Forall_app in Hh as [H1 H2]. inversion H2 as [|? ? H3 H4]; subst. inversion H4 as [|? ? _ H5]; subst.
    apply Forall_app. split; [exact H1|]. constructor; [exact H3|exact H5].
Qed.

(** * Any change *)
Inductive map_step (m m' : RangeMap) : Prop :=
| step_split at_ id : 0 <= at_ → Forall (λ r, 0 <= r_id r < 2 ^ 64 - 1) (rm_ranges m) → split m at_ = Ok (m', id) → map_step m m'
| step_merge id : merge m id = Ok m' → map_step m m'
| step_begin id target : begin_move m id target = Ok m' → map_step m m'
| step_state id st : set_move_state m id st = Ok m' → map_step m m'
| step_finish id : finish_move m id = Ok m' → map_step m m'
| step_cancel id : cancel_move m id = Ok m' → map_step m m'
| step_add id node : add_holder m id node = Ok m' → map_step m m'
| step_drop id node : drop_holder m id node = Ok m' → map_step m m'
| step_assign id group : assign m id group = Ok m' → map_step m m'
| step_reserve table upto : m' = reserve m table upto → map_step m m'.

(** The operations that name a range replace it in place. *)
Lemma in_place m m' (r r' : Range) i :
  sound_map m → rm_ranges m !! i = Some r → same_place r r' → held r' → rm_ranges m' = <[i := r']> (rm_ranges m) → sound_map m'.
Proof.
  intros Hm Hr Hs Hh E. destruct (sound_insert m i r r' Hm Hr Hs Hh) as [H1 H2 H3]. cbn [with_ranges rm_ranges] in *. split; by rewrite E.
Qed.

Ltac named H :=
  match type of H with
  | context [position ?m ?id] =>
      let i := fresh "i" in let Ep := fresh "Ep" in let r := fresh "r" in let Hr := fresh "Hr" in let Hid := fresh "Hid" in
      destruct (position m id) as [i|] eqn:Ep; [|discriminate H]; destruct (position_some _ _ _ Ep) as (r & Hr & Hid);
      rewrite ?(range_at_some _ _ _ Hr) in H; cbn [mbind Res_bind] in H
  end.

Lemma map_step_sound m m' : sound_map m → map_step m m' → sound_map m'.
Proof.
  intros Hm Hs. pose proof (sm_held _ Hm) as Hh. rewrite Forall_lookup in Hh. destruct Hs as [at_ id H0 Hf H|id H|id tg H|id st H|id H|id H|id nd H|id nd H|id g H|tb up ->].
  - by destruct (sound_split m at_ m' id Hm H0 Hf H).
  - by destruct (sound_merge m id m' Hm H).
  - unfold begin_move in H. named H. destruct (r_moving r); [discriminate|]. case_bool_decide; [discriminate|]. injection H as <-.
    eapply in_place; [exact Hm|exact Hr| | |reflexivity]; [by split|exact (Hh _ _ Hr)].
  - unfold set_move_state in H. named H. destruct (r_moving r); [|discriminate]. injection H as <-.
    eapply in_place; [exact Hm|exact Hr| | |reflexivity]; [by split|exact (Hh _ _ Hr)].
  - unfold finish_move in H. named H. destruct (r_moving r) as [mv|]; [|discriminate]. injection H as <-.
    eapply in_place; [exact Hm|exact Hr| | |reflexivity]; [by split|]. unfold held. cbn. left.
  - unfold cancel_move in H. named H. destruct (r_moving r); [|discriminate]. injection H as <-.
    eapply in_place; [exact Hm|exact Hr| | |reflexivity]; [by split|exact (Hh _ _ Hr)].
  - unfold add_holder in H. named H. case_bool_decide; [discriminate|]. injection H as <-.
    eapply (in_place _ _ r (set_group r (r_group r ++ [nd]) (r_primary r))); [exact Hm|exact Hr|by split| |by case_bool_decide].
    unfold held. cbn. apply elem_of_app. left. exact (Hh _ _ Hr).
  - unfold drop_holder in H. named H. case_bool_decide as Hp; [discriminate|]. case_bool_decide; cbn [negb] in H; [|discriminate]. injection H as <-.
    eapply in_place; [exact Hm|exact Hr| | |reflexivity]; [by split|]. unfold held. cbn. apply elem_of_Lfilter. split; [exact (Hh _ _ Hr)|]. by rewrite bool_decide_false.
  - unfold assign in H. named H. destruct g as [|p g]; [discriminate|]. cbn [mbind Res_bind] in H. injection H as <-.
    eapply in_place; [exact Hm|exact Hr| | |reflexivity]; [by split|]. unfold held. cbn. left.
  - destruct Hm as [H1 H2 H3]. by split.
Qed.

(** * Who answers *)

(** A read of [shard] is routed to the range [range_of] names: its holders and the one that serves it. *)
Definition answers (m : RangeMap) (shard : ShardId) (group : list NodeId) (primary : NodeId) : Prop :=
  ∃ r, rm_ranges m !! range_of m shard = Some r ∧ r_group r = group ∧ r_primary r = primary.

Lemma answers_iff m shard g p :
  sound_map m → 0 <= shard →
  answers m shard g p ↔ ∃ r, r ∈ rm_ranges m ∧ shards_contain (r_shards r) shard = true ∧ r_group r = g ∧ r_primary r = p.
Proof.
  intros Hm Hs. destruct (range_of_spec m shard Hm Hs) as (r & Hr & Hc & Hu). split.
  - intros (r' & Hr' & Hg). assert (r' = r) as -> by congruence. exists r. split_and!; [by eapply list_elem_of_lookup_2|exact Hc|apply Hg..].
  - intros (r' & (j & Hj)%list_elem_of_lookup & Hc' & Hg). exists r'. rewrite <-(Hu j r' Hj Hc'). by split.
Qed.

Lemma elem_of_middle {A} (l : list A) i x y : l !! i = Some x → y ∈ l ↔ y = x ∨ y ∈ take i l ++ drop (S i) l.
Proof. intros Hx. rewrite <-(take_drop_middle _ _ _ Hx) at 1. rewrite !elem_of_app, elem_of_cons. tauto. Qed.

Lemma answers_split m at_ m' id shard g p :
  sound_map m → 0 <= at_ → 0 <= shard → Forall (λ r, 0 <= r_id r < 2 ^ 64 - 1) (rm_ranges m) → split m at_ = Ok (m', id) →
  answers m shard g p → answers m' shard g p.
Proof.
  intros Hm Ha Hs Hf H. destruct (sound_split m at_ m' id Hm Ha Hf H) as (Hm' & i & r & Hr & Hc & E).
  rewrite !answers_iff by done. rewrite E. intros (x & Hx & Hxc & Hg & Hp). apply (elem_of_middle _ _ _ _ Hr) in Hx as [->|Hx].
  - unfold shards_contain in *. destruct (Z.ltb_spec shard at_) as [Hlt|Hge].
    + exists (set_shards r (mkShards (sr_start (r_shards r)) (Some at_))). split_and!; [apply elem_of_app; right; left|cbn; lia|exact Hg|exact Hp].
    + exists (mkRange id (mkShards at_ (sr_end (r_shards r))) (r_group r) (r_primary r) None).
      split_and!; [apply elem_of_app; right; right; left| |exact Hg|exact Hp]. cbn. destruct (sr_end (r_shards r)); lia.
  - exists x. split_and!; [|exact Hxc|exact Hg|exact Hp]. apply elem_of_app in Hx as [Hx|Hx]; apply elem_of_app; [by left|by do 3 right].
Qed.

Lemma answers_merge m id m' shard g p :
  sound_map m → 0 <= shard → merge m id = Ok m' → answers m shard g p → ∃ g', g' ≡ₚ g ∧ answers m' shard g' p.
Proof.
  intros Hm Hs H. destruct (sound_merge m id m' Hm H) as (Hm' & i & a & b & e & Ha & Hb & _ & Hae & Hbs & Hle & Hgab & Hpab & E).
  rewrite answers_iff by done. intros (x & Hx & Hxc & Hg & Hp).
  assert (∀ y, y ∈ rm_ranges m ↔ y = a ∨ y = b ∨ y ∈ take i (rm_ranges m) ++ drop (S (S i)) (rm_ranges m)) as Hmem.
  { intros y. rewrite (elem_of_middle _ _ _ y Ha), !elem_of_app, (drop_S _ _ _ Hb), elem_of_cons. tauto. }
  set (j := set_shards a (mkShards (sr_start (r_shards a)) (sr_end (r_shards b)))) in *.
  assert (shards_contain (r_shards a) shard = true ∨ shards_contain (r_shards b) shard = true → answers m' shard (r_group a) (r_primary a)) as Hj.
  { intros Hc. apply answers_iff; [done..|]. exists j. rewrite E. split_and!; [apply elem_of_app; right; left| |done..].
    destruct (tiles_lookup 0 _ (S i) (r_shards b) (sm_tiles _ Hm)) as [_ Hn]; [by rewrite list_lookup_fmap, Hb|].
    unfold shards_contain in *. cbn. rewrite Hae, Hbs in Hc. destruct (sr_end (r_shards b)); [destruct Hn|]; lia. }
  apply Hmem in Hx as [->|[->|Hx]].
  - exists g. split; [done|]. rewrite <-Hg, <-Hp. apply Hj. by left.
  - exists (r_group a). split; [by rewrite <-Hg|]. rewrite <-Hp, <-Hpab. apply Hj. by right.
  - exists g. split; [done|]. apply answers_iff; [done..|]. exists x. rewrite E. split_and!; [|exact Hxc|exact Hg|exact Hp].
    apply elem_of_app in Hx as [Hx|Hx]; apply elem_of_app; [by left|by do 2 right].
Qed.

(** A range replaced in place answers as its replacement says; the others answer as before. *)
Lemma answers_insert m i r r' shard g p :
  rm_ranges m !! i = Some r → same_place r r' → answers m shard g p →
  answers (with_ranges m (<[i := r']> (rm_ranges m))) shard (if decide (range_of m shard = i) then r_group r' else g)
    (if decide (range_of m shard = i) then r_primary r' else p).
Proof.
  intros Hr Hs (x & Hx & Hg & Hp). unfold answers. rewrite (range_of_insert m i r r' shard Hr Hs). cbn [with_ranges rm_ranges].
  destruct (decide _) as [->|Hne].
  - exists r'. rewrite list_lookup_insert_eq by (by eapply lookup_lt_Some). done.
  - exists x. rewrite list_lookup_insert_ne by done. done.
Qed.

(** * The claims *)

(** C35.  What a checked map is.  [check] accepts exactly the maps whose ranges, in the order they stand,
    cut the space of shards into consecutive pieces from zero to an open end, under distinct ids, each
    with its primary in its group; and on such a map the bisection of [range_of] finds, for every shard,
    the one range that contains it. *)
Theorem range_map_total m :
  (check m = Ok tt ↔ sound_map m) ∧
  (check m = Ok tt → ∀ shard, 0 <= shard → ∃ r, rm_ranges m !! range_of m shard = Some r ∧ shards_contain (r_shards r) shard = true ∧
    ∀ j r', rm_ranges m !! j = Some r' → shards_contain (r_shards r') shard = true → j = range_of m shard).
Proof. split; [apply check_ok|]. intros H%check_ok shard Hs. by apply range_of_spec. Qed.

(** C36.  Changing the map.  Every split, merge, move, change of holders, assignment and reservation
    of a checked map that is not refused leaves a checked map, and so does any sequence of them. *)
Theorem range_map_stays_checked m m' : check m = Ok tt → rtc map_step m m' → check m' = Ok tt.
Proof.
  rewrite !check_ok. intros Hm Hr. induction Hr as [m|m m1 m' Hs _ IH]; [exact Hm|]. by apply IH, (map_step_sound m).
Qed.

(** Who answers, before and after.  Splitting and merging move no data: every shard is answered
    by the same node, held by the same group.  Starting, advancing or cancelling a move changes
    nobody's answer, and finishing one hands the shards of that range, and no other shard, to the
    target alone. *)
Theorem range_map_ownership m shard g p :
  sound_map m → 0 <= shard → answers m shard g p →
  (∀ at_ m' id, 0 <= at_ → Forall (λ r, 0 <= r_id r < 2 ^ 64 - 1) (rm_ranges m) → split m at_ = Ok (m', id) → answers m' shard g p) ∧
  (∀ id m', merge m id = Ok m' → ∃ g', g' ≡ₚ g ∧ answers m' shard g' p) ∧
  (∀ id target m', begin_move m id target = Ok m' → answers m' shard g p) ∧
  (∀ id st m', set_move_state m id st = Ok m' → answers m' shard g p) ∧
  (∀ id m', cancel_move m id = Ok m' → answers m' shard g p) ∧
  (∀ id m', finish_move m id = Ok m' → ∃ i mv, position m id = Some i ∧ (rm_ranges m !! i ≫= r_moving) = Some mv ∧
     answers m' shard (if decide (range_of m shard = i) then [mv_target mv] else g) (if decide (range_of m shard = i) then mv_target mv else p)).
Proof.
  intros Hm Hs Ha.
  assert (∀ i r mv, rm_ranges m !! i = Some r → answers (with_ranges m (<[i := set_moving r mv]> (rm_ranges m))) shard g p) as Hmv.
  { intros i r mv Hr. pose proof (answers_insert m i r (set_moving r mv) shard g p Hr ltac:(by split) Ha) as H.
    destruct (decide (range_of m shard = i)) as [Hi|]; [|exact H]. destruct Ha as (x & Hx & <- & <-). rewrite Hi, Hr in Hx. by injection Hx as <-. }
  split_and!.
  - intros at_ m' id H0 Hf H. by eapply answers_split.
  - intros id m' H. by eapply answers_merge.
  - intros id tg m' H. unfold begin_move in H. named H. destruct (r_moving r); [discriminate|]. case_bool_decide; [discriminate|]. injection H as <-. by apply Hmv.
  - intros id st m' H. unfold set_move_state in H. named H. destruct (r_moving r); [|discriminate]. injection H as <-. by apply Hmv.
  - intros id m' H. unfold cancel_move in H. named H. destruct (r_moving r); [|discriminate]. injection H as <-. by apply Hmv.
  - intros id m' H. unfold finish_move in H. named H. destruct (r_moving r) as [mv|] eqn:Em; [|discriminate]. injection H as <-.
    exists i, mv. split; [done|]. split; [by rewrite Hr|]. by apply (answers_insert m i r (set_moving (set_group r [mv_target mv] (mv_target mv)) None)).
Qed.

(** * A small map *)
Definition two_ranges : RangeMap :=
  mkRangeMap 4 [mkRange 0 (mkShards 0 (Some 10)) [1; 2]%nat 1%nat None; mkRange 1 (mkShards 10 None) [2; 0]%nat 2%nat None] [] 0%nat [] true.

Lemma range_map_total_witness : check two_ranges = Ok tt ∧ ∃ r, rm_ranges two_ranges !! range_of two_ranges 25 = Some r ∧ shards_contain (r_shards r) 25 = true.
Proof.
  assert (check two_ranges = Ok tt) as H by (vm_compute; reflexivity). split; [exact H|].
  destruct (proj2 (range_map_total two_ranges) H 25) as (r & Hr & Hc & _); [lia|]. exists r. by split.
Defined.

Lemma range_map_stays_checked_witness :
  ∃ m', split two_ranges 4 = Ok (m', 2) ∧ check m' = Ok tt ∧ r_id <$> rm_ranges m' = [0; 2; 1].
Proof.
  eexists. split; [vm_compute; reflexivity|]. split; [|vm_compute; reflexivity].
  eapply (range_map_stays_checked two_ranges); [vm_compute; reflexivity|]. apply rtc_once. eapply (step_split _ _ 4 2); [lia| |vm_compute; reflexivity].
  repeat (constructor; [cbn; lia|]). constructor.
Defined.

Lemma range_map_ownership_witness :
  ∃ m1 m2, begin_move two_ranges 1 1%nat = Ok m1 ∧ finish_move m1 1 = Ok m2 ∧ answers m1 25 [2; 0]%nat 2%nat ∧ answers m2 25 [1]%nat 1%nat ∧ answers m2 3 [1; 2]%nat 1%nat.
Proof.
  assert (sound_map two_ranges) as Hm by (apply check_ok; vm_compute; reflexivity).
  eexists _, _. split; [vm_compute; reflexivity|]. split; [vm_compute; reflexivity|]. split.
  - destruct (range_map_ownership two_ranges 25 [2; 0]%nat 2%nat Hm ltac:(lia)) as (_ & _ & Hb & _).
    + eexists. split; [vm_compute; reflexivity|]. by split.
    + apply (Hb 1 1%nat). vm_compute. reflexivity.
  - split; eexists; (split; [vm_compute; reflexivity|]); by split.
Defined.
