(* ===== verification/Raft.v ===== *)
(** Agreement over the map of ranges: one node of the protocol
    (crates/big-cluster/src/raft.rs, [Raft] and its messages).

    The module of the source has no input, no output and no clock: every decision is a function of
    the state, a message and a timestamp, and every effect comes back in an [Output].  So a node here
    is a record, and [tick], [deliver] and [propose] are functions from a record to a record and an
    output.  Terms, log positions and milliseconds are integers without a width: they are [u64]
    counters that start at zero. *)
From S2P Require Import Prelude Bits RangeMap.

Abbreviation Term := Z (only parsing).
Abbreviation Index := Z (only parsing).

(** * Decisions, entries and messages *)
Inductive Decision := Noop | Ranges (m : RangeMap) | Members (ms : list Member).
Record Entry := mkEntry { e_term : Term; e_decision : Decision }.
Inductive Role := Follower | Candidate | Leader.
#[export] Instance Decision_eq_dec : EqDecision Decision. Proof. solve_decision. Defined.
#[export] Instance Entry_eq_dec : EqDecision Entry. Proof. solve_decision. Defined.
#[export] Instance Role_eq_dec : EqDecision Role. Proof. solve_decision. Defined.

Definition is_members (d : Decision) : bool := match d with Members _ => true | _ => false end.
Definition is_ranges (d : Decision) : bool := match d with Ranges _ => true | _ => false end.

Inductive Message :=
| RequestVote (term : Term) (candidate : NodeId) (last_index : Index) (last_term : Term)
| VoteReply (term : Term) (from : NodeId) (granted : bool)
| Append (term : Term) (leader : NodeId) (prev_index : Index) (prev_term : Term) (entries : list Entry) (commit : Index)
| AppendReply (term : Term) (from : NodeId) (success : bool) (match_index : Index)
| Snapshot (term : Term) (leader : NodeId) (index : Index) (last_term : Term) (ranges : RangeMap) (members : list Member).

Record Timing := mkTiming { tm_election_min : Z; tm_election_spread : Z; tm_heartbeat : Z }.
Definition ELECTION_MIN_MS : Z := 1500.
Definition ELECTION_SPREAD_MS : Z := 1500.
Definition HEARTBEAT_MS : Z := 400.
Definition default_timing : Timing := mkTiming ELECTION_MIN_MS ELECTION_SPREAD_MS HEARTBEAT_MS.

Record Output := mkOutput { o_send : list (NodeId * Message); o_persist : bool; o_applied : list Decision }.
Definition no_output : Output := mkOutput [] false [].
(** [Output::to]. *)
Definition out_to (o : Output) (node : NodeId) (m : Message) : Output := mkOutput (o_send o ++ [(node, m)]) (o_persist o) (o_applied o).
Definition out_persist (o : Output) : Output := mkOutput (o_send o) true (o_applied o).
Definition out_apply (o : Output) (d : Decision) : Output := mkOutput (o_send o) (o_persist o) (o_applied o ++ [d]).

(** * One node *)
Record Raft := mkRaft {
  rf_id : NodeId;
  rf_seed : list Member;
  rf_members : list Member;
  rf_voters : list NodeId;
  rf_leader_commit : Index;
  rf_timing : Timing;
  rf_term : Term;
  rf_voted_for : option NodeId;
  rf_log : list Entry;
  rf_base : Index;
  rf_role : Role;
  rf_leader : option NodeId;
  rf_commit : Index;
  rf_applied : Index;
  rf_votes : gset NodeId;
  rf_next : gmap NodeId Index;
  rf_matched : gmap NodeId Index;
  rf_election_at : Z;
  rf_heartbeat_at : Z;
  rf_leader_at : option Z;
  rf_heard : gmap NodeId Z
}.

(** One setter per field. *)
Definition set_seed (r : Raft) (x : list Member) : Raft :=
  mkRaft (rf_id r) x (rf_members r) (rf_voters r) (rf_leader_commit r) (rf_timing r) (rf_term r) (rf_voted_for r) (rf_log r) (rf_base r) (rf_role r) (rf_leader r) (rf_commit r) (rf_applied r) (rf_votes r) (rf_next r) (rf_matched r) (rf_election_at r) (rf_heartbeat_at r) (rf_leader_at r) (rf_heard r).
Definition set_members (r : Raft) (x : list Member) : Raft :=
  mkRaft (rf_id r) (rf_seed r) x (rf_voters r) (rf_leader_commit r) (rf_timing r) (rf_term r) (rf_voted_for r) (rf_log r) (rf_base r) (rf_role r) (rf_leader r) (rf_commit r) (rf_applied r) (rf_votes r) (rf_next r) (rf_matched r) (rf_election_at r) (rf_heartbeat_at r) (rf_leader_at r) (rf_heard r).
Definition set_voters (r : Raft) (x : list NodeId) : Raft :=
  mkRaft (rf_id r) (rf_seed r) (rf_members r) x (rf_leader_commit r) (rf_timing r) (rf_term r) (rf_voted_for r) (rf_log r) (rf_base r) (rf_role r) (rf_leader r) (rf_commit r) (rf_applied r) (rf_votes r) (rf_next r) (rf_matched r) (rf_election_at r) (rf_heartbeat_at r) (rf_leader_at r) (rf_heard r).
Definition set_leader_commit (r : Raft) (x : Index) : Raft :=
  mkRaft (rf_id r) (rf_seed r) (rf_members r) (rf_voters r) x (rf_timing r) (rf_term r) (rf_voted_for r) (rf_log r) (rf_base r) (rf_role r) (rf_leader r) (rf_commit r) (rf_applied r) (rf_votes r) (rf_next r) (rf_matched r) (rf_election_at r) (rf_heartbeat_at r) (rf_leader_at r) (rf_heard r).
Definition set_term (r : Raft) (x : Term) : Raft :=
  mkRaft (rf_id r) (rf_seed r) (rf_members r) (rf_voters r) (rf_leader_commit r) (rf_timing r) x (rf_voted_for r) (rf_log r) (rf_base r) (rf_role r) (rf_leader r) (rf_commit r) (rf_applied r) (rf_votes r) (rf_next r) (rf_matched r) (rf_election_at r) (rf_heartbeat_at r) (rf_leader_at r) (rf_heard r).
Definition set_voted_for (r : Raft) (x : option NodeId) : Raft :=
  mkRaft (rf_id r) (rf_seed r) (rf_members r) (rf_voters r) (rf_leader_commit r) (rf_timing r) (rf_term r) x (rf_log r) (rf_base r) (rf_role r) (rf_leader r) (rf_commit r) (rf_applied r) (rf_votes r) (rf_next r) (rf_matched r) (rf_election_at r) (rf_heartbeat_at r) (rf_leader_at r) (rf_heard r).
Definition set_log (r : Raft) (x : list Entry) : Raft :=
  mkRaft (rf_id r) (rf_seed r) (rf_members r) (rf_voters r) (rf_leader_commit r) (rf_timing r) (rf_term r) (rf_voted_for r) x (rf_base r) (rf_role r) (rf_leader r) (rf_commit r) (rf_applied r) (rf_votes r) (rf_next r) (rf_matched r) (rf_election_at r) (rf_heartbeat_at r) (rf_leader_at r) (rf_heard r).
Definition set_base (r : Raft) (x : Index) : Raft :=
  mkRaft (rf_id r) (rf_seed r) (rf_members r) (rf_voters r) (rf_leader_commit r) (rf_timing r) (rf_term r) (rf_voted_for r) (rf_log r) x (rf_role r) (rf_leader r) (rf_commit r) (rf_applied r) (rf_votes r) (rf_next r) (rf_matched r) (rf_election_at r) (rf_heartbeat_at r) (rf_leader_at r) (rf_heard r).
Definition set_role (r : Raft) (x : Role) : Raft :=
  mkRaft (rf_id r) (rf_seed r) (rf_members r) (rf_voters r) (rf_leader_commit r) (rf_timing r) (rf_term r) (rf_voted_for r) (rf_log r) (rf_base r) x (rf_leader r) (rf_commit r) (rf_applied r) (rf_votes r) (rf_next r) (rf_matched r) (rf_election_at r) (rf_heartbeat_at r) (rf_leader_at r) (rf_heard r).
Definition set_leader (r : Raft) (x : option NodeId) : Raft :=
  mkRaft (rf_id r) (rf_seed r) (rf_members r) (rf_voters r) (rf_leader_commit r) (rf_timing r) (rf_term r) (rf_voted_for r) (rf_log r) (rf_base r) (rf_role r) x (rf_commit r) (rf_applied r) (rf_votes r) (rf_next r) (rf_matched r) (rf_election_at r) (rf_heartbeat_at r) (rf_leader_at r) (rf_heard r).
Definition set_commit (r : Raft) (x : Index) : Raft :=
  mkRaft (rf_id r) (rf_seed r) (rf_members r) (rf_voters r) (rf_leader_commit r) (rf_timing r) (rf_term r) (rf_voted_for r) (rf_log r) (rf_base r) (rf_role r) (rf_leader r) x (rf_applied r) (rf_votes r) (rf_next r) (rf_matched r) (rf_election_at r) (rf_heartbeat_at r) (rf_leader_at r) (rf_heard r).
Definition set_applied (r : Raft) (x : Index) : Raft :=
  mkRaft (rf_id r) (rf_seed r) (rf_members r) (rf_voters r) (rf_leader_commit r) (rf_timing r) (rf_term r) (rf_voted_for r) (rf_log r) (rf_base r) (rf_role r) (rf_leader r) (rf_commit r) x (rf_votes r) (rf_next r) (rf_matched r) (rf_election_at r) (rf_heartbeat_at r) (rf_leader_at r) (rf_heard r).
Definition set_votes (r : Raft) (x : gset NodeId) : Raft :=
  mkRaft (rf_id r) (rf_seed r) (rf_members r) (rf_voters r) (rf_leader_commit r) (rf_timing r) (rf_term r) (rf_voted_for r) (rf_log r) (rf_base r) (rf_role r) (rf_leader r) (rf_commit r) (rf_applied r) x (rf_next r) (rf_matched r) (rf_election_at r) (rf_heartbeat_at r) (rf_leader_at r) (rf_heard r).
Definition set_next (r : Raft) (x : gmap NodeId Index) : Raft :=
  mkRaft (rf_id r) (rf_seed r) (rf_members r) (rf_voters r) (rf_leader_commit r) (rf_timing r) (rf_term r) (rf_voted_for r) (rf_log r) (rf_base r) (rf_role r) (rf_leader r) (rf_commit r) (rf_applied r) (rf_votes r) x (rf_matched r) (rf_election_at r) (rf_heartbeat_at r) (rf_leader_at r) (rf_heard r).
Definition set_matched (r : Raft) (x : gmap NodeId Index) : Raft :=
  mkRaft (rf_id r) (rf_seed r) (rf_members r) (rf_voters r) (rf_leader_commit r) (rf_timing r) (rf_term r) (rf_voted_for r) (rf_log r) (rf_base r) (rf_role r) (rf_leader r) (rf_commit r) (rf_applied r) (rf_votes r) (rf_next r) x (rf_election_at r) (rf_heartbeat_at r) (rf_leader_at r) (rf_heard r).
Definition set_election_at (r : Raft) (x : Z) : Raft :=
  mkRaft (rf_id r) (rf_seed r) (rf_members r) (rf_voters r) (rf_leader_commit r) (rf_timing r) (rf_term r) (rf_voted_for r) (rf_log r) (rf_base r) (rf_role r) (rf_leader r) (rf_commit r) (rf_applied r) (rf_votes r) (rf_next r) (rf_matched r) x (rf_heartbeat_at r) (rf_leader_at r) (rf_heard r).
Definition set_heartbeat_at (r : Raft) (x : Z) : Raft :=
  mkRaft (rf_id r) (rf_seed r) (rf_members r) (rf_voters r) (rf_leader_commit r) (rf_timing r) (rf_term r) (rf_voted_for r) (rf_log r) (rf_base r) (rf_role r) (rf_leader r) (rf_commit r) (rf_applied r) (rf_votes r) (rf_next r) (rf_matched r) (rf_election_at r) x (rf_leader_at r) (rf_heard r).
Definition set_leader_at (r : Raft) (x : option Z) : Raft :=
  mkRaft (rf_id r) (rf_seed r) (rf_members r) (rf_voters r) (rf_leader_commit r) (rf_timing r) (rf_term r) (rf_voted_for r) (rf_log r) (rf_base r) (rf_role r) (rf_leader r) (rf_commit r) (rf_applied r) (rf_votes r) (rf_next r) (rf_matched r) (rf_election_at r) (rf_heartbeat_at r) x (rf_heard r).
Definition set_heard (r : Raft) (x : gmap NodeId Z) : Raft :=
  mkRaft (rf_id r) (rf_seed r) (rf_members r) (rf_voters r) (rf_leader_commit r) (rf_timing r) (rf_term r) (rf_voted_for r) (rf_log r) (rf_base r) (rf_role r) (rf_leader r) (rf_commit r) (rf_applied r) (rf_votes r) (rf_next r) (rf_matched r) (rf_election_at r) (rf_heartbeat_at r) (rf_leader_at r) x.

(** What a restart may not lose. *)
Record State := mkState {
  st_term : Term; st_voted_for : option NodeId; st_commit : Index; st_base : Index; st_log : list Entry; st_seed : list Member
}.

(** [voters_of]. *)
Definition voters_of (members : list Member) : list NodeId :=
  List.filter (λ i, match members !! i with Some m => member_votes m | None => false end) (seq 0 (length members)).

(** [differences]: how many slots two member lists differ in. *)
Definition differences (before after : list Member) : nat :=
  let common := Nat.min (length before) (length after) in
  length (List.filter (λ i, negb (bool_decide (before !! i = after !! i))) (seq 0 common)) +
  ((length before - length after) + (length after - length before)).

Definition last_index (r : Raft) : Index := rf_base r + Z.of_nat (length (rf_log r)) - 1.
Definition last_term (r : Raft) : Term := match last (rf_log r) with Some e => e_term e | None => 0 end.

(** [self.log.get((index - self.base) as usize)], [None] below the base. *)
Definition entry_at (r : Raft) (index : Index) : option Entry :=
  if index <? rf_base r then None else rf_log r !! Z.to_nat (index - rf_base r).
Definition term_at (r : Raft) (index : Index) : option Term := e_term <$> entry_at r index.
Definition entries_from (r : Raft) (from : Index) : list Entry :=
  if from <? rf_base r then [] else drop (Z.to_nat (from - rf_base r)) (rf_log r).

Definition majority (r : Raft) : nat := length (rf_voters r) / 2 + 1.
Definition i_vote (r : Raft) : bool := bool_decide (rf_id r ∈ rf_voters r).
Definition peers (r : Raft) : list NodeId :=
  List.filter (λ n, negb (bool_decide (n = rf_id r)) && match rf_members r !! n with Some m => reachable m | None => false end)
    (seq 0 (length (rf_members r))).
Definition settled (r : Raft) : bool := rf_commit r =? last_index r.
Definition behind (r : Raft) : bool := rf_commit r <? rf_leader_commit r.
Definition is_leader (r : Raft) : bool := bool_decide (rf_role r = Leader).

(** [timeout]: the mix of id and term that spreads elections out, on 64-bit words. *)
Definition timeout (r : Raft) : Z :=
  let h := Z.lxor ((Z.of_nat (rf_id r) * 0x9e3779b97f4a7c15) mod 2 ^ 64) (rf_term r) in
  let h := Z.lxor h (Z.shiftr h 33) in
  let h := (h * 0xff51afd7ed558ccd) mod 2 ^ 64 in
  let h := Z.lxor h (Z.shiftr h 29) in
  tm_election_min (rf_timing r) + h mod Z.max (tm_election_spread (rf_timing r)) 1.
Definition reset_election (r : Raft) (now : Z) : Raft := set_election_at r (now + timeout r).

(** [refresh_members]. *)
Fixpoint latest_members (log : list Entry) : option (list Member) :=
  match log with
  | [] => None
  | e :: log' => match latest_members log' with Some ms => Some ms | None => match e_decision e with Members ms => Some ms | _ => None end end
  end.
Definition refresh_members (r : Raft) : Raft :=
  let members := default (rf_seed r) (latest_members (rf_log r)) in
  set_voters (set_members r members) (voters_of members).

(** [Raft::new]. *)
Definition raft_new (id : NodeId) (members : list Member) (timing : Timing) (now : Z) : Raft :=
  reset_election
    (mkRaft id members members (voters_of members) 0 timing 0 None [mkEntry 0 Noop] 0 Follower None 0 0 ∅ ∅ ∅ 0 0 None ∅) now.

(** [x.clamp(lo, hi)]. *)
Definition clamp (x lo hi : Z) : Z := if x <? lo then lo else if hi <? x then hi else x.

Definition restore (r : Raft) (s : State) : Raft :=
  let r := set_voted_for (set_term r (st_term s)) (st_voted_for s) in
  let r := if bool_decide (st_log s = []) then r else set_log r (st_log s) in
  let r := if bool_decide (st_seed s = []) then r else set_seed r (st_seed s) in
  let r := refresh_members r in
  let r := set_base r (st_base s) in
  let r := set_commit r (clamp (st_commit s) (rf_base r) (last_index r)) in
  set_applied r (Z.max 0 (rf_base r - 1)).

Definition raft_state (r : Raft) : State :=
  mkState (rf_term r) (rf_voted_for r) (rf_commit r) (rf_base r) (rf_log r) (rf_seed r).

(** [leader_in_touch]. *)
Definition leader_in_touch (r : Raft) (now : Z) : bool :=
  match rf_leader r, rf_leader_at r with
  | Some _, Some at_ => Z.max 0 (now - at_) <? tm_election_min (rf_timing r)
  | _, _ => false
  end.

(** [may_change_members]. *)
Definition may_change_members (r : Raft) (next : list Member) : bool := (differences (rf_members r) next <=? 1)%nat.

(** ** Compaction *)
Definition KEEP_ENTRIES : Z := 64.

(** [iter().rposition(..)], as a log position. *)
Fixpoint rposition (want : Decision → bool) (log : list Entry) : option nat :=
  match log with
  | [] => None
  | e :: log' => match rposition want log' with Some i => Some (S i) | None => if want (e_decision e) then Some 0%nat else None end
  end.
Definition anchor (r : Raft) (want : Decision → bool) : option Z := (λ at_, rf_base r + Z.of_nat at_) <$> rposition want (rf_log r).

(** [iter().min()]. *)
Definition min_of (l : list Z) : option Z := match l with [] => None | x :: l' => Some (foldl Z.min x l') end.

Definition compact_target (r : Raft) (keep : Z) : Z :=
  let safe := Z.min (default 0 (min_of (map (λ n, default 0 (rf_matched r !! n)) (rf_voters r)))) (rf_applied r) in
  let target := Z.max 0 (safe - keep) in
  let keep_from := min_of (option_list (anchor r is_ranges) ++ option_list (anchor r is_members)) in
  match keep_from with Some k => Z.min target k | None => target end.

Definition compact (r : Raft) (keep : Z) : Raft :=
  if negb (is_leader r) then r
  else
    let target := compact_target r keep in
    if target <=? rf_base r then r
    else set_base (set_log r (drop (Z.to_nat (target - rf_base r)) (rf_log r))) target.

(** [applied_state]: the decisions up to [applied], replayed. *)
Fixpoint replay (index applied : Z) (log : list Entry) (ranges : RangeMap) (members : list Member) : RangeMap * list Member :=
  match log with
  | [] => (ranges, members)
  | e :: log' =>
      if applied <? index then (ranges, members)
      else match e_decision e with
           | Ranges m => replay (index + 1) applied log' m members
           | Members ms => replay (index + 1) applied log' ranges ms
           | Noop => replay (index + 1) applied log' ranges members
           end
  end.
Definition applied_state (r : Raft) : RangeMap * list Member := replay (rf_base r) (rf_applied r) (rf_log r) empty_map (rf_seed r).

(** ** Steps shared by the handlers *)
Definition observe (r : Raft) (term : Term) (out : Output) : Raft * Output :=
  if rf_term r <? term
  then (set_votes (set_leader (set_role (set_voted_for (set_term r term) None) Follower) None) ∅, out_persist out)
  else (r, out).

(** [apply]: the decisions that became committed, in order. *)
Fixpoint apply_loop (fuel : nat) (r : Raft) (out : Output) : Raft * Output :=
  match fuel with
  | O => (r, out)
  | S fuel' =>
      if rf_applied r <? rf_commit r then
        let r := set_applied r (rf_applied r + 1) in
        apply_loop fuel' r (match entry_at r (rf_applied r) with Some e => out_apply out (e_decision e) | None => out end)
      else (r, out)
  end.
Definition apply (r : Raft) (out : Output) : Raft * Output := apply_loop (Z.to_nat (rf_commit r - rf_applied r)) r out.

(** How many voters are known to hold [index]. *)
Definition replicas (r : Raft) (index : Index) : nat :=
  length (List.filter (λ m, match rf_matched r !! m with Some x => index <=? x | None => false end) (rf_voters r)).

(** [for index in (self.commit + 1)..=self.last_index()]. *)
Definition commit_candidate (r : Raft) : Index :=
  foldl (λ candidate index,
      if bool_decide (term_at r index = Some (rf_term r)) && (majority r <=? replicas r index)%nat then index else candidate)
    (rf_commit r) (seqZ (rf_commit r + 1) (last_index r - rf_commit r)).

Definition advance_commit (r : Raft) (out : Output) : Raft * Output :=
  let candidate := commit_candidate r in
  if rf_commit r <? candidate then apply (set_commit r candidate) out else (r, out).

Definition send_append (r : Raft) (peer : NodeId) (out : Output) : Output :=
  let next := default (last_index r + 1) (rf_next r !! peer) in
  let prev_index := Z.max 0 (next - 1) in
  if prev_index <? rf_base r then
    let '(ranges, members) := applied_state r in
    out_to out peer (Snapshot (rf_term r) (rf_id r) (rf_applied r) (default (rf_term r) (term_at r (rf_applied r))) ranges members)
  else
    out_to out peer (Append (rf_term r) (rf_id r) prev_index (default 0 (term_at r prev_index)) (entries_from r next) (rf_commit r)).
Definition send_appends (r : Raft) (to : list NodeId) (out : Output) : Output := foldl (λ out p, send_append r p out) out to.

(** ** Elections *)
Definition win (r : Raft) (now : Z) (out : Output) : Raft * Output :=
  let r := set_leader_at (set_leader (set_role r Leader) (Some (rf_id r))) (Some now) in
  let r := set_next r (foldl (λ m p, <[p := last_index r + 1]> m) ∅ (peers r)) in
  let r := set_matched r (<[rf_id r := last_index r]> (foldl (λ m p, <[p := 0]> m) ∅ (peers r))) in
  let r := set_log r (rf_log r ++ [mkEntry (rf_term r) Noop]) in
  let r := set_matched r (<[rf_id r := last_index r]> (rf_matched r)) in
  let r := set_heartbeat_at r (now + tm_heartbeat (rf_timing r)) in
  advance_commit r (send_appends r (List.filter (λ p, negb (bool_decide (p = rf_id r))) (peers r)) (out_persist out)).

Definition stand (r : Raft) (now : Z) (out : Output) : Raft * Output :=
  if negb (i_vote r) then (reset_election r now, out)
  else
    let r := set_term r (rf_term r + 1) in
    let r := set_leader (set_votes (set_voted_for (set_role r Candidate) (Some (rf_id r))) {[rf_id r]}) None in
    let r := reset_election r now in
    let out := out_persist out in
    if (majority r <=? size (rf_votes r))%nat then win r now out
    else (r, foldl (λ out p, out_to out p (RequestVote (rf_term r) (rf_id r) (last_index r) (last_term r))) out (peers r)).

(** [grant]: the vote rule. *)
Definition grant (r : Raft) (term : Term) (candidate : NodeId) (last_idx : Index) (last_trm : Term) : bool :=
  if term <? rf_term r then false
  else if negb (bool_decide (candidate ∈ rf_voters r)) then false
  else if match rf_voted_for r with Some v => negb (bool_decide (v = candidate)) | None => false end then false
  else (last_term r <? last_trm) || ((last_trm =? last_term r) && (last_index r <=? last_idx)).

(** ** The entry points *)
Definition tick (r : Raft) (now : Z) : Raft * Output :=
  match rf_role r with
  | Leader =>
      if rf_heartbeat_at r <=? now then
        let r := compact (set_heartbeat_at r (now + tm_heartbeat (rf_timing r))) KEEP_ENTRIES in
        (r, send_appends r (List.filter (λ p, negb (bool_decide (p = rf_id r))) (peers r)) no_output)
      else (r, no_output)
  | Follower | Candidate => if rf_election_at r <=? now then stand r now no_output else (r, no_output)
  end.

Definition propose (r : Raft) (d : Decision) : option (Raft * Output) :=
  if negb (is_leader r) then None
  else if match d with Members next => negb (may_change_members r next) | _ => false end then None
  else
    let out := out_persist no_output in
    let outgoing := peers r in
    let r := set_log r (rf_log r ++ [mkEntry (rf_term r) d]) in
    let r := if is_members d then refresh_members r else r in
    let r := set_matched r (<[rf_id r := last_index r]> (rf_matched r)) in
    let targets := foldl (λ ts p, if bool_decide (p ∈ ts) then ts else ts ++ [p]) (peers r) outgoing in
    Some (advance_commit r (send_appends r targets out)).

Definition on_request_vote (r : Raft) (now : Z) (term : Term) (candidate : NodeId) (last_idx : Index) (last_trm : Term) : Raft * Output :=
  let r := set_heard r (<[candidate := now]> (rf_heard r)) in
  if leader_in_touch r now then (r, out_to no_output candidate (VoteReply (rf_term r) (rf_id r) false))
  else
    let '(r, out) := observe r term no_output in
    let granted := grant r term candidate last_idx last_trm in
    let '(r, out) := if granted then (reset_election (set_voted_for r (Some candidate)) now, out_persist out) else (r, out) in
    (r, out_to out candidate (VoteReply (rf_term r) (rf_id r) granted)).

Definition on_snapshot (r : Raft) (now : Z) (term : Term) (leader : NodeId) (index : Index) (last_trm : Term) (ranges : RangeMap) (members : list Member)
    : Raft * Output :=
  let r := set_heard r (<[leader := now]> (rf_heard r)) in
  let '(r, out) := observe r term no_output in
  if (term <? rf_term r) || (index <=? rf_base r)
  then (r, out_to out leader (AppendReply (rf_term r) (rf_id r) false (last_index r)))
  else
    let r := reset_election (set_leader_at (set_leader (set_role r Follower) (Some leader)) (Some now)) now in
    let r := set_log r [mkEntry last_trm (Ranges ranges)] in
    let r := set_commit (set_base r index) index in
    let r := set_applied r (Z.max 0 (index - 1)) in
    let r := refresh_members (set_seed r members) in
    let '(r, out) := apply r out in
    (r, out_to (out_persist out) leader (AppendReply (rf_term r) (rf_id r) true (last_index r))).

Definition on_vote_reply (r : Raft) (now : Z) (term : Term) (from : NodeId) (granted : bool) : Raft * Output :=
  let r := set_heard r (<[from := now]> (rf_heard r)) in
  let '(r, out) := observe r term no_output in
  if bool_decide (rf_role r = Candidate) && (term =? rf_term r) && granted then
    let r := set_votes r ({[from]} ∪ rf_votes r) in
    if (majority r <=? size (rf_votes r))%nat then win r now out else (r, out)
  else (r, out).

(** [for entry in entries]: the index reached, the log, whether it changed and whether a membership
    entry came or went. *)
Fixpoint merge_entries (r : Raft) (index : Index) (entries : list Entry) (changed moved : bool) : Raft * Index * bool * bool :=
  match entries with
  | [] => (r, index, changed, moved)
  | e :: entries' =>
      let index := index + 1 in
      match term_at r index with
      | Some t =>
          if t =? e_term e then merge_entries r index entries' changed moved
          else
            let at_ := Z.to_nat (index - rf_base r) in
            let moved := moved || existsb (λ x, is_members (e_decision x)) (drop at_ (rf_log r)) in
            merge_entries (set_log r (take at_ (rf_log r) ++ [e])) index entries' true (moved || is_members (e_decision e))
      | None => merge_entries (set_log r (rf_log r ++ [e])) index entries' true (moved || is_members (e_decision e))
      end
  end.

Definition on_append (r : Raft) (now : Z) (term : Term) (leader : NodeId) (prev_index : Index) (prev_term : Term) (entries : list Entry) (commit : Index)
    : Raft * Output :=
  let r := set_heard r (<[leader := now]> (rf_heard r)) in
  let r := if rf_term r <=? term then set_leader_commit r (Z.max (rf_leader_commit r) commit) else r in
  let '(r, out) := observe r term no_output in
  if term <? rf_term r then (r, out_to out leader (AppendReply (rf_term r) (rf_id r) false 0))
  else
    let r := reset_election (set_leader_at (set_leader (set_role r Follower) (Some leader)) (Some now)) now in
    if negb (bool_decide (term_at r prev_index = Some prev_term))
    then (r, out_to out leader (AppendReply (rf_term r) (rf_id r) false 0))
    else
      let '(r, index, changed, moved) := merge_entries r prev_index entries false false in
      let out := if changed then out_persist out else out in
      let r := if moved then refresh_members r else r in
      let '(r, out) :=
        if rf_commit r <? commit then apply (set_commit r (Z.min commit (last_index r))) out else (r, out) in
      (r, out_to out leader (AppendReply (rf_term r) (rf_id r) true index)).

Definition on_append_reply (r : Raft) (now : Z) (term : Term) (from : NodeId) (success : bool) (match_index : Index) : Raft * Output :=
  let r := set_heard r (<[from := now]> (rf_heard r)) in
  let '(r, out) := observe r term no_output in
  if negb (is_leader r) || negb (term =? rf_term r) then (r, out)
  else if success then
    let r := set_matched r (<[from := match_index]> (rf_matched r)) in
    let r := set_next r (<[from := match_index + 1]> (rf_next r)) in
    advance_commit r out
  else
    let next := default 1 (rf_next r !! from) in
    let r := set_next r (<[from := Z.max (Z.max 0 (next - 1)) 1]> (rf_next r)) in
    (r, send_append r from out).

Definition deliver (r : Raft) (m : Message) (now : Z) : Raft * Output :=
  match m with
  | RequestVote term candidate last_idx last_trm => on_request_vote r now term candidate last_idx last_trm
  | Snapshot term leader index last_trm ranges members => on_snapshot r now term leader index last_trm ranges members
  | VoteReply term from granted => on_vote_reply r now term from granted
  | Append term leader prev_index prev_term entries commit => on_append r now term leader prev_index prev_term entries commit
  | AppendReply term from success match_index => on_append_reply r now term from success match_index
  end.
