(* ===== verification/Controller.v ===== *)
(** The controller around the agreement (crates/big-cluster/src/controller.rs): what one turn of its
    thread does with a node, when a node may believe it is still in touch, what the leader proposes
    when machines go quiet, and what an operator may propose.

    Durations are whole milliseconds, as the source uses them ([as_millis]); the clock is the number
    of milliseconds since the process started. *)
From S2P Require Import Prelude Bits RangeMap Raft.

(** * Leases *)
Record Leases := mkLeases { ls_serve_for : Z; ls_promote_after : Z; ls_move_schema_after : option Z }.
Definition default_leases : Leases := mkLeases 1500 4500 None.
Definition SCHEMA_FAILOVER : Z := 15000.

(** [lease_anchor]: the last moment this node could prove it was in touch. *)
Definition lease_anchor (r : Raft) (now : Z) : option Z :=
  if is_leader r then
    let voters := rf_voters r in
    let heard := omap (λ n, if bool_decide (n = rf_id r) then Some now else rf_heard r !! n) voters in
    merge_sort Z.ge heard !! (length voters / 2)%nat
  else
    leader ← rf_leader r;
    if bool_decide (leader = rf_id r) then Some now else rf_heard r !! leader.

(** * What the leader proposes by itself *)
Definition set_primary (g : Range) (p : NodeId) : Range := mkRange (r_id g) (r_shards g) (r_group g) p (r_moving g).
Definition with_epoch (m : RangeMap) (e : Z) : RangeMap :=
  mkRangeMap e (rm_ranges m) (rm_stale m) (rm_schema_leader m) (rm_reserved m) (rm_schema_ready m).
Definition with_schema (m : RangeMap) (n : NodeId) (ready : bool) : RangeMap :=
  mkRangeMap (rm_epoch m) (rm_ranges m) (rm_stale m) n (rm_reserved m) ready.

(** Heard from within [after], or this node itself. *)
Definition heard_within (r : Raft) (now after : Z) (node : NodeId) : bool :=
  bool_decide (node = rf_id r) || (Z.max 0 (now - default 0 (rf_heard r !! node)) <? after).

(** [next.stale.push(node)]. *)
Definition push_stale (m : RangeMap) (node : NodeId) : RangeMap := with_stale m (rm_stale m ++ [node]).
Definition sort_stale (m : RangeMap) : RangeMap := with_stale m (merge_sort le (rm_stale m)).

(** Nodes of replicated groups that have gone quiet are marked behind. *)
Definition mark_node (live : NodeId → bool) (acc : RangeMap * bool) (node : NodeId) : RangeMap * bool :=
  if negb (live node) && negb (is_stale (fst acc) node) then (push_stale (fst acc) node, true) else acc.
Definition mark_quiet (live : NodeId → bool) (m : RangeMap) : RangeMap * bool :=
  let held := map r_group (List.filter (λ g, (1 <? length (r_group g))%nat) (rm_ranges m)) in
  let '(m, changed) := foldl (λ acc group, foldl (mark_node live) acc group) (m, false) held in
  (sort_stale m, changed).

(** Ranges whose serving copy has gone quiet move to a copy that has not missed a write. *)
Definition promote_one (live stale : NodeId → bool) (g : Range) : Range * bool :=
  if live (r_primary g) then (g, false)
  else match List.find (λ n, live n && negb (stale n)) (r_group g) with
       | Some replacement => (set_primary g replacement, true)
       | None => (g, false)
       end.
Definition promote_ranges (live : NodeId → bool) (m : RangeMap) : RangeMap * bool :=
  let done := map (promote_one live (is_stale m)) (rm_ranges m) in
  (with_ranges m (map fst done), existsb snd done).

(** The namespace moves last, and only when a lease says after how long. *)
Definition move_schema (r : Raft) (leases : Leases) (live : NodeId → bool) (now : Z) (m : RangeMap) : RangeMap * bool :=
  match ls_move_schema_after leases with
  | None => (m, false)
  | Some after =>
      let deposed := rm_schema_leader m in
      if heard_within r now after deposed then (m, false)
      else
        match List.find (λ n, match rf_members r !! n with Some mb => takes_ranges mb | None => false end && live n && negb (is_stale m n))
                (seq 0 (length (rf_members r))) with
        | None => (m, false)
        | Some successor =>
            let m := with_schema m successor false in
            (if is_stale m deposed then m else sort_stale (push_stale m deposed), true)
        end
  end.

(** [promotion_for], up to the check that every proposal goes through. *)
Definition promotion_plan (leases : Leases) (r : Raft) (current : RangeMap) (now : Z) : RangeMap * bool :=
  let live := heard_within r now (ls_promote_after leases) in
  let '(next, marked) := mark_quiet live current in
  let '(next, promoted) := promote_ranges live next in
  let '(next, moved) := move_schema r leases live now next in
  (next, marked || promoted || moved).

Definition promotion_for (leases : Leases) (r : Raft) (current : RangeMap) (now : Z) : option RangeMap :=
  if negb (settled r) then None
  else
    let '(next, changed) := promotion_plan leases r current now in
    if negb changed then None
    else match check_with next (rf_members r) with
         | Ok _ => Some (with_epoch next (rm_epoch next + 1))
         | _ => None
         end.

(** * The controller's turn *)

(** [merge]. *)
Definition merge_out (into from : Output) : Output :=
  mkOutput (o_send into ++ o_send from) (o_persist into || o_persist from) (o_applied into ++ o_applied from).

(** One turn of [Controller::run]: [incoming] is what the queue held, [proposal] what [promotion]
    answers for the node as it then is. *)
Definition turn (r : Raft) (incoming : option Message) (proposal : Raft → option Decision) (now : Z) : Raft * Output :=
  let '(r, out) :=
    match incoming with
    | Some m => let '(r, got) := deliver r m now in (r, merge_out no_output got)
    | None => (r, no_output)
    end in
  let '(r, got) := tick r now in
  let out := merge_out out got in
  if is_leader r then
    match proposal r with
    | Some d => match propose r d with Some (r, got) => (r, merge_out out got) | None => (r, out) end
    | None => (r, out)
    end
  else (r, out).

(** [promotion]. *)
Definition promotion (leases : Leases) (current : RangeMap) (now : Z) (r : Raft) : option Decision :=
  Ranges <$> promotion_for leases r current now.

(** Committed maps replace the one requests are routed by. *)
Definition publish (ranges : RangeMap) (applied : list Decision) : RangeMap :=
  foldl (λ m d, match d with Ranges m' => m' | _ => m end) ranges applied.

(** [Controller::start]: the map of a node that comes back, replayed up to what is committed. *)
Fixpoint replay_committed (index commit : Z) (log : list Entry) (ranges : RangeMap) : RangeMap :=
  match log with
  | [] => ranges
  | e :: log' =>
      replay_committed (index + 1) commit log'
        (match e_decision e with Ranges m => if index <=? commit then m else ranges | _ => ranges end)
  end.
Definition start_ranges (r : Raft) (seed : RangeMap) : RangeMap := replay_committed (rf_base r) (rf_commit r) (rf_log r) seed.

(** * What an operator proposes *)
Inductive ProposeError := NotLeader (leader : option NodeId) | Busy | TooManyAtOnce | Invalid (e : MapError).

(** [propose_map]: the node as it is left, and the answer.  What [propose] asks to be saved, sent and
    applied is not kept. *)
Definition propose_map (r : Raft) (current next : RangeMap) : Raft * (ProposeError + Z) :=
  match check_with next (rf_members r) with
  | Ok _ =>
      if negb (is_leader r) then (r, inl (NotLeader (rf_leader r)))
      else if negb (rf_commit r =? last_index r) then (r, inl Busy)
      else
        let next := with_epoch next (rm_epoch current + 1) in
        match propose r (Ranges next) with
        | Some (r', _) => (r', inr (rm_epoch next))
        | None => (r, inl (NotLeader (rf_leader r)))
        end
  | Err e => (r, inl (Invalid e))
  | Panic => (r, inl Busy) (* [check] does not panic: see [check_total] *)
  end.

Definition propose_members (r : Raft) (next : list Member) : Raft * (ProposeError + unit) :=
  if negb (is_leader r) then (r, inl (NotLeader (rf_leader r)))
  else if negb (rf_commit r =? last_index r) then (r, inl Busy)
  else if negb (may_change_members r next) then (r, inl TooManyAtOnce)
  else match propose r (Members next) with
       | Some (r', _) => (r', inr tt)
       | None => (r, inl (NotLeader (rf_leader r)))
       end.

Definition mark_repaired (r : Raft) (current : RangeMap) (node : NodeId) : Raft * bool :=
  if negb (is_leader r) then (r, false)
  else if negb (is_stale current node) then (r, true)
  else
    let next := with_stale current (List.filter (λ n, negb (bool_decide (n = node))) (rm_stale current)) in
    let next := with_epoch next (rm_epoch next + 1) in
    match propose r (Ranges next) with Some (r', _) => (r', true) | None => (r, false) end.
