(* ===== verification/Consensus.v ===== *)
(** The agreement as a specification: what crates/big-cluster/src/raft.rs refines.

    Here a node is its term, its vote, its role, its whole log and its commit index; messages are
    facts that stay true once sent; and a step is one rule of the protocol.  Nothing of clocks,
    retries, compaction or files is left.  The theorem is that two nodes never disagree about a
    position both have committed, now or at different moments of a run.

    The argument is the usual one, with the history kept as state: [elect] remembers with which log a
    leader was elected and [llog] the log it went on to have, so that every log in the system is, up
    to each of its entries, a prefix of the log of that entry's leader. *)
From S2P Require Import Prelude.

Section consensus.
Context {E : Type} `{EqDecision E} (tm : E → Z) (nil_entry : E) (V : gset nat).
Hypothesis (Hnil : tm nil_entry = 0).

Inductive ARole := AFollower | ACandidate | ALeader.

(** What has been said. *)
Inductive AMsg :=
| MReq (t : Z) (c : nat) (l : list E)
| MVote (t : Z) (n c : nat)
| MApp (t : Z) (prev : nat) (pt : Z) (es : list E) (c : nat)
| MAck (t : Z) (n m : nat).

Record AState := mkA {
  a_term : nat → Z;
  a_vote : nat → option nat;
  a_role : nat → ARole;
  a_log : nat → list E;
  a_commit : nat → nat;
  a_said : list AMsg;
  a_elect : Z → option (nat * list E);
  a_llog : Z → list E
}.

Definition upd {A B} `{EqDecision A} (f : A → B) (x : A) (v : B) : A → B := λ y, if decide (y = x) then v else f y.

Definition last_tm (l : list E) : Z := match last l with Some x => tm x | None => 0 end.
Definition up_to_date (l v : list E) : Prop := last_tm v < last_tm l ∨ (last_tm l = last_tm v ∧ (length v <= length l)%nat).

(** A set of voters no other such set avoids. *)
Definition quorum (Q : gset nat) : Prop := Q ⊆ V ∧ (size V < 2 * size Q)%nat.

(** The entries of an append, laid over a log from position [i] on: what agrees is left alone, what
    does not is cut off. *)
Fixpoint lay (log : list E) (i : nat) (es : list E) : list E :=
  match es with
  | [] => log
  | e :: es' =>
      match log !! S i with
      | Some x => if decide (tm x = tm e) then lay log (S i) es' else lay (take (S i) log ++ [e]) (S i) es'
      | None => lay (log ++ [e]) (S i) es'
      end
  end.

Definition a_init : AState :=
  mkA (λ _, 0) (λ _, None) (λ _, AFollower) (λ _, [nil_entry]) (λ _, 0%nat) [] (λ t, if decide (t = 0) then Some (0%nat, []) else None)
    (λ t, if decide (t = 0) then [nil_entry] else []).

Inductive astep (s : AState) : AState → Prop :=
(** A higher term is heard of. *)
| a_bump n t : a_term s n < t →
    astep s (mkA (upd (a_term s) n t) (upd (a_vote s) n None) (upd (a_role s) n AFollower) (a_log s) (a_commit s) (a_said s) (a_elect s) (a_llog s))
(** A node stands for election in the next term. *)
| a_stand n :
    let t := a_term s n + 1 in
    astep s (mkA (upd (a_term s) n t) (upd (a_vote s) n (Some n)) (upd (a_role s) n ACandidate) (a_log s) (a_commit s)
      (MReq t n (a_log s n) :: MVote t n n :: a_said s) (a_elect s) (a_llog s))
(** A vote is granted. *)
| a_grant n c l :
    MReq (a_term s n) c l ∈ a_said s → (a_vote s n = None ∨ a_vote s n = Some c) → up_to_date l (a_log s n) →
    astep s (mkA (a_term s) (upd (a_vote s) n (Some c)) (a_role s) (a_log s) (a_commit s) (MVote (a_term s n) n c :: a_said s) (a_elect s) (a_llog s))
(** A candidate with the votes of a quorum leads, and appends an entry of its own term. *)
| a_win n Q e :
    a_role s n = ACandidate → quorum Q → (∀ m, m ∈ Q → MVote (a_term s n) m n ∈ a_said s) → tm e = a_term s n →
    astep s (mkA (a_term s) (a_vote s) (upd (a_role s) n ALeader) (upd (a_log s) n (a_log s n ++ [e])) (a_commit s) (a_said s)
      (upd (a_elect s) (a_term s n) (Some (n, a_log s n))) (upd (a_llog s) (a_term s n) (a_log s n ++ [e])))
(** A leader appends. *)
| a_propose n e :
    a_role s n = ALeader → tm e = a_term s n →
    astep s (mkA (a_term s) (a_vote s) (a_role s) (upd (a_log s) n (a_log s n ++ [e])) (a_commit s) (a_said s)
      (a_elect s) (upd (a_llog s) (a_term s n) (a_log s n ++ [e])))
(** A leader sends what follows a position, and its commit index. *)
| a_send n prev x :
    a_role s n = ALeader → a_log s n !! prev = Some x →
    astep s (mkA (a_term s) (a_vote s) (a_role s) (a_log s) (a_commit s)
      (MApp (a_term s n) prev (tm x) (drop (S prev) (a_log s n)) (a_commit s n) :: a_said s) (a_elect s) (a_llog s))
(** An append that matches is taken and acknowledged. *)
| a_recv n prev pt es c x :
    MApp (a_term s n) prev pt es c ∈ a_said s → a_role s n ≠ ALeader → a_log s n !! prev = Some x → tm x = pt →
    astep s (mkA (a_term s) (a_vote s) (upd (a_role s) n AFollower) (upd (a_log s) n (lay (a_log s n) prev es)) (a_commit s)
      (MAck (a_term s n) n (prev + length es) :: a_said s) (a_elect s) (a_llog s))
(** A follower learns what is committed. *)
| a_learn n prev pt es c m k :
    MApp (a_term s n) prev pt es c ∈ a_said s → MAck (a_term s n) n m ∈ a_said s → (k <= c)%nat → (k <= m)%nat →
    astep s (mkA (a_term s) (a_vote s) (a_role s) (a_log s) (upd (a_commit s) n k) (a_said s) (a_elect s) (a_llog s))
(** A leader commits an entry of its own term that a quorum holds. *)
| a_decide n i x Q :
    a_role s n = ALeader → a_log s n !! i = Some x → tm x = a_term s n → quorum Q →
    (∀ m, m ∈ Q → m = n ∨ ∃ k, (i <= k)%nat ∧ MAck (a_term s n) m k ∈ a_said s) →
    astep s (mkA (a_term s) (a_vote s) (a_role s) (a_log s) (upd (a_commit s) n i) (a_said s) (a_elect s) (a_llog s))
(** A node restarts, or gives up standing: it follows, and may have forgotten how much was committed. *)
| a_follow n k :
    (k <= a_commit s n)%nat →
    astep s (mkA (a_term s) (a_vote s) (upd (a_role s) n AFollower) (a_log s) (upd (a_commit s) n k) (a_said s) (a_elect s) (a_llog s)).

(** * Facts about logs *)

(** Up to each entry, a log is a prefix of the log of that entry's leader. *)
Definition wfl (s : AState) (l : list E) : Prop :=
  ∀ i x, l !! i = Some x → is_Some (a_elect s (tm x)) ∧ take (S i) l `prefix_of` a_llog s (tm x).

(** [n] is known to have held the log of the leader of [t] up to [i]. *)
Definition ackd (s : AState) (t : Z) (n i : nat) : Prop :=
  (∃ m, (i <= m)%nat ∧ MAck t n m ∈ a_said s) ∨ (1 <= t ∧ (∃ l, a_elect s t = Some (n, l)) ∧ (i < length (a_llog s t))%nat).

(** The log of [t] up to [i] is in [v], or a later leader, before [lim], was elected without it. *)
Definition kept (s : AState) (t : Z) (i : nat) (v : list E) (lim : Z) : Prop :=
  take (S i) (a_llog s t) `prefix_of` v ∨
  ∃ t' n l, t < t' < lim ∧ a_elect s t' = Some (n, l) ∧ ¬ take (S i) (a_llog s t) `prefix_of` l.

(** A vote for a candidate that stood with [l]: cast by a node whose log was [v]. *)
Definition vote_ok (s : AState) (t : Z) (n : nat) (l : list E) : Prop :=
  ∃ v, up_to_date l v ∧ wfl s v ∧ ∀ t0 i, t0 < t → ackd s t0 n i → kept s t0 i v t.

(** The leader of [t] committed position [i]. *)
Definition committed (s : AState) (t : Z) (i : nat) : Prop :=
  1 <= t ∧ is_Some (a_elect s t) ∧ (∃ x, a_llog s t !! i = Some x ∧ tm x = t) ∧ ∃ Q, quorum Q ∧ ∀ n, n ∈ Q → ackd s t n i.

(** The first [k] positions after the sentinel of [l] are decided, by a leader no later than [t]. *)
Definition decided (s : AState) (t : Z) (l : list E) (k : nat) : Prop :=
  k = 0%nat ∨ ∃ t0 i0, committed s t0 i0 ∧ t0 <= t ∧ (k <= i0)%nat ∧ take (S k) l = take (S k) (a_llog s t0).

Record ainv (s : AState) : Prop := {
  i_zero : a_elect s 0 = Some (0%nat, []) ∧ a_llog s 0 = [nil_entry] ∧ (∀ n, 0 <= a_term s n) ∧ (∀ t, is_Some (a_elect s t) → 0 <= t) ∧ (∀ t, a_elect s t = None → a_llog s t = []);
  i_head : ∀ n, a_log s n !! 0%nat = Some nil_entry;
  i_logs : ∀ n, wfl s (a_log s n);
  i_log_term : ∀ n x, x ∈ a_log s n → tm x <= a_term s n;
  i_elected : ∀ t n l, 1 <= t → a_elect s t = Some (n, l) →
    t <= a_term s n ∧ wfl s l ∧ (∀ x, x ∈ l → tm x < t) ∧ l !! 0%nat = Some nil_entry ∧
    (∃ new, a_llog s t = l ++ new ∧ ∀ x, x ∈ new → tm x = t) ∧
    (∃ Q, quorum Q ∧ ∀ m, m ∈ Q → MVote t m n ∈ a_said s ∧ vote_ok s t m l);
  i_vote : ∀ t n c, MVote t n c ∈ a_said s → 1 <= t <= a_term s n ∧ (t = a_term s n → a_vote s n = Some c);
  i_vote_one : ∀ t n c c', MVote t n c ∈ a_said s → MVote t n c' ∈ a_said s → c = c';
  i_vote_ok : ∀ t n c, MVote t n c ∈ a_said s → a_elect s t = None → ∃ l, MReq t c l ∈ a_said s ∧ vote_ok s t n l;
  i_req : ∀ t c l, MReq t c l ∈ a_said s → 1 <= t <= a_term s c ∧ wfl s l ∧ (∀ x, x ∈ l → tm x < t);
  i_req_one : ∀ t c l l', MReq t c l ∈ a_said s → MReq t c l' ∈ a_said s → l = l';
  i_cand : ∀ n, a_role s n = ACandidate → 1 <= a_term s n ∧ MReq (a_term s n) n (a_log s n) ∈ a_said s ∧ (∀ l, a_elect s (a_term s n) ≠ Some (n, l));
  i_lead : ∀ n, a_role s n = ALeader → 1 <= a_term s n ∧ (∃ l, a_elect s (a_term s n) = Some (n, l)) ∧ a_log s n = a_llog s (a_term s n);
  i_app : ∀ t prev pt es c, MApp t prev pt es c ∈ a_said s →
    1 <= t ∧ is_Some (a_elect s t) ∧ (∃ x, a_llog s t !! prev = Some x ∧ tm x = pt) ∧ take (S prev) (a_llog s t) ++ es `prefix_of` a_llog s t ∧
    (c <= prev + length es)%nat ∧ decided s t (a_llog s t) c;
  i_ack : ∀ t n m, MAck t n m ∈ a_said s → 1 <= t <= a_term s n ∧ is_Some (a_elect s t) ∧ (m < length (a_llog s t))%nat;
  i_kept : ∀ t n i, ackd s t n i → kept s t i (a_log s n) (a_term s n + 1);
  i_commit : ∀ n, decided s (a_term s n) (a_log s n) (a_commit s n)
}.
(** * What a step leaves true *)
Lemma upd_eq {A B} `{EqDecision A} (f : A → B) x v : upd f x v x = v.
Proof. unfold upd. by destruct (decide (x = x)). Qed.
Lemma upd_ne {A B} `{EqDecision A} (f : A → B) x y v : y ≠ x → upd f x v y = f y.
Proof. intros H. unfold upd. by destruct (decide (y = x)). Qed.

Record frame (s s' : AState) : Prop := {
  f_elect : ∀ t v, a_elect s t = Some v → a_elect s' t = Some v;
  f_llog : ∀ t, ∃ add, a_llog s' t = a_llog s t ++ add ∧ (is_Some (a_elect s t) → ∀ x, x ∈ add → tm x = t);
  f_said : ∀ m, m ∈ a_said s → m ∈ a_said s';
  f_term : ∀ n, a_term s n <= a_term s' n;
  f_ack : ∀ t n i, ackd s' t n i → ackd s t n i ∨ t = a_term s n
}.

Section frame.
Context (s s' : AState) (I : ainv s) (F : frame s s').

Lemma fr_prefix t : a_llog s t `prefix_of` a_llog s' t.
Proof. destruct (f_llog _ _ F t) as (add & -> & _). by apply prefix_app_r. Qed.

Lemma fr_wfl l : wfl s l → wfl s' l.
Proof.
  intros H i x Hx. destruct (H i x Hx) as [[v Hv] Hp]. split; [exists v; by apply (f_elect _ _ F)|]. etrans; [exact Hp|apply fr_prefix].
Qed.

Lemma ackd_len t n i : ackd s t n i → (i < length (a_llog s t))%nat.
Proof. intros [(m & Hm & Hs)|(_ & _ & H)]; [|exact H]. destruct (i_ack _ I _ _ _ Hs) as (_ & _ & H). lia. Qed.

Lemma fr_take t i : (i <= length (a_llog s t))%nat → take i (a_llog s' t) = take i (a_llog s t).
Proof. intros H. destruct (f_llog _ _ F t) as (add & -> & _). by rewrite take_app_le. Qed.

Lemma fr_ackd t n i : ackd s t n i → ackd s' t n i.
Proof.
  intros [(m & Hm & Hs)|(Ht & (l & Hl) & Hi)]; [left; exists m; split; [exact Hm|by apply (f_said _ _ F)]|right].
  split; [exact Ht|]. split; [exists l; by apply (f_elect _ _ F)|]. pose proof (prefix_length _ _ (fr_prefix t)). lia.
Qed.

Lemma fr_kept t n i v lim : ackd s t n i → kept s t i v lim → kept s' t i v lim.
Proof.
  intros Ha%ackd_len. unfold kept. rewrite (fr_take t (S i)) by lia. intros [H|(t' & m & l & Ht & He & Hn)]; [by left|right].
  exists t', m, l. split_and!; [lia|lia|by apply (f_elect _ _ F)|exact Hn].
Qed.

Lemma fr_vote_ok t n l : t <= a_term s n → vote_ok s t n l → vote_ok s' t n l.
Proof.
  intros Ht (v & Hu & Hw & Hk). exists v. split; [exact Hu|]. split; [by apply fr_wfl|]. intros t0 i Hlt [Ha|He]%(f_ack _ _ F); [|lia].
  eapply fr_kept; [exact Ha|]. by apply Hk.
Qed.

Lemma fr_committed t i : committed s t i → committed s' t i.
Proof.
  intros (Ht & [v Hv] & (x & Hx & Htx) & Q & HQ & Hack). split; [exact Ht|]. split; [exists v; by apply (f_elect _ _ F)|]. split.
  - exists x. split; [|exact Htx]. eapply prefix_lookup_Some; [exact Hx|apply fr_prefix].
  - exists Q. split; [exact HQ|]. intros n Hn. by apply fr_ackd, Hack.
Qed.

Lemma committed_len t i : committed s t i → (i < length (a_llog s t))%nat.
Proof. intros (_ & _ & (x & Hx & _) & _). by eapply lookup_lt_Some. Qed.

Lemma fr_decided t t' l k : decided s t l k → t <= t' → decided s' t' l k.
Proof.
  intros [->|(t0 & i0 & Hc & Ht & Hk & He)] Hle; [by left|right]. exists t0, i0. pose proof (committed_len _ _ Hc).
  split; [by apply fr_committed|]. split; [lia|]. split; [exact Hk|]. rewrite (fr_take t0 (S k)) by lia. exact He.
Qed.

(** Elections that have happened, and what was said, stay as they were. *)
Lemma fr_elected t n l : 1 <= t → a_elect s t = Some (n, l) →
  t <= a_term s' n ∧ wfl s' l ∧ (∀ x, x ∈ l → tm x < t) ∧ l !! 0%nat = Some nil_entry ∧
  (∃ new, a_llog s' t = l ++ new ∧ ∀ x, x ∈ new → tm x = t) ∧
  (∃ Q, quorum Q ∧ ∀ m, m ∈ Q → MVote t m n ∈ a_said s' ∧ vote_ok s' t m l).
Proof.
  intros Ht He. destruct (i_elected _ I t n l Ht He) as (H1 & H2 & H3 & H4 & (new & H5 & H6) & Q & HQ & Hv). split_and!.
  - pose proof (f_term _ _ F n). lia.
  - by apply fr_wfl.
  - exact H3.
  - exact H4.
  - destruct (f_llog _ _ F t) as (add & Ha & Hadd). exists (new ++ add). rewrite Ha, H5, app_assoc. split; [done|]. intros x [Hx|Hx]%elem_of_app; [by apply H6|]. apply Hadd; [by eexists|exact Hx].
  - exists Q. split; [exact HQ|]. intros m Hm. destruct (Hv m Hm) as [Hs Hok]. split; [by apply (f_said _ _ F)|].
    apply fr_vote_ok; [|exact Hok]. by apply (i_vote _ I) in Hs as [[_ ?] _].
Qed.

Lemma fr_req t c l : MReq t c l ∈ a_said s → 1 <= t <= a_term s' c ∧ wfl s' l ∧ (∀ x, x ∈ l → tm x < t).
Proof.
  intros H. destruct (i_req _ I _ _ _ H) as (Ht & Hw & Hx). pose proof (f_term _ _ F c). split; [lia|]. split; [by apply fr_wfl|exact Hx].
Qed.

Lemma fr_vote_said t n c : MVote t n c ∈ a_said s → a_elect s' t = None → ∃ l, MReq t c l ∈ a_said s' ∧ vote_ok s' t n l.
Proof.
  intros H He. assert (a_elect s t = None) as He'.
  { destruct (a_elect s t) as [v|] eqn:E1; [|done]. apply (f_elect _ _ F) in E1. congruence. }
  destruct (i_vote_ok _ I _ _ _ H He') as (l & Hl & Hok). exists l. split; [by apply (f_said _ _ F)|].
  apply fr_vote_ok; [|exact Hok]. by apply (i_vote _ I) in H as [[_ ?] _].
Qed.

Lemma fr_app t prev pt es c : MApp t prev pt es c ∈ a_said s →
  1 <= t ∧ is_Some (a_elect s' t) ∧ (∃ x, a_llog s' t !! prev = Some x ∧ tm x = pt) ∧ take (S prev) (a_llog s' t) ++ es `prefix_of` a_llog s' t ∧
  (c <= prev + length es)%nat ∧ decided s' t (a_llog s' t) c.
Proof.
  intros H. destruct (i_app _ I _ _ _ _ _ H) as (Ht & [v Hv] & (x & Hx & Hpt) & Hp & Hc & Hd). pose proof (lookup_lt_Some _ _ _ Hx) as Hlt.
  split; [exact Ht|]. split; [exists v; by apply (f_elect _ _ F)|]. split; [exists x; split; [|exact Hpt]; eapply prefix_lookup_Some; [exact Hx|apply fr_prefix]|].
  rewrite (fr_take t (S prev)) by lia. split; [etrans; [exact Hp|apply fr_prefix]|]. split; [exact Hc|].
  apply (fr_decided t t) in Hd; [|lia]. destruct Hd as [->|(t0 & i0 & H1 & H2 & H3 & H4)]; [by left|right]. exists t0, i0. split_and!; [exact H1|exact H2|exact H3|].
  rewrite <-H4. apply fr_take. pose proof (prefix_length _ _ Hp) as Hlen. rewrite length_app, length_take in Hlen. lia.
Qed.

Lemma fr_ack t n m : MAck t n m ∈ a_said s → 1 <= t <= a_term s' n ∧ is_Some (a_elect s' t) ∧ (m < length (a_llog s' t))%nat.
Proof.
  intros H. destruct (i_ack _ I _ _ _ H) as (Ht & [v Hv] & Hm). pose proof (f_term _ _ F n). pose proof (prefix_length _ _ (fr_prefix t)).
  split; [lia|]. split; [exists v; by apply (f_elect _ _ F)|lia].
Qed.

Lemma kept_weaken t i v v' lim lim' : kept s t i v lim → v `prefix_of` v' → lim <= lim' → kept s t i v' lim'.
Proof.
  intros [H|(t' & m & l & Ht & H)] Hv Hl; [left; by etrans|right]. exists t', m, l. split; [lia|exact H].
Qed.
End frame.
(** * Consequences of the invariant *)
Lemma quorum_meet Q1 Q2 : quorum Q1 → quorum Q2 → ∃ n, n ∈ Q1 ∧ n ∈ Q2.
Proof.
  intros [H1 S1] [H2 S2]. destruct (decide (Q1 ∩ Q2 = ∅)) as [He|Hne].
  - assert (Q1 ## Q2) as Hd by set_solver. pose proof (size_union Q1 Q2 Hd). assert (Q1 ∪ Q2 ⊆ V) as Hs by set_solver.
    apply subseteq_size in Hs. lia.
  - apply set_choose_L in Hne as [n Hn]. exists n. set_solver.
Qed.

Section facts.
Context (s : AState) (I : ainv s).

(** One leader per term. *)
Lemma votes_agree t n1 n2 Q1 Q2 :
  quorum Q1 → quorum Q2 → (∀ m, m ∈ Q1 → MVote t m n1 ∈ a_said s) → (∀ m, m ∈ Q2 → MVote t m n2 ∈ a_said s) → n1 = n2.
Proof. intros H1 H2 V1 V2. destruct (quorum_meet Q1 Q2 H1 H2) as (m & M1 & M2). eapply (i_vote_one _ I); [by apply V1|by apply V2]. Qed.

Lemma leaders_agree n1 n2 : a_role s n1 = ALeader → a_role s n2 = ALeader → a_term s n1 = a_term s n2 → n1 = n2.
Proof. intros (_ & (l1 & E1) & _)%(i_lead _ I) (_ & (l2 & E2) & _)%(i_lead _ I) Ht. rewrite Ht in E1. congruence. Qed.

Lemma llog_le u x : is_Some (a_elect s u) → x ∈ a_llog s u → tm x <= u.
Proof.
  intros [[n l] Hu] Hx. destruct (i_zero _ I) as (_ & H0 & _ & Hpos & _). destruct (decide (u = 0)) as [->|Hne].
  - rewrite H0 in Hx. apply list_elem_of_singleton in Hx as ->. lia.
  - pose proof (Hpos u ltac:(by exists (n, l))). destruct (i_elected _ I u n l ltac:(lia) Hu) as (_ & _ & Hl & _ & (new & E1 & Hn) & _).
    rewrite E1 in Hx. apply elem_of_app in Hx as [Hx|Hx]; [apply Hl in Hx|apply Hn in Hx]; lia.
Qed.

Lemma log_terms l i j x y : wfl s l → l !! i = Some x → l !! j = Some y → (i <= j)%nat → tm x <= tm y.
Proof.
  intros Hw Hx Hy Hij. destruct (Hw j y Hy) as [He Hp]. apply (llog_le (tm y) x He). apply (list_elem_of_lookup_2 _ i). eapply prefix_lookup_Some; [|exact Hp].
  rewrite lookup_take_lt by lia. exact Hx.
Qed.

Lemma log_match l1 l2 i x y : wfl s l1 → wfl s l2 → l1 !! i = Some x → l2 !! i = Some y → tm x = tm y → take (S i) l1 = take (S i) l2.
Proof.
  intros W1 W2 Hx Hy He. destruct (W1 i x Hx) as [_ P1]. destruct (W2 i y Hy) as [_ P2]. rewrite <-He in P2.
  apply lookup_lt_Some in Hx, Hy. destruct P1 as [k1 K1], P2 as [k2 K2].
  assert (take (S i) (a_llog s (tm x)) = take (S i) l1) as <-; [rewrite K1, take_app_le by (rewrite length_take; lia); by rewrite take_take, Nat.min_id|].
  rewrite K2, take_app_le by (rewrite length_take; lia). by rewrite take_take, Nat.min_id.
Qed.

Lemma elect_prefix t n l : a_elect s t = Some (n, l) → l `prefix_of` a_llog s t.
Proof.
  intros He. destruct (decide (t = 0)) as [->|Hne].
  - destruct (i_zero _ I) as (H0 & _). rewrite H0 in He. injection He as <- <-. apply prefix_nil.
  - destruct (i_zero _ I) as (_ & _ & _ & Hpos & _). pose proof (Hpos t ltac:(by exists (n, l))).
    destruct (i_elected _ I t n l ltac:(lia) He) as (_ & _ & _ & _ & (new & -> & _) & _). by apply prefix_app_r.
Qed.

(** A log that ends at an entry of a leader has everything that leader was elected with. *)
Lemma elect_in_log u n cl l x : 1 <= u → a_elect s u = Some (n, cl) → wfl s l → last l = Some x → tm x = u → cl `prefix_of` l.
Proof.
  intros Hu He Hw Hl Hx. rewrite last_lookup in Hl. destruct (Hw _ x Hl) as [_ Hp]. rewrite Hx in Hp. pose proof (lookup_lt_Some _ _ _ Hl) as Hlen.
  replace (S (Nat.pred (length l))) with (length l) in Hp by lia. rewrite firstn_all in Hp.
  destruct (i_elected _ I u n cl Hu He) as (_ & _ & Hlt & _ & (new & E1 & _) & _).
  destruct (prefix_weak_total l cl (a_llog s u)) as [Hc|Hc]; [exact Hp|rewrite E1; by apply prefix_app_r| |exact Hc].
  pose proof (prefix_lookup_Some _ _ _ _ Hl Hc) as Hin. apply list_elem_of_lookup_2, Hlt in Hin. lia.
Qed.

Lemma last_tm_ge l i x : wfl s l → l !! i = Some x → tm x <= last_tm l.
Proof.
  intros Hw Hx. unfold last_tm. destruct (last l) as [y|] eqn:El.
  - rewrite last_lookup in El. eapply (log_terms l i (Nat.pred (length l))); [exact Hw|exact Hx|exact El|]. apply lookup_lt_Some in Hx. lia.
  - apply last_None in El as ->. discriminate.
Qed.

(** Leader completeness: what a leader committed, every later leader was elected with. *)
Lemma completeness t i t' n l : committed s t i → t < t' → a_elect s t' = Some (n, l) → take (S i) (a_llog s t) `prefix_of` l.
Proof.
  intros Hc. revert n l. induction t' as [t' IH] using (well_founded_ind (Z.lt_wf t)). intros n l Hlt He.
  pose proof Hc as (Ht & _ & (x & Hx & Htx) & Q & HQ & Hack).
  destruct (i_elected _ I t' n l ltac:(lia) He) as (_ & Hwl & Hbelow & _ & _ & Q' & HQ' & Hv).
  destruct (quorum_meet Q Q' HQ HQ') as (m & M1 & M2). destruct (Hv m M2) as (_ & v & Hup & Hwv & Hk).
  destruct (Hk t i Hlt (Hack m M1)) as [Hp|(u & n' & cl & Hu & Heu & Hn)]; [|exfalso; apply Hn, (IH u ltac:(lia) n' cl ltac:(lia) Heu)].
  assert (v !! i = Some x) as Hvi by (eapply prefix_lookup_Some; [|exact Hp]; rewrite lookup_take_lt by lia; exact Hx).
  pose proof (last_tm_ge v i x Hwv Hvi) as Hge. rewrite Htx in Hge.
  destruct (last l) as [y|] eqn:El; [|unfold up_to_date, last_tm in Hup; rewrite El in Hup; unfold last_tm in Hge; lia].
  assert (last_tm l = tm y) as Hly by (unfold last_tm; by rewrite El). assert (tm y < t') as Hyt.
  { apply Hbelow. rewrite last_lookup in El. by eapply list_elem_of_lookup_2. }
  destruct Hup as [Hup|[Heq Hlen]].
  - pose proof El as El'. rewrite last_lookup in El'. destruct (Hwl _ y El') as [[[n' cl] Heu] _].
    etrans; [exact (IH (tm y) ltac:(lia) n' cl ltac:(lia) Heu)|]. eapply (elect_in_log (tm y)); [lia|exact Heu|exact Hwl|exact El|reflexivity].
  - destruct (last v) as [z|] eqn:Ev; [|apply last_None in Ev as ->; discriminate Hvi]. assert (last_tm v = tm z) as Hvz by (unfold last_tm; by rewrite Ev).
    pose proof El as El'. pose proof Ev as Ev'. rewrite last_lookup in El', Ev'. destruct (Hwl _ y El') as [_ Pl]. destruct (Hwv _ z Ev') as [_ Pv].
    pose proof (lookup_lt_Some _ _ _ El') as L1. pose proof (lookup_lt_Some _ _ _ Ev') as L2.
    replace (S (Nat.pred (length l))) with (length l) in Pl by lia. replace (S (Nat.pred (length v))) with (length v) in Pv by lia. rewrite firstn_all in Pl, Pv.
    replace (tm z) with (tm y) in Pv by lia. etrans; [exact Hp|]. destruct (prefix_weak_total v l _ Pv Pl) as [H|H]; [exact H|].
    rewrite (prefix_length_eq _ _ H) by lia. done.
Qed.

(** Two logs agree wherever both are decided. *)
Lemma decided_agree t1 t2 l1 l2 k1 k2 j :
  decided s t1 l1 k1 → decided s t2 l2 k2 → l1 !! 0%nat = l2 !! 0%nat → (j <= k1)%nat → (j <= k2)%nat → l1 !! j = l2 !! j.
Proof.
  assert (∀ l1 l2 k1 k2 j u1 i1 u2 i2, committed s u1 i1 → committed s u2 i2 → u1 <= u2 → (k1 <= i1)%nat → (k2 <= i2)%nat →
    take (S k1) l1 = take (S k1) (a_llog s u1) → take (S k2) l2 = take (S k2) (a_llog s u2) → (j <= k1)%nat → (j <= k2)%nat → l1 !! j = l2 !! j) as Hgen.
  { clear t1 t2 l1 l2 k1 k2 j. intros l1 l2 k1 k2 j u1 i1 u2 i2 C1 C2 Hu H1 H2 E1 E2 J1 J2.
    rewrite <-(lookup_take_lt l1 (S k1) j) by lia. rewrite <-(lookup_take_lt l2 (S k2) j) by lia. rewrite E1, E2, !lookup_take_lt by lia.
    destruct (decide (u1 = u2)) as [->|Hne]; [done|]. pose proof C2 as (_ & [[n l] He] & _).
    pose proof (completeness u1 i1 u2 n l C1 ltac:(lia) He) as Hp. pose proof (elect_prefix _ _ _ He) as Hp2.
    pose proof (committed_len s u1 i1 C1) as Hlen. destruct (lookup_lt_is_Some_2 (a_llog s u1) j ltac:(lia)) as [x Hx]. rewrite Hx. symmetry.
    eapply prefix_lookup_Some; [|exact Hp2]. eapply prefix_lookup_Some; [|exact Hp]. rewrite lookup_take_lt by lia. exact Hx. }
  intros [->|(u1 & i1 & C1 & _ & K1 & E1)] [->|(u2 & i2 & C2 & _ & K2 & E2)] H0 J1 J2; try (replace j with 0%nat by lia; exact H0).
  destruct (Z.le_ge_cases u1 u2) as [Hu|Hu]; [exact (Hgen l1 l2 k1 k2 j u1 i1 u2 i2 C1 C2 Hu K1 K2 E1 E2 J1 J2)|].
  symmetry. exact (Hgen l2 l1 k2 k1 j u2 i2 u1 i1 C2 C1 Hu K2 K1 E2 E1 J2 J1).
Qed.

(** A decided prefix is in the log of every leader from then on. *)
Lemma decided_llog t u n l v k : decided s t v k → t <= u → 1 <= u → a_elect s u = Some (n, l) → v !! 0%nat = Some nil_entry → take (S k) v `prefix_of` a_llog s u.
Proof.
  intros Hd Hu H1 He H0. pose proof (elect_prefix _ _ _ He) as Hpre. destruct Hd as [->|(t0 & i0 & C & Ht & Hk & Eq)].
  - destruct (i_elected _ I u n l H1 He) as (_ & _ & _ & Hl & _). destruct v as [|x v]; [discriminate|]. injection H0 as ->. destruct l as [|y l]; [discriminate|].
    injection Hl as ->. etrans; [|exact Hpre]. cbn. apply prefix_cons, prefix_nil.
  - rewrite Eq. destruct (decide (t0 = u)) as [->|Hne]; [apply prefix_take|]. etrans; [|exact Hpre]. etrans; [|exact (completeness t0 i0 u n l C ltac:(lia) He)].
    replace (take (S k) (a_llog s t0)) with (take (S k) (take (S i0) (a_llog s t0))) by (rewrite take_take; f_equal; lia). apply prefix_take.
Qed.
End facts.
(** * Laying the entries of a leader over a log *)
Lemma lay_exact G i es : take (S i) G ++ es `prefix_of` G → (i < length G)%nat → lay (take (S i) G) i es = take (S (i + length es)) G.
Proof.
  revert i. induction es as [|e es IH]; intros i Hp Hi; [by rewrite Nat.add_0_r|]. cbn [lay length].
  rewrite lookup_ge_None_2 by (rewrite length_take; lia). destruct Hp as [rest Hp]. rewrite <-app_assoc in Hp. cbn [app] in Hp.
  assert (take (S i) G ++ [e] = take (S (S i)) G) as He.
  { rewrite Hp at 2. rewrite take_app_ge by (rewrite length_take; lia). rewrite length_take.
    replace (S (S i) - S i `min` length G)%nat with 1%nat by lia. done. }
  rewrite He. rewrite IH.
  - f_equal. lia.
  - exists rest. rewrite <-He, <-!app_assoc. exact Hp.
  - assert (length G = length (take (S i) G ++ e :: es ++ rest)) as Hl by (by rewrite Hp at 1). rewrite length_app, length_take in Hl. cbn [length] in Hl. lia.
Qed.

Section laying.
Context (s : AState) (I : ainv s).

Lemma llog_wfl t : is_Some (a_elect s t) → wfl s (a_llog s t).
Proof.
  intros [[n l] He]. destruct (i_zero _ I) as (_ & H0 & _ & Hpos & _). pose proof (Hpos t ltac:(by exists (n, l))) as Ht0.
  destruct (decide (t = 0)) as [->|Hne].
  - rewrite H0. intros [|i] x Hx; [|discriminate]. injection Hx as <-. rewrite Hnil, H0. split; [by eexists|done].
  - destruct (i_elected _ I t n l ltac:(lia) He) as (_ & Hw & _ & _ & (new & E1 & Hn) & _). rewrite E1. intros i x Hx.
    apply lookup_app_Some in Hx as [Hx|[Hlen Hx]].
    + destruct (Hw i x Hx) as [H1 H2]. split; [exact H1|]. rewrite take_app_le by (apply lookup_lt_Some in Hx; lia). exact H2.
    + apply list_elem_of_lookup_2, Hn in Hx. rewrite Hx. split; [by eexists|]. rewrite E1. apply prefix_take.
Qed.

Lemma lay_cases G log i es :
  wfl s log → wfl s G → (i < length log)%nat → (i < length G)%nat → take (S i) log = take (S i) G → take (S i) G ++ es `prefix_of` G →
  (lay log i es = log ∧ take (S (i + length es)) log = take (S (i + length es)) G) ∨
  (lay log i es = take (S (i + length es)) G ∧ take (S (i + length es)) log ≠ take (S (i + length es)) G).
Proof.
  intros Wl WG. revert i. induction es as [|e es IH]; intros i Hil HiG Ht Hp; [left; by rewrite Nat.add_0_r|]. cbn [lay length].
  pose proof Hp as [rest Hp']. assert (G !! S i = Some e) as HG.
  { rewrite Hp', <-app_assoc. cbn [app]. rewrite lookup_app_r by (rewrite length_take; lia). rewrite length_take.
    replace (S i - S i `min` length G)%nat with 0%nat by lia. done. }
  pose proof (lookup_lt_Some _ _ _ HG) as HlG. assert (take (S (S i)) G ++ es `prefix_of` G) as Hp2.
  { exists rest. rewrite (take_S_r _ _ _ HG), <-!app_assoc. cbn [app]. by rewrite Hp', <-app_assoc at 1. }
  assert (take (S (i + S (length es))) G `prefix_of` G) as _ by apply prefix_take.
  assert (length G >= S (i + S (length es)))%nat as Hlong.
  { rewrite Hp', !length_app, length_take. cbn [length]. lia. }
  assert (∀ j x y, (j <= i + S (length es))%nat → log !! j = x → G !! j = y → x ≠ y → take (S (i + S (length es))) log ≠ take (S (i + S (length es))) G) as Hdiff.
  { intros j x y Hj Hx Hy Hne He. apply Hne. rewrite <-Hx, <-Hy. rewrite <-(lookup_take_lt log (S (i + S (length es))) j), <-(lookup_take_lt G (S (i + S (length es))) j) by lia. by rewrite He. }
  destruct (log !! S i) as [x|] eqn:Hx.
  - destruct (decide (tm x = tm e)) as [Htm|Htm].
    + replace (i + S (length es))%nat with (S i + length es)%nat by lia.
      apply IH; [by eapply lookup_lt_Some|exact HlG| |exact Hp2]. by eapply (log_match s log G (S i) x e).
    + right. split; [|eapply (Hdiff (S i)); [lia|exact Hx|exact HG|congruence]].
      rewrite Ht, <-(take_S_r _ _ _ HG), (lay_exact G (S i) es Hp2 HlG). f_equal. lia.
  - right. split; [|eapply (Hdiff (S i)); [lia|exact Hx|exact HG|congruence]].
    assert (log = take (S i) G) as -> by (rewrite <-Ht; symmetry; apply take_ge; apply lookup_ge_None in Hx; lia).
    rewrite <-(take_S_r _ _ _ HG), (lay_exact G (S i) es Hp2 HlG). f_equal. lia.
Qed.

(** An append from the leader of [t], taken. *)
Lemma lay_ok t prev pt es c log x :
  MApp t prev pt es c ∈ a_said s → wfl s log → log !! prev = Some x → tm x = pt →
  take (S (prev + length es)) (a_llog s t) `prefix_of` lay log prev es ∧ wfl s (lay log prev es) ∧
  (∀ P, P `prefix_of` log → P `prefix_of` lay log prev es ∨ ¬ P `prefix_of` a_llog s t) ∧
  (∀ y, y ∈ lay log prev es → y ∈ log ∨ y ∈ a_llog s t) ∧ (prev + length es < length (a_llog s t))%nat.
Proof.
  intros Hm Hw Hx Hpt. destruct (i_app _ I _ _ _ _ _ Hm) as (Ht & He & (y & Hy & Hyt) & Hp & _). pose proof (llog_wfl t He) as HwG.
  pose proof (lookup_lt_Some _ _ _ Hx) as L1. pose proof (lookup_lt_Some _ _ _ Hy) as L2.
  pose proof (log_match s log (a_llog s t) prev x y Hw HwG Hx Hy ltac:(congruence)) as Htake.
  assert (prev + length es < length (a_llog s t))%nat as Hlen by (apply prefix_length in Hp; rewrite length_app, length_take in Hp; lia).
  destruct (lay_cases (a_llog s t) log prev es Hw HwG L1 L2 Htake Hp) as [[-> Heq]|[-> Hne]]; remember (S (prev + length es)) as k eqn:Ek.
  - split_and!; [rewrite <-Heq; apply prefix_take|exact Hw|intros P HP; by left|by left|exact Hlen].
  - split_and!; [done| | |intros z Hz; right; by apply (elem_of_take) in Hz as (j & Hz & _); eapply list_elem_of_lookup_2|exact Hlen].
    + intros i z Hz. apply lookup_take_Some in Hz as [Hz Hi]. destruct (HwG i z Hz) as [H1 H2]. split; [exact H1|].
      rewrite take_take. replace (S i `min` k)%nat with (S i) by lia. exact H2.
    + intros P HP. destruct (decide (P `prefix_of` a_llog s t)) as [HPG|]; [left|by right].
      destruct (Nat.le_gt_cases k (length P)) as [Hge|Hlt].
      * exfalso. apply Hne. destruct HP as [r1 ->], HPG as [r2 ->]. by rewrite !take_app_le by lia.
      * destruct HPG as [r2 ->]. rewrite take_app_ge by lia. by apply prefix_app_r.
Qed.
End laying.
(** * Every step keeps the invariant *)
Section steps.
Context (s : AState) (I : ainv s).

(** Nothing said, nothing appended. *)
Lemma frame_passive term' vote' role' commit' :
  (∀ n, a_term s n <= term' n) → frame s (mkA term' vote' role' (a_log s) commit' (a_said s) (a_elect s) (a_llog s)).
Proof.
  intros Hterm. split; [auto|intros t; exists []; rewrite app_nil_r; split; [done|by intros _ x ?%not_elem_of_nil]|auto|exact Hterm|by left].
Qed.

Lemma keep_passive term' vote' role' commit' :
  let s' := mkA term' vote' role' (a_log s) commit' (a_said s) (a_elect s) (a_llog s) in
  (∀ n, a_term s n <= term' n) → (∀ n, term' n = a_term s n → vote' n = a_vote s n) →
  (∀ n, role' n = AFollower ∨ (role' n = a_role s n ∧ term' n = a_term s n)) → (∀ n, decided s (term' n) (a_log s n) (commit' n)) → ainv s'.
Proof.
  intros s' Hterm Hvote Hrole Hcom. pose proof (frame_passive term' vote' role' commit' Hterm) as F. fold s' in F.
  split.
  - destruct (i_zero _ I) as (H1 & H2 & H3 & H4). split; [exact H1|]. split; [exact H2|]. split; [|exact H4]. intros n. pose proof (H3 n). pose proof (Hterm n). cbn. lia.
  - apply (i_head _ I).
  - apply (i_logs _ I).
  - intros n x Hx. pose proof (i_log_term _ I n x Hx). pose proof (Hterm n). cbn. lia.
  - intros t n l. apply (fr_elected s s' I F).
  - intros t n c Hv. destruct (i_vote _ I t n c Hv) as [H1 H2]. pose proof (Hterm n). cbn. split; [lia|]. intros He. rewrite Hvote by lia. apply H2. lia.
  - apply (i_vote_one _ I).
  - intros t n c. apply (fr_vote_said s s' I F).
  - intros t c l. apply (fr_req s s' I F).
  - apply (i_req_one _ I).
  - intros n Hc. cbn in *. destruct (Hrole n) as [H|[H1 H2]]; [congruence|]. rewrite H2. apply (i_cand _ I). congruence.
  - intros n Hc. cbn in *. destruct (Hrole n) as [H|[H1 H2]]; [congruence|]. rewrite H2. apply (i_lead _ I). congruence.
  - intros t prev pt es c. apply (fr_app s s' I F).
  - intros t n m. apply (fr_ack s s' I F).
  - intros t n i Ha. eapply (kept_weaken s t i (a_log s n)); [apply (i_kept _ I), Ha|done|]. pose proof (Hterm n). cbn. lia.
  - exact Hcom.
Qed.

(** Only something said, that is not an acknowledgement. *)
Lemma frame_said term' vote' role' log' commit' new :
  (∀ n, a_term s n <= term' n) → (∀ t n m, MAck t n m ∈ new → t = a_term s n) →
  frame s (mkA term' vote' role' log' commit' (new ++ a_said s) (a_elect s) (a_llog s)).
Proof.
  intros Hterm Hnew. split; cbn.
  - auto.
  - intros t. exists []. rewrite app_nil_r. split; [done|by intros _ x ?%not_elem_of_nil].
  - intros m Hm. apply elem_of_app. by right.
  - exact Hterm.
  - intros t n i [(m & Hm & [Hin|Hin]%elem_of_app)|H]; [right; by eapply Hnew|left; left; by exists m|left; by right].
Qed.

(** Only something said that is not an acknowledgement: no node is known to hold more. *)
Lemma ackd_said term' vote' role' log' commit' new :
  (∀ t n m, MAck t n m ∉ new) → ∀ t n i, ackd (mkA term' vote' role' log' commit' (new ++ a_said s) (a_elect s) (a_llog s)) t n i → ackd s t n i.
Proof. intros Hnew t n i [(m & Hm & [Hin|Hin]%elem_of_app)|H]; [by apply Hnew in Hin|left; by exists m|by right]. Qed.

Lemma up_to_date_refl l : up_to_date l l.
Proof. right. split; [done|lia]. Qed.

Ltac no_ack := let H := fresh in intros ? ? ? H; repeat (apply elem_of_cons in H as [H|H]; [discriminate H|]); by apply not_elem_of_nil in H.

(** A vote for the node's own log. *)
Lemma own_vote_ok s' n t :
  frame s s' → a_term s n < t → (∀ t0 i, ackd s' t0 n i → ackd s t0 n i) → vote_ok s' t n (a_log s n).
Proof.
  intros F Ht Hack. exists (a_log s n). split; [apply up_to_date_refl|]. split; [apply (fr_wfl s s' F), (i_logs _ I)|]. intros t0 i Hlt Ha%Hack.
  eapply (fr_kept s s' I F); [exact Ha|]. eapply kept_weaken; [apply (i_kept _ I), Ha|done|lia].
Qed.

Lemma keep_stand n :
  let t := a_term s n + 1 in
  ainv (mkA (upd (a_term s) n t) (upd (a_vote s) n (Some n)) (upd (a_role s) n ACandidate) (a_log s) (a_commit s)
      ([MReq t n (a_log s n); MVote t n n] ++ a_said s) (a_elect s) (a_llog s)).
Proof.
  intros t. set (s' := mkA _ _ _ _ _ _ _ _).
  assert (∀ m, a_term s m <= upd (a_term s) n t m) as Hterm by (intros m; unfold upd; destruct (decide (m = n)) as [->|]; lia).
  assert (∀ u m k, MAck u m k ∉ [MReq t n (a_log s n); MVote t n n]) as Hna by no_ack.
  assert (frame s s') as F by (apply frame_said; [exact Hterm|intros u m k Hin; by apply Hna in Hin]).
  destruct (i_zero _ I) as (Z1 & Z2 & Z3 & Z4). pose proof (Z3 n) as Hn0.
  assert (∀ u c, MVote u n c ∈ a_said s → u < t) as Hnv by (intros u c Hv; destruct (i_vote _ I u n c Hv) as [? _]; lia).
  assert (∀ u l, MReq u n l ∈ a_said s → u < t) as Hnr by (intros u l Hv; destruct (i_req _ I u n l Hv) as [? _]; lia).
  assert (∀ x, x ∈ a_log s n → tm x < t) as Hbelow by (intros x Hx; pose proof (i_log_term _ I n x Hx); lia).
  split.
  - split; [exact Z1|]. split; [exact Z2|]. split; [|exact Z4]. intros m. pose proof (Z3 m). pose proof (Hterm m). cbn. lia.
  - apply (i_head _ I).
  - apply (i_logs _ I).
  - intros m x Hx. pose proof (i_log_term _ I m x Hx). pose proof (Hterm m). cbn. lia.
  - intros u m l. apply (fr_elected s s' I F).
  - intros u m c [Hin|[Hin|Hv]%elem_of_cons]%elem_of_cons; [discriminate| |].
    + injection Hin as -> -> ->. cbn. rewrite !upd_eq. split; [lia|done].
    + destruct (i_vote _ I u m c Hv) as [H1 H2]. pose proof (Hterm m). cbn. split; [lia|]. destruct (decide (m = n)) as [->|Hne]; [|by rewrite !upd_ne].
      rewrite upd_eq. intros ->. apply Hnv in Hv. lia.
  - intros u m c c' [Hin|[Hin|Hv]%elem_of_cons]%elem_of_cons [Hin'|[Hin'|Hv']%elem_of_cons]%elem_of_cons; try discriminate; simplify_eq; try done.
    + apply Hnv in Hv'. lia.
    + apply Hnv in Hv. lia.
    + by eapply (i_vote_one _ I).
  - intros u m c [Hin|[Hin|Hv]%elem_of_cons]%elem_of_cons He; [discriminate| |by apply (fr_vote_said s s' I F)].
    injection Hin as -> -> ->. exists (a_log s n). split; [left|]. apply own_vote_ok; [exact F|lia|]. intros t0 i. apply ackd_said, Hna.
  - intros u c l [Hin|[Hin|Hv]%elem_of_cons]%elem_of_cons; [|discriminate|by apply (fr_req s s' I F)].
    injection Hin as -> -> ->. cbn. rewrite upd_eq. split; [lia|]. split; [apply (i_logs _ I)|exact Hbelow].
  - intros u c l l' [Hin|[Hin|Hv]%elem_of_cons]%elem_of_cons [Hin'|[Hin'|Hv']%elem_of_cons]%elem_of_cons; try discriminate; simplify_eq; try done.
    + apply Hnr in Hv'. lia.
    + apply Hnr in Hv. lia.
    + by eapply (i_req_one _ I).
  - intros m Hc. cbn in *. destruct (decide (m = n)) as [->|Hne].
    + rewrite !upd_eq in *. split; [lia|]. split; [left|]. intros l He. destruct (i_elected _ I t n l ltac:(lia) He) as [? _]. lia.
    + rewrite !upd_ne in * by done. destruct (i_cand _ I m Hc) as (H1 & H2 & H3). split; [exact H1|]. split; [by do 2 right|exact H3].
  - intros m Hc. cbn in *. destruct (decide (m = n)) as [->|Hne]; [by rewrite upd_eq in Hc|]. rewrite !upd_ne in * by done. by apply (i_lead _ I).
  - intros u prev pt es c [Hin|[Hin|Hv]%elem_of_cons]%elem_of_cons; [discriminate..|by apply (fr_app s s' I F)].
  - intros u m k [Hin|[Hin|Hv]%elem_of_cons]%elem_of_cons; [discriminate..|by apply (fr_ack s s' I F)].
  - intros u m i Ha%(ackd_said _ _ _ _ _ _ Hna). eapply (kept_weaken s u i (a_log s m)); [apply (i_kept _ I), Ha|done|]. pose proof (Hterm m). cbn. lia.
  - intros m. apply (fr_decided s s' F (a_term s m)); [apply (i_commit _ I)|apply Hterm].
Qed.
Lemma keep_grant n c l :
  MReq (a_term s n) c l ∈ a_said s → (a_vote s n = None ∨ a_vote s n = Some c) → up_to_date l (a_log s n) →
  ainv (mkA (a_term s) (upd (a_vote s) n (Some c)) (a_role s) (a_log s) (a_commit s) ([MVote (a_term s n) n c] ++ a_said s) (a_elect s) (a_llog s)).
Proof.
  intros Hreq Hvote Hup. set (s' := mkA _ _ _ _ _ _ _ _). set (t := a_term s n) in *.
  assert (∀ u m k, MAck u m k ∉ [MVote t n c]) as Hna by no_ack.
  assert (frame s s') as F by (apply frame_said; [intros m; lia|intros u m k Hin; by apply Hna in Hin]).
  destruct (i_req _ I _ _ _ Hreq) as (Ht & _).
  assert (∀ c', MVote t n c' ∈ a_said s → c' = c) as Hsame.
  { intros c' Hv. destruct (i_vote _ I _ _ _ Hv) as [_ Hc]. specialize (Hc eq_refl). destruct Hvote; congruence. }
  split.
  - apply (i_zero _ I).
  - apply (i_head _ I).
  - apply (i_logs _ I).
  - apply (i_log_term _ I).
  - intros u m l'. apply (fr_elected s s' I F).
  - intros u m d [Hin|Hv]%elem_of_cons.
    + injection Hin as -> -> ->. cbn. rewrite upd_eq. split; [unfold t in *; lia|done].
    + destruct (i_vote _ I u m d Hv) as [H1 H2]. cbn. split; [exact H1|]. intros He. destruct (decide (m = n)) as [->|Hne]; [|rewrite upd_ne by done; by apply H2].
      rewrite upd_eq. f_equal. symmetry. apply Hsame. unfold t. by rewrite <-He.
  - intros u m d d' [Hin|Hv]%elem_of_cons [Hin'|Hv']%elem_of_cons; simplify_eq; try done.
    + symmetry. by apply Hsame.
    + by apply Hsame.
    + by eapply (i_vote_one _ I).
  - intros u m d [Hin|Hv]%elem_of_cons He; [|by apply (fr_vote_said s s' I F)]. injection Hin as -> -> ->.
    exists l. split; [by right|]. exists (a_log s n). split; [exact Hup|]. split; [apply (i_logs _ I)|]. intros t0 i Hlt Ha%(ackd_said _ _ _ _ _ _ Hna).
    destruct (i_kept _ I _ _ _ Ha) as [H|(t' & n' & cl & Hr & Het & Hn)]; [by left|right]. exists t', n', cl. split; [|by split].
    split; [apply Hr|]. assert (t' ≠ t) by (intros ->; cbn in He; congruence). unfold t in *. lia.
  - intros u d l' [Hin|Hv]%elem_of_cons; [discriminate|by apply (fr_req s s' I F)].
  - intros u d l1 l2 [Hin|Hv]%elem_of_cons [Hin'|Hv']%elem_of_cons; try discriminate. by eapply (i_req_one _ I).
  - intros m Hc. destruct (i_cand _ I m Hc) as (H1 & H2 & H3). split; [exact H1|]. split; [by right|exact H3].
  - apply (i_lead _ I).
  - intros u prev pt es d [Hin|Hv]%elem_of_cons; [discriminate|by apply (fr_app s s' I F)].
  - intros u m k [Hin|Hv]%elem_of_cons; [discriminate|by apply (fr_ack s s' I F)].
  - intros u m i Ha%(ackd_said _ _ _ _ _ _ Hna). apply (i_kept _ I), Ha.
  - intros m. apply (fr_decided s s' F (a_term s m)); [apply (i_commit _ I)|done].
Qed.

Lemma decided_len t l k : decided s t l k → l ≠ [] → (k < length l)%nat.
Proof.
  intros [->|(t0 & i0 & C & _ & Hk & He)] Hne; [destruct l; [done|cbn; lia]|]. pose proof (committed_len s t0 i0 C).
  apply (f_equal length) in He. rewrite !length_take in He. lia.
Qed.

Lemma decided_prefix t l l' k : decided s t l k → (k < length l)%nat → take (S k) l `prefix_of` l' → decided s t l' k.
Proof.
  intros [->|(t0 & i0 & C & Ht & Hk & He)] Hlen Hp; [by left|right]. exists t0, i0. split_and!; [exact C|exact Ht|exact Hk|]. rewrite <-He.
  destruct Hp as [r ->]. rewrite take_app_le by (rewrite length_take; lia). by rewrite take_take, Nat.min_id.
Qed.

Lemma decided_le t l k k' : decided s t l k → (k' <= k)%nat → decided s t l k'.
Proof.
  intros [->|(t0 & i0 & C & Ht & Hk & He)] Hle; [left; lia|right]. exists t0, i0. split_and!; [exact C|exact Ht|lia|].
  apply (f_equal (take (S k'))) in He. rewrite !take_take in He. by replace (S k' `min` S k)%nat with (S k') in He by lia.
Qed.

Lemma log_ne n : a_log s n ≠ [].
Proof. pose proof (i_head _ I n) as H1. by destruct (a_log s n). Qed.
Lemma commit_len n : (a_commit s n < length (a_log s n))%nat.
Proof. eapply decided_len; [apply (i_commit _ I)|apply log_ne]. Qed.

Lemma keep_send n prev x :
  a_role s n = ALeader → a_log s n !! prev = Some x →
  ainv (mkA (a_term s) (a_vote s) (a_role s) (a_log s) (a_commit s)
    ([MApp (a_term s n) prev (tm x) (drop (S prev) (a_log s n)) (a_commit s n)] ++ a_said s) (a_elect s) (a_llog s)).
Proof.
  intros Hl Hx. set (s' := mkA _ _ _ _ _ _ _ _). set (t := a_term s n) in *.
  assert (∀ u m k, MAck u m k ∉ [MApp t prev (tm x) (drop (S prev) (a_log s n)) (a_commit s n)]) as Hna by no_ack.
  assert (frame s s') as F by (apply frame_said; [intros m; lia|intros u m k Hin; by apply Hna in Hin]).
  destruct (i_lead _ I n Hl) as (Ht & (l & He) & Hlog). fold t in Ht, He, Hlog.
  split.
  - apply (i_zero _ I).
  - apply (i_head _ I).
  - apply (i_logs _ I).
  - apply (i_log_term _ I).
  - intros u m l'. apply (fr_elected s s' I F).
  - intros u m d [Hin|Hv]%elem_of_cons; [discriminate|by apply (i_vote _ I)].
  - intros u m d d' [Hin|Hv]%elem_of_cons [Hin'|Hv']%elem_of_cons; try discriminate. by eapply (i_vote_one _ I).
  - intros u m d [Hin|Hv]%elem_of_cons He'; [discriminate|by apply (fr_vote_said s s' I F)].
  - intros u d l' [Hin|Hv]%elem_of_cons; [discriminate|by apply (fr_req s s' I F)].
  - intros u d l1 l2 [Hin|Hv]%elem_of_cons [Hin'|Hv']%elem_of_cons; try discriminate. by eapply (i_req_one _ I).
  - intros m Hc. destruct (i_cand _ I m Hc) as (H1 & H2 & H3). split; [exact H1|]. split; [by right|exact H3].
  - apply (i_lead _ I).
  - intros u p pt es d [Hin|Hv]%elem_of_cons; [|by apply (fr_app s s' I F)]. injection Hin as -> -> -> -> ->. cbn. rewrite <-Hlog.
    split; [exact Ht|]. split; [by eexists|]. split; [by exists x|]. rewrite take_drop. split; [done|].
    pose proof (commit_len n). pose proof (lookup_lt_Some _ _ _ Hx). rewrite length_drop. split; [lia|].
    apply (fr_decided s s' F t); [apply (i_commit _ I)|done].
  - intros u m k [Hin|Hv]%elem_of_cons; [discriminate|by apply (fr_ack s s' I F)].
  - intros u m i Ha%(ackd_said _ _ _ _ _ _ Hna). apply (i_kept _ I), Ha.
  - intros m. apply (fr_decided s s' F (a_term s m)); [apply (i_commit _ I)|done].
Qed.

Lemma keep_recv n prev pt es c x :
  MApp (a_term s n) prev pt es c ∈ a_said s → a_role s n ≠ ALeader → a_log s n !! prev = Some x → tm x = pt →
  ainv (mkA (a_term s) (a_vote s) (upd (a_role s) n AFollower) (upd (a_log s) n (lay (a_log s n) prev es)) (a_commit s)
    ([MAck (a_term s n) n (prev + length es)] ++ a_said s) (a_elect s) (a_llog s)).
Proof.
  intros Hm Hrole Hx Hpt. set (s' := mkA _ _ _ _ _ _ _ _). set (t := a_term s n) in *.
  assert (frame s s') as F.
  { apply frame_said; [intros m; lia|]. intros u m k [Hin|Hin]%elem_of_cons; [|by apply not_elem_of_nil in Hin]. injection Hin as -> -> _. done. }
  destruct (lay_ok s I t prev pt es c (a_log s n) x Hm (i_logs _ I n) Hx Hpt) as (L1 & L2 & L3 & L4 & L5).
  destruct (i_app _ I _ _ _ _ _ Hm) as (Ht & [[n' cl] He] & _). set (log' := lay (a_log s n) prev es) in *.
  assert (∀ k, decided s t (a_log s n) k → take (S k) (a_log s n) `prefix_of` log') as Hdec.
  { intros k Hd. destruct (L3 (take (S k) (a_log s n))) as [H|H]; [apply prefix_take|exact H|].
    exfalso. apply H. apply (decided_llog s I t t n' cl); [exact Hd|lia|exact Ht|exact He|apply (i_head _ I)]. }
  split.
  - apply (i_zero _ I).
  - intros m. cbn. destruct (decide (m = n)) as [->|Hne]; [rewrite upd_eq|rewrite upd_ne by done; apply (i_head _ I)].
    eapply prefix_lookup_Some; [|apply (Hdec 0%nat); by left]. rewrite lookup_take_lt by lia. apply (i_head _ I).
  - intros m. cbn. destruct (decide (m = n)) as [->|Hne]; [rewrite upd_eq; exact L2|rewrite upd_ne by done; apply (i_logs _ I)].
  - intros m y. cbn. destruct (decide (m = n)) as [->|Hne]; [rewrite upd_eq|rewrite upd_ne by done; apply (i_log_term _ I)].
    intros [Hy|Hy]%L4; [by apply (i_log_term _ I)|]. apply (llog_le s I t); [by eexists|exact Hy].
  - intros u m l'. apply (fr_elected s s' I F).
  - intros u m d [Hin|Hv]%elem_of_cons; [discriminate|by apply (i_vote _ I)].
  - intros u m d d' [Hin|Hv]%elem_of_cons [Hin'|Hv']%elem_of_cons; try discriminate. by eapply (i_vote_one _ I).
  - intros u m d [Hin|Hv]%elem_of_cons He'; [discriminate|by apply (fr_vote_said s s' I F)].
  - intros u d l' [Hin|Hv]%elem_of_cons; [discriminate|by apply (fr_req s s' I F)].
  - intros u d l1 l2 [Hin|Hv]%elem_of_cons [Hin'|Hv']%elem_of_cons; try discriminate. by eapply (i_req_one _ I).
  - intros m Hc. cbn in *. destruct (decide (m = n)) as [->|Hne]; [by rewrite upd_eq in Hc|]. rewrite !upd_ne in * by done.
    destruct (i_cand _ I m Hc) as (H1 & H2 & H3). split; [exact H1|]. split; [by right|exact H3].
  - intros m Hc. cbn in *. destruct (decide (m = n)) as [->|Hne]; [by rewrite upd_eq in Hc|]. rewrite !upd_ne in * by done. by apply (i_lead _ I).
  - intros u p pt' es' d [Hin|Hv]%elem_of_cons; [discriminate|by apply (fr_app s s' I F)].
  - intros u m k [Hin|Hv]%elem_of_cons; [|by apply (fr_ack s s' I F)]. injection Hin as -> -> ->. cbn. split; [unfold t in *; lia|]. split; [by eexists|exact L5].
  - intros u m i Ha. cbn. destruct (decide (m = n)) as [->|Hne].
    2:{ rewrite upd_ne by done. apply (i_kept _ I). destruct Ha as [(k & Hk & [Hin|Hin]%elem_of_cons)|Ha]; [by injection Hin as _ -> _|left; by exists k|by right]. }
    rewrite upd_eq. fold t.
    assert (ackd s u n i ∨ (u = t ∧ (i <= prev + length es)%nat)) as [Ho|[-> Hi]].
    { destruct Ha as [(k & Hk & [Hin|Hin]%elem_of_cons)|Ha]; [injection Hin as -> ->; by right|left; left; by exists k|left; by right]. }
    + destruct (i_kept _ I _ _ _ Ho) as [H|H]; [|by right]. destruct (L3 _ H) as [H'|H']; [by left|]. right. exists t, n', cl.
      assert (u ≠ t) by (intros ->; apply H', prefix_take).
      assert (u <= t) by (destruct Ho as [(k & _ & Hin)|(Hu & (l & Hl) & _)]; [apply (i_ack _ I) in Hin as (? & _); unfold t; lia|destruct (i_elected _ I u n l Hu Hl) as [? _]; exact H1]).
      split; [lia|]. split; [exact He|]. intros Hc. apply H'. etrans; [exact Hc|]. by eapply (elect_prefix s I).
    + left. etrans; [|exact L1]. replace (take (S i) (a_llog s' t)) with (take (S i) (take (S (prev + length es)) (a_llog s t))) by (rewrite take_take; f_equal; lia). apply prefix_take.
  - intros m. cbn. destruct (decide (m = n)) as [->|Hne].
    2:{ rewrite upd_ne by done. apply (fr_decided s s' F (a_term s m)); [apply (i_commit _ I)|done]. }
    rewrite upd_eq. apply (fr_decided s s' F t); [|done]. eapply decided_prefix; [apply (i_commit _ I)|apply commit_len|]. apply Hdec, (i_commit _ I).
Qed.
Lemma wfl_snoc s' t l e : wfl s' l → tm e = t → is_Some (a_elect s' t) → l ++ [e] `prefix_of` a_llog s' t → wfl s' (l ++ [e]).
Proof.
  intros Hw <- He Hp i x Hx. apply lookup_app_Some in Hx as [Hx|[Hlen Hx]].
  - destruct (Hw i x Hx) as [H1 H2]. split; [exact H1|]. rewrite take_app_le by (apply lookup_lt_Some in Hx; lia). exact H2.
  - apply list_lookup_singleton_Some in Hx as [Hi <-]. split; [exact He|]. rewrite take_ge by (rewrite length_app; cbn; lia). exact Hp.
Qed.

(** A leader's log grows by an entry of its own term, and the log of its term with it. *)
Lemma keep_grown s' n e :
  let t := a_term s n in
  frame s s' → 1 <= t → tm e = t → (∃ l, a_elect s' t = Some (n, l)) →
  a_term s' = a_term s → a_vote s' = a_vote s → a_commit s' = a_commit s → a_said s' = a_said s →
  a_log s' = upd (a_log s) n (a_log s n ++ [e]) → a_llog s' = upd (a_llog s) t (a_log s n ++ [e]) →
  a_role s' = upd (a_role s) n ALeader → (∀ u, u ≠ t → a_elect s' u = a_elect s u) → 
  (∀ u n' l, 1 <= u → a_elect s' u = Some (n', l) →
    u <= a_term s' n' ∧ wfl s' l ∧ (∀ x, x ∈ l → tm x < u) ∧ l !! 0%nat = Some nil_entry ∧
    (∃ new, a_llog s' u = l ++ new ∧ ∀ x, x ∈ new → tm x = u) ∧
    (∃ Q, quorum Q ∧ ∀ m, m ∈ Q → MVote u m n' ∈ a_said s' ∧ vote_ok s' u m l)) →
  ainv s'.
Proof.
  intros t F Ht Htm [l0 Hel] Eterm Evote Ecom Esaid Elog Ellog Erole Eoth Helected. destruct (i_zero _ I) as (Z1 & Z2 & Z3 & Z4 & Z5).
  assert (∀ u m i, ackd s' u m i → ackd s u m i ∨ (u = t ∧ m = n)) as Hack.
  { intros u m i [(k & Hk & Hin)|(Hu & (l & Hl) & Hi)]; [left; left; exists k; by rewrite <-Esaid|].
    destruct (decide (u = t)) as [->|Hne]; [right; split; [done|congruence]|left; right]. rewrite Ellog, upd_ne in Hi by done. rewrite Eoth in Hl by done.
    split; [exact Hu|]. split; [by exists l|exact Hi]. }
  split.
  - rewrite Eterm. split; [by apply (f_elect _ _ F)|]. split; [rewrite Ellog, upd_ne by lia; exact Z2|]. split; [exact Z3|]. split.
    + intros u Hu. destruct (decide (u = t)) as [->|Hne]; [lia|]. rewrite Eoth in Hu by done. by apply Z4.
    + intros u Hu. destruct (decide (u = t)) as [->|Hne]; [congruence|]. rewrite Eoth in Hu by done. rewrite Ellog, upd_ne by done. by apply Z5.
  - intros m. rewrite Elog. destruct (decide (m = n)) as [->|Hne]; [rewrite upd_eq|rewrite upd_ne by done; apply (i_head _ I)].
    apply lookup_app_l_Some, (i_head _ I).
  - intros m. rewrite Elog. destruct (decide (m = n)) as [->|Hne]; [rewrite upd_eq|rewrite upd_ne by done; apply (fr_wfl s s' F), (i_logs _ I)].
    eapply (wfl_snoc s' t); [apply (fr_wfl s s' F), (i_logs _ I)|exact Htm|by eexists|]. by rewrite Ellog, upd_eq.
  - intros m x. rewrite Elog, Eterm. destruct (decide (m = n)) as [->|Hne]; [rewrite upd_eq|rewrite upd_ne by done; apply (i_log_term _ I)].
    intros [Hx| ->%list_elem_of_singleton]%elem_of_app; [by apply (i_log_term _ I)|unfold t in *; lia].
  - exact Helected.
  - rewrite Esaid, Eterm, Evote. apply (i_vote _ I).
  - rewrite Esaid. apply (i_vote_one _ I).
  - intros u m d Hv. rewrite Esaid in Hv. by apply (fr_vote_said s s' I F).
  - intros u d l Hv. rewrite Esaid in Hv. by apply (fr_req s s' I F).
  - rewrite Esaid. apply (i_req_one _ I).
  - intros m. rewrite Erole, Eterm, Esaid, Elog. destruct (decide (m = n)) as [->|Hne]; [rewrite upd_eq; discriminate|]. rewrite !upd_ne by done.
    intros Hc. destruct (i_cand _ I m Hc) as (H1 & H2 & H3). split; [exact H1|]. split; [exact H2|]. intros l He.
    destruct (decide (a_term s m = t)) as [Hmt|Hmt]; [rewrite Hmt in He; congruence|]. rewrite Eoth in He by done. by eapply H3.
  - intros m. rewrite Erole, Eterm, Elog, Ellog. destruct (decide (m = n)) as [->|Hne].
    + intros _. rewrite !upd_eq. split; [exact Ht|]. split; [by exists l0|done].
    + rewrite !upd_ne by done. intros Hc. destruct (i_lead _ I m Hc) as (H1 & (l & H2) & H3). split; [exact H1|].
      pose proof (f_elect _ _ F _ _ H2) as H2'. split; [by exists l|]. rewrite upd_ne; [exact H3|]. intros He. rewrite He in H2'. congruence.
  - intros u p pt es d Hv. rewrite Esaid in Hv. by apply (fr_app s s' I F).
  - intros u m k Hv. rewrite Esaid in Hv. by apply (fr_ack s s' I F).
  - intros u m i Ha. rewrite Eterm. destruct (Hack u m i Ha) as [Ho|[-> ->]].
    + eapply (fr_kept s s' I F); [exact Ho|]. eapply kept_weaken; [apply (i_kept _ I), Ho| |done]. rewrite Elog. unfold upd. destruct (decide (m = n)) as [->|]; [by apply prefix_app_r|done].
    + left. rewrite Elog, upd_eq, Ellog, upd_eq. apply prefix_take.
  - intros m. rewrite Eterm, Ecom, Elog. apply (fr_decided s s' F (a_term s m)); [|done].
    destruct (decide (m = n)) as [->|Hne]; [rewrite upd_eq|rewrite upd_ne by done; apply (i_commit _ I)].
    eapply decided_prefix; [apply (i_commit _ I)|apply commit_len|]. etrans; [apply prefix_take|by apply prefix_app_r].
Qed.

Lemma grown_ack s' n e :
  let t := a_term s n in
  (∃ l, a_elect s' t = Some (n, l)) → a_said s' = a_said s → a_llog s' = upd (a_llog s) t (a_log s n ++ [e]) → (∀ u, u ≠ t → a_elect s' u = a_elect s u) →
  ∀ u m i, ackd s' u m i → ackd s u m i ∨ u = a_term s m.
Proof.
  intros t [l0 Hel] Esaid Ellog Eoth u m i [(k & Hk & Hin)|(Hu & (l & Hl) & Hi)]; [left; left; exists k; by rewrite <-Esaid|].
  destruct (decide (u = t)) as [->|Hne]; [right; assert (m = n) as -> by congruence; done|left; right]. rewrite Ellog, upd_ne in Hi by done. rewrite Eoth in Hl by done.
  split; [exact Hu|]. split; [by exists l|exact Hi].
Qed.

Lemma frame_propose n e role' :
  a_role s n = ALeader → tm e = a_term s n →
  frame s (mkA (a_term s) (a_vote s) role' (upd (a_log s) n (a_log s n ++ [e])) (a_commit s) (a_said s) (a_elect s) (upd (a_llog s) (a_term s n) (a_log s n ++ [e]))).
Proof.
  intros Hr Htm. destruct (i_lead _ I n Hr) as (Ht & (l & He) & Hlog). split; cbn; [auto| |auto|done|apply (grown_ack (mkA _ _ _ _ _ _ _ _) n e); [by exists l|done..]].
  intros u. destruct (decide (u = a_term s n)) as [->|Hne]; [rewrite upd_eq|rewrite upd_ne by done].
  - exists [e]. rewrite <-Hlog. split; [done|]. intros _ x ->%list_elem_of_singleton. exact Htm.
  - exists []. rewrite app_nil_r. split; [done|by intros _ x ?%not_elem_of_nil].
Qed.

Lemma keep_propose n e :
  a_role s n = ALeader → tm e = a_term s n →
  ainv (mkA (a_term s) (a_vote s) (a_role s) (upd (a_log s) n (a_log s n ++ [e])) (a_commit s) (a_said s) (a_elect s) (upd (a_llog s) (a_term s n) (a_log s n ++ [e]))).
Proof.
  intros Hr Htm. destruct (i_lead _ I n Hr) as (Ht & (l & He) & Hlog). set (s' := mkA _ _ _ _ _ _ _ _).
  assert (ainv (mkA (a_term s) (a_vote s) (upd (a_role s) n ALeader) (a_log s') (a_commit s) (a_said s) (a_elect s) (a_llog s'))) as H.
  2:{ destruct H. split; try assumption.
      - intros m Hm. apply (i_cand0 m). cbn. unfold upd. destruct (decide (m = n)) as [->|]; [cbn in Hm; congruence|exact Hm].
      - intros m Hm. apply (i_lead0 m). cbn. unfold upd. destruct (decide (m = n)) as [->|]; [done|exact Hm]. }
  set (s2 := mkA _ _ _ _ _ _ _ _).
  pose proof (frame_propose n e (upd (a_role s) n ALeader) Hr Htm) as F.
  apply (keep_grown s2 n e); try done; [by exists l|]. intros u n' l' Hu Hl'. by apply (fr_elected s s2 I F).
Qed.

(** The leader of a term has been elected once. *)
Lemma win_first n Q :
  a_role s n = ACandidate → quorum Q → (∀ m, m ∈ Q → MVote (a_term s n) m n ∈ a_said s) → a_elect s (a_term s n) = None.
Proof.
  intros Hr HQ Hv. destruct (i_cand _ I n Hr) as (Ht & _ & Hnot). destruct (a_elect s (a_term s n)) as [[n' l]|] eqn:E1; [exfalso|done].
  destruct (i_elected _ I _ n' l Ht E1) as (_ & _ & _ & _ & _ & Q' & HQ' & Hv').
  assert (n' = n) as -> by (eapply (votes_agree s I _ n' n Q' Q HQ' HQ); [intros m Hm; by apply Hv'|exact Hv]). by apply (Hnot l).
Qed.

Lemma frame_win n e :
  a_elect s (a_term s n) = None →
  frame s (mkA (a_term s) (a_vote s) (upd (a_role s) n ALeader) (upd (a_log s) n (a_log s n ++ [e])) (a_commit s) (a_said s)
    (upd (a_elect s) (a_term s n) (Some (n, a_log s n))) (upd (a_llog s) (a_term s n) (a_log s n ++ [e]))).
Proof.
  intros Hnone. destruct (i_zero _ I) as (_ & _ & _ & _ & Z5). pose proof (Z5 _ Hnone) as Hll. set (t := a_term s n) in *.
  split; cbn; [| |auto|done|apply (grown_ack (mkA _ _ _ _ _ _ _ _) n e); [exists (a_log s n); cbn; by rewrite upd_eq|done|done|intros u Hne; cbn; by rewrite upd_ne]].
  - intros u v Hu. rewrite upd_ne; [exact Hu|congruence].
  - intros u. destruct (decide (u = t)) as [->|Hne]; [rewrite upd_eq, Hll|rewrite upd_ne by done].
    + exists (a_log s n ++ [e]). split; [done|]. rewrite Hnone. by intros [? ?].
    + exists []. rewrite app_nil_r. split; [done|by intros _ x ?%not_elem_of_nil].
Qed.

Lemma keep_win n Q e :
  a_role s n = ACandidate → quorum Q → (∀ m, m ∈ Q → MVote (a_term s n) m n ∈ a_said s) → tm e = a_term s n →
  ainv (mkA (a_term s) (a_vote s) (upd (a_role s) n ALeader) (upd (a_log s) n (a_log s n ++ [e])) (a_commit s) (a_said s)
    (upd (a_elect s) (a_term s n) (Some (n, a_log s n))) (upd (a_llog s) (a_term s n) (a_log s n ++ [e]))).
Proof.
  intros Hr HQ Hv Htm. destruct (i_cand _ I n Hr) as (Ht & Hreq & Hnot). set (t := a_term s n) in *. set (s' := mkA _ _ _ _ _ _ _ _).
  pose proof (win_first n Q Hr HQ Hv) as Hnone.
  assert (∃ l, a_elect s' t = Some (n, l)) as Hel by (exists (a_log s n); cbn; by rewrite upd_eq).
  assert (∀ u, u ≠ t → a_elect s' u = a_elect s u) as Eoth by (intros u Hne; cbn; by rewrite upd_ne).
  pose proof (frame_win n e Hnone) as F. fold t s' in F.
  apply (keep_grown s' n e); try done. intros u n' l Hu Hl. destruct (decide (u = t)) as [->|Hne].
  2:{ rewrite Eoth in Hl by done. by apply (fr_elected s s' I F). }
  cbn in Hl. rewrite upd_eq in Hl. injection Hl as <- <-. destruct (i_req _ I _ _ _ Hreq) as (_ & Hw & Hb).
  split; [done|]. split; [by apply (fr_wfl s s' F)|]. split; [exact Hb|]. split; [apply (i_head _ I)|]. split.
  - exists [e]. cbn. rewrite upd_eq. split; [done|]. by intros x ->%list_elem_of_singleton.
  - exists Q. split; [exact HQ|]. intros m Hm. split; [by apply Hv|]. destruct (i_vote_ok _ I t m n (Hv m Hm) Hnone) as (l & Hl & Hok).
    rewrite (i_req_one _ I _ _ _ _ Hl Hreq) in Hok. apply (fr_vote_ok s s' I F); [|exact Hok]. by destruct (i_vote _ I t m n (Hv m Hm)) as [[_ ?] _].
Qed.
End steps.
Lemma ainv_step s s' : ainv s → astep s s' → ainv s'.
Proof.
  intros I Hs. destruct Hs as [n t Hlt|n t|n c l Hreq Hv Hup|n Q e Hr HQ Hv Htm|n e Hr Htm|n prev x Hr Hx|n prev pt es c x Hm Hr Hx Hpt|n prev pt es c m k Hm Hack Hc Hk|n i x Q Hr Hx Htm HQ Hack|n k Hk].
  - apply keep_passive; [exact I|..].
    + intros m. unfold upd. destruct (decide (m = n)) as [->|]; lia.
    + intros m. unfold upd. destruct (decide (m = n)) as [->|]; [lia|done].
    + intros m. unfold upd. destruct (decide (m = n)) as [->|]; [by left|by right].
    + intros m. destruct (i_commit _ I m) as [H|(t0 & i0 & H1 & H2 & H3)]; [by left|right]. exists t0, i0. split; [exact H1|]. split; [|exact H3].
      unfold upd. destruct (decide (m = n)) as [->|]; lia.
  - by apply keep_stand.
  - by eapply keep_grant.
  - by eapply keep_win.
  - by apply keep_propose.
  - by apply keep_send.
  - by eapply keep_recv.
  - apply keep_passive; [exact I|done|done|by right|]. intros p. destruct (decide (p = n)) as [->|Hne]; [rewrite upd_eq|rewrite upd_ne by done; apply (i_commit _ I)].
    destruct (i_app _ I _ _ _ _ _ Hm) as (_ & _ & _ & _ & _ & Hd). apply (decided_le s _ _ c k) in Hd; [|exact Hc].
    assert (ackd s (a_term s n) n k) as Ha by (left; by exists m). pose proof (ackd_len s I _ _ _ Ha).
    eapply (decided_prefix s _ (a_llog s (a_term s n))); [exact Hd|done|]. destruct (i_kept _ I _ _ _ Ha) as [H1|(t' & _ & _ & Hr & _)]; [exact H1|lia].
  - apply keep_passive; [exact I|done|done|by right|]. intros p. destruct (decide (p = n)) as [->|Hne]; [rewrite upd_eq|rewrite upd_ne by done; apply (i_commit _ I)].
    destruct (i_lead _ I n Hr) as (Ht & (l & He) & Hlog). right. exists (a_term s n), i. split_and!; [|lia|lia|by rewrite Hlog].
    split; [exact Ht|]. split; [by eexists|]. split; [exists x; by rewrite <-Hlog|]. exists Q. split; [exact HQ|]. intros m Hm. destruct (Hack m Hm) as [->|Hk]; [right|by left].
    split; [exact Ht|]. split; [by exists l|]. rewrite <-Hlog. by eapply lookup_lt_Some.
  - apply keep_passive; [exact I|done|done| |].
    + intros m. unfold upd. destruct (decide (m = n)); [by left|by right].
    + intros p. destruct (decide (p = n)) as [->|Hne]; [rewrite upd_eq|rewrite upd_ne by done; apply (i_commit _ I)]. eapply (decided_le s); [apply (i_commit _ I)|exact Hk].
Qed.

Lemma ainv_init : ainv a_init.
Proof.
  split; cbn; try done; try (intros; by apply not_elem_of_nil in H0); try (intros; match goal with H : _ ∈ [] |- _ => by apply not_elem_of_nil in H end).
  - split_and!; [done|done|done| |].
    + intros t. destruct (decide (t = 0)); [lia|]. by intros [? ?].
    + intros t. by destruct (decide (t = 0)).
  - intros n [|i] x Hx; [|discriminate]. injection Hx as <-. cbn. rewrite Hnil. destruct (decide (0 = 0)); [|done]. split; [by eexists|done].
  - intros n x ->%list_elem_of_singleton. lia.
  - intros t n l Ht. destruct (decide (t = 0)); [lia|discriminate].
  - intros t n i [(m & _ & Hin)|(Ht & (l & He) & _)]; [by apply not_elem_of_nil in Hin|]. cbn in He. destruct (decide (t = 0)); [lia|discriminate].
  - intros n. by left.
Qed.

Lemma ainv_run_from s s' : ainv s → rtc astep s s' → ainv s'.
Proof. intros H Hr. induction Hr as [s|s0 s1 s Hs _ IH]; [exact H|]. by apply IH, (ainv_step s0). Qed.

Lemma ainv_run s : rtc astep a_init s → ainv s.
Proof. apply ainv_run_from, ainv_init. Qed.

Lemma astep_frame s s' : ainv s → astep s s' → frame s s'.
Proof.
  intros I Hs. destruct Hs as [n t Hlt|n t|n c l Hreq Hv Hup|n Q e Hr HQ Hv Htm|n e Hr Htm|n prev x Hr Hx|n prev pt es c x Hm Hr Hx Hpt|n prev pt es c m k Hm Hack Hc Hk|n i x Q Hr Hx Htm HQ Hack|n k Hk].
  - apply frame_passive. intros m. unfold upd. destruct (decide (m = n)) as [->|]; lia.
  - apply (frame_said s _ _ _ _ _ [_; _]); [intros m; unfold upd; destruct (decide (m = n)) as [->|]; lia|].
    intros u m k Hin. repeat (apply elem_of_cons in Hin as [Hin|Hin]; [discriminate Hin|]). by apply not_elem_of_nil in Hin.
  - apply (frame_said s _ _ _ _ _ [_]); [done|]. intros u m k [Hin|Hin]%elem_of_cons; [discriminate|by apply not_elem_of_nil in Hin].
  - apply frame_win; [exact I|]. by eapply win_first.
  - by apply frame_propose.
  - apply (frame_said s _ _ _ _ _ [_]); [done|]. intros u m k [Hin|Hin]%elem_of_cons; [discriminate|by apply not_elem_of_nil in Hin].
  - apply (frame_said s _ _ _ _ _ [_]); [done|]. intros u m k [Hin|Hin]%elem_of_cons; [by injection Hin as -> -> _|by apply not_elem_of_nil in Hin].
  - by apply frame_passive.
  - by apply frame_passive.
  - by apply frame_passive.
Qed.

(** What is decided stays decided. *)
Lemma decided_run s s' t l k : ainv s → rtc astep s s' → decided s t l k → decided s' t l k.
Proof.
  intros I Hr. revert I. induction Hr as [s|s s1 s' Hs _ IH]; intros I Hd; [exact Hd|]. apply IH; [by eapply ainv_step|].
  eapply (fr_decided s s1 (astep_frame s s1 I Hs) t t); [exact Hd|done].
Qed.

(** Two nodes agree on every position both have committed, at whatever moments of a run. *)
Lemma agreement s s' n n' k :
  ainv s → rtc astep s s' → (k <= a_commit s n)%nat → (k <= a_commit s' n')%nat → a_log s n !! k = a_log s' n' !! k ∧ is_Some (a_log s n !! k).
Proof.
  intros I Hr Hk Hk'. pose proof (ainv_run_from s s' I Hr) as I'.
  split; [|apply lookup_lt_is_Some; pose proof (commit_len s I n); lia].
  eapply (decided_agree s' I'); [eapply decided_run; [exact I|exact Hr|apply (i_commit _ I n)]|apply (i_commit _ I' n')| |exact Hk|exact Hk'].
  by rewrite (i_head _ I), (i_head _ I').
Qed.
End consensus.
