(* ===== verification/RaftNode.v ===== *)
(** What one node of the agreement does, taken by itself: the positions of a compacted log, the
    decisions handed out by [apply], the index [commit_candidate] settles on, the entries an append
    merges, and the counters that a node keeps inside its log. *)
From S2P Require Import Prelude Bits RangeMap Raft Consensus.

Definition nil_entry : Entry := mkEntry 0 Noop.
Definition no_members (l : list Entry) : Prop := Forall (λ e, is_members (e_decision e) = false) l.

(** * A compacted log is the end of a whole one *)
Lemma node_entry_below r i : i < rf_base r → entry_at r i = None.
Proof. intros Hi. unfold entry_at. by rewrite (proj2 (Z.ltb_lt _ _) Hi). Qed.

Section positions.
Context (r : Raft) (h : list Entry).
Hypothesis (Hbase : 0 <= rf_base r) (Hin : rf_base r < Z.of_nat (length h)) (Hlog : rf_log r = drop (Z.to_nat (rf_base r)) h).

Lemma node_last_index : last_index r = Z.of_nat (length h) - 1.
Proof. unfold last_index. rewrite Hlog, length_drop. lia. Qed.

Lemma node_entry_at i : rf_base r <= i → entry_at r i = h !! Z.to_nat i.
Proof.
  intros Hi. unfold entry_at. rewrite (proj2 (Z.ltb_ge _ _)) by lia. rewrite Hlog, lookup_drop. f_equal. lia.
Qed.

Lemma node_term_at i t : term_at r i = Some t → rf_base r <= i ∧ ∃ e, h !! Z.to_nat i = Some e ∧ e_term e = t.
Proof.
  unfold term_at. destruct (Z.lt_ge_cases i (rf_base r)) as [Hi|Hi].
  - by rewrite node_entry_below by exact Hi.
  - rewrite node_entry_at by exact Hi. destruct (h !! Z.to_nat i) as [e|] eqn:E; cbn; intros [= <-]. split; [exact Hi|]. by exists e.
Qed.

Lemma node_entries_from i : rf_base r <= i → entries_from r i = drop (Z.to_nat i) h.
Proof.
  intros Hi. unfold entries_from. rewrite (proj2 (Z.ltb_ge _ _)) by lia. rewrite Hlog, drop_drop. f_equal. lia.
Qed.

Lemma node_last_term : last_term r = last_tm e_term h.
Proof.
  unfold last_term, last_tm. rewrite Hlog. replace (last (drop (Z.to_nat (rf_base r)) h)) with (last h); [done|].
  rewrite !last_lookup, lookup_drop, length_drop. f_equal. lia.
Qed.
End positions.

(** * Members *)
Lemma latest_members_none log : no_members log → latest_members log = None.
Proof. induction 1 as [|e log He _ IH]; [done|]. cbn. rewrite IH. by destruct (e_decision e). Qed.

Lemma voters_of_nodup ms : NoDup (voters_of ms).
Proof. unfold voters_of. apply NoDup_ListNoDup, List.NoDup_filter, List.seq_NoDup. Qed.

Lemma elem_voters ms (n : nat) : n ∈ voters_of ms ↔ ∃ m, ms !! n = Some m ∧ member_votes m = true.
Proof.
  unfold voters_of. rewrite list_elem_of_In, filter_In, <- list_elem_of_In, elem_of_seq. split.
  - intros [_ Hv]. destruct (ms !! n) as [m|] eqn:E; [|discriminate Hv]. by exists m.
  - intros (m & E & Hv). rewrite E. split; [apply lookup_lt_Some in E; lia|exact Hv].
Qed.

Lemma elem_peers r (p : NodeId) : p ∈ peers r ↔ p ≠ rf_id r ∧ ∃ m, rf_members r !! p = Some m ∧ reachable m = true.
Proof.
  unfold peers. rewrite list_elem_of_In, filter_In, <- list_elem_of_In, elem_of_seq, andb_true_iff, negb_true_iff, bool_decide_eq_false. split.
  - intros [_ [Hn Hv]]. split; [exact Hn|]. destruct (rf_members r !! p) as [m|] eqn:E; [|discriminate Hv]. by exists m.
  - intros (Hn & m & E & Hv). rewrite E. split; [apply lookup_lt_Some in E; lia|by split].
Qed.

(** * Handing decisions out *)
Definition due (r : Raft) : list Decision :=
  omap (λ i, e_decision <$> entry_at r i) (seqZ (rf_applied r + 1) (rf_commit r - rf_applied r)).

Lemma set_applied_self r : set_applied r (rf_applied r) = r. Proof. by destruct r. Qed.

Lemma entry_at_applied r a i : entry_at (set_applied r a) i = entry_at r i. Proof. done. Qed.

Lemma apply_loop_exact fuel r out :
  fuel = Z.to_nat (rf_commit r - rf_applied r) →
  apply_loop fuel r out = (set_applied r (Z.max (rf_applied r) (rf_commit r)), mkOutput (o_send out) (o_persist out) (o_applied out ++ due r)).
Proof.
  revert r out. induction fuel as [|fuel IH]; intros r out Hf; cbn [apply_loop].
  - rewrite Z.max_l by lia. rewrite set_applied_self. unfold due. rewrite seqZ_nil by lia. cbn. rewrite app_nil_r. by destruct out.
  - rewrite (proj2 (Z.ltb_lt _ _)) by lia. cbn zeta. rewrite IH by (cbn; lia). cbn [rf_applied rf_commit set_applied].
    f_equal.
    + rewrite !Z.max_r by lia. by destruct r.
    + unfold due at 2. rewrite (seqZ_cons (rf_applied r + 1)) by lia. cbn [omap list_omap].
      unfold due. cbn [rf_applied rf_commit set_applied]. rewrite (entry_at_applied r (rf_applied r + 1) (rf_applied r + 1)).
      replace (Z.pred (rf_commit r - rf_applied r)) with (rf_commit r - (rf_applied r + 1)) by lia.
      replace (Z.succ (rf_applied r + 1)) with (rf_applied r + 1 + 1) by lia.
      destruct (entry_at r (rf_applied r + 1)) as [e|]; cbn [fmap option_fmap option_map o_send o_persist o_applied out_apply]; [rewrite <- app_assoc|]; done.
Qed.

Lemma apply_exact r out :
  apply r out = (set_applied r (Z.max (rf_applied r) (rf_commit r)), mkOutput (o_send out) (o_persist out) (o_applied out ++ due r)).
Proof. by apply apply_loop_exact. Qed.

(** * The index a leader may commit *)
Definition may_commit (r : Raft) (index : Index) : bool :=
  bool_decide (term_at r index = Some (rf_term r)) && (majority r <=? replicas r index)%nat.

Lemma commit_candidate_case r :
  commit_candidate r = rf_commit r ∨
  rf_commit r < commit_candidate r <= last_index r ∧ may_commit r (commit_candidate r) = true.
Proof.
  unfold commit_candidate.
  assert (H : ∀ l c, (∀ i, i ∈ l → rf_commit r < i <= last_index r) →
    let c' := foldl (λ c i, if may_commit r i then i else c) c l in c' = c ∨ rf_commit r < c' <= last_index r ∧ may_commit r c' = true).
  { induction l as [|i l IH]; intros c Hl; [by left|]. cbn [foldl].
    destruct (IH (if may_commit r i then i else c)) as [E|E]; [intros j Hj; apply Hl; by right| |by right].
    cbn zeta in E |- *. rewrite E. destruct (may_commit r i) eqn:Em; [right|by left]. split; [apply Hl; by left|exact Em]. }
  apply H. intros i Hi%elem_of_seqZ. lia.
Qed.

(** * Merging the entries of an append *)
Lemma existsb_no_members l : no_members l → existsb (λ x, is_members (e_decision x)) l = false.
Proof. induction 1 as [|e l He _ IH]; [done|]. cbn. by rewrite He, IH. Qed.

Lemma no_members_app l1 l2 : no_members (l1 ++ l2) ↔ no_members l1 ∧ no_members l2.
Proof. apply Forall_app. Qed.
Lemma no_members_take n l : no_members l → no_members (take n l). Proof. apply Forall_take. Qed.
Lemma no_members_drop n l : no_members l → no_members (drop n l). Proof. apply Forall_drop. Qed.

Lemma lay_no_members h i es : no_members h → no_members es → no_members (lay e_term h i es).
Proof.
  revert h i. induction es as [|e es IH]; intros h i Hh Hes; [exact Hh|]. apply Forall_cons in Hes as [He Hes].
  cbn [lay]. destruct (h !! S i) as [x|]; [destruct (decide _)|]; apply IH; try exact Hes; try exact Hh;
    apply no_members_app; (split; [|by constructor]); [by apply no_members_take|exact Hh].
Qed.

Lemma set_log_self r : set_log r (rf_log r) = r. Proof. by destruct r. Qed.

(** The loop lays the entries over the log from [index] on, and says whether it changed it. *)
Lemma merge_entries_lay es : ∀ r h i changed,
  0 <= rf_base r → rf_log r = drop (Z.to_nat (rf_base r)) h → rf_base r <= Z.of_nat i → (i < length h)%nat → no_members h → no_members es →
  ∃ changed', merge_entries r (Z.of_nat i) es changed false =
    (set_log r (drop (Z.to_nat (rf_base r)) (lay e_term h i es)), Z.of_nat (i + length es), changed', false) ∧
    (changed' = false → changed = false ∧ lay e_term h i es = h).
Proof.
  induction es as [|e es IH]; intros r h i changed Hb Hlog Hi Hlen Hh Hes.
  - exists changed. cbn. rewrite Nat.add_0_r, <- Hlog, set_log_self. done.
  - apply Forall_cons in Hes as [He Hes]. cbn [merge_entries lay].
    assert (Hin : rf_base r < Z.of_nat (length h)) by lia.
    replace (Z.of_nat i + 1) with (Z.of_nat (S i)) by lia.
    unfold term_at. rewrite (node_entry_at r h Hb Hlog) by lia. rewrite Nat2Z.id.
    replace (Z.of_nat (i + length (e :: es))) with (Z.of_nat (S i + length es)) by (cbn; lia).
    assert (Hcut : ∀ k, (i < k <= length h)%nat → k = S i ∨ h !! S i = None ∧ k = length h →
      ∃ changed', merge_entries (set_log r (drop (Z.to_nat (rf_base r)) (take k h ++ [e]))) (Z.of_nat (S i)) es true false =
        (set_log r (drop (Z.to_nat (rf_base r)) (lay e_term (take k h ++ [e]) (S i) es)), Z.of_nat (S i + length es), changed', false) ∧ changed' = true).
    { intros k Hk Hend. set (r' := set_log r (drop (Z.to_nat (rf_base r)) (take k h ++ [e]))).
      destruct (IH r' (take k h ++ [e]) (S i) true) as (c & E & Hc); [exact Hb|done|cbn; lia| | |exact Hes|].
      - rewrite length_app, length_take. cbn. destruct Hend as [->|[E ->]]; [lia|]. apply lookup_ge_None in E. lia.
      - apply no_members_app. split; [by apply no_members_take|by constructor].
      - exists c. split; [exact E|]. destruct c; [done|]. by destruct (Hc eq_refl). }
    destruct (h !! S i) as [x|] eqn:Ex; cbn [fmap option_fmap option_map].
    + apply lookup_lt_Some in Ex as Hl. case_decide as Et.
      * rewrite (proj2 (Z.eqb_eq _ _)) by exact Et. apply (IH r h (S i) changed); try assumption; lia.
      * rewrite (proj2 (Z.eqb_neq _ _)) by exact Et. cbn zeta.
        rewrite existsb_no_members by (rewrite Hlog; by do 2 apply no_members_drop). rewrite He. cbn [orb].
        destruct (Hcut (S i)) as (c & E & ->); [lia|by left|]. exists true. split; [|done]. rewrite <- E. f_equal. f_equal.
        rewrite Hlog, take_drop_commute. rewrite drop_app_le; [do 3 f_equal; lia|]. rewrite length_take. lia.
    + rewrite He. cbn [orb]. destruct (Hcut (length h)) as (c & E & ->); [lia|by right|]. rewrite firstn_all in E.
      exists true. split; [|done]. rewrite <- E. do 2 f_equal. rewrite drop_app_le by lia. by rewrite <- Hlog.
Qed.

(** * Compaction *)
Definition ranges_of (e : Entry) : option RangeMap := match e_decision e with Ranges m => Some m | _ => None end.
Definition members_of (e : Entry) : option (list Member) := match e_decision e with Members ms => Some ms | _ => None end.

(** Replaying is taking the last of each kind. *)
Lemma replay_exact log : ∀ index applied rs ms,
  replay index applied log rs ms =
  (default rs (last (omap ranges_of (take (Z.to_nat (applied + 1 - index)) log))), default ms (last (omap members_of (take (Z.to_nat (applied + 1 - index)) log)))).
Proof.
  induction log as [|e log IH]; intros index applied rs ms; cbn [replay]; [by rewrite take_nil|].
  destruct (Z.ltb_spec applied index) as [Hlt|Hge]; [by replace (Z.to_nat (applied + 1 - index)) with 0%nat by lia|].
  replace (Z.to_nat (applied + 1 - index)) with (S (Z.to_nat (applied + 1 - (index + 1)))) by lia. cbn [take omap list_omap]. unfold ranges_of at 1, members_of at 1.
  destruct (e_decision e) as [|m|mm]; rewrite IH; rewrite ?last_cons; f_equal; by destruct (last _).
Qed.

Lemma rposition_spec want log : match rposition want log with
  | Some p => ∃ e, log !! p = Some e ∧ want (e_decision e) = true
  | None => ∀ e, e ∈ log → want (e_decision e) = false
  end.
Proof.
  induction log as [|e log IH]; cbn [rposition]; [intros e He; by apply not_elem_of_nil in He|].
  destruct (rposition want log) as [p|]; [exact IH|]. destruct (want (e_decision e)) eqn:E; [by exists e|].
  intros x [->|Hx]%elem_of_cons; [exact E|by apply IH].
Qed.

(** The last of a kind is not in a prefix that the anchor is past. *)
Lemma last_after_drop {A} (want : Decision → bool) (get : Entry → option A) log k n d :
  (∀ e, is_Some (get e) ↔ want (e_decision e) = true) → (k <= n)%nat →
  (∀ p, rposition want log = Some p → (k <= p < n)%nat) →
  default d (last (omap get (take (n - k) (drop k log)))) = default d (last (omap get (take n log))).
Proof.
  intros Hget Hkn Hp. replace (take n log) with (take k log ++ take (n - k) (drop k log)).
  2: { rewrite <- (take_drop k (take n log)), take_take, take_drop_commute. replace (k + (n - k))%nat with n by lia. f_equal. f_equal. lia. }
  rewrite omap_app, last_app. pose proof (rposition_spec want log) as H. destruct (rposition want log) as [p|].
  - destruct H as (e & He & Hw). destruct (Hp p eq_refl) as [Hkp Hpn]. apply Hget in Hw as [x Hx].
    assert (Hin : x ∈ omap get (take (n - k) (drop k log))).
    { apply list_elem_of_omap. exists e. split; [|exact Hx]. apply list_elem_of_lookup_2 with (p - k)%nat. rewrite lookup_take_lt by lia. rewrite lookup_drop. rewrite <- He. f_equal. lia. }
    destruct (last (omap get (take (n - k) (drop k log)))) eqn:E; [done|]. apply last_None in E. rewrite E in Hin. by apply not_elem_of_nil in Hin.
  - assert (Hnone : ∀ l, (∀ e, e ∈ l → e ∈ log) → omap get l = []).
    { intros l Hl. destruct (omap get l) as [|x xs] eqn:E; [done|]. assert (Hx : x ∈ omap get l) by (rewrite E; by left).
      apply list_elem_of_omap in Hx as (e & He & Hg). pose proof (proj1 (Hget e) (mk_is_Some _ _ Hg)) as Hw. by rewrite (H e (Hl e He)) in Hw. }
    rewrite !Hnone; [done| |]; intros e He; [by apply elem_of_take in He as (i & Hi & _); apply list_elem_of_lookup_2 in Hi|].
    apply elem_of_take in He as (i & Hi & _). rewrite lookup_drop in Hi. by apply list_elem_of_lookup_2 in Hi.
Qed.

Lemma min_of_le l m : min_of l = Some m → ∀ x, x ∈ l → m <= x.
Proof.
  destruct l as [|y l]; [done|]. cbn [min_of]. intros [= <-].
  assert (H : ∀ l y x, x = y ∨ x ∈ l → foldl Z.min y l <= x).
  { clear. induction l as [|z l IH]; intros y x; cbn [foldl].
    - intros [->|Hx]; [lia|by apply not_elem_of_nil in Hx].
    - intros [->|[->|Hx]%elem_of_cons]; [pose proof (IH (Z.min y z) (Z.min y z) (or_introl eq_refl)); lia..|apply IH; by right]. }
  intros x Hx%elem_of_cons. by apply H.
Qed.

(** Past neither the margin nor an anchor. *)
Lemma compact_target_spec r keep :
  0 < compact_target r keep →
  compact_target r keep + keep <= rf_applied r ∧ (∀ v, v ∈ rf_voters r → compact_target r keep + keep <= default 0 (rf_matched r !! v)) ∧
  (∀ a, anchor r is_ranges = Some a → compact_target r keep <= a) ∧ (∀ a, anchor r is_members = Some a → compact_target r keep <= a).
Proof.
  unfold compact_target. cbn zeta. set (safe := Z.min _ _). set (anchors := option_list _ ++ option_list _).
  assert (Hs : safe <= rf_applied r ∧ ∀ v, v ∈ rf_voters r → safe <= default 0 (rf_matched r !! v)).
  { split; [unfold safe; lia|]. intros v Hv. unfold safe. destruct (min_of _) as [m|] eqn:E.
    - cbn. pose proof (min_of_le _ _ E (default 0 (rf_matched r !! v))) as H. specialize (H ltac:(apply list_elem_of_In, in_map_iff; exists v; by rewrite <- list_elem_of_In)). lia.
    - destruct (rf_voters r); [by apply not_elem_of_nil in Hv|done]. }
  assert (Ha : ∀ t, t = (match min_of anchors with Some k => Z.min (Z.max 0 (safe - keep)) k | None => Z.max 0 (safe - keep) end) → 0 < t →
    t + keep <= safe ∧ ∀ a, a ∈ anchors → t <= a).
  { intros t -> Ht. destruct (min_of anchors) as [k|] eqn:E; [split; [lia|]|split; [lia|]].
    - intros a Hin. pose proof (min_of_le _ _ E a Hin). lia.
    - intros a Hin. destruct anchors; [by apply not_elem_of_nil in Hin|done]. }
  intros Ht. destruct (Ha _ eq_refl Ht) as [H1 H2]. destruct Hs as [Hs1 Hs2]. split; [lia|]. split; [intros v Hv; specialize (Hs2 v Hv); lia|].
  split; intros a Ea; apply H2; unfold anchors; rewrite Ea; apply elem_of_app; [left|right]; by left.
Qed.
