(* ===== verification/ControllerSpec.v ===== *)
(** What the controller may rely on (crates/big-cluster/src/controller.rs): that what the leader
    proposes when machines go quiet is a map every check accepts and gives nothing to a copy that
    missed a write, and that a leader's lease stands on a majority. *)
From S2P Require Import Prelude Bits RangeMap Raft Controller RaftNode.

(** * Checks *)
Lemma check_each_total rs : ∀ seen, check_each seen rs ≠ Panic.
Proof. induction rs as [|r rs IH]; intros seen; cbn [check_each]; [done|]. repeat case_bool_decide; cbn [negb]; try done; apply IH. Qed.
Lemma check_pairs_total rs : ∀ i a, check_pairs i a rs ≠ Panic.
Proof.
  induction rs as [|b rs IH]; intros i a; cbn [check_pairs]; [done|]. destruct (_ <? _); [done|]. destruct (sr_end (r_shards a)); [|done].
  destruct (_ ?= _); [apply IH|done|done].
Qed.
Lemma check_total m : check m ≠ Panic.
Proof.
  unfold check. destruct (rm_ranges m) as [|g rs]; [done|]. destruct (negb _); [done|].
  pose proof (check_each_total (g :: rs) ∅). destruct (check_each ∅ (g :: rs)); cbn; [|done|done].
  pose proof (check_pairs_total rs 0 g). destruct (check_pairs 0 g rs); cbn; [|done|done].
  destruct (last (g :: rs)) eqn:E; cbn; [by destruct (sr_end _)|]. by apply last_None in E.
Qed.

(** The schema leader is a member that can hold the namespace. *)
Definition leads_schema (members : list Member) (n : NodeId) : Prop :=
  ∃ mb, members !! n = Some mb ∧ reachable mb = true ∧ m_state mb ≠ Learner.

Lemma check_with_ok m members : check_with m members = Ok tt ↔ sound_map m ∧ leads_schema members (rm_schema_leader m).
Proof.
  unfold check_with, leads_schema. rewrite bind_ok. split.
  - intros ([] & Hc & H). apply check_ok in Hc. split; [exact Hc|]. destruct (members !! _) as [mb|]; [|done]. exists mb. split; [done|].
    destruct (reachable mb); [|done]. by destruct (m_state mb).
  - intros (Hs & mb & E & Hr & Hl). exists tt. split; [by apply check_ok|]. rewrite E, Hr. cbn [negb]. by destruct (m_state mb).
Qed.

(** A map with the same ranges but for who serves them is as sound. *)
Definition same_shape (g g' : Range) : Prop := r_id g' = r_id g ∧ r_shards g' = r_shards g ∧ r_group g' = r_group g ∧ r_moving g' = r_moving g.

Lemma sound_reshaped m m' :
  Forall2 (λ g g', same_shape g g' ∧ (held g → held g')) (rm_ranges m) (rm_ranges m') → sound_map m → sound_map m'.
Proof.
  intros F [Ht Hi Hh]. assert (E : r_shards <$> rm_ranges m' = r_shards <$> rm_ranges m ∧ r_id <$> rm_ranges m' = r_id <$> rm_ranges m ∧ Forall held (rm_ranges m')).
  { clear Ht Hi. induction F as [|g g' rs rs' [(E1 & E2 & _) Hg] F IH]; [done|]. apply Forall_cons in Hh as [Hh1 Hh]. destruct (IH Hh) as (IH1 & IH2 & IH3). cbn.
    rewrite E1, E2, IH1, IH2. split; [done|]. split; [done|]. constructor; [by apply Hg|exact IH3]. }
  destruct E as (E1 & E2 & E3). constructor; rewrite ?E1, ?E2; assumption.
Qed.

(** * Marking and promoting *)
Definition replicated (m : RangeMap) (n : NodeId) : Prop := ∃ g, g ∈ rm_ranges m ∧ (1 < length (r_group g))%nat ∧ n ∈ r_group g.

Lemma with_stale_twice m a b : with_stale (with_stale m a) b = with_stale m b. Proof. done. Qed.
Lemma with_stale_self m : with_stale m (rm_stale m) = m. Proof. by destruct m. Qed.

Lemma mark_nodes live ns : ∀ m ch, ∃ st ch', foldl (mark_node live) (m, ch) ns = (with_stale m st, ch') ∧
  (∀ n, n ∈ st ↔ n ∈ rm_stale m ∨ n ∈ ns ∧ live n = false) ∧ (ch' = false → ch = false ∧ st = rm_stale m).
Proof.
  induction ns as [|n ns IH]; intros m ch; cbn [foldl].
  { exists (rm_stale m), ch. rewrite with_stale_self. split; [done|]. split; [|done]. intros n. split; [by left|]. intros [H|[H _]]; [done|by apply not_elem_of_nil in H]. }
  unfold mark_node at 2. cbn [fst]. destruct (live n) eqn:El; cbn [negb andb].
  - destruct (IH m ch) as (st & ch' & -> & Hst & Hch). exists st, ch'. split; [done|]. split; [|done]. intros k. rewrite Hst, elem_of_cons.
    split; [intros [?|[? ?]]; auto|]. intros [?|[ [->|?] Hl] ]; [by left|congruence|by right].
  - unfold is_stale. case_bool_decide as Hin; cbn [negb].
    + destruct (IH m ch) as (st & ch' & -> & Hst & Hch). exists st, ch'. split; [done|]. split; [|done]. intros k. rewrite Hst, elem_of_cons.
      split; [intros [?|[? ?]]; auto|]. intros [?|[ [->|?] Hl] ]; [by left|by left|by right].
    + destruct (IH (push_stale m n) true) as (st & ch' & -> & Hst & Hch). exists st, ch'. split; [done|]. split; [|by intros E; destruct (Hch E)].
      intros k. rewrite Hst. cbn [push_stale rm_stale with_stale]. rewrite elem_of_app, list_elem_of_singleton, elem_of_cons.
      split; [intros [ [?| ->]|[? ?]]; auto|]. intros [?|[ [->|?] Hl] ]; auto.
Qed.

Lemma mark_groups live gs : ∀ m ch, foldl (λ acc group, foldl (mark_node live) acc group) (m, ch) gs = foldl (mark_node live) (m, ch) (concat gs).
Proof. induction gs as [|g gs IH]; intros m ch; cbn; [done|]. rewrite foldl_app. destruct (foldl (mark_node live) (m, ch) g). apply IH. Qed.

Lemma elem_replicated m n :
  n ∈ concat (map r_group (List.filter (λ g, (1 <? length (r_group g))%nat) (rm_ranges m))) ↔ replicated m n.
Proof.
  unfold replicated. rewrite !list_elem_of_In, in_concat. setoid_rewrite in_map_iff. setoid_rewrite filter_In. split.
  - intros (x & (g & <- & Hg & Hl) & Hn). exists g. rewrite !list_elem_of_In. split; [exact Hg|]. split; [by apply Nat.ltb_lt|exact Hn].
  - intros (g & Hg & Hl & Hn). exists (r_group g). rewrite !list_elem_of_In in *. split; [|exact Hn]. exists g. split; [done|]. split; [exact Hg|by apply Nat.ltb_lt].
Qed.

Lemma mark_quiet_spec live m : ∃ st ch, mark_quiet live m = (with_stale m st, ch) ∧
  (∀ n, n ∈ st ↔ n ∈ rm_stale m ∨ replicated m n ∧ live n = false).
Proof.
  unfold mark_quiet. rewrite mark_groups. destruct (mark_nodes live (concat (map r_group (List.filter (λ g, (1 <? length (r_group g))%nat) (rm_ranges m)))) m false)
    as (st & ch & -> & Hst & _). exists (merge_sort le st), ch. split; [done|]. intros n. rewrite merge_sort_Permutation, Hst, elem_replicated. done.
Qed.

(** One range, after the walk: served as it was, or by a copy that answers and has missed nothing. *)
Definition well_moved (live stale : NodeId → bool) (g g' : Range) : Prop :=
  same_shape g g' ∧
  (r_primary g' = r_primary g ∧ (live (r_primary g) = true ∨ ∀ n, n ∈ r_group g → live n = true → stale n = true) ∨
   live (r_primary g) = false ∧ r_primary g' ∈ r_group g ∧ live (r_primary g') = true ∧ stale (r_primary g') = false).

Lemma promote_one_spec live stale g : well_moved live stale g (promote_one live stale g).1.
Proof.
  unfold promote_one. destruct (live (r_primary g)) eqn:El; [split; [done|]; by left; split; [|left]|].
  destruct (List.find _ _) as [n|] eqn:Ef.
  - apply find_some in Ef as [Hn Hl]. apply andb_true_iff in Hl as [Hl Hs%negb_true_iff]. split; [done|]. right. by rewrite <- list_elem_of_In in Hn.
  - split; [done|]. left. split; [done|]. right. intros n Hn Hl. rewrite list_elem_of_In in Hn. pose proof (find_none _ _ Ef n Hn) as H. cbn in H. rewrite Hl in H. by destruct (stale n).
Qed.

Lemma well_moved_held live stale g g' : well_moved live stale g g' → held g → held g'.
Proof. intros [(E1 & E2 & E3 & E4) [[E _]|(_ & H & _)]]; unfold held; rewrite E3; [by rewrite E|done]. Qed.

Lemma promote_ranges_spec live m : ∃ rs ch, promote_ranges live m = (with_ranges m rs, ch) ∧ Forall2 (well_moved live (is_stale m)) (rm_ranges m) rs.
Proof.
  unfold promote_ranges. eexists _, _. split; [reflexivity|]. rewrite map_map. induction (rm_ranges m) as [|g rs IH]; cbn; [constructor|].
  constructor; [apply promote_one_spec|exact IH].
Qed.

Lemma elem_sort_stale m n : n ∈ rm_stale (sort_stale m) ↔ n ∈ rm_stale m.
Proof. cbn. by rewrite merge_sort_Permutation. Qed.

(** The namespace stays, or goes to a voter that answers and has missed nothing, and is marked not
    ready; the node it left is marked behind. *)
Definition schema_moved (r : Raft) (live : NodeId → bool) (m m' : RangeMap) : Prop :=
  rm_ranges m' = rm_ranges m ∧ rm_epoch m' = rm_epoch m ∧ rm_reserved m' = rm_reserved m ∧ (∀ n, n ∈ rm_stale m → n ∈ rm_stale m') ∧
  (m' = m ∨
   rm_schema_ready m' = false ∧ rm_schema_leader m ∈ rm_stale m' ∧ live (rm_schema_leader m') = true ∧ is_stale m (rm_schema_leader m') = false ∧
   ∃ mb, rf_members r !! rm_schema_leader m' = Some mb ∧ takes_ranges mb = true).

Lemma move_schema_spec r leases live now m : schema_moved r live m (move_schema r leases live now m).1.
Proof.
  assert (Hid : schema_moved r live m m) by (split_and!; auto; by left).
  unfold move_schema. destruct (ls_move_schema_after leases) as [after|]; [|exact Hid].
  destruct (heard_within r now after _); [exact Hid|]. destruct (List.find _ _) as [n|] eqn:Ef; [|exact Hid].
  apply find_some in Ef as [_ Hf]. apply andb_true_iff in Hf as [Hf Hs%negb_true_iff]. apply andb_true_iff in Hf as [Hm Hl].
  destruct (rf_members r !! n) as [mb|] eqn:Emb; [|done]. cbn zeta. unfold fst at 1.
  destruct (is_stale (with_schema m n false) (rm_schema_leader m)) eqn:Ed.
  - apply bool_decide_eq_true in Ed. split_and!; try done. right. split; [done|]. split; [exact Ed|]. split; [exact Hl|]. split; [exact Hs|]. by exists mb.
  - split_and!; try done; [intros k Hk; rewrite elem_sort_stale; apply elem_of_app; by left|]. right. split; [done|].
    split; [rewrite elem_sort_stale; apply elem_of_app; right; by left|]. split; [exact Hl|]. split; [exact Hs|]. by exists mb.
Qed.

(** What the plan does to the map it starts from. *)
Lemma promotion_plan_spec leases r m now :
  let live := heard_within r now (ls_promote_after leases) in
  let next := (promotion_plan leases r m now).1 in
  ∃ m1 rs, rm_ranges m1 = rm_ranges m ∧ rm_schema_leader m1 = rm_schema_leader m ∧ rm_epoch m1 = rm_epoch m ∧ rm_reserved m1 = rm_reserved m ∧
    (∀ n, n ∈ rm_stale m1 ↔ n ∈ rm_stale m ∨ replicated m n ∧ live n = false) ∧
    Forall2 (well_moved live (is_stale m1)) (rm_ranges m) rs ∧ schema_moved r live (with_ranges m1 rs) next.
Proof.
  cbn zeta. unfold promotion_plan. set (live := heard_within _ _ _). destruct (mark_quiet_spec live m) as (st & ch & -> & Hst).
  destruct (promote_ranges_spec live (with_stale m st)) as (rs & ch2 & -> & Hrs). destruct (move_schema r leases live now _) as [next ch3] eqn:E. cbn [fst].
  exists (with_stale m st), rs. do 4 (split; [done|]). split; [exact Hst|]. split; [exact Hrs|].
  change next with (next, ch3).1. rewrite <- E. apply move_schema_spec.
Qed.

Lemma takes_ranges_leads mb : takes_ranges mb = true → reachable mb = true ∧ m_state mb ≠ Learner.
Proof. unfold takes_ranges, reachable. by destruct (m_state mb). Qed.

Lemma promotion_plan_checked leases r m now :
  check_with m (rf_members r) = Ok tt → check_with (promotion_plan leases r m now).1 (rf_members r) = Ok tt.
Proof.
  rewrite !check_with_ok. intros [Hs Hl]. destruct (promotion_plan_spec leases r m now) as (m1 & rs & E1 & E2 & _ & _ & _ & F & Er & _ & _ & _ & Hsch).
  set (next := (promotion_plan leases r m now).1) in *. split.
  - apply (sound_reshaped m); [|exact Hs]. rewrite Er. cbn [rm_ranges with_ranges]. eapply Forall2_impl; [exact F|]. intros g g' W. split; [apply W|by eapply well_moved_held].
  - destruct Hsch as [->|(_ & _ & _ & _ & mb & Em & Ht)]; [cbn; by rewrite E2|]. exists mb. split; [exact Em|by apply takes_ranges_leads].
Qed.

(** C37.  What the leader proposes when machines go quiet.  From a map that passes the check it proposes,
    once everything before has settled and there is something to change, a map that passes it too -
    the check in the code cannot fail - under the next epoch, with the same ranges held by the same
    groups.  Every quiet node of a replicated group is marked behind.  A range changes hands only if
    the copy that serves it is quiet, and goes to a copy of the same group that answers and is not
    marked behind; it stays where it is only if that copy answers or there is no such copy. *)
Theorem promotion_sound leases r current now :
  check_with current (rf_members r) = Ok tt →
  let live := heard_within r now (ls_promote_after leases) in
  let '(next, changed) := promotion_plan leases r current now in
  check_with next (rf_members r) = Ok tt ∧
  promotion_for leases r current now = (if settled r && changed then Some (with_epoch next (rm_epoch current + 1)) else None) ∧
  (∀ n, replicated current n → live n = false → n ∈ rm_stale next) ∧
  ∃ stale, (∀ n, stale n = false → (n ∉ rm_stale current) ∧ (replicated current n → live n = true)) ∧
    Forall2 (well_moved live stale) (rm_ranges current) (rm_ranges next).
Proof.
  intros Hc live. pose proof (promotion_plan_checked leases r current now Hc) as Hn.
  destruct (promotion_plan_spec leases r current now) as (m1 & rs & E1 & E2 & E3 & E4 & Hst & F & Er & Ee & _ & Hmono & _).
  unfold promotion_for. destruct (promotion_plan leases r current now) as [next changed]. cbn [fst] in *. split; [exact Hn|]. split; [|split].
  - destruct (settled r), changed; cbn [negb andb]; try done. rewrite Hn, Ee. cbn. by rewrite E3.
  - intros n Hr Hl. apply Hmono. cbn. apply Hst. by right.
  - exists (is_stale m1). split; [|by rewrite Er]. intros n Hs%bool_decide_eq_false. rewrite Hst in Hs. split; [tauto|]. intros Hr. destruct (live n) eqn:E; [done|]. tauto.
Qed.

(** * Leases *)
Lemma filter_omap_length {A} (f : A → option Z) (a : Z) l :
  length (List.filter (λ x, a <=? x) (omap f l)) = length (List.filter (λ v, match f v with Some x => a <=? x | None => false end) l).
Proof.
  induction l as [|v l IH]; [done|]. cbn [omap list_omap List.filter]. destruct (f v) as [x|]; [|exact IH]. cbn. destruct (a <=? x); cbn; by rewrite IH.
Qed.

Lemma filter_perm_length {A} (f : A → bool) l l' : l ≡ₚ l' → length (List.filter f l) = length (List.filter f l').
Proof. induction 1 as [|x l l' _ IH|x y l|l1 l2 l3 _ IH1 _ IH2]; cbn; [done|destruct (f x); cbn; by rewrite IH|by destruct (f x), (f y)|congruence]. Qed.

Lemma sorted_prefix_counts (l : list Z) i a :
  StronglySorted Z.ge l → l !! i = Some a → (S i <= length (List.filter (λ x, (a <=? x)%Z) l))%nat.
Proof.
  revert i. induction l as [|x l IH]; intros i S Hi; [done|]. apply StronglySorted_inv in S as [S F]. destruct i as [|i]; cbn in Hi |- *.
  - injection Hi as ->. rewrite Z.leb_refl. cbn. lia.
  - pose proof (proj1 (Forall_forall _ _) F a (list_elem_of_lookup_2 _ _ _ Hi)). rewrite (proj2 (Z.leb_le a x)) by lia. cbn. specialize (IH i S Hi). lia.
Qed.

#[local] Instance ge_trans : Transitive Z.ge. Proof. intros x y z. lia. Qed.
#[local] Instance ge_total : Total Z.ge. Proof. intros x y. lia. Qed.

(** When a voter was last known to be there: now, for the node itself. *)
Definition last_word (r : Raft) (now : Z) (v : NodeId) : option Z := if bool_decide (v = rf_id r) then Some now else rf_heard r !! v.

(** A leader's lease stands on a majority: at the moment [lease_anchor] answers with, or later,
    a majority of the voters - this node counted as heard now, learners not counted at all - had
    been heard from. *)
Theorem lease_stands_on_majority r now a :
  rf_role r = Leader → lease_anchor r now = Some a →
  (majority r <= length (List.filter (λ v, match last_word r now v with Some x => (a <=? x)%Z | None => false end) (rf_voters r)))%nat.
Proof.
  intros Hr. unfold lease_anchor, is_leader. rewrite bool_decide_eq_true_2 by exact Hr. cbn zeta. intros H.
  rewrite <- filter_omap_length. apply sorted_prefix_counts in H; [|apply (StronglySorted_merge_sort Z.ge)].
  unfold majority. rewrite Nat.add_1_r. etrans; [exact H|]. apply Nat.eq_le_incl, filter_perm_length, merge_sort_Permutation.
Qed.

(** * Three nodes, one of them quiet *)
Module Quiet.
Definition members : list Member := [mkMember [97] [] Voter; mkMember [98] [] Voter; mkMember [99] [] Voter].
Definition node : Raft := set_heard (set_role (raft_new 0 members default_timing 0) Leader) (<[1%nat := 9000]> (<[2%nat := 100]> ∅)).
Definition ranges : RangeMap :=
  mkRangeMap 7 [mkRange 0 (mkShards 0 (Some 10)) [2; 1]%nat 2%nat None; mkRange 1 (mkShards 10 None) [0]%nat 0%nat None] [] 0%nat [] true.
Definition moved : RangeMap :=
  mkRangeMap 8 [mkRange 0 (mkShards 0 (Some 10)) [2; 1]%nat 1%nat None; mkRange 1 (mkShards 10 None) [0]%nat 0%nat None] [2]%nat 0%nat [] true.
End Quiet.

Lemma promotion_sound_witness :
  check_with Quiet.ranges Quiet.members = Ok tt ∧ promotion_for default_leases Quiet.node Quiet.ranges 10000 = Some Quiet.moved.
Proof.
  split; [by vm_compute|]. pose proof (promotion_sound default_leases Quiet.node Quiet.ranges 10000 ltac:(by vm_compute)) as H.
  cbv zeta in H. destruct (promotion_plan default_leases Quiet.node Quiet.ranges 10000) as [next changed] eqn:E. destruct H as (_ & -> & _).
  vm_compute in E. injection E as <- <-. by vm_compute.
Defined.

Lemma lease_stands_on_majority_witness :
  lease_anchor Quiet.node 10000 = Some 9000 ∧
  (majority Quiet.node <= length (List.filter (λ v, match last_word Quiet.node 10000 v with Some x => (9000 <=? x)%Z | None => false end) (rf_voters Quiet.node)))%nat.
Proof. split; [by vm_compute|]. apply (lease_stands_on_majority Quiet.node 10000 9000); by vm_compute. Defined.
