(* ===== verification/RaftNet.v ===== *)
(** Nodes of the agreement over a network that loses, delays, repeats and reorders, and over disks
    that keep what was persisted (crates/big-cluster/src/controller.rs, [Controller::run], around
    crates/big-cluster/src/raft.rs).

    A step of the system is one turn of one node's thread - a message taken, a tick, a proposal, the
    state saved, then the messages sent - or a restart from its file.  The theorem of this file is
    that these steps refine the rules of Consensus.v; agreement follows.  It is about clusters whose
    members all vote, whose membership stands still, and whose followers are caught up from the log
    rather than by installing a snapshot: the three conditions are what the rules of Consensus.v are
    about, and [HazardsRaft] shows what happens without them. *)
From S2P Require Import Prelude Bits RangeMap Raft Controller Consensus RaftNode.

(** * The system *)

(** Nodes, their files, and everything ever sent. *)
Record World := mkWorld { w_node : nat → Raft; w_disk : nat → State; w_soup : list (NodeId * Message) }.

(** A snapshot the handler would install. *)
Definition installs (r : Raft) (m : Message) : bool :=
  match m with Snapshot term _ index _ _ _ => (rf_term r <=? term) && (rf_base r <? index) | _ => false end.

(** Saved before anything is sent. *)
Definition settle (w : World) (n : nat) (p : Raft * Output) : World :=
  mkWorld (upd (w_node w) n p.1) (if o_persist p.2 then upd (w_disk w) n (raft_state p.1) else w_disk w) (o_send p.2 ++ w_soup w).

Definition w_init (ms : list Member) (timing : Timing) : World :=
  mkWorld (λ n, raft_new n ms timing 0) (λ n, raft_state (raft_new n ms timing 0)) [].

Inductive wstep (ms : list Member) (timing : Timing) (w : World) : World → Prop :=
| w_turn n incoming proposal now :
    (∀ m, incoming = Some m → (n, m) ∈ w_soup w ∧ installs (w_node w n) m = false) →
    (∀ r d, proposal r = Some d → is_members d = false) →
    wstep ms timing w (settle w n (turn (w_node w n) incoming proposal now))
| w_restart n now :
    wstep ms timing w (mkWorld (upd (w_node w) n (restore (raft_new n ms timing now) (w_disk w n))) (w_disk w) (w_soup w)).

(** * The relation to the rules *)
Definition arole (ro : Role) : ARole := match ro with Follower => AFollower | Candidate => ACandidate | Leader => ALeader end.

Section net.
Context (ms : list Member) (timing : Timing).
(** Nobody is sent messages but voters: there are no learners. *)
Hypothesis (Hms : ∀ (i : nat) m, ms !! i = Some m → reachable m = true → member_votes m = true).

Definition V : gset nat := list_to_set (voters_of ms).
Implicit Types (s : @AState Entry) (n : nat) (r : Raft).
Local Abbreviation ainv := (Consensus.ainv e_term nil_entry V).
Local Abbreviation astep := (Consensus.astep e_term V).

Record node_ok s n r : Prop := {
  no_id : rf_id r = n;
  no_seed : rf_seed r = ms;
  no_mem : rf_members r = ms;
  no_voters : rf_voters r = voters_of ms;
  no_term : rf_term r = a_term s n;
  no_vote : rf_voted_for r = a_vote s n;
  no_role : a_role s n = arole (rf_role r);
  no_base : 0 <= rf_base r <= rf_commit r;
  no_log : rf_log r = drop (Z.to_nat (rf_base r)) (a_log s n);
  no_commit : rf_commit r = Z.of_nat (a_commit s n);
  no_applied : 0 <= rf_applied r <= rf_commit r;
  no_plain : no_members (a_log s n);
  no_votes : rf_role r = Candidate → ∀ v : nat, v ∈ rf_votes r → v ∈ V ∧ MVote (rf_term r) v n ∈ a_said s;
  no_self : rf_role r ≠ Follower → n ∈ V;
  no_matched : rf_role r = Leader → ∀ (p : nat) i, rf_matched r !! p = Some i → i = 0 ∨ p = n ∨ ∃ k, i = Z.of_nat k ∧ MAck (rf_term r) p k ∈ a_said s;
  no_next : rf_role r = Leader → ∀ (p : nat) i, rf_next r !! p = Some i → 1 <= i <= Z.of_nat (length (a_log s n))
}.

(** The fields the relation looks at. *)
Definition view r := (rf_id r, rf_seed r, rf_members r, rf_voters r, rf_term r, rf_voted_for r, rf_role r, rf_base r, rf_log r, rf_commit r,
  rf_applied r, rf_votes r, rf_matched r, rf_next r).

Lemma node_ok_view s n r r' : view r' = view r → node_ok s n r → node_ok s n r'.
Proof.
  unfold view. intros [= E1 E2 E3 E4 E5 E6 E7 E8 E9 E10 E11 E12 E13 E14] [].
  constructor; rewrite ?E1, ?E2, ?E3, ?E4, ?E5, ?E6, ?E7, ?E8, ?E9, ?E10, ?E11, ?E12, ?E13, ?E14; assumption.
Qed.

(** What a message in the network says. *)
Definition msg_ok s (dm : NodeId * Message) : Prop :=
  let d := dm.1 in
  d ∈ V ∧
  match dm.2 with
  | RequestVote t c li lt => c ∈ V ∧ ∃ l, MReq t c l ∈ a_said s ∧ li = Z.of_nat (length l) - 1 ∧ lt = last_tm e_term l
  | VoteReply t f g => f ∈ V ∧ (g = true → MVote t f d ∈ a_said s)
  | Append t ld pi pt es c =>
      ld ∈ V ∧ d ≠ ld ∧ no_members es ∧ 0 <= pi ∧ 0 <= c ∧ (∃ l, a_elect s t = Some (ld, l)) ∧ MApp t (Z.to_nat pi) pt es (Z.to_nat c) ∈ a_said s
  | AppendReply t f ok mi => f ∈ V ∧ f ≠ d ∧ (ok = true → ∃ k, mi = Z.of_nat k ∧ MAck t f k ∈ a_said s)
  | Snapshot t ld _ _ _ _ => ld ∈ V ∧ d ≠ ld
  end.

Definition same_at m s s' : Prop :=
  a_term s' m = a_term s m ∧ a_vote s' m = a_vote s m ∧ a_role s' m = a_role s m ∧ a_log s' m = a_log s m ∧ a_commit s' m = a_commit s m.

(** Node [n] took steps; nobody else did. *)
Record progress n s s' : Prop := {
  ev_run : rtc astep s s';
  ev_inv : ainv s';
  ev_other : ∀ m, m ≠ n → same_at m s s';
  ev_said : ∀ m, m ∈ a_said s → m ∈ a_said s';
  ev_elect : ∀ t v, a_elect s t = Some v → a_elect s' t = Some v
}.

(** Nothing of [n] that a restart may not lose has changed. *)
Definition quiet n s s' : Prop :=
  a_term s' n = a_term s n ∧ a_vote s' n = a_vote s n ∧ a_log s' n = a_log s n ∧ (a_commit s n <= a_commit s' n)%nat.

(** From [s0] node [n] has come to [s], is [r] and says [out]. *)
Record good s0 s n r (out : Output) : Prop := {
  gd_ev : progress n s0 s;
  gd_node : node_ok s n r;
  gd_send : Forall (msg_ok s) (o_send out);
  gd_keep : o_persist out = true ∨ quiet n s0 s
}.

Lemma progress_refl n s : ainv s → progress n s s.
Proof. intros I. constructor; [apply rtc_refl|exact I|by repeat split|done|done]. Qed.

Lemma same_at_trans m s1 s2 s3 : same_at m s1 s2 → same_at m s2 s3 → same_at m s1 s3.
Proof. intros (?&?&?&?&?) (?&?&?&?&?). repeat split; congruence. Qed.

Lemma progress_trans n s1 s2 s3 : progress n s1 s2 → progress n s2 s3 → progress n s1 s3.
Proof.
  intros A B. constructor; [by etrans; [apply A|apply B]|apply B| | |].
  - intros m Hm. eapply same_at_trans; [by apply A|by apply B].
  - intros m Hm. by apply B, A.
  - intros t v Hv. by apply B, A.
Qed.

Lemma progress_step n s s' : ainv s → astep s s' → (∀ m, m ≠ n → same_at m s s') → progress n s s'.
Proof.
  intros I S O. pose proof (astep_frame e_term nil_entry V eq_refl s s' I S) as F. constructor; [by apply rtc_once| |exact O|apply F|apply F].
  exact (ainv_step e_term nil_entry V eq_refl s s' I S).
Qed.

Lemma quiet_refl n s : quiet n s s. Proof. by repeat split. Qed.
Lemma quiet_trans n s1 s2 s3 : quiet n s1 s2 → quiet n s2 s3 → quiet n s1 s3.
Proof. intros (?&?&?&?) (?&?&?&?). repeat split; try congruence. lia. Qed.

Lemma msg_ok_mono n s s' dm : progress n s s' → msg_ok s dm → msg_ok s' dm.
Proof.
  intros E [Hd H]. split; [exact Hd|]. pose proof (ev_said n s s' E) as Hs. destruct (dm.2).
  - destruct H as (Hc & l & H & ?). split; [exact Hc|]. exists l. split; [by apply Hs|done].
  - destruct H as (Hc & H). split; [exact Hc|]. intros Hg. by apply Hs, H.
  - destruct H as (? & ? & ? & ? & ? & (l & Hl) & H). do 5 (split; [assumption|]). split; [exists l; by apply E|by apply Hs].
  - destruct H as (? & ? & H). do 2 (split; [assumption|]). intros Ho. destruct (H Ho) as (k & ? & Hk). exists k. split; [assumption|by apply Hs].
  - exact H.
Qed.

Lemma node_ok_other n m s s' r : progress n s s' → m ≠ n → node_ok s m r → node_ok s' m r.
Proof.
  intros E Hm []. destruct (ev_other n s s' E m Hm) as (E1 & E2 & E3 & E4 & E5). pose proof (ev_said n s s' E) as Hs.
  constructor; rewrite ?E1, ?E2, ?E3, ?E4, ?E5; try assumption.
  - intros Hr v Hv. destruct (no_votes0 Hr v Hv). split; [assumption|by apply Hs].
  - intros Hr p i Hp. destruct (no_matched0 Hr p i Hp) as [?|[?|(k & ? & Hk)]]; [by left|by right; left|right; right]. exists k. split; [assumption|by apply Hs].
Qed.

Lemma good_start s n r : ainv s → node_ok s n r → good s s n r no_output.
Proof. intros I N. constructor; [by apply progress_refl|exact N|constructor|right; apply quiet_refl]. Qed.

(** Fields that nothing depends on. *)
Lemma good_view s0 s n r r' out : good s0 s n r out → view r' = view r → good s0 s n r' out.
Proof. intros [] Hv. constructor; try assumption. by eapply node_ok_view. Qed.

(** One rule more. *)
Lemma good_step s0 s s' n r r' out out' new :
  good s0 s n r out → astep s s' → (∀ m, m ≠ n → same_at m s s') → (ainv s' → node_ok s' n r') →
  o_send out' = o_send out ++ new → Forall (msg_ok s') new →
  (o_persist out' = true ∨ o_persist out' = o_persist out ∧ quiet n s s') → good s0 s' n r' out'.
Proof.
  intros G S O N Es Hn Hp. pose proof (progress_step n s s' (ev_inv _ _ _ (gd_ev _ _ _ _ _ G)) S O) as E.
  constructor.
  - eapply progress_trans; [apply G|exact E].
  - apply N, E.
  - rewrite Es. apply Forall_app. split; [|exact Hn]. eapply Forall_impl; [apply G|]. intros m. by apply msg_ok_mono with n.
  - destruct Hp as [->|[-> Q]]; [by left|]. destruct (gd_keep _ _ _ _ _ G) as [Hk|Hk]; [by left|right]. by eapply quiet_trans.
Qed.

(** Two pieces of a turn. *)
Lemma good_merge s0 s1 s2 n r1 r2 out1 out2 : good s0 s1 n r1 out1 → good s1 s2 n r2 out2 → good s0 s2 n r2 (merge_out out1 out2).
Proof.
  intros G1 G2. constructor; cbn [merge_out o_send o_persist].
  - eapply progress_trans; [apply G1|apply G2].
  - apply G2.
  - apply Forall_app. split; [|apply G2]. eapply Forall_impl; [apply G1|]. intros m. apply msg_ok_mono with n, G2.
  - destruct (gd_keep _ _ _ _ _ G1) as [->|Q1]; [by left|]. destruct (gd_keep _ _ _ _ _ G2) as [->|Q2]; [left; apply orb_true_r|right].
    by eapply quiet_trans.
Qed.

(** Something more said, by a node that is otherwise as it was. *)
Lemma good_says s0 s n r out d m : good s0 s n r out → msg_ok s (d, m) → good s0 s n r (out_to out d m).
Proof. intros [] Hm. constructor; try assumption. apply Forall_app. split; [assumption|by constructor]. Qed.

(** Everybody but the node that steps. *)
Ltac others :=
  intros ? ?; unfold same_at; cbn [a_term a_vote a_role a_log a_commit]; rewrite ?upd_ne by assumption; repeat split.

Lemma node_len s n r : ainv s → node_ok s n r → rf_base r < Z.of_nat (length (a_log s n)).
Proof.
  intros I N. pose proof (commit_len e_term nil_entry V s I n). destruct (no_base _ _ _ N). rewrite (no_commit _ _ _ N) in *. lia.
Qed.

Lemma good_inv s0 s n r out : good s0 s n r out → ainv s. Proof. intros G. apply G. Qed.

Lemma node_last s0 s n r out : good s0 s n r out → last_index r = Z.of_nat (length (a_log s n)) - 1.
Proof.
  intros G. pose proof (node_len s n r (good_inv _ _ _ _ _ G) (gd_node _ _ _ _ _ G)). destruct (gd_node _ _ _ _ _ G).
  by apply node_last_index; [lia| |].
Qed.

(** ** A higher term *)
Lemma good_observe s0 s n r out t r' out' :
  good s0 s n r out → observe r t out = (r', out') → ∃ s', good s0 s' n r' out' ∧ t <= rf_term r'.
Proof.
  intros G. unfold observe. destruct (Z.ltb_spec (rf_term r) t) as [Hlt|Hge]; intros [= <- <-].
  - pose proof (gd_node _ _ _ _ _ G) as N. rewrite (no_term _ _ _ N) in Hlt. eexists. split; [|cbn; lia].
    eapply (good_step s0 s _ n r _ out _ []); [exact G|exact (a_bump e_term V s n t Hlt)|others| | |constructor|by left].
    + intros _. destruct N. constructor; cbn; rewrite ?upd_eq; try assumption; done.
    + cbn. by rewrite app_nil_r.
  - exists s. by split.
Qed.

(** ** Handing out *)
Lemma good_apply s0 s n r out : good s0 s n r out → good s0 s n (apply r out).1 (apply r out).2.
Proof.
  intros G. rewrite apply_exact. cbn [fst snd]. destruct G as [E N S K]. constructor; cbn [o_send o_persist]; try assumption.
  destruct N. constructor; cbn; try assumption. lia.
Qed.

(** ** Committing *)
Lemma replicas_quorum s0 s n r out i :
  good s0 s n r out → rf_role r = Leader → 1 <= i → may_commit r i = true →
  ∃ Q, quorum V Q ∧ ∀ m, m ∈ Q → m = n ∨ ∃ k, (Z.to_nat i <= k)%nat ∧ MAck (a_term s n) m k ∈ a_said s.
Proof.
  intros G Hr Hi. unfold may_commit. rewrite andb_true_iff, bool_decide_eq_true, Nat.leb_le. unfold replicas, majority. intros [_ Hm].
  destruct (gd_node _ _ _ _ _ G). rewrite no_voters0 in Hm. set (f := λ m, _) in Hm.
  exists (list_to_set (List.filter f (voters_of ms))). split; [split|].
  - intros m. unfold V. rewrite !elem_of_list_to_set, !list_elem_of_In, filter_In. tauto.
  - unfold V. rewrite !size_list_to_set; [|apply NoDup_ListNoDup, List.NoDup_filter, NoDup_ListNoDup, voters_of_nodup|apply voters_of_nodup].
     pose proof (Nat.div_mod_eq (length (voters_of ms)) 2). pose proof (Nat.mod_upper_bound (length (voters_of ms)) 2 ltac:(lia)). lia.
  - intros m. rewrite elem_of_list_to_set, list_elem_of_In, filter_In. intros [_ Hf]. unfold f in Hf.
    destruct (rf_matched r !! m) as [x|] eqn:Ex; [|discriminate Hf]. apply Z.leb_le in Hf.
    destruct (no_matched0 Hr m x Ex) as [->|[->|(k & -> & Hk)]]; [lia|by left|right]. exists k. split; [lia|by rewrite <- no_term0].
Qed.

Lemma good_advance s0 s n r out : good s0 s n r out → rf_role r = Leader → ∃ s', good s0 s' n (advance_commit r out).1 (advance_commit r out).2.
Proof.
  intros G Hr. unfold advance_commit. destruct (Z.ltb_spec (rf_commit r) (commit_candidate r)) as [Hlt|_]; [|by exists s].
  destruct (commit_candidate_case r) as [E|[Hb Hm]]; [lia|]. set (i := commit_candidate r) in *.
  pose proof (gd_node _ _ _ _ _ G) as N. pose proof (no_commit _ _ _ N). pose proof (no_base _ _ _ N).
  destruct (replicas_quorum s0 s n r out i G Hr) as (Q & HQ & Ha); [lia|exact Hm|].
  apply andb_true_iff in Hm as [Ht%bool_decide_eq_true _].
  destruct (node_term_at r (a_log s n) ltac:(lia) (no_log _ _ _ N) i _ Ht) as (_ & e & He & Het). rewrite (no_term _ _ _ N) in Het.
  assert (Hal : a_role s n = ALeader) by (rewrite (no_role _ _ _ N), Hr; done).
  eexists. apply good_apply.
  eapply (good_step s0 s _ n r _ out out []); [exact G|exact (a_decide e_term V s n (Z.to_nat i) e Q Hal He Het HQ Ha)|others| |by rewrite app_nil_r|constructor|right].
  - intros _. destruct N. constructor; cbn; rewrite ?upd_eq; try assumption; lia.
  - split; [done|]. repeat split; cbn; try done. rewrite upd_eq. lia.
Qed.

(** ** Sending *)
Lemma peers_voters s n r p : node_ok s n r → p ∈ peers r → p ∈ V ∧ p ≠ n.
Proof.
  intros N (Hp & m & Hm & Hv)%elem_peers. rewrite (no_id _ _ _ N) in Hp. rewrite (no_mem _ _ _ N) in Hm. split; [|exact Hp].
  unfold V. rewrite elem_of_list_to_set, elem_voters. exists m. split; [exact Hm|by eapply Hms].
Qed.

Lemma good_send s0 s n r out p :
  good s0 s n r out → rf_role r = Leader → p ∈ V → p ≠ n → ∃ s', good s0 s' n r (send_append r p out).
Proof.
  intros G Hr Hp Hpn. pose proof (gd_node _ _ _ _ _ G) as N. pose proof (node_last _ _ _ _ _ G) as Hl. pose proof (node_len _ _ _ (good_inv _ _ _ _ _ G) N) as Hlen.
  assert (HV : n ∈ V) by (apply (no_self _ _ _ N); by rewrite Hr).
  unfold send_append. set (next := default _ _).
  assert (Hnx : 1 <= next <= Z.of_nat (length (a_log s n))).
  { unfold next. destruct (rf_next r !! p) as [i|] eqn:Ei; cbn [default]; [exact (no_next _ _ _ N Hr p i Ei)|]. pose proof (no_base _ _ _ N). lia. }
  clearbody next. destruct (Z.ltb_spec (Z.max 0 (next - 1)) (rf_base r)) as [_|Hge].
  - destruct (applied_state r). exists s. apply good_says; [exact G|]. split; [exact Hp|]. cbn. rewrite (no_id _ _ _ N). by split.
  - rewrite Z.max_r in * by lia. pose proof (no_base _ _ _ N) as Hb. pose proof (no_log _ _ _ N) as Hlog.
    unfold term_at. rewrite (node_entry_at r (a_log s n)), (node_entries_from r (a_log s n)) by (first [exact Hlog|lia]).
    destruct (lookup_lt_is_Some_2 (a_log s n) (Z.to_nat (next - 1))) as [x Hx]; [lia|]. rewrite Hx. cbn [fmap option_fmap option_map default].
    assert (Hal : a_role s n = ALeader) by (rewrite (no_role _ _ _ N), Hr; done).
    eexists. eapply (good_step s0 s _ n r r out); [exact G|exact (a_send e_term V s n (Z.to_nat (next - 1)) x Hal Hx)|others| |reflexivity| |].
    + intros _. destruct N. constructor; cbn; try assumption.
      * intros E. congruence.
      * intros _ q i Hq. destruct (no_matched0 Hr q i Hq) as [?|[?|(k & ? & ?)]]; [by left|by right; left|right; right; exists k]. split; [assumption|by right].
    + constructor; [|constructor]. split; [exact Hp|]. cbn [snd]. rewrite (no_id _ _ _ N).
      split; [exact HV|]. split; [exact Hpn|]. split; [by apply no_members_drop, N|]. split; [lia|]. split; [rewrite (no_commit _ _ _ N); lia|].
      destruct (i_lead e_term nil_entry V s (good_inv _ _ _ _ _ G) n Hal) as (_ & Hel & _). rewrite (no_term _ _ _ N). split; [exact Hel|].
      replace (S (Z.to_nat (next - 1))) with (Z.to_nat next) by lia. rewrite (no_commit _ _ _ N), Nat2Z.id. by left.
    + right. split; [done|]. by repeat split.
Qed.

Lemma good_sends s0 n r : rf_role r = Leader → ∀ ps s out, good s0 s n r out → (∀ p, p ∈ ps → p ∈ V ∧ p ≠ n) → ∃ s', good s0 s' n r (send_appends r ps out).
Proof.
  intros Hr. unfold send_appends. induction ps as [|p ps IH]; intros s out G Hps; cbn [foldl]; [by exists s|].
  destruct (Hps p) as [Hp Hn]; [by left|]. destruct (good_send s0 s n r out p G Hr Hp Hn) as [s' G']. eapply IH; [exact G'|]. intros q Hq. apply Hps. by right.
Qed.

Lemma good_asks s0 s n r m ps : ∀ out, good s0 s n r out → (∀ p, p ∈ ps → msg_ok s (p, m)) → good s0 s n r (foldl (λ out p, out_to out p m) out ps).
Proof.
  induction ps as [|p ps IH]; intros out G Hps; [exact G|]. cbn [foldl]. apply IH; [|intros q Hq; apply Hps; by right].
  apply good_says; [exact G|]. apply Hps. by left.
Qed.

(** ** Elections *)
Lemma fold_insert_lookup (ps : list nat) (v : Z) : ∀ (m : gmap nat Z) q i,
  foldl (λ m p, <[p := v]> m) m ps !! q = Some i → i = v ∨ m !! q = Some i.
Proof.
  induction ps as [|p ps IH]; intros m q i H; [by right|]. cbn [foldl] in H. destruct (IH _ _ _ H) as [->|E]; [by left|].
  apply lookup_insert_Some in E as [[_ E]|[_ E]]; [by left|by right].
Qed.

Lemma log_snoc s n r e : ainv s → node_ok s n r → rf_log r ++ [e] = drop (Z.to_nat (rf_base r)) (a_log s n ++ [e]).
Proof.
  intros I N. pose proof (node_len s n r I N). pose proof (no_base _ _ _ N). rewrite (no_log _ _ _ N), drop_app_le by lia. done.
Qed.

Lemma no_members_snoc l e : no_members l → is_members (e_decision e) = false → no_members (l ++ [e]).
Proof. intros Hl He. apply no_members_app. split; [exact Hl|by constructor]. Qed.

Lemma filter_peers r ps p : p ∈ List.filter (λ p, negb (bool_decide (p = rf_id r))) ps → p ∈ ps.
Proof. rewrite list_elem_of_In, filter_In, <- list_elem_of_In. tauto. Qed.

Lemma good_win s0 s n r now out :
  good s0 s n r out → rf_role r = Candidate → (majority r <=? size (rf_votes r))%nat = true →
  ∃ s', good s0 s' n (win r now out).1 (win r now out).2.
Proof.
  intros G Hr Hm%Nat.leb_le. pose proof (gd_node _ _ _ _ _ G) as N. pose proof (good_inv _ _ _ _ _ G) as I.
  pose proof (no_votes _ _ _ N Hr) as Hv. pose proof (node_last _ _ _ _ _ G) as Hl. pose proof (no_base _ _ _ N) as Hb.
  assert (Hc : a_role s n = ACandidate) by (rewrite (no_role _ _ _ N), Hr; done).
  assert (HQ : quorum V (rf_votes r)).
  { split; [intros v Hvv; by apply Hv|]. unfold V. rewrite size_list_to_set by apply voters_of_nodup.
    unfold majority in Hm. rewrite (no_voters _ _ _ N) in Hm.
    pose proof (Nat.div_mod_eq (length (voters_of ms)) 2). pose proof (Nat.mod_upper_bound (length (voters_of ms)) 2 ltac:(lia)). lia. }
  assert (Hs : ∀ m, m ∈ rf_votes r → MVote (a_term s n) m n ∈ a_said s) by (intros m Hm'; rewrite <- (no_term _ _ _ N); by apply Hv).
  unfold win. cbn zeta. set (r1 := set_heartbeat_at _ _).
  assert (G1 : ∃ s1, good s0 s1 n r1 (out_persist out)).
  { eexists. eapply (good_step s0 s _ n r r1 out _ []); [exact G|exact (a_win e_term V s n _ (mkEntry (rf_term r) Noop) Hc HQ Hs (no_term _ _ _ N))|others| |by cbn; rewrite app_nil_r|constructor|by left].
    - intros _. pose proof (log_snoc s n r (mkEntry (rf_term r) Noop) I N) as Hlog. pose proof (node_len s n r I N). destruct N.
      constructor; cbn; rewrite ?upd_eq; try done.
      + by apply no_members_snoc.
      + intros _. apply no_self0. by rewrite Hr.
      + intros _ p i Hp. rewrite no_id0 in Hp. apply lookup_insert_Some in Hp as [[<- _]|[_ Hp]]; [by right; left|].
        apply lookup_insert_Some in Hp as [[<- _]|[_ Hp]]; [by right; left|]. apply fold_insert_lookup in Hp as [->|Hp]; [by left|by rewrite lookup_empty in Hp].
      + intros _ p i Hp. rewrite length_app. cbn [length]. apply fold_insert_lookup in Hp as [->|Hp]; [|by rewrite lookup_empty in Hp].
        change (last_index _) with (last_index r). lia. }
  destruct G1 as [s1 G1]. destruct (good_sends s0 n r1 eq_refl (List.filter (λ p, negb (bool_decide (p = rf_id r1))) (peers r1)) s1 _ G1) as [s2 G2].
  - intros p Hp%filter_peers. by eapply peers_voters; [apply G1|].
  - by eapply good_advance.
Qed.

Lemma good_stand s0 s n r now out :
  good s0 s n r out → rf_role r ≠ Leader → ∃ s', good s0 s' n (stand r now out).1 (stand r now out).2.
Proof.
  intros G Hr. unfold stand. pose proof (gd_node _ _ _ _ _ G) as N. destruct (Raft.i_vote r) eqn:Hv; cbn [negb]; [|exists s; by eapply good_view].
  apply bool_decide_eq_true in Hv. rewrite (no_id _ _ _ N), (no_voters _ _ _ N) in Hv.
  assert (HV : n ∈ V) by (unfold V; by rewrite elem_of_list_to_set). cbn zeta. set (r1 := reset_election _ _).
  assert (G1 : ∃ s1, good s0 s1 n r1 (out_persist out) ∧ MReq (rf_term r1) n (a_log s1 n) ∈ a_said s1).
  { eexists. split; [eapply (good_step s0 s _ n r r1 out _ []); [exact G|exact (a_stand e_term V s n)|others| |by cbn; rewrite app_nil_r|constructor|by left]|].
    - intros _. destruct N. constructor; cbn; rewrite ?upd_eq; try assumption; try done; [congruence|congruence|].
      intros _ v Hvv. apply elem_of_singleton in Hvv as ->. rewrite no_id0, no_term0. split; [exact HV|]. right. by left.
    - cbn. rewrite (no_term _ _ _ N). by left. }
  destruct G1 as (s1 & G1 & Hreq). destruct (majority r1 <=? size (rf_votes r1))%nat eqn:Em.
  - by eapply good_win.
  - exists s1. cbn [fst snd]. apply good_asks; [exact G1|]. intros p Hp. pose proof (gd_node _ _ _ _ _ G1) as N1.
    destruct (peers_voters s1 n r1 p N1 Hp) as [HpV _]. split; [exact HpV|]. cbn [snd]. change (rf_id r1) with (rf_id r). rewrite (no_id _ _ _ N). split; [exact HV|].
    exists (a_log s1 n). split; [exact Hreq|]. pose proof (node_len s1 n r1 (good_inv _ _ _ _ _ G1) N1). pose proof (no_base _ _ _ N1).
    split; [by eapply node_last|]. apply node_last_term; [lia|apply N1].
Qed.

(** ** The clock *)
Lemma compact_target_le r keep : 0 <= keep → 0 <= rf_applied r → compact_target r keep <= rf_applied r.
Proof. intros Hk Ha. unfold compact_target. cbn zeta. destruct (min_of (_ ++ _)); lia. Qed.

Lemma good_compact s0 s n r out keep : 0 <= keep → good s0 s n r out → good s0 s n (compact r keep) out.
Proof.
  intros Hk G. unfold compact. destruct (negb (is_leader r)); [exact G|]. cbn zeta. destruct (Z.leb_spec (compact_target r keep) (rf_base r)) as [_|Hlt]; [exact G|].
  destruct G as [E N S K]. constructor; try assumption. destruct N. pose proof (compact_target_le r keep Hk ltac:(lia)).
  constructor; cbn; try assumption; [lia|]. rewrite no_log0, drop_drop. f_equal. lia.
Qed.

Lemma good_tick s0 s n r now : good s0 s n r no_output → ∃ s', good s0 s' n (tick r now).1 (tick r now).2.
Proof.
  intros G. unfold tick. destruct (rf_role r) eqn:Hr.
  1,2: destruct (rf_election_at r <=? now); [by eapply good_stand; [exact G|rewrite Hr]|by exists s].
  destruct (rf_heartbeat_at r <=? now); [|by exists s]. cbn zeta. set (r1 := compact _ _).
  assert (G1 : good s0 s n r1 no_output) by (apply good_compact; [done|by eapply good_view]).
  assert (Hr1 : rf_role r1 = Leader) by (unfold r1, compact; destruct (negb _); [|cbn zeta; destruct (_ <=? _)]; exact Hr).
  cbn [fst snd]. eapply (good_sends s0 n r1 Hr1); [exact G1|]. intros p Hp%filter_peers. by eapply peers_voters; [apply G1|].
Qed.

(** ** A proposal *)
Lemma elem_targets (p : nat) more : ∀ ts, p ∈ foldl (λ ts q, if bool_decide (q ∈ ts) then ts else ts ++ [q]) ts more → p ∈ ts ∨ p ∈ more.
Proof.
  induction more as [|q more IH]; intros ts H; [by left|]. cbn [foldl] in H. destruct (IH _ H) as [E|E]; [|by right; right].
  case_bool_decide; [by left|]. apply elem_of_app in E as [E|E]; [by left|]. apply list_elem_of_singleton in E as ->. right. by left.
Qed.

Lemma good_propose s n r d r' out :
  ainv s → node_ok s n r → is_members d = false → propose r d = Some (r', out) → ∃ s', good s s' n r' out.
Proof.
  intros I N Hd. unfold propose. destruct (is_leader r) eqn:Hl; cbn [negb]; [|done]. apply bool_decide_eq_true in Hl.
  destruct (match d with Members _ => _ | _ => _ end); [done|]. cbn zeta. rewrite Hd. set (r1 := set_matched _ _). intros [= E].
  assert (Hal : a_role s n = ALeader) by (rewrite (no_role _ _ _ N), Hl; done).
  assert (G1 : ∃ s1, good s s1 n r1 (out_persist no_output)).
  { eexists. eapply (good_step s s _ n r r1 no_output _ []);
      [by apply good_start|exact (a_propose e_term V s n (mkEntry (rf_term r) d) Hal (no_term _ _ _ N))|others| |done|constructor|by left].
    intros _. pose proof (log_snoc s n r (mkEntry (rf_term r) d) I N) as Hlog. destruct N. constructor; cbn; rewrite ?upd_eq; try done.
    - by apply no_members_snoc.
    - intros _ p i Hp. rewrite no_id0 in Hp. apply lookup_insert_Some in Hp as [[<- _]|[_ Hp]]; [by right; left|by apply no_matched0].
    - intros _ p i Hp. rewrite length_app. specialize (no_next0 Hl p i Hp). lia. }
  destruct G1 as [s1 G1]. destruct (good_sends s n r1 Hl (foldl (λ ts p, if bool_decide (p ∈ ts) then ts else ts ++ [p]) (peers r1) (peers r)) s1 _ G1) as [s2 G2].
  - intros p [Hp|Hp]%elem_targets; eapply peers_voters; [apply G1|exact Hp|exact N|exact Hp].
  - destruct (good_advance s s2 n r1 _ G2 Hl) as [s3 G3]. exists s3. by rewrite E in G3.
Qed.

(** ** Messages *)
Lemma good_request s n r now t c li lt :
  ainv s → node_ok s n r → msg_ok s (n, RequestVote t c li lt) →
  ∃ s', good s s' n (on_request_vote r now t c li lt).1 (on_request_vote r now t c li lt).2.
Proof.
  intros I N (HV & HcV & l & Hreq & -> & ->). unfold on_request_vote. cbn zeta.
  assert (G0 : good s s n (set_heard r (<[c := now]> (rf_heard r))) no_output) by (eapply good_view; [by apply good_start|done]).
  set (r0 := set_heard _ _) in *. destruct (leader_in_touch r0 now).
  - exists s. apply good_says; [exact G0|]. split; [exact HcV|]. cbn. by rewrite (no_id _ _ _ N).
  - destruct (observe r0 t no_output) as [r1 out1] eqn:Eo. destruct (good_observe _ _ _ _ _ _ _ _ G0 Eo) as (s1 & G1 & Ht).
    pose proof (gd_node _ _ _ _ _ G1) as N1. pose proof (node_last _ _ _ _ _ G1) as Hl1.
    destruct (grant r1 t c _ _) eqn:Eg; cbn [fst snd].
    + revert Eg. unfold grant. destruct (Z.ltb_spec t (rf_term r1)) as [|Hge]; [done|]. destruct (negb _); [done|].
      destruct (match rf_voted_for r1 with Some _ => _ | None => _ end) eqn:Ev; [done|].
      rewrite (node_last_term r1 (a_log s1 n)), Hl1; [|pose proof (node_len _ _ _ (good_inv _ _ _ _ _ G1) N1); pose proof (no_base _ _ _ N1); lia|apply N1].
      intros Hup. assert (Hut : up_to_date e_term l (a_log s1 n)) by (unfold up_to_date; lia).
      assert (Eterm : rf_term r1 = t) by lia. 
      assert (Hreq1 : MReq (a_term s1 n) c l ∈ a_said s1) by (rewrite <- (no_term _ _ _ N1), Eterm; by apply G1).
      assert (Hvote : a_vote s1 n = None ∨ a_vote s1 n = Some c).
      { rewrite <- (no_vote _ _ _ N1). destruct (rf_voted_for r1) as [v|]; [|by left]. apply negb_false_iff, bool_decide_eq_true in Ev as ->. by right. }
      eexists. eapply (good_step s s1 _ n r1 _ out1); [exact G1|exact (a_grant e_term V s1 n c l Hreq1 Hvote Hut)|others| |reflexivity| |by left].
      * intros _. destruct N1. constructor; cbn; rewrite ?upd_eq; try assumption; try done.
        -- intros Hr v Hv. destruct (no_votes0 Hr v Hv). split; [assumption|by right].
        -- intros Hr p i Hp. destruct (no_matched0 Hr p i Hp) as [?|[?|(k & ? & ?)]]; [by left|by right; left|right; right; exists k]. split; [assumption|by right].
      * constructor; [|constructor]. split; [exact HcV|]. cbn. rewrite (no_id _ _ _ N1). split; [exact HV|]. intros _. rewrite (no_term _ _ _ N1). by left.
    + exists s1. apply good_says; [exact G1|]. split; [exact HcV|]. cbn. by rewrite (no_id _ _ _ N1).
Qed.

Lemma good_vote_reply s n r now t f g :
  ainv s → node_ok s n r → msg_ok s (n, VoteReply t f g) → ∃ s', good s s' n (on_vote_reply r now t f g).1 (on_vote_reply r now t f g).2.
Proof.
  intros I N (HV & HfV & Hg). unfold on_vote_reply. cbn zeta.
  assert (G0 : good s s n (set_heard r (<[f := now]> (rf_heard r))) no_output) by (eapply good_view; [by apply good_start|done]).
  set (r0 := set_heard _ _) in *. destruct (observe r0 t no_output) as [r1 out1] eqn:Eo.
  destruct (good_observe _ _ _ _ _ _ _ _ G0 Eo) as (s1 & G1 & Ht).
  destruct (bool_decide (rf_role r1 = Candidate) && (t =? rf_term r1) && g) eqn:Ec; [|by exists s1].
  apply andb_true_iff in Ec as [Ec ->]. apply andb_true_iff in Ec as [Hr%bool_decide_eq_true Et%Z.eqb_eq].
  set (r2 := set_votes _ _). assert (G2 : good s s1 n r2 out1).
  { destruct G1 as [E1 N1 S1 K1]. constructor; try assumption. destruct N1. constructor; cbn; try assumption.
    intros _ v [->%elem_of_singleton|Hv]%elem_of_union; [|by apply no_votes0]. split; [exact HfV|]. rewrite <- Et. by apply E1, Hg. }
  destruct (majority r2 <=? size (rf_votes r2))%nat eqn:Em; [by eapply good_win|by exists s1].
Qed.

(** Whoever hears from the leader of its term follows it. *)
Lemma good_follow s0 s n r out (r' : Raft) :
  good s0 s n r out → view r' = view (set_role r Follower) → ∃ s', good s0 s' n r' out ∧ a_log s' n = a_log s n.
Proof.
  intros G Hv. eexists. split.
  - eapply good_view; [|exact Hv].
    eapply (good_step s0 s _ n r (set_role r Follower) out out []);
      [exact G|exact (a_follow e_term V s n (a_commit s n) ltac:(lia))|others| |by rewrite app_nil_r|constructor|right; split; [done|]].
    + intros _. destruct (gd_node _ _ _ _ _ G). constructor; cbn; rewrite ?upd_eq; try assumption; try done.
    + repeat split; cbn; rewrite ?upd_eq; done.
  - done.
Qed.

Lemma good_merge_entries s0 s n r out prev pt es c r' index changed moved :
  good s0 s n r out → rf_role r = Follower → MApp (rf_term r) prev pt es c ∈ a_said s → no_members es → 
  term_at r (Z.of_nat prev) = Some pt → merge_entries r (Z.of_nat prev) es false false = (r', index, changed, moved) →
  ∃ s', good s0 s' n r' (if changed then out_persist out else out) ∧ moved = false ∧ index = Z.of_nat (prev + length es) ∧
    MAck (rf_term r') n (prev + length es) ∈ a_said s' ∧ MApp (rf_term r') prev pt es c ∈ a_said s' ∧ rf_role r' = Follower ∧
    (prev + length es < length (a_log s' n))%nat.
Proof.
  intros G Hr Hmsg Hes Ht Em. pose proof (gd_node _ _ _ _ _ G) as N. pose proof (good_inv _ _ _ _ _ G) as I. pose proof (no_base _ _ _ N) as Hb.
  destruct (node_term_at r (a_log s n) ltac:(lia) (no_log _ _ _ N) _ _ Ht) as (Hpb & x & Hx & Hxt). rewrite Nat2Z.id in Hx.
  destruct (merge_entries_lay es r (a_log s n) prev false ltac:(lia) (no_log _ _ _ N) Hpb (lookup_lt_Some _ _ _ Hx) (no_plain _ _ _ N) Hes) as (ch & E & Hch).
  rewrite E in Em. injection Em as <- <- <- <-. rewrite (no_term _ _ _ N) in Hmsg.
  destruct (lay_ok e_term nil_entry V eq_refl s I _ prev pt es c (a_log s n) x Hmsg (i_logs _ _ _ _ I n) Hx Hxt) as (Hpre & _ & Hkeep & _ & Hlen).
  assert (Hll : (prev + length es < length (lay e_term (a_log s n) prev es))%nat).
  { apply prefix_length in Hpre. rewrite length_take in Hpre. lia. }
  assert (Hcm : (a_commit s n < length (lay e_term (a_log s n) prev es))%nat).
  { assert (Hnl : a_role s n ≠ ALeader) by (rewrite (no_role _ _ _ N), Hr; done).
    pose proof (ainv_step e_term nil_entry V eq_refl s _ I (a_recv e_term V s n prev pt es c x Hmsg Hnl Hx Hxt)) as I'.
    pose proof (commit_len _ _ _ _ I' n) as Hc. cbn in Hc. by rewrite upd_eq in Hc. }
  assert (Hnl : a_role s n ≠ ALeader) by (rewrite (no_role _ _ _ N), Hr; done).
  eexists. split; [|split; [done|split; [done|split; [|split; [|split; [exact Hr|]]]]]].
  - eapply (good_step s0 s _ n r _ out _ []); [exact G|exact (a_recv e_term V s n prev pt es c x Hmsg Hnl Hx Hxt)|others| |by destruct ch; cbn; rewrite app_nil_r|constructor|].
    + intros _. pose proof (lay_no_members (a_log s n) prev es (no_plain _ _ _ N) Hes) as Hpl. destruct N. constructor; cbn; rewrite ?upd_eq; try assumption; rewrite ?Hr; done.
    + destruct ch; [by left|right]. destruct (Hch eq_refl) as [_ El]. split; [done|]. repeat split; cbn; rewrite ?upd_eq; done.
  - cbn. rewrite (no_term _ _ _ N). by left.
  - cbn. rewrite (no_term _ _ _ N). by right.
  - cbn. by rewrite upd_eq.
Qed.

Lemma good_append s n r now t ld pi pt es c :
  ainv s → node_ok s n r → msg_ok s (n, Append t ld pi pt es c) →
  ∃ s', good s s' n (on_append r now t ld pi pt es c).1 (on_append r now t ld pi pt es c).2.
Proof.
  intros I N (HV & HldV & Hne & Hes & Hpi & Hc & (l & Hel) & Hmsg). cbn [fst snd] in *. unfold on_append. cbn zeta.
  set (r00 := if rf_term _ <=? t then _ else _).
  assert (G0 : good s s n r00 no_output) by (eapply good_view; [by apply good_start|unfold r00; destruct (_ <=? t); done]).
  destruct (observe r00 t no_output) as [r1 out1] eqn:Eo. destruct (good_observe _ _ _ _ _ _ _ _ G0 Eo) as (s1 & G1 & Ht).
  assert (Hrep : ∀ s' r' out t', good s s' n r' out → good s s' n r' (out_to out ld (AppendReply t' (rf_id r') false 0))).
  { intros s' r' out t' G'. apply good_says; [exact G'|]. split; [exact HldV|]. cbn. rewrite (no_id _ _ _ (gd_node _ _ _ _ _ G')). by split. }
  destruct (Z.ltb_spec t (rf_term r1)) as [_|Hge]; [exists s1; by apply Hrep|].
  set (r2 := reset_election _ _). destruct (good_follow _ _ _ _ _ r2 G1 eq_refl) as (s2 & G2 & _).
  destruct (bool_decide (term_at r2 pi = Some pt)) eqn:Em; cbn [negb]; [|exists s2; by apply Hrep]. apply bool_decide_eq_true in Em.
  destruct (merge_entries r2 pi es false false) as [[[r3 index] changed] moved] eqn:Eme. rewrite <- (Z2Nat.id pi) in Em, Eme by exact Hpi.
  assert (Et2 : rf_term r2 = t) by (change (rf_term r2) with (rf_term r1); lia).
  destruct (good_merge_entries _ _ _ _ _ _ pt es (Z.to_nat c) _ _ _ _ G2 eq_refl ltac:(rewrite Et2; by apply G2) Hes Em Eme) as (s3 & G3 & -> & -> & Hack & Hmsg3 & Hr3 & Hlen3).
  pose proof (gd_node _ _ _ _ _ G3) as N3. rewrite (no_term _ _ _ N3) in Hack, Hmsg3.
  assert (Hok : ∀ s' r' out, good s s' n r' out → rf_term r' = rf_term r3 → (MAck (a_term s3 n) n (Z.to_nat pi + length es) ∈ a_said s') →
    good s s' n r' (out_to out ld (AppendReply (rf_term r') (rf_id r') true (Z.of_nat (Z.to_nat pi + length es))))).
  { intros s' r' out G' E Ha. apply good_says; [exact G'|]. split; [exact HldV|]. cbn. rewrite (no_id _ _ _ (gd_node _ _ _ _ _ G')). split; [exact HV|]. split; [exact Hne|].
    intros _. eexists. split; [reflexivity|]. by rewrite E, (no_term _ _ _ N3). }
  pose proof (node_last _ _ _ _ _ G3) as Hl3. pose proof (i_app _ _ _ _ (good_inv _ _ _ _ _ G3) _ _ _ _ _ Hmsg3) as (_ & _ & _ & _ & Hcle & _).
  destruct (Z.ltb_spec (rf_commit r3) c) as [Hlt|_]; [|exists s3; by apply Hok].
  rewrite (Z.min_l c) by lia. set (out3 := if changed then _ else _) in *.
  assert (G4 : ∃ s4, good s s4 n (set_commit r3 c) out3 ∧ a_said s4 = a_said s3).
  { eexists. split; [eapply (good_step s s3 _ n r3 _ out3 out3 []);
      [exact G3|exact (a_learn e_term V s3 n _ pt es _ _ (Z.to_nat c) Hmsg3 Hack ltac:(lia) ltac:(lia))|others| |by rewrite app_nil_r|constructor|right; split; [done|]]|done].
    - intros _. pose proof (no_commit _ _ _ N3). destruct N3. constructor; cbn; rewrite ?upd_eq; try assumption; lia.
    - pose proof (no_commit _ _ _ N3). repeat split; cbn; rewrite ?upd_eq; try done. lia. }
  destruct G4 as (s4 & G4 & Es4). apply good_apply in G4. rewrite apply_exact in G4 |- *. cbn [fst snd] in G4. exists s4.
  apply Hok; [exact G4|done|by rewrite Es4].
Qed.

Lemma good_append_reply s n r now t f ok mi :
  ainv s → node_ok s n r → msg_ok s (n, AppendReply t f ok mi) →
  ∃ s', good s s' n (on_append_reply r now t f ok mi).1 (on_append_reply r now t f ok mi).2.
Proof.
  intros I N (HV & HfV & Hne & Hok). cbn [fst snd] in *. unfold on_append_reply. cbn zeta.
  assert (G0 : good s s n (set_heard r (<[f := now]> (rf_heard r))) no_output) by (eapply good_view; [by apply good_start|done]).
  set (r0 := set_heard _ _) in *. destruct (observe r0 t no_output) as [r1 out1] eqn:Eo.
  destruct (good_observe _ _ _ _ _ _ _ _ G0 Eo) as (s1 & G1 & Ht).
  destruct (negb (is_leader r1) || negb (t =? rf_term r1)) eqn:Ec; [by exists s1|].
  apply orb_false_iff in Ec as [Hr%negb_false_iff%bool_decide_eq_true Et%negb_false_iff%Z.eqb_eq].
  pose proof (gd_node _ _ _ _ _ G1) as N1. destruct ok.
  - set (r2 := set_next _ _). eapply good_advance; [|exact Hr]. destruct (Hok eq_refl) as (k & -> & Hk). apply (ev_said _ _ _ (gd_ev _ _ _ _ _ G1)) in Hk.
    assert (Hal : a_role s1 n = ALeader) by (rewrite (no_role _ _ _ N1), Hr; done).
    pose proof (i_ack _ _ _ _ (good_inv _ _ _ _ _ G1) _ _ _ Hk) as (_ & _ & Hkl).
    destruct (i_lead _ _ _ _ (good_inv _ _ _ _ _ G1) n Hal) as (_ & _ & Ell). rewrite Et, (no_term _ _ _ N1), <- Ell in Hkl.
    destruct G1 as [E1 _ S1 K1]. constructor; [exact E1| |exact S1|exact K1]. destruct N1. constructor; cbn; try assumption.
    + intros _ p i Hp. apply lookup_insert_Some in Hp as [[<- <-]|[_ Hp]]; [|by apply no_matched0]. right. right. exists k. split; [done|by rewrite <- Et].
    + intros _ p i Hp. apply lookup_insert_Some in Hp as [[<- <-]|[_ Hp]]; [lia|by eapply no_next0].
  - set (r2 := set_next _ _). cbn [fst snd]. apply (good_send s s1 n r2 out1 f); [|exact Hr|exact HfV|exact Hne].
    pose proof (commit_len _ _ _ _ (good_inv _ _ _ _ _ G1) n).
    destruct G1 as [E1 _ S1 K1]. constructor; [exact E1| |exact S1|exact K1]. destruct N1. constructor; cbn; try assumption.
    intros _ p i Hp. apply lookup_insert_Some in Hp as [[<- <-]|[_ Hp]]; [|by eapply no_next0].
    destruct (rf_next r1 !! f) as [i|] eqn:Ei; cbn; [|lia]. specialize (no_next0 Hr f i Ei). lia.
Qed.

Lemma good_snapshot s n r now t ld i lt rs mm :
  ainv s → node_ok s n r → msg_ok s (n, Snapshot t ld i lt rs mm) → installs r (Snapshot t ld i lt rs mm) = false →
  ∃ s', good s s' n (on_snapshot r now t ld i lt rs mm).1 (on_snapshot r now t ld i lt rs mm).2.
Proof.
  intros I N (HV & HldV & Hne) Hin. cbn [fst snd] in *. unfold on_snapshot. cbn zeta.
  assert (G0 : good s s n (set_heard r (<[ld := now]> (rf_heard r))) no_output) by (eapply good_view; [by apply good_start|done]).
  set (r0 := set_heard _ _) in *. destruct (observe r0 t no_output) as [r1 out1] eqn:Eo.
  destruct (good_observe _ _ _ _ _ _ _ _ G0 Eo) as (s1 & G1 & Ht).
  assert (Hbt : rf_base r1 = rf_base r ∧ rf_term r <= rf_term r1).
  { unfold observe in Eo. destruct (Z.ltb_spec (rf_term r0) t) as [Hx|Hx]; injection Eo as <- _; cbn in *; lia. }
  replace ((t <? rf_term r1) || (i <=? rf_base r1)) with true by (cbn in Hin; lia).
  exists s1. apply good_says; [exact G1|]. split; [exact HldV|]. cbn. rewrite (no_id _ _ _ (gd_node _ _ _ _ _ G1)). by split.
Qed.

Lemma good_deliver s n r m now :
  ainv s → node_ok s n r → msg_ok s (n, m) → installs r m = false → ∃ s', good s s' n (deliver r m now).1 (deliver r m now).2.
Proof.
  intros I N Hm Hi. destruct m; cbn [deliver].
  - by apply good_request.
  - by apply good_vote_reply.
  - by apply good_append.
  - by apply good_append_reply.
  - by apply good_snapshot.
Qed.

Lemma good_turn s n r incoming proposal now :
  ainv s → node_ok s n r → (∀ m, incoming = Some m → msg_ok s (n, m) ∧ installs r m = false) → (∀ r d, proposal r = Some d → is_members d = false) →
  ∃ s', good s s' n (turn r incoming proposal now).1 (turn r incoming proposal now).2.
Proof.
  intros I N Hin Hp. unfold turn.
  set (first := match incoming with Some _ => _ | None => _ end).
  assert (G1 : ∃ s1, good s s1 n first.1 first.2).
  { unfold first. destruct incoming as [m|]; [|exists s; by apply good_start]. destruct (Hin m eq_refl) as [Hm Hi].
    destruct (good_deliver s n r m now I N Hm Hi) as [s1 G1]. exists s1. destruct (deliver r m now) as [r1 got]. exact (good_merge _ _ _ _ _ _ _ _ (good_start s n r I N) G1). }
  clearbody first. destruct first as [r1 out1]. cbn [fst snd] in G1. destruct G1 as [s1 G1].
  destruct (good_tick s1 s1 n r1 now (good_start _ _ _ (good_inv _ _ _ _ _ G1) (gd_node _ _ _ _ _ G1))) as [s2 G2].
  destruct (tick r1 now) as [r2 got2]. cbn [fst snd] in G2. pose proof (good_merge _ _ _ _ _ _ _ _ G1 G2) as G.
  destruct (is_leader r2); [|by exists s2]. destruct (proposal r2) as [d|] eqn:Ed; [|by exists s2]. destruct (propose r2 d) as [[r3 got3]|] eqn:Ep; [|by exists s2].
  destruct (good_propose s2 n r2 d r3 got3 (good_inv _ _ _ _ _ G2) (gd_node _ _ _ _ _ G2) (Hp _ _ Ed) Ep) as [s3 G3]. exists s3. exact (good_merge _ _ _ _ _ _ _ _ G G3).
Qed.

(** ** Runs *)

(** A node's file: what it has promised, and no more committed than it knows. *)
Record disk_ok s n (d : State) : Prop := {
  dk_term : st_term d = a_term s n;
  dk_vote : st_voted_for d = a_vote s n;
  dk_seed : st_seed d = ms;
  dk_base : 0 <= st_base d <= st_commit d;
  dk_commit : st_commit d <= Z.of_nat (a_commit s n);
  dk_log : st_log d = drop (Z.to_nat (st_base d)) (a_log s n)
}.

Record sim (w : World) s : Prop := {
  si_inv : ainv s;
  si_node : ∀ n, node_ok s n (w_node w n);
  si_disk : ∀ n, disk_ok s n (w_disk w n);
  si_soup : Forall (msg_ok s) (w_soup w)
}.

Lemma disk_other n m s s' d : progress n s s' → m ≠ n → disk_ok s m d → disk_ok s' m d.
Proof.
  intros E Hm []. destruct (ev_other n s s' E m Hm) as (E1 & E2 & E3 & E4 & E5). constructor; rewrite ?E1, ?E2, ?E4, ?E5; assumption.
Qed.
Lemma disk_quiet n s s' d : quiet n s s' → disk_ok s n d → disk_ok s' n d.
Proof. intros (E1 & E2 & E3 & E4) []. constructor; rewrite ?E1, ?E2, ?E3; try assumption. lia. Qed.
Lemma disk_saved n s r : node_ok s n r → disk_ok s n (raft_state r).
Proof. intros []. constructor; cbn; try assumption. lia. Qed.

Lemma restore_ok s n d now :
  ainv s → disk_ok s n d → a_role s n = AFollower → Z.of_nat (a_commit s n) = st_commit d → no_members (a_log s n) →
  node_ok s n (restore (raft_new n ms timing now) d).
Proof.
  intros I [] Hr Hc Hpl. pose proof (commit_len _ _ _ _ I n) as Hlen.
  assert (Hne : st_log d ≠ []) by (rewrite dk_log0; intros E; apply (f_equal length) in E; rewrite length_drop in E; cbn in E; lia).
  unfold restore. rewrite (bool_decide_eq_false_2 _ Hne). cbn zeta.
  set (r1 := if bool_decide (st_seed d = []) then _ else _).
  assert (E1 : r1 = set_log (set_voted_for (set_term (raft_new n ms timing now) (st_term d)) (st_voted_for d)) (st_log d)).
  { unfold r1. case_bool_decide; [done|]. by rewrite dk_seed0. }
  clearbody r1. subst r1. unfold refresh_members. cbn [rf_log set_log rf_seed raft_new reset_election set_election_at set_term set_voted_for].
  rewrite latest_members_none by (rewrite dk_log0; by apply no_members_drop). cbn [default].
  set (r2 := set_base _ _).
  assert (Hl : last_index r2 = Z.of_nat (length (a_log s n)) - 1) by (apply node_last_index; [cbn; lia|cbn; lia|exact dk_log0]).
  assert (Hcl : clamp (st_commit d) (rf_base r2) (last_index r2) = st_commit d).
  { unfold clamp. rewrite Hl. change (rf_base r2) with (st_base d). rewrite !(proj2 (Z.ltb_ge _ _)) by lia. done. }
  rewrite Hcl. constructor; cbn; try assumption; try done; lia.
Qed.

(** A restart is a rule: the node follows, and knows what its file knows. *)
Lemma restart_sim w s n now : sim w s → ∃ s',
  (progress n s s' ∧ (a_term s' n = a_term s n ∧ a_vote s' n = a_vote s n ∧ a_log s' n = a_log s n ∧ (a_commit s' n <= a_commit s n)%nat) ∧
   disk_ok s' n (w_disk w n)) ∧ node_ok s' n (restore (raft_new n ms timing now) (w_disk w n)).
Proof.
  intros [I Hn Hd Hs]. pose proof (Hd n) as D. pose proof (dk_base _ _ _ D). pose proof (dk_commit _ _ _ D).
  set (k := Z.to_nat (st_commit (w_disk w n))). assert (Hk : (k <= a_commit s n)%nat) by lia.
  set (s' := mkA (a_term s) (a_vote s) (upd (a_role s) n AFollower) (a_log s) (upd (a_commit s) n k) (a_said s) (a_elect s) (a_llog s)).
  assert (E : progress n s s') by (unfold s'; apply progress_step; [exact I|exact (a_follow e_term V s n k Hk)|others]).
  assert (D' : disk_ok s' n (w_disk w n)) by (destruct D; constructor; cbn; rewrite ?upd_eq; try assumption; lia).
  exists s'. split; [split; [exact E|split; [|exact D']]|].
  - repeat split; cbn; rewrite ?upd_eq; done.
  - apply restore_ok; [apply E|exact D'|cbn; by rewrite upd_eq|cbn; rewrite upd_eq; lia|exact (no_plain _ _ _ (Hn n))].
Qed.

Lemma wstep_sim w w' s : sim w s → wstep ms timing w w' → ∃ s', rtc astep s s' ∧ sim w' s'.
Proof.
  intros [I Hn Hd Hs] [n incoming proposal now Hin Hp|n now].
  - destruct (good_turn s n (w_node w n) incoming proposal now I (Hn n)) as [s' G]; [|exact Hp|].
    { intros m Em. destruct (Hin m Em) as [Hm Hi]. split; [|exact Hi]. rewrite Forall_forall in Hs. by apply Hs. }
    destruct (turn _ _ _ _) as [r' out]. cbn [fst snd] in G. destruct G as [E N S K]. exists s'. split; [apply E|].
    constructor; unfold settle; cbn [w_node w_disk w_soup fst snd]; [apply E| | |].
    + intros m. unfold upd. case_decide as Em; [by subst m|]. by eapply node_ok_other.
    + intros m. destruct (decide (m = n)) as [->|Em].
      * destruct (o_persist out) eqn:Ep; [rewrite upd_eq; by apply disk_saved|]. destruct K as [K|K]; [done|]. by eapply disk_quiet.
      * replace ((if o_persist out then _ else _) m) with (w_disk w m) by (destruct (o_persist out); [by rewrite upd_ne|done]). by eapply disk_other.
    + apply Forall_app. split; [exact S|]. eapply Forall_impl; [exact Hs|]. intros m. by apply msg_ok_mono with n.
  - destruct (restart_sim w s n now) as (s' & (E & _ & D') & N'); [by constructor|].
    exists s'. split; [apply E|]. constructor; cbn [w_node w_disk w_soup]; [apply E| | |].
    + intros m. unfold upd. case_decide as Em; [by subst m|by eapply node_ok_other; [exact E|exact Em|apply Hn]].
    + intros m. destruct (decide (m = n)) as [->|Em]; [apply D'|by eapply disk_other].
    + eapply Forall_impl; [exact Hs|]. intros m. by apply msg_ok_mono with n.
Qed.

Lemma sim_init : sim (w_init ms timing) (a_init nil_entry).
Proof.
  constructor; cbn [w_init w_node w_disk w_soup]; [by apply ainv_init| | |constructor].
  - intros n. constructor; cbn; try done. by constructor.
  - intros n. constructor; cbn; done.
Qed.

Lemma run_sim w w' s : sim w s → rtc (wstep ms timing) w w' → ∃ s', rtc astep s s' ∧ sim w' s'.
Proof.
  intros S R. revert s S. induction R as [w|w1 w2 w3 St _ IH]; intros s S; [by exists s|].
  destruct (wstep_sim w1 w2 s S St) as (s1 & R1 & S1). destruct (IH s1 S1) as (s2 & R2 & S2). exists s2. split; [by etrans|exact S2].
Qed.

(** What a node holds at a position, in the whole log. *)
Lemma node_holds s n r (i : Z) e : ainv s → node_ok s n r → entry_at r i = Some e → rf_base r <= i ∧ a_log s n !! Z.to_nat i = Some e.
Proof.
  intros I N He. pose proof (no_base _ _ _ N). destruct (Z.lt_ge_cases i (rf_base r)) as [Hi|Hi].
  - by rewrite (node_entry_below r i Hi) in He.
  - rewrite (node_entry_at r (a_log s n)) in He by (first [lia|apply N]). by split.
Qed.
End net.
