(* ===== verification/RaftSpec.v ===== *)
(** What the agreement promises (crates/big-cluster/src/raft.rs driven by
    crates/big-cluster/src/controller.rs): one leader to a term, one decision to a position of the
    log, and nothing promised that a restart forgets.

    The runs are those of RaftNet.v: any interleaving of turns and restarts, over a network that may
    lose, delay, repeat and reorder. *)
From S2P Require Import Prelude Bits RangeMap Raft Controller Consensus RaftNode RaftNet.

Section promises.
Context (ms : list Member) (timing : Timing).
(** There are no learners: who is reachable votes. *)
Definition all_vote (ms : list Member) : Prop := ∀ (i : nat) m, ms !! i = Some m → reachable m = true → member_votes m = true.
Definition all_vote_b (ms : list Member) : bool := forallb (λ m, negb (reachable m) || member_votes m) ms.

Lemma all_vote_ok : all_vote_b ms = true → all_vote ms.
Proof.
  intros H i m Hm Hr. apply list_elem_of_lookup_2, list_elem_of_In in Hm. pose proof (proj1 (forallb_forall _ _) H m Hm) as Hx. cbn in Hx. by rewrite Hr in Hx.
Qed.

(** The worlds a cluster with members [ms] can be in. *)
Definition cluster_run : World → World → Prop := rtc (wstep ms timing).
Definition reachable_world (w : World) : Prop := cluster_run (w_init ms timing) w.
End promises.

(** C8.  The code refines the rules.  In a cluster whose members all vote and do not change, every run -
    turns of nodes in any order, with any clock and any proposal of the turn's own, any message ever sent
    delivered any number of times, restarts from the file at any moment - is a run of the abstract rules
    of agreement, node for node: same term, same vote, same role, same log, same commit index, and every
    file and every message in the network accounted for.  The runs leave out three things: the delivery of
    a snapshot that would be installed, proposals to change the membership, and proposals made from
    outside the turn, whose output the controller drops. *)
Theorem raft_refines_rules ms timing w :
  all_vote ms → reachable_world ms timing w →
  ∃ s, rtc (astep e_term (V ms)) (a_init nil_entry) s ∧ sim ms w s.
Proof. intros Hms R. exact (run_sim ms timing Hms _ w _ (sim_init ms timing) R). Qed.

(** C9.  One leader to a term: two nodes that lead in the same term, at one moment of a run, are the same
    node.  The cluster has no learners, and the runs are those of RaftNet.v: no snapshot is installed, the
    membership is not changed and nothing is proposed from outside the turn. *)
Theorem raft_one_leader ms timing w n n' :
  all_vote ms → reachable_world ms timing w →
  rf_role (w_node w n) = Leader → rf_role (w_node w n') = Leader → rf_term (w_node w n) = rf_term (w_node w n') → n = n'.
Proof.
  intros Hms R L L' Et. destruct (run_sim ms timing Hms _ w _ (sim_init ms timing) R) as (s & _ & [I N _ _]).
  apply (leaders_agree _ _ _ s I).
  - by rewrite (no_role _ _ _ _ (N n)), L.
  - by rewrite (no_role _ _ _ _ (N n')), L'.
  - by rewrite <- (no_term _ _ _ _ (N n)), <- (no_term _ _ _ _ (N n')).
Qed.

(** C7.  One decision to a position: what a node holds at a committed position of its log, at one moment
    of a run, is what every node holds there once that node has it committed, then or at any later
    moment, across elections, lost messages and restarts.  The cluster has no learners, and the runs are
    those of RaftNet.v: no snapshot is installed, the membership is not changed and nothing is proposed from
    outside the turn. *)
Theorem raft_agreement ms timing w w' n n' k e e' :
  all_vote ms → reachable_world ms timing w → cluster_run ms timing w w' →
  entry_at (w_node w n) k = Some e → k <= rf_commit (w_node w n) →
  entry_at (w_node w' n') k = Some e' → k <= rf_commit (w_node w' n') → e = e'.
Proof.
  intros Hms R R' He Hk He' Hk'. destruct (run_sim ms timing Hms _ w _ (sim_init ms timing) R) as (s & _ & S).
  destruct (run_sim ms timing Hms w w' s S R') as (s' & Rs & S').
  destruct (node_holds ms s n _ k e (si_inv _ _ _ S) (si_node _ _ _ S n) He) as [Hb H].
  destruct (node_holds ms s' n' _ k e' (si_inv _ _ _ S') (si_node _ _ _ S' n') He') as [_ H'].
  rewrite (no_commit _ _ _ _ (si_node _ _ _ S n)) in Hk. rewrite (no_commit _ _ _ _ (si_node _ _ _ S' n')) in Hk'.
  destruct (agreement e_term nil_entry _ eq_refl s s' n n' (Z.to_nat k) (si_inv _ _ _ S) Rs) as [E _]; [lia|lia|]. congruence.
Qed.

(** A leader has everything that was decided before it: what a node holds at a committed position
    is in the log of whoever leads later in the same or a later term, unless the leader has compacted
    the position away. *)
Theorem raft_leader_complete ms timing w w' n n' k e :
  all_vote ms → reachable_world ms timing w → cluster_run ms timing w w' →
  entry_at (w_node w n) k = Some e → k <= rf_commit (w_node w n) →
  rf_role (w_node w' n') = Leader → rf_term (w_node w n) <= rf_term (w_node w' n') → rf_base (w_node w' n') <= k →
  entry_at (w_node w' n') k = Some e.
Proof.
  intros Hms R R' He Hk L Ht Hb'. destruct (run_sim ms timing Hms _ w _ (sim_init ms timing) R) as (s & _ & S).
  destruct (run_sim ms timing Hms w w' s S R') as (s' & Rs & S').
  destruct (node_holds ms s n _ k e (si_inv _ _ _ S) (si_node _ _ _ S n) He) as [Hb H].
  rewrite (no_commit _ _ _ _ (si_node _ _ _ S n)) in Hk. pose proof (si_node _ _ _ S' n') as N'.
  assert (L' : a_role s' n' = ALeader) by (rewrite (no_role _ _ _ _ N'), L; done).
  destruct (i_lead _ _ _ _ (si_inv _ _ _ S') n' L') as (H1 & (l & Hel) & Ell).
  pose proof (decided_run _ nil_entry _ eq_refl _ _ _ _ _ (si_inv _ _ _ S) Rs (i_commit _ _ _ _ (si_inv _ _ _ S) n)) as D.
  rewrite (no_term _ _ _ _ (si_node _ _ _ S n)), (no_term _ _ _ _ N') in Ht.
  pose proof (decided_llog _ nil_entry _ eq_refl s' (si_inv _ _ _ S') _ _ _ _ _ _ D Ht H1 Hel (i_head _ _ _ _ (si_inv _ _ _ S) n)) as P.
  rewrite <- Ell in P. pose proof (no_base _ _ _ _ N'). rewrite (node_entry_at _ (a_log s' n')) by (first [lia|apply N']).
  eapply prefix_lookup_Some; [|exact P]. rewrite lookup_take_lt by lia. exact H.
Qed.

(** A restart forgets nothing a node has promised: whatever happened before, the node that comes
    back from its file has the term and the vote it had, a log that ends where it ended and holds the
    same entries, and it knows of no more committed positions than it did. *)
Theorem raft_restart_keeps ms timing w n now :
  all_vote ms → reachable_world ms timing w →
  let r := w_node w n in
  let r' := restore (raft_new n ms timing now) (w_disk w n) in
  rf_term r' = rf_term r ∧ rf_voted_for r' = rf_voted_for r ∧ last_index r' = last_index r ∧ rf_commit r' <= rf_commit r ∧
  rf_role r' = Follower ∧ (∀ k e e', entry_at r k = Some e → entry_at r' k = Some e' → e = e').
Proof.
  intros Hms R. cbn zeta. set (r := w_node w n). set (r' := restore _ _). destruct (run_sim ms timing Hms _ w _ (sim_init ms timing) R) as (s & _ & S).
  destruct (restart_sim ms timing w s n now S) as (s' & (E & (Et & Ev & El & Ec) & _) & N'). pose proof (si_node _ _ _ S n) as N.
  pose proof (node_len _ _ _ _ (si_inv _ _ _ S) N). pose proof (node_len _ _ _ _ (ev_inv _ _ _ _ E) N').
  fold r in N, H. fold r' in N', H0.
  pose proof (no_base _ _ _ _ N). pose proof (no_base _ _ _ _ N').
  split; [by rewrite (no_term _ _ _ _ N), (no_term _ _ _ _ N'), Et|]. split; [by rewrite (no_vote _ _ _ _ N), (no_vote _ _ _ _ N'), Ev|].
  pose proof (node_last_index r (a_log s n) ltac:(lia) ltac:(lia) (no_log _ _ _ _ N)) as L.
  pose proof (node_last_index r' (a_log s' n) ltac:(lia) ltac:(lia) (no_log _ _ _ _ N')) as L'. split; [rewrite L, L', El; done|].
  split; [rewrite (no_commit _ _ _ _ N), (no_commit _ _ _ _ N'); lia|].
  split; [unfold r', restore; destruct (bool_decide _), (bool_decide _); done|].
  intros k e e' He He'. apply (node_holds ms s n _ k e (si_inv _ _ _ S) N) in He as [_ He].
  apply (node_holds ms s' n _ k e' (ev_inv _ _ _ _ E) N') in He' as [_ He']. rewrite El in He'. congruence.
Qed.

(** Every map and every membership in the log has been applied. *)
Definition all_applied (r : Raft) : Prop :=
  ∀ i e, entry_at r i = Some e → is_ranges (e_decision e) || is_members (e_decision e) = true → i <= rf_applied r.

Lemma anchor_position r want p : rposition want (rf_log r) = Some p → entry_at r (rf_base r + Z.of_nat p) = rf_log r !! p.
Proof.
  intros _. unfold entry_at. rewrite (proj2 (Z.ltb_ge _ _)) by lia. f_equal. lia.
Qed.

(** Compaction loses nothing that was decided.  When every map and every membership in the log
    has been applied, compacting leaves the state that a snapshot would carry, the end of the log, and
    every entry from the new base on as they were; and it drops only entries that every voter, and
    this node's own state, are at least [keep] past. *)
Theorem compact_keeps_state r keep :
  0 <= keep → 0 <= rf_base r → rf_base r <= rf_applied r + 1 → rf_applied r <= last_index r → all_applied r →
  let r' := compact r keep in
  applied_state r' = applied_state r ∧ last_index r' = last_index r ∧ (∀ i, rf_base r' <= i → entry_at r' i = entry_at r i) ∧ rf_base r <= rf_base r' ∧
  (rf_base r' = rf_base r ∨ rf_base r' + keep <= rf_applied r ∧ ∀ v, v ∈ rf_voters r → rf_base r' + keep <= default 0 (rf_matched r !! v)).
Proof.
  intros Hk Hb Hba Hal Happ. cbn zeta. unfold compact.
  destruct (negb (is_leader r)); [split_and!; auto; reflexivity|]. cbn zeta.
  destruct (Z.leb_spec (compact_target r keep) (rf_base r)) as [_|Hlt]; [split_and!; auto; reflexivity|].
  destruct (compact_target_spec r keep ltac:(lia)) as (Ha & Hv & Hra & Hma). set (t := compact_target r keep) in *.
  assert (Hlast : ∀ A want (get : Entry → option A) d, (∀ e, is_Some (get e) ↔ want (e_decision e) = true) → (∀ a, anchor r want = Some a → t <= a) →
    (∀ d, want d = true → is_ranges d || is_members d = true) →
    default d (last (omap get (take (Z.to_nat (rf_applied r + 1 - t)) (drop (Z.to_nat (t - rf_base r)) (rf_log r))))) =
    default d (last (omap get (take (Z.to_nat (rf_applied r + 1 - rf_base r)) (rf_log r))))).
  { intros A want get d Hget Hanc Hkind. replace (Z.to_nat (rf_applied r + 1 - t)) with (Z.to_nat (rf_applied r + 1 - rf_base r) - Z.to_nat (t - rf_base r))%nat by lia.
    apply (last_after_drop want); [exact Hget|lia|]. intros p Hp. specialize (Hanc (rf_base r + Z.of_nat p) ltac:(unfold anchor; by rewrite Hp)).
    pose proof (rposition_spec want (rf_log r)) as H. rewrite Hp in H. destruct H as (e & He & Hw).
    specialize (Happ (rf_base r + Z.of_nat p) e ltac:(by rewrite (anchor_position r want)) (Hkind _ Hw)). lia. }
  split; [|split; [|split; [|split]]].
  - unfold applied_state. rewrite !replay_exact. cbn [rf_base rf_applied rf_log set_base set_log rf_seed].
    rewrite (Hlast _ is_ranges), (Hlast _ is_members); [done|..]; try exact Hma; try exact Hra.
    1,3: intros e; unfold members_of, ranges_of; destruct (e_decision e); cbn; split; intros H; try done; by destruct H.
    all: intros []; done.
  - unfold last_index. cbn [rf_base rf_log set_base set_log]. unfold last_index in Hal. rewrite length_drop. lia.
  - intros i Hi. cbn [rf_base set_base] in Hi. unfold entry_at. cbn [rf_base rf_log set_base set_log]. rewrite !(proj2 (Z.ltb_ge _ _)) by lia. rewrite lookup_drop. f_equal. lia.
  - cbn. lia.
  - right. by split.
Qed.

(** A node's counters stay inside its log, in every state a cluster can be in: the log is never
    empty, the base is not past what is committed, what is committed is in the log, what was handed
    out was committed, a leader sends nobody anything from beyond its log - so none of the
    subtractions on these unsigned counters wraps - and an election is set between the shortest
    timeout and the shortest plus the spread. *)
Theorem raft_counters_in_bounds ms timing w n now :
  all_vote ms → reachable_world ms timing w →
  let r := w_node w n in
  rf_log r ≠ [] ∧ 0 <= rf_base r <= rf_commit r ∧ rf_commit r <= last_index r ∧ 0 <= rf_applied r <= rf_commit r ∧ 0 <= rf_term r ∧
  (rf_role r = Leader → ∀ p i, rf_next r !! p = Some i → 1 <= i <= last_index r + 1) ∧
  now + tm_election_min (rf_timing r) <= rf_election_at (reset_election r now) < now + tm_election_min (rf_timing r) + Z.max (tm_election_spread (rf_timing r)) 1.
Proof.
  intros Hms R. cbn zeta. set (r := w_node w n). destruct (run_sim ms timing Hms _ w _ (sim_init ms timing) R) as (s & _ & S).
  pose proof (si_node _ _ _ S n) as N. pose proof (node_len _ _ _ _ (si_inv _ _ _ S) N) as Hlen. fold r in N, Hlen.
  pose proof (commit_len _ _ _ _ (si_inv _ _ _ S) n) as Hc. pose proof (no_base _ _ _ _ N). pose proof (no_commit _ _ _ _ N).
  pose proof (node_last_index r (a_log s n) ltac:(lia) ltac:(lia) (no_log _ _ _ _ N)) as L.
  split; [rewrite (no_log _ _ _ _ N); intros E; apply (f_equal length) in E; rewrite length_drop in E; cbn in E; lia|].
  split; [done|]. split; [lia|]. split; [exact (no_applied _ _ _ _ N)|].
  split; [rewrite (no_term _ _ _ _ N); by destruct (i_zero _ _ _ _ (si_inv _ _ _ S)) as (_ & _ & H' & _)|].
  split; [intros Hr p i Hp; rewrite L; pose proof (no_next _ _ _ _ N Hr p i Hp); lia|].
  cbn [reset_election rf_election_at set_election_at]. unfold timeout.
  match goal with |- context [?h mod Z.max ?sp 1] => pose proof (Z.mod_pos_bound h (Z.max sp 1) ltac:(lia)) end. lia.
Qed.

(** * A cluster of three *)
Module Trio.
Definition members : list Member := [mkMember [97] [] Voter; mkMember [98] [] Voter; mkMember [99] [] Voter].

(** A turn that takes the [i]th message of the network. *)
Definition turn_at (w : World) (n : nat) (i : option nat) (now : Z) : World :=
  settle w n (turn (w_node w n) (i ≫= λ i, snd <$> w_soup w !! i) (λ _, None) now).
Definition addressed (w : World) (n : nat) (i : option nat) : bool :=
  match i with
  | None => true
  | Some i => match w_soup w !! i with Some (d, m) => bool_decide (d = n) && negb (installs (w_node w n) m) | None => false end
  end.

Lemma turn_at_step ms timing w n i now : addressed w n i = true → wstep ms timing w (turn_at w n i now).
Proof.
  intros Ha. apply w_turn; [|done]. intros m Hm. destruct i as [i|]; [|done]. cbn in Hm, Ha. destruct (w_soup w !! i) as [[d m']|] eqn:Ei; [|done].
  cbn in Hm. injection Hm as ->. apply andb_true_iff in Ha as [->%bool_decide_eq_true Hi%negb_true_iff]. split; [by eapply list_elem_of_lookup_2|exact Hi].
Qed.

(** Node 0 stands, node 1 votes, node 0 leads, node 1 appends, node 0 commits and says so, node 1
    learns it. *)
Definition w0 : World := w_init members default_timing.
Definition w1 : World := turn_at w0 0 None 10000.
Definition w2 : World := turn_at w1 1 (Some 0%nat) 100.
Definition w3 : World := turn_at w2 0 (Some 0%nat) 10001.
Definition w4 : World := turn_at w3 1 (Some 0%nat) 200.
Definition w5 : World := turn_at w4 0 (Some 0%nat) 10002.
Definition w6 : World := turn_at w5 0 None 10500.
Definition w7 : World := turn_at w6 1 (Some 0%nat) 300.

Lemma run_6 : reachable_world members default_timing w6.
Proof. unfold reachable_world, cluster_run, w6, w5, w4, w3, w2, w1. repeat (eapply rtc_r; [|apply turn_at_step; vm_compute; reflexivity]). apply rtc_refl. Qed.
Lemma run_7 : cluster_run members default_timing w6 w7.
Proof. unfold cluster_run, w7. eapply rtc_r; [apply rtc_refl|apply turn_at_step; vm_compute; reflexivity]. Qed.
End Trio.

Lemma trio_votes : all_vote Trio.members. Proof. by apply all_vote_ok. Qed.

Lemma raft_refines_rules_witness : ∃ s, rtc (astep e_term (V Trio.members)) (a_init nil_entry) s ∧ sim Trio.members Trio.w6 s.
Proof. exact (raft_refines_rules Trio.members default_timing Trio.w6 trio_votes Trio.run_6). Defined.

Lemma raft_one_leader_witness : rf_role (w_node Trio.w6 0) = Leader ∧ (0 = 0)%nat.
Proof.
  split; [by vm_compute|].
  apply (raft_one_leader Trio.members default_timing Trio.w6 0 0 trio_votes Trio.run_6); by vm_compute.
Defined.

Lemma raft_agreement_witness : entry_at (w_node Trio.w6 0) 1 = Some (mkEntry 1 Noop) ∧ mkEntry 1 Noop = mkEntry 1 Noop.
Proof.
  split; [by vm_compute|].
  apply (raft_agreement Trio.members default_timing Trio.w6 Trio.w7 0 1 1 (mkEntry 1 Noop) (mkEntry 1 Noop) trio_votes Trio.run_6 Trio.run_7); by vm_compute.
Defined.

Lemma raft_leader_complete_witness : entry_at (w_node Trio.w7 0) 1 = Some (mkEntry 1 Noop).
Proof.
  apply (raft_leader_complete Trio.members default_timing Trio.w6 Trio.w7 0 0 1 (mkEntry 1 Noop) trio_votes Trio.run_6 Trio.run_7); by vm_compute.
Defined.

Lemma raft_restart_keeps_witness :
  rf_term (w_node Trio.w6 1) = 1 ∧ rf_term (restore (raft_new 1 Trio.members default_timing 20000) (w_disk Trio.w6 1)) = rf_term (w_node Trio.w6 1).
Proof.
  split; [by vm_compute|]. destruct (raft_restart_keeps Trio.members default_timing Trio.w6 1 20000 trio_votes Trio.run_6) as (H & _). exact H.
Defined.

Lemma raft_counters_in_bounds_witness : rf_commit (w_node Trio.w6 0) = 1 ∧ rf_commit (w_node Trio.w6 0) <= last_index (w_node Trio.w6 0).
Proof.
  split; [by vm_compute|]. destruct (raft_counters_in_bounds Trio.members default_timing Trio.w6 0 0 trio_votes Trio.run_6) as (_ & _ & H & _). exact H.
Defined.

(** A leader whose followers hold everything, and which keeps two entries. *)
Module Full.
Definition a_map : RangeMap := mkRangeMap 3 [mkRange 0 (mkShards 0 None) [0]%nat 0%nat None] [] 0%nat [] true.
Definition node : Raft :=
  let r := set_role (set_term (raft_new 0 Trio.members default_timing 0) 1) Leader in
  let r := set_log r (mkEntry 0 Noop :: mkEntry 1 Noop :: mkEntry 1 Noop :: mkEntry 1 (Ranges a_map) :: repeat (mkEntry 1 Noop) 4) in
  set_matched (set_applied (set_commit r 7) 7) (<[0%nat := 7]> (<[1%nat := 7]> (<[2%nat := 6]> ∅))).
End Full.

Lemma compact_keeps_state_witness : rf_base (compact Full.node 2) = 3 ∧ applied_state (compact Full.node 2) = applied_state Full.node.
Proof.
  split; [by vm_compute|]. apply (compact_keeps_state Full.node 2); [by vm_compute..|].
  intros i e He _. unfold entry_at in He. destruct (i <? rf_base Full.node); [done|]. apply lookup_lt_Some in He. change (rf_applied Full.node) with 7.
  change (length (rf_log Full.node)) with 8%nat in He. change (rf_base Full.node) with 0 in He. lia.
Defined.
