(* ===== verification/RaftState.v ===== *)
(** The file an agreement's node comes back from (crates/big-cluster/src/raft.rs, [encode_state] and
    [decode_state]).

    The cursor [Bytes] of the source is a slice and an offset; here it is the bytes that are left,
    and a reader is a function from them to a value and what is left after it, or to the reason it
    refused. *)
From S2P Require Import Prelude Bits RangeMap Raft.

(** The refusals, by their texts. *)
Inductive DecodeError :=
| Truncated | CountTooLarge | NotUtf8 | UnknownMove | UnknownMember | UnknownDecision | NotARaftState | BytesAfterTheEnd.

Definition Reader (A : Type) : Type := list Z → Res DecodeError (A * list Z).
Definition ret {A} (a : A) : Reader A := λ bs, Ok (a, bs).
Definition fail {A} (e : DecodeError) : Reader A := λ _, Err e.
Definition andThen {A B} (p : Reader A) (f : A → Reader B) : Reader B := λ bs,
  match p bs with Ok (a, rest) => f a rest | Err e => Err e | Panic => Panic end.

Declare Scope reader_scope.
Delimit Scope reader_scope with reader.
Notation "x <- p ;; q" := (andThen p (λ x, q)) (at level 100, p at next level, right associativity) : reader_scope.
Open Scope reader_scope.

(** * Reading *)
Definition get_u64 : Reader Z := λ bs, if (length bs <? 8)%nat then Err Truncated else Ok (of_le (take 8 bs), drop 8 bs).
Definition get_byte : Reader Z := λ bs, match bs with b :: bs' => Ok (b, bs') | [] => Err Truncated end.
Definition get_opt_u64 : Reader (option Z) := v <- get_u64;; ret (if v =? u64_max then None else Some v).
Definition get_node : Reader NodeId := v <- get_u64;; ret (Z.to_nat v).

(** A count, refused when fewer bytes than that are left. *)
Definition get_count : Reader nat := λ bs,
  match get_u64 bs with
  | Ok (n, rest) => if Z.of_nat (length rest) <? n then Err CountTooLarge else Ok (Z.to_nat n, rest)
  | Err e => Err e
  | Panic => Panic
  end.

Fixpoint get_n {A} (n : nat) (p : Reader A) : Reader (list A) :=
  match n with O => ret [] | S n' => a <- p;; l <- get_n n' p;; ret (a :: l) end.
Definition get_list {A} (p : Reader A) : Reader (list A) := n <- get_count;; get_n n p.

(** [core::str::from_utf8]: the well-formed sequences. *)
Definition between (lo x hi : Z) : bool := (lo <=? x) && (x <=? hi).
Definition cont (x : Z) : bool := between 0x80 x 0xBF.
Fixpoint utf8 (l : list Z) : bool :=
  match l with
  | [] => true
  | a :: l1 =>
      if between 0 a 0x7F then utf8 l1
      else match l1 with
      | [] => false
      | b :: l2 =>
          if between 0xC2 a 0xDF then cont b && utf8 l2
          else match l2 with
          | [] => false
          | c :: l3 =>
              if a =? 0xE0 then between 0xA0 b 0xBF && cont c && utf8 l3
              else if a =? 0xED then between 0x80 b 0x9F && cont c && utf8 l3
              else if between 0xE1 a 0xEF then cont b && cont c && utf8 l3
              else match l3 with
              | [] => false
              | d :: l4 =>
                  if a =? 0xF0 then between 0x90 b 0xBF && cont c && cont d && utf8 l4
                  else if between 0xF1 a 0xF3 then cont b && cont c && cont d && utf8 l4
                  else if a =? 0xF4 then between 0x80 b 0x8F && cont c && cont d && utf8 l4
                  else false
              end
          end
      end
  end.

Definition get_str : Reader Str :=
  n <- get_count;;
  λ bs, if (length bs <? n)%nat then Err Truncated else if utf8 (take n bs) then Ok (take n bs, drop n bs) else Err NotUtf8.

Definition get_move : Reader (option Move) :=
  k <- get_byte;;
  if k =? 0 then ret None
  else if k =? 1 then t <- get_node;; ret (Some (mkMove t Seeding))
  else if k =? 2 then t <- get_node;; ret (Some (mkMove t Cutover))
  else fail UnknownMove.

Definition get_range : Reader Range :=
  id <- get_u64;; start <- get_u64;; end_ <- get_opt_u64;; primary <- get_node;; group <- get_list get_node;; moving <- get_move;;
  ret (mkRange id (mkShards start end_) group primary moving).

Definition get_reserved : Reader (Str * Z) := t <- get_str;; u <- get_u64;; ret (t, u).

Definition get_range_map (reservations : bool) : Reader RangeMap :=
  epoch <- get_u64;; schema_leader <- get_node;; ranges <- get_list get_range;; stale <- get_list get_node;;
  if reservations then
    reserved <- get_list get_reserved;; ready <- get_byte;;
    ret (mkRangeMap epoch ranges stale schema_leader reserved (negb (ready =? 0)))
  else ret (mkRangeMap epoch ranges stale schema_leader [] true).

Definition get_member : Reader Member :=
  name <- get_str;; addr <- get_str;; k <- get_byte;;
  if k =? 0 then ret (mkMember name addr Learner)
  else if k =? 1 then ret (mkMember name addr Voter)
  else if k =? 2 then ret (mkMember name addr Draining)
  else if k =? 3 then ret (mkMember name addr Gone)
  else fail UnknownMember.
Definition get_members : Reader (list Member) := get_list get_member.

Definition get_entry (carries_seed : bool) : Reader Entry :=
  term <- get_u64;; k <- get_byte;;
  if k =? 0 then ret (mkEntry term Noop)
  else if k =? 1 then m <- get_range_map carries_seed;; ret (mkEntry term (Ranges m))
  else if k =? 2 then ms <- get_members;; ret (mkEntry term (Members ms))
  else fail UnknownDecision.

Definition get_state (carries_seed : bool) : Reader State :=
  term <- get_u64;; voted <- get_u64;; commit <- get_u64;; base <- get_u64;; log <- get_list (get_entry carries_seed);;
  seed <- (if carries_seed then get_members else ret []);;
  ret (mkState term (if voted =? u64_max then None else Some (Z.to_nat voted)) commit base log seed).

(** ["BIGRAFT3"], ["BIGRAFT2"]. *)
Definition RAFT_MAGIC : list Z := [66; 73; 71; 82; 65; 70; 84; 51].
Definition PREVIOUS : list Z := [66; 73; 71; 82; 65; 70; 84; 50].

Definition decode_state (bytes : list Z) : Res DecodeError State :=
  let body carries_seed :=
    match get_state carries_seed (drop 8 bytes) with
    | Ok (s, rest) => if bool_decide (rest = []) then Ok s else Err BytesAfterTheEnd
    | Err e => Err e
    | Panic => Panic
    end in
  if (length bytes <? 8)%nat then Err NotARaftState
  else if bool_decide (take 8 bytes = RAFT_MAGIC) then body true
  else if bool_decide (take 8 bytes = PREVIOUS) then body false
  else Err NotARaftState.

(** * Writing *)
Definition put_u64 (v : Z) : list Z := le_bytes 8 v.
Definition put_node (n : NodeId) : list Z := put_u64 (Z.of_nat n).
Definition put_list {A} (put : A → list Z) (l : list A) : list Z := put_u64 (Z.of_nat (length l)) ++ concat (map put l).
Definition put_str (s : Str) : list Z := put_u64 (Z.of_nat (length s)) ++ s.
Definition put_opt_u64 (v : option Z) : list Z := put_u64 (default u64_max v).

Definition put_move (m : option Move) : list Z :=
  match m with
  | None => [0]
  | Some mv => (match mv_state mv with Seeding => 1 | Cutover => 2 end) :: put_node (mv_target mv)
  end.
Definition put_range (r : Range) : list Z :=
  put_u64 (r_id r) ++ put_u64 (sr_start (r_shards r)) ++ put_opt_u64 (sr_end (r_shards r)) ++ put_node (r_primary r) ++
  put_list put_node (r_group r) ++ put_move (r_moving r).
Definition put_reserved (e : Str * Z) : list Z := put_str (fst e) ++ put_u64 (snd e).
Definition put_range_map (m : RangeMap) : list Z :=
  put_u64 (rm_epoch m) ++ put_node (rm_schema_leader m) ++ put_list put_range (rm_ranges m) ++ put_list put_node (rm_stale m) ++
  put_list put_reserved (rm_reserved m) ++ [Z.b2z (rm_schema_ready m)].
Definition put_member (m : Member) : list Z :=
  put_str (m_name m) ++ put_str (m_addr m) ++ [match m_state m with Learner => 0 | Voter => 1 | Draining => 2 | Gone => 3 end].
Definition put_members (ms : list Member) : list Z := put_list put_member ms.
Definition put_decision (d : Decision) : list Z :=
  match d with Noop => [0] | Ranges m => 1 :: put_range_map m | Members ms => 2 :: put_members ms end.
Definition put_entry (e : Entry) : list Z := put_u64 (e_term e) ++ put_decision (e_decision e).

Definition encode_state (s : State) : list Z :=
  RAFT_MAGIC ++ put_u64 (st_term s) ++ put_u64 (match st_voted_for s with Some v => Z.of_nat v | None => u64_max end) ++ put_u64 (st_commit s) ++
  put_u64 (st_base s) ++ put_list put_entry (st_log s) ++ put_members (st_seed s).

(** * What a reader reads *)

(** [p] reads [bs] as [a], whatever follows. *)
Definition reads {A} (p : Reader A) (bs : list Z) (a : A) : Prop := ∀ rest, p (bs ++ rest) = Ok (a, rest).

(** What [p] read of some bytes it reads of longer ones. *)
Definition extends {A} (p : Reader A) : Prop := ∀ bs a rest, p bs = Ok (a, rest) → ∀ more, p (bs ++ more) = Ok (a, rest ++ more).

Create HintDb reader.

Lemma reads_ret {A} (a : A) : reads (ret a) [] a. Proof. done. Qed.
Lemma reads_then {A B} (p : Reader A) (f : A → Reader B) bs bs' a b : reads p bs a → reads (f a) bs' b → reads (andThen p f) (bs ++ bs') b.
Proof. intros Hp Hf rest. unfold andThen. rewrite <- app_assoc, Hp. apply Hf. Qed.

Lemma reads_last {A B} (p : Reader A) (f : A → B) bs a : reads p bs a → reads (x <- p;; ret (f x)) bs (f a).
Proof. intros Hp rest. unfold andThen. by rewrite Hp. Qed.

Lemma extends_ret {A} (a : A) : extends (ret a). Proof. by intros bs b rest [= -> ->] more. Qed.
Lemma extends_fail {A} e : extends (@fail A e). Proof. done. Qed.
Lemma extends_then {A B} (p : Reader A) (f : A → Reader B) : extends p → (∀ a, extends (f a)) → extends (andThen p f).
Proof.
  intros Hp Hf bs b rest H more. unfold andThen in *. destruct (p bs) as [[a r]|e|] eqn:E; [|done|done].
  rewrite (Hp _ _ _ E). by apply Hf.
Qed.
#[export] Hint Resolve extends_ret extends_fail extends_then : reader.

Lemma reads_u64 v : 0 <= v < 2 ^ 64 → reads get_u64 (put_u64 v) v.
Proof.
  intros Hv rest. unfold get_u64, put_u64. pose proof (length_le_bytes 8 v) as L.
  rewrite (proj2 (Nat.ltb_ge _ _)) by (rewrite length_app; lia).
  rewrite take_app_length' by done. rewrite drop_app_length' by done. rewrite of_le_le_bytes; [done|]. by change (256 ^ Z.of_nat 8) with (2 ^ 64).
Qed.
Lemma extends_u64 : extends get_u64.
Proof.
  intros bs a rest H more. unfold get_u64 in *. destruct (Nat.ltb_spec (length bs) 8); [done|]. injection H as <- <-.
  rewrite (proj2 (Nat.ltb_ge _ _)) by (rewrite length_app; lia). rewrite take_app_le, drop_app_le by lia. done.
Qed.
Lemma reads_byte b : reads get_byte [b] b. Proof. done. Qed.
Lemma extends_byte : extends get_byte. Proof. intros [|b bs] a rest; [done|]. by intros [= -> ->]. Qed.
#[export] Hint Resolve extends_u64 extends_byte : reader.

Definition node_fits (n : NodeId) : Prop := Z.of_nat n < u64_max.
Lemma reads_node n : node_fits n → reads get_node (put_node n) n.
Proof.
  intros Hn. unfold node_fits, u64_max in Hn. unfold get_node, put_node. replace n with (Z.to_nat (Z.of_nat n)) at 2 by lia.
  apply (reads_last get_u64 Z.to_nat), reads_u64. lia.
Qed.
Lemma extends_node : extends get_node. Proof. unfold get_node. auto with reader. Qed.

Definition opt_fits (v : option Z) : Prop := match v with Some x => 0 <= x < u64_max | None => True end.
Lemma reads_opt_u64 v : opt_fits v → reads get_opt_u64 (put_opt_u64 v) v.
Proof.
  intros Hv. unfold get_opt_u64, put_opt_u64. set (f := λ x, if x =? u64_max then None else Some x).
  replace v with (f (default u64_max v)) at 2.
  - apply (reads_last get_u64 f), reads_u64. destruct v as [x|]; cbn in *; unfold u64_max in *; lia.
  - unfold f. destruct v as [x|]; cbn in *; [|done]. by rewrite (proj2 (Z.eqb_neq _ _)) by lia.
Qed.
Lemma extends_opt_u64 : extends get_opt_u64. Proof. unfold get_opt_u64. auto with reader. Qed.
#[export] Hint Resolve extends_node extends_opt_u64 : reader.

Lemma count_reads n rest : Z.of_nat n < 2 ^ 64 → (n <= length rest)%nat → get_count (put_u64 (Z.of_nat n) ++ rest) = Ok (n, rest).
Proof.
  intros Hn Hl. unfold get_count. rewrite (reads_u64 (Z.of_nat n)) by lia. rewrite (proj2 (Z.ltb_ge _ _)) by lia. by rewrite Nat2Z.id.
Qed.
Lemma extends_count : extends get_count.
Proof.
  intros bs a rest H more. unfold get_count in *. destruct (get_u64 bs) as [[n r]|e|] eqn:E; [|done|done]. rewrite (extends_u64 _ _ _ E).
  destruct (Z.ltb_spec (Z.of_nat (length r)) n); [done|]. injection H as <- <-. rewrite (proj2 (Z.ltb_ge _ _)) by (rewrite length_app; lia). done.
Qed.
#[export] Hint Resolve extends_count : reader.

Lemma extends_n {A} (p : Reader A) n : extends p → extends (get_n n p).
Proof. intros Hp. induction n as [|n IH]; cbn [get_n]; auto with reader. Qed.
Lemma extends_list {A} (p : Reader A) : extends p → extends (get_list p).
Proof. intros Hp. unfold get_list. apply extends_then; [auto with reader|]. intros n. by apply extends_n. Qed.
#[export] Hint Resolve extends_list : reader.

(** A list of things that are read back, each of at least a byte. *)
Definition length_fits {A} (l : list A) : Prop := Z.of_nat (length l) < 2 ^ 64.
Lemma reads_list {A} (p : Reader A) (put : A → list Z) l :
  length_fits l → Forall (λ a, reads p (put a) a ∧ put a ≠ []) l → reads (get_list p) (put_list put l) l.
Proof.
  intros Hl F rest. unfold get_list, put_list, andThen. rewrite <- app_assoc.
  rewrite count_reads; [|exact Hl|].
  - clear Hl. revert rest. induction F as [|a l [Ha _] F IH]; intros rest; [done|]. cbn [length get_n map concat]. unfold andThen.
    rewrite <- app_assoc, Ha, IH. done.
  - rewrite length_app. apply Nat.le_trans with (length (concat (map put l))); [|lia]. clear Hl.
    induction F as [|a l [_ Ha] F IH]; cbn; [done|]. rewrite length_app. destruct (put a); [done|]. cbn. lia.
Qed.

Definition str_fits (s : Str) : Prop := length_fits s ∧ utf8 s = true.
Lemma reads_str s : str_fits s → reads get_str (put_str s) s.
Proof.
  intros [Hl Hu] rest. unfold get_str, put_str, andThen. rewrite <- app_assoc, count_reads; [|exact Hl|rewrite length_app; lia].
  rewrite (proj2 (Nat.ltb_ge _ _)) by (rewrite length_app; lia). rewrite take_app_length, drop_app_length, Hu. done.
Qed.
Lemma extends_str : extends get_str.
Proof.
  unfold get_str. apply extends_then; [auto with reader|]. intros n bs a rest H more. destruct (Nat.ltb_spec (length bs) n); [done|].
  rewrite (proj2 (Nat.ltb_ge _ _)) by (rewrite length_app; lia). rewrite take_app_le, drop_app_le by lia.
  destruct (utf8 (take n bs)); [|done]. by injection H as <- <-.
Qed.
#[export] Hint Resolve extends_str : reader.

Lemma extends_if {A} (b : bool) (p q : Reader A) : extends p → extends q → extends (if b then p else q).
Proof. by destruct b. Qed.
#[export] Hint Resolve extends_if : reader.

Lemma extends_move : extends get_move. Proof. unfold get_move. auto 10 with reader. Qed.
#[export] Hint Resolve extends_move : reader.
Lemma extends_range : extends get_range. Proof. unfold get_range. auto 20 with reader. Qed.
Lemma extends_reserved : extends get_reserved. Proof. unfold get_reserved. auto 10 with reader. Qed.
#[export] Hint Resolve extends_range extends_reserved : reader.
Lemma extends_range_map b : extends (get_range_map b). Proof. unfold get_range_map. auto 20 with reader. Qed.
Lemma extends_member : extends get_member. Proof. unfold get_member. auto 20 with reader. Qed.
#[export] Hint Resolve extends_range_map extends_member : reader.
Lemma extends_members : extends get_members. Proof. unfold get_members. auto with reader. Qed.
#[export] Hint Resolve extends_members : reader.
Lemma extends_entry b : extends (get_entry b). Proof. unfold get_entry. auto 20 with reader. Qed.
#[export] Hint Resolve extends_entry : reader.
Lemma extends_state b : extends (get_state b). Proof. unfold get_state. auto 20 with reader. Qed.

(** No bytes make a reader panic. *)
Definition total {A} (p : Reader A) : Prop := ∀ bs, no_panic (p bs).
Lemma total_ret {A} (a : A) : total (ret a). Proof. done. Qed.
Lemma total_fail {A} e : total (@fail A e). Proof. done. Qed.
Lemma total_then {A B} (p : Reader A) (f : A → Reader B) : total p → (∀ a, total (f a)) → total (andThen p f).
Proof. intros Hp Hf bs. unfold andThen. specialize (Hp bs). destruct (p bs) as [[a r]|e|]; [apply Hf|done|by destruct Hp]. Qed.
Lemma total_if {A} (b : bool) (p q : Reader A) : total p → total q → total (if b then p else q). Proof. by destruct b. Qed.
Lemma total_u64 : total get_u64. Proof. intros bs. unfold get_u64. by destruct (_ <? _)%nat. Qed.
Lemma total_byte : total get_byte. Proof. by intros []. Qed.
#[export] Hint Resolve total_ret total_fail total_then total_if total_u64 total_byte : reader.
Lemma total_count : total get_count.
Proof. intros bs. unfold get_count. pose proof (total_u64 bs) as H. destruct (get_u64 bs) as [[n r]|e|]; [by destruct (_ <? _)|done|by destruct H]. Qed.
Lemma total_n {A} (p : Reader A) n : total p → total (get_n n p).
Proof. intros Hp. induction n as [|n IH]; cbn [get_n]; auto with reader. Qed.
Lemma total_list {A} (p : Reader A) : total p → total (get_list p).
Proof. intros Hp. apply total_then; [exact total_count|]. intros n. by apply total_n. Qed.
Lemma total_str : total get_str.
Proof. apply total_then; [exact total_count|]. intros n bs. destruct (_ <? _)%nat; [done|]. by destruct (utf8 _). Qed.
#[export] Hint Resolve total_list total_str : reader.
Lemma total_node : total get_node. Proof. unfold get_node. auto with reader. Qed.
Lemma total_opt_u64 : total get_opt_u64. Proof. unfold get_opt_u64. auto with reader. Qed.
#[export] Hint Resolve total_node total_opt_u64 : reader.
Lemma total_move : total get_move. Proof. unfold get_move. auto 10 with reader. Qed.
#[export] Hint Resolve total_move : reader.
Lemma total_range : total get_range. Proof. unfold get_range. auto 20 with reader. Qed.
Lemma total_reserved : total get_reserved. Proof. unfold get_reserved. auto 10 with reader. Qed.
Lemma total_member : total get_member. Proof. unfold get_member. auto 20 with reader. Qed.
#[export] Hint Resolve total_range total_reserved total_member : reader.
Lemma total_range_map b : total (get_range_map b). Proof. unfold get_range_map. auto 20 with reader. Qed.
Lemma total_members : total get_members. Proof. unfold get_members. auto with reader. Qed.
#[export] Hint Resolve total_range_map total_members : reader.
Lemma total_entry b : total (get_entry b). Proof. unfold get_entry. auto 20 with reader. Qed.
#[export] Hint Resolve total_entry : reader.
Lemma total_state b : total (get_state b). Proof. unfold get_state. auto 20 with reader. Qed.

(** * States that fit the file *)
Definition u64_fits (v : Z) : Prop := 0 <= v < 2 ^ 64.
Definition range_fits (r : Range) : Prop :=
  u64_fits (r_id r) ∧ u64_fits (sr_start (r_shards r)) ∧ opt_fits (sr_end (r_shards r)) ∧ node_fits (r_primary r) ∧
  length_fits (r_group r) ∧ Forall node_fits (r_group r) ∧ match r_moving r with Some mv => node_fits (mv_target mv) | None => True end.
Definition reserved_fits (e : Str * Z) : Prop := str_fits (fst e) ∧ u64_fits (snd e).
Definition map_fits (m : RangeMap) : Prop :=
  u64_fits (rm_epoch m) ∧ node_fits (rm_schema_leader m) ∧ length_fits (rm_ranges m) ∧ Forall range_fits (rm_ranges m) ∧
  length_fits (rm_stale m) ∧ Forall node_fits (rm_stale m) ∧ length_fits (rm_reserved m) ∧ Forall reserved_fits (rm_reserved m).
Definition member_fits (m : Member) : Prop := str_fits (m_name m) ∧ str_fits (m_addr m).
Definition members_fit (ms : list Member) : Prop := length_fits ms ∧ Forall member_fits ms.
Definition entry_fits (e : Entry) : Prop :=
  u64_fits (e_term e) ∧ match e_decision e with Noop => True | Ranges m => map_fits m | Members ms => members_fit ms end.
Definition state_fits (s : State) : Prop :=
  u64_fits (st_term s) ∧ match st_voted_for s with Some v => node_fits v | None => True end ∧ u64_fits (st_commit s) ∧ u64_fits (st_base s) ∧
  length_fits (st_log s) ∧ Forall entry_fits (st_log s) ∧ members_fit (st_seed s).

Lemma put_u64_ne v (rest : list Z) : put_u64 v ++ rest ≠ [].
Proof. intros H%(f_equal length). rewrite length_app in H. unfold put_u64 in H. rewrite length_le_bytes in H. cbn in H. lia. Qed.

Lemma reads_nodes l : length_fits l → Forall node_fits l → reads (get_list get_node) (put_list put_node l) l.
Proof.
  intros Hl F. apply reads_list; [exact Hl|]. eapply Forall_impl; [exact F|]. intros n Hn. split; [by apply reads_node|].
  rewrite <- (app_nil_r (put_node n)). apply put_u64_ne.
Qed.

Lemma reads_move m : match m with Some mv => node_fits (mv_target mv) | None => True end → reads get_move (put_move m) m.
Proof.
  destruct m as [[t []]|]; cbn [put_move mv_state mv_target]; intros Hm; [..|done].
  all: refine (reads_then get_byte _ [_] _ _ _ (reads_byte _) _); cbn.
  - exact (reads_last get_node (λ t, Some (mkMove t Seeding)) _ t (reads_node t Hm)).
  - exact (reads_last get_node (λ t, Some (mkMove t Cutover)) _ t (reads_node t Hm)).
Qed.

Lemma reads_range r : range_fits r → reads get_range (put_range r) r.
Proof.
  destruct r as [id [start end_] group primary moving]. intros (H1 & H2 & H3 & H4 & H5 & H6 & H7). cbn in *. unfold get_range, put_range. cbn.
  eapply reads_then; [by apply reads_u64|]. eapply reads_then; [by apply reads_u64|]. eapply reads_then; [by apply reads_opt_u64|].
  eapply reads_then; [by apply reads_node|]. eapply reads_then; [by apply reads_nodes|].
  exact (reads_last get_move (mkRange id (mkShards start end_) group primary) _ moving (reads_move moving H7)).
Qed.

Lemma reads_reserved e : reserved_fits e → reads get_reserved (put_reserved e) e.
Proof.
  destruct e as [t u]. intros [H1 H2]. eapply reads_then; [by apply reads_str|]. exact (reads_last get_u64 (pair t) _ u (reads_u64 u H2)).
Qed.

Lemma reads_range_map m : map_fits m → reads (get_range_map true) (put_range_map m) m.
Proof.
  destruct m as [epoch ranges stale leader reserved ready]. intros (H1 & H2 & H3 & H4 & H5 & H6 & H7 & H8). cbn in *. unfold get_range_map, put_range_map. cbn.
  eapply reads_then; [by apply reads_u64|]. eapply reads_then; [by apply reads_node|]. eapply reads_then.
  { apply reads_list; [exact H3|]. eapply Forall_impl; [exact H4|]. intros r Hr. split; [by apply reads_range|apply put_u64_ne]. }
  eapply reads_then; [by apply reads_nodes|]. eapply reads_then.
  { apply reads_list; [exact H7|]. eapply Forall_impl; [exact H8|]. intros e He. split; [by apply reads_reserved|].
    unfold put_reserved, put_str. rewrite <- app_assoc. apply put_u64_ne. }
  intros rest. by destruct ready.
Qed.

Lemma reads_member m : member_fits m → reads get_member (put_member m) m.
Proof.
  destruct m as [name addr st]. intros [H1 H2]. cbn in *. unfold get_member, put_member. cbn.
  eapply reads_then; [by apply reads_str|]. eapply reads_then; [by apply reads_str|]. intros rest. by destruct st.
Qed.
Lemma reads_members ms : members_fit ms → reads get_members (put_members ms) ms.
Proof.
  intros [Hl F]. apply reads_list; [exact Hl|]. eapply Forall_impl; [exact F|]. intros m Hm. split; [by apply reads_member|].
  unfold put_member, put_str. rewrite <- app_assoc. apply put_u64_ne.
Qed.

Lemma reads_entry e : entry_fits e → reads (get_entry true) (put_entry e) e.
Proof.
  destruct e as [t d]. intros [H1 H2]. cbn in *. unfold get_entry, put_entry. cbn. eapply reads_then; [by apply reads_u64|].
  destruct d as [|m|ms]; cbn [put_decision]; [done|..]; refine (reads_then get_byte _ [_] _ _ _ (reads_byte _) _); cbn.
  - exact (reads_last (get_range_map true) (λ m, mkEntry t (Ranges m)) _ m (reads_range_map m H2)).
  - exact (reads_last get_members (λ ms, mkEntry t (Members ms)) _ ms (reads_members ms H2)).
Qed.

Lemma reads_state s : state_fits s → reads (get_state true) (drop 8 (encode_state s)) s.
Proof.
  destruct s as [t v c b log seed]. intros (H1 & H2 & H3 & H4 & H5 & H6 & H7). unfold encode_state. rewrite drop_app_length' by done. cbn in *. unfold get_state.
  set (vote := match v with Some v => Z.of_nat v | None => u64_max end).
  assert (Hv : 0 <= vote < 2 ^ 64 ∧ (if vote =? u64_max then None else Some (Z.to_nat vote)) = v).
  { unfold vote. destruct v as [n|]; [|done]. unfold node_fits, u64_max in *. rewrite (proj2 (Z.eqb_neq _ _)) by lia. rewrite Nat2Z.id. split; [lia|done]. }
  destruct Hv as [Hv Ev].
  eapply reads_then; [by apply reads_u64|]. eapply reads_then; [by apply reads_u64|]. eapply reads_then; [by apply reads_u64|].
  eapply reads_then; [by apply reads_u64|]. eapply reads_then.
  { apply reads_list; [exact H5|]. eapply Forall_impl; [exact H6|]. intros e He. split; [by apply reads_entry|apply put_u64_ne]. }
  rewrite <- Ev. exact (reads_last get_members (mkState t _ c b log) _ seed (reads_members seed H7)).
Qed.

(** The file of a node reads back: a saved state is decoded to the state it was; with anything
    after it the file is refused, and so is every file cut short of it - a state torn by a crash is
    never taken for an older or a smaller one. *)
Theorem raft_state_roundtrip s :
  state_fits s →
  decode_state (encode_state s) = Ok s ∧
  (∀ junk, junk ≠ [] → decode_state (encode_state s ++ junk) = Err BytesAfterTheEnd) ∧
  (∀ k, (k < length (encode_state s))%nat → ∃ e, decode_state (take k (encode_state s)) = Err e).
Proof.
  intros Hs. pose proof (reads_state s Hs) as R.
  assert (Hl : (8 <= length (encode_state s))%nat) by (unfold encode_state; rewrite length_app; cbn; lia).
  assert (Hm : take 8 (encode_state s) = RAFT_MAGIC) by (unfold encode_state; by rewrite take_app_length').
  assert (Hd : ∀ junk, decode_state (encode_state s ++ junk) = if bool_decide (junk = []) then Ok s else Err BytesAfterTheEnd).
  { intros junk. unfold decode_state. cbn zeta. rewrite (proj2 (Nat.ltb_ge _ _)) by (rewrite length_app; lia).
    rewrite take_app_le, drop_app_le, Hm, R by lia. done. }
  split; [|split].
  - rewrite <- (app_nil_r (encode_state s)), Hd. done.
  - intros junk Hj. rewrite Hd. by rewrite bool_decide_eq_false_2.
  - intros k Hk. unfold decode_state. cbn zeta. destruct (Nat.ltb_spec (length (take k (encode_state s))) 8) as [|Hk8]; [by eexists|].
    rewrite length_take in Hk8. rewrite take_take, Nat.min_l, Hm by lia. cbn [bool_decide]. rewrite bool_decide_eq_true_2 by done.
    destruct (get_state true (drop 8 (take k (encode_state s)))) as [[s' rest]|e|] eqn:E; [|by eexists|].
    + destruct rest as [|x rest]; [|by eexists]. exfalso. pose proof (extends_state true _ _ _ E (drop k (encode_state s))) as X.
      rewrite <- (drop_app_le (take k _) _ 8) in X by (rewrite length_take; lia). rewrite take_drop in X. cbn [app] in X.
      pose proof (R []) as R0. rewrite app_nil_r in R0. rewrite R0 in X. injection X as _ X.
      assert (Hz : length (drop k (encode_state s)) = 0%nat) by (by rewrite <- X). rewrite length_drop in Hz. lia.
    + exfalso. by apply (total_state true (drop 8 (take k (encode_state s)))).
Qed.

(** A state with one entry of each kind. *)
Module Saved.
Definition a_map : RangeMap :=
  mkRangeMap 3 [mkRange 0 (mkShards 0 (Some 8)) [0; 1]%nat 1%nat (Some (mkMove 2 Cutover)); mkRange 1 (mkShards 8 None) [2]%nat 2%nat None]
    [1]%nat 0%nat [([116; 195; 169], 40)] true.
Definition members : list Member := [mkMember [97] [49] Voter; mkMember [98] [] Learner].
Definition state : State := mkState 5 (Some 1%nat) 2 0 [mkEntry 0 Noop; mkEntry 4 (Ranges a_map); mkEntry 5 (Members members)] members.
End Saved.

Lemma saved_fits : state_fits Saved.state.
Proof. unfold state_fits. repeat match goal with |- _ ∧ _ => split | |- Forall _ _ => constructor end; try done; repeat split; cbn; try done; repeat constructor; try done. Qed.

Lemma raft_state_roundtrip_witness : decode_state (encode_state Saved.state) = Ok Saved.state.
Proof. destruct (raft_state_roundtrip Saved.state saved_fits) as (H & _). exact H. Defined.
