(* ===== verification/HazardsRaft.v ===== *)
(** Where the agreement does less than its comments say (crates/big-cluster/src/raft.rs and
    crates/big-cluster/src/controller.rs), each shown by a run that evaluates.

    A run here is a script: turns of nodes that take a message already in the network, proposals made
    by an operator through [propose_map], and restarts from the file.  Nothing is left out that the
    theorems of RaftSpec.v leave out: learners, proposals made outside the thread's turn, snapshots. *)
From S2P Require Import Prelude Bits RangeMap Raft Controller Consensus RaftNode RaftNet.

Inductive Action :=
| ATurn (n : nat) (i : option nat) (now : Z)
| AMap (n : nat) (current next : RangeMap)
| ARestart (n : nat) (now : Z).

Section scripts.
Context (ms : list Member) (timing : Timing).

(** A turn that takes the [i]th message of the network, if that is addressed to the node. *)
Definition act (w : World) (a : Action) : option World :=
  match a with
  | ATurn n None now => Some (settle w n (turn (w_node w n) None (λ _, None) now))
  | ATurn n (Some i) now =>
      match w_soup w !! i with
      | Some (d, m) => if bool_decide (d = n) then Some (settle w n (turn (w_node w n) (Some m) (λ _, None) now)) else None
      | None => None
      end
  | AMap n current next => Some (mkWorld (upd (w_node w) n (propose_map (w_node w n) current next).1) (w_disk w) (w_soup w))
  | ARestart n now => Some (mkWorld (upd (w_node w) n (restore (raft_new n ms timing now) (w_disk w n))) (w_disk w) (w_soup w))
  end.

Fixpoint play (w : World) (script : list Action) : option World :=
  match script with [] => Some w | a :: script' => w' ← act w a; play w' script' end.
End scripts.

Definition voter : Member := mkMember [] [] Voter.
Definition learner : Member := mkMember [] [] Learner.
Definition leads (w : World) (n : nat) (t : Z) : bool := bool_decide (rf_role (w_node w n) = Leader) && (rf_term (w_node w n) =? t).

(** * Learners *)
Module Learners.
Definition members : list Member := [voter; voter; voter; learner].
(** Nodes 0 and 1 stand; the learner answers the one, voter 2 the other. *)
Definition script : list Action :=
  [ATurn 0 None 10000; ATurn 1 None 10000; ATurn 3 (Some 5%nat) 100; ATurn 2 (Some 2%nat) 100; ATurn 0 (Some 1%nat) 10001; ATurn 1 (Some 3%nat) 10001].
Definition result : option World := play members default_timing (w_init members default_timing) script.
End Learners.

(** * Proposals whose output is dropped *)
Module Dropped.
Definition members : list Member := [voter; voter; voter].
Definition wanted : RangeMap := mkRangeMap 0 [mkRange 0 (mkShards 0 None) [0]%nat 0%nat None] [] 0%nat [] true.
(** Node 0 is elected by node 1; an operator changes the map; node 1 stores the change; node 0 commits it. *)
Definition before : list Action :=
  [ATurn 0 None 10000; ATurn 1 (Some 0%nat) 100; ATurn 0 (Some 0%nat) 10001; ATurn 1 (Some 0%nat) 200; ATurn 0 (Some 0%nat) 10002;
   AMap 0 wanted wanted; ATurn 0 None 10500; ATurn 1 (Some 0%nat) 300; ATurn 0 (Some 0%nat) 10501].
(** Node 0 restarts and is elected by node 2. *)
Definition after : list Action :=
  [ARestart 0 20000; ATurn 0 None 30000; ATurn 2 (Some 1%nat) 100; ATurn 0 (Some 0%nat) 30001; ATurn 2 (Some 1%nat) 200; ATurn 0 (Some 0%nat) 30002; 
   ATurn 2 (Some 0%nat) 300; ATurn 0 (Some 0%nat) 30003].
Definition committed_world : option World := play members default_timing (w_init members default_timing) before.
Definition later_world : option World := w ← committed_world; play members default_timing w after.
End Dropped.

(** * Compaction while a change is in flight *)
Module Compacted.
Definition members : list Member := [voter; voter; voter].
Definition first_map : RangeMap := Dropped.wanted.
Definition second_map : RangeMap := mkRangeMap 0 [mkRange 0 (mkShards 0 None) [1]%nat 1%nat None] [] 1%nat [] true.
(** An election: [cand] is voted for by [other], and both others store its entry. *)
Definition election (k : nat) : list Action :=
  let cand := Nat.modulo k 2 in
  let other := (1 - cand)%nat in
  let now := 10000 * Z.of_nat k in
  [ATurn cand None now; ATurn other (Some 0%nat) now; ATurn cand (Some 0%nat) (now + 1); ATurn 2 (Some 1%nat) (now + 1); ATurn other (Some 1%nat) (now + 2);
   ATurn cand (Some 0%nat) (now + 3); ATurn cand (Some 1%nat) (now + 3)].
(** A map agreed by all three, then elections, then a second map proposed and not yet stored anywhere else. *)
Definition script : list Action :=
  election 1 ++ [AMap 1 first_map first_map; ATurn 1 None 10500; ATurn 0 (Some 0%nat) 10500; ATurn 2 (Some 2%nat) 10500; ATurn 1 (Some 0%nat) 10501; ATurn 1 (Some 1%nat) 10501] ++
  concat (map election (seq 2 70)) ++ [AMap 1 (with_epoch first_map 1) second_map].
Definition before : option World := play members default_timing (w_init members default_timing) script.
(** The leader's next heartbeat. *)
Definition after : option World := w ← before; play members default_timing w [ATurn 1 None 730000].
End Compacted.

(** * What the scripts show *)
Lemma play_shows ms timing w script (P : World → bool) :
  match play ms timing w script with Some w' => P w' | None => false end = true → ∃ w', play ms timing w script = Some w' ∧ P w' = true.
Proof. destruct (play ms timing w script) as [w'|]; [|done]. intros H. by exists w'. Qed.

(** A committed position of a node's log. *)
Definition committed_at (w : World) (n : nat) (k : Z) (e : Entry) : bool :=
  bool_decide (entry_at (w_node w n) k = Some e) && (k <=? rf_commit (w_node w n)).

(** C38.  A learner's vote elects.  In a cluster of three voters and one learner there is a run after
    which two nodes lead in the same term: nothing keeps a learner from answering a request for its
    vote, and a candidate counts whoever answers. *)
Theorem learner_vote_elects_two :
  ∃ ms script w, List.filter member_votes ms = [voter; voter; voter] ∧
    play ms default_timing (w_init ms default_timing) script = Some w ∧ leads w 0 1 && leads w 1 1 = true.
Proof.
  exists Learners.members, Learners.script. destruct (play_shows Learners.members default_timing (w_init Learners.members default_timing)
    Learners.script (λ w, leads w 0 1 && leads w 1 1)) as (w & Hw & H); [by vm_compute|]. exists w. split; [done|]. by split.
Qed.

(** The steps of a script that restart a node, and those of an operator. *)
Definition is_restart (a : Action) : bool := match a with ARestart _ _ => true | _ => false end.
Definition is_proposal (a : Action) : bool := match a with AMap _ _ _ => true | _ => false end.

(** C39.  A decision can be undone when the change came from an operator.  [propose_map] drops what
    [propose] asks to have saved, while the leader counts itself among the nodes that hold the entry.  In a
    cluster of three voters there is a run with one proposal, a map an operator gives node 0, and no
    restart, after which node 0 has committed that map at position 2 of its log while its own file does not
    have the entry; and a continuation with one restart, of node 0, and no proposal, after which node 0 has
    committed an empty entry of a later term there. *)
Theorem dropped_output_undoes_decision :
  ∃ before after now w w', let ms := [voter; voter; voter] in
    List.filter is_proposal before = [AMap 0 Dropped.wanted Dropped.wanted] ∧ List.filter is_restart before = [] ∧
    play ms default_timing (w_init ms default_timing) before = Some w ∧
    committed_at w 0 2 (mkEntry 1 (Ranges (with_epoch Dropped.wanted 1))) = true ∧
    entry_at (restore (raft_new 0 ms default_timing now) (w_disk w 0%nat)) 2 = None ∧
    List.filter is_proposal after = [] ∧ List.filter is_restart after = [ARestart 0 now] ∧
    play ms default_timing w after = Some w' ∧ committed_at w' 0 2 (mkEntry 2 Noop) = true.
Proof.
  set (e := mkEntry 1 (Ranges (with_epoch Dropped.wanted 1))). set (e' := mkEntry 2 Noop).
  exists Dropped.before, Dropped.after, 20000.
  destruct (play_shows Dropped.members default_timing (w_init Dropped.members default_timing) Dropped.before
    (λ w, committed_at w 0 2 e && bool_decide (entry_at (restore (raft_new 0 Dropped.members default_timing 20000) (w_disk w 0%nat)) 2 = None) &&
      match play Dropped.members default_timing w Dropped.after with Some w' => committed_at w' 0 2 e' | None => false end))
    as (w & Hw & H); [by vm_compute|]. apply andb_true_iff in H as [[H1 H3%bool_decide_eq_true]%andb_true_iff H2]. apply play_shows in H2 as (w' & Hw' & H2).
  exists w, w'. by split_and!.
Qed.

(** Compaction can forget the map.  It keeps the newest map of the log, and that may be one
    nobody has agreed to yet: there is a run of three voters after which the leader has applied a map,
    and a heartbeat after which nothing of that map is left in its log - what it would send as a
    snapshot, or come back with after a restart, is the empty map. *)
Theorem compaction_forgets_map :
  ∃ ms script now w w', forallb member_votes ms = true ∧
    play ms default_timing (w_init ms default_timing) script = Some w ∧ fst (applied_state (w_node w 1)) = with_epoch Compacted.first_map 1 ∧
    play ms default_timing w [ATurn 1 None now] = Some w' ∧ fst (applied_state (w_node w' 1)) = empty_map ∧ rf_applied (w_node w' 1) = rf_applied (w_node w 1).
Proof.
  exists Compacted.members, Compacted.script, 730000.
  destruct (play_shows Compacted.members default_timing (w_init Compacted.members default_timing) Compacted.script
    (λ w, bool_decide (fst (applied_state (w_node w 1)) = with_epoch Compacted.first_map 1) &&
      match play Compacted.members default_timing w [ATurn 1 None 730000] with
      | Some w' => bool_decide (fst (applied_state (w_node w' 1)) = empty_map ∧ rf_applied (w_node w' 1) = rf_applied (w_node w 1)) | None => false end))
    as (w & Hw & H); [by vm_compute|]. apply andb_true_iff in H as [H1%bool_decide_eq_true H2]. apply play_shows in H2 as (w' & Hw' & H2%bool_decide_eq_true).
  exists w, w'. destruct H2 as [H2 H3]. by split_and!.
Qed.

(** A snapshot that arrives late takes a node back: whatever the node has stored and committed
    beyond it is gone from its log, and it answers that it holds the log up to the snapshot. *)
Theorem late_snapshot_goes_back r now t ld index lt rs mm :
  rf_term r <= t → rf_base r < index → index < rf_commit r →
  let '(r', out) := on_snapshot r now t ld index lt rs mm in
  rf_commit r' = index ∧ last_index r' = index ∧ rf_commit r' < rf_commit r ∧ (ld, AppendReply t (rf_id r) true index) ∈ o_send out.
Proof.
  intros Ht Hb Hc. unfold on_snapshot, observe. cbn [set_heard rf_term].
  destruct (Z.ltb_spec (rf_term r) t) as [Hlt|Hge].
  1: cbn [rf_term rf_base set_votes set_leader set_role set_voted_for set_term set_heard].
  2: assert (rf_term r = t) by lia; cbn [rf_term rf_base set_heard].
  all: replace ((t <? _) || (index <=? rf_base r)) with false by lia; rewrite apply_exact; cbn.
  all: split; [done|]; split; [unfold last_index; cbn; lia|]; split; [lia|]; unfold last_index; cbn.
  all: rewrite Z.add_simpl_r; subst; by left.
Qed.

(** A follower with five committed entries. *)
Module Late.
Definition node : Raft :=
  set_commit (set_log (set_term (raft_new 1 Dropped.members default_timing 0) 1) (mkEntry 0 Noop :: repeat (mkEntry 1 Noop) 5)) 5.
End Late.

Lemma late_snapshot_goes_back_witness :
  rf_commit Late.node = 5 ∧ rf_commit (fst (on_snapshot Late.node 100 1 0%nat 3 1 empty_map [])) = 3.
Proof.
  split; [by vm_compute|].
  pose proof (late_snapshot_goes_back Late.node 100 1 0%nat 3 1 empty_map [] ltac:(by vm_compute) ltac:(by vm_compute) ltac:(by vm_compute)) as H.
  destruct (on_snapshot _ _ _ _ _ _ _ _) as [r' out]. apply H.
Defined.
