(* ===== verification/OrdMap.v ===== *)
(** Ordered maps: the part of [BTreeMap<u64, V>] the bitmap engine uses, as association lists in key
    order.  Iteration is the list. *)
From S2P Require Import Prelude.

Section maps.
Context {V : Type}.
Implicit Types (m : list (Z * V)) (k : Z) (v : V).

Definition om_get k m : option V := snd <$> List.find (λ e, fst e =? k) m.

Fixpoint om_insert m k v : list (Z * V) :=
  match m with
  | [] => [(k, v)]
  | (k', v') :: m' => if k <? k' then (k, v) :: m else if k =? k' then (k, v) :: m' else (k', v') :: om_insert m' k v
  end.

(** [entry(k).or_default()], changed by [f]. *)
Definition om_entry m k (dflt : V) (f : V → V) : list (Z * V) := om_insert m k (f (default dflt (om_get k m))).

(** [collect] of key-value pairs. *)
Definition om_of_list (l : list (Z * V)) : list (Z * V) := foldl (λ m e, om_insert m (fst e) (snd e)) [] l.

Definition om_ok m : Prop := StronglySorted (λ x y, fst x < fst y) m.

Lemma om_ok_cons e m : om_ok (e :: m) ↔ Forall (λ y, fst e < fst y) m ∧ om_ok m.
Proof. split; [by intros [H1 H2]%StronglySorted_inv|]. intros [H1 H2]. by constructor. Qed.

Lemma om_get_cons k e m : om_get k (e :: m) = if fst e =? k then Some (snd e) else om_get k m.
Proof. unfold om_get. cbn. by destruct (fst e =? k). Qed.

Lemma om_get_past k m : Forall (λ y, k < fst y) m → om_get k m = None.
Proof.
  induction 1 as [|e m He _ IH]; [done|]. rewrite om_get_cons. by destruct (Z.eqb_spec (fst e) k); [lia|].
Qed.

Lemma om_insert_keys (Q : Z → Prop) m k v : Forall (λ y, Q (fst y)) m → Q k → Forall (λ y, Q (fst y)) (om_insert m k v).
Proof.
  intros F Hk. induction F as [|[k' v'] m He F IH]; cbn; [by repeat constructor|].
  destruct (k <? k'), (k =? k'); repeat constructor; auto.
Qed.

Lemma om_insert_ok m k v : om_ok m → om_ok (om_insert m k v).
Proof.
  induction m as [|[k' v'] m IH]; intros H; cbn; [repeat constructor|]. pose proof H as [F Hm]%om_ok_cons. cbn in F.
  destruct (Z.ltb_spec k k'); [|destruct (Z.eqb_spec k k') as [->|]].
  - apply om_ok_cons. split; [|exact H]. constructor; [done|]. eapply Forall_impl; [exact F|]. cbn. intros. lia.
  - apply om_ok_cons. by split.
  - apply om_ok_cons. split; [|by apply IH]. cbn. apply (om_insert_keys (λ y, k' < y)); [exact F|lia].
Qed.

Lemma om_get_insert m k v k2 : om_ok m → om_get k2 (om_insert m k v) = if k2 =? k then Some v else om_get k2 m.
Proof.
  induction m as [|[k' v'] m IH]; intros H; cbn [om_insert].
  - rewrite om_get_cons. cbn. by rewrite (Z.eqb_sym k k2).
  - pose proof H as [F Hm]%om_ok_cons. cbn in F. destruct (Z.ltb_spec k k'); [|destruct (Z.eqb_spec k k') as [->|]]; rewrite !om_get_cons; cbn [fst snd].
    + rewrite (Z.eqb_sym k k2). destruct (Z.eqb_spec k2 k) as [E|]; [|done]. destruct (Z.eqb_spec k' k2); [lia|done].
    + rewrite (Z.eqb_sym k' k2). by destruct (k2 =? k').
    + rewrite IH by done. destruct (Z.eqb_spec k' k2), (Z.eqb_spec k2 k); try done; lia.
Qed.

Lemma om_get_elem m k v : om_ok m → om_get k m = Some v ↔ (k, v) ∈ m.
Proof.
  induction m as [|[k' v'] m IH]; intros H; [split; [done|intros H'; by apply not_elem_of_nil in H']|].
  apply om_ok_cons in H as [F Hm]. rewrite om_get_cons, elem_of_cons. cbn in *. destruct (Z.eqb_spec k' k) as [->|Hne].
  - split; [intros [= ->]; by left|]. intros [[= ->]|Hin]; [done|]. rewrite Forall_forall in F. specialize (F _ Hin). cbn in F. lia.
  - rewrite IH by done. split; [by right|]. intros [[= -> ->]|Hin]; [done|exact Hin].
Qed.

Lemma om_ext a b : om_ok a → om_ok b → (∀ k, om_get k a = om_get k b) → a = b.
Proof.
  revert b. induction a as [|[k v] a IH]; intros [|[k' v'] b] Ha Hb E.
  - done.
  - specialize (E k'). rewrite om_get_cons in E. cbn in E. by rewrite Z.eqb_refl in E.
  - specialize (E k). rewrite om_get_cons in E. cbn in E. by rewrite Z.eqb_refl in E.
  - pose proof Ha as [Fa Ha']%om_ok_cons. pose proof Hb as [Fb Hb']%om_ok_cons. cbn in Fa, Fb.
    assert (k = k') as <-.
    { destruct (Z.lt_trichotomy k k') as [Hlt|[He|Hgt]]; [|exact He|].
      - specialize (E k). rewrite om_get_cons, (om_get_past k ((k', v') :: b)) in E by (constructor; [exact Hlt|eapply Forall_impl; [exact Fb|]; cbn; intros; lia]).
        cbn in E. by rewrite Z.eqb_refl in E.
      - specialize (E k'). rewrite (om_get_past k' ((k, v) :: a)), om_get_cons in E by (constructor; [exact Hgt|eapply Forall_impl; [exact Fa|]; cbn; intros; lia]).
        cbn in E. by rewrite Z.eqb_refl in E. }
    pose proof (E k) as Ek. rewrite !om_get_cons in Ek. cbn in Ek. rewrite Z.eqb_refl in Ek. injection Ek as <-. f_equal. apply IH; [done|done|].
    intros j. specialize (E j). rewrite !om_get_cons in E. cbn in E. destruct (Z.eqb_spec k j) as [He|]; [|exact E]. subst j. by rewrite !om_get_past.
Qed.

Lemma om_of_list_snoc l e : om_of_list (l ++ [e]) = om_insert (om_of_list l) (fst e) (snd e).
Proof. unfold om_of_list. by rewrite foldl_app. Qed.

Lemma om_of_list_ok l : om_ok (om_of_list l).
Proof. induction l as [|e l IH] using rev_ind; [constructor|]. rewrite om_of_list_snoc. by apply om_insert_ok. Qed.

Lemma om_entry_ok m k d f : om_ok m → om_ok (om_entry m k d f). Proof. apply om_insert_ok. Qed.

Lemma om_get_entry m k d f k2 : om_ok m → om_get k2 (om_entry m k d f) = if k2 =? k then Some (f (default d (om_get k m))) else om_get k2 m.
Proof. apply om_get_insert. Qed.

Lemma om_keys_ascending m : om_ok m → ascending (map fst m).
Proof.
  induction 1 as [|e m _ IH F]; [constructor|]. cbn. constructor; [exact IH|]. apply Forall_map. eapply Forall_impl; [exact F|]. done.
Qed.
End maps.

(** Changing the values leaves the keys in order. *)
Lemma om_ok_map {V W} (f : Z → V → W) (m : list (Z * V)) : om_ok m → om_ok (map (λ e, (fst e, f (fst e) (snd e))) m).
Proof. induction 1 as [|e m _ IH F]; [constructor|]. cbn. constructor; [exact IH|]. apply Forall_map. eapply Forall_impl; [exact F|]. done. Qed.

Lemma om_get_map {V W} (f : Z → V → W) (m : list (Z * V)) k : om_get k (map (λ e, (fst e, f (fst e) (snd e))) m) = f k <$> om_get k m.
Proof.
  induction m as [|e m IH]; [done|]. cbn [map]. rewrite !om_get_cons. cbn [fst snd]. rewrite IH. by destruct (Z.eqb_spec (fst e) k) as [->|].
Qed.

Lemma om_ok_filter {V} (p : Z * V → bool) (m : list (Z * V)) : om_ok m → om_ok (List.filter p m).
Proof.
  induction 1 as [|e m _ IH F]; [constructor|]. cbn. destruct (p e); [|exact IH]. constructor; [exact IH|].
  apply Forall_forall. intros x [Hx _]%list_elem_of_In%filter_In. rewrite Forall_forall in F. apply F. by apply list_elem_of_In.
Qed.
