(* ===== verification/Coords.v ===== *)
(** Where a fact lives (crates/big-engine/src/base/coords.rs): a record belongs to a shard, a row of a
    fragment is a contiguous span of container keys, and a bit of it is an offset in one container.

    Arithmetic is of [u64], written out; rows are below 2^44, past which [row * SHARD_WIDTH] leaves
    the word. *)
From S2P Require Import Prelude Bits RangeMap.

Definition SHARD_WIDTH_EXPONENT : Z := 20.
Definition CONTAINER_EXPONENT : Z := 16.
Definition SHARD_WIDTH : Z := Z.shiftl 1 SHARD_WIDTH_EXPONENT.
Definition CONTAINER_WIDTH : Z := Z.shiftl 1 CONTAINER_EXPONENT.
Definition CONTAINERS_PER_ROW : Z := Z.shiftl 1 (SHARD_WIDTH_EXPONENT - CONTAINER_EXPONENT).

Definition wrap64 (v : Z) : Z := v mod 2 ^ 64.

Definition shard_of (record : Z) : Z := Z.shiftr record SHARD_WIDTH_EXPONENT.
Definition local_of (record : Z) : Z := Z.land record (SHARD_WIDTH - 1).
Definition pos_of (row record : Z) : Z := wrap64 (row * SHARD_WIDTH + local_of record).
Definition ckey_of (pos : Z) : Z := Z.shiftr pos CONTAINER_EXPONENT.
Definition offset_in_container (pos : Z) : Z := Z.land pos (CONTAINER_WIDTH - 1) mod 65536.
(** The first and the last container key of a row. *)
Definition row_ckeys (row : Z) : Z * Z :=
  let first := wrap64 (row * CONTAINERS_PER_ROW) in (first, wrap64 (first + CONTAINERS_PER_ROW - 1)).
Definition row_of_ckey (ckey : Z) : Z := ckey / CONTAINERS_PER_ROW.
Definition slot_of_ckey (ckey : Z) : Z := ckey mod CONTAINERS_PER_ROW.
Definition ckey_of_slot (row slot : Z) : Z := wrap64 (row * CONTAINERS_PER_ROW + slot).
Definition record_of_slot (shard slot offset : Z) : Z := wrap64 (shard * SHARD_WIDTH + slot * CONTAINER_WIDTH + offset).
Definition record_of (shard ckey offset : Z) : Z := record_of_slot shard (slot_of_ckey ckey) offset.

(** [u64::saturating_mul] and [saturating_add]. *)
Definition sat64 (v : Z) : Z := Z.min v u64_max.
Definition range_holds (s : ShardRange) (record : Z) : bool := shards_contain s (shard_of record).
Definition first_record (s : ShardRange) : Z := sat64 (sr_start s * SHARD_WIDTH).
Definition end_record (s : ShardRange) : option Z := (λ e, sat64 (e * SHARD_WIDTH)) <$> sr_end s.
Definition may_hold_after (s : ShardRange) (after : option Z) : bool :=
  match after with
  | None => true
  | Some after => match end_record s with None => true | Some e => sat64 (after + 1) <? e end
  end.

(** * Arithmetic *)
Definition row_ok (row : Z) : Prop := 0 <= row < 2 ^ 44.
Definition record_ok (r : Z) : Prop := 0 <= r < 2 ^ 64.

Lemma shard_of_div r : shard_of r = r / 2 ^ 20. Proof. apply Z.shiftr_div_pow2. lia. Qed.
Lemma local_of_mod r : local_of r = r mod 2 ^ 20. Proof. unfold local_of. change (SHARD_WIDTH - 1) with (Z.ones 20). apply Z.land_ones. lia. Qed.
Lemma ckey_of_div p : ckey_of p = p / 2 ^ 16. Proof. apply Z.shiftr_div_pow2. lia. Qed.
Lemma offset_mod p : offset_in_container p = p mod 2 ^ 16.
Proof.
  unfold offset_in_container. change (CONTAINER_WIDTH - 1) with (Z.ones 16). rewrite Z.land_ones by lia. change 65536 with (2 ^ 16). by rewrite Z.mod_mod.
Qed.
Lemma local_bound r : 0 <= local_of r < 2 ^ 20. Proof. rewrite local_of_mod. by apply Z.mod_pos_bound. Qed.

Lemma pos_split row r : row_ok row → ckey_of (pos_of row r) = row * 16 + local_of r / 2 ^ 16 ∧ offset_in_container (pos_of row r) = local_of r mod 2 ^ 16.
Proof.
  intros Hr. pose proof (local_bound r) as Hl. rewrite ckey_of_div, offset_mod. unfold pos_of, wrap64. change SHARD_WIDTH with (2 ^ 20). unfold row_ok in Hr.
  rewrite Z.mod_small by lia. replace (row * 2 ^ 20 + local_of r) with (local_of r + (row * 16) * 2 ^ 16) by lia.
  rewrite Z.div_add, Z.mod_add by lia. lia.
Qed.

Lemma local_slot_bound r : 0 <= local_of r / 2 ^ 16 < 16.
Proof. pose proof (local_bound r). split; [apply Z.div_pos; lia|]. apply Z.div_lt_upper_bound; lia. Qed.

Lemma ckey_of_slot_small row slot : row_ok row → 0 <= slot < 16 → ckey_of_slot row slot = row * 16 + slot.
Proof. intros Hr Hs. unfold ckey_of_slot, wrap64, row_ok in *. change CONTAINERS_PER_ROW with 16. apply Z.mod_small. lia. Qed.

Lemma row_slot row slot : 0 <= slot < 16 → row_of_ckey (row * 16 + slot) = row ∧ slot_of_ckey (row * 16 + slot) = slot.
Proof.
  intros Hs. unfold row_of_ckey, slot_of_ckey. change CONTAINERS_PER_ROW with 16. replace (row * 16 + slot) with (slot + row * 16) by lia.
  rewrite Z.div_add, Z.mod_add by lia. rewrite Z.div_small, Z.mod_small by lia. lia.
Qed.

Lemma row_ckeys_span row : row_ok row → row_ckeys row = (row * 16, row * 16 + 15).
Proof.
  intros Hr. unfold row_ckeys, wrap64, row_ok in *. change CONTAINERS_PER_ROW with 16. rewrite (Z.mod_small (row * 16)) by lia. rewrite Z.mod_small by lia.
  f_equal. lia.
Qed.

Lemma record_split r : record_ok r → record_of_slot (shard_of r) (local_of r / 2 ^ 16) (local_of r mod 2 ^ 16) = r.
Proof.
  intros Hr. unfold record_of_slot, wrap64, record_ok in *. change SHARD_WIDTH with (2 ^ 20). change CONTAINER_WIDTH with (2 ^ 16). rewrite shard_of_div, local_of_mod.
  pose proof (Z.div_mod r (2 ^ 20) ltac:(lia)). pose proof (Z.div_mod (r mod 2 ^ 20) (2 ^ 16) ltac:(lia)). rewrite Z.mod_small; lia.
Qed.

(** The addresses of facts.  The bit of a record in a row is found in one of the sixteen containers
    of that row, and from the container key and the offset the row and the record come back; no two
    facts of a shard share a bit; and a record falls in a range of shards exactly when it lies between
    the range's first record and its end. *)
Theorem coordinates_roundtrip row r s :
  row_ok row → record_ok r → 0 <= sr_start s → (match sr_end s with Some e => 0 <= e < 2 ^ 44 | None => True end) →
  let ckey := ckey_of (pos_of row r) in
  let offset := offset_in_container (pos_of row r) in
  row_of_ckey ckey = row ∧ record_of (shard_of r) ckey offset = r ∧ fst (row_ckeys row) <= ckey <= snd (row_ckeys row) ∧
  ckey_of_slot row (slot_of_ckey ckey) = ckey ∧
  (∀ row' r', row_ok row' → record_ok r' → shard_of r' = shard_of r → pos_of row' r' = pos_of row r → row' = row ∧ r' = r) ∧
  range_holds s r = (sr_start s * SHARD_WIDTH <=? r) && match end_record s with Some e => r <? e | None => true end.
Proof.
  intros Hrow Hr Hs He. cbn zeta. destruct (pos_split row r Hrow) as [-> ->]. pose proof (local_slot_bound r) as Hsl. destruct (row_slot row _ Hsl) as [E1 E2].
  split; [exact E1|]. split; [unfold record_of; rewrite E2; by apply record_split|]. split; [rewrite row_ckeys_span by done; cbn; lia|].
  split; [rewrite E2; by apply ckey_of_slot_small|]. split.
  - intros row' r' Hrow' Hr' Hsh Hp. destruct (pos_split row r Hrow) as [C1 O1]. destruct (pos_split row' r' Hrow') as [C2 O2]. rewrite Hp in C2, O2.
    pose proof (local_slot_bound r'). assert (row' = row ∧ local_of r' / 2 ^ 16 = local_of r / 2 ^ 16) as [-> Hd] by lia.
    split; [done|]. rewrite <- (record_split r' Hr'), <- (record_split r Hr), Hsh, Hd. congruence.
  - unfold range_holds, shards_contain, end_record. change SHARD_WIDTH with (2 ^ 20). rewrite shard_of_div. f_equal.
    + apply eq_true_iff_eq. rewrite !Z.leb_le. split; intros H; [|apply Z.div_le_lower_bound; lia].
      apply Z.le_trans with (r / 2 ^ 20 * 2 ^ 20); [nia|]. pose proof (Z.mul_div_le r (2 ^ 20)). lia.
    + destruct (sr_end s) as [e|]; [|done]. cbn. unfold sat64, u64_max. rewrite Z.min_l by lia. apply eq_true_iff_eq. rewrite !Z.ltb_lt. split; intros H.
      * pose proof (Z.mod_pos_bound r (2 ^ 20)). pose proof (Z.div_mod r (2 ^ 20)). nia.
      * apply Z.div_lt_upper_bound; lia.
Qed.

Lemma coordinates_roundtrip_witness :
  row_of_ckey (ckey_of (pos_of 7 3000000)) = 7 ∧ record_of (shard_of 3000000) (ckey_of (pos_of 7 3000000)) (offset_in_container (pos_of 7 3000000)) = 3000000.
Proof.
  destruct (coordinates_roundtrip 7 3000000 (mkShards 2 (Some 3)) ltac:(done) ltac:(done) ltac:(done) ltac:(done)) as (H1 & H2 & _). split; [exact H1|exact H2].
Defined.
