(* ===== verification/RowSet.v ===== *)
(** A materialised row (crates/big-engine/src/bitmap/rowset.rs): a set of records of one shard, as the
    non-empty containers of its sixteen slots, in slot order. *)
From S2P Require Import Prelude Bits Search Container SetOps Optimize Cardinality RangeMap Coords.

(** [RowSet]: its [slots]. *)
Abbreviation RowSet := (list (Z * Container)) (only parsing).
Definition rs_new : RowSet := [].

Definition rs_insert (rs : RowSet) (slot : Z) (c : Container) : RowSet :=
  if is_empty c then rs
  else match binary_search_by_key slot fst rs with
       | Hit i => <[i := (slot, c)]> rs
       | Miss i => take i rs ++ (slot, c) :: drop i rs
       end.

Definition rs_get (rs : RowSet) (slot : Z) : option Container :=
  match binary_search_by_key slot fst rs with Hit i => snd <$> rs !! i | Miss _ => None end.

(** [RowSet::contains]; the assertion on the shard is a debug one. *)
Definition rs_contains (rs : RowSet) (record : Z) : bool :=
  let local := local_of record in
  match rs_get rs (local / CONTAINER_WIDTH) with Some c => contains c (local mod CONTAINER_WIDTH mod 65536) | None => false end.

Definition rs_byte_size (rs : RowSet) : Z := foldr (λ e n, byte_size (snd e) + n) 0 rs.
Definition rs_cardinality (rs : RowSet) : Z := foldr (λ e n, wrap64 (cardinality (snd e) + n)) 0 rs.
Definition rs_is_empty (rs : RowSet) : bool := match rs with [] => true | _ => false end.

(** [records]: slot after slot, through the iterator of each container. *)
Definition rs_records (shard : Z) (rs : RowSet) : list Z :=
  concat (map (λ e, map (record_of_slot shard (fst e)) (values (snd e))) rs).

(** [records_from]: slots below the floor are skipped, the rest is filtered. *)
Definition rs_records_from (shard from : Z) (rs : RowSet) : list Z :=
  let first_slot := Z.shiftr (local_of from) CONTAINER_EXPONENT in
  let start := partition_point (λ e, fst e <? first_slot) rs in
  List.filter (λ r, from <=? r) (rs_records shard (drop start rs)).

(** [combine]: the merge of two rows; fuel is the sum of their lengths. *)
Fixpoint combine_loop (fuel : nat) (op : SetOp) (a b out : RowSet) : RowSet :=
  match fuel with
  | O => out
  | S fuel' =>
      match a, b with
      | (ka, ca) :: a', (kb, cb) :: b' =>
          if ka =? kb then combine_loop fuel' op a' b' (rs_insert out ka (into_owned (apply op ca cb)))
          else if ka <? kb then combine_loop fuel' op a' b (if keeps_left_only op then rs_insert out ka ca else out)
          else combine_loop fuel' op a b' (if keeps_right_only op then rs_insert out kb cb else out)
      | (ka, ca) :: a', [] => combine_loop fuel' op a' [] (if keeps_left_only op then rs_insert out ka ca else out)
      | [], (kb, cb) :: b' => combine_loop fuel' op [] b' (if keeps_right_only op then rs_insert out kb cb else out)
      | [], [] => out
      end
  end.
Definition combine (op : SetOp) (a b : RowSet) : RowSet := combine_loop (length a + length b) op a b rs_new.
Definition rs_and : RowSet → RowSet → RowSet := combine And.
Definition rs_or : RowSet → RowSet → RowSet := combine Or.
Definition rs_andnot : RowSet → RowSet → RowSet := combine AndNot.
Definition rs_xor : RowSet → RowSet → RowSet := combine Xor.

(** * Rows as sets *)

(** Slots ascend and are of a row; no container is empty. *)
Record wf_rows (rs : RowSet) : Prop := {
  wr_order : StronglySorted (λ x y, fst x < fst y) rs;
  wr_slots : Forall (λ e, 0 <= fst e < 16 ∧ wf (snd e) ∧ members (snd e) ≠ []) rs
}.

(** [x], a record's offset in its shard, is in the row. *)
Definition in_rows (rs : RowSet) (x : Z) : Prop := ∃ c, (x / 2 ^ 16, c) ∈ rs ∧ x mod 2 ^ 16 ∈ members c.

Lemma wf_rows_nil : wf_rows []. Proof. split; constructor. Qed.
Lemma in_rows_nil x : ¬ in_rows [] x. Proof. intros (c & H & _). by apply not_elem_of_nil in H. Qed.

Lemma wf_rows_cons e rs : wf_rows (e :: rs) ↔ (0 <= fst e < 16 ∧ wf (snd e) ∧ members (snd e) ≠ []) ∧ Forall (λ y, fst e < fst y) rs ∧ wf_rows rs.
Proof.
  split.
  - intros [[H1 H2]%StronglySorted_inv [H3 H4]%Forall_cons]. split; [exact H3|]. split; [exact H2|]. split; assumption.
  - intros (H1 & H2 & [H3 H4]). split; constructor; assumption.
Qed.

Lemma wf_rows_app a b : wf_rows (a ++ b) ↔ wf_rows a ∧ wf_rows b ∧ ∀ x y, x ∈ a → y ∈ b → fst x < fst y.
Proof.
  induction a as [|e a IH]; cbn [app].
  - split; [|tauto]. intros H. split; [apply wf_rows_nil|]. split; [exact H|]. intros x y Hx. by apply not_elem_of_nil in Hx.
  - rewrite !wf_rows_cons, IH, Forall_app, !Forall_forall. split.
    + intros (H1 & [H2 H3] & H4 & H5 & H6). split; [split; [exact H1|split; [exact H2|exact H4]]|]. split; [exact H5|].
      intros x y [->|Hx]%elem_of_cons Hy; [by apply H3|by apply H6].
    + intros ((H1 & H2 & H3) & H4 & H5). split; [exact H1|]. split; [split; [exact H2|]; intros x Hx; apply H5; [by left|exact Hx]|].
      split; [exact H3|]. split; [exact H4|]. intros x y Hx Hy. apply H5; [by right|exact Hy].
Qed.

Lemma in_rows_app a b x : in_rows (a ++ b) x ↔ in_rows a x ∨ in_rows b x.
Proof. unfold in_rows. setoid_rewrite elem_of_app. naive_solver. Qed.
Lemma in_rows_one k c x : in_rows [(k, c)] x ↔ x / 2 ^ 16 = k ∧ x mod 2 ^ 16 ∈ members c.
Proof.
  unfold in_rows. setoid_rewrite list_elem_of_singleton. split; [intros (d & [= -> ->] & H); done|]. intros [<- H]. by exists c.
Qed.
Lemma in_rows_cons e rs x : in_rows (e :: rs) x ↔ in_rows [e] x ∨ in_rows rs x.
Proof. apply (in_rows_app [e] rs). Qed.

(** Appending a container past the end of the row. *)
Lemma rs_insert_end rs k c :
  wf_rows rs → Forall (λ e, fst e < k) rs → 0 <= k < 16 → wf c →
  rs_insert rs k c = (if is_empty c then rs else rs ++ [(k, c)]) ∧ wf_rows (rs_insert rs k c) ∧ ∀ x, in_rows (rs_insert rs k c) x ↔ in_rows rs x ∨ in_rows [(k, c)] x.
Proof.
  intros W F Hk Hc. unfold rs_insert. destruct (is_empty c) eqn:E.
  - apply is_empty_members in E; [|exact Hc]. split_and!; auto. intros x. rewrite in_rows_one, E. split; [by left|]. intros [H|[_ H]]; [exact H|by apply not_elem_of_nil in H].
  - assert (Hm : members c ≠ []) by (intros H; apply is_empty_members in H; [congruence|exact Hc]).
    pose proof (binary_search_by_key_spec fst k rs (wr_order _ W)) as H. destruct (binary_search_by_key k fst rs) as [i|i].
    + destruct H as (y & Hy & Ek). apply list_elem_of_lookup_2 in Hy. rewrite Forall_forall in F. specialize (F y Hy). lia.
    + destruct H as (Hi & _ & Hd). assert (drop i rs = []) as Ed.
      { destruct (drop i rs) as [|y l] eqn:Ed; [done|]. apply Forall_cons in Hd as [Hy _]. assert (Hin : y ∈ rs) by (rewrite <- (take_drop i rs), Ed; apply elem_of_app; right; by left).
        rewrite Forall_forall in F. specialize (F y Hin). lia. }
      rewrite Ed. pose proof (take_drop i rs) as Et. rewrite Ed, app_nil_r in Et. rewrite Et. split; [done|]. split.
      * apply wf_rows_app. split; [exact W|]. split; [apply wf_rows_cons; split; [exact (conj Hk (conj Hc Hm))|split; [constructor|apply wf_rows_nil]]|].
        intros x y Hx ->%list_elem_of_singleton. rewrite Forall_forall in F. by apply F.
      * intros x. apply in_rows_app.
Qed.

Lemma in_rows_slot rs x : wf_rows rs → in_rows rs x → 0 <= x < 2 ^ 20.
Proof.
  intros W (c & Hc & _). pose proof (proj1 (Forall_forall _ _) (wr_slots _ W) _ Hc) as [H _]. cbn in H.
  pose proof (Z.div_mod x (2 ^ 16)). pose proof (Z.mod_pos_bound x (2 ^ 16)). lia.
Qed.

Lemma in_rows_key rs k c x : wf_rows ((k, c) :: rs) → x / 2 ^ 16 = k → in_rows ((k, c) :: rs) x ↔ x mod 2 ^ 16 ∈ members c.
Proof.
  intros (_ & F & _)%wf_rows_cons E. rewrite in_rows_cons, in_rows_one. split; [|auto]. intros [[_ H]|(d & H & _)]; [exact H|].
  rewrite Forall_forall in F. specialize (F _ H). cbn in F. lia.
Qed.

(** Nothing of [rs] is in slot [k] when every slot of it is past [k]. *)
Lemma in_rows_past rs k x : Forall (λ e, k < fst e) rs → x / 2 ^ 16 <= k → ¬ in_rows rs x.
Proof. rewrite Forall_forall. intros F Hx (c & H & _). specialize (F _ H). cbn in F. lia. Qed.

Definition before (out l : RowSet) : Prop := ∀ x y, x ∈ out → y ∈ l → fst x < fst y.

Lemma before_tail out e l : before out (e :: l) → before out l.
Proof. intros H x y Hx Hy. apply H; [exact Hx|by right]. Qed.

(** One step of [combine]: the container of slot [k] goes out when [keep] says so. *)
Lemma rs_put rs (keep : bool) k c :
  wf_rows rs → Forall (λ e, fst e < k) rs → 0 <= k < 16 → wf c →
  let out := if keep then rs_insert rs k c else rs in
  wf_rows out ∧ (∀ x, in_rows out x ↔ in_rows rs x ∨ keep = true ∧ in_rows [(k, c)] x) ∧ ∀ l, before rs l → Forall (λ e, k < fst e) l → before out l.
Proof.
  intros W F Hk Hc. destruct keep; cbn; [|split_and!; auto; intros x; intuition discriminate].
  destruct (rs_insert_end rs k c W F Hk Hc) as (E & W' & Hin). split_and!; auto; [intros x; rewrite Hin; intuition|].
  intros l B L. rewrite E. destruct (is_empty c); [exact B|]. intros x y [Hx| ->%list_elem_of_singleton]%elem_of_app Hy; [by apply B|].
  rewrite Forall_forall in L. by apply L.
Qed.

Lemma before_all out e l : before out (e :: l) → Forall (λ x, fst x < fst e) out.
Proof. intros H. apply Forall_forall. intros x Hx. apply H; [exact Hx|by left]. Qed.

(** A state of [combine]: what is out comes before what is left. *)
Record merging (a b out : RowSet) : Prop := {
  mg_left : wf_rows a; mg_right : wf_rows b; mg_out : wf_rows out; mg_before_left : before out a; mg_before_right : before out b
}.
(** The set the state stands for. *)
Definition merge_set (op : SetOp) (a b out : RowSet) (x : Z) : Prop := in_rows out x ∨ op_spec op (in_rows a x) (in_rows b x).

Lemma past_trans k k' (l : RowSet) : k < k' → Forall (λ e, k' < fst e) l → Forall (λ e, k < fst e) l.
Proof. intros Hk F. eapply Forall_impl; [exact F|]. cbn. intros. lia. Qed.

Lemma step_left op k c a b out :
  merging ((k, c) :: a) b out → Forall (λ e, k < fst e) b →
  let out' := if keeps_left_only op then rs_insert out k c else out in
  merging a b out' ∧ ∀ x, merge_set op a b out' x ↔ merge_set op ((k, c) :: a) b out x.
Proof.
  intros [Wa Wb Wo Ba Bb] Fb out'. pose proof Wa as ((Hk & Hc & _) & Fa & Wa')%wf_rows_cons. cbn in Hk, Hc, Fa.
  destruct (rs_put out (keeps_left_only op) k c Wo (before_all _ _ _ Ba) Hk Hc) as (W' & Hin & Hb).
  split; [split; try assumption; apply Hb; try assumption; by eapply before_tail|].
  intros x. unfold merge_set, out'. rewrite Hin, (in_rows_cons _ a), in_rows_one.
  destruct (decide (x / 2 ^ 16 = k)) as [E|E]; [|destruct op; cbn; tauto].
  pose proof (in_rows_past a k x Fa ltac:(lia)). pose proof (in_rows_past b k x Fb ltac:(lia)). destruct op; cbn; intuition discriminate.
Qed.

Lemma step_right op k c a b out :
  merging a ((k, c) :: b) out → Forall (λ e, k < fst e) a →
  let out' := if keeps_right_only op then rs_insert out k c else out in
  merging a b out' ∧ ∀ x, merge_set op a b out' x ↔ merge_set op a ((k, c) :: b) out x.
Proof.
  intros [Wa Wb Wo Ba Bb] Fa out'. pose proof Wb as ((Hk & Hc & _) & Fb & Wb')%wf_rows_cons. cbn in Hk, Hc, Fb.
  destruct (rs_put out (keeps_right_only op) k c Wo (before_all _ _ _ Bb) Hk Hc) as (W' & Hin & Hb).
  split; [split; try assumption; apply Hb; try assumption; by eapply before_tail|].
  intros x. unfold merge_set, out'. rewrite Hin, (in_rows_cons _ b), in_rows_one.
  destruct (decide (x / 2 ^ 16 = k)) as [E|E]; [|destruct op; cbn; tauto].
  pose proof (in_rows_past a k x Fa ltac:(lia)). pose proof (in_rows_past b k x Fb ltac:(lia)). destruct op; cbn; intuition discriminate.
Qed.

Lemma step_both op k ca cb a b out :
  merging ((k, ca) :: a) ((k, cb) :: b) out →
  let out' := rs_insert out k (into_owned (apply op ca cb)) in
  merging a b out' ∧ ∀ x, merge_set op a b out' x ↔ merge_set op ((k, ca) :: a) ((k, cb) :: b) out x.
Proof.
  intros [Wa Wb Wo Ba Bb] out'. pose proof Wa as ((Hk & Hca & _) & Fa & Wa')%wf_rows_cons. pose proof Wb as ((_ & Hcb & _) & Fb & Wb')%wf_rows_cons.
  cbn in Hk, Hca, Hcb, Fa, Fb. destruct (apply_ok op ca cb Hca Hcb) as [Wc Hm].
  destruct (rs_put out true k (into_owned (apply op ca cb)) Wo (before_all _ _ _ Ba) Hk Wc) as (W' & Hin & Hb). cbn iota in *.
  split; [split; try assumption; apply Hb; try assumption; by eapply before_tail|].
  intros x. unfold merge_set, out'. rewrite Hin, in_rows_one, Hm, (in_rows_cons _ a), (in_rows_cons _ b), !in_rows_one.
  destruct (decide (x / 2 ^ 16 = k)) as [E|E]; [|destruct op; cbn; tauto].
  pose proof (in_rows_past a k x Fa ltac:(lia)). pose proof (in_rows_past b k x Fb ltac:(lia)). destruct op; cbn; tauto.
Qed.

Lemma combine_loop_ok op : ∀ fuel a b out,
  (length a + length b ≤ fuel)%nat → merging a b out →
  wf_rows (combine_loop fuel op a b out) ∧ ∀ x, in_rows (combine_loop fuel op a b out) x ↔ merge_set op a b out x.
Proof.
  assert (Done : ∀ out x, in_rows out x ↔ merge_set op [] [] out x).
  { intros out x. unfold merge_set. pose proof (in_rows_nil x). destruct op; cbn; tauto. }
  induction fuel as [|fuel IH]; intros a b out Hf M.
  { destruct a, b; cbn in Hf; try lia. split; [apply M|]. intros x. apply Done. }
  assert (Go : ∀ a' b' out', (length a' + length b' ≤ fuel)%nat → merging a' b' out' ∧ (∀ x, merge_set op a' b' out' x ↔ merge_set op a b out x) →
    wf_rows (combine_loop fuel op a' b' out') ∧ ∀ x, in_rows (combine_loop fuel op a' b' out') x ↔ merge_set op a b out x).
  { intros a' b' out' Hl [M' E]. destruct (IH a' b' out' Hl M') as [W H]. split; [exact W|]. intros x. rewrite H. apply E. }
  destruct a as [|[ka ca] a], b as [|[kb cb] b]; cbn [combine_loop].
  - split; [apply M|]. intros x. apply Done.
  - apply Go; [cbn in *; lia|]. apply step_right; [exact M|constructor].
  - apply Go; [cbn in *; lia|]. apply step_left; [exact M|constructor].
  - pose proof (mg_left _ _ _ M) as (_ & Fa & _)%wf_rows_cons. pose proof (mg_right _ _ _ M) as (_ & Fb & _)%wf_rows_cons. cbn in Fa, Fb.
    destruct (Z.eqb_spec ka kb) as [->|Hne]; [|destruct (Z.ltb_spec ka kb) as [Hlt|Hge]]; (apply Go; [cbn in *; lia|]).
    + by apply step_both.
    + apply step_left; [exact M|]. constructor; [exact Hlt|by eapply past_trans].
    + apply step_right; [exact M|]. assert (kb < ka) by lia. constructor; [done|by eapply past_trans].
Qed.

Lemma combine_ok op a b : wf_rows a → wf_rows b → wf_rows (combine op a b) ∧ ∀ x, in_rows (combine op a b) x ↔ op_spec op (in_rows a x) (in_rows b x).
Proof.
  intros Wa Wb. destruct (combine_loop_ok op (length a + length b) a b [] (le_n _)) as [W H].
  { split; try assumption; [apply wf_rows_nil|..]; intros x y Hx; by apply not_elem_of_nil in Hx. }
  split; [exact W|]. intros x. unfold combine. rewrite H. unfold merge_set. pose proof (in_rows_nil x). tauto.
Qed.

(** * Asking a row *)
Lemma rs_get_spec rs k : wf_rows rs → match rs_get rs k with Some c => (k, c) ∈ rs | None => ∀ c, (k, c) ∉ rs end.
Proof.
  intros W. unfold rs_get. pose proof (binary_search_by_key_spec fst k rs (wr_order _ W)) as H. destruct (binary_search_by_key k fst rs) as [i|i].
  - destruct H as ([k' c] & Hl & <-). rewrite Hl. cbn. by apply list_elem_of_lookup_2 in Hl.
  - destruct H as (_ & H1 & H2). intros c Hc. rewrite <- (take_drop i rs) in Hc. rewrite Forall_forall in H1, H2.
    apply elem_of_app in Hc as [Hc|Hc]; [specialize (H1 _ Hc)|specialize (H2 _ Hc)]; cbn in *; lia.
Qed.

Lemma wf_rows_inj rs k c d : wf_rows rs → (k, c) ∈ rs → (k, d) ∈ rs → c = d.
Proof.
  intros W. induction rs as [|e rs IH]; [intros H; by apply not_elem_of_nil in H|]. apply wf_rows_cons in W as (_ & F & W). rewrite Forall_forall in F.
  intros [E1|H1]%elem_of_cons [E2|H2]%elem_of_cons; [congruence| | |auto].
  - specialize (F _ H2). rewrite <- E1 in F. cbn in F. lia.
  - specialize (F _ H1). rewrite <- E2 in F. cbn in F. lia.
Qed.

Lemma rs_contains_ok rs r : wf_rows rs → rs_contains rs r = true ↔ in_rows rs (local_of r).
Proof.
  intros W. unfold rs_contains, in_rows. pose proof (rs_get_spec rs (local_of r / CONTAINER_WIDTH) W) as H. change CONTAINER_WIDTH with (2 ^ 16) in *.
  change 65536 with (2 ^ 16). rewrite Z.mod_mod by lia. destruct (rs_get rs (local_of r / 2 ^ 16)) as [c|]; [|split; [done|]; intros (c & Hc & _); by apply H in Hc].
  pose proof (proj1 (Forall_forall _ _) (wr_slots _ W) _ H) as (_ & Wc & _). cbn in Wc.
  rewrite contains_members by (try exact Wc; apply Z.mod_pos_bound; lia). split; [eauto|]. intros (d & Hd & Hm). by rewrite (wf_rows_inj _ _ _ _ W H Hd).
Qed.

Lemma rs_is_empty_ok rs : wf_rows rs → rs_is_empty rs = true ↔ ∀ x, ¬ in_rows rs x.
Proof.
  intros W. destruct rs as [|[k c] rs]; cbn; [split; [intros _ x; apply in_rows_nil|done]|]. split; [done|]. intros H. exfalso.
  apply wf_rows_cons in W as ((Hk & Hc & Hm) & _). cbn in Hk, Hc, Hm. destruct (members c) as [|u l] eqn:E; [done|].
  assert (Hu : u ∈ members c) by (rewrite E; by left). pose proof (members_u16 c u Hc Hu) as Hu'. unfold u16 in Hu'.
  apply (H (k * 2 ^ 16 + u)). apply in_rows_cons. left. apply in_rows_one. rewrite Z.add_comm, Z.div_add, Z.mod_add, Z.div_small, Z.mod_small by lia. split; [lia|exact Hu].
Qed.

(** * The records of a row *)

(** Offsets in the shard, slot after slot. *)
Definition locals (rs : RowSet) : list Z := concat (map (λ e, map (λ o, fst e * 2 ^ 16 + o) (members (snd e))) rs).

Lemma ascending_shift k l : ascending l → ascending (map (λ o, k + o) l).
Proof.
  induction 1 as [|x l H IH F]; [constructor|]. cbn. constructor; [exact IH|]. apply Forall_forall. intros y (z & -> & Hz)%list_elem_of_fmap.
  rewrite Forall_forall in F. specialize (F z Hz). lia.
Qed.

Lemma ascending_app l k : ascending l → ascending k → (∀ x y, x ∈ l → y ∈ k → x < y) → ascending (l ++ k).
Proof.
  induction l as [|x l IH]; [done|]. intros [H F]%StronglySorted_inv Hk Hlt. cbn. constructor.
  - apply IH; auto. intros y z Hy Hz. apply Hlt; [by right|exact Hz].
  - apply Forall_app. split; [exact F|]. apply Forall_forall. intros y Hy. apply Hlt; [by left|exact Hy].
Qed.

Lemma elem_locals rs x : wf_rows rs → x ∈ locals rs ↔ in_rows rs x.
Proof.
  induction rs as [|[k c] rs IH]; intros W; [split; [intros H; by apply not_elem_of_nil in H|intros H; by apply in_rows_nil in H]|].
  apply wf_rows_cons in W as ((_ & Hc & _) & _ & W). cbn in Hc. unfold locals. cbn [map concat fst snd]. rewrite elem_of_app, in_rows_cons, in_rows_one. fold (locals rs).
  rewrite (IH W). f_equiv. change (map (λ o, k * 2 ^ 16 + o) (members c)) with ((λ o, k * 2 ^ 16 + o) <$> members c). rewrite list_elem_of_fmap. split.
  - intros (o & -> & Ho). pose proof (members_u16 c o Hc Ho) as Hu. unfold u16 in Hu.
    rewrite Z.add_comm, Z.div_add, Z.mod_add, Z.div_small, Z.mod_small by lia. split; [lia|exact Ho].
  - intros [E H]. exists (x mod 2 ^ 16). split; [|exact H]. pose proof (Z.div_mod x (2 ^ 16)). lia.
Qed.

Lemma locals_ascending rs : wf_rows rs → ascending (locals rs).
Proof.
  induction rs as [|[k c] rs IH]; intros W; [constructor|]. apply wf_rows_cons in W as ((_ & Hc & _) & F & W). cbn in Hc, F.
  unfold locals. cbn [map concat fst snd]. fold (locals rs). apply ascending_app; [by apply ascending_shift, members_ascending|by apply IH|].
  intros x y (o & -> & Ho)%list_elem_of_fmap (d & Hd & _)%elem_locals; [|exact W]. pose proof (members_u16 c o Hc Ho) as Hu. unfold u16 in Hu.
  rewrite Forall_forall in F. specialize (F _ Hd). cbn in F. pose proof (Z.div_mod y (2 ^ 16)). pose proof (Z.mod_pos_bound y (2 ^ 16)). lia.
Qed.

Lemma locals_length rs : wf_rows rs → Z.of_nat (length (locals rs)) <= 2 ^ 20.
Proof.
  intros W. pose proof (submseteq_length (locals rs) (seqZ 0 (2 ^ 20))) as H. rewrite length_seqZ in H.
  enough (H' : (length (locals rs) <= Z.to_nat (2 ^ 20))%nat) by (apply Nat2Z.inj_le in H'; rewrite Z2Nat.id in H' by lia; exact H').
  apply H. apply NoDup_submseteq; [by apply ascending_NoDup, locals_ascending|]. intros x Hx%elem_locals; [|exact W]. apply elem_of_seqZ. pose proof (in_rows_slot rs x W Hx). lia.
Qed.

Lemma rs_cardinality_ok rs : wf_rows rs → rs_cardinality rs = Z.of_nat (length (locals rs)).
Proof.
  intros W. pose proof (locals_length rs W) as Hl. unfold rs_cardinality. revert W Hl. induction rs as [|[k c] rs IH]; [done|]. intros W.
  apply wf_rows_cons in W as ((_ & Hc & _) & _ & W). cbn in Hc. unfold locals. cbn [map concat fst snd foldr]. fold (locals rs). rewrite length_app, length_map. intros Hl.
  rewrite IH by (try exact W; lia). rewrite cardinality_members by exact Hc. unfold wrap64. rewrite Z.mod_small; lia.
Qed.

Lemma record_small shard k o : 0 <= shard < 2 ^ 44 → 0 <= k < 16 → u16 o → record_of_slot shard k o = shard * 2 ^ 20 + (k * 2 ^ 16 + o).
Proof.
  intros Hs Hk Ho. unfold record_of_slot, wrap64, u16 in *. change SHARD_WIDTH with (2 ^ 20). change CONTAINER_WIDTH with (2 ^ 16). rewrite Z.mod_small; lia.
Qed.

Lemma rs_records_ok shard rs : 0 <= shard < 2 ^ 44 → wf_rows rs → rs_records shard rs = map (λ x, shard * 2 ^ 20 + x) (locals rs).
Proof.
  intros Hs. induction rs as [|[k c] rs IH]; intros W; [done|]. apply wf_rows_cons in W as ((Hk & Hc & _) & _ & W). cbn in Hk, Hc.
  unfold rs_records, locals. cbn [map concat fst snd]. fold (locals rs) (rs_records shard rs). rewrite map_app, (IH W), map_map, values_members by exact Hc. f_equal.
  apply map_ext_in. intros o Ho%list_elem_of_In. apply record_small; try assumption. by apply (members_u16 c).
Qed.

Lemma ssorted_impl {A} (R S : A → A → Prop) l : (∀ x y, R x y → S x y) → StronglySorted R l → StronglySorted S l.
Proof. intros H. induction 1 as [|x l _ IH F]; constructor; [exact IH|]. eapply Forall_impl; [exact F|]. apply H. Qed.

Lemma wf_rows_drop n rs : wf_rows rs → wf_rows (drop n rs).
Proof. intros W. rewrite <- (take_drop n rs) in W. by apply wf_rows_app in W as (_ & W & _). Qed.

Lemma filter_all_false {A} (f : A → bool) l : (∀ x, x ∈ l → f x = false) → List.filter f l = [].
Proof. induction l as [|x l IH]; intros H; [done|]. cbn. rewrite H by (by left). apply IH. intros y Hy. apply H. by right. Qed.

(** From a floor in the shard or past it, the skipped slots hold nothing the filter would keep. *)
Lemma rs_records_from_ok shard from rs :
  0 <= shard < 2 ^ 44 → wf_rows rs → shard * 2 ^ 20 <= from < 2 ^ 64 → rs_records_from shard from rs = List.filter (λ r, from <=? r) (rs_records shard rs).
Proof.
  intros Hs W Hf. unfold rs_records_from. set (s := Z.shiftr (local_of from) CONTAINER_EXPONENT).
  assert (Es : s = local_of from / 2 ^ 16) by (apply Z.shiftr_div_pow2; lia).
  destruct (partition_point_spec (λ e : Z * Container, fst e <? s) rs) as (_ & Ht & _).
  { eapply ssorted_impl; [|exact (wr_order _ W)]. cbn. intros x y Hxy. rewrite !Z.ltb_lt. lia. }
  set (n := partition_point _ rs) in *. rewrite <- (take_drop n rs) at 2. unfold rs_records. rewrite map_app, concat_app, List.filter_app.
  rewrite (filter_all_false _ (concat (map _ (take n rs)))); [done|]. fold (rs_records shard (take n rs)).
  assert (Wt : wf_rows (take n rs)) by (rewrite <- (take_drop n rs) in W; by apply wf_rows_app in W as (Wt & _)).
  rewrite rs_records_ok by assumption. intros r (x & -> & Hx)%list_elem_of_fmap. apply Z.leb_gt.
  apply elem_locals in Hx; [|exact Wt]. pose proof (in_rows_slot _ _ Wt Hx). destruct Hx as (c & Hc & _). rewrite Forall_forall in Ht. specialize (Ht _ Hc).
  cbn in Ht. apply Z.ltb_lt in Ht. rewrite local_of_mod in Es.
  assert (from = from / 2 ^ 20 * 2 ^ 20 + from mod 2 ^ 20) by (pose proof (Z.div_mod from (2 ^ 20)); lia).
  assert (shard <= from / 2 ^ 20) by (apply Z.div_le_lower_bound; lia).
  assert (x < from mod 2 ^ 20); [|nia]. apply Z.lt_le_trans with (s * 2 ^ 16); [|rewrite Es; pose proof (Z.mul_div_le (from mod 2 ^ 20) (2 ^ 16)); lia].
  pose proof (Z.div_mod x (2 ^ 16)). pose proof (Z.mod_pos_bound x (2 ^ 16)). nia.
Qed.

(** A floor in an earlier shard is not the same as no floor: slots below the slot the floor would have
    in its own shard are skipped. *)
Example floor_of_earlier_shard :
  let rs := [(0, Array [5])] in rs_records 1 rs = [1048581] ∧ rs_records_from 1 65536 rs = [].
Proof. by vm_compute. Qed.

(** C18.  A row is a set of records.  The four operations of rows are the operations on sets of records,
    and keep rows in their form; membership, emptiness and cardinality answer for that set; the
    iterator gives its records once each, in ascending order, and from a floor in the shard or past it,
    those from the floor on. *)
Theorem rowset_is_a_set shard a b op :
  0 <= shard < 2 ^ 44 → wf_rows a → wf_rows b →
  let holds rs r := shard_of r = shard ∧ in_rows rs (local_of r) in
  (wf_rows (combine op a b) ∧ ∀ r, holds (combine op a b) r ↔ shard_of r = shard ∧ op_spec op (holds a r) (holds b r)) ∧
  (∀ r, shard_of r = shard → rs_contains a r = true ↔ holds a r) ∧
  (rs_is_empty a = true ↔ ∀ r, record_ok r → ¬ holds a r) ∧
  ascending (rs_records shard a) ∧ (∀ r, r ∈ rs_records shard a ↔ record_ok r ∧ holds a r) ∧
  rs_cardinality a = Z.of_nat (length (rs_records shard a)) ∧
  ∀ from, shard * 2 ^ 20 <= from < 2 ^ 64 → rs_records_from shard from a = List.filter (λ r, from <=? r) (rs_records shard a).
Proof.
  intros Hs Wa Wb holds. destruct (combine_ok op a b Wa Wb) as [Wc Hc].
  assert (Hr : ∀ r, r ∈ rs_records shard a ↔ record_ok r ∧ holds a r).
  { intros r. rewrite rs_records_ok by assumption. change (map (λ x, shard * 2 ^ 20 + x) (locals a)) with ((λ x, shard * 2 ^ 20 + x) <$> locals a).
    rewrite list_elem_of_fmap. unfold holds, record_ok. rewrite shard_of_div, local_of_mod. split.
    - intros (x & -> & Hx). apply elem_locals in Hx; [|exact Wa]. pose proof (in_rows_slot _ _ Wa Hx).
      rewrite Z.add_comm, Z.div_add, Z.mod_add, Z.div_small, Z.mod_small by lia. split; [lia|]. split; [lia|exact Hx].
    - intros (Ho & E & H). exists (r mod 2 ^ 20). split; [pose proof (Z.div_mod r (2 ^ 20)); lia|by apply elem_locals]. }
  split; [split; [exact Wc|]; intros r; unfold holds; rewrite Hc; destruct op; cbn; tauto|].
  split; [intros r Hsh; unfold holds; rewrite rs_contains_ok by exact Wa; tauto|]. split.
  { rewrite rs_is_empty_ok by exact Wa. split; [intros H r _ [_ Hin]; exact (H _ Hin)|]. intros H x Hx. pose proof (in_rows_slot _ _ Wa Hx).
    apply (H (shard * 2 ^ 20 + x)); [unfold record_ok; lia|]. unfold holds. rewrite shard_of_div, local_of_mod.
    rewrite Z.add_comm, Z.div_add, Z.mod_add, Z.div_small, Z.mod_small by lia. split; [lia|exact Hx]. }
  split; [rewrite rs_records_ok by assumption; by apply ascending_shift, locals_ascending|]. split; [exact Hr|].
  split; [rewrite rs_cardinality_ok, rs_records_ok, length_map by assumption; reflexivity|]. intros from Hf. by apply rs_records_from_ok.
Qed.

Lemma sample_rows : wf_rows [(0, Array [5; 9])] ∧ wf_rows [(0, Array [9]); (3, Array [1])].
Proof. split; repeat constructor; cbn; (lia || done || apply array_wf || idtac). Qed.

Lemma rowset_is_a_set_witness :
  wf_rows (combine Or [(0, Array [5; 9])] [(0, Array [9]); (3, Array [1])]) ∧
  rs_records 2 (combine Or [(0, Array [5; 9])] [(0, Array [9]); (3, Array [1])]) = [2097157; 2097161; 2293761].
Proof.
  destruct sample_rows as [Wa Wb].
  destruct (rowset_is_a_set 2 [(0, Array [5; 9])] [(0, Array [9]); (3, Array [1])] Or ltac:(lia) Wa Wb) as ((H & _) & _). split; [exact H|]. vm_compute. reflexivity.
Defined.
