(* ===== verification/FragRead.v ===== *)
(** Reading a fragment (crates/big-engine/src/bitmap/read.rs): one fragment is one tree, a row of it is
    sixteen consecutive container keys.

    A closure of the source is a function of the state it captures; [true] is [ControlFlow::Break].
    [Pager::verify_bitmap] is the trait's own body, which recomputes the checksum: the mapped backend's
    memo of pages already verified is not modelled. *)
From S2P Require Import Prelude Bits Search Container SetOps Optimize Cardinality Page Leaf Pager BTree BTreeShow RangeMap Coords RowSet OrdMap.

Record FragmentRead (P : Type) := mkFragmentRead { fr_pager : P; fr_root : Z; fr_shard : Z }.
#[global] Arguments mkFragmentRead {P}.
#[global] Arguments fr_pager {P}.
#[global] Arguments fr_root {P}.
#[global] Arguments fr_shard {P}.

Section read.
Context {X : Extern} {P : Type} `{!Pager P}.
Implicit Types (f : FragmentRead P).

Definition verify_bitmap (page : Page) (expected : Z) : bool := bitmap_page_checksum page =? expected.

Definition verified_base f (cell : LeafCell) : Res BTreeError Page :=
  page ← from_store (pager_read (fr_pager f) (lc_bitmap_pgno cell));
  if negb (verify_bitmap page (lc_bitmap_checksum cell)) then Err (BPage (checksum_error cell page)) else Ok page.

Section each.
Context {S : Type} (g : S → Z → Container → S * bool).

(** [FragmentRead::visit]. *)
Definition visit_cell f (st : S) (cell : LeafCell) : Res BTreeError (S * bool) :=
  match lc_ty cell with
  | TBitmapPtr =>
      page ← verified_base f cell;
      c ← from_page (bitmap_checked cell page);
      Ok (g st (lc_key cell) c)
  | TBitmapDelta =>
      page ← verified_base f cell;
      owned ← from_page (resolve_checked cell (Some page));
      Ok (g st (lc_key cell) owned)
  | _ =>
      o ← from_page (container cell);
      Ok (match o with Some c => g st (lc_key cell) c | None => (st, false) end)
  end.

(** [for_each]: the error of a visit is carried out of the scan in [err]. *)
Definition for_each f (lo hi : Z) (st : S) : Res BTreeError S :=
  '(st, err) ← scan (λ '(st, err) cell,
      match visit_cell f st cell with
      | Ok (st', flow) => ((st', err), flow)
      | Err e => ((st, Err e), true)
      | Panic => ((st, Panic), true)
      end) (fr_pager f) (fr_root f) lo hi (st, Ok tt);
  _ ← (err : Res BTreeError unit); Ok st.
End each.

Definition fr_container f (ckey : Z) : Res BTreeError (option Container) :=
  for_each (λ _ _ c, (Some c, true)) f ckey ckey None.

Definition row f (r : Z) : Res BTreeError RowSet :=
  let span := row_ckeys r in
  for_each (λ set k c, (rs_insert set (slot_of_ckey k) c, false)) f (fst span) (snd span) rs_new.

(** [match out.last_mut()]: added to the row at hand, or a row of its own. *)
Definition bump (out : list (Z * Z)) (r n : Z) : list (Z * Z) :=
  match last out with
  | Some (r', total) => if r' =? r then removelast out ++ [(r', wrap64 (total + n))] else out ++ [(r, n)]
  | None => out ++ [(r, n)]
  end.

Definition row_counts_where f (filter : RowSet) : Res BTreeError (list (Z * Z)) :=
  for_each (λ out ckey c,
    match rs_get filter (slot_of_ckey ckey) with
    | None => (out, false)
    | Some here =>
        let n := and_cardinality c here in
        ((if 0 <? n then bump out (row_of_ckey ckey) n else out), false)
    end) f 0 u64_max [].

Definition row_count f (r : Z) : Res BTreeError Z :=
  let span := row_ckeys r in
  scan (λ total c, (wrap64 (total + lc_cardinality c), false)) (fr_pager f) (fr_root f) (fst span) (snd span) 0.

Definition fr_count f : Res BTreeError Z := count (fr_pager f) (fr_root f).

(** [FragmentRead::cell_contains]. *)
Definition fr_cell_contains f (cell : LeafCell) (offset : Z) : Res BTreeError bool :=
  match lc_ty cell with
  | TBitmapPtr | TBitmapDelta => page ← verified_base f cell; from_page (contains_checked cell (Some page) offset)
  | _ => from_page (contains_checked cell None offset)
  end.

Definition fr_get f (r record : Z) : Res BTreeError bool :=
  let pos := pos_of r record in
  let want := offset_in_container pos in
  hit ← find (fr_pager f) (fr_root f) (ckey_of pos);
  match hit with
  | None => Ok false
  | Some hit => cell ← found_cell hit; fr_cell_contains f cell want
  end.

(** What [get_many] looks for: container keys, with the row each one answers for. *)
Definition wanted (rows : list Z) (record : Z) : list (Z * (Z * Z)) :=
  foldl (λ want r, let pos := pos_of r record in om_insert want (ckey_of pos) (r, offset_in_container pos)) [] rows.

Definition get_many f (rows : list Z) (record : Z) : Res BTreeError (list (Z * bool)) :=
  let want := wanted rows record in
  find_many (λ out ckey cell,
    '(r, offset) ← unwrap (om_get ckey want);
    found ← (match cell with Some cell => fr_cell_contains f cell offset | None => Ok false end);
    Ok (om_insert out r found)) (fr_pager f) (fr_root f) (map fst want) [].

(** [if out.last() != Some(&r) && c.cardinality > 0 { out.push(r) }]. *)
Definition push_row (out : list Z) (key card : Z) : list Z :=
  let r := row_of_ckey key in if negb (bool_decide (last out = Some r)) && (0 <? card) then out ++ [r] else out.

Definition fr_rows f : Res BTreeError (list Z) :=
  scan (λ out c, (push_row out (lc_key c) (lc_cardinality c), false)) (fr_pager f) (fr_root f) 0 u64_max [].
End read.

(** * What a fragment's readers see *)

(** [x], an offset in the shard, is set in row [r]. *)
Definition bit (kcs : list (Z * Container)) (r x : Z) : Prop := ∃ c, (r * 16 + x / 2 ^ 16, c) ∈ kcs ∧ x mod 2 ^ 16 ∈ members c.

(** [for_each] on a list of containers. *)
Fixpoint over {S} (g : S → Z → Container → S * bool) (st : S) (kcs : list (Z * Container)) : S * bool :=
  match kcs with
  | [] => (st, false)
  | (k, c) :: kcs' => let '(st, brk) := g st k c in if brk then (st, true) else over g st kcs'
  end.
Definition span (lo hi : Z) (kcs : list (Z * Container)) : list (Z * Container) := List.filter (λ e, (lo <=? fst e) && (fst e <=? hi)) kcs.

Definition same_sets (a b : list (Z * Container)) : Prop := Forall2 (λ x y, fst x = fst y ∧ wf (snd x) ∧ members (snd x) = members (snd y)) a b.

Section seen.
Context {X : Extern} {P : Type} `{!Pager P}.
Implicit Types (f : FragmentRead P).

(** What every reader makes of a cell: one container. *)
Record reads f (cell : LeafCell) (e : Z * Container) : Prop := {
  rd_key : lc_key cell = fst e;
  rd_card : lc_cardinality cell = cardinality (snd e);
  rd_wf : wf (snd e);
  rd_visit : ∀ S (g : S → Z → Container → S * bool) st, visit_cell g f st cell = Ok (g st (fst e) (snd e));
  rd_point : ∀ u, u16 u → fr_cell_contains f cell u = Ok (contains (snd e) u)
}.

Lemma same_members_card a b : wf a → wf b → members a = members b → cardinality a = cardinality b.
Proof. intros Ha Hb H. rewrite !cardinality_members by done. by rewrite H. Qed.

Lemma cell_reads f cell e : cell_shows (fr_pager f) cell e → ∃ k, reads f cell (fst e, k) ∧ members k = members (snd e).
Proof.
  intros (Hk & Hc & We & o & k & Hp & Hr & Hw & Hm & Hpt). exists k. split; [|exact Hm].
  assert (Hbase : ∀ page, pager_read (fr_pager f) (lc_bitmap_pgno cell) = Ok page → verify_base cell page = Ok tt → verified_base f cell = Ok page).
  { intros page Hrd Hv. unfold verified_base, verify_bitmap, verify_base in *. rewrite Hrd. cbn. by destruct (bitmap_page_checksum page =? lc_bitmap_checksum cell). }
  assert (Hd : owns_page (lc_ty cell) = true → ∃ page, o = Some page ∧ verified_base f cell = Ok page ∧ resolve_checked cell o = Ok k).
  { intros E. unfold cell_page in Hp. rewrite E in Hp. destruct Hp as (page & Hrd & ->). unfold resolve, verify_if_based, has_base in Hr. rewrite E in Hr.
    exists page. destruct (verify_base cell page) as [[]| |] eqn:Hv; try discriminate Hr. auto. }
  assert (Hi : owns_page (lc_ty cell) = false → o = None ∧ resolve_checked cell None = Ok k).
  { intros E. unfold cell_page in Hp. rewrite E in Hp. subst o. split; [done|exact Hr]. }
  split; cbn [fst snd]; [exact Hk|rewrite Hc; by apply same_members_card|exact Hw| |].
  - intros S g st. rewrite <- Hk. unfold visit_cell. unfold resolve_checked in Hd, Hi. unfold bitmap_checked, container in *.
    destruct (lc_ty cell) eqn:Ety; cbn [owns_page] in *; try (destruct (Hi eq_refl) as [_ Hi']; clear Hd Hi); try (destruct (Hd eq_refl) as (page & -> & Hv & Hd'); clear Hd Hi; rewrite Hv; cbn in *).
    all: try discriminate. all: cbn in *. all: try (rewrite Hd'; reflexivity).
    + by destruct (ok_or (try_cast_u16 _ _) _); [injection Hi' as <-| |].
    + by destruct (ok_or (try_cast_interval _ _) _); [injection Hi' as <-| |].
    + unfold resolve_checked. rewrite Ety. cbn [ok_or mbind Res_bind]. rewrite Hd'. reflexivity.
    + destruct (Hd eq_refl) as (page & _ & _ & Hd'). discriminate Hd'.
  - intros u Hu. unfold fr_cell_contains. specialize (Hpt u Hu).
    destruct (lc_ty cell) eqn:Ety; cbn [owns_page] in *; try (destruct (Hi eq_refl) as [-> _]; by rewrite Hpt); destruct (Hd eq_refl) as (page & -> & Hv & Hd'); try (rewrite Hv; cbn; by rewrite Hpt).
    unfold resolve_checked in Hd'. rewrite Ety in Hd'. discriminate Hd'.
Qed.

Lemma shows_reads f kcs : shows (fr_pager f) (fr_root f) kcs →
  ∃ cells ks, tree_of (fr_pager f) (fr_root f) cells ∧ Forall2 (reads f) cells ks ∧ same_sets ks kcs.
Proof.
  intros (cells & Ht & Hs). exists cells.
  enough (∃ ks, Forall2 (reads f) cells ks ∧ same_sets ks kcs) as (ks & H1 & H2) by (exists ks; auto). clear Ht.
  induction Hs as [|cell e cells kcs Hc Hs IH]; [exists []; split; constructor|].
  destruct (cell_reads f cell e Hc) as (k & Hk & Hm). destruct IH as (ks & H1 & H2). exists ((fst e, k) :: ks). split; constructor; try assumption.
  cbn. split; [done|]. split; [exact (rd_wf _ _ _ Hk)|exact Hm].
Qed.
End seen.

(** * The readers, on the containers of the tree *)
Lemma over_fold {S} (h : S → Z → Container → S) l : ∀ st, over (λ st k c, (h st k c, false)) st l = (foldl (λ st e, h st (fst e) (snd e)) st l, false).
Proof. induction l as [|[k c] l IH]; intros st; [done|]. cbn. apply IH. Qed.

Lemma over_ext {S} (g g' : S → Z → Container → S * bool) l : (∀ st k c, g st k c = g' st k c) → ∀ st, over g st l = over g' st l.
Proof. intros H. induction l as [|[k c] l IH]; intros st; [done|]. cbn [over]. rewrite H. destruct (g' st k c) as [st' []]; [done|apply IH]. Qed.

Lemma ascending_lt_last l z x : ascending (l ++ [z]) → x ∈ l → x < z.
Proof.
  induction l as [|y l IH]; [intros _ H; by apply not_elem_of_nil in H|]. cbn [app]. intros [H F]%StronglySorted_inv [->|Hx]%elem_of_cons; [|by apply IH].
  rewrite Forall_forall in F. apply F, elem_of_app. right. by left.
Qed.

Section open.
Context {X : Extern} {P : Type} `{!Pager P} (f : FragmentRead P) (cells : list LeafCell) (ks : list (Z * Container)).
Hypothesis Ht : tree_of (fr_pager f) (fr_root f) cells.
Hypothesis Hr : Forall2 (reads f) cells ks.

Lemma keys_same : map lc_key cells = map fst ks.
Proof. pose proof Hr as Hr0. clear Ht Hr. induction Hr0 as [|c e cells' ks' H _ IH]; [done|]. cbn. by rewrite (rd_key _ _ _ H), IH. Qed.

Lemma ks_order : om_ok ks.
Proof.
  destruct Ht as [_ Ho _]. revert Ho. unfold in_order. pose proof Hr as Hr0. clear Ht Hr. induction Hr0 as [|c e cells' ks' H Hr' IH]; intros Ho; [constructor|].
  apply StronglySorted_inv in Ho as [Ho F]. apply om_ok_cons. split; [|by apply IH]. clear -F H Hr'.
  induction Hr' as [|c' e' cells' ks' H' _ IH]; [constructor|]. apply Forall_cons in F as [F1 F2]. constructor; [|by apply IH].
  rewrite <- (rd_key _ _ _ H), <- (rd_key _ _ _ H'). exact F1.
Qed.

Lemma ks_bounds : Forall (λ e, 0 <= fst e < 2 ^ 64 ∧ wf (snd e)) ks.
Proof.
  destruct Ht as [_ _ Hk]. revert Hk. pose proof Hr as Hr0. clear Ht Hr. induction Hr0 as [|c e cells' ks' H _ IH]; intros Hk; [constructor|].
  apply Forall_cons in Hk as [Hk1 Hk2]. constructor; [|by apply IH]. rewrite <- (rd_key _ _ _ H). split; [exact Hk1|exact (rd_wf _ _ _ H)].
Qed.

Lemma range_reads lo hi : Forall2 (reads f) (in_range lo hi cells) (span lo hi ks).
Proof.
  pose proof Hr as Hr0. clear Ht Hr. induction Hr0 as [|c e cells' ks' H _ IH]; [constructor|]. unfold in_range, span. cbn [List.filter].
  rewrite (rd_key _ _ _ H). destruct ((lo <=? fst e) && (fst e <=? hi)); [constructor; assumption|exact IH].
Qed.

Lemma visit_over {S} (g : S → Z → Container → S * bool) cs es : Forall2 (reads f) cs es → ∀ st,
  fst (visit (λ '(st, err) cell, match visit_cell g f st cell with
    | Ok (st', flow) => ((st', err), flow) | Err e => ((st, Err e), true) | Panic => ((st, Panic), true) end) (st, Ok tt) cs) = (fst (over g st es), Ok tt).
Proof.
  induction 1 as [|c [k e] cs es H _ IH]; intros st; [done|]. cbn [visit over]. rewrite (rd_visit _ _ _ H). cbn [fst snd].
  destruct (g st k e) as [st' []]; [done|]. apply IH.
Qed.

Lemma for_each_ok {S} (g : S → Z → Container → S * bool) lo hi st : for_each g f lo hi st = Ok (fst (over g st (span lo hi ks))).
Proof.
  unfold for_each. destruct Ht as [(h & Hh & Hat) Ho _]. rewrite (scan_ok _ _ _ _ _ _ _ cells Hat Ho Hh). cbn [mbind Res_bind].
  rewrite (visit_over g _ _ (range_reads lo hi)). done.
Qed.

Lemma scan_cards {S} (h : S → Z → Z → S) lo hi st :
  scan (λ st c, (h st (lc_key c) (lc_cardinality c), false)) (fr_pager f) (fr_root f) lo hi st =
  Ok (foldl (λ st e, h st (fst e) (cardinality (snd e))) st (span lo hi ks)).
Proof.
  destruct Ht as [(ht & Hh & Hat) Ho _]. rewrite (scan_ok _ _ _ _ _ _ _ cells Hat Ho Hh). f_equal. generalize (range_reads lo hi). generalize (in_range lo hi cells) (span lo hi ks).
  intros cs es H. revert st. induction H as [|c e cs es H _ IH]; intros st; [done|]. cbn [visit foldl]. rewrite (rd_key _ _ _ H), (rd_card _ _ _ H). apply IH.
Qed.

Lemma cell_of_reads k : match cell_of cells k, om_get k ks with Some c, Some d => reads f c (k, d) | None, None => True | _, _ => False end.
Proof.
  unfold cell_of. pose proof Hr as Hr0. clear Ht Hr. induction Hr0 as [|c [k' d] cells' ks' H _ IH]; [done|]. cbn [List.find]. rewrite om_get_cons. pose proof (rd_key _ _ _ H) as E. cbn in E. rewrite E. cbn [fst snd].
  destruct (Z.eqb_spec k' k) as [<-|]; [exact H|exact IH].
Qed.

(** One offset of one container. *)
Definition has (kcs : list (Z * Container)) (k o : Z) : bool := match om_get k kcs with Some c => contains c o | None => false end.

Lemma get_ok r record : fr_get f r record = Ok (has ks (ckey_of (pos_of r record)) (offset_in_container (pos_of r record))).
Proof.
  unfold fr_get, has. destruct Ht as [(h & Hh & Hat) Ho _]. set (k := ckey_of _). destruct (find_ok (fr_pager f) h (fr_root f) k cells Hat Ho Hh) as (hit & -> & Hhit).
  cbn [mbind Res_bind]. pose proof (cell_of_reads k) as H. destruct (cell_of cells k) as [c|], (om_get k ks) as [d|]; try done; [|by rewrite Hhit].
  destruct Hhit as (hit' & -> & ->). cbn [mbind Res_bind]. apply (rd_point _ _ _ H). rewrite offset_mod. apply Z.mod_pos_bound. lia.
Qed.

Lemma elem_span lo hi (l : list (Z * Container)) e : e ∈ span lo hi l ↔ e ∈ l ∧ lo <= fst e <= hi.
Proof. unfold span. rewrite !list_elem_of_In, filter_In, andb_true_iff, !Z.leb_le. tauto. Qed.

(** Containers of one row, in key order, make that row. *)
Definition of_row r (l : list (Z * Container)) : Prop := om_ok l ∧ Forall (λ e, r * 16 <= fst e <= r * 16 + 15 ∧ wf (snd e)) l.
Definition gather (l : list (Z * Container)) : RowSet := foldl (λ set e, rs_insert set (slot_of_ckey (fst e)) (snd e)) rs_new l.

Lemma slot_in_row r k : r * 16 <= k <= r * 16 + 15 → slot_of_ckey k = k - r * 16 ∧ row_of_ckey k = r.
Proof. intros H. replace k with (r * 16 + (k - r * 16)) by lia. destruct (row_slot r (k - r * 16)) as [E1 E2]; [lia|]. rewrite E1, E2. lia. Qed.

Lemma om_ok_snoc {V} (l : list (Z * V)) e : om_ok (l ++ [e]) ↔ om_ok l ∧ Forall (λ x, fst x < fst e) l.
Proof.
  induction l as [|x l IH]; cbn [app]; [split; [split; constructor|intros _; repeat constructor]|]. rewrite !om_ok_cons, IH, Forall_app, !Forall_cons. split.
  - intros ((H1 & H2 & _) & H3 & H4). auto.
  - intros ((H1 & H2) & H3 & H4). auto.
Qed.

Lemma gather_ok r l : of_row r l →
  wf_rows (gather l) ∧ (∀ x, x ∈ gather l → ∃ e, e ∈ l ∧ fst x = slot_of_ckey (fst e)) ∧ ∀ x, in_rows (gather l) x ↔ 0 <= x < 2 ^ 20 ∧ bit l r x.
Proof.
  induction l as [|e l IH] using rev_ind.
  - intros _. split; [apply wf_rows_nil|]. split; [intros x Hx; by apply not_elem_of_nil in Hx|]. intros x. split; [intros H; by apply in_rows_nil in H|].
    intros (_ & c & H & _). by apply not_elem_of_nil in H.
  - intros [[Ho Hlt]%om_ok_snoc [F [(He & Hw) _]%Forall_cons]%Forall_app]. destruct IH as (W & Hs & Hin); [by split|].
    unfold gather. rewrite foldl_app. cbn [foldl]. fold (gather l). destruct (slot_in_row r (fst e) He) as [Es _].
    assert (Fk : Forall (λ x, fst x < slot_of_ckey (fst e)) (gather l)).
    { apply Forall_forall. intros x (e' & He' & ->)%Hs. rewrite Forall_forall in F, Hlt. destruct (F _ He') as [Hk _]. specialize (Hlt _ He').
      destruct (slot_in_row r (fst e') Hk) as [-> _]. lia. }
    destruct (rs_insert_end (gather l) (slot_of_ckey (fst e)) (snd e) W Fk ltac:(lia) Hw) as (Eq & W' & Hin'). split; [exact W'|]. split.
    + intros x Hx. rewrite Eq in Hx. destruct (is_empty (snd e)).
      * destruct (Hs _ Hx) as (e' & ? & ?). exists e'. split; [apply elem_of_app; by left|done].
      * apply elem_of_app in Hx as [Hx| ->%list_elem_of_singleton]; [destruct (Hs _ Hx) as (e' & ? & ?); exists e'; split; [apply elem_of_app; by left|done]|].
        exists e. split; [apply elem_of_app; right; by left|done].
    + intros x. rewrite Hin', Hin, in_rows_one, Es. unfold bit. setoid_rewrite elem_of_app. setoid_rewrite list_elem_of_singleton. split.
      * intros [(Hx & c & Hc & Hm)|[E Hm]]; [split; [exact Hx|]; exists c; auto|]. pose proof (Z.div_mod x (2 ^ 16)). pose proof (Z.mod_pos_bound x (2 ^ 16)).
        split; [lia|]. exists (snd e). split; [right; destruct e; cbn in *; f_equal; lia|exact Hm].
      * intros (Hx & c & [Hc|<-] & Hm); [left; split; [exact Hx|]; exists c; auto|right]. cbn in *. split; [lia|exact Hm].
Qed.

Lemma span_row r : row_ok r → of_row r (span (fst (row_ckeys r)) (snd (row_ckeys r)) ks).
Proof.
  intros H. rewrite row_ckeys_span by exact H. cbn [fst snd]. split; [apply om_ok_filter, ks_order|]. apply Forall_forall. intros e [He Hb]%elem_span. split; [exact Hb|].
  pose proof ks_bounds as Hk. rewrite Forall_forall in Hk. by apply Hk.
Qed.

Lemma bit_span r x : row_ok r → 0 <= x < 2 ^ 20 → bit (span (fst (row_ckeys r)) (snd (row_ckeys r)) ks) r x ↔ bit ks r x.
Proof.
  intros H Hx. rewrite row_ckeys_span by exact H. unfold bit. setoid_rewrite elem_span. cbn [fst snd].
  assert (0 <= x / 2 ^ 16 < 16) by (split; [apply Z.div_pos; lia|apply Z.div_lt_upper_bound; lia]). split; intros (c & Hc & Hm); exists c; [tauto|]. split; [split; [exact Hc|lia]|exact Hm].
Qed.

Lemma row_eq r : row f r = Ok (gather (span (fst (row_ckeys r)) (snd (row_ckeys r)) ks)).
Proof.
  unfold row. cbn zeta. rewrite for_each_ok. by rewrite (over_fold (λ set k c, rs_insert set (slot_of_ckey k) c)).
Qed.

Lemma row_reads r : row_ok r → ∃ rs, row f r = Ok rs ∧ wf_rows rs ∧ ∀ x, in_rows rs x ↔ 0 <= x < 2 ^ 20 ∧ bit ks r x.
Proof.
  intros H. eexists. split; [apply row_eq|]. destruct (gather_ok r _ (span_row r H)) as (W & _ & Hin). split; [exact W|]. intros x. rewrite Hin.
  split; intros [Hx Hb]; (split; [exact Hx|]); by apply bit_span.
Qed.

(** * Counts *)
Lemma gather_snoc l e : gather (l ++ [e]) = rs_insert (gather l) (slot_of_ckey (fst e)) (snd e).
Proof. unfold gather. by rewrite foldl_app. Qed.

Lemma of_row_snoc r l e : of_row r (l ++ [e]) →
  of_row r l ∧ Forall (λ x, fst x < slot_of_ckey (fst e)) (gather l) ∧ 0 <= slot_of_ckey (fst e) < 16 ∧ wf (snd e).
Proof.
  intros [[Ho Hlt]%om_ok_snoc [F [(He & Hw) _]%Forall_cons]%Forall_app]. assert (Hl : of_row r l) by (by split). split; [exact Hl|].
  destruct (gather_ok r l Hl) as (_ & Hs & _). destruct (slot_in_row r (fst e) He) as [Es _]. split; [|split; [lia|exact Hw]].
  apply Forall_forall. intros x (e' & He' & ->)%Hs. rewrite Forall_forall in F, Hlt. destruct (F _ He') as [Hk _]. specialize (Hlt _ He').
  destruct (slot_in_row r (fst e') Hk) as [-> _]. lia.
Qed.

Lemma in_rows_below rs s x : Forall (λ e, fst e < s) rs → in_rows rs x → x / 2 ^ 16 < s.
Proof. rewrite Forall_forall. intros F (c & H & _). exact (F _ H). Qed.

Lemma div_mod_eq x s o : 0 <= o < 2 ^ 16 → x = s * 2 ^ 16 + o → x / 2 ^ 16 = s ∧ x mod 2 ^ 16 = o.
Proof. intros Ho ->. rewrite Z.add_comm, Z.div_add, Z.mod_add, Z.div_small, Z.mod_small by lia. lia. Qed.

Lemma elem_shift s l x : Forall u16 l → x ∈ map (λ o, s * 2 ^ 16 + o) l ↔ x / 2 ^ 16 = s ∧ x mod 2 ^ 16 ∈ l.
Proof.
  rewrite Forall_forall. intros F. change (map (λ o, s * 2 ^ 16 + o) l) with ((λ o, s * 2 ^ 16 + o) <$> l). rewrite list_elem_of_fmap. split.
  - intros (o & E & Ho). specialize (F _ Ho). unfold u16 in F. destruct (div_mod_eq x s o F E) as [-> ->]. auto.
  - intros [E H]. exists (x mod 2 ^ 16). split; [|exact H]. pose proof (Z.div_mod x (2 ^ 16)). lia.
Qed.

Lemma members_all_u16 c : wf c → Forall u16 (members c).
Proof. intros H. apply Forall_forall. intros u. by apply members_u16. Qed.

(** A set of records grown by the slot after its last one. *)
Lemma locals_grow a b s l :
  wf_rows a → wf_rows b → (∀ x, in_rows a x → x / 2 ^ 16 < s) → ascending l → Forall u16 l →
  (∀ x, in_rows b x ↔ in_rows a x ∨ x / 2 ^ 16 = s ∧ x mod 2 ^ 16 ∈ l) → locals b = locals a ++ map (λ o, s * 2 ^ 16 + o) l.
Proof.
  intros Wa Wb Hlt Hl Hu Hb. apply ascending_ext; [by apply locals_ascending| |].
  - apply ascending_app; [by apply locals_ascending|by apply ascending_shift|]. intros x y Hx%elem_locals [Hy Hm]%elem_shift; [|exact Hu|exact Wa].
    specialize (Hlt x Hx). pose proof (Z.div_mod x (2 ^ 16)). pose proof (Z.mod_pos_bound x (2 ^ 16)). pose proof (Z.div_mod y (2 ^ 16)). pose proof (Z.mod_pos_bound y (2 ^ 16)). nia.
  - intros x. rewrite elem_of_app, !elem_locals, Hb, elem_shift by assumption. tauto.
Qed.

(** The overlap of a row with a filter, one container at a time. *)
Definition weight (filter : RowSet) (e : Z * Container) : Z :=
  match rs_get filter (slot_of_ckey (fst e)) with Some here => and_cardinality (snd e) here | None => 0 end.

Lemma overlap_step r l e (filter : RowSet) : wf_rows filter → of_row r (l ++ [e]) →
  rs_cardinality (rs_and (gather (l ++ [e])) filter) = rs_cardinality (rs_and (gather l) filter) + weight filter e.
Proof.
  intros Wf Hl. destruct (of_row_snoc r l e Hl) as (Hl' & Fk & Hs & Hw). destruct (gather_ok r _ Hl) as (W' & _ & _). destruct (gather_ok r _ Hl') as (W & _ & _).
  destruct (combine_ok And _ _ W' Wf) as [Wc' Hc']. destruct (combine_ok And _ _ W Wf) as [Wc Hc]. unfold rs_and. rewrite !rs_cardinality_ok by assumption.
  destruct (rs_insert_end _ _ _ W Fk Hs Hw) as (_ & _ & Hin). rewrite <- gather_snoc in Hin. set (s := slot_of_ckey (fst e)) in *.
  pose proof (rs_get_spec filter s Wf) as Hg. unfold weight. fold s.
  assert (Hf : ∀ x, x / 2 ^ 16 = s → in_rows filter x ↔ match rs_get filter s with Some here => x mod 2 ^ 16 ∈ members here | None => False end).
  { intros x Ex. unfold in_rows. rewrite Ex. destruct (rs_get filter s) as [here|]; [|split; [intros (c & Hc0 & _); by apply Hg in Hc0|done]].
    split; [|eauto]. intros (c & Hc0 & Hm). by rewrite <- (wf_rows_inj _ _ _ _ Wf Hc0 Hg). }
  assert (Hlt : ∀ x, in_rows (combine And (gather l) filter) x → x / 2 ^ 16 < s) by (intros x [Hx _]%Hc; by eapply in_rows_below).
  set (m := match rs_get filter s with Some here => members (into_owned (apply And (snd e) here)) | None => [] end).
  assert (Hm : ascending m ∧ Forall u16 m ∧ Z.of_nat (length m) = match rs_get filter s with Some here => and_cardinality (snd e) here | None => 0 end ∧
    ∀ u, u ∈ m ↔ u ∈ members (snd e) ∧ match rs_get filter s with Some here => u ∈ members here | None => False end).
  { unfold m. destruct (rs_get filter s) as [here|]; [|split; [constructor|split; [constructor|split; [done|]]]; intros u; split; [intros H; by apply not_elem_of_nil in H|tauto]].
    pose proof (proj1 (Forall_forall _ _) (wr_slots _ Wf) _ Hg) as (_ & Wh & _). cbn in Wh. destruct (apply_ok And (snd e) here Hw Wh) as [Wa Ha].
    split; [by apply members_ascending|]. split; [by apply members_all_u16|]. split; [by rewrite and_cardinality_ok, cardinality_members|exact Ha]. }
  destruct Hm as (Hm1 & Hm2 & <- & Hm4). rewrite (locals_grow _ _ s m Wc Wc' Hlt Hm1 Hm2), length_app, length_map by
    (intros x; rewrite Hc', Hc, Hin, in_rows_one, Hm4; cbn; destruct (decide (x / 2 ^ 16 = s)) as [Ex|]; [rewrite (Hf x Ex)|]; tauto). lia.
Qed.

Lemma row_count_step r l e : of_row r (l ++ [e]) → rs_cardinality (gather (l ++ [e])) = rs_cardinality (gather l) + cardinality (snd e).
Proof.
  intros Hl. destruct (of_row_snoc r l e Hl) as (Hl' & Fk & Hs & Hw). destruct (gather_ok r _ Hl) as (W' & _ & _). destruct (gather_ok r _ Hl') as (W & _ & _).
  rewrite !rs_cardinality_ok by assumption. destruct (rs_insert_end _ _ _ W Fk Hs Hw) as (_ & _ & Hin). rewrite <- gather_snoc in Hin.
  rewrite (locals_grow _ _ (slot_of_ckey (fst e)) (members (snd e)) W W'), length_app, length_map, cardinality_members;
    [lia|exact Hw|intros x; by apply in_rows_below|by apply members_ascending|by apply members_all_u16|]. intros x. by rewrite Hin, in_rows_one.
Qed.

Lemma row_count_fold r l : of_row r l → foldl (λ total e, wrap64 (total + cardinality (snd e))) 0 l = rs_cardinality (gather l).
Proof.
  induction l as [|e l IH] using rev_ind; intros Hl; [done|]. destruct (of_row_snoc r l e Hl) as (Hl' & _ & _ & Hw). rewrite foldl_app. cbn [foldl].
  rewrite (IH Hl'), <- (row_count_step r l e Hl). unfold wrap64. apply Z.mod_small. destruct (gather_ok r _ Hl) as (W' & _ & _). rewrite rs_cardinality_ok by exact W'.
  pose proof (locals_length _ W'). lia.
Qed.

Lemma row_count_ok r : row_ok r → row_count f r = Ok (rs_cardinality (gather (span (fst (row_ckeys r)) (snd (row_ckeys r)) ks))).
Proof.
  intros H. unfold row_count. cbn zeta. rewrite (scan_cards (λ total _ n, wrap64 (total + n))). f_equal. exact (row_count_fold r _ (span_row r H)).
Qed.

(** Rows of a list of containers in key order. *)
Definition part (r : Z) (l : list (Z * Container)) : list (Z * Container) := List.filter (λ e, row_of_ckey (fst e) =? r) l.
Definition in_keys (l : list (Z * Container)) : Prop := om_ok l ∧ Forall (λ e, 0 <= fst e < 2 ^ 64 ∧ wf (snd e)) l.

Lemma row_bounds k r : row_of_ckey k = r → r * 16 <= k <= r * 16 + 15.
Proof. unfold row_of_ckey. change CONTAINERS_PER_ROW with 16. intros <-. pose proof (Z.div_mod k 16). pose proof (Z.mod_pos_bound k 16). lia. Qed.

Lemma part_of_row r l : in_keys l → of_row r (part r l).
Proof.
  intros [Ho F]. split; [by apply om_ok_filter|]. apply Forall_forall. intros e [He Hr']%list_elem_of_In%filter_In. apply list_elem_of_In in He.
  apply Z.eqb_eq in Hr'. rewrite Forall_forall in F. split; [by apply row_bounds|by apply F].
Qed.

Lemma part_snoc r l e : part r (l ++ [e]) = part r l ++ if row_of_ckey (fst e) =? r then [e] else [].
Proof. unfold part. rewrite List.filter_app. cbn. by destruct (row_of_ckey (fst e) =? r). Qed.

Lemma in_keys_snoc l e : in_keys (l ++ [e]) → in_keys l ∧ Forall (λ x, row_of_ckey (fst x) <= row_of_ckey (fst e)) l ∧ 0 <= fst e < 2 ^ 64 ∧ wf (snd e).
Proof.
  intros [[Ho Hlt]%om_ok_snoc [F [He _]%Forall_cons]%Forall_app]. split; [by split|]. split; [|exact He].
  eapply Forall_impl; [exact Hlt|]. cbn. intros x Hx. unfold row_of_ckey. change CONTAINERS_PER_ROW with 16. apply Z.div_le_mono; lia.
Qed.

(** The overlap of row [r] of [l] with the filter. *)
Definition overlap (filter : RowSet) (l : list (Z * Container)) (r : Z) : Z := rs_cardinality (rs_and (gather (part r l)) filter).
Definition counted (n : Z) : option Z := if 0 <? n then Some n else None.

Lemma overlap_snoc filter l e r : wf_rows filter → in_keys (l ++ [e]) →
  overlap filter (l ++ [e]) r = overlap filter l r + (if row_of_ckey (fst e) =? r then weight filter e else 0).
Proof.
  intros Wf Hk. pose proof (part_of_row r _ Hk) as Hp. unfold overlap. rewrite part_snoc in *. destruct (row_of_ckey (fst e) =? r); [by apply (overlap_step r)|]. rewrite app_nil_r. lia.
Qed.

Lemma overlap_bound filter l r : wf_rows filter → in_keys l → 0 <= overlap filter l r <= 2 ^ 20.
Proof.
  intros Wf Hk. destruct (gather_ok r _ (part_of_row r l Hk)) as (W & _ & _). destruct (combine_ok And _ _ W Wf) as [Wc _].
  unfold overlap, rs_and. rewrite rs_cardinality_ok by exact Wc. pose proof (locals_length _ Wc). lia.
Qed.

Lemma overlap_nil filter r : wf_rows filter → overlap filter [] r = 0.
Proof.
  intros Wf. destruct (combine_ok And [] filter wf_rows_nil Wf) as [Wc Hc]. unfold overlap, rs_and, part, gather, rs_new. cbn [List.filter foldl].
  rewrite rs_cardinality_ok by exact Wc. destruct (locals (combine And [] filter)) as [|x l] eqn:E; [done|].
  assert (Hx : x ∈ locals (combine And [] filter)) by (rewrite E; by left). apply elem_locals, Hc in Hx; [|exact Wc]. destruct Hx as [Hx _]. by apply in_rows_nil in Hx.
Qed.

Lemma om_insert_last {V} (m : list (Z * V)) k v : Forall (λ x, fst x < k) m → om_insert m k v = m ++ [(k, v)].
Proof. induction 1 as [|[k' v'] m He _ IH]; [done|]. cbn in *. destruct (Z.ltb_spec k k'), (Z.eqb_spec k k'); try lia. by rewrite IH. Qed.
Lemma om_insert_over {V} (m : list (Z * V)) k v w : Forall (λ x, fst x < k) m → om_insert (m ++ [(k, w)]) k v = m ++ [(k, v)].
Proof.
  induction 1 as [|[k' v'] m He _ IH]; cbn in *; [by rewrite Z.ltb_irrefl, Z.eqb_refl|]. destruct (Z.ltb_spec k k'), (Z.eqb_spec k k'); try lia. by rewrite IH.
Qed.

Lemma bump_insert out q n : om_ok out → Forall (λ x, fst x <= q) out →
  bump out q n = om_insert out q (match om_get q out with Some t => wrap64 (t + n) | None => n end).
Proof.
  intros Ho F. destruct out as [|[r t] out _] using rev_ind; [done|]. unfold bump. rewrite last_snoc, removelast_last.
  apply om_ok_snoc in Ho as [Ho Hlt]. cbn in Hlt. apply Forall_app in F as [F [Hr' _]%Forall_cons]. cbn in Hr'. destruct (Z.eqb_spec r q) as [->|Hne].
  - rewrite om_insert_over by exact Hlt. assert (om_get q (out ++ [(q, t)]) = Some t) as ->; [|done].
    apply om_get_elem; [by apply om_ok_snoc|]. apply elem_of_app. right. by left.
  - assert (Hall : Forall (λ x, fst x < q) (out ++ [(r, t)])).
    { apply Forall_app. split; [|constructor; [cbn; lia|constructor]]. eapply Forall_impl; [exact Hlt|]. cbn. intros. lia. }
    assert (om_get q (out ++ [(r, t)]) = None) as ->; [|by rewrite om_insert_last].
    destruct (om_get q (out ++ [(r, t)])) as [v|] eqn:E; [|done]. apply om_get_elem in E; [|by apply om_ok_snoc]. rewrite Forall_forall in Hall. specialize (Hall _ E). cbn in Hall. lia.
Qed.

Definition count_step (filter : RowSet) (out : list (Z * Z)) (e : Z * Container) : list (Z * Z) :=
  match rs_get filter (slot_of_ckey (fst e)) with
  | None => out
  | Some here => let n := and_cardinality (snd e) here in if 0 <? n then bump out (row_of_ckey (fst e)) n else out
  end.

Lemma count_step_weight filter out e : count_step filter out e = if 0 <? weight filter e then bump out (row_of_ckey (fst e)) (weight filter e) else out.
Proof. unfold count_step, weight. by destruct (rs_get filter (slot_of_ckey (fst e))). Qed.

Lemma weight_nonneg filter l e : wf_rows filter → in_keys (l ++ [e]) → 0 <= weight filter e <= 2 ^ 20.
Proof.
  intros Wf Hk. pose proof (overlap_snoc filter l e (row_of_ckey (fst e)) Wf Hk) as H. rewrite Z.eqb_refl in H.
  pose proof (overlap_bound filter (l ++ [e]) (row_of_ckey (fst e)) Wf Hk). destruct (in_keys_snoc _ _ Hk) as (Hk' & _).
  pose proof (overlap_bound filter l (row_of_ckey (fst e)) Wf Hk'). split; [|lia]. unfold weight. destruct (rs_get filter (slot_of_ckey (fst e))) as [here|] eqn:E; [|lia].
  pose proof (rs_get_spec filter (slot_of_ckey (fst e)) Wf) as Hg. rewrite E in Hg. pose proof (proj1 (Forall_forall _ _) (wr_slots _ Wf) _ Hg) as (_ & Wh & _). cbn in Wh.
  destruct (in_keys_snoc _ _ Hk) as (_ & _ & _ & We). destruct (apply_ok And (snd e) here We Wh) as [Wa _]. rewrite and_cardinality_ok, cardinality_members by assumption. lia.
Qed.

Lemma count_fold filter l : wf_rows filter → in_keys l →
  let out := foldl (count_step filter) [] l in
  om_ok out ∧ (∀ x, x ∈ out → ∃ e, e ∈ l ∧ fst x = row_of_ckey (fst e)) ∧ ∀ r, om_get r out = counted (overlap filter l r).
Proof.
  intros Wf. induction l as [|e l IH] using rev_ind; intros Hk.
  { cbn [foldl]. split; [constructor|]. split; [intros x Hx; by apply not_elem_of_nil in Hx|]. intros r. by rewrite overlap_nil. }
  destruct (in_keys_snoc _ _ Hk) as (Hk' & Hle & _). destruct (IH Hk') as (Ho & Hs & Hg). cbn zeta. rewrite foldl_app. cbn [foldl]. set (out := foldl (count_step filter) [] l) in *.
  rewrite count_step_weight. pose proof (weight_nonneg filter l e Wf Hk) as Hw. set (q := row_of_ckey (fst e)) in *. destruct (Z.ltb_spec 0 (weight filter e)) as [Hpos|Hz].
  - assert (F : Forall (λ x, fst x <= q) out) by (apply Forall_forall; intros x (e' & He' & ->)%Hs; rewrite Forall_forall in Hle; by apply Hle).
    rewrite bump_insert by assumption. split; [by apply om_insert_ok|]. split.
    + intros [k v] Hx. cbn. apply om_get_elem in Hx; [|by apply om_insert_ok]. rewrite om_get_insert in Hx by exact Ho. destruct (Z.eqb_spec k q) as [->|].
      * exists e. split; [apply elem_of_app; right; by left|done].
      * apply om_get_elem in Hx; [|exact Ho]. destruct (Hs _ Hx) as (e' & He' & E). exists e'. split; [apply elem_of_app; by left|exact E].
    + intros r. rewrite om_get_insert by exact Ho. rewrite overlap_snoc by assumption. fold q. rewrite (Z.eqb_sym q r). destruct (Z.eqb_spec r q) as [->|]; [|rewrite Z.add_0_r; apply Hg].
      rewrite Hg. pose proof (overlap_bound filter l q Wf Hk'). unfold counted. destruct (Z.ltb_spec 0 (overlap filter l q)), (Z.ltb_spec 0 (overlap filter l q + weight filter e)); try lia.
      * unfold wrap64. rewrite Z.mod_small by lia. done.
      * f_equal. lia.
  - split; [exact Ho|]. split.
    + intros x Hx. destruct (Hs _ Hx) as (e' & He' & E). exists e'. split; [apply elem_of_app; by left|exact E].
    + intros r. rewrite overlap_snoc by assumption. rewrite Hg. f_equal. destruct (_ =? r); lia.
Qed.

Lemma in_keys_ks : in_keys ks.
Proof. split; [apply ks_order|apply ks_bounds]. Qed.

Lemma part_span r : row_ok r → part r ks = span (fst (row_ckeys r)) (snd (row_ckeys r)) ks.
Proof.
  intros H. rewrite row_ckeys_span by exact H. unfold part, span. cbn [fst snd]. apply List.filter_ext. intros e. apply eq_true_iff_eq.
  rewrite Z.eqb_eq, andb_true_iff, !Z.leb_le. split; [apply row_bounds|]. intros Hb. by destruct (slot_in_row r (fst e) Hb).
Qed.

Lemma span_all : span 0 u64_max ks = ks.
Proof.
  unfold span. pose proof ks_bounds as Hb. clear Ht Hr. induction Hb as [|e l [He _] _ IH]; [done|]. cbn [List.filter]. rewrite IH. unfold u64_max.
  destruct (Z.leb_spec 0 (fst e)), (Z.leb_spec (fst e) (2 ^ 64 - 1)); try lia. done.
Qed.

Lemma row_counts_where_ok filter : wf_rows filter →
  ∃ out, row_counts_where f filter = Ok out ∧ om_ok out ∧ ∀ r, om_get r out = counted (overlap filter ks r).
Proof.
  intros Wf. destruct (count_fold filter ks Wf in_keys_ks) as (H1 & _ & H3). eexists. split; [|split; [exact H1|exact H3]].
  unfold row_counts_where. rewrite for_each_ok, span_all.
  transitivity (Ok (E := BTreeError) (fst (over (λ out k c, (count_step filter out (k, c), false)) [] ks))).
  - f_equal. f_equal. apply over_ext. intros st k c. unfold count_step. cbn [fst snd]. by destruct (rs_get filter (slot_of_ckey k)).
  - rewrite (over_fold (λ out k c, count_step filter out (k, c))). cbn [fst]. do 2 f_equal.
Qed.

(** * The rows that hold something *)
Definition row_step (out : list Z) (e : Z * Container) : list Z := push_row out (fst e) (cardinality (snd e)).

Lemma rows_fold l : in_keys l → let out := foldl row_step [] l in ascending out ∧ ∀ r, r ∈ out ↔ ∃ e, e ∈ l ∧ row_of_ckey (fst e) = r ∧ members (snd e) ≠ [].
Proof.
  induction l as [|e l IH] using rev_ind; intros Hk; [split; [constructor|]; intros r; split; [intros H; by apply not_elem_of_nil in H|intros (e & H & _); by apply not_elem_of_nil in H]|].
  destruct (in_keys_snoc _ _ Hk) as (Hk' & Hle & _ & We). destruct (IH Hk') as (Ha & Hin). cbn zeta. rewrite foldl_app. cbn [foldl]. set (out := foldl row_step [] l) in *.
  assert (Hmax : Forall (λ r, r <= row_of_ckey (fst e)) out) by (apply Forall_forall; intros r (e' & He' & <- & _)%Hin; rewrite Forall_forall in Hle; by apply Hle).
  setoid_rewrite elem_of_app. setoid_rewrite list_elem_of_singleton. unfold row_step, push_row. cbn zeta. set (q := row_of_ckey (fst e)) in *.
  assert (Hc : (0 <? cardinality (snd e)) = true ↔ members (snd e) ≠ []).
  { rewrite cardinality_members, Z.ltb_lt by exact We. destruct (members (snd e)); cbn; split; intros; try lia; done. }
  assert (Hold : (members (snd e) ≠ [] → q ∈ out) → ∀ r, r ∈ out ↔ ∃ e0, (e0 ∈ l ∨ e0 = e) ∧ row_of_ckey (fst e0) = r ∧ members (snd e0) ≠ []).
  { intros Hq r. rewrite Hin. split; [intros (e' & H1 & H2); exists e'; auto|]. intros (e' & [H1| ->] & <- & H2); [exists e'; auto|]. apply Hin. by apply Hq. }
  case_bool_decide as El; cbn [negb andb]; [|destruct (0 <? cardinality (snd e)) eqn:Ec].
  - split; [exact Ha|]. apply Hold. intros _. by apply last_Some_elem_of in El.
  - assert (Hlt : Forall (λ r, r < q) out).
    { apply Forall_forall. intros r Hr'. pose proof (proj1 (Forall_forall _ _) Hmax _ Hr') as Hle'. cbn in Hle'. destruct (decide (r = q)) as [->|]; [|lia]. exfalso. apply El.
      destruct (last out) as [z|] eqn:Ez; [|apply last_None in Ez; rewrite Ez in Hr'; by apply not_elem_of_nil in Hr'].
      apply last_Some in Ez as [out' Ez]. rewrite Ez in Hr', Ha, Hmax. apply elem_of_app in Hr' as [Hr'| ->%list_elem_of_singleton]; [|done].
      assert (q < z) by (by eapply (ascending_lt_last out' z)). apply Forall_app in Hmax as [_ [Hz _]%Forall_cons]. lia. }
    split; [by apply ascending_snoc|]. intros r. rewrite elem_of_app, list_elem_of_singleton, Hin. split.
    + intros [(e' & H1 & H2)| ->]; [exists e'; auto|]. exists e. split; [by right|]. split; [done|by apply Hc].
    + intros (e' & [H1| ->] & <- & H2); [left; exists e'; auto|by right].
  - split; [exact Ha|]. apply Hold. intros H. apply Hc in H. discriminate H.
Qed.

Lemma rows_ok : ∃ out, fr_rows f = Ok out ∧ ascending out ∧ ∀ r, r ∈ out ↔ ∃ e, e ∈ ks ∧ row_of_ckey (fst e) = r ∧ members (snd e) ≠ [].
Proof.
  destruct (rows_fold ks in_keys_ks) as [H1 H2]. eexists. split; [|split; [exact H1|exact H2]]. unfold fr_rows.
  rewrite (scan_cards push_row). by rewrite span_all.
Qed.

(** * Many rows of one record *)
Lemma ckey_inj r r' record : row_ok r → row_ok r' → ckey_of (pos_of r record) = ckey_of (pos_of r' record) → r = r'.
Proof. intros H H' E. destruct (pos_split r record H) as [E1 _]. destruct (pos_split r' record H') as [E2 _]. lia. Qed.

Lemma wanted_ok rows record : Forall row_ok rows →
  om_ok (wanted rows record) ∧ ∀ k r o, (k, (r, o)) ∈ wanted rows record ↔ r ∈ rows ∧ k = ckey_of (pos_of r record) ∧ o = offset_in_container (pos_of r record).
Proof.
  induction rows as [|r rows IH] using rev_ind; intros F.
  { split; [constructor|]. intros k r o. split; [intros H; by apply not_elem_of_nil in H|intros [H _]; by apply not_elem_of_nil in H]. }
  apply Forall_app in F as [F [Hr' _]%Forall_cons]. destruct (IH F) as [Ho Hin]. unfold wanted in *. rewrite foldl_app. cbn [foldl]. fold (wanted rows record) in *.
  set (m := wanted rows record) in *. split; [by apply om_insert_ok|]. intros k r' o. rewrite <- om_get_elem by (by apply om_insert_ok). rewrite om_get_insert by exact Ho.
  rewrite elem_of_app, list_elem_of_singleton. destruct (Z.eqb_spec k (ckey_of (pos_of r record))) as [->|Hne].
  - split; [intros [= <- <-]; auto|]. intros (Hm & Ek & ->). assert (r' = r) as ->; [|done].
    destruct Hm as [Hm|Hm]; [|exact Hm]. rewrite Forall_forall in F. symmetry. eapply ckey_inj; [exact Hr'|by apply F|exact Ek].
  - rewrite om_get_elem by exact Ho. rewrite Hin. split; [tauto|]. intros ([H| ->] & Ek & Eo); [auto|done].
Qed.

(** What [get_many] answers for row [r]. *)
Definition point (record r : Z) : bool := has ks (ckey_of (pos_of r record)) (offset_in_container (pos_of r record)).

Lemma insert_all {V} (p : Z → V) rows : ∀ out, om_ok out →
  let out' := foldl (λ out r, om_insert out r (p r)) out rows in om_ok out' ∧ ∀ r, om_get r out' = if bool_decide (r ∈ rows) then Some (p r) else om_get r out.
Proof.
  induction rows as [|x rows IH]; intros out Ho; cbn [foldl]; [split; [exact Ho|]; intros r; case_bool_decide as H; [by apply not_elem_of_nil in H|done]|].
  destruct (IH (om_insert out x (p x))) as [H1 H2]; [by apply om_insert_ok|]. split; [exact H1|]. intros r. rewrite H2, om_get_insert by exact Ho.
  case_bool_decide as E; [rewrite bool_decide_eq_true_2 by (by right); done|]. destruct (Z.eqb_spec r x) as [->|Hne]; [by rewrite bool_decide_eq_true_2 by (by left)|].
  rewrite bool_decide_eq_false_2; [done|]. intros [H|H]%elem_of_cons; congruence.
Qed.

Lemma get_many_ok rows record : Forall row_ok rows →
  ∃ out, get_many f rows record = Ok out ∧ om_ok out ∧ ∀ r, om_get r out = if bool_decide (r ∈ rows) then Some (point record r) else None.
Proof.
  intros F. destruct (wanted_ok rows record F) as [Ho Hin]. unfold get_many. cbn zeta. set (want := wanted rows record) in *.
  destruct Ht as [(h & Hh & Hat) Hord _]. rewrite (find_many_ok _ _ h _ cells) by (try assumption; by apply om_keys_ascending).
  assert (Hans : ∀ l out, (∀ e, e ∈ l → e ∈ want) →
    answer (λ out ckey cell, '(r, offset) ← unwrap (om_get ckey want);
      found ← (match cell with Some cell => fr_cell_contains f cell offset | None => Ok false end); Ok (om_insert out r found)) cells out (map fst l) =
    Ok (foldl (λ out r, om_insert out r (point record r)) out (map (λ e, fst (snd e)) l))).
  { induction l as [|[k [r o]] l IH]; intros out Hl; [done|]. cbn [map answer fst]. pose proof (Hl _ (list_elem_of_here _ _)) as Hw.
    pose proof (proj2 (om_get_elem want k (r, o) Ho) Hw) as Eg. rewrite Eg. cbn [unwrap mbind Res_bind].
    apply Hin in Hw as (_ & -> & ->). pose proof (cell_of_reads (ckey_of (pos_of r record))) as Hc.
    assert (Hf : match cell_of cells (ckey_of (pos_of r record)) with Some cell => fr_cell_contains f cell (offset_in_container (pos_of r record)) | None => Ok false end = Ok (point record r)).
    { unfold point, has. destruct (cell_of cells _) as [c|], (om_get _ ks) as [d|]; try done. apply (rd_point _ _ _ Hc). rewrite offset_mod. apply Z.mod_pos_bound. lia. }
    rewrite Hf. cbn [mbind Res_bind foldl snd fst map]. apply IH. intros e He. apply Hl. by right. }
  rewrite Hans by auto. eexists. split; [reflexivity|]. destruct (insert_all (point record) (map (λ e, fst (snd e)) want) []) as [H1 H2]; [constructor|].
  split; [exact H1|]. intros r. rewrite H2. change (om_get r []) with (@None bool). erewrite bool_decide_ext; [reflexivity|].
  change (map (λ e, fst (snd e)) want) with ((λ e : Z * (Z * Z), fst (snd e)) <$> want). rewrite list_elem_of_fmap. split.
  - intros ([k [r' o]] & -> & Hw). by apply Hin in Hw as (Hw & _).
  - intros Hr'. exists (ckey_of (pos_of r record), (r, offset_in_container (pos_of r record))). split; [done|]. by apply Hin.
Qed.

Lemma has_bit record r : row_ok r → point record r = true ↔ bit ks r (local_of record).
Proof.
  intros H. unfold point, has, bit. destruct (pos_split r record H) as [-> ->]. set (k := r * 16 + local_of record / 2 ^ 16).
  pose proof (om_get_elem ks k) as Hg. destruct (om_get k ks) as [c|] eqn:E.
  - pose proof (proj1 (Hg c ks_order) eq_refl) as Hc. pose proof (proj1 (Forall_forall _ _) ks_bounds _ Hc) as [_ Wc]. cbn in Wc.
    rewrite contains_members by (try exact Wc; apply Z.mod_pos_bound; lia). split; [eauto|]. intros (d & Hd & Hm). apply (Hg d ks_order) in Hd. congruence.
  - split; [done|]. intros (d & Hd & _). apply (Hg d ks_order) in Hd. discriminate Hd.
Qed.
End open.

(** * What a fragment promises to the conventions above it *)

(** Whether offset [x] of the shard is set in row [r]. *)
Definition fact (kcs : list (Z * Container)) (r x : Z) : bool := has kcs (r * 16 + x / 2 ^ 16) (x mod 2 ^ 16).

Class Facts {X : Extern} {P : Type} `{!Pager P} (f : FragmentRead P) (facts : Z → Z → bool) : Prop := {
  facts_row r : row_ok r → ∃ rs, row f r = Ok rs ∧ wf_rows rs ∧ (∀ x, in_rows rs x ↔ 0 <= x < 2 ^ 20 ∧ facts r x = true) ∧ row_count f r = Ok (rs_cardinality rs);
  facts_get r record : row_ok r → fr_get f r record = Ok (facts r (local_of record));
  facts_get_many rows record : Forall row_ok rows → ∃ out, get_many f rows record = Ok out ∧ om_ok out ∧
    ∀ r, om_get r out = if bool_decide (r ∈ rows) then Some (facts r (local_of record)) else None;
  facts_rows : ∃ out, fr_rows f = Ok out ∧ ascending out ∧ ∀ r, r ∈ out ↔ ∃ x, 0 <= x < 2 ^ 20 ∧ facts r x = true;
  facts_counts filter : wf_rows filter → ∃ out, row_counts_where f filter = Ok out ∧ om_ok out ∧
    ∀ r rs, row_ok r → row f r = Ok rs → om_get r out = counted (rs_cardinality (rs_and rs filter))
}.

Lemma same_get a b k : same_sets a b → match om_get k a, om_get k b with Some c, Some d => wf c ∧ members c = members d | None, None => True | _, _ => False end.
Proof.
  induction 1 as [|[k1 c] [k2 d] a b (E & W & M) _ IH]; [done|]. cbn in E. subst k2. rewrite !om_get_cons. cbn [fst snd]. destruct (k1 =? k); [by split|exact IH].
Qed.

Lemma same_has a b k o : same_sets a b → Forall (λ e, wf (snd e)) b → u16 o → has a k o = has b k o.
Proof.
  intros H F Ho. unfold has. pose proof (same_get a b k H) as Hg. destruct (om_get k a) as [c|], (om_get k b) as [d|] eqn:Ed; try done. destruct Hg as [Wc M].
  assert (Wd : wf d).
  { unfold om_get in Ed. destruct (List.find _ b) as [e|] eqn:Ef; [|discriminate Ed]. injection Ed as <-. apply List.find_some in Ef as [Ef _]. apply list_elem_of_In in Ef.
    rewrite Forall_forall in F. by apply F. }
  apply eq_true_iff_eq. rewrite !contains_members by assumption. by rewrite M.
Qed.

Section interface.
Context {X : Extern} {P : Type} `{!Pager P}.

Lemma fact_bit ks r x : in_keys ks → bit ks r x ↔ fact ks r x = true.
Proof.
  intros [Ho F]. unfold bit, fact, has. pose proof (om_get_elem ks (r * 16 + x / 2 ^ 16)) as Hg. destruct (om_get _ ks) as [c|] eqn:E.
  - pose proof (proj1 (Hg c Ho) eq_refl) as Hc. pose proof (proj1 (Forall_forall _ _) F _ Hc) as [_ Wc]. cbn in Wc.
    rewrite contains_members by (try exact Wc; apply Z.mod_pos_bound; lia). split; [|eauto]. intros (d & Hd & Hm). apply (Hg d Ho) in Hd. congruence.
  - split; [|done]. intros (d & Hd & _). apply (Hg d Ho) in Hd. discriminate Hd.
Qed.

(** A row holds something exactly when a container of it does. *)
Lemma row_nonempty ks r : in_keys ks → (∃ e, e ∈ ks ∧ row_of_ckey (fst e) = r ∧ members (snd e) ≠ []) ↔ ∃ x, 0 <= x < 2 ^ 20 ∧ fact ks r x = true.
Proof.
  intros Hk. setoid_rewrite <- (fact_bit ks r _ Hk). pose proof Hk as [_ F]. rewrite Forall_forall in F. split.
  - intros ([k c] & He & Hr & Hm). cbn in *. destruct (F _ He) as [_ Wc]. cbn in Wc. pose proof (row_bounds k r Hr) as Hb. destruct (members c) as [|u l] eqn:Em; [done|].
    assert (Hu : u ∈ members c) by (rewrite Em; by left). pose proof (members_u16 c u Wc Hu) as Hu'. unfold u16 in Hu'.
    destruct (div_mod_eq ((k - r * 16) * 2 ^ 16 + u) (k - r * 16) u Hu' eq_refl) as [E1 E2]. exists ((k - r * 16) * 2 ^ 16 + u). split; [lia|]. exists c. rewrite E1, E2.
    replace (r * 16 + (k - r * 16)) with k by lia. auto.
  - intros (x & Hx & c & Hc & Hm). exists (r * 16 + x / 2 ^ 16, c). split; [exact Hc|]. cbn. split; [|intros E; rewrite E in Hm; by apply not_elem_of_nil in Hm].
    apply row_slot. split; [apply Z.div_pos; lia|apply Z.div_lt_upper_bound; lia].
Qed.

Lemma fact_fn ks r record : row_ok r → point ks record r = fact ks r (local_of record).
Proof. intros H. unfold point, fact. by destruct (pos_split r record H) as [-> ->]. Qed.

Lemma wf_of_shows (pager : P) root kcs : shows pager root kcs → Forall (λ e, wf (snd e)) kcs.
Proof. intros (cells & _ & H). induction H as [|c e cs es H _ IH]; constructor; [|exact IH]. destruct H as (_ & _ & H & _). exact H. Qed.

(** The readers over a tree keep the promise. *)
Lemma shows_facts (f : FragmentRead P) kcs : shows (fr_pager f) (fr_root f) kcs → Facts f (fact kcs).
Proof.
  intros Hs. pose proof (wf_of_shows _ _ _ Hs) as Hwf. destruct (shows_reads f kcs Hs) as (cells & ks & Ht & Hr & Hsame). pose proof (in_keys_ks f cells ks Ht Hr) as Hk.
  assert (Hf : ∀ r x, fact ks r x = fact kcs r x) by (intros r x; apply same_has; [exact Hsame|exact Hwf|apply Z.mod_pos_bound; lia]).
  split.
  - intros r Hrow. destruct (row_reads f cells ks Ht Hr r Hrow) as (rs & E & W & Hin). exists rs. split; [exact E|]. split; [exact W|]. split.
    + intros x. by rewrite Hin, (fact_bit ks r x Hk), Hf.
    + rewrite (row_count_ok f cells ks Ht Hr r Hrow). rewrite (row_eq f cells ks Ht Hr) in E. congruence.
  - intros r record Hrow. rewrite (get_ok f cells ks Ht Hr). change (has ks _ _) with (point ks record r). by rewrite fact_fn, Hf by exact Hrow.
  - intros rows record HF. destruct (get_many_ok f cells ks Ht Hr rows record HF) as (out & E & Ho & Hg). exists out. split; [exact E|]. split; [exact Ho|]. intros r. rewrite Hg.
    case_bool_decide as Hin; [|done]. rewrite Forall_forall in HF. by rewrite fact_fn, Hf by (by apply HF).
  - destruct (rows_ok f cells ks Ht Hr) as (out & E & Ha & Hin). exists out. split; [exact E|]. split; [exact Ha|]. intros r. rewrite Hin, (row_nonempty ks r Hk). by setoid_rewrite Hf.
  - intros filter Wf. destruct (row_counts_where_ok f cells ks Ht Hr filter Wf) as (out & E & Ho & Hg). exists out. split; [exact E|]. split; [exact Ho|]. intros r rs Hrow Hrs.
    rewrite Hg. unfold overlap. rewrite (part_span ks r Hrow). rewrite (row_eq f cells ks Ht Hr) in Hrs. congruence.
Qed.
End interface.
