(* ===== verification/Bsi.v ===== *)
(** Bit-sliced integers (crates/big-engine/src/bitmap/field/bsi.rs, the readers; error.rs): a [u64] per
    record, one row of the fragment per bit plane, and a row marking the records that have a value.

    The readers are proved against what a fragment promises ([Facts]), whatever the fragment holds. *)
From S2P Require Import Prelude Bits Container SetOps Page BTree Pager Coords RowSet OrdMap FragRead.

(** * Errors (error.rs) *)
Inductive FieldError :=
| FTree (e : BTreeError)
| FValueTooWide (value bit_depth : Z)
| FMutexConflict (record : Z).
Definition from_tree {A} (r : Res BTreeError A) : Res FieldError A := map_err FTree r.

Definition EXISTS_ROW : Z := 0.
Record Bsi := mkBsi { bit_depth : Z }.
Inductive RangeOp := RGt | RGe | RLt | RLe | REq | RNe.

Definition plane_row (i : Z) : Z := 1 + i.
Definition bsi_rows (b : Bsi) : Z := 1 + bit_depth b.
Definition fits (b : Bsi) (value : Z) : bool := (64 <=? bit_depth b) || (value <? Z.shiftl 1 (bit_depth b)).

(** [value >> i & 1 == 1]. *)
Definition bit_of (value i : Z) : bool := Z.land (Z.shiftr value i) 1 =? 1.
Definition planes_up (b : Bsi) : list Z := seqZ 0 (bit_depth b).
Definition planes_down (b : Bsi) : list Z := rev (seqZ 0 (bit_depth b)).

(** [bits_for]: the bits one value implies, appended to the two lists. *)
Definition bits_for (b : Bsi) (record value : Z) (set clear : list (Z * Z)) : Res FieldError (list (Z * Z) * list (Z * Z)) :=
  if negb (fits b value) then Err (FValueTooWide value (bit_depth b))
  else Ok (foldl (λ '(set, clear) i, if bit_of value i then (set ++ [(plane_row i, record)], clear) else (set, clear ++ [(plane_row i, record)]))
             (set ++ [(EXISTS_ROW, record)], clear) (planes_up b)).

Section read.
Context {X : Extern} {P : Type} `{!Pager P}.
Implicit Types (f : FragmentRead P).

Definition bsi_get (b : Bsi) f (record : Z) : Res FieldError (option Z) :=
  let rows := EXISTS_ROW :: map plane_row (planes_up b) in
  bits ← from_tree (get_many f rows record);
  if negb (default false (om_get EXISTS_ROW bits)) then Ok None
  else Ok (Some (foldl (λ v i, if default false (om_get (plane_row i) bits) then Z.lor v (Z.shiftl 1 i) else v) 0 (planes_up b))).

Definition bsi_exists (b : Bsi) f : Res FieldError RowSet := from_tree (row f EXISTS_ROW).

Definition is_eq (op : RangeOp) : bool := match op with REq => true | _ => false end.

(** The loop of [range], over the planes left. *)
Fixpoint range_loop f (op : RangeOp) (k : Z) (planes : list Z) (gt eq : RowSet) : Res FieldError (RowSet * RowSet) :=
  match planes with
  | [] => Ok (gt, eq)
  | i :: planes' =>
      if rs_is_empty eq && is_eq op then Ok (gt, eq)
      else
        plane ← from_tree (row f (plane_row i));
        if bit_of k i then range_loop f op k planes' gt (rs_and eq plane)
        else range_loop f op k planes' (rs_or gt (rs_and eq plane)) (rs_andnot eq plane)
  end.

Definition range (b : Bsi) f (op : RangeOp) (k : Z) : Res FieldError RowSet :=
  exists_ ← bsi_exists b f;
  if negb (fits b k) then Ok (match op with RGt | RGe | REq => rs_new | RLt | RLe | RNe => exists_ end)
  else
    '(gt, eq) ← range_loop f op k (planes_down b) rs_new exists_;
    Ok (match op with
        | RGt => gt
        | RGe => rs_or gt eq
        | RLe => rs_andnot exists_ gt
        | RLt => rs_andnot exists_ (rs_or gt eq)
        | REq => eq
        | RNe => rs_andnot exists_ eq
        end).

Definition between (b : Bsi) f (lo hi : Z) : Res FieldError RowSet :=
  if hi <? lo then Ok rs_new
  else ge ← range b f RGe lo; le ← range b f RLe hi; Ok (rs_and ge le).

(** The [u128] total of [sum]. *)
Definition wrap128 (v : Z) : Z := v mod 2 ^ 128.
Definition filtered (filter : option RowSet) (rs : RowSet) : RowSet := match filter with Some m => rs_and rs m | None => rs end.

Fixpoint sum_loop f (filter : option RowSet) (planes : list Z) (total : Z) : Res FieldError Z :=
  match planes with
  | [] => Ok total
  | i :: planes' =>
      plane ← from_tree (row f (plane_row i));
      let n := rs_cardinality (filtered filter plane) in
      sum_loop f filter planes' (wrap128 (total + wrap128 (Z.shiftl n i)))
  end.
Definition sum (b : Bsi) f (filter : option RowSet) : Res FieldError Z := sum_loop f filter (planes_up b) 0.

Definition bsi_count (b : Bsi) f (filter : option RowSet) : Res FieldError Z :=
  exists_ ← bsi_exists b f; Ok (rs_cardinality (filtered filter exists_)).

Fixpoint extreme_loop f (want_max : bool) (planes : list Z) (cand : RowSet) (value : Z) : Res FieldError Z :=
  match planes with
  | [] => Ok value
  | i :: planes' =>
      plane ← from_tree (row f (plane_row i));
      let with_ := if want_max then rs_and cand plane else rs_andnot cand plane in
      if negb (rs_is_empty with_) then extreme_loop f want_max planes' with_ (if want_max then Z.lor value (Z.shiftl 1 i) else value)
      else extreme_loop f want_max planes' cand (if want_max then value else Z.lor value (Z.shiftl 1 i))
  end.

Definition extreme (b : Bsi) f (filter : option RowSet) (want_max : bool) : Res FieldError (option Z) :=
  exists_ ← bsi_exists b f;
  let cand := filtered filter exists_ in
  if rs_is_empty cand then Ok None
  else v ← extreme_loop f want_max (planes_down b) cand 0; Ok (Some v).
Definition bsi_max (b : Bsi) f (filter : option RowSet) : Res FieldError (option Z) := extreme b f filter true.
Definition bsi_min (b : Bsi) f (filter : option RowSet) : Res FieldError (option Z) := extreme b f filter false.
End read.

(** * What the planes stand for *)

(** The value whose bits, below [depth], are the facts about [x]. *)
Definition value_of (depth : Z) (facts : Z → Z → bool) (x : Z) : Z := foldr (λ i v, (if facts (plane_row i) x then 2 ^ i else 0) + v) 0 (seqZ 0 depth).
Definition stored (depth : Z) (facts : Z → Z → bool) (x : Z) : option Z := if facts EXISTS_ROW x then Some (value_of depth facts x) else None.
Definition compares (op : RangeOp) (v k : Z) : Prop :=
  match op with RGt => k < v | RGe => k <= v | RLt => v < k | RLe => v <= k | REq => v = k | RNe => v ≠ k end.
Definition depth_ok (b : Bsi) : Prop := 0 <= bit_depth b <= 64.

Lemma bit_of_testbit v i : 0 <= i → bit_of v i = Z.testbit v i.
Proof.
  intros Hi. unfold bit_of. change 1 with (Z.ones 1) at 1. rewrite Z.land_ones, Z.shiftr_div_pow2 by lia. change (2 ^ 1) with 2. rewrite <- Z.testbit_spec' by lia. by destruct (Z.testbit v i).
Qed.

(** Taking one more bit of a number. *)
Lemma next_bit v i : 0 <= i → v / 2 ^ i = 2 * (v / 2 ^ (i + 1)) + Z.b2z (Z.testbit v i).
Proof.
  intros Hi. rewrite (Z.testbit_spec' v i) by lia. replace (2 ^ (i + 1)) with (2 ^ i * 2) by (rewrite Z.pow_add_r by lia; lia).
  rewrite <- Z.div_div by lia. apply Z.div_mod. lia.
Qed.

Lemma lor_add v i : 0 <= i → Z.testbit v i = false → Z.lor v (Z.shiftl 1 i) = v + 2 ^ i.
Proof.
  intros Hi Hb. rewrite <- Z.add_nocarry_lor by (apply Z.bits_inj'; intros j Hj; rewrite Z.land_spec, testbit_pow2, Z.bits_0 by lia; destruct (Z.eqb_spec j i) as [->|]; [by rewrite Hb|apply andb_false_r]).
  rewrite Z.shiftl_mul_pow2 by lia. lia.
Qed.

Lemma small_bit v i : 0 <= v < 2 ^ i → Z.testbit v i = false.
Proof. intros H. destruct (Z.le_gt_cases 0 i) as [Hi|Hi]; [|by apply Z.testbit_neg_r]. pose proof (Z.testbit_spec' v i Hi) as E. rewrite Z.div_small in E by lia. by destruct (Z.testbit v i). Qed.

Lemma seqZ_snoc n : 0 <= n → seqZ 0 (n + 1) = seqZ 0 n ++ [n].
Proof. intros Hn. rewrite seqZ_app by lia. f_equal. Qed.

Section value.
Context (facts : Z → Z → bool) (x : Z).

Lemma value_of_S d : 0 <= d → value_of (d + 1) facts x = (if facts (plane_row d) x then 2 ^ d else 0) + value_of d facts x.
Proof.
  intros Hd. unfold value_of. rewrite seqZ_snoc, foldr_app by exact Hd. cbn [foldr]. rewrite Z.add_0_r. set (a := if facts (plane_row d) x then 2 ^ d else 0).
  generalize (seqZ 0 d). intros l. induction l as [|i l IH]; cbn [foldr]; [lia|]. rewrite IH. lia.
Qed.

Lemma value_of_bound d : 0 <= d → 0 <= value_of d facts x < 2 ^ d.
Proof.
  intros Hd. pattern d. apply natlike_ind; [done| |exact Hd]. clear d Hd. intros d Hd IH. rewrite <- Z.add_1_r, value_of_S by exact Hd.
  rewrite Z.pow_add_r by lia. destruct (facts (plane_row d) x); lia.
Qed.

Lemma value_of_bit d i : 0 <= i < d → Z.testbit (value_of d facts x) i = facts (plane_row i) x.
Proof.
  intros [Hi Hid]. assert (Hd : 0 <= d) by lia. revert Hid. pattern d. apply natlike_ind; [lia| |exact Hd]. clear d Hd. intros d Hd IH Hid.
  rewrite <- Z.add_1_r, value_of_S by exact Hd. pose proof (value_of_bound d Hd) as Hb. rewrite Z.add_comm.
  assert (E : value_of d facts x + (if facts (plane_row d) x then 2 ^ d else 0) = Z.lor (value_of d facts x) (if facts (plane_row d) x then Z.shiftl 1 d else 0)).
  { destruct (facts (plane_row d) x); [by rewrite lor_add by (try lia; by apply small_bit)|by rewrite Z.lor_0_r, Z.add_0_r]. }
  rewrite E, Z.lor_spec. destruct (Z.eq_dec i d) as [->|Hne].
  - rewrite small_bit by exact Hb. destruct (facts (plane_row d) x); [by rewrite testbit_pow2, Z.eqb_refl by lia|apply Z.testbit_0_l].
  - rewrite IH by lia. destruct (facts (plane_row d) x); [rewrite testbit_pow2 by lia; destruct (Z.eqb_spec i d); [lia|apply orb_false_r]|rewrite Z.testbit_0_l; apply orb_false_r].
Qed.

Lemma fold_lor d : 0 <= d → foldl (λ v i, if facts (plane_row i) x then Z.lor v (Z.shiftl 1 i) else v) 0 (seqZ 0 d) = value_of d facts x.
Proof.
  intros Hd. pattern d. apply natlike_ind; [done| |exact Hd]. clear d Hd. intros d Hd IH. rewrite <- Z.add_1_r, seqZ_snoc, foldl_app by exact Hd. cbn [foldl].
  rewrite IH, value_of_S by exact Hd. destruct (facts (plane_row d) x); [|lia]. rewrite lor_add by (try lia; by apply small_bit, value_of_bound). lia.
Qed.
End value.

Lemma fits_spec b k : depth_ok b → 0 <= k < 2 ^ 64 → fits b k = true ↔ k < 2 ^ bit_depth b.
Proof.
  intros [H0 H1] Hk. unfold fits. rewrite orb_true_iff, Z.leb_le, Z.ltb_lt, Z.shiftl_mul_pow2 by lia. split; [|intros; right; lia].
  intros [H|H]; [|lia]. assert (bit_depth b = 64) as -> by lia. lia.
Qed.

Lemma plane_row_ok b i : depth_ok b → 0 <= i < bit_depth b → row_ok (plane_row i).
Proof. unfold depth_ok, row_ok, plane_row. lia. Qed.

(** * The readers, against what the fragment promises *)
Section laws.
Context {X : Extern} {P : Type} `{!Pager P} (f : FragmentRead P) (facts : Z → Z → bool) `{HF : !Facts f facts} (b : Bsi).
Hypothesis Hd : depth_ok b.
Local Abbreviation V := (value_of (bit_depth b) facts).
Local Abbreviation E := (facts EXISTS_ROW).

(** A row as a set of offsets in the shard. *)
Definition is_set (rs : RowSet) (S : Z → Prop) : Prop := wf_rows rs ∧ ∀ x, in_rows rs x ↔ 0 <= x < 2 ^ 20 ∧ S x.

Lemma plane_set i : 0 <= i < bit_depth b → ∃ rs, from_tree (row f (plane_row i)) = Ok rs ∧ is_set rs (λ x, facts (plane_row i) x = true).
Proof. intros Hi. destruct (facts_row (plane_row i) (plane_row_ok b i Hd Hi)) as (rs & E1 & W & Hin & _). exists rs. rewrite E1. split; [done|by split]. Qed.

Lemma exists_set : ∃ rs, bsi_exists b f = Ok rs ∧ is_set rs (λ x, E x = true).
Proof. destruct (facts_row EXISTS_ROW) as (rs & E1 & W & Hin & _); [unfold row_ok, EXISTS_ROW; lia|]. exists rs. unfold bsi_exists. rewrite E1. split; [done|by split]. Qed.

Lemma set_op op a c S T : is_set a S → is_set c T → is_set (combine op a c) (λ x, op_spec op (S x) (T x)).
Proof.
  intros [Wa Ha] [Wc Hc]. destruct (combine_ok op a c Wa Wc) as [W H]. split; [exact W|]. intros x. rewrite H, Ha, Hc. destruct op; cbn; tauto.
Qed.

Lemma set_ext a S T : (∀ x, S x ↔ T x) → is_set a S → is_set a T.
Proof. intros H [W Hin]. split; [exact W|]. intros x. by rewrite Hin, H. Qed.

Lemma empty_set a S : is_set a S → rs_is_empty a = true ↔ ∀ x, 0 <= x < 2 ^ 20 → ¬ S x.
Proof. intros [W Hin]. rewrite rs_is_empty_ok by exact W. setoid_rewrite Hin. split; [intros H x Hx HS; by apply (H x)|]. intros H x [Hx HS]. by apply (H x). Qed.

Lemma planes_down_S n : 0 <= n → rev (seqZ 0 (n + 1)) = n :: rev (seqZ 0 n).
Proof. intros Hn. by rewrite seqZ_snoc, rev_app_distr by exact Hn. Qed.

Lemma bsi_get_ok record : bsi_get b f record = Ok (stored (bit_depth b) facts (local_of record)).
Proof.
  unfold bsi_get. cbn zeta. destruct (facts_get_many (EXISTS_ROW :: map plane_row (planes_up b)) record) as (bits & -> & _ & Hg).
  { constructor; [unfold row_ok, EXISTS_ROW; lia|]. apply Forall_map, Forall_forall. intros i Hi%elem_of_seqZ. apply (plane_row_ok b i Hd). lia. }
  cbn [from_tree map_err mbind Res_bind]. rewrite (Hg EXISTS_ROW), bool_decide_eq_true_2 by (by left). cbn [default]. unfold stored. destruct (E (local_of record)); [|done]. cbn [negb id from_option].
  f_equal. f_equal. rewrite <- fold_lor by (destruct Hd; lia). unfold planes_up.
  assert (Hgi : ∀ i, i ∈ seqZ 0 (bit_depth b) → om_get (plane_row i) bits = Some (facts (plane_row i) (local_of record))).
  { intros i Hi. rewrite Hg, bool_decide_eq_true_2; [done|]. right. unfold planes_up. change (map plane_row ?l) with (plane_row <$> l). by apply list_elem_of_fmap_2. }
  revert Hgi. generalize (seqZ 0 (bit_depth b)). intros l. generalize 0. induction l as [|i l IH]; intros v Hgi; [done|]. cbn [foldl]. rewrite Hgi by (by left). cbn [from_option id].
  apply IH. intros j Hj. apply Hgi. by right.
Qed.

(** [range], a plane at a time: above level [n] the values are compared as their high parts. *)
Section range.
Context (op : RangeOp) (k : Z).
Hypothesis Hk : 0 <= k < 2 ^ bit_depth b.

Definition eq_at (n x : Z) : Prop := E x = true ∧ V x / 2 ^ n = k / 2 ^ n.
Definition gt_at (n x : Z) : Prop := E x = true ∧ k / 2 ^ n < V x / 2 ^ n.

Lemma level_step n x : 0 <= n < bit_depth b →
  (eq_at n x ↔ eq_at (n + 1) x ∧ facts (plane_row n) x = Z.testbit k n) ∧
  (gt_at n x ↔ gt_at (n + 1) x ∨ eq_at (n + 1) x ∧ facts (plane_row n) x = true ∧ Z.testbit k n = false).
Proof.
  intros Hn. unfold eq_at, gt_at. pose proof (next_bit (V x) n ltac:(lia)) as H1. pose proof (next_bit k n ltac:(lia)) as H2. rewrite value_of_bit in H1 by lia.
  rewrite H1, H2. destruct (facts (plane_row n) x), (Z.testbit k n); cbn [Z.b2z]; split; split; intros; intuition (try lia; try congruence).
Qed.

Lemma eq_low n x : 0 <= n → eq_at 0 x → eq_at n x.
Proof. unfold eq_at. rewrite !Z.div_1_r. intros _ [H ->]. by split. Qed.

Lemma range_loop_ok : ∀ n, 0 <= n → n <= bit_depth b → ∀ gt eq, is_set gt (gt_at n) → is_set eq (eq_at n) →
  ∃ gt' eq', range_loop f op k (rev (seqZ 0 n)) gt eq = Ok (gt', eq') ∧ is_set eq' (eq_at 0) ∧ (is_eq op = false → is_set gt' (gt_at 0)) .
Proof.
  intros n Hn. pattern n. apply natlike_ind; [intros _ gt eq Hgt Heq; exists gt, eq; auto| |exact Hn].
  clear n Hn. intros n Hn IH Hle gt eq. rewrite <- Z.add_1_r in *. intros Hgt Heq. rewrite planes_down_S by exact Hn. cbn [range_loop].
  destruct (rs_is_empty eq && is_eq op) eqn:Eb.
  { apply andb_true_iff in Eb as [Ee Eo]. exists gt, eq. split; [done|]. split; [|congruence]. destruct Heq as [W Hin]. split; [exact W|].
    pose proof (proj1 (empty_set eq _ (conj W Hin)) Ee) as Hno. intros x. rewrite Hin. split; intros [Hx H]; exfalso; apply (Hno x Hx); [exact H|]. apply (eq_low (n + 1)); [lia|exact H]. }
  destruct (plane_set n ltac:(lia)) as (plane & -> & Hp). cbn [mbind Res_bind]. rewrite bit_of_testbit by exact Hn. destruct (Z.testbit k n) eqn:Ek.
  - apply IH; [lia| |].
    + eapply set_ext; [|exact Hgt]. intros x. destruct (level_step n x ltac:(lia)) as [_ ->]. rewrite Ek. intuition congruence.
    + eapply set_ext; [|exact (set_op And _ _ _ _ Heq Hp)]. intros x. destruct (level_step n x ltac:(lia)) as [-> _]. rewrite Ek. cbn. tauto.
  - apply IH; [lia| |].
    + eapply set_ext; [|exact (set_op Or _ _ _ _ Hgt (set_op And _ _ _ _ Heq Hp))]. intros x. destruct (level_step n x ltac:(lia)) as [_ ->]. rewrite Ek. cbn. tauto.
    + eapply set_ext; [|exact (set_op AndNot _ _ _ _ Heq Hp)]. intros x. destruct (level_step n x ltac:(lia)) as [-> _]. rewrite Ek. cbn. rewrite not_true_iff_false. tauto.
Qed.
End range.

Lemma range_ok op k : 0 <= k < 2 ^ 64 → ∃ rs, range b f op k = Ok rs ∧ is_set rs (λ x, E x = true ∧ compares op (V x) k).
Proof.
  intros Hk. unfold range. destruct exists_set as (ex & -> & Hex). cbn [mbind Res_bind]. destruct (fits b k) eqn:Ef; cbn [negb].
  - apply fits_spec in Ef; [|exact Hd|exact Hk]. assert (Hk' : 0 <= k < 2 ^ bit_depth b) by lia.
    assert (Htop : ∀ v, 0 <= v < 2 ^ bit_depth b → v / 2 ^ bit_depth b = 0) by (intros v Hv; by apply Z.div_small).
    assert (HV : ∀ x, V x / 2 ^ bit_depth b = 0) by (intros x; apply Htop, value_of_bound; destruct Hd; lia).
    destruct (range_loop_ok op k Hk' (bit_depth b) ltac:(destruct Hd; lia) ltac:(lia) rs_new ex) as (gt & eq & Hl & Heq & Hgt).
    { split; [apply wf_rows_nil|]. intros x. unfold gt_at. rewrite HV, (Htop k Hk'). split; [intros H; by apply in_rows_nil in H|lia]. }
    { eapply set_ext; [|exact Hex]. intros x. unfold eq_at. rewrite HV, (Htop k Hk'). tauto. }
    unfold planes_down. rewrite Hl. cbn [mbind Res_bind]. eexists. split; [reflexivity|].
    assert (H0 : ∀ v, v / 2 ^ 0 = v) by (intros v; apply Z.div_1_r).
    destruct op; try specialize (Hgt eq_refl).
    + eapply set_ext; [|exact Hgt]. intros x. unfold gt_at. by rewrite !H0.
    + eapply set_ext; [|exact (set_op Or _ _ _ _ Hgt Heq)]. intros x. unfold gt_at, eq_at. rewrite !H0. cbn. intuition lia.
    + eapply set_ext; [|exact (set_op AndNot _ _ _ _ Hex (set_op Or _ _ _ _ Hgt Heq))]. intros x. unfold gt_at, eq_at. rewrite !H0. cbn. intuition lia.
    + eapply set_ext; [|exact (set_op AndNot _ _ _ _ Hex Hgt)]. intros x. unfold gt_at. rewrite !H0. cbn. intuition lia.
    + eapply set_ext; [|exact Heq]. intros x. unfold eq_at. by rewrite !H0.
    + eapply set_ext; [|exact (set_op AndNot _ _ _ _ Hex Heq)]. intros x. unfold eq_at. rewrite !H0. cbn. intuition lia.
  - assert (Hbig : ∀ x, V x < k).
    { intros x. pose proof (value_of_bound facts x (bit_depth b) ltac:(destruct Hd; lia)). destruct (Z.lt_ge_cases k (2 ^ bit_depth b)) as [H'|]; [|lia].
      apply (fits_spec b k Hd Hk) in H'. congruence. }
    eexists. split; [reflexivity|]. assert (Hnil : ∀ S : Z → Prop, (∀ x, ¬ S x) → is_set rs_new S).
    { intros S HS. split; [apply wf_rows_nil|]. intros x. split; [intros H; by apply in_rows_nil in H|]. intros [_ H]. by apply HS in H. }
    destruct op; cbn [compares]; first [apply Hnil; intros x; specialize (Hbig x); lia | eapply set_ext; [|exact Hex]; intros x; specialize (Hbig x); cbn; intuition lia].
Qed.

Lemma between_ok lo hi : 0 <= lo < 2 ^ 64 → 0 <= hi < 2 ^ 64 → ∃ rs, between b f lo hi = Ok rs ∧ is_set rs (λ x, E x = true ∧ lo <= V x <= hi).
Proof.
  intros Hlo Hhi. unfold between. destruct (Z.ltb_spec hi lo).
  - eexists. split; [reflexivity|]. split; [apply wf_rows_nil|]. intros x. split; [intros H'; by apply in_rows_nil in H'|lia].
  - destruct (range_ok RGe lo Hlo) as (ge & -> & Hge). destruct (range_ok RLe hi Hhi) as (le & -> & Hle). cbn [mbind Res_bind]. eexists. split; [reflexivity|].
    eapply set_ext; [|exact (set_op And _ _ _ _ Hge Hle)]. intros x. cbn. tauto.
Qed.

(** * Aggregates *)

(** A plane holds only records that have a value. *)
Definition sliced : Prop := ∀ i x, 0 <= i < bit_depth b → 0 <= x < 2 ^ 20 → facts (plane_row i) x = true → E x = true.
Definition filter_ok (filter : option RowSet) : Prop := match filter with Some m => wf_rows m | None => True end.
Definition passes (filter : option RowSet) (x : Z) : Prop := match filter with Some m => in_rows m x | None => True end.

(** The offsets of the records an aggregate is about. *)
Definition subjects (filter : option RowSet) (ex : RowSet) : list Z := locals (filtered filter ex).

Lemma filtered_set filter rs S : filter_ok filter → is_set rs S → is_set (filtered filter rs) (λ x, S x ∧ passes filter x).
Proof.
  intros Hf Hs. destruct filter as [m|]; cbn in *; [|eapply set_ext; [|exact Hs]; tauto].
  destruct Hs as [W Hin]. destruct (combine_ok And rs m W Hf) as [Wc Hc]. split; [exact Wc|]. intros x. unfold rs_and. rewrite Hc, Hin. cbn. tauto.
Qed.

Lemma elem_subjects filter ex x : filter_ok filter → is_set ex (λ x, E x = true) → x ∈ subjects filter ex ↔ 0 <= x < 2 ^ 20 ∧ E x = true ∧ passes filter x.
Proof. intros Hf Hex. destruct (filtered_set filter ex _ Hf Hex) as [W Hin]. unfold subjects. by rewrite elem_locals, Hin by exact W. Qed.

Lemma plane_subjects filter ex plane i : filter_ok filter → sliced → 0 <= i < bit_depth b → is_set ex (λ x, E x = true) → is_set plane (λ x, facts (plane_row i) x = true) →
  rs_cardinality (filtered filter plane) = Z.of_nat (length (List.filter (facts (plane_row i)) (subjects filter ex))).
Proof.
  intros Hf Hsl Hi Hex Hp. destruct (filtered_set filter plane _ Hf Hp) as [W Hin]. rewrite rs_cardinality_ok by exact W. f_equal. f_equal.
  apply ascending_ext; [by apply locals_ascending|apply ascending_filter, locals_ascending; apply (filtered_set filter ex _ Hf Hex)|].
  intros x. rewrite elem_locals, Hin by exact W. rewrite !list_elem_of_In, filter_In, <- list_elem_of_In. rewrite (elem_subjects filter ex x Hf Hex).
  specialize (Hsl i x Hi). tauto.
Qed.

Lemma filter_count (g : Z → bool) (w : Z) l : foldr (λ x n, (if g x then w else 0) + n) 0 l = w * Z.of_nat (length (List.filter g l)).
Proof. induction l as [|x l IH]; cbn; [lia|]. rewrite IH. destruct (g x); cbn [length]; lia. Qed.

Definition total (d : Z) (l : list Z) : Z := foldr (λ x n, value_of d facts x + n) 0 l.

Lemma total_S d l : 0 <= d → total (d + 1) l = total d l + 2 ^ d * Z.of_nat (length (List.filter (facts (plane_row d)) l)).
Proof.
  intros Hd'. rewrite <- filter_count. unfold total. induction l as [|x l IH]; cbn [foldr]; [lia|]. rewrite IH, value_of_S by exact Hd'. lia.
Qed.

Lemma total_bound d l : 0 <= d → 0 <= total d l <= Z.of_nat (length l) * 2 ^ d.
Proof.
  intros Hd'. induction l as [|x l IH]; cbn [total foldr length]; [lia|]. fold (total d l). pose proof (value_of_bound facts x d Hd'). lia.
Qed.

Lemma sum_loop_ok filter ex : filter_ok filter → sliced → is_set ex (λ x, E x = true) → ∀ m n, 0 <= n → 0 <= m → m + n = bit_depth b →
  sum_loop f filter (seqZ m n) (total m (subjects filter ex)) = Ok (total (bit_depth b) (subjects filter ex)).
Proof.
  intros Hf Hsl Hex m n Hn. revert m. pattern n. apply natlike_ind; [intros m Hm E0; rewrite Z.add_0_r in E0; by subst m| |exact Hn].
  clear n Hn. intros n Hn IH m Hm En. rewrite seqZ_cons by lia. cbn [sum_loop]. rewrite Z.pred_succ. destruct (plane_set m ltac:(lia)) as (plane & -> & Hp). cbn [mbind Res_bind]. cbn zeta.
  rewrite (plane_subjects filter ex plane m Hf Hsl ltac:(lia) Hex Hp). rewrite Z.shiftl_mul_pow2 by lia.
  pose proof (total_S m (subjects filter ex) Hm) as Ht. rewrite Z.mul_comm in Ht.
  assert (Hl : Z.of_nat (length (subjects filter ex)) <= 2 ^ 20) by (apply locals_length, (filtered_set filter ex _ Hf Hex)).
  pose proof (total_bound (m + 1) (subjects filter ex) ltac:(lia)) as Hb1. pose proof (total_bound m (subjects filter ex) Hm) as Hb0.
  assert (H64 : 2 ^ (m + 1) <= 2 ^ 64) by (apply Z.pow_le_mono_r; [lia|destruct Hd; lia]).
  set (c := Z.of_nat (length (List.filter (facts (plane_row m)) (subjects filter ex)))) in *. assert (0 <= c * 2 ^ m) by (unfold c; nia).
  assert (total (m + 1) (subjects filter ex) < 2 ^ 128) by nia.
  unfold wrap128. rewrite (Z.mod_small (c * 2 ^ m)) by lia. rewrite Z.mod_small by lia. rewrite <- Ht. rewrite <- (Z.add_1_r m). apply IH; lia.
Qed.

Lemma sum_ok filter ex : filter_ok filter → sliced → is_set ex (λ x, E x = true) → sum b f filter = Ok (total (bit_depth b) (subjects filter ex)).
Proof.
  intros Hf Hsl Hex. unfold sum, planes_up. assert (total 0 (subjects filter ex) = 0) as E0.
  { unfold total. induction (subjects filter ex) as [|x l IH]; [done|]. cbn [foldr]. by rewrite IH. }
  pose proof (sum_loop_ok filter ex Hf Hsl Hex 0 (bit_depth b) ltac:(destruct Hd; lia) ltac:(lia) ltac:(lia)) as H. by rewrite E0 in H.
Qed.

Lemma bsi_count_ok filter ex : filter_ok filter → bsi_exists b f = Ok ex → is_set ex (λ x, E x = true) → bsi_count b f filter = Ok (Z.of_nat (length (subjects filter ex))).
Proof.
  intros Hf Ee Hex. unfold bsi_count. rewrite Ee. cbn [mbind Res_bind]. f_equal. apply rs_cardinality_ok. apply (filtered_set filter ex _ Hf Hex).
Qed.

(** [extreme], a plane at a time: the candidates are those whose high part is the best one. *)
Definition better (want_max : bool) (u v : Z) : Prop := if want_max then u <= v else v <= u.
Definition best_at (S : Z → Prop) (want_max : bool) (n v : Z) : Prop :=
  (∃ x, 0 <= x < 2 ^ 20 ∧ S x ∧ V x / 2 ^ n = v) ∧ ∀ x, 0 <= x < 2 ^ 20 → S x → better want_max (V x / 2 ^ n) v.

Lemma extreme_step S (want_max : bool) n cand with_ v : 0 <= n < bit_depth b →
  is_set cand (λ x, S x ∧ V x / 2 ^ (n + 1) = v) → is_set with_ (λ x, (S x ∧ V x / 2 ^ (n + 1) = v) ∧ facts (plane_row n) x = want_max) →
  best_at S want_max (n + 1) v →
  let hit := negb (rs_is_empty with_) in
  let v' := 2 * v + Z.b2z (if hit then want_max else negb want_max) in
  is_set (if hit then with_ else cand) (λ x, S x ∧ V x / 2 ^ n = v') ∧ best_at S want_max n v'.
Proof.
  intros Hn Hc Hw [(x0 & Hx0 & HS0 & E0) Hall] hit v'.
  assert (Hstep : ∀ x, V x / 2 ^ n = 2 * (V x / 2 ^ (n + 1)) + Z.b2z (facts (plane_row n) x)) by (intros x; rewrite next_bit by lia; by rewrite value_of_bit by lia).
  assert (Hwe : hit = true ↔ ∃ x, 0 <= x < 2 ^ 20 ∧ (S x ∧ V x / 2 ^ (n + 1) = v) ∧ facts (plane_row n) x = want_max).
  { unfold hit. rewrite negb_true_iff, <- not_true_iff_false. rewrite rs_is_empty_ok by apply Hw. destruct Hw as [W Hin]. setoid_rewrite Hin. split.
    - intros H. destruct (locals with_) as [|x l] eqn:El; [exfalso; apply H; intros x Hx; apply Hin, elem_locals in Hx; [rewrite El in Hx; by apply not_elem_of_nil in Hx|exact W]|].
      exists x. apply Hin, elem_locals; [exact W|rewrite El; by left].
    - intros (x & H1 & H2) H. by apply (H x). }
  assert (Hv : ∀ x, 0 <= x < 2 ^ 20 → S x → V x / 2 ^ (n + 1) = v → hit = false → facts (plane_row n) x = negb want_max).
  { intros x Hx HS Ex Hh. destruct (Bool.bool_dec (facts (plane_row n) x) want_max) as [Ef|]; [|by destruct (facts (plane_row n) x), want_max].
    exfalso. assert (hit = true) by (apply Hwe; exists x; auto). congruence. }
  destruct hit eqn:Eh; unfold v'.
  - split.
    + eapply set_ext; [|exact Hw]. intros x. rewrite Hstep. destruct (facts (plane_row n) x), want_max; cbn [Z.b2z]; intuition (try lia; try congruence).
    + destruct (proj1 Hwe eq_refl) as (x1 & Hx1 & (HS1 & E1) & Ef1). split; [exists x1; split; [exact Hx1|]; split; [exact HS1|]; rewrite Hstep, E1, Ef1; lia|].
      intros x Hx HS. specialize (Hall x Hx HS). rewrite Hstep. unfold better in *. destruct (facts (plane_row n) x), want_max; cbn [Z.b2z]; lia.
  - split.
    + destruct Hc as [W Hin]. split; [exact W|]. intros x. rewrite Hin, Hstep. split; intros (Hx & HS & Ex); (split; [exact Hx|split; [exact HS|]]).
      * rewrite Ex. f_equal. f_equal. by apply Hv.
      * destruct (facts (plane_row n) x), want_max; cbn [Z.b2z negb] in Ex; lia.
    + split; [exists x0; split; [exact Hx0|]; split; [exact HS0|]; rewrite Hstep, E0; do 2 f_equal; by apply Hv|].
      intros x Hx HS. pose proof (Hall x Hx HS) as Ha. pose proof (Hv x Hx HS) as Hvx. rewrite Hstep. unfold better in *.
      destruct (Z.eq_dec (V x / 2 ^ (n + 1)) v) as [Ex|]; [rewrite Hvx by (exact Ex || reflexivity); destruct want_max; cbn [Z.b2z negb]; lia|].
      destruct (facts (plane_row n) x), want_max; cbn [Z.b2z negb]; lia.
Qed.

Lemma low_bit v n : 0 <= n → Z.testbit (v * 2 ^ (n + 1)) n = false.
Proof. intros Hn. rewrite Z.mul_pow2_bits_low by lia. done. Qed.

Lemma extreme_loop_ok S want_max : ∀ n, 0 <= n → n <= bit_depth b → ∀ cand v, is_set cand (λ x, S x ∧ V x / 2 ^ n = v) → best_at S want_max n v →
  ∃ r, extreme_loop f want_max (rev (seqZ 0 n)) cand (v * 2 ^ n) = Ok r ∧ best_at S want_max 0 r.
Proof.
  intros n Hn. pattern n. apply natlike_ind; [intros _ cand v Hc Hb; exists v; rewrite Z.mul_1_r; auto| |exact Hn].
  clear n Hn. intros n Hn IH Hle cand v. rewrite <- Z.add_1_r in *. intros Hc Hb. rewrite planes_down_S by exact Hn. cbn [extreme_loop].
  destruct (plane_set n ltac:(lia)) as (plane & -> & Hp). cbn [mbind Res_bind]. cbn zeta. set (with_ := if want_max then rs_and cand plane else rs_andnot cand plane).
  assert (Hw : is_set with_ (λ x, (S x ∧ V x / 2 ^ (n + 1) = v) ∧ facts (plane_row n) x = want_max)).
  { unfold with_. destruct want_max; [eapply set_ext; [|exact (set_op And _ _ _ _ Hc Hp)]; cbn; tauto|].
    eapply set_ext; [|exact (set_op AndNot _ _ _ _ Hc Hp)]. intros x. cbn. rewrite not_true_iff_false. tauto. }
  destruct (extreme_step S want_max n cand with_ v ltac:(lia) Hc Hw Hb) as [H1 H2]. cbn zeta in H1, H2.
  assert (Hpow : v * 2 ^ (n + 1) = (2 * v) * 2 ^ n) by (rewrite Z.pow_add_r by lia; lia).
  assert (Hlor : Z.lor (v * 2 ^ (n + 1)) (Z.shiftl 1 n) = (2 * v + 1) * 2 ^ n) by (rewrite lor_add by (try lia; by apply low_bit); rewrite Hpow; lia).
  destruct (rs_is_empty with_), want_max; cbn [negb Z.b2z] in *; rewrite ?Hlor, ?Hpow; rewrite ?Z.add_0_r in *; by apply IH; [lia|..].
Qed.

Lemma extreme_ok filter (want_max : bool) : filter_ok filter →
  ∃ r, extreme b f filter want_max = Ok r ∧
    match r with
    | None => ∀ x, 0 <= x < 2 ^ 20 → E x = true → ¬ passes filter x
    | Some v => best_at (λ x, E x = true ∧ passes filter x) want_max 0 v
    end.
Proof.
  intros Hf. unfold extreme. destruct exists_set as (ex & -> & Hex). cbn [mbind Res_bind]. cbn zeta. pose proof (filtered_set filter ex _ Hf Hex) as Hc.
  destruct (rs_is_empty (filtered filter ex)) eqn:Ee.
  - exists None. split; [done|]. intros x Hx HE Hp. by apply (proj1 (empty_set _ _ Hc) Ee x Hx).
  - assert (HV : ∀ x, V x / 2 ^ bit_depth b = 0) by (intros x; apply Z.div_small, value_of_bound; destruct Hd; lia).
    destruct (extreme_loop_ok (λ x, E x = true ∧ passes filter x) want_max (bit_depth b) ltac:(destruct Hd; lia) ltac:(lia) (filtered filter ex) 0) as (r & Hr & Hb).
    { eapply set_ext; [|exact Hc]. intros x. cbn. rewrite HV. tauto. }
    { split; [|intros x Hx HS; rewrite HV; unfold better; destruct want_max; lia]. destruct Hc as [W Hin].
      destruct (locals (filtered filter ex)) as [|x l] eqn:El; [|exists x; rewrite HV; assert (Hx : x ∈ locals (filtered filter ex)) by (rewrite El; by left); apply elem_locals, Hin in Hx; [tauto|exact W]].
      exfalso. rewrite <- not_true_iff_false in Ee. apply Ee. apply rs_is_empty_ok; [exact W|]. intros x Hx. apply elem_locals in Hx; [|exact W]. rewrite El in Hx. by apply not_elem_of_nil in Hx. }
    exists (Some r). unfold planes_down. rewrite Z.mul_0_l in Hr. rewrite Hr. cbn [mbind Res_bind]. split; [done|exact Hb].
Qed.
End laws.
