(* ===== verification/Group.v ===== *)
(** Grouping bits by container (crates/big-engine/src/bitmap/write.rs: [group_offsets] and below;
    crates/big-engine/src/bitmap/field/bsi.rs: [group_all]).

    The number of cores is what the operating system answers, and so an argument.  Threads share
    nothing and are joined in order: a fan-out is the list of what the chunks give.  A [Vec] of [Vec]s
    indexed out of range panics. *)
From S2P Require Import Prelude Bits Search Container Optimize BTree Coords OrdMap Bsi.

(** * Loose bits (write.rs) *)
Abbreviation Grouped := (list (Z * list Z)) (only parsing).

(** [by_ckey.entry(k).or_default().append(&mut run)]. *)
Definition append_at (m : Grouped) (k : Z) (run : list Z) : Grouped := om_entry m k [] (λ v, v ++ run).

(** The loop of [offsets_of], over the bits left; then the open run is handed over. *)
Fixpoint offsets_loop (bits : list (Z * Z)) (by_ckey : Grouped) (open : option Z) (run : list Z) : Grouped :=
  match bits with
  | [] => match open with Some prev => append_at by_ckey prev run | None => by_ckey end
  | (r, rec) :: bits' =>
      let pos := pos_of r rec in
      let ckey := ckey_of pos in
      if negb (bool_decide (open = Some ckey)) then
        match open with
        | Some prev => offsets_loop bits' (append_at by_ckey prev run) (Some ckey) [offset_in_container pos]
        | None => offsets_loop bits' by_ckey (Some ckey) (run ++ [offset_in_container pos])
        end
      else offsets_loop bits' by_ckey open (run ++ [offset_in_container pos])
  end.
Definition offsets_of (bits : list (Z * Z)) : Grouped := offsets_loop bits [] None [].

Definition merge_grouped (into from : Grouped) : Grouped := foldl (λ m e, append_at m (fst e) (snd e)) into from.

Definition MIN_PER_THREAD : Z := 250000.
Definition fan_out (cores bits : Z) : Z := if bits <? 2 * MIN_PER_THREAD then 1 else Z.max (Z.min cores (bits / MIN_PER_THREAD)) 1.

(** [slice::chunks(n)], which panics on zero; fuel is the length of the slice. *)
Fixpoint chunks_loop {A} (fuel n : nat) (l : list A) : list (list A) :=
  match fuel, l with
  | S fuel', _ :: _ => take n l :: chunks_loop fuel' n (drop n l)
  | _, _ => []
  end.
Definition chunks {E A} (n : Z) (l : list A) : Res E (list (list A)) :=
  if n <=? 0 then Panic else Ok (chunks_loop (length l) (Z.to_nat n) l).
Definition div_ceil (a b : Z) : Z := (a + b - 1) / b.
Definition len {A} (l : list A) : Z := Z.of_nat (length l).

Definition offsets_of_parallel {E} (bits : list (Z * Z)) (threads : Z) : Res E Grouped :=
  parts ← chunks (div_ceil (len bits) threads) bits;
  Ok (foldl merge_grouped [] (map offsets_of parts)).

Definition group_offsets {E} (cores : Z) (bits : list (Z * Z)) : Res E Grouped :=
  let threads := fan_out cores (len bits) in
  if threads =? 1 then Ok (offsets_of bits) else offsets_of_parallel bits threads.

Definition containers_of (g : Grouped) : list (Z * Container) := map (λ e, (fst e, from_values (snd e))) g.

(** * Bit-sliced batches (bsi.rs) *)
Abbreviation Table := (list (list Z)) (only parsing).

Definition tbl_push (t : Table) (i o : Z) : Res FieldError Table :=
  v ← unwrap (if 0 <=? i then t !! Z.to_nat i else None); Ok (<[Z.to_nat i := v ++ [o]]> t).

Definition held_at (held : option (list bool)) (j : nat) : Res FieldError bool :=
  match held with None => Ok true | Some h => unwrap (h !! j) end.

(** The bits of one value: the planes left, from slot-major row [base + 1] on. *)
Fixpoint value_bits (planes : list Z) (base offset value : Z) (held_here : bool) (t : Table * Table) : Res FieldError (Table * Table) :=
  match planes with
  | [] => Ok t
  | i :: planes' =>
      let at_ := base + 1 + i in
      t ← (if bit_of value i then set ← tbl_push (fst t) at_ offset; Ok (set, snd t)
           else if held_here then clear ← tbl_push (snd t) at_ offset; Ok (fst t, clear)
           else Ok t);
      value_bits planes' base offset value held_here t
  end.

Fixpoint tables_loop (b : Bsi) (values : list (Z * Z)) (held : option (list bool)) (rows : Z) (j : nat) (t : Table * Table) : Res FieldError (Table * Table) :=
  match values with
  | [] => Ok t
  | (record, value) :: values' =>
      let local := local_of record in
      let base := Z.shiftr local CONTAINER_EXPONENT * rows in
      let offset := Z.land local (CONTAINER_WIDTH - 1) mod 65536 in
      set ← tbl_push (fst t) base offset;
      held_here ← held_at held j;
      t ← value_bits (planes_up b) base offset value held_here (set, snd t);
      tables_loop b values' held rows (S j) t
  end.

(** [tables_of]; the counting pass only reserves room. *)
Definition tables_of (b : Bsi) (values : list (Z * Z)) (held : option (list bool)) (rows : Z) : Res FieldError (Table * Table) :=
  let empty := replicate (Z.to_nat (rows * CONTAINERS_PER_ROW)) [] in
  tables_loop b values held rows 0 (empty, empty).

(** [for (into, from) in set.iter_mut().zip(s) { into.extend_from_slice(&from) }]. *)
Definition extend_all (into from : Table) : Table := zip_with (++) (take (length from) into) from ++ drop (length from) into.

(** Chunk [n] with its slice of [held]; a slice out of range panics. *)
Definition tables_part (b : Bsi) (held : option (list bool)) (rows chunk : Z) (n : nat) (part : list (Z * Z)) : Res FieldError (Table * Table) :=
  mine ← (match held with
          | None => Ok None
          | Some h => if len h <? Z.of_nat n * chunk + len part then Panic
                      else Ok (Some (take (length part) (drop (Z.to_nat (Z.of_nat n * chunk)) h)))
          end);
  tables_of b part mine rows.

Fixpoint tables_parts (b : Bsi) (held : option (list bool)) (rows chunk : Z) (n : nat) (parts : list (list (Z * Z))) : Res FieldError (list (Table * Table)) :=
  match parts with
  | [] => Ok []
  | part :: parts' => t ← tables_part b held rows chunk n part; ts ← tables_parts b held rows chunk (S n) parts'; Ok (t :: ts)
  end.

Definition tables_of_parallel (b : Bsi) (values : list (Z * Z)) (held : option (list bool)) (rows threads : Z) : Res FieldError (Table * Table) :=
  let chunk := div_ceil (len values) threads in
  cs ← chunks chunk values;
  parts ← tables_parts b held rows chunk 0 cs;
  match parts with
  | [] => Panic
  | p :: parts' => Ok (foldl (λ t sc, (extend_all (fst t) (fst sc), extend_all (snd t) (snd sc))) p parts')
  end.

(** [fold]: from slot-major to container keys; [i] is the place of the first list left. *)
Fixpoint fold_loop (i : Z) (table : Table) (rows : Z) (out : Grouped) : Grouped :=
  match table with
  | [] => out
  | offsets :: table' =>
      fold_loop (i + 1) table' rows
        (match offsets with [] => out | _ => om_insert out (ckey_of_slot (i mod rows) (i / rows)) offsets end)
  end.
Definition fold (table : Table) (rows : Z) : Grouped := fold_loop 0 table rows [].

Fixpoint check_fits (b : Bsi) (values : list (Z * Z)) : Res FieldError unit :=
  match values with
  | [] => Ok tt
  | (_, value) :: values' => if negb (fits b value) then Err (FValueTooWide value (bit_depth b)) else check_fits b values'
  end.

Definition group_all (b : Bsi) (cores : Z) (values : list (Z * Z)) (held : option (list bool)) (threads : Z) : Res FieldError (Grouped * Grouped) :=
  _ ← check_fits b values;
  let rows := bit_depth b + 1 in
  let n := Z.min (fan_out cores (len values * rows)) (Z.max threads 1) in
  '(set, clear) ← (if n =? 1 then tables_of b values held rows else tables_of_parallel b values held rows n);
  Ok (fold set rows, fold clear rows).

(** * What a grouping is *)

(** Every container key with the offsets that landed in it, in the order they arrived. *)
Definition some_ne (l : list Z) : option (list Z) := match l with [] => None | _ => Some l end.
Definition grouped (m : Grouped) (g : Z → list Z) : Prop := om_ok m ∧ ∀ k, om_get k m = some_ne (g k).
Definition arrivals (bits : list (Z * Z)) (k : Z) : list Z :=
  concat (map (λ e, if ckey_of (pos_of (fst e) (snd e)) =? k then [offset_in_container (pos_of (fst e) (snd e))] else []) bits).

Lemma grouped_unique a c g h : grouped a g → grouped c h → (∀ k, g k = h k) → a = c.
Proof. intros [Ha Ga] [Hc Gc] E. apply om_ext; [exact Ha|exact Hc|]. intros k. by rewrite Ga, Gc, E. Qed.

Lemma grouped_nil : grouped [] (λ _, []).
Proof. split; [constructor|done]. Qed.

Lemma grouped_ext m g h : (∀ k, g k = h k) → grouped m g → grouped m h.
Proof. intros E [Ho Hg]. split; [exact Ho|]. intros k. by rewrite <- E. Qed.

Lemma default_some_ne l : default [] (some_ne l) = l. Proof. by destruct l. Qed.

Lemma append_grouped m g k run : run ≠ [] → grouped m g → grouped (append_at m k run) (λ k', g k' ++ if k' =? k then run else []).
Proof.
  intros Hr [Ho Hg]. split; [by apply om_entry_ok|]. intros k'. unfold append_at. rewrite om_get_entry, !Hg by exact Ho. destruct (Z.eqb_spec k' k) as [->|]; [|by rewrite app_nil_r].
  rewrite default_some_ne. destruct (g k ++ run) eqn:E; [|done]. by apply app_nil in E as [_ ->].
Qed.

Lemma offsets_loop_ok bits : ∀ m g open run, grouped m g → match open with Some _ => run ≠ [] | None => run = [] end →
  grouped (offsets_loop bits m open run) (λ k, g k ++ (match open with Some k0 => if k =? k0 then run else [] | None => [] end) ++ arrivals bits k).
Proof.
  induction bits as [|[r rec] bits IH]; intros m g open run Hg Ho; cbn [offsets_loop].
  - destruct open as [prev|].
    + eapply grouped_ext; [|exact (append_grouped m g prev run Ho Hg)]. intros k. change (arrivals [] k) with (@nil Z). by rewrite app_nil_r.
    + eapply grouped_ext; [|exact Hg]. intros k. cbn. by rewrite app_nil_r.
  - cbn zeta. set (k0 := ckey_of (pos_of r rec)). set (o := offset_in_container (pos_of r rec)).
    assert (Harr : ∀ k, arrivals ((r, rec) :: bits) k = (if k =? k0 then [o] else []) ++ arrivals bits k) by (intros k; rewrite (Z.eqb_sym k k0); done).
    case_bool_decide as E; cbn [negb].
    + subst open. eapply grouped_ext; [|apply IH; [exact Hg|by destruct run]]. intros k. cbn beta. rewrite Harr. destruct (k =? k0); by rewrite <- ?app_assoc.
    + destruct open as [prev|].
      * eapply grouped_ext; [|apply IH; [exact (append_grouped m g prev run Ho Hg)|done]]. intros k. cbn beta. by rewrite Harr, <- app_assoc.
      * subst run. eapply grouped_ext; [|apply IH; [exact Hg|done]]. intros k. cbn beta. by rewrite Harr.
Qed.

Lemma offsets_of_ok bits : grouped (offsets_of bits) (arrivals bits).
Proof. eapply grouped_ext; [|apply (offsets_loop_ok bits [] (λ _, []) None [] grouped_nil eq_refl)]. done. Qed.

Lemma merge_loop_ok from : om_ok from → Forall (λ e, snd e ≠ []) from → ∀ m g, grouped m g → grouped (merge_grouped m from) (λ k, g k ++ default [] (om_get k from)).
Proof.
  induction from as [|[k v] from IH]; intros Ho F m g Hg; [eapply grouped_ext; [|exact Hg]; intros k; cbn; by rewrite app_nil_r|].
  apply om_ok_cons in Ho as [Hp Ho]. apply Forall_cons in F as [Hv F]. cbn in Hv, Hp. unfold merge_grouped. cbn [foldl fst snd]. fold (merge_grouped (append_at m k v) from).
  eapply grouped_ext; [|exact (IH Ho F _ _ (append_grouped m g k v Hv Hg))]. intros k'. cbn beta. rewrite om_get_cons. cbn [fst snd]. rewrite (Z.eqb_sym k' k).
  destruct (Z.eqb_spec k k') as [<-|]; [rewrite om_get_past by exact Hp; cbn; by rewrite app_nil_r|by rewrite app_nil_r].
Qed.

Lemma merge_grouped_ok a c g h : grouped a g → grouped c h → grouped (merge_grouped a c) (λ k, g k ++ h k).
Proof.
  intros Ha [Hc Gc]. eapply grouped_ext; [|apply merge_loop_ok; [exact Hc| |exact Ha]].
  - intros k. cbn beta. by rewrite Gc, default_some_ne.
  - apply Forall_forall. intros [k v] Hin. apply om_get_elem in Hin; [|exact Hc]. rewrite Gc in Hin. cbn. by destruct (h k); [|injection Hin as <-].
Qed.

(** * Fanning out changes nothing *)
Lemma chunks_loop_concat {A} n (l : list A) : (0 < n)%nat → ∀ fuel, (length l ≤ fuel)%nat → concat (chunks_loop fuel n l) = l.
Proof.
  intros Hn fuel. revert l. induction fuel as [|fuel IH]; intros l Hl; [destruct l; [done|cbn in Hl; lia]|]. destruct l as [|x l]; [done|]. cbn [chunks_loop concat].
  rewrite IH; [apply take_drop|]. rewrite length_drop. cbn in *. lia.
Qed.

Lemma arrivals_app a c k : arrivals (a ++ c) k = arrivals a k ++ arrivals c k.
Proof. unfold arrivals. by rewrite map_app, concat_app. Qed.

Lemma merge_parts parts : ∀ m g, grouped m g → grouped (foldl merge_grouped m (map offsets_of parts)) (λ k, g k ++ arrivals (concat parts) k).
Proof.
  induction parts as [|p parts IH]; intros m g Hg; [eapply grouped_ext; [|exact Hg]; intros k; cbn; by rewrite app_nil_r|]. cbn [map foldl concat].
  eapply grouped_ext; [|apply IH, merge_grouped_ok; [exact Hg|apply offsets_of_ok]]. intros k. cbn beta. by rewrite arrivals_app, app_assoc.
Qed.

Lemma div_ceil_pos a n : 0 < a → 0 < n → 0 < div_ceil a n.
Proof. intros Ha Hn. unfold div_ceil. apply Z.div_str_pos. lia. Qed.

Lemma fan_out_many cores bits : fan_out cores bits ≠ 1 → 2 <= fan_out cores bits ∧ 500000 <= bits.
Proof. unfold fan_out, MIN_PER_THREAD. destruct (Z.ltb_spec bits (2 * 250000)); [done|]. lia. Qed.

Lemma group_offsets_ok {E} cores bits : ∃ m, group_offsets (E := E) cores bits = Ok m ∧ m = offsets_of bits ∧ grouped m (arrivals bits).
Proof.
  unfold group_offsets. cbn zeta. destruct (Z.eqb_spec (fan_out cores (len bits)) 1) as [E1|E1]; [eexists; split; [reflexivity|split; [done|apply offsets_of_ok]]|].
  apply fan_out_many in E1 as [Ht Hl]. unfold offsets_of_parallel, chunks. pose proof (div_ceil_pos (len bits) (fan_out cores (len bits)) ltac:(lia) ltac:(lia)) as Hc.
  destruct (Z.leb_spec (div_ceil (len bits) (fan_out cores (len bits))) 0); [lia|]. cbn [mbind Res_bind]. eexists. split; [reflexivity|].
  assert (Hg : grouped (foldl merge_grouped [] (map offsets_of (chunks_loop (length bits) (Z.to_nat (div_ceil (len bits) (fan_out cores (len bits)))) bits))) (arrivals bits)).
  { eapply grouped_ext; [|apply merge_parts, grouped_nil]. intros k. cbn. by rewrite chunks_loop_concat by lia. }
  split; [|exact Hg]. eapply grouped_unique; [exact Hg|apply offsets_of_ok|done].
Qed.

(** * Slot-major tables *)
Section tables.
Context (rows : Z).
Hypothesis Hrows : 0 < rows.

(** The table of [rows] rows by sixteen slots whose lists are [g]. *)
Definition table_is (t : Table) (g : Z → Z → list Z) : Prop :=
  len t = rows * 16 ∧ ∀ r s, 0 <= r < rows → 0 <= s < 16 → t !! Z.to_nat (s * rows + r) = Some (g r s).

Lemma table_ext t g h : (∀ r s, 0 <= r < rows → 0 <= s < 16 → g r s = h r s) → table_is t g → table_is t h.
Proof. intros E [Hl H]. split; [exact Hl|]. intros r s Hr Hs. by rewrite H, E. Qed.

Lemma place_inj r s r' s' : 0 <= r < rows → 0 <= r' < rows → s * rows + r = s' * rows + r' → r = r' ∧ s = s'.
Proof. intros Hr Hr' E. assert (s = s') by nia. subst. split; [lia|done]. Qed.

Lemma tbl_push_ok t g row slot o : table_is t g → 0 <= row < rows → 0 <= slot < 16 →
  ∃ t', tbl_push t (slot * rows + row) o = Ok t' ∧ table_is t' (λ r s, g r s ++ if (s =? slot) && (r =? row) then [o] else []).
Proof.
  intros [Hl H] Hr Hs. unfold tbl_push. destruct (Z.leb_spec 0 (slot * rows + row)); [|nia]. rewrite H by assumption. cbn [unwrap mbind Res_bind]. eexists. split; [reflexivity|].
  split; [unfold len; rewrite length_insert; exact Hl|]. intros r s Hr' Hs'. destruct (Z.eqb_spec s slot) as [Es|Es], (Z.eqb_spec r row) as [Er|Er]; cbn [andb].
  1: { subst. apply list_lookup_insert_eq. exact (lookup_lt_Some _ _ _ (H row slot Hr Hs)). }
  all: rewrite app_nil_r, list_lookup_insert_ne; [by apply H|]; intros E%Z2Nat.inj; [destruct (place_inj row slot r s Hr Hr' E); congruence|nia|nia].
Qed.

Lemma value_bits_ok planes slot o v held : 0 <= slot < 16 → NoDup planes → Forall (λ i, 0 <= i < rows - 1) planes → ∀ t g h, table_is (fst t) g → table_is (snd t) h →
  ∃ t', value_bits planes (slot * rows) o v held t = Ok t' ∧
    table_is (fst t') (λ r s, g r s ++ if (s =? slot) && bool_decide (r - 1 ∈ planes) && bit_of v (r - 1) then [o] else []) ∧
    table_is (snd t') (λ r s, h r s ++ if (s =? slot) && bool_decide (r - 1 ∈ planes) && (negb (bit_of v (r - 1)) && held) then [o] else []).
Proof.
  intros Hs Hn. induction Hn as [|i planes Hi Hn IH]; intros F t g h Hg Hh.
  - exists t. split; [done|]. split; (eapply table_ext; [|eassumption]); intros r s _ _; rewrite (bool_decide_eq_false_2 (r - 1 ∈ [])) by (intros H; by apply not_elem_of_nil in H); rewrite andb_false_r; by rewrite app_nil_r.
  - apply Forall_cons in F as [Hi' F]. cbn [value_bits]. replace (slot * rows + 1 + i) with (slot * rows + (i + 1)) by lia.
    assert (Hcases : ∀ r, (r = i + 1 ∧ bool_decide (r - 1 ∈ planes) = false ∧ bool_decide (r - 1 ∈ i :: planes) = true) ∨ (r ≠ i + 1 ∧ bool_decide (r - 1 ∈ i :: planes) = bool_decide (r - 1 ∈ planes))).
    { intros r. destruct (Z.eq_dec r (i + 1)) as [->|Hne]; [left|right].
      - replace (i + 1 - 1) with i by lia. split; [done|]. split; [by apply bool_decide_eq_false_2|]. apply bool_decide_eq_true_2. by left.
      - split; [done|]. apply bool_decide_ext. rewrite elem_of_cons. split; [intros [H|H]; [lia|exact H]|by right]. }
    assert (Hset : ∀ (p : bool) (g0 : Z → Z → list Z) (q : Z → bool), q i = p → ∀ r s,
      (g0 r s ++ (if (s =? slot) && (r =? i + 1) then (if p then [o] else []) else [])) ++ (if (s =? slot) && bool_decide (r - 1 ∈ planes) && q (r - 1) then [o] else []) =
      g0 r s ++ (if (s =? slot) && bool_decide (r - 1 ∈ i :: planes) && q (r - 1) then [o] else [])).
    { intros p g0 q Hq r s. rewrite <- app_assoc. f_equal. destruct (Hcases r) as [(-> & -> & ->)|(Hne & ->)].
      - replace (i + 1 - 1) with i by lia. rewrite Hq, Z.eqb_refl. by destruct (s =? slot), p.
      - destruct (Z.eqb_spec r (i + 1)); [done|]. by rewrite andb_false_r. }
    assert (Hno : ∀ (g0 : Z → Z → list Z) r s, g0 r s = g0 r s ++ (if (s =? slot) && (r =? i + 1) then (if false then [o] else []) else [])) by (intros g0 r s; destruct (_ && _); by rewrite app_nil_r).
    destruct (bit_of v i) eqn:Eb; [|destruct held eqn:Eh].
    + destruct (tbl_push_ok (fst t) g (i + 1) slot o Hg ltac:(lia) Hs) as (set & -> & Hs'). cbn [mbind Res_bind].
      destruct (IH F (set, snd t) _ h Hs' Hh) as (t' & E & H1 & H2). exists t'. split; [exact E|]. split; (eapply table_ext; [|eassumption]); intros r s _ _; cbn beta.
      * apply (Hset true g (λ z, bit_of v z) Eb).
      * rewrite (Hno h r s) at 1. apply (Hset false h (λ z, negb (bit_of v z) && held)). by rewrite Eb.
    + destruct (tbl_push_ok (snd t) h (i + 1) slot o Hh ltac:(lia) Hs) as (clear & -> & Hs'). cbn [mbind Res_bind].
      destruct (IH F (fst t, clear) g _ Hg Hs') as (t' & E & H1 & H2). exists t'. split; [exact E|]. split; (eapply table_ext; [|eassumption]); intros r s _ _; cbn beta.
      * rewrite (Hno g r s) at 1. apply (Hset false g (λ z, bit_of v z) Eb).
      * apply (Hset true h (λ z, negb (bit_of v z) && true)). by rewrite Eb.
    + cbn [mbind Res_bind]. destruct (IH F t g h Hg Hh) as (t' & E & H1 & H2). exists t'. split; [exact E|]. split; (eapply table_ext; [|eassumption]); intros r s _ _; cbn beta.
      * rewrite (Hno g r s) at 1. apply (Hset false g (λ z, bit_of v z) Eb).
      * rewrite (Hno h r s) at 1. apply (Hset false h (λ z, negb (bit_of v z) && false)). by rewrite Eb.
Qed.

(** The offsets a batch puts in row [r] of slot [s], for the values [keep] keeps there. *)
Definition placed (keep : Z → Z → bool → bool) (batch : list ((Z * Z) * bool)) (r s : Z) : list Z :=
  concat (map (λ e, if (local_of (fst (fst e)) / 2 ^ 16 =? s) && keep r (snd (fst e)) (snd e) then [local_of (fst (fst e)) mod 2 ^ 16] else []) batch).
Definition keeps_set (r v : Z) (held : bool) : bool := (r =? 0) || bit_of v (r - 1).
Definition keeps_clear (r v : Z) (held : bool) : bool := negb (r =? 0) && (negb (bit_of v (r - 1)) && held).

Lemma placed_app keep a c r s : placed keep (a ++ c) r s = placed keep a r s ++ placed keep c r s.
Proof. unfold placed. by rewrite map_app, concat_app. Qed.

Lemma tables_loop_ok b held : bit_depth b + 1 = rows → ∀ values hs j t g h, length hs = length values →
  (∀ i x, hs !! i = Some x → held_at held (j + i) = Ok x) → table_is (fst t) g → table_is (snd t) h →
  ∃ t', tables_loop b values held rows j t = Ok t' ∧ table_is (fst t') (λ r s, g r s ++ placed keeps_set (zip values hs) r s) ∧
    table_is (snd t') (λ r s, h r s ++ placed keeps_clear (zip values hs) r s).
Proof.
  intros Hb. induction values as [|[record value] values IH]; intros hs j t g h Hl Hheld Hg Hh.
  { exists t. split; [done|]. split; (eapply table_ext; [|eassumption]); intros r s _ _; by rewrite app_nil_r. }
  destruct hs as [|x hs]; [done|]. cbn [tables_loop]. cbn zeta. pose proof (local_slot_bound record) as Hs. set (slot := local_of record / 2 ^ 16) in *.
  assert (Z.shiftr (local_of record) CONTAINER_EXPONENT = slot) as -> by (apply Z.shiftr_div_pow2; done).
  assert (Z.land (local_of record) (CONTAINER_WIDTH - 1) mod 65536 = local_of record mod 2 ^ 16) as -> by apply offset_mod. set (o := local_of record mod 2 ^ 16).
  destruct (tbl_push_ok (fst t) g 0 slot o Hg ltac:(lia) Hs) as (set & Epush & Hset). rewrite Z.add_0_r in Epush. rewrite Epush. cbn [mbind Res_bind].
  pose proof (Hheld 0%nat x eq_refl) as Hx. rewrite Nat.add_0_r in Hx. rewrite Hx. cbn [mbind Res_bind].
  assert (Hpl : Forall (λ i, 0 <= i < rows - 1) (planes_up b)) by (apply Forall_forall; intros i Hi%elem_of_seqZ; lia).
  destruct (value_bits_ok (planes_up b) slot o value x Hs (NoDup_seqZ _ _) Hpl (set, snd t) _ h Hset Hh) as (t1 & E1 & H1 & H2).
  rewrite E1. cbn [mbind Res_bind].
  destruct (IH hs (Datatypes.S j) t1 _ _ ltac:(by injection Hl) ltac:(intros i y Hi; rewrite Nat.add_succ_comm; by apply Hheld) H1 H2) as (t' & E & H3 & H4).
  exists t'. split; [exact E|].
  assert (Hin : ∀ r, 0 <= r < rows → bool_decide (r - 1 ∈ planes_up b) = negb (r =? 0)).
  { intros r Hr. destruct (Z.eqb_spec r 0) as [->|]; [apply bool_decide_eq_false_2; intros H%elem_of_seqZ; lia|apply bool_decide_eq_true_2, elem_of_seqZ; lia]. }
  split; (eapply table_ext; [|eassumption]); intros r s Hr _; cbn beta; unfold placed; cbn [zip zip_with map concat fst snd]; fold slot o; rewrite Hin, (Z.eqb_sym slot s) by exact Hr.
  - rewrite <- !app_assoc. f_equal. rewrite (app_assoc (if (s =? slot) && (r =? 0) then [o] else [])). f_equal. unfold keeps_set. destruct (s =? slot), (r =? 0), (bit_of value (r - 1)); done.
  - rewrite <- !app_assoc. f_equal. f_equal. unfold keeps_clear. by rewrite <- andb_assoc.
Qed.

Lemma table_empty : table_is (replicate (Z.to_nat (rows * CONTAINERS_PER_ROW)) []) (λ _ _, []).
Proof.
  change CONTAINERS_PER_ROW with 16. split; [unfold len; rewrite length_replicate; lia|]. intros r s Hr Hs. apply lookup_replicate_2. apply Z2Nat.inj_lt; nia.
Qed.

Lemma tables_of_ok b held values hs : bit_depth b + 1 = rows → length hs = length values → (∀ i x, hs !! i = Some x → held_at held i = Ok x) →
  ∃ t, tables_of b values held rows = Ok t ∧ table_is (fst t) (placed keeps_set (zip values hs)) ∧ table_is (snd t) (placed keeps_clear (zip values hs)).
Proof. intros Hb Hl Hh. exact (tables_loop_ok b held Hb values hs 0 (replicate (Z.to_nat (rows * CONTAINERS_PER_ROW)) [], replicate (Z.to_nat (rows * CONTAINERS_PER_ROW)) []) (λ _ _, []) (λ _ _, []) Hl Hh table_empty table_empty). Qed.

Lemma extend_all_ok a c g h : table_is a g → table_is c h → table_is (extend_all a c) (λ r s, g r s ++ h r s).
Proof.
  intros [Ha Ga] [Hc Gc]. unfold len in *. assert (El : length c = length a) by lia. unfold extend_all. rewrite El, firstn_all, drop_all, app_nil_r.
  split; [unfold len; rewrite length_zip_with; lia|]. intros r s Hr Hs. by rewrite lookup_zip_with, Ga, Gc by assumption.
Qed.

(** A batch in parts: every part has its own tables, and they are stitched in order. *)
Lemma tables_parts_ok b held chunk hs0 : bit_depth b + 1 = rows → 0 < chunk → (held = None ∨ held = Some hs0) → ∀ fuel values hs n, (length values ≤ fuel)%nat → length hs = length values →
  (held = None → Forall (λ x, x = true) hs) → (held = Some hs0 → drop (Z.to_nat (Z.of_nat n * chunk)) hs0 = hs) →
  ∃ ts gs, tables_parts b held rows chunk n (chunks_loop fuel (Z.to_nat chunk) values) = Ok ts ∧
    Forall2 (λ t k, table_is (fst t) (placed keeps_set k) ∧ table_is (snd t) (placed keeps_clear k)) ts gs ∧ concat gs = zip values hs.
Proof.
  intros Hb Hc Hheld. induction fuel as [|fuel IH]; intros values hs n Hf Hl Hn1 Hn2.
  { destruct values; [|cbn in Hf; lia]. exists [], []. split; [done|]. split; [constructor|done]. }
  destruct values as [|v values]; [exists [], []; split; [done|]; split; [constructor|done]|]. cbn [chunks_loop tables_parts].
  set (l := v :: values) in *. set (c := Z.to_nat chunk) in *. assert (Hc' : (0 < c)%nat) by lia.
  destruct (tables_of_ok b (match held with None => None | Some _ => Some (take (length (take c l)) hs) end) (take c l) (take c hs) Hb) as (t & Et & H1 & H2).
  { rewrite !length_take. lia. }
  { intros i x Hi. apply lookup_take_Some in Hi as [Hi Hlt]. destruct Hheld as [->| ->]; cbn [held_at].
    - specialize (Hn1 eq_refl). rewrite Forall_forall in Hn1. f_equal. symmetry. apply Hn1. by eapply list_elem_of_lookup_2.
    - rewrite lookup_take_lt; [by rewrite Hi|]. rewrite length_take. apply lookup_lt_Some in Hi. lia. }
  assert (Hp : tables_part b held rows chunk n (take c l) = Ok t).
  { unfold tables_part. destruct Hheld as [->| ->]; [exact Et|]. specialize (Hn2 eq_refl). rewrite Hn2.
    assert (length (drop (Z.to_nat (Z.of_nat n * chunk)) hs0) = length hs) as Hlen by congruence. rewrite length_drop in Hlen.
    destruct (Z.ltb_spec (len hs0) (Z.of_nat n * chunk + len (take c l))) as [Hlt|]; [|exact Et]. exfalso. unfold len in Hlt. rewrite length_take in Hlt.
    assert (0 < length l)%nat by (cbn; lia). lia. }
  rewrite Hp. cbn [mbind Res_bind]. destruct (IH (drop c l) (drop c hs) (Datatypes.S n)) as (ts & gs & E & HF & Hcat).
  - rewrite length_drop. cbn [length] in *. lia.
  - rewrite !length_drop. lia.
  - intros Hn. by apply Forall_drop, Hn1.
  - intros Hn. rewrite <- (Hn2 Hn), drop_drop. f_equal. unfold c. lia.
  - exists (t :: ts), (zip (take c l) (take c hs) :: gs). rewrite E. split; [done|]. split; [constructor; [by split|exact HF]|]. cbn [concat]. rewrite Hcat.
    rewrite <- zip_with_app by (rewrite !length_take; lia). by rewrite !take_drop.
Qed.

Lemma stitch ts gs : Forall2 (λ t k, table_is (fst t) (placed keeps_set k) ∧ table_is (snd t) (placed keeps_clear k)) ts gs → ∀ t k,
  table_is (fst t) (placed keeps_set k) → table_is (snd t) (placed keeps_clear k) →
  let t' := foldl (λ t sc, (extend_all (fst t) (fst sc), extend_all (snd t) (snd sc))) t ts in
  table_is (fst t') (placed keeps_set (k ++ concat gs)) ∧ table_is (snd t') (placed keeps_clear (k ++ concat gs)).
Proof.
  induction 1 as [|t0 k0 ts gs [H1 H2] _ IH]; intros t k Hs Hc; [cbn; by rewrite app_nil_r|]. cbn [foldl concat]. rewrite (app_assoc k k0). apply IH; cbn [fst snd].
  - eapply table_ext; [|exact (extend_all_ok _ _ _ _ Hs H1)]. intros r s _ _. by rewrite placed_app.
  - eapply table_ext; [|exact (extend_all_ok _ _ _ _ Hc H2)]. intros r s _ _. by rewrite placed_app.
Qed.

(** * From slot-major places to container keys *)
Hypothesis Hsmall : rows <= 65.
Definition valid (k : Z) : bool := (0 <=? k) && (k / 16 <? rows).
Definition place (k : Z) : Z := k mod 16 * rows + k / 16.

Lemma key_of_place i : 0 <= i < rows * 16 → ckey_of_slot (i mod rows) (i / rows) = i mod rows * 16 + i / rows.
Proof.
  intros Hi. pose proof (Z.mod_pos_bound i rows Hrows). apply ckey_of_slot_small; [unfold row_ok; lia|]. split; [apply Z.div_pos; lia|apply Z.div_lt_upper_bound; lia].
Qed.

Lemma place_key i k : 0 <= i < rows * 16 → k = ckey_of_slot (i mod rows) (i / rows) ↔ valid k = true ∧ place k = i.
Proof.
  intros Hi. rewrite key_of_place by exact Hi. unfold valid, place. rewrite andb_true_iff, Z.leb_le, Z.ltb_lt.
  pose proof (Z.mod_pos_bound i rows Hrows) as Hm. pose proof (Z.div_mod i rows ltac:(lia)) as Hi'. assert (Hq : 0 <= i / rows < 16) by (split; [apply Z.div_pos; lia|apply Z.div_lt_upper_bound; lia]). split.
  - intros ->. destruct (row_slot (i mod rows) (i / rows) Hq) as [E1 E2]. unfold row_of_ckey, slot_of_ckey in E1, E2. change CONTAINERS_PER_ROW with 16 in *. rewrite E1, E2. lia.
  - intros [[Hk Hr] E]. pose proof (Z.mod_pos_bound k 16). pose proof (Z.div_mod k 16). assert (0 <= k / 16) by (apply Z.div_pos; lia).
    destruct (place_inj (k / 16) (k mod 16) (i mod rows) (i / rows)) as [E1 E2]; lia.
Qed.

Lemma fold_loop_snoc a v : ∀ i out, fold_loop i (a ++ [v]) rows out =
  match v with [] => fold_loop i a rows out | _ => om_insert (fold_loop i a rows out) (ckey_of_slot ((i + len a) mod rows) ((i + len a) / rows)) v end.
Proof.
  induction a as [|x a IH]; intros i out; cbn [app fold_loop].
  - change (len (@nil (list Z))) with 0. by rewrite Z.add_0_r.
  - rewrite IH. unfold len. cbn [length]. by replace (i + 1 + Z.of_nat (length a)) with (i + Z.of_nat (S (length a))) by lia.
Qed.

Lemma fold_prefix a : len a <= rows * 16 → grouped (fold_loop 0 a rows []) (λ k, if valid k && (place k <? len a) then default [] (a !! Z.to_nat (place k)) else []).
Proof.
  induction a as [|v a IH] using rev_ind; intros Hl.
  - split; [constructor|]. intros k. change (len (@nil (list Z))) with 0. by destruct (valid k && (place k <? 0)).
  - unfold len in *. rewrite length_app in *. cbn [length] in *. destruct (IH ltac:(lia)) as [Ho Hg]. rewrite fold_loop_snoc, Z.add_0_l. unfold len.
    set (n := Z.of_nat (length a)) in *. replace (Z.of_nat (length a + 1)) with (n + 1) by lia.
    assert (Hpos : ∀ k, valid k = true → 0 <= place k).
    { intros k Hk. unfold valid, place in *. apply andb_true_iff in Hk as [Hk%Z.leb_le _]. pose proof (Z.mod_pos_bound k 16). assert (0 <= k / 16) by (apply Z.div_pos; lia). nia. }
    assert (Hold : ∀ k, place k ≠ n → (if valid k && (place k <? n + 1) then default [] ((a ++ [v]) !! Z.to_nat (place k)) else []) = (if valid k && (place k <? n) then default [] (a !! Z.to_nat (place k)) else [])).
    { intros k Hne. destruct (valid k) eqn:Ev; [|done]. specialize (Hpos k Ev). cbn [andb]. destruct (Z.ltb_spec (place k) (n + 1)), (Z.ltb_spec (place k) n); try lia; [|done].
      by rewrite lookup_app_l by lia. }
    assert (Hnew : ∀ k, valid k = true → place k = n → (if valid k && (place k <? n + 1) then default [] ((a ++ [v]) !! Z.to_nat (place k)) else []) = v).
    { intros k -> ->. cbn [andb]. destruct (Z.ltb_spec n (n + 1)); [|lia]. unfold n. rewrite Nat2Z.id, lookup_app_r, Nat.sub_diag by lia. done. }
    destruct v as [|y v].
    + split; [exact Ho|]. intros k. rewrite Hg. f_equal. destruct (Z.eq_dec (place k) n) as [En|En]; [|symmetry; by apply Hold].
      destruct (valid k) eqn:Ev; [|done]. specialize (Hnew k Ev En). rewrite Ev in Hnew. rewrite Hnew. cbn [andb]. by destruct (Z.ltb_spec (place k) n); [lia|].
    + split; [by apply om_insert_ok|]. intros k. rewrite om_get_insert by exact Ho. pose proof (place_key n k ltac:(lia)) as Hk.
      destruct (Z.eqb_spec k (ckey_of_slot (n mod rows) (n / rows))) as [Ek|Ek].
      * apply Hk in Ek as [Ev En]. by rewrite (Hnew k Ev En).
      * rewrite Hg. f_equal. destruct (Z.eq_dec (place k) n) as [En|En]; [|symmetry; by apply Hold]. destruct (valid k) eqn:Ev; [|done]. exfalso. by apply Ek, Hk.
Qed.

Lemma fold_table_ok t g : table_is t g → grouped (fold t rows) (λ k, if valid k then g (k / 16) (k mod 16) else []).
Proof.
  intros [Hl H]. eapply grouped_ext; [|apply fold_prefix; lia]. intros k. cbn beta. rewrite Hl. destruct (valid k) eqn:Ev; [|done]. cbn [andb].
  unfold valid in Ev. apply andb_true_iff in Ev as [Hk%Z.leb_le Hr%Z.ltb_lt]. pose proof (Z.mod_pos_bound k 16). assert (0 <= k / 16) by (apply Z.div_pos; lia).
  unfold place. destruct (Z.ltb_spec (k mod 16 * rows + k / 16) (rows * 16)); [|nia]. by rewrite H by lia.
Qed.
End tables.

(** * [group_all] against the expansion it replaces *)

(** Plane by plane into loose pairs; [held] says which zero bits are clears. *)
Definition reference_set (b : Bsi) (values : list (Z * Z)) : list (Z * Z) :=
  map (λ e, (EXISTS_ROW, fst e)) values ++
  concat (map (λ i, concat (map (λ e, if bit_of (snd e) i then [(plane_row i, fst e)] else []) values)) (planes_up b)).
Definition reference_clear (b : Bsi) (batch : list ((Z * Z) * bool)) : list (Z * Z) :=
  concat (map (λ i, concat (map (λ e, if bit_of (snd (fst e)) i then [] else if snd e : bool then [(plane_row i, fst (fst e))] else []) batch)) (planes_up b)).
Definition flags (held : option (list bool)) (values : list (Z * Z)) : list bool :=
  match held with None => replicate (length values) true | Some h => h end.

Lemma arrival_one r rec k : row_ok r →
  (if ckey_of (pos_of r rec) =? k then [offset_in_container (pos_of r rec)] else []) = if (k / 16 =? r) && (local_of rec / 2 ^ 16 =? k mod 16) then [local_of rec mod 2 ^ 16] else [].
Proof.
  intros Hr. destruct (pos_split r rec Hr) as [-> ->]. pose proof (local_slot_bound rec). pose proof (Z.div_mod k 16). pose proof (Z.mod_pos_bound k 16).
  destruct (Z.eqb_spec (r * 16 + local_of rec / 2 ^ 16) k), (Z.eqb_spec (k / 16) r), (Z.eqb_spec (local_of rec / 2 ^ 16) (k mod 16)); cbn [andb]; try done; lia.
Qed.

(** The arrivals of one row's pairs. *)
Lemma arrivals_row {A} (rec : A → Z) (p : A → bool) (l : list A) r k : row_ok r →
  arrivals (concat (map (λ e, if p e then [(r, rec e)] else []) l)) k =
  if k / 16 =? r then concat (map (λ e, if (local_of (rec e) / 2 ^ 16 =? k mod 16) && p e then [local_of (rec e) mod 2 ^ 16] else []) l) else [].
Proof.
  intros Hr. induction l as [|e l IH]; cbn [map concat]; [by destruct (k / 16 =? r)|]. rewrite arrivals_app, IH.
  assert (arrivals (if p e then [(r, rec e)] else []) k = if k / 16 =? r then if (local_of (rec e) / 2 ^ 16 =? k mod 16) && p e then [local_of (rec e) mod 2 ^ 16] else [] else []) as ->.
  { destruct (p e); [unfold arrivals; cbn [map concat fst snd]; rewrite arrival_one, app_nil_r, andb_true_r by exact Hr; by destruct (k / 16 =? r)|]. rewrite andb_false_r. by destruct (k / 16 =? r). }
  by destruct (k / 16 =? r).
Qed.

(** Of the planes, at most one is the row of the key. *)
Lemma arrivals_planes (pairs : Z → list (Z * Z)) (X : Z → list Z) planes k :
  NoDup planes → (∀ i, i ∈ planes → arrivals (pairs i) k = if k / 16 =? plane_row i then X i else []) →
  arrivals (concat (map pairs planes)) k = if bool_decide (k / 16 - 1 ∈ planes) then X (k / 16 - 1) else [].
Proof.
  intros Hn H. induction Hn as [|i planes Hi Hn IH]; [by rewrite bool_decide_eq_false_2 by (intros H'; by apply not_elem_of_nil in H')|]. cbn [map concat]. rewrite arrivals_app, IH by (intros j Hj; apply H; by right).
  rewrite H by (by left). unfold plane_row. destruct (Z.eqb_spec (k / 16) (1 + i)) as [E|E].
  - assert (Ei : k / 16 - 1 = i) by lia. rewrite Ei. rewrite (bool_decide_eq_false_2 (i ∈ planes)) by exact Hi. rewrite bool_decide_eq_true_2 by (by left). apply app_nil_r.
  - cbn [app]. rewrite (bool_decide_ext (k / 16 - 1 ∈ i :: planes) (k / 16 - 1 ∈ planes)); [done|]. rewrite elem_of_cons. split; [intros [H'|H']; [lia|exact H']|by right].
Qed.

Section reference.
Context (b : Bsi) (values : list (Z * Z)) (hs : list bool).
Hypothesis Hd : depth_ok b.
Hypothesis Hl : length hs = length values.
Local Abbreviation rows := (bit_depth b + 1).

Lemma zip_fst {B} (f : Z * Z → list B) : map (λ e : (Z * Z) * bool, f (fst e)) (zip values hs) = map f values.
Proof. revert hs Hl. induction values as [|v l IH]; intros [|h hs'] Hl'; try done. cbn [zip zip_with map]. f_equal. apply IH. by injection Hl'. Qed.

Lemma reference_set_arrivals k : arrivals (reference_set b values) k = if valid rows k then placed keeps_set (zip values hs) (k / 16) (k mod 16) else [].
Proof.
  unfold reference_set. rewrite arrivals_app.
  assert (H0 : arrivals (map (λ e, (EXISTS_ROW, fst e)) values) k = if k / 16 =? 0 then concat (map (λ e, if (local_of (fst e) / 2 ^ 16 =? k mod 16) && true then [local_of (fst e) mod 2 ^ 16] else []) values) else []).
  { rewrite <- (arrivals_row fst (λ _, true) values 0 k) by (unfold row_ok; lia). f_equal. clear. induction values as [|v l IH]; [done|]. cbn. by rewrite IH. }
  rewrite H0. rewrite (arrivals_planes _ (λ i, concat (map (λ e, if (local_of (fst e) / 2 ^ 16 =? k mod 16) && bit_of (snd e) i then [local_of (fst e) mod 2 ^ 16] else []) values))).
  2: apply NoDup_seqZ.
  2: { intros i Hi%elem_of_seqZ. apply arrivals_row. apply (plane_row_ok b); [exact Hd|lia]. }
  unfold placed, keeps_set. unfold valid. pose proof (Z.div_mod k 16). pose proof (Z.mod_pos_bound k 16). destruct Hd as [Hd0 _].
  destruct (Z.eqb_spec (k / 16) 0) as [E0|E0].
  - rewrite E0. rewrite bool_decide_eq_false_2 by (intros H'%elem_of_seqZ; lia). rewrite app_nil_r. destruct (Z.leb_spec 0 k); [|lia]. destruct (Z.ltb_spec 0 rows); [|lia]. cbn [andb].
    f_equal. by rewrite <- (zip_fst (λ e, if (local_of (fst e) / 2 ^ 16 =? k mod 16) && true then [local_of (fst e) mod 2 ^ 16] else [])).
  - cbn [app]. case_bool_decide as Hin.
    + apply elem_of_seqZ in Hin. destruct (Z.leb_spec 0 k); [|lia]. destruct (Z.ltb_spec (k / 16) rows); [|lia]. cbn [andb orb].
      f_equal. by rewrite <- (zip_fst (λ e, if (local_of (fst e) / 2 ^ 16 =? k mod 16) && bit_of (snd e) (k / 16 - 1) then [local_of (fst e) mod 2 ^ 16] else [])).
    + unfold planes_up in Hin. rewrite elem_of_seqZ in Hin. destruct (Z.leb_spec 0 k), (Z.ltb_spec (k / 16) rows); cbn [andb]; try done. lia.
Qed.

Lemma reference_clear_arrivals k : arrivals (reference_clear b (zip values hs)) k = if valid rows k then placed keeps_clear (zip values hs) (k / 16) (k mod 16) else [].
Proof.
  unfold reference_clear.
  rewrite (arrivals_planes _ (λ i, concat (map (λ e : (Z * Z) * bool, if (local_of (fst (fst e)) / 2 ^ 16 =? k mod 16) && (negb (bit_of (snd (fst e)) i) && snd e) then [local_of (fst (fst e)) mod 2 ^ 16] else []) (zip values hs)))).
  2: apply NoDup_seqZ.
  2: { intros i Hi%elem_of_seqZ. rewrite <- (arrivals_row (λ e : (Z * Z) * bool, fst (fst e)) (λ e, negb (bit_of (snd (fst e)) i) && snd e)) by (apply (plane_row_ok b); [exact Hd|lia]).
       do 2 f_equal. apply map_ext. intros e. by destruct (bit_of (snd (fst e)) i), (snd e). }
  unfold placed, keeps_clear, valid. pose proof (Z.div_mod k 16). pose proof (Z.mod_pos_bound k 16). destruct Hd as [Hd0 _]. case_bool_decide as Hin.
  - apply elem_of_seqZ in Hin. destruct (Z.leb_spec 0 k); [|lia]. destruct (Z.ltb_spec (k / 16) rows); [|lia]. cbn [andb]. destruct (Z.eqb_spec (k / 16) 0); [lia|]. done.
  - unfold planes_up in Hin. rewrite elem_of_seqZ in Hin. destruct (Z.leb_spec 0 k), (Z.ltb_spec (k / 16) rows); cbn [andb]; try done. destruct (Z.eqb_spec (k / 16) 0); [|lia]. cbn [negb andb].
    clear. induction (zip values hs) as [|e l IH]; [done|]. cbn. rewrite andb_false_r. exact IH.
Qed.
End reference.

Lemma check_fits_ok b values :
  check_fits b values = match List.find (λ e, negb (fits b (snd e))) values with Some e => Err (FValueTooWide (snd e) (bit_depth b)) | None => Ok tt end.
Proof. induction values as [|[r v] l IH]; [done|]. cbn. by destruct (fits b v). Qed.

Lemma fan_out_pos cores bits : 1 <= fan_out cores bits.
Proof. unfold fan_out. destruct (_ <? _); lia. Qed.

Lemma group_tables_ok b cores values held threads : depth_ok b → (∀ h, held = Some h → length h = length values) →
  let rows := bit_depth b + 1 in
  let n := Z.min (fan_out cores (len values * rows)) (Z.max threads 1) in
  ∃ t, (if n =? 1 then tables_of b values held rows else tables_of_parallel b values held rows n) = Ok t ∧
    table_is rows (fst t) (placed keeps_set (zip values (flags held values))) ∧ table_is rows (snd t) (placed keeps_clear (zip values (flags held values))).
Proof.
  intros Hd Hh rows n. destruct Hd as [Hd0 Hd1]. assert (Hlen : length (flags held values) = length values) by (destruct held as [h|]; cbn; [by apply Hh|apply length_replicate]).
  destruct (Z.eqb_spec n 1) as [E1|E1].
  - apply tables_of_ok; [unfold rows; lia|done|exact Hlen|]. intros i x Hi. destruct held as [h|]; cbn in *; [by rewrite Hi|]. by apply lookup_replicate in Hi as [-> _].
  - pose proof (fan_out_pos cores (len values * rows)). assert (Hn : 2 <= n) by (unfold n in *; lia). destruct (fan_out_many cores (len values * rows)) as [_ Hbig]; [unfold n in *; lia|].
    assert (Hv : 0 < len values) by (unfold rows in *; nia). unfold tables_of_parallel. cbn zeta. set (chunk := div_ceil (len values) n). assert (Hc : 0 < chunk) by (apply div_ceil_pos; lia).
    unfold chunks. destruct (Z.leb_spec chunk 0); [lia|]. cbn [mbind Res_bind].
    destruct (tables_parts_ok rows ltac:(unfold rows; lia) b held chunk (flags held values) eq_refl Hc) with (fuel := length values) (values := values) (hs := flags held values) (n := 0%nat)
      as (ts & gs & E & HF & Hcat); [destruct held; cbn; auto|done|exact Hlen|intros ->; apply Forall_replicate; done|by intros _; rewrite drop_0|].
    rewrite E. cbn [mbind Res_bind]. destruct HF as [|t k ts gs [H1 H2] HF].
    + exfalso. cbn in Hcat. destruct values; [unfold len in Hv; cbn in Hv; lia|]. destruct (flags held _); [discriminate Hlen|discriminate Hcat].
    + eexists. split; [reflexivity|]. cbn [concat] in Hcat. rewrite <- Hcat. exact (stitch rows ts gs HF t k H1 H2).
Qed.

(** C17.  Grouping a bit-sliced batch.  [group_all], with its slot-major tables, its counting of clears
    by what the fragment holds and its threads, gives exactly the two groupings that expanding every
    value plane by plane into loose bits and grouping those gives, each container's offsets in the
    same order, whatever the number of cores and threads on either side; a batch with a value too wide
    for the planes is refused whole, with the first such value. *)
Theorem group_all_is_expansion b cores cores' values held threads :
  depth_ok b → (∀ h, held = Some h → length h = length values) →
  match List.find (λ e, negb (fits b (snd e))) values with
  | Some e => group_all b cores values held threads = Err (FValueTooWide (snd e) (bit_depth b))
  | None => ∃ set clear, group_all b cores values held threads = Ok (set, clear) ∧
      group_offsets (E := FieldError) cores' (reference_set b values) = Ok set ∧
      group_offsets (E := FieldError) cores' (reference_clear b (zip values (flags held values))) = Ok clear
  end.
Proof.
  intros Hd Hh. unfold group_all. rewrite check_fits_ok. destruct (List.find _ values); [done|]. cbn [mbind Res_bind]. cbn zeta.
  destruct (group_tables_ok b cores values held threads Hd Hh) as ([set clear] & E & H1 & H2). rewrite E. cbn [mbind Res_bind fst snd] in *.
  assert (Hlen : length (flags held values) = length values) by (destruct held as [h|]; cbn; [by apply Hh|apply length_replicate]).
  assert (0 < bit_depth b + 1 ∧ bit_depth b + 1 <= 65) as [Hr1 Hr2] by (destruct Hd; lia).
  eexists _, _. split; [reflexivity|]. split.
  - destruct (group_offsets_ok (E := FieldError) cores' (reference_set b values)) as (m & -> & _ & Hm). f_equal. eapply grouped_unique; [exact Hm|exact (fold_table_ok _ Hr1 Hr2 _ _ H1)|].
    intros k. by apply reference_set_arrivals.
  - destruct (group_offsets_ok (E := FieldError) cores' (reference_clear b (zip values (flags held values)))) as (m & -> & _ & Hm). f_equal. eapply grouped_unique; [exact Hm|exact (fold_table_ok _ Hr1 Hr2 _ _ H2)|].
    intros k. by apply reference_clear_arrivals.
Qed.

Lemma group_all_is_expansion_witness :
  group_all (mkBsi 4) 8 [(3, 5); (70000, 2)] (Some [true; false]) 4 =
    Ok ([(0, [3]); (1, [4464]); (16, [3]); (33, [4464]); (48, [3])], [(32, [3]); (64, [3])]) ∧
  group_offsets (E := FieldError) 2 (reference_set (mkBsi 4) [(3, 5); (70000, 2)]) = Ok [(0, [3]); (1, [4464]); (16, [3]); (33, [4464]); (48, [3])].
Proof.
  pose proof (group_all_is_expansion (mkBsi 4) 8 2 [(3, 5); (70000, 2)] (Some [true; false]) 4 ltac:(unfold depth_ok; cbn; lia) ltac:(by intros h [= <-])) as H.
  cbn [List.find negb fits] in H. destruct H as (set & clear & H1 & H2 & _). split; [vm_compute; reflexivity|]. rewrite H2. f_equal.
  assert (E : group_all (mkBsi 4) 8 [(3, 5); (70000, 2)] (Some [true; false]) 4 = Ok ([(0, [3]); (1, [4464]); (16, [3]); (33, [4464]); (48, [3])], [(32, [3]); (64, [3])])) by (vm_compute; reflexivity).
  rewrite E in H1. injection H1 as H1 _. symmetry. exact H1.
Defined.
