(* ===== verification/FragWrite.v ===== *)
(** Writing a fragment (crates/big-engine/src/bitmap/write.rs): a batch of bits becomes one container per
    key, every one read before any is written, and the tree is updated in one pass.

    The handle and the transaction are threaded through.  An error carries neither: the caller drops
    the transaction. *)
From S2P Require Import Prelude Bits Search Container SetOps Optimize Page Leaf Pager Store Txn BTree BTreeWrite BTreeOwn BTreeWalk Coords RowSet OrdMap FragRead Bsi Group.

Record FragmentWrite := mkFragmentWrite { fw_root : option Z; fw_shard : Z }.

Section write.
Context {X : Extern} {P : Type} `{!Pager P, !PagerMut P} (s : Store P).
Implicit Types (w : FragmentWrite) (t : WriteTxn).

Definition reader w t : option (FragmentRead (TxnView P)) := option_map (λ r, mkFragmentRead (mkView s t) r (fw_shard w)) (fw_root w).

Definition existing w t (ckey : Z) : Res BTreeError (option Container) :=
  match reader w t with None => Ok None | Some r => fr_container r ckey end.

Definition collapse_if_empty w t : Res BTreeError (FragmentWrite * WriteTxn) :=
  match fw_root w with
  | None => Ok (w, t)
  | Some root =>
      page ← from_store (txn_read s t root);
      ty ← from_page (page_type page);
      n ← from_page (cell_count page);
      if bool_decide (ty = PLeaf) && (n =? 0) then t ← free_tree s t root; Ok (mkFragmentWrite None (fw_shard w), t)
      else Ok (w, t)
  end.

Definition clear_container w t (ckey : Z) : Res BTreeError (FragmentWrite * WriteTxn) :=
  match fw_root w with
  | None => Ok (w, t)
  | Some root => '(root, t) ← remove s t root ckey; collapse_if_empty (mkFragmentWrite (Some root) (fw_shard w)) t
  end.

Definition write_container w t (ckey : Z) (c : Container) : Res BTreeError (FragmentWrite * WriteTxn) :=
  if is_empty c then clear_container w t ckey
  else '(root, t) ← put_container s t (fw_root w) ckey c; Ok (mkFragmentWrite (Some root) (fw_shard w), t).

Definition merge_container w t (ckey : Z) (c : Container) : Res BTreeError (FragmentWrite * WriteTxn) :=
  old ← existing w t ckey;
  write_container w t ckey (match old with Some old => into_owned (apply Or old c) | None => c end).

Fixpoint clear_all w t (keys : list Z) : Res BTreeError (FragmentWrite * WriteTxn) :=
  match keys with
  | [] => Ok (w, t)
  | k :: keys' => '(w, t) ← clear_container w t k; clear_all w t keys'
  end.

Definition apply_all w t (containers : list (Z * Container)) : Res BTreeError (FragmentWrite * WriteTxn) :=
  let live := List.filter (λ e, negb (is_empty (snd e))) containers in
  let empty := List.filter (λ e, is_empty (snd e)) containers in
  '(w, t) ← clear_all w t (map fst empty);
  match live with
  | [] => Ok (w, t)
  | _ => '(root, t) ← put_containers s t (fw_root w) live; Ok (mkFragmentWrite (Some root) (fw_shard w), t)
  end.

Fixpoint merge_all w t (groups : list (Z * Container)) : Res BTreeError (list (Z * Container)) :=
  match groups with
  | [] => Ok []
  | (ckey, c) :: groups' =>
      old ← existing w t ckey;
      rest ← merge_all w t groups';
      Ok ((ckey, match old with Some old => into_owned (apply Or old c) | None => c end) :: rest)
  end.

Definition set_bits (cores : Z) w t (bits : list (Z * Z)) : Res BTreeError (FragmentWrite * WriteTxn) :=
  groups ← group_offsets cores bits;
  merged ← merge_all w t (containers_of groups);
  apply_all w t merged.

(** [BTreeSet::from_iter] of the keys of both halves. *)
Definition all_keys (set clear : list (Z * Container)) : list Z := map fst (om_of_list (map (λ e, (fst e, tt)) (set ++ clear))).

Fixpoint rewrite_all w t (set clear : list (Z * Container)) (keys : list Z) : Res BTreeError (list (Z * Container)) :=
  match keys with
  | [] => Ok []
  | ckey :: keys' =>
      old ← existing w t ckey;
      let c := default (Array []) old in
      let c := match om_get ckey set with Some s => into_owned (apply Or c s) | None => c end in
      let c := match om_get ckey clear with Some k => into_owned (apply AndNot c k) | None => c end in
      rest ← rewrite_all w t set clear keys';
      Ok ((ckey, c) :: rest)
  end.

Definition write_grouped w t (set clear : list (Z * list Z)) : Res BTreeError (FragmentWrite * WriteTxn) :=
  let set := containers_of set in
  let clear := containers_of clear in
  out ← rewrite_all w t set clear (all_keys set clear);
  apply_all w t out.

Definition write_bits (cores : Z) w t (set clear : list (Z * Z)) : Res BTreeError (FragmentWrite * WriteTxn) :=
  set ← group_offsets cores set;
  clear ← group_offsets cores clear;
  write_grouped w t set clear.

Fixpoint subtract_all w t (groups : list (Z * Container)) : Res BTreeError (list (Z * Container)) :=
  match groups with
  | [] => Ok []
  | (ckey, c) :: groups' =>
      old ← existing w t ckey;
      rest ← subtract_all w t groups';
      Ok (match old with None => rest | Some old => (ckey, into_owned (apply AndNot old c)) :: rest end)
  end.

Definition clear_grouped w t (groups : list (Z * Container)) : Res BTreeError (FragmentWrite * WriteTxn) :=
  left ← subtract_all w t groups; apply_all w t left.

Definition clear_bits (cores : Z) w t (bits : list (Z * Z)) : Res BTreeError (FragmentWrite * WriteTxn) :=
  groups ← group_offsets cores bits; clear_grouped w t (containers_of groups).

(** The containers of row zero, and the same ones at every row. *)
Definition slots_of (records : list Z) : list (Z * Container) :=
  containers_of (foldl (λ m record, let pos := pos_of 0 record in append_at m (ckey_of pos) [offset_in_container pos]) [] records).
Definition at_rows (rows : list Z) (by_slot : list (Z * Container)) : list (Z * Container) :=
  foldl (λ groups r, foldl (λ groups e, om_insert groups (ckey_of_slot r (fst e)) (snd e)) groups by_slot) [] rows.

Definition clear_records w t (records : list Z) : Res BTreeError (FragmentWrite * WriteTxn) :=
  match records with
  | [] => Ok (w, t)
  | _ =>
      match reader w t with
      | None => Ok (w, t)
      | Some r =>
          rows ← fr_rows r;
          match rows with
          | [] => Ok (w, t)
          | _ => clear_grouped w t (at_rows rows (slots_of records))
          end
      end
  end.

Definition write_row w t (r : Z) (set : RowSet) : Res BTreeError (FragmentWrite * WriteTxn) :=
  apply_all w t (map (λ slot, (ckey_of_slot r slot, default (Array []) (rs_get set slot))) (seqZ 0 CONTAINERS_PER_ROW)).

Definition fw_set (cores : Z) w t (r record : Z) : Res BTreeError (FragmentWrite * WriteTxn) := set_bits cores w t [(r, record)].
Definition fw_clear (cores : Z) w t (r record : Z) : Res BTreeError (FragmentWrite * WriteTxn) := clear_bits cores w t [(r, record)].
End write.
