(* ===== verification/FragStore.v ===== *)
(** What the writers of a fragment do to it (the theory of crates/big-engine/src/bitmap/write.rs): the
    fragment is a map from container keys to containers, held by a tree of the transaction or by no
    tree at all, and a batch of containers is put into that map. *)
From S2P Require Import Prelude Bits Search Container SetOps Optimize Delta Page Leaf Branch Chain Meta Freelist Snapshot Roots Pager Store Txn BTree BTreeWrite BTreeOwn BTreeBuild BTreeItem BTreeEdit BTreePut BTreeShow BTreeWalk BTreeSpec Coords RowSet OrdMap FragRead Bsi Group FragWrite.

(** * Ordered maps as the tree changes them *)
Lemma put_entry_insert (kcs : list (Z * Container)) e : om_ok kcs → put_entry kcs e = om_insert kcs (fst e) (snd e).
Proof.
  unfold put_entry. intros Ho. induction kcs as [|[k c] kcs IH]; [by destruct e|]. apply om_ok_cons in Ho as [F Ho]. cbn in F. cbn [List.filter om_insert fst].
  destruct e as [k' c']. cbn [fst snd] in *.
  assert (Hhi : k' <= k → List.filter (λ x : Z * Container, fst x <? k') kcs = [] ∧ List.filter (λ x, k' <? fst x) kcs = kcs).
  { intros Hle. clear IH Ho. induction F as [|x l Hx _ IHF]; [done|]. cbn. destruct (Z.ltb_spec (fst x) k'), (Z.ltb_spec k' (fst x)); try lia. destruct IHF as [-> ->]. done. }
  destruct (Z.ltb_spec k k'), (Z.ltb_spec k' k), (Z.eqb_spec k' k); try lia.
  - cbn [app]. by rewrite IH.
  - destruct Hhi as [-> ->]; [lia|]. done.
  - subst. destruct Hhi as [-> ->]; [lia|]. done.
Qed.

Lemma drop_entry_ok (kcs : list (Z * Container)) k : om_ok kcs → om_ok (drop_entry kcs k) ∧ ∀ j, om_get j (drop_entry kcs k) = if j =? k then None else om_get j kcs.
Proof.
  unfold drop_entry. intros Ho. induction kcs as [|[k0 c] kcs IH]; [split; [constructor|]; intros j; by destruct (j =? k)|]. apply om_ok_cons in Ho as [F Ho]. cbn in F. destruct (IH Ho) as [H1 H2].
  cbn [List.filter fst]. destruct (Z.ltb_spec k0 k) as [Hlt|Hge].
  - destruct (Z.ltb_spec k k0); [lia|]. cbn [app]. split.
    + apply om_ok_cons. split; [|exact H1]. cbn. apply Forall_app. split; apply Forall_forall; intros x [Hx _]%list_elem_of_In%filter_In; rewrite Forall_forall in F; apply F; by apply list_elem_of_In.
    + intros j. rewrite !om_get_cons. cbn [fst snd]. rewrite H2. destruct (Z.eqb_spec k0 j), (Z.eqb_spec j k); try done; lia.
  - assert (Hno : List.filter (λ x : Z * Container, fst x <? k) kcs = []).
    { clear -F Hge. induction F as [|x l Hx _ IHF]; [done|]. cbn. by destruct (Z.ltb_spec (fst x) k); [lia|]. }
    rewrite Hno in *. cbn [app] in *. destruct (Z.ltb_spec k k0).
    + assert (Hall : List.filter (λ x : Z * Container, k <? fst x) kcs = kcs).
      { clear -F H. induction F as [|x l Hx _ IHF]; [done|]. cbn. destruct (Z.ltb_spec k (fst x)); [by rewrite IHF|lia]. }
      rewrite Hall in *. split; [by apply om_ok_cons|]. intros j. rewrite om_get_cons. cbn [fst]. destruct (Z.eqb_spec k0 j), (Z.eqb_spec j k); try done; try lia. by rewrite H2; destruct (Z.eqb_spec j k).
    + assert (k0 = k) by lia. subst. split; [exact H1|]. intros j. rewrite om_get_cons, H2. cbn [fst]. rewrite (Z.eqb_sym k j). by destruct (j =? k).
Qed.

(** A batch of containers put into the map: an empty one takes its key out. *)
Definition applied (kcs batch : list (Z * Container)) : list (Z * Container) :=
  foldl put_entry (foldl drop_entry kcs (map fst (List.filter (λ e, is_empty (snd e)) batch))) (List.filter (λ e, negb (is_empty (snd e))) batch).

Lemma drops_ok keys : ∀ kcs, om_ok kcs → om_ok (foldl drop_entry kcs keys) ∧ ∀ j, om_get j (foldl drop_entry kcs keys) = if bool_decide (j ∈ keys) then None else om_get j kcs.
Proof.
  induction keys as [|k keys IH]; intros kcs Ho; cbn [foldl]; [split; [exact Ho|]; intros j; case_bool_decide as H; [by apply not_elem_of_nil in H|done]|].
  destruct (drop_entry_ok kcs k Ho) as [H1 H2]. destruct (IH _ H1) as [H3 H4]. split; [exact H3|]. intros j. rewrite H4, H2. case_bool_decide as E; [rewrite bool_decide_eq_true_2 by (by right); done|].
  destruct (Z.eqb_spec j k) as [->|Hne]; [by rewrite bool_decide_eq_true_2 by (by left)|]. rewrite bool_decide_eq_false_2; [done|]. intros [H|H]%elem_of_cons; congruence.
Qed.

Lemma puts_ok es : om_ok es → ∀ kcs, om_ok kcs → om_ok (foldl put_entry kcs es) ∧ ∀ j, om_get j (foldl put_entry kcs es) = match om_get j es with Some c => Some c | None => om_get j kcs end.
Proof.
  induction es as [|[k c] es IH]; intros He kcs Ho; [done|]. apply om_ok_cons in He as [F He]. cbn in F. cbn [foldl]. rewrite put_entry_insert by exact Ho. cbn [fst snd].
  destruct (IH He (om_insert kcs k c) (om_insert_ok _ _ _ Ho)) as [H1 H2]. split; [exact H1|]. intros j. rewrite H2, om_get_cons, om_get_insert by exact Ho. cbn [fst snd]. rewrite (Z.eqb_sym k j).
  destruct (Z.eqb_spec j k) as [->|]; [by rewrite om_get_past|done].
Qed.

Lemma om_get_filter {V} (p : Z * V → bool) (m : list (Z * V)) k : om_ok m → om_get k (List.filter p m) = match om_get k m with Some v => if p (k, v) then Some v else None | None => None end.
Proof.
  intros Ho. induction m as [|[k' v] m IH]; [done|]. apply om_ok_cons in Ho as [F Ho]. cbn in F. cbn [List.filter]. rewrite (om_get_cons k (k', v)). cbn [fst snd]. destruct (Z.eqb_spec k' k) as [->|Hne].
  - destruct (p (k, v)); [rewrite om_get_cons; cbn; by rewrite Z.eqb_refl|]. rewrite IH by exact Ho. by rewrite om_get_past.
  - destruct (p (k', v)); [|by apply IH]. rewrite om_get_cons. cbn [fst snd]. destruct (Z.eqb_spec k' k); [done|]. by apply IH.
Qed.

Lemma applied_ok kcs batch : om_ok kcs → om_ok batch → om_ok (applied kcs batch) ∧
  ∀ k, om_get k (applied kcs batch) = match om_get k batch with Some c => if is_empty c then None else Some c | None => om_get k kcs end.
Proof.
  intros Hk Hb. unfold applied. destruct (drops_ok (map fst (List.filter (λ e, is_empty (snd e)) batch)) kcs Hk) as [H1 H2].
  destruct (puts_ok (List.filter (λ e, negb (is_empty (snd e))) batch) (om_ok_filter _ _ Hb) _ H1) as [H3 H4]. split; [exact H3|]. intros k. rewrite H4, H2, om_get_filter by exact Hb. cbn [snd].
  assert (Hin : k ∈ map fst (List.filter (λ e, is_empty (snd e)) batch) ↔ ∃ c, om_get k batch = Some c ∧ is_empty c = true).
  { change (map fst ?l) with (fst <$> l). rewrite list_elem_of_fmap. split.
    - intros ([k' c] & -> & [Hc He]%list_elem_of_In%filter_In). exists c. split; [|exact He]. apply om_get_elem; [exact Hb|by apply list_elem_of_In].
    - intros (c & Hc & He). exists (k, c). split; [done|]. apply list_elem_of_In, filter_In. split; [|exact He]. apply list_elem_of_In. by apply om_get_elem. }
  destruct (om_get k batch) as [c|] eqn:E; [|rewrite bool_decide_eq_false_2; [done|]; rewrite Hin; intros (c & Hc & _); discriminate Hc].
  destruct (is_empty c) eqn:Ec; cbn [negb]; [|done]. rewrite bool_decide_eq_true_2; [done|]. rewrite Hin. by exists c.
Qed.

(** * The handle and the tree *)
Section fragment.
Context {X : Extern} {L : ExternLaws X} {P : Type} `{!Pager P, !PagerMut P} (fd : Freelist) (l : Layout).
Implicit Types (c : Cfg P) (w : FragmentWrite).

(** The fragment of the handle holds [kcs], under a tree of height [h], beside the pages [F]. *)
Definition frag c w (kcs : list (Z * Container)) (h : nat) (F : list Z) : Prop :=
  ∃ items, has_root fd l c h (fw_root w) items F ∧ holds c items kcs.

Lemma holds_entries c items kcs : holds c items kcs → items_in_order items → om_ok kcs.
Proof.
  intros H. induction H as [|it e items kcs Hs Hh IH]; intros Ho; [constructor|]. apply StronglySorted_inv in Ho as [Ho F]. apply om_ok_cons. split; [|by apply IH].
  apply Forall_forall. intros x Hx. destruct (proj1 (list_elem_of_lookup _ _) Hx) as (i & Hi). destruct (Forall2_lookup_r _ _ _ _ _ Hh Hi) as (it' & Hi' & Hs').
  rewrite Forall_forall in F. specialize (F it' (list_elem_of_lookup_2 _ _ _ Hi')). rewrite (sf_key _ _ _ _ Hs), (sf_key _ _ _ _ Hs') in F. exact F.
Qed.

Lemma frag_order c w kcs h F : frag c w kcs h F → om_ok kcs.
Proof.
  intros (items & Hr & Hh). destruct (fw_root w); cbn in Hr; [|destruct Hr as (_ & -> & _); inversion Hh; constructor]. eapply holds_entries; [exact Hh|apply Hr].
Qed.

Lemma frag_wf c w kcs h F : frag c w kcs h F → Forall (λ e, wf (snd e)) kcs.
Proof. intros (items & _ & Hh). induction Hh as [|it e items kcs Hs _ IH]; constructor; [exact (sf_wf _ _ _ _ Hs)|exact IH]. Qed.

(** What the handle's reader sees. *)
Definition same_opt (o o' : option Container) : Prop :=
  match o, o' with Some c, Some d => wf c ∧ members c = members d | None, None => True | _, _ => False end.

Lemma frag_shows c w kcs h F root : frag c w kcs h F → (h < MAX_DEPTH)%nat → fw_root w = Some root → shows (view c) root kcs.
Proof. intros (items & Hr & Hh) Hd E. rewrite E in Hr. cbn in Hr. eapply has_tree_shows; [exact Hr|exact Hd|exact Hh|]. intros w' _. apply view_agrees. Qed.

Lemma container_reads {Q} `{!Pager Q} (f : FragmentRead Q) kcs k : shows (fr_pager f) (fr_root f) kcs → ∃ o, fr_container f k = Ok o ∧ same_opt o (om_get k kcs).
Proof.
  intros Hs. destruct (shows_reads f kcs Hs) as (cells & ks & Ht & Hr & Hsame). exists (om_get k ks). split; [|by apply same_get].
  unfold fr_container. rewrite (for_each_ok f cells ks Ht Hr). f_equal. pose proof (ks_order f cells ks Ht Hr) as Ho. clear Ht Hr Hsame. unfold span.
  induction ks as [|[k' c] ks IH]; [done|]. apply om_ok_cons in Ho as [F Ho]. cbn [List.filter fst]. rewrite om_get_cons. cbn [fst snd].
  destruct (Z.eqb_spec k' k) as [->|Hne]; [by rewrite Z.leb_refl|]. replace ((k <=? k') && (k' <=? k)) with false; [by apply IH|].
  symmetry. apply andb_false_iff. destruct (Z.leb_spec k k'), (Z.leb_spec k' k); try auto; lia.
Qed.

Lemma existing_ok c w kcs h F k : frag c w kcs h F → (h < MAX_DEPTH)%nat → ∃ o, existing (c_store c) w (c_txn c) k = Ok o ∧ same_opt o (om_get k kcs).
Proof.
  intros Hf Hd. unfold existing, reader. destruct (fw_root w) as [root|] eqn:E; cbn [option_map].
  - apply container_reads. cbn [fr_pager fr_root]. exact (frag_shows c w kcs h F root Hf Hd E).
  - destruct Hf as (items & Hr & Hh). rewrite E in Hr. destruct Hr as (_ & -> & _). inversion Hh. by exists None.
Qed.

Lemma leaf_parse_count p lf : leaf_parse p = Ok lf → cell_count p = Ok (lp_count lf).
Proof.
  unfold leaf_parse, validate_cell_index. intros H. apply bind_ok in H as ([n d] & H & [= <-]). apply bind_ok in H as (fl & _ & H). cbn zeta in H. destruct (negb _); [discriminate H|].
  apply bind_ok in H as (cnt & Hc & H). cbn zeta in H. destruct (_ <? _); [discriminate H|]. apply bind_ok in H as ([] & _ & [= <- _]). exact Hc.
Qed.

(** The page of a root says whether the tree is one empty leaf. *)
Lemma root_page c h root items v : own_tree c h root items v → ∃ page, txn_read (c_store c) (c_txn c) root = Ok page ∧ page_ok page ∧
  match h with
  | O => page_type page = Ok PLeaf ∧ cell_count page = Ok (Z.of_nat (length items))
  | S _ => page_type page = Ok PBranch
  end.
Proof.
  destruct h as [|h]; cbn [own_tree].
  - intros (cells & (page & lf & Hr & Hok & Hty & Hp & Hc) & -> & _). exists page. split; [exact Hr|]. split; [exact Hok|]. split; [exact Hty|].
    rewrite length_map, (leaf_cells_length page lf cells Hok Hp Hc). by apply leaf_parse_count.
  - intros (bs & w' & (page & br & Hr & Hok & Hty & _) & _). exists page. auto.
Qed.

Lemma page_count_read p : page_ok p → ∃ m, cell_count p = Ok m.
Proof. intros H. eexists. apply rd_ok; [lia|]. destruct H as [H _]. change PAGE_SIZE with 8192 in H. lia. Qed.

Lemma collapse_ok c root sh items h F kcs n : has_tree fd l c h root items F → holds c items kcs → room c n →
  ∃ w' c' h', collapse_if_empty (c_store c) (mkFragmentWrite (Some root) sh) (c_txn c) = Ok (w', c_txn c') ∧ evolves c c' F ∧ frag c' w' kcs h' F ∧ (h' <= h)%nat ∧ room c' n ∧ fw_shard w' = sh.
Proof.
  intros Hht Hh Hr. pose proof Hht as [Hinv Ho (v & Ht & Hown)]. destruct (root_page c h root items v Ht) as (page & Hrd & Hok & Hpg). unfold collapse_if_empty. cbn [fw_root fw_shard].
  rewrite Hrd. cbn [from_store map_err mbind Res_bind].
  assert (Hkeep : ∃ w' c' h', Ok (E := BTreeError) (mkFragmentWrite (Some root) sh, c_txn c) = Ok (w', c_txn c') ∧ evolves c c' F ∧ frag c' w' kcs h' F ∧ (h' <= h)%nat ∧ room c' n ∧ fw_shard w' = sh).
  { exists (mkFragmentWrite (Some root) sh), c, h. split; [done|]. split; [apply evolves_refl|]. split; [exists items; by split|]. split; [lia|]. by split. }
  destruct h as [|h].
  - destruct Hpg as [-> ->]. cbn [from_page map_err mbind Res_bind]. rewrite bool_decide_eq_true_2 by done. cbn [andb]. destruct (Z.eqb_spec (Z.of_nat (length items)) 0) as [Ez|Ez]; [|exact Hkeep].
    destruct items; [|cbn in Ez; lia]. inversion Hh; subst. destruct (free_tree_ok fd l c 0 root [] F Hht) as (c' & Hf & He & Ho' & Hr'); [unfold MAX_DEPTH; lia|]. rewrite Hf. cbn [mbind Res_bind].
    eexists _, c', 0%nat. split; [reflexivity|]. split; [exact He|]. split; [|split; [lia|split; [by apply Hr'|done]]]. exists []. split; [|constructor]. cbn.
    split; [by eapply evolves_inv|]. split; [done|]. split; [done|exact Ho'].
  - rewrite Hpg. cbn [from_page map_err mbind Res_bind]. destruct (page_count_read page Hok) as (m & ->). cbn [from_page map_err mbind Res_bind]. rewrite bool_decide_eq_false_2 by done. exact Hkeep.
Qed.

(** Pages one removal or one container put may take. *)
Definition per_key : Z := 34 * 454.

Lemma clear_container_ok c w kcs h F k n : frag c w kcs h F → room c n → per_key <= n →
  (∃ w' c' h', clear_container (c_store c) w (c_txn c) k = Ok (w', c_txn c') ∧ evolves c c' F ∧ frag c' w' (drop_entry kcs k) h' F ∧ (h' <= S h)%nat ∧ room c' (n - per_key) ∧ fw_shard w' = fw_shard w) ∨
  ((MAX_DEPTH <= h)%nat ∧ ∃ r, clear_container (c_store c) w (c_txn c) k = Err (BTooDeep r)).
Proof.
  intros (items & Hr & Hh) Hrm Hn. unfold per_key in *. unfold clear_container. destruct (fw_root w) as [root|] eqn:Ew; cbn in Hr.
  - destruct (decide (h < MAX_DEPTH)%nat) as [Hd|Hd].
    + left. assert (Hb : (Z.of_nat h + 2) * 454 <= n) by (unfold MAX_DEPTH in Hd; lia).
      destruct (remove_ok fd l c h root items k F n Hr Hd Hrm Hb) as (root' & c1 & h1 & Hrem & He1 & Ht1 & Hh1 & Hr1). rewrite Hrem. cbn [mbind Res_bind].
      assert (Hh' : holds c1 (drop_item items k) (drop_entry kcs k)) by (eapply holds_keep; [|apply holds_drop, Hh]; intros q Hq; apply (ev_reads _ _ _ He1); apply elem_of_app; by left).
      destruct (collapse_ok c1 root' (fw_shard w) _ h1 F _ _ Ht1 Hh' Hr1) as (w' & c' & h' & Hc & He2 & Hf & Hle & Hr2 & Hsh). rewrite (ev_store _ _ _ He1) in Hc. exists w', c', h'.
      split; [exact Hc|]. split; [eapply evolves_trans; [exact He1|exact He2| |done]; intros q Hq; apply elem_of_app; by right|]. split; [exact Hf|]. split; [lia|]. split; [|exact Hsh].
      eapply room_sub; [exact Hr2|]. unfold MAX_DEPTH in Hd. lia.
    + right. split; [lia|]. exists root. unfold remove. destruct Hr as [_ Hord (v & Ht & _)]. unfold descend.
      by rewrite (descend_deep MAX_DEPTH h c root root k items v [] Ht Hord ltac:(lia)).
  - left. destruct Hr as (Hinv & -> & -> & Hown). inversion Hh; subst. exists w, c, 0%nat. split; [done|]. split; [apply evolves_refl|]. split.
    + exists []. rewrite Ew. split; [exact (conj Hinv (conj eq_refl (conj eq_refl Hown)))|constructor].
    + split; [lia|]. split; [eapply room_sub; [exact Hrm|lia]|done].
Qed.

Lemma clear_all_ok F keys : ∀ c w kcs h n, frag c w kcs h F → room c n → per_key * Z.of_nat (length keys) <= n →
  (∃ w' c' h', clear_all (c_store c) w (c_txn c) keys = Ok (w', c_txn c') ∧ evolves c c' F ∧ frag c' w' (foldl drop_entry kcs keys) h' F ∧ (h' <= h + length keys)%nat ∧
     room c' (n - per_key * Z.of_nat (length keys)) ∧ fw_shard w' = fw_shard w) ∨
  ((MAX_DEPTH < h + length keys)%nat ∧ ∃ r, clear_all (c_store c) w (c_txn c) keys = Err (BTooDeep r)).
Proof.
  induction keys as [|k keys IH]; intros c w kcs h n Hf Hr Hn; cbn [clear_all length foldl] in *.
  - left. exists w, c, h. split; [done|]. split; [apply evolves_refl|]. split; [exact Hf|]. split; [lia|]. split; [eapply room_sub; [exact Hr|lia]|done].
  - assert (Hp : per_key <= n) by (unfold per_key in *; lia). destruct (clear_container_ok c w kcs h F k n Hf Hr Hp) as [(w1 & c1 & h1 & E & He & Hf1 & Hh1 & Hr1 & Hs1)|[Hd (r & E)]]; [|right; split; [lia|]; exists r; by rewrite E].
    rewrite E. cbn [mbind Res_bind]. rewrite <- (ev_store _ _ _ He). destruct (IH c1 w1 (drop_entry kcs k) h1 (n - per_key) Hf1 Hr1) as [(w' & c' & h' & E' & He' & Hf' & Hh' & Hr' & Hs')|[Hd (r & E')]];
      [unfold per_key in *; lia|left|right; split; [lia|by exists r]].
    exists w', c', h'. split; [exact E'|]. split; [eapply evolves_trans; [exact He|exact He'|done|done]|]. split; [exact Hf'|]. split; [lia|]. split; [eapply room_sub; [exact Hr'|lia]|congruence].
Qed.

Lemma put_root_ok c w kcs h F pending n : frag c w kcs h F → Forall entry_ok pending → om_ok pending → room c n → per_key * Z.of_nat (length pending) + 1 <= n →
  (∃ root' c' h', put_containers (c_store c) (c_txn c) (fw_root w) pending = Ok (root', c_txn c') ∧ evolves c c' F ∧
     frag c' (mkFragmentWrite (Some root') (fw_shard w)) (foldl put_entry kcs pending) h' F ∧ (h' <= h + length pending + 4)%nat ∧ room c' (n - (per_key * Z.of_nat (length pending) + 1))) ∨
  ((MAX_DEPTH < h + length pending)%nat ∧ ∃ r, put_containers (c_store c) (c_txn c) (fw_root w) pending = Err (BTooDeep r)).
Proof.
  intros (items & Hht & Hh) Hok Ho Hr Hn. unfold per_key in *. destruct (fw_root w) as [root|]; cbn in Hht.
  - destruct (put_containers_loop_ok fd l (length pending) c h root items kcs pending F n Hht Hh Hok Ho (Nat.le_refl _) Hr ltac:(lia)) as [(root' & c' & h' & items' & H1 & H2 & H3 & H4 & H5 & H6)|H]; [left|right; exact H].
    exists root', c', h'. split; [exact H1|]. split; [exact H2|]. split; [exists items'; by split|]. split; [lia|]. eapply room_sub; [exact H6|lia].
  - destruct Hht as (Hinv & -> & -> & Hown). inversion Hh; subst. left.
    destruct (put_containers_new fd l c pending n Hinv Hok Ho Hr ltac:(lia)) as (root' & c' & h' & items' & H1 & H2 & [T1 T2 (v & T3 & T4)] & H4 & H5 & H6).
    rewrite (fold_entry_nil pending Ho). exists root', c', h'. split; [exact H1|]. split; [eapply evolves_sub; [exact H2|]; intros q Hq; by rewrite Hown|]. split.
    + exists items'. split; [|exact H4]. split; [exact T1|exact T2|]. exists v. split; [exact T3|by rewrite T4, Hown].
    + split; [lia|]. eapply room_sub; [exact H6|lia].
Qed.

Lemma length_partition {A} (p : A → bool) (q : list A) : (length (List.filter p q) + length (List.filter (λ x, negb (p x)) q) = length q)%nat.
Proof. induction q as [|x q IH]; [done|]. cbn. destruct (p x); cbn; lia. Qed.

(** [apply_all] puts the batch into the map, or the tree would pass the depth limit. *)
Lemma apply_all_ok c w kcs h F batch n : frag c w kcs h F → Forall entry_ok batch → om_ok batch → room c n → per_key * Z.of_nat (length batch) + 1 <= n →
  (∃ w' c' h', apply_all (c_store c) w (c_txn c) batch = Ok (w', c_txn c') ∧ evolves c c' F ∧ frag c' w' (applied kcs batch) h' F ∧ (h' <= h + length batch + 4)%nat ∧
     room c' (n - (per_key * Z.of_nat (length batch) + 1)) ∧ fw_shard w' = fw_shard w) ∨
  ((MAX_DEPTH < h + length batch)%nat ∧ ∃ r, apply_all (c_store c) w (c_txn c) batch = Err (BTooDeep r)).
Proof.
  intros Hf Hok Ho Hr Hn. unfold apply_all, applied. cbn zeta. set (empty := List.filter (λ e, is_empty (snd e)) batch). set (live := List.filter (λ e, negb (is_empty (snd e))) batch).
  assert (Hlen : (length empty + length live = length batch)%nat) by exact (length_partition _ batch). unfold per_key in *.
  destruct (clear_all_ok F (map fst empty) c w kcs h n Hf Hr) as [(w1 & c1 & h1 & E & He & Hf1 & Hh1 & Hr1 & Hs1)|[Hd (r & E)]]; rewrite ?length_map in *; [unfold per_key; lia| |right; split; [lia|]; exists r; by rewrite E].
  rewrite E. cbn [mbind Res_bind]. rewrite <- (ev_store _ _ _ He).
  assert (Forall entry_ok live ∧ om_ok live) as [Hl1 Hl2].
  { split; [|by apply om_ok_filter]. apply Forall_forall. intros e [Hx _]%list_elem_of_In%filter_In. rewrite Forall_forall in Hok. apply Hok. by apply list_elem_of_In. }
  clearbody live. destruct (decide (live = [])) as [->|Hne].
  - left. exists w1, c1, h1. cbn [length] in Hlen. split; [done|]. split; [exact He|]. split; [exact Hf1|]. split; [lia|]. split; [eapply room_sub; [exact Hr1|unfold per_key; lia]|exact Hs1].
  - assert (Hm : ∀ A (x y : A), match live with [] => x | _ => y end = y) by (intros A x y; by destruct live). rewrite Hm.
    destruct (put_root_ok c1 w1 _ h1 F live _ Hf1 Hl1 Hl2 Hr1) as [(root' & c' & h' & E' & He' & Hf' & Hh' & Hr')|[Hd (r & E')]]; [unfold per_key; lia| |right; split; [lia|]; exists r; by rewrite E'].
    left. rewrite E'. cbn [mbind Res_bind]. eexists _, c', h'. split; [reflexivity|]. split; [eapply evolves_trans; [exact He|exact He'|done|done]|]. split; [exact Hf'|]. split; [lia|].
    split; [eapply room_sub; [exact Hr'|unfold per_key; lia]|exact Hs1].
Qed.

(** * Sets of offsets, key by key *)
Definition mem (kcs : list (Z * Container)) (k u : Z) : Prop := match om_get k kcs with Some d => u ∈ members d | None => False end.

Lemma same_mem o kcs k u : same_opt o (om_get k kcs) → mem kcs k u ↔ match o with Some d => u ∈ members d | None => False end.
Proof. unfold mem. destruct o as [c|], (om_get k kcs) as [d|]; cbn; try done. by intros [_ ->]. Qed.

Lemma same_wf o o' (d : Container) : same_opt o o' → o = Some d → wf d.
Proof. intros H ->. destruct o'; [by destruct H|done]. Qed.

Lemma entry_get (es : list (Z * Container)) k (d : Container) : Forall entry_ok es → om_get k es = Some d → wf d ∧ 0 <= k < 2 ^ 64.
Proof.
  intros F H. unfold om_get in H. destruct (List.find _ es) as [[k' c']|] eqn:E; [|discriminate H]. injection H as <-. apply List.find_some in E as [E Hk]. cbn in Hk. apply Z.eqb_eq in Hk as ->.
  rewrite Forall_forall in F. exact (F _ (proj2 (list_elem_of_In _ _) E)).
Qed.

(** A batch whose containers are [N], key by key. *)
Definition batch_is (N : Z → Z → Prop) (batch : list (Z * Container)) : Prop := Forall (λ e, entry_ok e ∧ ∀ u, u ∈ members (snd e) ↔ N (fst e) u) batch.

Lemma applied_mem N kcs batch k u : om_ok kcs → om_ok batch → batch_is N batch →
  mem (applied kcs batch) k u ↔ match om_get k batch with Some _ => N k u | None => mem kcs k u end.
Proof.
  intros Hk Hb HN. destruct (applied_ok kcs batch Hk Hb) as [_ Hg]. unfold mem. rewrite Hg. destruct (om_get k batch) as [c|] eqn:E; [|done].
  apply om_get_elem in E; [|exact Hb]. pose proof (proj1 (Forall_forall _ _) HN _ E) as [[Wc _] Hc]. cbn in Wc, Hc. destruct (is_empty c) eqn:Ee; [|apply Hc].
  apply is_empty_members in Ee; [|exact Wc]. rewrite <- Hc, Ee. split; [done|]. intros H. by apply not_elem_of_nil in H.
Qed.

Lemma batch_entries N batch : batch_is N batch → Forall entry_ok batch.
Proof. intros H. eapply Forall_impl; [exact H|]. by intros e []. Qed.

(** What a writer does: it returns with the map it should leave, or the tree is too deep for the batch. *)
Definition writes c (r : Res BTreeError (FragmentWrite * WriteTxn)) w (h : nat) F n (cost : nat) (N : Z → Z → Prop) : Prop :=
  (∃ w' c' h' kcs', r = Ok (w', c_txn c') ∧ evolves c c' F ∧ frag c' w' kcs' h' F ∧ (∀ k u, mem kcs' k u ↔ N k u) ∧ (h' <= h + cost + 4)%nat ∧
     room c' (n - (per_key * Z.of_nat cost + 1)) ∧ fw_shard w' = fw_shard w) ∨
  ((MAX_DEPTH < h + cost)%nat ∧ ∃ p, r = Err (BTooDeep p)).

Lemma apply_writes c w kcs h F batch n cost N N' : frag c w kcs h F → om_ok batch → batch_is N batch → (length batch <= cost)%nat →
  room c n → per_key * Z.of_nat cost + 1 <= n → (∀ k u, N' k u ↔ match om_get k batch with Some _ => N k u | None => mem kcs k u end) →
  writes c (apply_all (c_store c) w (c_txn c) batch) w h F n cost N'.
Proof.
  intros Hf Ho HN Hl Hr Hn HN'. unfold per_key in *.
  destruct (apply_all_ok c w kcs h F batch n Hf (batch_entries _ _ HN) Ho Hr) as [(w' & c' & h' & E & He & Hf' & Hh & Hr' & Hs)|[Hd He]]; [unfold per_key; lia|left|right; split; [lia|exact He]].
  exists w', c', h', (applied kcs batch). split; [exact E|]. split; [exact He|]. split; [exact Hf'|]. split; [intros k u; rewrite HN'; apply applied_mem; [by eapply frag_order|exact Ho|exact HN]|].
  split; [lia|]. split; [eapply room_sub; [exact Hr'|unfold per_key; lia]|exact Hs].
Qed.

Section loops.
Context c w kcs h F (Hf : frag c w kcs h F) (Hd : (h < MAX_DEPTH)%nat).

Lemma apply_set op a b' : wf a → wf b' → entry_ok (0, into_owned (apply op a b')) ∧ ∀ u, u ∈ members (into_owned (apply op a b')) ↔ op_spec op (u ∈ members a) (u ∈ members b').
Proof. intros Ha Hb. destruct (apply_ok op a b' Ha Hb) as [W H]. split; [split; [exact W|cbn; lia]|exact H]. Qed.

Lemma merge_all_ok groups : om_ok groups → Forall entry_ok groups → ∃ out, merge_all (c_store c) w (c_txn c) groups = Ok out ∧ map fst out = map fst groups ∧
  batch_is (λ k u, mem kcs k u ∨ mem groups k u) out.
Proof.
  intros Ho HF. enough (H : ∀ gs, (∀ e, e ∈ gs → e ∈ groups) → ∃ out, merge_all (c_store c) w (c_txn c) gs = Ok out ∧ map fst out = map fst gs ∧ batch_is (λ k u, mem kcs k u ∨ mem groups k u) out) by (by apply H).
  induction gs as [|[k g] gs IH]; intros Hsub; [exists []; split; [done|]; split; [done|constructor]|]. cbn [merge_all].
  destruct (existing_ok c w kcs h F k Hf Hd) as (o & -> & Hs). cbn [mbind Res_bind]. destruct (IH (λ e He, Hsub e (list_elem_of_further _ _ _ He))) as (out & -> & Hk & HN). cbn [mbind Res_bind].
  eexists. split; [reflexivity|]. split; [cbn; by rewrite Hk|]. constructor; [|exact HN].
  pose proof (Hsub _ (list_elem_of_here _ _)) as Hin. pose proof (proj1 (Forall_forall _ _) HF _ Hin) as [Wg Hkb]. cbn in Wg, Hkb. apply om_get_elem in Hin; [|exact Ho].
  cbn [fst snd]. assert (Hg : ∀ u, mem groups k u ↔ u ∈ members g) by (intros u; unfold mem; by rewrite Hin). destruct o as [old|].
  - pose proof (same_wf _ _ old Hs eq_refl) as Wo. destruct (apply_set Or old g Wo Wg) as [[W _] Hm]. split; [split; [exact W|exact Hkb]|]. intros u. rewrite Hm, Hg, (same_mem _ _ _ _ Hs). done.
  - split; [by split|]. intros u. rewrite Hg, (same_mem _ _ _ _ Hs). tauto.
Qed.

Lemma subtract_all_ok groups : om_ok groups → Forall entry_ok groups → ∃ out, subtract_all (c_store c) w (c_txn c) groups = Ok out ∧ om_ok out ∧ (length out <= length groups)%nat ∧
  batch_is (λ k u, mem kcs k u ∧ ¬ mem groups k u) out ∧ ∀ k, om_get k out = None → om_get k groups = None ∨ om_get k kcs = None.
Proof.
  intros Ho HF. enough (H : ∀ gs, om_ok gs → (∀ e, e ∈ gs → e ∈ groups) → ∃ out, subtract_all (c_store c) w (c_txn c) gs = Ok out ∧ om_ok out ∧ (length out <= length gs)%nat ∧
    batch_is (λ k u, mem kcs k u ∧ ¬ mem groups k u) out ∧ (∀ k, om_get k out = None → om_get k gs = None ∨ om_get k kcs = None) ∧ ∀ j, Forall (λ e, j < fst e) gs → Forall (λ e, j < fst e) out).
  { destruct (H groups Ho (λ _ He, He)) as (out & ? & ? & ? & ? & ? & _). by exists out. }
  induction gs as [|[k g] gs IH]; intros Hog Hsub; [exists []; split; [done|]; split; [constructor|]; split; [done|]; split; [constructor|]; split; [by left|done]|]. cbn [subtract_all].
  apply om_ok_cons in Hog as [Hp Hog]. cbn in Hp. destruct (existing_ok c w kcs h F k Hf Hd) as (o & -> & Hs). cbn [mbind Res_bind].
  destruct (IH Hog (λ e He, Hsub e (list_elem_of_further _ _ _ He))) as (out & -> & Ho' & Hl & HN & Hnone & Hpast). cbn [mbind Res_bind].
  pose proof (Hsub _ (list_elem_of_here _ _)) as Hin. pose proof (proj1 (Forall_forall _ _) HF _ Hin) as [Wg Hkb]. cbn in Wg, Hkb. apply om_get_elem in Hin; [|exact Ho].
  eexists. split; [reflexivity|]. assert (Hg : ∀ u, mem groups k u ↔ u ∈ members g) by (intros u; unfold mem; by rewrite Hin). destruct o as [old|].
  - pose proof (same_wf _ _ old Hs eq_refl) as Wo. destruct (apply_set AndNot old g Wo Wg) as [[W _] Hm]. split; [apply om_ok_cons; split; [by apply Hpast|exact Ho']|]. split; [cbn; lia|]. split; [|split].
    + constructor; [|exact HN]. split; [split; [exact W|exact Hkb]|]. intros u. cbn [snd fst]. rewrite Hm, Hg, (same_mem _ _ _ _ Hs). done.
    + intros k'. rewrite !om_get_cons. cbn [fst snd]. destruct (k =? k'); [done|]. apply Hnone.
    + intros j [Hj Hjs]%Forall_cons. constructor; [exact Hj|by apply Hpast].
  - split; [exact Ho'|]. split; [cbn; lia|]. split; [exact HN|]. split; [|intros j [_ Hjs]%Forall_cons; by apply Hpast].
    intros k' Hk'. rewrite om_get_cons. cbn [fst snd]. destruct (Z.eqb_spec k k') as [<-|]; [|by apply Hnone]. right. unfold same_opt in Hs. by destruct (om_get k kcs).
Qed.

Lemma rewrite_all_ok set clear : om_ok set → Forall entry_ok set → om_ok clear → Forall entry_ok clear → ∀ keys, Forall (λ k, 0 <= k < 2 ^ 64) keys →
  ∃ out, rewrite_all (c_store c) w (c_txn c) set clear keys = Ok out ∧ map fst out = keys ∧ batch_is (λ k u, (mem kcs k u ∨ mem set k u) ∧ ¬ mem clear k u) out.
Proof.
  intros Hos HFs Hoc HFc. induction keys as [|k keys IH]; intros Hkeys; [exists []; split; [done|]; split; [done|constructor]|]. cbn [rewrite_all]. apply Forall_cons in Hkeys as [Hk Hkeys].
  destruct (existing_ok c w kcs h F k Hf Hd) as (o & -> & Hs). cbn [mbind Res_bind]. cbn zeta. destruct (IH Hkeys) as (out & -> & Hko & HN). cbn [mbind Res_bind]. eexists. split; [reflexivity|]. split; [cbn; by rewrite Hko|]. constructor; [|exact HN]. cbn [fst snd].
  set (c0 := default (Array []) o). assert (wf c0 ∧ ∀ u, u ∈ members c0 ↔ mem kcs k u) as [W0 H0].
  { unfold c0. destruct o as [old|]; cbn [from_option id]; [split; [by eapply same_wf|intros u; by rewrite (same_mem _ _ _ _ Hs)]|]. split; [by apply array_wf; constructor|]. intros u. rewrite (same_mem _ _ _ _ Hs). split; [intros H; by apply not_elem_of_nil in H|done]. }
  set (c1 := match om_get k set with Some s => into_owned (apply Or c0 s) | None => c0 end). assert (wf c1 ∧ ∀ u, u ∈ members c1 ↔ mem kcs k u ∨ mem set k u) as [W1 H1].
  { unfold c1, mem at 2. destruct (om_get k set) as [sc|] eqn:E; [|split; [exact W0|intros u; rewrite H0; tauto]]. destruct (entry_get _ _ _ HFs E) as [Ws _].
    destruct (apply_set Or c0 sc W0 Ws) as [[W _] Hm]. split; [exact W|]. intros u. rewrite Hm. cbn. by rewrite H0. }
  unfold mem at 3. destruct (om_get k clear) as [kc|] eqn:E; [|split; [by split|]; intros u; rewrite H1; tauto]. destruct (entry_get _ _ _ HFc E) as [Wk _].
  destruct (apply_set AndNot c1 kc W1 Wk) as [[W _] Hm]. split; [by split|]. intros u. rewrite Hm. cbn. by rewrite H1.
Qed.
End loops.

(** * The writers *)
Lemma arrival_bounds bits k u : u ∈ arrivals bits k → u16 u ∧ 0 <= k < 2 ^ 64 ∧ k ∈ map (λ e, ckey_of (pos_of (fst e) (snd e))) bits.
Proof.
  unfold arrivals. intros (ls & Hls & Hu)%list_elem_of_In%in_concat. apply list_elem_of_In in Hls, Hu. apply list_elem_of_fmap in Hls as (e & -> & He). destruct (Z.eqb_spec (ckey_of (pos_of (fst e) (snd e))) k) as [<-|]; [|by apply not_elem_of_nil in Hu].
  apply list_elem_of_singleton in Hu as ->. rewrite offset_mod, ckey_of_div. assert (Hp : 0 <= pos_of (fst e) (snd e) < 2 ^ 64) by (apply Z.mod_pos_bound; lia). split; [apply Z.mod_pos_bound; lia|]. split.
  - split; [apply Z.div_pos; lia|]. apply Z.div_lt_upper_bound; lia.
  - change (map ?f bits) with (f <$> bits). apply list_elem_of_fmap. exists e. split; [by rewrite ckey_of_div|exact He].
Qed.

Lemma containers_of_ok m bits : grouped m (arrivals bits) →
  om_ok (containers_of m) ∧ Forall entry_ok (containers_of m) ∧ (∀ k u, mem (containers_of m) k u ↔ u ∈ arrivals bits k) ∧ (length (containers_of m) <= length bits)%nat.
Proof.
  intros [Ho Hg]. unfold containers_of. pose proof (om_ok_map (λ _, from_values) m Ho) as Ho'. assert (Hget : ∀ k, om_get k (map (λ e, (fst e, from_values (snd e))) m) = from_values <$> some_ne (arrivals bits k)) by (intros k; rewrite (om_get_map (λ _, from_values) m k); by rewrite Hg).
  assert (Hfv : ∀ k, wf (from_values (arrivals bits k)) ∧ ∀ u, u ∈ members (from_values (arrivals bits k)) ↔ u ∈ arrivals bits k) by (intros k; apply from_values_members; intros v Hv; apply arrival_bounds in Hv as [Hv _]; exact Hv).
  assert (Hkey : ∀ k v, (k, v) ∈ m → v = arrivals bits k ∧ v ≠ []) by (intros k v Hin; apply om_get_elem in Hin; [|exact Ho]; rewrite Hg in Hin; destruct (arrivals bits k); [discriminate Hin|by inversion Hin]).
  split; [exact Ho'|]. split; [|split].
  - apply Forall_map, Forall_forall. intros [k v] Hin. destruct (Hkey k v Hin) as [-> Hne]. cbn. destruct (Hfv k) as [W _]. split; [exact W|]. cbn.
    destruct (arrivals bits k) as [|u us] eqn:E; [done|]. assert (Hu : u ∈ arrivals bits k) by (rewrite E; by left). by apply arrival_bounds in Hu as (_ & Hk & _).
  - intros k u. unfold mem. rewrite Hget. destruct (Hfv k) as [_ Hm]. destruct (arrivals bits k) as [|v vs]; cbn [some_ne fmap option_fmap option_map]; [split; [done|intros H; by apply not_elem_of_nil in H]|apply Hm].
  - rewrite length_map. rewrite <- (length_map fst m), <- (length_map (λ e, ckey_of (pos_of (fst e) (snd e))) bits). apply submseteq_length, NoDup_submseteq; [by apply ascending_NoDup, om_keys_ascending|].
    intros k Hk. change (map fst m) with (fst <$> m) in Hk. apply list_elem_of_fmap in Hk as ([k' v] & -> & Hin). destruct (Hkey k' v Hin) as [-> Hne]. cbn.
    destruct (arrivals bits k') as [|u us] eqn:E; [done|]. assert (Hu : u ∈ arrivals bits k') by (rewrite E; by left). by apply arrival_bounds in Hu as (_ & _ & Hk).
Qed.

Lemma keys_get {V W} (a : list (Z * V)) (d : list (Z * W)) k : om_ok a → om_ok d → map fst a = map fst d → om_get k a = None ↔ om_get k d = None.
Proof.
  revert d. induction a as [|[k' v] a IH]; intros [|[k2 w2] d] Ha Hb E; try done. cbn in E. injection E as -> E. apply om_ok_cons in Ha as [_ Ha]. apply om_ok_cons in Hb as [_ Hb].
  rewrite !om_get_cons. cbn [fst snd]. destruct (k2 =? k); [done|]. by apply IH.
Qed.

Lemma keys_past {V} k (d : list (Z * V)) : Forall (λ z, k < z) (map fst d) → Forall (λ y, k < fst y) d.
Proof. induction d as [|e d IH]; [constructor|]. intros [H1 H2]%Forall_cons. constructor; [exact H1|by apply IH]. Qed.

Lemma ok_of_keys {V W} (a : list (Z * V)) (d : list (Z * W)) : om_ok a → map fst d = map fst a → om_ok d.
Proof.
  revert d. induction a as [|[k v] a IH]; intros [|[k2 w2] d] Ha E; try done; [constructor|]. cbn in E. injection E as -> E. apply om_ok_cons in Ha as [F Ha]. apply om_ok_cons. split; [|by apply IH].
  cbn in *. assert (Forall (λ z, k < z) (map fst d)) as F' by (rewrite E; apply Forall_map; eapply Forall_impl; [exact F|]; done). by apply keys_past.
Qed.

Section ops.
Context c w kcs h F n (Hf : frag c w kcs h F) (Hd : (h < MAX_DEPTH)%nat) (Hr : room c n).

Lemma set_bits_ok cores bits : per_key * Z.of_nat (length bits) + 1 <= n →
  writes c (set_bits (c_store c) cores w (c_txn c) bits) w h F n (length bits) (λ k u, mem kcs k u ∨ u ∈ arrivals bits k).
Proof.
  intros Hn. unfold set_bits. destruct (group_offsets_ok (E := BTreeError) cores bits) as (m & -> & _ & Hm). cbn [mbind Res_bind]. destruct (containers_of_ok m bits Hm) as (Ho & HF & Hmem & Hl).
  destruct (merge_all_ok c w kcs h F Hf Hd (containers_of m) Ho HF) as (out & -> & Hk & HN). cbn [mbind Res_bind]. pose proof (ok_of_keys _ _ Ho Hk) as Hoo.
  eapply apply_writes; [exact Hf|exact Hoo|exact HN| |exact Hr|exact Hn|].
  - rewrite <- (length_map fst), Hk, length_map. exact Hl.
  - intros k u. cbn. destruct (om_get k out) eqn:E; [by rewrite Hmem|]. apply (keys_get _ _ k Hoo Ho Hk) in E. rewrite <- Hmem. unfold mem at 2. rewrite E. tauto.
Qed.

Lemma clear_grouped_ok groups cost : om_ok groups → Forall entry_ok groups → (length groups <= cost)%nat → per_key * Z.of_nat cost + 1 <= n →
  writes c (clear_grouped (c_store c) w (c_txn c) groups) w h F n cost (λ k u, mem kcs k u ∧ ¬ mem groups k u).
Proof.
  intros Ho HF Hl Hn. unfold clear_grouped. destruct (subtract_all_ok c w kcs h F Hf Hd groups Ho HF) as (out & -> & Hoo & Hlo & HN & Hnone). cbn [mbind Res_bind].
  eapply apply_writes; [exact Hf|exact Hoo|exact HN|lia|exact Hr|exact Hn|]. intros k u. cbn. destruct (om_get k out) eqn:E; [done|]. unfold mem. destruct (Hnone k E) as [-> | ->]; tauto.
Qed.

Lemma clear_bits_ok cores bits : per_key * Z.of_nat (length bits) + 1 <= n →
  writes c (clear_bits (c_store c) cores w (c_txn c) bits) w h F n (length bits) (λ k u, mem kcs k u ∧ u ∉ arrivals bits k).
Proof.
  intros Hn. unfold clear_bits. destruct (group_offsets_ok (E := BTreeError) cores bits) as (m & -> & _ & Hm). cbn [mbind Res_bind]. destruct (containers_of_ok m bits Hm) as (Ho & HF & Hmem & Hl).
  destruct (clear_grouped_ok (containers_of m) (length bits) Ho HF Hl Hn) as [(w' & c' & h' & kcs' & H1 & H2 & H3 & H4 & H5)|H]; [left|right; exact H].
  exists w', c', h', kcs'. split; [exact H1|]. split; [exact H2|]. split; [exact H3|]. split; [|exact H5]. intros k u. by rewrite H4, Hmem.
Qed.

Lemma unit_keys (l1 : list (Z * Container)) k : is_Some (om_get k (om_of_list (map (λ e, (fst e, tt)) l1))) ↔ k ∈ map fst l1.
Proof.
  induction l1 as [|e l1 IH] using rev_ind; [split; [by intros []|intros H; by apply not_elem_of_nil in H]|]. rewrite !map_app. cbn [map]. rewrite om_of_list_snoc. cbn [fst snd].
  rewrite om_get_insert by apply om_of_list_ok. rewrite elem_of_app, list_elem_of_singleton, <- IH. destruct (Z.eqb_spec k (fst e)); [split; [by right|eauto]|]. split; [by left|]. by intros [H|].
Qed.

Lemma all_keys_ok set clear : om_ok set → Forall entry_ok set → om_ok clear → Forall entry_ok clear →
  ascending (all_keys set clear) ∧ (∀ k, k ∈ all_keys set clear ↔ om_get k set ≠ None ∨ om_get k clear ≠ None) ∧ (length (all_keys set clear) <= length set + length clear)%nat ∧ Forall (λ k, 0 <= k < 2 ^ 64) (all_keys set clear).
Proof.
  intros Hs HFs Hc HFc. unfold all_keys. set (m := om_of_list (map (λ e, (fst e, tt)) (set ++ clear))). assert (Hm : om_ok m) by apply om_of_list_ok.
  assert (Hin : ∀ k, k ∈ map fst m ↔ k ∈ map fst (set ++ clear)).
  { intros k. rewrite <- unit_keys. fold m. change (map fst m) with (fst <$> m). rewrite list_elem_of_fmap. split.
    - intros ([k' []] & -> & H). exists tt. by apply om_get_elem.
    - intros [[] H]. exists (k, tt). split; [done|]. by apply om_get_elem. }
  assert (Hget : ∀ (q : list (Z * Container)) k, om_ok q → k ∈ map fst q ↔ om_get k q ≠ None).
  { intros q k Hq. change (map fst q) with (fst <$> q). rewrite list_elem_of_fmap. split.
    - intros ([k' v] & -> & H). apply om_get_elem in H; [|exact Hq]. cbn. congruence.
    - intros H. destruct (om_get k q) as [v|] eqn:E; [|done]. exists (k, v). split; [done|]. by apply om_get_elem. }
  split; [by apply om_keys_ascending|]. split; [intros k; rewrite Hin, map_app, elem_of_app, !Hget by assumption; done|]. split.
  - rewrite <- length_app, <- (length_map fst (set ++ clear)). apply submseteq_length, NoDup_submseteq; [by apply ascending_NoDup, om_keys_ascending|]. intros k. apply Hin.
  - apply Forall_forall. intros k Hk. apply Hin in Hk. change (map fst ?q) with (fst <$> q) in Hk. apply list_elem_of_fmap in Hk as (e & -> & He).
    rewrite Forall_forall in HFs, HFc. apply elem_of_app in He as [He|He]; [by apply HFs|by apply HFc].
Qed.

Lemma get_of_key (q : list (Z * Container)) k : om_ok q → om_get k q = None ↔ k ∉ map fst q.
Proof.
  intros Hq. change (map fst q) with (fst <$> q). rewrite list_elem_of_fmap. split.
  - intros H ([k' v] & -> & Hin). apply om_get_elem in Hin; [|exact Hq]. cbn in *. congruence.
  - intros H. destruct (om_get k q) as [v|] eqn:E; [|done]. destruct H. exists (k, v). split; [done|]. by apply om_get_elem.
Qed.

Lemma write_containers_ok set clear cost : om_ok set → Forall entry_ok set → om_ok clear → Forall entry_ok clear → (length set + length clear <= cost)%nat → per_key * Z.of_nat cost + 1 <= n →
  writes c (out ← rewrite_all (c_store c) w (c_txn c) set clear (all_keys set clear); apply_all (c_store c) w (c_txn c) out) w h F n cost (λ k u, (mem kcs k u ∨ mem set k u) ∧ ¬ mem clear k u).
Proof.
  intros Hs HFs Hc HFc Hl Hn. destruct (all_keys_ok set clear Hs HFs Hc HFc) as (Ha & Hin & Hlen & Hb). destruct (rewrite_all_ok c w kcs h F Hf Hd set clear Hs HFs Hc HFc _ Hb) as (out & -> & Hk & HN). cbn [mbind Res_bind].
  assert (Hoo : om_ok out).
  { clear -Ha Hk. rewrite <- Hk in Ha. clear Hk. induction out as [|[k v] out IH]; [constructor|]. cbn in Ha. apply StronglySorted_inv in Ha as [Ha F]. apply om_ok_cons. split; [by apply keys_past|by apply IH]. }
  eapply apply_writes; [exact Hf|exact Hoo|exact HN| |exact Hr|exact Hn|]; [rewrite <- (length_map fst), Hk; lia|]. intros k u. cbn. destruct (om_get k out) eqn:E; [done|].
  apply (get_of_key out k Hoo) in E. rewrite Hk, Hin in E. unfold mem. destruct (om_get k set), (om_get k clear); try (exfalso; apply E; auto; fail). tauto.
Qed.

Lemma write_bits_ok cores set clear : per_key * Z.of_nat (length set + length clear) + 1 <= n →
  writes c (write_bits (c_store c) cores w (c_txn c) set clear) w h F n (length set + length clear) (λ k u, (mem kcs k u ∨ u ∈ arrivals set k) ∧ u ∉ arrivals clear k).
Proof.
  intros Hn. unfold write_bits, write_grouped. destruct (group_offsets_ok (E := BTreeError) cores set) as (ms & -> & _ & Hms). destruct (group_offsets_ok (E := BTreeError) cores clear) as (mc & -> & _ & Hmc).
  cbn [mbind Res_bind]. cbn zeta. destruct (containers_of_ok ms set Hms) as (Ho & HF & Hmem & Hl). destruct (containers_of_ok mc clear Hmc) as (Ho' & HF' & Hmem' & Hl').
  destruct (write_containers_ok _ _ (length set + length clear) Ho HF Ho' HF' ltac:(lia) Hn) as [(w' & c' & h' & kcs' & H1 & H2 & H3 & H4 & H5)|H]; [left|right; exact H].
  exists w', c', h', kcs'. split; [exact H1|]. split; [exact H2|]. split; [exact H3|]. split; [|exact H5]. intros k u. by rewrite H4, Hmem, Hmem'.
Qed.
End ops.

(** ** Every row of some records *)
Definition at_zero (records : list Z) : list (Z * Z) := map (λ r, (0, r)) records.

Lemma slots_grouped records : ∃ m, slots_of records = containers_of m ∧ grouped m (arrivals (at_zero records)).
Proof.
  unfold slots_of. eexists. split; [reflexivity|]. induction records as [|r records IH] using rev_ind; [apply grouped_nil|]. rewrite foldl_app. cbn [foldl]. cbn zeta.
  eapply grouped_ext; [|apply append_grouped; [done|exact IH]]. intros k. cbn beta. unfold at_zero. rewrite map_app, arrivals_app. f_equal. unfold arrivals. cbn. rewrite app_nil_r, (Z.eqb_sym k). done.
Qed.

Lemma length_om_insert {V} (m : list (Z * V)) k v : (length (om_insert m k v) <= S (length m))%nat.
Proof. induction m as [|[k' v'] m IH]; cbn; [lia|]. destruct (k <? k'), (k =? k'); cbn; lia. Qed.

(** One row's worth of the slots, at keys of that row. *)
Lemma insert_slots (by_slot : list (Z * Container)) r : om_ok by_slot → Forall (λ e, 0 <= fst e < 16) by_slot → 0 <= r < 2 ^ 60 → ∀ m, om_ok m →
  let m' := foldl (λ groups e, om_insert groups (ckey_of_slot r (fst e)) (snd e)) m by_slot in
  om_ok m' ∧ (length m' <= length m + length by_slot)%nat ∧ ∀ k, om_get k m' = if k / 16 =? r then match om_get (k mod 16) by_slot with Some d => Some d | None => om_get k m end else om_get k m.
Proof.
  induction by_slot as [|[sl d] by_slot IH]; intros Ho HF Hr m Hm; cbn [foldl]; [split; [exact Hm|]; split; [cbn; lia|]; intros k; by destruct (_ =? _)|].
  apply om_ok_cons in Ho as [Hp Ho]. apply Forall_cons in HF as [Hs HF]. cbn in Hp, Hs. cbn [fst snd].
  destruct (IH Ho HF Hr (om_insert m (ckey_of_slot r sl) d) (om_insert_ok _ _ _ Hm)) as (H1 & H2 & H3). split; [exact H1|]. split; [pose proof (length_om_insert m (ckey_of_slot r sl) d); cbn; lia|].
  assert (Ek : ckey_of_slot r sl = r * 16 + sl) by (unfold ckey_of_slot, wrap64; change CONTAINERS_PER_ROW with 16; apply Z.mod_small; lia).
  intros k. rewrite H3, om_get_insert, Ek by exact Hm. rewrite om_get_cons. cbn [fst snd]. pose proof (Z.div_mod k 16). pose proof (Z.mod_pos_bound k 16).
  destruct (Z.eqb_spec (k / 16) r) as [Er|Er]; [|destruct (Z.eqb_spec k (r * 16 + sl)) as [->|]; [|done]; destruct (row_slot r sl Hs) as [E _]; unfold row_of_ckey in E; change CONTAINERS_PER_ROW with 16 in E; congruence].
  destruct (Z.eqb_spec sl (k mod 16)) as [Es|Es].
  - rewrite om_get_past by (rewrite <- Es; exact Hp). destruct (Z.eqb_spec k (r * 16 + sl)); [done|lia].
  - destruct (om_get (k mod 16) by_slot); [done|]. destruct (Z.eqb_spec k (r * 16 + sl)); [lia|done].
Qed.

Lemma at_rows_ok by_slot : om_ok by_slot → Forall (λ e, 0 <= fst e < 16) by_slot → ∀ rows, Forall (λ r, 0 <= r < 2 ^ 60) rows →
  om_ok (at_rows rows by_slot) ∧ (length (at_rows rows by_slot) <= length rows * length by_slot)%nat ∧
  ∀ k, om_get k (at_rows rows by_slot) = if bool_decide (k / 16 ∈ rows) then om_get (k mod 16) by_slot else None.
Proof.
  intros Ho HF. induction rows as [|r rows IH] using rev_ind; intros HR; [split; [constructor|]; split; [cbn; lia|]; intros k; by rewrite bool_decide_eq_false_2 by (intros H; by apply not_elem_of_nil in H)|].
  apply Forall_app in HR as [HR [Hr _]%Forall_cons]. destruct (IH HR) as (H1 & H2 & H3). unfold at_rows. rewrite foldl_app. cbn [foldl]. fold (at_rows rows by_slot).
  destruct (insert_slots by_slot r Ho HF Hr (at_rows rows by_slot) H1) as (H4 & H5 & H6). split; [exact H4|]. split; [rewrite length_app; cbn [length]; lia|]. intros k. rewrite H6, H3.
  destruct (Z.eqb_spec (k / 16) r) as [Er|Er].
  - rewrite (bool_decide_eq_true_2 (k / 16 ∈ rows ++ [r])) by (apply elem_of_app; right; rewrite Er; by left). destruct (om_get (k mod 16) by_slot); [done|]. by case_bool_decide.
  - rewrite (bool_decide_ext (k / 16 ∈ rows ++ [r]) (k / 16 ∈ rows)); [done|]. rewrite elem_of_app, list_elem_of_singleton. tauto.
Qed.

Lemma rows_shown {Q} `{!Pager Q} (f : FragmentRead Q) kcs : shows (fr_pager f) (fr_root f) kcs →
  ∃ out, fr_rows f = Ok out ∧ Forall (λ r, 0 <= r < 2 ^ 60) out ∧ (length out <= length kcs)%nat ∧ ∀ k u, mem kcs k u → k / 16 ∈ out.
Proof.
  intros Hs. pose proof (wf_of_shows _ _ _ Hs) as Hwf. destruct (shows_reads f kcs Hs) as (cells & ks & Ht & Hr & Hsame). destruct (rows_ok f cells ks Ht Hr) as (out & E & Ha & Hin). exists out. split; [exact E|].
  pose proof (ks_bounds f cells ks Ht Hr) as Hb. rewrite Forall_forall in Hb. split; [|split].
  - apply Forall_forall. intros r (e & He & <- & _)%Hin. destruct (Hb _ He) as [Hk _]. unfold row_of_ckey. change CONTAINERS_PER_ROW with 16. split; [apply Z.div_pos; lia|apply Z.div_lt_upper_bound; lia].
  - assert (El : length ks = length kcs) by (eapply Forall2_length; exact Hsame). rewrite <- El, <- (length_map (λ e, row_of_ckey (fst e)) ks). apply submseteq_length, NoDup_submseteq; [by apply ascending_NoDup|].
    intros r (e & He & <- & _)%Hin. change (map ?g ks) with (g <$> ks). apply list_elem_of_fmap. by exists e.
  - intros k u Hm. unfold mem in Hm. pose proof (same_get ks kcs k Hsame) as Hg. destruct (om_get k kcs) as [d|]; [|done]. destruct (om_get k ks) as [d'|] eqn:Ek; [|done]. destruct Hg as [_ Em].
    apply om_get_elem in Ek; [|exact (ks_order f cells ks Ht Hr)]. apply Hin. exists (k, d'). split; [exact Ek|]. split; [done|]. cbn. rewrite Em. intros E0. rewrite E0 in Hm. by apply not_elem_of_nil in Hm.
Qed.

Section more_ops.
Context c w kcs h F n (Hf : frag c w kcs h F) (Hd : (h < MAX_DEPTH)%nat) (Hr : room c n).

Lemma writes_nothing cost N : (∀ k u, mem kcs k u ↔ N k u) → 0 <= n → writes c (Ok (w, c_txn c)) w h F n cost N.
Proof.
  intros HN Hn. left. exists w, c, h, kcs. split; [done|]. split; [apply evolves_refl|]. split; [exact Hf|]. split; [exact HN|]. split; [lia|]. split; [|done]. eapply room_sub; [exact Hr|unfold per_key; lia].
Qed.

Lemma clear_records_ok records : per_key * Z.of_nat (length kcs * length records) + 1 <= n →
  writes c (clear_records (c_store c) w (c_txn c) records) w h F n (length kcs * length records) (λ k u, mem kcs k u ∧ u ∉ arrivals (at_zero records) (k mod 16)).
Proof.
  intros Hn. unfold clear_records. destruct records as [|r0 rs0] eqn:Er.
  { apply writes_nothing; [|unfold per_key in Hn; lia]. intros k u. split; [intros H; split; [exact H|intros H'; by apply not_elem_of_nil in H']|tauto]. }
  rewrite <- Er in *. clear Er r0 rs0. unfold reader. destruct (fw_root w) as [root|] eqn:Ew; cbn [option_map].
  2: { pose proof Hf as (items & Hro & Hh). rewrite Ew in Hro. destruct Hro as (_ & -> & _). apply writes_nothing; [|unfold per_key in Hn; lia]. intros k u. inversion Hh; subst. cbn. tauto. }
  destruct (rows_shown (mkFragmentRead (mkView (c_store c) (c_txn c)) root (fw_shard w)) kcs (frag_shows c w kcs h F root Hf Hd Ew)) as (rows & -> & HR & Hlr & Hall). cbn [mbind Res_bind].
  destruct (decide (rows = [])) as [->|Hne].
  { apply writes_nothing; [|unfold per_key in Hn; lia]. intros k u. split; [|tauto]. intros H. specialize (Hall k u H). by apply not_elem_of_nil in Hall. }
  assert (Hmat : ∀ A (x y : A), match rows with [] => x | _ => y end = y) by (intros A x y; by destruct rows). rewrite Hmat.
  destruct (slots_grouped records) as (m & -> & Hm). destruct (containers_of_ok m _ Hm) as (Ho & HF & Hmem & Hl).
  assert (Hsl : Forall (λ e, 0 <= fst e < 16) (containers_of m)).
  { apply Forall_forall. intros [k d] Hin. assert (Hk : om_get k (containers_of m) ≠ None) by (apply om_get_elem in Hin; [congruence|exact Ho]). unfold containers_of in Hk. rewrite (om_get_map (λ _, from_values) m k) in Hk.
    destruct Hm as [_ Hg]. rewrite Hg in Hk. destruct (arrivals (at_zero records) k) as [|u us] eqn:Ea; [done|]. assert (Hu : u ∈ arrivals (at_zero records) k) by (rewrite Ea; by left).
    apply arrival_bounds in Hu as (_ & _ & Hu). unfold at_zero in Hu. rewrite map_map in Hu. change (map ?g records) with (g <$> records) in Hu. apply list_elem_of_fmap in Hu as (r & -> & _).
    cbn. destruct (pos_split 0 r) as [-> _]; [unfold row_ok; lia|]. pose proof (local_slot_bound r). lia. }
  destruct (at_rows_ok (containers_of m) Ho Hsl rows HR) as (Ho' & Hl' & Hg').
  assert (Hlen : (length (at_rows rows (containers_of m)) <= length kcs * length records)%nat).
  { etrans; [exact Hl'|]. apply Nat.mul_le_mono; [exact Hlr|]. unfold at_zero in Hl. by rewrite length_map in Hl. }
  assert (HF' : Forall entry_ok (at_rows rows (containers_of m))).
  { apply Forall_forall. intros [k d] Hin. apply om_get_elem in Hin; [|exact Ho']. rewrite Hg' in Hin. case_bool_decide as Hk; [|discriminate Hin]. destruct (entry_get _ _ _ HF Hin) as [Wd _]. split; [exact Wd|]. cbn.
    rewrite Forall_forall in HR. specialize (HR _ Hk). cbn in HR. pose proof (Z.div_mod k 16). pose proof (Z.mod_pos_bound k 16). lia. }
  destruct (clear_grouped_ok c w kcs h F n Hf Hd Hr _ _ Ho' HF' Hlen Hn) as [(w' & c' & h' & kcs' & H1 & H2 & H3 & H4 & H5)|H]; [left|right; exact H].
  exists w', c', h', kcs'. split; [exact H1|]. split; [exact H2|]. split; [exact H3|]. split; [|exact H5]. intros k u. rewrite H4.
  assert (Hg : mem kcs k u → mem (at_rows rows (containers_of m)) k u ↔ u ∈ arrivals (at_zero records) (k mod 16)).
  { intros Hk. rewrite <- Hmem. unfold mem. rewrite Hg', bool_decide_eq_true_2 by (by eapply Hall). done. }
  split; intros [H H']; (split; [exact H|]); by rewrite (Hg H) in *.
Qed.

Lemma write_row_ok r (set : RowSet) : wf_rows set → row_ok r → per_key * 16 + 1 <= n →
  writes c (write_row (c_store c) w (c_txn c) r set) w h F n 16
    (λ k u, if k / 16 =? r then match rs_get set (k mod 16) with Some d => u ∈ members d | None => False end else mem kcs k u).
Proof.
  intros Ws Hrow Hn. unfold write_row. change CONTAINERS_PER_ROW with 16. set (batch := map (λ slot, (ckey_of_slot r slot, default (Array []) (rs_get set slot))) (seqZ 0 16)).
  assert (Hk : ∀ sl, 0 <= sl < 16 → ckey_of_slot r sl = r * 16 + sl) by (intros; by apply ckey_of_slot_small).
  assert (Ho : om_ok batch).
  { assert (H : ∀ j m, 0 <= m → 0 <= j → j + m = 16 → om_ok (map (λ slot, (ckey_of_slot r slot, default (Array []) (rs_get set slot))) (seqZ j m)) ∧
      Forall (λ e, r * 16 + j <= fst e) (map (λ slot, (ckey_of_slot r slot, default (Array []) (rs_get set slot))) (seqZ j m))); [|by apply (H 0 16)].
    intros j m Hm. revert j. pattern m. apply natlike_ind; [intros j _ _; split; constructor| |exact Hm]. clear m Hm. intros m Hm IH j Hj E. rewrite seqZ_cons by lia. rewrite Z.pred_succ. cbn [map].
    destruct (IH (Z.succ j)) as [I1 I2]; [lia|lia|]. split.
    - apply om_ok_cons. split; [|exact I1]. cbn [fst]. rewrite Hk by lia. eapply Forall_impl; [exact I2|]. cbn. intros. lia.
    - constructor; [cbn; rewrite Hk; lia|]. eapply Forall_impl; [exact I2|]. cbn. intros. lia. }
  eapply (apply_writes c w kcs h F batch n 16 (λ k u, match rs_get set (k mod 16) with Some d => u ∈ members d | None => False end)); [exact Hf|exact Ho| | |exact Hr|exact Hn|].
  - unfold batch. apply Forall_map, Forall_forall. intros sl Hsl%elem_of_seqZ. cbn [fst snd]. rewrite Hk by lia. destruct (row_slot r sl ltac:(lia)) as [_ E2]. unfold slot_of_ckey in E2. change CONTAINERS_PER_ROW with 16 in E2. rewrite E2.
    pose proof (rs_get_spec set sl Ws) as Hg. unfold row_ok in Hrow. destruct (rs_get set sl) as [d|]; cbn [from_option id].
    + pose proof (proj1 (Forall_forall _ _) (wr_slots _ Ws) _ Hg) as (_ & Wd & _). split; [|done]. split; [exact Wd|cbn; lia].
    + split; [split; [by apply array_wf; constructor|cbn; lia]|]. intros u. split; [intros H; by apply not_elem_of_nil in H|done].
  - unfold batch. by rewrite length_map, length_seqZ.
  - intros k u. assert (Hin : om_get k batch = None ↔ k / 16 ≠ r).
    { rewrite (get_of_key batch k Ho). unfold batch. rewrite map_map. cbn [fst]. change (map ?g (seqZ 0 16)) with (g <$> seqZ 0 16). rewrite list_elem_of_fmap. split.
      - intros H E. apply H. exists (k mod 16). pose proof (Z.mod_pos_bound k 16). rewrite Hk by lia. split; [pose proof (Z.div_mod k 16); lia|]. apply elem_of_seqZ. lia.
      - intros H (sl & -> & Hsl%elem_of_seqZ). apply H. rewrite Hk by lia. apply row_slot. lia. }
    destruct (om_get k batch) as [d|]; destruct (Z.eqb_spec (k / 16) r) as [E|E]; try done; exfalso.
    + assert (Hx : Some d = None) by (by apply Hin). discriminate Hx.
    + by apply (proj1 Hin).
Qed.
End more_ops.

(** [write_container] is a batch of one. *)
Lemma write_container_single s w0 t k d : write_container s w0 t k d = apply_all s w0 t [(k, d)].
Proof.
  unfold write_container, apply_all. cbn [List.filter snd]. destruct (is_empty d); cbn [negb map clear_all fst].
  - by destruct (clear_container s w0 t k) as [[]| |].
  - done.
Qed.

Lemma merge_container_ok c w kcs h F n k d : frag c w kcs h F → (h < MAX_DEPTH)%nat → room c n → entry_ok (k, d) → per_key + 1 <= n →
  writes c (merge_container (c_store c) w (c_txn c) k d) w h F n 1 (λ j u, mem kcs j u ∨ j = k ∧ u ∈ members d).
Proof.
  intros Hf Hd Hr [Wd Hk] Hn. cbn in Wd, Hk. unfold merge_container. destruct (existing_ok c w kcs h F k Hf Hd) as (o & -> & Hs). cbn [mbind Res_bind]. rewrite write_container_single.
  set (e := match o with Some old => into_owned (apply Or old d) | None => d end). assert (wf e ∧ ∀ u, u ∈ members e ↔ mem kcs k u ∨ u ∈ members d) as [We He].
  { unfold e. destruct o as [old|]; [|split; [exact Wd|intros u; rewrite (same_mem _ _ _ _ Hs); tauto]]. destruct (apply_ok Or old d (same_wf _ _ _ Hs eq_refl) Wd) as [W Hm].
    split; [exact W|]. intros u. rewrite Hm, (same_mem _ _ _ _ Hs). done. }
  eapply (apply_writes c w kcs h F [(k, e)] n 1 (λ j u, mem kcs j u ∨ u ∈ members d)); [exact Hf|repeat constructor| |done|exact Hr|lia|].
  - constructor; [|constructor]. split; [by split|]. exact He.
  - intros j u. cbn beta. rewrite om_get_cons. cbn [fst snd]. destruct (Z.eqb_spec k j) as [->|]; [tauto|]. cbn. intuition congruence.
Qed.
End fragment.
