(* ===== verification/Fields.v ===== *)
(** The field conventions (crates/big-engine/src/bitmap/field/: bsi.rs, the writers; set.rs; mutex.rs):
    which bits of which rows a value is, over the fragments of a transaction. *)
From S2P Require Import Prelude Bits Search Container SetOps Optimize Page Pager Store Txn BTree BTreeOwn Coords RowSet OrdMap FragRead Bsi Group FragWrite.

Section fields.
Context {X : Extern} {P : Type} `{!Pager P, !PagerMut P} (s : Store P) (cores : Z).
Implicit Types (w : FragmentWrite) (t : WriteTxn).

(** * Bit-sliced values *)
Definition bsi_set (b : Bsi) w t (record value : Z) : Res FieldError (FragmentWrite * WriteTxn) :=
  '(set, clear) ← bits_for b record value [] [];
  from_tree (write_bits s cores w t set clear).

Definition bsi_clear (b : Bsi) w t (record : Z) : Res FieldError (FragmentWrite * WriteTxn) :=
  from_tree (clear_bits s cores w t ((EXISTS_ROW, record) :: map (λ i, (plane_row i, record)) (planes_up b))).

(** * Set fields *)
Definition set_set w t (r record : Z) : Res FieldError (FragmentWrite * WriteTxn) := from_tree (set_bits s cores w t [(r, record)]).
Definition set_clear w t (r record : Z) : Res FieldError (FragmentWrite * WriteTxn) := from_tree (clear_bits s cores w t [(r, record)]).

(** * Bool fields *)
Definition FALSE_ROW : Z := 0.
Definition TRUE_ROW : Z := 1.
Definition bool_row_of (v : bool) : Z := if v then TRUE_ROW else FALSE_ROW.
Definition bool_set w t (record : Z) (value : bool) : Res FieldError (FragmentWrite * WriteTxn) :=
  '(w, t) ← from_tree (clear_bits s cores w t [(bool_row_of (negb value), record)]);
  from_tree (set_bits s cores w t [(bool_row_of value, record)]).

(** * Mutex fields *)
Record MutexField := mkMutexField { shadow : Bsi }.

(** The row the shadow has for a record. *)
Definition shadow_row (m : MutexField) (shadow_w : FragmentWrite) t (record : Z) : Res FieldError (option Z) :=
  match reader s shadow_w t with Some r => bsi_get (shadow m) r record | None => Ok None end.

Definition mutex_put (m : MutexField) (values shadow_w : FragmentWrite) t (record r : Z) : Res FieldError (FragmentWrite * FragmentWrite * WriteTxn) :=
  old ← shadow_row m shadow_w t record;
  '(values, t) ← (match old with
                  | Some old => if negb (old =? r) then from_tree (clear_bits s cores values t [(old, record)]) else Ok (values, t)
                  | None => Ok (values, t)
                  end);
  '(values, t) ← from_tree (set_bits s cores values t [(r, record)]);
  '(shadow_w, t) ← bsi_set (shadow m) shadow_w t record r;
  Ok (values, shadow_w, t).

Definition mutex_clear (m : MutexField) (values shadow_w : FragmentWrite) t (record : Z) : Res FieldError (option Z * FragmentWrite * FragmentWrite * WriteTxn) :=
  old ← shadow_row m shadow_w t record;
  match old with
  | Some o =>
      '(values, t) ← from_tree (clear_bits s cores values t [(o, record)]);
      '(shadow_w, t) ← bsi_clear (shadow m) shadow_w t record;
      Ok (old, values, shadow_w, t)
  | None => Ok (old, values, shadow_w, t)
  end.
End fields.

Section readers.
Context {X : Extern} {P : Type} `{!Pager P}.

Definition set_row (f : FragmentRead P) (r : Z) : Res FieldError RowSet := from_tree (row f r).
Definition set_count (f : FragmentRead P) (r : Z) : Res FieldError Z := from_tree (row_count f r).

Fixpoint rows_holding (f : FragmentRead P) (record : Z) (rows : list Z) : Res FieldError (list Z) :=
  match rows with
  | [] => Ok []
  | r :: rows' => b ← from_tree (fr_get f r record); rest ← rows_holding f record rows'; Ok (if b : bool then r :: rest else rest)
  end.
Definition rows_of (f : FragmentRead P) (record : Z) : Res FieldError (list Z) := rows ← from_tree (fr_rows f); rows_holding f record rows.

Definition bool_get (f : FragmentRead P) (record : Z) : Res FieldError (option bool) :=
  b ← from_tree (fr_get f TRUE_ROW record);
  if b : bool then Ok (Some true)
  else b ← from_tree (fr_get f FALSE_ROW record); Ok (if b : bool then Some false else None).

Definition mutex_get (m : MutexField) (shadow_read : FragmentRead P) (record : Z) : Res FieldError (option Z) := bsi_get (shadow m) shadow_read record.
Definition mutex_row (values : FragmentRead P) (r : Z) : Res FieldError RowSet := from_tree (row values r).

Fixpoint verify_loop (values : FragmentRead P) (record : Z) (rows : list Z) (actual : option Z) : Res FieldError (option Z) :=
  match rows with
  | [] => Ok actual
  | r :: rows' =>
      b ← from_tree (fr_get values r record);
      if b : bool then match actual with Some _ => Err (FMutexConflict record) | None => verify_loop values record rows' (Some r) end
      else verify_loop values record rows' actual
  end.
Definition mutex_verify {Q} `{!Pager Q} (m : MutexField) (values : FragmentRead P) (shadow_read : FragmentRead Q) (record : Z) : Res FieldError unit :=
  claimed ← bsi_get (shadow m) shadow_read record;
  rows ← from_tree (fr_rows values);
  actual ← verify_loop values record rows None;
  if bool_decide (actual = claimed) then Ok tt else Err (FMutexConflict record).
End readers.
