(* ===== verification/FieldSpec.v ===== *)
(** What the fields keep (the theory of crates/big-engine/src/bitmap/field): a value written is the
    value read back, and nothing else of the fragment moves. *)
From S2P Require Import Prelude Bits Search Container SetOps Optimize Delta Page Sample Leaf Branch Chain Meta Freelist Snapshot Roots Pager Store Crash SampleStore Txn BTree BTreeWrite BTreeOwn BTreeBuild BTreeItem BTreeEdit BTreePut BTreeShow BTreeWalk BTreeSpec Coords RowSet OrdMap FragRead Bsi Group FragWrite FragStore Fields.

(** * Bits as facts *)
Definition names (bits : list (Z * Z)) (r x : Z) : bool := existsb (λ e, (fst e =? r) && (local_of (snd e) =? x)) bits.

Lemma arrivals_names bits r x : Forall (λ e, row_ok (fst e)) bits → row_ok r → 0 <= x < 2 ^ 20 → x mod 2 ^ 16 ∈ arrivals bits (r * 16 + x / 2 ^ 16) ↔ names bits r x = true.
Proof.
  intros HF Hr Hx. assert (Hs : 0 <= x / 2 ^ 16 < 16) by (split; [apply Z.div_pos; lia|apply Z.div_lt_upper_bound; lia]).
  destruct (row_slot r (x / 2 ^ 16) Hs) as [E1 E2]. unfold row_of_ckey, slot_of_ckey in E1, E2. change CONTAINERS_PER_ROW with 16 in E1, E2.
  induction HF as [|[r0 rec] bits H0 _ IH]; [split; [intros H; by apply not_elem_of_nil in H|done]|].
  change ((r0, rec) :: bits) with ([(r0, rec)] ++ bits). rewrite arrivals_app, elem_of_app, IH. cbn [app names existsb fst snd]. fold (names bits r x). rewrite orb_true_iff. f_equiv.
  unfold arrivals. cbn [map concat fst snd]. rewrite app_nil_r, arrival_one, E1, E2 by exact H0. rewrite andb_true_iff, !Z.eqb_eq.
  assert (Hx' : local_of rec = x ↔ local_of rec / 2 ^ 16 = x / 2 ^ 16 ∧ local_of rec mod 2 ^ 16 = x mod 2 ^ 16).
  { split; [by intros ->|]. intros [Ha Hb]. rewrite (Z.div_mod (local_of rec) (2 ^ 16)), (Z.div_mod x (2 ^ 16)) by lia. by rewrite Ha, Hb. }
  destruct (Z.eqb_spec r r0), (Z.eqb_spec (local_of rec / 2 ^ 16) (x / 2 ^ 16)); cbn [andb].
  - rewrite list_elem_of_singleton. split; [intros H; split; [done|]; apply Hx'; auto|]. intros [_ H]. apply Hx' in H as [_ H]. done.
  - split; [intros H; by apply not_elem_of_nil in H|]. intros [_ H]. apply Hx' in H as [H _]. done.
  - split; [intros H; by apply not_elem_of_nil in H|]. intros [H _]. congruence.
  - split; [intros H; by apply not_elem_of_nil in H|]. intros [H _]. congruence.
Qed.

Lemma fact_mem kcs r x : Forall (λ e, wf (snd e)) kcs → fact kcs r x = true ↔ mem kcs (r * 16 + x / 2 ^ 16) (x mod 2 ^ 16).
Proof.
  intros HF. unfold fact, has, mem. destruct (om_get (r * 16 + x / 2 ^ 16) kcs) as [d|] eqn:E; [|done]. apply contains_members; [|apply Z.mod_pos_bound; lia].
  unfold om_get in E. destruct (List.find _ kcs) as [e|] eqn:Ef; [|discriminate E]. injection E as <-. apply List.find_some in Ef as [Ef _]. rewrite Forall_forall in HF. apply HF. by apply list_elem_of_In.
Qed.

(** * Fragments as facts *)
Section facts.
Context {X : Extern} {L : ExternLaws X} {P : Type} `{!Pager P, !PagerMut P} (fd : Freelist) (l : Layout).
Implicit Types (c : Cfg P) (w : FragmentWrite).

(** The fragment of the handle says [facts] of the rows and offsets there are. *)
Definition says c w (facts : Z → Z → bool) (h : nat) (F : list Z) : Prop :=
  ∃ kcs, frag fd l c w kcs h F ∧ ∀ r x, row_ok r → 0 <= x < 2 ^ 20 → fact kcs r x = facts r x.

(** A write returns and leaves [facts], or the tree is too deep for it. *)
Definition leaves c (r : Res BTreeError (FragmentWrite * WriteTxn)) w (h : nat) F n (cost : nat) (facts : Z → Z → bool) : Prop :=
  (∃ w' c' h', r = Ok (w', c_txn c') ∧ evolves c c' F ∧ says c' w' facts h' F ∧ (h' <= h + cost + 4)%nat ∧ room c' (n - (per_key * Z.of_nat cost + 1)) ∧ fw_shard w' = fw_shard w) ∨
  ((MAX_DEPTH < h + cost)%nat ∧ ∃ p, r = Err (BTooDeep p)).

Lemma writes_leaves c r w h F n cost N facts : writes fd l c r w h F n cost N →
  (∀ q x, row_ok q → 0 <= x < 2 ^ 20 → facts q x = true ↔ N (q * 16 + x / 2 ^ 16) (x mod 2 ^ 16)) → leaves c r w h F n cost facts.
Proof.
  intros [(w' & c' & h' & kcs' & H1 & H2 & H3 & H4 & H5)|H] HN; [left|right; exact H]. exists w', c', h'. split; [exact H1|]. split; [exact H2|]. split; [|exact H5].
  exists kcs'. split; [exact H3|]. intros q x Hq Hx. apply eq_true_iff_eq. rewrite fact_mem by (by eapply frag_wf). by rewrite H4, HN.
Qed.

Section ops.
Context c w facts h F n (Hs : says c w facts h F) (Hd : (h < MAX_DEPTH)%nat) (Hr : room c n).

Lemma says_set cores bits : Forall (λ e, row_ok (fst e)) bits → per_key * Z.of_nat (length bits) + 1 <= n →
  leaves c (set_bits (c_store c) cores w (c_txn c) bits) w h F n (length bits) (λ q x, facts q x || names bits q x).
Proof.
  intros HF Hn. destruct Hs as (kcs & Hf & Hfact). eapply writes_leaves; [exact (set_bits_ok fd l c w kcs h F n Hf Hd Hr cores bits Hn)|]. intros q x Hq Hx.
  by rewrite orb_true_iff, <- Hfact, fact_mem, arrivals_names by (try assumption; by eapply frag_wf).
Qed.

Lemma says_clear cores bits : Forall (λ e, row_ok (fst e)) bits → per_key * Z.of_nat (length bits) + 1 <= n →
  leaves c (clear_bits (c_store c) cores w (c_txn c) bits) w h F n (length bits) (λ q x, facts q x && negb (names bits q x)).
Proof.
  intros HF Hn. destruct Hs as (kcs & Hf & Hfact). eapply writes_leaves; [exact (clear_bits_ok fd l c w kcs h F n Hf Hd Hr cores bits Hn)|]. intros q x Hq Hx.
  by rewrite andb_true_iff, negb_true_iff, <- not_true_iff_false, <- Hfact, fact_mem, arrivals_names by (try assumption; by eapply frag_wf).
Qed.

Lemma says_write cores set clear : Forall (λ e, row_ok (fst e)) set → Forall (λ e, row_ok (fst e)) clear → per_key * Z.of_nat (length set + length clear) + 1 <= n →
  leaves c (write_bits (c_store c) cores w (c_txn c) set clear) w h F n (length set + length clear) (λ q x, (facts q x || names set q x) && negb (names clear q x)).
Proof.
  intros HS HC Hn. destruct Hs as (kcs & Hf & Hfact). eapply writes_leaves; [exact (write_bits_ok fd l c w kcs h F n Hf Hd Hr cores set clear Hn)|]. intros q x Hq Hx.
  by rewrite andb_true_iff, orb_true_iff, negb_true_iff, <- not_true_iff_false, <- Hfact, fact_mem, !arrivals_names by (try assumption; by eapply frag_wf).
Qed.

(** What the handle's own reader is promised. *)
Lemma says_reader root : fw_root w = Some root → ∃ kcs, Facts (mkFragmentRead (mkView (c_store c) (c_txn c)) root (fw_shard w)) (fact kcs) ∧ ∀ q x, row_ok q → 0 <= x < 2 ^ 20 → fact kcs q x = facts q x.
Proof.
  intros E. destruct Hs as (kcs & Hf & Hfact). exists kcs. split; [|exact Hfact]. apply shows_facts. exact (frag_shows fd l c w kcs h F root Hf Hd E).
Qed.

Lemma says_none : fw_root w = None → ∀ q x, row_ok q → 0 <= x < 2 ^ 20 → facts q x = false.
Proof. intros E q x Hq Hx. destruct Hs as (kcs & (items & Hro & Hh) & Hfact). rewrite E in Hro. destruct Hro as (_ & -> & _). inversion Hh; subst. by rewrite <- Hfact. Qed.
End ops.
End facts.

(** * Bit-sliced values *)
Section bsi.
Context (b : Bsi) (Hdep : depth_ok b).

Lemma bits_for_ok record value : fits b value = true →
  ∃ set clear, bits_for b record value [] [] = Ok (set, clear) ∧ (length set + length clear <= Z.to_nat (bit_depth b) + 1)%nat ∧
    Forall (λ e, row_ok (fst e)) set ∧ Forall (λ e, row_ok (fst e)) clear ∧
    (∀ r x, names set r x = (local_of record =? x) && ((r =? 0) || (1 <=? r) && (r <=? bit_depth b) && bit_of value (r - 1))) ∧
    ∀ r x, names clear r x = (local_of record =? x) && ((1 <=? r) && (r <=? bit_depth b) && negb (bit_of value (r - 1))).
Proof.
  intros Hf. unfold bits_for. rewrite Hf. cbn [negb]. unfold planes_up. destruct Hdep as [Hd0 Hd1].
  assert (H : ∀ n, 0 <= n → n <= bit_depth b → ∃ set clear, foldl (λ '(set, clear) i, if bit_of value i then (set ++ [(plane_row i, record)], clear) else (set, clear ++ [(plane_row i, record)])) ([] ++ [(EXISTS_ROW, record)], []) (seqZ 0 n) = (set, clear) ∧
    (length set + length clear = Z.to_nat n + 1)%nat ∧ Forall (λ e, row_ok (fst e)) set ∧ Forall (λ e, row_ok (fst e)) clear ∧
    (∀ r x, names set r x = (local_of record =? x) && ((r =? 0) || (1 <=? r) && (r <=? n) && bit_of value (r - 1))) ∧
    ∀ r x, names clear r x = (local_of record =? x) && ((1 <=? r) && (r <=? n) && negb (bit_of value (r - 1)))).
  2: { destruct (H (bit_depth b) Hd0 ltac:(lia)) as (set & clear & E & Hl & H1 & H2 & H3 & H4). exists set, clear. rewrite E. split; [done|]. split; [lia|]. auto. }
  intros n Hn. pattern n. apply natlike_ind; [| |exact Hn].
  - intros _. exists [(EXISTS_ROW, record)], []. split; [done|]. split; [done|]. split; [constructor; [unfold row_ok, EXISTS_ROW; cbn [fst]; lia|constructor]|]. split; [constructor|]. split.
    + intros r x. unfold names. cbn [existsb fst snd]. unfold EXISTS_ROW. rewrite orb_false_r, (Z.eqb_sym 0 r), andb_comm. destruct (Z.leb_spec 1 r), (Z.leb_spec r 0); try lia; cbn [andb]; by rewrite orb_false_r.
    + intros r x. unfold names. cbn [existsb]. destruct (Z.leb_spec 1 r), (Z.leb_spec r 0); try lia; cbn [andb]; by rewrite andb_false_r.
  - clear n Hn. intros n Hn IH Hle. destruct (IH ltac:(lia)) as (set & clear & E & Hl & H1 & H2 & H3 & H4). rewrite <- Z.add_1_r, seqZ_snoc, foldl_app, E by exact Hn. cbn [foldl].
    assert (Hrow : row_ok (plane_row n)) by (unfold row_ok, plane_row; lia).
    assert (Hsnoc : ∀ l r x, names (l ++ [(plane_row n, record)]) r x = names l r x || (r =? n + 1) && (local_of record =? x)).
    { intros l0 r x. unfold names. rewrite existsb_app. cbn [existsb fst snd]. rewrite orb_false_r. unfold plane_row. by rewrite (Z.eqb_sym (1 + n) r), (Z.add_comm 1 n). }
    assert (Hcase : ∀ r, (1 <=? r) && (r <=? n + 1) = (1 <=? r) && (r <=? n) || (r =? n + 1)).
    { intros r. destruct (Z.leb_spec 1 r), (Z.leb_spec r (n + 1)), (Z.leb_spec r n), (Z.eqb_spec r (n + 1)); try lia; done. }
    assert (Hbit : ∀ r, r = n + 1 → bit_of value (r - 1) = bit_of value n) by (intros r ->; f_equal; lia).
    destruct (bit_of value n) eqn:Eb; eexists _, _; (split; [reflexivity|]); (split; [rewrite length_app; cbn [length]; lia|]).
    + split; [apply Forall_app; split; [exact H1|constructor; [exact Hrow|constructor]]|]. split; [exact H2|]. split.
      * intros r x. rewrite Hsnoc, H3, Hcase. destruct (Z.eqb_spec r (n + 1)) as [Er|]; [rewrite (Hbit r Er)|]; destruct (local_of record =? x), (r =? 0), (1 <=? r), (r <=? n); cbn; try done; by destruct (bit_of value (r - 1)).
      * intros r x. rewrite H4, Hcase. destruct (Z.eqb_spec r (n + 1)) as [Er|]; [rewrite (Hbit r Er)|by rewrite orb_false_r]. cbn [negb]. by rewrite !andb_false_r.
    + split; [exact H1|]. split; [apply Forall_app; split; [exact H2|constructor; [exact Hrow|constructor]]|]. split.
      * intros r x. rewrite H3, Hcase. destruct (Z.eqb_spec r (n + 1)) as [Er|]; [rewrite (Hbit r Er)|by rewrite orb_false_r]. by rewrite !andb_false_r.
      * intros r x. rewrite Hsnoc, H4, Hcase. destruct (Z.eqb_spec r (n + 1)) as [Er|]; [rewrite (Hbit r Er)|]; destruct (local_of record =? x), (1 <=? r), (r <=? n); cbn; try done; by destruct (bit_of value (r - 1)).
Qed.

(** The facts after a value is written for the record at offset [y]. *)
Definition with_value (facts : Z → Z → bool) (y value : Z) (r x : Z) : bool :=
  if (x =? y) && (0 <=? r) && (r <=? bit_depth b) then (r =? 0) || bit_of value (r - 1) else facts r x.
(** The facts after its value is taken away. *)
Definition without_value (facts : Z → Z → bool) (y r x : Z) : bool := if (x =? y) && (0 <=? r) && (r <=? bit_depth b) then false else facts r x.

Lemma value_ext facts facts' x : (∀ i, 0 <= i < bit_depth b → facts (plane_row i) x = facts' (plane_row i) x) → value_of (bit_depth b) facts x = value_of (bit_depth b) facts' x.
Proof.
  intros H. unfold value_of. assert (HI : ∀ i, i ∈ seqZ 0 (bit_depth b) → facts (plane_row i) x = facts' (plane_row i) x) by (intros i Hi%elem_of_seqZ; apply H; lia). revert HI. generalize (seqZ 0 (bit_depth b)).
  intros q. induction q as [|i q IH]; intros HI; [done|]. cbn [foldr]. rewrite (HI i) by (by left). rewrite IH; [done|]. intros j Hj. apply HI. by right.
Qed.

Lemma value_back facts y value : 0 <= value < 2 ^ bit_depth b → value_of (bit_depth b) (with_value facts y value) y = value.
Proof.
  intros Hv. destruct Hdep as [Hd0 _]. apply Z.bits_inj'. intros i Hi. destruct (Z.lt_ge_cases i (bit_depth b)).
  - rewrite value_of_bit by lia. unfold with_value, plane_row. rewrite Z.eqb_refl. destruct (Z.leb_spec 0 (1 + i)), (Z.leb_spec (1 + i) (bit_depth b)); try lia. cbn [andb].
    destruct (Z.eqb_spec (1 + i) 0); [lia|]. cbn [orb]. rewrite bit_of_testbit by lia. f_equal. lia.
  - pose proof (value_of_bound (with_value facts y value) y (bit_depth b) Hd0). assert (2 ^ bit_depth b <= 2 ^ i) by (apply Z.pow_le_mono_r; lia). rewrite !small_bit by lia. done.
Qed.

Lemma stored_with facts y value x : 0 <= value < 2 ^ bit_depth b → stored (bit_depth b) (with_value facts y value) x = if x =? y then Some value else stored (bit_depth b) facts x.
Proof.
  intros Hv. unfold stored. destruct (Z.eqb_spec x y) as [->|Hne].
  - unfold with_value at 1. rewrite Z.eqb_refl. destruct Hdep as [Hd0 _]. unfold EXISTS_ROW. destruct (Z.leb_spec 0 0), (Z.leb_spec 0 (bit_depth b)); try lia. cbn [andb orb Z.eqb]. by rewrite value_back.
  - assert (Hw : ∀ r, with_value facts y value r x = facts r x) by (intros r; unfold with_value; by destruct (Z.eqb_spec x y)). rewrite Hw. destruct (facts EXISTS_ROW x); [|done]. f_equal. by apply value_ext.
Qed.

Lemma stored_without facts y x : stored (bit_depth b) (without_value facts y) x = if x =? y then None else stored (bit_depth b) facts x.
Proof.
  unfold stored. destruct (Z.eqb_spec x y) as [->|Hne].
  - unfold without_value at 1. rewrite Z.eqb_refl. destruct Hdep as [Hd0 _]. unfold EXISTS_ROW. by destruct (Z.leb_spec 0 0), (Z.leb_spec 0 (bit_depth b)); try lia.
  - assert (Hw : ∀ r, without_value facts y r x = facts r x) by (intros r; unfold without_value; by destruct (Z.eqb_spec x y)). rewrite Hw. destruct (facts EXISTS_ROW x); [|done]. f_equal. by apply value_ext.
Qed.
End bsi.

Section written.
Context {X : Extern} {L : ExternLaws X} {P : Type} `{!Pager P, !PagerMut P} (fd : Freelist) (l : Layout).
Implicit Types (c : Cfg P) (w : FragmentWrite).

Lemma says_ext c w facts facts' h F : (∀ r x, row_ok r → 0 <= x < 2 ^ 20 → facts r x = facts' r x) → says fd l c w facts h F → says fd l c w facts' h F.
Proof. intros E (kcs & Hf & H). exists kcs. split; [exact Hf|]. intros r x Hr Hx. by rewrite H, E. Qed.

Lemma leaves_mono c r w h F n cost cost' facts facts' : (cost <= cost')%nat → (∀ q x, row_ok q → 0 <= x < 2 ^ 20 → facts q x = facts' q x) →
  leaves fd l c r w h F n cost facts → leaves fd l c r w h F n cost' facts'.
Proof.
  intros Hc E [(w' & c' & h' & H1 & H2 & H3 & H4 & H5 & H6)|[H1 H2]]; [left|right; split; [lia|exact H2]]. exists w', c', h'. split; [exact H1|]. split; [exact H2|]. split; [by eapply says_ext|].
  split; [lia|]. split; [|exact H6]. eapply room_sub; [exact H5|unfold per_key; lia].
Qed.

Lemma bsi_set_says c w facts h F n b cores record value : depth_ok b → says fd l c w facts h F → (h < MAX_DEPTH)%nat → room c n → per_key * (bit_depth b + 1) + 1 <= n → fits b value = true →
  ∃ r, bsi_set (c_store c) cores b w (c_txn c) record value = from_tree r ∧ leaves fd l c r w h F n (Z.to_nat (bit_depth b) + 1) (with_value b facts (local_of record) value).
Proof.
  intros Hdep Hs Hd Hr Hn Hf. destruct (bits_for_ok b Hdep record value Hf) as (set & clear & E & Hl & H1 & H2 & H3 & H4). unfold bsi_set. rewrite E. cbn [mbind Res_bind]. eexists. split; [reflexivity|].
  destruct Hdep as [Hd0 _]. eapply leaves_mono; [exact Hl| |apply (says_write fd l c w facts h F n Hs Hd Hr cores set clear H1 H2); unfold per_key in *; lia].
  intros q x Hq Hx. unfold row_ok in Hq. cbn beta. rewrite H3, H4. unfold with_value. rewrite (Z.eqb_sym x (local_of record)). destruct (local_of record =? x); cbn [andb]; [|by rewrite orb_false_r, andb_true_r].
  destruct (Z.leb_spec 0 q); [|lia]. cbn [andb]. destruct (Z.leb_spec q (bit_depth b)).
  - destruct (Z.eqb_spec q 0) as [->|]; [cbn; by rewrite orb_true_r|]. destruct (Z.leb_spec 1 q); [|lia]. cbn [andb orb]. by destruct (bit_of value (q - 1)), (facts q x).
  - destruct (Z.eqb_spec q 0); [lia|]. by destruct (1 <=? q), (facts q x).
Qed.

Lemma bsi_clear_says c w facts h F n b cores record : depth_ok b → says fd l c w facts h F → (h < MAX_DEPTH)%nat → room c n → per_key * (bit_depth b + 1) + 1 <= n →
  ∃ r, bsi_clear (c_store c) cores b w (c_txn c) record = from_tree r ∧ leaves fd l c r w h F n (Z.to_nat (bit_depth b) + 1) (without_value b facts (local_of record)).
Proof.
  intros Hdep Hs Hd Hr Hn. unfold bsi_clear. eexists. split; [reflexivity|]. set (bits := (EXISTS_ROW, record) :: map (λ i, (plane_row i, record)) (planes_up b)). destruct Hdep as [Hd0 Hd1].
  assert (Hl : length bits = (Z.to_nat (bit_depth b) + 1)%nat) by (unfold bits, planes_up; cbn [length]; rewrite length_map, length_seqZ; lia).
  assert (HF : Forall (λ e, row_ok (fst e)) bits).
  { constructor; [unfold row_ok, EXISTS_ROW; cbn [fst]; lia|]. apply Forall_map, Forall_forall. intros i Hi%elem_of_seqZ. unfold row_ok, plane_row. cbn [fst]. lia. }
  eapply leaves_mono; [| |apply (says_clear fd l c w facts h F n Hs Hd Hr cores bits HF); rewrite Hl; unfold per_key in *; lia]; [lia|].
  intros q x Hq Hx. unfold row_ok in Hq. cbn beta.
  assert (Hn' : names bits q x = (local_of record =? x) && (q <=? bit_depth b)).
  { unfold names. apply eq_true_iff_eq. rewrite existsb_exists, andb_true_iff, Z.eqb_eq, Z.leb_le. split.
    - intros (e & He & [Hq1 Hq2]%andb_true_iff). apply Z.eqb_eq in Hq1, Hq2. destruct He as [<-|He]; [cbn in Hq1, Hq2; unfold EXISTS_ROW in Hq1; split; [exact Hq2|lia]|].
      apply in_map_iff in He as (i & <- & Hi). apply list_elem_of_In, elem_of_seqZ in Hi. cbn in Hq1, Hq2. unfold plane_row in Hq1. split; [exact Hq2|lia].
    - intros [Hx' Hle]. destruct (Z.eq_dec q 0) as [->|]; [exists (EXISTS_ROW, record); split; [by left|]; cbn; by rewrite Hx', Z.eqb_refl|].
      exists (plane_row (q - 1), record). split; [right; apply in_map_iff; exists (q - 1); split; [done|]; apply list_elem_of_In, elem_of_seqZ; lia|]. cbn. rewrite Hx', Z.eqb_refl, andb_true_r. unfold plane_row. apply Z.eqb_eq. lia. }
  rewrite Hn'. unfold without_value. rewrite (Z.eqb_sym x (local_of record)). destruct (Z.leb_spec 0 q); [|lia]. rewrite andb_true_r. destruct ((local_of record =? x) && (q <=? bit_depth b)); [apply andb_false_r|apply andb_true_r].
Qed.

(** Reading a bit-sliced value through the handle that wrote it. *)
Lemma shadow_reads c w facts h F b record : depth_ok b → says fd l c w facts h F → (h < MAX_DEPTH)%nat →
  shadow_row (c_store c) (mkMutexField b) w (c_txn c) record = Ok (stored (bit_depth b) facts (local_of record)).
Proof.
  intros Hdep Hs Hd. pose proof (local_bound record) as Hx. unfold shadow_row, reader. destruct (fw_root w) as [root|] eqn:E; cbn [option_map shadow].
  - destruct (says_reader fd l c w facts h F Hs Hd root E) as (kcs & HFacts & Hfact). rewrite (bsi_get_ok _ (fact kcs) b Hdep). f_equal. unfold stored. rewrite Hfact by (unfold row_ok, EXISTS_ROW; lia).
    destruct (facts EXISTS_ROW (local_of record)); [|done]. f_equal. apply value_ext. intros i Hi. apply Hfact; [by apply (plane_row_ok b)|exact Hx].
  - f_equal. unfold stored. rewrite (says_none fd l c w facts h F Hs E EXISTS_ROW) by (try exact Hx; unfold row_ok, EXISTS_ROW; lia). done.
Qed.

(** * Two fragments of one transaction *)

(** The tree of a handle and the pages it is made of. *)
Definition side c w kcs (h : nat) (v : list Z) : Prop :=
  ∃ items, (match fw_root w with Some r => items_in_order items ∧ own_tree c h r items v | None => items = [] ∧ h = 0%nat ∧ v = [] end) ∧ holds c items kcs.

Lemma frag_side c w kcs h F : frag fd l c w kcs h F ↔ txn_inv fd l c ∧ ∃ v, side c w kcs h v ∧ own c ≡ₚ v ++ F.
Proof.
  unfold frag, side. destruct (fw_root w) as [root|]; cbn [has_root]; split.
  - intros (items & [Hi Ho (v & Ht & Hown)] & Hh). split; [exact Hi|]. exists v. split; [|exact Hown]. exists items. by split.
  - intros (Hi & v & (items & (Ho & Ht) & Hh) & Hown). exists items. split; [|exact Hh]. split; [exact Hi|exact Ho|]. by exists v.
  - intros (items & (Hi & -> & -> & Hown) & Hh). split; [exact Hi|]. exists []. split; [|exact Hown]. exists []. by split.
  - intros (Hi & v & (items & (-> & -> & ->) & Hh) & Hown). exists []. split; [|exact Hh]. split; [exact Hi|]. split; [done|]. split; [done|exact Hown].
Qed.

Lemma side_keep c c' w kcs h v : (∀ q, q ∈ v → page_at c' q = page_at c q) → side c w kcs h v → side c' w kcs h v.
Proof.
  intros Hk (items & Hm & Hh). exists items. destruct (fw_root w) as [root|].
  - destruct Hm as [Ho Ht]. pose proof (own_tree_bases _ _ _ _ _ Ht) as Hb. split; [split; [exact Ho|by eapply own_tree_keep]|]. eapply holds_keep; [|exact Hh]. intros q Hq. by apply Hk, Hb.
  - split; [exact Hm|]. destruct Hm as (-> & _). inversion Hh; subst. constructor.
Qed.

(** One handle put aside while the other is written, and back. *)
Lemma swap c a b' ka kb ha hb vb G : frag fd l c a ka ha (vb ++ G) → side c b' kb hb vb → ∃ va, side c a ka ha va ∧ frag fd l c b' kb hb (va ++ G).
Proof.
  intros (Hi & va & Ha & Hown)%frag_side Hb. exists va. split; [exact Ha|]. apply frag_side. split; [exact Hi|]. exists vb. split; [exact Hb|]. rewrite Hown. solve_Permutation || (rewrite !app_assoc; by rewrite (Permutation_app_comm va vb)).
Qed.
End written.

(** * Mutex fields *)
Section mutex.
Context {X : Extern} {L : ExternLaws X} {P : Type} `{!Pager P, !PagerMut P} (fd : Freelist) (l : Layout) (m : MutexField) (Hdep : depth_ok (shadow m)).
Implicit Types (c : Cfg P) (w : FragmentWrite).
Local Abbreviation depth := (bit_depth (shadow m)).

(** The value fragment and its shadow, beside the pages [G]. *)
Definition both c values shadow_w (fv fs : Z → Z → bool) (hv hs : nat) (G : list Z) : Prop :=
  ∃ kv ks vs, frag fd l c values kv hv (vs ++ G) ∧ side c shadow_w ks hs vs ∧
    (∀ r x, row_ok r → 0 <= x < 2 ^ 20 → fact kv r x = fv r x) ∧ (∀ r x, row_ok r → 0 <= x < 2 ^ 20 → fact ks r x = fs r x).

(** At most one row per record, and the shadow knows which. *)
Definition mutex_ok (fv fs : Z → Z → bool) : Prop := ∀ r x, row_ok r → 0 <= x < 2 ^ 20 → fv r x = true ↔ stored depth fs x = Some r.

Lemma both_shadow c values shadow_w fv fs hv hs G : both c values shadow_w fv fs hv hs G → ∃ kv vv, side c values kv hv vv ∧ says fd l c shadow_w fs hs (vv ++ G) ∧ ∀ r x, row_ok r → 0 <= x < 2 ^ 20 → fact kv r x = fv r x.
Proof.
  intros (kv & ks & vs & Hv & Hsd & Hfv & Hfs). destruct (swap fd l c values shadow_w kv ks hv hs vs G Hv Hsd) as (vv & Hvv & Hf). exists kv, vv. split; [exact Hvv|]. split; [|exact Hfv]. by exists ks.
Qed.

(** A write to the values leaves the shadow as it is. *)
Lemma both_values c values shadow_w fv fs hv hs G n cost r fv' : both c values shadow_w fv fs hv hs G →
  (∀ vs, says fd l c values fv hv (vs ++ G) → leaves fd l c r values hv (vs ++ G) n cost fv') → (hv + cost < MAX_DEPTH)%nat →
  ∃ values' c' hv', r = Ok (values', c_txn c') ∧ evolves c c' G ∧ both c' values' shadow_w fv' fs hv' hs G ∧ (hv' <= hv + cost + 4)%nat ∧ room c' (n - (per_key * Z.of_nat cost + 1)).
Proof.
  intros (kv & ks & vs & Hv & Hsd & Hfv & Hfs) Hl Hh. destruct (Hl vs) as [(w' & c' & h' & H1 & H2 & (kv' & Hf' & Hfv') & H4 & H5 & _)|[Hdp _]]; [by exists kv| |lia].
  exists w', c', h'. split; [exact H1|]. split; [eapply evolves_sub; [exact H2|]; intros q Hq; apply elem_of_app; by right|]. split; [|by split]. exists kv', ks, vs. split; [exact Hf'|]. split; [|by split].
  eapply side_keep; [|exact Hsd]. intros q Hq. apply (ev_reads _ _ _ H2). apply elem_of_app. by left.
Qed.

Lemma names_one r0 record r x : names [(r0, record)] r x = (r0 =? r) && (local_of record =? x).
Proof. unfold names. cbn. by rewrite orb_false_r. Qed.

(** The values after [put]. *)
Definition moved (fv : Z → Z → bool) (old : option Z) (r y q x : Z) : bool :=
  (fv q x && negb (match old with Some o => negb (o =? r) && (o =? q) && (y =? x) | None => false end)) || ((r =? q) && (y =? x)).

Lemma moved_ok fv fs r y : mutex_ok fv fs → row_ok r → 0 <= y < 2 ^ 20 → r < 2 ^ depth →
  mutex_ok (moved fv (stored depth fs y) r y) (with_value (shadow m) fs y r).
Proof.
  intros Hm Hr Hy Hfit q x Hq Hx. rewrite stored_with by (try exact Hdep; unfold row_ok in Hr; lia). unfold moved. destruct (Z.eqb_spec x y) as [->|Hne].
  - rewrite Z.eqb_refl, !andb_true_r. pose proof (Hm q y Hq Hx) as Hmq. destruct (Z.eqb_spec r q) as [->|Hrq]; [rewrite orb_true_r; done|]. rewrite orb_false_r, andb_true_iff, negb_true_iff, Hmq. split.
    + intros [E H]. rewrite E in H. destruct (Z.eqb_spec q r); [congruence|]. by rewrite Z.eqb_refl in H.
    + intros [= E]. congruence.
  - destruct (Z.eqb_spec y x); [congruence|]. rewrite !andb_false_r, orb_false_r. rewrite <- (Hm q x Hq Hx). destruct (stored depth fs y); cbn [negb]; rewrite ?andb_false_r; cbn [negb]; by rewrite andb_true_r.
Qed.

(** A write to the shadow leaves the values as they are. *)
Lemma both_written c values shadow_w fv fs hv hs G n cost r fs' : both c values shadow_w fv fs hv hs G →
  (∀ vv, says fd l c shadow_w fs hs (vv ++ G) → leaves fd l c r shadow_w hs (vv ++ G) n cost fs') →
  (∃ shadow' c' hs', r = Ok (shadow', c_txn c') ∧ evolves c c' G ∧ both c' values shadow' fv fs' hv hs' G) ∨ ((MAX_DEPTH < hs + cost)%nat ∧ ∃ p, r = Err (BTooDeep p)).
Proof.
  intros Hb Hl. destruct (both_shadow _ _ _ _ _ _ _ _ Hb) as (kv & vv & Hvv & Hs & Hfv). destruct (Hl vv Hs) as [(w' & c' & h' & H1 & H2 & (ks' & Hf' & Hfs') & _)|H]; [left|right; exact H].
  exists w', c', h'. split; [exact H1|]. split; [eapply evolves_sub; [exact H2|]; intros q Hq; apply elem_of_app; by right|].
  assert (Hv' : side c' values kv hv vv) by (eapply side_keep; [|exact Hvv]; intros q Hq; apply (ev_reads _ _ _ H2); apply elem_of_app; by left).
  destruct (swap fd l c' w' values ks' kv h' hv vv G Hf' Hv') as (vs & Hvs & Hf). exists kv, ks', vs. split; [exact Hf|]. split; [exact Hvs|]. split; [exact Hfv|exact Hfs'].
Qed.

(** The old row of a record taken out of the values, when it moves. *)
Lemma leave_old cores c values shadow_w fv fs hv hs G n record r old :
  both c values shadow_w fv fs hv hs G → (∀ o, old = Some o → row_ok o) → (hv + 1 < MAX_DEPTH)%nat → room c n → per_key + 1 <= n →
  ∃ values' c' hv', (match old with
      | Some o => if negb (o =? r) then from_tree (clear_bits (c_store c) cores values (c_txn c) [(o, record)]) else Ok (values, c_txn c)
      | None => Ok (values, c_txn c) end) = Ok (values', c_txn c') ∧ evolves c c' G ∧
    both c' values' shadow_w (λ q x, fv q x && negb (match old with Some o => negb (o =? r) && (o =? q) && (local_of record =? x) | None => false end)) fs hv' hs G ∧
    (hv' <= hv + 5)%nat ∧ room c' (n - (per_key + 1)).
Proof.
  intros Hb Ho Hh Hr Hn.
  assert (Hkeep : ∀ g, (∀ q x, g q x = false) → ∃ values' c' hv', Ok (E := FieldError) (values, c_txn c) = Ok (values', c_txn c') ∧ evolves c c' G ∧
    both c' values' shadow_w (λ q x, fv q x && negb (g q x)) fs hv' hs G ∧ (hv' <= hv + 5)%nat ∧ room c' (n - (per_key + 1))).
  { intros g Hg. exists values, c, hv. split; [done|]. split; [apply evolves_refl|]. split; [|split; [lia|eapply room_sub; [exact Hr|unfold per_key; lia]]].
    destruct Hb as (kv & ks & vs & H1 & H2 & H3 & H4). exists kv, ks, vs. split; [exact H1|]. split; [exact H2|]. split; [|exact H4]. intros q x Hq Hx. rewrite Hg, H3 by assumption. by rewrite andb_true_r. }
  destruct old as [o|]; [|by apply (Hkeep (λ _ _, false))]. destruct (o =? r) eqn:Eor; cbn [negb andb]; [by apply (Hkeep (λ _ _, false))|].
  destruct (both_values c values shadow_w fv fs hv hs G n 1 (clear_bits (c_store c) cores values (c_txn c) [(o, record)]) (λ q x, fv q x && negb (names [(o, record)] q x)) Hb) as (v' & c' & h' & H1 & H2 & H3 & H4 & H5).
  { intros vs Hs. apply (says_clear fd l c values fv hv (vs ++ G) n Hs ltac:(lia) Hr cores [(o, record)]); [constructor; [by apply Ho|constructor]|unfold per_key in *; cbn; lia]. }
  { lia. }
  exists v', c', h'. rewrite H1. split; [done|]. split; [exact H2|]. split; [|split; [lia|eapply room_sub; [exact H5|unfold per_key; lia]]].
  destruct H3 as (kv & ks & vs & G1 & G2 & G3 & G4). exists kv, ks, vs. split; [exact G1|]. split; [exact G2|]. split; [|exact G4]. intros q x Hq Hx. by rewrite G3, names_one by assumption.
Qed.

Hypothesis Hrows : depth <= 44.

Lemma stored_row fs y o : stored depth fs y = Some o → row_ok o.
Proof.
  unfold stored. destruct (fs EXISTS_ROW y); [|done]. intros [= <-]. pose proof (value_of_bound fs y depth ltac:(destruct Hdep; lia)). assert (2 ^ depth <= 2 ^ 44) by (apply Z.pow_le_mono_r; lia). unfold row_ok. lia.
Qed.

Lemma both_old c values shadow_w fv fs hv hs G record : both c values shadow_w fv fs hv hs G → (hs < MAX_DEPTH)%nat →
  shadow_row (c_store c) m shadow_w (c_txn c) record = Ok (stored depth fs (local_of record)).
Proof.
  intros Hb Hh. destruct (both_shadow _ _ _ _ _ _ _ _ Hb) as (kv & vv & _ & Hs & _). pose proof Hdep as Hd. destruct m as [bb]. by apply (shadow_reads fd l c shadow_w fs hs (vv ++ G) bb record).
Qed.

Lemma mutex_put_ok cores c values shadow_w fv fs hv hs G n record r :
  both c values shadow_w fv fs hv hs G → row_ok r → r < 2 ^ depth → (hv + 10 < MAX_DEPTH)%nat → (hs < MAX_DEPTH)%nat →
  room c n → per_key * (depth + 3) + 3 <= n →
  (∃ values' shadow' c' hv' hs', mutex_put (c_store c) cores m values shadow_w (c_txn c) record r = Ok (values', shadow', c_txn c') ∧ evolves c c' G ∧
     both c' values' shadow' (moved fv (stored depth fs (local_of record)) r (local_of record)) (with_value (shadow m) fs (local_of record) r) hv' hs' G) ∨
  ((MAX_DEPTH < hs + (Z.to_nat depth + 1))%nat ∧ ∃ p, mutex_put (c_store c) cores m values shadow_w (c_txn c) record r = Err (FTree (BTooDeep p))).
Proof.
  intros Hb Hr Hfit Hhv Hhs Hrm Hn. set (y := local_of record) in *. unfold mutex_put. rewrite (both_old _ _ _ _ _ _ _ _ record Hb Hhs). fold y. cbn [mbind Res_bind].
  pose proof (stored_row fs y) as Ho. set (old := stored depth fs y) in *. pose proof Hdep as [Hd0 Hd1]. unfold per_key in Hn.
  destruct (leave_old cores c values shadow_w fv fs hv hs G n record r old Hb Ho ltac:(lia) Hrm ltac:(unfold per_key; lia)) as (v1 & c1 & h1 & E1 & He1 & Hb1 & Hh1 & Hr1). rewrite E1. cbn [mbind Res_bind].
  rewrite <- (ev_store _ _ _ He1).
  destruct (both_values c1 v1 shadow_w _ fs h1 hs G (n - (per_key + 1)) 1 (set_bits (c_store c1) cores v1 (c_txn c1) [(r, record)]) (moved fv old r y) Hb1) as (v2 & c2 & h2 & E2 & He2 & Hb2 & Hh2 & Hr2).
  { intros vs Hs. eapply leaves_mono; [| |apply (says_set fd l c1 v1 _ h1 (vs ++ G) _ Hs ltac:(lia) Hr1 cores [(r, record)]); [constructor; [exact Hr|constructor]|unfold per_key; cbn; lia]]; [done|].
    intros q x _ _. cbn beta. unfold moved. by rewrite names_one. }
  { lia. }
  rewrite E2. cbn [from_tree map_err mbind Res_bind]. rewrite <- (ev_store _ _ _ He2).
  assert (Hf : fits (shadow m) r = true) by (unfold fits; rewrite orb_true_iff, Z.ltb_lt, Z.shiftl_mul_pow2 by lia; right; lia).
  destruct (bits_for_ok (shadow m) Hdep record r Hf) as (set & clear & Ebits & _). unfold bsi_set. rewrite Ebits. cbn [mbind Res_bind].
  destruct (both_written c2 v2 shadow_w _ fs h2 hs G (n - (per_key + 1) - (per_key * Z.of_nat 1 + 1)) (Z.to_nat depth + 1) (write_bits (c_store c2) cores shadow_w (c_txn c2) set clear) (with_value (shadow m) fs y r) Hb2) as [(s3 & c3 & h3 & E3 & He3 & Hb3)|[Hdp (p & E3)]].
  { intros vv Hs. destruct (bsi_set_says fd l c2 shadow_w fs hs (vv ++ G) _ (shadow m) cores record r Hdep Hs Hhs Hr2 ltac:(unfold per_key; lia) Hf) as (rr & Er & Hlv).
    unfold bsi_set in Er. rewrite Ebits in Er. cbn [mbind Res_bind] in Er. assert (rr = write_bits (c_store c2) cores shadow_w (c_txn c2) set clear) as <-; [|exact Hlv].
    clear -Er. destruct rr, (write_bits _ _ _ _ _ _); cbn in Er; congruence. }
  - left. rewrite E3. cbn [from_tree map_err mbind Res_bind]. eexists _, _, c3, h2, h3. split; [reflexivity|]. split; [|exact Hb3].
    eapply evolves_trans; [|exact He3|done|done]. eapply evolves_trans; [exact He1|exact He2|done|done].
  - right. split; [exact Hdp|]. exists p. by rewrite E3.
Qed.

(** The values after [clear]. *)
Definition vacated (fv : Z → Z → bool) (old : option Z) (y q x : Z) : bool := fv q x && negb (match old with Some o => (o =? q) && (y =? x) | None => false end).

Lemma vacated_ok fv fs y : mutex_ok fv fs → mutex_ok (vacated fv (stored depth fs y) y) (without_value (shadow m) fs y).
Proof.
  intros Hm q x Hq Hx. rewrite stored_without by exact Hdep. unfold vacated. rewrite andb_true_iff, (Hm q x Hq Hx), negb_true_iff. destruct (Z.eqb_spec x y) as [->|Hne].
  - split; [|done]. intros [E H]. rewrite E, !Z.eqb_refl in H. discriminate H.
  - split; [tauto|]. intros E. split; [exact E|]. destruct (stored depth fs y); [|done]. destruct (Z.eqb_spec y x); [congruence|apply andb_false_r].
Qed.

Lemma mutex_clear_ok cores c values shadow_w fv fs hv hs G n record :
  both c values shadow_w fv fs hv hs G → (hv + 5 < MAX_DEPTH)%nat → (hs < MAX_DEPTH)%nat → room c n → per_key * (depth + 2) + 2 <= n →
  let old := stored depth fs (local_of record) in
  (∃ values' shadow' c' hv' hs' fs', mutex_clear (c_store c) cores m values shadow_w (c_txn c) record = Ok (old, values', shadow', c_txn c') ∧ evolves c c' G ∧
     both c' values' shadow' (vacated fv old (local_of record)) fs' hv' hs' G ∧ ∀ x, stored depth fs' x = stored depth (without_value (shadow m) fs (local_of record)) x) ∨
  ((MAX_DEPTH < hs + (Z.to_nat depth + 1))%nat ∧ ∃ p, mutex_clear (c_store c) cores m values shadow_w (c_txn c) record = Err (FTree (BTooDeep p))).
Proof.
  intros Hb Hhv Hhs Hrm Hn old. pose proof Hdep as [Hd0 Hd1]. unfold per_key in Hn. unfold mutex_clear. rewrite (both_old _ _ _ _ _ _ _ _ record Hb Hhs). fold old. cbn [mbind Res_bind]. destruct old as [o|] eqn:Eo.
  - destruct (both_values c values shadow_w fv fs hv hs G n 1 (clear_bits (c_store c) cores values (c_txn c) [(o, record)]) (vacated fv (Some o) (local_of record)) Hb) as (v1 & c1 & h1 & E1 & He1 & Hb1 & Hh1 & Hr1).
    { intros vs Hs. eapply leaves_mono; [| |apply (says_clear fd l c values fv hv (vs ++ G) n Hs ltac:(lia) Hrm cores [(o, record)]); [constructor; [by apply (stored_row fs (local_of record))|constructor]|unfold per_key; cbn; lia]]; [done|].
      intros q x _ _. cbn beta. unfold vacated. by rewrite names_one. }
    { lia. }
    rewrite E1. cbn [from_tree map_err mbind Res_bind]. rewrite <- (ev_store _ _ _ He1).
    destruct (both_written c1 v1 shadow_w _ fs h1 hs G (n - (per_key * Z.of_nat 1 + 1)) (Z.to_nat depth + 1) (clear_bits (c_store c1) cores shadow_w (c_txn c1) ((EXISTS_ROW, record) :: map (λ i, (plane_row i, record)) (planes_up (shadow m)))) (without_value (shadow m) fs (local_of record)) Hb1) as [(s2 & c2 & h2 & E2 & He2 & Hb2)|[Hdp (p & E2)]].
    { intros vv Hs. destruct (bsi_clear_says fd l c1 shadow_w fs hs (vv ++ G) _ (shadow m) cores record Hdep Hs Hhs Hr1 ltac:(unfold per_key; lia)) as (rr & Er & Hlv).
      unfold bsi_clear in Er. assert (rr = clear_bits (c_store c1) cores shadow_w (c_txn c1) ((EXISTS_ROW, record) :: map (λ i, (plane_row i, record)) (planes_up (shadow m)))) as <-; [|exact Hlv].
      clear -Er. destruct rr, (clear_bits _ _ _ _ _); cbn in Er; congruence. }
    + left. unfold bsi_clear. rewrite E2. cbn [from_tree map_err mbind Res_bind]. eexists _, _, c2, h1, h2, _. split; [reflexivity|]. split; [eapply evolves_trans; [exact He1|exact He2|done|done]|]. split; [exact Hb2|done].
    + right. split; [exact Hdp|]. exists p. unfold bsi_clear. by rewrite E2.
  - left. exists values, shadow_w, c, hv, hs, fs. split; [done|]. split; [apply evolves_refl|]. split.
    + destruct Hb as (kv & ks & vs & H1 & H2 & H3 & H4). exists kv, ks, vs. split; [exact H1|]. split; [exact H2|]. split; [|exact H4]. intros q x Hq Hx. unfold vacated. cbn. rewrite andb_true_r. by apply H3.
    + intros x. rewrite stored_without by exact Hdep. destruct (Z.eqb_spec x (local_of record)) as [->|]; [exact Eo|done].
Qed.
End mutex.
