(* ===== verification/EngineSpec.v ===== *)
(** What the bitmap engine promises to the query layer: a fragment as the set of facts its readers tell
    and its writers change, and the fields as values over it (the theorems on
    crates/big-engine/src/bitmap). *)
From S2P Require Import Prelude Bits Search Container SetOps Optimize Delta Page Sample Leaf Branch Chain Meta Freelist Snapshot Roots Pager Store Crash SampleStore Txn BTree BTreeWrite BTreeOwn BTreeBuild BTreeItem BTreeEdit BTreePut BTreeShow BTreeWalk BTreeSpec Coords RowSet OrdMap FragRead Bsi Group FragWrite FragStore Fields FieldSpec.

(** * Readers *)
Section reads.
Context {X : Extern} {P : Type} `{!Pager P}.
Implicit Types (f : FragmentRead P) (kcs : list (Z * Container)).

(** C16.  Reading a fragment.  Over a tree of containers, [row] is the set of the offsets whose bit is
    set, [row_count] its size, [get] one bit and [get_many] the same bit of many rows at once; [rows]
    lists the rows that have a bit, in order; and [row_counts_where] counts, for every row, the
    intersection with the filter it never builds, leaving out the rows that share nothing. *)
Theorem fragment_reads f kcs : shows (fr_pager f) (fr_root f) kcs →
  (∀ r, row_ok r → ∃ rs, row f r = Ok rs ∧ wf_rows rs ∧ (∀ x, in_rows rs x ↔ 0 <= x < 2 ^ 20 ∧ fact kcs r x = true) ∧ row_count f r = Ok (rs_cardinality rs)) ∧
  (∀ r record, row_ok r → fr_get f r record = Ok (fact kcs r (local_of record))) ∧
  (∀ rows record, Forall row_ok rows → ∃ out, get_many f rows record = Ok out ∧ om_ok out ∧
    ∀ r, om_get r out = if bool_decide (r ∈ rows) then Some (fact kcs r (local_of record)) else None) ∧
  (∃ out, fr_rows f = Ok out ∧ ascending out ∧ ∀ r, r ∈ out ↔ ∃ x, 0 <= x < 2 ^ 20 ∧ fact kcs r x = true) ∧
  (∀ filter, wf_rows filter → ∃ out, row_counts_where f filter = Ok out ∧ om_ok out ∧
    ∀ r rs, row_ok r → row f r = Ok rs → om_get r out = counted (rs_cardinality (rs_and rs filter))).
Proof.
  intros Hs%shows_facts. split; [apply facts_row|]. split; [apply facts_get|]. split; [apply facts_get_many|]. split; [apply facts_rows|apply facts_counts].
Qed.

(** A value of a field at an offset, of a fragment that holds [kcs]. *)
Definition value_at (b : Bsi) kcs (x : Z) : option Z := stored (bit_depth b) (fact kcs) x.

Lemma value_at_exists b kcs x v : value_at b kcs x = Some v ↔ fact kcs EXISTS_ROW x = true ∧ value_of (bit_depth b) (fact kcs) x = v.
Proof. unfold value_at, stored. destruct (fact kcs EXISTS_ROW x); [|by split; [|intros [? _]]]. split; [by intros [= <-]|by intros [_ <-]]. Qed.

(** C13.  Querying a bit-sliced field.  The value read for a record is the number its planes spell, if it
    has one; each comparison with a constant, fit or not for the depth, selects exactly the records whose
    value compares that way; and [between] those whose value lies in the interval, an empty one
    included. *)
Theorem bsi_queries f kcs b : shows (fr_pager f) (fr_root f) kcs → depth_ok b →
  (∀ record, bsi_get b f record = Ok (value_at b kcs (local_of record))) ∧
  (∀ op k, 0 <= k < 2 ^ 64 → ∃ rs, range b f op k = Ok rs ∧ wf_rows rs ∧
     ∀ x, in_rows rs x ↔ 0 <= x < 2 ^ 20 ∧ ∃ v, value_at b kcs x = Some v ∧ compares op v k) ∧
  (∀ lo hi, 0 <= lo < 2 ^ 64 → 0 <= hi < 2 ^ 64 → ∃ rs, between b f lo hi = Ok rs ∧ wf_rows rs ∧
     ∀ x, in_rows rs x ↔ 0 <= x < 2 ^ 20 ∧ ∃ v, value_at b kcs x = Some v ∧ lo <= v <= hi).
Proof.
  intros Hs%shows_facts Hd. setoid_rewrite value_at_exists. split; [intros record; by apply bsi_get_ok|]. split.
  - intros op k Hk. destruct (range_ok f (fact kcs) b Hd op k Hk) as (rs & E & W & Hin). exists rs. split; [exact E|]. split; [exact W|]. intros x. rewrite Hin. naive_solver.
  - intros lo hi Hl Hh. destruct (between_ok f (fact kcs) b Hd lo hi Hl Hh) as (rs & E & W & Hin). exists rs. split; [exact E|]. split; [exact W|]. intros x. rewrite Hin. naive_solver.
Qed.

Lemma total_values b kcs l : (∀ x, x ∈ l → fact kcs EXISTS_ROW x = true) → total (fact kcs) (bit_depth b) l = foldr (λ x n, default 0 (value_at b kcs x) + n) 0 l.
Proof.
  induction l as [|x l IH]; intros H; [done|]. cbn [total foldr]. fold (total (fact kcs) (bit_depth b) l). rewrite IH by (intros y Hy; apply H; by right).
  unfold value_at, stored. by rewrite (H x) by (by left).
Qed.

(** C14.  Aggregating a bit-sliced field.  Over the records that have a value and pass the filter, [count]
    is how many they are, [sum] the sum of their values, whatever the depth (64 planes of a full shard
    do not wrap), and [max] and [min] a value one of them has and none exceeds or falls below - nothing
    exactly when there is none. *)
Theorem bsi_aggregates f kcs b filter : shows (fr_pager f) (fr_root f) kcs → depth_ok b → filter_ok filter → sliced (fact kcs) b →
  ∃ xs, ascending xs ∧ (∀ x, x ∈ xs ↔ 0 <= x < 2 ^ 20 ∧ is_Some (value_at b kcs x) ∧ passes filter x) ∧
    bsi_count b f filter = Ok (Z.of_nat (length xs)) ∧
    sum b f filter = Ok (foldr (λ x n, default 0 (value_at b kcs x) + n) 0 xs) ∧
    (∃ r, bsi_max b f filter = Ok r ∧ match r with None => xs = [] | Some v => (∃ x, x ∈ xs ∧ value_at b kcs x = Some v) ∧ ∀ x u, x ∈ xs → value_at b kcs x = Some u → u <= v end) ∧
    (∃ r, bsi_min b f filter = Ok r ∧ match r with None => xs = [] | Some v => (∃ x, x ∈ xs ∧ value_at b kcs x = Some v) ∧ ∀ x u, x ∈ xs → value_at b kcs x = Some u → v <= u end).
Proof.
  intros Hs%shows_facts Hd Hf Hsl. destruct (exists_set f (fact kcs) b) as (ex & Eex & Hex). exists (subjects filter ex).
  assert (Hin : ∀ x, x ∈ subjects filter ex ↔ 0 <= x < 2 ^ 20 ∧ fact kcs EXISTS_ROW x = true ∧ passes filter x) by (intros x; by apply elem_subjects).
  assert (Hv : ∀ x, is_Some (value_at b kcs x) ↔ fact kcs EXISTS_ROW x = true).
  { intros x. split; [intros [v Hv%value_at_exists]; tauto|]. intros H. eexists. by apply value_at_exists. }
  split; [apply locals_ascending; apply (filtered_set filter ex _ Hf Hex)|]. split; [intros x; by rewrite Hv|]. split; [by eapply bsi_count_ok|]. split.
  - rewrite (sum_ok f (fact kcs) b Hd filter ex Hf Hsl Hex). f_equal. apply total_values. intros x Hx. by apply Hin.
  - assert (Hnil : (∀ x, 0 <= x < 2 ^ 20 → fact kcs EXISTS_ROW x = true → ¬ passes filter x) → subjects filter ex = []).
    { intros H. apply elem_of_nil_inv. intros x Hx%Hin. destruct Hx as (H1 & H2 & H3). by eapply H. }
    assert (Hb : ∀ want_max v, best_at (fact kcs) b (λ x, fact kcs EXISTS_ROW x = true ∧ passes filter x) want_max 0 v →
      (∃ x, x ∈ subjects filter ex ∧ value_at b kcs x = Some v) ∧ ∀ x u, x ∈ subjects filter ex → value_at b kcs x = Some u → better want_max u v).
    { intros wm v [(x & Hx & Hsub & Hxv) Hall]. rewrite Z.div_1_r in Hxv. split; [exists x; rewrite Hin, value_at_exists; tauto|].
      intros y u (Hy & Hy')%Hin [_ <-]%value_at_exists. specialize (Hall y Hy Hy'). by rewrite Z.div_1_r in Hall. }
    split; [destruct (extreme_ok f (fact kcs) b Hd filter true Hf) as (r & E & Hr)|destruct (extreme_ok f (fact kcs) b Hd filter false Hf) as (r & E & Hr)];
      exists r; (split; [exact E|]); (destruct r as [v|]; [by apply Hb in Hr|by apply Hnil]).
Qed.
End reads.

(** * Writers *)
Section writers.
Context {X : Extern} {L : ExternLaws X} {P : Type} `{!Pager P, !PagerMut P} (fd : Freelist) (l : Layout).
Implicit Types (c : Cfg P) (w : FragmentWrite) (kcs : list (Z * Container)).

Definition among (records : list Z) (x : Z) : bool := existsb (λ r, local_of r =? x) records.

Lemma names_at_zero records x : names (at_zero records) 0 x = among records x.
Proof. unfold names, among, at_zero. induction records as [|r records IH]; [done|]. cbn [map existsb fst snd]. by rewrite IH. Qed.

Lemma key_split q s : 0 <= s < 16 → (q * 16 + s) / 16 = q ∧ (q * 16 + s) mod 16 = s.
Proof. intros Hs. rewrite Z.add_comm, Z.div_add, Z.div_small, Z.mod_add, Z.mod_small by lia. by split. Qed.

Lemma slot_at x : 0 <= x < 2 ^ 20 → 0 <= x / 2 ^ 16 < 16.
Proof. intros Hx. split; [apply Z.div_pos; lia|apply Z.div_lt_upper_bound; lia]. Qed.

Lemma in_rows_get (set : RowSet) x : wf_rows set → in_rows set x ↔ match rs_get set (x / 2 ^ 16) with Some d => x mod 2 ^ 16 ∈ members d | None => False end.
Proof.
  intros W. unfold in_rows. pose proof (rs_get_spec set (x / 2 ^ 16) W) as H. destruct (rs_get set (x / 2 ^ 16)) as [d|]; [|split; [|done]; intros (c & Hc & _); by apply H in Hc].
  split; [|eauto]. intros (c & Hc & Hm). by rewrite (wf_rows_inj _ _ _ _ W H Hc).
Qed.

Lemma says_frag c w kcs h F : frag fd l c w kcs h F → says fd l c w (fact kcs) h F.
Proof. intros H. by exists kcs. Qed.

Section ops.
Context c w kcs h F n (Hf : frag fd l c w kcs h F) (Hd : (h < MAX_DEPTH)%nat) (Hr : room c n).

Lemma leaves_clear_records records : per_key * Z.of_nat (length kcs * length records) + 1 <= n →
  leaves fd l c (clear_records (c_store c) w (c_txn c) records) w h F n (length kcs * length records) (λ q x, fact kcs q x && negb (among records x)).
Proof.
  intros Hn. eapply writes_leaves; [exact (clear_records_ok fd l c w kcs h F n Hf Hd Hr records Hn)|]. intros q x Hq Hx. cbn beta.
  destruct (key_split q _ (slot_at x Hx)) as [_ ->]. change (x / 2 ^ 16) with (0 * 16 + x / 2 ^ 16) at 2.
  rewrite arrivals_names, names_at_zero by (try assumption; unfold row_ok; try lia; unfold at_zero; apply Forall_map, Forall_forall; cbn; lia).
  by rewrite andb_true_iff, negb_true_iff, <- not_true_iff_false, fact_mem by (by eapply frag_wf).
Qed.

Lemma leaves_write_row r (set : RowSet) : wf_rows set → row_ok r → per_key * 16 + 1 <= n →
  leaves fd l c (write_row (c_store c) w (c_txn c) r set) w h F n 16 (λ q x, if q =? r then rs_contains set x else fact kcs q x).
Proof.
  intros W Hrow Hn. eapply writes_leaves; [exact (write_row_ok fd l c w kcs h F n Hf Hd Hr r set W Hrow Hn)|]. intros q x Hq Hx. cbn beta.
  destruct (key_split q _ (slot_at x Hx)) as [-> ->]. destruct (q =? r); [|apply fact_mem; by eapply frag_wf].
  rewrite rs_contains_ok by exact W. rewrite local_of_mod, Z.mod_small by lia. by apply in_rows_get.
Qed.
End ops.

(** C11.  Writing a fragment.  [set_bits], [clear_bits] and both in one pass ([write_bits]: what is cleared
    stays cleared), [clear_records] over every row the fragment has, and [write_row] change exactly the
    facts they name and keep every page outside the fragment as it was - whatever containers had to be
    merged, emptied, re-encoded or split, and whether or not the batch was grouped by many threads. *)
Theorem fragment_writes c w kcs h F n cores set clear records r rows :
  frag fd l c w kcs h F → (h < MAX_DEPTH)%nat → room c n → Forall (λ e, row_ok (fst e)) set → Forall (λ e, row_ok (fst e)) clear → wf_rows rows → row_ok r →
  per_key * Z.of_nat (length set + length clear + length kcs * length records + 16) + 1 <= n →
  leaves fd l c (set_bits (c_store c) cores w (c_txn c) set) w h F n (length set) (λ q x, fact kcs q x || names set q x) ∧
  leaves fd l c (clear_bits (c_store c) cores w (c_txn c) clear) w h F n (length clear) (λ q x, fact kcs q x && negb (names clear q x)) ∧
  leaves fd l c (write_bits (c_store c) cores w (c_txn c) set clear) w h F n (length set + length clear) (λ q x, (fact kcs q x || names set q x) && negb (names clear q x)) ∧
  leaves fd l c (clear_records (c_store c) w (c_txn c) records) w h F n (length kcs * length records) (λ q x, fact kcs q x && negb (among records x)) ∧
  leaves fd l c (write_row (c_store c) w (c_txn c) r rows) w h F n 16 (λ q x, if q =? r then rs_contains rows x else fact kcs q x).
Proof.
  intros Hf Hd Hr HS HC HW Hrow Hn. pose proof (says_frag _ _ _ _ _ Hf) as Hs. unfold per_key in Hn.
  split; [apply says_set; try assumption; unfold per_key; lia|]. split; [apply says_clear; try assumption; unfold per_key; lia|].
  split; [apply says_write; try assumption; unfold per_key; lia|]. split; [apply leaves_clear_records; try assumption; unfold per_key; lia|].
  apply leaves_write_row; try assumption. unfold per_key. lia.
Qed.

(** The value a handle reads back in its own transaction. *)
Definition value_through (b : Bsi) c w (record : Z) : Res FieldError (option Z) :=
  match reader (c_store c) w (c_txn c) with Some r => bsi_get b r record | None => Ok None end.

Lemma value_through_ok b c w facts h F record : depth_ok b → says fd l c w facts h F → (h < MAX_DEPTH)%nat → value_through b c w record = Ok (stored (bit_depth b) facts (local_of record)).
Proof. intros Hd Hs Hh. exact (shadow_reads fd l c w facts h F b record Hd Hs Hh). Qed.

Lemma sliced_with b facts y value : depth_ok b → sliced facts b → sliced (with_value b facts y value) b.
Proof.
  intros [Hd _] Hsl i x Hi Hx. unfold with_value, EXISTS_ROW, plane_row. destruct (Z.leb_spec 0 0), (Z.leb_spec 0 (bit_depth b)), (Z.leb_spec 0 (1 + i)), (Z.leb_spec (1 + i) (bit_depth b)); try lia.
  destruct (x =? y); cbn [andb]; [done|]. by apply Hsl.
Qed.

Lemma sliced_without b facts y : depth_ok b → sliced facts b → sliced (without_value b facts y) b.
Proof.
  intros [Hd _] Hsl i x Hi Hx. unfold without_value, EXISTS_ROW, plane_row. destruct (Z.leb_spec 0 0), (Z.leb_spec 0 (bit_depth b)), (Z.leb_spec 0 (1 + i)), (Z.leb_spec (1 + i) (bit_depth b)); try lia.
  destruct (x =? y); cbn [andb]; [done|]. by apply Hsl.
Qed.

(** A write of a field over the fragment: it returns, and the handle then reads [value] at every record
    and stays sliced; or the tree got too deep. *)
Definition leaves_values (b : Bsi) c (r : Res FieldError (FragmentWrite * WriteTxn)) (h : nat) F (cost : nat) (value : Z → option Z) : Prop :=
  (∃ w' c' h' facts', r = Ok (w', c_txn c') ∧ evolves c c' F ∧ says fd l c' w' facts' h' F ∧ sliced facts' b ∧ (h' <= h + cost + 4)%nat ∧
     ((h' < MAX_DEPTH)%nat → ∀ record, value_through b c' w' record = Ok (value (local_of record)))) ∨
  ((MAX_DEPTH < h + cost)%nat ∧ ∃ p, r = Err (FTree (BTooDeep p))).

Lemma leaves_to_values b c r r' w h F n cost facts value : depth_ok b → r = from_tree r' → leaves fd l c r' w h F n cost facts → sliced facts b → (∀ x, stored (bit_depth b) facts x = value x) →
  leaves_values b c r h F cost value.
Proof.
  intros Hd -> [(w' & c' & h' & -> & He & Hs & Hh & _)|[Hdp (p & ->)]] Hsl Hv; [left|right; split; [exact Hdp|by exists p]]. exists w', c', h', facts. split; [done|]. split; [exact He|]. split; [exact Hs|].
  split; [exact Hsl|]. split; [exact Hh|]. intros Hlt record. rewrite (value_through_ok b c' w' facts h' F record Hd Hs Hlt). by rewrite Hv.
Qed.

(** C12.  A bit-sliced value reads back.  After [set] the record has the value written and every other
    record of the shard the one it had, whatever value was there before (the planes it does not need are
    cleared); after [clear] it has none; the planes stay within the records that have a value, which the
    sum relies on; and a value too wide for the depth is refused before anything is written.  A tree whose
    height and the planes written pass the depth limit of 32 together may be refused as too deep. *)
Theorem bsi_set_get b c w facts h F n cores record value :
  depth_ok b → says fd l c w facts h F → sliced facts b → (h < MAX_DEPTH)%nat → room c n → per_key * (bit_depth b + 1) + 1 <= n → 0 <= value < 2 ^ 64 →
  (if value <? 2 ^ bit_depth b
   then leaves_values b c (bsi_set (c_store c) cores b w (c_txn c) record value) h F (Z.to_nat (bit_depth b) + 1) (λ x, if x =? local_of record then Some value else stored (bit_depth b) facts x)
   else bsi_set (c_store c) cores b w (c_txn c) record value = Err (FValueTooWide value (bit_depth b))) ∧
  leaves_values b c (bsi_clear (c_store c) cores b w (c_txn c) record) h F (Z.to_nat (bit_depth b) + 1) (λ x, if x =? local_of record then None else stored (bit_depth b) facts x).
Proof.
  intros Hd Hs Hsl Hh Hr Hn Hv. pose proof (fits_spec b value Hd Hv) as Hfit. split.
  - destruct (Z.ltb_spec value (2 ^ bit_depth b)) as [Hlt|Hge].
    + destruct (bsi_set_says fd l c w facts h F n b cores record value Hd Hs Hh Hr Hn ltac:(by apply Hfit)) as (r & E & Hl).
      eapply leaves_to_values; [exact Hd|exact E|exact Hl|by apply sliced_with|]. intros x. by rewrite stored_with by (try exact Hd; lia).
    + unfold bsi_set, bits_for. destruct (fits b value); [|done]. destruct Hfit as [Hfit _]. specialize (Hfit eq_refl). lia.
  - destruct (bsi_clear_says fd l c w facts h F n b cores record Hd Hs Hh Hr Hn) as (r & E & Hl).
    eapply leaves_to_values; [exact Hd|exact E|exact Hl|by apply sliced_without|]. intros x. by rewrite stored_without by exact Hd.
Qed.

(** C15.  A mutex field keeps one row per record.  When the values hold, of every record, exactly the row
    the shadow names, so they do after [put] and after [clear]: the record's old row is left before the
    new one is entered, no other record moves, the shadow names the new row or none, and [clear] answers
    the row the record had. *)
Theorem mutex_keeps_one m cores c values shadow_w fv fs hv hs G n record r :
  depth_ok (shadow m) → bit_depth (shadow m) <= 44 → both fd l c values shadow_w fv fs hv hs G → mutex_ok m fv fs → row_ok r → r < 2 ^ bit_depth (shadow m) →
  (hv + 10 < MAX_DEPTH)%nat → (hs < MAX_DEPTH)%nat → room c n → per_key * (bit_depth (shadow m) + 3) + 3 <= n →
  let row_at f := stored (bit_depth (shadow m)) f in
  let too_deep (e : FieldError) := (MAX_DEPTH < hs + (Z.to_nat (bit_depth (shadow m)) + 1))%nat ∧ ∃ p, e = FTree (BTooDeep p) in
  match mutex_put (c_store c) cores m values shadow_w (c_txn c) record r with
  | Ok (values', shadow', t') => ∃ c' fv' fs' hv' hs', t' = c_txn c' ∧ evolves c c' G ∧ both fd l c' values' shadow' fv' fs' hv' hs' G ∧ mutex_ok m fv' fs' ∧
      ∀ x, row_at fs' x = if x =? local_of record then Some r else row_at fs x
  | Err e => too_deep e
  | Panic => False
  end ∧
  match mutex_clear (c_store c) cores m values shadow_w (c_txn c) record with
  | Ok (old, values', shadow', t') => old = row_at fs (local_of record) ∧ ∃ c' fv' fs' hv' hs', t' = c_txn c' ∧ evolves c c' G ∧ both fd l c' values' shadow' fv' fs' hv' hs' G ∧ mutex_ok m fv' fs' ∧
      ∀ x, row_at fs' x = if x =? local_of record then None else row_at fs x
  | Err e => too_deep e
  | Panic => False
  end.
Proof.
  intros Hd H44 Hb Hm Hr Hfit Hhv Hhs Hrm Hn row_at too_deep. unfold row_at, too_deep. pose proof Hd as [Hd0 _]. pose proof (local_bound record) as Hy. unfold per_key in Hn. split.
  - destruct (mutex_put_ok fd l m Hd H44 cores c values shadow_w fv fs hv hs G n record r Hb Hr Hfit Hhv Hhs Hrm ltac:(unfold per_key; lia)) as [(v' & s' & c' & hv' & hs' & E & He & Hb')|(Hdp & p & E)]; rewrite E.
    + eexists c', _, _, hv', hs'. split; [done|]. split; [exact He|]. split; [exact Hb'|]. split; [by apply moved_ok|]. intros x. rewrite stored_with by (try exact Hd; unfold row_ok in Hr; lia). done.
    + split; [exact Hdp|by exists p].
  - destruct (mutex_clear_ok fd l m Hd H44 cores c values shadow_w fv fs hv hs G n record Hb ltac:(lia) Hhs Hrm ltac:(unfold per_key; lia)) as [(v' & s' & c' & hv' & hs' & fs' & E & He & Hb' & Hst)|(Hdp & p & E)]; rewrite E.
    + split; [done|]. eexists c', _, fs', hv', hs'. split; [done|]. split; [exact He|]. split; [exact Hb'|]. split.
      * intros q x Hq Hx. rewrite Hst. by apply (vacated_ok m Hd fv fs (local_of record) Hm).
      * intros x. rewrite Hst, stored_without by exact Hd. done.
    + split; [exact Hdp|by exists p].
Qed.
End writers.

(** * The other fields *)
Section others.
Context {X : Extern} {P : Type} `{!Pager P} (f : FragmentRead P) (facts : Z → Z → bool) `{HF : !Facts f facts} (Hrows : ∀ r x, 0 <= x < 2 ^ 20 → facts r x = true → row_ok r).

Definition rows_with (record : Z) (rows : list Z) : list Z := List.filter (λ r, facts r (local_of record)) rows.

Lemma rows_holding_ok record rows : Forall row_ok rows → rows_holding f record rows = Ok (rows_with record rows).
Proof.
  induction 1 as [|r rows Hr _ IH]; [done|]. cbn [rows_holding]. rewrite (facts_get r record Hr). cbn [from_tree map_err mbind Res_bind]. rewrite IH. cbn [mbind Res_bind]. unfold rows_with. cbn [List.filter].
  by destruct (facts r (local_of record)).
Qed.

Lemma held_rows record : ∃ rows, fr_rows f = Ok rows ∧ Forall row_ok rows ∧ ascending (rows_with record rows) ∧ ∀ r, r ∈ rows_with record rows ↔ facts r (local_of record) = true.
Proof.
  destruct facts_rows as (rows & E & Ha & Hin). exists rows. split; [exact E|]. split; [apply Forall_forall; intros r (x & Hx0 & Hx)%Hin; by eapply Hrows|]. split; [by apply ascending_filter|].
  intros r. unfold rows_with. rewrite list_elem_of_In, filter_In, <- list_elem_of_In, Hin. split; [tauto|]. intros H. split; [|exact H]. exists (local_of record). split; [apply local_bound|exact H].
Qed.

(** The rows of a record, in order. *)
Lemma rows_of_ok record : ∃ out, rows_of f record = Ok out ∧ ascending out ∧ ∀ r, r ∈ out ↔ facts r (local_of record) = true.
Proof.
  destruct (held_rows record) as (rows & E & HR & Ha & Hin). exists (rows_with record rows). split; [|by split]. unfold rows_of. rewrite E. cbn [from_tree map_err mbind Res_bind]. by apply rows_holding_ok.
Qed.

Lemma verify_loop_ok record rows : Forall row_ok rows → ∀ actual,
  verify_loop f record rows actual = match option_list actual ++ rows_with record rows with [] => Ok None | [r] => Ok (Some r) | _ => Err (FMutexConflict record) end.
Proof.
  induction 1 as [|r rows Hr _ IH]; intros actual; [by destruct actual|]. cbn [verify_loop]. rewrite (facts_get r record Hr). cbn [from_tree map_err mbind Res_bind]. unfold rows_with. cbn [List.filter].
  destruct (facts r (local_of record)); [|apply IH]. destruct actual; cbn [option_list app]; [done|]. by rewrite IH.
Qed.
End others.

(** Verifying a mutex field.  [verify] accepts a record exactly when the rows that hold it are the
    one row the shadow names, or none when it names none; anything else - a second row, a missing one, a
    stale shadow - is the conflict of that record. *)
Theorem mutex_verify_exact {X : Extern} {P Q : Type} `{!Pager P, !Pager Q} m (values : FragmentRead P) (shadow_read : FragmentRead Q) kv ks record :
  shows (fr_pager values) (fr_root values) kv → shows (fr_pager shadow_read) (fr_root shadow_read) ks → depth_ok (shadow m) → (∀ r x, 0 <= x < 2 ^ 20 → fact kv r x = true → row_ok r) →
  (mutex_verify m values shadow_read record = Ok tt ↔ ∀ r, fact kv r (local_of record) = true ↔ value_at (shadow m) ks (local_of record) = Some r) ∧
  (mutex_verify m values shadow_read record ≠ Ok tt → mutex_verify m values shadow_read record = Err (FMutexConflict record)).
Proof.
  intros Hv%shows_facts Hs%shows_facts Hd Hrow. unfold mutex_verify. rewrite (bsi_get_ok shadow_read (fact ks) (shadow m) Hd record). fold (value_at (shadow m) ks (local_of record)). cbn [mbind Res_bind].
  destruct (held_rows values (fact kv) Hrow record) as (rows & E & HR & Ha & Hin). rewrite E. cbn [from_tree map_err mbind Res_bind]. rewrite (verify_loop_ok values (fact kv) record rows HR). change (option_list None ++ rows_with (fact kv) record rows) with (rows_with (fact kv) record rows).
  setoid_rewrite <- Hin. generalize (value_at (shadow m) ks (local_of record)). intros claimed. destruct (rows_with (fact kv) record rows) as [|r1 [|r2 held]]; cbn [mbind Res_bind].
    - case_bool_decide as Hc; (split; [|done]).
    + subst claimed. split; [intros _ r; split; [intros H; by apply not_elem_of_nil in H|done]|done].
    + split; [done|]. intros H. destruct claimed as [q|]; [|done]. destruct (H q) as [_ Hq]. specialize (Hq eq_refl). by apply not_elem_of_nil in Hq.
  - case_bool_decide as Hc; (split; [|done]).
    + subst claimed. split; [intros _ r; rewrite list_elem_of_singleton; split; [by intros ->|by intros [= ->]]|done].
    + split; [done|]. intros H. destruct Hc. symmetry. apply H. by left.
  - split; [|done]. split; [done|]. intros H. assert (H1 : claimed = Some r1) by (apply H; by left). assert (H2 : claimed = Some r2) by (apply H; right; by left).
    apply StronglySorted_inv in Ha as [_ Hlt]. rewrite Forall_forall in Hlt. specialize (Hlt r2 ltac:(by left)). assert (r1 = r2) by congruence. lia.
Qed.

Section bools.
Context {X : Extern} {L : ExternLaws X} {P : Type} `{!Pager P, !PagerMut P} (fd : Freelist) (l : Layout).
Implicit Types (c : Cfg P) (w : FragmentWrite).

(** A bool field reads back the value written, and keeps the other records. *)
Theorem bool_set_get c w facts h F n cores record value : says fd l c w facts h F → (h + 10 < MAX_DEPTH)%nat → room c n → per_key * 2 + 2 <= n →
  ∃ w' c' r, bool_set (c_store c) cores w (c_txn c) record value = Ok (w', c_txn c') ∧ evolves c c' F ∧ reader (c_store c') w' (c_txn c') = Some r ∧
    bool_get r record = Ok (Some value) ∧
    ∀ other, local_of other ≠ local_of record → bool_get r other = Ok (if facts TRUE_ROW (local_of other) then Some true else if facts FALSE_ROW (local_of other) then Some false else None).
Proof.
  intros Hs Hh Hr Hn. pose proof (local_bound record) as Hy. unfold per_key in Hn. assert (Hok : ∀ v, row_ok (bool_row_of v)) by (intros []; unfold row_ok, bool_row_of, TRUE_ROW, FALSE_ROW; lia).
  assert (Hne : ∀ v, (bool_row_of (negb v) =? bool_row_of v) = false) by (by intros []).
  unfold bool_set. destruct (says_clear fd l c w facts h F n Hs ltac:(lia) Hr cores [(bool_row_of (negb value), record)]) as [(w1 & c1 & h1 & E1 & He1 & Hs1 & Hh1 & Hr1 & _)|[Hdp _]];
    [constructor; [apply Hok|constructor]|unfold per_key; cbn; lia| |cbn in Hdp; lia].
  rewrite E1. cbn [from_tree map_err mbind Res_bind]. rewrite <- (ev_store _ _ _ He1). cbn [length] in Hh1.
  destruct (says_set fd l c1 w1 _ h1 F _ Hs1 ltac:(lia) Hr1 cores [(bool_row_of value, record)]) as [(w2 & c2 & h2 & E2 & He2 & Hs2 & Hh2 & _)|[Hdp _]];
    [constructor; [apply Hok|constructor]|unfold per_key; cbn; lia| |cbn in Hdp; lia].
  rewrite E2. cbn [length] in Hh2.
  assert (Hbit : ∀ v x, 0 <= x < 2 ^ 20 → (facts (bool_row_of v) x && negb (names [(bool_row_of (negb value), record)] (bool_row_of v) x) || names [(bool_row_of value, record)] (bool_row_of v) x)
    = if x =? local_of record then eqb v value else facts (bool_row_of v) x).
  { intros v x _. rewrite !names_one, (Z.eqb_sym (local_of record) x). destruct (x =? local_of record); [|by rewrite !andb_false_r, orb_false_r, andb_true_r]. rewrite !andb_true_r.
    destruct v, value; cbn; rewrite ?andb_false_r, ?orb_true_r; done. }
  assert (Hroot : ∃ root, fw_root w2 = Some root).
  { destruct (fw_root w2) as [root|] eqn:Er; [by exists root|]. pose proof (says_none fd l c2 w2 _ h2 F Hs2 Er _ _ (Hok value) Hy) as Hno. cbn beta in Hno.
    rewrite (Hbit value _ Hy), Z.eqb_refl in Hno. by rewrite eqb_reflx in Hno. }
  destruct Hroot as (root & Er). destruct (says_reader fd l c2 w2 _ h2 F Hs2 ltac:(lia) root Er) as (kcs & HFacts & Hfact).
  eexists w2, c2, _. split; [done|]. split; [eapply evolves_trans; [exact He1|exact He2|done|done]|]. split; [unfold reader; rewrite Er; reflexivity|].
  assert (Hget : ∀ v rec, fr_get (mkFragmentRead (mkView (c_store c2) (c_txn c2)) root (fw_shard w2)) (bool_row_of v) rec = Ok (if local_of rec =? local_of record then eqb v value else facts (bool_row_of v) (local_of rec))).
  { intros v rec. rewrite (facts_get (bool_row_of v) rec (Hok v)). rewrite Hfact by (try apply local_bound; apply Hok). cbn beta. by rewrite Hbit by apply local_bound. }
  split.
  - unfold bool_get. change TRUE_ROW with (bool_row_of true). change FALSE_ROW with (bool_row_of false). rewrite !Hget, Z.eqb_refl. by destruct value.
  - intros other Ho. unfold bool_get. change TRUE_ROW with (bool_row_of true). change FALSE_ROW with (bool_row_of false). rewrite !Hget. destruct (Z.eqb_spec (local_of other) (local_of record)); [done|].
    cbn [from_tree map_err mbind Res_bind]. destruct (facts (bool_row_of true) (local_of other)); [done|]. cbn. by destruct (facts (bool_row_of false) (local_of other)).
Qed.
End bools.

(** * A small fragment *)
Section examples.
#[local] Existing Instance sample.

(** Two records: offset 5 has the value 2, offset 9 the value 1. *)
Definition sample_planes : list (Z * Container) := [(0, Array [5; 9]); (16, Array [9]); (32, Array [5])].
Definition sample_bsi : Bsi := mkBsi 2.

Lemma sample_planes_ok : Forall entry_ok sample_planes ∧ entries_in_order sample_planes.
Proof.
  split; [|repeat constructor]. repeat (apply Forall_cons; split; [split; [apply array_wf; repeat constructor; unfold u16; lia|cbn; lia]|]).
  apply Forall_nil. exact I.
Qed.

Lemma sample_fragment : ∃ (c : Cfg Disk) h root, frag [] empty_layout c (mkFragmentWrite (Some root) 0) sample_planes h [] ∧ (h <= 4)%nat ∧ room c 3000000.
Proof.
  destruct first_txn as (s & _ & Hinv & Hr). destruct sample_planes_ok as [Hok Ho].
  destruct (put_containers_new [] empty_layout (mkCfg s (begin_write s) [] []) sample_planes 4000000 Hinv Hok Ho (Hr 4000000 ltac:(lia)) ltac:(cbn; lia))
    as (root & c & h & items & _ & _ & Hht & Hh & Hd & Hr'). exists c, h, root. split; [by exists items|]. split; [exact Hd|]. eapply room_sub; [exact Hr'|cbn; lia].
Qed.

Lemma sample_shows : ∃ (v : TxnView Disk) root, shows v root sample_planes.
Proof. destruct sample_fragment as (c & h & root & Hf & Hh & _). exists (view c), root. eapply frag_shows; [exact Hf|unfold MAX_DEPTH; lia|done]. Qed.

Lemma sample_depth : depth_ok sample_bsi.
Proof. unfold depth_ok. cbn. lia. Qed.

Lemma sample_wf : Forall (λ e, wf (snd e)) sample_planes.
Proof. destruct sample_planes_ok as [H _]. eapply Forall_impl; [exact H|]. by intros e [He _]. Qed.

Lemma sample_sliced : sliced (fact sample_planes) sample_bsi.
Proof.
  intros i x Hi Hx. rewrite !fact_mem by exact sample_wf. pose proof (slot_at x Hx) as Hs. unfold sample_bsi, bit_depth in Hi. unfold mem, om_get, EXISTS_ROW, plane_row, sample_planes. cbn [List.find fst snd].
  destruct (Z.eqb_spec 0 ((1 + i) * 16 + x / 2 ^ 16)); [lia|]. destruct (Z.eqb_spec 0 (0 * 16 + x / 2 ^ 16)).
  - destruct (Z.eqb_spec 16 ((1 + i) * 16 + x / 2 ^ 16)); [|destruct (Z.eqb_spec 32 ((1 + i) * 16 + x / 2 ^ 16)); [|done]]; cbn [members snd]; set_solver.
  - destruct (Z.eqb_spec 16 ((1 + i) * 16 + x / 2 ^ 16)); [lia|]. by destruct (Z.eqb_spec 32 ((1 + i) * 16 + x / 2 ^ 16)); [lia|].
Qed.

Lemma fragment_reads_witness :
  ∃ (f : FragmentRead (TxnView Disk)), shows (fr_pager f) (fr_root f) sample_planes ∧ fr_get f 2 5 = Ok true ∧ fr_get f 2 9 = Ok false.
Proof.
  destruct sample_shows as (v & root & Hs). exists (mkFragmentRead v root 0). split; [exact Hs|].
  destruct (fragment_reads (mkFragmentRead v root 0) sample_planes Hs) as (_ & H & _).
  split; [rewrite (H 2 5)|rewrite (H 2 9)]; try (unfold row_ok; lia); vm_compute; reflexivity.
Defined.

Lemma bsi_queries_witness :
  ∃ (f : FragmentRead (TxnView Disk)), shows (fr_pager f) (fr_root f) sample_planes ∧ bsi_get sample_bsi f 5 = Ok (Some 2) ∧ bsi_get sample_bsi f 6 = Ok None ∧
    ∃ rs, range sample_bsi f RGe 2 = Ok rs ∧ in_rows rs 5.
Proof.
  destruct sample_shows as (v & root & Hs). exists (mkFragmentRead v root 0). split; [exact Hs|].
  destruct (bsi_queries (mkFragmentRead v root 0) sample_planes sample_bsi Hs sample_depth) as (H & Hr & _).
  split; [rewrite (H 5); vm_compute; reflexivity|]. split; [rewrite (H 6); vm_compute; reflexivity|].
  destruct (Hr RGe 2 ltac:(lia)) as (rs & E & _ & Hin). exists rs. split; [exact E|]. apply Hin. split; [lia|]. exists 2. split; [vm_compute; reflexivity|]. cbn. lia.
Defined.

Lemma bsi_aggregates_witness :
  ∃ (f : FragmentRead (TxnView Disk)) n, shows (fr_pager f) (fr_root f) sample_planes ∧ bsi_count sample_bsi f None = Ok n ∧ ∃ v, bsi_max sample_bsi f None = Ok (Some v) ∧ 2 <= v.
Proof.
  destruct sample_shows as (v & root & Hs). exists (mkFragmentRead v root 0).
  destruct (bsi_aggregates (mkFragmentRead v root 0) sample_planes sample_bsi None Hs sample_depth I sample_sliced) as (xs & _ & Hin & Hc & _ & (r & Er & Hr) & _).
  exists (Z.of_nat (length xs)). split; [exact Hs|]. split; [exact Hc|].
  assert (H5 : 5 ∈ xs) by (apply Hin; split; [lia|]; split; [exists 2; vm_compute; reflexivity|exact I]).
  destruct r as [u|]; [|subst xs; by apply not_elem_of_nil in H5]. exists u. split; [exact Er|]. destruct Hr as [_ Hr]. apply (Hr 5 2 H5). vm_compute. reflexivity.
Defined.

Lemma fragment_writes_witness :
  ∃ (c c' : Cfg Disk) w w' h', set_bits (c_store c) 1 w (c_txn c) [(2, 9)] = Ok (w', c_txn c') ∧ says [] empty_layout c' w' (λ q x, fact sample_planes q x || names [(2, 9)] q x) h' [].
Proof.
  destruct sample_fragment as (c & h & root & Hf & Hh & Hr). destruct sample_rows as [W _].
  destruct (fragment_writes [] empty_layout c _ sample_planes h [] _ 1 [(2, 9)] [(1, 9)] [5] 1 [(0, Array [5; 9])] Hf ltac:(unfold MAX_DEPTH; lia) Hr) as (H & _).
  - constructor; [unfold row_ok; cbn [fst]; lia|constructor].
  - constructor; [unfold row_ok; cbn [fst]; lia|constructor].
  - exact W.
  - unfold row_ok. lia.
  - unfold per_key. cbn. lia.
  - destruct H as [(w' & c' & h' & E & _ & Hs & _)|[Hdp _]]; [|unfold MAX_DEPTH in Hdp; cbn in Hdp; lia]. exists c, c', (mkFragmentWrite (Some root) 0), w', h'. split; [exact E|exact Hs].
Defined.

Lemma bsi_set_get_witness :
  ∃ (c c' : Cfg Disk) w w', bsi_set (c_store c) 1 sample_bsi w (c_txn c) 9 3 = Ok (w', c_txn c') ∧
    value_through sample_bsi c' w' 9 = Ok (Some 3) ∧ value_through sample_bsi c' w' 5 = Ok (Some 2) ∧
    bsi_set (c_store c) 1 sample_bsi w (c_txn c) 9 4 = Err (FValueTooWide 4 2).
Proof.
  destruct sample_fragment as (c & h & root & Hf & Hh & Hr). apply says_frag in Hf.
  destruct (bsi_set_get [] empty_layout sample_bsi c _ _ h [] _ 1 9 3 sample_depth Hf sample_sliced ltac:(unfold MAX_DEPTH; lia) Hr ltac:(unfold per_key; cbn; lia) ltac:(lia)) as [H _].
  destruct (bsi_set_get [] empty_layout sample_bsi c _ _ h [] _ 1 9 4 sample_depth Hf sample_sliced ltac:(unfold MAX_DEPTH; lia) Hr ltac:(unfold per_key; cbn; lia) ltac:(lia)) as [H4 _].
  change (3 <? 2 ^ bit_depth sample_bsi) with true in H. change (4 <? 2 ^ bit_depth sample_bsi) with false in H4. cbn iota in H, H4.
  destruct H as [(w' & c' & h' & facts & E & _ & _ & _ & Hh' & Hv)|[Hdp _]]; [|unfold MAX_DEPTH in Hdp; cbn in Hdp; lia].
  assert (Hlt : (h' < MAX_DEPTH)%nat) by (unfold MAX_DEPTH; cbn in Hh'; lia). exists c, c', (mkFragmentWrite (Some root) 0), w'. split; [exact E|].
  split; [rewrite (Hv Hlt 9); vm_compute; reflexivity|]. split; [rewrite (Hv Hlt 5); vm_compute; reflexivity|exact H4].
Defined.

Lemma nothing_yet : ∃ c : Cfg Disk, both [] empty_layout c (mkFragmentWrite None 0) (mkFragmentWrite None 0) (λ _ _, false) (λ _ _, false) 0 0 [] ∧ room c 3000000.
Proof.
  destruct first_txn as (s & _ & Hinv & Hr). exists (mkCfg s (begin_write s) [] []). split; [|apply Hr; lia]. exists [], [], []. split.
  - exists []. split; [|constructor]. split; [exact Hinv|]. by repeat split.
  - split; [|by split]. exists []. split; [by repeat split|constructor].
Qed.

Lemma mutex_keeps_one_witness :
  ∃ (c : Cfg Disk) values' shadow' t', let m := mkMutexField (mkBsi 4) in
    mutex_put (c_store c) 1 m (mkFragmentWrite None 0) (mkFragmentWrite None 0) (c_txn c) 7 3 = Ok (values', shadow', t') ∧
    ∃ c' fv' fs' hv' hs', t' = c_txn c' ∧ both [] empty_layout c' values' shadow' fv' fs' hv' hs' [] ∧ mutex_ok m fv' fs' ∧ stored 4 fs' 7 = Some 3.
Proof.
  destruct nothing_yet as (c & Hb & Hr).
  destruct (mutex_keeps_one [] empty_layout (mkMutexField (mkBsi 4)) 1 c (mkFragmentWrite None 0) (mkFragmentWrite None 0) (λ _ _, false) (λ _ _, false) 0 0 [] 3000000 7 3) as [H _].
  - unfold depth_ok. cbn. lia.
  - cbn. lia.
  - exact Hb.
  - intros q x _ _. by split.
  - unfold row_ok. lia.
  - cbn. lia.
  - unfold MAX_DEPTH. lia.
  - unfold MAX_DEPTH. lia.
  - exact Hr.
  - unfold per_key. cbn. lia.
  - destruct (mutex_put _ _ _ _ _ _ _ _) as [[[v' s'] t']|e|] eqn:E; [|destruct H as [H _]; unfold MAX_DEPTH in H; cbn in H; lia|destruct H].
    exists c, v', s', t'. split; [exact E|]. destruct H as (c' & fv' & fs' & hv' & hs' & -> & _ & Hb' & Hm & Hst). exists c', fv', fs', hv', hs'.
    split; [reflexivity|]. split; [exact Hb'|]. split; [exact Hm|]. exact (Hst 7).
Defined.

Lemma sample_row_ok r x : 0 <= x < 2 ^ 20 → fact sample_planes r x = true → row_ok r.
Proof.
  intros Hx. rewrite fact_mem by exact sample_wf. pose proof (slot_at x Hx) as Hs. unfold mem, om_get, row_ok, sample_planes. cbn [List.find fst snd].
  destruct (Z.eqb_spec 0 (r * 16 + x / 2 ^ 16)); [lia|]. destruct (Z.eqb_spec 16 (r * 16 + x / 2 ^ 16)); [lia|]. destruct (Z.eqb_spec 32 (r * 16 + x / 2 ^ 16)); [lia|done].
Qed.

Lemma mutex_verify_exact_witness :
  ∃ (f : FragmentRead (TxnView Disk)), shows (fr_pager f) (fr_root f) sample_planes ∧
    mutex_verify (mkMutexField sample_bsi) f f 9 = Err (FMutexConflict 9).
Proof.
  destruct sample_shows as (v & root & Hs). exists (mkFragmentRead v root 0). split; [exact Hs|].
  destruct (mutex_verify_exact (mkMutexField sample_bsi) (mkFragmentRead v root 0) (mkFragmentRead v root 0) sample_planes sample_planes 9 Hs Hs sample_depth sample_row_ok) as [H Herr].
  apply Herr. intros Hok. assert (H0 : fact sample_planes 0 (local_of 9) = true ↔ value_at sample_bsi sample_planes (local_of 9) = Some 0) by (apply H; exact Hok).
  assert (E : value_at sample_bsi sample_planes (local_of 9) = Some 1) by (vm_compute; reflexivity). rewrite E in H0. destruct H0 as [H0 _]. specialize (H0 ltac:(vm_compute; reflexivity)). discriminate H0.
Defined.
End examples.
