(* ===== verification/Calendar.v ===== *)
(** The civil calendar and time views (crates/big-civil/src/lib.rs;
    crates/big-engine/src/bitmap/field/quantum.rs).

    An [i64] is a [Z] with the wrap-around of a release build written where a sum can leave the range;
    text is the list of its bytes. *)
From Stdlib Require Import Ascii String.
From S2P Require Import Prelude.

(** * The calendar (lib.rs) *)
Definition i64 (v : Z) : Z := (v + 2 ^ 63) mod 2 ^ 64 - 2 ^ 63.
Definition SECONDS_PER_DAY : Z := 86400.

Record Civil := mkCivil { c_year : Z; c_month : Z; c_day : Z; c_hour : Z; c_minute : Z; c_second : Z }.

(** Division of an [i64] rounds towards zero ([Z.quot]); the unsigned ones are of values that are not
    negative. *)
Definition civil_from_days (z : Z) : Z * Z * Z :=
  let z := i64 (z + 719468) in
  let era := Z.quot (if 0 <=? z then z else i64 (z - 146096)) 146097 in
  let doe := i64 (z - i64 (era * 146097)) mod 2 ^ 64 in
  let yoe := (doe - doe / 1460 + doe / 36524 - doe / 146096) / 365 in
  let y := i64 (yoe + i64 (era * 400)) in
  let doy := doe - (365 * yoe + yoe / 4 - yoe / 100) in
  let mp := (5 * doy + 2) / 153 in
  let d := (doy - (153 * mp + 2) / 5 + 1) mod 2 ^ 32 in
  let m := (if mp <? 10 then mp + 3 else mp - 9) mod 2 ^ 32 in
  (if m <=? 2 then i64 (y + 1) else y, m, d).

Definition days_from_civil (y m d : Z) : Z :=
  let y := if m <=? 2 then i64 (y - 1) else y in
  let era := Z.quot (if 0 <=? y then y else i64 (y - 399)) 400 in
  let yoe := i64 (y - i64 (era * 400)) mod 2 ^ 64 in
  let mp := if 2 <? m then m - 3 else m + 9 in
  let doy := ((153 * mp + 2) / 5 + d - 1) mod 2 ^ 64 in
  let doe := (yoe * 365 + yoe / 4 - yoe / 100 + doy) mod 2 ^ 64 in
  i64 (i64 (i64 (era * 146097) + i64 doe) - 719468).

Definition decompose (unix_seconds : Z) : Civil :=
  let days := unix_seconds / SECONDS_PER_DAY in
  let secs := unix_seconds mod SECONDS_PER_DAY in
  let '(year, month, day) := civil_from_days days in
  mkCivil year month day (secs / 3600) (secs / 60 mod 60) (secs mod 60).

Definition is_leap_year (y : Z) : bool := (Z.rem y 4 =? 0) && negb (Z.rem y 100 =? 0) || (Z.rem y 400 =? 0).

Definition days_in_month (y m : Z) : Z :=
  if existsb (Z.eqb m) [1; 3; 5; 7; 8; 10; 12] then 31
  else if existsb (Z.eqb m) [4; 6; 9; 11] then 30
  else if m =? 2 then (if is_leap_year y then 29 else 28)
  else 0.

(** ** Rounding *)
Inductive Unit := UYear | UQuarter | UMonth | UWeek | UDay | UHour | UMinute | USecond.
#[export] Instance unit_eq_dec : EqDecision Unit.
Proof. solve_decision. Defined.

Definition is_whole_days (u : Unit) : bool := match u with UYear | UQuarter | UMonth | UWeek | UDay => true | _ => false end.

Definition truncate_days (days : Z) (u : Unit) : Z :=
  let '(y, m, _) := civil_from_days days in
  match u with
  | UYear => days_from_civil y 1 1
  | UQuarter => days_from_civil y ((m - 1) / 3 * 3 + 1) 1
  | UMonth => days_from_civil y m 1
  | UWeek => i64 (i64 (i64 (days + 3) / 7 * 7) - 3)
  | _ => days
  end.

Definition truncate (unix_seconds : Z) (u : Unit) : Z :=
  match u with
  | USecond => unix_seconds
  | UMinute => i64 (unix_seconds / 60 * 60)
  | UHour => i64 (unix_seconds / 3600 * 3600)
  | other => i64 (truncate_days (unix_seconds / SECONDS_PER_DAY) other * SECONDS_PER_DAY)
  end.

Definition shift_months (y m n : Z) : Z :=
  let total := (m - 1) + n in
  days_from_civil (i64 (y + total / 12)) (total mod 12 + 1) 1.

Definition next_days (days : Z) (u : Unit) : Z :=
  let start := truncate_days days u in
  let '(y, m, _) := civil_from_days start in
  match u with
  | UYear => days_from_civil (i64 (y + 1)) 1 1
  | UQuarter => shift_months y m 3
  | UMonth => shift_months y m 1
  | UWeek => i64 (start + 7)
  | _ => i64 (start + 1)
  end.

Definition next_start (unix_seconds : Z) (u : Unit) : Z :=
  let start := truncate unix_seconds u in
  match u with
  | USecond => i64 (start + 1)
  | UMinute => i64 (start + 60)
  | UHour => i64 (start + 3600)
  | other => i64 (next_days (start / SECONDS_PER_DAY) other * SECONDS_PER_DAY)
  end.

Definition to_days (unix_seconds : Z) : Z := unix_seconds / SECONDS_PER_DAY.

(** ** Text *)
Abbreviation Text := (list Z) (only parsing).
Definition text (s : string) : Text := map (λ a, Z.of_N (N_of_ascii a)) (list_ascii_of_string s).

Definition is_ascii_digit (c : Z) : bool := (48 <=? c) && (c <=? 57).

(** [try_fold]: stops at the first byte that is no digit. *)
Fixpoint digits_from (n : Z) (b : Text) : option Z :=
  match b with
  | [] => Some n
  | c :: b' => if is_ascii_digit c then digits_from ((n * 10 + (c - 48)) mod 2 ^ 32) b' else None
  end.
Definition digits (b : Text) : option Z := digits_from 0 b.

(** [&b[i..j]] of bytes long enough. *)
Definition sub (b : Text) (i j : nat) : Text := take (j - i) (drop i b).
Definition byte_is (b : Text) (i : nat) (c : Z) : bool := bool_decide (b !! i = Some c).

Definition parse_date (b : Text) : option Z :=
  if negb (length b =? 10)%nat || negb (byte_is b 4 45) || negb (byte_is b 7 45) then None
  else
    year ← digits (sub b 0 4);
    month ← digits (sub b 5 7);
    day ← digits (sub b 8 10);
    if (month =? 0) || (day =? 0) || (days_in_month year month <? day) then None
    else Some (days_from_civil year month day).

Definition parse_datetime (b : Text) : option Z :=
  if (length b =? 10)%nat then (λ d, i64 (d * SECONDS_PER_DAY)) <$> parse_date b
  else if negb (length b =? 19)%nat || (negb (byte_is b 10 32) && negb (byte_is b 10 84)) || negb (byte_is b 13 58) || negb (byte_is b 16 58) then None
  else
    days ← parse_date (take 10 b);
    hour ← digits (sub b 11 13);
    minute ← digits (sub b 14 16);
    second ← digits (sub b 17 19);
    if (23 <? hour) || (59 <? minute) || (59 <? second) then None
    else Some (i64 (i64 (i64 (i64 (days * SECONDS_PER_DAY) + hour * 3600) + minute * 60) + second)).

(** The decimal digits of a number below 10^20, most significant first; none for zero. *)
Fixpoint decimals (fuel : nat) (n : Z) (out : Text) : Text :=
  match fuel with
  | O => out
  | S fuel' => if n =? 0 then out else decimals fuel' (n / 10) ((48 + n mod 10) :: out)
  end.
(** [{:0w}] of an integer: at least [w] characters, the sign among them, padded with zeros after it. *)
Definition padded (w : nat) (n : Z) : Text :=
  let ds := decimals 20 (Z.abs n) [] in
  let ds := match ds with [] => [48] | _ => ds end in
  if n <? 0 then 45 :: (replicate (w - 1 - length ds) 48 ++ ds) else replicate (w - length ds) 48 ++ ds.

Definition format_date (days : Z) : Text :=
  let '(y, m, d) := civil_from_days days in
  padded 4 y ++ [45] ++ padded 2 m ++ [45] ++ padded 2 d.

Definition format_datetime (unix_seconds : Z) : Text :=
  let t := decompose unix_seconds in
  padded 4 (c_year t) ++ [45] ++ padded 2 (c_month t) ++ [45] ++ padded 2 (c_day t) ++ [32] ++
  padded 2 (c_hour t) ++ [58] ++ padded 2 (c_minute t) ++ [58] ++ padded 2 (c_second t).

Definition to_ascii_lowercase (s : Text) : Text := map (λ c, if (65 <=? c) && (c <=? 90) then c + 32 else c) s.
Fixpoint drop_s (s : Text) : Text := match s with c :: s' => if c =? 115 then drop_s s' else s | [] => [] end.
Definition trim_end_s (s : Text) : Text := rev (drop_s (rev s)).

Definition unit_name (u : Unit) : Text :=
  text (match u with
        | UYear => "year" | UQuarter => "quarter" | UMonth => "month" | UWeek => "week"
        | UDay => "day" | UHour => "hour" | UMinute => "minute" | USecond => "second"
        end)%string.

Definition unit_parse (s : Text) : option Unit :=
  let s := trim_end_s (to_ascii_lowercase s) in
  let same name := bool_decide (s = text name) in
  if same "year"%string then Some UYear
  else if same "quarter"%string then Some UQuarter
  else if same "month"%string then Some UMonth
  else if same "week"%string then Some UWeek
  else if same "day"%string then Some UDay
  else if same "hour"%string then Some UHour
  else if same "minute"%string || same "min"%string then Some UMinute
  else if same "second"%string || same "sec"%string then Some USecond
  else None.

(** * Time views (quantum.rs) *)
Inductive Granularity := GYear | GMonth | GDay | GHour.

Definition as_char (g : Granularity) : Z := match g with GYear => 89 | GMonth => 77 | GDay => 68 | GHour => 72 end.
Definition DEFAULT_GRANULARITY : list Granularity := [GDay].

Record DateTime := mkDateTime { dt_year : Z; dt_month : Z; dt_day : Z; dt_hour : Z }.
Definition view_decompose (unix_seconds : Z) : DateTime :=
  let t := decompose unix_seconds in mkDateTime (c_year t) (c_month t) (c_day t) (c_hour t).

Definition view_name (t : DateTime) (g : Granularity) : Text :=
  match g with
  | GYear => padded 4 (dt_year t)
  | GMonth => padded 4 (dt_year t) ++ padded 2 (dt_month t)
  | GDay => padded 4 (dt_year t) ++ padded 2 (dt_month t) ++ padded 2 (dt_day t)
  | GHour => padded 4 (dt_year t) ++ padded 2 (dt_month t) ++ padded 2 (dt_day t) ++ padded 2 (dt_hour t)
  end.
Definition views (unix_seconds : Z) (granularity : list Granularity) : list Text :=
  map (view_name (view_decompose unix_seconds)) granularity.

Definition DAY_VIEW_LEN : nat := 8.
Definition day_view (unix_seconds : Z) : Text :=
  let '(y, m, d) := civil_from_days (unix_seconds / 86400) in
  padded 4 y ++ padded 2 m ++ padded 2 d.

(** The dates of the tests. *)
Example epoch : civil_from_days 0 = (1970, 1, 1) ∧ parse_date (text "2024-02-29") = Some 19782 ∧ format_date 19782 = text "2024-02-29".
Proof. vm_compute. done. Qed.
Example before_epoch : format_datetime (-1) = text "1969-12-31 23:59:59" ∧ parse_date (text "2023-02-29") = None ∧ unit_parse (text "Months") = Some UMonth.
Proof. vm_compute. done. Qed.
