(* ===== verification/CalendarSpec.v ===== *)
(** What the calendar promises (the theory of Calendar.v). *)
From Stdlib Require Import Ascii String.
From S2P Require Import Prelude Calendar.

(** * Months in a row *)

(** The number of the day a date is, over the years that begin in March. *)
Definition day_number (y m d : Z) : Z :=
  let y := if m <=? 2 then y - 1 else y in
  let mp := if 2 <? m then m - 3 else m + 9 in
  365 * y + y / 4 - y / 100 + y / 400 + (153 * mp + 2) / 5 + d - 1 - 719468.

(** Months are counted from January of the year zero; the day the [k]th begins with, and its length. *)
Definition month_index (y m : Z) : Z := 12 * y + m - 1.
Definition month_start (k : Z) : Z := day_number (k / 12) (k mod 12 + 1) 1.
Definition month_length (k : Z) : Z := days_in_month (k / 12) (k mod 12 + 1).

Definition month_ok (m : Z) : Prop := 1 <= m <= 12.
Definition is_date (z y m d : Z) : Prop := month_ok m ∧ 1 <= d <= days_in_month y m ∧ day_number y m d = z.

Lemma leap_mod y : is_leap_year y = (y mod 4 =? 0) && negb (y mod 100 =? 0) || (y mod 400 =? 0).
Proof.
  assert (H : ∀ n, n ≠ 0 → (Z.rem y n =? 0) = (y mod n =? 0)).
  { intros n Hn. apply eq_true_iff_eq. rewrite !Z.eqb_eq. rewrite Z.rem_divide, <- Z.mod_divide by exact Hn. done. }
  unfold is_leap_year. by rewrite !H by lia.
Qed.

Lemma month_cases m (P : Z → Prop) : month_ok m → P 1 → P 2 → P 3 → P 4 → P 5 → P 6 → P 7 → P 8 → P 9 → P 10 → P 11 → P 12 → P m.
Proof.
  intros Hm. assert (m = 1 ∨ m = 2 ∨ m = 3 ∨ m = 4 ∨ m = 5 ∨ m = 6 ∨ m = 7 ∨ m = 8 ∨ m = 9 ∨ m = 10 ∨ m = 11 ∨ m = 12) as H by (unfold month_ok in Hm; lia).
  intros. by repeat destruct H as [-> |H]; subst.
Qed.

Lemma month_split y m : month_ok m → month_index y m / 12 = y ∧ month_index y m mod 12 + 1 = m.
Proof. unfold month_ok, month_index. intros H. split; Z.to_euclidean_division_equations; lia. Qed.

Lemma month_join k : month_ok (k mod 12 + 1) ∧ month_index (k / 12) (k mod 12 + 1) = k.
Proof. unfold month_ok, month_index. split; Z.to_euclidean_division_equations; lia. Qed.

Lemma day_number_start y m d : month_ok m → day_number y m d = month_start (month_index y m) + d - 1.
Proof. intros H. unfold month_start. destruct (month_split y m H) as [-> ->]. unfold day_number. lia. Qed.

(** A month begins where the one before it ends. *)
Lemma month_step k : month_start (k + 1) = month_start k + month_length k.
Proof.
  destruct (month_join k) as [Hm Hk]. unfold month_start, month_length. set (y := k / 12) in *. set (m := k mod 12 + 1) in *. clearbody y m. subst k.
  assert (E : (month_index y m + 1) / 12 = (if m =? 12 then y + 1 else y) ∧ (month_index y m + 1) mod 12 + 1 = (if m =? 12 then 1 else m + 1)).
  { unfold month_ok, month_index in *. split; destruct (Z.eqb_spec m 12); Z.to_euclidean_division_equations; lia. }
  destruct E as [-> ->]. revert Hm. pattern m. intros Hm. apply (month_cases m); [exact Hm|..]; unfold day_number, days_in_month; repeat match goal with |- context [Zpos ?a + 1] => let v := eval vm_compute in (Zpos a + 1) in change (Zpos a + 1) with v end; cbn -[Z.mul Z.div Z.add Z.sub is_leap_year]; try (Z.to_euclidean_division_equations; lia).
    rewrite leap_mod. destruct (Z.eqb_spec (y mod 4) 0), (Z.eqb_spec (y mod 100) 0), (Z.eqb_spec (y mod 400) 0); cbn -[Z.mul Z.div Z.add Z.sub]; Z.to_euclidean_division_equations; lia.
Qed.

Lemma month_length_bound k : 28 <= month_length k <= 31.
Proof.
  destruct (month_join k) as [Hm _]. unfold month_length. apply (month_cases (k mod 12 + 1)); [exact Hm|..]; unfold days_in_month; cbn -[is_leap_year]; try lia. destruct (is_leap_year _); lia.
Qed.

Lemma month_mono k k' : k < k' → month_start k + month_length k <= month_start k'.
Proof.
  intros H. rewrite <- (Z.sub_add k k'), (Z.add_comm (k' - k)) in *. assert (Hn : 0 < k' - k) by lia. revert Hn. generalize (k' - k). clear k' H. intros n Hn.
  replace n with (1 + (n - 1)) by lia. assert (Hn' : 0 <= n - 1) by lia. revert Hn'. generalize (n - 1). clear n Hn. intros n Hn. pattern n. apply natlike_ind; [| |exact Hn].
  - rewrite Z.add_0_r, month_step. lia.
  - clear n Hn. intros n Hn IH. replace (k + (1 + Z.succ n)) with (k + (1 + n) + 1) by lia. rewrite month_step. pose proof (month_length_bound (k + (1 + n))). lia.
Qed.

(** The month a day falls in. *)
Lemma month_unique k k' z : month_start k <= z < month_start (k + 1) → month_start k' <= z < month_start (k' + 1) → k = k'.
Proof.
  intros H H'. rewrite month_step in H, H'. destruct (Z.lt_trichotomy k k') as [Hlt|[->|Hlt]]; [|done|].
  - pose proof (month_mono k k' Hlt). lia.
  - pose proof (month_mono k' k Hlt). lia.
Qed.

Lemma is_date_month z y m d : is_date z y m d ↔ month_ok m ∧ d = z - month_start (month_index y m) + 1 ∧ month_start (month_index y m) <= z < month_start (month_index y m + 1).
Proof.
  unfold is_date. split.
  - intros (Hm & Hd & Hz). rewrite day_number_start in Hz by exact Hm. rewrite month_step. unfold month_length. destruct (month_split y m Hm) as [-> ->]. split; [exact Hm|]. lia.
  - intros (Hm & Hd & Hz). rewrite month_step in Hz. unfold month_length in Hz. destruct (month_split y m Hm) as [E1 E2]. rewrite E1, E2 in Hz. rewrite day_number_start by exact Hm. split; [exact Hm|]. lia.
Qed.

Lemma is_date_unique z y m d y' m' d' : is_date z y m d → is_date z y' m' d' → y = y' ∧ m = m' ∧ d = d'.
Proof.
  intros (Hm & -> & Hz)%is_date_month (Hm' & -> & Hz')%is_date_month. pose proof (month_unique _ _ _ Hz Hz') as E.
  destruct (month_split y m Hm) as [E1 E2], (month_split y' m' Hm') as [E3 E4]. rewrite E in E1, E2. split; [congruence|]. split; [congruence|]. by rewrite E.
Qed.

(** * The two directions *)
Definition in_calendar (z : Z) : Prop := - 2 ^ 63 <= z < 2 ^ 63 - 719468.

Lemma i64_id v : - 2 ^ 63 <= v < 2 ^ 63 → i64 v = v.
Proof. intros H. unfold i64. rewrite Z.mod_small by lia. lia. Qed.

(** Rounding towards zero, corrected, is rounding down. *)
Lemma quot_down z n : 0 < n → Z.quot (if 0 <=? z then z else z - (n - 1)) n = z / n.
Proof.
  intros Hn. destruct (Z.leb_spec 0 z); [by apply Z.quot_div_nonneg|]. rewrite <- (Z.opp_involutive (z - (n - 1))), Z.quot_opp_l, Z.quot_div_nonneg by lia.
  apply Z.div_unique with (r := z - n * (- (- (z - (n - 1)) / n))); [|lia]. left. pose proof (Z.div_mod (- (z - (n - 1))) n ltac:(lia)). pose proof (Z.mod_pos_bound (- (z - (n - 1))) n Hn). lia.
Qed.

Lemma days_from_civil_ok y m d : month_ok m → 1 <= d <= 31 → in_calendar (day_number y m d) → days_from_civil y m d = day_number y m d.
Proof.
  intros Hm Hd Hz. unfold in_calendar, month_ok in *. unfold days_from_civil, day_number in *.
  set (Y := if m <=? 2 then y - 1 else y) in *. assert (HY : - 26 * 10 ^ 15 <= Y <= 26 * 10 ^ 15).
  { destruct (2 <? m); Z.to_euclidean_division_equations; lia. }
  assert (EY : (if m <=? 2 then i64 (y - 1) else y) = Y) by (unfold Y in *; destruct (m <=? 2); [apply i64_id; lia|done]). rewrite EY. rewrite (i64_id (Y - 399)) by lia.
  change 399 with (400 - 1). rewrite quot_down by lia. rewrite (i64_id (Y / 400 * 400)) by (Z.to_euclidean_division_equations; lia).
  set (mp := if 2 <? m then m - 3 else m + 9) in *. assert (Hmp : 0 <= mp <= 11) by (unfold mp; destruct (Z.ltb_spec 2 m); lia). clearbody mp Y. clear EY.
  rewrite (i64_id (Y - Y / 400 * 400)) by (Z.to_euclidean_division_equations; lia). rewrite (Z.mod_small (Y - Y / 400 * 400)) by (Z.to_euclidean_division_equations; lia).
  set (era := Y / 400) in *. assert (Hera : exists yoe, 0 <= yoe < 400 /\ Y = 400 * era + yoe) by (exists (Y mod 400); unfold era; Z.to_euclidean_division_equations; lia).
  destruct Hera as (yoe & Hyoe & HYe). clearbody era. subst Y. replace (400 * era + yoe - era * 400) with yoe by lia.
  assert (Hdoy : 0 <= (153 * mp + 2) / 5 + d - 1 <= 400) by (Z.to_euclidean_division_equations; lia). rewrite (Z.mod_small ((153 * mp + 2) / 5 + d - 1)) by lia.
  set (doy := (153 * mp + 2) / 5) in *. clearbody doy. assert (Hdoe : 0 <= yoe * 365 + yoe / 4 - yoe / 100 <= 146000) by (Z.to_euclidean_division_equations; lia).
  assert (E : 365 * (400 * era + yoe) + (400 * era + yoe) / 4 - (400 * era + yoe) / 100 + era = era * 146097 + (yoe * 365 + yoe / 4 - yoe / 100)) by (Z.to_euclidean_division_equations; lia).
  rewrite E in Hz |- *. set (doe := yoe * 365 + yoe / 4 - yoe / 100) in *. clearbody doe. rewrite (Z.mod_small (doe + (doy + d - 1))) by lia. rewrite (i64_id (era * 146097)) by lia. rewrite (i64_id (doe + (doy + d - 1))) by lia.
  rewrite (i64_id (era * 146097 + _)) by lia. rewrite i64_id by lia. lia.
Qed.

(** The year within an era of 400, and the day within the year. *)
Definition year_of_era (doe : Z) : Z := (doe - doe / 1460 + doe / 36524 - doe / 146096) / 365.
Definition day_of_year (doe : Z) : Z := doe - (365 * year_of_era doe + year_of_era doe / 4 - year_of_era doe / 100).

Lemma year_of_era_bound doe : 0 <= doe < 146097 → 0 <= year_of_era doe < 400.
Proof. intros H. unfold year_of_era. Z.to_euclidean_division_equations; lia. Qed.
Lemma day_of_year_bound doe : 0 <= doe < 146097 → 0 <= day_of_year doe <= 365.
Proof. intros H. unfold day_of_year, year_of_era. Z.to_euclidean_division_equations; lia. Qed.
(** Only a year whose February has 29 days has a 366th day. *)
Lemma last_day_leap doe era : 0 <= doe < 146097 → day_of_year doe = 365 → is_leap_year (year_of_era doe + era * 400 + 1) = true.
Proof.
  intros H E. rewrite leap_mod. set (yoe := year_of_era doe) in *.
  assert (Hy : (yoe + 1) mod 4 = 0 ∧ ((yoe + 1) mod 100 ≠ 0 ∨ (yoe + 1) mod 400 = 0)) by (unfold yoe, day_of_year, year_of_era in *; Z.to_euclidean_division_equations; lia).
  clearbody yoe. clear E. assert (Hm : ∀ n, 0 < n → 400 mod n = 0 → (yoe + era * 400 + 1) mod n = (yoe + 1) mod n).
  { intros n Hn Hd. rewrite (Z.div_mod 400 n), Hd, Z.add_0_r by lia. replace (yoe + era * (n * (400 / n)) + 1) with (yoe + 1 + era * (400 / n) * n) by lia. apply Z.mod_add. lia. }
  rewrite !Hm by (try lia; reflexivity). destruct Hy as [-> [Hy|Hy]]; [|rewrite Hy; by rewrite orb_true_r]. destruct (Z.eqb_spec ((yoe + 1) mod 100) 0); [done|]. done.
Qed.

Lemma era_date z Y doy mp : 365 * Y + Y / 4 - Y / 100 + Y / 400 + doy - 719468 = z → 0 <= doy <= 365 → (doy = 365 → is_leap_year (Y + 1) = true) →
  0 <= mp <= 11 ∧ 153 * mp <= 5 * doy + 2 < 153 * mp + 153 → 1 <= doy - (153 * mp + 2) / 5 + 1 <= 31 →
  is_date z (if (if mp <? 10 then mp + 3 else mp - 9) mod 2 ^ 32 <=? 2 then Y + 1 else Y) ((if mp <? 10 then mp + 3 else mp - 9) mod 2 ^ 32) (doy - (153 * mp + 2) / 5 + 1).
Proof.
  intros EY Hdoy Hleap [Hmp Hb] Hd. set (d := doy - (153 * mp + 2) / 5 + 1) in *. assert (Ed : d = doy - (153 * mp + 2) / 5 + 1) by done. clearbody d.
  replace mp with (mp + 1 - 1) in * by lia. revert Hb Ed. pattern (mp + 1). apply month_cases; [unfold month_ok; lia|..]; clear Hmp; intros Hb Ed;
    repeat match goal with |- context [Zpos ?a - 1] => let v := eval vm_compute in (Zpos a - 1) in change (Zpos a - 1) with v in * end;
    repeat match goal with |- context [?t mod 2 ^ 32] => let v := eval vm_compute in (t mod 2 ^ 32) in change (t mod 2 ^ 32) with v end;
    (split; [done|]); unfold day_number, days_in_month; cbn -[Z.mul Z.div Z.add Z.sub is_leap_year] in *;
    rewrite ?Z.add_simpl_r; (split; [|Z.to_euclidean_division_equations; lia]); try (Z.to_euclidean_division_equations; lia).
Qed.

Lemma civil_from_days_ok z : in_calendar z → let '(y, m, d) := civil_from_days z in is_date z y m d.
Proof.
  intros Hz. unfold in_calendar in Hz. unfold civil_from_days. cbv zeta. rewrite (i64_id (z + 719468)) by lia. rewrite (i64_id (z + 719468 - 146096)) by (try lia).
  assert (Eq : Z.quot (if 0 <=? z + 719468 then z + 719468 else z + 719468 - 146096) 146097 = (z + 719468) / 146097) by (apply (quot_down (z + 719468) 146097); lia). rewrite Eq. clear Eq. set (era := (z + 719468) / 146097).
  assert (Hera : ∃ doe, 0 <= doe < 146097 ∧ z + 719468 = 146097 * era + doe) by (exists ((z + 719468) mod 146097); unfold era; Z.to_euclidean_division_equations; lia).
  clearbody era. destruct Hera as (doe & Hdoe & Ez). rewrite (i64_id (era * 146097)) by lia. rewrite (i64_id (z + 719468 - era * 146097)) by lia. rewrite (Z.mod_small (z + 719468 - era * 146097)) by lia.
  replace (z + 719468 - era * 146097) with doe by lia. change ((doe - doe / 1460 + doe / 36524 - doe / 146096) / 365) with (year_of_era doe).
  change (doe - (365 * year_of_era doe + year_of_era doe / 4 - year_of_era doe / 100)) with (day_of_year doe).
  pose proof (year_of_era_bound doe Hdoe) as Hyoe. pose proof (day_of_year_bound doe Hdoe) as Hdoy. pose proof (last_day_leap doe era Hdoe) as Hleap.
  assert (Edoe : doe = 365 * year_of_era doe + year_of_era doe / 4 - year_of_era doe / 100 + day_of_year doe) by (unfold day_of_year; lia).
  set (yoe := year_of_era doe) in *. set (doy := day_of_year doe) in *. clearbody yoe doy. rewrite (i64_id (era * 400)) by lia. rewrite (i64_id (yoe + era * 400)) by lia. rewrite (i64_id (yoe + era * 400 + 1)) by lia.
  set (mp := (5 * doy + 2) / 153). assert (Hmp : 0 <= mp <= 11 ∧ 153 * mp <= 5 * doy + 2 < 153 * mp + 153) by (unfold mp; Z.to_euclidean_division_equations; lia). clearbody mp.
  assert (Hd : 1 <= doy - (153 * mp + 2) / 5 + 1 <= 31) by (Z.to_euclidean_division_equations; lia). rewrite (Z.mod_small (doy - _ + 1)) by lia.
  set (Y := yoe + era * 400) in *. assert (EY : 365 * Y + Y / 4 - Y / 100 + Y / 400 + doy - 719468 = z) by (unfold Y; Z.to_euclidean_division_equations; lia). clearbody Y. clear Ez Edoe Hdoe Hyoe doe yoe era Hz.
  by apply era_date.
Qed.

Definition year_ok (y : Z) : Prop := - 25 * 10 ^ 15 <= y <= 25 * 10 ^ 15.

Lemma year_in_calendar y m d : year_ok y → month_ok m → 1 <= d <= 31 → in_calendar (day_number y m d).
Proof.
  unfold year_ok, month_ok, in_calendar, day_number. intros Hy Hm Hd. set (Y := if m <=? 2 then y - 1 else y). assert (y - 1 <= Y <= y) by (unfold Y; destruct (m <=? 2); lia).
  set (mp := if 2 <? m then m - 3 else m + 9). assert (0 <= mp <= 11) by (unfold mp; destruct (Z.ltb_spec 2 m); lia). clearbody Y mp. Z.to_euclidean_division_equations; lia.
Qed.

Lemma days_bound y m : days_in_month y m <= 31.
Proof. unfold days_in_month. destruct (existsb _ _); [lia|]. destruct (existsb _ _); [lia|]. destruct (m =? 2); [|lia]. destruct (is_leap_year y); lia. Qed.

Lemma days_of_date z y m d : is_date z y m d → in_calendar z → days_from_civil y m d = z.
Proof. intros (Hm & Hd & <-) Hz. apply days_from_civil_ok; [exact Hm| |exact Hz]. pose proof (days_bound y m). lia. Qed.

Lemma date_of_days z y m d : is_date z y m d → in_calendar z → civil_from_days z = (y, m, d).
Proof.
  intros H Hz. pose proof (civil_from_days_ok z Hz) as H'. destruct (civil_from_days z) as [[y' m'] d']. destruct (is_date_unique _ _ _ _ _ _ _ H H') as (-> & -> & ->). done.
Qed.

(** C29.  The calendar.  A day count becomes a date that exists, and that date the same count again; a
    date that exists becomes a count, and that count the same date again; and the day after the last of
    a month is the first of the next.  The first holds of every [i64] but the 719,468 greatest. *)
Theorem calendar_roundtrip z y m d : in_calendar z → year_ok y → month_ok m → 1 <= d <= days_in_month y m →
  (let '(y', m', d') := civil_from_days z in month_ok m' ∧ 1 <= d' <= days_in_month y' m' ∧ days_from_civil y' m' d' = z) ∧
  civil_from_days (days_from_civil y m d) = (y, m, d) ∧
  days_from_civil y m 1 + days_in_month y m = (if m =? 12 then days_from_civil (y + 1) 1 1 else days_from_civil y (m + 1) 1).
Proof.
  intros Hz Hy Hm Hd. pose proof (days_bound y m) as Hb. split; [|split].
  - pose proof (civil_from_days_ok z Hz) as H. destruct (civil_from_days z) as [[y' m'] d']. pose proof (days_of_date _ _ _ _ H Hz) as E. destruct H as (H1 & H2 & _). done.
  - pose proof (year_in_calendar y m d Hy Hm ltac:(lia)) as Hc. rewrite days_from_civil_ok by (try assumption; lia). apply date_of_days; [|exact Hc]. done.
  - pose proof (month_step (month_index y m)) as Hs. unfold month_length in Hs. destruct (month_split y m Hm) as [E1 E2]. rewrite E1, E2 in Hs.
    pose proof (year_in_calendar y m 1 Hy Hm ltac:(lia)) as Hc. assert (Hstart : ∀ y m, month_ok m → day_number y m 1 = month_start (month_index y m)) by (intros y0 m0 H0; rewrite day_number_start by exact H0; lia).
    rewrite days_from_civil_ok, Hstart by (try assumption; lia). rewrite Hstart in Hc by exact Hm. unfold in_calendar in Hc. unfold year_ok in Hy.
    destruct (Z.eqb_spec m 12) as [->|Hne].
    + replace (month_index y 12 + 1) with (month_index (y + 1) 1) in Hs by (unfold month_index; lia). rewrite <- (Hstart (y + 1) 1) in Hs by (unfold month_ok; lia). rewrite days_from_civil_ok; [lia|unfold month_ok; lia|lia|].
      assert (- 2 ^ 63 <= day_number (y + 1) 1 1 < 2 ^ 63 - 719468); [|done]. unfold day_number. cbn -[Z.mul Z.div Z.add Z.sub Z.pow]. Z.to_euclidean_division_equations; lia.
    + replace (month_index y m + 1) with (month_index y (m + 1)) in Hs by (unfold month_index; lia). unfold month_ok in Hm. rewrite <- (Hstart y (m + 1)) in Hs by (unfold month_ok; lia).
      rewrite days_from_civil_ok; [lia|unfold month_ok; lia|lia|]. apply year_in_calendar; [done|unfold month_ok; lia|lia].
Qed.

Lemma calendar_roundtrip_witness : civil_from_days (days_from_civil 2024 2 29) = (2024, 2, 29).
Proof. destruct (calendar_roundtrip 0 2024 2 29) as (_ & H & _); [unfold in_calendar; lia|unfold year_ok; lia|unfold month_ok; lia|vm_compute; split; discriminate|exact H]. Defined.

(** * Rounding *)

(** The line cut into pieces that begin at [S i]. *)
Definition rising (S : Z → Z) : Prop := ∀ i, S i < S (i + 1).
Definition piece (S : Z → Z) (i z : Z) : Prop := S i <= z < S (i + 1).

Lemma rising_mono S i j : rising S → i < j → S (i + 1) <= S j.
Proof.
  intros HS H. replace j with (i + 1 + (j - i - 1)) by lia. assert (Hn : 0 <= j - i - 1) by lia. revert Hn. generalize (j - i - 1). intros n Hn. pattern n. apply natlike_ind; [| |exact Hn].
  - by rewrite Z.add_0_r.
  - intros k Hk IH. pose proof (HS (i + 1 + k)). replace (i + 1 + Z.succ k) with (i + 1 + k + 1) by lia. lia.
Qed.

Lemma piece_unique S i j z : rising S → piece S i z → piece S j z → i = j.
Proof.
  intros HS Hi Hj. unfold piece in *. destruct (Z.lt_trichotomy i j) as [H|[H|H]]; [|exact H|].
  - pose proof (rising_mono S i j HS H). lia.
  - pose proof (rising_mono S j i HS H). lia.
Qed.

(** [t] rounds down to the beginning of a piece and [n] up to that of the next, for the values in [D]; a
    piece is at most [w] long. *)
Definition rounds (D : Z → Prop) (w : Z) (t n : Z → Z) : Prop := ∃ S, rising S ∧ (∀ i, S (i + 1) <= S i + w) ∧ ∀ z, D z → ∃ i, piece S i z ∧ t z = S i ∧ n z = S (i + 1).

Lemma rounds_bracket D w t n z z' : rounds D w t n → D z → D z' → t z <= z < n z ∧ (t z' = t z ↔ t z <= z' < n z).
Proof.
  intros (S & HS & _ & H) Hz Hz'. destruct (H z Hz) as (i & Hi & -> & ->), (H z' Hz') as (j & Hj & -> & _). split; [exact Hi|]. split.
  - intros E. unfold piece in Hj. assert (i = j) as ->; [|exact Hj]. destruct (Z.lt_trichotomy i j) as [Hl|[Hl|Hl]]; [|exact Hl|].
    + pose proof (rising_mono S i j HS Hl). pose proof (HS i). lia.
    + pose proof (rising_mono S j i HS Hl). pose proof (HS j). lia.
  - intros Hp. by rewrite (piece_unique S j i z' HS Hj Hp).
Qed.

Definition day_ok (z : Z) : Prop := - 2 ^ 61 <= z <= 2 ^ 61.

Lemma rising_months n : 0 < n → rising (λ i, month_start (n * i)).
Proof. intros Hn i. pose proof (month_mono (n * i) (n * (i + 1)) ltac:(lia)). pose proof (month_length_bound (n * i)). lia. Qed.

(** A day and the month it falls in. *)
Lemma day_month z : in_calendar z → ∃ y m d, civil_from_days z = (y, m, d) ∧ is_date z y m d ∧ month_start (month_index y m) <= z < month_start (month_index y m + 1) ∧ month_ok m.
Proof.
  intros Hz. pose proof (civil_from_days_ok z Hz) as H. destruct (civil_from_days z) as [[y m] d]. exists y, m, d. split; [done|]. split; [exact H|]. apply is_date_month in H as (Hm & _ & H). done.
Qed.

(** The first of a month, as the code makes it. *)
Lemma first_of_month y m : month_ok m → in_calendar (month_start (month_index y m)) → days_from_civil y m 1 = month_start (month_index y m).
Proof. intros Hm Hc. assert (E : day_number y m 1 = month_start (month_index y m)) by (rewrite day_number_start by exact Hm; lia). rewrite <- E in *. apply days_from_civil_ok; [exact Hm|lia|exact Hc]. Qed.

Lemma civil_first k : in_calendar (month_start k) → civil_from_days (month_start k) = (k / 12, k mod 12 + 1, 1).
Proof.
  intros Hc. destruct (month_join k) as [Hm Hk]. apply date_of_days; [|exact Hc]. apply is_date_month. rewrite Hk. split; [exact Hm|]. pose proof (month_length_bound k). rewrite month_step. lia.
Qed.

(** A step of [n] months, [n] dividing the year, takes at most a year of days. *)
Lemma months_near k j : j <= k < j + 12 → month_start k - 366 <= month_start j <= month_start k ∧ month_start (j + 12) <= month_start k + 400.
Proof.
  intros Hj. assert (H : ∀ n, 0 <= n → n <= 12 → ∀ a, month_start a + 28 * n <= month_start (a + n) <= month_start a + 31 * n).
  { intros n Hn. pattern n. apply natlike_ind; [| |exact Hn]; [intros _ a; replace (a + 0) with a by lia; lia|]. clear n Hn. intros n Hn IH Hle a. specialize (IH ltac:(lia) a).
    replace (a + Z.succ n) with (a + n + 1) by lia. rewrite month_step. pose proof (month_length_bound (a + n)). lia. }
  assert (Hy : ∀ a, month_start (a + 12) <= month_start a + 372) by (intros a; pose proof (H 12 ltac:(lia) ltac:(lia) a); lia).
  pose proof (H (k - j) ltac:(lia) ltac:(lia) j) as H1. replace (j + (k - j)) with k in H1 by lia. pose proof (Hy j). lia.
Qed.

Lemma index_bound k : - 2 ^ 62 <= month_start k <= 2 ^ 62 → - 2 ^ 60 <= k / 12 <= 2 ^ 60.
Proof.
  unfold month_start, day_number. intros H. set (y := k / 12) in *. set (m := k mod 12 + 1) in *. assert (Hm : 1 <= m <= 12) by (unfold m; Z.to_euclidean_division_equations; lia). clearbody y m.
  set (Y := if m <=? 2 then y - 1 else y) in *. assert (y - 1 <= Y <= y) by (unfold Y; destruct (m <=? 2); lia).
  set (mp := if 2 <? m then m - 3 else m + 9) in *. assert (0 <= mp <= 11) by (unfold mp; destruct (Z.ltb_spec 2 m); lia). clearbody Y mp. Z.to_euclidean_division_equations; lia.
Qed.

(** The months of a step of rounding. *)
Definition step_months (u : Unit) : Z := match u with UYear => 12 | UQuarter => 3 | _ => 1 end.

Lemma shift_first k n : 0 <= n <= 12 → - 2 ^ 60 <= k / 12 <= 2 ^ 60 → in_calendar (month_start (k + n)) → shift_months (k / 12) (k mod 12 + 1) n = month_start (k + n).
Proof.
  intros Hn Hk Hc. unfold shift_months. cbv zeta. set (total := k mod 12 + 1 - 1 + n). assert (Ht : month_ok (total mod 12 + 1) ∧ 0 <= total < 30) by (unfold month_ok, total; Z.to_euclidean_division_equations; lia).
  rewrite i64_id by (Z.to_euclidean_division_equations; lia). assert (E : month_index (k / 12 + total / 12) (total mod 12 + 1) = k + n) by (unfold month_index, total; Z.to_euclidean_division_equations; lia).
  rewrite first_of_month; [by rewrite E|apply Ht|by rewrite E].
Qed.

Lemma truncate_months u y m d z : match u with UYear | UQuarter | UMonth => True | _ => False end → day_ok z → civil_from_days z = (y, m, d) → month_ok m → month_start (month_index y m) <= z < month_start (month_index y m + 1) →
  let K := step_months u * (month_index y m / step_months u) in truncate_days z u = month_start K ∧ next_days z u = month_start (K + step_months u).
Proof.
  intros Hu Hz E Hm Hp K. unfold day_ok in Hz. assert (Hn : step_months u = 12 ∨ step_months u = 3 ∨ step_months u = 1) by (destruct u; cbn; tauto).
  assert (HK : K <= month_index y m < K + 12) by (unfold K; destruct Hn as [-> |[-> | ->]]; Z.to_euclidean_division_equations; lia).
  pose proof (months_near (month_index y m) K HK) as [Hn1 Hn2]. pose proof (month_length_bound (month_index y m)) as Hl. rewrite month_step in Hp.
  assert (Hc : in_calendar (month_start K)) by (unfold in_calendar; lia). assert (Hc' : in_calendar (month_start (K + step_months u))).
  { unfold in_calendar. destruct (Z.eq_dec (step_months u) 12) as [->|Hne]; [pose proof (month_mono K (K + 12) ltac:(lia)); pose proof (month_length_bound K); lia|].
    pose proof (month_mono K (K + step_months u) ltac:(lia)). pose proof (month_mono (K + step_months u) (K + 12) ltac:(lia)). pose proof (month_length_bound K). pose proof (month_length_bound (K + step_months u)). lia. }
  assert (Ht : truncate_days z u = month_start K).
  { unfold truncate_days. rewrite E. unfold month_ok in Hm. unfold K, month_index. unfold K, month_index in Hc. destruct u; try done; cbn [step_months] in *.
    - replace (12 * ((12 * y + m - 1) / 12)) with (month_index y 1) in * by (unfold month_index; Z.to_euclidean_division_equations; lia). apply first_of_month; [unfold month_ok; lia|exact Hc].
    - replace (3 * ((12 * y + m - 1) / 3)) with (month_index y ((m - 1) / 3 * 3 + 1)) in * by (unfold month_index; Z.to_euclidean_division_equations; lia). apply first_of_month; [unfold month_ok; Z.to_euclidean_division_equations; lia|exact Hc].
    - replace (1 * ((12 * y + m - 1) / 1)) with (month_index y m) in * by (unfold month_index; rewrite Z.div_1_r; lia). apply first_of_month; [unfold month_ok; lia|exact Hc]. }
  split; [exact Ht|]. unfold next_days. rewrite Ht, (civil_first K Hc). pose proof (index_bound K ltac:(lia)) as Hb. destruct u; try done; cbn [step_months] in *.
  - rewrite i64_id by lia. assert (Ei : month_index (K / 12 + 1) 1 = K + 12) by (unfold month_index, K; Z.to_euclidean_division_equations; lia). rewrite first_of_month; [by rewrite Ei|unfold month_ok; lia|by rewrite Ei].
  - by apply shift_first.
  - by apply shift_first.
Qed.

Lemma days_round u : rounds day_ok 400 (λ z, truncate_days z u) (λ z, next_days z u).
Proof.
  assert (Hmonths : match u with UYear | UQuarter | UMonth => True | _ => False end → rounds day_ok 400 (λ z, truncate_days z u) (λ z, next_days z u)).
  { intros Hu. exists (λ i, month_start (step_months u * i)). assert (Hs : 0 < step_months u) by (by destruct u). split; [by apply rising_months|].
    split; [intros i; pose proof (months_near (step_months u * i) (step_months u * i) ltac:(lia)); assert (Hle : step_months u * (i + 1) <= step_months u * i + 12) by (destruct u; cbn in *; lia); destruct (Z.eq_dec (step_months u * (i + 1)) (step_months u * i + 12)) as [->|]; [lia|]; pose proof (month_mono (step_months u * (i + 1)) (step_months u * i + 12) ltac:(lia)); pose proof (month_length_bound (step_months u * (i + 1))); lia|]. intros z Hz.
    destruct (day_month z) as (y & m & d & E & _ & Hp & Hm); [unfold in_calendar, day_ok in *; lia|]. destruct (truncate_months u y m d z Hu Hz E Hm Hp) as [Ht Hn].
    exists (month_index y m / step_months u). rewrite Z.mul_add_distr_l, Z.mul_1_r. split; [|by split]. unfold piece. rewrite Z.mul_add_distr_l, Z.mul_1_r.
    set (k := month_index y m) in *. pose proof (Z.div_mod k (step_months u) ltac:(lia)). pose proof (Z.mod_pos_bound k (step_months u) Hs).
    rewrite month_step in Hp. pose proof (month_length_bound k). split.
    - destruct (Z.eq_dec (step_months u * (k / step_months u)) k) as [->|Hne]; [lia|]. pose proof (month_mono (step_months u * (k / step_months u)) k ltac:(lia)). pose proof (month_length_bound (step_months u * (k / step_months u))). lia.
    - pose proof (month_mono k (step_months u * (k / step_months u) + step_months u) ltac:(lia)). lia. }
  destruct u; try (by apply Hmonths); clear Hmonths.
  { exists (λ i, 7 * i - 3). split; [intros i; lia|]. split; [intros i; lia|]. intros z Hz. unfold day_ok in Hz. exists ((z + 3) / 7). unfold piece, next_days, truncate_days. destruct (civil_from_days z) as [[? ?] ?].
    rewrite (i64_id (z + 3)) by lia. rewrite (i64_id ((z + 3) / 7 * 7)) by (Z.to_euclidean_division_equations; lia). rewrite (i64_id ((z + 3) / 7 * 7 - 3)) by (Z.to_euclidean_division_equations; lia).
    destruct (civil_from_days _) as [[? ?] ?]. rewrite i64_id by (Z.to_euclidean_division_equations; lia). split; [|split]; Z.to_euclidean_division_equations; lia. }
  all: exists (λ i, i); split; [intros i; lia|]; split; [intros i; lia|]; intros z Hz; unfold day_ok in Hz; exists z; unfold piece, next_days, truncate_days; destruct (civil_from_days z) as [[? ?] ?] eqn:Ez; rewrite ?Ez; rewrite i64_id by lia; split; [lia|by split].
Qed.

Definition instant_ok (t : Z) : Prop := - 2 ^ 61 <= t <= 2 ^ 61.

Lemma clock_round n : 0 < n <= 3600 → rounds instant_ok n (λ z, i64 (z / n * n)) (λ z, i64 (i64 (z / n * n) + n)).
Proof.
  intros Hn. exists (λ i, i * n). split; [intros i; lia|]. split; [intros i; lia|]. intros z Hz. unfold instant_ok in Hz. pose proof (Z.div_mod z n ltac:(lia)). pose proof (Z.mod_pos_bound z n ltac:(lia)).
  exists (z / n). unfold piece. rewrite (i64_id (z / n * n)) by lia. rewrite i64_id by lia. split; [lia|]. split; [done|lia].
Qed.

Lemma instants_round u : ∃ w, rounds instant_ok w (λ z, truncate z u) (λ z, next_start z u).
Proof.
  assert (Hdays : rounds instant_ok (400 * 86400) (λ z, i64 (truncate_days (z / 86400) u * 86400)) (λ z, i64 (next_days (i64 (truncate_days (z / 86400) u * 86400) / 86400) u * 86400))).
  { destruct (days_round u) as (S & HS & Hw & H). exists (λ i, S i * 86400). split; [intros i; pose proof (HS i); lia|]. split; [intros i; pose proof (Hw i); lia|]. intros z Hz. unfold instant_ok in Hz.
    pose proof (Z.div_mod z 86400 ltac:(lia)) as Hdm. pose proof (Z.mod_pos_bound z 86400 ltac:(lia)) as Hmb. set (q := z / 86400) in *. assert (Hq : day_ok q) by (unfold day_ok; lia).
    destruct (H q Hq) as (i & Hi & Et & _). exists i. unfold piece in *. pose proof (Hw i) as Hwi. rewrite Et. rewrite (i64_id (S i * 86400)) by lia. rewrite Z.div_mul by lia.
    destruct (H (S i)) as (j & Hj & _ & En); [unfold day_ok; lia|]. pose proof (HS i). assert (j = i) as -> by (eapply piece_unique; [exact HS|exact Hj|unfold piece; lia]). rewrite En. rewrite i64_id by lia. split; [lia|done]. }
  assert (Hone : rounds instant_ok 1 (λ z, z) (λ z, i64 (z + 1))).
  { exists (λ i, i). split; [intros i; lia|]. split; [intros i; lia|]. intros z Hz. unfold instant_ok in Hz. exists z. unfold piece. rewrite i64_id by lia. split; [lia|done]. }
  destruct u; try (by exists (400 * 86400)).
  - exists 3600. apply (clock_round 3600). lia.
  - exists 60. apply (clock_round 60). lia.
  - exists 1. exact Hone.
Qed.

(** Rounding is a half-open interval.  For a count of days and for an instant, on both sides of the
    epoch and for every unit, the start of the unit and the start of the next bracket the value, and
    another value rounds to the same start exactly when it lies between the two. *)
Theorem rounding_brackets z z' u : instant_ok z → instant_ok z' →
  (truncate_days z u <= z < next_days z u ∧ (truncate_days z' u = truncate_days z u ↔ truncate_days z u <= z' < next_days z u)) ∧
  (truncate z u <= z < next_start z u ∧ (truncate z' u = truncate z u ↔ truncate z u <= z' < next_start z u)).
Proof.
  intros Hz Hz'. split; [exact (rounds_bracket day_ok 400 _ _ z z' (days_round u) Hz Hz')|]. destruct (instants_round u) as (w & H). exact (rounds_bracket instant_ok w _ _ z z' H Hz Hz').
Qed.

Lemma rounding_brackets_witness : truncate (-1) UMonth = -2678400 ∧ next_start (-1) UMonth = 0 ∧ truncate (-1) UMonth <= -1 < next_start (-1) UMonth.
Proof.
  split; [vm_compute; reflexivity|]. split; [vm_compute; reflexivity|]. destruct (rounding_brackets (-1) (-1) UMonth) as (_ & H & _); [unfold instant_ok; lia|unfold instant_ok; lia|exact H].
Defined.

(** * Text *)
Lemma padded2 n : 0 <= n < 100 → padded 2 n = [48 + n / 10; 48 + n mod 10].
Proof.
  intros Hn. unfold padded. rewrite Z.abs_eq by lia. destruct (Z.ltb_spec n 0); [lia|]. set (f := 18%nat). change 20%nat with (S (S f)). unfold f. cbn [decimals].
  destruct (Z.eqb_spec n 0) as [->|H0]; [done|]. destruct (Z.eqb_spec (n / 10) 0) as [E|H1].
  - cbn. rewrite E. done.
  - assert (E2 : n / 10 / 10 = 0) by (Z.to_euclidean_division_equations; lia). assert (E3 : n / 10 mod 10 = n / 10) by (apply Z.mod_small; Z.to_euclidean_division_equations; lia). rewrite E2, E3. done.
Qed.

Lemma padded4 n : 0 <= n < 10000 → padded 4 n = [48 + n / 1000; 48 + n / 100 mod 10; 48 + n / 10 mod 10; 48 + n mod 10].
Proof.
  intros Hn. unfold padded. rewrite Z.abs_eq by lia. destruct (Z.ltb_spec n 0); [lia|]. set (f := 16%nat). change 20%nat with (S (S (S (S f)))). unfold f.
  assert (E1 : n / 10 / 10 = n / 100) by (rewrite Z.div_div by lia; done). assert (E2 : n / 100 / 10 = n / 1000) by (rewrite Z.div_div by lia; done). assert (E3 : n / 1000 / 10 = 0) by (Z.to_euclidean_division_equations; lia).
  assert (E4 : n / 1000 mod 10 = n / 1000) by (apply Z.mod_small; Z.to_euclidean_division_equations; lia).
  cbn [decimals]. rewrite E1, E2, E3, E4. destruct (Z.eqb_spec n 0) as [->|H0]; [done|]. destruct (Z.eqb_spec (n / 10) 0) as [H1|H1].
  { assert (n / 100 = 0) as -> by (Z.to_euclidean_division_equations; lia). assert (n / 1000 = 0) as -> by (Z.to_euclidean_division_equations; lia). rewrite H1. done. }
  destruct (Z.eqb_spec (n / 100) 0) as [H2|H2]; [assert (n / 1000 = 0) as -> by (Z.to_euclidean_division_equations; lia); rewrite H2; done|].
  destruct (Z.eqb_spec (n / 1000) 0) as [H3|H3]; [rewrite H3; done|]. done.
Qed.

Lemma digit_byte d : 0 <= d <= 9 → is_ascii_digit (48 + d) = true.
Proof. unfold is_ascii_digit. lia. Qed.

Lemma digits2 a b : 0 <= a <= 9 → 0 <= b <= 9 → digits [48 + a; 48 + b] = Some (10 * a + b).
Proof. intros Ha Hb. unfold digits. cbn [digits_from]. rewrite !digit_byte by assumption. rewrite !Z.mod_small by (try rewrite Z.mod_small by lia; lia). f_equal. lia. Qed.

Lemma digits4 a b c d : 0 <= a <= 9 → 0 <= b <= 9 → 0 <= c <= 9 → 0 <= d <= 9 → digits [48 + a; 48 + b; 48 + c; 48 + d] = Some (1000 * a + 100 * b + 10 * c + d).
Proof.
  intros Ha Hb Hc Hd. unfold digits. cbn [digits_from]. rewrite !digit_byte by assumption. rewrite (Z.mod_small (0 * 10 + _)) by lia. rewrite (Z.mod_small ((0 * 10 + _) * 10 + _)) by lia.
  rewrite (Z.mod_small (((0 * 10 + _) * 10 + _) * 10 + _)) by lia. rewrite Z.mod_small by lia. f_equal. lia.
Qed.

(** A field of digits is the number padded, and the other way round. *)
Lemma field2 n : 0 <= n < 100 → digits (padded 2 n) = Some n ∧ length (padded 2 n) = 2%nat.
Proof. intros Hn. rewrite padded2 by exact Hn. split; [|done]. rewrite digits2; [f_equal|..]; Z.to_euclidean_division_equations; lia. Qed.
Lemma field4 n : 0 <= n < 10000 → digits (padded 4 n) = Some n ∧ length (padded 4 n) = 4%nat.
Proof. intros Hn. rewrite padded4 by exact Hn. split; [|done]. rewrite digits4; [f_equal|..]; Z.to_euclidean_division_equations; lia. Qed.

Lemma digits_all l : ∀ n v, digits_from n l = Some v → Forall (λ c, is_ascii_digit c = true) l.
Proof. induction l as [|c l IH]; intros n v; [constructor|]. cbn [digits_from]. destruct (is_ascii_digit c) eqn:E; [|done]. intros H. constructor; [exact E|by eapply IH]. Qed.

Lemma field2_back a b n : digits [a; b] = Some n → padded 2 n = [a; b] ∧ 0 <= n < 100.
Proof.
  intros H. pose proof (digits_all _ _ _ H) as HF. inversion_clear HF as [|? ? Ha HF']. inversion_clear HF' as [|? ? Hb _]. unfold is_ascii_digit in Ha, Hb.
  replace a with (48 + (a - 48)) in H by lia. replace b with (48 + (b - 48)) in H by lia. rewrite digits2 in H by lia. injection H as <-. split; [|lia]. rewrite padded2 by lia.
  repeat f_equal; Z.to_euclidean_division_equations; lia.
Qed.

Lemma field4_back a b c d n : digits [a; b; c; d] = Some n → padded 4 n = [a; b; c; d] ∧ 0 <= n < 10000.
Proof.
  intros H. pose proof (digits_all _ _ _ H) as HF. rewrite !Forall_cons in HF. destruct HF as (Ha & Hb & Hc & Hd & _). unfold is_ascii_digit in Ha, Hb, Hc, Hd.
  replace a with (48 + (a - 48)) in H by lia. replace b with (48 + (b - 48)) in H by lia. replace c with (48 + (c - 48)) in H by lia. replace d with (48 + (d - 48)) in H by lia. rewrite digits4 in H by lia. injection H as <-. split; [|lia]. rewrite padded4 by lia.
  repeat f_equal; Z.to_euclidean_division_equations; lia.
Qed.

(** The days of the years of four digits. *)
Definition written_day (z : Z) : Prop := -719528 <= z <= 2932896.

Lemma written_in z : written_day z → in_calendar z.
Proof. unfold written_day, in_calendar. lia. Qed.

Lemma written_year z y m d : is_date z y m d → written_day z ↔ 0 <= y < 10000.
Proof.
  intros (Hm & _ & Hp)%is_date_month. rewrite month_step in Hp. assert (E0 : month_start 0 = -719528) by done. assert (E1 : month_start 120000 = 2932897) by done. set (k := month_index y m) in *.
  assert (Hk : 0 <= y < 10000 ↔ 0 <= k < 120000) by (unfold k, month_index, month_ok in *; lia). rewrite Hk. unfold written_day. pose proof (month_length_bound k) as Hl. split.
  - intros Hz. destruct (Z.lt_ge_cases k 0) as [H|H]; [pose proof (month_mono k 0 H); lia|]. split; [exact H|]. destruct (Z.lt_ge_cases k 120000) as [H'|H']; [exact H'|].
    destruct (Z.eq_dec k 120000) as [E|Hne]; [rewrite E in Hp; lia|]. pose proof (month_mono 120000 k ltac:(lia)). pose proof (month_length_bound 120000). lia.
  - intros [H H']. pose proof (month_mono k 120000 H'). destruct (Z.eq_dec k 0) as [E|Hne]; [rewrite E in *; lia|]. pose proof (month_mono 0 k ltac:(lia)). pose proof (month_length_bound 0). lia.
Qed.

Lemma byte_is_spec b i c : byte_is b i c = true ↔ b !! i = Some c.
Proof. unfold byte_is. apply bool_decide_eq_true. Qed.

Lemma parse_fields y m d : 0 <= y < 10000 → month_ok m → 1 <= d <= days_in_month y m →
  let s := padded 4 y ++ [45] ++ padded 2 m ++ [45] ++ padded 2 d in parse_date s = Some (days_from_civil y m d) ∧ length s = 10%nat.
Proof.
  intros Hy Hm Hd s. unfold month_ok in Hm. pose proof (days_bound y m) as Hb. destruct (field4 y Hy) as [F1 _], (field2 m ltac:(lia)) as [F2 _], (field2 d ltac:(lia)) as [F3 _]. unfold s. clear s.
  rewrite padded4 in * by lia. rewrite !padded2 in * by lia. split; [|done]. unfold parse_date. cbn [app length Nat.eqb negb orb].
  rewrite !(proj2 (byte_is_spec _ _ _)) by reflexivity. cbn [negb orb].
  unfold sub. cbn [Nat.sub drop take]. rewrite F1, F2, F3. cbn [mbind option_bind]. destruct (Z.eqb_spec m 0), (Z.eqb_spec d 0), (Z.ltb_spec (days_in_month y m) d); try lia. done.
Qed.

Lemma parse_date_back s z : parse_date s = Some z → format_date z = s ∧ written_day z.
Proof.
  unfold parse_date. destruct (length s =? 10)%nat eqn:El; [|done]. apply Nat.eqb_eq in El. destruct s as [|c0 [|c1 [|c2 [|c3 [|c4 [|c5 [|c6 [|c7 [|c8 [|c9 [|? ?]]]]]]]]]]]; try discriminate El. cbn [negb orb].
  destruct (byte_is _ 4 45) eqn:H1; [|done]. destruct (byte_is _ 7 45) eqn:H2; [|done]. apply byte_is_spec in H1, H2. injection H1 as ->. injection H2 as ->. cbn [negb orb]. unfold sub. cbn [Nat.sub drop take].
  destruct (digits [c0; c1; c2; c3]) as [y|] eqn:F1; [|done]. cbn [mbind option_bind]. destruct (digits [c5; c6]) as [m|] eqn:F2; [|done]. cbn [mbind option_bind]. destruct (digits [c8; c9]) as [d|] eqn:F3; [|done]. cbn [mbind option_bind].
  apply field4_back in F1 as [F1 Hy]. apply field2_back in F2 as [F2 Hm2]. apply field2_back in F3 as [F3 Hd2].
  destruct (Z.eqb_spec m 0), (Z.eqb_spec d 0), (Z.ltb_spec (days_in_month y m) d) as [|Hd]; try done. intros [= <-]. cbn [orb] in *.
  assert (Hm : month_ok m).
  { unfold month_ok. split; [lia|]. destruct (Z.le_gt_cases m 12) as [H|H]; [exact H|]. exfalso. assert (days_in_month y m = 0); [|lia]. unfold days_in_month.
    assert (He : ∀ c, c <= 12 → (m =? c) = false) by lia. cbn [existsb]. rewrite !He by lia. reflexivity. }
  pose proof (days_bound y m) as Hb. pose proof (year_in_calendar y m d ltac:(unfold year_ok; lia) Hm ltac:(lia)) as Hc. rewrite days_from_civil_ok by (try assumption; lia).
  assert (Hdate : is_date (day_number y m d) y m d) by (split; [exact Hm|]; split; [lia|done]). split; [|by apply (written_year _ y m d Hdate)].
  unfold format_date. rewrite (date_of_days _ y m d Hdate Hc). by rewrite F1, F2, F3.
Qed.

Lemma format_date_ok z : written_day z → parse_date (format_date z) = Some z ∧ length (format_date z) = 10%nat.
Proof.
  intros Hz. pose proof (written_in z Hz) as Hc. unfold format_date. pose proof (civil_from_days_ok z Hc) as H. destruct (civil_from_days z) as [[y m] d]. pose proof (proj1 (written_year z y m d H) Hz) as Hy.
  destruct (parse_fields y m d Hy) as [Hp Hl]; [apply H|apply H|]. split; [|exact Hl]. rewrite Hp. f_equal. by apply days_of_date.
Qed.

Lemma format_datetime_split t : format_datetime t = format_date (t / 86400) ++ [32] ++ padded 2 (t mod 86400 / 3600) ++ [58] ++ padded 2 (t mod 86400 / 60 mod 60) ++ [58] ++ padded 2 (t mod 86400 mod 60).
Proof. unfold format_datetime, decompose, format_date. change SECONDS_PER_DAY with 86400. destruct (civil_from_days (t / 86400)) as [[y m] d]. cbn [c_year c_month c_day c_hour c_minute c_second]. by rewrite <- !app_assoc. Qed.

Lemma format_datetime_ok t : written_day (t / 86400) → parse_datetime (format_datetime t) = Some t.
Proof.
  intros Hz. rewrite format_datetime_split. destruct (format_date_ok _ Hz) as [Hp Hl]. pose proof (Z.mod_pos_bound t 86400 ltac:(lia)) as Hb. pose proof (Z.div_mod t 86400 ltac:(lia)) as Ht. unfold written_day in Hz.
  set (secs := t mod 86400) in *. set (days := t / 86400) in *. clearbody secs days. assert (Hh : 0 <= secs / 3600 <= 23) by (Z.to_euclidean_division_equations; lia).
  assert (Hmi : 0 <= secs / 60 mod 60 <= 59) by (pose proof (Z.mod_pos_bound (secs / 60) 60); lia). assert (Hse : 0 <= secs mod 60 <= 59) by (pose proof (Z.mod_pos_bound secs 60); lia).
  assert (Es : secs = secs / 3600 * 3600 + secs / 60 mod 60 * 60 + secs mod 60) by (Z.to_euclidean_division_equations; lia).
  set (h := secs / 3600) in *. set (mi := secs / 60 mod 60) in *. set (se := secs mod 60) in *. clearbody h mi se.
  destruct (field2 h ltac:(lia)) as [F1 _], (field2 mi ltac:(lia)) as [F2 _], (field2 se ltac:(lia)) as [F3 _]. rewrite !padded2 in * by lia.
  destruct (format_date days) as [|c0 [|c1 [|c2 [|c3 [|c4 [|c5 [|c6 [|c7 [|c8 [|c9 [|? ?]]]]]]]]]]]; try discriminate Hl. unfold parse_datetime. cbn [app length Nat.eqb negb orb].
  assert (H1 : ∀ b, byte_is (c0 :: c1 :: c2 :: c3 :: c4 :: c5 :: c6 :: c7 :: c8 :: c9 :: 32 :: b) 10 32 = true) by (intros b; by apply byte_is_spec). rewrite H1. cbn [negb andb orb].
  rewrite !(proj2 (byte_is_spec _ _ _)) by reflexivity. cbn [negb orb andb take]. rewrite Hp. cbn [mbind option_bind]. unfold sub. cbn [Nat.sub drop take]. rewrite F1, F2, F3. cbn [mbind option_bind].
  destruct (Z.ltb_spec 23 h), (Z.ltb_spec 59 mi), (Z.ltb_spec 59 se); try lia. cbn [orb]. change SECONDS_PER_DAY with 86400. rewrite (i64_id (days * 86400)) by lia. rewrite (i64_id (_ + h * 3600)) by lia. rewrite (i64_id (_ + mi * 60)) by lia. rewrite i64_id by lia. f_equal. lia.
Qed.

(** Dates as text.  A day of a year of four digits is written as a date that parses back, and an
    instant of one as a timestamp that does; a date parses in one spelling only, the one it is written
    in; a bare date is its midnight; and every unit answers to its own name. *)
Theorem dates_as_text z t s :
  (written_day z → parse_date (format_date z) = Some z ∧ parse_datetime (format_date z) = Some (z * 86400)) ∧
  (written_day (t / 86400) → parse_datetime (format_datetime t) = Some t) ∧
  (parse_date s = Some z → format_date z = s ∧ written_day z) ∧
  ∀ u, unit_parse (unit_name u) = Some u.
Proof.
  split; [|split; [apply format_datetime_ok|split; [apply parse_date_back|by intros []]]]. intros Hz. destruct (format_date_ok z Hz) as [Hp Hl]. split; [exact Hp|]. unfold parse_datetime. rewrite Hl. cbn [Nat.eqb]. rewrite Hp. cbn. unfold written_day in Hz.
  change SECONDS_PER_DAY with 86400. rewrite i64_id by lia. done.
Qed.

Lemma dates_as_text_witness : parse_date (format_date 19737) = Some 19737 ∧ format_date 19737 = text "2024-01-15".
Proof. split; [|vm_compute; reflexivity]. destruct (dates_as_text 19737 0 []) as [H _]. apply H. unfold written_day. lia. Defined.

(** * Names of views *)

(** The order of strings, byte by byte. *)
Fixpoint before (a b : list Z) : bool :=
  match a, b with
  | _, [] => false
  | [], _ :: _ => true
  | x :: a', y :: b' => (x <? y) || (x =? y) && before a' b'
  end.

Fixpoint number (l : list Z) : Z := match l with [] => 0 | c :: l' => (c - 48) * 10 ^ Z.of_nat (length l') + number l' end.
Definition all_digits (l : list Z) : Prop := Forall (λ c, 48 <= c <= 57) l.

Lemma number_bound l : all_digits l → 0 <= number l < 10 ^ Z.of_nat (length l).
Proof.
  induction 1 as [|c l Hc _ IH]; [cbn; lia|]. cbn [number length]. rewrite Nat2Z.inj_succ, Z.pow_succ_r by lia. nia.
Qed.

Lemma before_number a : all_digits a → ∀ b, all_digits b → length a = length b → before a b = true ↔ number a < number b.
Proof.
  induction 1 as [|x a Hx Ha IH]; intros b Hb Hl; destruct Hb as [|y b Hy Hb]; try discriminate Hl; [cbn; lia|]. injection Hl as Hl. cbn [before number]. rewrite Hl.
  pose proof (number_bound a Ha) as Ba. pose proof (number_bound b Hb) as Bb. rewrite Hl in Ba. rewrite orb_true_iff, andb_true_iff, Z.ltb_lt, Z.eqb_eq, (IH b Hb Hl). set (p := 10 ^ Z.of_nat (length b)) in *. clearbody p.
  destruct (Z.lt_trichotomy x y) as [H|[->|H]]; [|lia|]; split; [nia|nia|nia|nia].
Qed.

Lemma number_inj a : all_digits a → ∀ b, all_digits b → length a = length b → number a = number b → a = b.
Proof.
  induction 1 as [|x a Hx Ha IH]; intros b Hb Hl; destruct Hb as [|y b Hy Hb]; try discriminate Hl; [done|]. injection Hl as Hl. cbn [number]. rewrite Hl. intros E.
  pose proof (number_bound a Ha) as Ba. pose proof (number_bound b Hb) as Bb. rewrite Hl in Ba. set (p := 10 ^ Z.of_nat (length b)) in *. clearbody p. assert (x = y) as -> by nia. f_equal. apply IH; [exact Hb|exact Hl|lia].
Qed.

Lemma day_view_number t : written_day (t / 86400) → ∃ y m d, is_date (t / 86400) y m d ∧ length (day_view t) = DAY_VIEW_LEN ∧ all_digits (day_view t) ∧ number (day_view t) = 10000 * y + 100 * m + d.
Proof.
  intros Hz. pose proof (written_in _ Hz) as Hc. unfold day_view. pose proof (civil_from_days_ok _ Hc) as H. destruct (civil_from_days (t / 86400)) as [[y m] d]. exists y, m, d. split; [exact H|].
  pose proof (proj1 (written_year _ y m d H) Hz) as Hy. destruct H as (Hm & Hd & _). unfold month_ok in Hm. pose proof (days_bound y m). rewrite padded4, !padded2 by lia. cbn [app]. split; [done|]. split.
  - repeat (apply Forall_cons; split; [Z.to_euclidean_division_equations; lia|]). constructor.
  - cbn [number length]. change (10 ^ Z.of_nat 7) with 10000000. change (10 ^ Z.of_nat 6) with 1000000. change (10 ^ Z.of_nat 5) with 100000. change (10 ^ Z.of_nat 4) with 10000. change (10 ^ Z.of_nat 3) with 1000.
    change (10 ^ Z.of_nat 2) with 100. change (10 ^ Z.of_nat 1) with 10. change (10 ^ Z.of_nat 0) with 1. Z.to_euclidean_division_equations; lia.
Qed.

Lemma dates_in_order z y m d z' y' m' d' : is_date z y m d → is_date z' y' m' d' → z < z' ↔ 10000 * y + 100 * m + d < 10000 * y' + 100 * m' + d'.
Proof.
  intros H H'. pose proof H as (_ & Hd & _). pose proof H' as (_ & Hd' & _). pose proof (days_bound y m). pose proof (days_bound y' m'). apply is_date_month in H as (Hm & Ed & Hp), H' as (Hm' & Ed' & Hp').
  rewrite month_step in Hp, Hp'. destruct (Z.lt_trichotomy (month_index y m) (month_index y' m')) as [Hk|[Hk|Hk]].
  - pose proof (month_mono _ _ Hk). unfold month_index, month_ok in *. lia.
  - assert (y = y' ∧ m = m') as [-> ->] by (unfold month_index, month_ok in *; lia). lia.
  - pose proof (month_mono _ _ Hk). unfold month_index, month_ok in *. lia.
Qed.

(** Day views sort by time.  In the years of four digits the name of the day an instant falls in
    has eight characters, two instants have the same name exactly when they fall on the same day, and
    names compare as strings the way the days do - what finding a range of days by comparing names
    relies on. *)
Theorem day_views_sort t t' : written_day (t / 86400) → written_day (t' / 86400) →
  length (day_view t) = DAY_VIEW_LEN ∧ (day_view t = day_view t' ↔ t / 86400 = t' / 86400) ∧ (before (day_view t) (day_view t') = true ↔ t / 86400 < t' / 86400) ∧
  views t [GDay] = [day_view t].
Proof.
  intros Hz Hz'. destruct (day_view_number t Hz) as (y & m & d & Hd & Hl & Ha & Hn), (day_view_number t' Hz') as (y' & m' & d' & Hd' & Hl' & Ha' & Hn').
  split; [exact Hl|]. split; [|split].
  - split; [|intros E; unfold day_view; by rewrite E]. intros E. rewrite E in Hn. pose proof (dates_in_order _ _ _ _ _ _ _ _ Hd Hd'). pose proof (dates_in_order _ _ _ _ _ _ _ _ Hd' Hd). lia.
  - rewrite before_number by (try assumption; congruence). rewrite Hn, Hn'. symmetry. by apply dates_in_order.
  - unfold views, day_view, view_decompose, decompose. change SECONDS_PER_DAY with 86400. cbn [map]. by destruct (civil_from_days (t / 86400)) as [[? ?] ?].
Qed.

Lemma day_views_sort_witness : before (day_view (-1)) (day_view 0) = true ∧ day_view 0 = text "19700101".
Proof. split; [|vm_compute; reflexivity]. destruct (day_views_sort (-1) 0) as (_ & _ & H & _); [vm_compute; split; discriminate|vm_compute; split; discriminate|]. apply H. vm_compute. reflexivity. Defined.

(** Past the year 9999 names grow by a character and sort before the years they follow. *)
Example day_views_unsorted : day_view 253402300800 = text "100000101" ∧ before (day_view 253402300800) (day_view 253402214400) = true.
Proof. vm_compute. done. Qed.
(** The greatest day counts leave the range of an [i64] on the way. *)
Example calendar_wraps : civil_from_days (2 ^ 63 - 1) = (-25252734927764585, 6, 6).
Proof. vm_compute. done. Qed.
