(* ===== verification/Column.v ===== *)
(** Column values (crates/big-engine/src/columnar/: mod.rs, codec.rs, block.rs, error.rs): how the
    values of a thousand records become the cells of a tree, and back.

    Bytes and values are [Z]; sums of [u64]s wrap, as a release build's do. *)
From S2P Require Import Prelude Bits Container Page BTree Coords Bsi Group.

(** * Errors (error.rs) *)
Inductive ColumnError :=
| CTree (e : BTreeError)
| CPage (e : PageError)
| CUnknownCodec (c : Z)
| CUnknownShape (s : Z)
| CTruncated (need have : Z)
| CBadWidth (w : Z)
| CTooManyParts (block : Z)
| CNotValues (t : Z).
Abbreviation CRes := (Res ColumnError) (only parsing).

(** * Keys (mod.rs) *)
Definition BLOCK_SHIFT : Z := 10.
Definition BLOCK_RECORDS : Z := Z.shiftl 1 BLOCK_SHIFT.
Definition PART_BITS : Z := 8.
Definition MAX_PARTS : Z := Z.shiftl 1 PART_BITS.
Definition INLINE_MAX : Z := 4096.
Definition PAGE_BYTES : Z := PAGE_SIZE.

Definition block_of (local : Z) : Z := Z.shiftr local BLOCK_SHIFT.
Definition slot_of (local : Z) : Z := Z.land local (BLOCK_RECORDS - 1).
Definition key_of (block part : Z) : Z := Z.lor (Z.shiftl block PART_BITS mod 2 ^ 64) part.
Definition block_keys (block : Z) : Z * Z := (key_of block 0, key_of block (MAX_PARTS - 1)).
Definition block_of_key (key : Z) : Z := Z.shiftr key PART_BITS.
Definition part_of_key (key : Z) : Z := Z.land key (MAX_PARTS - 1).

(** * Encodings (codec.rs) *)
Inductive Codec := Constant | BitPacked | Rle | Plain.
#[export] Instance codec_eq_dec : EqDecision Codec.
Proof. solve_decision. Defined.
Definition codec_code (c : Codec) : Z := match c with Constant => 0 | BitPacked => 1 | Rle => 2 | Plain => 3 end.
Definition codec_from_u8 (v : Z) : option Codec :=
  if v =? 0 then Some Constant else if v =? 1 then Some BitPacked else if v =? 2 then Some Rle else if v =? 3 then Some Plain else None.

Record Encoded := mkEncoded { e_codec : Codec; e_base : Z; e_width : Z; e_bytes : list Z }.

(** [64 - max.leading_zeros()]. *)
Definition width_for (max : Z) : Z := if max =? 0 then 0 else Z.log2 max + 1.
Definition packed_len (n width : Z) : Z := div_ceil (n * width) 8.

(** [out[bit / 8] |= 1 << (bit % 8)]. *)
Definition or_bit (out : list Z) (bit : nat) : CRes (list Z) :=
  b ← unwrap (out !! (bit / 8)%nat); Ok (<[(bit / 8)%nat := Z.lor b (Z.shiftl 1 (Z.of_nat (bit mod 8)))]> out).

Fixpoint pack_bits (width : nat) (residual : Z) (out : list Z) (bit : nat) : CRes (list Z) :=
  match width with
  | O => Ok out
  | S width' =>
      out ← (if Z.land residual 1 =? 1 then or_bit out bit else Ok out);
      pack_bits width' (Z.shiftr residual 1) out (S bit)
  end.
Fixpoint pack_loop (values : list Z) (base : Z) (width : nat) (out : list Z) (bit : nat) : CRes (list Z) :=
  match values with
  | [] => Ok out
  | v :: values' => out ← pack_bits width (v - base) out bit; pack_loop values' base width out (bit + width)
  end.
Definition pack (values : list Z) (base width : Z) : CRes (list Z) :=
  let out := replicate (Z.to_nat (packed_len (len values) width)) 0 in
  if width =? 0 then Ok out else pack_loop values base (Z.to_nat width) out 0.

(** [for k in 0..width]: [todo] bits are left. *)
Fixpoint unpack_bits (todo k : nat) (bytes : list Z) (bit : nat) (v : Z) : CRes Z :=
  match todo with
  | O => Ok v
  | S todo' =>
      b ← unwrap (bytes !! (bit / 8)%nat);
      unpack_bits todo' (S k) bytes (S bit) (if Z.land (Z.shiftr b (Z.of_nat (bit mod 8))) 1 =? 1 then Z.lor v (Z.shiftl 1 (Z.of_nat k)) else v)
  end.

(** A build checks sums for overflow, as the tests and the fuzz targets are built, or lets them wrap, as a
    release build does. *)
Class Build := { overflow_checks : bool }.
Definition add64 {B : Build} (a b : Z) : CRes Z := if overflow_checks && (2 ^ 64 <=? a + b) then Panic else Ok (wrap64 (a + b)).

Fixpoint unpack_loop {B : Build} (n : nat) (bytes : list Z) (base : Z) (width : nat) (bit : nat) (out : list Z) : CRes (list Z) :=
  match n with
  | O => Ok out
  | S n' =>
      v ← unpack_bits width 0 bytes bit 0;
      x ← add64 base v;
      unpack_loop n' bytes base width (bit + width) (out ++ [x])
  end.
Definition unpack {B : Build} (bytes : list Z) (base width n : Z) (out : list Z) : CRes (list Z) :=
  if 64 <? width then Err (CBadWidth width)
  else
    let need := packed_len n width in
    if len bytes <? need then Err (CTruncated need (len bytes))
    else if width =? 0 then Ok (out ++ replicate (Z.to_nat n) base)
    else unpack_loop (Z.to_nat n) bytes base (Z.to_nat width) 0 out.

Definition RLE_ENTRY : Z := 10.
Definition u16_max : Z := 65535.

(** The length of the run that starts a list, [run] of it counted. *)
Fixpoint run_of (v : Z) (rest : list Z) (run : Z) : Z :=
  match rest with
  | x :: rest' => if (x =? v) && (run <? u16_max) then run_of v rest' (run + 1) else run
  | [] => run
  end.
(** Fuel is the number of values left. *)
Fixpoint rle_loop (fuel : nat) (values : list Z) (out : list Z) : list Z :=
  match fuel, values with
  | S fuel', v :: rest =>
      let run := run_of v rest 1 in
      rle_loop fuel' (drop (Z.to_nat run) values) (out ++ le_bytes 8 v ++ le_bytes 2 run)
  | _, _ => out
  end.
Definition encode_rle (values : list Z) : list Z := rle_loop (length values) values [].

(** Every turn adds a value or ends: fuel is one more than the values wanted. *)
Fixpoint unrle_loop (fuel : nat) (bytes : list Z) (n at_ : Z) (out : list Z) : CRes (list Z) :=
  match fuel with
  | O => Panic
  | S fuel' =>
      if len out <? n then
        if len bytes <? at_ + RLE_ENTRY then Err (CTruncated (at_ + RLE_ENTRY) (len bytes))
        else
          v ← rd 8 bytes at_;
          run ← rd 2 bytes (at_ + 8);
          let out := out ++ replicate (Z.to_nat (Z.min run (n - len out))) v in
          if run =? 0 then Err (CTruncated n (len out)) else unrle_loop fuel' bytes n (at_ + RLE_ENTRY) out
      else Ok out
  end.
Definition decode_rle (bytes : list Z) (n : Z) (out : list Z) : CRes (list Z) := unrle_loop (S (Z.to_nat n)) bytes n 0 out.

Definition encode_plain (values : list Z) : list Z := concat (map (le_bytes 8) values).

Fixpoint plain_loop (n : nat) (bytes : list Z) (i : Z) (out : list Z) : CRes (list Z) :=
  match n with
  | O => Ok out
  | S n' => v ← rd 8 bytes (i * 8); plain_loop n' bytes (i + 1) (out ++ [v])
  end.
Definition decode_plain (bytes : list Z) (n : Z) (out : list Z) : CRes (list Z) :=
  let need := n * 8 in
  if len bytes <? need then Err (CTruncated need (len bytes)) else plain_loop (Z.to_nat n) bytes 0 out.

Definition encode_values (values : list Z) : CRes Encoded :=
  match values with
  | [] => Ok (mkEncoded Constant 0 0 [])
  | v :: rest =>
      let min := foldl Z.min v rest in
      let max := foldl Z.max v rest in
      if min =? max then Ok (mkEncoded Constant min 0 [])
      else
        let width := width_for (max - min) in
        packed ← pack values min width;
        let best := mkEncoded BitPacked min width packed in
        let runs := encode_rle values in
        let best := if len runs <? len (e_bytes best) then mkEncoded Rle 0 0 runs else best in
        let plain := encode_plain values in
        Ok (if len plain <? len (e_bytes best) then mkEncoded Plain 0 0 plain else best)
  end.

Definition decode_values {B : Build} (e : Encoded) (n : Z) : CRes (list Z) :=
  match e_codec e with
  | Constant => Ok (replicate (Z.to_nat n) (e_base e))
  | BitPacked => unpack (e_bytes e) (e_base e) (e_width e) n []
  | Rle => decode_rle (e_bytes e) n []
  | Plain => decode_plain (e_bytes e) n []
  end.

(** * Blocks (block.rs) *)
Definition NULL_BYTES : Z := div_ceil BLOCK_RECORDS 8.
Definition HEADER_BYTES : Z := 16 + NULL_BYTES.
Definition CONT_HEADER_BYTES : Z := 16.
Definition VALUES_PER_PART : Z := BLOCK_RECORDS.

Inductive Shape := Scalar | Counts | Values.
#[export] Instance shape_eq_dec : EqDecision Shape.
Proof. solve_decision. Defined.
Definition shape_code (s : Shape) : Z := match s with Scalar => 0 | Counts => 1 | Values => 2 end.
Definition shape_from_u8 (v : Z) : option Shape := if v =? 0 then Some Scalar else if v =? 1 then Some Counts else if v =? 2 then Some Values else None.

Inductive Cell := CNull | CValue (v : Z) | CList (l : list Z).
#[export] Instance cell_eq_dec : EqDecision Cell.
Proof. solve_decision. Defined.
Definition is_null (c : Cell) : bool := match c with CNull => true | CValue _ => false | CList l => bool_decide (l = []) end.
Definition cell_value (c : Cell) : option Z := match c with CValue v => Some v | _ => None end.
Definition cell_list (c : Cell) : list Z := match c with CList l => l | _ => [] end.

Abbreviation Block := (list Cell) (only parsing).
Definition block_new : Block := replicate (Z.to_nat BLOCK_RECORDS) CNull.
Definition block_get (b : Block) (slot : Z) : Cell := default CNull (b !! Z.to_nat slot).
Definition block_set (b : Block) (slot : Z) (c : Cell) : Block := if slot <? len b then <[Z.to_nat slot := if is_null c then CNull else c]> b else b.
Definition block_present (b : Block) : Z := len (List.filter (λ c, negb (is_null c)) b).
Definition block_is_empty (b : Block) : bool := forallb is_null b.
Definition is_list (b : Block) : bool := existsb (λ c, match c with CList _ => true | _ => false end) b.

Record Part := mkPart { p_inline : list Z; p_page : option (list Z); p_present : Z }.

Definition part_header (s : Shape) (e : Encoded) (n : Z) : list Z :=
  [shape_code s; codec_code (e_codec e)] ++ le_bytes 2 n ++ [e_width e] ++ [0; 0; 0] ++ le_bytes 8 (e_base e).

(** [page[..payload.len()].copy_from_slice(payload)] panics when the payload is longer. *)
Definition part_split (header payload : list Z) (present : Z) : CRes Part :=
  if len header + len payload <=? INLINE_MAX then Ok (mkPart (header ++ payload) None present)
  else page ← wr (replicate (Z.to_nat PAGE_BYTES) 0) 0 payload; Ok (mkPart header (Some page) present).
Definition part_with_nulls (s : Shape) (nulls : list Z) (e : Encoded) (n : Z) : CRes Part := part_split (part_header s e n ++ nulls) (e_bytes e) n.
Definition part_plain (s : Shape) (e : Encoded) (n : Z) : CRes Part := part_split (part_header s e n) (e_bytes e) n.

(** The null bitmap and the values of the slots from [i] on. *)
Fixpoint scalar_loop (i : nat) (slots : list Cell) (nulls values : list Z) : CRes (list Z * list Z) :=
  match slots with
  | [] => Ok (nulls, values)
  | c :: slots' =>
      match cell_value c with
      | Some v => nulls ← or_bit nulls i; scalar_loop (S i) slots' nulls (values ++ [v])
      | None => scalar_loop (S i) slots' nulls values
      end
  end.
Definition no_nulls : list Z := replicate (Z.to_nat NULL_BYTES) 0.
Definition encode_scalar (b : Block) : CRes Part :=
  '(nulls, values) ← scalar_loop 0 b no_nulls [];
  e ← encode_values values;
  part_with_nulls Scalar nulls e (len values).

Fixpoint list_loop (i : nat) (slots : list Cell) (nulls counts flat : list Z) : CRes (list Z * list Z * list Z) :=
  match slots with
  | [] => Ok (nulls, counts, flat)
  | c :: slots' =>
      match cell_list c with
      | [] => list_loop (S i) slots' nulls counts flat
      | l => nulls ← or_bit nulls i; list_loop (S i) slots' nulls (counts ++ [len l]) (flat ++ l)
      end
  end.
Fixpoint value_parts (chunks : list (list Z)) : CRes (list Part) :=
  match chunks with
  | [] => Ok []
  | chunk :: chunks' => e ← encode_values chunk; p ← part_plain Values e (len chunk); ps ← value_parts chunks'; Ok (p :: ps)
  end.
Definition encode_list (b : Block) : CRes (list Part) :=
  '(nulls, counts, flat) ← list_loop 0 b no_nulls [] [];
  e ← encode_values counts;
  head ← part_with_nulls Counts nulls e (len counts);
  cs ← chunks VALUES_PER_PART flat;
  ps ← value_parts cs;
  if MAX_PARTS <? len (head :: ps) then Err (CTooManyParts 0) else Ok (head :: ps).

Definition block_encode (b : Block) : CRes (list Part) :=
  if block_is_empty b then Ok []
  else if is_list b then encode_list b
  else p ← encode_scalar b; Ok [p].

Record PartRef := mkPartRef { pr_header : list Z; pr_body : list Z }.
Record Header := mkHeader { h_shape : Shape; h_codec : Codec; h_n : Z; h_width : Z; h_base : Z; h_nulls : list Z; h_inline_payload : list Z }.

Definition header_parse (bytes : list Z) : CRes Header :=
  if len bytes <? CONT_HEADER_BYTES then Err (CTruncated CONT_HEADER_BYTES (len bytes))
  else
    b0 ← unwrap (bytes !! 0%nat);
    match shape_from_u8 b0 with
    | None => Err (CUnknownShape b0)
    | Some shape =>
        b1 ← unwrap (bytes !! 1%nat);
        match codec_from_u8 b1 with
        | None => Err (CUnknownCodec b1)
        | Some codec =>
            n ← rd 2 bytes 2;
            width ← unwrap (bytes !! 4%nat);
            if 64 <? width then Err (CBadWidth width)
            else
              base ← rd 8 bytes 8;
              match shape with
              | Values => Ok (mkHeader shape codec n width base [] (drop (Z.to_nat CONT_HEADER_BYTES) bytes))
              | _ =>
                  if len bytes <? HEADER_BYTES then Err (CTruncated HEADER_BYTES (len bytes))
                  else Ok (mkHeader shape codec n width base (take (Z.to_nat NULL_BYTES) (drop (Z.to_nat CONT_HEADER_BYTES) bytes)) (drop (Z.to_nat HEADER_BYTES) bytes))
              end
        end
    end.

Definition header_encoded (h : Header) (page : list Z) : Encoded :=
  mkEncoded (h_codec h) (h_base h) (h_width h) (if bool_decide (h_inline_payload h = []) then page else h_inline_payload h).

Definition present_at (nulls : list Z) (i : nat) : bool :=
  match nulls !! (i / 8)%nat with Some b => Z.land (Z.shiftr b (Z.of_nat (i mod 8))) 1 =? 1 | None => false end.
Definition present_slots (h : Header) : list nat := List.filter (present_at (h_nulls h)) (seq 0 (Z.to_nat BLOCK_RECORDS)).

(** [block.slots[slot] = cell]. *)
Definition put_slot (b : Block) (slot : nat) (c : Cell) : CRes Block := if (slot <? length b)%nat then Ok (<[slot := c]> b) else Panic.

Fixpoint fill_scalar (slots : list nat) (next_ : nat) (values : list Z) (b : Block) : CRes Block :=
  match slots with
  | [] => Ok b
  | slot :: slots' =>
      match values !! next_ with
      | None => Err (CTruncated (Z.of_nat next_ + 1) (len values))
      | Some v => b ← put_slot b slot (CValue v); fill_scalar slots' (S next_) values b
      end
  end.

Fixpoint flat_of {B : Build} (parts : list PartRef) (flat : list Z) : CRes (list Z) :=
  match parts with
  | [] => Ok flat
  | p :: parts' =>
      h ← header_parse (pr_header p);
      if negb (bool_decide (h_shape h = Values)) then Err (CUnknownShape (shape_code (h_shape h)))
      else chunk ← decode_values (header_encoded h (pr_body p)) (h_n h); flat_of parts' (flat ++ chunk)
  end.

(** The checked sum of an offset and a count that fits a [usize]. *)
Fixpoint fill_lists (slots : list nat) (counts : list Z) (at_ : Z) (flat : list Z) (b : Block) : CRes Block :=
  match slots, counts with
  | slot :: slots', count :: counts' =>
      let end_ := at_ + count in
      if (2 ^ 64 <=? end_) || (len flat <? end_) then Err (CTruncated (len flat + 1) (len flat))
      else s ← slice flat at_ count; b ← put_slot b slot (CList s); fill_lists slots' counts' end_ flat b
  | _, _ => Ok b
  end.

Definition block_decode {B : Build} (parts : list PartRef) : CRes Block :=
  match parts with
  | [] => Ok block_new
  | first :: rest =>
      head ← header_parse (pr_header first);
      match h_shape head with
      | Scalar =>
          values ← decode_values (header_encoded head (pr_body first)) (h_n head);
          fill_scalar (present_slots head) 0 values block_new
      | Counts =>
          counts ← decode_values (header_encoded head (pr_body first)) (h_n head);
          flat ← flat_of rest [];
          fill_lists (present_slots head) counts 0 flat block_new
      | Values => Err (CUnknownShape (shape_code Values))
      end
  end.

(** * Edits waiting to be written (mod.rs) *)
Inductive ColEdit := EReplace (c : Cell) | EAddOne (r : Z) | EAdd (rs : list Z).
Definition absorb (self next_ : ColEdit) : ColEdit :=
  match self, next_ with
  | EAddOne have, EAddOne one => EAdd [have; one]
  | EAddOne have, EAdd more => EAdd (have :: more)
  | EAdd have, EAddOne one => EAdd (have ++ [one])
  | EAdd have, EAdd more => EAdd (have ++ more)
  | _, next_ => next_
  end.

Section examples.
#[local] Instance checking : Build := {| overflow_checks := true |}.

Example ascending_packs : ∃ e, encode_values (seqZ 1000 300) = Ok e ∧ e_codec e = BitPacked ∧ e_width e = 9 ∧ decode_values e 300 = Ok (seqZ 1000 300).
Proof. eexists. split; [vm_compute; reflexivity|]. split; [done|]. split; [done|]. vm_compute. done. Qed.
Example runs_win : ∃ e, encode_values (replicate 30 0 ++ replicate 30 (2 ^ 64 - 1)) = Ok e ∧ e_codec e = Rle ∧ decode_values e 60 = Ok (replicate 30 0 ++ replicate 30 (2 ^ 64 - 1)).
Proof. eexists. split; [vm_compute; reflexivity|]. split; [done|]. vm_compute. done. Qed.
(** One packed value whose sum with the base passes 64 bits: a build that checks panics on it. *)
Example sum_overflows : block_decode [mkPartRef ([0; codec_code BitPacked; 1; 0; 1; 0; 0; 0] ++ replicate 8 255 ++ [1] ++ replicate 127 0 ++ [1]) []] = Panic.
Proof. vm_compute. reflexivity. Qed.
End examples.
