(* ===== verification/ColumnSpec.v ===== *)
(** What the encodings of column values promise (the theory of Column.v). *)
From S2P Require Import Prelude Bits Container Page BTree Coords Bsi Group Column.

(** * Bits of a buffer *)
Definition buf_bit (b : list Z) (i : nat) : bool := match b !! (i / 8)%nat with Some x => Z.testbit x (Z.of_nat (i mod 8)) | None => false end.

Lemma present_bit b i : present_at b i = buf_bit b i.
Proof.
  unfold present_at, buf_bit. destruct (b !! (i / 8)%nat) as [x|]; [|done]. change (Z.land (Z.shiftr x (Z.of_nat (i mod 8))) 1 =? 1) with (bit_of x (Z.of_nat (i mod 8))). apply bit_of_testbit. lia.
Qed.

Lemma div8 i : (i = 8 * (i / 8) + i mod 8 ∧ i mod 8 < 8)%nat.
Proof. split; [apply Nat.div_mod_eq|apply Nat.mod_upper_bound; lia]. Qed.

Lemma or_bit_ok b i : (i < 8 * length b)%nat → Forall byte b →
  ∃ b', or_bit b i = Ok b' ∧ length b' = length b ∧ Forall byte b' ∧ ∀ j, buf_bit b' j = if (j =? i)%nat then true else buf_bit b j.
Proof.
  intros Hi Hb. pose proof (div8 i) as [Di Mi]. assert (Hl : (i / 8 < length b)%nat) by lia. destruct (lookup_lt_is_Some_2 b _ Hl) as [x Hx]. unfold or_bit. rewrite Hx. cbn [unwrap mbind Res_bind].
  eexists. split; [reflexivity|]. split; [apply length_insert|]. pose proof (proj1 (Forall_lookup _ _) Hb _ _ Hx) as Bx. cbn in Bx. unfold byte in Bx.
  assert (Bor : byte (Z.lor x (Z.shiftl 1 (Z.of_nat (i mod 8))))).
  { unfold byte. assert (0 <= Z.shiftl 1 (Z.of_nat (i mod 8))) by (apply Z.shiftl_nonneg; lia). split; [apply Z.lor_nonneg; lia|]. rewrite Z.shiftl_1_l. change 256 with (2 ^ 8).
    destruct (Z.eq_dec (Z.lor x (2 ^ Z.of_nat (i mod 8))) 0) as [->|Hne]; [lia|]. apply Z.log2_lt_pow2; [assert (0 <= Z.lor x (2 ^ Z.of_nat (i mod 8))) by (apply Z.lor_nonneg; lia); lia|].
    rewrite Z.log2_lor by lia. rewrite Z.log2_pow2 by lia. destruct (Z.eq_dec x 0) as [->|]; [cbn; lia|]. assert (Z.log2 x < 8) by (apply Z.log2_lt_pow2; lia). lia. }
  split; [by apply Forall_insert|]. intros j. pose proof (div8 j) as [Dj Mj]. unfold buf_bit. destruct (Nat.eqb_spec (j / 8) (i / 8)) as [E|E].
  - rewrite E, list_lookup_insert_eq, Hx by exact Hl. rewrite Z.lor_spec, testbit_pow2 by lia. destruct (Nat.eqb_spec j i) as [->|Hne]; [rewrite Z.eqb_refl; apply orb_true_r|]. destruct (Z.eqb_spec (Z.of_nat (j mod 8)) (Z.of_nat (i mod 8))); [lia|]. apply orb_false_r.
  - rewrite list_lookup_insert_ne by done. destruct (Nat.eqb_spec j i) as [->|]; [done|]. done.
Qed.

Lemma buf_bit_zero n i : buf_bit (replicate n 0) i = false.
Proof. unfold buf_bit. destruct (replicate n 0 !! (i / 8)%nat) as [x|] eqn:E; [|done]. apply lookup_replicate in E as [-> _]. apply Z.bits_0. Qed.
Lemma zero_bytes n : Forall byte (replicate n 0).
Proof. apply Forall_replicate. unfold byte. lia. Qed.

(** * Packing *)
Lemma pack_bits_ok width : ∀ r b bit, 0 <= r → (bit + width <= 8 * length b)%nat → Forall byte b → (∀ i, (bit <= i)%nat → buf_bit b i = false) →
  ∃ b', pack_bits width r b bit = Ok b' ∧ length b' = length b ∧ Forall byte b' ∧
    ∀ i, buf_bit b' i = if (i <? bit)%nat then buf_bit b i else if (i <? bit + width)%nat then Z.testbit r (Z.of_nat (i - bit)) else false.
Proof.
  induction width as [|width IH]; intros r b bit Hr Hl Hb Hz; cbn [pack_bits].
  - exists b. split; [done|]. split; [done|]. split; [exact Hb|]. intros i. rewrite Nat.add_0_r. destruct (Nat.ltb_spec i bit); [done|]. by apply Hz.
  - change (Z.land r 1 =? 1) with (bit_of r 0). rewrite bit_of_testbit by lia.
    assert (H : ∃ b1, (if Z.testbit r 0 then or_bit b bit else Ok b) = Ok b1 ∧ length b1 = length b ∧ Forall byte b1 ∧ ∀ j, buf_bit b1 j = if (j =? bit)%nat then Z.testbit r 0 else buf_bit b j).
    { destruct (Z.testbit r 0); [apply or_bit_ok; [lia|exact Hb]|]. exists b. split; [done|]. split; [done|]. split; [exact Hb|]. intros j. destruct (Nat.eqb_spec j bit) as [->|]; [by apply Hz|done]. }
    destruct H as (b1 & E & L1 & B1 & H1). rewrite E. cbn [mbind Res_bind]. destruct (IH (Z.shiftr r 1) b1 (S bit)) as (b2 & E2 & L2 & B2 & H2).
    + by apply Z.shiftr_nonneg.
    + rewrite L1. lia.
    + exact B1.
    + intros i Hi. rewrite H1. destruct (Nat.eqb_spec i bit); [lia|]. apply Hz. lia.
    + exists b2. split; [exact E2|]. split; [lia|]. split; [exact B2|]. intros i. rewrite H2, H1. rewrite Z.shiftr_spec by lia.
      destruct (Nat.ltb_spec i (S bit)), (Nat.eqb_spec i bit), (Nat.ltb_spec i bit), (Nat.ltb_spec i (S bit + width)), (Nat.ltb_spec i (bit + S width)); try lia; try done.
      * subst i. by rewrite Nat.sub_diag.
      * f_equal. lia.
Qed.

Lemma pack_loop_ok values base width : Forall (λ v, base <= v) values → ∀ b bit, (bit + length values * width <= 8 * length b)%nat → Forall byte b → (∀ i, (bit <= i)%nat → buf_bit b i = false) →
  ∃ b', pack_loop values base width b bit = Ok b' ∧ length b' = length b ∧ Forall byte b' ∧ (∀ i, (i < bit)%nat → buf_bit b' i = buf_bit b i) ∧
    ∀ j v k, values !! j = Some v → (k < width)%nat → buf_bit b' (bit + j * width + k) = Z.testbit (v - base) (Z.of_nat k).
Proof.
  induction 1 as [|v values Hv _ IH]; intros b bit Hl Hb Hz; cbn [pack_loop length] in *; [exists b; split; [done|]; split; [done|]; split; [exact Hb|]; split; [done|]; intros j v k Hj; by rewrite lookup_nil in Hj|].
  destruct (pack_bits_ok width (v - base) b bit ltac:(lia) ltac:(lia) Hb Hz) as (b1 & E1 & L1 & B1 & H1). rewrite E1. cbn [mbind Res_bind].
  destruct (IH b1 (bit + width)%nat) as (b2 & E2 & L2 & B2 & H2 & H3); [lia|exact B1|intros i Hi; rewrite H1; destruct (Nat.ltb_spec i bit), (Nat.ltb_spec i (bit + width)); lia || done|].
  exists b2. split; [exact E2|]. split; [lia|]. split; [exact B2|]. split.
  - intros i Hi. rewrite H2 by lia. rewrite H1. by destruct (Nat.ltb_spec i bit); [|lia].
  - intros [|j] v' k Hj Hk; cbn in Hj.
    + injection Hj as <-. rewrite H2 by lia. rewrite H1. destruct (Nat.ltb_spec (bit + 0 * width + k) bit), (Nat.ltb_spec (bit + 0 * width + k) (bit + width)); try lia. f_equal. lia.
    + rewrite <- (H3 j v' k Hj Hk). f_equal. lia.
Qed.

Lemma mod_next r k : 0 <= k → r mod 2 ^ (k + 1) = if Z.testbit r k then Z.lor (r mod 2 ^ k) (Z.shiftl 1 k) else r mod 2 ^ k.
Proof.
  intros Hk. apply Z.bits_inj'. intros i Hi. rewrite Z.testbit_mod_pow2 by lia. destruct (Z.testbit r k) eqn:E.
  - rewrite Z.lor_spec, Z.testbit_mod_pow2, testbit_pow2 by lia. destruct (Z.eqb_spec i k) as [->|]; [rewrite E; destruct (Z.ltb_spec k (k + 1)); [|lia]; by rewrite orb_true_r|].
    rewrite orb_false_r. destruct (Z.ltb_spec i (k + 1)), (Z.ltb_spec i k); try lia; done.
  - rewrite Z.testbit_mod_pow2 by lia. destruct (Z.ltb_spec i (k + 1)), (Z.ltb_spec i k); try lia; try done. assert (i = k) as -> by lia. by rewrite E.
Qed.

Lemma unpack_bits_ok todo : ∀ k bytes bit r, (bit + todo <= 8 * length bytes)%nat → (∀ i, (i < todo)%nat → buf_bit bytes (bit + i) = Z.testbit r (Z.of_nat (k + i))) →
  unpack_bits todo k bytes bit (r mod 2 ^ Z.of_nat k) = Ok (r mod 2 ^ Z.of_nat (k + todo)).
Proof.
  induction todo as [|todo IH]; intros k bytes bit r Hl Hb; cbn [unpack_bits]; [by rewrite Nat.add_0_r|]. pose proof (div8 bit) as [D M].
  destruct (lookup_lt_is_Some_2 bytes (bit / 8)%nat ltac:(lia)) as [x Hx]. rewrite Hx. cbn [unwrap mbind Res_bind].
  assert (Ex : (Z.land (Z.shiftr x (Z.of_nat (bit mod 8))) 1 =? 1) = Z.testbit r (Z.of_nat k)).
  { pose proof (Hb 0%nat ltac:(lia)) as H. rewrite !Nat.add_0_r in H. rewrite <- H, <- present_bit. unfold present_at. by rewrite Hx. }
  rewrite Ex. rewrite <- mod_next by lia. replace (Z.of_nat k + 1) with (Z.of_nat (S k)) by lia. rewrite IH; [by replace (k + S todo)%nat with (S k + todo)%nat by lia|lia|]. intros i Hi. replace (S bit + i)%nat with (bit + S i)%nat by lia. rewrite Hb by lia. f_equal. lia.
Qed.

Section builds.
Context {build : Build}.

Lemma unpack_loop_ok values base width bytes : Forall (λ v, base <= v < 2 ^ 64 ∧ v - base < 2 ^ Z.of_nat width) values → 0 <= base → ∀ bit out, (bit + length values * width <= 8 * length bytes)%nat →
  (∀ j v k, values !! j = Some v → (k < width)%nat → buf_bit bytes (bit + j * width + k) = Z.testbit (v - base) (Z.of_nat k)) →
  unpack_loop (length values) bytes base width bit out = Ok (out ++ values).
Proof.
  intros HF Hbase. induction HF as [|v values [Hv Hw] _ IH]; intros bit out Hl Hb; cbn [unpack_loop length] in *; [by rewrite app_nil_r|].
  assert (E : unpack_bits width 0 bytes bit 0 = Ok (v - base)).
  { pose proof (unpack_bits_ok width 0 bytes bit (v - base) ltac:(lia)) as H. cbn [Z.of_nat Nat.add] in H. change (2 ^ 0) with 1 in H. rewrite Z.mod_1_r in H. rewrite H; [f_equal; apply Z.mod_small; lia|].
    intros i Hi. rewrite <- (Hb 0%nat v i eq_refl Hi). f_equal. lia. }
  rewrite E. cbn [mbind Res_bind]. unfold add64. replace (base + (v - base)) with v by lia. rewrite (proj2 (Z.leb_gt _ _)) by lia. rewrite andb_false_r. cbn [mbind Res_bind]. unfold wrap64. rewrite Z.mod_small by lia. rewrite IH; [by rewrite <- app_assoc|lia|].
  intros j v' k Hj Hk. rewrite <- (Hb (S j) v' k Hj Hk). f_equal. lia.
Qed.

Lemma packed_len_ok n w : 0 <= n → 0 <= w → n * w <= 8 * packed_len n w ∧ 0 <= packed_len n w ∧ (w <= 64 → packed_len n w <= 8 * n).
Proof.
  intros Hn Hw. unfold packed_len, div_ceil. pose proof (Z.div_mod (n * w + 8 - 1) 8 ltac:(lia)). pose proof (Z.mod_pos_bound (n * w + 8 - 1) 8 ltac:(lia)). assert (0 <= n * w) by nia. split; [lia|]. split; [lia|]. intros H64.
  assert (n * w <= n * 64) by nia. lia.
Qed.

Lemma len_app {A} (a b : list A) : len (a ++ b) = len a + len b.
Proof. unfold len. rewrite length_app. lia. Qed.

Lemma buf_bit_app a b i : (i < 8 * length a)%nat → buf_bit (a ++ b) i = buf_bit a i.
Proof. intros Hi. unfold buf_bit. pose proof (div8 i). rewrite lookup_app_l by lia. done. Qed.

Lemma pack_ok values base width : Forall (λ v, base <= v < 2 ^ 64 ∧ v - base < 2 ^ width) values → 0 <= base → 0 <= width <= 64 →
  ∃ b, pack values base width = Ok b ∧ len b = packed_len (len values) width ∧ Forall byte b ∧ ∀ tail, unpack (b ++ tail) base width (len values) [] = Ok values.
Proof.
  intros HF Hb Hw. destruct (packed_len_ok (len values) width) as (P1 & P2 & _); [unfold len; lia|lia|]. unfold pack. set (z := replicate (Z.to_nat (packed_len (len values) width)) 0).
  assert (Hz : len z = packed_len (len values) width) by (unfold z, len at 1; rewrite length_replicate; lia). destruct (Z.eqb_spec width 0) as [->|Hne].
  - exists z. split; [done|]. split; [exact Hz|]. split; [apply zero_bytes|]. intros tail. unfold unpack. cbn [Z.ltb Z.compare]. rewrite len_app, Hz. destruct (Z.ltb_spec (packed_len (len values) 0 + len tail) (packed_len (len values) 0)); [unfold len in *; lia|]. cbn [Z.eqb app]. f_equal.
    unfold len. rewrite Nat2Z.id. apply replicate_as_Forall. split; [done|]. eapply Forall_impl; [exact HF|]. intros v [H1 H2]. cbn in H2. lia.
  - assert (HF' : Forall (λ v, base <= v) values) by (eapply Forall_impl; [exact HF|]; intros v; cbn; lia).
    assert (Hlen : (0 + length values * Z.to_nat width <= 8 * length z)%nat) by (unfold len in *; nia).
    destruct (pack_loop_ok values base (Z.to_nat width) HF' z 0 Hlen (zero_bytes _)) as (b & E & Lb & Bb & _ & H); [intros i _; apply buf_bit_zero|].
    exists b. split; [exact E|]. split; [unfold len in *; by rewrite Lb|]. split; [exact Bb|]. intros tail. unfold unpack. destruct (Z.ltb_spec 64 width); [lia|]. rewrite len_app. destruct (Z.ltb_spec (len b + len tail) (packed_len (len values) width)); [unfold len in *; lia|]. destruct (Z.eqb_spec width 0); [lia|].
    unfold len at 1. rewrite Nat2Z.id. apply unpack_loop_ok; [rewrite Z2Nat.id by lia; exact HF|exact Hb|rewrite length_app; lia|].
    intros j v k Hj Hk. rewrite buf_bit_app; [by apply H|]. apply lookup_lt_Some in Hj. nia.
Qed.

(** * Runs and plain values *)
Lemma rd_app n pre v rest : 0 <= v < 256 ^ Z.of_nat n → rd (E := ColumnError) n (pre ++ le_bytes n v ++ rest) (len pre) = Ok v.
Proof.
  intros Hv. rewrite rd_ok; [|unfold len; lia|rewrite !length_app, length_le_bytes; unfold len; lia]. unfold len. rewrite Nat2Z.id, drop_app_length.
  rewrite take_app_le by (rewrite length_le_bytes; lia). rewrite take_ge by (rewrite length_le_bytes; lia). by rewrite of_le_le_bytes.
Qed.

Lemma run_of_ok v rest : ∀ run, 1 <= run <= u16_max → let r := run_of v rest run in run <= r <= u16_max ∧ ∃ k, r = run + Z.of_nat k ∧ take k rest = replicate k v ∧ (k <= length rest)%nat.
Proof.
  induction rest as [|x rest IH]; intros run Hr; cbn [run_of]; [split; [lia|]; exists 0%nat; split; [lia|]; split; [done|cbn; lia]|].
  destruct (Z.eqb_spec x v) as [->|]; cbn [andb]; [|split; [lia|]; exists 0%nat; split; [lia|]; split; [done|cbn; lia]].
  destruct (Z.ltb_spec run u16_max); [|split; [lia|]; exists 0%nat; split; [lia|]; split; [done|cbn; lia]].
  destruct (IH (run + 1) ltac:(lia)) as (H1 & k & H2 & H3 & H4). split; [lia|]. exists (S k). split; [lia|]. split; [cbn; by rewrite H3|cbn; lia].
Qed.

Lemma rle_loop_app fuel : ∀ values out, rle_loop fuel values out = out ++ rle_loop fuel values [].
Proof.
  induction fuel as [|fuel IH]; intros values out; cbn [rle_loop]; [by rewrite app_nil_r|]. destruct values as [|v rest]; [by rewrite app_nil_r|]. rewrite IH, (IH _ ([] ++ _)). by rewrite app_nil_l, !app_assoc.
Qed.

Definition words (values : list Z) : Prop := Forall (λ v, 0 <= v < 2 ^ 64) values.

Lemma rle_ok n tail f : ∀ fuel values pre out, words values → (length values <= fuel)%nat → (length values < f)%nat → n = len out + len values →
  unrle_loop f (pre ++ rle_loop fuel values [] ++ tail) n (len pre) out = Ok (out ++ values).
Proof.
  induction f as [|f IH]; intros fuel values pre out HW Hfuel Hf Hn; [lia|]. cbn [unrle_loop]. destruct values as [|v rest].
  { cbn [len length] in Hn. unfold len in Hn at 2. cbn in Hn. destruct (Z.ltb_spec (len out) n); [lia|]. by rewrite app_nil_r. }
  destruct fuel as [|fuel]; [cbn in Hfuel; lia|]. apply Forall_cons in HW as [Hv HW]. destruct (Z.ltb_spec (len out) n) as [_|Hge]; [|unfold len in Hn, Hge; cbn in Hn; lia].
  cbn [rle_loop]. destruct (run_of_ok v rest 1 ltac:(unfold u16_max; lia)) as (Hrun & k & Ek & Htake & Hk). set (run := run_of v rest 1) in *. clearbody run. rewrite rle_loop_app. cbn [app].
  set (more := rle_loop fuel (drop (Z.to_nat run) (v :: rest)) []).
  assert (Elen : (len (pre ++ ((le_bytes 8 v ++ le_bytes 2 run) ++ more) ++ tail) <? len pre + RLE_ENTRY) = false) by (rewrite !len_app; unfold len, RLE_ENTRY; rewrite !length_le_bytes; lia).
  rewrite Elen. rewrite <- !app_assoc. rewrite rd_app by (change (256 ^ Z.of_nat 8) with (2 ^ 64); exact Hv). cbn [mbind Res_bind].
  replace (len pre + 8) with (len (pre ++ le_bytes 8 v)) by (rewrite len_app; unfold len; rewrite length_le_bytes; lia).
  rewrite (app_assoc pre (le_bytes 8 v)). unfold u16_max in Hrun. rewrite rd_app by (change (256 ^ Z.of_nat 2) with 65536; lia). cbn [mbind Res_bind].
  assert (Hlr : len (v :: rest) = 1 + len rest) by (unfold len; cbn; lia). destruct (Z.eqb_spec run 0); [lia|]. rewrite Z.min_l by (unfold len in *; lia).
  replace (len pre + RLE_ENTRY) with (len ((pre ++ le_bytes 8 v) ++ le_bytes 2 run)) by (rewrite !len_app; unfold len, RLE_ENTRY; rewrite !length_le_bytes; lia).
  rewrite (app_assoc (pre ++ le_bytes 8 v)). unfold more.
  assert (Evals : v :: rest = replicate (Z.to_nat run) v ++ drop (Z.to_nat run) (v :: rest)).
  { rewrite <- (take_drop (Z.to_nat run) (v :: rest)) at 1. f_equal. replace (Z.to_nat run) with (S k) by lia. cbn [take replicate]. by rewrite Htake. }
  rewrite IH.
  - rewrite <- app_assoc. by rewrite <- Evals.
  - apply Forall_drop. by constructor.
  - rewrite length_drop. cbn [length] in *. lia.
  - rewrite length_drop. cbn [length] in *. lia.
  - rewrite len_app. unfold len in *. rewrite length_replicate, length_drop. cbn [length] in *. lia.
Qed.

Lemma decode_rle_ok values tail : words values → decode_rle (encode_rle values ++ tail) (len values) [] = Ok values.
Proof. intros HW. unfold decode_rle, encode_rle. apply (rle_ok (len values) tail _ (length values) values [] [] HW); [done|unfold len; lia|unfold len; cbn; lia]. Qed.

Lemma plain_ok tail values : ∀ pre out i, words values → len pre = i * 8 → plain_loop (length values) (pre ++ encode_plain values ++ tail) i out = Ok (out ++ values).
Proof.
  induction values as [|v values IH]; intros pre out i HW Hp; cbn [plain_loop length]; [by rewrite app_nil_r|]. apply Forall_cons in HW as [Hv HW]. unfold encode_plain. cbn [map concat]. rewrite <- Hp, <- !app_assoc, rd_app by (change (256 ^ Z.of_nat 8) with (2 ^ 64); exact Hv).
  cbn [mbind Res_bind]. rewrite (app_assoc pre). change (concat (map (le_bytes 8) values)) with (encode_plain values). rewrite IH; [by rewrite <- app_assoc|exact HW|]. rewrite len_app. unfold len at 2. rewrite length_le_bytes. lia.
Qed.

Lemma plain_len values : len (encode_plain values) = 8 * len values.
Proof. unfold encode_plain, len. induction values as [|v values IH]; [done|]. cbn [map concat length]. rewrite length_app, length_le_bytes. lia. Qed.

Lemma decode_plain_ok values tail : words values → decode_plain (encode_plain values ++ tail) (len values) [] = Ok values.
Proof.
  intros HW. unfold decode_plain. rewrite len_app, plain_len. destruct (Z.ltb_spec (8 * len values + len tail) (len values * 8)); [unfold len in *; lia|]. unfold len. rewrite Nat2Z.id. by apply (plain_ok tail values [] [] 0 HW).
Qed.

(** * Choosing an encoding *)
Lemma least_of rest : ∀ v, foldl Z.min v rest <= v ∧ Forall (λ x, foldl Z.min v rest <= x) rest ∧ (foldl Z.min v rest = v ∨ foldl Z.min v rest ∈ rest).
Proof.
  induction rest as [|x rest IH]; intros v; cbn [foldl]; [split; [lia|]; split; [constructor|by left]|]. destruct (IH (Z.min v x)) as (H1 & H2 & H3). split; [lia|]. split; [constructor; [lia|exact H2]|].
  rewrite elem_of_cons. destruct H3 as [H3|H3]; [lia|tauto].
Qed.
Lemma greatest_of rest : ∀ v, v <= foldl Z.max v rest ∧ Forall (λ x, x <= foldl Z.max v rest) rest ∧ (foldl Z.max v rest = v ∨ foldl Z.max v rest ∈ rest).
Proof.
  induction rest as [|x rest IH]; intros v; cbn [foldl]; [split; [lia|]; split; [constructor|by left]|]. destruct (IH (Z.max v x)) as (H1 & H2 & H3). split; [lia|]. split; [constructor; [lia|exact H2]|].
  rewrite elem_of_cons. destruct H3 as [H3|H3]; [lia|tauto].
Qed.

Lemma width_ok x : 0 <= x < 2 ^ 64 → 0 <= width_for x <= 64 ∧ x < 2 ^ width_for x.
Proof.
  intros Hx. unfold width_for. destruct (Z.eqb_spec x 0) as [->|Hne]; [lia|]. pose proof (Z.log2_spec x ltac:(lia)) as [_ H]. pose proof (Z.log2_nonneg x). assert (Z.log2 x < 64) by (apply Z.log2_lt_pow2; lia). split; [lia|]. by rewrite Z.add_1_r.
Qed.

Lemma bytes_app a b : Forall byte a → Forall byte b → Forall byte (a ++ b).
Proof. intros. by apply Forall_app. Qed.
Lemma rle_bytes fuel : ∀ values out, Forall byte out → Forall byte (rle_loop fuel values out).
Proof. induction fuel as [|fuel IH]; intros values out H; [done|]. destruct values; [done|]. cbn [rle_loop]. apply IH. repeat apply bytes_app; try apply bytes_le_bytes. exact H. Qed.
Lemma plain_bytes values : Forall byte (encode_plain values).
Proof. unfold encode_plain. induction values; [constructor|]. cbn. apply bytes_app; [apply bytes_le_bytes|done]. Qed.

(** An encoding that reads back with anything after it. *)
Record encodes (values : list Z) (e : Encoded) : Prop := {
  en_bytes : Forall byte (e_bytes e);
  en_width : 0 <= e_width e <= 64;
  en_base : 0 <= e_base e < 2 ^ 64;
  en_size : len (e_bytes e) <= 8 * len values;
  en_back tail : decode_values (mkEncoded (e_codec e) (e_base e) (e_width e) (e_bytes e ++ tail)) (len values) = Ok values
}.

Lemma constant_ok values x : Forall (λ v, v = x) values → 0 <= x < 2 ^ 64 → encodes values (mkEncoded Constant x 0 []).
Proof.
  intros HF Hx. split; cbn [e_bytes e_width e_base e_codec]; [constructor|lia|exact Hx|unfold len; cbn; lia|]. intros tail. unfold decode_values. cbn [e_codec e_base]. f_equal. unfold len. rewrite Nat2Z.id. apply replicate_as_Forall. split; [done|].
  eapply Forall_impl; [exact HF|]. by intros v ->.
Qed.

Lemma encode_values_ok values : words values →
  ∃ e, encode_values values = Ok e ∧ encodes values e ∧ (e_codec e ≠ Constant → len (e_bytes e) <= len (encode_rle values) ∧ len (e_bytes e) <= len (encode_plain values)).
Proof.
  intros HW. destruct values as [|v rest]; [eexists; split; [reflexivity|]; split; [apply constant_ok; [constructor|lia]|done]|]. pose proof HW as [Hv HW']%Forall_cons.
  destruct (least_of rest v) as (Mi1 & Mi2 & Mi3), (greatest_of rest v) as (Ma1 & Ma2 & Ma3). unfold encode_values. cbv zeta. set (mi := foldl Z.min v rest) in *. set (ma := foldl Z.max v rest) in *. clearbody mi ma.
  assert (Bmi : 0 <= mi < 2 ^ 64) by (destruct Mi3 as [->|H]; [exact Hv|rewrite Forall_forall in HW'; by apply HW']). assert (Bma : 0 <= ma < 2 ^ 64) by (destruct Ma3 as [->|H]; [exact Hv|rewrite Forall_forall in HW'; by apply HW']).
  assert (Hall : Forall (λ x, mi <= x <= ma ∧ 0 <= x < 2 ^ 64) (v :: rest)).
  { constructor; [lia|]. rewrite Forall_forall in *. intros x Hx. specialize (Mi2 x Hx). specialize (Ma2 x Hx). specialize (HW' x Hx). cbn in *. lia. }
  destruct (Z.eqb_spec mi ma) as [<-|Hne].
  { eexists. split; [reflexivity|]. split; [|done]. apply constant_ok; [|exact Bmi]. eapply Forall_impl; [exact Hall|]. intros x Hx. cbn in Hx. lia. }
  destruct (width_ok (ma - mi) ltac:(lia)) as [Hw1 Hw2]. set (w := width_for (ma - mi)) in *. clearbody w.
  destruct (pack_ok (v :: rest) mi w) as (b & Eb & Lb & Bb & Ub); [eapply Forall_impl; [exact Hall|]; intros x Hx; cbn in Hx; lia|lia|lia|]. rewrite Eb. cbn [mbind Res_bind e_bytes].
  destruct (packed_len_ok (len (v :: rest)) w) as (_ & _ & P3); [unfold len; lia|lia|]. specialize (P3 ltac:(lia)).
  assert (Epack : encodes (v :: rest) (mkEncoded BitPacked mi w b)) by (split; cbn [e_bytes e_width e_base e_codec]; [exact Bb|lia|exact Bmi|lia|exact Ub]).
  assert (Eplain : encodes (v :: rest) (mkEncoded Plain 0 0 (encode_plain (v :: rest)))).
  { split; cbn [e_bytes e_width e_base e_codec]; [apply plain_bytes|lia|lia|rewrite plain_len; lia|]. intros tail. unfold decode_values. cbn [e_codec e_bytes]. by apply decode_plain_ok. }
  assert (Erle : len (encode_rle (v :: rest)) < len b → encodes (v :: rest) (mkEncoded Rle 0 0 (encode_rle (v :: rest)))).
  { intros Hlt. split; cbn [e_bytes e_width e_base e_codec]; [by apply rle_bytes|lia|lia|lia|]. intros tail. unfold decode_values. cbn [e_codec e_bytes]. by apply decode_rle_ok. }
  eexists. split; [reflexivity|]. destruct (Z.ltb_spec (len (encode_rle (v :: rest))) (len b)); cbn [e_bytes]; match goal with |- context [?x <? ?y] => destruct (Z.ltb_spec x y) end; cbn [e_bytes]; (split; [auto|intros _; lia]).
Qed.

(** The encodings of values.  Every list of words has an encoding, whichever of the four is
    chosen: it is no larger than eight bytes a value - so a block never needs a second page - and no
    larger than the others; and it reads back as the list, also with the padding of a page after it. *)
Theorem values_roundtrip values tail : words values →
  ∃ e, encode_values values = Ok e ∧ len (e_bytes e) <= 8 * len values ∧
    (e_codec e ≠ Constant → len (e_bytes e) <= len (encode_rle values) ∧ len (e_bytes e) <= len (encode_plain values)) ∧
    decode_values e (len values) = Ok values ∧ decode_values (mkEncoded (e_codec e) (e_base e) (e_width e) (e_bytes e ++ tail)) (len values) = Ok values.
Proof.
  intros HW. destruct (encode_values_ok values HW) as (e & E & He & Hs). exists e. split; [exact E|]. split; [apply He|]. split; [exact Hs|]. split; [|apply (en_back _ _ He)].
  pose proof (en_back _ _ He []) as H. rewrite app_nil_r in H. by destruct e.
Qed.


(** * Parts *)
Definition part_ref (p : Part) : PartRef := mkPartRef (p_inline p) (default [] (p_page p)).

Definition carries_nulls (s : Shape) : bool := match s with Values => false | _ => true end.

Lemma length_part_header s e n : length (part_header s e n) = 16%nat.
Proof. unfold part_header. by rewrite !length_app, !length_le_bytes. Qed.

Lemma shape_back s : shape_from_u8 (shape_code s) = Some s. Proof. by destruct s. Qed.
Lemma codec_back c : codec_from_u8 (codec_code c) = Some c. Proof. by destruct c. Qed.

(** A header reads back, with the bitmap it carries and what follows. *)
Lemma header_back s e n nulls rest : 0 <= n < 65536 → 0 <= e_width e <= 64 → 0 <= e_base e < 2 ^ 64 → len nulls = (if carries_nulls s then NULL_BYTES else 0) →
  header_parse (part_header s e n ++ nulls ++ rest) = Ok (mkHeader s (e_codec e) n (e_width e) (e_base e) nulls rest).
Proof.
  intros Hn Hw Hb Hl. unfold header_parse. assert (L : len (part_header s e n ++ nulls ++ rest) = 16 + len nulls + len rest) by (rewrite !len_app; unfold len at 1; rewrite length_part_header; lia).
  rewrite L. destruct (Z.ltb_spec (16 + len nulls + len rest) CONT_HEADER_BYTES); [unfold CONT_HEADER_BYTES, len in *; lia|].
  assert (D : drop (Z.to_nat CONT_HEADER_BYTES) (part_header s e n ++ nulls ++ rest) = nulls ++ rest) by (change (Z.to_nat CONT_HEADER_BYTES) with 16%nat; rewrite drop_app_ge, length_part_header by (rewrite length_part_header; lia); done).
  assert (R2 : rd (E := ColumnError) 2 (part_header s e n ++ nulls ++ rest) 2 = Ok n).
  { unfold part_header. rewrite <- !app_assoc. apply (rd_app 2 [shape_code s; codec_code (e_codec e)] n). change (256 ^ Z.of_nat 2) with 65536. lia. }
  assert (R8 : rd (E := ColumnError) 8 (part_header s e n ++ nulls ++ rest) 8 = Ok (e_base e)).
  { unfold part_header. rewrite <- !app_assoc. rewrite (app_assoc [0; 0; 0]). rewrite <- (app_assoc [0;0;0]). set (pre := [shape_code s; codec_code (e_codec e)] ++ le_bytes 2 n ++ [e_width e] ++ [0; 0; 0]).
    assert (Ep : len pre = 8) by (unfold pre, len; by rewrite !length_app, length_le_bytes). rewrite <- Ep. change (256 ^ Z.of_nat 8) with (2 ^ 64) in *.
    pose proof (rd_app 8 pre (e_base e) (nulls ++ rest) ltac:(exact Hb)) as H'. unfold pre in H' |- *. rewrite <- !app_assoc in H'. exact H'. }
  change ((part_header s e n ++ nulls ++ rest) !! 0%nat) with (Some (shape_code s)). change ((part_header s e n ++ nulls ++ rest) !! 1%nat) with (Some (codec_code (e_codec e))).
  change ((part_header s e n ++ nulls ++ rest) !! 4%nat) with (Some (e_width e)). cbn [unwrap mbind Res_bind]. rewrite shape_back, codec_back, R2. cbn [mbind Res_bind].
  destruct (Z.ltb_spec 64 (e_width e)); [lia|]. rewrite R8. cbn [mbind Res_bind]. rewrite D. destruct s; cbn [carries_nulls] in Hl.
  1,2: destruct (Z.ltb_spec (16 + len nulls + len rest) HEADER_BYTES); [unfold HEADER_BYTES, len in *; lia|]; f_equal; f_equal; [apply take_app_length'; unfold len in Hl; lia|];
    change (Z.to_nat HEADER_BYTES) with (16 + Z.to_nat NULL_BYTES)%nat; rewrite <- drop_drop; change 16%nat with (Z.to_nat CONT_HEADER_BYTES); rewrite D; apply drop_app_length'; unfold len in Hl; lia.
  destruct nulls; [done|unfold len in Hl; cbn in Hl; lia].
Qed.

(** A part as it is read back: its header, and values that decode. *)
Definition part_holds (p : Part) (s : Shape) (nulls values : list Z) : Prop :=
  ∃ h, header_parse (p_inline p) = Ok h ∧ h_shape h = s ∧ h_nulls h = nulls ∧ decode_values (header_encoded h (default [] (p_page p))) (h_n h) = Ok values.

Definition small (values : list Z) : Prop := words values ∧ len values <= BLOCK_RECORDS.

Record part_fits (p : Part) : Prop := {
  pf_inline : len (p_inline p) <= INLINE_MAX;
  pf_bytes : Forall byte (p_inline p);
  pf_present : 0 <= p_present p <= BLOCK_RECORDS;
  pf_page page : p_page p = Some page → len page = PAGE_BYTES ∧ Forall byte page
}.

Lemma header_bytes s e n : 0 <= e_width e <= 64 → Forall byte (part_header s e n).
Proof.
  intros Hw. unfold part_header. repeat apply bytes_app; [|apply bytes_le_bytes| | |apply bytes_le_bytes]; repeat (apply Forall_cons; split); try apply Forall_nil; try exact I; unfold byte; try lia;
    [destruct s|destruct (e_codec e)]; cbn; lia.
Qed.

Lemma split_ok s e nulls values : encodes values e → small values → len nulls = (if carries_nulls s then NULL_BYTES else 0) → Forall byte nulls →
  ∃ p, part_split (part_header s e (len values) ++ nulls) (e_bytes e) (len values) = Ok p ∧ part_holds p s nulls values ∧ p_present p = len values ∧ part_fits p.
Proof.
  intros He Hsm Hl HB. pose proof Hsm as [_ Hn]. assert (HBh : Forall byte (part_header s e (len values) ++ nulls)) by (apply bytes_app; [apply header_bytes, He|exact HB]).
  assert (Hpr : 0 <= len values <= BLOCK_RECORDS) by (unfold len in *; lia). pose proof (en_width _ _ He) as Hw. pose proof (en_base _ _ He) as Hb. pose proof (en_size _ _ He) as Hs. change BLOCK_RECORDS with 1024 in Hn.
  assert (Hn' : 0 <= len values < 65536) by (unfold len in *; lia). unfold part_split. destruct (Z.leb_spec (len (part_header s e (len values) ++ nulls) + len (e_bytes e)) INLINE_MAX) as [Hi|Hi].
  - eexists. split; [reflexivity|]. split; [|split; [done|]; split; cbn [p_inline p_page p_present]; [rewrite len_app; exact Hi|apply bytes_app; [exact HBh|apply He]|exact Hpr|done]]. eexists. cbn [p_inline p_page default]. rewrite <- app_assoc. split; [by apply header_back|]. cbn [h_shape h_nulls h_n]. split; [done|]. split; [done|].
    unfold header_encoded. cbn [h_codec h_base h_width h_inline_payload]. pose proof (en_back _ _ He []) as Hback. rewrite app_nil_r in Hback. case_bool_decide as En; [by rewrite En in Hback|exact Hback].
  - assert (Lp : len (replicate (Z.to_nat PAGE_BYTES) 0) = 8192) by (unfold len; rewrite length_replicate; done). assert (Hz : wr (E := ColumnError) (replicate (Z.to_nat PAGE_BYTES) 0) 0 (e_bytes e) = Ok (e_bytes e ++ replicate (Z.to_nat PAGE_BYTES - length (e_bytes e)) 0)).
    { rewrite wr_ok by (unfold len in *; lia). f_equal. change (Z.to_nat 0) with 0%nat.
      apply list_eq. intros i. destruct (Nat.lt_ge_cases i (length (e_bytes e))) as [H|H].
      - rewrite list_lookup_inserts by (try lia; unfold len in *; lia). rewrite Nat.sub_0_r. by rewrite lookup_app_l.
      - rewrite list_lookup_inserts_ge by lia. rewrite lookup_app_r by lia. destruct (Nat.lt_ge_cases i (Z.to_nat PAGE_BYTES)) as [H'|H'].
        + rewrite !lookup_replicate_2 by lia. done.
        + rewrite !lookup_ge_None_2; [done|rewrite length_replicate; lia|rewrite length_replicate; lia]. }
    rewrite Hz. cbn [mbind Res_bind]. eexists. split; [reflexivity|]. split; [|split; [done|]; split; [| exact HBh|exact Hpr|]].
    + eexists. cbn [p_inline p_page default]. rewrite <- (app_nil_r nulls) at 1. split; [by apply header_back|]. cbn [h_shape h_nulls h_n]. split; [done|]. split; [done|]. unfold header_encoded. cbn [h_codec h_base h_width h_inline_payload].
      rewrite bool_decide_true by done. apply (en_back _ _ He).
    + cbn [p_inline]. rewrite len_app. unfold len at 1. rewrite length_part_header, Hl. unfold INLINE_MAX. destruct (carries_nulls s); vm_compute; discriminate.
    + intros page [= <-]. split; [|apply bytes_app; [apply He|apply zero_bytes]]. rewrite len_app. unfold len at 2. rewrite length_replicate. unfold len in *. change PAGE_BYTES with 8192 in *. lia.
Qed.

(** * Blocks *)

(** The slots from [i] on that satisfy a test of their cell. *)
Lemma filter_slots {A} (g : A → bool) (cs : list A) : ∀ (p : nat → bool) i, (∀ j c, cs !! j = Some c → p (i + j)%nat = g c) →
  List.filter p (seq i (length cs)) = match cs with [] => [] | c :: cs' => (if g c then [i] else []) ++ List.filter p (seq (S i) (length cs')) end.
Proof. intros p i H. destruct cs as [|c cs]; [done|]. cbn [length seq List.filter]. pose proof (H 0%nat c eq_refl) as E. rewrite Nat.add_0_r in E. rewrite E. by destruct (g c). Qed.

Lemma marks_step {A} (g : A → bool) c cs (p : nat → bool) i : (∀ j x, (c :: cs) !! j = Some x → p (i + j)%nat = g x) → ∀ j x, cs !! j = Some x → p (S i + j)%nat = g x.
Proof. intros H j x Hj. replace (S i + j)%nat with (i + S j)%nat by lia. by apply H. Qed.

(** A loop that sets the bits of some slots. *)
Definition marks (nulls nulls' : list Z) (i : nat) (bs : list bool) : Prop :=
  length nulls' = length nulls ∧ Forall byte nulls' ∧ ∀ j, buf_bit nulls' j = if (j <? i)%nat then buf_bit nulls j else default (buf_bit nulls j) (bs !! (j - i)%nat).

Definition has_value (c : Cell) : bool := bool_decide (is_Some (cell_value c)).
Definition has_list (c : Cell) : bool := negb (bool_decide (cell_list c = [])).

Lemma marks_cons nulls nulls1 nulls' i (x : bool) bs :
  (∀ j, buf_bit nulls1 j = if (j =? i)%nat then x || buf_bit nulls j else buf_bit nulls j) → length nulls1 = length nulls → (∀ j, (i <= j)%nat → buf_bit nulls j = false) →
  marks nulls1 nulls' (S i) bs → marks nulls nulls' i (x :: bs).
Proof.
  intros H1 L1 Hz (L & B & H). split; [congruence|]. split; [exact B|]. intros j. rewrite H. destruct (Nat.ltb_spec j (S i)), (Nat.ltb_spec j i); try lia.
  - rewrite H1. destruct (Nat.eqb_spec j i); [lia|done].
  - assert (j = i) as -> by lia. rewrite Nat.sub_diag. cbn. rewrite H1, Nat.eqb_refl, (Hz i) by lia. by rewrite orb_false_r.
  - replace (j - i)%nat with (S (j - S i)) by lia. change ((x :: bs) !! S (j - S i)%nat) with (bs !! (j - S i)%nat). rewrite H1. destruct (Nat.eqb_spec j i); [lia|]. done.
Qed.

Lemma mark_slot nulls i : (i < 8 * length nulls)%nat → Forall byte nulls → ∃ nulls1, or_bit nulls i = Ok nulls1 ∧ length nulls1 = length nulls ∧ Forall byte nulls1 ∧ (∀ j, buf_bit nulls1 j = if (j =? i)%nat then true || buf_bit nulls j else buf_bit nulls j).
Proof. intros Hi Hb. apply or_bit_ok; assumption. Qed.

Lemma scalar_loop_ok cs : ∀ i nulls values, (i + length cs <= 8 * length nulls)%nat → Forall byte nulls → (∀ j, (i <= j)%nat → buf_bit nulls j = false) →
  ∃ nulls', scalar_loop i cs nulls values = Ok (nulls', values ++ omap cell_value cs) ∧ marks nulls nulls' i (map has_value cs).
Proof.
  induction cs as [|c cs IH]; intros i nulls values Hl Hb Hz; cbn [scalar_loop length] in *.
  { exists nulls. rewrite app_nil_r. split; [done|]. split; [done|]. split; [exact Hb|]. intros j. by destruct (j <? i)%nat. }
  destruct (cell_value c) as [v|] eqn:Ev.
  - destruct (mark_slot nulls i ltac:(lia) Hb) as (n1 & E1 & L1 & B1 & H1). rewrite E1. cbn [mbind Res_bind]. destruct (IH (S i) n1 (values ++ [v])) as (n2 & E2 & M2); [lia|exact B1|intros j Hj; rewrite H1; destruct (Nat.eqb_spec j i); [lia|apply Hz; lia]|].
    exists n2. split; [rewrite E2; cbn [omap list_omap]; rewrite Ev; by rewrite <- app_assoc|]. cbn [map]. eapply marks_cons; [|exact L1|exact Hz|exact M2]. intros j. rewrite H1. unfold has_value. rewrite Ev. by rewrite bool_decide_true by done.
  - destruct (IH (S i) nulls values) as (n2 & E2 & M2); [lia|exact Hb|intros j Hj; apply Hz; lia|]. exists n2. split; [rewrite E2; cbn [omap list_omap]; by rewrite Ev|]. cbn [map]. eapply marks_cons; [|reflexivity|exact Hz|exact M2].
    intros j. unfold has_value. rewrite Ev. rewrite bool_decide_false by (by intros [? ?]). by destruct (j =? i)%nat.
Qed.

Lemma put_slot_ok prefix (c0 : Cell) rest c : put_slot (prefix ++ c0 :: rest) (length prefix) c = Ok (prefix ++ c :: rest).
Proof. unfold put_slot. destruct (Nat.ltb_spec (length prefix) (length (prefix ++ c0 :: rest))) as [_|H]; [|rewrite length_app in H; cbn in H; lia]. f_equal. rewrite insert_app_r_alt by lia. by rewrite Nat.sub_diag. Qed.

Lemma fill_scalar_ok cs : Forall (λ c, is_null c = false → is_Some (cell_value c)) cs → Forall (λ c, is_null c = true → c = CNull) cs → ∀ prefix vs0 p, (∀ j c, cs !! j = Some c → p (length prefix + j)%nat = has_value c) →
  fill_scalar (List.filter p (seq (length prefix) (length cs))) (length vs0) (vs0 ++ omap cell_value cs) (prefix ++ replicate (length cs) CNull) = Ok (prefix ++ cs).
Proof.
  intros HF. induction HF as [|c cs Hc HF IH]; intros HN prefix vs0 p Hp; [by rewrite app_nil_r|]. apply Forall_cons in HN as [Hnull HN]. rewrite (filter_slots has_value (c :: cs) p (length prefix) Hp). pose proof (marks_step has_value c cs p (length prefix) Hp) as Hp'.
  cbn [length replicate omap list_omap]. unfold has_value at 1. destruct (cell_value c) as [v|] eqn:Ev.
  - rewrite bool_decide_true by done. cbn [app fill_scalar]. rewrite lookup_app_r, Nat.sub_diag by lia. cbn [lookup list_lookup]. rewrite put_slot_ok. cbn [mbind Res_bind]. assert (c = CValue v) as -> by (destruct c; cbn in Ev; congruence).
    replace (prefix ++ CValue v :: replicate (length cs) CNull) with ((prefix ++ [CValue v]) ++ replicate (length cs) CNull) by (by rewrite <- app_assoc). replace (vs0 ++ v :: omap cell_value cs) with ((vs0 ++ [v]) ++ omap cell_value cs) by (by rewrite <- app_assoc).
    replace (S (length vs0)) with (length (vs0 ++ [v])) by (rewrite length_app; cbn; lia). assert (EL : length (prefix ++ [CValue v]) = S (length prefix)) by (rewrite length_app; cbn; lia). rewrite <- EL. rewrite IH; [by rewrite <- app_assoc|exact HN|]. rewrite EL. exact Hp'.
  - rewrite bool_decide_false by (by intros [? ?]). cbn [app]. assert (c = CNull) as -> by (destruct (is_null c) eqn:En; [by apply Hnull|destruct (Hc eq_refl) as [? ?]; congruence]).
    replace (prefix ++ CNull :: replicate (length cs) CNull) with ((prefix ++ [CNull]) ++ replicate (length cs) CNull) by (by rewrite <- app_assoc).
    assert (EL : length (prefix ++ [CNull]) = S (length prefix)) by (rewrite length_app; cbn; lia). rewrite <- EL. rewrite IH; [by rewrite <- app_assoc|exact HN|]. rewrite EL. exact Hp'.
Qed.

Definition cell_ok (c : Cell) : Prop := match c with CNull => True | CValue v => 0 <= v < 2 ^ 64 | CList l => l ≠ [] ∧ words l ∧ len l < 2 ^ 64 end.
Definition block_ok (b : list Cell) : Prop := len b = BLOCK_RECORDS ∧ Forall cell_ok b.
Definition scalar_block (b : list Cell) : Prop := Forall (λ c, cell_list c = []) b.
Definition list_block (b : list Cell) : Prop := Forall (λ c, cell_value c = None) b.
Definition flat_values (b : list Cell) : list Z := concat (map cell_list b).

Lemma no_nulls_zero : length no_nulls = 128%nat ∧ Forall byte no_nulls ∧ ∀ j, buf_bit no_nulls j = false.
Proof. split; [done|]. split; [apply zero_bytes|]. intros j. apply buf_bit_zero. Qed.

Lemma omap_len {A B} (g : A → option B) l : (length (omap g l) <= length l)%nat.
Proof. induction l as [|x l IH]; [done|]. cbn [omap list_omap length]. destruct (g x); cbn [length]; change (list_omap A B g l) with (omap g l); lia. Qed.

Lemma values_small b : block_ok b → small (omap cell_value b).
Proof.
  intros [Hl HF]. split; [|unfold len in *; pose proof (omap_len cell_value b); lia]. apply Forall_forall. intros v Hv. apply list_elem_of_omap in Hv as (c & Hc & Ev). rewrite Forall_forall in HF. specialize (HF c Hc). destruct c; cbn in Ev; try done. injection Ev as <-. exact HF.
Qed.

(** The slots a bitmap marks are those the cells say. *)
Lemma marked_slots (g : Cell → bool) b nulls : block_ok b → marks no_nulls nulls 0 (map g b) → ∀ j c, b !! j = Some c → present_at nulls (0 + j)%nat = g c.
Proof.
  intros _ (_ & _ & H) j c Hj. rewrite present_bit, H. cbn [Nat.add Nat.ltb Nat.leb]. rewrite Nat.sub_0_r. change (map g b) with (g <$> b). rewrite list_lookup_fmap, Hj. done.
Qed.

Lemma encode_scalar_ok b : block_ok b → scalar_block b → ∃ p, encode_scalar b = Ok p ∧ block_decode [part_ref p] = Ok b ∧ p_present p = len (omap cell_value b) ∧ part_fits p.
Proof.
  intros Hb Hs. destruct no_nulls_zero as (L0 & B0 & Z0). pose proof Hb as [Hlb HF]. change BLOCK_RECORDS with 1024 in Hlb. destruct (scalar_loop_ok b 0 no_nulls [] ltac:(unfold len in Hlb; lia) B0 ltac:(intros j _; apply Z0)) as (nulls & E & HM). cbn [app] in E.
  unfold encode_scalar. rewrite E. cbn [mbind Res_bind]. pose proof (values_small b Hb) as Hv. destruct (encode_values_ok _ (proj1 Hv)) as (e & Ee & He & _). rewrite Ee. cbn [mbind Res_bind].
  destruct (split_ok Scalar e nulls _ He Hv) as (p & Ep & (h & Hh & Hsh & Hnu & Hd) & Hpres & Hsize); [destruct HM as (L & _); unfold len; by rewrite L|apply HM|]. exists p. split; [exact Ep|]. split; [|split; [exact Hpres|exact Hsize]].
  unfold block_decode, part_ref. cbn [pr_header pr_body]. rewrite Hh. cbn [mbind Res_bind]. rewrite Hsh, Hd. cbn [mbind Res_bind]. unfold present_slots, block_new. rewrite Hnu. change (Z.to_nat BLOCK_RECORDS) with 1024%nat.
  assert (El : length b = 1024%nat) by (unfold len in Hlb; lia). rewrite <- El. apply (fill_scalar_ok b) with (prefix := []) (vs0 := []).
  - eapply Forall_impl; [exact Hs|]. intros c Hc Hn. destruct c; cbn in *; [done|by eexists|]. subst. done.
  - eapply Forall_impl; [exact HF|]. intros c Hc Hn. destruct c; cbn in *; [done|done|]. apply bool_decide_eq_true in Hn. by destruct Hc.
  - by apply marked_slots.
Qed.

(** ** Lists *)
Definition lists_of (cs : list Cell) : list (list Z) := List.filter (λ l, negb (bool_decide (l = []))) (map cell_list cs).

Lemma lists_of_cons c cs : lists_of (c :: cs) = (if has_list c then [cell_list c] else []) ++ lists_of cs.
Proof. unfold lists_of, has_list. cbn [map List.filter]. by destruct (bool_decide (cell_list c = [])). Qed.

Lemma list_loop_ok cs : ∀ i nulls counts flat, (i + length cs <= 8 * length nulls)%nat → Forall byte nulls → (∀ j, (i <= j)%nat → buf_bit nulls j = false) →
  ∃ nulls', list_loop i cs nulls counts flat = Ok (nulls', counts ++ map len (lists_of cs), flat ++ flat_values cs) ∧ marks nulls nulls' i (map has_list cs).
Proof.
  induction cs as [|c cs IH]; intros i nulls counts flat Hl Hb Hz; cbn [list_loop length] in *.
  { exists nulls. unfold flat_values. cbn. rewrite !app_nil_r. split; [done|]. split; [done|]. split; [exact Hb|]. intros j. by destruct (j <? i)%nat. }
  rewrite lists_of_cons. unfold flat_values. cbn [map concat]. fold (flat_values cs). destruct (cell_list c) as [|x l] eqn:El.
  - destruct (IH (S i) nulls counts flat) as (n2 & E2 & M2); [lia|exact Hb|intros j Hj; apply Hz; lia|]. exists n2. assert (Eh : has_list c = false) by (unfold has_list; rewrite El; done). rewrite Eh. split; [rewrite E2; done|].
    eapply marks_cons; [|reflexivity|exact Hz|exact M2]. intros j. by destruct (j =? i)%nat.
  - destruct (mark_slot nulls i ltac:(lia) Hb) as (n1 & E1 & L1 & B1 & H1). rewrite E1. cbn [mbind Res_bind]. destruct (IH (S i) n1 (counts ++ [len (x :: l)]) (flat ++ x :: l)) as (n2 & E2 & M2); [lia|exact B1|intros j Hj; rewrite H1; destruct (Nat.eqb_spec j i); [lia|apply Hz; lia]|].
    assert (Eh : has_list c = true) by (unfold has_list; rewrite El; done). rewrite Eh. exists n2. split; [rewrite E2; cbn [map app]; by rewrite <- !app_assoc|]. eapply marks_cons; [exact H1|exact L1|exact Hz|exact M2].
Qed.

Lemma to_nat_len {A} (a : list A) : Z.to_nat (len a) = length a.
Proof. apply Nat2Z.id. Qed.

Lemma fill_lists_ok cs : Forall (λ c, cell_ok c ∧ cell_value c = None) cs → ∀ prefix f0 p tail, len (f0 ++ flat_values cs ++ tail) < 2 ^ 64 → (∀ j c, cs !! j = Some c → p (length prefix + j)%nat = has_list c) →
  fill_lists (List.filter p (seq (length prefix) (length cs))) (map len (lists_of cs)) (len f0) (f0 ++ flat_values cs ++ tail) (prefix ++ replicate (length cs) CNull) = Ok (prefix ++ cs).
Proof.
  induction 1 as [|c cs [Hok Hval] HF IH]; intros prefix f0 p tail Hlen Hp; [done|]. rewrite (filter_slots has_list (c :: cs) p (length prefix) Hp). pose proof (marks_step has_list c cs p (length prefix) Hp) as Hp'.
  rewrite lists_of_cons. unfold flat_values in *. cbn [map concat length replicate] in *. fold (flat_values cs) in *. unfold has_list at 1 2. case_bool_decide as El; cbn [negb app map].
  - assert (c = CNull) as -> by (destruct c; cbn in *; [done|done|]; by destruct Hok). cbn [cell_list app] in *. replace (prefix ++ CNull :: replicate (length cs) CNull) with ((prefix ++ [CNull]) ++ replicate (length cs) CNull) by (by rewrite <- app_assoc).
    assert (EL : length (prefix ++ [CNull]) = S (length prefix)) by (rewrite length_app; cbn; lia). rewrite <- EL. rewrite IH; [by rewrite <- app_assoc|exact Hlen|]. rewrite EL. exact Hp'.
  - assert (exists l, c = CList l) as (l & ->) by (destruct c; cbn in *; [done|done|by eexists]). cbn [cell_list] in *. cbn [fill_lists]. rewrite !len_app in Hlen. assert (Hf : 0 <= len (flat_values cs) ∧ 0 <= len tail ∧ 0 <= len f0 ∧ 0 <= len l) by (unfold len; lia).
    rewrite !len_app. destruct (Z.leb_spec (2 ^ 64) (len f0 + len l)); [lia|]. destruct (Z.ltb_spec (len f0 + (len l + len (flat_values cs) + len tail)) (len f0 + len l)); [lia|]. cbn [orb].
    rewrite slice_ok by (try lia; change (Z.of_nat (length (f0 ++ (l ++ flat_values cs) ++ tail))) with (len (f0 ++ (l ++ flat_values cs) ++ tail)); rewrite !len_app; lia). cbn [mbind Res_bind].
    rewrite !to_nat_len, drop_app_length, <- app_assoc, take_app_length. rewrite put_slot_ok. cbn [mbind Res_bind].
    replace (prefix ++ CList l :: replicate (length cs) CNull) with ((prefix ++ [CList l]) ++ replicate (length cs) CNull) by (by rewrite <- app_assoc). rewrite (app_assoc f0). rewrite <- len_app.
    assert (EL : length (prefix ++ [CList l]) = S (length prefix)) by (rewrite length_app; cbn; lia). rewrite <- EL. rewrite IH; [by rewrite <- app_assoc|rewrite !len_app; lia|]. rewrite EL. exact Hp'.
Qed.

Lemma value_parts_ok cs : Forall small cs → ∃ ps, value_parts cs = Ok ps ∧ length ps = length cs ∧ Forall part_fits ps ∧ ∀ acc, flat_of (map part_ref ps) acc = Ok (acc ++ concat cs).
Proof.
  induction 1 as [|c cs Hc _ (ps & E & L & F & H)]; [exists []; split; [done|]; split; [done|]; split; [constructor|]; intros acc; by rewrite app_nil_r|]. cbn [value_parts].
  destruct (encode_values_ok c (proj1 Hc)) as (e & Ee & He & _). rewrite Ee. cbn [mbind Res_bind]. destruct (split_ok Values e [] c He Hc eq_refl (Forall_nil_2 _)) as (p & Ep & (h & Hh & Hsh & _ & Hd) & _ & Hfit). rewrite app_nil_r in Ep. unfold part_plain. rewrite Ep. cbn [mbind Res_bind]. rewrite E. cbn [mbind Res_bind].
  exists (p :: ps). split; [done|]. split; [cbn; lia|]. split; [constructor; [exact Hfit|exact F]|]. intros acc. cbn [map flat_of part_ref pr_header pr_body]. rewrite Hh. cbn [mbind Res_bind]. rewrite Hsh, bool_decide_true by done. cbn [negb]. rewrite Hd. cbn [mbind Res_bind concat]. rewrite H. by rewrite <- app_assoc.
Qed.

Lemma chunks_small {A} (Q : A → Prop) n fuel : ∀ l : list A, Forall Q l → Forall (λ c, Forall Q c ∧ (length c <= n)%nat) (chunks_loop fuel n l).
Proof.
  induction fuel as [|fuel IH]; intros l HQ; cbn [chunks_loop]; [constructor|]. destruct l as [|x l]; [constructor|]. constructor; [split; [by apply Forall_take|rewrite length_take; lia]|]. apply IH. by apply Forall_drop.
Qed.

Lemma chunks_count {A} n (Hn : (0 < n)%nat) : ∀ fuel (l : list A) k, (length l <= fuel)%nat → (length (chunks_loop fuel n l) <= k)%nat ↔ (length l <= k * n)%nat.
Proof.
  induction fuel as [|fuel IH]; intros l k Hl; cbn [chunks_loop]; [destruct l; [cbn; lia|cbn in Hl; lia]|]. destruct l as [|x l]; [cbn; lia|]. change (length (take n (x :: l) :: ?r)) with (S (length r)).
  destruct k as [|k]; [cbn; lia|]. cbn [length]. pose proof (IH (drop n (x :: l)) k) as H. rewrite length_drop in H. cbn [length] in *. specialize (H ltac:(lia)). rewrite <- Nat.succ_le_mono. rewrite H. lia.
Qed.

Lemma lists_words b : Forall cell_ok b → words (flat_values b) ∧ words (map len (lists_of b)) ∧ (length (lists_of b) <= length b)%nat.
Proof.
  induction 1 as [|c b Hc _ (H1 & H2 & H3)]; [split; [constructor|]; split; [constructor|done]|]. rewrite lists_of_cons. unfold flat_values. cbn [map concat]. fold (flat_values b). split; [|split].
  - apply Forall_app. split; [|exact H1]. destruct c; cbn; [constructor|constructor|apply Hc].
  - unfold has_list. case_bool_decide as E; cbn [negb app map]; [exact H2|]. constructor; [|exact H2]. destruct c; cbn in *; [done|done|]. unfold len in *. lia.
  - destruct (has_list c); cbn [app length]; lia.
Qed.

Lemma encode_list_ok b : block_ok b → list_block b → len (flat_values b) < 2 ^ 64 →
  if len (flat_values b) <=? (MAX_PARTS - 1) * VALUES_PER_PART
  then ∃ ps, encode_list b = Ok ps ∧ ps ≠ [] ∧ len ps <= MAX_PARTS ∧ Forall part_fits ps ∧ p_present <$> head ps = Some (len (lists_of b)) ∧ block_decode (map part_ref ps) = Ok b
  else encode_list b = Err (CTooManyParts 0).
Proof.
  intros Hb Hs Hfl. unfold list_block in Hs. destruct no_nulls_zero as (L0 & B0 & Z0). pose proof Hb as [Hlb HF]. change BLOCK_RECORDS with 1024 in Hlb. destruct (list_loop_ok b 0 no_nulls [] [] ltac:(unfold len in Hlb; lia) B0 ltac:(intros j _; apply Z0)) as (nulls & E & HM). cbn [app] in E.
  destruct (lists_words b HF) as (W1 & W2 & W3). assert (Hsm : small (map len (lists_of b))) by (split; [exact W2|unfold len in *; rewrite length_map; change BLOCK_RECORDS with 1024; lia]).
  unfold encode_list. rewrite E. cbn [mbind Res_bind]. destruct (encode_values_ok _ W2) as (e & Ee & He & _). rewrite Ee. cbn [mbind Res_bind].
  destruct (split_ok Counts e nulls _ He Hsm) as (p & Ep & (h & Hh & Hsh & Hnu & Hd) & Hpres & Hfit); [destruct HM as (L & _); unfold len; by rewrite L|apply HM|]. unfold part_with_nulls. rewrite Ep. cbn [mbind Res_bind].
  unfold chunks. change (VALUES_PER_PART <=? 0) with false. cbn [mbind Res_bind]. change (Z.to_nat VALUES_PER_PART) with 1024%nat. set (cs := chunks_loop (length (flat_values b)) 1024 (flat_values b)).
  assert (Hcs : Forall small cs).
  { eapply Forall_impl; [exact (chunks_small (λ v, 0 <= v < 2 ^ 64) 1024 (length (flat_values b)) (flat_values b) W1)|]. intros c [Hc1 Hc2]. split; [exact Hc1|]. change BLOCK_RECORDS with 1024. unfold len. lia. }
  destruct (value_parts_ok cs Hcs) as (ps & Eps & Lps & Fps & Hflat). rewrite Eps. cbn [mbind Res_bind].
  assert (Hconcat : concat cs = flat_values b) by (apply chunks_loop_concat; lia). pose proof (chunks_count 1024 ltac:(lia) (length (flat_values b)) (flat_values b) 255 ltac:(lia)) as Hcount. fold cs in Hcount.
  change ((MAX_PARTS - 1) * VALUES_PER_PART) with 261120. change MAX_PARTS with 256. assert (Hlp : len (p :: ps) = 1 + len cs) by (unfold len; cbn [length]; rewrite Lps; lia). rewrite Hlp. unfold len in Hcount |- *.
  destruct (Z.leb_spec (Z.of_nat (length (flat_values b))) 261120) as [Hle|Hgt], (Z.ltb_spec 256 (1 + Z.of_nat (length cs))) as [Hl|Hg]; try lia; [|done].
  exists (p :: ps). split; [done|]. split; [done|]. split; [cbn [length]; lia|]. split; [constructor; [exact Hfit|exact Fps]|]. split; [cbn; rewrite Hpres; unfold len; by rewrite length_map|].
  cbn [map block_decode part_ref pr_header pr_body]. rewrite Hh. cbn [mbind Res_bind]. rewrite Hsh, Hd. cbn [mbind Res_bind]. rewrite Hflat, Hconcat. cbn [mbind Res_bind app]. unfold present_slots, block_new. rewrite Hnu. change (Z.to_nat BLOCK_RECORDS) with 1024%nat.
  assert (El : length b = 1024%nat) by (unfold len in Hlb; lia). rewrite <- El. pose proof (fill_lists_ok b) as Hfill. specialize (Hfill ltac:(apply Forall_forall; intros c Hc; rewrite Forall_forall in HF, Hs; split; [by apply HF|by apply Hs]) [] [] (present_at nulls) []).
  rewrite app_nil_l, app_nil_r in Hfill. apply Hfill; [exact Hfl|]. by apply marked_slots.
Qed.

Lemma block_empty b : block_ok b → block_is_empty b = true ↔ b = block_new.
Proof.
  intros [Hl HF]. unfold block_is_empty, block_new. split.
  - intros H. rewrite forallb_forall in H. symmetry. apply replicate_as_Forall. split; [unfold len in Hl; lia|]. rewrite Forall_forall in HF. apply Forall_forall. intros c Hc. specialize (H c (proj1 (list_elem_of_In _ _) Hc)). specialize (HF c Hc).
    destruct c; cbn in *; [done|done|]. apply bool_decide_eq_true in H. by destruct HF.
  - intros ->. apply forallb_forall. intros c Hc. apply list_elem_of_In, elem_of_replicate_inv in Hc. by subst.
Qed.

(** How many cells hold something. *)
Lemma present_values b : Forall cell_ok b → scalar_block b → block_present b = len (omap cell_value b).
Proof.
  unfold block_present, len. intros HF. induction HF as [|c b Hc _ IH]; intros Hs; [done|]. apply Forall_cons in Hs as [Hl Hs]. specialize (IH Hs). cbn [List.filter omap list_omap]. destruct c; cbn [is_null negb cell_value]; [exact IH|cbn [length]; change (list_omap Cell Z cell_value b) with (omap cell_value b); lia|].
  cbn in Hl. subst. by destruct Hc.
Qed.
Lemma present_lists b : Forall cell_ok b → list_block b → block_present b = len (lists_of b).
Proof.
  unfold block_present, len. intros HF. induction HF as [|c b Hc _ IH]; intros Hs; [done|]. apply Forall_cons in Hs as [Hl Hs]. specialize (IH Hs). rewrite lists_of_cons. cbn [List.filter]. unfold has_list. destruct c as [|v|l]; cbn [is_null negb cell_list cell_value] in *; [exact IH|done|].
  destruct Hc as [Hne _]. rewrite bool_decide_eq_false_2 by exact Hne. cbn [negb app length]. lia.
Qed.

(** What a block is encoded as. *)
Record encoded_block (b : list Cell) (ps : list Part) : Prop := {
  eb_count : len ps <= MAX_PARTS;
  eb_fits : Forall part_fits ps;
  eb_empty : ps = [] ↔ b = block_new;
  eb_present : p_present <$> head ps = if bool_decide (ps = []) then None else Some (block_present b);
  eb_back : block_decode (map part_ref ps) = Ok b
}.

Lemma block_encode_ok b : block_ok b → scalar_block b ∨ list_block b → len (flat_values b) < 2 ^ 64 →
  if len (flat_values b) <=? (MAX_PARTS - 1) * VALUES_PER_PART then ∃ ps, block_encode b = Ok ps ∧ encoded_block b ps else block_encode b = Err (CTooManyParts 0).
Proof.
  intros Hb Hs Hfl. pose proof Hb as [_ HF]. unfold block_encode. destruct (block_is_empty b) eqn:Ee.
  - apply block_empty in Ee; [|exact Hb]. subst b. change (len (flat_values block_new)) with 0. exists []. split; [done|]. split; [done|constructor|done|done|done].
  - assert (Hne : b ≠ block_new) by (intros E; apply block_empty in E; [congruence|exact Hb]). destruct (is_list b) eqn:El.
    + assert (Hls : list_block b).
      { destruct Hs as [Hs|Hs]; [|exact Hs]. exfalso. unfold is_list in El. apply existsb_exists in El as (c & Hc & Ec). apply list_elem_of_In in Hc. unfold scalar_block in Hs. rewrite Forall_forall in HF, Hs. specialize (HF c Hc). specialize (Hs c Hc). destruct c; cbn in *; try done. by destruct HF. }
      pose proof (encode_list_ok b Hb Hls Hfl) as H. destruct (_ <=? _); [|exact H]. destruct H as (ps & E & Hps & Hl & Hfit & Hpr & Hd). exists ps. split; [exact E|]. split; [exact Hl|exact Hfit|by split| |exact Hd]. by rewrite Hpr, bool_decide_eq_false_2, present_lists.
    + assert (Hsc : scalar_block b).
      { apply Forall_forall. intros c Hc. destruct c as [|v|l]; [done|done|]. exfalso. assert (is_list b = true); [|congruence]. apply existsb_exists. exists (CList l). split; [by apply list_elem_of_In|done]. }
      assert (Hflat : flat_values b = []) by (clear -Hsc; unfold flat_values; induction Hsc as [|c b Hc _ IH]; [done|]; cbn [map concat]; by rewrite Hc, IH). rewrite Hflat. cbn [len length Z.of_nat]. change (len []) with 0. change (0 <=? (MAX_PARTS - 1) * VALUES_PER_PART) with true. cbn iota.
      destruct (encode_scalar_ok b Hb Hsc) as (p & E & Hd & Hpr & Hfit). rewrite E. cbn [mbind Res_bind]. exists [p]. split; [done|]. split; [done|constructor; [exact Hfit|constructor]|by split| |exact Hd]. cbn. by rewrite Hpr, present_values.
Qed.

(** C21.  A block reads back.  A block of values and nulls, or of lists and nulls, becomes at most 256
    parts, each a cell's worth of bytes beside at most one page, and those parts become the block again;
    an empty block is no part at all; a block with more than 255 * 1024 list values is refused. *)
Theorem block_roundtrip b : block_ok b → scalar_block b ∨ list_block b → len (flat_values b) < 2 ^ 64 →
  if len (flat_values b) <=? (MAX_PARTS - 1) * VALUES_PER_PART
  then ∃ ps, block_encode b = Ok ps ∧ len ps <= MAX_PARTS ∧ Forall part_fits ps ∧ (ps = [] ↔ b = block_new) ∧ block_decode (map part_ref ps) = Ok b
  else block_encode b = Err (CTooManyParts 0).
Proof.
  intros Hb Hs Hfl. pose proof (block_encode_ok b Hb Hs Hfl) as H. destruct (_ <=? _); [|exact H]. destruct H as (ps & E & [H1 H2 H3 _ H5]). by exists ps.
Qed.

Definition sample_block : list Cell := block_set (block_set block_new 3 (CValue 7)) 1000 (CValue (2 ^ 63)).
Lemma sample_block_ok : block_ok sample_block ∧ scalar_block sample_block.
Proof.
  assert (H : ∀ (Q : Cell → Prop), Q CNull → Q (CValue 7) → Q (CValue (2 ^ 63)) → Forall Q sample_block).
  { intros Q Q0 Q1 Q2. unfold sample_block, block_set, block_new. repeat (apply Forall_insert; [|assumption]). by apply Forall_replicate. }
  split; [split; [done|apply H; cbn; lia]|by apply H].
Qed.


(** * Decoding whatever the disk holds *)
(** What is returned has [Q]; a panic is excused by [O]. *)
Definition sound (O : Prop) {A} (r : Res ColumnError A) (Q : A → Prop) : Prop := match r with Ok x => Q x | Err _ => True | Panic => O end.

Lemma sound_bind O {A C} (r : Res ColumnError A) (g : A → Res ColumnError C) Q R : sound O r Q → (∀ x, Q x → sound O (g x) R) → sound O (r ≫= g) R.
Proof. destruct r as [x| |]; cbn; [auto|done|done]. Qed.

Lemma lor_next v k : 0 <= k → 0 <= v < 2 ^ k → 0 <= Z.lor v (Z.shiftl 1 k) < 2 ^ (k + 1).
Proof.
  intros Hk Hv. rewrite Z.shiftl_1_l. split; [apply Z.lor_nonneg; split; [lia|apply Z.pow_nonneg; lia]|]. assert (Z.lor v (2 ^ k) = v + 2 ^ k) as ->; [|rewrite Z.pow_add_r by lia; lia].
  rewrite Z.add_nocarry_lxor; [symmetry; apply Z.lxor_lor|]; apply Z.bits_inj'; intros n Hn; rewrite Z.land_spec, Z.bits_0, Z.pow2_bits_eqb by lia; (destruct (Z.eqb_spec k n) as [<-|]; [|apply andb_false_r]); rewrite andb_true_r; rewrite (Z.testbit_false v k) by lia; rewrite Z.div_small by lia; done.
Qed.

Lemma unpack_bits_total todo : ∀ k bytes bit v, (bit + todo <= 8 * length bytes)%nat → 0 <= v < 2 ^ Z.of_nat k → ∃ x, unpack_bits todo k bytes bit v = Ok x ∧ 0 <= x < 2 ^ Z.of_nat (k + todo).
Proof.
  induction todo as [|todo IH]; intros k bytes bit v Hl Hv; cbn [unpack_bits]; [exists v; split; [done|]; by rewrite Nat.add_0_r|]. pose proof (div8 bit) as [D M]. destruct (lookup_lt_is_Some_2 bytes (bit / 8)%nat ltac:(lia)) as [x Hx]. rewrite Hx. cbn [unwrap mbind Res_bind].
  replace (k + S todo)%nat with (S k + todo)%nat by lia. apply IH; [lia|]. replace (Z.of_nat (S k)) with (Z.of_nat k + 1) by lia. destruct (_ =? 1); [apply lor_next; [lia|exact Hv]|]. rewrite Z.pow_add_r by lia. lia.
Qed.

(** A sum of the base and a packed value that does not fit, in a build that looks. *)
Definition overflowing (base width : Z) : Prop := overflow_checks = true ∧ ∃ v, 0 <= v < 2 ^ width ∧ 2 ^ 64 <= base + v.

Lemma unpack_loop_total O n : ∀ bytes base width bit out, (bit + n * width <= 8 * length bytes)%nat → words out → (overflowing base (Z.of_nat width) → O) → sound O (unpack_loop n bytes base width bit out) words.
Proof.
  induction n as [|n IH]; intros bytes base width bit out Hl Ho HO; cbn [unpack_loop]; [exact Ho|]. destruct (unpack_bits_total width 0 bytes bit 0 ltac:(lia) ltac:(cbn; lia)) as (x & -> & Hx). cbn [mbind Res_bind]. unfold add64. destruct (overflow_checks && (2 ^ 64 <=? base + x)) eqn:E.
  { apply andb_true_iff in E as [E1 E2]. cbn. apply HO. split; [exact E1|]. exists x. split; [exact Hx|lia]. }
  cbn [mbind Res_bind]. apply IH; [lia| |exact HO]. apply Forall_app. split; [exact Ho|]. constructor; [|constructor]. apply Z.mod_pos_bound. lia.
Qed.

Lemma rd_word n bytes o : 0 <= o → o + Z.of_nat n <= len bytes → Forall byte bytes → ∃ v, rd (E := ColumnError) n bytes o = Ok v ∧ 0 <= v < 256 ^ Z.of_nat n.
Proof.
  intros Ho Hl Hb. rewrite rd_ok by (unfold len in *; lia). eexists. split; [reflexivity|]. pose proof (of_le_bound (take n (drop (Z.to_nat o) bytes)) ltac:(by apply Forall_take, Forall_drop)) as H. rewrite length_take, length_drop in H. unfold len in Hl. replace (n `min` (length bytes - Z.to_nat o))%nat with n in H by lia. exact H.
Qed.

Lemma unrle_total O bytes n : Forall byte bytes → ∀ fuel at_ out, 0 <= at_ → words out → len out <= n → n - len out < Z.of_nat fuel → sound O (unrle_loop fuel bytes n at_ out) words.
Proof.
  intros Hb. induction fuel as [|fuel IH]; intros at_ out Ha Ho Hle Hf; [lia|]. cbn [unrle_loop]. destruct (Z.ltb_spec (len out) n) as [Hlt|]; [|exact Ho]. unfold RLE_ENTRY. destruct (Z.ltb_spec (len bytes) (at_ + 10)); [exact I|].
  destruct (rd_word 8 bytes at_ Ha ltac:(lia) Hb) as (v & -> & Hv). cbn [mbind Res_bind]. destruct (rd_word 2 bytes (at_ + 8) ltac:(lia) ltac:(lia) Hb) as (run & -> & Hrun). cbn [mbind Res_bind]. destruct (Z.eqb_spec run 0); [exact I|].
  assert (Hlen : len (out ++ replicate (Z.to_nat (Z.min run (n - len out))) v) = len out + Z.min run (n - len out)) by (rewrite len_app; unfold len at 2; rewrite length_replicate; lia).
  apply IH; [lia| |lia|lia]. apply Forall_app. split; [exact Ho|]. apply Forall_replicate. exact Hv.
Qed.

Lemma plain_total O bytes : Forall byte bytes → ∀ n i out, 0 <= i → (i + Z.of_nat n) * 8 <= len bytes → words out → sound O (plain_loop n bytes i out) words.
Proof.
  intros Hb. induction n as [|n IH]; intros i out Hi Hl Ho; cbn [plain_loop]; [exact Ho|]. destruct (rd_word 8 bytes (i * 8) ltac:(lia) ltac:(lia) Hb) as (v & -> & Hv). cbn [mbind Res_bind]. apply IH; [lia|lia|]. apply Forall_app. split; [exact Ho|]. constructor; [exact Hv|constructor].
Qed.

Lemma decode_total O e n : Forall byte (e_bytes e) → 0 <= e_base e < 2 ^ 64 → 0 <= e_width e → 0 <= n → (e_codec e = BitPacked → overflowing (e_base e) (e_width e) → O) → sound O (decode_values e n) words.
Proof.
  intros Hb Hbase Hw Hn HO. unfold decode_values. destruct (e_codec e).
  - cbn. apply Forall_replicate. exact Hbase.
  - unfold unpack. destruct (Z.ltb_spec 64 (e_width e)); [exact I|]. destruct (Z.ltb_spec (len (e_bytes e)) (packed_len n (e_width e))); [exact I|]. destruct (packed_len_ok n (e_width e) Hn Hw) as (P1 & _).
    destruct (Z.eqb_spec (e_width e) 0); [cbn; apply Forall_replicate; exact Hbase|]. apply unpack_loop_total; [unfold len in *; nia|constructor|rewrite Z2Nat.id by lia; by apply HO].
  - apply unrle_total; [exact Hb|lia|constructor|unfold len; cbn; lia|unfold len; cbn; lia].
  - unfold decode_plain. destruct (Z.ltb_spec (len (e_bytes e)) (n * 8)); [exact I|]. apply plain_total; [exact Hb|lia|lia|constructor].
Qed.

Definition header_sane (h : Header) : Prop := 0 <= h_n h < 65536 ∧ 0 <= h_width h <= 64 ∧ 0 <= h_base h < 2 ^ 64 ∧ Forall byte (h_inline_payload h).

Lemma byte_at bytes (i : nat) : Z.of_nat i < len bytes → Forall byte bytes → ∃ b, bytes !! i = Some b ∧ byte b.
Proof. intros Hi Hb. destruct (lookup_lt_is_Some_2 bytes i ltac:(unfold len in Hi; lia)) as [b E]. exists b. split; [exact E|]. rewrite Forall_lookup in Hb. by eapply Hb. Qed.

Lemma header_total O bytes : Forall byte bytes → sound O (header_parse bytes) header_sane.
Proof.
  intros Hb. unfold header_parse. unfold CONT_HEADER_BYTES at 1. destruct (Z.ltb_spec (len bytes) 16); [exact I|]. destruct (byte_at bytes 0 ltac:(lia) Hb) as (b0 & -> & _). cbn [unwrap mbind Res_bind]. destruct (shape_from_u8 b0) as [s|]; [|exact I].
  destruct (byte_at bytes 1 ltac:(lia) Hb) as (b1 & -> & _). cbn [unwrap mbind Res_bind]. destruct (codec_from_u8 b1) as [c|]; [|exact I]. destruct (rd_word 2 bytes 2 ltac:(lia) ltac:(lia) Hb) as (n & -> & Hn). cbn [mbind Res_bind].
  destruct (byte_at bytes 4 ltac:(lia) Hb) as (w & -> & Hw). cbn [unwrap mbind Res_bind]. destruct (Z.ltb_spec 64 w); [exact I|]. destruct (rd_word 8 bytes 8 ltac:(lia) ltac:(lia) Hb) as (base & -> & Hbase). cbn [mbind Res_bind]. unfold byte in Hw.
  change (256 ^ Z.of_nat 2) with 65536 in Hn. change (256 ^ Z.of_nat 8) with (2 ^ 64) in Hbase.
  assert (Hok : ∀ nulls k, header_sane (mkHeader s c n w base nulls (drop k bytes))) by (intros nulls k; split; [exact Hn|]; split; [cbn; lia|]; split; [exact Hbase|by apply Forall_drop]).
  destruct s; [destruct (_ <? _); [exact I|apply Hok]..|apply Hok].
Qed.

Lemma decode_part O h body : header_sane h → Forall byte body → (h_codec h = BitPacked → overflowing (h_base h) (h_width h) → O) → sound O (decode_values (header_encoded h body) (h_n h)) words.
Proof. intros (H1 & H2 & H3 & H4) Hb HO. apply decode_total; cbn [header_encoded e_bytes e_base e_width e_codec]; [by case_bool_decide|exact H3|lia|lia|exact HO]. Qed.

Definition bytes_part (p : PartRef) : Prop := Forall byte (pr_header p) ∧ Forall byte (pr_body p).

(** A bit-packed part whose header admits a sum past 64 bits, in a build that checks. *)
Definition overflowing_part (p : PartRef) : Prop := ∃ h, header_parse (pr_header p) = Ok h ∧ h_codec h = BitPacked ∧ overflowing (h_base h) (h_width h).

Lemma sound_header O p (g : Header → Res ColumnError (list Cell)) R : bytes_part p → (∀ h, header_parse (pr_header p) = Ok h → header_sane h → sound O (g h) R) → sound O (header_parse (pr_header p) ≫= g) R.
Proof. intros [Hh _] Hg. pose proof (header_total False _ Hh) as H. destruct (header_parse (pr_header p)) as [h| |] eqn:E; cbn in *; [by apply Hg|done|done]. Qed.

Lemma flat_total (O : Prop) parts : Forall bytes_part parts → (∀ p, p ∈ parts → overflowing_part p → O) → ∀ flat, sound O (flat_of parts flat) (λ _, True).
Proof.
  induction 1 as [|p parts [Hh Hb] _ IH]; intros HO flat; cbn [flat_of]; [exact I|]. pose proof (header_total False _ Hh) as H. destruct (header_parse (pr_header p)) as [h| |] eqn:E; cbn in H; [|exact I|done]. cbn [mbind Res_bind]. destruct (negb _); [exact I|].
  eapply sound_bind; [apply decode_part; [exact H|exact Hb|]|]. { intros Hc Hov. apply (HO p); [by left|]. by exists h. } intros chunk _. apply IH. intros q Hq. apply HO. by right.
Qed.

Lemma put_slot_total O (b : list Cell) slot c : (slot < 1024)%nat → length b = 1024%nat → sound O (put_slot b slot c) (λ b', length b' = 1024%nat).
Proof. intros Hs Hl. unfold put_slot. destruct (Nat.ltb_spec slot (length b)); [|lia]. cbn. by rewrite length_insert. Qed.

Lemma fill_scalar_total O slots : Forall (λ s, (s < 1024)%nat) slots → ∀ next_ values b, length b = 1024%nat → sound O (fill_scalar slots next_ values b) (λ b', length b' = 1024%nat).
Proof.
  induction 1 as [|s slots Hs _ IH]; intros next_ values b Hl; cbn [fill_scalar]; [exact Hl|]. destruct (values !! next_) as [v|]; [|exact I]. eapply sound_bind; [by apply put_slot_total|]. intros b' Hb'. by apply IH.
Qed.

Lemma fill_lists_total O slots : Forall (λ s, (s < 1024)%nat) slots → ∀ counts at_ flat b, words counts → 0 <= at_ → length b = 1024%nat → sound O (fill_lists slots counts at_ flat b) (λ b', length b' = 1024%nat).
Proof.
  induction 1 as [|s slots Hs _ IH]; intros counts at_ flat b Hc Ha Hl; cbn [fill_lists]; [exact Hl|]. destruct Hc as [|c counts Hc Hcs]; [exact Hl|]. destruct (Z.leb_spec (2 ^ 64) (at_ + c)); [exact I|]. destruct (Z.ltb_spec (len flat) (at_ + c)); [exact I|]. cbn [orb].
  rewrite slice_ok by (unfold len in *; lia). cbn [mbind Res_bind]. eapply sound_bind; [by apply put_slot_total|]. intros b' Hb'. apply IH; [exact Hcs|lia|exact Hb'].
Qed.

Lemma block_slots : Z.to_nat BLOCK_RECORDS = 1024%nat.
Proof. vm_compute. reflexivity. Qed.

Lemma slots_below (p : nat → bool) n : Forall (λ s, (s < n)%nat) (List.filter p (seq 0 n)).
Proof. apply Forall_forall. intros s Hs. apply list_elem_of_In, filter_In in Hs as [Hs _]. apply in_seq in Hs. lia. Qed.

Lemma slots_bound h : Forall (λ s, (s < 1024)%nat) (present_slots h).
Proof. unfold present_slots. rewrite block_slots. apply slots_below. Qed.

(** C22.  What decoding does with damaged bytes.  Whatever bytes the cells and pages of a block hold,
    decoding them gives a block of 1024 slots or refuses: no index, slice or count read from the disk is
    trusted before it is checked, and the run-length loop ends.  The one thing that can panic is the sum
    of the base and a value of a bit-packed part, in a build that checks sums for overflow and only when
    the header admits one past 64 bits; a build that does not check never panics. *)
Theorem decoding_never_panics parts : Forall bytes_part parts →
  match block_decode parts with
  | Ok b => len b = BLOCK_RECORDS
  | Err _ => True
  | Panic => overflow_checks = true ∧ ∃ p h v, p ∈ parts ∧ header_parse (pr_header p) = Ok h ∧ h_codec h = BitPacked ∧ 0 <= v < 2 ^ h_width h ∧ 2 ^ 64 <= h_base h + v
  end.
Proof.
  intros HF. set (O := ∃ p, p ∈ parts ∧ overflowing_part p). assert (HO : ∀ p, p ∈ parts → overflowing_part p → O) by (intros p ? ?; by exists p). assert (H : sound O (block_decode parts) (λ b, length b = 1024%nat)).
  { clearbody O. unfold block_decode. destruct HF as [|first rest Hp HF]; [vm_compute; reflexivity|]. apply sound_header; [exact Hp|]. intros h Eh Hs. assert (Hfirst : h_codec h = BitPacked → overflowing (h_base h) (h_width h) → O) by (intros ? ?; apply (HO first); [by left|by exists h]). destruct Hp as [_ Hb]. destruct (h_shape h); [| |exact I].
    - eapply sound_bind; [by apply decode_part|]. intros values _. apply fill_scalar_total; [apply slots_bound|vm_compute; reflexivity].
    - eapply sound_bind; [by apply decode_part|]. intros counts Hc. eapply sound_bind; [apply flat_total; [exact HF|intros q Hq; apply HO; by right]|]. intros flat _. apply fill_lists_total; [apply slots_bound|exact Hc|lia|vm_compute; reflexivity]. }
  destruct (block_decode parts) as [b| |]; [|exact I|]; cbn in H; [unfold len; rewrite H; done|]. destruct H as (p & Hp & h & Eh & Hc & Hov & v & Hv). split; [exact Hov|]. exists p, h, v. by destruct Hv.
Qed.
End builds.

(** * Examples *)
Section examples.
#[local] Instance release : Build := {| overflow_checks := false |}.

Lemma values_roundtrip_witness : ∃ e, encode_values [7; 7; 2 ^ 64 - 1] = Ok e ∧ decode_values e 3 = Ok [7; 7; 2 ^ 64 - 1].
Proof. destruct (values_roundtrip [7; 7; 2 ^ 64 - 1] [0; 0]) as (e & E & _ & _ & H & _); [repeat constructor; lia|]. exists e. split; [exact E|exact H]. Defined.

Lemma block_roundtrip_witness : ∃ ps, block_encode sample_block = Ok ps ∧ block_decode (map part_ref ps) = Ok sample_block ∧ block_get sample_block 3 = CValue 7.
Proof.
  destruct sample_block_ok as [Hb Hs]. pose proof (block_roundtrip sample_block Hb (or_introl Hs)) as H. assert (Ef : flat_values sample_block = []) by (vm_compute; reflexivity). rewrite Ef in H. destruct H as (ps & E & _ & _ & _ & Hd); [vm_compute; reflexivity|].
  exists ps. split; [exact E|]. split; [exact Hd|]. vm_compute. reflexivity.
Defined.

Lemma decoding_never_panics_witness : ∃ b, block_decode [mkPartRef ([0; codec_code BitPacked; 1; 0; 1; 0; 0; 0] ++ replicate 8 255 ++ [1] ++ replicate 127 0 ++ [1]) []] = Ok b ∧ len b = BLOCK_RECORDS ∧ block_get b 0 = CValue 0.
Proof.
  set (parts := [_]). assert (Hb : Forall bytes_part parts) by (apply Forall_singleton; split; cbn [pr_header pr_body]; [repeat (apply Forall_app; split); try (apply Forall_replicate); by repeat constructor|constructor]).
  pose proof (decoding_never_panics parts Hb) as H. destruct (block_decode parts) as [b| |] eqn:E; [|vm_compute in E; discriminate E..]. exists b. split; [done|]. split; [exact H|]. vm_compute in E. injection E as <-. vm_compute. reflexivity.
Defined.
End examples.
