(* ===== verification/Segment.v ===== *)
(** The segment of a column over a tree (crates/big-engine/src/columnar/read.rs and write.rs): a block is
    the cells of a span of keys, read back with the pages they point at, and replaced as a whole.

    The handle and the transaction are threaded through, as in FragWrite.v. *)
From S2P Require Import Prelude Bits Search Container Optimize Delta Page Leaf Pager Store Txn BTree BTreeWrite BTreeOwn BTreeWalk Coords RowSet OrdMap FragRead Bsi Group Column.

Definition of_tree {A} (r : Res BTreeError A) : CRes A := map_err CTree r.

(** * Reading (read.rs) *)
Record ColumnRead (P : Type) := mkColumnRead { cr_pager : P; cr_root : Z }.
Arguments mkColumnRead {P} _ _.
Arguments cr_pager {P} _.
Arguments cr_root {P} _.

Record RawPart := mkRawPart { rp_key : Z; rp_inline : list Z; rp_page : option (Z * Z) }.

Definition raw_part (c : LeafCell) : RawPart :=
  mkRawPart (lc_key c) (lc_payload c) (if owns_page (lc_ty c) then Some (lc_bitmap_pgno c, lc_bitmap_checksum c) else None).

Section read.
Context {X : Extern} {build : Build} {P : Type} `{!Pager P} (r : ColumnRead P).

Definition cr_collect (lo hi : Z) : CRes (list RawPart) :=
  of_tree (scan (λ out c, (out ++ [raw_part c], false)) (cr_pager r) (cr_root r) lo hi []).

(** The page of every part that has one, its checksum compared. *)
Fixpoint bodies (parts : list RawPart) : CRes (list (list Z)) :=
  match parts with
  | [] => Ok []
  | part :: parts' =>
      body ← (match rp_page part with
              | None => Ok []
              | Some (pgno, expected) =>
                  page ← of_tree (from_store (pager_read (cr_pager r) pgno));
                  let computed := bitmap_page_checksum page in
                  if negb (computed =? expected) then Err (CPage (ChecksumMismatch expected computed)) else Ok page
              end);
      rest ← bodies parts';
      Ok (body :: rest)
  end.

Definition cr_decode (parts : list RawPart) : CRes Block :=
  match parts with
  | [] => Ok block_new
  | _ => bs ← bodies parts; block_decode (zip_with (λ p body, mkPartRef (rp_inline p) body) parts bs)
  end.

Definition cr_block (block : Z) : CRes Block :=
  let span := block_keys block in
  raw ← cr_collect (fst span) (snd span);
  match raw with [] => Ok block_new | _ => cr_decode raw end.

Definition cr_block_for (local : Z) : CRes Block := cr_block (block_of local).
Definition cr_cell (local : Z) : CRes Cell := b ← cr_block_for local; Ok (block_get b (slot_of local)).

(** [if out.last() != Some(&block) { out.push(block) }]. *)
Definition push_block (out : list Z) (key : Z) : list Z :=
  let block := block_of_key key in if negb (bool_decide (last out = Some block)) then out ++ [block] else out.
Definition cr_blocks : CRes (list Z) :=
  of_tree (scan (λ out c, (push_block out (lc_key c), false)) (cr_pager r) (cr_root r) 0 u64_max []).

(** The loop over the parts: a part of another block hands on the block before it. *)
Fixpoint each_loop {S} (f : S → Z → Block → CRes (S * bool)) (all pending : list RawPart) (current : option Z) (st : S) : CRes S :=
  match all with
  | [] =>
      match current with
      | Some done => b ← cr_decode pending; '(st, _) ← f st done b; Ok st
      | None => Ok st
      end
  | part :: all' =>
      let block := block_of_key (rp_key part) in
      if bool_decide (current = Some block) then each_loop f all' (pending ++ [part]) current st
      else
        '(st, stop) ← (match current with Some done => b ← cr_decode pending; f st done b | None => Ok (st, false) end : CRes (S * bool));
        if stop : bool then Ok st else each_loop f all' [part] (Some block) st
  end.
Definition for_each_block {S} (f : S → Z → Block → CRes (S * bool)) (st : S) : CRes S :=
  all ← cr_collect 0 u64_max; each_loop f all [] None st.

Definition cr_count : CRes Z :=
  of_tree (scan (λ total c, (if part_of_key (lc_key c) =? 0 then (total + lc_cardinality c) mod 2 ^ 64 else total, false))
    (cr_pager r) (cr_root r) 0 u64_max 0).
End read.

(** * Writing (write.rs) *)
Record ColumnWrite := mkColumnWrite { cw_root : option Z }.

Section write.
Context {X : Extern} {build : Build} {P : Type} `{!Pager P, !PagerMut P} (s : Store P).
Implicit Types (w : ColumnWrite) (t : WriteTxn).

Definition column_reader w t : option (ColumnRead (TxnView P)) := option_map (mkColumnRead (mkView s t)) (cw_root w).

(** One part as the item of its key, its page taken and written first. *)
Definition part_item t (key : Z) (part : Part) : CRes (LeafItem * WriteTxn) :=
  match p_page part with
  | None => Ok (mkItem key TValuesInline (len (p_inline part) mod 2 ^ 16) (p_present part) 0 0 (p_inline part), t)
  | Some bytes =>
      if negb (len bytes =? PAGE_BYTES) then Err (CTruncated PAGE_BYTES (len bytes))
      else
        let checksum := bitmap_page_checksum bytes in
        '(pgno, t) ← of_tree (b_alloc s t);
        t ← of_tree (b_write t pgno bytes);
        Ok (mkItem key TValuesPtr (len (p_inline part) mod 2 ^ 16) (p_present part) checksum pgno (p_inline part), t)
  end.
Fixpoint part_items t (base block n : Z) (parts : list Part) : CRes (list LeafItem * WriteTxn) :=
  match parts with
  | [] => Ok ([], t)
  | part :: parts' =>
      '(it, t) ← part_item t (wrap64 (base + key_of block n)) part;
      '(its, t) ← part_items t base block (n + 1) parts';
      Ok (it :: its, t)
  end.
Definition block_items t (base block : Z) (value : Block) : CRes (list LeafItem * WriteTxn) :=
  parts ← map_err (λ e, match e with CTooManyParts _ => CTooManyParts block | other => other end) (block_encode value);
  if MAX_PARTS <? len parts then Err (CTooManyParts block) else part_items t base block 0 parts.

Definition parts_at w t (block : Z) : CRes (list Z) :=
  match cw_root w with
  | None => Ok []
  | Some root =>
      let span := block_keys block in
      of_tree (scan (λ out c, (out ++ [lc_key c], false)) (mkView s t) root (fst span) (snd span) [])
  end.

Definition remove_key w t (key : Z) : CRes (ColumnWrite * WriteTxn) :=
  match cw_root w with
  | None => Ok (w, t)
  | Some root => '(root, t) ← of_tree (BTreeWrite.remove s t root key); Ok (mkColumnWrite (Some root), t)
  end.
Fixpoint remove_keys w t (keys : list Z) : CRes (ColumnWrite * WriteTxn) :=
  match keys with
  | [] => Ok (w, t)
  | k :: keys' => '(w, t) ← remove_key w t k; remove_keys w t keys'
  end.

Definition collapse_column w t : CRes (ColumnWrite * WriteTxn) :=
  match cw_root w with
  | None => Ok (w, t)
  | Some root =>
      page ← of_tree (b_read s t root);
      ty ← of_tree (from_page (page_type page));
      empty ← (if bool_decide (ty = PLeaf) then n ← of_tree (from_page (cell_count page)); Ok (n =? 0) else Ok false : CRes bool);
      if empty : bool then t ← of_tree (free_tree s t root); Ok (mkColumnWrite None, t) else Ok (w, t)
  end.

Definition write_block w t (block : Z) (value : Block) : CRes (ColumnWrite * WriteTxn) :=
  '(items, t) ← block_items t 0 block value;
  existing ← parts_at w t block;
  '(w, t) ← remove_keys w t (drop (length items) existing);
  match items with
  | [] => collapse_column w t
  | _ => '(root, t) ← of_tree (put_many s t (cw_root w) items); Ok (mkColumnWrite (Some root), t)
  end.

Definition edit_block w t (block : Z) (edit : Block → Block) : CRes (ColumnWrite * WriteTxn) :=
  value ← (match column_reader w t with Some r => cr_block r block | None => Ok block_new end);
  let before := value in
  let value := edit value in
  if bool_decide (value = before) then Ok (w, t) else write_block w t block value.
End write.
