(* ===== verification/SegmentSpec.v ===== *)
(** What the segment of a column promises (the theory of Segment.v): it is a map from block numbers to
    blocks, that its readers read and its writers update, over any tree and beside everything else in the
    transaction. *)
From S2P Require Import Prelude Bits Search Container Optimize Delta Page Sample Leaf Branch Chain Meta Freelist Snapshot Roots Pager Store Crash SampleStore Txn Durable BTree BTreeWrite BTreeOwn BTreeBuild BTreeItem BTreeEdit BTreePut BTreeShow BTreeWalk BTreeSpec Coords RowSet OrdMap FragRead Bsi Group FragWrite FragStore Column ColumnSpec Segment.

(** * Keys *)
Definition block_number (blk : Z) : Prop := 0 <= blk < 2 ^ 56.

Lemma testbit_high n w i : 0 <= n → n < 2 ^ w → 0 <= w <= i → Z.testbit n i = false.
Proof.
  intros Hn Hw Hi. destruct (Z.eq_dec n 0) as [->|]; [apply Z.bits_0|]. apply Z.bits_above_log2; [exact Hn|]. apply Z.log2_lt_pow2; [lia|]. apply Z.lt_le_trans with (2 ^ w); [exact Hw|]. apply Z.pow_le_mono_r; lia.
Qed.
Lemma key_of_sum blk n : block_number blk → 0 <= n < 256 → key_of blk n = blk * 256 + n.
Proof.
  unfold block_number. intros Hb Hn. unfold key_of. change PART_BITS with 8. rewrite Z.shiftl_mul_pow2 by lia. change (2 ^ 8) with 256. rewrite Z.mod_small by lia.
  rewrite <- Z.add_lor_land. replace (Z.land (blk * 256) n) with 0; [lia|]. symmetry. apply Z.bits_inj'. intros i Hi. rewrite Z.land_spec, Z.bits_0. change 256 with (2 ^ 8).
  destruct (Z.lt_ge_cases i 8); [rewrite Z.mul_pow2_bits_low by lia; done|]. rewrite (testbit_high n 8 i); [apply andb_false_r|lia|change (2 ^ 8) with 256; lia|lia].
Qed.
Lemma block_of_key_div k : block_of_key k = k / 256.
Proof. unfold block_of_key. change PART_BITS with 8. by rewrite Z.shiftr_div_pow2 by lia. Qed.
Lemma part_of_key_mod k : part_of_key k = k mod 256.
Proof. unfold part_of_key. change (MAX_PARTS - 1) with (Z.ones 8). by rewrite Z.land_ones by lia. Qed.

(** A block's keys are its span and nothing else. *)
Lemma span_iff blk k : block_number blk → (fst (block_keys blk) <=? k) && (k <=? snd (block_keys blk)) = (block_of_key k =? blk).
Proof.
  intros Hb. unfold block_keys. cbn [fst snd]. change (MAX_PARTS - 1) with 255. rewrite !key_of_sum by (try assumption; lia). rewrite block_of_key_div.
  destruct (Z.leb_spec (blk * 256 + 0) k), (Z.leb_spec k (blk * 256 + 255)), (Z.eqb_spec (k / 256) blk); cbn; try done; Z.to_euclidean_division_equations; lia.
Qed.

Lemma key_of_parts blk n : block_number blk → 0 <= n < 256 → block_of_key (key_of blk n) = blk ∧ part_of_key (key_of blk n) = n ∧ 0 <= key_of blk n < 2 ^ 64.
Proof.
  intros Hb Hn. rewrite key_of_sum, block_of_key_div, part_of_key_mod by assumption. unfold block_number in Hb. split; [|split]; Z.to_euclidean_division_equations; lia.
Qed.

Lemma block_of_number local : 0 <= local < 2 ^ 64 → block_number (block_of local).
Proof. intros H. unfold block_of, block_number. change BLOCK_SHIFT with 10. rewrite Z.shiftr_div_pow2 by lia. Z.to_euclidean_division_equations; lia. Qed.

Lemma key_block_number k : 0 <= k < 2 ^ 64 → block_number (block_of_key k).
Proof. intros H. rewrite block_of_key_div. unfold block_number. Z.to_euclidean_division_equations; lia. Qed.

(** * Runs of a list *)
Section runs.
Context {A : Type} (g : A → Z).

(** The list is cut where [g] changes. *)
Inductive runs : list A → list (Z * list A) → Prop :=
| runs_nil : runs [] []
| runs_cons b x grp l gs : g x = b → Forall (λ y, g y = b) grp → runs l gs → Forall (λ e, b < fst e) gs → runs (x :: grp ++ l) ((b, x :: grp) :: gs).

Lemma runs_exist l : StronglySorted (λ x y, g x <= g y) l → ∃ gs, runs l gs.
Proof.
  induction 1 as [|x l Hs [gs IH] HF]; [exists []; constructor|]. destruct IH as [|b y grp l gs Hy Hg Hr Hb].
  - exists [(g x, [x])]. apply (runs_cons (g x) x [] [] []); [done|constructor|constructor|constructor].
  - apply Forall_cons in HF as [Hxy HF]. cbn in Hxy. destruct (Z.eq_dec (g x) b) as [E|E].
    + exists ((b, x :: y :: grp) :: gs). apply (runs_cons b x (y :: grp)); [exact E|by constructor|exact Hr|exact Hb].
    + exists ((g x, [x]) :: (b, y :: grp) :: gs). apply (runs_cons (g x) x [] (y :: grp ++ l)); [done|constructor|by constructor|]. constructor; [cbn; lia|]. eapply Forall_impl; [exact Hb|]. cbn. lia.
Qed.

Definition the_run (b : Z) (l : list A) : list A := List.filter (λ x, g x =? b) l.

Lemma run_all b grp : Forall (λ y, g y = b) grp → the_run b grp = grp.
Proof. intros H. apply filter_all. eapply Forall_impl; [exact H|]. intros y ->. by rewrite Z.eqb_refl. Qed.

Lemma run_none b b' grp : b' ≠ b → Forall (λ y, g y = b') grp → the_run b grp = [].
Proof. intros Hne H. apply filter_none. eapply Forall_impl; [exact H|]. intros y Hy. cbn in Hy. apply Z.eqb_neq. congruence. Qed.
Lemma run_app b l k : the_run b (l ++ k) = the_run b l ++ the_run b k.
Proof. apply List.filter_app. Qed.

Lemma runs_out l gs : runs l gs → ∀ b, Forall (λ e, b < fst e) gs → the_run b l = [].
Proof.
  induction 1 as [|b' x grp l gs Hx Hg Hr IH Hb]; intros b HF; [done|]. apply Forall_cons in HF as [Hlt HF]. cbn in Hlt. change (x :: grp ++ l) with ((x :: grp) ++ l). rewrite run_app, IH by exact HF. by rewrite (run_none b b') by (try lia; by constructor).
Qed.

(** Every group is the whole of its value's run, and no value is left out. *)
Lemma runs_spec l gs : runs l gs → StronglySorted Z.lt (map fst gs) ∧ (∀ b, b ∈ map fst gs ↔ the_run b l ≠ []) ∧ gs = map (λ b, (b, the_run b l)) (map fst gs).
Proof.
  intros H. assert (HS : StronglySorted Z.lt (map fst gs)).
  { induction H as [|b x grp l gs Hx Hg Hr IH Hb]; [constructor|]. cbn [map fst]. constructor; [exact IH|]. apply Forall_map. exact Hb. }
  assert (Hgs : ∀ b grp, (b, grp) ∈ gs → the_run b l = grp ∧ grp ≠ []).
  { clear HS. induction H as [|b x grp l gs Hx Hg Hr IH Hb]; intros b' grp' Hin; [by apply not_elem_of_nil in Hin|]. change (x :: grp ++ l) with ((x :: grp) ++ l). rewrite run_app.
    apply elem_of_cons in Hin as [[= -> ->]|Hin].
    - rewrite run_all by (by constructor). rewrite (runs_out l gs Hr) by exact Hb. by rewrite app_nil_r.
    - destruct (IH _ _ Hin) as [E Hne]. rewrite E. split; [|exact Hne]. rewrite Forall_forall in Hb. specialize (Hb _ Hin). cbn in Hb. by rewrite (run_none b' b) by (try lia; by constructor). }
  split; [exact HS|]. split.
  - intros b. change (map fst gs) with (fst <$> gs). rewrite list_elem_of_fmap. split.
    + intros ([b' grp] & -> & Hin). cbn [fst]. destruct (Hgs _ _ Hin) as [E Hne]. by rewrite E.
    + intros Hne. clear HS Hgs. induction H as [|b' x grp l gs Hx Hg Hr IH Hb]; [done|]. destruct (decide (b = b')) as [->|Hbb]; [exists (b', x :: grp); split; [done|by left]|].
      change (x :: grp ++ l) with ((x :: grp) ++ l) in Hne. rewrite run_app, (run_none b b') in Hne by (try congruence; by constructor). destruct (IH Hne) as (e & He & Hin). exists e. split; [exact He|by right].
  - rewrite map_map. clear HS. transitivity (map (λ e, e) gs); [by rewrite map_id|]. apply map_ext_in. intros [b grp] Hin. apply list_elem_of_In in Hin. cbn. by destruct (Hgs _ _ Hin) as [-> _].
Qed.

Lemma runs_concat l gs : runs l gs → l = concat (map snd gs).
Proof. induction 1 as [|b x grp l gs Hx Hg Hr IH Hb]; [done|]. cbn [map concat snd app]. by rewrite <- IH. Qed.
End runs.

(** * A column *)
Definition column_ok (b : list Cell) : Prop := block_ok b ∧ (scalar_block b ∨ list_block b) ∧ len (flat_values b) <= (MAX_PARTS - 1) * VALUES_PER_PART.

Lemma column_encode {build : Build} b : column_ok b → ∃ ps, block_encode b = Ok ps ∧ encoded_block b ps.
Proof.
  intros (Hb & Hs & Hl). change ((MAX_PARTS - 1) * VALUES_PER_PART) with 261120 in *. pose proof (block_encode_ok b Hb Hs ltac:(lia)) as H. change ((MAX_PARTS - 1) * VALUES_PER_PART) with 261120 in H.
  by rewrite (proj2 (Z.leb_le _ _)) in H by exact Hl.
Qed.

Lemma column_new : column_ok block_new.
Proof.
  split; [split; [vm_compute; reflexivity|]|split; [left|]].
  - apply Forall_replicate. exact I.
  - apply Forall_replicate. done.
  - vm_compute. discriminate.
Qed.

Definition item_block (it : LeafItem) : Z := block_of_key (li_key it).

Section column.
Context {X : Extern} {build : Build} {P : Type} `{!Pager P}.
Implicit Types (pager : P).

(** The item of part [n] of a block. *)
Record part_stored pager (blk n : Z) (p : Part) (it : LeafItem) : Prop := {
  sp_key : li_key it = key_of blk n;
  sp_inline : li_payload it = p_inline p;
  sp_present : li_cardinality it = p_present p;
  sp_page : match p_page p with
            | None => base_pgno it = None
            | Some page => ∃ no, base_pgno it = Some no ∧ pager_read pager no = Ok page ∧ bitmap_page_checksum page = li_bitmap_checksum it
            end
}.
Fixpoint parts_stored pager (blk n : Z) (ps : list Part) (its : list LeafItem) : Prop :=
  match ps, its with
  | [], [] => True
  | p :: ps', it :: its' => part_stored pager blk n p it ∧ parts_stored pager blk (n + 1) ps' its'
  | _, _ => False
  end.

(** The items of a tree hold the blocks [B]: of every block number the parts of its block, and no
    others. *)
Record column pager (items : list LeafItem) (B : Z → list Cell) : Prop := {
  col_ok blk : column_ok (B blk);
  col_parts blk : block_number blk → ∃ ps, block_encode (B blk) = Ok ps ∧ parts_stored pager blk 0 ps (the_run item_block blk items)
}.

Definition raw_item (it : LeafItem) : RawPart := mkRawPart (li_key it) (li_payload it) (option_map (λ p, (p, li_bitmap_checksum it)) (base_pgno it)).
Lemma raw_part_item c : raw_part c = raw_item (from_cell c).
Proof. unfold raw_part, raw_item, base_pgno, is_dense. cbn. by destruct (owns_page (lc_ty c)). Qed.

Lemma stored_bodies (r : ColumnRead P) blk ps : ∀ n its, parts_stored (cr_pager r) blk n ps its →
  bodies r (map raw_item its) = Ok (map (λ p, default [] (p_page p)) ps) ∧
  zip_with (λ p body, mkPartRef (rp_inline p) body) (map raw_item its) (map (λ p, default [] (p_page p)) ps) = map part_ref ps.
Proof.
  induction ps as [|p ps IH]; intros n [|it its]; try done. intros [[Hk Hi _ Hp] Hs]. destruct (IH _ _ Hs) as [E1 E2]. cbn [map bodies zip_with]. rewrite E1. split.
  - unfold raw_item at 1. cbn [rp_page]. destruct (p_page p) as [page|]; cbn [default].
    + destruct Hp as (no & -> & Hr & Hc). cbn [option_map]. rewrite Hr. cbn [from_store of_tree map_err mbind Res_bind]. rewrite Hc, Z.eqb_refl. done.
    + rewrite Hp. done.
  - f_equal; [|exact E2]. unfold part_ref. cbn [raw_item rp_inline]. by rewrite Hi.
Qed.

Lemma stored_decode (r : ColumnRead P) blk ps n its : parts_stored (cr_pager r) blk n ps its → cr_decode r (map raw_item its) = block_decode (map part_ref ps).
Proof.
  intros H. destruct (stored_bodies r blk ps n its H) as [E1 E2]. destruct its as [|it its]; [by destruct ps|]. unfold cr_decode. cbn [map] in *. rewrite E1. cbn [mbind Res_bind]. by rewrite E2.
Qed.

(** The parts of a stored block decode to it. *)
Lemma column_decode (r : ColumnRead P) items B blk : column (cr_pager r) items B → block_number blk → cr_decode r (map raw_item (the_run item_block blk items)) = Ok (B blk).
Proof.
  intros [Hok Hp] Hb. destruct (Hp blk Hb) as (ps & E & Hs). rewrite (stored_decode r blk ps 0 _ Hs). destruct (column_encode _ (Hok blk)) as (ps' & E' & He). rewrite E in E'. injection E' as <-. apply He.
Qed.

Lemma column_empty pager items B blk : column pager items B → block_number blk → the_run item_block blk items = [] ↔ B blk = block_new.
Proof.
  intros [Hok Hp] Hb. destruct (Hp blk Hb) as (ps & E & Hs). destruct (column_encode _ (Hok blk)) as (ps' & E' & He). rewrite E in E'. injection E' as <-. rewrite <- (eb_empty _ _ He). destruct ps, (the_run item_block blk items); done.
Qed.

(** ** Scans *)
Lemma visit_fold {S} (f : S → LeafCell → S) cells : ∀ st, visit (λ st c, (f st c, false)) st cells = (foldl f st cells, false).
Proof. induction cells as [|c cells IH]; intros st; [done|]. cbn [visit foldl]. apply IH. Qed.

Lemma scan_fold {S} (f : S → LeafCell → S) pager root cells lo hi st : tree_of pager root cells → scan (λ st c, (f st c, false)) pager root lo hi st = Ok (foldl f st (in_range lo hi cells)).
Proof. intros [(h & Hh & Ht) Ho _]. rewrite (scan_ok _ pager h root lo hi st cells Ht Ho Hh). by rewrite visit_fold. Qed.

Lemma foldl_snoc {A B} (f : A → B) l : ∀ out, foldl (λ out x, out ++ [f x]) out l = out ++ map f l.
Proof. induction l as [|x l IH]; intros out; cbn [foldl map]; [by rewrite app_nil_r|]. rewrite IH. by rewrite <- app_assoc. Qed.

Lemma collect_range (r : ColumnRead P) cells lo hi : tree_of (cr_pager r) (cr_root r) cells → cr_collect r lo hi = Ok (map raw_item (map from_cell (in_range lo hi cells))).
Proof.
  intros Ht. unfold cr_collect. rewrite (scan_fold (λ out c, out ++ [raw_part c]) _ _ _ lo hi [] Ht). cbn [of_tree map_err]. rewrite foldl_snoc, map_map. cbn [app]. f_equal. apply map_ext. apply raw_part_item.
Qed.

Lemma range_run blk cells : block_number blk → map from_cell (in_range (fst (block_keys blk)) (snd (block_keys blk)) cells) = the_run item_block blk (map from_cell cells).
Proof.
  intros Hb. unfold in_range, the_run. induction cells as [|c cells IH]; [done|]. cbn [List.filter map]. rewrite span_iff by exact Hb. change (item_block (from_cell c)) with (block_of_key (lc_key c)). destruct (block_of_key (lc_key c) =? blk); cbn [map]; by rewrite IH.
Qed.

Lemma block_read (r : ColumnRead P) cells B blk : tree_of (cr_pager r) (cr_root r) cells → column (cr_pager r) (map from_cell cells) B → block_number blk → cr_block r blk = Ok (B blk).
Proof.
  intros Ht Hc Hb. unfold cr_block. rewrite (collect_range r cells _ _ Ht), range_run by exact Hb. cbn [mbind Res_bind]. pose proof (column_decode r _ B blk Hc Hb) as H.
  destruct (map raw_item _) eqn:E; [exact H|exact H].
Qed.
End column.

(** * Walks over a column *)
Lemma push_same b l : ∀ out, Forall (λ it, item_block it = b) l → last out = Some b → foldl (λ out it, push_block out (li_key it)) out l = out.
Proof.
  induction l as [|it l IH]; intros out HF Hl; [done|]. apply Forall_cons in HF as [Hi HF]. cbn [foldl]. unfold push_block at 2. cbn zeta. change (block_of_key (li_key it)) with (item_block it). rewrite Hi, Hl, bool_decide_eq_true_2 by done. by apply IH.
Qed.

Lemma push_runs l gs : runs item_block l gs → ∀ out, (∀ b, last out = Some b → Forall (λ e, b < fst e) gs) → foldl (λ out it, push_block out (li_key it)) out l = out ++ map fst gs.
Proof.
  induction 1 as [|b x grp l gs Hx Hg Hr IH Hb]; intros out Hout; cbn [map fst]; [by rewrite app_nil_r|]. cbn [foldl]. rewrite foldl_app. unfold push_block at 3. cbn zeta. change (block_of_key (li_key x)) with (item_block x). rewrite Hx.
  rewrite bool_decide_eq_false_2; [|intros E; specialize (Hout _ E); apply Forall_cons in Hout as [Hlt _]; cbn in Hlt; lia]. cbn [negb]. rewrite (push_same b grp) by (try exact Hg; apply last_snoc). rewrite IH; [by rewrite <- app_assoc|]. intros b' Hb'. rewrite last_snoc in Hb'. injection Hb' as <-. exact Hb.
Qed.

(** What a reader that is handed the blocks one after the other does. *)
Fixpoint over_blocks {S} (f : S → Z → list Cell → CRes (S * bool)) (st : S) (bs : list (Z * list Cell)) : CRes S :=
  match bs with
  | [] => Ok st
  | (n, b) :: bs' => '(st, stop) ← f st n b; if stop : bool then Ok st else over_blocks f st bs'
  end.

Section walks.
Context {X : Extern} {build : Build} {P : Type} `{!Pager P} (r : ColumnRead P) {S : Type} (f : S → Z → list Cell → CRes (S * bool)).

Lemma each_same b l k : ∀ pending st, Forall (λ it, item_block it = b) l → each_loop r f (map raw_item (l ++ k)) pending (Some b) st = each_loop r f (map raw_item k) (pending ++ map raw_item l) (Some b) st.
Proof.
  induction l as [|it l IH]; intros pending st HF; [by rewrite app_nil_r|]. apply Forall_cons in HF as [Hi HF]. cbn [app map each_loop]. change (block_of_key (rp_key (raw_item it))) with (item_block it). rewrite Hi, bool_decide_eq_true_2 by done. rewrite IH by exact HF. by rewrite <- app_assoc.
Qed.

(** [done] has been read whole: it is handed on, then the runs that follow. *)
Fixpoint feed (st : S) (gs : list (Z * list LeafItem)) : CRes S :=
  match gs with
  | [] => Ok st
  | (n, grp) :: gs' => b ← cr_decode r (map raw_item grp); '(st, stop) ← f st n b; if stop : bool then Ok st else feed st gs'
  end.

Lemma each_runs l gs : runs item_block l gs → (∀ st, each_loop r f (map raw_item l) [] None st = feed st gs) ∧
  ∀ b grp st, Forall (λ e, b < fst e) gs → each_loop r f (map raw_item l) (map raw_item grp) (Some b) st = feed st ((b, grp) :: gs).
Proof.
  induction 1 as [|b x grp l gs Hx Hg Hr [_ IH] Hb].
  - split; [done|]. intros b grp st _. cbn. destruct (cr_decode r (map raw_item grp)) as [blk|e|]; cbn; try done. destruct (f st b blk) as [[st' []]|e|]; done.
  - assert (H : ∀ st, each_loop r f (map raw_item (grp ++ l)) [raw_item x] (Some b) st = feed st ((b, x :: grp) :: gs)).
    { intros st. rewrite each_same by exact Hg. change ([raw_item x] ++ map raw_item grp) with (map raw_item (x :: grp)). by apply IH. }
    split.
    + intros st. cbn [map each_loop]. change (block_of_key (rp_key (raw_item x))) with (item_block x). rewrite Hx, bool_decide_eq_false_2 by done. cbn [mbind Res_bind]. apply H.
    + intros b' grp' st HF. apply Forall_cons in HF as [Hlt _]. cbn in Hlt. cbn [map each_loop]. change (block_of_key (rp_key (raw_item x))) with (item_block x). rewrite Hx, bool_decide_eq_false_2 by (intros [= E]; lia). change (feed st ((b', grp') :: (b, x :: grp) :: gs)) with
        (blk ← cr_decode r (map raw_item grp'); '(st, stop) ← f st b' blk; if stop : bool then Ok st else feed st ((b, x :: grp) :: gs)).
      destruct (cr_decode r (map raw_item grp')) as [blk|e|]; cbn [mbind Res_bind]; try done. destruct (f st b' blk) as [[st' []]|e|]; try done. apply H.
Qed.

Lemma feed_blocks items B bs : column (cr_pager r) items B → Forall block_number bs → ∀ st, feed st (map (λ b, (b, the_run item_block b items)) bs) = over_blocks f st (map (λ b, (b, B b)) bs).
Proof.
  intros Hc. induction 1 as [|b bs Hb _ IH]; intros st; [done|]. cbn [map feed over_blocks]. rewrite (column_decode r items B b Hc Hb). cbn [mbind Res_bind]. destruct (f st b (B b)) as [[st' []]|e|]; try done. apply IH.
Qed.
End walks.

(** ** Counting *)
Definition weight (it : LeafItem) : Z := if part_of_key (li_key it) =? 0 then li_cardinality it else 0.
Definition total (l : list Z) : Z := foldr Z.add 0 l.

Lemma total_app a b : total (a ++ b) = total a + total b.
Proof. unfold total. induction a as [|x a IH]; [done|]. cbn [app foldr]. rewrite IH. lia. Qed.

Lemma parts_count_fold items : ∀ n, foldl (λ t it, if part_of_key (li_key it) =? 0 then (t + li_cardinality it) mod 2 ^ 64 else t) (n mod 2 ^ 64) items = (n + total (map weight items)) mod 2 ^ 64.
Proof.
  induction items as [|it items IH]; intros n; cbn [foldl map total foldr]; [by rewrite Z.add_0_r|]. fold (total (map weight items)). unfold weight at 1. destruct (part_of_key (li_key it) =? 0).
  - rewrite Zplus_mod_idemp_l, IH. f_equal. lia.
  - rewrite IH. done.
Qed.

Lemma rest_weights {X : Extern} {P} `{!Pager P} (pager : P) blk ps : block_number blk → ∀ n its, 1 <= n → n + len ps <= 256 → parts_stored pager blk n ps its → total (map weight its) = 0.
Proof.
  intros Hb. induction ps as [|p ps IH]; intros n [|it its] Hn Hl H; try done. destruct H as [Hp Hs]. unfold len in *. cbn [length] in Hl. cbn [map total foldr]. fold (total (map weight its)). rewrite (IH (n + 1) its) by (try lia; exact Hs).
  unfold weight. rewrite (sp_key _ _ _ _ _ Hp). destruct (key_of_parts blk n Hb ltac:(lia)) as (_ & -> & _). destruct (Z.eqb_spec n 0); lia.
Qed.

Lemma block_weight {X : Extern} {build : Build} {P} `{!Pager P} (pager : P) items B blk : column pager items B → block_number blk → total (map weight (the_run item_block blk items)) = block_present (B blk).
Proof.
  intros [Hok Hp] Hb. destruct (Hp blk Hb) as (ps & E & Hs). destruct (column_encode _ (Hok blk)) as (ps' & E' & He). rewrite E in E'. injection E' as <-. destruct ps as [|p ps], (the_run item_block blk items) as [|it its]; try done.
  - rewrite (proj1 (eb_empty _ _ He) eq_refl). vm_compute. reflexivity.
  - destruct Hs as [H1 Hs]. pose proof (eb_count _ _ He) as Hc. change MAX_PARTS with 256 in Hc. unfold len in Hc. cbn [length] in Hc. cbn [map total foldr]. fold (total (map weight its)). rewrite (rest_weights pager blk ps Hb 1 its) by (try lia; try exact Hs; unfold len; lia).
    unfold weight. rewrite (sp_key _ _ _ _ _ H1), (sp_present _ _ _ _ _ H1). destruct (key_of_parts blk 0 Hb ltac:(lia)) as (_ & -> & _). cbn [Z.eqb]. pose proof (eb_present _ _ He) as Hpr. cbn in Hpr. injection Hpr as ->. lia.
Qed.

Section reads.
Context {X : Extern} {build : Build} {P : Type} `{!Pager P}.
Implicit Types (r : ColumnRead P).

Lemma cells_ascend cells : in_order cells → StronglySorted (λ x y, item_block x <= item_block y) (map from_cell cells).
Proof.
  induction 1 as [|c cells _ IH HF]; cbn [map]; constructor; [exact IH|]. apply Forall_map. eapply Forall_impl; [exact HF|]. intros d Hd. cbn in *. unfold item_block. rewrite !block_of_key_div. apply Z.div_le_mono; [lia|]. cbn. lia.
Qed.

Lemma fold_items {S} (g : S → LeafItem → S) cells : ∀ st, foldl (λ st c, g st (from_cell c)) st cells = foldl g st (map from_cell cells).
Proof. induction cells as [|c cells IH]; intros st; [done|]. cbn [foldl map]. apply IH. Qed.

(** The blocks a column has, in order, and the runs of its items. *)
Lemma column_blocks pager root cells B : tree_of pager root cells → column pager (map from_cell cells) B →
  ∃ bs, ascending bs ∧ (∀ b, b ∈ bs ↔ block_number b ∧ B b ≠ block_new) ∧ runs item_block (map from_cell cells) (map (λ b, (b, the_run item_block b (map from_cell cells))) bs).
Proof.
  intros [_ Ho Hk] Hc. destruct (runs_exist item_block _ (cells_ascend cells Ho)) as [gs Hr]. destruct (runs_spec _ _ _ Hr) as (H1 & H2 & H3). exists (map fst gs). split; [exact H1|]. split; [|by rewrite <- H3].
  assert (Hn : ∀ b, the_run item_block b (map from_cell cells) ≠ [] → block_number b).
  { intros b Hne. destruct (the_run item_block b (map from_cell cells)) as [|it its] eqn:E; [done|]. assert (Hin : it ∈ the_run item_block b (map from_cell cells)) by (rewrite E; by left).
    apply elem_of_Lfilter in Hin as [Hin Hb]. apply Z.eqb_eq in Hb as <-. apply list_elem_of_fmap in Hin as (c & -> & Hin). apply key_block_number. rewrite Forall_forall in Hk. by apply Hk. }
  intros b. rewrite H2. split; [intros Hne|intros [Hb Hne]].
  - pose proof (Hn b Hne) as Hb. split; [exact Hb|]. by rewrite <- (column_empty _ _ _ b Hc Hb).
  - by rewrite (column_empty _ _ _ b Hc Hb).
Qed.

(** C20.  Reading a column.  Of a tree that holds the blocks [B]: any record's block and cell read as
    [B] has them; the blocks listed are the ones that hold anything, in order; the count, which reads no
    page but the leaves, is the number of cells that hold something; and the walk hands over each of those
    blocks once, in order, until its caller stops or fails. *)
Theorem column_reads r cells B {S} (f : S → Z → list Cell → CRes (S * bool)) st :
  tree_of (cr_pager r) (cr_root r) cells → column (cr_pager r) (map from_cell cells) B →
  (∀ local, 0 <= local < 2 ^ 64 → cr_block_for r local = Ok (B (block_of local)) ∧ cr_cell r local = Ok (block_get (B (block_of local)) (slot_of local))) ∧
  ∃ bs, ascending bs ∧ (∀ b, b ∈ bs ↔ block_number b ∧ B b ≠ block_new) ∧ cr_blocks r = Ok bs ∧
    cr_count r = Ok (total (map (λ b, block_present (B b)) bs) mod 2 ^ 64) ∧
    for_each_block r f st = over_blocks f st (map (λ b, (b, B b)) bs).
Proof.
  intros Ht Hc. split.
  { intros local Hl. pose proof (block_read r cells B (block_of local) Ht Hc (block_of_number local Hl)) as E. unfold cr_cell, cr_block_for. by rewrite E. }
  destruct (column_blocks _ _ _ _ Ht Hc) as (bs & H1 & H2 & Hr). exists bs. split; [exact H1|]. split; [exact H2|]. assert (HF : Forall block_number bs) by (apply Forall_forall; intros b Hb; by apply H2).
  pose proof (to_keys _ _ _ Ht) as Hk. split; [|split].
  - unfold cr_blocks. rewrite (scan_fold (λ out c, push_block out (lc_key c)) _ _ _ 0 u64_max [] Ht), in_range_all by exact Hk. cbn [of_tree map_err]. f_equal. rewrite (fold_items (λ out it, push_block out (li_key it))). rewrite (push_runs _ _ Hr) by done. rewrite map_map. cbn [fst app]. apply map_id.
  - unfold cr_count. rewrite (scan_fold (λ t c, if part_of_key (lc_key c) =? 0 then (t + lc_cardinality c) mod 2 ^ 64 else t) _ _ _ 0 u64_max 0 Ht), in_range_all by exact Hk. cbn [of_tree map_err]. f_equal.
    rewrite (fold_items (λ t it, if part_of_key (li_key it) =? 0 then (t + li_cardinality it) mod 2 ^ 64 else t)). rewrite (parts_count_fold _ 0 : foldl _ 0 _ = _). f_equal. rewrite (runs_concat _ _ _ Hr) at 1. rewrite map_map. cbn [snd]. clear H1 H2 Hr.
    set (items := map from_cell cells) in *. clearbody items. induction HF as [|b bs Hb _ IH]; [done|]. cbn [map concat]. rewrite map_app, total_app, (block_weight _ _ _ b Hc Hb). cbn [total foldr]. fold (total (map (λ b, block_present (B b)) bs)). lia.
  - unfold for_each_block. rewrite (collect_range r cells _ _ Ht), in_range_all by exact Hk. cbn [mbind Res_bind]. rewrite (proj1 (each_runs r f _ _ Hr)). by apply feed_blocks.
Qed.
End reads.

(** * What the tree's updates do to one block *)
Lemma filter_comm {A} (p q : A → bool) l : List.filter p (List.filter q l) = List.filter q (List.filter p l).
Proof. induction l as [|x l IH]; [done|]. cbn [List.filter]. destruct (q x) eqn:Eq, (p x) eqn:Ep; cbn [List.filter]; rewrite ?Ep, ?Eq, IH; done. Qed.

Lemma run_below b k items : the_run item_block b (below k items) = below k (the_run item_block b items).
Proof. apply filter_comm. Qed.
Lemma run_above b k items : the_run item_block b (above k items) = above k (the_run item_block b items).
Proof. apply filter_comm. Qed.
Lemma run_order b items : items_in_order items → items_in_order (the_run item_block b items).
Proof.
  induction 1 as [|x l _ IH HF]; [constructor|]. unfold the_run. cbn [List.filter]. destruct (item_block x =? b); [|exact IH]. constructor; [exact IH|]. apply Forall_forall. intros y Hy. apply elem_of_Lfilter in Hy as [Hy _]. rewrite Forall_forall in HF. by apply HF.
Qed.

Lemma drop_absent items k : items_in_order items → Forall (λ it, li_key it ≠ k) items → below k items ++ above k items = items.
Proof.
  intros Ho HF. destruct (cut_order items k Ho) as (a & o & b & Hc & _). destruct (cut_spec _ _ _ _ _ Hc) as (-> & -> & _). destruct Hc as [-> _ Hat _]. destruct o as [x|]; [|done]. exfalso. rewrite Forall_forall in HF. apply (HF x); [|by apply Hat]. cbn. apply elem_of_app. right. by left.
Qed.
Lemma run_absent b k items : block_of_key k ≠ b → Forall (λ it, li_key it ≠ k) (the_run item_block b items).
Proof. intros Hne. apply Forall_forall. intros it Hin Hk. apply elem_of_Lfilter in Hin as [_ Hb]. apply Z.eqb_eq in Hb. apply Hne. rewrite <- Hk. exact Hb. Qed.

Lemma run_drop b items k : items_in_order items → the_run item_block b (drop_item items k) = if block_of_key k =? b then drop_item (the_run item_block b items) k else the_run item_block b items.
Proof.
  intros Ho. unfold drop_item. rewrite run_app, run_below, run_above. destruct (Z.eqb_spec (block_of_key k) b); [done|]. apply drop_absent; [by apply run_order|by apply run_absent].
Qed.
Lemma run_put b items it : items_in_order items → the_run item_block b (put_item items it) = if item_block it =? b then put_item (the_run item_block b items) it else the_run item_block b items.
Proof.
  intros Ho. unfold put_item. rewrite run_app. change (it :: above (li_key it) items) with ([it] ++ above (li_key it) items). rewrite run_app, run_below, run_above. unfold the_run at 2. cbn [List.filter]. destruct (Z.eqb_spec (item_block it) b); [done|]. apply drop_absent; [by apply run_order|by apply run_absent].
Qed.

Lemma fold_drop_order keys : ∀ items, items_in_order items → items_in_order (foldl drop_item items keys).
Proof. induction keys as [|k keys IH]; intros items Ho; [done|]. cbn [foldl]. by apply IH, drop_item_order. Qed.

Lemma run_drops b blk keys : Forall (λ k, block_of_key k = blk) keys → ∀ items, items_in_order items →
  the_run item_block b (foldl drop_item items keys) = if blk =? b then foldl drop_item (the_run item_block b items) keys else the_run item_block b items.
Proof.
  induction 1 as [|k keys Hk _ IH]; intros items Ho; cbn [foldl]; [by destruct (blk =? b)|]. rewrite IH by (by apply drop_item_order). rewrite run_drop, Hk by exact Ho. by destruct (blk =? b).
Qed.
Lemma run_puts b blk its : Forall (λ it, item_block it = blk) its → ∀ items, items_in_order items →
  the_run item_block b (foldl put_item items its) = if blk =? b then foldl put_item (the_run item_block b items) its else the_run item_block b items.
Proof.
  induction 1 as [|it its Hk _ IH]; intros items Ho; cbn [foldl]; [by destruct (blk =? b)|]. rewrite IH by (by apply put_item_order). rewrite run_put, Hk by exact Ho. by destruct (blk =? b).
Qed.

(** Removing the keys of the tail leaves the front. *)
Lemma drop_tail d : ∀ a, items_in_order (a ++ d) → foldl drop_item (a ++ d) (map li_key d) = a.
Proof.
  induction d as [|x d IH]; intros a Ho; cbn [map foldl]; [by rewrite app_nil_r|].
  assert (Hc : cut (li_key x) (a ++ x :: d) a (Some x) d).
  { apply StronglySorted_app in Ho as (H1 & H2 & H3). apply StronglySorted_inv in H3 as [H3 H4]. split; [done| |by intros y [= <-]|exact H4]. apply Forall_forall. intros y Hy. apply H1; [exact Hy|by left]. }
  unfold drop_item at 2. destruct (cut_spec _ _ _ _ _ Hc) as (-> & -> & _). apply IH. apply StronglySorted_app in Ho as (H1 & H2 & H3). apply StronglySorted_inv in H3 as [H3 _]. apply StronglySorted_app_2; [|exact H2|exact H3]. intros u v Hu Hv. apply H1; [exact Hu|by right].
Qed.

(** Items put over a front of the same keys replace it. *)
Lemma put_over its : ∀ a l, items_in_order (a ++ its) → map li_key l `prefix_of` map li_key its → foldl put_item (a ++ l) its = a ++ its.
Proof.
  induction its as [|it its IH]; intros a l Ho Hp; cbn [foldl].
  { destruct l; [done|]. destruct Hp as [k Hk]. discriminate Hk. }
  apply StronglySorted_app in Ho as Hx. destruct Hx as (H1 & Hoa & H3). apply StronglySorted_inv in H3 as [H3 Hgt]. assert (Ha : Forall (λ y, li_key y < li_key it) a) by (apply Forall_forall; intros y Hy; apply H1; [exact Hy|by left]).
  assert (Ho' : items_in_order ((a ++ [it]) ++ its)) by (by rewrite <- app_assoc). destruct l as [|x l].
  - rewrite app_nil_r, put_item_last by exact Ha. rewrite <- (app_nil_r (a ++ [it])), IH by (try exact Ho'; apply prefix_nil). by rewrite <- app_assoc.
  - destruct Hp as [k Hk]. cbn [map app] in Hk. injection Hk as Hk1 Hk2. assert (Hl : Forall (λ y, li_key it < li_key y) l).
    { apply Forall_forall. intros y Hy. assert (Hin : li_key y ∈ map li_key its) by (rewrite Hk2; apply elem_of_app; left; by apply list_elem_of_fmap_2). apply list_elem_of_fmap in Hin as (z & -> & Hz). rewrite Forall_forall in Hgt. by apply Hgt. }
    assert (Hc : cut (li_key it) (a ++ x :: l) a (Some x) l) by (split; [done|exact Ha|intros y [= <-]; congruence|exact Hl]). unfold put_item at 2. destruct (cut_spec _ _ _ _ _ Hc) as (-> & -> & _).
    change (a ++ it :: l) with (a ++ [it] ++ l). rewrite app_assoc, IH by (try exact Ho'; by exists k). by rewrite <- app_assoc.
Qed.

(** * Writing a block *)
Definition set_at (B : Z → list Cell) (blk : Z) (b : list Cell) : Z → list Cell := λ n, if n =? blk then b else B n.
Definition parts_of (b : list Cell) : nat := match block_encode b with Ok ps => length ps | _ => 0 end.

Section writes.
Context {X : Extern} {L : ExternLaws X} {build : Build} {P : Type} `{!Pager P, !PagerMut P} (fd : Freelist) (l : Layout).
Implicit Types (c : Cfg P) (w : ColumnWrite).

Lemma part_item_ok c key p n : txn_inv fd l c → part_fits p → 0 <= key < 2 ^ 64 → room c n → 1 <= n →
  ∃ it c', part_item (c_store c) (c_txn c) key p = Ok (it, c_txn c') ∧ took c c' [] (bases [it]) ∧ item_ok it ∧ room c' (n - 1) ∧
    ∀ blk m, key = key_of blk m → part_stored (view c') blk m p it.
Proof.
  intros Hinv [Hi Hb Hp Hg] Hk Hr Hn. change INLINE_MAX with 4096 in Hi. change BLOCK_RECORDS with 1024 in Hp. assert (Hl : 0 <= len (p_inline p) < 2 ^ 16) by (unfold len in *; lia). unfold part_item. rewrite (Z.mod_small (len (p_inline p))) by exact Hl.
  assert (Hit : ∀ ty crc no, (ty = TValuesInline ∨ ty = TValuesPtr) → 0 <= crc < 2 ^ 32 → 0 <= no < 2 ^ 32 → item_ok (mkItem key ty (len (p_inline p)) (p_present p) crc no (p_inline p))).
  { intros ty crc no Hty Hc Hno. split; [|change CELL_PAYLOAD_MAX with 8148; cbn [li_payload]; unfold zlen, len in *; lia]. unfold staged_ok, item_staged. cbn. split_and!; try lia; try assumption. unfold zlen. destruct Hty as [-> | ->]; reflexivity. }
  destruct (p_page p) as [bytes|] eqn:Ep.
  - destruct (Hg bytes eq_refl) as [Hlen _]. rewrite Hlen, Z.eqb_refl. cbn [negb]. destruct (take_page fd l c n (λ _, bytes) Hinv Hr Hn) as (no & t1 & c' & Ha & Hno & Hw & He & Hr' & Ho & Hpg). unfold b_alloc, b_write. rewrite Ha. cbn [from_store of_tree map_err mbind Res_bind]. rewrite Hw. cbn [from_store of_tree map_err mbind Res_bind].
    eexists _, c'. split; [reflexivity|]. split; [|split; [apply Hit; [by right|apply crc32_u32|lia]|split; [exact Hr'|]]].
    + split; [exact He|]. exists [no]. split; [done|exact Ho].
    + intros blk m ->. split; [done|done|done|]. rewrite Ep. exists no. split; [done|]. split; [exact Hpg|done].
  - eexists _, c. split; [reflexivity|]. split; [apply took_refl|]. split; [apply Hit; [by left|lia|lia]|]. split; [eapply room_sub; [exact Hr|lia]|]. intros blk m ->. split; [done|done|done|]. by rewrite Ep.
Qed.

Lemma stored_keep c c' blk ps : ∀ n its, parts_stored (view c) blk n ps its → (∀ q, q ∈ bases its → page_at c' q = page_at c q) → parts_stored (view c') blk n ps its.
Proof.
  induction ps as [|p ps IH]; intros n [|it its]; try done. intros [[H1 H2 H3 H4] Hs] Hq. change (it :: its) with ([it] ++ its) in Hq. rewrite bases_app in Hq. split; [|apply IH; [exact Hs|intros q Hin; apply Hq; find_in]]. split; [exact H1|exact H2|exact H3|].
  destruct (p_page p) as [page|]; [|exact H4]. destruct H4 as (no & E & Hrd & Hc). exists no. split; [exact E|]. split; [|exact Hc]. rewrite <- Hrd. apply (Hq no). apply elem_of_app. left. apply elem_of_bases. exists it. split; [by left|exact E].
Qed.

Lemma column_keep c c' items B : column (view c) items B → (∀ q, q ∈ bases items → page_at c' q = page_at c q) → column (view c') items B.
Proof.
  intros [H1 H2] Hq. split; [exact H1|]. intros blk Hb. destruct (H2 blk Hb) as (ps & E & Hs). exists ps. split; [exact E|]. eapply stored_keep; [exact Hs|]. intros q Hin. apply Hq. apply elem_of_bases in Hin as (it & Hit & Hb'). apply elem_of_bases. exists it. split; [|exact Hb']. by apply elem_of_Lfilter in Hit as [Hit _].
Qed.

Lemma part_items_ok blk ps : block_number blk → Forall part_fits ps → ∀ c n m, txn_inv fd l c → 0 <= m → m + len ps <= 256 → room c n → len ps <= n →
  ∃ its c', part_items (c_store c) (c_txn c) 0 blk m ps = Ok (its, c_txn c') ∧ took c c' [] (bases its) ∧ Forall item_ok its ∧ room c' (n - len ps) ∧ parts_stored (view c') blk m ps its.
Proof.
  intros Hb HF. induction HF as [|p ps Hp _ IH]; intros c n m Hinv Hm Hl Hr Hn; unfold len in *; cbn [length part_items] in *.
  - exists [], c. split; [done|]. split; [apply took_refl|]. split; [constructor|]. split; [eapply room_sub; [exact Hr|lia]|done].
  - destruct (key_of_parts blk m Hb ltac:(lia)) as (_ & _ & Hk). rewrite Z.add_0_l. unfold wrap64. rewrite Z.mod_small by exact Hk. destruct (part_item_ok c _ p n Hinv Hp Hk Hr ltac:(lia)) as (it & c1 & E1 & T1 & I1 & R1 & S1). rewrite E1. cbn [mbind Res_bind].
    destruct (IH c1 (n - 1) (m + 1)) as (its & c2 & E2 & T2 & I2 & R2 & S2); [by eapply took_inv|lia|lia|exact R1|lia|]. rewrite (took_store _ _ _ _ T1) in E2. rewrite E2. cbn [mbind Res_bind]. exists (it :: its), c2. split; [done|]. split; [|split; [by constructor|split]].
    + eapply took_trans; [exact T1|]. eapply took_perm; [| |exact (took_frame _ _ _ _ (bases [it]) T2)]; [done|]. change (it :: its) with ([it] ++ its). rewrite bases_app. apply Permutation_app_comm.
    + eapply room_sub; [exact R2|lia].
    + split; [|exact S2]. destruct (stored_keep c1 c2 blk [p] m [it]) as [H _]; [split; [by apply S1|done]| |exact H]. intros q Hq. eapply took_reads; [exact T2|]. assert (Hsub : bases [it] ⊆ own c1) by (eapply took_sub; [exact T1|by intros ? ?%not_elem_of_nil]). by apply Hsub.
Qed.

(** The keys of a stored block. *)
Lemma stored_keys {Q} `{!Pager Q} (pager : Q) blk ps : block_number blk → ∀ n its, 0 <= n → n + len ps <= 256 → parts_stored pager blk n ps its →
  map li_key its = map (λ i, blk * 256 + i) (seqZ n (len ps)) ∧ length its = length ps ∧ Forall (λ it, item_block it = blk) its.
Proof.
  intros Hb. unfold len. induction ps as [|p ps IH]; intros n [|it its] Hn Hl H; try done. cbn [length] in Hl. destruct H as [[Hk _ _ _] Hs]. destruct (IH (n + 1) its ltac:(lia) ltac:(lia) Hs) as (E & El & HF). cbn [map length]. rewrite seqZ_cons by lia. cbn [map]. rewrite Hk, key_of_sum by (try assumption; lia).
  split; [|split; [by f_equal|]]. { f_equal. rewrite E. f_equal. f_equal; lia. }
  constructor; [|exact HF]. unfold item_block. rewrite Hk. apply key_of_parts; [exact Hb|lia].
Qed.
Lemma stored_order {Q} `{!Pager Q} (pager : Q) blk ps n its : block_number blk → 0 <= n → n + len ps <= 256 → parts_stored pager blk n ps its → items_in_order its.
Proof.
  intros Hb Hn Hl H. destruct (stored_keys pager blk ps Hb n its Hn Hl H) as (E & _ & _). assert (Ha : ascending (map li_key its)).
  { rewrite E. clear. pose proof (ascending_seqZ n (len ps)) as Ha. induction Ha as [|x k _ IH HF]; cbn [map]; constructor; [exact IH|]. apply Forall_forall. intros y Hy. apply list_elem_of_fmap in Hy as (z & -> & Hz). rewrite Forall_forall in HF. specialize (HF z Hz). lia. }
  clear -Ha. induction its as [|it its IH]; [constructor|]. cbn [map] in Ha. apply StronglySorted_inv in Ha as [Ha HF]. constructor; [by apply IH|]. apply Forall_forall. intros y Hy. rewrite Forall_forall in HF. apply HF. by apply list_elem_of_fmap_2.
Qed.
End writes.

Section blocks.
Context {X : Extern} {L : ExternLaws X} {build : Build} {P : Type} `{!Pager P, !PagerMut P} (fd : Freelist) (l : Layout).
Implicit Types (c : Cfg P) (w : ColumnWrite).

(** The column of the handle holds the blocks [B], under a tree of height [h], beside the pages [F]. *)
Definition segment c w (B : Z → list Cell) (h : nat) (F : list Z) : Prop :=
  ∃ items, has_root fd l c h (cw_root w) items F ∧ column (view c) items B.

Lemma root_order c h root items F : has_root fd l c h root items F → items_in_order items.
Proof. destruct root; intros H; [apply H|]. destruct H as (_ & -> & _). constructor. Qed.
Lemma root_inv c h root items F : has_root fd l c h root items F → txn_inv fd l c.
Proof. destruct root; intros H; apply H. Qed.

(** Pages taken beside a tree. *)
Lemma root_beside c c' h root items F new : has_root fd l c h root items F → took c c' [] new → has_root fd l c' h root items (new ++ F) ∧ ∀ q, q ∈ bases items → page_at c' q = page_at c q.
Proof.
  intros Hr Ht. assert (Hinv' : txn_inv fd l c') by (eapply took_inv; [by eapply root_inv|exact Ht]). destruct root as [root|]; cbn in *.
  - destruct Hr as [Hinv Ho (v & Hv & Hown)]. assert (Hk : ∀ q, q ∈ v → page_at c' q = page_at c q) by (intros q Hq; eapply took_reads; [exact Ht|]; rewrite Hown; find_in). split.
    + split; [exact Hinv'|exact Ho|]. exists v. split; [by eapply own_tree_keep|]. rewrite (took_own c c' [] new (v ++ F) Ht Hown). rewrite !app_assoc. apply Permutation_app_tail, Permutation_app_comm.
    + intros q Hq. apply Hk. by eapply own_tree_bases.
  - destruct Hr as (Hinv & -> & -> & Hown). split; [|by intros q ?%not_elem_of_nil]. split; [exact Hinv'|]. split; [done|]. split; [done|]. by apply (took_own c c' [] new F Ht).
Qed.

Lemma remove_keys_ok F keys : ∀ c w items h n, has_root fd l c h (cw_root w) items F → room c n → per_key * Z.of_nat (length keys) <= n →
  (∃ w' c' h', remove_keys (c_store c) w (c_txn c) keys = Ok (w', c_txn c') ∧ evolves c c' (bases (foldl drop_item items keys) ++ F) ∧ has_root fd l c' h' (cw_root w') (foldl drop_item items keys) F ∧
     (h' <= h + length keys)%nat ∧ room c' (n - per_key * Z.of_nat (length keys))) ∨
  ((MAX_DEPTH < h + length keys)%nat ∧ ∃ r, remove_keys (c_store c) w (c_txn c) keys = Err (CTree (BTooDeep r))).
Proof.
  unfold per_key. induction keys as [|k keys IH]; intros c w items h n Hht Hr Hn; cbn [remove_keys length foldl] in *.
  { left. exists w, c, h. split; [done|]. split; [apply evolves_refl|]. split; [exact Hht|]. split; [lia|]. eapply room_sub; [exact Hr|lia]. }
  unfold remove_key. destruct (cw_root w) as [root|] eqn:Ew; cbn in Hht.
  - destruct (decide (h < MAX_DEPTH)%nat) as [Hd|Hd].
    + destruct (remove_ok fd l c h root items k F n Hht Hd Hr ltac:(unfold MAX_DEPTH in Hd; lia)) as (root' & c1 & h1 & E1 & He1 & Ht1 & Hh1 & Hr1). rewrite E1. cbn [of_tree map_err mbind Res_bind]. rewrite <- (ev_store _ _ _ He1).
      destruct (IH c1 (mkColumnWrite (Some root')) (drop_item items k) h1 (n - 34 * 454) Ht1) as [(w' & c' & h' & E & He & Ht & Hh & Hr')|[Hdeep (r & E)]]; [eapply room_sub; [exact Hr1|unfold MAX_DEPTH in Hd; lia]|lia| |right; split; [lia|by exists r]].
      left. exists w', c', h'. split; [exact E|]. split; [|split; [exact Ht|split; [lia|eapply room_sub; [exact Hr'|lia]]]]. eapply evolves_trans; [exact He1|exact He| |done].
      intros q Hq. apply elem_of_app in Hq as [Hq|Hq]; apply elem_of_app; [left|by right]. apply elem_of_bases in Hq as (it & Hit & Hb). apply elem_of_bases. exists it. split; [|exact Hb]. clear -Hit. revert Hit. generalize (drop_item items k). induction keys as [|k' keys IH]; intros ys Hit; [exact Hit|]. cbn [foldl] in Hit. apply IH in Hit. by eapply elem_of_drop_item.
    + right. split; [lia|]. exists root. unfold remove. destruct Hht as [_ Hord (v & Ht & _)]. unfold descend. by rewrite (descend_deep MAX_DEPTH h c root root k items v [] Ht Hord ltac:(lia)).
  - destruct Hht as (Hinv & -> & -> & Hown). cbn [mbind Res_bind]. change (drop_item [] k) with (@nil LeafItem). assert (Hht : has_root fd l c 0 (cw_root w) [] F) by (rewrite Ew; exact (conj Hinv (conj eq_refl (conj eq_refl Hown)))).
    destruct (IH c w [] 0%nat n Hht Hr ltac:(lia)) as [(w' & c' & h' & E & He & Ht & Hh & Hr')|[Hdeep H]]; [left|right; split; [lia|exact H]]. exists w', c', h'. split; [exact E|]. split; [exact He|]. split; [exact Ht|]. split; [lia|]. eapply room_sub; [exact Hr'|lia].
Qed.

Lemma collapse_column_ok c w items h F : has_root fd l c h (cw_root w) items F →
  ∃ w' c' h', collapse_column (c_store c) w (c_txn c) = Ok (w', c_txn c') ∧ evolves c c' (bases items ++ F) ∧ has_root fd l c' h' (cw_root w') items F ∧ (h' <= h)%nat.
Proof.
  intros Hht. unfold collapse_column. assert (Hkeep : ∃ w' c' h', Ok (E := ColumnError) (w, c_txn c) = Ok (w', c_txn c') ∧ evolves c c' (bases items ++ F) ∧ has_root fd l c' h' (cw_root w') items F ∧ (h' <= h)%nat).
  { exists w, c, h. split; [done|]. split; [apply evolves_refl|]. by split. }
  destruct (cw_root w) as [root|] eqn:Ew; [|exact Hkeep]. cbn in Hht. pose proof Hht as [Hinv Ho (v & Ht & Hown)]. destruct (root_page c h root items v Ht) as (page & Hrd & Hok & Hpg). unfold b_read. rewrite Hrd. cbn [from_store of_tree map_err mbind Res_bind]. destruct h as [|h].
  - destruct Hpg as [-> Hcc]. cbn [from_page of_tree map_err mbind Res_bind]. rewrite bool_decide_eq_true_2 by done. rewrite Hcc. cbn [from_page of_tree map_err mbind Res_bind]. destruct (Z.eqb_spec (Z.of_nat (length items)) 0) as [Ez|Ez]; [|exact Hkeep].
    destruct items; [|cbn in Ez; lia]. destruct (free_tree_ok fd l c 0 root [] F Hht) as (c' & Hf & He & Ho' & _); [unfold MAX_DEPTH; lia|]. rewrite Hf. cbn [of_tree map_err mbind Res_bind]. eexists _, c', 0%nat. split; [reflexivity|]. split; [exact He|]. split; [|lia].
    cbn. split; [by eapply evolves_inv|]. split; [done|]. split; [done|exact Ho'].
  - rewrite Hpg. cbn [from_page of_tree map_err mbind Res_bind]. rewrite bool_decide_eq_false_2 by done. cbn [mbind Res_bind]. exact Hkeep.
Qed.

Lemma parts_at_ok c w items h F blk : has_root fd l c h (cw_root w) items F → (h < MAX_DEPTH)%nat → block_number blk →
  parts_at (c_store c) w (c_txn c) blk = Ok (map li_key (the_run item_block blk items)).
Proof.
  intros Hht Hd Hb. unfold parts_at. destruct (cw_root w) as [root|] eqn:Ew; cbn in Hht; [|by destruct Hht as (_ & -> & _)]. destruct Hht as [_ Ho (v & Ht & _)].
  destruct (own_tree_of (view c) c h root items v Ht Ho Hd (view_agrees c v)) as (cells & <- & Hto & _). change (mkView (c_store c) (c_txn c)) with (view c). rewrite (scan_fold (λ out x, out ++ [lc_key x]) (view c) root cells _ _ [] Hto).
  cbn [of_tree map_err]. rewrite foldl_snoc. cbn [app]. rewrite <- range_run by exact Hb. by rewrite map_map.
Qed.

Lemma elem_of_puts its x : ∀ items, x ∈ foldl put_item items its → x ∈ items ∨ x ∈ its.
Proof.
  induction its as [|it its IH]; intros items H; [by left|]. cbn [foldl] in H. apply IH in H as [H|H]; [|right; by right]. apply elem_of_put_item in H as [->|H]; [right; by left|by left].
Qed.
Lemma bring_all_fresh items its : (∀ q, q ∈ bases its → q ∉ bases items) → bring_all items its = bases its.
Proof.
  intros H. unfold bring_all. induction its as [|it its IH]; [done|]. change (it :: its) with ([it] ++ its) in *. rewrite bases_app in *. rewrite map_app, concat_app, IH by (intros q Hq; apply H; find_in). f_equal. cbn [map concat]. rewrite app_nil_r. unfold brings. unfold bases at 1. cbn [omap list_omap]. destruct (base_pgno it) as [q|] eqn:E; [|done].
  rewrite bool_decide_eq_false_2; [done|]. intros Ho. apply bind_Some in Ho as (old & Hold & Hb). apply (H q); [apply elem_of_app; left; apply elem_of_bases; exists it; split; [by left|exact E]|]. apply elem_of_bases. exists old. split; [|exact Hb]. unfold item_at in Hold. apply List.find_some in Hold as [Hold _]. by apply list_elem_of_In.
Qed.
Lemma root_fresh c h root items its F : has_root fd l c h root items (bases its ++ F) → bring_all items its = bases its.
Proof.
  intros Hht. apply bring_all_fresh. intros q Hq Hi. pose proof (own_nodup fd l c (root_inv _ _ _ _ _ Hht)) as Hnd. destruct root as [root|]; cbn in Hht; [|destruct Hht as (_ & -> & _); by apply not_elem_of_nil in Hi].
  destruct Hht as [_ _ (v & Ht & Hown)]. rewrite Hown in Hnd. apply NoDup_app in Hnd as (_ & Hd & _). apply (Hd q); [by eapply own_tree_bases|find_in].
Qed.

(** One block's items replaced: the others are as they were. *)
Lemma column_replace c1 c' items items2 B blk b ps : column (view c1) items B → column_ok b → block_encode b = Ok ps → parts_stored (view c1) blk 0 ps (the_run item_block blk items2) →
  (∀ n, n ≠ blk → the_run item_block n items2 = the_run item_block n items) → (∀ q, q ∈ bases items2 → page_at c' q = page_at c1 q) → column (view c') items2 (set_at B blk b).
Proof.
  intros [H1 H2] Hb E Hs Hrun Hq. apply (column_keep c1); [|exact Hq]. unfold set_at. split.
  - intros n. destruct (n =? blk); [exact Hb|apply H1].
  - intros n Hn. destruct (Z.eqb_spec n blk) as [->|Hne]; [by exists ps|]. destruct (H2 n Hn) as (ps' & E' & Hs'). exists ps'. split; [exact E'|]. by rewrite Hrun.
Qed.

Lemma take_seq_prefix (g : Z → Z) a k : take k (map g (seqZ 0 (Z.of_nat a))) `prefix_of` map g (seqZ 0 (Z.of_nat k)).
Proof.
  destruct (Nat.le_gt_cases k a) as [H|H].
  - replace (Z.of_nat a) with (Z.of_nat k + Z.of_nat (a - k)) by lia. rewrite seqZ_app, map_app by lia. rewrite take_app_length' by (rewrite length_map, length_seqZ; lia). done.
  - rewrite take_ge by (rewrite length_map, length_seqZ; lia). replace (Z.of_nat k) with (Z.of_nat a + Z.of_nat (k - a)) by lia. rewrite seqZ_app, map_app by lia. by eexists.
Qed.

(** The runs after the tail of the old parts is gone and the new ones are put. *)
Lemma replaced_runs {Q} `{!Pager Q} (pager pager' : Q) items blk ps0 ps its : block_number blk → items_in_order items → len ps0 <= 256 → len ps <= 256 → parts_stored pager blk 0 ps0 (the_run item_block blk items) → parts_stored pager' blk 0 ps its →
  let keys := drop (length its) (map li_key (the_run item_block blk items)) in let items2 := foldl put_item (foldl drop_item items keys) its in
  the_run item_block blk items2 = its ∧ (∀ n, n ≠ blk → the_run item_block n items2 = the_run item_block n items) ∧ (length keys <= length ps0)%nat.
Proof.
  intros Hb Ho Hl0 Hl H0 H keys items2. destruct (stored_keys pager blk ps0 Hb 0 _ ltac:(lia) ltac:(lia) H0) as (K0 & L0 & F0), (stored_keys pager' blk ps Hb 0 _ ltac:(lia) ltac:(lia) H) as (K1 & L1 & F1). pose proof (stored_order pager' blk ps 0 its Hb ltac:(lia) ltac:(lia) H) as Ho1.
  set (run := the_run item_block blk items) in *. assert (Hkeys : Forall (λ k, block_of_key k = blk) keys).
  { apply Forall_forall. intros k Hk. assert (Hin : k ∈ map li_key run) by (rewrite <- (take_drop (length its) (map li_key run)); apply elem_of_app; by right). apply list_elem_of_fmap in Hin as (it & -> & Hin). rewrite Forall_forall in F0. by apply F0. }
  assert (Hod : items_in_order (foldl drop_item items keys)) by (by apply fold_drop_order). split; [|split].
  - unfold items2. rewrite (run_puts blk blk its F1) by exact Hod. rewrite (run_drops blk blk keys Hkeys) by exact Ho. rewrite !Z.eqb_refl. fold run. unfold keys. change (map li_key run) with (li_key <$> run). rewrite <- fmap_drop. rewrite <- (take_drop (length its) run) at 1.
    rewrite drop_tail by (rewrite take_drop; by apply run_order). apply (put_over its [] (take (length its) run)); [exact Ho1|]. change (map li_key (take (length its) run)) with (li_key <$> take (length its) run). rewrite fmap_take. change (li_key <$> run) with (map li_key run). rewrite K0, K1, L1. unfold len. clear. apply take_seq_prefix.
  - intros n Hn. unfold items2. rewrite (run_puts n blk its F1) by exact Hod. rewrite (run_drops n blk keys Hkeys) by exact Ho. by rewrite (proj2 (Z.eqb_neq _ _)) by congruence.
  - unfold keys. rewrite length_drop, length_map. lia.
Qed.

(** Pages a write may take, and levels it may add. *)
Definition block_parts (B : Z → list Cell) (blk : Z) (b : list Cell) : nat := parts_of (B blk) + parts_of b.
Definition write_cost (k : nat) : Z := (per_key + 1) * Z.of_nat k + 1.

(** The new parts in place of the old, once their pages are written. *)
Lemma put_parts_ok c w items F its h n : has_root fd l c h (cw_root w) items (bases its ++ F) → Forall item_ok its → items_in_order its → room c n → 33 * 454 * Z.of_nat (length its) + 1 <= n →
  (∃ w' c' h', match its with [] => collapse_column (c_store c) w (c_txn c) | _ => '(root, t) ← of_tree (put_many (c_store c) (c_txn c) (cw_root w) its); Ok (mkColumnWrite (Some root), t) end = Ok (w', c_txn c') ∧
     evolves c c' (bases (foldl put_item items its) ++ F) ∧ has_root fd l c' h' (cw_root w') (foldl put_item items its) F ∧ (h' <= h + length its + 4)%nat) ∨
  ((MAX_DEPTH < h + length its)%nat ∧ ∃ r, match its with [] => collapse_column (c_store c) w (c_txn c) | _ => '(root, t) ← of_tree (put_many (c_store c) (c_txn c) (cw_root w) its); Ok (mkColumnWrite (Some root), t) end = Err (CTree (BTooDeep r))).
Proof.
  intros Hht Hok Ho Hr Hn. destruct its as [|it its].
  - destruct (collapse_column_ok c w items h F Hht) as (w' & c' & h' & E & He & Ht & Hh). left. exists w', c', h'. split; [exact E|]. split; [exact He|]. split; [exact Ht|]. lia.
  - pose proof (root_fresh _ _ _ _ _ _ Hht) as Hf. rewrite <- Hf in Hht. destruct (btree_put_many fd l c h (cw_root w) items (it :: its) F Hht Hok Ho) as [(root' & c' & h' & E & He & Ht & Hh & _)|[Hd (r & E)]]; [eapply room_sub; [exact Hr|lia]| |].
    + left. rewrite E. cbn [of_tree map_err mbind Res_bind]. eexists _, c', h'. split; [reflexivity|]. split; [exact He|]. split; [exact Ht|exact Hh].
    + right. split; [exact Hd|]. exists r. by rewrite E.
Qed.

Lemma write_block_ok c w B h F blk b n : segment c w B h F → (h < MAX_DEPTH)%nat → block_number blk → column_ok b → room c n → write_cost (block_parts B blk b) <= n →
  (∃ w' c' h', write_block (c_store c) w (c_txn c) blk b = Ok (w', c_txn c') ∧ evolves c c' F ∧ segment c' w' (set_at B blk b) h' F ∧ (h' <= h + block_parts B blk b + 4)%nat) ∨
  ((MAX_DEPTH < h + block_parts B blk b)%nat ∧ ∃ r, write_block (c_store c) w (c_txn c) blk b = Err (CTree (BTooDeep r))).
Proof.
  intros (items & Hht & Hcol) Hd Hb Hok Hr Hn. pose proof (root_order _ _ _ _ _ Hht) as Ho. destruct (column_encode b Hok) as (ps & Eps & Henc). destruct (column_encode _ (col_ok _ _ _ Hcol blk)) as (ps0 & Eps0 & Henc0).
  destruct (col_parts _ _ _ Hcol blk Hb) as (ps0' & E0 & Hs0). rewrite Eps0 in E0. injection E0 as <-. pose proof (eb_count _ _ Henc) as Hl. pose proof (eb_count _ _ Henc0) as Hl0. change MAX_PARTS with 256 in Hl, Hl0.
  unfold write_cost, block_parts, parts_of in *. rewrite Eps, Eps0 in *. unfold per_key in *. unfold write_block, block_items. rewrite Eps. cbn [map_err mbind Res_bind]. change MAX_PARTS with 256. rewrite (proj2 (Z.ltb_ge _ _)) by exact Hl.
  destruct (part_items_ok fd l blk ps Hb (eb_fits _ _ Henc) c n 0 (root_inv _ _ _ _ _ Hht) ltac:(lia) ltac:(lia) Hr ltac:(unfold len; lia)) as (its & c1 & E1 & T1 & I1 & R1 & S1). rewrite E1. cbn [mbind Res_bind].
  destruct (root_beside c c1 h _ items F (bases its) Hht T1) as [Hht1 Hk1]. pose proof (column_keep c c1 items B Hcol Hk1) as Hcol1. rewrite <- (took_store _ _ _ _ T1). rewrite (parts_at_ok c1 w items h _ blk Hht1 Hd Hb). cbn [mbind Res_bind].
  destruct (replaced_runs (view c) (view c1) items blk ps0 ps its Hb Ho Hl0 Hl Hs0 S1) as (Hrun & Hother & Hlen). pose proof (stored_order (view c1) blk ps 0 its Hb ltac:(lia) ltac:(lia) S1) as Hoi. destruct (stored_keys (view c1) blk ps Hb 0 its ltac:(lia) ltac:(lia) S1) as (_ & Li & _).
  set (keys := drop (length its) (map li_key (the_run item_block blk items))) in *. unfold len in R1.
  destruct (remove_keys_ok (bases its ++ F) keys c1 w items h _ Hht1 R1) as [(w2 & c2 & h2 & E2 & He2 & Ht2 & Hh2 & R2)|[Hdeep (r & E2)]]; [unfold per_key; lia| |right; split; [lia|]; exists r; by rewrite E2].
  rewrite E2. cbn [mbind Res_bind]. rewrite <- (ev_store _ _ _ He2). set (items1 := foldl drop_item items keys) in *. unfold per_key in R2.
  destruct (put_parts_ok c2 w2 items1 F its h2 _ Ht2 I1 Hoi R2 ltac:(lia)) as [(w' & c' & h' & E3 & He3 & Ht3 & Hh3)|[Hdeep (r & E3)]]; [left|right; split; [lia|by exists r]]. exists w', c', h'. split; [exact E3|].
  assert (Hsub : ∀ q, q ∈ bases (foldl put_item items1 its) → q ∈ bases items1 ++ bases its).
  { intros q Hq. apply elem_of_bases in Hq as (it & Hit & Hq). apply elem_of_puts in Hit as [Hit|Hit]; apply elem_of_app; [left|right]; apply elem_of_bases; by exists it. }
  split; [|split; [|lia]].
  - assert (He12 : evolves c c2 F) by (eapply evolves_trans; [exact (tk_evolves _ _ _ _ T1)|exact He2| |]; [|intros q Hq; find_in]; intros q Hq; destruct (cw_root w); cbn in Hht; [destruct Hht as [_ _ (v & _ & Hown)]|destruct Hht as (_ & _ & _ & Hown)]; rewrite Hown; find_in).
    eapply evolves_trans; [exact He12|exact He3|done|]. intros q Hq. find_in.
  - exists (foldl put_item items1 its). split; [exact Ht3|]. apply (column_replace c1 c' items _ B blk b ps Hcol1 Hok Eps); [by rewrite Hrun|exact Hother|].
    intros q Hq. rewrite (ev_reads _ _ _ He3) by find_in. apply (ev_reads _ _ _ He2). apply Hsub in Hq. apply elem_of_app in Hq as [Hq|Hq]; find_in.
Qed.

(** What the handle reads of one record. *)
Definition column_cell c w (local : Z) : CRes Cell := match column_reader (c_store c) w (c_txn c) with Some r => cr_cell r local | None => Ok CNull end.

Lemma segment_block c w B h F blk : segment c w B h F → (h < MAX_DEPTH)%nat → block_number blk → match column_reader (c_store c) w (c_txn c) with Some r => cr_block r blk | None => Ok block_new end = Ok (B blk).
Proof.
  intros (items & Hht & Hcol) Hd Hb. unfold column_reader. destruct (cw_root w) as [root|]; cbn [option_map]; cbn in Hht.
  - destruct Hht as [_ Ho (v & Ht & _)]. destruct (own_tree_of (view c) c h root items v Ht Ho Hd (view_agrees c v)) as (cells & <- & Hto & _). exact (block_read (mkColumnRead (view c) root) cells B blk Hto Hcol Hb).
  - destruct Hht as (_ & -> & _). f_equal. symmetry. by apply (column_empty _ _ _ blk Hcol Hb).
Qed.

Lemma new_get slot : block_get block_new slot = CNull.
Proof. unfold block_get, block_new. destruct (replicate _ CNull !! Z.to_nat slot) as [x|] eqn:E; [|done]. apply lookup_replicate in E as [-> _]. done. Qed.

Lemma segment_cell c w B h F local : segment c w B h F → (h < MAX_DEPTH)%nat → 0 <= local < 2 ^ 64 → column_cell c w local = Ok (block_get (B (block_of local)) (slot_of local)).
Proof.
  intros Hs Hd Hl. pose proof (segment_block c w B h F _ Hs Hd (block_of_number local Hl)) as H. unfold column_cell. destruct (column_reader (c_store c) w (c_txn c)); [unfold cr_cell, cr_block_for; by rewrite H|]. injection H as <-. by rewrite new_get.
Qed.

(** The column holds [B'] now, and its handle reads it; or the tree would pass the depth limit. *)
Definition becomes c (r : CRes (ColumnWrite * WriteTxn)) (h k : nat) (B' : Z → list Cell) (F : list Z) : Prop :=
  (∃ w' c' h', r = Ok (w', c_txn c') ∧ evolves c c' F ∧ segment c' w' B' h' F ∧ (h' <= h + k + 4)%nat ∧
     ((h' < MAX_DEPTH)%nat → ∀ local, 0 <= local < 2 ^ 64 → column_cell c' w' local = Ok (block_get (B' (block_of local)) (slot_of local)))) ∨
  ((MAX_DEPTH < h + k)%nat ∧ ∃ p, r = Err (CTree (BTooDeep p))).

Lemma write_becomes c w B h F blk b n : segment c w B h F → (h < MAX_DEPTH)%nat → block_number blk → column_ok b → room c n → write_cost (block_parts B blk b) <= n →
  becomes c (write_block (c_store c) w (c_txn c) blk b) h (block_parts B blk b) (set_at B blk b) F.
Proof.
  intros Hs Hd Hb Hok Hr Hn. destruct (write_block_ok c w B h F blk b n Hs Hd Hb Hok Hr Hn) as [(w' & c' & h' & E & He & Hs' & Hh)|H]; [left|by right]. exists w', c', h'. split; [exact E|]. split; [exact He|]. split; [exact Hs'|]. split; [exact Hh|]. intros Hd' local Hl. by eapply segment_cell.
Qed.

(** C19.  Writing a column.  Writing a block is the update of the map of blocks the column holds:
    whatever parts the block had and however its values are encoded, the new parts take their place, the
    pages the old ones owned are given back, no other block and no page outside the column changes, and the
    handle reads every record of every block as the new map has it - also when the last block goes and the
    tree with it.  An edit reads the block, changes it and writes it, and does nothing at all when nothing
    changed.  A block with more values than 256 parts hold is refused under its own number. *)
Theorem column_writes c w B h F blk n : segment c w B h F → (h < MAX_DEPTH)%nat → block_number blk → room c n →
  (∀ b, column_ok b → write_cost (block_parts B blk b) <= n → becomes c (write_block (c_store c) w (c_txn c) blk b) h (block_parts B blk b) (set_at B blk b) F) ∧
  (∀ edit, let b := edit (B blk) in column_ok b → write_cost (block_parts B blk b) <= n →
     if bool_decide (b = B blk) then edit_block (c_store c) w (c_txn c) blk edit = Ok (w, c_txn c)
     else becomes c (edit_block (c_store c) w (c_txn c) blk edit) h (block_parts B blk b) (set_at B blk b) F) ∧
  (∀ b, block_ok b → list_block b → (MAX_PARTS - 1) * VALUES_PER_PART < len (flat_values b) < 2 ^ 64 → write_block (c_store c) w (c_txn c) blk b = Err (CTooManyParts blk)).
Proof.
  intros Hs Hd Hb Hr. split; [|split].
  - intros b Hok Hn. by apply (write_becomes c w B h F blk b n).
  - intros edit b Hok Hn. unfold edit_block. rewrite (segment_block c w B h F blk Hs Hd Hb). cbn [mbind Res_bind]. cbv zeta. fold b. case_bool_decide; [done|]. by apply (write_becomes c w B h F blk b n).
  - intros b Hok Hl Hlen. pose proof (block_encode_ok b Hok (or_intror Hl) ltac:(lia)) as H. rewrite (proj2 (Z.leb_gt _ _)) in H by lia. unfold write_block, block_items. by rewrite H.
Qed.
End blocks.

(** * Examples: a column in the first transaction of a new file *)
Section examples.
#[local] Existing Instance sample.
#[local] Instance release : Build := {| overflow_checks := false |}.

Definition one_value : list Cell := <[3%nat := CValue 7]> block_new.
Lemma one_value_ok : column_ok one_value.
Proof.
  split; [split; [vm_compute; reflexivity|]|split; [left|vm_compute; discriminate]]; apply Forall_insert; try (apply Forall_replicate); try exact I; done.
Qed.

Lemma no_column (c : Cfg Disk) : column (view c) [] (λ _, block_new).
Proof. split; [intros _; apply column_new|]. intros blk _. exists []. split; [vm_compute; reflexivity|done]. Qed.

Lemma one_value_parts : block_parts (λ _, block_new) 5 one_value = 1%nat.
Proof. vm_compute. reflexivity. Qed.

(** Record 3 of block 5 is written, then read. *)
Lemma column_writes_witness :
  ∃ (c c' : Cfg Disk) w', write_block (c_store c) (mkColumnWrite None) (c_txn c) 5 one_value = Ok (w', c_txn c') ∧
    column_cell c' w' (5 * 1024 + 3) = Ok (CValue 7) ∧ column_cell c' w' 3 = Ok CNull.
Proof.
  destruct first_txn as (s & _ & Hinv & Hr). set (c := mkCfg s (begin_write s) [] []) in *. pose proof (Hr 1000000 ltac:(lia)) as Hroom.
  destruct (column_writes [] empty_layout c (mkColumnWrite None) (λ _, block_new) 0 [] 5 1000000) as (H & _ & _); [|unfold MAX_DEPTH; lia|unfold block_number; lia|exact Hroom|].
  { exists []. split; [exact (conj Hinv (conj eq_refl (conj eq_refl (Permutation_refl _))))|apply no_column]. }
  specialize (H one_value one_value_ok). rewrite one_value_parts in H. destruct H as [(w' & c' & h' & E & _ & _ & Hh & Hrd)|[Hdeep _]]; [unfold write_cost, per_key; lia| |unfold MAX_DEPTH in Hdeep; lia].
  exists c, c', w'. split; [exact E|]. assert (Hd : (h' < MAX_DEPTH)%nat) by (unfold MAX_DEPTH; lia). split; (rewrite Hrd by (try exact Hd; lia); vm_compute; reflexivity).
Defined.

(** A file with that one block. *)
Lemma one_block : ∃ (c : Cfg Disk) root cells, tree_of (view c) root cells ∧ column (view c) (map from_cell cells) (set_at (λ _, block_new) 5 one_value).
Proof.
  destruct first_txn as (s & _ & Hinv & Hr). set (c := mkCfg s (begin_write s) [] []) in *. destruct (write_block_ok [] empty_layout c (mkColumnWrite None) (λ _, block_new) 0 [] 5 one_value 1000000) as [(w' & c' & h' & _ & _ & (items & Hht & Hcol) & Hh)|[Hdeep _]];
    [|unfold MAX_DEPTH; lia|unfold block_number; lia|exact one_value_ok|apply Hr; lia|rewrite one_value_parts; unfold write_cost, per_key; lia| |rewrite one_value_parts in Hdeep; unfold MAX_DEPTH in Hdeep; lia].
  { exists []. split; [exact (conj Hinv (conj eq_refl (conj eq_refl (Permutation_refl _))))|apply no_column]. }
  rewrite one_value_parts in Hh. destruct (cw_root w') as [root|]; cbn in Hht.
  - destruct Hht as [_ Ho (v & Ht & _)]. destruct (own_tree_of (view c') c' h' root items v Ht Ho ltac:(unfold MAX_DEPTH; lia) (view_agrees c' v)) as (cells & <- & Hto & _). by exists c', root, cells.
  - exfalso. destruct Hht as (_ & -> & _). assert (E : set_at (λ _, block_new) 5 one_value 5 = block_new) by (apply (column_empty _ _ _ 5 Hcol); [unfold block_number; lia|done]). apply (f_equal (λ b, block_get b 3)) in E. vm_compute in E. discriminate E.
Qed.

Lemma column_reads_witness :
  ∃ (c : Cfg Disk) root, let r := mkColumnRead (view c) root in cr_cell r (5 * 1024 + 3) = Ok (CValue 7) ∧ cr_blocks r = Ok [5] ∧ cr_count r = Ok 1 ∧ for_each_block r (λ st n b, Ok (st ++ [(n, block_present b)], false)) [] = Ok [(5, 1)].
Proof.
  destruct one_block as (c & root & cells & Hto & Hcol). exists c, root. cbv zeta.
  destruct (column_reads (mkColumnRead (view c) root) cells _ (λ st n b, Ok (st ++ [(n, block_present b)], false)) [] Hto Hcol) as [H (bs & Hb & Hin & H2 & H3 & H4)].
  split; [destruct (H (5 * 1024 + 3) ltac:(lia)) as [_ ->]; vm_compute; reflexivity|].
  assert (bs = [5]) as ->.
  { apply ascending_ext; [exact Hb|repeat constructor|]. intros b. rewrite Hin, list_elem_of_singleton. unfold set_at. destruct (Z.eqb_spec b 5) as [->|Hne]; [|split; [by intros [_ []]|done]]. split; [done|]. intros _. split; [unfold block_number; lia|]. intros E. apply (f_equal (λ b, block_get b 3)) in E. vm_compute in E. discriminate E. }
  split; [exact H2|]. split; [rewrite H3; vm_compute; reflexivity|]. rewrite H4. vm_compute. reflexivity.
Defined.
End examples.
