(* ===== verification/Engines.v ===== *)
(** The descriptors of the engines (crates/big-engine/src/base/engine.rs and field_kind.rs, and the
    descriptors in bitmap/mod.rs, columnar/mod.rs and hybrid.rs): what each stores of a fact.

    An engine tells a sink what to write.  The sink is a trait, here a class; the one that keeps what it
    was told ([log]) is enough to say what any sink is told. *)
From Stdlib Require Import Ascii String.
From S2P Require Import Prelude Bits Container Page BTree Coords Bsi Group Fields Column.

(** * Kinds of field (field_kind.rs) *)
Inductive FieldKind := KSet | KMutex | KBool | KInt | KDecimal | KTimeQuantum | KSignedInt | KFloat32 | KFloat64 | KDate | KDateTime.
#[export] Instance kind_eq_dec : EqDecision FieldKind.
Proof. solve_decision. Defined.

Definition kind_code (k : FieldKind) : Z :=
  match k with KSet => 0 | KMutex => 1 | KBool => 2 | KInt => 3 | KDecimal => 4 | KTimeQuantum => 5 | KSignedInt => 6 | KFloat32 => 7 | KFloat64 => 8 | KDate => 9 | KDateTime => 10 end.
Definition kind_from_u8 (v : Z) : option FieldKind :=
  match v with
  | 0 => Some KSet | 1 => Some KMutex | 2 => Some KBool | 3 => Some KInt | 4 => Some KDecimal | 5 => Some KTimeQuantum
  | 6 => Some KSignedInt | 7 => Some KFloat32 | 8 => Some KFloat64 | 9 => Some KDate | 10 => Some KDateTime
  | _ => None
  end.
Definition is_bsi (k : FieldKind) : bool := match k with KInt | KDecimal | KSignedInt | KFloat32 | KFloat64 | KDate | KDateTime => true | _ => false end.
Definition is_signed (k : FieldKind) : bool := match k with KSignedInt | KDate | KDateTime => true | _ => false end.
Definition is_float (k : FieldKind) : bool := match k with KFloat32 | KFloat64 => true | _ => false end.
Definition is_temporal (k : FieldKind) : bool := match k with KDate | KDateTime => true | _ => false end.
Definition is_keyed (k : FieldKind) : bool := match k with KSet | KMutex | KTimeQuantum => true | _ => false end.

(** * Facts, sinks and engines (engine.rs) *)
Inductive Half := HBitmap | HColumns.
Inductive Fact := FValue (value : Z) (kind : FieldKind) | FBool (b : bool) | FRow (row : Z) (kind : FieldKind) (views : list Z).

Definition observed (f : Fact) : Z := match f with FValue v _ => v | FBool b => Z.b2z b | FRow r _ _ => r end.

Class Sink (S : Type) := {
  sink_observe : S → Half → Z → S;
  sink_planes : S → Z → S;
  sink_bit : S → Z → bool → S;
  sink_bit_in : S → Z → Z → bool → S;
  sink_mutex : S → Z → S;
  sink_cell : S → ColEdit → S
}.

Section place.
Context {S : Type} `{!Sink S}.

(** bitmap/mod.rs *)
Definition bitmap_place (sink : S) (fact : Fact) : S :=
  let sink := sink_observe sink HBitmap (observed fact) in
  match fact with
  | FValue value _ => sink_planes sink value
  | FBool b => sink_bit (sink_bit sink (bool_row_of b) true) (bool_row_of (negb b)) false
  | FRow row kind views =>
      let sink := if bool_decide (kind = KMutex) then sink_mutex sink row else sink_bit sink row true in
      foldl (λ sink view, sink_bit_in sink view row true) sink views
  end.

(** columnar/mod.rs *)
Definition column_edit (fact : Fact) : ColEdit :=
  match fact with
  | FValue value _ => EReplace (CValue value)
  | FBool b => EReplace (CValue (Z.b2z b))
  | FRow row kind _ => if bool_decide (kind = KMutex) then EReplace (CValue row) else EAddOne row
  end.
Definition columnar_place (sink : S) (fact : Fact) : S :=
  sink_cell (sink_observe sink HColumns (observed fact)) (column_edit fact).

(** hybrid.rs *)
Definition hybrid_place (sink : S) (fact : Fact) : S := columnar_place (bitmap_place sink fact) fact.
End place.

Record Engine := mkEngine { en_code : Z; en_name : string; has_bitmap : bool; has_columns : bool; place : ∀ S, Sink S → S → Fact → S }.
Arguments place _ {S _} _ _.

Definition BitmapEngine : Engine := mkEngine 0 "bitmap" true false (@bitmap_place).
Definition HybridEngine : Engine := mkEngine 1 "bitmap+columnar" true true (@hybrid_place).
Definition ColumnarEngine : Engine := mkEngine 2 "columnar" false true (@columnar_place).

Definition ENGINES : list Engine := [BitmapEngine; HybridEngine; ColumnarEngine].
Definition engine_from_u8 (v : Z) : option Engine := List.find (λ e, en_code e =? v) ENGINES.
Definition engine_parse (s : string) : option Engine := List.find (λ e, String.eqb (en_name e) s) ENGINES.
Definition engine_names : string := String.concat ", " (map en_name ENGINES).
Definition default_engine : Engine := HybridEngine.

(** * What a sink is told *)
Inductive Told := TObserve (h : Half) (v : Z) | TPlanes (v : Z) | TBit (row : Z) (on : bool) | TBitIn (view row : Z) (on : bool) | TMutex (row : Z) | TCell (e : ColEdit).
#[export] Instance log_sink : Sink (list Told) := {
  sink_observe s h v := s ++ [TObserve h v]; sink_planes s v := s ++ [TPlanes v]; sink_bit s r on := s ++ [TBit r on];
  sink_bit_in s view r on := s ++ [TBitIn view r on]; sink_mutex s r := s ++ [TMutex r]; sink_cell s e := s ++ [TCell e] }.
Definition log (e : Engine) (fs : list Fact) : list Told := foldl (place e) [] fs.

(** The rows a record is in, the value in its planes and its cell, after what was told of one field. *)
Definition row_told (rows : list Z) (t : Told) : list Z :=
  match t with
  | TBit r true => r :: rows
  | TBit r false => List.filter (λ x, negb (x =? r)) rows
  | TMutex r => [r]
  | _ => rows
  end.
Definition plane_told (o : option Z) (t : Told) : option Z := match t with TPlanes v => Some v | _ => o end.
Definition edit_told (o : option ColEdit) (t : Told) : option ColEdit :=
  match t with TCell e => Some (match o with Some have => absorb have e | None => e end) | _ => o end.

Definition edit_values (e : ColEdit) : list Z :=
  match e with EReplace (CValue v) => [v] | EReplace (CList l) => l | EReplace CNull => [] | EAddOne r => [r] | EAdd rs => rs end.

(** The values each half has of a record that had none. *)
Definition bitmap_tells (k : FieldKind) (ts : list Told) : list Z :=
  if is_bsi k then option_list (foldl plane_told None ts) else foldl row_told [] ts.
Definition column_tells (ts : list Told) : list Z := from_option edit_values [] (foldl edit_told None ts).

(** A fact of a field of this kind. *)
Definition fact_of (k : FieldKind) (f : Fact) : Prop :=
  match f with FValue _ k' => k' = k ∧ is_bsi k = true | FBool _ => k = KBool | FRow _ k' _ => k' = k ∧ is_keyed k = true end.

(** * What an engine tells *)
Definition told_bitmap (f : Fact) : list Told :=
  TObserve HBitmap (observed f) ::
  match f with
  | FValue v _ => [TPlanes v]
  | FBool b => [TBit (bool_row_of b) true; TBit (bool_row_of (negb b)) false]
  | FRow r k views => (if bool_decide (k = KMutex) then TMutex r else TBit r true) :: map (λ view, TBitIn view r true) views
  end.
Definition told_columns (f : Fact) : list Told := [TObserve HColumns (observed f); TCell (column_edit f)].
Definition told (e : Engine) (f : Fact) : list Told := (if has_bitmap e then told_bitmap f else []) ++ (if has_columns e then told_columns f else []).

Lemma views_told r views : ∀ s : list Told, foldl (λ sink view, sink_bit_in sink view r true) s views = s ++ map (λ view, TBitIn view r true) views.
Proof. induction views as [|v views IH]; intros s; cbn [foldl map]; [by rewrite app_nil_r|]. rewrite IH. cbn. by rewrite <- app_assoc. Qed.

Lemma bitmap_placed (s : list Told) f : bitmap_place s f = s ++ told_bitmap f.
Proof.
  unfold bitmap_place, told_bitmap. destruct f as [v k|b|r k views]; [cbn; by rewrite <- ?app_assoc..|]. cbv zeta. rewrite views_told. case_bool_decide; cbn; by rewrite <- !app_assoc.
Qed.
Lemma columns_placed (s : list Told) f : columnar_place s f = s ++ told_columns f.
Proof. unfold columnar_place, told_columns. cbn. by rewrite <- app_assoc. Qed.

Lemma placed e (s : list Told) f : e ∈ ENGINES → place e s f = s ++ told e f.
Proof.
  unfold ENGINES, told. intros H. apply elem_of_cons in H as [->|H]; [|apply elem_of_cons in H as [->|H]; [|apply list_elem_of_singleton in H as ->]]; cbn [place has_bitmap has_columns BitmapEngine HybridEngine ColumnarEngine].
  - by rewrite bitmap_placed, app_nil_r.
  - unfold hybrid_place. by rewrite bitmap_placed, columns_placed, app_assoc.
  - by rewrite columns_placed.
Qed.

Lemma told_snoc e fs f : e ∈ ENGINES → log e (fs ++ [f]) = log e fs ++ told e f.
Proof. intros He. unfold log. rewrite foldl_app. cbn [foldl]. by apply placed. Qed.

(** Folds that one half's calls do not move. *)
Lemma rows_of_columns fs rows : foldl row_told rows (told_columns fs) = rows. Proof. done. Qed.
Lemma planes_of_columns f o : foldl plane_told o (told_columns f) = o. Proof. done. Qed.
Lemma views_keep {A} (g : A → Told → A) a r views : (∀ a view, g a (TBitIn view r true) = a) → foldl g a (map (λ view, TBitIn view r true) views) = a.
Proof. intros H. induction views as [|v views IH]; [done|]. cbn [map foldl]. by rewrite H. Qed.
Lemma edits_of_bitmap f o : foldl edit_told o (told_bitmap f) = o.
Proof. unfold told_bitmap. destruct f as [v k|b|r k views]; [done|done|]. cbn [foldl edit_told]. case_bool_decide; cbn [edit_told]; by apply views_keep. Qed.

(** What a record holds after these facts: all of them where the field adds, the last where it replaces. *)
Definition adds (k : FieldKind) : bool := match k with KSet | KTimeQuantum => true | _ => false end.
Definition expected (k : FieldKind) (fs : list Fact) : list Z := if adds k then map observed fs else option_list (observed <$> last fs).

Definition same_values (a b : list Z) : Prop := ∀ v, v ∈ a ↔ v ∈ b.

Lemma bitmap_half k e fs : e ∈ ENGINES → has_bitmap e = true → Forall (fact_of k) fs → same_values (bitmap_tells k (log e fs)) (expected k fs).
Proof.
  intros He Hb HF. unfold bitmap_tells, expected, same_values. induction fs as [|f fs IH] using rev_ind; [by destruct (is_bsi k), (adds k)|]. apply Forall_app in HF as [HF Hf]. apply Forall_cons in Hf as [Hf _]. specialize (IH HF).
  rewrite told_snoc, !foldl_app, last_snoc, map_app by exact He. unfold told. rewrite Hb, !foldl_app.
  replace (foldl plane_told _ (if has_columns e then told_columns f else [])) with (foldl plane_told (foldl plane_told None (log e fs)) (told_bitmap f)) by (by destruct (has_columns e)).
  replace (foldl row_told _ (if has_columns e then told_columns f else [])) with (foldl row_told (foldl row_told [] (log e fs)) (told_bitmap f)) by (by destruct (has_columns e)).
  destruct f as [x k'|b|r k' views]; cbn in Hf.
  - destruct Hf as [-> Hk]. rewrite Hk. replace (adds k) with false by (by destruct k). done.
  - subst k. cbn [is_bsi adds] in *. unfold told_bitmap. cbn [foldl row_told List.filter]. set (rows := foldl row_told [] (log e fs)) in *. intros v. change (option_list (observed <$> Some (FBool b))) with [Z.b2z b].
    assert (Hr : ∀ v, v ∈ rows → v = 0 ∨ v = 1). { intros u Hu. apply IH in Hu. destruct (last fs) as [f'|] eqn:El; [|by apply not_elem_of_nil in Hu]. change (option_list (observed <$> Some f')) with [observed f'] in Hu. apply list_elem_of_singleton in Hu. apply last_Some_elem_of in El. rewrite Forall_forall in HF. specialize (HF f' El). subst u. destruct f' as [x k'|b'|r k' views]; cbn in *; [by destruct HF as [-> ?]|destruct b'; auto|by destruct HF as [-> ?]]. }
    rewrite list_elem_of_singleton. destruct b; cbn; rewrite elem_of_cons, elem_of_Lfilter; (split; [intros [->|[Hv Hn]]; [done|]; destruct (Hr v Hv) as [-> | ->]; done|intros ->; by left]).
  - destruct Hf as [-> Hk]. replace (is_bsi k) with false in * by (by destruct k). unfold told_bitmap. cbn [foldl row_told]. case_bool_decide as Em.
    + subst k. cbn [row_told adds]. rewrite views_keep by done. done.
    + replace (adds k) with true in * by (by destruct k). cbn [row_told]. rewrite views_keep by done. intros v. rewrite elem_of_cons, elem_of_app, IH. cbn [map observed]. rewrite list_elem_of_singleton. tauto.
Qed.

Lemma column_half k e fs : e ∈ ENGINES → has_columns e = true → Forall (fact_of k) fs → same_values (column_tells (log e fs)) (expected k fs).
Proof.
  intros He Hb HF. unfold column_tells, expected, same_values.
  cut ((adds k = true → ∀ c, foldl edit_told None (log e fs) ≠ Some (EReplace c)) ∧ ∀ v, v ∈ from_option edit_values [] (foldl edit_told None (log e fs)) ↔ v ∈ (if adds k then map observed fs else option_list (observed <$> last fs))); [by intros []|].
  induction fs as [|f fs IH] using rev_ind; [split; [done|by destruct (adds k)]|]. apply Forall_app in HF as [HF Hf]. apply Forall_cons in Hf as [Hf _]. destruct (IH HF) as [IH1 IH2]. clear IH.
  rewrite told_snoc, !foldl_app, last_snoc, map_app by exact He. unfold told. rewrite Hb, !foldl_app. replace (foldl edit_told _ (if has_bitmap e then told_bitmap f else [])) with (foldl edit_told None (log e fs)) by (destruct (has_bitmap e); [by rewrite edits_of_bitmap|done]).
  unfold told_columns. cbn [foldl edit_told]. set (o := foldl edit_told None (log e fs)) in *. assert (Hrep : ∀ c, match o with Some have => absorb have (EReplace c) | None => EReplace c end = EReplace c) by (intros c; destruct o as [[]|]; done).
  destruct f as [x k'|b|r k' views]; cbn in Hf; cbn [column_edit observed map].
  - destruct Hf as [-> Hk]. rewrite Hrep. replace (adds k) with false in * by (by destruct k). by split.
  - subst k. rewrite Hrep. by split.
  - destruct Hf as [-> Hk]. case_bool_decide as Em.
    + subst k. rewrite Hrep. by split.
    + replace (adds k) with true in * by (by destruct k). specialize (IH1 eq_refl). split.
      * intros _ c. destruct o as [[c'|r'|rs]|]; cbn; try done.
      * intros v. rewrite elem_of_app, list_elem_of_singleton, <- IH2. destruct o as [[c'|r'|rs]|]; cbn; [by destruct (IH1 c')| | |]; rewrite ?elem_of_cons, ?elem_of_app, ?elem_of_nil, ?list_elem_of_singleton; tauto.
Qed.

Lemma no_half_rows e fs : e ∈ ENGINES → has_bitmap e = false → ∀ k, bitmap_tells k (log e fs) = [].
Proof.
  intros He Hb k. unfold bitmap_tells. induction fs as [|f fs IH] using rev_ind; [by destruct (is_bsi k)|]. rewrite told_snoc, !foldl_app by exact He. unfold told. rewrite Hb. by destruct (has_columns e), (is_bsi k).
Qed.
Lemma no_half_cell e fs : e ∈ ENGINES → has_columns e = false → column_tells (log e fs) = [].
Proof.
  intros He Hb. unfold column_tells. induction fs as [|f fs IH] using rev_ind; [done|]. rewrite told_snoc, !foldl_app by exact He. unfold told. rewrite Hb, app_nil_r. destruct (has_bitmap e); [by rewrite edits_of_bitmap|done].
Qed.

(** Engines tell the same story.  Whatever facts of one field are written of a record, in any
    order and number: an engine that has the bitmap half tells it the values the record holds then - all of
    them in a set, the last elsewhere, a flag or a mutex leaving the row it was in - an engine that has the
    columns half tells it the same, and a half an engine does not have is told nothing; so the two halves of
    a hybrid table never disagree. *)
Theorem halves_agree e k fs : e ∈ ENGINES → Forall (fact_of k) fs →
  same_values (bitmap_tells k (log e fs)) (if has_bitmap e then expected k fs else []) ∧
  same_values (column_tells (log e fs)) (if has_columns e then expected k fs else []).
Proof.
  intros He HF. split.
  - destruct (has_bitmap e) eqn:Hb; [by apply bitmap_half|]. by rewrite no_half_rows.
  - destruct (has_columns e) eqn:Hb; [by apply column_half|]. by rewrite no_half_cell.
Qed.

Lemma halves_agree_witness : bitmap_tells KBool (log HybridEngine [FBool true; FBool false]) = [0] ∧ same_values (bitmap_tells KBool (log HybridEngine [FBool true; FBool false])) (expected KBool [FBool true; FBool false]).
Proof.
  split; [vm_compute; reflexivity|]. destruct (halves_agree HybridEngine KBool [FBool true; FBool false]) as [H _]; [right; by left|repeat constructor|exact H].
Defined.

(** The registry: codes and names are what is stored, and each finds its engine and no other. *)
Theorem engines_by_code_and_name : Forall (λ e, engine_from_u8 (en_code e) = Some e ∧ engine_parse (en_name e) = Some e ∧ (has_bitmap e || has_columns e) = true) ENGINES ∧
  (∀ k, kind_from_u8 (kind_code k) = Some k) ∧ ∀ k, is_bsi k || is_keyed k || bool_decide (k = KBool) = true.
Proof. split; [repeat constructor|]. split; intros []; reflexivity. Qed.
