(* ===== verification/Like.v ===== *)
(** [LIKE] over one key (crates/big-db/src/like.rs): a greedy walk with one point to go back to, against
    what a pattern means.

    Text is the list of its characters.  Lower case is a function of the standard library's own tables,
    so it is a parameter; nothing is asked of it. *)
From S2P Require Import Prelude.

Inductive Elem := Lit (c : Z) | One | Any.
#[export] Instance elem_eq_dec : EqDecision Elem.
Proof. solve_decision. Defined.

Definition percent : Z := 37.
Definition underscore : Z := 95.
Definition backslash : Z := 92.

(** The loop over the characters: a backslash takes the one after it. *)
Fixpoint parse_chars (pattern : list Z) : list Elem :=
  match pattern with
  | [] => []
  | c :: rest =>
      if c =? percent then Any :: parse_chars rest
      else if c =? underscore then One :: parse_chars rest
      else if c =? backslash then
        match rest with
        | [] => [Lit backslash]
        | d :: rest' => Lit d :: parse_chars rest'
        end
      else Lit c :: parse_chars rest
  end.

(** [while i < t.len()].  Every turn moves [j] on, or the place the last [Any] starts from. *)
Fixpoint run_loop (fuel : nat) (p : list Elem) (t : list Z) (i j : nat) (star : option nat) (mark : nat) : Res False bool :=
  match fuel with
  | O => Panic
  | S fuel' =>
      if (i <? length t)%nat then
        c ← unwrap (t !! i);
        let miss (_ : unit) := match star with Some sj => run_loop fuel' p t (S mark) (S sj) star (S mark) | None => Ok false end in
        match p !! j with
        | Some One => run_loop fuel' p t (S i) (S j) star mark
        | Some (Lit d) => if d =? c then run_loop fuel' p t (S i) (S j) star mark else miss ()
        | Some Any => run_loop fuel' p t i (S j) (Some j) i
        | None => miss ()
        end
      else if (length p <? j)%nat then Panic
      else Ok (forallb (λ e, bool_decide (e = Any)) (drop j p))
  end.
Definition run (p : list Elem) (t : list Z) : Res False bool := run_loop (S (length t * S (length p) + length p)) p t 0 0 None 0.

Section like.
Context (to_lowercase : list Z → list Z).

Definition parse (pattern : list Z) (fold : bool) : list Elem := parse_chars (if fold then to_lowercase pattern else pattern).
Definition matches (pattern text : list Z) (fold : bool) : Res False bool :=
  run (parse pattern fold) (if fold then to_lowercase text else text).
End like.

(** * What a pattern means *)
Inductive like : list Elem → list Z → Prop :=
| like_nil : like [] []
| like_lit c p t : like p t → like (Lit c :: p) (c :: t)
| like_one c p t : like p t → like (One :: p) (c :: t)
| like_any p a t : like p t → like (Any :: p) (a ++ t).

Definition single (e : Elem) : Prop := e ≠ Any.

Lemma like_any_inv p t : like (Any :: p) t ↔ ∃ a b, t = a ++ b ∧ like p b.
Proof. split; [intros H; inversion H; subst; eauto|]. intros (a & b & -> & H). by constructor. Qed.
Lemma like_end t : like [] t ↔ t = [].
Proof. split; [by inversion 1|intros ->; constructor]. Qed.
Lemma like_empty p : like p [] ↔ forallb (λ e, bool_decide (e = Any)) p = true.
Proof.
  induction p as [|e p IH]; [split; [done|constructor]|]. cbn [forallb]. destruct e; cbn.
  1,2: split; [intros H; inversion H|rewrite bool_decide_eq_false_2 by done; done].
  rewrite like_any_inv. split.
  - intros (a & b & E & H). symmetry in E. apply app_eq_nil in E as [-> ->]. by apply IH.
  - intros H. exists [], []. split; [done|]. by apply IH.
Qed.

(** A stretch with no [Any] takes as many characters as it has elements. *)
Lemma like_stretch seg p t : Forall single seg → like (seg ++ p) t ↔ ∃ a b, t = a ++ b ∧ length a = length seg ∧ like seg a ∧ like p b.
Proof.
  intros H. revert t. induction H as [|e seg He _ IH]; intros t; cbn [app].
  - split; [intros Hl; exists [], t; split; [done|]; split; [done|]; by split; [constructor|]|]. intros (a & b & -> & Ha & _ & Hb). destruct a; [exact Hb|done].
  - split.
    + intros Hl. destruct e as [c| |]; [inversion Hl as [|? ? u Hu| |]; subst|inversion Hl as [| |c ? u Hu|]; subst|done]; apply IH in Hu as (a & b & -> & Ha & Hsa & Hb);
        exists (c :: a), b; (split; [done|]; split; [cbn; by rewrite Ha|]; split; [by constructor|exact Hb]).
    + intros (a & b & -> & Ha & Hsa & Hb). destruct e as [c| |]; [inversion Hsa as [|? ? u Hu| |]; subst|inversion Hsa as [| |c ? u Hu|]; subst|done]; cbn in Ha; cbn [app]; constructor; apply IH; exists u, b; (split; [done|]; split; [lia|]; by split).
Qed.

(** * The walk *)
Section walk.
Context (p : list Elem) (t : list Z).

Definition rest (j i : nat) : Prop := like (drop j p) (drop i t).

(** What is left to decide.  With an [Any] behind, the stretch from it to [j] has been matched against the
    characters from [mark] to [i], and it may still have to start later. *)
Record walking (i j : nat) (star : option nat) (mark : nat) : Prop := {
  wk_i : (i <= length t)%nat;
  wk_j : (j <= length p)%nat;
  wk_mark : (mark <= i)%nat;
  wk_rest : match star with
            | None => like p t ↔ rest j i
            | Some sj => (i + S sj = j + mark)%nat ∧ Forall single (take (j - S sj) (drop (S sj) p)) ∧
                (like p t ↔ rest j i ∨ ∃ m, (mark < m <= length t)%nat ∧ rest (S sj) m)
            end
}.

Lemma drop_cons {A} (l : list A) i x : l !! i = Some x → drop i l = x :: drop (S i) l.
Proof. intros H. by rewrite (drop_S _ _ _ H). Qed.

Lemma rest_lit j i d c : p !! j = Some (Lit d) → t !! i = Some c → rest j i ↔ d = c ∧ rest (S j) (S i).
Proof. intros Hp Ht. unfold rest. rewrite (drop_cons _ _ _ Hp), (drop_cons _ _ _ Ht). split; [intros H; by inversion H|]. intros [-> H]. by constructor. Qed.
Lemma rest_one j i c : p !! j = Some One → t !! i = Some c → rest j i ↔ rest (S j) (S i).
Proof. intros Hp Ht. unfold rest. rewrite (drop_cons _ _ _ Hp), (drop_cons _ _ _ Ht). split; [intros H; by inversion H|]. intros H. by constructor. Qed.
Lemma rest_over j i : p !! j = None → (i < length t)%nat → ¬ rest j i.
Proof. intros Hp Hi. unfold rest. apply lookup_ge_None_1 in Hp. rewrite (drop_ge p) by lia. intros H%like_end. apply (f_equal length) in H. rewrite length_drop in H. cbn in H. lia. Qed.
Lemma rest_any j i : p !! j = Some Any → (i <= length t)%nat → rest j i ↔ ∃ m, (i <= m <= length t)%nat ∧ rest (S j) m.
Proof.
  intros Hp Hi. unfold rest. rewrite (drop_cons _ _ _ Hp), like_any_inv. split.
  - intros (a & b & E & H). exists (i + length a)%nat. pose proof (f_equal length E) as El. rewrite length_drop, length_app in El. split; [lia|]. rewrite <- drop_drop, E, drop_app_length. exact H.
  - intros (m & Hm & H). exists (take (m - i) (drop i t)), (drop m t). split; [|exact H]. rewrite <- (take_drop (m - i) (drop i t)) at 1. rewrite drop_drop. do 2 f_equal. lia.
Qed.

(** Matching the stretch somewhere later makes what follows start later. *)
Lemma rest_stretch sj j m : (S sj <= j <= length p)%nat → Forall single (take (j - S sj) (drop (S sj) p)) → (m <= length t)%nat → rest (S sj) m → (m + (j - S sj) <= length t)%nat ∧ rest j (m + (j - S sj)).
Proof.
  intros Hj Hs Hm H. unfold rest in *. rewrite <- (take_drop (j - S sj) (drop (S sj) p)) in H. apply like_stretch in H as (a & b & E & Ha & _ & Hb); [|exact Hs]. rewrite length_take, length_drop in Ha. pose proof (f_equal length E) as El. rewrite length_drop, length_app in El.
  split; [lia|]. rewrite drop_drop in Hb. replace (S sj + (j - S sj))%nat with j in Hb by lia. rewrite <- drop_drop, E. replace (j - S sj)%nat with (length a) by lia. by rewrite drop_app_length.
Qed.

Lemma step_on i j star mark c : walking i j star mark → t !! i = Some c → (p !! j = Some One ∨ p !! j = Some (Lit c)) → walking (S i) (S j) star mark.
Proof.
  intros [Hi Hj Hm Hr] Ht Hp. pose proof (lookup_lt_Some _ _ _ Ht). assert (j < length p)%nat by (destruct Hp as [Hp|Hp]; by apply lookup_lt_Some in Hp).
  assert (E : rest j i ↔ rest (S j) (S i)) by (destruct Hp as [Hp|Hp]; [by eapply rest_one|rewrite (rest_lit j i c c Hp Ht); naive_solver]).
  split; [lia|lia|lia|]. destruct star as [sj|]; [|by rewrite <- E]. destruct Hr as (H1 & H2 & H3). split; [lia|]. split; [|by rewrite <- E].
  replace (S j - S sj)%nat with (S (j - S sj)) by lia. assert (El : drop (S sj) p !! (j - S sj)%nat = p !! j) by (rewrite lookup_drop; f_equal; lia).
  destruct Hp as [Hp|Hp]; rewrite Hp in El; rewrite (take_S_r _ _ _ El); apply Forall_app; (split; [exact H2|]); by repeat constructor.
Qed.

Lemma step_any i j star mark : walking i j star mark → (i < length t)%nat → p !! j = Some Any → walking i (S j) (Some j) i.
Proof.
  intros [Hi Hj Hm Hr] Hlt Hp. pose proof (lookup_lt_Some _ _ _ Hp). split; [lia|lia|lia|]. split; [lia|]. split; [rewrite Nat.sub_diag; constructor|].
  assert (E : like p t ↔ rest j i).
  { destruct star as [sj|]; [|exact Hr]. destruct Hr as (H1 & H2 & ->). split; [|by left]. intros [H3|(m & Hm' & H3)]; [exact H3|]. destruct (rest_stretch sj j m ltac:(lia) H2 ltac:(lia) H3) as [Hb H4].
    apply (rest_any j _ Hp) in H4 as (q & Hq & H4); [|lia]. apply (rest_any j i Hp); [lia|]. exists q. split; [lia|exact H4]. }
  rewrite E, (rest_any j i Hp) by lia. split.
  - intros (m & Hm' & H1). destruct (Nat.eq_dec m i) as [->|]; [by left|right]. exists m. split; [lia|exact H1].
  - intros [H1|(m & Hm' & H1)]; [exists i|exists m]; (split; [lia|exact H1]).
Qed.

Lemma step_back i j sj mark : walking i j (Some sj) mark → (i < length t)%nat → ¬ rest j i → walking (S mark) (S sj) (Some sj) (S mark).
Proof.
  intros [Hi Hj Hm (H1 & H2 & H3)] Hlt Hno. split; [lia|lia|lia|]. split; [lia|]. split; [rewrite Nat.sub_diag; constructor|]. rewrite H3. split.
  - intros [H|(m & Hm' & H)]; [done|]. destruct (Nat.eq_dec m (S mark)) as [->|]; [by left|right]. exists m. split; [lia|exact H].
  - intros [H|(m & Hm' & H)]; right; [exists (S mark)|exists m]; (split; [lia|exact H]).
Qed.

Lemma run_loop_ok fuel : ∀ i j star mark, walking i j star mark → ((length t - mark) * S (length p) + (length p - j) < fuel)%nat →
  ∃ r, run_loop fuel p t i j star mark = Ok r ∧ (r = true ↔ like p t).
Proof.
  induction fuel as [|fuel IH]; intros i j star mark Hw Hf; [by apply Nat.nlt_0_r in Hf|]. pose proof Hw as [Hi Hj Hm Hr]. cbn [run_loop]. assert (Hnext : ∀ m', (mark <= m')%nat → (j < length p)%nat → ((length t - m') * S (length p) + (length p - S j) < fuel)%nat).
  { intros m' Hle Hlt. assert ((length t - m') * S (length p) <= (length t - mark) * S (length p))%nat by (apply Nat.mul_le_mono_r; lia). lia. } destruct (Nat.ltb_spec i (length t)) as [Hlt|Hge].
  - destruct (lookup_lt_is_Some_2 t i Hlt) as [c Hc]. rewrite Hc. cbn [unwrap mbind Res_bind]. cbv beta zeta.
    assert (Hmiss : ¬ rest j i → ∃ r, match star with Some sj => run_loop fuel p t (S mark) (S sj) star (S mark) | None => Ok false end = Ok r ∧ (r = true ↔ like p t)).
    { intros Hno. destruct star as [sj|]; [|exists false; split; [done|]; rewrite Hr; done]. apply IH; [by eapply step_back|]. destruct Hr as (H1 & _). replace (length t - mark)%nat with (S (length t - S mark)) in Hf by lia. rewrite Nat.mul_succ_l in Hf. set (q := ((length t - S mark) * S (length p))%nat) in *. clearbody q. lia. }
    destruct (p !! j) as [[d| |]|] eqn:Hp.
    + pose proof (lookup_lt_Some _ _ _ Hp). destruct (Z.eqb_spec d c) as [->|Hne]; [apply IH; [by eapply step_on; eauto|by apply Hnext]|]. apply Hmiss. rewrite (rest_lit j i d c Hp Hc). by intros [? _].
    + pose proof (lookup_lt_Some _ _ _ Hp). apply IH; [by eapply step_on; eauto|by apply Hnext].
    + pose proof (lookup_lt_Some _ _ _ Hp). apply IH; [by eapply step_any|by apply Hnext].
    + apply Hmiss. by apply rest_over.
  - rewrite (proj2 (Nat.ltb_ge _ _)) by lia. eexists. split; [reflexivity|]. assert (Ei : i = length t) by lia. subst i. rewrite <- like_empty. assert (E : rest j (length t) ↔ like (drop j p) []) by (unfold rest; by rewrite drop_all). rewrite <- E.
    destruct star as [sj|]; [|by rewrite Hr]. destruct Hr as (H1 & H2 & ->). split; [by left|]. intros [H|(m & Hm' & H)]; [exact H|]. destruct (rest_stretch sj j m ltac:(lia) H2 ltac:(lia) H) as [Hb _]. lia.
Qed.
End walk.

Lemma run_ok p t : ∃ r, run p t = Ok r ∧ (r = true ↔ like p t).
Proof.
  apply run_loop_ok; [|rewrite !Nat.sub_0_r; lia]. split; [lia|lia|lia|done].
Qed.

(** ** Escapes *)
Definition escape (s : list Z) : list Z := concat (map (λ c, [backslash; c]) s).

Lemma parse_escape s q : parse_chars (escape s ++ q) = map Lit s ++ parse_chars q.
Proof. unfold escape. induction s as [|c s IH]; [done|]. cbn [map concat app parse_chars]. change (backslash =? percent) with false. change (backslash =? underscore) with false. change (backslash =? backslash) with true. cbn iota. by rewrite IH. Qed.
Lemma like_literal s p t : like (map Lit s ++ p) t ↔ ∃ u, t = s ++ u ∧ like p u.
Proof.
  revert t. induction s as [|c s IH]; intros t; cbn [map app]; [naive_solver|]. split.
  - intros H. inversion H as [|? ? u Hu| |]; subst. apply IH in Hu as (v & -> & Hv). by exists v.
  - intros (u & -> & Hu). constructor. apply IH. by exists u.
Qed.
Lemma like_just s t : like (map Lit s) t ↔ t = s.
Proof. rewrite <- (app_nil_r (map Lit s)), like_literal. setoid_rewrite like_end. split; [intros (u & -> & ->); apply app_nil_r|intros ->; exists []; by rewrite app_nil_r]. Qed.

(** C28.  [LIKE] is what a pattern means.  The greedy walk that reconsiders only the last [%] ends
    without a panic, within the length of the text times that of the pattern, and answers yes exactly when
    the pattern can be read off the text with [%] any run and [_] any one character.  Of patterns: one
    with every character escaped matches that text and no other; a [%] between two such stands for any
    run of characters and a [_] for exactly one. *)
Theorem like_is_matching to_lowercase pattern text fold :
  (∃ r, matches to_lowercase pattern text fold = Ok r ∧ (r = true ↔ like (parse to_lowercase pattern fold) (if fold then to_lowercase text else text))) ∧
  (∀ s, matches to_lowercase (escape s) text false = Ok (bool_decide (text = s))) ∧
  (∀ a b, matches to_lowercase (escape a ++ percent :: escape b) text false = Ok true ↔ ∃ m, text = a ++ m ++ b) ∧
  (∀ a b, matches to_lowercase (escape a ++ underscore :: escape b) text false = Ok true ↔ ∃ c, text = a ++ c :: b).
Proof.
  assert (Hrun : ∀ p, run p text = Ok true ↔ like p text) by (intros p; destruct (run_ok p text) as (r & -> & <-); split; [by intros [= ->]|by intros ->]).
  assert (Hesc : ∀ s, parse_chars (escape s) = map Lit s) by (intros s; rewrite <- (app_nil_r (escape s)), parse_escape; apply app_nil_r).
  split; [apply run_ok|]. unfold matches, parse. split; [|split].
  - intros s. rewrite Hesc. destruct (run_ok (map Lit s) text) as (r & E & H). rewrite E, like_just in *. f_equal. case_bool_decide; destruct r; naive_solver.
  - intros a b. rewrite Hrun, parse_escape, like_literal. change (parse_chars (percent :: escape b)) with (Any :: parse_chars (escape b)). rewrite Hesc. setoid_rewrite like_any_inv. setoid_rewrite like_just. naive_solver.
  - intros a b. rewrite Hrun, parse_escape, like_literal. change (parse_chars (underscore :: escape b)) with (One :: parse_chars (escape b)). rewrite Hesc. split.
    + intros (u & -> & H). inversion H as [| |c ? v Hv|]; subst. apply like_just in Hv as ->. by exists c.
    + intros (c & ->). exists (c :: b). split; [done|]. constructor. by apply like_just.
Qed.

Example like_a_star_b : matches id [37; 97; 37; 97; 37; 98] (replicate 20 97) false = Ok false ∧ matches id [97; 37; 98] [97; 98; 97; 98] false = Ok true.
Proof. by vm_compute. Qed.
