(* ===== verification/Keys.v ===== *)
(** Row keys (crates/big-keys/src/lib.rs): the dictionary from the strings of a field to the rows they
    live in, and back.

    A string is the list of its bytes.  The maps are [gmap]s; where the order of a [BTreeMap] shows, in
    [encode] and [rows], their entries are sorted by key. *)
From stdpp Require Import sorting.
From S2P Require Import Prelude Bits Page Pager Store.

Abbreviation Scope := (Z * Z)%type (only parsing).
Abbreviation Text := (list Z) (only parsing).

Definition KIND_ROW_KEY : Z := 4.
Definition MAX_KEY_LEN : Z := 104.

Inductive KeyError := TooLong (len : Z) | Conflict (name_len assigned held : Z) | TooManyKeys (limit : Z) | RowTaken (row : Z).

Record KeyStore := mkKeys {
  ks_ids : gmap Scope (gmap Text Z);
  ks_names : gmap (Scope * Z) Text;
  ks_next : gmap Scope Z;
  ks_bytes : Z; ks_count : Z; ks_limit : option Z }.

Definition text_len (name : Text) : Z := Z.of_nat (length name).
Definition entry_bytes (name : Text) : Z := 2 * (text_len name + 16).

Definition keys_new : KeyStore := mkKeys ∅ ∅ ∅ 0 0 None.

Definition key_id (s : KeyStore) (table field : Z) (name : Text) : option Z := ks_ids s !! (table, field) ≫= (.!! name).
Definition key_name (s : KeyStore) (table field row : Z) : option Text := ks_names s !! ((table, field), row).

(** Both maps and both totals, after which the counter is [next]. *)
Definition add_key (s : KeyStore) (scope : Scope) (name : Text) (row next : Z) : KeyStore :=
  mkKeys (<[scope := <[name := row]> (default ∅ (ks_ids s !! scope))]> (ks_ids s)) (<[(scope, row) := name]> (ks_names s))
    (<[scope := next]> (ks_next s)) (ks_bytes s + entry_bytes name) (ks_count s + 1) (ks_limit s).

Definition intern (s : KeyStore) (table field : Z) (name : Text) : Res KeyError (Z * KeyStore) :=
  if MAX_KEY_LEN <? text_len name then Err (TooLong (text_len name))
  else
    match key_id s table field name with
    | Some id => Ok (id, s)
    | None =>
        if match ks_limit s with Some limit => limit <=? ks_count s | None => false end then Err (TooManyKeys (default 0 (ks_limit s)))
        else
          let id := default 0 (ks_next s !! (table, field)) in
          Ok (id, add_key s (table, field) name id ((id + 1) mod 2 ^ 64))
    end.

Definition assign (s : KeyStore) (table field : Z) (name : Text) (row : Z) : Res KeyError KeyStore :=
  if MAX_KEY_LEN <? text_len name then Err (TooLong (text_len name))
  else
    match key_id s table field name with
    | Some held => if held =? row then Ok s else Err (Conflict (text_len name) row held)
    | None =>
        if bool_decide (is_Some (key_name s table field row)) then Err (RowTaken row)
        else Ok (add_key s (table, field) name row (Z.max (default 0 (ks_next s !! (table, field))) ((row + 1) mod 2 ^ 64)))
    end.

(** [names.into_iter().map(..).collect::<Result<Vec<_>>>()]: stops at the first that is refused, and keeps
    what came before it. *)
Fixpoint intern_all (s : KeyStore) (table field : Z) (names : list Text) : KeyStore * Res KeyError (list Z) :=
  match names with
  | [] => (s, Ok [])
  | n :: names' =>
      match intern s table field n with
      | Ok (id, s) => let '(s, r) := intern_all s table field names' in (s, ids ← r; Ok (id :: ids))
      | Err e => (s, Err e)
      | Panic => (s, Panic)
      end
  end.

(** What the keys of one field's map cost. *)
Definition names_bytes (by_name : gmap Text Z) : Z := foldr Z.add 0 (entry_bytes <$> (map_to_list by_name).*1).

Definition remove_scope (s : KeyStore) (table field : Z) : KeyStore :=
  let gone := default ∅ (ks_ids s !! (table, field)) in
  mkKeys (delete (table, field) (ks_ids s)) (filter (λ e, e.1.1 ≠ (table, field)) (ks_names s)) (delete (table, field) (ks_next s))
    (ks_bytes s - names_bytes gone) (ks_count s - Z.of_nat (size gone)) (ks_limit s).

Definition remove_table (s : KeyStore) (table : Z) : KeyStore :=
  let gone := (map_to_list (filter (λ e, e.1.1 = table) (ks_ids s))).*2 in
  mkKeys (filter (λ e, e.1.1 ≠ table) (ks_ids s)) (filter (λ e, e.1.1.1 ≠ table) (ks_names s)) (filter (λ e, e.1.1 ≠ table) (ks_next s))
    (ks_bytes s - foldr Z.add 0 (names_bytes <$> gone)) (ks_count s - foldr Z.add 0 ((λ m, Z.of_nat (size m)) <$> gone)) (ks_limit s).

Definition set_key_limit (s : KeyStore) (limit : option Z) : KeyStore := mkKeys (ks_ids s) (ks_names s) (ks_next s) (ks_bytes s) (ks_count s) limit.

(** The order of the keys of a [BTreeMap] over tables, fields and rows. *)
Definition key_le (a b : (Scope * Z) * Text) : Prop :=
  let '((t, f), r) := a.1 in let '((t', f'), r') := b.1 in t < t' ∨ t = t' ∧ (f < f' ∨ f = f' ∧ r <= r').
#[export] Instance key_le_dec a b : Decision (key_le a b).
Proof. destruct a as [[[t f] r] n], b as [[[t' f'] r'] n']. unfold key_le. cbn. apply _. Defined.
Definition in_key_order (m : gmap (Scope * Z) Text) : list ((Scope * Z) * Text) := merge_sort key_le (map_to_list m).

Definition key_rows (s : KeyStore) (table field : Z) : list (Z * Text) :=
  (λ e, (e.1.2, e.2)) <$> filter (λ e, e.1.1 = (table, field)) (in_key_order (ks_names s)).

(** A record of [CATALOG_ENTRY_BYTES]; a longer name would not fit and the copy would panic. *)
Definition key_entry (e : (Scope * Z) * Text) : Res KeyError (list Z) :=
  let '(((table, field), row), name) := e in
  if CATALOG_ENTRY_BYTES <? 24 + text_len name then Panic
  else Ok ([KIND_ROW_KEY; 0] ++ le_bytes 2 (text_len name) ++ le_bytes 4 table ++ le_bytes 4 field ++ [0; 0; 0; 0] ++ le_bytes 8 row ++ name ++
           replicate (Z.to_nat (CATALOG_ENTRY_BYTES - 24 - text_len name)) 0).
Fixpoint key_entries (es : list ((Scope * Z) * Text)) : Res KeyError (list (list Z)) :=
  match es with
  | [] => Ok []
  | e :: es' => b ← key_entry e; bs ← key_entries es'; Ok (b :: bs)
  end.
Definition keys_encode (s : KeyStore) : Res KeyError (list (list Z)) := key_entries (in_key_order (ks_names s)).

(** [core::str::from_utf8]: the well-formed byte sequences. *)
Definition cont (b : Z) : bool := (128 <=? b) && (b <=? 191).
Definition within (lo hi b : Z) : bool := (lo <=? b) && (b <=? hi).
Fixpoint from_utf8 (s : list Z) : bool :=
  match s with
  | [] => true
  | a :: s1 =>
      if a <=? 127 then from_utf8 s1
      else match s1 with
      | [] => false
      | b :: s2 =>
          if within 194 223 a then cont b && from_utf8 s2
          else match s2 with
          | [] => false
          | c :: s3 =>
              if within 224 239 a then
                (if a =? 224 then within 160 191 b else if a =? 237 then within 128 159 b else cont b) && cont c && from_utf8 s3
              else match s3 with
              | [] => false
              | d :: s4 =>
                  if within 240 244 a then
                    (if a =? 240 then within 144 191 b else if a =? 244 then within 128 143 b else cont b) && cont c && cont d && from_utf8 s4
                  else false
              end
          end
      end
  end.

(** One record of the chain: of another kind, too long or not text, it is passed over. *)
Definition load_key (s : KeyStore) (e : list Z) : Res KeyError KeyStore :=
  if Z.of_nat (length e) <? CATALOG_ENTRY_BYTES then Ok s
  else
    k ← unwrap (e !! 0%nat);
    if negb (k =? KIND_ROW_KEY) then Ok s
    else
      len ← rd 2 e 2;
      if MAX_KEY_LEN <? len then Ok s
      else
        table ← rd 4 e 4;
        field ← rd 4 e 8;
        row ← rd 8 e 16;
        name ← slice e 24 len;
        if negb (from_utf8 name) then Ok s
        else Ok (add_key s (table, field) name row (Z.max (default 0 (ks_next s !! (table, field))) ((row + 1) mod 2 ^ 64))).
Fixpoint load_keys (s : KeyStore) (entries : list (list Z)) : Res KeyError KeyStore :=
  match entries with
  | [] => Ok s
  | e :: entries' => s ← load_key s e; load_keys s entries'
  end.
Definition keys_from_entries (entries : list (list Z)) : Res KeyError KeyStore := load_keys keys_new entries.
