(* ===== verification/KeysSpec.v ===== *)
(** What the dictionary of row keys promises (the theory of Keys.v). *)
From stdpp Require Import sorting.
From S2P Require Import Prelude Bits Page Pager Store Keys.

Lemma filter_ext_in {A} (P Q : A → Prop) `{!∀ x, Decision (P x), !∀ x, Decision (Q x)} (l : list A) : (∀ x, x ∈ l → P x ↔ Q x) → filter P l = filter Q l.
Proof.
  induction l as [|x l IH]; [done|]. intros Hx. rewrite !filter_cons. rewrite IH by (intros y Hy; apply Hx; by right). destruct (decide (P x)) as [Hp|Hp], (decide (Q x)) as [Hq|Hq]; try done; exfalso; specialize (Hx x ltac:(by left)); tauto.
Qed.

Lemma filter_to_list {K V} `{!EqDecision K, !Countable K} (P : K * V → Prop) `{!∀ x, Decision (P x)} (m : gmap K V) : map_to_list (filter P m) ≡ₚ filter P (map_to_list m).
Proof.
  apply NoDup_Permutation; [apply NoDup_map_to_list|apply NoDup_filter, NoDup_map_to_list|]. intros [k v]. rewrite elem_of_map_to_list, map_lookup_filter_Some, list_elem_of_filter, elem_of_map_to_list. tauto.
Qed.

(** * Sums over the entries of a map *)
Section sums.
Context {K V : Type} (f : V → Z).

Definition msum (l : list (K * V)) : Z := foldr Z.add 0 ((λ e, f e.2) <$> l).

Lemma msum_perm l k : l ≡ₚ k → msum l = msum k.
Proof. unfold msum. induction 1; cbn in *; lia. Qed.
Lemma msum_app l k : msum (l ++ k) = msum l + msum k.
Proof. unfold msum. induction l as [|x l IH]; cbn in *; lia. Qed.
Lemma msum_filter (P : K * V → Prop) `{!∀ x, Decision (P x)} l : msum l = msum (filter P l) + msum (filter (λ x, ¬ P x) l).
Proof. unfold msum. induction l as [|x l IH]; [done|]. rewrite !filter_cons. destruct (decide (P x)) as [E|E], (decide (¬ P x)) as [E'|E']; try tauto; cbn in *; lia. Qed.
End sums.

(** * The invariant *)
Definition u32 (v : Z) : Prop := 0 <= v < 2 ^ 32.

(** A string the dictionary may hold. *)
Definition key_text (n : list Z) : Prop := text_len n <= MAX_KEY_LEN ∧ Forall byte n ∧ from_utf8 n = true.

Record keys_ok (s : KeyStore) : Prop := {
  ko_inverse sc n r : (ks_ids s !! sc ≫= (.!! n)) = Some r ↔ ks_names s !! (sc, r) = Some n;
  ko_scopes sc : ks_ids s !! sc ≠ Some ∅;
  ko_next sc : match ks_next s !! sc with
               | Some k => (∀ r n, ks_names s !! (sc, r) = Some n → 0 <= r < k) ∧ is_Some (ks_names s !! (sc, k - 1)) ∧ k < 2 ^ 64
               | None => ks_ids s !! sc = None
               end;
  ko_bytes : ks_bytes s = msum entry_bytes (map_to_list (ks_names s));
  ko_count : ks_count s = msum (λ _, 1) (map_to_list (ks_names s));
  ko_text sc r n : ks_names s !! (sc, r) = Some n → key_text n ∧ u32 sc.1 ∧ u32 sc.2
}.

Lemma keys_new_ok : keys_ok keys_new.
Proof. split; [intros sc n r; cbn; rewrite !lookup_empty; done|intros sc; cbn; by rewrite lookup_empty|intros sc; cbn; by rewrite lookup_empty|done|done|intros sc r n; cbn; by rewrite lookup_empty]. Qed.

Lemma next_bound s sc r n : keys_ok s → ks_names s !! (sc, r) = Some n → 0 <= r < default 0 (ks_next s !! sc) ∧ default 0 (ks_next s !! sc) < 2 ^ 64.
Proof.
  intros H Hn. pose proof (ko_next s H sc) as Hx. destruct (ks_next s !! sc) as [k|]; [destruct Hx as (H1 & _ & H3); split; [by eapply H1|exact H3]|]. apply (ko_inverse s H) in Hn. by rewrite Hx in Hn.
Qed.

Lemma no_scope s sc : keys_ok s → ks_next s !! sc = None → ∀ r, ks_names s !! (sc, r) = None.
Proof. intros H Hn r. pose proof (ko_next s H sc) as Hx. rewrite Hn in Hx. destruct (ks_names s !! (sc, r)) as [n|] eqn:E; [|done]. apply (ko_inverse s H) in E. by rewrite Hx in E. Qed.

(** A key added under a row of its own. *)
Lemma add_key_ok s sc n row next : keys_ok s → (ks_ids s !! sc ≫= (.!! n)) = None → ks_names s !! (sc, row) = None → key_text n → u32 sc.1 → u32 sc.2 → 0 <= row →
  next = Z.max (default 0 (ks_next s !! sc)) (row + 1) → next < 2 ^ 64 → keys_ok (add_key s sc n row next).
Proof.
  intros H Hn Hr Ht H1 H2 Hrow Enext Hnext. assert (Hnew : ∀ n', (<[n := row]> (default ∅ (ks_ids s !! sc)) !! n') = if decide (n' = n) then Some row else ks_ids s !! sc ≫= (.!! n')).
  { intros n'. destruct (decide (n' = n)) as [->|Hne]; [by rewrite lookup_insert_eq|]. rewrite lookup_insert_ne by done. destruct (ks_ids s !! sc); cbn; [done|apply lookup_empty]. }
  split; unfold add_key; cbn [ks_ids ks_names ks_next ks_bytes ks_count].
  - intros sc' n' r'. destruct (decide (sc' = sc)) as [->|Hsc].
    + rewrite lookup_insert_eq. cbn. rewrite Hnew. destruct (decide (r' = row)) as [->|Hr'].
      * rewrite lookup_insert_eq. destruct (decide (n' = n)) as [->|Hne]; [done|]. split; [|intros [= E]; congruence]. intros E. apply (ko_inverse s H) in E. congruence.
      * rewrite lookup_insert_ne by congruence. rewrite <- (ko_inverse s H). destruct (decide (n' = n)) as [->|Hne]; [|done]. rewrite Hn. split; [intros [= E]; congruence|done].
    + rewrite lookup_insert_ne by congruence. rewrite lookup_insert_ne by congruence. apply (ko_inverse s H).
  - intros sc'. destruct (decide (sc' = sc)) as [->|Hsc]; [|rewrite lookup_insert_ne by congruence; apply (ko_scopes s H)]. rewrite lookup_insert_eq. intros [= E]. by apply insert_non_empty in E.
  - intros sc'. destruct (decide (sc' = sc)) as [->|Hsc].
    + rewrite lookup_insert_eq. split; [|split; [|exact Hnext]].
      * intros r' n'. destruct (decide (r' = row)) as [->|Hr']; [lia|]. rewrite lookup_insert_ne by congruence. intros E. apply (next_bound s _ _ _ H) in E. lia.
      * destruct (decide (next - 1 = row)) as [E|E]; [rewrite E, lookup_insert_eq; by eexists|]. rewrite lookup_insert_ne by congruence. pose proof (ko_next s H sc) as Hx. destruct (ks_next s !! sc) as [k|]; cbn in Enext; [|lia]. destruct Hx as (_ & Hx & _). replace next with k by lia. exact Hx.
    + rewrite lookup_insert_ne by congruence. pose proof (ko_next s H sc') as Hx. destruct (ks_next s !! sc') as [k|]; [|by rewrite lookup_insert_ne by congruence]. destruct Hx as (X1 & X2 & X3). split; [|split; [|exact X3]].
      * intros r' n'. rewrite lookup_insert_ne by congruence. apply X1.
      * by rewrite lookup_insert_ne by congruence.
  - rewrite (msum_perm _ _ _ (map_to_list_insert _ _ _ Hr)). rewrite (ko_bytes s H). unfold msum. cbn. lia.
  - rewrite (msum_perm _ _ _ (map_to_list_insert _ _ _ Hr)). rewrite (ko_count s H). unfold msum. cbn. lia.
  - intros sc' r' n'. destruct (decide ((sc', r') = (sc, row))) as [[= -> ->]|Hne]; [rewrite lookup_insert_eq; by intros [= <-]|]. rewrite lookup_insert_ne by congruence. apply (ko_text s H).
Qed.

(** * Forgetting scopes *)
Definition wsum (w : list Z → Z) (by_name : gmap (list Z) Z) : Z := foldr Z.add 0 (w <$> (map_to_list by_name).*1).

Lemma size_wsum by_name : Z.of_nat (size by_name) = wsum (λ _, 1) by_name.
Proof. unfold wsum. rewrite <- length_map_to_list. induction (map_to_list by_name) as [|x l IH]; [done|]. cbn [length fmap list_fmap foldr]. cbn in IH. rewrite <- IH. lia. Qed.

Lemma foldr_sum_perm (l k : list Z) : l ≡ₚ k → foldr Z.add 0 l = foldr Z.add 0 k.
Proof. induction 1; cbn; lia. Qed.

Section scopes.
Context (s : KeyStore) (Hs : keys_ok s).
Implicit Types (sc : Z * Z).

(** The keys of one field's map are the names of its rows. *)
Lemma scope_perm sc : (map_to_list (default ∅ (ks_ids s !! sc))).*1 ≡ₚ (filter (λ e, e.1.1 = sc) (map_to_list (ks_names s))).*2.
Proof.
  assert (Hin : ∀ n r, (default ∅ (ks_ids s !! sc)) !! n = Some r ↔ ks_names s !! (sc, r) = Some n).
  { intros n r. rewrite <- (ko_inverse s Hs). destruct (ks_ids s !! sc); cbn; [done|]. by rewrite lookup_empty. }
  apply NoDup_Permutation; [apply NoDup_fst_map_to_list| |].
  - apply NoDup_fmap_2_strong; [|apply NoDup_filter, NoDup_map_to_list]. intros [[sc1 r1] n1] [[sc2 r2] n2] H1 H2 E. apply list_elem_of_filter in H1 as [E1 H1], H2 as [E2 H2]. cbn in *. subst. apply elem_of_map_to_list in H1, H2. apply Hin in H1, H2. rewrite H1 in H2. congruence.
  - intros n. rewrite !list_elem_of_fmap. split.
    + intros ([n' r] & -> & H). apply elem_of_map_to_list, Hin in H. exists ((sc, r), n'). split; [done|]. apply list_elem_of_filter. split; [done|]. by apply elem_of_map_to_list.
    + intros ([[sc' r] n'] & -> & H). apply list_elem_of_filter in H as [E H]. cbn in E. subst. apply elem_of_map_to_list, Hin in H. exists (n', r). split; [done|]. by apply elem_of_map_to_list.
Qed.

Lemma scope_sum w sc : wsum w (default ∅ (ks_ids s !! sc)) = msum w (filter (λ e, e.1.1 = sc) (map_to_list (ks_names s))).
Proof.
  unfold wsum, msum. rewrite (foldr_sum_perm _ _ (fmap_Permutation w _ _ (scope_perm sc))). by rewrite <- list_fmap_compose.
Qed.

(** The maps of some fields together hold the names of their rows. *)
Lemma scopes_sum w (l : list (Z * Z)) (L : list ((Z * Z * Z) * list Z)) : NoDup l → foldr Z.add 0 ((λ sc, msum w (filter (λ e, e.1.1 = sc) L)) <$> l) = msum w (filter (λ e, e.1.1 ∈ l) L).
Proof.
  induction 1 as [|x l Hx _ IH]; cbn.
  - induction L as [|e L IH]; [done|]. rewrite filter_cons_False; [exact IH|apply not_elem_of_nil].
  - rewrite IH. clear IH. unfold msum. induction L as [|e L IH]; [done|]. rewrite !filter_cons. destruct (decide (e.1.1 = x)) as [E|E].
    + rewrite decide_False by (by rewrite E). rewrite decide_True by (rewrite E; by left). cbn in *. lia.
    + destruct (decide (e.1.1 ∈ l)); [rewrite decide_True by (by right)|rewrite decide_False by (by intros [?|?]%elem_of_cons)]; cbn in *; lia.
Qed.

Lemma table_sum w table : foldr Z.add 0 (wsum w <$> (map_to_list (filter (λ e, e.1.1 = table) (ks_ids s))).*2) = msum w (filter (λ e, e.1.1.1 = table) (map_to_list (ks_names s))).
Proof.
  set (m := filter (λ e : (Z * Z) * gmap (list Z) Z, e.1.1 = table) (ks_ids s)). set (L := map_to_list (ks_names s)).
  transitivity (foldr Z.add 0 ((λ sc, msum w (filter (λ e, e.1.1 = sc) L)) <$> (map_to_list m).*1)).
  - rewrite <- !list_fmap_compose. f_equal. apply list_fmap_ext. intros i [sc by_name] Hi. apply list_elem_of_lookup_2, elem_of_map_to_list in Hi. apply map_lookup_filter_Some in Hi as [Hi _]. cbn. pose proof (scope_sum w sc) as Hsum. rewrite Hi in Hsum. exact Hsum.
  - rewrite scopes_sum by apply NoDup_fst_map_to_list. f_equal. apply filter_ext_in. intros [[sc r] n] Hin. apply elem_of_map_to_list in Hin. cbn. apply (ko_inverse s Hs) in Hin. rewrite list_elem_of_fmap. split.
    + intros ([sc' b] & -> & H). apply elem_of_map_to_list, map_lookup_filter_Some in H as [_ H]. exact H.
    + intros Ht. apply bind_Some in Hin as (b & Hb & _). exists (sc, b). split; [done|]. apply elem_of_map_to_list, map_lookup_filter_Some. done.
Qed.

(** The scopes a test picks are gone, and with them exactly their keys. *)
Lemma forget_ok (Q : Z * Z → Prop) `{!∀ sc, Decision (Q sc)} s' :
  (∀ sc, ks_ids s' !! sc = if decide (Q sc) then None else ks_ids s !! sc) → (∀ sc, ks_next s' !! sc = if decide (Q sc) then None else ks_next s !! sc) →
  (∀ sc r, ks_names s' !! (sc, r) = if decide (Q sc) then None else ks_names s !! (sc, r)) →
  ks_bytes s' = ks_bytes s - msum entry_bytes (filter (λ e, Q e.1.1) (map_to_list (ks_names s))) →
  ks_count s' = ks_count s - msum (λ _, 1) (filter (λ e, Q e.1.1) (map_to_list (ks_names s))) → keys_ok s'.
Proof.
  intros Hi Hk Hn Hb Hc. assert (Hl : map_to_list (ks_names s') ≡ₚ filter (λ e, ¬ Q e.1.1) (map_to_list (ks_names s))).
  { rewrite <- filter_to_list. f_equiv. apply map_eq. intros [sc r]. rewrite Hn. symmetry. destruct (decide (Q sc)) as [HQ|HQ]; [apply map_lookup_filter_None_2; right; cbn; tauto|]. destruct (ks_names s !! (sc, r)) as [v|] eqn:E; [by apply map_lookup_filter_Some_2|apply map_lookup_filter_None_2; by left]. }
  split.
  - intros sc n r. rewrite Hi, Hn. destruct (decide (Q sc)); [done|]. apply (ko_inverse s Hs).
  - intros sc. rewrite Hi. destruct (decide (Q sc)); [done|]. apply (ko_scopes s Hs).
  - intros sc. rewrite Hi, Hk. pose proof (ko_next s Hs sc) as Hx. destruct (decide (Q sc)) as [HQ|HQ]; [done|]. destruct (ks_next s !! sc) as [k|]; [|exact Hx]. destruct Hx as (X1 & X2 & X3). split; [|split; [|exact X3]].
    + intros r n. rewrite Hn, decide_False by exact HQ. apply X1.
    + by rewrite Hn, decide_False by exact HQ.
  - rewrite Hb, (msum_perm _ _ _ Hl), (ko_bytes s Hs), (msum_filter _ (λ e, Q e.1.1) (map_to_list (ks_names s))). lia.
  - rewrite Hc, (msum_perm _ _ _ Hl), (ko_count s Hs), (msum_filter _ (λ e, Q e.1.1) (map_to_list (ks_names s))). lia.
  - intros sc r n. rewrite Hn. destruct (decide (Q sc)); [done|]. apply (ko_text s Hs).
Qed.

(** What [retain] keeps, by the key alone. *)
Lemma retain_lookup {K V} `{!EqDecision K, !Countable K} (P : K → Prop) `{!∀ k, Decision (P k)} (F : K * V → Prop) `{!∀ e, Decision (F e)} (m : gmap K V) k : (∀ k v, F (k, v) ↔ ¬ P k) →
  filter F m !! k = if decide (P k) then None else m !! k.
Proof.
  intros HF. destruct (decide (P k)) as [Hp|Hp]; [apply map_lookup_filter_None_2; right; intros v _; rewrite HF; tauto|]. destruct (m !! k) as [v|] eqn:E; [apply map_lookup_filter_Some_2; [done|by apply HF]|apply map_lookup_filter_None_2; by left].
Qed.
Lemma delete_lookup {V} (m : gmap (Z * Z) V) sc k : delete sc m !! k = if decide (k = sc) then None else m !! k.
Proof. destruct (decide (k = sc)) as [->|Hne]; [apply lookup_delete_eq|apply lookup_delete_ne; congruence]. Qed.

Lemma remove_scope_names table field sc r : ks_names (remove_scope s table field) !! (sc, r) = if decide (sc = (table, field)) then None else ks_names s !! (sc, r).
Proof. unfold remove_scope. cbn [ks_names]. rewrite (retain_lookup (λ k, k.1 = (table, field))) by done. done. Qed.
Lemma remove_table_names table sc r : ks_names (remove_table s table) !! (sc, r) = if decide (sc.1 = table) then None else ks_names s !! (sc, r).
Proof. unfold remove_table. cbn [ks_names]. rewrite (retain_lookup (λ k, k.1.1 = table)) by done. done. Qed.

Lemma remove_scope_ok table field : keys_ok (remove_scope s table field).
Proof.
  apply (forget_ok (λ sc, sc = (table, field))); [intros; apply delete_lookup|intros; apply delete_lookup|apply remove_scope_names| |]; cbn [remove_scope ks_bytes ks_count].
  - change (names_bytes ?g) with (wsum entry_bytes g). by rewrite scope_sum.
  - by rewrite size_wsum, scope_sum.
Qed.
Lemma remove_table_ok table : keys_ok (remove_table s table).
Proof.
  apply (forget_ok (λ sc, sc.1 = table)); [intros sc; unfold remove_table; cbn [ks_ids]; by rewrite (retain_lookup (λ k, k.1 = table))|intros sc; unfold remove_table; cbn [ks_next]; by rewrite (retain_lookup (λ k, k.1 = table))|apply remove_table_names| |]; cbn [remove_table ks_bytes ks_count].
  - change names_bytes with (wsum entry_bytes). by rewrite table_sum.
  - rewrite <- (table_sum (λ _, 1)). f_equal. f_equal. apply list_fmap_ext. intros i m _. apply size_wsum.
Qed.
End scopes.

(** * Adding keys *)
Definition valid_name (n : list Z) : Prop := Forall byte n ∧ from_utf8 n = true.
Definition valid_scope (table field : Z) : Prop := u32 table ∧ u32 field.

(** There is a row after those given out that a 64-bit counter can step past. *)
Definition rows_left (s : KeyStore) (table field : Z) (n : Z) : Prop := default 0 (ks_next s !! (table, field)) + n < 2 ^ 64.

Lemma next_nonneg s sc : keys_ok s → 0 <= default 0 (ks_next s !! sc).
Proof. intros H. pose proof (ko_next s H sc) as Hx. destruct (ks_next s !! sc) as [k|]; [|done]. destruct Hx as (X1 & [n Hn] & _). apply X1 in Hn. cbn. lia. Qed.

(** The row the counter names is free. *)
Lemma next_free s sc : keys_ok s → ks_names s !! (sc, default 0 (ks_next s !! sc)) = None.
Proof. intros H. destruct (ks_names s !! _) as [n|] eqn:E; [|done]. apply (next_bound s _ _ _ H) in E. lia. Qed.

(** What was known before a key is added is known after it, and the key is. *)
Lemma add_key_lookup s sc n row next : ks_names s !! (sc, row) = None → (ks_ids s !! sc ≫= (.!! n)) = None → keys_ok (add_key s sc n row next) →
  ∀ table field n' r, key_id (add_key s sc n row next) table field n' = Some r ↔ key_id s table field n' = Some r ∨ (table, field) = sc ∧ n' = n ∧ r = row.
Proof.
  intros Hr Hn H table field n' r. unfold key_id, add_key. cbn [ks_ids]. destruct (decide ((table, field) = sc)) as [<-|Hsc]; [|rewrite lookup_insert_ne by congruence; split; [by left|intros [?|[? _]]; [done|congruence]]].
  rewrite lookup_insert_eq. cbn. destruct (decide (n' = n)) as [->|Hne].
  - rewrite lookup_insert_eq, Hn. split; [intros [= ->]; by right|intros [?|(_ & _ & ->)]; done].
  - rewrite lookup_insert_ne by congruence. destruct (ks_ids s !! (table, field)) as [m|]; cbn; [|rewrite lookup_empty]; split; try (by left); intros [?|(_ & ? & _)]; congruence.
Qed.

Section adding.
Context (s : KeyStore) (Hs : keys_ok s) (table field : Z) (Hsc : valid_scope table field).

Lemma intern_ok name : valid_name name → rows_left s table field 1 →
  match intern s table field name with
  | Ok (id, s') =>
      keys_ok s' ∧ text_len name <= MAX_KEY_LEN ∧ (∀ t f n r, key_id s' t f n = Some r ↔ key_id s t f n = Some r ∨ t = table ∧ f = field ∧ n = name ∧ r = id) ∧
      (key_id s table field name = None → (∀ r n, key_name s table field r = Some n → r < id) ∧ ks_count s' = ks_count s + 1 ∧ ∀ limit, ks_limit s = Some limit → ks_count s < limit) ∧
      ks_limit s' = ks_limit s ∧ (∀ k, rows_left s table field (k + 1) → rows_left s' table field k)
  | Err (TooLong len) => len = text_len name ∧ MAX_KEY_LEN < len
  | Err (TooManyKeys limit) => text_len name <= MAX_KEY_LEN ∧ key_id s table field name = None ∧ ks_limit s = Some limit ∧ limit <= ks_count s
  | _ => False
  end.
Proof.
  intros [Hb Hu] Hrow. unfold intern. destruct (MAX_KEY_LEN <? text_len name) eqn:El; [split; [done|lia]|]. destruct (key_id s table field name) as [id|] eqn:Ei.
  - split; [exact Hs|]. split; [lia|]. split; [|split; [done|split; [done|unfold rows_left; intros; lia]]]. intros t f n r. split; [by left|]. by intros [?|(-> & -> & -> & ->)].
  - destruct (match ks_limit s with Some limit => limit <=? ks_count s | None => false end) eqn:Em.
    { destruct (ks_limit s) as [limit|]; [|done]. cbn. split; [lia|]. split; [done|]. split; [done|lia]. }
    unfold rows_left in Hrow. set (id := default 0 (ks_next s !! (table, field))) in *. pose proof (next_nonneg s (table, field) Hs) as Hid. fold id in Hid. rewrite Z.mod_small by lia.
    assert (Hok : keys_ok (add_key s (table, field) name id (id + 1))).
    { apply add_key_ok; try done; [apply (next_free s _ Hs)|split; [lia|by split]|apply Hsc|apply Hsc|]. fold id. lia. }
    split; [exact Hok|]. split; [lia|]. split; [|split; [|split; [done|]]].
    + intros t f n r. rewrite add_key_lookup; [|apply (next_free s _ Hs)|exact Ei|exact Hok]. split; intros [?|H]; try (by left); right.
      * by destruct H as ([= -> ->] & -> & ->).
      * by destruct H as (-> & -> & -> & ->).
    + intros _. split; [|split; [done|intros limit E; rewrite E in Em; lia]]. intros r n Hn. apply (next_bound s _ _ _ Hs) in Hn. fold id in Hn. lia.
    + intros k Hk. unfold rows_left, add_key in *. cbn [ks_next]. rewrite lookup_insert_eq. cbn. fold id in Hk. lia.
Qed.

Lemma assign_ok name row : valid_name name → 0 <= row < 2 ^ 64 - 1 →
  match assign s table field name row with
  | Ok s' => keys_ok s' ∧ text_len name <= MAX_KEY_LEN ∧ (∀ t f n r, key_id s' t f n = Some r ↔ key_id s t f n = Some r ∨ t = table ∧ f = field ∧ n = name ∧ r = row)
  | Err (TooLong len) => len = text_len name ∧ MAX_KEY_LEN < len
  | Err (Conflict len assigned held) => len = text_len name ∧ assigned = row ∧ key_id s table field name = Some held ∧ held ≠ row
  | Err (RowTaken r) => r = row ∧ key_id s table field name = None ∧ is_Some (key_name s table field row)
  | _ => False
  end.
Proof.
  intros [Hb Hu] Hrow. unfold assign. destruct (MAX_KEY_LEN <? text_len name) eqn:El; [split; [done|lia]|]. destruct (key_id s table field name) as [held|] eqn:Ei.
  - destruct (Z.eqb_spec held row) as [->|Hne]; [|done]. split; [exact Hs|]. split; [lia|]. intros t f n r. split; [by left|]. by intros [?|(-> & -> & -> & ->)].
  - case_bool_decide as Ht; [done|]. assert (Hfree : ks_names s !! ((table, field), row) = None) by (by apply eq_None_not_Some). rewrite Z.mod_small by lia.
    assert (Hok : keys_ok (add_key s (table, field) name row (Z.max (default 0 (ks_next s !! (table, field))) (row + 1)))).
    { apply add_key_ok; try done; [split; [lia|by split]|apply Hsc|apply Hsc|lia|]. pose proof (ko_next s Hs (table, field)) as Hx. destruct (ks_next s !! (table, field)) as [k|]; cbn; [destruct Hx as (_ & _ & Hx)|]; lia. }
    split; [exact Hok|]. split; [lia|]. intros t f n r. rewrite add_key_lookup; [|exact Hfree|exact Ei|exact Hok]. split; intros [?|H]; try (by left); right.
    + by destruct H as ([= -> ->] & -> & ->).
    + by destruct H as (-> & -> & -> & ->).
Qed.
End adding.

Lemma intern_all_ok table field names : valid_scope table field → Forall valid_name names → ∀ s, keys_ok s → rows_left s table field (Z.of_nat (length names)) →
  let '(s', r) := intern_all s table field names in
  keys_ok s' ∧ (∀ t f n i, key_id s t f n = Some i → key_id s' t f n = Some i) ∧
  match r with Ok ids => Forall2 (λ n i, key_id s' table field n = Some i) names ids | Err _ => True | Panic => False end.
Proof.
  intros Hsc. induction 1 as [|n names Hn _ IH]; intros s Hs Hr; [done|]. cbn [intern_all length] in *. pose proof (next_nonneg s (table, field) Hs) as Hz. pose proof (intern_ok s Hs table field Hsc n Hn) as Hi.
  destruct (intern s table field n) as [[id s1]| |] eqn:E.
  - destruct Hi as (Hs1 & _ & Hk & _ & _ & Hl); [unfold rows_left in *; lia|]. specialize (IH s1 Hs1). destruct (intern_all s1 table field names) as [s2 r]. destruct IH as (Hs2 & Hk2 & Hr2); [apply Hl; unfold rows_left in *; lia|].
    split; [exact Hs2|]. split; [intros; apply Hk2, Hk; by left|]. destruct r as [ids| |]; try done. cbn. constructor; [|exact Hr2]. apply Hk2, Hk. by right.
  - done.
  - destruct Hi. unfold rows_left in *. lia.
Qed.

(** * What a store can become *)
Inductive key_step : KeyStore → KeyStore → Prop :=
  | step_intern s t f n id s' : valid_scope t f → valid_name n → rows_left s t f 1 → intern s t f n = Ok (id, s') → key_step s s'
  | step_intern_all s t f ns r s' : valid_scope t f → Forall valid_name ns → rows_left s t f (Z.of_nat (length ns)) → intern_all s t f ns = (s', r) → key_step s s'
  | step_assign s t f n row s' : valid_scope t f → valid_name n → 0 <= row < 2 ^ 64 - 1 → assign s t f n row = Ok s' → key_step s s'
  | step_scope s t f : key_step s (remove_scope s t f)
  | step_table s t : key_step s (remove_table s t)
  | step_limit s limit : key_step s (set_key_limit s limit).

Lemma set_key_limit_ok s limit : keys_ok s → keys_ok (set_key_limit s limit).
Proof. intros [? ? ? ? ? ?]. by split. Qed.

Lemma key_step_ok s s' : key_step s s' → keys_ok s → keys_ok s'.
Proof.
  intros [] Hs.
  - pose proof (intern_ok s0 Hs t f H n H0 H1) as Hi. rewrite H2 in Hi. apply Hi.
  - pose proof (intern_all_ok t f ns H H0 s0 Hs H1) as Hi. rewrite H2 in Hi. apply Hi.
  - pose proof (assign_ok s0 Hs t f H n row H0 H1) as Hi. rewrite H2 in Hi. apply Hi.
  - by apply remove_scope_ok.
  - by apply remove_table_ok.
  - by apply set_key_limit_ok.
Qed.
Lemma reachable_ok s : rtc key_step keys_new s → keys_ok s.
Proof. apply (rtc_ind_r (λ s, keys_ok s)); [exact keys_new_ok|]. intros y z _ Hyz. by apply key_step_ok. Qed.

Lemma msum_length {K V} (l : list (K * V)) : msum (λ _, 1) l = Z.of_nat (length l).
Proof. unfold msum. induction l as [|x l IH]; [done|]. cbn in *. lia. Qed.

(** * The names decide the rest *)
Lemma keys_determined s s' : keys_ok s → keys_ok s' → ks_names s = ks_names s' → ks_limit s = ks_limit s' → s = s'.
Proof.
  intros H H' En El. assert (Hid : ∀ sc n, (ks_ids s !! sc ≫= (.!! n)) = (ks_ids s' !! sc ≫= (.!! n))).
  { intros sc n. apply option_eq. intros r. by rewrite (ko_inverse s H), (ko_inverse s' H'), En. }
  assert (Ei : ks_ids s = ks_ids s').
  { apply map_eq. intros sc. specialize (Hid sc). pose proof (ko_scopes s H sc) as N. pose proof (ko_scopes s' H' sc) as N'. destruct (ks_ids s !! sc) as [m|], (ks_ids s' !! sc) as [m'|]; cbn in Hid; [f_equal; by apply map_eq|..|done]; exfalso; [apply N|apply N']; f_equal; apply map_eq; intros n; rewrite lookup_empty; by rewrite Hid || by rewrite <- Hid. }
  assert (Ek : ks_next s = ks_next s').
  { apply map_eq. intros sc. pose proof (ko_next s H sc) as X. pose proof (ko_next s' H' sc) as X'. rewrite <- En, <- Ei in X'. pose proof (no_scope s sc H) as Hno. pose proof (no_scope s' sc H') as Hno'. rewrite <- En in Hno'.
    destruct (ks_next s !! sc) as [k|], (ks_next s' !! sc) as [k'|]; [|..|done].
    - destruct X as (X1 & [n Hn] & _), X' as (X1' & [n' Hn'] & _). apply X1' in Hn. apply X1 in Hn'. f_equal. lia.
    - destruct X as (_ & [n Hn] & _). by rewrite Hno' in Hn.
    - destruct X' as (_ & [n Hn] & _). by rewrite Hno in Hn. }
  pose proof (ko_bytes s H) as B. pose proof (ko_bytes s' H') as B'. pose proof (ko_count s H) as C. pose proof (ko_count s' H') as C'. destruct s, s'. cbn in *. congruence.
Qed.

(** * Records *)
Lemma load_key_entry s t f row n b : key_text n → u32 t → u32 f → 0 <= row < 2 ^ 64 - 1 → key_entry (((t, f), row), n) = Ok b →
  Z.of_nat (length b) = CATALOG_ENTRY_BYTES ∧ load_key s b = Ok (add_key s (t, f) n row (Z.max (default 0 (ks_next s !! (t, f))) (row + 1))).
Proof.
  intros (Hn & Hb & Hu) Ht Hf Hrow. unfold key_entry. destruct (CATALOG_ENTRY_BYTES <? 24 + text_len n) eqn:E; [done|]. set (tail := replicate _ 0). intros Eb. match type of Eb with Ok ?x = _ => assert (b = x) as -> by congruence end. clear Eb. unfold u32, MAX_KEY_LEN, CATALOG_ENTRY_BYTES, text_len in *.
  match goal with |- Z.of_nat (length ?x) = _ ∧ _ => set (b := x) end. assert (Hlen : Z.of_nat (length b) = 128) by (unfold b, tail, text_len, CATALOG_ENTRY_BYTES; rewrite !length_app, !length_le_bytes; cbn [length]; rewrite length_replicate; lia).
  split; [exact Hlen|]. unfold load_key. rewrite Hlen. change (128 <? CATALOG_ENTRY_BYTES) with false. cbn iota. change (b !! 0%nat) with (Some KIND_ROW_KEY). cbn [unwrap mbind Res_bind]. cbn [negb Z.eqb KIND_ROW_KEY Pos.eqb].
  assert (Hskip : ∀ k o, 2 <= o → @rd KeyError k b o = rd k (drop 2 b) (o - 2)) by (intros k o Ho; unfold rd; change b with ([KIND_ROW_KEY; 0] ++ drop 2 b) at 1; by rewrite slice_app_r).
  assert (Hslice : ∀ k o, 2 <= o → @slice KeyError b o k = slice (drop 2 b) (o - 2) k) by (intros k o Ho; change b with ([KIND_ROW_KEY; 0] ++ drop 2 b) at 1; by rewrite slice_app_r).
  assert (Hd : drop 2 b = le_bytes 2 (text_len n) ++ le_bytes 4 t ++ le_bytes 4 f ++ le_bytes 4 0 ++ le_bytes 8 row ++ n ++ tail) by reflexivity. clearbody b. unfold text_len in *.
  rewrite (Hskip 2%nat), Hd, rd_field_here by (cbn; lia). cbn [mbind Res_bind]. replace (MAX_KEY_LEN <? Z.of_nat (length n)) with false by (symmetry; apply Z.ltb_ge; exact Hn). cbn iota.
  rewrite (Hskip 4%nat 4), Hd by lia. rewrite rd_field_skip by (cbn; lia). change (4 - 2 - Z.of_nat 2) with 0. rewrite rd_field_here by (cbn; lia). cbn [mbind Res_bind]. rewrite (Hskip 4%nat 8), Hd by lia. rewrite !rd_field_skip by (cbn; lia). change (8 - 2 - Z.of_nat 2 - Z.of_nat 4) with 0. rewrite rd_field_here by (cbn; lia). cbn [mbind Res_bind].
  rewrite (Hskip 8%nat 16), Hd by lia. rewrite !rd_field_skip by (cbn; lia). change (16 - 2 - Z.of_nat 2 - Z.of_nat 4 - Z.of_nat 4 - Z.of_nat 4) with 0. rewrite rd_field_here by (cbn; lia). cbn [mbind Res_bind].
  rewrite Hslice, Hd by lia. rewrite !slice_app_r by (rewrite ?length_le_bytes; cbn; lia). rewrite !length_le_bytes. rewrite slice_app_l by done. cbn [mbind Res_bind]. rewrite Hu. cbn [negb]. by rewrite Z.mod_small by lia.
Qed.

(** Loading records of keys that all belong to one consistent store. *)
Lemma load_keys_entries T : keys_ok T → ∀ es bs s, key_entries es = Ok bs → keys_ok s → ks_names s ⊆ ks_names T → NoDup es.*1 → (∀ k n, (k, n) ∈ es → ks_names T !! k = Some n ∧ ks_names s !! k = None) →
  Forall (λ b, Z.of_nat (length b) = CATALOG_ENTRY_BYTES) bs ∧
  ∃ s', load_keys s bs = Ok s' ∧ keys_ok s' ∧ ks_limit s' = ks_limit s ∧ ∀ k n, ks_names s' !! k = Some n ↔ ks_names s !! k = Some n ∨ (k, n) ∈ es.
Proof.
  intros HT. induction es as [|[[[t f] row] n] es IH]; intros bs s Eb Hs Hsub Hnd Hes.
  { injection Eb as <-. split; [constructor|]. exists s. split; [done|]. split; [done|]. split; [done|]. intros k n. split; [by left|]. intros [?|?%not_elem_of_nil]; done. }
  cbn [key_entries] in Eb. destruct (key_entry _) as [b| |] eqn:E1; try done. cbn [mbind Res_bind] in Eb. destruct (key_entries es) as [bs'| |] eqn:E2; try done. cbn in Eb. injection Eb as <-.
  destruct (Hes ((t, f), row) n) as [HnT Hns]; [by left|]. pose proof (ko_text T HT _ _ _ HnT) as (Htx & Hu1 & Hu2). pose proof (next_bound T _ _ _ HT HnT) as Hrow.
  destruct (load_key_entry s t f row n b Htx Hu1 Hu2 ltac:(lia) E1) as [Hlen Hload].
  assert (Hidn : (ks_ids s !! (t, f) ≫= (.!! n)) = None).
  { destruct (ks_ids s !! (t, f) ≫= (.!! n)) as [r|] eqn:E; [|done]. apply (ko_inverse s Hs) in E. pose proof (lookup_weaken _ _ _ _ E Hsub) as E'. apply (ko_inverse T HT) in E', HnT. congruence. }
  assert (Hok : keys_ok (add_key s (t, f) n row (Z.max (default 0 (ks_next s !! (t, f))) (row + 1)))).
  { apply add_key_ok; try done; [lia|]. pose proof (ko_next s Hs (t, f)) as Hx. destruct (ks_next s !! (t, f)) as [k|]; cbn; [destruct Hx as (_ & _ & Hx)|]; lia. }
  cbn [fmap list_fmap fst] in Hnd. apply NoDup_cons in Hnd as [Hin Hnd]. destruct (IH bs' _ eq_refl Hok) as (Hf & s' & Hl & Hs' & Hlim & Hns').
  - cbn [ks_names add_key]. apply insert_subseteq_l; done.
  - exact Hnd.
  - intros k m Hk. destruct (Hes k m) as [H1 H2]; [by right|]. split; [exact H1|]. cbn [ks_names add_key]. rewrite lookup_insert_ne; [done|]. intros <-. apply Hin. apply list_elem_of_fmap. by exists ((t, f, row), m).
  - split; [by constructor|]. exists s'. cbn [load_keys]. rewrite Hload. cbn [mbind Res_bind]. split; [exact Hl|]. split; [exact Hs'|]. split; [exact Hlim|]. intros k m. rewrite Hns', elem_of_cons. cbn [ks_names add_key].
    destruct (decide (k = (t, f, row))) as [->|Hne]; [rewrite lookup_insert_eq|rewrite lookup_insert_ne by congruence].
    + rewrite Hns. split; [intros [[= ->]|?]; [by right; left|by right; right]|intros [?|[[= ->]|?]]; [done|by left|by right]].
    + split; [intros [?|?]; [by left|by right; right]|intros [?|[?|?]]; [by left|congruence|by right]].
Qed.

Lemma key_entries_total es : (∀ k n, (k, n) ∈ es → key_text n) → ∃ bs, key_entries es = Ok bs.
Proof.
  induction es as [|[[[t f] row] n] es IH]; intros H; [by eexists|]. destruct IH as [bs E]; [intros k m Hk; eapply H; by right|]. destruct (H (t, f, row) n) as [Hn _]; [by left|].
  cbn [key_entries key_entry]. unfold CATALOG_ENTRY_BYTES, MAX_KEY_LEN in *. rewrite (proj2 (Z.ltb_ge _ _)) by lia. cbn [mbind Res_bind]. rewrite E. by eexists.
Qed.

Lemma in_key_order_elem m k n : (k, n) ∈ in_key_order m ↔ m !! k = Some n.
Proof. unfold in_key_order. rewrite merge_sort_Permutation. apply elem_of_map_to_list. Qed.

(** Records of other kinds, and what is too short to be a record, are passed over. *)
Definition other_record (e : list Z) : Prop := Z.of_nat (length e) < CATALOG_ENTRY_BYTES ∨ e !! 0%nat ≠ Some KIND_ROW_KEY.
#[export] Instance other_record_dec e : Decision (other_record e).
Proof. unfold other_record. apply _. Defined.

Lemma load_key_other s e : other_record e → load_key s e = Ok s.
Proof.
  intros H. unfold load_key. destruct (Z.ltb_spec (Z.of_nat (length e)) CATALOG_ENTRY_BYTES) as [|Hl]; [done|]. destruct H as [H|H]; [lia|]. destruct e as [|k e]; [done|]. cbn [lookup list_lookup unwrap mbind Res_bind] in *. destruct (Z.eqb_spec k KIND_ROW_KEY) as [->|]; [|done]. by destruct H.
Qed.
Lemma load_keys_filter entries : ∀ s, load_keys s entries = load_keys s (filter (λ e, ¬ other_record e) entries).
Proof.
  induction entries as [|e entries IH]; intros s; [done|]. rewrite filter_cons. cbn [load_keys]. destruct (decide (other_record e)) as [H|H].
  - rewrite decide_False by tauto. rewrite load_key_other by exact H. apply IH.
  - rewrite decide_True by exact H. cbn [load_keys]. destruct (load_key s e); [apply IH|done|done].
Qed.

(** * What the dictionary promises *)
(** C25.  Through any run of [intern], [intern_all], [assign], [remove_scope], [remove_table] and
    [set_key_limit] from an empty store, both directions of the dictionary say the same, every row given
    out is below the field's counter, and the running totals are the number of keys and what they cost.
    The counter is assumed not to pass the 64-bit range, at which the code wraps or stops. *)
Theorem keys_stay_consistent s : rtc key_step keys_new s →
  (∀ t f n r, key_id s t f n = Some r ↔ key_name s t f r = Some n) ∧
  (∀ t f n r, key_name s t f r = Some n → 0 <= r < default 0 (ks_next s !! (t, f))) ∧
  ks_count s = Z.of_nat (size (ks_names s)) ∧ ks_bytes s = msum entry_bytes (map_to_list (ks_names s)).
Proof.
  intros H%reachable_ok. split; [intros; apply (ko_inverse s H)|]. split; [intros t f n r Hn; apply (next_bound s _ _ _ H) in Hn; apply Hn|]. split; [by rewrite (ko_count s H), msum_length, length_map_to_list|apply (ko_bytes s H)].
Qed.

(** C26.  [intern] gives a known key the row it has.  A new key gets a row above every row the field has,
    unless it is over the length limit or the store is at its ceiling, which are the only refusals; the
    lookups after it are those before it and the new key. *)
Theorem intern_gives_rows s table field name : rtc key_step keys_new s → valid_scope table field → valid_name name → rows_left s table field 1 →
  match intern s table field name with
  | Ok (id, s') =>
      text_len name <= MAX_KEY_LEN ∧ (∀ t f n r, key_id s' t f n = Some r ↔ key_id s t f n = Some r ∨ t = table ∧ f = field ∧ n = name ∧ r = id) ∧
      (key_id s table field name = None → (∀ r n, key_name s table field r = Some n → r < id) ∧ ks_count s' = ks_count s + 1 ∧ ∀ limit, ks_limit s = Some limit → ks_count s < limit)
  | Err (TooLong len) => len = text_len name ∧ MAX_KEY_LEN < len
  | Err (TooManyKeys limit) => text_len name <= MAX_KEY_LEN ∧ key_id s table field name = None ∧ ks_limit s = Some limit ∧ limit <= ks_count s
  | _ => False
  end.
Proof.
  intros H%reachable_ok Hsc Hn Hr. pose proof (intern_ok s H table field Hsc name Hn Hr) as Hi. destruct (intern s table field name) as [[id s']|[]|]; try done. destruct Hi as (_ & ? & ? & ? & _). done.
Qed.

(** [assign] records the row it is told, and is the same again when told again; it refuses exactly a
    name over the limit, a name that has another row, and a row that another name has. *)
Theorem assign_refuses_conflicts s table field name row : rtc key_step keys_new s → valid_scope table field → valid_name name → 0 <= row < 2 ^ 64 - 1 →
  match assign s table field name row with
  | Ok s' => text_len name <= MAX_KEY_LEN ∧ (∀ t f n r, key_id s' t f n = Some r ↔ key_id s t f n = Some r ∨ t = table ∧ f = field ∧ n = name ∧ r = row) ∧ assign s' table field name row = Ok s'
  | Err (TooLong len) => len = text_len name ∧ MAX_KEY_LEN < len
  | Err (Conflict len assigned held) => len = text_len name ∧ assigned = row ∧ key_id s table field name = Some held ∧ held ≠ row
  | Err (RowTaken r) => r = row ∧ key_id s table field name = None ∧ ∃ other, key_id s table field other = Some row ∧ other ≠ name
  | _ => False
  end.
Proof.
  intros H%reachable_ok Hsc Hn Hr. pose proof (assign_ok s H table field Hsc name row Hn Hr) as Hi. destruct (assign s table field name row) as [s'|[]|]; try done.
  - destruct Hi as (_ & Hl & Hk). split; [done|]. split; [done|]. unfold assign. rewrite (proj2 (Z.ltb_ge _ _)) by lia. rewrite (proj2 (Hk table field name row)) by (by right). by rewrite Z.eqb_refl.
  - destruct Hi as (-> & Hk & [other Ho]). split; [done|]. split; [done|]. exists other. apply (ko_inverse s H) in Ho. split; [exact Ho|]. intros ->. unfold key_id in Hk. congruence.
Qed.

(** C27.  A store written to the catalog chain as records of [CATALOG_ENTRY_BYTES] and loaded again is the
    store it was, with no ceiling set, however other records stand among its own. *)
Theorem keys_roundtrip s : rtc key_step keys_new s → ∃ bs, keys_encode s = Ok bs ∧ Forall (λ b, Z.of_nat (length b) = CATALOG_ENTRY_BYTES) bs ∧
  ∀ entries, filter (λ e, ¬ other_record e) entries = bs → keys_from_entries entries = Ok (set_key_limit s None).
Proof.
  intros H%reachable_ok. destruct (key_entries_total (in_key_order (ks_names s))) as [bs Eb]; [intros [sc r] n Hk%in_key_order_elem; by apply (ko_text s H) in Hk as [Hk _]|].
  exists bs. split; [exact Eb|]. destruct (load_keys_entries s H _ _ keys_new Eb keys_new_ok) as (Hlen & s' & Hl & Hs' & Hlim & Hns).
  - apply map_empty_subseteq.
  - unfold in_key_order. rewrite merge_sort_Permutation. apply NoDup_fst_map_to_list.
  - intros k n Hk%in_key_order_elem. split; [exact Hk|apply lookup_empty].
  - split; [exact Hlen|]. intros entries <-. unfold keys_from_entries. rewrite load_keys_filter, Hl. f_equal. apply keys_determined; [exact Hs'|by apply set_key_limit_ok| |exact Hlim]. apply map_eq. intros k. apply option_eq. intros n. rewrite Hns, in_key_order_elem. cbn. rewrite lookup_empty. split; [by intros [?|?]|by right].
Qed.

(** A small store: one name interned, one assigned. *)
Definition sample_keys : KeyStore := add_key (add_key keys_new (1, 2) [104; 105] 0 1) (1, 2) [111; 107] 7 8.

Lemma sample_keys_reachable : rtc key_step keys_new sample_keys.
Proof.
  eapply rtc_l; [apply (step_intern _ 1 2 [104; 105] 0 (add_key keys_new (1, 2) [104; 105] 0 1)); [done|split; [by repeat constructor|reflexivity]|reflexivity|vm_compute; reflexivity]|].
  eapply rtc_l; [apply (step_assign _ 1 2 [111; 107] 7 sample_keys); [done|split; [by repeat constructor|reflexivity]|lia|vm_compute; reflexivity]|constructor].
Qed.

Lemma keys_stay_consistent_witness : key_id sample_keys 1 2 [111; 107] = Some 7 ∧ key_name sample_keys 1 2 7 = Some [111; 107] ∧ ks_count sample_keys = 2.
Proof.
  destruct (keys_stay_consistent sample_keys sample_keys_reachable) as (H & _ & Hc & _). split; [reflexivity|]. split; [by apply H|]. rewrite Hc. reflexivity.
Defined.

Lemma intern_gives_rows_witness : ∃ s', intern sample_keys 1 2 [97] = Ok (8, s') ∧ key_id s' 1 2 [97] = Some 8 ∧ 7 < 8.
Proof.
  assert (H := intern_gives_rows sample_keys 1 2 [97] sample_keys_reachable ltac:(done) ltac:(split; [by repeat constructor|reflexivity]) ltac:(reflexivity)).
  exists (add_key sample_keys (1, 2) [97] 8 9). split; [reflexivity|]. change (intern sample_keys 1 2 [97]) with (Ok (E := KeyError) (8, add_key sample_keys (1, 2) [97] 8 9)) in H. cbn iota beta in H. destruct H as (_ & H1 & H2).
  split; [apply H1; by right|]. destruct (H2 eq_refl) as [H3 _]. exact (H3 7 [111; 107] eq_refl).
Defined.

Lemma assign_refuses_conflicts_witness : assign sample_keys 1 2 [97] 7 = Err (RowTaken 7) ∧ ∃ other, key_id sample_keys 1 2 other = Some 7 ∧ other ≠ [97].
Proof.
  split; [reflexivity|].
  assert (H := assign_refuses_conflicts sample_keys 1 2 [97] 7 sample_keys_reachable ltac:(done) ltac:(split; [by repeat constructor|reflexivity]) ltac:(lia)).
  change (assign sample_keys 1 2 [97] 7) with (@Err KeyError KeyStore (RowTaken 7)) in H. cbn iota beta in H. apply H.
Defined.

Lemma keys_roundtrip_witness : ∃ bs, keys_encode sample_keys = Ok bs ∧ keys_from_entries ([9] :: bs) = Ok (set_key_limit sample_keys None).
Proof.
  destruct (keys_roundtrip sample_keys sample_keys_reachable) as (bs & Eb & _ & H). exists bs. split; [exact Eb|]. apply H. revert Eb. vm_compute. intros [= <-]. reflexivity.
Defined.
