(* ===== verification/Rbac.v ===== *)
(** Roles and grants (crates/big-rbac/src/lib.rs): who may do what.

    A name is the list of its bytes.  The maps are [gmap]s; where the order of a [BTreeMap] shows, the
    entries are sorted by key. *)
From Stdlib Require Import Ascii String.
From stdpp Require Import sorting.
From S2P Require Import Prelude Bits RangeMap Calendar.

Definition ANY_DATABASE : Z := 2 ^ 32 - 1.
Definition ANY_TABLE : Z := 2 ^ 32 - 1.
Definition MAX_ROLES : Z := 64.
Definition MAX_GRANTS : Z := 256.

Definition SUPERUSER : list Z := text "superuser".

(** * Privileges *)
Inductive Privilege := PSelect | PInsert | PDelete | PCreate | PDrop | PAlter | PRoles | POperate.
#[export] Instance privilege_eq_dec : EqDecision Privilege.
Proof. solve_decision. Defined.

Definition ALL_PRIVILEGES : list Privilege := [PSelect; PInsert; PDelete; PCreate; PDrop; PAlter; PRoles; POperate].
Definition priv_code (p : Privilege) : Z := match p with PSelect => 0 | PInsert => 1 | PDelete => 2 | PCreate => 3 | PDrop => 4 | PAlter => 5 | PRoles => 6 | POperate => 7 end.
Definition priv_bit (p : Privilege) : Z := Z.shiftl 1 (priv_code p).
Definition priv_str (p : Privilege) : list Z :=
  text (match p with PSelect => "SELECT" | PInsert => "INSERT" | PDelete => "DELETE" | PCreate => "CREATE" | PDrop => "DROP" | PAlter => "ALTER" | PRoles => "ROLES" | POperate => "OPERATE" end).

(** [eq_ignore_ascii_case]. *)
Definition eq_ignore_case (a b : list Z) : bool := bool_decide (to_ascii_lowercase a = to_ascii_lowercase b).
Definition priv_parse (s : list Z) : option Privilege := List.find (λ p, eq_ignore_case (priv_str p) s) ALL_PRIVILEGES.

Inductive Object := OServer | ODatabase (d : list Z) | OTable (d t : list Z).

Definition grantable_on_table (p : Privilege) : bool := match p with PSelect | PInsert | PDelete | PDrop | PAlter => true | _ => false end.
Definition grantable_on_database (p : Privilege) : bool := match p with PRoles | POperate => false | _ => true end.
Definition grantable_on_server (p : Privilege) : bool := true.
Definition grantable_on (p : Privilege) (o : Object) : bool :=
  match o with OServer => grantable_on_server p | ODatabase _ => grantable_on_database p | OTable _ _ => grantable_on_table p end.

(** A set of privileges is a [u32] mask. *)
Definition Privileges := Z.
Definition privs_from (ps : list Privilege) : Privileges := foldl (λ acc p, Z.lor acc (priv_bit p)) 0 ps.
Definition privs_known : Privileges := foldl (λ acc p, Z.lor acc (priv_bit p)) 0 ALL_PRIVILEGES.
Definition privs_all_on (o : Object) : Privileges := privs_from (List.filter (λ p, grantable_on p o) ALL_PRIVILEGES).
Definition privs_contains (m : Privileges) (p : Privilege) : bool := negb (Z.land m (priv_bit p) =? 0).
Definition privs_with (m : Privileges) (p : Privilege) : Privileges := Z.lor m (priv_bit p).
Definition not32 (x : Z) : Z := Z.lxor x (2 ^ 32 - 1).
Definition privs_without (m : Privileges) (p : Privilege) : Privileges := Z.land m (not32 (priv_bit p)).
Definition privs_union (a b : Privileges) : Privileges := Z.lor a b.
Definition privs_minus (a b : Privileges) : Privileges := Z.land a (not32 b).
Definition privs_named (m : Privileges) : list Privilege := List.filter (privs_contains m) ALL_PRIVILEGES.

(** A borrowed object, and what a statement needs of it. *)
Record Demand := mkDemand { dm_privilege : Privilege; dm_on : Object }.
Definition object_database (o : Object) : option (list Z) := match o with OServer => None | ODatabase d | OTable d _ => Some d end.

(** * The store *)
Record GrantKey := mkGrantKey { gk_role : Z; gk_database : Z; gk_table : Z }.
#[export] Instance GrantKey_eq_dec : EqDecision GrantKey.
Proof. solve_decision. Defined.
#[export] Instance GrantKey_countable : Countable GrantKey :=
  inj_countable' (λ k, (gk_role k, gk_database k, gk_table k)) (λ '(r, d, t), mkGrantKey r d t) ltac:(by intros []).

Definition key_server (role : Z) : GrantKey := mkGrantKey role ANY_DATABASE ANY_TABLE.
Definition key_database (role database : Z) : GrantKey := mkGrantKey role database ANY_TABLE.
Definition key_table (role database table : Z) : GrantKey := mkGrantKey role database table.

Inductive RbacError := UnknownRole (n : list Z) | ReservedRole (n : list Z) | TooManyRoles (max : Z) | TooManyGrants (max : Z) | RoleIdsExhausted.

(** Who is asking: a peer or a server without authentication, or the holder of a role. *)
Inductive Who := Trusted | Role (name : list Z).
Definition is_superuser (w : Who) : bool := match w with Role name => bool_decide (name = SUPERUSER) | Trusted => false end.

Record Grants := mkGrants { g_roles : gmap Z (list Z); g_role_ids : gmap (list Z) Z; g_grants : gmap GrantKey Z; g_next_role : Z }.
Definition grants_new : Grants := mkGrants ∅ ∅ ∅ 0.

Definition role (g : Grants) (name : list Z) : option Z := g_role_ids g !! name.
Definition role_name (g : Grants) (id : Z) : option (list Z) := g_roles g !! id.
Definition role_count (g : Grants) : Z := Z.of_nat (size (g_roles g)).
Definition grant_count (g : Grants) : Z := Z.of_nat (size (g_grants g)).

(** The orders the maps are walked in. *)
Definition name_le (a b : list Z * Z) : Prop := str_cmp a.1 b.1 ≠ Gt.
Definition id_le {A} (a b : Z * A) : Prop := a.1 <= b.1.
Definition gk_le (a b : GrantKey * Z) : Prop :=
  gk_role a.1 < gk_role b.1 ∨ gk_role a.1 = gk_role b.1 ∧ (gk_database a.1 < gk_database b.1 ∨ gk_database a.1 = gk_database b.1 ∧ gk_table a.1 <= gk_table b.1).
#[export] Instance id_le_dec {A} (a b : Z * A) : Decision (id_le a b). Proof. unfold id_le. apply _. Defined.
#[export] Instance gk_le_dec a b : Decision (gk_le a b). Proof. unfold gk_le. apply _. Defined.
#[export] Instance name_le_dec a b : Decision (name_le a b). Proof. unfold name_le. apply not_dec. destruct (str_cmp a.1 b.1); [right|right|left]; done. Defined.

Definition roles_by_name (g : Grants) : list (list Z * Z) := merge_sort name_le (map_to_list (g_role_ids g)).
Definition all_roles (g : Grants) : list (Z * list Z) := merge_sort id_le (map_to_list (g_roles g)).
Definition all_grants (g : Grants) : list (GrantKey * Z) := merge_sort gk_le (map_to_list (g_grants g)).
Definition grants_of_role (g : Grants) (r : Z) : list (GrantKey * Z) := filter (λ e, gk_role e.1 = r) (all_grants g).

Definition intern_role (g : Grants) (name : list Z) : Res RbacError (Z * Grants) :=
  if bool_decide (name = SUPERUSER) then Err (ReservedRole name)
  else
    match role g name with
    | Some id => Ok (id, g)
    | None =>
        if MAX_ROLES <=? role_count g then Err (TooManyRoles MAX_ROLES)
        else
          let id := g_next_role g in
          if id =? 2 ^ 32 - 1 then Err RoleIdsExhausted
          else Ok (id, mkGrants (<[id := name]> (g_roles g)) (<[name := id]> (g_role_ids g)) (g_grants g) (id + 1))
    end.

Definition drop_role (g : Grants) (name : list Z) : Res RbacError (bool * Grants) :=
  if bool_decide (name = SUPERUSER) then Err (ReservedRole name)
  else
    match g_role_ids g !! name with
    | None => Ok (false, g)
    | Some id => Ok (true, mkGrants (delete id (g_roles g)) (delete name (g_role_ids g)) (filter (λ e, gk_role e.1 ≠ id) (g_grants g)) (g_next_role g))
    end.

Definition with_grants (g : Grants) (m : gmap GrantKey Z) : Grants := mkGrants (g_roles g) (g_role_ids g) m (g_next_role g).

Definition set_grants (g : Grants) (key : GrantKey) (privileges : Privileges) : Res RbacError Grants :=
  if privileges =? 0 then Ok (with_grants g (delete key (g_grants g)))
  else if negb (bool_decide (is_Some (g_grants g !! key))) && (MAX_GRANTS <=? grant_count g) then Err (TooManyGrants MAX_GRANTS)
  else Ok (with_grants g (<[key := privileges]> (g_grants g))).

Definition get_grants (g : Grants) (key : GrantKey) : Privileges := default 0 (g_grants g !! key).

(** Rebuilding from a file. *)
Definition restore_role (g : Grants) (id : Z) (name : list Z) : Grants :=
  if bool_decide (name = SUPERUSER) then g
  else mkGrants (<[id := name]> (g_roles g)) (<[name := id]> (g_role_ids g)) (g_grants g) (g_next_role g).
Definition restore_grant (g : Grants) (key : GrantKey) (privileges : Privileges) : Grants * bool :=
  if (privileges =? 0) || negb (bool_decide (is_Some (g_roles g !! gk_role key))) then (g, false)
  else (with_grants g (<[key := privileges]> (g_grants g)), true).
Definition observe_role_id (g : Grants) (value : Z) : Grants := mkGrants (g_roles g) (g_role_ids g) (g_grants g) (Z.max (g_next_role g) value).

(** [keys().next_back().map_or(first, |m| m + 1)]: one past the greatest key, at 32 bits. *)
Definition past_last {V} (first : Z) (m : gmap Z V) : Z :=
  match (map_to_list m).*1 with [] => first | k :: ks => (foldr Z.max k ks + 1) mod 2 ^ 32 end.
Definition seal_grants (g : Grants) : Grants := mkGrants (g_roles g) (g_role_ids g) (g_grants g) (Z.max (g_next_role g) (past_last 0 (g_roles g))).

Definition forget_table (g : Grants) (table : Z) : Grants := with_grants g (filter (λ e, gk_table e.1 ≠ table) (g_grants g)).
Definition forget_database (g : Grants) (database : Z) : Grants := with_grants g (filter (λ e, gk_database e.1 ≠ database) (g_grants g)).

(** The decision. *)
Definition effective (g : Grants) (r database table : Z) : Privileges :=
  let held := get_grants g (key_server r) in
  let held :=
    if negb (database =? ANY_DATABASE) then
      let held := privs_union held (get_grants g (key_database r database)) in
      if negb (table =? ANY_TABLE) then privs_union held (get_grants g (key_table r database table)) else held
    else held in
  Z.land held privs_known.
Definition grants_allow (g : Grants) (r : Z) (p : Privilege) (database table : Z) : bool := privs_contains (effective g r database table) p.
