(* ===== verification/RbacStore.v ===== *)
(** Roles and grants as the layers above keep them: the statements of crates/big-embed/src/lib.rs that
    change them, with their guards, and the records of crates/big-db/src/catalog.rs they are stored in.

    Of the catalog this takes the names of databases and tables, the roles and grants, and the counter of
    role ids.  Records of every other kind are passed over. *)
From Stdlib Require Import Ascii String.
From stdpp Require Import sorting.
From S2P Require Import Prelude Bits Page Pager Store Calendar Keys Rbac.

(** The errors these statements return, of the many of [DbError]. *)
Inductive DbError :=
  | NameTooLong (name : list Z) (max : Z) | NameSeparator (name : list Z) | UnknownDatabase (name : list Z) | UnknownTable (name : list Z)
  | DbRbac (e : RbacError).

(** * Names *)
Definition DEFAULT_DATABASE : Z := 0.
Definition DEFAULT_DATABASE_NAME : list Z := text "default".
Definition NAME_AT : Z := 24.
Definition MAX_NAME_LEN : Z := CATALOG_ENTRY_BYTES - NAME_AT.

(** The databases and tables of a catalog, by name; of a table's definition, its id. *)
Record Names := mkNames { nm_database_ids : gmap (list Z) Z; nm_table_ids : gmap Z (gmap (list Z) Z); nm_tables : gmap Z Z }.

Definition catalog_database (c : Names) (name : list Z) : option Z :=
  if bool_decide (name = DEFAULT_DATABASE_NAME) then Some DEFAULT_DATABASE else nm_database_ids c !! name.
Definition catalog_table (c : Names) (database : Z) (name : list Z) : option Z :=
  by_name ← nm_table_ids c !! database; id ← by_name !! name; nm_tables c !! id.

(** A '.' is byte 46. *)
Definition check_name (name : list Z) : Res DbError () :=
  if MAX_NAME_LEN <? text_len name then Err (NameTooLong name MAX_NAME_LEN)
  else if bool_decide (46 ∈ name) then Err (NameSeparator name)
  else Ok ().

(** * Statements *)
(** [transact] commits what the closure leaves when it returns [Ok], and drops it otherwise. *)
Definition create_role (g : Grants) (name : list Z) : Res DbError (bool * Grants) :=
  _ ← check_name name;
  let before := bool_decide (is_Some (role g name)) in
  '(_, g) ← map_err DbRbac (intern_role g name);
  Ok (negb before, g).

Definition embed_drop_role (g : Grants) (name : list Z) : Res DbError (bool * Grants) := map_err DbRbac (drop_role g name).

Definition set_grant (c : Names) (g : Grants) (r : list Z) (database table : option (list Z)) (privileges : Privileges) : Res DbError Grants :=
  if bool_decide (r = SUPERUSER) then Err (DbRbac (ReservedRole r))
  else
    role_id ← ok_or (role g r) (DbRbac (UnknownRole r));
    database_id ← match database with None => Ok ANY_DATABASE | Some name => ok_or (catalog_database c name) (UnknownDatabase name) end;
    table_id ← match table with
               | None => Ok ANY_TABLE
               | Some name => if database_id =? ANY_DATABASE then Err (UnknownTable name) else ok_or (catalog_table c database_id name) (UnknownTable name)
               end;
    map_err DbRbac (set_grants g (mkGrantKey role_id database_id table_id) privileges).

(** * Records *)
Definition KIND_SEQ : Z := 6.
Definition KIND_ROLE : Z := 10.
Definition KIND_GRANT : Z := 11.
Definition SEQ_ROLE : Z := 5.

(** [debug] is a build with debug assertions, in which an over-long name stops the program; otherwise it
    is cut short. *)
Definition put_name (debug : bool) (b : list Z) (name : list Z) : Res DbError (list Z) :=
  let n := text_len name in
  if debug && (MAX_NAME_LEN <? n) then Panic
  else
    let n := Z.min n MAX_NAME_LEN in
    b ← wr b 2 (le_bytes 2 n);
    wr b NAME_AT (take (Z.to_nat n) name).
Definition get_name (b : list Z) : Res DbError (option (list Z)) :=
  n ← rd 2 b 2;
  if MAX_NAME_LEN <? n then Ok None
  else name ← slice b NAME_AT n; Ok (if from_utf8 name then Some name else None).

Definition blank : list Z := replicate (Z.to_nat CATALOG_ENTRY_BYTES) 0.
Definition role_record (debug : bool) (e : Z * list Z) : Res DbError (list Z) :=
  b ← wr blank 0 [KIND_ROLE];
  b ← wr b 4 (le_bytes 4 e.1);
  put_name debug b e.2.
Definition grant_record (e : GrantKey * Z) : Res DbError (list Z) :=
  let '(k, mask) := e in
  b ← wr blank 0 [KIND_GRANT];
  b ← wr b 4 (le_bytes 4 (gk_role k));
  b ← wr b 8 (le_bytes 4 (gk_database k));
  b ← wr b 12 (le_bytes 4 (gk_table k));
  wr b 16 (le_bytes 4 mask).
Definition seq_record (which scope value : Z) : Res DbError (list Z) :=
  b ← wr blank 0 [KIND_SEQ];
  b ← wr b 1 [which];
  b ← wr b 4 (le_bytes 4 scope);
  wr b 8 (le_bytes 4 value).

(** The roles, the grants and the counter, in the order the catalog writes them. *)
Definition rbac_encode (debug : bool) (g : Grants) : Res DbError (list (list Z)) :=
  roles ← res_mapM (role_record debug) (all_roles g);
  grants ← res_mapM grant_record (all_grants g);
  seq ← seq_record SEQ_ROLE 0 (g_next_role g);
  Ok (roles ++ grants ++ [seq]).

(** One record of the chain, on the store and the grants set aside until every role is known. *)
Definition load_record (st : Grants * gmap GrantKey Z) (e : list Z) : Res DbError (Grants * gmap GrantKey Z) :=
  let '(g, staged) := st in
  if Z.of_nat (length e) <? CATALOG_ENTRY_BYTES then Ok st
  else
    k ← unwrap (e !! 0%nat);
    if k =? KIND_ROLE then
      id ← rd 4 e 4;
      name ← get_name e;
      Ok (match name with Some name => restore_role g id name | None => g end, staged)
    else if k =? KIND_GRANT then
      r ← rd 4 e 4;
      d ← rd 4 e 8;
      t ← rd 4 e 12;
      mask ← rd 4 e 16;
      Ok (g, <[mkGrantKey r d t := mask]> staged)
    else if k =? KIND_SEQ then
      _ ← rd 4 e 4;
      value ← rd 4 e 8;
      which ← unwrap (e !! 1%nat);
      Ok (if which =? SEQ_ROLE then observe_role_id g value else g, staged)
    else Ok st.
Fixpoint load_records (st : Grants * gmap GrantKey Z) (entries : list (list Z)) : Res DbError (Grants * gmap GrantKey Z) :=
  match entries with
  | [] => Ok st
  | e :: entries' => st ← load_record st e; load_records st entries'
  end.
Definition in_grant_order (staged : gmap GrantKey Z) : list (GrantKey * Z) := merge_sort gk_le (map_to_list staged).
Definition rbac_from_entries (entries : list (list Z)) : Res DbError Grants :=
  '(g, staged) ← load_records (grants_new, ∅) entries;
  Ok (seal_grants (foldl (λ g (e : GrantKey * Z), (restore_grant g e.1 e.2).1) g (in_grant_order staged))).
