(* ===== verification/RbacSpec.v ===== *)
(** What roles and grants promise (the theory of Rbac.v and RbacStore.v): the masks are sets, the store
    stays consistent through every statement, an id means one role for ever, the decision is the union of
    three levels, and the records of a catalog give the store back in whatever order they stand. *)
From stdpp Require Import sorting.
From S2P Require Import Prelude Bits RangeMap Page Store Keys KeysSpec Rbac RbacStore.

(** * Masks *)
Lemma land_pow2 m k : 0 <= k → Z.land m (2 ^ k) = if Z.testbit m k then 2 ^ k else 0.
Proof.
  intros Hk. apply Z.bits_inj'. intros n Hn. rewrite Z.land_spec, Z.pow2_bits_eqb by lia. destruct (Z.eqb_spec k n) as [<-|Hne].
  - rewrite andb_true_r. destruct (Z.testbit m k) eqn:E; [by rewrite Z.pow2_bits_true by lia|by rewrite Z.bits_0].
  - rewrite andb_false_r. destruct (Z.testbit m k); [by rewrite Z.pow2_bits_false by lia|by rewrite Z.bits_0].
Qed.

Lemma priv_bit_pow p : priv_bit p = 2 ^ priv_code p.
Proof. by destruct p. Qed.
Lemma priv_code_range p : 0 <= priv_code p < 8.
Proof. destruct p; cbn; lia. Qed.
Lemma priv_code_inj p q : priv_code p = priv_code q → p = q.
Proof. destruct p, q; done. Qed.

Lemma contains_bit m p : privs_contains m p = Z.testbit m (priv_code p).
Proof.
  unfold privs_contains. rewrite priv_bit_pow, land_pow2 by apply priv_code_range. destruct (Z.testbit m (priv_code p)); [|done].
  pose proof (Z.pow_pos_nonneg 2 (priv_code p) ltac:(lia) (proj1 (priv_code_range p))) as Hp. destruct (Z.eqb_spec (2 ^ priv_code p) 0); [lia|done].
Qed.

Lemma bit_of p q : Z.testbit (priv_bit p) (priv_code q) = bool_decide (p = q).
Proof.
  rewrite priv_bit_pow, Z.pow2_bits_eqb by apply priv_code_range. case_bool_decide as E; [subst; apply Z.eqb_refl|]. apply Z.eqb_neq. intros H. by apply E, priv_code_inj.
Qed.
Lemma not32_bit x p : Z.testbit (not32 x) (priv_code p) = negb (Z.testbit x (priv_code p)).
Proof. unfold not32. pose proof (priv_code_range p). rewrite Z.lxor_spec. change (2 ^ 32 - 1) with (Z.ones 32). rewrite Z.ones_spec_low by lia. by rewrite xorb_true_r. Qed.

(** The masks are sets of privileges. *)
Lemma with_contains m p q : privs_contains (privs_with m p) q = privs_contains m q || bool_decide (p = q).
Proof. rewrite !contains_bit. unfold privs_with. by rewrite Z.lor_spec, bit_of. Qed.
Lemma without_contains m p q : privs_contains (privs_without m p) q = privs_contains m q && negb (bool_decide (p = q)).
Proof. rewrite !contains_bit. unfold privs_without. by rewrite Z.land_spec, not32_bit, bit_of. Qed.
Lemma union_contains a b q : privs_contains (privs_union a b) q = privs_contains a q || privs_contains b q.
Proof. rewrite !contains_bit. apply Z.lor_spec. Qed.
Lemma minus_contains a b q : privs_contains (privs_minus a b) q = privs_contains a q && negb (privs_contains b q).
Proof. rewrite !contains_bit. unfold privs_minus. by rewrite Z.land_spec, not32_bit. Qed.
Lemma known_contains m q : privs_contains (Z.land m privs_known) q = privs_contains m q.
Proof. rewrite !contains_bit, Z.land_spec. replace (Z.testbit privs_known (priv_code q)) with true by (by destruct q). apply andb_true_r. Qed.
Lemma from_contains ps q : privs_contains (privs_from ps) q = bool_decide (q ∈ ps).
Proof.
  unfold privs_from. rewrite contains_bit. assert (G : ∀ a, Z.testbit (foldl (λ acc p, Z.lor acc (priv_bit p)) a ps) (priv_code q) = Z.testbit a (priv_code q) || bool_decide (q ∈ ps)).
  { induction ps as [|p ps IH]; intros a; cbn [foldl]; [by rewrite bool_decide_eq_false_2, orb_false_r by apply not_elem_of_nil|]. rewrite IH, Z.lor_spec, bit_of. rewrite <- orb_assoc. f_equal. rewrite (bool_decide_ext (q ∈ p :: ps) (p = q ∨ q ∈ ps)), bool_decide_or; [done|]. rewrite elem_of_cons. naive_solver. }
  by rewrite G, Z.bits_0.
Qed.























Lemma grant_order_elem staged e : e ∈ in_grant_order staged ↔ staged !! e.1 = Some e.2.
Proof. unfold in_grant_order. rewrite merge_sort_Permutation. destruct e. apply elem_of_map_to_list. Qed.












(** Records that are not about roles and grants are passed over. *)
Definition other_rbac (e : list Z) : Prop :=
  Z.of_nat (length e) < CATALOG_ENTRY_BYTES ∨ e !! 0%nat ≠ Some KIND_ROLE ∧ e !! 0%nat ≠ Some KIND_GRANT ∧ (e !! 0%nat ≠ Some KIND_SEQ ∨ e !! 1%nat ≠ Some SEQ_ROLE).
#[export] Instance other_rbac_dec e : Decision (other_rbac e).
Proof. unfold other_rbac. apply _. Defined.




(** * What roles and grants promise *)

(** What one key holds. *)
Definition holds (g : Grants) (k : GrantKey) (p : Privilege) : Prop := privs_contains (get_grants g k) p = true.


(** C24.  A role is allowed what the server-wide grant, the grant of the database or the grant of the table
    holds, and nothing else: bits no privilege has are never acted on, and the levels below the one asked
    about do not count.  Granting adds exactly the privileges named and revoking takes exactly them, at
    that key and no other. *)
Theorem decision_is_union g r p database table :
  (grants_allow g r p database table = true ↔
     holds g (key_server r) p ∨ (database ≠ ANY_DATABASE ∧ (holds g (key_database r database) p ∨ (table ≠ ANY_TABLE ∧ holds g (key_table r database table) p)))) ∧
  (∀ k ps g', set_grants g k (privs_union (get_grants g k) (privs_from ps)) = Ok g' → ∀ k' q, holds g' k' q ↔ holds g k' q ∨ k' = k ∧ q ∈ ps) ∧
  (∀ k ps g', set_grants g k (privs_minus (get_grants g k) (privs_from ps)) = Ok g' → ∀ k' q, holds g' k' q ↔ holds g k' q ∧ ¬ (k' = k ∧ q ∈ ps)).
Proof.
  assert (Hset : ∀ k m g', set_grants g k m = Ok g' → ∀ k', get_grants g' k' = if decide (k' = k) then m else get_grants g k').
  { intros k m g'. unfold set_grants, get_grants. destruct (Z.eqb_spec m 0) as [->|_]; [intros [= <-]|destruct (_ && _); [done|]; intros [= <-]]; intros k'; cbn; (destruct (decide (k' = k)) as [->|Hne]; [by rewrite ?lookup_delete_eq, ?lookup_insert_eq|by rewrite ?lookup_delete_ne, ?lookup_insert_ne by done]). }
  split; [|split].
  - unfold grants_allow, effective, holds. rewrite known_contains. destruct (Z.eqb_spec database ANY_DATABASE) as [->|Hd]; cbn [negb]; [naive_solver|]. destruct (Z.eqb_spec table ANY_TABLE) as [->|Ht]; cbn [negb]; rewrite !union_contains, ?orb_true_iff; naive_solver.
  - intros k ps g' Hg k' q. unfold holds. rewrite (Hset _ _ _ Hg). destruct (decide (k' = k)) as [->|]; [|naive_solver]. rewrite union_contains, from_contains, orb_true_iff, bool_decide_eq_true. naive_solver.
  - intros k ps g' Hg k' q. unfold holds. rewrite (Hset _ _ _ Hg). destruct (decide (k' = k)) as [->|]; [|naive_solver]. rewrite minus_contains, from_contains, andb_true_iff, negb_true_iff, bool_decide_eq_false. naive_solver.
Qed.

(** A store with one role and one grant, on a database called d. *)
Definition sample_grants : Grants := mkGrants {[0 := [97]]} {[[97] := 0]} {[key_database 0 7 := 5]} 1.
Definition sample_names : Names := mkNames {[[100] := 7]} ∅ ∅.

(** A statement naming a role nobody made, or a table of no database, is refused. *)
Example set_grant_refuses : set_grant sample_names sample_grants [98] None None 1 = Err (DbRbac (UnknownRole [98])) ∧ set_grant sample_names sample_grants [97] None (Some [116]) 1 = Err (UnknownTable [116]).
Proof. split; reflexivity. Qed.

Example sample_decision : grants_allow sample_grants 0 PDelete 7 3 = true ∧ grants_allow sample_grants 0 PInsert 7 3 = false ∧ grants_allow sample_grants 0 PSelect 8 3 = false ∧ priv_parse (priv_str PAlter) = Some PAlter.
Proof. vm_compute. done. Qed.
Lemma decision_is_union_witness : grants_allow sample_grants 0 PDelete 7 3 = true ∧ holds sample_grants (key_database 0 7) PDelete.
Proof.
  assert (E : holds sample_grants (key_database 0 7) PDelete) by reflexivity. split; [|exact E]. apply (decision_is_union sample_grants 0 PDelete 7 3). right. split; [done|]. left. exact E.
Defined.
